(* ===== verification/_CoqProject ===== *)
-Q . S2P
Prelude.v
BTree.v
Types.v
Window.v
Clock.v
Currency.v
Instrument.v
Corporate.v
Order.v
Book.v
L3.v
Position.v
Models.v
Account.v
Settlement.v
Replay.v
Execution.v
EngineIndex.v
Strategy.v
Engine.v
EngineDemo.v
EngineMoney.v
EngineRun.v
EngineLedger.v
StoreData.v
Float64.v
Layout.v
Manifest.v
TableSpec.v
Disk.v
Store.v
ForkIndex.v
Database.v
StoreRules.v
Commit.v
CommitProps.v
Transaction.v
TransactionProps.v
Retention.v
Forks.v
Reads.v
RetentionProps.v
VacuumProps.v
History.v
ForkProps.v
Arrow.v
DataPolicy.v
Segment.v
SegmentIO.v
SortProps.v
Writes.v
Scan.v
WriterProps.v
TableContents.v
RowWrites.v
RowProps.v
RowTheorems.v
StoreWitness.v
RowWitness.v
AsOf.v
AsOfTheorems.v
Rollup.v
RollupProps.v
QueryWitness.v
Decimal.v
EventIO.v
MarketStore.v
RunStore.v
EventProps.v
RunFork.v
ReferenceTables.v
EventWitness.v
Wire.v
Kalshi.v
Polymarket.v
Ingest.v
Hyperliquid.v
VenueProps.v
VenueWitness.v
