(* ===== verification/Prelude.v ===== *)
(** * h5i-db: a verification library

    A model of four crates of h5i-db, a versioned store of market data with a backtester
    on it, with the theorems that make them correct: the storage engine
    [src/crates/h5i-db-core/src] (Part I), the event-driven backtester
    [src/crates/h5i-db-backtest/src] (Part II) with its event store, which keeps market data
    and runs in tables of the storage engine (Part III), the ASOF join and the cached
    aggregates of the query layer [src/crates/h5i-db-query/src] (Part IV), and the adapters that turn what venues publish
    into market data [src/crates/h5i-db-venues/src] (Part V).  This file is the root: its
    header documents the whole development, its body is the prelude (results and [let?], machine integers
    and their wrap-around, record update, tactics, the hint database [h5i], generic lemmas
    on lists, options, integers and finite maps) that every other file requires.  Parts I
    and II share the prelude alone; Part III is a client of both, Part IV of Part I, and Part V
    of Part III.

    ** Part I: the storage engine

    A table is a directory of immutable segments (Parquet files) and manifests (one per
    version: parent, checksum, schema revision, segments with their statistics), and a HEAD
    file that names the current manifest by its checksum.  A commit writes the manifest,
    flushes it, and swaps HEAD under the table's lock if HEAD is still the one it read
    ([catalog.rs], [database.rs]).  A transaction stages the manifests of several tables,
    journals the HEADs to be swapped and swaps them; opening the database rolls a complete
    journal forward ([transaction.rs]).  Snapshots name a version of each table; forks pin
    every table at its HEAD, read through to the base, and get a shadow of their own for a
    table they write ([fork.rs], [fork_index.rs]); promotion moves a shadow back onto its
    base.  A retention floor cuts old versions off and vacuum deletes what neither HEAD's
    history above the floor, a snapshot, a fork, a lease nor a plan needs ([retention.rs],
    [database.rs], [plan.rs]).

    Rows come and go in Arrow batches.  A write validates them against the schema and the
    table's data policy ([data_policy.rs]), sorts and merges them ([segment.rs]), and encodes
    them into segments, each put under a staging lease first so that vacuum spares it, with
    the statistics of its columns and the range of its times.  An append adds segments
    behind those of the parent; a range rewrite keeps, drops or re-encodes segments by their
    time ranges; a compaction merges small ones.  A scan skips segments by their time range
    and row groups by their Parquet statistics, filters rows, and adapts old segments to the
    current schema; a tail polls for new versions ([tail.rs], [incremental.rs]).

    *** Files

    In dependency order, each opening with its own comment:
    - [StoreData]: every stored object ([manifest.rs], [spec.rs], [snapshot.rs], [fork.rs],
      [plan.rs], [policy.rs], [transaction.rs], [error.rs]), sealing and its verification,
      the class [Env].  [Layout]: paths ([layout.rs]).  [Manifest]: manifests, segments,
      rollups, commit times.  [TableSpec]: specs, evolution, adapting batches, policies
      ([spec.rs], [evolution.rs], [policy.rs]).
    - [Disk]: the file store with its crash model, and programs over it.  [Store]: the local
      backend, [LocalHeadStore] and the metadata stores ([backend.rs], [catalog.rs] and the
      loaders of the others).
    - [ForkIndex] ([fork_index.rs]), [Database] (handle, names, resolution), [Commit] (the
      commit protocol and all that goes through it), [Transaction], [Retention] (with
      [incremental.rs]; its Module [Vacuum] with [verify]), [Forks] (with promotion).
    - Rows: [Arrow] (the interface to the Arrow and Parquet libraries: the class [ArrowRows]
      of their operations, the classes [ArrowLaws] and [ArrowRowsSpec] of their documented
      laws), [DataPolicy] ([data_policy.rs]), [Segment] (statistics and time ranges),
      [SegmentIO] (sort and merge, writer and reader), all of [segment.rs]; [Writes]
      ([database.rs], [transaction.rs]), [Scan] ([database.rs], [incremental.rs], [tail.rs];
      its Module [Plans] [plan.rs]).
    - Theorems: [StoreRules], [Reads] (rules for calls, loaders and path classes),
      [CommitProps], [TransactionProps], [RetentionProps] (first the fork index),
      [VacuumProps], [History], [ForkProps]; for rows [SortProps] (first the merge),
      [WriterProps] (first the statistics), [TableContents] (the rows a table holds, its
      time ranges, staged rows), [RowWrites] (the invariant [rows_ok]), [RowProps] (at its
      end ranges), [RowTheorems].
    - [StoreWitness]: a concrete [Env], small databases, and the runs that surprise.
      [RowWitness]: concrete Arrow kernels proved to obey the laws, a table with rows, and
      more such runs.  Both hold boolean checks of the disk predicates, and the witnesses.

    *** Conventions

    - An object is the typed value its JSON encodes; an object of a path that does not hold
      its type does not parse.  The hash (blake3), object sizes, UUIDs and the wall clock are
      the class [Env].  A theorem that needs a collision-free hash says so.
    - A path is the list of its parts.  A [Disk] holds what was written and what is
      [pending] (not flushed): after a power loss each pending change is kept, lost, or, for
      a put, torn ([survives]).
    - An operation is a free monad of calls to the backend, each of which may fail by an
      environment's choice.  [run] executes it without faults, [states] are the disks at
      every moment under any faults, [crashes] what survives a power loss at one, [wpc] and
      [finds] the rules theorems are proved with.
    - A section under the exclusive lock is atomic with respect to other writers; theorems
      that speak of concurrency quantify over what the operation read before it.  Lock files
      are not kept.
    - A HEAD is written to a temporary file, flushed, renamed and flushed again, one call
      each ([CreateTemp], [SyncTemp], [Rename], [SyncObjects]); a temporary file stands under
      its target in [temps], and renamed unflushed it may come back torn.  Those a crash
      leaves behind, which nothing reads, are not counted among the files.
    - Arrow arrays are typed lists of optional cells; sorting, taking, filtering,
      concatenating and casting kernels, and the Parquet encoder and decoder, are the
      operations of [ArrowRows].  The laws say what their documentation says: a sort
      is lexicographic (not stable), a decoder returns the rows the encoder was given, row groups
      partition a file in order and their statistics bound their rows.
    - The rows of a table ([table_rows]) are those of its segments in manifest order; a
      theorem about a mutation says how they change, whatever calls fail.

    *** Fuel

    [Commit.replay_from] 64 versions and one, the code's own bound; the bisection of
    [as_of_sequence] 65 steps, enough for 64 bits ([as_of_sequence_is_scan]); the search of
    [set_retention] head minus floor, the length of the code's loop; the merge of a write has
    one chunk per row left and one ([merge_is_stable_sort]).  Walks over fork trees
    ([collect_subtree]) have a node per fork as fuel: the code's recursion is bounded by it
    because a visited fork is not entered again.

    *** Theorems

    - Commits: [commit_crash_safe], [commit_is_cas], [commits_keep_the_chain],
      [restore_brings_back], [replay_is_search].
    - Transactions: [transaction_all_or_nothing], [transaction_success].
    - Deleting: [vacuum_keeps_what_is_needed], [retention_respects_pins],
      [clean_verify_vouches].  The first two suppose an honest fork index ([index_honest]):
      [recreated_fork_loses_its_pin] shows one that is not.
    - Forks: [forks_pin_every_head], [promotion_builds_on_the_base],
      [drop_releases_the_pin_last].
    - Rows: [append_adds_its_rows], [write_replaces_the_rows], [range_is_replaced],
      [compaction_keeps_the_rows], [scan_reads_the_window]; beneath them
      [merge_is_stable_sort], [staging_is_leased], [statistics_bound_the_column],
      [enforce_fails_closed].  The operations are those of a handle on the base, without an
      idempotency key; where segments are rewritten or scanned they are of the schema revision
      of their version, and the scan is of all columns.
    - Reading: [as_of_sequence_is_scan], [diff_is_what_was_appended],
      [window_classifies_segment], [path_numbers_read_back].
    - Schemas: [validate_evolution_iff], [evolved_batch_reads], [adapting_composes].
    - What the code does that its comments do not say, each as a run in [StoreWitness]:
      [recreated_fork_loses_its_pin], [torn_journal_blocks_open],
      [nested_fork_pins_the_live_head], [keyed_write_in_a_fork_is_skipped],
      [plan_in_a_fork_moves_the_base], [restore_below_the_floor_loses_segments],
      [diff_in_a_fork_reports_inherited_segments], [evolution_after_restore_rewrites_a_spec],
      [drop_fork_tree_stops_at_a_diamond]; in [RowWitness] [long_string_above_the_maximum],
      [nan_passes_a_lower_bound], [policy_is_lost_in_a_fork],
      [policy_of_a_fork_reaches_the_base], [old_segments_cannot_be_compacted].

    ** Part II: the backtester

    A backtest replays recorded market events against a strategy.  Sources sorted by time
    are merged into one stream ([replay.rs]); for each record the engine ([engine.rs])
    advances its clock and fires timers ([clock.rs]), updates the books ([book.rs]) and
    marks, settles funding and corporate actions ([corporate.rs]), fills resting orders
    from prints and crossings, enforces margin ([account.rs]), arms triggers, works TWAPs,
    calls the strategy, and releases the orders whose latency has passed, matching them
    against the book through the fill and fee models ([models.rs]).  Fills move positions
    ([position.rs]) and cash.  After the run, resolutions settle what is left
    ([settlement.rs]).  All numbers are fixed-point [i64] ([types.rs]).

    *** Files

    In dependency order:
    - [BTree]: [BTreeMap] as its entries in key order and [BinaryHeap] as a
      min-first priority queue, used for every ordered container of the code.
    - [Types] ([types.rs], [error.rs]): fixed-point arithmetic, both [notional] builds,
      display, time stamps, the error type.
    - [Window], [Clock], [Currency], [Instrument], [Corporate], [Order], [Book], [L3],
      [Position], [Models], [Account], [Settlement], [Replay] (with [event.rs]),
      [Execution]: the Rust file of the same name.  A struct is a Record, its [impl] a Module of the same
      name with one definition per method; a trait is a Class ([FeeModel], [FillModel],
      [LatencyModel], [MarginModel], [ExecutionClient], [Strategy]) and each implementor an
      Instance.  [LawfulMargin] and [LawfulStrategy] state what every implementor promises
      and are proved for each.
    - [EngineIndex] ([Slots], [RestingIndex] of [engine.rs]), [Strategy] (requests,
      [Context], the [Strategy] trait, [SignalReplay], [CommandReplay]) and [Engine] (the
      kernel: every method of [impl Engine], the builder's result).
    - [EngineDemo]: a small run for the witnesses.  [EngineMoney]: what each operation does
      to money, as the step relation [money_step].  [EngineRun], [EngineLedger]: the
      theorems about the engine.

    *** Conventions

    - A newtype over an integer is the [Z] it wraps.  [checked_*] operations return an
      error outside the type's range, [saturating_*] clamp ([sat64]), and unchecked
      [+ - * abs neg] are those of a release build, with the wrap-around written out
      ([add64], [sub64], [mul64], [neg64], [abs64], [wrap128], [wrap_u32]).  The [u64]
      counters of events and ids are not bounded.
    - [&mut self] methods return the new state; a method that fails returns no state unless
      the code's caller can observe the partial effect ([SymbolRegistry.assign]).  Inside
      the engine every error ends the run, so the state is dropped with it.
    - The engine's struct is split in two: [Config] holds what [EngineBuilder::build] sets
      for good, [Engine] (fields [e_*]) what a run changes.  Scratch vectors kept for their
      allocation are local lists.  Trait objects are type parameters, and what they mutate
      behind a lock is threaded through their calls.
    - A [HashMap] whose order is not observed is a [gmap]; a [BTreeMap] is a [BTree].
    - Structured errors carry all their fields; free-form messages and rejection reasons
      keep their leading words, without the interpolated values.
    - Constructors that take an [f64] are modelled from the fixed-point value they parse;
      the parsing itself is in [Wire].
    - A [RecordSource] is the list of results its iterator yields.
    - The command queue is drained in one pass: no command enqueues another.

    *** Fuel

    Every loop that is not structural has fuel that is computed from the state and proved
    enough: [Clock.advance_fuel] (one step per timer and per period left to fire;
    [advance_to_fires_due]), [Window.chunks_fuel] ([chunks_tile]), [Replay.remaining]
    ([next_record_shrinks], [run_is_fold], [replay_merges]), [digit_fuel] and
    [show_digits] (the binary logarithm).  Where no fuel is enough that is a theorem:
    [advance_to_max_diverges].

    *** Theorems

    - The run: [cash_ledger_balances] (money is conserved to the raw unit over every run),
      [fills_explain_positions] (the fills rebuild the portfolio), [run_is_fold]; by
      induction over [money_step], whose preservation lemmas are proved once per step.
    - The replay and clock: [replay_merges], [replay_refuses_disorder],
      [advance_to_fires_due].
    - Books and indexes, against list specifications: [l3_refines_arrival_order],
      [l3_queue_position], [index_refines_scan], [walk_best_execution],
      [book_feed_invariant], [stale_until_snapshot].
    - Positions, orders and money: [fill_moves_equity], [replay_is_fold],
      [record_fill_conserves], [notional_nearest], [notional_wide_exact],
      [display_fixed_reads_back], [round_to_tick_accepted], [split_position_value].
    - Margin and settlement: [no_liquidation_on_partial_knowledge] (of the engine's margin
      call), [partial_close_bounds], [margin_requirement_ordered], [cash_margin_covers_worst_case], [settle_gated],
      [resolution_pays_one_unit], [set_operation_pays_one_unit].
    - Venue models: [kalshi_whole_cents], [tiered_fee_uses_trailing_volume],
      [prediction_fee_curve], [tick_slippage_adverse], [twap_works_total].
    - The rest: [fx_rate_resolves], [resolve_after_assign], [chunks_tile],
      [coverage_partial_bounded].
    - What the code does not do: [advance_to_max_diverges],
      [refused_assign_leaves_panicking_ticker], [amend_opens_naked_short],
      [split_oversells_partly_filled_order].

    ** Part III: the event store and runs

    Market data lives in canonical tables ([schema.rs]), one per kind of event; a book event
    is one row per level with its last row marked.  Fixed-point columns are binary64 or
    decimals, as the table was created ([decimal.rs]).  [store.rs] turns events into columns
    and appends them (an append into the past becomes a merge of the range it covers), and
    scans tables back into events, as lazy sources for the replay.  [run.rs] runs a strategy
    in a fork: market data, replay and engine first, resolutions only then, settlement, and
    five output tables in one transaction.

    - [Float64]: binary64 numbers of the Standard Library, the error of a rounded
      quotient or product, exact sums of integers, and the order of finite numbers.  [Decimal] ([decimal.rs]).  [EventIO]: [schema.rs] and the shared
      half of [store.rs].  [MarketStore], [RunStore]: the tables of market data, and those
      of strategies and runs.  [RunFork]: [run.rs] and the coverage gate of [window.rs].
    - [EventProps]: the class [Feed] of tables with a row per event and [FeedSpec], its laws,
      with an instance for trades, funding, reference prices and corporate actions.
      [ReferenceTables]: books, instruments, fills, resolutions.  [EventWitness]: witnesses and runs that surprise.
    - A batch [presents] rows when it has the columns a reader asks for, by name, with their
      types and cells; other columns and their order are free, as they are in a scan.
    - Theorems: [fixed_column_reads_back], and what is written reads back, however a scan
      cuts it into batches: [feed_reads_back], [book_reads_back], [instruments_read_back],
      [fills_read_back], [resolutions_read_back].
    - What the code does that its comments do not say: [float_column_loses_a_unit],
      [positions_ignore_splits], [rewrite_may_break_a_snapshot].
    - A program of the event store returns the backtester's errors: [core_err] keeps the
      leading words of a database error.

    ** Part IV: the query layer

    [AsOf] models [asof.rs]: key types, the index of the right side, the probe, a batch, the
    whole execution, and the filters and columns the table function pushes down.
    [AsOfTheorems] proves that the join is its definition over all rows
    ([asof_join_is_its_definition], with the exact distance of two times, for a tolerance that
    is not negative and times less than [2^63] apart) and that the pushdown does not change its answer
    ([asof_pushdown_is_sound]).

    [Rollup] models [aggregate_state.rs] with [sidecar.rs]: open, high, low, close, volume
    and VWAP per group of a version, merged from one state per immutable segment.  A state
    is built from the rows of its segment or read from a sidecar file, which is verified
    against segment, plan and checksum; a built one is sealed, published if absent, and old
    sidecars are evicted over a budget.  It is a program over the database of Part I;
    serde_json and blake3 on bytes are the class [SidecarKernels], [SidecarLaws] says that
    parsing inverts serialising when the skipped compensations are zero.

    [RollupProps] proves, under any faults of the disk: [rollup_is_of_all_rows] (a rollup
    reports what one pass over all rows does, whatever the cache holds),
    [whole_volumes_are_exact] (sums of integers below 2^53 are exact),
    [rollup_keeps_to_its_cache] (nothing but sidecars is touched, and a sidecar that
    verifies is the sealed state of its segment: the predicate [honest], kept at every
    moment), [warm_rollup_equals_cold] (reading back what was sealed gives the same floats
    without reading a row).  They assume a [catalogue]: a segment is its id and the version
    that stamped it, and lies outside the cache; and blake3 without collisions.

    [QueryWitness] has the witnesses, and what the comments do not say:
    [unsealed_sum_differs], [greatest_volume_is_inexact].

    ** Part V: venue adapters

    An adapter turns bytes a venue published into records of the event store.  Each is pure
    but for the Kalshi decoder, which follows the deltas of one market by their sequence
    numbers and reports a gap when it has lost the book.  What a load produced is an ingest
    plan: validated, recognised by its digest, and committed stream by stream.

    - [Wire]: JSON values and the parsing of numbers; serde_json is the class [Serde] (text to
      value), chrono the class [Chrono].  A decimal is parsed to the nearest binary64, as
      [str::parse] documents, and then to fixed point ([types.rs]).
    - [Kalshi] ([kalshi.rs]): the parsers and [OrderbookDecoder]; [Step] is [Step::of].
    - [Polymarket] ([polymarket.rs]), with its calendar in the Module [instant].
    - [Ingest] ([lib.rs]): [IngestPlan], the bytes its digest hashes, [write_plan].
    - [Hyperliquid] ([hyperliquid.rs], [hyperliquid_archive.rs]): the parsers, the two readers
      of an archive (the class [RawSerde] is serde at the derived structs), and the walk of a
      downloaded archive over a [FileTree]; LZ4 is the class [Lz4].
    - [VenueProps]: [decoder_drives_book] (the decoder's records rebuild its book),
      [synced_follows_the_venue] (in step means the book of the venue at the last number, for a
      [Venue] that numbers its deltas and never restarts), [instants_count_the_calendar] (against a calendar that counts days one at
      a time), [merged_plan_is_committable], [fast_reader_agrees] (under the laws [RawAgrees]
      of serde).  In [Wire], [decimals_are_exact].  [VenueWitness]: witnesses, and what the
      comments do not say: [unreadable_delta_is_lost_silently], [a_near_restart_is_left_out],
      [days_past_the_month_are_accepted], [digest_leaves_columns_out],
      [mixed_coins_read_differently].

    ** Not modelled

    Of the storage engine: the object-store HEAD backend ([backend_object.rs]), lock files,
    the sleeps between retries and polls, and what the Arrow and Parquet libraries do inside
    their operations.  Of the backtester: the figures printed in messages; the two reads of a run
    that [try_join] interleaves are made in turn.  Of the query layer: all but [asof.rs],
    [aggregate_state.rs] and [sidecar.rs], which is registration with DataFusion, gap filling
    and functions over floats.  Of the venue adapters: base URLs, and the values interpolated
    in messages.  The command line, notebook, bindings and user interfaces of the other
    crates: they parse arguments, draw, and call the operations modelled here.

    ** Plan

    In order: rows appended to a stored table as a multiset, composing [append_with] with the
    theorems about rows, and from there the state [write_plan] leaves; the object-store HEAD
    backend; gap filling and the other pure parts of the query layer; the safety of stopped markets over a run, and unique order ids under
    [LawfulStrategy]. *)
From Stdlib Require Export ZArith Lia Bool Ascii String.
From stdpp Require Export base list numbers strings gmap sorting.
#[global] Open Scope Z_scope.

(** ** Results

    Rust's [Result<T, E>].  [let?] is the [?] operator: it returns the error of
    its argument and otherwise binds the value. *)
Inductive result (E A : Type) : Type :=
| Ok (a : A)
| Err (e : E).
Arguments Ok {E A} a.
Arguments Err {E A} e.

Declare Scope result_scope.
Delimit Scope result_scope with result.
Open Scope result_scope.

Notation "'let?' x := e 'in' k" :=
  (match e with Ok x => k | Err er => Err er end)
  (at level 10, x name, e at level 200, k at level 200) : result_scope.
Notation "'let?' ' p := e 'in' k" :=
  (match e with Ok p => k | Err er => Err er end)
  (at level 10, p strict pattern, e at level 200, k at level 200) : result_scope.

Definition is_ok {E A} (r : result E A) : bool :=
  match r with Ok _ => true | Err _ => false end.

(** [Result::ok]. *)
Definition ok {E A} (r : result E A) : option A :=
  match r with Ok a => Some a | Err _ => None end.

(** [Option::ok_or]. *)
Definition ok_or {E A} (o : option A) (e : E) : result E A :=
  match o with Some a => Ok a | None => Err e end.

(** A [for] loop whose body may return an error: it stops at the first one. *)
Fixpoint foldr_res {E A S} (body : S -> A -> result E S) (s : S) (l : list A) : result E S :=
  match l with
  | [] => Ok s
  | a :: l' => let? s' := body s a in foldr_res body s' l'
  end.

(** [collect::<Result<Vec<_>>>]. *)
Fixpoint map_res {E A B} (f : A -> result E B) (l : list A) : result E (list B) :=
  match l with
  | [] => Ok []
  | a :: l' => let? b := f a in let? bs := map_res f l' in Ok (b :: bs)
  end.

(** An error of a loop is an error of its body. *)
Lemma foldr_res_err {E A S} (P : E -> Prop) (body : S -> A -> result E S) l :
  (forall s a e, body s a = Err e -> P e) -> forall s e, foldr_res body s l = Err e -> P e.
Proof.
  intros Hb. induction l as [|a l IH]; intros s e; cbn; [done|].
  destruct (body s a) eqn:Eb; [apply IH|]. intros [= <-]. eauto.
Qed.

Lemma map_res_err {E A B} (P : E -> Prop) (f : A -> result E B) l :
  (forall a e, f a = Err e -> P e) -> forall e, map_res f l = Err e -> P e.
Proof.
  intros Hf. induction l as [|a l IH]; intros e; cbn; [done|].
  destruct (f a) eqn:Ea; [destruct (map_res f l)|]; intros [= <-]; eauto.
Qed.

Lemma map_res_ext {E A B} (f g : A -> result E B) l : (forall a, f a = g a) -> map_res f l = map_res g l.
Proof. intros Hfg. induction l as [|a l IH]; cbn; [done|]. by rewrite Hfg, IH. Qed.

Lemma map_res_exists {E A B} (f : A -> result E B) (P : A -> B -> Prop) l :
  Forall (fun a => exists b, f a = Ok b /\ P a b) l -> exists bs, map_res f l = Ok bs /\ Forall2 P l bs.
Proof.
  induction 1 as [|a l (b & Hb & HP) _ (bs & Hbs & HPs)]; cbn; [eauto|].
  rewrite Hb, Hbs. eauto.
Qed.

(** ** Machine integers

    A signed [w]-bit integer is a [Z]; [swrap w] is what an unchecked operation of
    a release build leaves in the register. *)
Definition swrap (w z : Z) : Z := (z + 2 ^ (w - 1)) mod 2 ^ w - 2 ^ (w - 1).
Definition smin (w : Z) : Z := - 2 ^ (w - 1).
Definition smax (w : Z) : Z := 2 ^ (w - 1) - 1.

Definition i64_min : Z := -9223372036854775808.
Definition i64_max : Z := 9223372036854775807.
Definition i128_min : Z := -170141183460469231731687303715884105728.
Definition i128_max : Z := 170141183460469231731687303715884105727.

Definition in_i64 (z : Z) : Prop := i64_min <= z <= i64_max.
Definition in_i128 (z : Z) : Prop := i128_min <= z <= i128_max.
Definition in_i64b (z : Z) : bool := (i64_min <=? z) && (z <=? i64_max).
Definition in_i128b (z : Z) : bool := (i128_min <=? z) && (z <=? i128_max).

Definition wrap64 (z : Z) : Z := swrap 64 z.
Definition wrap128 (z : Z) : Z := swrap 128 z.

(** [checked_*]: the exact value when it fits. *)
Definition checked64 (z : Z) : option Z := if in_i64b z then Some z else None.
Definition checked128 (z : Z) : option Z := if in_i128b z then Some z else None.

(** [saturating_*]: clamped to the ends of the type. *)
Definition sat64 (z : Z) : Z := Z.max i64_min (Z.min i64_max z).

(** Unchecked [i64] arithmetic. *)
Definition add64 (a b : Z) : Z := wrap64 (a + b).
Definition sub64 (a b : Z) : Z := wrap64 (a - b).
Definition mul64 (a b : Z) : Z := wrap64 (a * b).
Definition neg64 (a : Z) : Z := wrap64 (- a).
Definition abs64 (a : Z) : Z := wrap64 (Z.abs a).

(** [iter().sum()] over [i64] and over [i128]. *)
Definition sum64 (l : list Z) : Z := fold_left add64 l 0.
Definition sum128 (l : list Z) : Z := fold_left (fun a b => wrap128 (a + b)) l 0.

(** The exact sum, the specification of both. *)
Definition zsum (l : list Z) : Z := foldr Z.add 0 l.

(** Rust's integer division with the numerator moved half a divisor away from
    zero first: rounding half away from zero. *)
Definition div_half_away (num den : Z) : Z :=
  if 0 <=? num then Z.quot (num + Z.quot den 2) den
  else Z.quot (num - Z.quot den 2) den.

(** ** Tactics *)

(** Linear arithmetic over [Z.quot], [Z.rem], [Z.div] and [Z.modulo]. *)
Ltac div_lia := Z.to_euclidean_division_equations; lia.
Ltac div_nia := Z.to_euclidean_division_equations; nia.

(** Unfold the width predicates and constants. *)
Ltac widths :=
  unfold in_i64, in_i128, i64_min, i64_max, i128_min, i128_max in *.

(** Break every [match] on a result or option in hypothesis [H] and keep the
    equations; contradictory branches are closed. *)
Ltac res_inv_in H :=
  repeat match type of H with
  | context [match ?x with _ => _ end] =>
      let E := fresh "E" in destruct x eqn:E; try discriminate H
  end;
  try (injection H as H); subst.

(** Turn boolean comparisons into propositions everywhere. *)
Ltac bool_prop :=
  repeat match goal with
  | H : (_ && _) = true |- _ => apply andb_true_iff in H as [? ?]
  | H : (_ && _) = false |- _ => apply andb_false_iff in H
  | H : (_ || _) = true |- _ => apply orb_true_iff in H
  | H : (_ || _) = false |- _ => apply orb_false_iff in H as [? ?]
  | H : negb _ = true |- _ => apply negb_true_iff in H
  | H : negb _ = false |- _ => apply negb_false_iff in H
  | H : (_ <=? _) = true |- _ => apply Z.leb_le in H
  | H : (_ <=? _) = false |- _ => apply Z.leb_gt in H
  | H : (_ <? _) = true |- _ => apply Z.ltb_lt in H
  | H : (_ <? _) = false |- _ => apply Z.ltb_ge in H
  | H : (_ =? _) = true |- _ => apply Z.eqb_eq in H
  | H : (_ =? _) = false |- _ => apply Z.eqb_neq in H
  end.

Create HintDb h5i.
#[export] Hint Constructors Forall Sorted : h5i.

(** ** Record update

    [r <| f := v |>] replaces one field.  The setter of a field is found from the
    record's eta expansion, declared once per record as an [Eta] instance. *)
Class Eta (R : Type) := eta : R -> R.
Class Setter {R T : Type} (f : R -> T) := setter : (T -> T) -> R -> R.

Ltac solve_setter :=
  lazymatch goal with
  | |- @Setter ?R ?T ?f =>
      let e := constr:(_ : Eta R) in
      let e := eval unfold eta in e in
      let e := eval hnf in e in
      lazymatch eval pattern f in e with
      | ?g f => let s := eval cbv beta in (fun (h : T -> T) => g (fun r => h (f r))) in
                exact s
      end
  end.
#[export] Hint Extern 1 (Setter _) => solve_setter : typeclass_instances.

Declare Scope record_scope.
Delimit Scope record_scope with record.
Open Scope record_scope.
#[warnings="-postfix-notation-not-level-1"]
Notation "r <| f := v |>" := (setter (f := f) (fun _ => v) r)
  (at level 12, left associativity, f constr at level 9, v at level 200) : record_scope.

(** ** Lemmas shared by the components *)

Lemma swrap_id w z : 0 < w -> smin w <= z <= smax w -> swrap w z = z.
Proof.
  unfold swrap, smin, smax. intros Hw Hz.
  assert (2 ^ w = 2 * 2 ^ (w - 1)) by
    (rewrite <- Z.pow_succ_r by lia; f_equal; lia).
  rewrite Z.mod_small; lia.
Qed.

Lemma swrap_range w z : 0 < w -> smin w <= swrap w z <= smax w.
Proof.
  unfold swrap, smin, smax. intros Hw.
  assert (2 ^ w = 2 * 2 ^ (w - 1)) by
    (rewrite <- Z.pow_succ_r by lia; f_equal; lia).
  assert (0 < 2 ^ (w - 1)) by (apply Z.pow_pos_nonneg; lia).
  pose proof (Z.mod_pos_bound (z + 2 ^ (w - 1)) (2 ^ w)). lia.
Qed.

Lemma wrap64_id z : in_i64 z -> wrap64 z = z.
Proof. intros H. apply swrap_id; [lia|]. exact H. Qed.

Lemma wrap128_id z : in_i128 z -> wrap128 z = z.
Proof. intros H. apply swrap_id; [lia|]. exact H. Qed.

Lemma wrap64_range z : in_i64 (wrap64 z).
Proof. apply (swrap_range 64 z). lia. Qed.

Lemma wrap128_range z : in_i128 (wrap128 z).
Proof. apply (swrap_range 128 z). lia. Qed.

(** Wrapping is a congruence: a value may be wrapped late. *)
Lemma swrap_add_l w a b : swrap w (swrap w a + b) = swrap w (a + b).
Proof.
  unfold swrap. f_equal.
  replace ((a + 2 ^ (w - 1)) mod 2 ^ w - 2 ^ (w - 1) + b + 2 ^ (w - 1))
    with ((a + 2 ^ (w - 1)) mod 2 ^ w + b) by lia.
  rewrite Zplus_mod_idemp_l. f_equal. lia.
Qed.

Lemma add64_wrap_l a b : add64 (wrap64 a) b = wrap64 (a + b).
Proof. exact (swrap_add_l 64 a b). Qed.

Lemma in_i64b_spec z : in_i64b z = true <-> in_i64 z.
Proof. unfold in_i64b, in_i64. rewrite andb_true_iff, !Z.leb_le. tauto. Qed.

Lemma in_i128b_spec z : in_i128b z = true <-> in_i128 z.
Proof. unfold in_i128b, in_i128. rewrite andb_true_iff, !Z.leb_le. tauto. Qed.

Lemma checked64_Some z v : checked64 z = Some v <-> in_i64 z /\ v = z.
Proof.
  unfold checked64. destruct (in_i64b z) eqn:E.
  - apply in_i64b_spec in E. intuition congruence.
  - split; [discriminate|]. intros [H _]. apply in_i64b_spec in H. congruence.
Qed.

Lemma checked128_Some z v : checked128 z = Some v <-> in_i128 z /\ v = z.
Proof.
  unfold checked128. destruct (in_i128b z) eqn:E.
  - apply in_i128b_spec in E. intuition congruence.
  - split; [discriminate|]. intros [H _]. apply in_i128b_spec in H. congruence.
Qed.

(** The product of two [i64] never leaves [i128]. *)
Lemma i64_mul_in_i128 a b : in_i64 a -> in_i64 b -> in_i128 (a * b).
Proof.
  unfold in_i64, in_i128. intros Ha Hb.
  assert (Z.abs (a * b) <= 9223372036854775808 * 9223372036854775808).
  { rewrite Z.abs_mul. apply Z.mul_le_mono_nonneg; widths; lia. }
  widths. lia.
Qed.

Lemma ok_or_Ok {E A} (o : option A) (e : E) a : ok_or o e = Ok a <-> o = Some a.
Proof. destruct o; cbn; split; congruence. Qed.

Lemma zsum_app l1 l2 : zsum (l1 ++ l2) = zsum l1 + zsum l2.
Proof.
  unfold zsum. induction l1 as [|x l1 IH]; cbn; [done|]. by rewrite IH, Z.add_assoc.
Qed.

Lemma zsum_cons x l : zsum (x :: l) = x + zsum l.
Proof. reflexivity. Qed.

Lemma zsum_nonneg l : Forall (fun x => 0 <= x) l -> 0 <= zsum l.
Proof. induction 1; cbn; unfold zsum in *; lia. Qed.

Lemma swrap_fold_sum w l a :
  fold_left (fun x y => swrap w (x + y)) l (swrap w a) = swrap w (a + zsum l).
Proof.
  revert a. induction l as [|x l IH]; intros a; cbn.
  - f_equal. lia.
  - rewrite swrap_add_l, IH. f_equal. unfold zsum. lia.
Qed.

(** A release-build sum equals the exact sum, wrapped once. *)
Lemma sum64_wrap l : sum64 l = wrap64 (zsum l).
Proof. exact (swrap_fold_sum 64 l 0). Qed.

Lemma sum128_wrap l : sum128 l = wrap128 (zsum l).
Proof. exact (swrap_fold_sum 128 l 0). Qed.

Lemma sum64_exact l : in_i64 (zsum l) -> sum64 l = zsum l.
Proof. intros. rewrite sum64_wrap. by apply wrap64_id. Qed.

Lemma sum128_exact l : in_i128 (zsum l) -> sum128 l = zsum l.
Proof. intros. rewrite sum128_wrap. by apply wrap128_id. Qed.

(** Rounding half away from zero is nearest, and odd. *)
Lemma div_half_away_nearest n d :
  0 < d -> 2 * Z.abs (d * div_half_away n d - n) <= d.
Proof.
  intros Hd. unfold div_half_away.
  destruct (0 <=? n) eqn:E; bool_prop; div_nia.
Qed.

Lemma div_half_away_opp n d :
  0 < d -> div_half_away (- n) d = - div_half_away n d.
Proof.
  intros Hd. unfold div_half_away.
  destruct (Z.eq_dec n 0) as [->|Hn].
  - change (- 0) with 0. cbn -[Z.quot]. rewrite Z.quot_small; [done|]. div_lia.
  - destruct (0 <=? n) eqn:E1, (0 <=? - n) eqn:E2; bool_prop; try lia.
    + replace (- n - Z.quot d 2) with (- (n + Z.quot d 2)) by lia.
      by rewrite Z.quot_opp_l by lia.
    + replace (- n + Z.quot d 2) with (- (n - Z.quot d 2)) by lia.
      by rewrite Z.quot_opp_l by lia.
Qed.

Lemma div_half_away_exact k d : 0 < d -> div_half_away (k * d) d = k.
Proof.
  intros Hd. pose proof (div_half_away_nearest (k * d) d Hd).
  destruct (Z.lt_trichotomy (div_half_away (k * d) d) k) as [|[|]]; [|lia|]; exfalso.
  - assert (d * (div_half_away (k * d) d - k) <= - d) by nia. lia.
  - assert (d * (div_half_away (k * d) d - k) >= d) by nia. lia.
Qed.

Lemma div_half_away_nonneg n d : 0 < d -> 0 <= n -> 0 <= div_half_away n d.
Proof.
  intros Hd Hn. unfold div_half_away. rewrite (proj2 (Z.leb_le 0 n) Hn).
  apply Z.quot_pos; [|lia]. pose proof (Z.quot_pos d 2). lia.
Qed.

Lemma div_half_away_mono n m d :
  0 < d -> n <= m -> div_half_away n d <= div_half_away m d.
Proof.
  intros Hd Hnm. assert (0 <= Z.quot d 2 < d) by div_lia.
  unfold div_half_away. destruct (0 <=? n) eqn:E1, (0 <=? m) eqn:E2; bool_prop; try lia.
  - apply Z.quot_le_mono; lia.
  - transitivity 0; [|apply Z.quot_pos; lia]. div_nia.
  - apply Z.quot_le_mono; lia.
Qed.

Lemma foldr_res_app {E A S} (f : S -> A -> result E S) l1 l2 s :
  foldr_res f s (l1 ++ l2) = let? s' := foldr_res f s l1 in foldr_res f s' l2.
Proof.
  revert s. induction l1 as [|a l1 IH]; intros s; cbn; [done|].
  destruct (f s a); [apply IH|done].
Qed.

(** An invariant of the body is an invariant of the loop. *)
Lemma foldr_res_inv {E A S} (f : S -> A -> result E S) (P : S -> Prop) :
  (forall s a s', P s -> f s a = Ok s' -> P s') ->
  forall l s s', P s -> foldr_res f s l = Ok s' -> P s'.
Proof.
  intros Hf l. induction l as [|a l IH]; cbn; intros s s' Hs H.
  - by injection H as <-.
  - destruct (f s a) eqn:Ef; [|discriminate]. eauto.
Qed.

Lemma map_res_Forall2 {E A B} (f : A -> result E B) l bs :
  map_res f l = Ok bs <-> Forall2 (fun a b => f a = Ok b) l bs.
Proof.
  revert bs. induction l as [|a l IH]; intros bs; cbn.
  - split; [intros [= <-]; constructor | inversion 1; done].
  - split.
    + intros H. destruct (f a) eqn:Ef; [|discriminate].
      destruct (map_res f l) eqn:El; [|discriminate]. injection H as <-.
      constructor; [done|]. by apply IH.
    + inversion 1 as [|? b ? bs' Ha Hl]; subst. rewrite Ha.
      apply IH in Hl. by rewrite Hl.
Qed.

Lemma zsum_Permutation l1 l2 : l1 ≡ₚ l2 -> zsum l1 = zsum l2.
Proof. unfold zsum. induction 1; cbn; lia. Qed.

Lemma StronglySorted_map {A B} (R : B -> B -> Prop) (f : A -> B) l :
  StronglySorted R (map f l) <-> StronglySorted (fun a b => R (f a) (f b)) l.
Proof.
  induction l as [|a l IH]; cbn; [split; constructor|]. split.
  - intros [H1 H2]%StronglySorted_inv. constructor; [by apply IH|].
    rewrite Forall_map in H2. exact H2.
  - intros [H1 H2]%StronglySorted_inv. constructor; [by apply IH|]. by apply Forall_map.
Qed.

Lemma StronglySorted_rev {A} (R : A -> A -> Prop) l :
  StronglySorted R l -> StronglySorted (fun a b => R b a) (rev l).
Proof.
  induction 1 as [|a l Hl IH Ha]; cbn; [constructor|].
  apply StronglySorted_app. split; [|split; [done|repeat constructor]].
  intros x y Hx Hy. apply list_elem_of_In, in_rev in Hx.
  apply list_elem_of_singleton in Hy as ->. rewrite List.Forall_forall in Ha. by apply Ha.
Qed.

Lemma StronglySorted_weaken {A} (R S : A -> A -> Prop) l :
  (forall a b, R a b -> S a b) -> StronglySorted R l -> StronglySorted S l.
Proof.
  intros HRS. induction 1 as [|a l Hl IH Ha]; constructor; [done|].
  eapply Forall_impl; [exact Ha|]. auto.
Qed.

(** Filters decided for every element, or alike at each. *)
Lemma filter_all {A} (f : A -> bool) l : Forall (fun x => f x = true) l -> List.filter f l = l.
Proof. induction 1 as [|x l Hx _ IH]; cbn; [done|]. by rewrite Hx, IH. Qed.
Lemma filter_none {A} (f : A -> bool) l : Forall (fun x => f x = false) l -> List.filter f l = [].
Proof. induction 1 as [|x l Hx _ IH]; cbn; [done|]. by rewrite Hx. Qed.
Lemma filter_ext_Forall {A} (p q : A -> bool) l : Forall (fun x => p x = q x) l -> List.filter p l = List.filter q l.
Proof. induction 1 as [|x l Hx _ IH]; [done|]. cbn. by rewrite Hx, IH. Qed.
