(* ===== verification/BTree.v ===== *)
(** * Ordered containers of the Rust standard library

    [std::collections::BTreeMap] and [BinaryHeap] as the backtester uses them: a
    map iterated in key order, and a min-first priority queue.  A map is the list
    of its entries in ascending key order; lookups and updates need no
    well-formedness hypothesis, iteration order does ([bwf]). *)
From S2P Require Export Prelude.

(** ** Ordered keys *)

(** A total order given by a comparison function, Rust's [Ord]. *)
Class OrdKey (K : Type) := {
  kcmp : K -> K -> comparison;
  kcmp_eq : forall a b, kcmp a b = Eq <-> a = b;
  kcmp_antisym : forall a b, kcmp b a = CompOpp (kcmp a b);
  kcmp_lt_trans : forall a b c, kcmp a b = Lt -> kcmp b c = Lt -> kcmp a c = Lt;
}.

Definition klt {K} `{OrdKey K} (a b : K) : Prop := kcmp a b = Lt.
Definition kle {K} `{OrdKey K} (a b : K) : Prop := kcmp a b <> Gt.
Definition kltb {K} `{OrdKey K} (a b : K) : bool :=
  match kcmp a b with Lt => true | _ => false end.
Definition kleb {K} `{OrdKey K} (a b : K) : bool :=
  match kcmp a b with Gt => false | _ => true end.
Definition keqb {K} `{OrdKey K} (a b : K) : bool :=
  match kcmp a b with Eq => true | _ => false end.

Section OrdKeyLemmas.
Context {K : Type} `{OrdKey K}.
Implicit Types a b c : K.

Lemma kcmp_refl a : kcmp a a = Eq.
Proof. by apply kcmp_eq. Qed.

Lemma kcmp_gt_lt a b : kcmp a b = Gt <-> kcmp b a = Lt.
Proof. rewrite (kcmp_antisym a b). destruct (kcmp a b); cbn; split; congruence. Qed.

Lemma keqb_eq a b : keqb a b = true <-> a = b.
Proof. unfold keqb. rewrite <- kcmp_eq. destruct (kcmp a b); split; congruence. Qed.

Lemma keqb_neq a b : keqb a b = false <-> a <> b.
Proof. rewrite <- keqb_eq. destruct (keqb a b); split; congruence. Qed.

Lemma keqb_refl a : keqb a a = true.
Proof. by apply keqb_eq. Qed.

Lemma klt_irrefl a : ~ klt a a.
Proof. unfold klt. rewrite kcmp_refl. congruence. Qed.

Lemma klt_trans a b c : klt a b -> klt b c -> klt a c.
Proof. apply kcmp_lt_trans. Qed.

Lemma kle_refl a : kle a a.
Proof. unfold kle. rewrite kcmp_refl. congruence. Qed.

Lemma klt_kle a b : klt a b -> kle a b.
Proof. unfold klt, kle. congruence. Qed.

Lemma kle_lt_or_eq a b : kle a b <-> klt a b \/ a = b.
Proof.
  unfold kle, klt. rewrite <- kcmp_eq. destruct (kcmp a b); intuition congruence.
Qed.

Lemma kle_trans a b c : kle a b -> kle b c -> kle a c.
Proof.
  rewrite !kle_lt_or_eq. intros [?| ->] [?| ->]; eauto using klt_trans.
Qed.

Lemma klt_kle_trans a b c : klt a b -> kle b c -> klt a c.
Proof. rewrite kle_lt_or_eq. intros ? [?| ->]; eauto using klt_trans. Qed.

Lemma kle_antisym a b : kle a b -> kle b a -> a = b.
Proof.
  rewrite !kle_lt_or_eq. intros [H1|] [H2|]; try done.
  by destruct (klt_irrefl a (klt_trans _ _ _ H1 H2)).
Qed.

Lemma kleb_spec a b : kleb a b = true <-> kle a b.
Proof. unfold kleb, kle. destruct (kcmp a b); split; congruence. Qed.

Lemma kltb_spec a b : kltb a b = true <-> klt a b.
Proof. unfold kltb, klt. destruct (kcmp a b); split; congruence. Qed.

Lemma kle_total a b : kle a b \/ klt b a.
Proof. unfold kle, klt. rewrite (kcmp_antisym a b). destruct (kcmp a b); cbn; intuition congruence. Qed.
End OrdKeyLemmas.

(** ** Instances *)

#[global, program] Instance ordkey_Z : OrdKey Z := {| kcmp := Z.compare |}.
Next Obligation. exact Z.compare_eq_iff. Qed.
Next Obligation. intros. apply Z.compare_antisym. Qed.
Next Obligation. intros a b c. rewrite !Z.compare_lt_iff. lia. Qed.

Lemma klt_Z (a b : Z) : klt a b <-> a < b.
Proof. apply Z.compare_lt_iff. Qed.
Lemma kle_Z (a b : Z) : kle a b <-> a <= b.
Proof. reflexivity. Qed.

(** Byte strings compare lexicographically, as [str] does. *)
#[global, program] Instance ordkey_string : OrdKey string := {| kcmp := String.compare |}.
Next Obligation.
  split; [apply String.compare_eq_iff|]. intros ->.
  pose proof (String.compare_antisym b b) as H. by destruct (String.compare b b).
Qed.
Next Obligation. intros. apply String.compare_antisym. Qed.
Next Obligation.
  induction a as [|x a IH]; intros [|y b] [|z c]; cbn; try congruence.
  unfold Ascii.compare.
  destruct (N.compare_spec (Ascii.N_of_ascii x) (Ascii.N_of_ascii y)) as [E1|E1|E1],
    (N.compare_spec (Ascii.N_of_ascii y) (Ascii.N_of_ascii z)) as [E2|E2|E2];
    try congruence; intros H1 H2;
    destruct (N.compare_spec (Ascii.N_of_ascii x) (Ascii.N_of_ascii z)) as [E3|E3|E3];
    try lia; eauto.
Qed.

(** Tuples and derived [Ord] on structs: field by field. *)
Section PairKey.
Context {A B : Type} `{OrdKey A} `{OrdKey B}.
Definition pair_cmp (p q : A * B) : comparison :=
  match kcmp p.1 q.1 with Eq => kcmp p.2 q.2 | c => c end.

#[global, program] Instance ordkey_pair : OrdKey (A * B) := {| kcmp := pair_cmp |}.
Next Obligation.
  intros [a1 b1] [a2 b2]. unfold pair_cmp; cbn.
  destruct (kcmp a1 a2) eqn:E; [apply kcmp_eq in E as ->; rewrite kcmp_eq|..];
    split; try congruence; intros [= -> ->]; by rewrite kcmp_refl in E.
Qed.
Next Obligation.
  intros [a1 b1] [a2 b2]. unfold pair_cmp; cbn.
  rewrite (kcmp_antisym a1 a2). destruct (kcmp a1 a2); cbn; auto using kcmp_antisym.
Qed.
Next Obligation.
  intros [a1 b1] [a2 b2] [a3 b3]. unfold pair_cmp; cbn.
  destruct (kcmp a1 a2) eqn:E1; try congruence.
  - apply kcmp_eq in E1 as ->. destruct (kcmp a2 a3); eauto using kcmp_lt_trans.
  - intros _. destruct (kcmp a2 a3) eqn:E2; try congruence.
    + apply kcmp_eq in E2 as <-. by rewrite E1.
    + by rewrite (kcmp_lt_trans _ _ _ E1 E2).
Qed.
End PairKey.

(** ** Maps in key order *)

Abbreviation BTree K V := (list (K * V)).

Section BTree.
Context {K V : Type} `{OrdKey K}.
Implicit Types (m : BTree K V) (k j : K) (v : V).

Fixpoint bget k m : option V :=
  match m with
  | [] => None
  | (j, v) :: m' => if keqb k j then Some v else bget k m'
  end.

(** [insert]: replaces the value of a present key. *)
Fixpoint binsert k v m : BTree K V :=
  match m with
  | [] => [(k, v)]
  | (j, w) :: m' =>
      match kcmp k j with
      | Lt => (k, v) :: m
      | Eq => (k, v) :: m'
      | Gt => (j, w) :: binsert k v m'
      end
  end.

Definition bremove k m : BTree K V := List.filter (fun e => negb (keqb k e.1)) m.

Definition bcontains k m : bool := match bget k m with Some _ => true | None => false end.
Definition bkeys m : list K := map fst m.
Definition bvalues m : list V := map snd m.

(** [iter().next()] and [iter().next_back()]. *)
Definition bfirst m : option (K * V) := head m.
Definition blast m : option (K * V) := last m.

(** [range(lo..)] and [range(..=hi)], ascending. *)
Definition brange_from lo m : BTree K V := List.filter (fun e => kleb lo e.1) m.
Definition brange_to hi m : BTree K V := List.filter (fun e => kleb e.1 hi) m.

(** [get_mut] followed by an update in place. *)
Definition bupdate (f : V -> V) k m : BTree K V :=
  match bget k m with Some v => binsert k (f v) m | None => m end.

(** [entry(k).or_insert(d)] followed by an update in place. *)
Definition bentry (d : V) (f : V -> V) k m : BTree K V :=
  binsert k (f (default d (bget k m))) m.

Definition bwf m : Prop := StronglySorted klt (bkeys m).

(** *** Lookups *)

Lemma bget_insert_eq k v m : bget k (binsert k v m) = Some v.
Proof.
  induction m as [|[j w] m IH]; cbn; [by rewrite keqb_refl|].
  destruct (kcmp k j) eqn:E; cbn; rewrite ?keqb_refl; [done..|].
  unfold keqb. by rewrite E.
Qed.

Lemma bget_insert_ne k j v m : j <> k -> bget j (binsert k v m) = bget j m.
Proof.
  intros Hne. induction m as [|[i w] m IH]; cbn.
  - by rewrite (proj2 (keqb_neq j k)).
  - destruct (kcmp k i) eqn:E; cbn.
    + apply kcmp_eq in E as <-. by rewrite (proj2 (keqb_neq j k)).
    + by rewrite (proj2 (keqb_neq j k)).
    + by rewrite IH.
Qed.

Lemma bget_insert k j v m :
  bget j (binsert k v m) = if keqb j k then Some v else bget j m.
Proof.
  destruct (keqb j k) eqn:E.
  - apply keqb_eq in E as ->. apply bget_insert_eq.
  - apply keqb_neq in E. by apply bget_insert_ne.
Qed.

Lemma bget_remove_eq k m : bget k (bremove k m) = None.
Proof.
  unfold bremove. induction m as [|[j w] m IH]; cbn; [done|].
  destruct (keqb k j) eqn:E; cbn; [done|]. by rewrite E.
Qed.

Lemma bget_remove_ne k j m : j <> k -> bget j (bremove k m) = bget j m.
Proof.
  intros Hne. unfold bremove. induction m as [|[i w] m IH]; cbn; [done|].
  destruct (keqb k i) eqn:E; cbn.
  - apply keqb_eq in E as <-. by rewrite (proj2 (keqb_neq j k)).
  - by rewrite IH.
Qed.

Lemma bget_In k v m : bget k m = Some v -> In (k, v) m.
Proof.
  induction m as [|[j w] m IH]; cbn; [done|].
  destruct (keqb k j) eqn:E.
  - apply keqb_eq in E as ->. intros [= ->]. by left.
  - auto.
Qed.

Lemma bget_None_keys k m : bget k m = None <-> ~ In k (bkeys m).
Proof.
  induction m as [|[j w] m IH]; cbn; [intuition congruence|].
  destruct (keqb k j) eqn:E.
  - apply keqb_eq in E as ->. split; [done|]. intros []. by left.
  - apply keqb_neq in E. rewrite IH. intuition congruence.
Qed.

(** *** Order *)

Lemma bwf_nil : bwf [].
Proof. constructor. Qed.

Lemma bkeys_insert_In k v m j : In j (bkeys (binsert k v m)) <-> j = k \/ In j (bkeys m).
Proof.
  induction m as [|[i w] m IH]; cbn; [intuition|].
  destruct (kcmp k i) eqn:E; cbn.
  - apply kcmp_eq in E as ->. intuition.
  - intuition.
  - cbn in IH. rewrite IH. intuition.
Qed.

Lemma bwf_insert k v m : bwf m -> bwf (binsert k v m).
Proof.
  unfold bwf. induction m as [|[j w] m IH]; cbn; intros Hm.
  - repeat constructor.
  - apply StronglySorted_inv in Hm as [Hm Hj].
    destruct (kcmp k j) eqn:E; cbn.
    + apply kcmp_eq in E as ->. by constructor.
    + constructor; [by constructor|]. constructor; [done|].
      eapply Forall_impl; [exact Hj|]. intros i. by apply klt_trans.
    + constructor; [by apply IH|]. apply List.Forall_forall. intros i Hi.
      apply bkeys_insert_In in Hi as [->|Hi].
      * by apply kcmp_gt_lt.
      * rewrite List.Forall_forall in Hj. by apply Hj.
Qed.

Lemma bwf_filter (p : K * V -> bool) m : bwf m -> bwf (List.filter p m).
Proof.
  unfold bwf. induction m as [|e m IH]; cbn; [done|]. intros Hm.
  apply StronglySorted_inv in Hm as [Hm He].
  destruct (p e); cbn; [|by apply IH]. constructor; [by apply IH|].
  apply List.Forall_forall. intros i Hi. rewrite List.Forall_forall in He. apply He.
  apply in_map_iff in Hi as (e' & <- & Hin). apply filter_In in Hin as [Hin _].
  by apply in_map.
Qed.

Lemma bwf_remove k m : bwf m -> bwf (bremove k m).
Proof. apply bwf_filter. Qed.

Lemma bwf_update f k m : bwf m -> bwf (bupdate f k m).
Proof. unfold bupdate. destruct (bget k m); auto using bwf_insert. Qed.

Lemma bwf_entry d f k m : bwf m -> bwf (bentry d f k m).
Proof. apply bwf_insert. Qed.

(** In a well-formed map an entry is found by its key. *)
Lemma bwf_In_get k v m : bwf m -> In (k, v) m -> bget k m = Some v.
Proof.
  unfold bwf. induction m as [|[j w] m IH]; cbn; [done|]. intros Hm [[= -> ->]|Hin].
  - by rewrite keqb_refl.
  - apply StronglySorted_inv in Hm as [Hm Hj]. destruct (keqb k j) eqn:E; [|by apply IH].
    apply keqb_eq in E as ->. rewrite List.Forall_forall in Hj.
    destruct (klt_irrefl j). apply Hj. by apply (in_map fst _ (j, v)).
Qed.

Lemma bwf_In_iff k v m : bwf m -> In (k, v) m <-> bget k m = Some v.
Proof. split; [by apply bwf_In_get | apply bget_In]. Qed.

Lemma bwf_NoDup m : bwf m -> NoDup (bkeys m).
Proof.
  unfold bwf. induction 1 as [|k ks Hs IH Hk]; constructor; [|done].
  intros Hin. rewrite Forall_forall in Hk. by destruct (klt_irrefl k (Hk _ Hin)).
Qed.

(** Two well-formed maps with the same lookups are the same list. *)
Lemma bwf_ext m1 m2 : bwf m1 -> bwf m2 -> (forall k, bget k m1 = bget k m2) -> m1 = m2.
Proof.
  revert m2. induction m1 as [|[k1 v1] m1 IH]; intros [|[k2 v2] m2] H1 H2 Hg.
  - done.
  - specialize (Hg k2). cbn in Hg. by rewrite keqb_refl in Hg.
  - specialize (Hg k1). cbn in Hg. by rewrite keqb_refl in Hg.
  - unfold bwf in H1, H2. cbn in H1, H2.
    apply StronglySorted_inv in H1 as [S1 F1], H2 as [S2 F2].
    rewrite List.Forall_forall in F1, F2.
    assert (k1 = k2) as ->.
    { destruct (kle_total k1 k2) as [Hle|Hlt].
      - apply kle_lt_or_eq in Hle as [Hlt|]; [|done]. exfalso.
        pose proof (Hg k1) as Hk. cbn in Hk. rewrite keqb_refl in Hk.
        destruct (keqb k1 k2) eqn:E; [apply keqb_eq in E as ->; by destruct (klt_irrefl k2)|].
        symmetry in Hk. apply bget_In, (in_map fst), F2 in Hk.
        by destruct (klt_irrefl _ (klt_trans _ _ _ Hlt Hk)).
      - exfalso. pose proof (Hg k2) as Hk. cbn in Hk. rewrite keqb_refl in Hk.
        destruct (keqb k2 k1) eqn:E; [apply keqb_eq in E as ->; by destruct (klt_irrefl k1)|].
        apply bget_In, (in_map fst), F1 in Hk.
        by destruct (klt_irrefl _ (klt_trans _ _ _ Hlt Hk)). }
    pose proof (Hg k2) as Hk. cbn in Hk. rewrite keqb_refl in Hk. injection Hk as ->.
    f_equal. apply IH; [done..|]. intros k. pose proof (Hg k) as Hk. cbn in Hk.
    destruct (keqb k k2) eqn:E; [|done]. apply keqb_eq in E as ->.
    destruct (bget k2 m1) as [x|] eqn:G1.
    { apply bget_In, (in_map fst), F1 in G1.
      by destruct (klt_irrefl _ G1). }
    destruct (bget k2 m2) as [x|] eqn:G2; [|done].
    apply bget_In, (in_map fst), F2 in G2.
    by destruct (klt_irrefl _ G2).
Qed.

(** The first key is the least, the last the greatest. *)
Lemma bfirst_min m k v :
  bwf m -> bfirst m = Some (k, v) <-> bget k m = Some v /\ forall j, In j (bkeys m) -> kle k j.
Proof.
  unfold bwf. destruct m as [|[k0 v0] m]; cbn; [intuition congruence|]. intros Hm.
  apply StronglySorted_inv in Hm as [Hm Hk]. rewrite List.Forall_forall in Hk. split.
  - intros [= -> ->]. rewrite keqb_refl. split; [done|]. intros j [<-|Hj]; [apply kle_refl|].
    by apply klt_kle, Hk.
  - intros [Hg Hmin]. destruct (keqb k k0) eqn:E.
    + apply keqb_eq in E as ->. congruence.
    + exfalso. apply bget_In, (in_map fst), Hk in Hg. cbn in Hg.
      destruct (klt_irrefl k0). eapply klt_kle_trans; [exact Hg|]. apply Hmin. by left.
Qed.

Lemma blast_max m k v :
  bwf m -> blast m = Some (k, v) <-> bget k m = Some v /\ forall j, In j (bkeys m) -> kle j k.
Proof.
  intros Hm. rewrite <- (bwf_In_iff k v m Hm). unfold blast, bwf in *.
  split.
  - intros Hl. apply last_Some in Hl as [l' ->]. split; [apply in_app_iff; right; by left|].
    intros j. unfold bkeys in *. rewrite map_app, in_app_iff. cbn. rewrite map_app in Hm.
    intros [Hj|[<-|[]]]; [|apply kle_refl]. apply klt_kle.
    apply StronglySorted_app in Hm as (Hm & _ & _). apply Hm; apply list_elem_of_In; [done|by left].
  - intros [Hin Hmax]. destruct (last m) as [[k' v']|] eqn:Hl.
    + apply last_Some in Hl as [l' ->]. apply in_app_iff in Hin as [Hin|[[= -> ->]|[]]]; [|done].
      exfalso. unfold bkeys in *. rewrite map_app in Hm, Hmax.
      apply StronglySorted_app in Hm as (Hm & _ & _).
      assert (klt k k') as Hlt.
      { apply Hm; apply list_elem_of_In; [by apply (in_map fst _ (k, v))|by left]. }
      destruct (klt_irrefl k). eapply klt_kle_trans; [exact Hlt|]. apply Hmax.
      apply in_app_iff. right. by left.
    + apply last_None in Hl. by subst.
Qed.
End BTree.

Section BTreeFacts.
Context {K V : Type} `{OrdKey K}.
Implicit Types (m : BTree K V) (k : K) (v : V).

Lemma bget_update k j f m :
  bget j (bupdate f k m) = if keqb j k then f <$> bget j m else bget j m.
Proof.
  unfold bupdate. destruct (bget k m) as [v|] eqn:E.
  - rewrite bget_insert. destruct (keqb j k) eqn:Ej; [|done].
    apply keqb_eq in Ej as ->. by rewrite E.
  - destruct (keqb j k) eqn:Ej; [|done]. apply keqb_eq in Ej as ->. by rewrite E.
Qed.

Lemma bcontains_true k m : bcontains k m = true <-> exists v, bget k m = Some v.
Proof. unfold bcontains. destruct (bget k m); split; [eauto|done|done|]. by intros [? [=]]. Qed.

Lemma brange_from_In lo m k v :
  In (k, v) (brange_from lo m) <-> In (k, v) m /\ kle lo k.
Proof. unfold brange_from. by rewrite filter_In, kleb_spec. Qed.

Lemma brange_to_In hi m k v :
  In (k, v) (brange_to hi m) <-> In (k, v) m /\ kle k hi.
Proof. unfold brange_to. by rewrite filter_In, kleb_spec. Qed.

(** Inserting touches one entry: a property of all values survives. *)
Lemma Forall_values_insert (P : V -> Prop) k v m :
  P v -> Forall P (bvalues m) -> Forall P (bvalues (binsert k v m)).
Proof.
  intros Hv. induction m as [|[j w] m IH]; cbn; intros Hm; [by repeat constructor|].
  apply Forall_cons in Hm as [Hw Hm].
  destruct (kcmp k j); cbn; repeat (constructor; try done). by apply IH.
Qed.

Lemma Forall_values_filter (P : V -> Prop) (p : K * V -> bool) m :
  Forall P (bvalues m) -> Forall P (bvalues (List.filter p m)).
Proof.
  induction m as [|e m IH]; cbn; intros Hm; [done|]. apply Forall_cons in Hm as [He Hm].
  destruct (p e); cbn; auto.
Qed.
End BTreeFacts.

(** [sort] of distinct keys. *)
Definition sort_keys {K} `{OrdKey K} (l : list K) : list K :=
  bkeys (foldr (fun k m => binsert k tt m) [] l).

Lemma sort_keys_spec {K} `{OrdKey K} (l : list K) :
  StronglySorted klt (sort_keys l) /\ forall k, In k (sort_keys l) <-> In k l.
Proof.
  unfold sort_keys. induction l as [|x l [IHs IHi]]; [split; [constructor|done]|].
  cbn [foldr]. split; [by apply (bwf_insert x tt)|]. intros k.
  rewrite bkeys_insert_In, IHi. cbn. intuition.
Qed.

#[export] Hint Resolve bwf_nil bwf_insert bwf_remove bwf_filter bwf_update bwf_entry : h5i.
#[export] Hint Resolve Forall_values_insert Forall_values_filter : h5i.

(** ** Min-first priority queues

    [BinaryHeap<Reverse<T>>], or a [BinaryHeap] whose [Ord] is reversed: [pop]
    returns an element whose key is least.  The queue is kept sorted; equal keys
    leave in the order they were pushed (the heap leaves that order open, and the
    users below never hold two equal keys). *)
Section Heap.
Context {T K : Type} `{OrdKey K} (key : T -> K).
Implicit Types (h : list T) (x : T).

Fixpoint hpush x h : list T :=
  match h with
  | [] => [x]
  | y :: h' => if kltb (key x) (key y) then x :: h else y :: hpush x h'
  end.

Definition hpeek h : option T := head h.

Definition hpop h : option (T * list T) :=
  match h with [] => None | x :: h' => Some (x, h') end.

(** [from_iter]. *)
Definition hof_list (l : list T) : list T := fold_left (fun h x => hpush x h) l [].

Definition hwf h : Prop := StronglySorted (fun x y => kle (key x) (key y)) h.

Lemma hpush_Permutation x h : hpush x h ≡ₚ x :: h.
Proof.
  induction h as [|y h IH]; cbn; [done|]. destruct (kltb _ _); [done|].
  rewrite IH. constructor.
Qed.

Lemma hpush_wf x h : hwf h -> hwf (hpush x h).
Proof.
  unfold hwf. induction h as [|y h IH]; cbn; intros Hh; [repeat constructor|].
  apply StronglySorted_inv in Hh as [Hh Hy].
  destruct (kltb (key x) (key y)) eqn:E.
  - apply kltb_spec, klt_kle in E. constructor; [by constructor|].
    constructor; [done|]. eapply Forall_impl; [exact Hy|]. intros z Hz. cbn.
    eapply kle_trans; eassumption.
  - constructor; [by apply IH|]. rewrite hpush_Permutation. constructor; [|done].
    destruct (kle_total (key y) (key x)) as [|Hlt]; [done|].
    apply kltb_spec in Hlt. congruence.
Qed.

Lemma hwf_nil : hwf [].
Proof. constructor. Qed.

Lemma hwf_tail x h : hwf (x :: h) -> hwf h.
Proof. by intros [? ?]%StronglySorted_inv. Qed.

(** What leaves is a minimum of what was there, and nothing is lost. *)
Lemma hpop_min x h h' :
  hwf h -> hpop h = Some (x, h') ->
  h ≡ₚ x :: h' /\ hwf h' /\ forall y, In y h -> kle (key x) (key y).
Proof.
  destruct h as [|z h]; cbn; [done|]. intros Hh [= -> ->].
  split; [done|]. split; [by eapply hwf_tail|].
  apply StronglySorted_inv in Hh as [_ Hx]. rewrite List.Forall_forall in Hx.
  intros y [<-|Hy]; [apply kle_refl|auto].
Qed.

Lemma hof_list_spec l : hof_list l ≡ₚ l /\ hwf (hof_list l).
Proof.
  unfold hof_list.
  enough (forall h, hwf h ->
    fold_left (fun h x => hpush x h) l h ≡ₚ h ++ l /\
    hwf (fold_left (fun h x => hpush x h) l h)) as Hgen
    by (apply (Hgen []); apply hwf_nil).
  induction l as [|x l IH]; intros h Hh; cbn; [by rewrite app_nil_r|].
  destruct (IH (hpush x h) (hpush_wf x h Hh)) as [Hp Hw]. split; [|done].
  rewrite Hp, hpush_Permutation. by rewrite <- Permutation_middle.
Qed.
End Heap.

(** The stable [sort_by_key]: insertion behind equal keys. *)
Definition sort_by_key {T K} `{OrdKey K} (key : T -> K) (l : list T) : list T := hof_list key l.

#[export] Hint Resolve hpush_wf hwf_nil hwf_tail : h5i.
