(* ===== verification/Types.v ===== *)
(** * Fixed-point money, time stamps, sides and errors

    Models [types.rs] and [error.rs].  The default build is modelled: [Raw] is
    [i64] scaled by [10^-9].  [Price], [Qty], [Money] and [UnixNanos] are the
    newtypes over it and are represented by the integer they wrap; an unchecked
    [+], [-] or [*] on them is [add64], [sub64] or [mul64] of the prelude.
    [notional_wide] is the one function the [wide] build computes differently. *)
From S2P Require Export Prelude BTree.

(** ** Errors ([error.rs])

    Structured variants carry every field; the free-form message of [Invalid] is
    kept as its leading words, without the interpolated values. *)
Inductive BacktestError : Type :=
| Overflow (what : string)
| NotFinite (what : string)
| Parse (what value : string)
| CausalityViolation (ts_event ts_init : Z)
| EmptyWindow (start end_ : Z)
| BookGap (instrument : string) (ts gap_ts : Z)
| OutOfOrder (stream : string) (ts previous : Z)
| UnknownInstrument (id : string)
| UnknownOutcome (instrument : string) (outcome count : Z)
| Schema (table detail : string)
| Invalid (message : string).

Abbreviation Result A := (result BacktestError A).

(** [BacktestError::invalid]. *)
Definition invalid (message : string) : BacktestError := Invalid message.

(** ** Fixed point *)
Abbreviation Raw := Z (only parsing).
Abbreviation Price := Z (only parsing).
Abbreviation Qty := Z (only parsing).
Abbreviation Money := Z (only parsing).
Abbreviation UnixNanos := Z (only parsing).

Definition SCALE : Raw := 1000000000.

(** The methods the [fixed_point!] macro gives every newtype; [ty] is the name it
    stringifies into the error. *)
Section FixedPoint.
Variable ty : string.

Definition from_units (units : Raw) : Result Raw :=
  ok_or (checked64 (units * SCALE)) (Overflow (ty +:+ "::from_units")).

Definition checked_add (a b : Raw) : Result Raw :=
  ok_or (checked64 (a + b)) (Overflow (ty +:+ "::add")).

Definition checked_sub (a b : Raw) : Result Raw :=
  ok_or (checked64 (a - b)) (Overflow (ty +:+ "::sub")).
End FixedPoint.

Definition is_zero (a : Raw) : bool := a =? 0.
Definition is_positive (a : Raw) : bool := 0 <? a.
Definition is_negative (a : Raw) : bool := a <? 0.
Definition fabs (a : Raw) : Raw := abs64 a.
Definition fneg (a : Raw) : Raw := neg64 a.

Definition PROBABILITY_MIN : Price := 0.
Definition PROBABILITY_MAX : Price := SCALE.

(** [Price::complement]: [1 - self]. *)
Definition complement (p : Price) : Result Price := checked_sub "Price" PROBABILITY_MAX p.

(** [narrow]: an [i128] back to [Raw], refusing instead of wrapping. *)
Definition narrow (value : Z) (what : string) : Result Raw :=
  ok_or (checked64 value) (Overflow what).

(** [notional] of the default build: promote to [i128], divide, round half away
    from zero, narrow. *)
Definition notional (price : Price) (qty : Qty) : Result Money :=
  narrow (div_half_away (price * qty) SCALE) "notional".

(** [notional] of the [wide] build, where [Raw] already is [i128]: both factors
    are split at the scale and the pieces recombined with checked arithmetic. *)
Definition notional_wide (a b : Z) : Result Z :=
  let aw := Z.quot a SCALE in let ar := Z.rem a SCALE in
  let bw := Z.quot b SCALE in let br := Z.rem b SCALE in
  let overflow := Overflow "notional" in
  let? ab := ok_or (checked128 (aw * bw)) overflow in
  let? whole := ok_or (checked128 (ab * SCALE)) overflow in
  let? c1 := ok_or (checked128 (aw * br)) overflow in
  let? c2 := ok_or (checked128 (ar * bw)) overflow in
  let? cross := ok_or (checked128 (c1 + c2)) overflow in
  let? sum := ok_or (checked128 (whole + cross)) overflow in
  let fine := ar * br in
  let rounded := div_half_away fine SCALE in
  ok_or (checked128 (sum + rounded)) overflow.

(** ** Decimal text ([fmt::Display]) *)

Definition digit (d : Z) : Ascii.ascii := Ascii.ascii_of_nat (48 + Z.to_nat d).

(** The decimal digits of a non-negative integer, most significant first. *)
Fixpoint show_digits (fuel : nat) (n : Z) (acc : string) : string :=
  match fuel with
  | O => acc
  | S fuel' =>
      let acc' := String (digit (n mod 10)) acc in
      if n <? 10 then acc' else show_digits fuel' (n / 10) acc'
  end.
Definition show_nat (n : Z) : string := show_digits (S (Z.to_nat (Z.log2 n))) n "".
Definition show_int (n : Z) : string :=
  if n <? 0 then String "-"%char (show_nat (- n)) else show_nat n.

(** [{frac:09}] followed by [trim_end_matches('0')]. *)
Fixpoint show_frac (width : nat) (n : Z) : string :=
  match width with
  | O => ""
  | S w => String (digit (n / 10 ^ Z.of_nat w)) (show_frac w (n mod 10 ^ Z.of_nat w))
  end.
Fixpoint trim_end_zeros (s : string) : string :=
  match s with
  | EmptyString => ""
  | String c s' =>
      match trim_end_zeros s' with
      | EmptyString => if Ascii.eqb c "0"%char then "" else String c ""
      | t => String c t
      end
  end.

(** [Display] of a fixed-point value. *)
Definition display_fixed (raw : Raw) : string :=
  let negative := raw <? 0 in
  let magnitude := Z.abs raw in
  let whole := Z.quot magnitude SCALE in
  let frac := Z.rem magnitude SCALE in
  let text :=
    if frac =? 0 then show_nat whole
    else show_nat whole +:+ "." +:+ trim_end_zeros (show_frac 9 frac) in
  if negative then String "-"%char text else text.

(** ** Time *)
Definition checked_add_nanos (self nanos : Z) : Result UnixNanos :=
  ok_or (checked64 (self + nanos)) (Overflow "UnixNanos").

Record Stamps := mkStamps { ts_event : UnixNanos; ts_init : UnixNanos }.
#[export] Instance eta_Stamps : Eta Stamps := fun s => mkStamps (ts_event s) (ts_init s).

Module Stamps.
Definition new (ev init : UnixNanos) : Result Stamps :=
  if init <? ev then Err (CausalityViolation ev init) else Ok (mkStamps ev init).
Definition immediate (ts : UnixNanos) : Stamps := mkStamps ts ts.
Definition delay_nanos (s : Stamps) : Z := sat64 (ts_init s - ts_event s).
End Stamps.

(** ** Side *)
Inductive Side := Buy | Sell.
#[export] Instance Side_eq_dec : EqDecision Side.
Proof. solve_decision. Defined.
Definition side_eqb (a b : Side) : bool :=
  match a, b with Buy, Buy | Sell, Sell => true | _, _ => false end.

Module Side.
Definition opposite (s : Side) : Side := match s with Buy => Sell | Sell => Buy end.
Definition signum (s : Side) : Z := match s with Buy => 1 | Sell => -1 end.
Definition as_str (s : Side) : string := match s with Buy => "buy" | Sell => "sell" end.

(** [str::to_ascii_lowercase]. *)
Definition ascii_lower (c : Ascii.ascii) : Ascii.ascii :=
  let n := Ascii.nat_of_ascii c in
  if (65 <=? n)%nat && (n <=? 90)%nat then Ascii.ascii_of_nat (n + 32) else c.
Fixpoint to_ascii_lowercase (s : string) : string :=
  match s with
  | EmptyString => EmptyString
  | String c s' => String (ascii_lower c) (to_ascii_lowercase s')
  end.

Definition parse (text : string) : Result Side :=
  let t := to_ascii_lowercase text in
  if existsb (String.eqb t) ["buy"; "bid"; "b"] then Ok Buy
  else if existsb (String.eqb t) ["sell"; "ask"; "offer"; "s"; "a"] then Ok Sell
  else Err (Parse "side" t).
End Side.

(** ** Specifications *)

(** [m] is the multiple of [1/d] nearest to [n/d], ties away from zero. *)
Definition nearest_half_away (n d m : Z) : Prop :=
  2 * Z.abs (d * m - n) < d \/ (2 * Z.abs (d * m - n) = d /\ Z.abs n < Z.abs (d * m)).

(** Reading decimal text back, the left inverse [Display] should have. *)
Definition digit_value (c : Ascii.ascii) : Z := Z.of_nat (Ascii.nat_of_ascii c) - 48.
Fixpoint read_nat (s : string) (acc : Z) : Z * string :=
  match s with
  | EmptyString => (acc, "")
  | String c s' =>
      if Ascii.eqb c "."%char then (acc, s) else read_nat s' (10 * acc + digit_value c)
  end.
Fixpoint read_frac (width : nat) (s : string) (acc : Z) : Z :=
  match width with
  | O => acc
  | S w =>
      match s with
      | EmptyString => read_frac w "" (10 * acc)
      | String c s' => read_frac w s' (10 * acc + digit_value c)
      end
  end.
Definition read_unsigned (s : string) : Z :=
  let '(whole, rest) := read_nat s 0 in
  match rest with
  | String _ frac => whole * SCALE + read_frac 9 frac 0
  | EmptyString => whole * SCALE
  end.
Definition read_fixed_text (s : string) : Z :=
  match s with
  | String c s' => if Ascii.eqb c "-"%char then - read_unsigned s' else read_unsigned s
  | EmptyString => 0
  end.

(** ** Lemmas *)

Lemma SCALE_pos : 0 < SCALE.
Proof. reflexivity. Qed.
Lemma SCALE_even : Z.even SCALE = true.
Proof. reflexivity. Qed.
#[export] Hint Resolve SCALE_pos SCALE_even : h5i.

Lemma narrow_Ok z w v : narrow z w = Ok v <-> in_i64 z /\ v = z.
Proof. unfold narrow. by rewrite ok_or_Ok, checked64_Some. Qed.

Lemma checked_add_Ok ty a b v : checked_add ty a b = Ok v <-> in_i64 (a + b) /\ v = a + b.
Proof. unfold checked_add. by rewrite ok_or_Ok, checked64_Some. Qed.

Lemma checked_sub_Ok ty a b v : checked_sub ty a b = Ok v <-> in_i64 (a - b) /\ v = a - b.
Proof. unfold checked_sub. by rewrite ok_or_Ok, checked64_Some. Qed.

Lemma complement_Ok p : 0 <= p <= SCALE -> complement p = Ok (SCALE - p).
Proof.
  intros Hp. apply checked_sub_Ok. unfold PROBABILITY_MAX, SCALE in *. widths. lia.
Qed.

Lemma notional_Ok p q m :
  notional p q = Ok m <-> in_i64 m /\ m = div_half_away (p * q) SCALE.
Proof. unfold notional. rewrite narrow_Ok. split; [intros [? ->]|intros [? ->]]; done. Qed.

Lemma notional_exact p k : in_i64 (p * k) -> notional p (k * SCALE) = Ok (p * k).
Proof.
  intros H. apply notional_Ok. split; [done|].
  replace (p * (k * SCALE)) with (p * k * SCALE) by lia. by rewrite div_half_away_exact.
Qed.

Lemma notional_0_r p : notional p 0 = Ok 0.
Proof. apply notional_Ok. rewrite Z.mul_0_r. split; [widths; lia|done]. Qed.

Lemma notional_0_l q : notional 0 q = Ok 0.
Proof. apply notional_Ok. cbn. split; [widths; lia|done]. Qed.

(** Rounding is within half a raw unit of the exact product. *)
Lemma notional_error p q m : notional p q = Ok m -> 2 * Z.abs (SCALE * m - p * q) <= SCALE.
Proof. intros [_ ->]%notional_Ok. by apply div_half_away_nearest. Qed.

Lemma notional_nonneg p q m : notional p q = Ok m -> 0 <= p * q -> 0 <= m.
Proof. intros [_ ->]%notional_Ok. by apply div_half_away_nonneg. Qed.

Lemma notional_mono p1 q1 p2 q2 m1 m2 :
  notional p1 q1 = Ok m1 -> notional p2 q2 = Ok m2 -> p1 * q1 <= p2 * q2 -> m1 <= m2.
Proof. intros [_ ->]%notional_Ok [_ ->]%notional_Ok. by apply div_half_away_mono. Qed.

Lemma div_half_away_spec n d :
  0 < d -> Z.even d = true -> nearest_half_away n d (div_half_away n d).
Proof.
  intros Hd He. apply Z.even_spec in He as [h ->]. unfold nearest_half_away, div_half_away.
  rewrite (Z.mul_comm 2 h), Z.quot_mul by lia.
  destruct (0 <=? n) eqn:E; bool_prop.
  - pose proof (Z.quot_rem' (n + h) (h * 2)) as Q.
    assert (0 <= Z.rem (n + h) (h * 2) < h * 2) by div_lia.
    set (q := h * 2 * Z.quot (n + h) (h * 2)) in *. lia.
  - pose proof (Z.quot_rem' (n - h) (h * 2)) as Q.
    assert (- (h * 2) < Z.rem (n - h) (h * 2) <= 0) by div_lia.
    set (q := h * 2 * Z.quot (n - h) (h * 2)) in *. lia.
Qed.

Lemma nearest_half_away_unique n d m1 m2 :
  0 < d -> nearest_half_away n d m1 -> nearest_half_away n d m2 -> m1 = m2.
Proof.
  intros Hd H1 H2. unfold nearest_half_away in *.
  destruct (Z.lt_trichotomy m1 m2) as [Hlt|[Heq|Hlt]]; [|done|]; exfalso.
  - assert (d * m2 >= d * m1 + d) by nia.
    assert (d * m1 >= 0 \/ d * m1 <= - d) by (destruct (Z.le_gt_cases 0 m1); [left|right]; nia).
    lia.
  - assert (d * m1 >= d * m2 + d) by nia.
    assert (d * m2 >= 0 \/ d * m2 <= - d) by (destruct (Z.le_gt_cases 0 m2); [left|right]; nia).
    lia.
Qed.

(** *** The split multiplication of the wide build *)

(** Neither operand pulls against the other. *)
Definition same_sign (x y : Z) : Prop := (0 <= x /\ 0 <= y) \/ (x <= 0 /\ y <= 0).

(** Rounding commutes with adding whole units of the same sign. *)
Lemma div_half_away_add_same k f d :
  0 < d -> same_sign k f ->
  div_half_away (k * d + f) d = k + div_half_away f d.
Proof.
  intros Hd Hs.
  assert (Hpos : forall k f, 0 <= k -> 0 <= f ->
    div_half_away (k * d + f) d = k + div_half_away f d).
  { clear k f Hs. intros k f Hk Hf. unfold div_half_away.
    rewrite !(proj2 (Z.leb_le 0 _)) by nia.
    assert (0 <= Z.quot d 2) by div_lia.
    replace (k * d + f + Z.quot d 2) with ((f + Z.quot d 2) + k * d) by lia.
    rewrite Z.quot_add by nia. lia. }
  destruct Hs as [[? ?]|[? ?]]; [by apply Hpos|].
  replace (k * d + f) with (- ((- k) * d + (- f))) by lia.
  rewrite div_half_away_opp, Hpos by lia. rewrite div_half_away_opp by lia. lia.
Qed.

(** Rounding keeps the sign. *)
Lemma div_half_away_sign n d :
  0 < d -> (0 <= n -> 0 <= div_half_away n d) /\ (n <= 0 -> div_half_away n d <= 0).
Proof.
  intros Hd. split; [by apply div_half_away_nonneg|]. intros Hn.
  replace n with (- - n) by lia. rewrite div_half_away_opp by lia.
  pose proof (div_half_away_nonneg (- n) d). lia.
Qed.

(** Quotient and remainder by the scale carry the sign of the factor, so the four
    partial products share one sign. *)
Lemma partial_products_sign a b :
  let aw := Z.quot a SCALE in let ar := Z.rem a SCALE in
  let bw := Z.quot b SCALE in let br := Z.rem b SCALE in
  (0 <= aw * bw /\ 0 <= aw * br /\ 0 <= ar * bw /\ 0 <= ar * br) \/
  (aw * bw <= 0 /\ aw * br <= 0 /\ ar * bw <= 0 /\ ar * br <= 0).
Proof.
  cbv zeta.
  assert (Hs : forall x, (0 <= Z.quot x SCALE /\ 0 <= Z.rem x SCALE) \/
    (Z.quot x SCALE <= 0 /\ Z.rem x SCALE <= 0)).
  { intros x. unfold SCALE. div_lia. }
  destruct (Hs a) as [[? ?]|[? ?]], (Hs b) as [[? ?]|[? ?]]; [left|right|right|left]; nia.
Qed.

(** The rounded product, from the split parts. *)
Lemma notional_split a b :
  let aw := Z.quot a SCALE in let ar := Z.rem a SCALE in
  let bw := Z.quot b SCALE in let br := Z.rem b SCALE in
  div_half_away (a * b) SCALE =
  aw * bw * SCALE + (aw * br + ar * bw) + div_half_away (ar * br) SCALE.
Proof.
  pose proof (partial_products_sign a b) as Hs. cbv zeta in *.
  pose proof (Z.quot_rem' a SCALE) as Ea. pose proof (Z.quot_rem' b SCALE) as Eb.
  set (aw := Z.quot a SCALE) in *. set (ar := Z.rem a SCALE) in *.
  set (bw := Z.quot b SCALE) in *. set (br := Z.rem b SCALE) in *.
  pose proof SCALE_pos. rewrite <- div_half_away_add_same; [f_equal; nia|done|].
  unfold same_sign. nia.
Qed.

(** With summands of one sign, a total that fits has partial sums that fit. *)
Lemma same_sign_in_i128 x y : same_sign x (y - x) -> in_i128 y -> in_i128 x.
Proof. unfold same_sign. widths. lia. Qed.

(** One checked step of the recombination, relative to the final total. *)
Lemma checked128_step {A} x tot (k : Z -> Result A) (r : Result A) e :
  same_sign x (tot - x) ->
  (in_i128 x -> k x = (if in_i128b tot then r else Err e)) ->
  (let? v := ok_or (checked128 x) e in k v) = (if in_i128b tot then r else Err e).
Proof.
  intros Hs Hk. unfold checked128. destruct (in_i128b x) eqn:E; cbn.
  - apply Hk. by apply in_i128b_spec.
  - destruct (in_i128b tot) eqn:Et; [|done]. exfalso.
    apply in_i128b_spec, (same_sign_in_i128 x tot Hs), in_i128b_spec in Et. congruence.
Qed.

(** *** Decimal text reads back *)

Lemma digit_value_digit d : 0 <= d < 10 -> digit_value (digit d) = d.
Proof.
  intros Hd. unfold digit, digit_value. rewrite Ascii.nat_ascii_embedding; lia.
Qed.

Lemma digit_not_dot d : 0 <= d < 10 -> Ascii.eqb (digit d) "."%char = false.
Proof.
  intros Hd. apply Ascii.eqb_neq. intros E.
  apply (f_equal digit_value) in E. rewrite digit_value_digit in E by done.
  change (digit_value "."%char) with (-2) in E. lia.
Qed.

Lemma digit_not_minus d : 0 <= d < 10 -> Ascii.eqb (digit d) "-"%char = false.
Proof.
  intros Hd. apply Ascii.eqb_neq. intros E.
  apply (f_equal digit_value) in E. rewrite digit_value_digit in E by done.
  change (digit_value "-"%char) with (-3) in E. lia.
Qed.

(** Reading what [show_digits] wrote continues with the accumulator. *)
Lemma read_show_digits fuel n acc a :
  0 <= n < 10 ^ Z.of_nat fuel ->
  exists w, read_nat (show_digits fuel n acc) a = read_nat acc (a * 10 ^ w + n) /\ 0 <= w.
Proof.
  revert n acc. induction fuel as [|fuel IH]; intros n acc Hn.
  - exists 0. cbn in *. split; [|lia]. f_equal. lia.
  - cbn [show_digits]. assert (0 <= n mod 10 < 10) by (apply Z.mod_pos_bound; lia).
    rewrite Nat2Z.inj_succ, Z.pow_succ_r in Hn by lia.
    destruct (n <? 10) eqn:E; bool_prop.
    + exists 1. split; [|lia]. cbn [read_nat].
      rewrite digit_not_dot, digit_value_digit by done.
      rewrite Z.mod_small by lia. f_equal. change (10 ^ 1) with 10. lia.
    + destruct (IH (n / 10) (String (digit (n mod 10)) acc)) as (w & Hw & ?).
      { split; [apply Z.div_pos; lia|]. apply Z.div_lt_upper_bound; lia. }
      exists (w + 1). split; [|lia]. rewrite Hw. cbn [read_nat].
      rewrite digit_not_dot, digit_value_digit by done. f_equal.
      rewrite Z.pow_add_r by lia. change (10 ^ 1) with 10.
      pose proof (Z.div_mod n 10). nia.
Qed.

Lemma read_show_nat n rest :
  0 <= n -> read_nat (show_nat n +:+ rest) 0 = read_nat rest n.
Proof.
  assert (Happ : forall fuel n acc r,
    show_digits fuel n acc +:+ r = show_digits fuel n (acc +:+ r)).
  { induction fuel as [|fuel IH]; intros m acc r; cbn; [done|].
    destruct (m <? 10); [done|]. by rewrite IH. }
  intros Hn. unfold show_nat. rewrite Happ.
  destruct (read_show_digits (S (Z.to_nat (Z.log2 n))) n ("" +:+ rest) 0) as (w & Hw & ?).
  { split; [done|]. destruct (Z.eq_dec n 0) as [->|]; [done|].
    pose proof (Z.log2_spec n). rewrite Nat2Z.inj_succ, Z2Nat.id by apply Z.log2_nonneg.
    assert (2 ^ Z.succ (Z.log2 n) <= 10 ^ Z.succ (Z.log2 n)); [|lia].
    apply Z.pow_le_mono_l. lia. }
  rewrite Hw. cbn. done.
Qed.

Lemma read_frac_empty w a : read_frac w "" a = a * 10 ^ Z.of_nat w.
Proof.
  revert a. induction w as [|w IH]; intros a; cbn [read_frac]; [cbn; lia|].
  rewrite IH, Nat2Z.inj_succ, Z.pow_succ_r by lia. lia.
Qed.

(** Trimming zeros does not change a fraction of fixed width. *)
Lemma read_frac_trim w s a : read_frac w (trim_end_zeros s) a = read_frac w s a.
Proof.
  revert s a. induction w as [|w IH]; intros s a; [by cbn|].
  destruct s as [|c s]; cbn [trim_end_zeros]; [done|].
  change (read_frac (S w) (String c s) a) with (read_frac w s (10 * a + digit_value c)).
  rewrite <- (IH s). destruct (trim_end_zeros s) as [|c' t] eqn:Et; [|done].
  destruct (Ascii.eqb c "0"%char) eqn:Ec; [|done].
  apply Ascii.eqb_eq in Ec as ->. cbn [read_frac].
  replace (digit_value "0"%char) with 0 by done. f_equal. lia.
Qed.

Lemma read_show_frac w n a :
  0 <= n < 10 ^ Z.of_nat w -> read_frac w (show_frac w n) a = a * 10 ^ Z.of_nat w + n.
Proof.
  revert n a. induction w as [|w IH]; intros n a Hn; [cbn in *; lia|].
  cbn [show_frac read_frac]. rewrite Nat2Z.inj_succ, Z.pow_succ_r in * by lia.
  assert (0 < 10 ^ Z.of_nat w) by (apply Z.pow_pos_nonneg; lia).
  rewrite digit_value_digit, IH.
  - pose proof (Z.div_mod n (10 ^ Z.of_nat w)). lia.
  - by apply Z.mod_pos_bound.
  - split; [apply Z.div_pos; lia|]. apply Z.div_lt_upper_bound; lia.
Qed.

(** The first character of a number is a digit. *)
Lemma show_nat_head n : 0 <= n -> exists d s, show_nat n = String (digit d) s /\ 0 <= d < 10.
Proof.
  intros Hn. unfold show_nat.
  assert (Hg : forall fuel m acc, 0 <= m -> exists d s,
    show_digits (S fuel) m acc = String (digit d) s /\ 0 <= d < 10).
  { induction fuel as [|fuel IH]; intros m acc Hm;
      pose proof (Z.mod_pos_bound m 10); cbn [show_digits].
    - destruct (m <? 10); eexists _, _; (split; [done|lia]).
    - destruct (m <? 10); [eexists _, _; (split; [done|lia])|].
      apply IH. apply Z.div_pos; lia. }
  by apply Hg.
Qed.

Lemma read_unsigned_display whole frac :
  0 <= whole -> 0 <= frac < SCALE ->
  read_unsigned
    (if frac =? 0 then show_nat whole
     else show_nat whole +:+ "." +:+ trim_end_zeros (show_frac 9 frac)) =
  whole * SCALE + frac.
Proof.
  intros Hw Hf. unfold read_unsigned. destruct (frac =? 0) eqn:E; bool_prop.
  - subst. replace (show_nat whole) with (show_nat whole +:+ "").
    + rewrite read_show_nat by done. cbn. lia.
    + clear. generalize (show_nat whole) as s.
      induction s as [|c s IH]; [done|]. by change (String c (s +:+ "") = String c s); rewrite IH.
  - rewrite read_show_nat by done. cbn [read_nat].
    change ("." +:+ ?t) with (String "."%char t). cbn [read_nat].
    rewrite Ascii.eqb_refl, read_frac_trim, read_show_frac; [lia|].
    exact Hf.
Qed.

(** ** Properties *)

(** [notional] returns exactly the product rounded to the nearest raw unit with
    ties away from zero, and refuses exactly when that value leaves [i64]. *)
Theorem notional_nearest p q m :
  notional p q = Ok m <-> in_i64 m /\ nearest_half_away (p * q) SCALE m.
Proof.
  rewrite notional_Ok. split; intros [Hm Hn]; (split; [done|]).
  - subst m. auto using div_half_away_spec with h5i.
  - eapply nearest_half_away_unique; eauto using div_half_away_spec with h5i.
Qed.

(** The split multiplication of the [wide] build computes the same rounded
    product as promote-and-divide would over unbounded integers, and overflows
    exactly when the result does not fit [i128]: no intermediate overflow refuses
    a product the type can hold. *)
Theorem notional_wide_exact a b :
  notional_wide a b =
  if in_i128b (div_half_away (a * b) SCALE) then Ok (div_half_away (a * b) SCALE)
  else Err (Overflow "notional").
Proof.
  unfold notional_wide. rewrite (notional_split a b).
  pose proof (partial_products_sign a b) as Hs. cbv zeta in *.
  set (aw := Z.quot a SCALE) in *. set (ar := Z.rem a SCALE) in *.
  set (bw := Z.quot b SCALE) in *. set (br := Z.rem b SCALE) in *.
  pose proof (div_half_away_sign (ar * br) SCALE SCALE_pos) as Hr.
  set (r := div_half_away (ar * br) SCALE) in *. clearbody r.
  generalize dependent (ar * br). generalize (ar * bw) (aw * br) (aw * bw).
  clearbody aw ar bw br. intros z1 z2 z3 z4 Hs Hr.
  set (tot := z3 * SCALE + (z2 + z1) + r).
  apply (checked128_step z3 tot); [unfold same_sign, tot, SCALE in *; lia|intros _].
  apply (checked128_step (z3 * SCALE) tot); [unfold same_sign, tot, SCALE in *; lia|intros _].
  apply (checked128_step z2 tot); [unfold same_sign, tot, SCALE in *; lia|intros _].
  apply (checked128_step z1 tot); [unfold same_sign, tot, SCALE in *; lia|intros _].
  apply (checked128_step (z2 + z1) tot); [unfold same_sign, tot, SCALE in *; lia|intros _].
  apply (checked128_step (z3 * SCALE + (z2 + z1)) tot);
    [unfold same_sign, tot, SCALE in *; lia|intros _].
  unfold checked128. fold tot. by destruct (in_i128b tot).
Qed.

(** [Display] of a fixed-point value is lossless: the text reads back to the raw
    units it was printed from, so two values print alike only when equal. *)
Theorem display_fixed_reads_back raw : read_fixed_text (display_fixed raw) = raw.
Proof.
  unfold display_fixed.
  pose proof (Z.quot_rem' (Z.abs raw) SCALE) as Q.
  assert (0 <= Z.rem (Z.abs raw) SCALE < SCALE) as Hf by (unfold SCALE; div_lia).
  assert (0 <= Z.quot (Z.abs raw) SCALE) as Hw by (unfold SCALE; div_lia).
  set (whole := Z.quot (Z.abs raw) SCALE) in *. set (frac := Z.rem (Z.abs raw) SCALE) in *.
  pose proof (read_unsigned_display whole frac Hw Hf) as Hr.
  set (text := if frac =? 0 then _ else _) in *.
  destruct (raw <? 0) eqn:E; bool_prop.
  - cbn [read_fixed_text]. rewrite Ascii.eqb_refl, Hr. lia.
  - destruct (show_nat_head whole Hw) as (d & s & Hd & Hdr).
    assert (exists s', text = String (digit d) s') as [s' Ht].
    { unfold text. destruct (frac =? 0); rewrite Hd; eauto. }
    rewrite Ht in *. cbn [read_fixed_text]. rewrite digit_not_minus by done. rewrite Hr. lia.
Qed.

(** The complement of a probability is exact and an involution, and the prices of
    a two-outcome market add to one. *)
Theorem complement_involutive p :
  0 <= p <= SCALE -> exists c, complement p = Ok c /\ complement c = Ok p /\ p + c = SCALE
    /\ 0 <= c <= SCALE.
Proof.
  intros Hp. exists (SCALE - p). unfold complement, PROBABILITY_MAX.
  rewrite !checked_sub_Ok. unfold SCALE in *. widths. lia.
Qed.
