(* ===== verification/Window.v ===== *)
(** * Half-open time windows and coverage accounting

    Models [window.rs]: [TimeWindow] with its constructors, set operations and the
    chunking loop, and [Coverage] with the clipping of declared gaps.  The [f64]
    [ratio] and the [require] gate built on it are in [RunFork]. *)
From S2P Require Export Types.

Record TimeWindow := mkWindow { start : UnixNanos; end_ : UnixNanos }.
#[export] Instance TimeWindow_eq_dec : EqDecision TimeWindow.
Proof. solve_decision. Defined.

Module TimeWindow.
Definition new (s e : UnixNanos) : Result TimeWindow :=
  if e <=? s then Err (EmptyWindow s e) else Ok (mkWindow s e).

Definition from_inclusive_end (s last : UnixNanos) : Result TimeWindow :=
  let? e := checked_add_nanos last 1 in new s e.

Definition last (w : TimeWindow) : UnixNanos := sub64 (end_ w) 1.
Definition duration_nanos (w : TimeWindow) : Z := sub64 (end_ w) (start w).
Definition contains (w : TimeWindow) (ts : UnixNanos) : bool :=
  (start w <=? ts) && (ts <? end_ w).
Definition overlaps (w o : TimeWindow) : bool :=
  (start w <? end_ o) && (start o <? end_ w).

Definition intersect (w o : TimeWindow) : option TimeWindow :=
  let s := Z.max (start w) (start o) in
  let e := Z.min (end_ w) (end_ o) in
  if s <? e then Some (mkWindow s e) else None.

Definition union (w o : TimeWindow) : TimeWindow :=
  mkWindow (Z.min (start w) (start o)) (Z.max (end_ w) (end_ o)).

(** The [while cursor < self.end] loop; [None] when the fuel runs out. *)
Fixpoint chunks_loop (fuel : nat) (cursor stop chunk : Z) : option (list TimeWindow) :=
  if cursor <? stop then
    match fuel with
    | O => None
    | S fuel' =>
        let next := Z.min (sat64 (cursor + chunk)) stop in
        match chunks_loop fuel' next stop chunk with
        | Some rest => Some (mkWindow cursor next :: rest)
        | None => None
        end
    end
  else Some [].

(** As many rounds as the window has started chunks are enough. *)
Definition chunks_fuel (w : TimeWindow) (chunk : Z) : nat :=
  Z.to_nat ((end_ w - start w) / chunk + 1).

Definition chunks (w : TimeWindow) (chunk_nanos : Z) : Result (list TimeWindow) :=
  if chunk_nanos <=? 0 then Err (invalid "chunk size must be positive")
  else
    match chunks_loop (chunks_fuel w chunk_nanos) (start w) (end_ w) chunk_nanos with
    | Some out => Ok out
    | None => Err (invalid "out of fuel")
    end.
End TimeWindow.

Record Coverage := mkCoverage {
  requested : TimeWindow;
  loaded : option TimeWindow;
  missing_nanos : Z;
}.

Module Coverage.
Import TimeWindow.

Definition empty (r : TimeWindow) : Coverage := mkCoverage r None (duration_nanos r).
Definition complete (r : TimeWindow) : Coverage := mkCoverage r (Some r) 0.

(** The nanoseconds one declared gap removes from the loaded window. *)
Definition gap_nanos (window gap : TimeWindow) : Z :=
  match intersect gap window with Some o => duration_nanos o | None => 0 end.

(** [Ord::clamp], which panics ([None]) when the bounds are inverted. *)
Definition clamp (x lo hi : Z) : option Z :=
  if lo <=? hi then Some (if x <? lo then lo else if hi <? x then hi else x) else None.

Definition partial (r l : TimeWindow) (gaps : list TimeWindow) : option Coverage :=
  let clipped := intersect l r in
  let missing :=
    match clipped with
    | Some w => sub64 (duration_nanos r) (duration_nanos w)
    | None => duration_nanos r
    end in
  let missing :=
    match clipped with
    | Some w => fold_left (fun m gap => add64 m (gap_nanos w gap)) gaps missing
    | None => missing
    end in
  m ← clamp missing 0 (duration_nanos r); Some (mkCoverage r clipped m).

Definition is_complete (c : Coverage) : bool :=
  (missing_nanos c =? 0) && bool_decide (loaded c = Some (requested c)).
End Coverage.

(** ** Specifications *)

Import TimeWindow.

(** A window that [TimeWindow::new] can have built. *)
Definition window_wf (w : TimeWindow) : Prop :=
  in_i64 (start w) /\ in_i64 (end_ w) /\ start w < end_ w.

(** [ws] lists adjacent windows that lead from [s] to [e]. *)
Fixpoint tiles (s : Z) (ws : list TimeWindow) (e : Z) : Prop :=
  match ws with
  | [] => s = e
  | w :: ws' => start w = s /\ s < end_ w /\ tiles (end_ w) ws' e
  end.

Definition width (w : TimeWindow) : Z := end_ w - start w.

(** ** Lemmas *)

Lemma new_Ok s e w : new s e = Ok w <-> s < e /\ w = mkWindow s e.
Proof. unfold new. destruct (e <=? s) eqn:E; bool_prop; split; intros H; try lia; try done.
  - by injection H as <-.
  - by destruct H as [_ ->]. Qed.

Lemma contains_spec w ts : contains w ts = true <-> start w <= ts < end_ w.
Proof. unfold contains. rewrite andb_true_iff, Z.leb_le, Z.ltb_lt. done. Qed.

Lemma duration_exact w : in_i64 (width w) -> duration_nanos w = width w.
Proof. apply wrap64_id. Qed.

Lemma tiles_le s ws e : tiles s ws e -> s <= e.
Proof.
  revert s. induction ws as [|w ws IH]; cbn; intros s; [lia|].
  intros (_ & Hlt & Ht). apply IH in Ht. lia.
Qed.

Lemma chunks_loop_ok fuel cursor stop chunk :
  0 < chunk -> in_i64 cursor -> in_i64 stop -> cursor <= stop ->
  stop - cursor <= chunk * Z.of_nat fuel ->
  exists ws, chunks_loop fuel cursor stop chunk = Some ws /\ tiles cursor ws stop /\
    Forall (fun w => width w <= chunk) ws /\
    Forall (fun w => width w = chunk) (removelast ws).
Proof.
  intros Hc. revert cursor. induction fuel as [|fuel IH]; intros cursor Hcur Hstop Hle Hf;
    cbn [chunks_loop]; destruct (cursor <? stop) eqn:E; bool_prop.
  - rewrite Z.mul_0_r in Hf. lia.
  - exists []. cbn. repeat split; try constructor. lia.
  - set (next := Z.min (sat64 (cursor + chunk)) stop).
    assert (next = Z.min (cursor + chunk) stop) as Hn
      by (unfold next, sat64; widths; lia).
    rewrite Nat2Z.inj_succ, Z.mul_succ_r in Hf.
    destruct (IH next) as (ws & Hl & Ht & Hw & Hw'); [widths; lia|done|lia|lia|].
    exists (mkWindow cursor next :: ws). rewrite Hl. cbn [tiles start end_].
    split; [done|]. split; [split; [done|split; [lia|done]]|]. split.
    + constructor; [unfold width; cbn; lia|done].
    + destruct ws as [|w ws]; [constructor|]. constructor; [|done].
      destruct Ht as (_ & Hlt & Ht). apply tiles_le in Ht. unfold width; cbn. lia.
  - exists []. cbn. repeat split; try constructor. lia.
Qed.

(** A tiling covers each instant exactly once. *)
Lemma tiles_count s ws e t :
  tiles s ws e ->
  length (List.filter (fun w => contains w t) ws) =
  if (s <=? t) && (t <? e) then 1%nat else 0%nat.
Proof.
  revert s. induction ws as [|w ws IH]; cbn; intros s.
  - intros ->. destruct (e <=? t) eqn:E1, (t <? e) eqn:E2; bool_prop; try done. lia.
  - intros (<- & Hlt & Ht). pose proof (tiles_le _ _ _ Ht). specialize (IH _ Ht).
    unfold contains at 1.
    destruct (start w <=? t) eqn:E1, (t <? end_ w) eqn:E2, (end_ w <=? t) eqn:E3,
      (t <? e) eqn:E4; bool_prop; cbn in *; lia.
Qed.

(** A clipped overlap never reaches outside the window it is clipped to. *)
Lemma intersect_Some w o x :
  intersect w o = Some x ->
  start x = Z.max (start w) (start o) /\ end_ x = Z.min (end_ w) (end_ o) /\ start x < end_ x.
Proof. unfold intersect. destruct (_ <? _) eqn:E; bool_prop; [|done]. intros [= <-]. cbn. lia. Qed.

Lemma clamp_Some x lo hi v : Coverage.clamp x lo hi = Some v -> lo <= v <= hi.
Proof.
  unfold Coverage.clamp. destruct (lo <=? hi) eqn:E; bool_prop; [|done].
  destruct (x <? lo) eqn:E1; [intros [= <-]; lia|].
  destruct (hi <? x) eqn:E2; bool_prop; intros [= <-]; lia.
Qed.

Lemma clamp_in x lo hi : lo <= x <= hi -> Coverage.clamp x lo hi = Some x.
Proof.
  intros Hx. unfold Coverage.clamp.
  by rewrite (proj2 (Z.leb_le lo hi)), !(proj2 (Z.ltb_ge _ _)) by lia.
Qed.

(** ** Properties *)

(** [chunks] with a positive size terminates and tiles the window exactly: the
    chunks are adjacent, run from the window's start to its end, none is longer than
    asked for, all but the last have exactly that length, and every instant lies in
    one chunk if it lies in the window and in none otherwise. *)
Theorem chunks_tile w c :
  window_wf w -> 0 < c ->
  exists ws, chunks w c = Ok ws /\ tiles (start w) ws (end_ w) /\
    Forall (fun x => width x <= c) ws /\ Forall (fun x => width x = c) (removelast ws) /\
    forall t, length (List.filter (fun x => contains x t) ws) =
      if contains w t then 1%nat else 0%nat.
Proof.
  intros (Hs & He & Hlt) Hc. unfold chunks. rewrite (proj2 (Z.leb_gt c 0)) by lia.
  destruct (chunks_loop_ok (chunks_fuel w c) (start w) (end_ w) c) as (ws & Hl & Ht & Hw & Hw');
    [done..|lia| |].
  - unfold chunks_fuel. rewrite Z2Nat.id by div_nia.
    pose proof (Z.mul_succ_div_gt (end_ w - start w) c). nia.
  - exists ws. rewrite Hl. repeat split; [done..|]. intros t. by apply tiles_count.
Qed.

Example chunks_tile_witness :
  window_wf (mkWindow 10 25) /\ 0 < 6 /\
  exists ws, chunks (mkWindow 10 25) 6 = Ok ws /\ tiles 10 ws 25 /\
    Forall (fun x => width x <= 6) ws /\ Forall (fun x => width x = 6) (removelast ws) /\
    forall t, length (List.filter (fun x => contains x t) ws) =
      if contains (mkWindow 10 25) t then 1%nat else 0%nat.
Proof.
  assert (window_wf (mkWindow 10 25)) by (repeat split; cbv; congruence).
  split; [done|]. split; [lia|]. apply (chunks_tile (mkWindow 10 25) 6); [done|lia].
Defined.

(** Coverage accounting never leaves its range: for a request whose length fits
    [i64], [partial] answers (its [clamp] cannot panic), what it reports as missing
    lies between nothing and the whole request, what it reports as loaded is the
    part of the load inside the request, and a load with no overlap is all missing. *)
Theorem coverage_partial_bounded r l gaps :
  window_wf r -> in_i64 (width r) ->
  exists c, Coverage.partial r l gaps = Some c /\
    requested c = r /\ loaded c = intersect l r /\
    0 <= missing_nanos c <= width r /\
    (intersect l r = None -> missing_nanos c = width r) /\
    (intersect l r = Some r -> gaps = [] -> Coverage.is_complete c = true).
Proof.
  intros (Hs & He & Hlt) Hw. unfold Coverage.partial. rewrite (duration_exact r Hw).
  set (m := match intersect l r with Some w => fold_left _ _ _ | None => _ end).
  destruct (Coverage.clamp m 0 (width r)) as [v|] eqn:E.
  2: { unfold Coverage.clamp in E. unfold width in E at 1.
       rewrite (proj2 (Z.leb_le _ _)) in E by lia. by destruct (m <? 0), (width r <? m). }
  eexists. split; [reflexivity|]. cbn [requested loaded missing_nanos].
  split; [done|]. split; [done|]. split; [by apply clamp_Some in E|]. split.
  - intros Hi. unfold m in E. rewrite Hi, clamp_in in E by (unfold width; lia). congruence.
  - intros Hi ->. unfold m in E. rewrite Hi in E. cbn [fold_left] in E.
    rewrite (duration_exact r Hw) in E. unfold sub64 in E.
    rewrite Z.sub_diag, clamp_in in E by (change (wrap64 0) with 0; unfold width; lia).
    injection E as <-. unfold Coverage.is_complete. cbn [requested loaded missing_nanos].
    rewrite Hi, bool_decide_true by done. done.
Qed.

Example coverage_partial_bounded_witness :
  window_wf (mkWindow 0 100) /\ in_i64 (width (mkWindow 0 100)) /\
  exists c, Coverage.partial (mkWindow 0 100) (mkWindow 20 90) [mkWindow 80 200] = Some c /\
    missing_nanos c = 40.
Proof.
  assert (window_wf (mkWindow 0 100)) as Hr by (repeat split; cbv; congruence).
  assert (in_i64 (width (mkWindow 0 100))) as Hw by (split; cbv; congruence).
  split; [done|]. split; [done|].
  destruct (coverage_partial_bounded _ (mkWindow 20 90) [mkWindow 80 200] Hr Hw)
    as (c & Hc & _). exists c. split; [done|]. vm_compute in Hc. by injection Hc as <-.
Defined.
