(* ===== verification/Clock.v ===== *)
(** * The replay clock and its timers

    Models [clock.rs].  The heap of [Reverse<Timer>] is the priority queue of
    [BTree.v] under the key [(at, name, sequence)].  [advance_to] loops while timers
    are due; its fuel is the number of firings the pending timers can produce. *)
From S2P Require Export Types.

Record TimeEvent := mkTimeEvent {
  ev_name : string;
  scheduled_for : UnixNanos;
  ev_sequence : Z;
}.

Record Timer := mkTimer {
  tk_at : Z;
  tk_name : string;
  tk_sequence : Z;
  interval : option Z;
}.

(** [Ord for Timer] compares the [TimerKey] only. *)
Definition timer_key (t : Timer) : Z * (string * Z) := (tk_at t, (tk_name t, tk_sequence t)).

Record Clock := mkClock { now : UnixNanos; timers : list Timer; sequence : Z }.
#[export] Instance eta_Clock : Eta Clock := fun c => mkClock (now c) (timers c) (sequence c).

Module Clock.
Definition new (start : UnixNanos) : Clock := mkClock start [] 0.

Definition push (c : Clock) (name : string) (at_ : UnixNanos) (iv : option Z) : Result Clock :=
  if at_ <? now c then Err (invalid "timer scheduled before now")
  else
    let c := c <| sequence := sequence c + 1 |> in
    Ok (c <| timers := hpush timer_key (mkTimer at_ name (sequence c) iv) (timers c) |>).

Definition set_timer (c : Clock) (name : string) (at_ : UnixNanos) : Result Clock :=
  push c name at_ None.

Definition set_repeating (c : Clock) (name : string) (start : UnixNanos) (iv : Z)
  : Result Clock :=
  if iv <=? 0 then Err (invalid "a repeating timer needs a positive interval")
  else push c name start (Some iv).

Definition cancel (c : Clock) (name : string) : Clock * nat :=
  let before := length (timers c) in
  let kept := List.filter (fun t => negb (String.eqb (tk_name t) name)) (timers c) in
  let c := c <| timers := hof_list timer_key kept |> in
  (c, (before - length (timers c))%nat).

Definition pending (c : Clock) : nat := length (timers c).
Definition next_timer (c : Clock) : option UnixNanos := tk_at <$> hpeek (timers c).

(** The body of the [while let] loop: pop one due timer, report it, and push its
    successor if it repeats. *)
Definition fire (c : Clock) (t : Timer) (rest : list Timer) : Clock * TimeEvent :=
  let c := c <| timers := rest |> <| now := tk_at t |> in
  let event := mkTimeEvent (tk_name t) (tk_at t) (tk_sequence t) in
  match interval t with
  | Some iv =>
      let c := c <| sequence := sequence c + 1 |> in
      let next := mkTimer (sat64 (tk_at t + iv)) (tk_name t) (sequence c) (Some iv) in
      (c <| timers := hpush timer_key next (timers c) |>, event)
  | None => (c, event)
  end.

Fixpoint advance_loop (fuel : nat) (c : Clock) (ts : UnixNanos)
  : option (Clock * list TimeEvent) :=
  match hpop (timers c) with
  | None => Some (c, [])
  | Some (t, rest) =>
      if ts <? tk_at t then Some (c, [])
      else
        match fuel with
        | O => None
        | S fuel' =>
            let '(c, event) := fire c t rest in
            match advance_loop fuel' c ts with
            | Some (c, fired) => Some (c, event :: fired)
            | None => None
            end
        end
  end.

(** How often a timer can fire up to [ts]. *)
Definition firings (ts : UnixNanos) (t : Timer) : Z :=
  if ts <? tk_at t then 0
  else match interval t with Some iv => (ts - tk_at t) / iv + 1 | None => 1 end.
Definition advance_fuel (c : Clock) (ts : UnixNanos) : nat :=
  Z.to_nat (zsum (map (firings ts) (timers c))).

Definition advance_to (c : Clock) (ts : UnixNanos) : Result (Clock * list TimeEvent) :=
  if ts <? now c then Err (invalid "clock cannot move backwards")
  else
    match advance_loop (advance_fuel c ts) c ts with
    | Some (c, fired) => Ok (c <| now := ts |>, fired)
    | None => Err (invalid "out of fuel")
    end.
End Clock.

(** ** Invariant *)

Definition timer_wf (c : Clock) (t : Timer) : Prop :=
  now c <= tk_at t /\ in_i64 (tk_at t) /\
  match interval t with Some iv => 0 < iv | None => True end.

Record clock_wf (c : Clock) : Prop := {
  wf_heap : hwf timer_key (timers c);
  wf_timers : Forall (timer_wf c) (timers c);
}.

(** ** Lemmas *)

Lemma timer_key_le t u : kle (timer_key t) (timer_key u) -> tk_at t <= tk_at u.
Proof.
  rewrite kle_lt_or_eq. unfold klt, timer_key. cbn. unfold pair_cmp; cbn.
  intros [H|[= -> _ _]]; [|lia].
  destruct (Z.compare_spec (tk_at t) (tk_at u)); try lia; done.
Qed.

(** A timer pushed strictly later than every popped one is ordered after it. *)
Lemma timer_key_lt_at t u : tk_at t < tk_at u -> kle (timer_key t) (timer_key u).
Proof.
  intros H. apply klt_kle. unfold klt, timer_key. cbn. unfold pair_cmp; cbn.
  by rewrite (proj2 (Z.compare_lt_iff _ _) H).
Qed.

Lemma hpush_Forall (P : Timer -> Prop) t h :
  P t -> Forall P h -> Forall P (hpush timer_key t h).
Proof. intros. rewrite hpush_Permutation. by constructor. Qed.

Lemma push_wf c name at_ iv c' :
  clock_wf c -> in_i64 at_ -> match iv with Some i => 0 < i | None => True end ->
  Clock.push c name at_ iv = Ok c' -> clock_wf c'.
Proof.
  intros [Hh Ht] Hat Hiv. unfold Clock.push. destruct (at_ <? now c) eqn:E; bool_prop; [done|].
  intros [= <-]. split; cbn.
  - auto with h5i.
  - apply hpush_Forall; [unfold timer_wf; cbn; auto|]. eapply Forall_impl; [exact Ht|]. by intros t.
Qed.

Lemma cancel_wf c name : clock_wf c -> clock_wf (Clock.cancel c name).1.
Proof.
  intros [Hh Ht]. unfold Clock.cancel.
  set (kept := List.filter _ _). destruct (hof_list_spec timer_key kept) as [Hp Hw].
  split; cbn; [done|]. rewrite Hp. apply List.Forall_forall. intros t Hin.
  apply filter_In in Hin as [Hin _]. rewrite List.Forall_forall in Ht. by apply (Ht t).
Qed.

Lemma firings_nonneg c ts t : timer_wf c t -> 0 <= Clock.firings ts t.
Proof.
  intros (_ & _ & Hiv). unfold Clock.firings. destruct (ts <? tk_at t) eqn:E; bool_prop; [lia|].
  destruct (interval t) as [iv|]; [|lia].
  pose proof (Z.div_pos (ts - tk_at t) iv). lia.
Qed.

(** Firing a due timer keeps the invariant, moves the clock to the timer, and uses
    up one of its firings. *)
Lemma fire_spec c t rest ts c' ev :
  clock_wf c -> hpop (timers c) = Some (t, rest) -> tk_at t <= ts -> ts < i64_max ->
  Clock.fire c t rest = (c', ev) ->
  clock_wf c' /\ now c' = tk_at t /\
  ev = mkTimeEvent (tk_name t) (tk_at t) (tk_sequence t) /\
  zsum (map (Clock.firings ts) (timers c)) = 1 + zsum (map (Clock.firings ts) (timers c')) /\
  (forall u, In u (timers c') -> kle (timer_key t) (timer_key u)) /\
  (forall u, In u rest -> In u (timers c')).
Proof.
  intros [Hh Ht] Hpop Hdue Hts. pose proof Hpop as Hpop'.
  apply (hpop_min timer_key) in Hpop as (Hperm & Hw & Hmin); [|done].
  rewrite Hperm in Ht. apply Forall_cons in Ht as [(Hn & Hat & Hiv) Hrest].
  assert (Hrest' : Forall (fun u => tk_at t <= tk_at u /\ timer_wf c u) rest).
  { apply List.Forall_forall. intros u Hu. split.
    - apply timer_key_le, Hmin. apply (Permutation_in _ (symmetry Hperm)). by right.
    - rewrite List.Forall_forall in Hrest. by apply Hrest. }
  assert (Hle : forall u, In u rest -> kle (timer_key t) (timer_key u)).
  { intros u Hu. apply Hmin. apply (Permutation_in _ (symmetry Hperm)). by right. }
  assert (Hwf : forall c1, now c1 = tk_at t -> Forall (timer_wf c1) rest).
  { intros c1 Hc1. eapply Forall_impl; [exact Hrest'|]. intros u (Hu & _ & Hu2).
    unfold timer_wf. rewrite Hc1. tauto. }
  rewrite (zsum_Permutation _ _ (Permutation_map _ Hperm)). cbn [map]. rewrite zsum_cons.
  unfold Clock.fire. destruct (interval t) as [iv|] eqn:Eiv; intros [= <- <-];
    cbn beta iota in Hiv.
  - set (next := mkTimer _ _ _ _).
    assert (tk_at next = Z.min (tk_at t + iv) i64_max) as Hnext
      by (unfold next, sat64; cbn; widths; lia).
    split; [split; cbn -[next]|].
    + auto with h5i.
    + apply hpush_Forall; [|by apply Hwf]. unfold timer_wf. cbn [now setter] in *.
      rewrite Hnext. cbn. widths. lia.
    + cbn -[next]. split; [done|]. split; [done|]. split; [|split].
      * rewrite (zsum_Permutation _ _ (Permutation_map _ (hpush_Permutation timer_key _ _))).
        cbn [map]. rewrite zsum_cons. unfold Clock.firings at 1 3. rewrite Eiv, Hnext.
        cbn [interval next]. rewrite (proj2 (Z.ltb_ge ts (tk_at t))) by done.
        destruct (ts <? Z.min (tk_at t + iv) i64_max) eqn:E; bool_prop.
        -- rewrite Z.div_small by lia. lia.
        -- replace (Z.min (tk_at t + iv) i64_max) with (tk_at t + iv) by lia.
           replace (ts - tk_at t) with ((ts - (tk_at t + iv)) + 1 * iv) at 1 by lia.
           rewrite Z.div_add by lia. lia.
      * intros u Hu. apply (Permutation_in _ (hpush_Permutation timer_key _ _)) in Hu.
        destruct Hu as [<-|Hu]; [|auto]. apply timer_key_lt_at. rewrite Hnext. widths. lia.
      * intros u Hu. apply (Permutation_in _ (symmetry (hpush_Permutation timer_key _ _))).
        by right.
  - split; [split; cbn; [done|by apply Hwf]|]. cbn. split; [done|]. split; [done|].
    split; [|done]. unfold Clock.firings at 1.
    rewrite Eiv, (proj2 (Z.ltb_ge ts (tk_at t))) by done. done.
Qed.

(** The key a fired event was ordered by. *)
Definition event_key (e : TimeEvent) : Z * (string * Z) :=
  (scheduled_for e, (ev_name e, ev_sequence e)).

(** The loop stops at once when the earliest timer is not due. *)
Lemma advance_loop_idle fuel c ts :
  clock_wf c -> match hpop (timers c) with Some (t, _) => ts < tk_at t | None => True end ->
  Clock.advance_loop fuel c ts = Some (c, []) /\ Forall (fun u => ts < tk_at u) (timers c).
Proof.
  intros [Hh _] Hd. destruct fuel; cbn; destruct (timers c) as [|t rest]; cbn in *; try done.
  all: rewrite (proj2 (Z.ltb_lt _ _)) by done; split; [done|].
  all: apply StronglySorted_inv in Hh as [_ Hh]; constructor; [done|].
  all: eapply Forall_impl; [exact Hh|]; intros u Hu; apply timer_key_le in Hu; lia.
Qed.

(** A due timer has a firing left. *)
Lemma firings_due c t rest ts :
  clock_wf c -> timers c ≡ₚ t :: rest -> tk_at t <= ts ->
  1 <= zsum (map (Clock.firings ts) (timers c)).
Proof.
  intros [_ Ht] Hperm Hdue. rewrite (zsum_Permutation _ _ (Permutation_map _ Hperm)).
  cbn [map]. rewrite zsum_cons. rewrite Hperm in Ht. apply Forall_cons in Ht as [Ht Hr].
  assert (0 <= zsum (map (Clock.firings ts) rest)).
  { apply zsum_nonneg, Forall_map. eapply Forall_impl; [exact Hr|].
    intros u Hu. by eapply firings_nonneg. }
  assert (1 <= Clock.firings ts t); [|lia].
  destruct Ht as (_ & _ & Hiv). unfold Clock.firings.
  rewrite (proj2 (Z.ltb_ge _ _)) by done. destruct (interval t) as [iv|]; [|done].
  pose proof (Z.div_pos (ts - tk_at t) iv). lia.
Qed.

(** What [advance_loop] does with enough fuel. *)
Lemma advance_loop_spec fuel c ts :
  clock_wf c -> ts < i64_max -> now c <= ts ->
  zsum (map (Clock.firings ts) (timers c)) <= Z.of_nat fuel ->
  exists c' fired, Clock.advance_loop fuel c ts = Some (c', fired) /\
    clock_wf c' /\ now c' <= ts /\
    StronglySorted (fun a b => kle (event_key a) (event_key b)) fired /\
    Forall (fun e => now c <= scheduled_for e <= ts) fired /\
    (forall k e, (forall u, In u (timers c) -> kle k (timer_key u)) -> In e fired ->
       kle k (event_key e)) /\
    Forall (fun t => ts < tk_at t) (timers c') /\
    (forall t, In t (timers c) ->
       if ts <? tk_at t then In t (timers c')
       else In (mkTimeEvent (tk_name t) (tk_at t) (tk_sequence t)) fired).
Proof.
  revert c. induction fuel as [|fuel IH]; intros c Hc Hts Hnow Hf.
  all: destruct (hpop (timers c)) as [[t rest]|] eqn:Hpop;
    [destruct (ts <? tk_at t) eqn:E; bool_prop|].
  all: try (match goal with |- exists _ _, Clock.advance_loop ?n _ _ = _ /\ _ =>
      destruct (advance_loop_idle n c ts Hc) as [Hl Hall]; [by rewrite Hpop|];
      rewrite List.Forall_forall in Hall; exists c, [];
      split; [done|]; split; [done|]; split; [done|]; split; [constructor|];
      split; [constructor|]; split; [by inversion 2|]; split; [by apply List.Forall_forall|];
      intros u Hu; by rewrite (proj2 (Z.ltb_lt _ _) (Hall u Hu)) end).
  all: pose proof Hpop as Hmin; apply (hpop_min timer_key) in Hmin as (Hperm & _ & Hmin);
    [|apply Hc].
  - pose proof (firings_due c t rest ts Hc Hperm E). lia.
  - cbn [Clock.advance_loop]. rewrite Hpop, (proj2 (Z.ltb_ge _ _) E).
    destruct (Clock.fire c t rest) as [c1 ev] eqn:Ef.
    destruct (fire_spec c t rest ts c1 ev Hc Hpop E Hts Ef)
      as (Hc1 & Hn1 & -> & Hz & Hle & Hin).
    destruct (IH c1) as (c' & fired & Hl & Hc' & Hn' & Hs & Hr & Hk & Hrem & Hall);
      [done|done|lia|lia|].
    rewrite Hl. eexists _, _. split; [done|]. split; [done|]. split; [done|].
    assert (now c <= tk_at t).
    { destruct Hc as [_ Ht]. rewrite Hperm in Ht. apply Forall_cons in Ht as [(? & _) _]. done. }
    split; [|split; [|split; [|split; [done|]]]].
    + constructor; [done|]. apply List.Forall_forall. intros e He.
      by eapply Hk.
    + constructor; [cbn; lia|]. eapply Forall_impl; [exact Hr|]. cbn. intros. lia.
    + intros k e Hlow He.
      assert (kle k (timer_key t))
        by (apply Hlow, (Permutation_in _ (symmetry Hperm)); by left).
      destruct He as [<-|He]; [done|].
      eapply Hk; [|done]. intros u Hu. eapply kle_trans; [done|by apply Hle].
    + intros u Hu. apply (Permutation_in _ Hperm) in Hu as [<-|Hu].
      * rewrite (proj2 (Z.ltb_ge _ _)) by done. by left.
      * specialize (Hall u (Hin u Hu)). destruct (ts <? tk_at u); [done|]. by right.
Qed.

(** ** The schedule

    A timer set for [tk_at] comes due there and, if it repeats, at every multiple of its
    interval after; what it is due for next is the first such instant past [ts]. *)
Definition period (t : Timer) : Z := default 1 (interval t).
Definition last_due (ts : UnixNanos) (t : Timer) : Z :=
  match interval t with Some iv => (ts - tk_at t) / iv | None => 0 end.
Definition due_events (ts : UnixNanos) (t : Timer) : list (string * Z) :=
  if ts <? tk_at t then []
  else map (fun k => (tk_name t, tk_at t + Z.of_nat k * period t)) (seq 0 (S (Z.to_nat (last_due ts t)))).
Definition plan (t : Timer) : string * Z * option Z := (tk_name t, tk_at t, interval t).
Definition still_planned (ts : UnixNanos) (t : Timer) : list (string * Z * option Z) :=
  if ts <? tk_at t then [plan t]
  else match interval t with
       | Some iv => [(tk_name t, sat64 (tk_at t + (last_due ts t + 1) * iv), Some iv)]
       | None => []
       end.

(** The same, as a set: the instants up to [ts] at a whole number of intervals. *)
Lemma due_events_iff c ts t name at_ : timer_wf c t ->
  In (name, at_) (due_events ts t) <->
  name = tk_name t /\ tk_at t <= at_ <= ts /\
  match interval t with Some iv => (iv | at_ - tk_at t) | None => at_ = tk_at t end.
Proof.
  intros (_ & _ & Hiv). unfold due_events, last_due, period. destruct (Z.ltb_spec ts (tk_at t)) as [|Hd]; [split; [done|lia]|].
  rewrite in_map_iff. setoid_rewrite in_seq. destruct (interval t) as [iv|]; cbn [from_option id].
  - pose proof (Z.div_pos (ts - tk_at t) iv ltac:(lia) Hiv) as Hq. pose proof (Z.mul_div_le (ts - tk_at t) iv Hiv) as Hle. split.
    + intros (k & [= <- <-] & Hk). split; [done|]. split; [nia|]. exists (Z.of_nat k). lia.
    + intros (-> & Hr & q & Hmul). assert (0 <= q) by nia.
      assert (q <= (ts - tk_at t) / iv) by (apply Z.div_le_lower_bound; lia).
      exists (Z.to_nat q). rewrite Z2Nat.id by done. split; [f_equal; lia|]. split; [lia|]. cbn. assert (Z.to_nat q <= Z.to_nat ((ts - tk_at t) / iv))%nat by (apply Z2Nat.inj_le; lia). lia.
  - split.
    + intros (k & [= <- <-] & Hk). replace k with 0%nat by (cbn in Hk; lia). split; [done|lia].
    + intros (-> & Hr & ->). exists 0%nat. split; [f_equal; lia|cbn; lia].
Qed.

(** One firing takes the head off a timer's schedule. *)
Lemma schedule_step ts t iv : interval t = Some iv -> 0 < iv -> tk_at t <= ts -> ts < i64_max -> in_i64 (tk_at t) ->
  forall u, tk_at u = sat64 (tk_at t + iv) -> tk_name u = tk_name t -> interval u = Some iv ->
  due_events ts t = (tk_name t, tk_at t) :: due_events ts u /\ still_planned ts t = still_planned ts u.
Proof.
  intros Hiv Hpos Hd Hts Hat u Hu Hn Hi. unfold due_events, still_planned, last_due, period, plan. rewrite Hiv, Hi, Hn.
  rewrite (proj2 (Z.ltb_ge ts (tk_at t))) by done. cbn [from_option id].
  assert (Hmin : tk_at u = Z.min (tk_at t + iv) i64_max) by (rewrite Hu; unfold sat64; widths; lia).
  destruct (Z.ltb_spec ts (tk_at u)) as [Hlt|Hge].
  - rewrite Z.div_small by lia. cbn. rewrite Hu. split; [do 2 f_equal; lia|do 4 f_equal; lia].
  - assert (tk_at u = tk_at t + iv) as -> by lia.
    replace (ts - tk_at t) with (ts - (tk_at t + iv) + 1 * iv) by lia. rewrite Z.div_add by lia.
    pose proof (Z.div_pos (ts - (tk_at t + iv)) iv ltac:(lia) Hpos) as Hq. set (q := _ / iv) in *.
    split; [|do 4 f_equal; lia].
    replace (Z.to_nat (q + 1)) with (S (Z.to_nat q)) by lia. cbn [seq map]. rewrite <- !seq_shift, !map_map. f_equal; [f_equal; lia|].
    f_equal; [f_equal; lia|]. apply map_ext. intros k. f_equal. lia.
Qed.

Lemma fire_schedule c t rest ts c' ev : clock_wf c -> timers c ≡ₚ t :: rest -> tk_at t <= ts -> ts < i64_max ->
  Clock.fire c t rest = (c', ev) ->
  flat_map (due_events ts) (timers c) ≡ₚ (ev_name ev, scheduled_for ev) :: flat_map (due_events ts) (timers c') /\
  flat_map (still_planned ts) (timers c) ≡ₚ flat_map (still_planned ts) (timers c').
Proof.
  intros [_ Ht] Hp Hd Hts. pose proof (Permutation_flat_map (due_events ts) Hp) as H1.
  pose proof (Permutation_flat_map (still_planned ts) Hp) as H2. rewrite H1, H2. cbn [flat_map].
  rewrite Hp in Ht. apply Forall_cons in Ht as [(_ & Hat & Hiv) _]. unfold Clock.fire. destruct (interval t) as [iv|] eqn:E; intros [= <- <-]; cbn.
  - set (next := mkTimer _ _ _ _).
    destruct (schedule_step ts t iv E Hiv Hd Hts Hat next eq_refl eq_refl eq_refl) as [-> ->].
    rewrite !(Permutation_flat_map _ (hpush_Permutation timer_key next rest)). done.
  - unfold due_events at 1, still_planned at 1, last_due. rewrite E, (proj2 (Z.ltb_ge ts (tk_at t))) by done. cbn. split; [|done].
    rewrite Z.add_0_r. reflexivity.
Qed.

Lemma nothing_due ts l : Forall (fun u => ts < tk_at u) l ->
  flat_map (due_events ts) l = [] /\ flat_map (still_planned ts) l = map plan l.
Proof.
  induction 1 as [|u l Hu _ [IH1 IH2]]; [done|]. cbn. unfold due_events at 1, still_planned at 1.
  rewrite (proj2 (Z.ltb_lt _ _)) by done. by rewrite IH1, IH2.
Qed.

(** What the loop fires is the schedule, and what it leaves is the rest of it. *)
Lemma advance_loop_schedule fuel ts : ts < i64_max -> forall c c' fired, clock_wf c ->
  Clock.advance_loop fuel c ts = Some (c', fired) ->
  map (fun e => (ev_name e, scheduled_for e)) fired ≡ₚ flat_map (due_events ts) (timers c) /\
  map plan (timers c') ≡ₚ flat_map (still_planned ts) (timers c).
Proof.
  intros Hts. induction fuel as [|fuel IH]; intros c c' fired Hc;
    (destruct (hpop (timers c)) as [[t rest]|] eqn:Hpop; [destruct (ts <? tk_at t) eqn:E; bool_prop|]).
  all: try (destruct (advance_loop_idle 0%nat c ts Hc) as [_ Hall]; [by rewrite Hpop|];
    destruct (nothing_due _ _ Hall) as [-> ->]; cbn [Clock.advance_loop]; rewrite Hpop;
    try rewrite (proj2 (Z.ltb_lt _ _)) by done; intros [= <- <-]; split; reflexivity).
  - cbn [Clock.advance_loop]. by rewrite Hpop, (proj2 (Z.ltb_ge _ _)).
  - cbn [Clock.advance_loop]. rewrite Hpop, (proj2 (Z.ltb_ge _ _)) by done.
    destruct (Clock.fire c t rest) as [c1 ev] eqn:Ef. destruct (Clock.advance_loop fuel c1 ts) as [[c2 evs]|] eqn:El; [|done].
    intros [= <- <-]. pose proof Hpop as Hmin. apply (hpop_min timer_key) in Hmin as (Hperm & _); [|apply Hc].
    destruct (fire_schedule c t rest ts c1 ev Hc Hperm E Hts Ef) as [H1 H2].
    destruct (fire_spec c t rest ts c1 ev Hc Hpop E Hts Ef) as (Hc1 & _).
    destruct (IH c1 c2 evs Hc1 El) as [I1 I2]. cbn [map]. by rewrite I1, I2, H1, H2.
Qed.

(** ** Properties *)

(** C10 Advancing a well-formed clock to a reachable instant before the last representable one
    terminates and fires the schedule: the names and times of the events are exactly those at
    which the pending timers come due up to [ts], a repeating one at every interval, each as
    often as it is due and nothing else; they come out in [(time, name, sequence)] order, the
    first of a timer under its own sequence number.  The timers left are exactly those not
    yet due and the repeating ones, re-armed for their first instant past [ts] (the last
    representable one when that is out of range); the clock reads [ts] and the
    invariant is kept. *)
Theorem advance_to_fires_due c ts :
  clock_wf c -> now c <= ts -> ts < i64_max ->
  exists c' fired, Clock.advance_to c ts = Ok (c', fired) /\ now c' = ts /\ clock_wf c' /\
    StronglySorted (fun a b => kle (event_key a) (event_key b)) fired /\
    map (fun e => (ev_name e, scheduled_for e)) fired ≡ₚ flat_map (due_events ts) (timers c) /\
    map plan (timers c') ≡ₚ flat_map (still_planned ts) (timers c) /\
    Forall (fun t => ts < tk_at t) (timers c') /\
    (forall t, In t (timers c) ->
       if ts <? tk_at t then In t (timers c')
       else In (mkTimeEvent (tk_name t) (tk_at t) (tk_sequence t)) fired).
Proof.
  intros Hc Hnow Hts.
  destruct (advance_loop_spec (Clock.advance_fuel c ts) c ts Hc Hts Hnow)
    as (c1 & fired & Hl & Hc1 & Hn1 & Hs & _ & _ & Hrem & Hall).
  { unfold Clock.advance_fuel. rewrite Z2Nat.id; [done|]. apply zsum_nonneg, Forall_map.
    eapply Forall_impl; [apply Hc|]. intros t Ht. by eapply firings_nonneg. }
  destruct (advance_loop_schedule _ ts Hts c c1 fired Hc Hl) as [Hdue Hplan].
  exists (c1 <| now := ts |>), fired. unfold Clock.advance_to.
  rewrite (proj2 (Z.ltb_ge _ _)), Hl by done. repeat split; try done.
  - cbn. apply Hc1.
  - destruct Hc1 as [_ Ht]. apply List.Forall_forall. intros t Hin. cbn in Hin.
    rewrite List.Forall_forall in Ht, Hrem. specialize (Ht t Hin). specialize (Hrem t Hin).
    unfold timer_wf in *. cbn. destruct Ht as (_ & ? & ?). lia || (split; [lia|done]).
Qed.

Definition demo_clock : Clock :=
  mkClock 0 [mkTimer 5 "a" 1 (Some 10); mkTimer 7 "b" 2 None; mkTimer 90 "c" 3 None] 3.

Example advance_to_fires_due_witness :
  clock_wf demo_clock /\
  exists c', Clock.advance_to demo_clock 20 =
    Ok (c', [mkTimeEvent "a" 5 1; mkTimeEvent "b" 7 2; mkTimeEvent "a" 15 4]) /\ now c' = 20.
Proof.
  assert (Hc : clock_wf demo_clock).
  { split; [repeat constructor; cbv; congruence|].
    repeat constructor; cbn; try (cbv; congruence). }
  split; [exact Hc|].
  destruct (advance_to_fires_due demo_clock 20 Hc) as (c' & fired & H & Hn & _);
    [cbv; congruence|cbv; congruence|].
  exists c'. vm_compute in H. split; [|exact Hn]. injection H as <- <-. reflexivity.
Defined.

(** Time never runs backwards: an earlier target is refused. *)
Lemma advance_to_backwards c ts :
  ts < now c -> exists m, Clock.advance_to c ts = Err (Invalid m).
Proof. intros H. unfold Clock.advance_to. rewrite (proj2 (Z.ltb_lt _ _) H). eauto. Qed.

(** At the last representable instant a repeating timer is re-armed at that same
    instant by [saturating_add], so the loop never leaves it, whatever the fuel. *)
Lemma advance_loop_stuck_at_max fuel c t iv :
  timers c = [t] -> tk_at t = i64_max -> interval t = Some iv -> 0 < iv ->
  Clock.advance_loop fuel c i64_max = None.
Proof.
  intros Ht Hat Hiv Hpos. revert c t Ht Hat Hiv.
  induction fuel as [|fuel IH]; intros c t Ht Hat Hiv; cbn [Clock.advance_loop];
    rewrite Ht; cbn [hpop]; rewrite Hat, Z.ltb_irrefl; [done|].
  destruct (Clock.fire c t []) as [c' ev] eqn:Ef.
  unfold Clock.fire in Ef. rewrite Hiv in Ef. injection Ef as <- _.
  erewrite IH; [done|reflexivity|cbn|reflexivity].
  unfold sat64. rewrite Hat. widths. lia.
Qed.

(** An ordinary repeating timer reaches that state when the clock is advanced to the
    end of time. *)
Theorem advance_to_max_diverges fuel :
  Clock.advance_loop fuel
    (mkClock 0 [mkTimer (i64_max - 5) "hourly" 1 (Some 10)] 1) i64_max = None.
Proof.
  destruct fuel as [|fuel]; [reflexivity|]. cbn -[i64_max sat64 Z.ltb].
  replace (i64_max <? i64_max - 5) with false by reflexivity.
  erewrite (advance_loop_stuck_at_max fuel _ _ 10); [done|reflexivity|reflexivity|reflexivity|lia].
Qed.
