(* ===== verification/Currency.v ===== *)
(** * Currencies, exchange rates and haircuts

    Models [currency.rs].  A [Currency] is its code; text is ASCII.  The rate table
    is the ordered map of [BTree.v] keyed by the pair of codes, so two books with
    the same rates are equal.  The theorem states which rate a pair of currencies
    resolves to, and that an unknown one is refused rather than guessed. *)
From S2P Require Export Types.

Abbreviation Currency := string (only parsing).

(** [char::is_ascii_alphanumeric], [char::to_ascii_uppercase] and the whitespace
    [str::trim] removes. *)
Definition is_ascii_alphanumeric (c : Ascii.ascii) : bool :=
  let n := Ascii.nat_of_ascii c in
  ((48 <=? n)%nat && (n <=? 57)%nat) || ((65 <=? n)%nat && (n <=? 90)%nat)
  || ((97 <=? n)%nat && (n <=? 122)%nat).
Definition ascii_upper (c : Ascii.ascii) : Ascii.ascii :=
  let n := Ascii.nat_of_ascii c in
  if (97 <=? n)%nat && (n <=? 122)%nat then Ascii.ascii_of_nat (n - 32) else c.
Definition is_whitespace (c : Ascii.ascii) : bool :=
  let n := Ascii.nat_of_ascii c in ((9 <=? n)%nat && (n <=? 13)%nat) || (n =? 32)%nat.

Fixpoint trim_start (s : string) : string :=
  match s with
  | String c s' => if is_whitespace c then trim_start s' else s
  | EmptyString => ""
  end.
Fixpoint trim_end (s : string) : string :=
  match s with
  | EmptyString => ""
  | String c s' =>
      match trim_end s' with
      | EmptyString => if is_whitespace c then "" else String c ""
      | t => String c t
      end
  end.
Definition trim (s : string) : string := trim_end (trim_start s).

Fixpoint str_all (p : Ascii.ascii -> bool) (s : string) : bool :=
  match s with EmptyString => true | String c s' => p c && str_all p s' end.
Fixpoint str_map (f : Ascii.ascii -> Ascii.ascii) (s : string) : string :=
  match s with EmptyString => "" | String c s' => String (f c) (str_map f s') end.

Module Currency.
Definition new (code : string) : Result Currency :=
  let trimmed := trim code in
  if String.eqb trimmed "" || (12 <? String.length trimmed)%nat then
    Err (invalid "currency code must be 1 to 12 characters")
  else if negb (str_all (fun c => is_ascii_alphanumeric c || Ascii.eqb c "."%char) trimmed) then
    Err (invalid "currency code must be alphanumeric")
  else Ok (str_map ascii_upper trimmed).
End Currency.

(** Why a conversion could not be done. *)
Inductive FxError : Type := NoRate (from to : Currency).

(** [FxBook]. *)
Record FxBook := mkFxBook { rates : BTree (Currency * Currency) Price }.
#[export] Instance eta_FxBook : Eta FxBook := fun b => mkFxBook (rates b).

Module FxBook.
Definition new : FxBook := mkFxBook [].

Definition set (b : FxBook) (base quote : Currency) (rate : Price) : Result FxBook :=
  if negb (is_positive rate) then Err (invalid "exchange rate must be positive")
  else Ok (b <| rates := binsert (base, quote) rate (rates b) |>).

(** The inverse of a stored rate, derived at the scale and rounded down. *)
Definition rate (b : FxBook) (from to : Currency) : result FxError Price :=
  if String.eqb from to then Ok SCALE
  else
    match bget (from, to) (rates b) with
    | Some r => Ok r
    | None =>
        match bget (to, from) (rates b) with
        | Some r =>
            if is_positive r then
              match narrow (Z.quot (SCALE * SCALE) r) "Currency::inverse_rate" with
              | Ok inverse => Ok inverse
              | Err _ => Err (NoRate from to)
              end
            else Err (NoRate from to)
        | None => Err (NoRate from to)
        end
    end.

Definition convert (b : FxBook) (amount : Money) (from to : Currency) : result FxError Money :=
  if String.eqb from to then Ok amount
  else
    let? r := rate b from to in
    match notional r amount with
    | Ok m => Ok m
    | Err _ => Err (NoRate from to)
    end.

Definition is_empty (b : FxBook) : bool := match rates b with [] => true | _ => false end.
Definition pairs (b : FxBook) : list (Currency * Currency) := bkeys (rates b).
End FxBook.

(** [Haircuts]. *)
Record Haircuts := mkHaircuts { factors : BTree Currency Price }.
#[export] Instance eta_Haircuts : Eta Haircuts := fun h => mkHaircuts (factors h).

Module Haircuts.
Definition new : Haircuts := mkHaircuts [].

Definition set (h : Haircuts) (currency : Currency) (f : Price) : Result Haircuts :=
  if negb (is_positive f) || (SCALE <? f) then Err (invalid "haircut factor must be in (0, 1]")
  else Ok (h <| factors := binsert currency f (factors h) |>).

(** Anything unlisted counts in full. *)
Definition factor (h : Haircuts) (currency : Currency) : Price :=
  default SCALE (bget currency (factors h)).

Definition apply (h : Haircuts) (amount : Money) (currency : Currency) : Result Money :=
  notional (factor h currency) amount.
End Haircuts.

(** ** Invariants *)

(** Every stored rate is a positive [i64]. *)
Definition fx_wf (b : FxBook) : Prop :=
  bwf (rates b) /\ Forall (fun r => 0 < r <= i64_max) (bvalues (rates b)).

Definition haircuts_wf (h : Haircuts) : Prop :=
  Forall (fun f => 0 < f <= SCALE) (bvalues (factors h)).

(** ** Specification *)

(** The rate a table answers for a pair: the stored one, else the reciprocal of the
    one stored the other way round, else none. *)
Definition known_rate (b : FxBook) (from to : Currency) : option Price :=
  if decide (from = to) then Some SCALE
  else
    match bget (from, to) (rates b), bget (to, from) (rates b) with
    | Some r, _ => Some r
    | None, Some r => Some (SCALE * SCALE / r)
    | None, None => None
    end.

(** ** Lemmas *)

Lemma fx_new_wf : fx_wf FxBook.new.
Proof. split; repeat constructor. Qed.

Lemma fx_set_wf b base quote rate b' :
  fx_wf b -> rate <= i64_max -> FxBook.set b base quote rate = Ok b' -> fx_wf b'.
Proof.
  intros [Hb Hr] Hm. unfold FxBook.set, is_positive. destruct (0 <? rate) eqn:E; [|done].
  bool_prop. intros [= <-]. split; cbn; [auto with h5i|].
  apply Forall_values_insert; [lia|done].
Qed.

Lemma fx_wf_get b k r : fx_wf b -> bget k (rates b) = Some r -> 0 < r <= i64_max.
Proof.
  intros [_ Hf] Hg. rewrite List.Forall_forall in Hf. apply Hf.
  apply bget_In in Hg. by apply (in_map snd) in Hg.
Qed.

Lemma haircuts_set_wf h c f h' :
  haircuts_wf h -> Haircuts.set h c f = Ok h' -> haircuts_wf h'.
Proof.
  unfold Haircuts.set, is_positive. intros Hh.
  destruct (negb (0 <? f) || (SCALE <? f)) eqn:E; [done|]. bool_prop.
  intros [= <-]. unfold haircuts_wf; cbn. apply Forall_values_insert; [lia|done].
Qed.

Lemma haircut_factor_range h c : haircuts_wf h -> 0 < Haircuts.factor h c <= SCALE.
Proof.
  intros Hh. unfold Haircuts.factor. destruct (bget c (factors h)) as [f|] eqn:E; cbn.
  - unfold haircuts_wf in Hh. rewrite List.Forall_forall in Hh. apply Hh.
    apply bget_In in E. by apply (in_map snd) in E.
  - unfold SCALE. lia.
Qed.

(** A reciprocal always fits the type. *)
Lemma inverse_narrows r :
  0 < r -> narrow (Z.quot (SCALE * SCALE) r) "Currency::inverse_rate" = Ok (SCALE * SCALE / r).
Proof.
  intros Hr. rewrite Z.quot_div_nonneg by (unfold SCALE; lia).
  apply narrow_Ok. split; [|done].
  assert (0 <= SCALE * SCALE / r) by (apply Z.div_pos; unfold SCALE; lia).
  assert (SCALE * SCALE / r <= SCALE * SCALE) by (apply Z.div_le_upper_bound; unfold SCALE; nia).
  unfold SCALE in *. widths. lia.
Qed.

(** ** Properties *)

(** A rate table answers the stored rate, the derived reciprocal, or a refusal
    naming the pair, and never a guess; a derived reciprocal multiplied back by the
    stored rate never exceeds one and falls short of it by less than one unit of the
    stored rate, so converting through it never creates value. *)
Theorem fx_rate_resolves b from to :
  fx_wf b ->
  FxBook.rate b from to = ok_or (known_rate b from to) (NoRate from to) /\
  (forall r, from <> to -> bget (from, to) (rates b) = None ->
    bget (to, from) (rates b) = Some r ->
    exists inv, FxBook.rate b from to = Ok inv /\
      SCALE * SCALE - r < inv * r <= SCALE * SCALE).
Proof.
  intros Hb. assert (Hrate : FxBook.rate b from to = ok_or (known_rate b from to) (NoRate from to)).
  { unfold FxBook.rate, known_rate. destruct (String.eqb_spec from to), (decide (from = to));
      try done.
    destruct (bget (from, to) (rates b)); [done|].
    destruct (bget (to, from) (rates b)) as [r|] eqn:E; [|done].
    pose proof (fx_wf_get _ _ _ Hb E) as Hr. unfold is_positive.
    rewrite (proj2 (Z.ltb_lt 0 r)) by lia. by rewrite inverse_narrows by lia. }
  split; [done|]. intros r Hne H1 H2. pose proof (fx_wf_get _ _ _ Hb H2) as Hr.
  exists (SCALE * SCALE / r). rewrite Hrate. unfold known_rate.
  destruct (decide (from = to)); [done|]. rewrite H1, H2. split; [done|].
  pose proof (Z.div_mod (SCALE * SCALE) r). pose proof (Z.mod_pos_bound (SCALE * SCALE) r). lia.
Qed.

Example fx_rate_resolves_witness :
  let b := mkFxBook [(("EUR", "USD"), 1083000000)] in
  FxBook.rate b "USD" "EUR" = Ok 923361034 /\ FxBook.rate b "USD" "GBP" = Err (NoRate "USD" "GBP").
Proof.
  assert (Hb : fx_wf (mkFxBook [(("EUR", "USD"), 1083000000)])).
  { split; [repeat constructor|]. constructor; [cbn; widths; lia|constructor]. }
  split.
  - destruct (fx_rate_resolves _ "USD" "EUR" Hb) as [-> _]. reflexivity.
  - destruct (fx_rate_resolves _ "USD" "GBP" Hb) as [-> _]. reflexivity.
Defined.
