(* ===== verification/Instrument.v ===== *)
(** * Instruments, price grids and outcome prices

    Models [instrument.rs].  An [InstrumentId] is the text it wraps, an [OutcomeId]
    the [u16] it wraps.  The loops over decimal digits run on fuel taken from the
    binary logarithm, which the lemmas show is enough.  The theorems: rounding to a
    venue's grid lands on a price the venue accepts and leaves accepted prices
    alone, and dividing one unit across outcomes loses nothing. *)
From S2P Require Export Currency.

Abbreviation InstrumentId := string (only parsing).
Abbreviation OutcomeId := Z (only parsing).

Module InstrumentId.
Definition new (id : string) : Result InstrumentId :=
  if String.eqb (trim id) "" then Err (invalid "instrument id must not be empty") else Ok id.
End InstrumentId.

Inductive InstrumentKind := PredictionMarket | Perpetual | Spot.
#[export] Instance InstrumentKind_eq_dec : EqDecision InstrumentKind.
Proof. solve_decision. Defined.

Definition is_probability (k : InstrumentKind) : bool :=
  match k with PredictionMarket => true | _ => false end.
Definition is_funded (k : InstrumentKind) : bool :=
  match k with PredictionMarket | Spot => true | Perpetual => false end.

Inductive PriceRule := Tick | SignificantFigures (significant_figures max_decimals : Z).

Record Instrument := mkInstrument {
  inst_id : InstrumentId;
  venue : string;
  kind : InstrumentKind;
  outcomes : list string;
  tick_size : Price;
  lot_size : Qty;
  settlement_currency : Currency;
  expiration : option UnixNanos;
  settlement_observable : option UnixNanos;
  neg_risk : bool;
  price_rule : PriceRule;
}.
#[export] Instance eta_Instrument : Eta Instrument := fun i =>
  mkInstrument (inst_id i) (venue i) (kind i) (outcomes i) (tick_size i) (lot_size i)
    (settlement_currency i) (expiration i) (settlement_observable i) (neg_risk i) (price_rule i).

(** ** Digits of a fixed-point price *)

Definition is_whole (price : Price) : bool := Z.rem price SCALE =? 0.

(** The two digit loops: dropping trailing zeros, and counting what is left. *)
Fixpoint strip_zeros (fuel : nat) (raw : Z) : Z :=
  match fuel with
  | O => raw
  | S fuel' => if raw mod 10 =? 0 then strip_zeros fuel' (raw / 10) else raw
  end.
Fixpoint count_digits (fuel : nat) (raw : Z) : Z :=
  match fuel with
  | O => 0
  | S fuel' => if 0 <? raw then 1 + count_digits fuel' (raw / 10) else 0
  end.
Definition digit_fuel (raw : Z) : nat := S (Z.to_nat (Z.log2 raw)).

Definition count_significant_figures (price : Price) : Z :=
  let raw := Z.abs price in
  if raw =? 0 then 0
  else
    let raw := strip_zeros (digit_fuel raw) raw in
    count_digits (digit_fuel raw) raw.

Definition truncate_to_significant_figures (raw figures : Z) : Z :=
  if (figures =? 0) || (raw =? 0) then raw
  else
    let magnitude := Z.abs raw in
    if magnitude mod SCALE =? 0 then raw
    else
      let digits := count_digits (digit_fuel magnitude) magnitude in
      if digits <=? figures then raw
      else
        let drop := 10 ^ (digits - figures) in
        sub64 raw (Z.rem raw drop).

(** ** Instruments *)
Module Instrument.
Definition prediction_market (id venue : string) (outcomes : list string) : Result Instrument :=
  if (length outcomes <? 2)%nat then
    Err (invalid "a prediction market needs at least two outcomes")
  else
    let? id := InstrumentId.new id in
    let? usdc := Currency.new "USDC" in
    Ok (mkInstrument id venue PredictionMarket outcomes (SCALE / 10000) SCALE usdc
          None None false Tick).

Definition binary (id venue : string) : Result Instrument :=
  prediction_market id venue ["YES"; "NO"].

Definition spot (id venue : string) : Result Instrument :=
  let? id := InstrumentId.new id in
  let? usdc := Currency.new "USDC" in
  Ok (mkInstrument id venue Spot ["-"] (SCALE / 100) (SCALE / 1000) usdc None None false Tick).

Definition perpetual (id venue : string) : Result Instrument :=
  let? id := InstrumentId.new id in
  let? usdc := Currency.new "USDC" in
  Ok (mkInstrument id venue Perpetual ["-"] (SCALE / 100) (SCALE / 1000) usdc None None false Tick).

Definition with_tick_size (i : Instrument) (tick : Price) : Instrument := i <| tick_size := tick |>.
Definition with_lot_size (i : Instrument) (lot : Qty) : Instrument := i <| lot_size := lot |>.
Definition with_settlement_currency (i : Instrument) (c : Currency) : Instrument :=
  i <| settlement_currency := c |>.
Definition with_expiration (i : Instrument) (at_ : UnixNanos) : Instrument :=
  i <| expiration := Some at_ |>.
Definition with_settlement_observable (i : Instrument) (at_ : UnixNanos) : Instrument :=
  i <| settlement_observable := Some at_ |>.
Definition with_neg_risk (i : Instrument) (b : bool) : Instrument := i <| neg_risk := b |>.

Definition with_price_rule (i : Instrument) (rule : PriceRule) : Result Instrument :=
  match rule with
  | SignificantFigures significant_figures max_decimals =>
      if (significant_figures =? 0) || (18 <? significant_figures) then
        Err (invalid "a significant-figure limit must lie in 1..=18")
      else if 9 <? max_decimals then
        Err (invalid "decimal places exceeds the fixed-point scale's nine")
      else Ok (i <| tick_size := 10 ^ (9 - max_decimals) |> <| price_rule := rule |>)
  | Tick => Ok (i <| price_rule := rule |>)
  end.

(** [self.outcomes.len() as u16]. *)
Definition outcome_count (i : Instrument) : Z := Z.of_nat (length (outcomes i)) mod 65536.
Definition outcome_ids (i : Instrument) : list OutcomeId :=
  map Z.of_nat (seq 0 (Z.to_nat (outcome_count i))).

Definition supports_complete_set (i : Instrument) : bool :=
  is_probability (kind i) && ((outcome_count i =? 2) || neg_risk i).

Definition outcome (i : Instrument) (id : OutcomeId) : Result string :=
  ok_or (outcomes i !! Z.to_nat id) (UnknownOutcome (inst_id i) id (outcome_count i)).

Definition check_outcome (i : Instrument) (id : OutcomeId) : Result unit :=
  let? _o := outcome i id in Ok tt.

Definition check_price (i : Instrument) (price : Price) : Result unit :=
  if is_probability (kind i) && ((price <? PROBABILITY_MIN) || (PROBABILITY_MAX <? price)) then
    Err (invalid "price is outside [0, 1] for probability instrument")
  else if (0 <? tick_size i) && negb (Z.rem price (tick_size i) =? 0) then
    Err (invalid "price is not a multiple of the tick size")
  else
    match price_rule i with
    | SignificantFigures significant_figures _ =>
        if negb (is_whole price) && (significant_figures <? count_significant_figures price) then
          Err (invalid "price carries too many significant figures")
        else Ok tt
    | Tick => Ok tt
    end.

Definition round_to_tick (i : Instrument) (price : Price) : Price :=
  let tick := tick_size i in
  let raw := if 0 <? tick then sub64 price (Z.rem price tick) else price in
  match price_rule i with
  | SignificantFigures significant_figures _ =>
      truncate_to_significant_figures raw significant_figures
  | Tick => raw
  end.

Definition completeness_error (i : Instrument) (prices : list Price) : Result Price :=
  if negb (length prices =? length (outcomes i))%nat then
    Err (invalid "outcomes but prices were supplied")
  else Ok (sub64 (sum64 prices) SCALE).
End Instrument.

(** ** Dividing one unit across outcomes *)

(** [for price in prices.iter_mut().take(n) { *price = v }]. *)
Fixpoint set_first (n : nat) (v : Z) (l : list Z) : list Z :=
  match n, l with
  | S n', _ :: l' => v :: set_first n' v l'
  | _, _ => l
  end.

Definition uniform_prices (count : Z) : Result (list Price) :=
  if count =? 0 then Err (invalid "cannot split one unit across zero outcomes")
  else
    let base := Z.quot SCALE count in
    let remainder := Z.rem SCALE count in
    let prices := repeat base (Z.to_nat count) in
    Ok (set_first (Z.to_nat remainder) (base + 1) prices).

(** [max_by_key] on [(price, Reverse(index))]: the lowest index of the largest. *)
Fixpoint largest_from (i : nat) (best : nat * Z) (l : list Z) : nat :=
  match l with
  | [] => best.1
  | x :: l' => largest_from (S i) (if best.2 <? x then (i, x) else best) l'
  end.
Definition largest_index (l : list Z) : nat :=
  match l with [] => 0%nat | x :: l' => largest_from 1 (0%nat, x) l' end.

Definition normalise_to_one (prices : list Price) : Result (list Price) :=
  match prices with
  | [] => Err (invalid "cannot normalise an empty price set")
  | _ =>
      let total := sum128 prices in
      if (total <=? 0) || existsb is_negative prices then
        Err (invalid "outcome prices must be non-negative and sum to more than zero")
      else
        let? scaled :=
          map_res (fun price => narrow (Z.quot (price * SCALE) total) "normalise_to_one") prices in
        let residual := sub64 SCALE (sum64 scaled) in
        if residual =? 0 then Ok scaled
        else
          let largest := largest_index scaled in
          Ok (alter (fun p => add64 p residual) largest scaled)
  end.

(** ** The instruments a run knows *)
Record InstrumentSet := mkInstrumentSet { by_id : gmap string Instrument }.

Module InstrumentSet.
Definition new : InstrumentSet := mkInstrumentSet ∅.

Definition insert (s : InstrumentSet) (i : Instrument) : Result InstrumentSet :=
  match by_id s !! inst_id i with
  | Some _ => Err (invalid "instrument is already registered")
  | None => Ok (mkInstrumentSet (<[inst_id i := i]> (by_id s)))
  end.

Definition get (s : InstrumentSet) (id : InstrumentId) : Result Instrument :=
  ok_or (by_id s !! id) (UnknownInstrument id).
Definition contains (s : InstrumentSet) (id : InstrumentId) : bool :=
  match by_id s !! id with Some _ => true | None => false end.
Definition len (s : InstrumentSet) : nat := size (by_id s).
Definition is_empty (s : InstrumentSet) : bool := (len s =? 0)%nat.

(** Ids in sorted order. *)
Definition ids (s : InstrumentSet) : list InstrumentId :=
  sort_keys (map fst (map_to_list (by_id s))).
End InstrumentSet.

(** ** Invariants and specifications *)

(** What [with_price_rule] leaves: a figure limit comes with the power-of-ten tick. *)
Definition price_rule_wf (i : Instrument) : Prop :=
  match price_rule i with
  | Tick => 0 <= tick_size i
  | SignificantFigures f d => 1 <= f <= 18 /\ 0 <= d <= 9 /\ tick_size i = 10 ^ (9 - d)
  end.

(** ** Digit lemmas *)

Lemma digit_fuel_enough n : 0 <= n -> n < 10 ^ Z.of_nat (digit_fuel n).
Proof.
  intros Hn. unfold digit_fuel. rewrite Nat2Z.inj_succ, Z2Nat.id by apply Z.log2_nonneg.
  destruct (Z.eq_dec n 0) as [->|]; [done|].
  pose proof (Z.log2_spec n). assert (2 ^ Z.succ (Z.log2 n) <= 10 ^ Z.succ (Z.log2 n)); [|lia].
  apply Z.pow_le_mono_l. lia.
Qed.

(** The digit count is the least power of ten above the number. *)
Lemma count_digits_spec fuel n :
  0 <= n < 10 ^ Z.of_nat fuel ->
  0 <= count_digits fuel n /\ n < 10 ^ count_digits fuel n /\
  forall k, 0 <= k -> n < 10 ^ k -> count_digits fuel n <= k.
Proof.
  revert n. induction fuel as [|fuel IH]; intros n Hn.
  - cbn in *. repeat split; lia.
  - cbn [count_digits]. rewrite Nat2Z.inj_succ, Z.pow_succ_r in Hn by lia.
    destruct (0 <? n) eqn:E; bool_prop; [|repeat split; try lia].
    destruct (IH (n / 10)) as (H0 & Hlt & Hmin).
    { split; [apply Z.div_pos; lia|]. apply Z.div_lt_upper_bound; lia. }
    split; [lia|]. split.
    + rewrite Z.pow_add_r by lia. change (10 ^ 1) with 10.
      pose proof (Z.div_mod n 10). pose proof (Z.mod_pos_bound n 10). lia.
    + intros k Hk Hnk. destruct (Z.eq_dec k 0) as [->|]; [cbn in Hnk; lia|].
      specialize (Hmin (k - 1)). replace k with (1 + (k - 1)) in Hnk by lia.
      rewrite Z.pow_add_r in Hnk by lia. change (10 ^ 1) with 10 in Hnk.
      assert (n / 10 < 10 ^ (k - 1)) by (apply Z.div_lt_upper_bound; lia). lia.
Qed.

Lemma count_digits_le n k :
  0 <= n -> 0 <= k -> count_digits (digit_fuel n) n <= k <-> n < 10 ^ k.
Proof.
  intros Hn Hk.
  destruct (count_digits_spec (digit_fuel n) n) as (H0 & Hlt & Hmin).
  { split; [done|]. by apply digit_fuel_enough. }
  split; [|auto]. intros H. eapply Z.lt_le_trans; [exact Hlt|].
  apply Z.pow_le_mono_r; lia.
Qed.

(** Stripping removes exactly the trailing zeros. *)
Lemma strip_zeros_spec fuel n :
  0 < n < 10 ^ Z.of_nat fuel ->
  exists t, 0 <= t /\ n = strip_zeros fuel n * 10 ^ t /\
    0 < strip_zeros fuel n /\ strip_zeros fuel n mod 10 <> 0.
Proof.
  revert n. induction fuel as [|fuel IH]; intros n Hn; [cbn in Hn; lia|].
  cbn [strip_zeros]. rewrite Nat2Z.inj_succ, Z.pow_succ_r in Hn by lia.
  destruct (n mod 10 =? 0) eqn:E; bool_prop.
  - pose proof (Z.div_mod n 10). destruct (IH (n / 10)) as (t & Ht & Heq & Hpos & Hmod).
    { split; [lia|]. apply Z.div_lt_upper_bound; lia. }
    exists (t + 1). split; [lia|]. split; [|done].
    rewrite Z.pow_add_r by lia. change (10 ^ 1) with 10. lia.
  - exists 0. cbn. repeat split; lia.
Qed.

(** A number has at most [f] significant figures when it is an [f]-digit number
    times a power of ten. *)
Lemma count_significant_figures_le p f :
  0 <= f ->
  count_significant_figures p <= f <->
  exists q t, 0 <= t /\ Z.abs p = q * 10 ^ t /\ 0 <= q < 10 ^ f.
Proof.
  intros Hf. unfold count_significant_figures. set (m := Z.abs p).
  assert (0 <= m) by (unfold m; lia). destruct (m =? 0) eqn:E; bool_prop.
  - split; [intros _|by intros]. exists 0, 0. rewrite E. repeat split; try lia.
    all: pose proof (Z.pow_pos_nonneg 10 f); lia.
  - destruct (strip_zeros_spec (digit_fuel m) m) as (t & Ht & Heq & Hpos & Hmod).
    { split; [lia|]. by apply digit_fuel_enough. }
    set (s := strip_zeros (digit_fuel m) m) in *. rewrite count_digits_le by lia. split.
    + intros Hs. exists s, t. repeat split; lia.
    + intros (q & u & Hu & Hq & Hql).
      destruct (Z.le_gt_cases u t) as [Hle|Hgt].
      * assert (s * 10 ^ (t - u) = q).
        { apply (Z.mul_cancel_r _ _ (10 ^ u)); [pose proof (Z.pow_pos_nonneg 10 u); lia|].
          rewrite <- Z.mul_assoc, <- Z.pow_add_r by lia.
          replace (t - u + u) with t by lia. congruence. }
        pose proof (Z.pow_pos_nonneg 10 (t - u)). nia.
      * exfalso. apply Hmod.
        assert (s = q * 10 ^ (u - t)) as ->.
        { apply (Z.mul_cancel_r _ _ (10 ^ t)); [pose proof (Z.pow_pos_nonneg 10 t); lia|].
          rewrite <- Z.mul_assoc, <- Z.pow_add_r by lia.
          replace (u - t + t) with u by lia. congruence. }
        replace (u - t) with (1 + (u - t - 1)) by lia. rewrite Z.pow_add_r by lia.
        change (10 ^ 1) with 10. replace (q * (10 * 10 ^ (u - t - 1)))
          with (q * 10 ^ (u - t - 1) * 10) by lia. by apply Z.mod_mul.
Qed.

(** ** Rounding towards zero *)

(** [r] is [p] moved towards zero. *)
Definition towards_zero (p r : Z) : Prop := (0 <= r <= p) \/ (p <= r <= 0).

Lemma sub_rem_towards_zero p d : d <> 0 -> towards_zero p (p - Z.rem p d).
Proof.
  intros Hd. unfold towards_zero.
  assert (Hpos : forall a, 0 <= a -> 0 <= Z.rem a d <= a).
  { intros a Ha. split; [by apply Z.rem_nonneg|]. rewrite <- Z.rem_abs_r by done.
    apply Z.rem_le; lia. }
  destruct (Z.le_gt_cases 0 p) as [Hp|Hp]; [specialize (Hpos p); lia|].
  pose proof (Z.rem_opp_l p d Hd). specialize (Hpos (- p)). lia.
Qed.

Lemma towards_zero_refl p : towards_zero p p.
Proof. unfold towards_zero. lia. Qed.
Lemma towards_zero_trans p q r : towards_zero p q -> towards_zero q r -> towards_zero p r.
Proof. unfold towards_zero. lia. Qed.
Lemma towards_zero_in_i64 p r : in_i64 p -> towards_zero p r -> in_i64 r.
Proof. unfold towards_zero. widths. lia. Qed.
#[export] Hint Resolve towards_zero_refl : h5i.

Lemma sub_rem_exact p d : in_i64 p -> d <> 0 -> sub64 p (Z.rem p d) = p - Z.rem p d.
Proof.
  intros Hp Hd. apply wrap64_id. eapply towards_zero_in_i64; [exact Hp|].
  by apply sub_rem_towards_zero.
Qed.

Lemma sub_rem_divides p d : d <> 0 -> (d | p - Z.rem p d).
Proof. intros Hd. exists (Z.quot p d). pose proof (Z.quot_rem' p d). lia. Qed.

Lemma rem_0_divides p d : d <> 0 -> Z.rem p d = 0 <-> (d | p).
Proof. intros Hd. rewrite Z.rem_divide by done. done. Qed.

(** Truncation keeps the leading figures, towards zero, and keeps multiples of any
    power of ten. *)
Lemma truncate_spec raw f :
  in_i64 raw -> 1 <= f -> let r := truncate_to_significant_figures raw f in
  towards_zero raw r /\ (Z.rem r SCALE = 0 \/ count_significant_figures r <= f) /\
  (forall k, 0 <= k -> (10 ^ k | raw) -> (10 ^ k | r)) /\
  ((Z.rem raw SCALE = 0 \/ count_significant_figures raw <= f) -> r = raw).
Proof.
  intros Hraw Hf. cbv zeta. unfold truncate_to_significant_figures.
  destruct (f =? 0) eqn:Ef; bool_prop; [lia|]. cbn [orb].
  destruct (raw =? 0) eqn:E0; bool_prop.
  { subst. repeat split; auto with h5i. }
  set (m := Z.abs raw). assert (0 < m) by (unfold m; lia).
  assert (Hw : Z.rem raw SCALE = 0 <-> m mod SCALE = 0).
  { rewrite rem_0_divides by done. unfold m. rewrite Z.mod_divide by done.
    by rewrite Z.divide_abs_r. }
  destruct (m mod SCALE =? 0) eqn:Em; bool_prop.
  { repeat split; auto with h5i. left. by apply Hw. }
  destruct (count_digits_spec (digit_fuel m) m) as (Hd0 & Hdlt & Hdmin).
  { split; [lia|]. apply digit_fuel_enough. lia. }
  set (d := count_digits (digit_fuel m) m) in *.
  destruct (d <=? f) eqn:Ed; bool_prop.
  { repeat split; auto with h5i. right. apply count_significant_figures_le; [lia|].
    exists m, 0. repeat split; try lia. eapply Z.lt_le_trans; [exact Hdlt|].
    apply Z.pow_le_mono_r; lia. }
  assert (0 < 10 ^ (d - f)) as Hdrop by (apply Z.pow_pos_nonneg; lia).
  rewrite sub_rem_exact by (done || lia).
  pose proof (sub_rem_towards_zero raw (10 ^ (d - f))) as Htz.
  pose proof (sub_rem_divides raw (10 ^ (d - f))) as [q Hq]; [lia|].
  split; [apply Htz; lia|]. split; [|split].
  - right. apply count_significant_figures_le; [lia|].
    exists (Z.abs q), (d - f). rewrite Hq, Z.abs_mul, (Z.abs_eq (10 ^ (d - f))) by lia.
    split; [lia|]. split; [done|]. split; [lia|].
    assert (Z.abs q * 10 ^ (d - f) <= m).
    { rewrite <- (Z.abs_eq (10 ^ (d - f))), <- Z.abs_mul, <- Hq by lia.
      unfold towards_zero in Htz. unfold m. lia. }
    replace d with (f + (d - f)) in Hdlt at 1 by lia. rewrite Z.pow_add_r in Hdlt by lia. nia.
  - intros k Hk Hdiv. destruct (Z.le_gt_cases k (d - f)) as [Hle|Hgt].
    + rewrite Hq. apply Z.divide_mul_r. exists (10 ^ (d - f - k)).
      rewrite <- Z.pow_add_r by lia. f_equal. lia.
    + replace (Z.rem raw (10 ^ (d - f))) with 0; [by rewrite Z.sub_0_r|].
      symmetry. apply rem_0_divides; [lia|]. etransitivity; [|exact Hdiv].
      exists (10 ^ (k - (d - f))). rewrite <- Z.pow_add_r by lia. f_equal. lia.
  - intros [Hz|Hc]; [apply Hw in Hz; lia|].
    apply count_significant_figures_le in Hc as (s & t & Ht & Hs & Hsl); [|lia].
    replace (Z.rem raw (10 ^ (d - f))) with 0; [lia|].
    symmetry. apply rem_0_divides; [lia|]. apply Z.divide_abs_r. rewrite Hs.
    apply Z.divide_mul_r. assert (d <= f + t).
    { apply Hdmin; [lia|]. unfold m. rewrite Hs, Z.pow_add_r by lia.
      pose proof (Z.pow_pos_nonneg 10 t). nia. }
    exists (10 ^ (t - (d - f))). rewrite <- Z.pow_add_r by lia. f_equal. lia.
Qed.

(** ** Dividing one unit *)

Lemma set_first_length n v l : length (set_first n v l) = length l.
Proof. revert n. induction l as [|x l IH]; intros [|n]; cbn; auto. Qed.

Lemma set_first_repeat n v x k :
  (n <= k)%nat -> set_first n v (repeat x k) = repeat v n ++ repeat x (k - n).
Proof.
  revert k. induction n as [|n IH]; intros k Hn; cbn; [by rewrite Nat.sub_0_r|].
  destruct k; [lia|]. cbn. by rewrite IH by lia.
Qed.

Lemma zsum_repeat x n : zsum (repeat x n) = Z.of_nat n * x.
Proof.
  unfold zsum. induction n as [|n IH]; [done|]. cbn [repeat foldr]. rewrite IH. lia.
Qed.

Lemma zsum_alter f i l x :
  l !! i = Some x -> zsum (alter f i l) = zsum l - x + f x.
Proof.
  revert i. induction l as [|y l IH]; intros i; [done|]. destruct i as [|i].
  - intros [= ->]. change (f x + zsum l = x + zsum l - x + f x). lia.
  - intros Hi. change (y + zsum (alter f i l) = y + zsum l - x + f x). rewrite (IH i Hi). lia.
Qed.

(** The chosen index holds a largest element. *)
Lemma largest_from_spec l : forall pre i b,
  (forall x, In x pre -> x <= b) -> pre !! i = Some b -> exists x,
  (pre ++ l) !! largest_from (length pre) (i, b) l = Some x /\ forall y, In y (pre ++ l) -> y <= x.
Proof.
  induction l as [|y l IH]; intros pre i b Hmax Hi; cbn [largest_from].
  - exists b. rewrite app_nil_r. auto.
  - cbn. replace (S (length pre)) with (length (pre ++ [y])) by (rewrite length_app; cbn; lia).
    replace (pre ++ y :: l) with ((pre ++ [y]) ++ l) by by rewrite <- app_assoc.
    destruct (b <? y) eqn:E; bool_prop; apply IH.
    + intros x [Hx|[<-|[]]]%in_app_iff; [|lia]. specialize (Hmax x Hx). lia.
    + by apply list_lookup_middle.
    + intros x [Hx|[<-|[]]]%in_app_iff; [by apply Hmax|lia].
    + by apply lookup_app_l_Some.
Qed.

Lemma largest_index_spec l :
  l <> [] -> exists x, l !! largest_index l = Some x /\ forall y, In y l -> y <= x.
Proof.
  destruct l as [|x l]; [done|]. intros _. apply (largest_from_spec l [x] 0%nat x); [|done].
  intros y [<-|[]]. lia.
Qed.

Lemma rem_64_fits p d : in_i64 p -> d <> 0 -> in_i64 (p - Z.rem p d).
Proof. intros. eapply towards_zero_in_i64; [done|by apply sub_rem_towards_zero]. Qed.

(** The two steps of [round_to_tick]: onto the tick, then onto the figures. *)
Lemma tick_step_spec i p :
  price_rule_wf i -> in_i64 p ->
  let r := if 0 <? tick_size i then sub64 p (Z.rem p (tick_size i)) else p in
  towards_zero p r /\ in_i64 r /\ (0 < tick_size i -> (tick_size i | r)) /\
  (Z.rem p (tick_size i) = 0 -> r = p).
Proof.
  intros Hr Hp. cbv zeta. destruct (0 <? tick_size i) eqn:E; bool_prop; [|auto with h5i lia].
  rewrite sub_rem_exact by (done || lia).
  assert (Hd : tick_size i <> 0) by lia. split; [by apply sub_rem_towards_zero|].
  split; [by apply rem_64_fits|]. split; [|lia]. intros _. by apply sub_rem_divides.
Qed.

Lemma scale_divides_tick d r : 0 <= d <= 9 -> (SCALE | r) -> (10 ^ (9 - d) | r).
Proof.
  intros Hd. apply Z.divide_trans. exists (10 ^ d). rewrite <- Z.pow_add_r by lia.
  by replace (d + (9 - d)) with 9 by lia.
Qed.

(** What [check_price] accepts. *)
Lemma check_price_Ok i p :
  price_rule_wf i ->
  Instrument.check_price i p = Ok tt <->
  (is_probability (kind i) = true -> 0 <= p <= SCALE) /\
  (0 < tick_size i -> (tick_size i | p)) /\
  match price_rule i with
  | SignificantFigures f _ => Z.rem p SCALE = 0 \/ count_significant_figures p <= f
  | Tick => True
  end.
Proof.
  intros Hr. unfold Instrument.check_price, PROBABILITY_MIN, PROBABILITY_MAX.
  assert (Ht : (0 <? tick_size i) && negb (Z.rem p (tick_size i) =? 0) = true <->
    ~ (0 < tick_size i -> (tick_size i | p))).
  { rewrite andb_true_iff, negb_true_iff, Z.ltb_lt, Z.eqb_neq. split.
    - intros [H1 H2] H. apply H2. apply rem_0_divides; [lia|auto].
    - intros H. destruct (Z_lt_le_dec 0 (tick_size i)) as [Hp|]; [|exfalso; apply H; lia].
      split; [done|]. intros Hz. apply H. intros _. apply rem_0_divides; [lia|done]. }
  destruct (is_probability (kind i) && _) eqn:E1.
  { apply andb_true_iff in E1 as [-> E1]. apply orb_true_iff in E1. rewrite !Z.ltb_lt in E1.
    split; [done|]. intros [H _]. specialize (H eq_refl). lia. }
  assert (is_probability (kind i) = true -> 0 <= p <= SCALE).
  { intros Hk. rewrite Hk in E1. cbn in E1. bool_prop. lia. }
  destruct ((0 <? tick_size i) && _) eqn:E2.
  { split; [done|]. intros (_ & H2 & _). by destruct (proj1 Ht eq_refl). }
  assert (0 < tick_size i -> (tick_size i | p)).
  { intros Hp. apply rem_0_divides; [lia|].
    rewrite (proj2 (Z.ltb_lt _ _) Hp) in E2. cbn in E2. bool_prop. done. }
  destruct (price_rule i) as [|f d]; [tauto|].
  unfold is_whole. destruct (negb (Z.rem p SCALE =? 0) && (f <? count_significant_figures p)) eqn:E3.
  - split; [done|]. intros (_ & _ & H3). bool_prop. lia.
  - split; [|done]. intros _. split; [done|]. split; [done|].
    apply andb_false_iff in E3 as [E3|E3]; bool_prop; [by left|by right].
Qed.

(** ** Properties *)

(** Rounding a price to the grid gives a price the instrument accepts, moved
    towards zero and never away from it, and leaves every accepted price unchanged;
    under a significant-figure rule as under a flat tick. *)
Theorem round_to_tick_accepted i p :
  price_rule_wf i -> in_i64 p -> (is_probability (kind i) = true -> 0 <= p <= SCALE) ->
  Instrument.check_price i (Instrument.round_to_tick i p) = Ok tt /\
  towards_zero p (Instrument.round_to_tick i p) /\
  (Instrument.check_price i p = Ok tt -> Instrument.round_to_tick i p = p).
Proof.
  intros Hr Hp Hprob. rewrite !check_price_Ok by done. unfold Instrument.round_to_tick.
  destruct (tick_step_spec i p Hr Hp) as (Hz & Hf & Hd & He).
  set (r := if 0 <? tick_size i then _ else _) in *.
  assert (Hfix : (0 < tick_size i -> (tick_size i | p)) -> r = p).
  { intros H. destruct (Z_lt_le_dec 0 (tick_size i)) as [Ht|Ht].
    - apply He, rem_0_divides; [lia|auto].
    - unfold r. by rewrite (proj2 (Z.ltb_ge _ _) Ht). }
  unfold price_rule_wf in Hr. destruct (price_rule i) as [|f d].
  - split; [|tauto]. split; [|tauto]. intros Hk. specialize (Hprob Hk).
    unfold towards_zero in Hz. lia.
  - destruct Hr as (Hf1 & Hd9 & Htick).
    destruct (truncate_spec r f Hf) as (Hz2 & Hok & Hpow & Hkeep); [lia|].
    set (t := truncate_to_significant_figures r f) in *.
    pose proof (towards_zero_trans _ _ _ Hz Hz2) as Hzt. split; [|split; [done|]].
    + split; [|split; [|done]].
      * intros Hk. specialize (Hprob Hk). unfold towards_zero in Hzt. lia.
      * intros Ht. rewrite Htick in *. apply Hpow; [lia|]. auto.
    + intros (_ & H2 & H3). rewrite (Hfix H2) in *. auto.
Qed.

Definition demo_instrument : Instrument :=
  mkInstrument "BTC" "hl" Perpetual ["-"] 1000 1000000 "USDC" None None false
    (SignificantFigures 5 6).

Example round_to_tick_accepted_witness :
  price_rule_wf demo_instrument /\
  Instrument.check_price demo_instrument 1012345678 <> Ok tt /\
  Instrument.round_to_tick demo_instrument 1012345678 = 1012300000 /\
  Instrument.check_price demo_instrument 1012300000 = Ok tt.
Proof.
  assert (H : price_rule_wf demo_instrument) by (cbn; lia).
  split; [exact H|]. split; [vm_compute; discriminate|]. split; [vm_compute; reflexivity|].
  destruct (round_to_tick_accepted demo_instrument 1012345678 H) as (Hc & _);
    [widths; lia|discriminate|]. vm_compute in Hc. vm_compute. exact Hc.
Defined.

(** The shares of a uniform division: the remainder goes to the lowest ids. *)
Lemma uniform_prices_shape n :
  0 < n <= 65535 ->
  uniform_prices n =
    Ok (repeat (Z.quot SCALE n + 1) (Z.to_nat (Z.rem SCALE n)) ++
        repeat (Z.quot SCALE n) (Z.to_nat (n - Z.rem SCALE n))).
Proof.
  intros Hn. unfold uniform_prices. rewrite (proj2 (Z.eqb_neq n 0)) by lia.
  assert (0 <= Z.rem SCALE n < n) as Hrem by (unfold SCALE; div_lia).
  rewrite set_first_repeat by lia. do 3 f_equal. lia.
Qed.

Lemma uniform_prices_sum n :
  0 < n <= 65535 -> exists l, uniform_prices n = Ok l /\ Z.of_nat (length l) = n /\
    zsum l = SCALE /\ Forall (fun p => Z.quot SCALE n <= p <= Z.quot SCALE n + 1) l.
Proof.
  intros Hn. eexists; split; [by apply uniform_prices_shape|].
  assert (0 <= Z.rem SCALE n < n) as Hrem by (unfold SCALE; div_lia).
  pose proof (Z.quot_rem' SCALE n) as Q.
  rewrite length_app, !repeat_length, zsum_app, !zsum_repeat. split; [lia|]. split.
  - rewrite !Z2Nat.id by lia. lia.
  - apply Forall_app; split; apply List.Forall_forall; intros x Hx%repeat_spec; lia.
Qed.

(** One unit divided uniformly across [n] outcomes is divided exactly and fairly:
    the shares sum to one to the last raw unit, no two differ by more than one unit,
    and a lower outcome id never gets less than a higher one. *)
Theorem uniform_prices_exact n :
  0 < n <= 65535 -> exists l, uniform_prices n = Ok l /\ Z.of_nat (length l) = n /\
    zsum l = SCALE /\
    forall i j x y, (i <= j)%nat -> l !! i = Some x -> l !! j = Some y -> y <= x <= y + 1.
Proof.
  intros Hn. destruct (uniform_prices_sum n Hn) as (l & Hl & Hlen & Hs & Hf).
  exists l. split; [done|]. split; [done|]. split; [done|].
  rewrite uniform_prices_shape in Hl by done. injection Hl as Hl.
  intros i j x y Hij Hx Hy. rewrite List.Forall_forall in Hf.
  pose proof (Hf x) as Hfx. pose proof (Hf y) as Hfy.
  specialize (Hfx (proj1 (list_elem_of_In _ _) (list_elem_of_lookup_2 _ _ _ Hx))).
  specialize (Hfy (proj1 (list_elem_of_In _ _) (list_elem_of_lookup_2 _ _ _ Hy))).
  cut (y <= x); [lia|]. rewrite <- Hl in Hx, Hy.
  destruct (decide (i < Z.to_nat (Z.rem SCALE n))%nat) as [Hi|Hi].
  - rewrite lookup_app_l in Hx by (rewrite repeat_length; lia).
    apply list_elem_of_lookup_2, list_elem_of_In, repeat_spec in Hx. lia.
  - rewrite lookup_app_r in Hy by (rewrite repeat_length; lia).
    apply list_elem_of_lookup_2, list_elem_of_In, repeat_spec in Hy. lia.
Qed.

Example uniform_prices_exact_witness :
  0 < 3 <= 65535 /\ uniform_prices 3 = Ok [333333334; 333333333; 333333333].
Proof.
  split; [lia|]. destruct (uniform_prices_exact 3) as (l & H & _); [lia|].
  rewrite H. vm_compute in H. exact (eq_sym H).
Defined.

Lemma Forall_In_le_zsum l x : Forall (fun p => 0 <= p) l -> In x l -> 0 <= x <= zsum l.
Proof.
  induction 1 as [|y l Hy Hl IH]; [done|]. rewrite zsum_cons. pose proof (zsum_nonneg l Hl).
  intros [->|Hx]; [lia|]. specialize (IH Hx). lia.
Qed.

(** Scaling down by the total keeps the sum at or below the whole, and every share
    in range. *)
Lemma scaled_shares ps total :
  0 < total -> Forall (fun p => 0 <= p <= total) ps ->
  map_res (fun p => narrow (Z.quot (p * SCALE) total) "normalise_to_one") ps =
    Ok (map (fun p => p * SCALE / total) ps) /\
  total * zsum (map (fun p => p * SCALE / total) ps) <= SCALE * zsum ps /\
  Forall (fun s => 0 <= s <= SCALE) (map (fun p => p * SCALE / total) ps).
Proof.
  intros Ht. induction 1 as [|p ps Hp Hps (IH1 & IH2 & IH3)]; [cbn; repeat split; auto; lia|].
  cbn [map_res map]. rewrite IH1, Z.quot_div_nonneg by (unfold SCALE; nia).
  assert (0 <= p * SCALE / total <= SCALE) as Hs.
  { split; [apply Z.div_pos; unfold SCALE; lia|].
    apply Z.div_le_upper_bound; [done|]. unfold SCALE; nia. }
  assert (narrow (p * SCALE / total) "normalise_to_one" = Ok (p * SCALE / total)) as ->.
  { apply narrow_Ok. split; [|done]. unfold SCALE in *. widths. lia. }
  split; [done|]. rewrite !zsum_cons. split; [|by constructor].
  pose proof (Z.mul_div_le (p * SCALE) total Ht). lia.
Qed.

(** Normalising outcome prices gives exactly one unit: for any non-negative,
    non-zero set it succeeds, every result lies in [0, 1], and the results sum to
    one to the last raw unit. *)
Theorem normalise_to_one_exact ps :
  Z.of_nat (length ps) <= 65535 -> Forall (fun p => 0 <= p <= i64_max) ps -> 0 < zsum ps ->
  exists l, normalise_to_one ps = Ok l /\ length l = length ps /\ zsum l = SCALE /\
    Forall (fun s => 0 <= s <= SCALE) l.
Proof.
  intros Hlen Hps Hsum.
  assert (Hnn : Forall (fun p => 0 <= p) ps) by (eapply Forall_impl; [exact Hps|]; cbn; lia).
  assert (Hle : Forall (fun p => 0 <= p <= zsum ps) ps).
  { apply List.Forall_forall. intros p. by apply Forall_In_le_zsum. }
  assert (Htot : sum128 ps = zsum ps).
  { apply sum128_exact. assert (zsum ps <= i64_max * Z.of_nat (length ps)).
    { clear Hlen Hnn Hle Hsum. induction Hps; [done|]. rewrite zsum_cons. cbn [length]. lia. }
    widths. lia. }
  unfold normalise_to_one. destruct ps as [|p0 ps'] eqn:Eps; [done|]. rewrite <- Eps in *.
  rewrite Htot, (proj2 (Z.leb_gt _ _) Hsum). cbn [orb].
  replace (existsb is_negative ps) with false.
  2: { symmetry. apply not_true_iff_false. intros (x & Hx & Hneg)%existsb_exists.
       rewrite List.Forall_forall in Hnn. specialize (Hnn x Hx). unfold is_negative in Hneg. lia. }
  destruct (scaled_shares ps (zsum ps) Hsum Hle) as (-> & Hs1 & Hs2).
  set (scaled := map _ ps) in *.
  assert (length scaled = length ps) by apply length_map.
  assert (zsum scaled <= SCALE) as Hs3 by nia.
  assert (0 <= zsum scaled) as Hs4.
  { apply zsum_nonneg. eapply Forall_impl; [exact Hs2|]. cbn. lia. }
  rewrite (sum64_exact scaled) by (unfold SCALE in *; widths; lia).
  unfold sub64. rewrite wrap64_id by (unfold SCALE in *; widths; lia).
  destruct (SCALE - zsum scaled =? 0) eqn:E; bool_prop; [exists scaled; repeat split; auto; lia|].
  destruct (largest_index_spec scaled) as (x & Hx & Hmax).
  { intros Hn. rewrite Hn in *. subst. done. }
  assert (In x scaled) as Hin by (apply list_elem_of_In; by eapply list_elem_of_lookup_2).
  assert (0 <= x <= zsum scaled).
  { apply Forall_In_le_zsum; [|done]. eapply Forall_impl; [exact Hs2|]. cbn. lia. }
  eexists; split; [done|]. rewrite length_alter. split; [done|].
  rewrite (zsum_alter _ _ _ x Hx).
  assert (Hadd : add64 x (SCALE - zsum scaled) = x + (SCALE - zsum scaled)).
  { apply wrap64_id. unfold SCALE in *; widths; lia. }
  split; [lia|]. apply Forall_alter; [done|]. intros y Hy _. rewrite Hx in Hy.
  injection Hy as <-. rewrite Hadd. lia.
Qed.

Example normalise_to_one_exact_witness :
  normalise_to_one [310000000; 310000000; 400000000; 10000000] =
  Ok [300970873; 300970873; 388349517; 9708737].
Proof.
  destruct (normalise_to_one_exact [310000000; 310000000; 400000000; 10000000])
    as (l & H & _).
  - cbn. lia.
  - repeat constructor; widths; lia.
  - reflexivity.
  - rewrite H. vm_compute in H. exact (eq_sym H).
Defined.
