(* ===== verification/Corporate.v ===== *)
(** * Corporate actions, ticker identity and universe membership

    Models [corporate.rs].  [assign] returns the registry even when it fails, because
    it has then already created the ticker's entry or closed the previous holder's
    span.  [resolve] indexes [spans[0]] while building its error message; a lookup
    that would panic there is [None].  The theorems: what a ticker resolves to after
    each assignment, and that a split keeps the value of a position. *)
From S2P Require Export Instrument Window.

Inductive CorporateAction :=
| Split (ratio : Price)
| Dividend (per_share : Money)
| Delist (final_price : Price).
#[export] Instance CorporateAction_eq_dec : EqDecision CorporateAction.
Proof. solve_decision. Defined.

Module CorporateAction.
Definition kind (a : CorporateAction) : string :=
  match a with Split _ => "split" | Dividend _ => "dividend" | Delist _ => "delist" end.

Definition validate (a : CorporateAction) : Result unit :=
  match a with
  | Split ratio =>
      if negb (is_positive ratio) then Err (invalid "a split ratio must be positive") else Ok tt
  | Dividend per_share =>
      if is_negative per_share then Err (invalid "a dividend must not be negative") else Ok tt
  | Delist final_price =>
      if is_negative final_price then Err (invalid "a delisting price must not be negative")
      else Ok tt
  end.

Definition split_position (ratio : Price) (quantity : Qty) (price : Price)
  : Result (Qty * Price) :=
  if negb (is_positive ratio) then Err (invalid "split ratio must be positive")
  else
    let new_quantity := Z.quot (quantity * ratio) SCALE in
    let new_price := Z.quot (price * SCALE) ratio in
    let? q := narrow new_quantity "split_position quantity" in
    let? p := narrow new_price "split_position price" in
    Ok (q, p).
End CorporateAction.

Record SymbolSpan := mkSymbolSpan {
  ss_ticker : string;
  ss_instrument : InstrumentId;
  span : TimeWindow;
}.
#[export] Instance eta_SymbolSpan : Eta SymbolSpan := fun s =>
  mkSymbolSpan (ss_ticker s) (ss_instrument s) (span s).

Record SymbolRegistry := mkSymbolRegistry { by_ticker : BTree string (list SymbolSpan) }.

(** [last_mut] followed by an update that may fail. *)
Fixpoint update_last {A} (f : A -> Result A) (l : list A) : Result (list A) :=
  match l with
  | [] => Ok []
  | [x] => let? y := f x in Ok [y]
  | x :: l' => let? l'' := update_last f l' in Ok (x :: l'')
  end.

Module SymbolRegistry.
Definition new : SymbolRegistry := mkSymbolRegistry [].

Definition close_at (from : UnixNanos) (previous : SymbolSpan) : Result SymbolSpan :=
  if from <=? start (span previous) then
    Err (invalid "ticker is already held; a later assignment must start after it")
  else
    let? w := TimeWindow.new (start (span previous)) from in
    Ok (previous <| span := w |>).

Definition assign (r : SymbolRegistry) (ticker : string) (instrument : InstrumentId)
  (from : UnixNanos) : SymbolRegistry * Result unit :=
  let spans := default [] (bget ticker (by_ticker r)) in
  let store spans := mkSymbolRegistry (binsert ticker spans (by_ticker r)) in
  match update_last (close_at from) spans with
  | Err e => (store spans, Err e)
  | Ok spans =>
      match TimeWindow.new from i64_max with
      | Err e => (store spans, Err e)
      | Ok w => (store (spans ++ [mkSymbolSpan ticker instrument w]), Ok tt)
      end
  end.

Definition resolve (r : SymbolRegistry) (ticker : string) (at_ : UnixNanos)
  : option (Result InstrumentId) :=
  match bget ticker (by_ticker r) with
  | None => Some (Err (UnknownInstrument ticker))
  | Some spans =>
      match List.find (fun entry => TimeWindow.contains (span entry) at_) spans with
      | Some entry => Some (Ok (ss_instrument entry))
      | None =>
          match spans with
          | [] => None
          | _ :: _ => Some (Err (invalid "ticker referred to nothing"))
          end
      end
  end.

Definition resolve_unique (r : SymbolRegistry) (ticker : string) : Result InstrumentId :=
  match bget ticker (by_ticker r) with
  | None => Err (UnknownInstrument ticker)
  | Some [s] => Ok (ss_instrument s)
  | Some _ => Err (invalid "ticker referred to different instruments; resolve it with a date")
  end.

Definition spans (r : SymbolRegistry) : list SymbolSpan := concat (bvalues (by_ticker r)).
Definition is_empty (r : SymbolRegistry) : bool :=
  match by_ticker r with [] => true | _ => false end.
End SymbolRegistry.

Record Universe := mkUniverse { members : BTree InstrumentId (list TimeWindow) }.

Module Universe.
Definition new : Universe := mkUniverse [].

Definition add (u : Universe) (instrument : InstrumentId) (s : TimeWindow) : Universe :=
  mkUniverse (bentry [] (fun l => l ++ [s]) instrument (members u)).

Definition contains (u : Universe) (instrument : InstrumentId) (at_ : UnixNanos) : bool :=
  match bget instrument (members u) with
  | Some spans => existsb (fun s => TimeWindow.contains s at_) spans
  | None => false
  end.

Definition members_at (u : Universe) (at_ : UnixNanos) : list InstrumentId :=
  map fst (List.filter (fun e => existsb (fun s => TimeWindow.contains s at_) e.2) (members u)).
End Universe.

(** ** Invariant *)

(** The spans of a ticker are adjacent windows from its first registration to the
    end of time. *)
Definition spans_wf (spans : list SymbolSpan) : Prop :=
  exists s, tiles s (map span spans) i64_max /\ spans <> [].
Definition registry_wf (r : SymbolRegistry) : Prop :=
  forall ticker spans, bget ticker (by_ticker r) = Some spans -> spans_wf spans.

(** ** Lemmas *)

Lemma update_last_Ok {A} (f : A -> Result A) l l' :
  update_last f l = Ok l' ->
  (l = [] /\ l' = []) \/ exists pre x y, l = pre ++ [x] /\ f x = Ok y /\ l' = pre ++ [y].
Proof.
  revert l'. induction l as [|x l IH]; intros l' H; cbn in H.
  - injection H as <-. by left.
  - right. destruct l as [|x2 l].
    + destruct (f x) as [y|] eqn:E; [|done]. injection H as <-. by exists [], x, y.
    + destruct (update_last f (x2 :: l)) as [l2|] eqn:E; [|done]. injection H as <-.
      destruct (IH l2 eq_refl) as [[[=] _]|(pre & a & b & -> & Hf & ->)].
      exists (x :: pre), a, b. done.
Qed.

(** Adjacent windows never run backwards. *)
Lemma spans_tile_le s ws e : tiles s ws e -> s <= e.
Proof.
  revert s. induction ws as [|w ws IH]; cbn; intros s; [lia|].
  intros (_ & H & Ht). apply IH in Ht. lia.
Qed.

Lemma tiles_snoc s ws w e :
  tiles s (ws ++ [w]) e <-> tiles s ws (start w) /\ start w < end_ w /\ end_ w = e.
Proof.
  revert s. induction ws as [|w' ws IH]; intros s; cbn.
  - split; intros; intuition lia.
  - rewrite IH. tauto.
Qed.

(** Adjacent windows contain exactly the instants between their ends. *)
Lemma tiles_contains s ws e at_ :
  tiles s ws e -> existsb (fun w => TimeWindow.contains w at_) ws = (s <=? at_) && (at_ <? e).
Proof.
  revert s. induction ws as [|w ws IH]; cbn; intros s.
  - intros ->. destruct (e <=? at_) eqn:E1, (at_ <? e) eqn:E2; bool_prop; lia || done.
  - intros (<- & Hlt & Ht). rewrite (IH _ Ht). apply spans_tile_le in Ht. unfold TimeWindow.contains.
    destruct (start w <=? at_) eqn:E1, (at_ <? end_ w) eqn:E2, (end_ w <=? at_) eqn:E3,
      (at_ <? e) eqn:E4; bool_prop; lia || done.
Qed.

Lemma find_None_existsb {A} (p : A -> bool) l : List.find p l = None <-> existsb p l = false.
Proof.
  induction l as [|x l IH]; cbn; [done|]. destruct (p x); [split; done|done].
Qed.

Lemma find_app {A} (p : A -> bool) l1 l2 :
  List.find p (l1 ++ l2) =
  match List.find p l1 with Some x => Some x | None => List.find p l2 end.
Proof. induction l1 as [|x l1 IH]; cbn; [done|]. by destruct (p x). Qed.

Lemma existsb_map {A B} (f : A -> B) p l : existsb p (map f l) = existsb (fun a => p (f a)) l.
Proof. induction l as [|x l IH]; cbn; [done|]. by rewrite IH. Qed.

(** A covered instant is found. *)
Lemma spans_find_Some spans s e at_ :
  tiles s (map span spans) e -> s <= at_ < e ->
  exists x, List.find (fun entry => TimeWindow.contains (span entry) at_) spans = Some x.
Proof.
  intros Ht Hat. destruct (List.find _ spans) eqn:E; [eauto|].
  apply find_None_existsb in E.
  rewrite <- (existsb_map span (fun w => TimeWindow.contains w at_)), (tiles_contains _ _ _ _ Ht) in E.
  bool_prop. lia.
Qed.

Lemma spans_find_None spans s e at_ :
  tiles s (map span spans) e -> ~ (s <= at_ < e) ->
  List.find (fun entry => TimeWindow.contains (span entry) at_) spans = None.
Proof.
  intros Ht Hat. apply find_None_existsb.
  rewrite <- (existsb_map span (fun w => TimeWindow.contains w at_)), (tiles_contains _ _ _ _ Ht).
  apply andb_false_iff. rewrite Z.leb_gt, Z.ltb_ge. lia.
Qed.

(** A successful assignment closes the previous span at [from] and opens one that
    runs to the end of time. *)
Lemma assign_Ok r t i from r' :
  registry_wf r -> SymbolRegistry.assign r t i from = (r', Ok tt) ->
  from < i64_max /\ exists s closed,
    by_ticker r' = binsert t (closed ++ [mkSymbolSpan t i (mkWindow from i64_max)]) (by_ticker r) /\
    tiles s (map span closed) from /\
    match bget t (by_ticker r) with
    | None => closed = []
    | Some spans =>
        exists pre x, spans = pre ++ [x] /\ tiles s (map span spans) i64_max /\
          start (span x) < from /\ closed = pre ++ [x <| span := mkWindow (start (span x)) from |>]
    end.
Proof.
  intros Hr. unfold SymbolRegistry.assign.
  destruct (update_last _ _) as [closed|] eqn:Eu; [|done].
  destruct (TimeWindow.new from i64_max) as [w|] eqn:Ew; [|done]. intros [= <-].
  apply new_Ok in Ew as [Hmax ->]. split; [done|].
  apply update_last_Ok in Eu as [[El ->]|(pre & x & y & El & Hc & ->)].
  - exists from, []. cbn. split; [done|]. split; [done|].
    destruct (bget t (by_ticker r)) as [spans|] eqn:Eg; [|done]. cbn in El. subst.
    destruct (Hr _ _ Eg) as (_ & _ & []). done.
  - destruct (bget t (by_ticker r)) as [spans|] eqn:Eg; cbn in El;
      [|by destruct pre]. subst spans.
    destruct (Hr _ _ Eg) as (s & Ht & _). unfold SymbolRegistry.close_at in Hc.
    destruct (from <=? start (span x)) eqn:Ef; [done|]. bool_prop.
    destruct (TimeWindow.new (start (span x)) from) as [w|] eqn:Ew; [|done]. injection Hc as <-.
    apply new_Ok in Ew as [Hlt ->]. exists s, (pre ++ [x <| span := mkWindow (start (span x)) from |>]).
    split; [done|]. rewrite map_app in *. cbn in *. rewrite tiles_snoc in *. cbn.
    split; [tauto|]. exists pre, x. rewrite map_app. cbn. rewrite tiles_snoc. tauto.
Qed.

(** The instrument a lookup names, if it names one. *)
Definition answer (lookup : option (Result InstrumentId)) : option InstrumentId :=
  match lookup with Some (Ok i) => Some i | _ => None end.

Lemma assign_wf r t i from r' :
  registry_wf r -> SymbolRegistry.assign r t i from = (r', Ok tt) -> registry_wf r'.
Proof.
  intros Hr Ha. destruct (assign_Ok _ _ _ _ _ Hr Ha) as (Hmax & s & closed & Hb & Ht & _).
  intros t' spans. rewrite Hb, bget_insert. destruct (keqb t' t) eqn:E; [|apply Hr].
  intros [= <-]. exists s. rewrite map_app. cbn. rewrite tiles_snoc. cbn.
  split; [done|]. by destruct closed.
Qed.

Lemma answer_find r t at_ :
  answer (SymbolRegistry.resolve r t at_) =
  ss_instrument <$> List.find (fun e => TimeWindow.contains (span e) at_)
                      (default [] (bget t (by_ticker r))).
Proof.
  unfold SymbolRegistry.resolve. destruct (bget t (by_ticker r)) as [spans|]; [|done]. cbn.
  destruct (List.find _ spans); [done|]. by destruct spans.
Qed.

(** ** Properties *)

(** Assigning a ticker changes what it means from that instant on and nothing
    else: from [from] it resolves to the new instrument with no gap, before [from] it
    resolves as it did, and every other ticker is untouched. *)
Theorem resolve_after_assign r t i from r' :
  registry_wf r -> SymbolRegistry.assign r t i from = (r', Ok tt) ->
  registry_wf r' /\
  (forall at_, from <= at_ < i64_max -> SymbolRegistry.resolve r' t at_ = Some (Ok i)) /\
  (forall at_, at_ < from ->
    answer (SymbolRegistry.resolve r' t at_) = answer (SymbolRegistry.resolve r t at_)) /\
  (forall t' at_, t' <> t ->
    SymbolRegistry.resolve r' t' at_ = SymbolRegistry.resolve r t' at_).
Proof.
  intros Hr Ha. split; [by eapply assign_wf|].
  destruct (assign_Ok _ _ _ _ _ Hr Ha) as (Hmax & s & closed & Hb & Ht & Hold).
  split; [|split].
  - intros at_ Hat. unfold SymbolRegistry.resolve. rewrite Hb, bget_insert_eq, find_app.
    rewrite (spans_find_None closed s from) by (done || lia). cbn.
    unfold TimeWindow.contains. cbn.
    by rewrite (proj2 (Z.leb_le _ _)), (proj2 (Z.ltb_lt _ _)) by lia.
  - intros at_ Hat. rewrite !answer_find, Hb, bget_insert_eq. cbn [default id].
    assert (Hnew : TimeWindow.contains (mkWindow from i64_max) at_ = false).
    { unfold TimeWindow.contains. cbn. by rewrite (proj2 (Z.leb_gt _ _)) by lia. }
    rewrite find_app. cbn [List.find span]. rewrite Hnew.
    destruct (bget t (by_ticker r)) as [spans|]; [|by subst closed].
    destruct Hold as (pre & x & -> & Hx & Hlt & ->). cbn [default id]. rewrite !find_app.
    destruct (List.find _ pre); [done|]. cbn. unfold TimeWindow.contains; cbn.
    rewrite map_app in Hx. cbn in Hx. apply tiles_snoc in Hx as (_ & _ & Hend).
    rewrite Hend, !(proj2 (Z.ltb_lt at_ _)) by lia. by destruct (start (span x) <=? at_).
  - intros t' at_ Hne. unfold SymbolRegistry.resolve. by rewrite Hb, bget_insert_ne.
Qed.

Definition demo_registry : SymbolRegistry :=
  (SymbolRegistry.assign SymbolRegistry.new "META" "OldCo" 100).1.

Example resolve_after_assign_witness :
  registry_wf demo_registry /\
  let r' := (SymbolRegistry.assign demo_registry "META" "NewCo" 200).1 in
  SymbolRegistry.resolve r' "META" 200 = Some (Ok "NewCo") /\
  answer (SymbolRegistry.resolve r' "META" 199) = Some "OldCo".
Proof.
  assert (H : registry_wf demo_registry).
  { apply (assign_wf SymbolRegistry.new "META" "OldCo" 100); [by intros ? ?|reflexivity]. }
  split; [exact H|]. cbv zeta.
  destruct (resolve_after_assign demo_registry "META" "NewCo" 200
              (SymbolRegistry.assign demo_registry "META" "NewCo" 200).1 H eq_refl)
    as (_ & H1 & H2 & _).
  split; [apply H1; widths; lia|]. rewrite H2 by lia. reflexivity.
Defined.

(** A registration refused because it starts at the last representable instant
    leaves the ticker known but with no span, and every later lookup of it indexes an
    empty list instead of returning an error. *)
Theorem refused_assign_leaves_panicking_ticker r t i :
  bget t (by_ticker r) = None ->
  exists r' e, SymbolRegistry.assign r t i i64_max = (r', Err e) /\
    forall at_, SymbolRegistry.resolve r' t at_ = None.
Proof.
  intros Ht. unfold SymbolRegistry.assign. rewrite Ht. cbn [default update_last].
  eexists _, _. split; [reflexivity|]. intros at_. unfold SymbolRegistry.resolve. cbn.
  by rewrite bget_insert_eq.
Qed.

Example refused_assign_leaves_panicking_ticker_witness :
  bget "X" (by_ticker SymbolRegistry.new) = None /\
  exists r' e, SymbolRegistry.assign SymbolRegistry.new "X" "A" i64_max = (r', Err e) /\
    SymbolRegistry.resolve r' "X" 0 = None.
Proof.
  split; [reflexivity|].
  destruct (refused_assign_leaves_panicking_ticker SymbolRegistry.new "X" "A" eq_refl)
    as (r' & e & H1 & H2).
  exists r', e. split; [exact H1|apply H2].
Defined.

Lemma split_position_Ok ratio q p q' p' :
  CorporateAction.split_position ratio q p = Ok (q', p') <->
  0 < ratio /\ in_i64 q' /\ in_i64 p' /\
  q' = Z.quot (q * ratio) SCALE /\ p' = Z.quot (p * SCALE) ratio.
Proof.
  unfold CorporateAction.split_position, is_positive.
  destruct (0 <? ratio) eqn:E; bool_prop; cbn; [|split; [done|lia]].
  unfold narrow. split.
  - intros H. res_inv_in H. apply ok_or_Ok, checked64_Some in E0 as [? ->], E1 as [? ->]. done.
  - intros (_ & Hq & Hp & -> & ->).
    by rewrite (proj2 (checked64_Some _ _) (conj Hq eq_refl)),
      (proj2 (checked64_Some _ _) (conj Hp eq_refl)).
Qed.

(** Truncating twice through a pair of ratios whose product is at most one shrinks. *)
Lemma split_back_le q ratio back :
  0 <= q -> 0 < ratio -> 0 < back -> back * ratio <= SCALE * SCALE ->
  Z.quot (Z.quot (q * ratio) SCALE * back) SCALE <= q.
Proof.
  assert (HS : 0 < SCALE) by reflexivity. generalize dependent SCALE. intros S HS Hq Hr Hb Hrb.
  rewrite (Z.quot_div_nonneg (q * ratio)) by nia.
  pose proof (Z.mul_div_le (q * ratio) S HS) as H.
  assert (0 <= q * ratio / S) by (apply Z.div_pos; nia).
  set (q1 := q * ratio / S) in *. rewrite Z.quot_div_nonneg by nia.
  apply Z.div_le_upper_bound; [done|].
  assert (S * (q1 * back) <= S * (S * q)); [|nia].
  assert (S * q1 * back <= q * ratio * back) by nia. nia.
Qed.

(** What both truncations lose of the product. *)
Lemma split_value_bounds ratio q p :
  0 < ratio -> 0 <= q -> 0 <= p ->
  let q' := Z.quot (q * ratio) SCALE in let p' := Z.quot (p * SCALE) ratio in
  0 <= q' /\ 0 <= p' /\ 0 <= q * p - q' * p' <= q' + p'.
Proof.
  intros Hr Hq Hp. cbv zeta.
  assert (HS : 0 < SCALE) by reflexivity. generalize dependent SCALE. intros S HS.
  rewrite !Z.quot_div_nonneg by nia.
  assert (0 <= q * ratio / S) by (apply Z.div_pos; nia).
  assert (0 <= p * S / ratio) by (apply Z.div_pos; nia).
  pose proof (Z.div_mod (q * ratio) S) as E1. pose proof (Z.mod_pos_bound (q * ratio) S HS) as B1.
  pose proof (Z.div_mod (p * S) ratio) as E2. pose proof (Z.mod_pos_bound (p * S) ratio Hr) as B2.
  set (q1 := q * ratio / S) in *. set (a := (q * ratio) mod S) in *.
  set (p1 := p * S / ratio) in *. set (b := (p * S) mod ratio) in *.
  specialize (E1 ltac:(lia)). specialize (E2 ltac:(lia)).
  assert (E : ratio * S * (q * p - q1 * p1) = S * q1 * b + ratio * p1 * a + a * b).
  { replace (ratio * S * (q * p - q1 * p1)) with ((q * ratio) * (p * S) - ratio * S * (q1 * p1)) by ring.
    rewrite E1, E2. ring. }
  assert (0 <= S * q1 * b + ratio * p1 * a + a * b < ratio * S * (q1 + p1 + 1)) as Hb.
  { assert (0 <= S * q1 * b <= S * q1 * ratio) by nia.
    assert (0 <= ratio * p1 * a <= ratio * p1 * S) by nia.
    assert (0 <= a * b < ratio * S) by nia. nia. }
  rewrite <- E in Hb. repeat split; try done; nia.
Qed.

(** A split keeps the value of a position to fixed-point resolution and never adds
    to it: with both legs truncated, the value lost is at most one raw unit of the new
    quantity and one of the new price.  Splitting back by a ratio that does not
    overstate the reciprocal returns at most the original size. *)
Theorem split_position_value ratio q p q' p' :
  0 <= q -> 0 <= p -> CorporateAction.split_position ratio q p = Ok (q', p') ->
  0 <= q' /\ 0 <= p' /\ 0 <= q * p - q' * p' <= q' + p' /\
  (forall back q'' p'', back * ratio <= SCALE * SCALE ->
    CorporateAction.split_position back q' p' = Ok (q'', p'') -> q'' <= q).
Proof.
  intros Hq Hp (Hr & _ & _ & -> & ->)%split_position_Ok.
  destruct (split_value_bounds ratio q p Hr Hq Hp) as (H1 & H2 & H3).
  split; [done|]. split; [done|]. split; [done|].
  intros back q'' p'' Hback (Hb & _ & _ & -> & _)%split_position_Ok. by apply split_back_le.
Qed.

Example split_position_value_witness :
  exists q' p', CorporateAction.split_position 1500000000 1000000001 333333333 = Ok (q', p') /\ 0 <= 1000000001 * 333333333 - q' * p' <= q' + p' /\ q' = 1500000001.
Proof.
  destruct (CorporateAction.split_position 1500000000 1000000001 333333333) as [[q' p']|e] eqn:E;
    [|vm_compute in E; discriminate].
  destruct (split_position_value 1500000000 1000000001 333333333 q' p'
    ltac:(lia) ltac:(lia) E) as (_ & _ & H & _).
  exists q', p'. split; [reflexivity|]. split; [exact H|].
  vm_compute in E. injection E as <- <-. reflexivity.
Defined.
