(* ===== verification/Order.v ===== *)
(** * Orders and fills

    Models [order.rs].  An [OrderId] is the [u64] it wraps.  The fields of [Order]
    carry the prefix [o_], those of [Fill] the prefix [f_]. *)
From S2P Require Export Instrument.

Abbreviation OrderId := Z (only parsing).

Inductive OrderKind := Market | Limit (limit : Price).
#[export] Instance OrderKind_eq_dec : EqDecision OrderKind.
Proof. solve_decision. Defined.

Inductive TimeInForce := GoodTilCancel | ImmediateOrCancel | FillOrKill.
#[export] Instance TimeInForce_eq_dec : EqDecision TimeInForce.
Proof. solve_decision. Defined.

Inductive OrderStatus :=
| InFlight | Untriggered | Accepted | PartiallyFilled | Filled | Cancelled | Rejected.
#[export] Instance OrderStatus_eq_dec : EqDecision OrderStatus.
Proof. solve_decision. Defined.

Module OrderStatus.
Definition is_terminal (s : OrderStatus) : bool :=
  match s with Filled | Cancelled | Rejected => true | _ => false end.
Definition as_str (s : OrderStatus) : string :=
  match s with
  | InFlight => "in_flight"
  | Untriggered => "untriggered"
  | Accepted => "accepted"
  | PartiallyFilled => "partially_filled"
  | Filled => "filled"
  | Cancelled => "cancelled"
  | Rejected => "rejected"
  end.
End OrderStatus.

Inductive TriggerDirection := Above | Below.
Record Trigger := mkTrigger { trg_price : Price; trg_direction : TriggerDirection }.
#[export] Instance eta_Trigger : Eta Trigger := fun t => mkTrigger (trg_price t) (trg_direction t).

Module Trigger.
Definition stop_loss (side : Side) (price : Price) : Trigger :=
  mkTrigger price (match side with Sell => Below | Buy => Above end).
Definition take_profit (side : Side) (price : Price) : Trigger :=
  mkTrigger price (match side with Sell => Above | Buy => Below end).
Definition above (price : Price) : Trigger := mkTrigger price Above.
Definition below (price : Price) : Trigger := mkTrigger price Below.
Definition fires_at (t : Trigger) (reference : Price) : bool :=
  match trg_direction t with
  | Above => trg_price t <=? reference
  | Below => reference <=? trg_price t
  end.
End Trigger.

Record Order := mkOrder {
  o_id : OrderId;
  o_instrument : InstrumentId;
  o_outcome : OutcomeId;
  o_side : Side;
  o_kind : OrderKind;
  o_quantity : Qty;
  o_filled : Qty;
  o_tif : TimeInForce;
  o_status : OrderStatus;
  o_submitted_at : UnixNanos;
  o_accepted_at : option UnixNanos;
  o_reject_reason : option string;
  o_tag : option string;
  o_reduce_only : bool;
  o_trigger : option Trigger;
  o_post_only : bool;
}.
#[export] Instance eta_Order : Eta Order := fun o =>
  mkOrder (o_id o) (o_instrument o) (o_outcome o) (o_side o) (o_kind o) (o_quantity o)
    (o_filled o) (o_tif o) (o_status o) (o_submitted_at o) (o_accepted_at o)
    (o_reject_reason o) (o_tag o) (o_reduce_only o) (o_trigger o) (o_post_only o).

Module Order.
Definition new (id : OrderId) (instrument : InstrumentId) (outcome : OutcomeId) (side : Side)
  (kind : OrderKind) (quantity : Qty) (time_in_force : TimeInForce) (submitted_at : UnixNanos)
  : Result Order :=
  if negb (is_positive quantity) then Err (invalid "order quantity must be positive")
  else
    Ok (mkOrder id instrument outcome side kind quantity 0 time_in_force InFlight submitted_at
          None None None false None false).

Definition market (id : OrderId) (instrument : InstrumentId) (outcome : OutcomeId) (side : Side)
  (quantity : Qty) (submitted_at : UnixNanos) : Result Order :=
  new id instrument outcome side Market quantity ImmediateOrCancel submitted_at.

Definition limit (id : OrderId) (instrument : InstrumentId) (outcome : OutcomeId) (side : Side)
  (limit : Price) (quantity : Qty) (submitted_at : UnixNanos) : Result Order :=
  new id instrument outcome side (Limit limit) quantity GoodTilCancel submitted_at.

Definition with_time_in_force (o : Order) (tif : TimeInForce) : Order := o <| o_tif := tif |>.
Definition with_tag (o : Order) (tag : string) : Order := o <| o_tag := Some tag |>.
Definition reduce_only (o : Order) : Order := o <| o_reduce_only := true |>.
Definition post_only (o : Order) : Order := o <| o_post_only := true |>.
Definition with_trigger (o : Order) (t : Trigger) : Order := o <| o_trigger := Some t |>.

(** Quantity not yet filled. *)
Definition remaining (o : Order) : Qty := sub64 (o_quantity o) (o_filled o).
Definition is_open (o : Order) : bool := negb (OrderStatus.is_terminal (o_status o)).
Definition limit_price (o : Order) : option Price :=
  match o_kind o with Market => None | Limit limit => Some limit end.

Definition record_fill (o : Order) (quantity : Qty) : Result Order :=
  let? filled := checked_add "Qty" (o_filled o) quantity in
  if o_quantity o <? filled then Err (invalid "order would fill more than its quantity")
  else
    let o := o <| o_filled := filled |> in
    Ok (o <| o_status := if filled =? o_quantity o then Filled else PartiallyFilled |>).
End Order.

(** One execution. *)
Record Fill := mkFill {
  f_order_id : OrderId;
  f_instrument : InstrumentId;
  f_outcome : OutcomeId;
  f_side : Side;
  f_price : Price;
  f_quantity : Qty;
  f_commission : Money;
  f_is_taker : bool;
  f_ts : UnixNanos;
  f_tag : option string;
}.
#[export] Instance eta_Fill : Eta Fill := fun f =>
  mkFill (f_order_id f) (f_instrument f) (f_outcome f) (f_side f) (f_price f) (f_quantity f)
    (f_commission f) (f_is_taker f) (f_ts f) (f_tag f).

(** ** Invariant *)

(** Executed quantity is within the order's size, and a filled order is full. *)
Definition order_wf (o : Order) : Prop :=
  0 <= o_filled o <= o_quantity o /\ 0 < o_quantity o <= i64_max /\
  (o_status o = Filled <-> o_filled o = o_quantity o).

(** ** Lemmas *)

Lemma order_new_wf id i oc side k q tif ts o :
  q <= i64_max -> Order.new id i oc side k q tif ts = Ok o -> order_wf o.
Proof.
  intros Hq. unfold Order.new, is_positive. destruct (0 <? q) eqn:E; [|done]. bool_prop.
  intros [= <-]. unfold order_wf; cbn. split; [lia|]. split; [lia|]. split; [done|lia].
Qed.

(** With a positive fill, exactly the quantity left is what can still be recorded. *)
Lemma record_fill_Ok o q :
  order_wf o -> 0 < q ->
  Order.record_fill o q =
  if q <=? Order.remaining o then
    Ok (o <| o_filled := o_filled o + q |>
          <| o_status := if q =? Order.remaining o then Filled else PartiallyFilled |>)
  else Order.record_fill o q.
Proof.
  intros (Hf & Hq & _) Hpos. unfold Order.remaining, sub64. rewrite wrap64_id by (widths; lia).
  destruct (q <=? _) eqn:E; [|done]. bool_prop. unfold Order.record_fill.
  rewrite (proj2 (checked_add_Ok "Qty" (o_filled o) q (o_filled o + q)))
    by (split; [widths; lia|done]).
  rewrite (proj2 (Z.ltb_ge _ _)) by lia. cbn. do 2 f_equal.
  destruct (_ =? _) eqn:E1, (q =? _) eqn:E2; bool_prop; lia || done.
Qed.

Lemma record_fill_inv o q o' :
  order_wf o -> 0 < q -> Order.record_fill o q = Ok o' ->
  order_wf o' /\ o_filled o' = o_filled o + q /\ q <= Order.remaining o /\
  Order.remaining o' = Order.remaining o - q /\ o_quantity o' = o_quantity o /\
  o_side o' = o_side o.
Proof.
  intros (Hf & Hq & _) Hpos. unfold Order.record_fill, Order.remaining, sub64.
  destruct (checked_add _ _ _) as [fl|] eqn:E; [|done].
  apply checked_add_Ok in E as [_ ->].
  destruct (_ <? _) eqn:E1; [done|]. bool_prop. intros [= <-]. unfold order_wf. cbn.
  rewrite !wrap64_id by (widths; lia).
  split; [|repeat split; lia]. split; [lia|]. split; [lia|].
  destruct (_ =? _) eqn:E2; bool_prop; split; (done || lia).
Qed.

(** ** Properties *)

(** An order never fills past its size: recording a fill succeeds exactly when the
    quantity is still open, keeps the bookkeeping invariant, reduces the remainder by
    the fill, and marks the order filled exactly when nothing remains. *)
Theorem record_fill_conserves o q :
  order_wf o -> 0 < q ->
  (is_ok (Order.record_fill o q) = true <-> q <= Order.remaining o) /\
  forall o', Order.record_fill o q = Ok o' ->
    order_wf o' /\ Order.remaining o' = Order.remaining o - q /\
    (o_status o' = Filled <-> Order.remaining o' = 0).
Proof.
  intros Ho Hq. split.
  - split.
    + destruct (Order.record_fill o q) as [o'|] eqn:E; [intros _|done].
      by apply (record_fill_inv o q o').
    + intros Hle. rewrite record_fill_Ok by done. by rewrite (proj2 (Z.leb_le _ _) Hle).
  - intros o' (Hw & Hf & Hle & Hrem & Hqq & _)%record_fill_inv; [|done..].
    split; [done|]. split; [done|]. destruct Hw as (H1 & H2 & ->).
    unfold Order.remaining, sub64. rewrite wrap64_id by (widths; lia). lia.
Qed.

Example record_fill_conserves_witness :
  exists o, Order.new 1 "A" 0 Buy Market 5 ImmediateOrCancel 0 = Ok o /\ order_wf o /\
    is_ok (Order.record_fill o 3) = true /\ is_ok (Order.record_fill o 6) = false.
Proof.
  eexists. split; [reflexivity|]. set (o := mkOrder _ _ _ _ _ _ _ _ _ _ _ _ _ _ _ _).
  assert (Ho : order_wf o) by (apply (order_new_wf 1 "A" 0 Buy Market 5 ImmediateOrCancel 0);
    [widths; lia|reflexivity]).
  split; [exact Ho|]. split.
  - apply (record_fill_conserves o 3 Ho); [lia|]. vm_compute. discriminate.
  - destruct (is_ok (Order.record_fill o 6)) eqn:E; [|reflexivity].
    apply (record_fill_conserves o 6 Ho) in E; [|lia]. vm_compute in E. by destruct E.
Defined.
