(* ===== verification/Book.v ===== *)
(** * L2 order book reconstruction

    Models [book.rs]: the two sides as maps in price order, the fresh/stale status
    machine of snapshots, gaps, deltas and splits, and the walk a taker makes through
    the levels.  The theorems: a gap makes the book refuse deltas until a snapshot,
    the level invariant survives every operation, and a walk takes the best prices
    first, takes all it may, and never more than is displayed. *)
From S2P Require Export Corporate.

Inductive BookAction := Set_ | Delete | Clear.

Record BookDelta := mkBookDelta {
  d_action : BookAction;
  d_side : Side;
  d_price : Price;
  d_size : Qty;
}.

Module BookDelta.
Definition set (side : Side) (price : Price) (size : Qty) : BookDelta :=
  mkBookDelta Set_ side price size.
Definition delete (side : Side) (price : Price) : BookDelta := mkBookDelta Delete side price 0.
Definition clear (side : Side) : BookDelta := mkBookDelta Clear side 0 0.
End BookDelta.

Inductive BookStatus := Fresh | Stale (since : UnixNanos).

Record OrderBook := mkOrderBook {
  bids : BTree Raw Qty;
  asks : BTree Raw Qty;
  b_status : option BookStatus;
  b_last_update : option UnixNanos;
}.
#[export] Instance eta_OrderBook : Eta OrderBook := fun b =>
  mkOrderBook (bids b) (asks b) (b_status b) (b_last_update b).

(** The result of walking the book. *)
Record BookWalk := mkBookWalk { w_fills : list (Price * Qty); w_unfilled : Qty }.

Module OrderBook.
Definition new : OrderBook := mkOrderBook [] [] None None.

Definition is_fresh (b : OrderBook) : bool :=
  match b_status b with Some Fresh => true | _ => false end.

(** One side of a snapshot: non-positive sizes are dropped. *)
Definition load_side (levels : list (Price * Qty)) : BTree Raw Qty :=
  fold_left (fun m l => if is_positive l.2 then binsert l.1 l.2 m else m) levels [].

Definition apply_snapshot (b : OrderBook) (bs as_ : list (Price * Qty)) (ts : UnixNanos)
  : Result OrderBook :=
  Ok (b <| bids := load_side bs |> <| asks := load_side as_ |>
        <| b_status := Some Fresh |> <| b_last_update := Some ts |>).

Definition mark_gap (b : OrderBook) (ts : UnixNanos) : OrderBook :=
  b <| bids := [] |> <| asks := [] |>
    <| b_status := Some (Stale ts) |> <| b_last_update := Some ts |>.

(** What a delta does to the side it names. *)
Definition delta_side (delta : BookDelta) (side : BTree Raw Qty) : BTree Raw Qty :=
  match d_action delta with
  | Set_ =>
      if is_positive (d_size delta) then binsert (d_price delta) (d_size delta) side
      else bremove (d_price delta) side
  | Delete => bremove (d_price delta) side
  | Clear => []
  end.

Definition apply_delta (b : OrderBook) (instrument : string) (delta : BookDelta)
  (ts : UnixNanos) : Result OrderBook :=
  match b_status b with
  | Some Fresh =>
      let b :=
        match d_side delta with
        | Buy => b <| bids := delta_side delta (bids b) |>
        | Sell => b <| asks := delta_side delta (asks b) |>
        end in
      Ok (b <| b_last_update := Some ts |>)
  | Some (Stale since) => Err (BookGap instrument ts since)
  | None => Err (BookGap instrument ts ts)
  end.

(** One side in post-split terms; levels that meet at one price add up. *)
Definition split_level (ratio : Price) (out : BTree Raw Qty) (level : Raw * Qty)
  : Result (BTree Raw Qty) :=
  let? ' (size, price) := CorporateAction.split_position ratio level.2 level.1 in
  if negb (is_positive size) then Ok out
  else
    let? total := checked_add "Qty" (default 0 (bget price out)) size in
    Ok (binsert price total out).
Definition split_side (levels : BTree Raw Qty) (ratio : Price) : Result (BTree Raw Qty) :=
  foldr_res (split_level ratio) [] levels.

Definition apply_split (b : OrderBook) (ratio : Price) (ts : UnixNanos) : Result OrderBook :=
  let? bs := split_side (bids b) ratio in
  let? as_ := split_side (asks b) ratio in
  Ok (b <| bids := bs |> <| asks := as_ |> <| b_last_update := Some ts |>).

Definition best_bid (b : OrderBook) : option (Price * Qty) := blast (bids b).
Definition best_ask (b : OrderBook) : option (Price * Qty) := bfirst (asks b).

Definition spread (b : OrderBook) : option Price :=
  match best_bid b, best_ask b with
  | Some (bid, _), Some (ask, _) => Some (sub64 ask bid)
  | _, _ => None
  end.

Definition mid (b : OrderBook) : option Price :=
  match best_bid b, best_ask b with
  | Some (bid, _), Some (ask, _) =>
      let sum := add64 bid ask in
      let away := if 0 <=? sum then add64 sum 1 else sub64 sum 1 in
      Some (Z.quot away 2)
  | _, _ => None
  end.

(** Levels on one side, best first. *)
Definition levels (b : OrderBook) (side : Side) : list (Price * Qty) :=
  match side with Buy => rev (bids b) | Sell => asks b end.

Definition depth (b : OrderBook) (side : Side) : nat :=
  match side with Buy => length (bids b) | Sell => length (asks b) end.

Definition quantity_at (b : OrderBook) (side : Side) (price : Price) : option Qty :=
  match side with Buy => bget price (bids b) | Sell => bget price (asks b) end.

(** [acceptable]: within the taker's limit, if it has one. *)
Definition acceptable (taker_side : Side) (limit : option Price) (price : Price) : bool :=
  match limit with
  | None => true
  | Some cap => match taker_side with Buy => price <=? cap | Sell => cap <=? price end
  end.

(** The [visit] closure over the levels in order: the fills made and what remains. *)
Fixpoint visit (taker_side : Side) (limit : option Price) (remaining : Z)
  (ls : list (Price * Qty)) : list (Price * Qty) * Z :=
  match ls with
  | [] => ([], remaining)
  | (price, size) :: ls' =>
      if remaining <=? 0 then ([], remaining)
      else if negb (acceptable taker_side limit price) then ([], remaining)
      else
        let take := Z.min remaining size in
        let remaining' := if 0 <? take then remaining - take else remaining in
        let fill := if 0 <? take then [(price, take)] else [] in
        if 0 <? remaining' then
          let '(fills, r) := visit taker_side limit remaining' ls' in (fill ++ fills, r)
        else (fill, remaining')
  end.

Definition walk (b : OrderBook) (taker_side : Side) (qty : Qty) (limit : option Price)
  : BookWalk :=
  let '(fills, remaining) := visit taker_side limit qty (levels b (Side.opposite taker_side)) in
  mkBookWalk fills remaining.
End OrderBook.

Module BookWalk.
Definition filled (w : BookWalk) : Qty := sum64 (map snd (w_fills w)).
Definition is_empty (w : BookWalk) : bool := match w_fills w with [] => true | _ => false end.

Definition average_price (w : BookWalk) : option Price :=
  let total := filled w in
  if total =? 0 then None
  else
    let weighted := sum128 (map (fun f => f.1 * f.2) (w_fills w)) in
    ok (narrow (div_half_away weighted total) "BookWalk::average_price").
End BookWalk.

(** ** Invariants and specifications *)

Definition side_wf (levels : BTree Raw Qty) : Prop :=
  bwf levels /\ Forall (fun q => 0 < q <= i64_max) (bvalues levels).

(** Levels in price order with positive sizes, and nothing kept while stale. *)
Record book_wf (b : OrderBook) : Prop := {
  wf_bids : side_wf (bids b);
  wf_asks : side_wf (asks b);
  wf_stale : OrderBook.is_fresh b = false -> bids b = [] /\ asks b = [];
}.

(** The feed as a sequence of operations on one book. *)
Inductive book_op :=
| OpSnapshot (bs as_ : list (Price * Qty)) (ts : UnixNanos)
| OpGap (ts : UnixNanos)
| OpDelta (instrument : string) (delta : BookDelta) (ts : UnixNanos)
| OpSplit (ratio : Price) (ts : UnixNanos).
Definition book_step (b : OrderBook) (op : book_op) : Result OrderBook :=
  match op with
  | OpSnapshot bs as_ ts => OrderBook.apply_snapshot b bs as_ ts
  | OpGap ts => Ok (OrderBook.mark_gap b ts)
  | OpDelta i d ts => OrderBook.apply_delta b i d ts
  | OpSplit ratio ts => OrderBook.apply_split b ratio ts
  end.
Definition is_snapshot (op : book_op) : bool :=
  match op with OpSnapshot _ _ _ => true | _ => false end.
Definition is_delta (op : book_op) : bool := match op with OpDelta _ _ _ => true | _ => false end.

Definition sizes_fit (l : list (Price * Qty)) : Prop := Forall (fun e => e.2 <= i64_max) l.
Definition op_fits (op : book_op) : Prop :=
  match op with
  | OpSnapshot bs as_ _ => sizes_fit bs /\ sizes_fit as_
  | OpDelta _ d _ => d_size d <= i64_max
  | _ => True
  end.

(** Displayed quantity over a list of levels. *)
Definition depth_of (l : list (Price * Qty)) : Z := zsum (map snd l).

(** [fills] takes [ls] from the front: whole levels, and at most one in part, last. *)
Inductive takes : list (Price * Qty) -> list (Price * Qty) -> Prop :=
| takes_done ls : takes ls []
| takes_part p s t ls : 0 < t < s -> takes ((p, s) :: ls) [(p, t)]
| takes_whole p s ls fills : takes ls fills -> takes ((p, s) :: ls) ((p, s) :: fills).

(** ** Lemmas *)

Lemma side_wf_nil : side_wf [].
Proof. split; constructor. Qed.

Lemma side_wf_insert p q l : side_wf l -> 0 < q <= i64_max -> side_wf (binsert p q l).
Proof. intros [H1 H2] Hq. split; auto with h5i. Qed.

Lemma side_wf_remove p l : side_wf l -> side_wf (bremove p l).
Proof. intros [H1 H2]. split; [auto with h5i|]. by apply Forall_values_filter. Qed.
#[export] Hint Resolve side_wf_nil side_wf_insert side_wf_remove : h5i.

Lemma load_side_wf l : sizes_fit l -> side_wf (OrderBook.load_side l).
Proof.
  unfold OrderBook.load_side. generalize side_wf_nil. generalize (@nil (Raw * Qty)) as m.
  induction l as [|[p q] l IH]; intros m Hm Hl; cbn; [done|].
  apply Forall_cons in Hl as [Hq Hl]. apply IH; [|done]. unfold is_positive; cbn in *.
  destruct (0 <? q) eqn:E; [|done]. bool_prop. auto with h5i.
Qed.

Lemma delta_side_wf d l :
  d_size d <= i64_max -> side_wf l -> side_wf (OrderBook.delta_side d l).
Proof.
  intros Hd Hl. unfold OrderBook.delta_side, is_positive.
  destruct (d_action d); auto with h5i. destruct (0 <? _) eqn:E; bool_prop; auto with h5i.
Qed.

Lemma split_side_wf ratio l l' :
  side_wf l -> OrderBook.split_side l ratio = Ok l' -> side_wf l'.
Proof.
  intros _. apply foldr_res_inv; [|apply side_wf_nil].
  intros m [p q] m' Hm H. unfold OrderBook.split_level in H. cbn in H.
  destruct (CorporateAction.split_position ratio q p) as [[q' p']|] eqn:E; [|done].
  unfold is_positive in H. destruct (0 <? q') eqn:Eq; cbn in H; [|by injection H as <-].
  destruct (checked_add _ _ _) as [tot|] eqn:Ea; [|done]. injection H as <-.
  apply checked_add_Ok in Ea as [Hf ->]. bool_prop. apply side_wf_insert; [done|].
  assert (0 <= default 0 (bget p' m)) as Hd.
  { destruct (bget p' m) as [v|] eqn:Eg; cbn; [|done]. destruct Hm as [_ Hm].
    rewrite List.Forall_forall in Hm. apply bget_In, (in_map snd), Hm in Eg. cbn in Eg. lia. }
  widths. lia.
Qed.

Lemma book_new_wf : book_wf OrderBook.new.
Proof. split; cbn; auto with h5i. Qed.

Lemma split_side_nil ratio : OrderBook.split_side [] ratio = Ok [].
Proof. done. Qed.

(** Reversing a side keeps what is on it. *)
Lemma depth_of_nil : depth_of [] = 0.
Proof. done. Qed.

Lemma depth_of_app l1 l2 : depth_of (l1 ++ l2) = depth_of l1 + depth_of l2.
Proof. unfold depth_of. by rewrite map_app, zsum_app. Qed.

Lemma depth_of_nonneg l : Forall (fun e => 0 < e.2) l -> 0 <= depth_of l.
Proof.
  intros H. apply zsum_nonneg, Forall_map. eapply Forall_impl; [exact H|]. cbn. lia.
Qed.

Lemma takes_depth ls fills :
  Forall (fun e => 0 < e.2) ls -> takes ls fills -> 0 <= depth_of fills <= depth_of ls.
Proof.
  intros Hls Ht. induction Ht as [ls|p s t ls Ht|p s ls fills Ht IH];
    try apply Forall_cons in Hls as [Hs Hls]; unfold depth_of in *; cbn [map snd] in *;
    rewrite ?zsum_cons; cbn in *.
  - pose proof (depth_of_nonneg ls Hls). unfold depth_of in *. lia.
  - pose proof (depth_of_nonneg ls Hls). unfold depth_of, zsum in *. cbn. lia.
  - specialize (IH Hls). lia.
Qed.

(** The closure, on any list of positive levels: it takes the acceptable prefix from
    the front, as far as the quantity goes. *)
Lemma visit_spec side limit ls : forall rem,
  0 <= rem -> Forall (fun e => 0 < e.2) ls ->
  exists ok rest, ls = ok ++ rest /\
    Forall (fun e => OrderBook.acceptable side limit e.1 = true) ok /\
    (match rest with [] => True | e :: _ => OrderBook.acceptable side limit e.1 = false end) /\
    let '(fills, r) := OrderBook.visit side limit rem ls in
    takes ok fills /\ depth_of fills = Z.min rem (depth_of ok) /\ r = rem - depth_of fills.
Proof.
  induction ls as [|[p s] ls IH]; intros rem Hrem Hls.
  { exists [], []. cbn. repeat split; try constructor; change (depth_of []) with 0; lia. }
  apply Forall_cons in Hls as [Hs Hls]. cbn in Hs.
  destruct (OrderBook.acceptable side limit p) eqn:Ea.
  2: { exists [], ((p, s) :: ls). cbn. rewrite Ea. split; [done|]. split; [constructor|].
       split; [done|]. destruct (rem <=? 0); cbn;
         (split; [constructor|change (depth_of []) with 0; lia]). }
  destruct (IH (Z.max 0 (rem - s))) as (ok & rest & -> & Hok & Hrest & Hv); [lia|done|].
  exists ((p, s) :: ok), rest. split; [done|]. split; [by constructor|]. split; [done|].
  assert (0 <= depth_of ok) as Hd.
  { apply depth_of_nonneg. by apply Forall_app in Hls as [? _]. }
  cbn [OrderBook.visit]. rewrite Ea. cbn [negb].
  assert (depth_of ((p, s) :: ok) = s + depth_of ok) as -> by done.
  destruct (rem <=? 0) eqn:Er; bool_prop.
  { split; [constructor|]. change (depth_of []) with 0. lia. }
  rewrite (proj2 (Z.ltb_lt 0 (Z.min rem s))) by lia.
  destruct (0 <? rem - Z.min rem s) eqn:E; bool_prop.
  - replace (Z.max 0 (rem - s)) with (rem - Z.min rem s) in Hv by lia.
    destruct (OrderBook.visit side limit _ _) as [fills r]. destruct Hv as (Ht & Hf & ->).
    replace (Z.min rem s) with s in * by lia. split; [by constructor|].
    assert (depth_of ([(p, s)] ++ fills) = s + depth_of fills) as -> by done. lia.
  - assert (depth_of [(p, Z.min rem s)] = rem) as -> by (change (Z.min rem s + 0 = rem); lia).
    split; [|lia]. destruct (Z.eq_dec rem s) as [->|].
    + rewrite Z.min_id. apply takes_whole, takes_done.
    + apply takes_part. lia.
Qed.

(** Past the first unacceptable level of a side in order, none is acceptable. *)
Lemma acceptable_tail side limit l1 e l2 :
  StronglySorted (fun a b => match side with Buy => a.1 < b.1 | Sell => b.1 < a.1 end) (l1 ++ e :: l2) ->
  OrderBook.acceptable side limit e.1 = false ->
  Forall (fun x : Price * Qty => OrderBook.acceptable side limit x.1 = false) (e :: l2).
Proof.
  intros Hs He. constructor; [done|].
  apply StronglySorted_app in Hs as (_ & _ & Hs). apply StronglySorted_inv in Hs as [_ Hs].
  eapply Forall_impl; [exact Hs|]. intros x Hx. cbn in Hx. unfold OrderBook.acceptable in *.
  destruct limit as [cap|]; [|done]. destruct side; bool_prop; [apply Z.leb_gt|apply Z.leb_gt]; lia.
Qed.

(** Levels come out best first and with positive sizes. *)
Lemma levels_sorted b side :
  book_wf b ->
  StronglySorted (fun x y => match side with Buy => y.1 < x.1 | Sell => x.1 < y.1 end)
    (OrderBook.levels b side) /\
  Forall (fun e => 0 < e.2) (OrderBook.levels b side).
Proof.
  intros [[Hb1 Hb2] [Ha1 Ha2] _]. unfold bwf, bkeys, bvalues in *. destruct side; cbn.
  - split.
    + apply (StronglySorted_rev (fun x y => x.1 < y.1)). apply (StronglySorted_map klt fst) in Hb1.
      eapply StronglySorted_weaken; [|exact Hb1]. intros x y. apply klt_Z.
    + apply Forall_rev, Forall_map. eapply Forall_impl; [exact Hb2|]. cbn. lia.
  - split.
    + apply (StronglySorted_map klt fst) in Ha1.
      eapply StronglySorted_weaken; [|exact Ha1]. intros x y. apply klt_Z.
    + apply Forall_map. eapply Forall_impl; [exact Ha2|]. cbn. lia.
Qed.

Lemma book_step_wf b op b' : op_fits op -> book_wf b -> book_step b op = Ok b' -> book_wf b'.
Proof.
  intros Hf [Hb Ha Hs]. destruct op as [bs as_ ts|ts|i d ts|ratio ts]; cbn; intros H.
  - injection H as <-. destruct Hf. split; cbn; auto using load_side_wf. discriminate.
  - injection H as <-. split; cbn; auto with h5i.
  - unfold OrderBook.apply_delta in H. destruct (b_status b) as [[|since]|] eqn:E; [|done..].
    injection H as <-. cbn in Hf.
    destruct (d_side d); split; cbn; auto using delta_side_wf;
      unfold OrderBook.is_fresh; cbn; rewrite E; discriminate.
  - unfold OrderBook.apply_split in H.
    destruct (OrderBook.split_side (bids b) ratio) as [bs|] eqn:E1; [|done].
    destruct (OrderBook.split_side (asks b) ratio) as [as_|] eqn:E2; [|done].
    injection H as <-. split; cbn; eauto using split_side_wf.
    unfold OrderBook.is_fresh in *. cbn. intros Hfr. destruct (Hs Hfr) as [Hb0 Ha0].
    rewrite Hb0, split_side_nil in E1. rewrite Ha0, split_side_nil in E2.
    by injection E1 as <-; injection E2 as <-.
Qed.

Lemma stale_step b op b' since :
  b_status b = Some (Stale since) -> bids b = [] -> asks b = [] ->
  is_snapshot op = false -> book_step b op = Ok b' ->
  is_delta op = false /\ (exists since', b_status b' = Some (Stale since')) /\
  bids b' = [] /\ asks b' = [].
Proof.
  intros Hs Hb Ha Hop H. destruct op as [bs as_ ts|ts|i d ts|ratio ts]; [done|..]; cbn in *.
  - injection H as <-. cbn. eauto.
  - unfold OrderBook.apply_delta in H. by rewrite Hs in H.
  - unfold OrderBook.apply_split in H. rewrite Hb, Ha, !split_side_nil in H.
    injection H as <-. cbn. eauto.
Qed.

Lemma acceptable_filter side limit (ok rest : list (Price * Qty)) :
  StronglySorted (fun a b => match side with Buy => a.1 < b.1 | Sell => b.1 < a.1 end) (ok ++ rest) ->
  Forall (fun e => OrderBook.acceptable side limit e.1 = true) ok ->
  match rest with [] => True | e :: _ => OrderBook.acceptable side limit e.1 = false end ->
  List.filter (fun e => OrderBook.acceptable side limit e.1) (ok ++ rest) = ok.
Proof.
  intros Hs Hok Hrest. rewrite List.filter_app.
  assert (List.filter (fun e => OrderBook.acceptable side limit e.1) ok = ok) as ->.
  { clear Hs. induction Hok as [|e ok He Hok IH]; cbn; [done|]. by rewrite He, IH. }
  assert (Forall (fun e => OrderBook.acceptable side limit e.1 = false) rest) as Hr.
  { destruct rest as [|e rest]; [constructor|]. by eapply acceptable_tail. }
  assert (List.filter (fun e => OrderBook.acceptable side limit e.1) rest = []) as ->;
    [|by rewrite app_nil_r].
  clear Hs Hrest. induction Hr as [|e rest He Hr IH]; cbn; [done|]. by rewrite He, IH.
Qed.

(** ** Properties *)

(** C18 A walk takes the best prices first and everything it may: the levels it can
    touch are exactly the displayed ones within the limit, it consumes them from the
    best, whole except possibly the last, it fills the smaller of the order and that
    depth, and filled plus unfilled is the order. *)
Theorem walk_best_execution b side q limit :
  book_wf b -> 0 <= q <= i64_max ->
  let reachable :=
    List.filter (fun e => OrderBook.acceptable side limit e.1)
      (OrderBook.levels b (Side.opposite side)) in
  let w := OrderBook.walk b side q limit in
  takes reachable (w_fills w) /\
  BookWalk.filled w = Z.min q (depth_of reachable) /\
  BookWalk.filled w + w_unfilled w = q.
Proof.
  intros Hb Hq. cbv zeta. unfold OrderBook.walk.
  destruct (levels_sorted b (Side.opposite side) Hb) as [Hs Hp].
  destruct (visit_spec side limit (OrderBook.levels b (Side.opposite side)) q)
    as (okl & rest & El & Hok & Hrest & Hv); [lia|done|].
  destruct (OrderBook.visit _ _ _ _) as [fills r]. destruct Hv as (Ht & Hf & ->).
  rewrite El in *. rewrite acceptable_filter; [|by destruct side|done|done]. cbn [w_fills w_unfilled].
  assert (BookWalk.filled (mkBookWalk fills (q - depth_of fills)) = depth_of fills) as Hfill.
  { apply sum64_exact. change (in_i64 (depth_of fills)). apply Forall_app in Hp as [Hp _].
    pose proof (takes_depth _ _ Hp Ht). widths. lia. }
  rewrite Hfill. split; [done|]. split; [done|lia].
Qed.

Definition demo_book : OrderBook :=
  mkOrderBook [(40, 5); (45, 7)] [(50, 3); (52, 4); (60, 100)] (Some Fresh) (Some 1).
Lemma demo_book_wf : book_wf demo_book.
Proof.
  split; cbn; [| |done]; split; repeat constructor; cbn; widths; try lia; try reflexivity.
Qed.

Example walk_best_execution_witness :
  book_wf demo_book /\
  OrderBook.walk demo_book Buy 5 (Some 55) = mkBookWalk [(50, 3); (52, 2)] 0 /\
  BookWalk.filled (OrderBook.walk demo_book Buy 50 (Some 55)) = 7.
Proof.
  split; [apply demo_book_wf|]. split; [reflexivity|].
  destruct (walk_best_execution demo_book Buy 50 (Some 55) demo_book_wf) as (_ & -> & _);
    [widths; lia|reflexivity].
Defined.

(** A declared gap is not forgotten: until a snapshot arrives the book stays stale
    and empty, whatever gaps and splits follow, and every delta is refused with the
    gap's time; so no feed that gets past the gap contained a delta. *)
Theorem stale_until_snapshot b ts ops b' :
  Forall (fun op => is_snapshot op = false) ops ->
  foldr_res book_step (OrderBook.mark_gap b ts) ops = Ok b' ->
  Forall (fun op => is_delta op = false) ops /\ bids b' = [] /\ asks b' = [] /\
  exists since, b_status b' = Some (Stale since) /\
    forall i d t, OrderBook.apply_delta b' i d t = Err (BookGap i t since).
Proof.
  set (b0 := OrderBook.mark_gap b ts).
  assert (H0 : (exists since, b_status b0 = Some (Stale since)) /\ bids b0 = [] /\ asks b0 = [])
    by (cbn; eauto).
  clearbody b0. revert b0 H0. induction ops as [|op ops IH]; cbn; intros b0 H0 Hops H.
  - injection H as <-. destruct H0 as ([since Hs] & Hb & Ha). split; [done|].
    split; [done|]. split; [done|]. exists since. split; [done|]. intros i d t.
    unfold OrderBook.apply_delta. by rewrite Hs.
  - apply Forall_cons in Hops as [Hop Hops].
    destruct (book_step b0 op) as [b1|] eqn:E; [|done].
    destruct H0 as ([since Hs] & Hb & Ha).
    destruct (stale_step b0 op b1 since Hs Hb Ha Hop E) as (Hd & H1).
    destruct (IH b1 H1 Hops H) as (Hds & Hrest). split; [by constructor|done].
Qed.

Example stale_until_snapshot_witness :
  exists b', foldr_res book_step (OrderBook.mark_gap demo_book 7) [OpGap 9] = Ok b' /\
    OrderBook.apply_delta b' "M" (BookDelta.set Buy 41 1) 10 = Err (BookGap "M" 10 9).
Proof.
  destruct (stale_until_snapshot demo_book 7 [OpGap 9]
    (OrderBook.mark_gap (OrderBook.mark_gap demo_book 7) 9)) as (_ & _ & _ & since & Hs & Hd);
    [repeat constructor|reflexivity|].
  eexists. split; [reflexivity|]. vm_compute in Hs. injection Hs as <-. apply Hd.
Defined.

(** However the feed runs, both sides of the book stay in price order with positive
    sizes, and a book that is not fresh shows nothing. *)
Theorem book_feed_invariant ops b' :
  Forall op_fits ops -> foldr_res book_step OrderBook.new ops = Ok b' -> book_wf b'.
Proof.
  pose proof book_new_wf as H0. revert H0. generalize OrderBook.new as b.
  induction ops as [|op ops IH]; cbn; intros b H0 Hops H; [by injection H as <-|].
  apply Forall_cons in Hops as [Hop Hops].
  destruct (book_step b op) as [b1|] eqn:E; [|done].
  apply (IH b1); eauto using book_step_wf.
Qed.

Definition demo_feed : list book_op :=
  [OpSnapshot [(50, 4); (49, 1)] [(51, 2)] 1; OpDelta "M" (BookDelta.set Buy 50 9) 2;
   OpSplit 500000000 3].

Example book_feed_invariant_witness :
  let b' := mkOrderBook [(100, 4)] [(102, 1)] (Some Fresh) (Some 3) in
  foldr_res book_step OrderBook.new demo_feed = Ok b' /\ book_wf b'.
Proof.
  split; [reflexivity|]. apply (book_feed_invariant demo_feed); [|reflexivity].
  repeat constructor; cbn; widths; lia.
Defined.
