(* ===== verification/L3.v ===== *)
(** * Order-by-order books

    Models [l3.rs]: the map of resting orders, the FIFO of ids per price level, and
    the four messages of an order-by-order feed.  The specification is the list of
    resting orders in arrival order; the refinement theorem says the two maps
    represent that list after any feed, and the queue-position theorem that the size
    ahead of an order is the size of the earlier arrivals still at its price. *)
From S2P Require Export Types.

Abbreviation VenueOrderId := Z (only parsing).

Inductive MboMessage :=
| Add (order_id : VenueOrderId) (side : Side) (price : Price) (size : Qty)
| Cancel (order_id : VenueOrderId)
| Execute (order_id : VenueOrderId) (size : Qty)
| Reduce (order_id : VenueOrderId) (new_size : Qty).

Module MboMessage.
Definition order_id (m : MboMessage) : VenueOrderId :=
  match m with Add id _ _ _ | Cancel id | Execute id _ | Reduce id _ => id end.
Definition kind (m : MboMessage) : string :=
  match m with
  | Add _ _ _ _ => "add"
  | Cancel _ => "cancel"
  | Execute _ _ => "execute"
  | Reduce _ _ => "reduce"
  end.
End MboMessage.

Record Resting := mkResting { r_side : Side; r_price : Price; r_size : Qty }.
#[export] Instance eta_Resting : Eta Resting := fun r => mkResting (r_side r) (r_price r) (r_size r).

Record L3Book := mkL3Book {
  l3_orders : gmap Z Resting;
  l3_levels : BTree (Z * Z) (list VenueOrderId);
}.
#[export] Instance eta_L3Book : Eta L3Book := fun b => mkL3Book (l3_orders b) (l3_levels b).

Definition BUY : Z := 0.
Definition SELL : Z := 1.
Definition side_key (s : Side) : Z := match s with Buy => BUY | Sell => SELL end.

Module L3Book.
Definition new : L3Book := mkL3Book ∅ [].

Definition level_key (side : Side) (price : Price) : Z * Z := (side_key side, price).

Definition add (b : L3Book) (order_id : VenueOrderId) (side : Side) (price : Price) (size : Qty)
  : Result L3Book :=
  if negb (is_positive size) then
    Err (invalid "an order joining the book must have positive size")
  else
    match l3_orders b !! order_id with
    | Some _ => Err (invalid "venue order is already on the book")
    | None =>
        Ok (b <| l3_orders := <[order_id := mkResting side price size]> (l3_orders b) |>
              <| l3_levels :=
                   bentry [] (fun q => q ++ [order_id]) (level_key side price) (l3_levels b) |>)
    end.

Definition cancel (b : L3Book) (order_id : VenueOrderId) : L3Book * Qty :=
  match l3_orders b !! order_id with
  | None => (b, 0)
  | Some resting =>
      let b := b <| l3_orders := delete order_id (l3_orders b) |> in
      let key := level_key (r_side resting) (r_price resting) in
      let b :=
        match bget key (l3_levels b) with
        | Some queue =>
            match List.filter (fun id => negb (id =? order_id)) queue with
            | [] => b <| l3_levels := bremove key (l3_levels b) |>
            | queue' => b <| l3_levels := binsert key queue' (l3_levels b) |>
            end
        | None => b
        end in
      (b, r_size resting)
  end.

Definition execute (b : L3Book) (order_id : VenueOrderId) (size : Qty) : L3Book * Qty :=
  match l3_orders b !! order_id with
  | None => (b, 0)
  | Some resting =>
      let executed := Z.min size (r_size resting) in
      let resting := resting <| r_size := sub64 (r_size resting) executed |> in
      let b := b <| l3_orders := <[order_id := resting]> (l3_orders b) |> in
      if negb (is_positive (r_size resting)) then ((cancel b order_id).1, executed)
      else (b, executed)
  end.

Definition reduce (b : L3Book) (order_id : VenueOrderId) (new_size : Qty) : Result L3Book :=
  match l3_orders b !! order_id with
  | None => Ok b
  | Some resting =>
      if r_size resting <? new_size then Err (invalid "order cannot grow in place")
      else if negb (is_positive new_size) then Ok (cancel b order_id).1
      else
        Ok (b <| l3_orders := <[order_id := resting <| r_size := new_size |>]> (l3_orders b) |>)
  end.

Definition apply (b : L3Book) (message : MboMessage) : Result L3Book :=
  match message with
  | Add order_id side price size => add b order_id side price size
  | Cancel order_id => Ok (cancel b order_id).1
  | Execute order_id size => Ok (execute b order_id size).1
  | Reduce order_id new_size => reduce b order_id new_size
  end.

(** The [for id in queue] loop of [size_ahead_of]. *)
Fixpoint ahead_loop (orders : gmap Z Resting) (order_id : Z) (queue : list Z) (ahead : Z)
  : option Qty :=
  match queue with
  | [] => None
  | id :: queue' =>
      if id =? order_id then Some ahead
      else
        let size := match orders !! id with Some o => r_size o | None => 0 end in
        ahead_loop orders order_id queue' (add64 ahead size)
  end.

Definition size_ahead_of (b : L3Book) (order_id : VenueOrderId) : option Qty :=
  resting ← l3_orders b !! order_id;
  queue ← bget (level_key (r_side resting) (r_price resting)) (l3_levels b);
  ahead_loop (l3_orders b) order_id queue 0.

Definition size_at (b : L3Book) (side : Side) (price : Price) : Qty :=
  match bget (level_key side price) (l3_levels b) with
  | Some queue =>
      sum64 (map (fun id => match l3_orders b !! id with Some o => r_size o | None => 0 end) queue)
  | None => 0
  end.

(** The prices of one side, and [Iterator::max] and [min] over them. *)
Definition side_prices (b : L3Book) (key : Z) : list Price :=
  map snd (List.filter (fun k => k.1 =? key) (bkeys (l3_levels b))).
Definition best_bid (b : L3Book) : option Price :=
  match side_prices b BUY with [] => None | p :: ps => Some (fold_left Z.max ps p) end.
Definition best_ask (b : L3Book) : option Price :=
  match side_prices b SELL with [] => None | p :: ps => Some (fold_left Z.min ps p) end.

Definition levels (b : L3Book) (side : Side) : list (Price * Qty) :=
  let out :=
    List.filter (fun l => is_positive l.2)
      (map (fun price => (price, size_at b side price)) (side_prices b (side_key side))) in
  match side with
  | Buy => sort_by_key (fun l => - l.1) out
  | Sell => sort_by_key (fun l => l.1) out
  end.

Definition order_count (b : L3Book) : nat := size (l3_orders b).
Definition is_empty (b : L3Book) : bool := (order_count b =? 0)%nat.
End L3Book.

(** ** Specification: the orders in arrival order *)

Record QOrder := mkQOrder { q_id : Z; q_side : Side; q_price : Price; q_size : Qty }.

Definition find_order (id : Z) (l : list QOrder) : option QOrder :=
  List.find (fun o => q_id o =? id) l.
Definition drop_order (id : Z) (l : list QOrder) : list QOrder :=
  List.filter (fun o => negb (q_id o =? id)) l.
Definition resize_order (id : Z) (s : Qty) (l : list QOrder) : list QOrder :=
  map (fun o => if q_id o =? id then mkQOrder (q_id o) (q_side o) (q_price o) s else o) l.

Definition queue_apply (l : list QOrder) (m : MboMessage) : option (list QOrder) :=
  match m with
  | Add id side price size =>
      match find_order id l with
      | Some _ => None
      | None => if 0 <? size then Some (l ++ [mkQOrder id side price size]) else None
      end
  | Cancel id => Some (drop_order id l)
  | Execute id size =>
      match find_order id l with
      | None => Some l
      | Some o =>
          if q_size o <=? size then Some (drop_order id l)
          else Some (resize_order id (q_size o - size) l)
      end
  | Reduce id n =>
      match find_order id l with
      | None => Some l
      | Some o =>
          if q_size o <? n then None
          else if n <=? 0 then Some (drop_order id l)
          else Some (resize_order id n l)
      end
  end.

Definition q_key (o : QOrder) : Z * Z := L3Book.level_key (q_side o) (q_price o).
Definition at_level (k : Z * Z) (l : list QOrder) : list QOrder :=
  List.filter (fun o => keqb (q_key o) k) l.

(** The orders of a list that come before [id]. *)
Fixpoint before (id : Z) (l : list QOrder) : list QOrder :=
  match l with
  | [] => []
  | o :: l' => if q_id o =? id then [] else o :: before id l'
  end.

Definition resting_of (o : QOrder) : Resting := mkResting (q_side o) (q_price o) (q_size o).
Definition queue_of (k : Z * Z) (l : list QOrder) : option (list Z) :=
  match map q_id (at_level k l) with [] => None | q => Some q end.

(** The two maps represent the list. *)
Record l3_rep (b : L3Book) (l : list QOrder) : Prop := {
  rep_ids : NoDup (map q_id l);
  rep_sizes : Forall (fun o => 0 < q_size o <= i64_max) l;
  rep_orders : forall id, l3_orders b !! id = resting_of <$> find_order id l;
  rep_levels : forall k, bget k (l3_levels b) = queue_of k l;
}.

(** Message sizes are [i64], and an execution trades a non-negative size. *)
Definition msg_fits (m : MboMessage) : Prop :=
  match m with
  | Add _ _ _ size => size <= i64_max
  | Execute _ size => 0 <= size <= i64_max
  | _ => True
  end.

(** ** Lemmas on the list of orders *)

Lemma find_order_Some id l o : find_order id l = Some o -> In o l /\ q_id o = id.
Proof. intros H. apply List.find_some in H as [? ?]. bool_prop. done. Qed.

Lemma find_order_None id l : find_order id l = None <-> ~ In id (map q_id l).
Proof.
  unfold find_order. split.
  - intros H (o & <- & Ho)%in_map_iff. apply (List.find_none _ _ H) in Ho. bool_prop. done.
  - intros H. destruct (List.find _ l) as [o|] eqn:E; [|done].
    apply find_order_Some in E as [Ho <-]. by destruct H; apply in_map.
Qed.

Lemma find_order_In l o : NoDup (map q_id l) -> In o l -> find_order (q_id o) l = Some o.
Proof.
  unfold find_order. induction l as [|o' l IH]; [done|]. cbn. intros Hd.
  apply NoDup_cons in Hd as [Hn Hd]. intros [->|Ho]; [by rewrite Z.eqb_refl|].
  destruct (q_id o' =? q_id o) eqn:E; [|auto]. bool_prop. destruct Hn. rewrite E.
  by apply list_elem_of_In, in_map.
Qed.

Lemma find_order_app id l1 l2 :
  find_order id (l1 ++ l2) =
  match find_order id l1 with Some o => Some o | None => find_order id l2 end.
Proof.
  unfold find_order. induction l1 as [|o l IH]; [done|]. cbn. by destruct (q_id o =? id).
Qed.

Lemma find_order_drop id j l :
  find_order j (drop_order id l) = if j =? id then None else find_order j l.
Proof.
  unfold find_order, drop_order. induction l as [|o l IH]; cbn; [by destruct (j =? id)|].
  destruct (q_id o =? id) eqn:E; cbn; rewrite IH; bool_prop.
  - destruct (j =? id) eqn:Ej; [done|]. bool_prop. by rewrite (proj2 (Z.eqb_neq (q_id o) j)) by lia.
  - destruct (q_id o =? j) eqn:Ej; [|done]. bool_prop. by rewrite (proj2 (Z.eqb_neq j id)) by lia.
Qed.

Lemma find_order_resize id s j l :
  find_order j (resize_order id s l) =
  (fun o => if j =? id then mkQOrder (q_id o) (q_side o) (q_price o) s else o) <$> find_order j l.
Proof.
  unfold find_order, resize_order. induction l as [|o l IH]; cbn; [done|].
  destruct (q_id o =? id) eqn:E; cbn; destruct (q_id o =? j) eqn:Ej; try apply IH; cbn;
    bool_prop; subst; [by rewrite Z.eqb_refl|by rewrite (proj2 (Z.eqb_neq _ _))].
Qed.

Lemma resize_order_ids id s l : map q_id (resize_order id s l) = map q_id l.
Proof.
  unfold resize_order. rewrite map_map. apply map_ext. intros o. by destruct (q_id o =? id).
Qed.

Lemma at_level_ids_resize id s k l :
  map q_id (at_level k (resize_order id s l)) = map q_id (at_level k l).
Proof.
  unfold at_level, resize_order. induction l as [|o l IH]; cbn; [done|].
  destruct (q_id o =? id); cbn; unfold q_key at 1; cbn; fold (q_key o);
    destruct (keqb (q_key o) k); cbn; by rewrite IH.
Qed.

Lemma filter_ids_drop id l :
  map q_id (drop_order id l) = List.filter (fun i => negb (i =? id)) (map q_id l).
Proof.
  unfold drop_order. induction l as [|o l IH]; cbn; [done|].
  destruct (q_id o =? id); cbn; by rewrite IH.
Qed.

Lemma at_level_drop k id l : at_level k (drop_order id l) = drop_order id (at_level k l).
Proof.
  unfold at_level, drop_order. induction l as [|o l IH]; cbn; [done|].
  destruct (q_id o =? id) eqn:E1, (keqb (q_key o) k) eqn:E2; cbn; rewrite ?E1, ?E2; cbn; by rewrite ?IH.
Qed.

(** Dropping an order leaves the queues of other levels alone. *)
Lemma drop_other_level k id l :
  (forall o, In o l -> q_id o = id -> q_key o <> k) ->
  map q_id (at_level k (drop_order id l)) = map q_id (at_level k l).
Proof.
  intros H. rewrite at_level_drop. f_equal. unfold at_level, drop_order.
  induction l as [|o l IH]; cbn; [done|]. assert (IHl := IH (fun o' Ho => H o' (or_intror Ho))).
  destruct (keqb (q_key o) k) eqn:E2; [|done]. cbn. rewrite IHl.
  destruct (q_id o =? id) eqn:E1; [|done]. bool_prop. apply keqb_eq in E2.
  by destruct (H o (or_introl eq_refl) E1).
Qed.

Lemma NoDup_filter_list {A} (p : A -> bool) l : NoDup l -> NoDup (List.filter p l).
Proof.
  induction 1 as [|x l Hx Hl IH]; cbn; [constructor|]. destruct (p x); [|done].
  constructor; [|done]. rewrite list_elem_of_In, filter_In, <- list_elem_of_In. tauto.
Qed.

Lemma at_level_app k l1 l2 : at_level k (l1 ++ l2) = at_level k l1 ++ at_level k l2.
Proof. apply List.filter_app. Qed.

Lemma at_level_one k o : at_level k [o] = if keqb (q_key o) k then [o] else [].
Proof. done. Qed.

Lemma queue_of_default k l : default [] (queue_of k l) = map q_id (at_level k l).
Proof. unfold queue_of. by destruct (map q_id (at_level k l)). Qed.

(** ** Preservation *)

Lemma rep_new : l3_rep L3Book.new [].
Proof. split; cbn; [constructor|constructor|done|done]. Qed.

Lemma rep_add b l id side price size :
  l3_rep b l -> 0 < size <= i64_max -> find_order id l = None ->
  exists b', L3Book.add b id side price size = Ok b' /\
    l3_rep b' (l ++ [mkQOrder id side price size]).
Proof.
  intros [Hn Hs Ho Hl] Hsz Hf. unfold L3Book.add, is_positive.
  rewrite (proj2 (Z.ltb_lt 0 size)) by lia. cbn [negb]. rewrite Ho, Hf. cbn [fmap option_fmap option_map].
  eexists; split; [done|]. split.
  - rewrite map_app. cbn. apply NoDup_app. split; [done|]. split; [|apply NoDup_singleton].
    intros x Hx Hx2. apply list_elem_of_singleton in Hx2 as ->.
    apply find_order_None in Hf. by apply Hf, list_elem_of_In.
  - apply Forall_app. split; [done|]. by constructor; [|constructor].
  - intros j. cbn. rewrite find_order_app. unfold find_order at 2. cbn.
    destruct (Z.eq_dec id j) as [<-|Hne].
    + by rewrite lookup_insert_eq, Hf, Z.eqb_refl.
    + rewrite lookup_insert_ne by done. rewrite Ho, (proj2 (Z.eqb_neq id j)) by done.
      by destruct (find_order j l).
  - intros k. cbn. unfold bentry. rewrite bget_insert, Hl, queue_of_default.
    unfold queue_of. rewrite at_level_app, map_app, at_level_one.
    change (q_key (mkQOrder id side price size)) with (L3Book.level_key side price).
    destruct (keqb k (L3Book.level_key side price)) eqn:E.
    + apply keqb_eq in E as ->. rewrite keqb_refl. by destruct (map q_id (at_level _ l)).
    + rewrite (proj2 (keqb_neq _ k)) by (apply keqb_neq in E; congruence). cbn. by rewrite app_nil_r.
Qed.

Lemma rep_cancel b l id : l3_rep b l -> l3_rep (L3Book.cancel b id).1 (drop_order id l).
Proof.
  intros [Hn Hs Ho Hl]. unfold L3Book.cancel. rewrite Ho.
  assert (Hn' : NoDup (map q_id (drop_order id l)))
    by (rewrite filter_ids_drop; by apply NoDup_filter_list).
  assert (Hs' : Forall (fun o => 0 < q_size o <= i64_max) (drop_order id l)).
  { apply List.Forall_forall. intros o [Hin _]%filter_In. rewrite List.Forall_forall in Hs. auto. }
  destruct (find_order id l) as [o|] eqn:E; cbn [fmap option_fmap option_map].
  - apply find_order_Some in E as [Hin <-].
    assert (Hother : forall k, k <> q_key o ->
      map q_id (at_level k (drop_order (q_id o) l)) = map q_id (at_level k l)).
    { intros k Hk. apply drop_other_level. intros o' Ho' Hid Hkey.
      pose proof (find_order_In l o' Hn Ho') as F1. rewrite Hid, (find_order_In l o Hn Hin) in F1.
      injection F1 as ->. congruence. }
    cbn [r_side r_price resting_of]. fold (q_key o). rewrite Hl. unfold queue_of.
    assert (Hq : map q_id (at_level (q_key o) l) <> []).
    { intros Hnil. apply map_eq_nil in Hnil. assert (In o (at_level (q_key o) l)) as Hi.
      { apply filter_In. by rewrite keqb_refl. } by rewrite Hnil in Hi. }
    destruct (map q_id (at_level (q_key o) l)) as [|i q] eqn:Eq; [done|]. rewrite <- Eq in *.
    rewrite <- filter_ids_drop, <- at_level_drop.
    destruct (map q_id (at_level (q_key o) (drop_order (q_id o) l))) as [|i' q'] eqn:Eq';
      cbn [fst]; split; cbn -[bremove binsert bget]; try done;
      try (intros j; rewrite find_order_drop;
        destruct (Z.eq_dec (q_id o) j) as [<-|Hne];
          [by rewrite lookup_delete_eq, Z.eqb_refl
          |rewrite lookup_delete_ne, Ho, (proj2 (Z.eqb_neq j _)) by lia; done]).
    + intros k. unfold queue_of. destruct (keqb k (q_key o)) eqn:Ek.
      * apply keqb_eq in Ek as ->. by rewrite bget_remove_eq, Eq'.
      * apply keqb_neq in Ek. rewrite bget_remove_ne, Hl by done. unfold queue_of. by rewrite Hother.
    + intros k. rewrite bget_insert. unfold queue_of. destruct (keqb k (q_key o)) eqn:Ek.
      * apply keqb_eq in Ek as ->. by rewrite Eq'.
      * apply keqb_neq in Ek. rewrite Hl. unfold queue_of. by rewrite Hother.
  - assert (drop_order id l = l) as ->; [|by split].
    apply find_order_None in E. clear -E. unfold drop_order.
    induction l as [|o l IH]; cbn; [done|]. cbn in E.
    rewrite (proj2 (Z.eqb_neq _ _)) by tauto. cbn. f_equal. tauto.
Qed.

Lemma rep_resize b l id o s :
  l3_rep b l -> find_order id l = Some o -> 0 < s <= i64_max ->
  l3_rep (b <| l3_orders := <[id := resting_of o <| r_size := s |>]> (l3_orders b) |>)
    (resize_order id s l).
Proof.
  intros [Hn Hs Ho Hl] Hf Hsz. split; cbn.
  - by rewrite resize_order_ids.
  - apply Forall_map. eapply Forall_impl; [exact Hs|]. intros x Hx.
    by destruct (q_id x =? id).
  - intros j. rewrite find_order_resize. destruct (Z.eq_dec id j) as [<-|Hne].
    + by rewrite lookup_insert_eq, Hf, Z.eqb_refl.
    + rewrite lookup_insert_ne, Ho by done. rewrite (proj2 (Z.eqb_neq j id)) by lia.
      by destruct (find_order j l).
  - intros k. rewrite Hl. unfold queue_of. by rewrite at_level_ids_resize.
Qed.

(** Overwriting an order and then removing it is removing it. *)
Lemma cancel_overwritten b l id o s :
  l3_rep b l -> find_order id l = Some o ->
  L3Book.cancel (b <| l3_orders := <[id := resting_of o <| r_size := s |>]> (l3_orders b) |>) id =
  ((L3Book.cancel b id).1, s).
Proof.
  intros [_ _ Ho _] Hf. unfold L3Book.cancel. cbn. rewrite lookup_insert_eq, Ho, Hf. cbn.
  rewrite delete_insert_eq. f_equal.
Qed.

Lemma rep_execute b l id size :
  l3_rep b l -> 0 <= size <= i64_max ->
  exists l', queue_apply l (Execute id size) = Some l' /\ l3_rep (L3Book.execute b id size).1 l'.
Proof.
  intros Hr Hsz. unfold L3Book.execute. cbn [queue_apply]. rewrite (rep_orders _ _ Hr).
  destruct (find_order id l) as [o|] eqn:Ef; cbn [fmap option_fmap option_map]; [|eauto].
  assert (0 < q_size o <= i64_max) as Hq.
  { apply find_order_Some in Ef as [Hin _]. destruct Hr as [_ Hs _ _].
    rewrite List.Forall_forall in Hs. auto. }
  cbn [r_size resting_of]. unfold sub64, is_positive. rewrite wrap64_id by (widths; lia). cbn [r_size setter].
  destruct (q_size o <=? size) eqn:E; bool_prop.
  - rewrite (proj2 (Z.ltb_ge 0 _)) by lia. cbn [negb]. eexists; split; [done|].
    rewrite (cancel_overwritten b l id o _ Hr Ef). cbn [fst]. by apply rep_cancel.
  - rewrite (proj2 (Z.ltb_lt 0 _)) by lia. cbn [negb]. eexists; split; [done|].
    replace (q_size o - Z.min size (q_size o)) with (q_size o - size) by lia.
    apply rep_resize; [done..|lia].
Qed.

Lemma rep_reduce b l id n :
  l3_rep b l ->
  match queue_apply l (Reduce id n) with
  | Some l' => exists b', L3Book.reduce b id n = Ok b' /\ l3_rep b' l'
  | None => exists e, L3Book.reduce b id n = Err e
  end.
Proof.
  intros Hr. unfold L3Book.reduce. cbn [queue_apply]. rewrite (rep_orders _ _ Hr).
  destruct (find_order id l) as [o|] eqn:Ef; cbn [fmap option_fmap option_map]; [|eauto].
  assert (0 < q_size o <= i64_max) as Hq.
  { apply find_order_Some in Ef as [Hin _]. destruct Hr as [_ Hs _ _].
    rewrite List.Forall_forall in Hs. auto. }
  cbn [r_size resting_of]. destruct (q_size o <? n) eqn:E; bool_prop; [eauto|].
  unfold is_positive. destruct (n <=? 0) eqn:En; bool_prop.
  - rewrite (proj2 (Z.ltb_ge 0 n)) by lia. cbn [negb]. eexists; split; [done|]. by apply rep_cancel.
  - rewrite (proj2 (Z.ltb_lt 0 n)) by lia. cbn [negb]. eexists; split; [done|].
    apply rep_resize; [done..|lia].
Qed.

Lemma rep_apply b l m :
  l3_rep b l -> msg_fits m ->
  match queue_apply l m with
  | Some l' => exists b', L3Book.apply b m = Ok b' /\ l3_rep b' l'
  | None => exists e, L3Book.apply b m = Err e
  end.
Proof.
  intros Hr Hm. destruct m as [id side price size|id|id size|id n]; cbn in Hm.
  - cbn. destruct (find_order id l) as [o|] eqn:Ef.
    + unfold L3Book.add. rewrite (rep_orders _ _ Hr), Ef. cbn.
      destruct (negb (is_positive size)); eauto.
    + destruct (0 <? size) eqn:E; bool_prop.
      * by apply rep_add.
      * unfold L3Book.add, is_positive. rewrite (proj2 (Z.ltb_ge 0 size)) by done. eauto.
  - eexists; split; [done|]. by apply rep_cancel.
  - destruct (rep_execute b l id size Hr Hm) as (l' & -> & Hr'). eexists; split; [done|done].
  - by apply rep_reduce.
Qed.

(** *** Queue position *)

Lemma at_level_In_orders b l k o :
  l3_rep b l -> In o (at_level k l) -> l3_orders b !! q_id o = Some (resting_of o).
Proof.
  intros Hr [Hin _]%filter_In. rewrite (rep_orders _ _ Hr).
  by rewrite (find_order_In l o (rep_ids _ _ Hr) Hin).
Qed.

Lemma ahead_loop_spec orders id q : forall acc,
  Forall (fun o => orders !! q_id o = Some (resting_of o)) q -> In id (map q_id q) ->
  L3Book.ahead_loop orders id (map q_id q) (wrap64 acc) =
  Some (wrap64 (acc + zsum (map q_size (before id q)))).
Proof.
  induction q as [|o q IH]; intros acc Hq Hin; [done|]. cbn [map L3Book.ahead_loop before].
  apply Forall_cons in Hq as [Ho Hq]. destruct (q_id o =? id) eqn:E; bool_prop.
  - cbn. do 2 f_equal. lia.
  - rewrite Ho. cbn [r_size resting_of map]. rewrite zsum_cons.
    rewrite add64_wrap_l, IH; [do 2 f_equal; lia|done|].
    cbn in Hin. destruct Hin; [lia|done].
Qed.

(** ** Properties *)

(** C14 The order-by-order book is the list of resting orders in arrival order: after
    any feed, message by message, it accepts and refuses exactly what the list does,
    and its two maps (orders by id, ids by price level) represent exactly that list. *)
Theorem l3_refines_arrival_order ms : forall b l,
  l3_rep b l -> Forall msg_fits ms ->
  match foldr_res (fun l m => ok_or (queue_apply l m) tt) l ms with
  | Ok l' => exists b', foldr_res L3Book.apply b ms = Ok b' /\ l3_rep b' l'
  | Err _ => exists e, foldr_res L3Book.apply b ms = Err e
  end.
Proof.
  induction ms as [|m ms IH]; intros b l Hr Hms; cbn [foldr_res]; [eauto|].
  apply Forall_cons in Hms as [Hm Hms]. pose proof (rep_apply b l m Hr Hm) as Hs.
  destruct (queue_apply l m) as [l'|]; cbn [ok_or].
  - destruct Hs as (b' & -> & Hr'). by apply IH.
  - destruct Hs as [e ->]. eauto.
Qed.

Definition demo_mbo : list MboMessage :=
  [Add 1 Buy 50 10; Add 2 Buy 50 20; Add 3 Buy 49 5; Add 4 Buy 50 7;
   Execute 1 4; Cancel 2; Reduce 4 6].

Example l3_refines_arrival_order_witness :
  exists b', foldr_res L3Book.apply L3Book.new demo_mbo = Ok b' /\
    l3_rep b' [mkQOrder 1 Buy 50 6; mkQOrder 3 Buy 49 5; mkQOrder 4 Buy 50 6].
Proof.
  pose proof (l3_refines_arrival_order demo_mbo L3Book.new [] rep_new) as H.
  assert (Hf : Forall msg_fits demo_mbo) by (repeat constructor; cbn; widths; lia).
  exact (H Hf).
Defined.

(** The size ahead of a resting order is exactly the size of the orders that
    arrived before it at its price and side and are still resting, and the size at a
    level is the size of everything resting there. *)
Theorem l3_queue_position b l :
  l3_rep b l ->
  (forall id, L3Book.size_ahead_of b id =
    match find_order id l with
    | None => None
    | Some o => Some (wrap64 (zsum (map q_size (before id (at_level (q_key o) l)))))
    end) /\
  (forall side price, L3Book.size_at b side price =
    wrap64 (zsum (map q_size (at_level (L3Book.level_key side price) l)))).
Proof.
  intros Hr. split.
  - intros id. unfold L3Book.size_ahead_of. rewrite (rep_orders _ _ Hr).
    destruct (find_order id l) as [o|] eqn:Ef; cbn; [|done]. fold (q_key o).
    apply find_order_Some in Ef as [Hin <-]. rewrite (rep_levels _ _ Hr).
    assert (In o (at_level (q_key o) l)) as Hi by (apply filter_In; by rewrite keqb_refl).
    apply (in_map q_id) in Hi. unfold queue_of.
    destruct (map q_id (at_level (q_key o) l)) as [|i q] eqn:Eq; [done|]. rewrite <- Eq in *. cbn.
    replace 0 with (wrap64 0) by done. rewrite ahead_loop_spec; [by rewrite Z.add_0_l| |done].
    apply List.Forall_forall. intros o' Ho'. by eapply at_level_In_orders.
  - intros side price. unfold L3Book.size_at. rewrite (rep_levels _ _ Hr). unfold queue_of.
    set (k := L3Book.level_key side price).
    assert (Hmap : map (fun id => match l3_orders b !! id with Some o => r_size o | None => 0 end)
      (map q_id (at_level k l)) = map q_size (at_level k l)).
    { rewrite map_map. apply map_ext_in. intros o Ho. by rewrite (at_level_In_orders b l k o Hr Ho). }
    destruct (map q_id (at_level k l)) as [|i q] eqn:Eq; rewrite <- Hmap.
    + done.
    + rewrite sum64_wrap. done.
Qed.

Example l3_queue_position_witness :
  exists b', foldr_res L3Book.apply L3Book.new demo_mbo = Ok b' /\
    L3Book.size_ahead_of b' 4 = Some 6 /\ L3Book.size_at b' Buy 50 = 12.
Proof.
  destruct (foldr_res L3Book.apply L3Book.new demo_mbo) as [b'|] eqn:E; [|vm_compute in E; discriminate].
  exists b'. split; [reflexivity|].
  destruct (rep_apply L3Book.new [] (Add 1 Buy 50 10) rep_new ltac:(cbn; widths; lia)) as (b1 & E1 & R1).
  destruct (rep_apply _ _ (Add 2 Buy 50 20) R1 ltac:(cbn; widths; lia)) as (b2 & E2 & R2).
  destruct (rep_apply _ _ (Add 3 Buy 49 5) R2 ltac:(cbn; widths; lia)) as (b3 & E3 & R3).
  destruct (rep_apply _ _ (Add 4 Buy 50 7) R3 ltac:(cbn; widths; lia)) as (b4 & E4 & R4).
  destruct (rep_apply _ _ (Execute 1 4) R4 ltac:(cbn; widths; lia)) as (b5 & E5 & R5).
  destruct (rep_apply _ _ (Cancel 2) R5 ltac:(done)) as (b6 & E6 & R6).
  destruct (rep_apply _ _ (Reduce 4 6) R6 ltac:(done)) as (b7 & E7 & R7).
  destruct (l3_queue_position b7 _ R7) as [Ha Hat].
  cbn [foldr_res demo_mbo] in E. rewrite E1, E2, E3, E4, E5, E6, E7 in E. injection E as <-.
  split; [rewrite Ha|rewrite Hat]; vm_compute; reflexivity.
Defined.
