(* ===== verification/Position.v ===== *)
(** * Positions as a fold over fills, and the portfolio as a projection

    Models [position.rs].  [fill_moves_equity] is the accounting identity of the
    three-way case split in [Position::apply] (add, reduce, reverse), and
    [replay_is_fold] the audit property the module's documentation promises: the
    portfolio is a function of the fills, market by market. *)
From S2P Require Export Corporate Order.

Abbreviation PositionKey := (string * Z)%type (only parsing).

Record Position := mkPosition {
  p_instrument : InstrumentId;
  p_outcome : OutcomeId;
  p_quantity : Qty;
  average_price : Price;
  p_realized_pnl : Money;
  p_commissions : Money;
  fill_count : Z;
}.
#[export] Instance eta_Position : Eta Position := fun p =>
  mkPosition (p_instrument p) (p_outcome p) (p_quantity p) (average_price p)
    (p_realized_pnl p) (p_commissions p) (fill_count p).

Module Position.
Definition new (instrument : InstrumentId) (outcome : OutcomeId) : Position :=
  mkPosition instrument outcome 0 0 0 0 0.

Definition is_flat (p : Position) : bool := is_zero (p_quantity p).
Definition is_long (p : Position) : bool := is_positive (p_quantity p).
Definition is_short (p : Position) : bool := is_negative (p_quantity p).

(** Opening or adding: the weighted average of the two legs, truncated. *)
Definition averaged (p : Position) (fill : Fill) (before signed : Z) : Result Price :=
  let existing := average_price p * abs64 before in
  let incoming := f_price fill * abs64 signed in
  let total := abs64 before + abs64 signed in
  if total =? 0 then Ok 0
  else narrow (Z.quot (wrap128 (existing + incoming)) total) "Position::average_price".

Definition apply (p : Position) (fill : Fill) : Result Position :=
  let signed := mul64 (f_quantity fill) (Side.signum (f_side fill)) in
  let before := p_quantity p in
  let after := add64 before signed in
  let? p :=
    if (before =? 0) || Bool.eqb (0 <? before) (0 <? signed) then
      let? avg := averaged p fill before signed in
      Ok (p <| average_price := avg |>)
    else
      let closing := Z.min (abs64 signed) (abs64 before) in
      let direction := if 0 <? before then 1 else -1 in
      let per_unit := mul64 (sub64 (f_price fill) (average_price p)) direction in
      let? realized := notional per_unit closing in
      let? total := checked_add "Money" (p_realized_pnl p) realized in
      let p := p <| p_realized_pnl := total |> in
      if after =? 0 then Ok (p <| average_price := 0 |>)
      else if negb (Bool.eqb (0 <? after) (0 <? before)) then
        Ok (p <| average_price := f_price fill |>)
      else Ok p in
  let p := p <| p_quantity := after |> in
  let? commissions := checked_add "Money" (p_commissions p) (f_commission fill) in
  let? realized := checked_sub "Money" (p_realized_pnl p) (f_commission fill) in
  Ok (p <| p_commissions := commissions |> <| p_realized_pnl := realized |>
        <| fill_count := fill_count p + 1 |>).

Definition apply_split (p : Position) (ratio : Price) : Result Position :=
  if is_flat p then Ok p
  else
    let? ' (quantity, basis) :=
      CorporateAction.split_position ratio (p_quantity p) (average_price p) in
    Ok (p <| p_quantity := quantity |> <| average_price := basis |>).

Definition unrealized_pnl (p : Position) (mark : Price) : Result Money :=
  if is_flat p then Ok 0 else notional (sub64 mark (average_price p)) (p_quantity p).

Definition exposure (p : Position) (mark : Price) : Result Money := notional mark (p_quantity p).
End Position.

Record Portfolio := mkPortfolio {
  pf_positions : BTree PositionKey Position;
  marks : BTree PositionKey Price;
}.
#[export] Instance eta_Portfolio : Eta Portfolio := fun p => mkPortfolio (pf_positions p) (marks p).

Module Portfolio.
Definition new : Portfolio := mkPortfolio [] [].

Definition apply (pf : Portfolio) (fill : Fill) : Result Portfolio :=
  let key := (f_instrument fill, f_outcome fill) in
  let position :=
    default (Position.new (f_instrument fill) (f_outcome fill)) (bget key (pf_positions pf)) in
  let? position := Position.apply position fill in
  Ok (pf <| pf_positions := binsert key position (pf_positions pf) |>).

Definition replay (fills : list Fill) : Result Portfolio := foldr_res apply new fills.

Definition apply_split (pf : Portfolio) (instrument : InstrumentId) (ratio : Price)
  : Result Portfolio :=
  let? ps :=
    map_res (fun e : PositionKey * Position =>
      if String.eqb (p_instrument e.2) instrument then
        let? p := Position.apply_split e.2 ratio in Ok (e.1, p)
      else Ok e) (pf_positions pf) in
  Ok (pf <| pf_positions := ps |>).

Definition dividend_due (pf : Portfolio) (instrument : InstrumentId) (per_share : Money)
  : Result Money :=
  foldr_res (fun total p =>
    if negb (String.eqb (p_instrument p) instrument) || Position.is_flat p then Ok total
    else
      let? due := notional per_share (p_quantity p) in
      checked_add "Money" total due) 0 (bvalues (pf_positions pf)).

Definition mark (pf : Portfolio) (instrument : InstrumentId) (outcome : OutcomeId) (price : Price)
  : Portfolio := pf <| marks := binsert (instrument, outcome) price (marks pf) |>.

Definition position (pf : Portfolio) (instrument : InstrumentId) (outcome : OutcomeId)
  : option Position := bget (instrument, outcome) (pf_positions pf).

Definition positions (pf : Portfolio) : list Position := bvalues (pf_positions pf).
Definition open_positions (pf : Portfolio) : list Position :=
  List.filter (fun p => negb (Position.is_flat p)) (positions pf).

Definition realized_pnl (pf : Portfolio) : Result Money :=
  foldr_res (fun total p => checked_add "Money" total (p_realized_pnl p)) 0 (positions pf).
Definition commissions (pf : Portfolio) : Result Money :=
  foldr_res (fun total p => checked_add "Money" total (p_commissions p)) 0 (positions pf).

Definition mark_of (pf : Portfolio) (p : Position) : option Price :=
  bget (p_instrument p, p_outcome p) (marks pf).

Definition unrealized_pnl (pf : Portfolio) : Result Money :=
  foldr_res (fun total p =>
    match mark_of pf p with
    | Some m => let? u := Position.unrealized_pnl p m in checked_add "Money" total u
    | None => Ok total
    end) 0 (positions pf).

Definition unmarked (pf : Portfolio) : list Position :=
  List.filter (fun p =>
    negb (Position.is_flat p) && match mark_of pf p with Some _ => false | None => true end)
    (positions pf).

Definition gross_exposure (pf : Portfolio) : Result Money :=
  foldr_res (fun total p =>
    match mark_of pf p with
    | Some m => let? e := Position.exposure p m in checked_add "Money" total (fabs e)
    | None => Ok total
    end) 0 (positions pf).
End Portfolio.

(** ** Invariants and specifications *)

(** A quantity whose magnitude fits, held at a price. *)
Definition position_wf (p : Position) : Prop :=
  - i64_max <= p_quantity p <= i64_max /\ 0 <= average_price p <= i64_max.
Definition fill_fits (f : Fill) : Prop :=
  0 <= f_quantity f <= i64_max /\ 0 <= f_price f <= i64_max.

(** The signed size of a fill. *)
Definition signed_quantity (f : Fill) : Z := f_quantity f * Side.signum (f_side f).

(** Equity of a position at a mark, in units of [10^-18]: realised profit plus the
    open quantity's gain over its basis. *)
Definition equity_at (p : Position) (m : Price) : Z :=
  SCALE * p_realized_pnl p + p_quantity p * (m - average_price p).

(** ** Lemmas *)

(** Weighted averaging: the truncated quotient times the weight is the sum, less a
    remainder below the weight. *)
Lemma averaged_spec p f b s avg :
  position_wf p -> 0 <= f_price f <= i64_max ->
  - i64_max <= b <= i64_max -> - i64_max <= s <= i64_max -> 0 < Z.abs b + Z.abs s ->
  Position.averaged p f b s = Ok avg ->
  exists r, 0 <= r < Z.abs b + Z.abs s /\
    avg * (Z.abs b + Z.abs s) = average_price p * Z.abs b + f_price f * Z.abs s - r /\
    0 <= avg <= Z.max (average_price p) (f_price f).
Proof.
  intros [_ Ha] Hp Hb Hs Hpos. unfold Position.averaged, abs64.
  rewrite !wrap64_id by (widths; lia).
  rewrite (proj2 (Z.eqb_neq _ _)) by lia. rewrite wrap128_id by (widths; nia).
  set (num := average_price p * Z.abs b + f_price f * Z.abs s).
  set (den := Z.abs b + Z.abs s) in *. rewrite Z.quot_div_nonneg by (unfold num; nia).
  intros [_ ->]%narrow_Ok. exists (num mod den).
  pose proof (Z.mod_pos_bound num den Hpos). pose proof (Z.div_mod num den).
  split; [done|]. split; [lia|]. split; [apply Z.div_pos; unfold num; nia|].
  apply Z.div_le_upper_bound; [done|]. unfold num, den. nia.
Qed.

(** The case split of [apply] on fitting inputs, branch by branch. *)
Definition adds (b s : Z) : bool := (b =? 0) || Bool.eqb (0 <? b) (0 <? s).

Lemma apply_cases p f p' :
  position_wf p -> fill_fits f -> let b := p_quantity p in let s := signed_quantity f in
  - i64_max <= b + s <= i64_max -> Position.apply p f = Ok p' ->
  p_quantity p' = b + s /\
  p_commissions p' = p_commissions p + f_commission f /\
  if adds b s then
    Position.averaged p f b s = Ok (average_price p') /\
    p_realized_pnl p' = p_realized_pnl p - f_commission f
  else
    p_realized_pnl p' =
      p_realized_pnl p +
      div_half_away ((f_price f - average_price p) * Z.sgn b * Z.min (Z.abs s) (Z.abs b)) SCALE
      - f_commission f /\
    average_price p' =
      if b + s =? 0 then 0
      else if Bool.eqb (0 <? b + s) (0 <? b) then average_price p else f_price f.
Proof.
  intros [Hb Ha] [Hq Hp]. cbv zeta. unfold Position.apply. intros Hbs.
  assert (Hs : mul64 (f_quantity f) (Side.signum (f_side f)) = signed_quantity f).
  { unfold mul64, signed_quantity. apply wrap64_id.
    destruct (f_side f); cbn [Side.signum]; widths; lia. }
  assert (- i64_max <= signed_quantity f <= i64_max) as Hsr.
  { unfold signed_quantity. destruct (f_side f); cbn [Side.signum]; lia. }
  rewrite Hs. unfold add64. rewrite (wrap64_id (_ + _)) by (widths; lia).
  fold (adds (p_quantity p) (signed_quantity f)).
  set (b := p_quantity p) in *. set (s := signed_quantity f) in *.
  destruct (adds b s) eqn:Ebr.
  - destruct (Position.averaged p f b s) as [avg|] eqn:Eavg; [|done]. cbn.
    intros Hr. res_inv_in Hr. cbn in *.
    apply checked_add_Ok in E as [_ ->]. apply checked_sub_Ok in E0 as [_ ->]. done.
  - unfold adds in Ebr. apply orb_false_iff in Ebr as [Ebr1 Ebr2].
    assert (b <> 0) by (bool_prop; lia).
    assert (mul64 (sub64 (f_price f) (average_price p)) (if 0 <? b then 1 else -1) =
            (f_price f - average_price p) * Z.sgn b) as ->.
    { unfold sub64, mul64. rewrite (wrap64_id (_ - _)) by (widths; lia).
      destruct (0 <? b) eqn:Eb; bool_prop; [rewrite Z.sgn_pos by lia|rewrite Z.sgn_neg by lia];
        apply wrap64_id; widths; lia. }
    unfold abs64. rewrite !wrap64_id by (widths; lia).
    set (gain := (f_price f - average_price p) * Z.sgn b).
    destruct (notional gain (Z.min (Z.abs s) (Z.abs b))) as [rz|] eqn:En; [|done].
    apply notional_Ok in En as [_ ->]. fold b.
    destruct (checked_add "Money" (p_realized_pnl p) _) as [tot|] eqn:Et; [|done].
    apply checked_add_Ok in Et as [_ ->]. cbn.
    destruct (b + s =? 0) eqn:E0; [|destruct (Bool.eqb (0 <? b + s) (0 <? b)) eqn:E1]; cbn;
      intros Hr; res_inv_in Hr; cbn in *;
      match goal with H : checked_add _ _ _ = Ok _ |- _ => apply checked_add_Ok in H as [_ ->] end;
      match goal with H : checked_sub _ _ _ = Ok _ |- _ => apply checked_sub_Ok in H as [_ ->] end;
      done.
Qed.

(** The identity of each branch, over exact integers. *)
Lemma add_identity b s p avg avg' r m :
  adds b s = true -> avg' * (Z.abs b + Z.abs s) = avg * Z.abs b + p * Z.abs s - r ->
  exists e, Z.abs e = Z.abs r /\ (b + s) * (m - avg') = b * (m - avg) + s * (m - p) + e.
Proof.
  intros Ha Havg. unfold adds in Ha.
  assert ((0 <= b /\ 0 <= s) \/ (b <= 0 /\ s <= 0)) as [[Hb Hs]|[Hb Hs]].
  { destruct (0 <? b) eqn:E1, (0 <? s) eqn:E2, (b =? 0) eqn:E3; bool_prop; cbn in Ha; try done; lia. }
  - exists r. rewrite !Z.abs_eq in Havg by lia. split; [done|]. nia.
  - exists (- r). rewrite !Z.abs_neq in Havg by lia. split; [lia|]. nia.
Qed.

Lemma reduce_identity b s p avg m :
  adds b s = false -> let avg' := if b + s =? 0 then 0
    else if Bool.eqb (0 <? b + s) (0 <? b) then avg else p in
  (b + s) * (m - avg') + (p - avg) * Z.sgn b * Z.min (Z.abs s) (Z.abs b) =
  b * (m - avg) + s * (m - p).
Proof.
  intros Ha. cbv zeta. unfold adds in Ha. apply orb_false_iff in Ha as [Hb Hs]. bool_prop.
  destruct (0 <? b) eqn:E1, (0 <? s) eqn:E2; cbn in Hs; try done; bool_prop.
  - rewrite Z.sgn_pos, (Z.abs_eq b), (Z.abs_neq s) by lia.
    destruct (b + s =? 0) eqn:E3; bool_prop.
    + replace s with (- b) by lia. rewrite Z.min_r by lia. ring.
    + destruct (0 <? b + s) eqn:E4; cbn; bool_prop.
      * rewrite Z.min_l by lia. ring.
      * rewrite Z.min_r by lia. ring.
  - assert (b < 0) by lia. rewrite Z.sgn_neg, (Z.abs_neq b), (Z.abs_eq s) by lia.
    destruct (b + s =? 0) eqn:E3; bool_prop.
    + replace s with (- b) by lia. rewrite Z.min_r by lia. ring.
    + destruct (0 <? b + s) eqn:E4; cbn; bool_prop.
      * rewrite Z.min_r by lia. ring.
      * rewrite Z.min_l by lia. ring.
Qed.

(** Portfolio lookups after one fill. *)
Lemma portfolio_apply_get pf f pf' key :
  Portfolio.apply pf f = Ok pf' ->
  marks pf' = marks pf /\
  exists pos, Position.apply (default (Position.new (f_instrument f) (f_outcome f))
                (bget (f_instrument f, f_outcome f) (pf_positions pf))) f = Ok pos /\
    bget key (pf_positions pf') =
    if keqb key (f_instrument f, f_outcome f) then Some pos else bget key (pf_positions pf).
Proof.
  unfold Portfolio.apply. destruct (Position.apply _ f) as [pos|] eqn:E; [|done].
  intros [= <-]. split; [done|]. exists pos. split; [done|]. cbn. by rewrite bget_insert.
Qed.

Lemma portfolio_apply_bwf pf f pf' :
  bwf (pf_positions pf) -> Portfolio.apply pf f = Ok pf' -> bwf (pf_positions pf').
Proof.
  intros Hw. unfold Portfolio.apply. destruct (Position.apply _ f) as [pos|]; [|done].
  intros [= <-]. cbn. auto with h5i.
Qed.

(** The fills of one market. *)
Definition fills_of (key : PositionKey) (fills : list Fill) : list Fill :=
  List.filter (fun f => keqb key (f_instrument f, f_outcome f)) fills.

Lemma replay_from_is_fold fills : forall pf pf' key,
  foldr_res Portfolio.apply pf fills = Ok pf' ->
  marks pf' = marks pf /\
  match fills_of key fills with
  | [] => bget key (pf_positions pf') = bget key (pf_positions pf)
  | fs => exists pos, bget key (pf_positions pf') = Some pos /\
      foldr_res Position.apply (default (Position.new key.1 key.2) (bget key (pf_positions pf))) fs = Ok pos
  end.
Proof.
  induction fills as [|f fills IH]; intros pf pf' key H; cbn in H; [by injection H as <-|].
  destruct (Portfolio.apply pf f) as [pf1|] eqn:E; [|done].
  destruct (portfolio_apply_get pf f pf1 key E) as (Hm & pos & Hpos & Hget).
  destruct (IH pf1 pf' key H) as [Hm' HI]. split; [congruence|]. unfold fills_of in *. cbn [List.filter].
  destruct (keqb key (f_instrument f, f_outcome f)) eqn:Ek.
  - apply keqb_eq in Ek as ->. cbn [foldr_res fst snd]. rewrite Hpos. rewrite Hget in HI. cbn [default] in HI.
    destruct (List.filter _ fills) as [|f2 fs]; [exists pos; done|].
    destruct HI as (pos' & ? & ?). exists pos'. done.
  - rewrite Hget in HI. done.
Qed.

(** ** Properties *)

(** C12 A fill moves equity by its edge and nothing else.  For any mark, equity after
    the fill is equity before, plus the filled quantity's gain over the fill price,
    less the commission, to within rounding: half a raw unit of money when the fill
    reduces, closes or reverses the position, less than one raw unit of price per unit
    held when it opens or adds.  Quantity and commissions are exact. *)
Theorem fill_moves_equity p f p' :
  position_wf p -> fill_fits f ->
  let b := p_quantity p in let s := signed_quantity f in
  - i64_max <= b + s <= i64_max -> Position.apply p f = Ok p' ->
  p_quantity p' = b + s /\ p_commissions p' = p_commissions p + f_commission f /\
  position_wf p' /\
  forall m, exists e,
    equity_at p' m = equity_at p m + s * (m - f_price f) - SCALE * f_commission f + e /\
    if adds b s then Z.abs e <= Z.max 0 (Z.abs b + Z.abs s - 1) else 2 * Z.abs e <= SCALE.
Proof.
  intros Hw Hf b s Hbs Ha. pose proof Hw as [Hb Havg]. pose proof Hf as [Hq Hp].
  destruct (apply_cases p f p' Hw Hf Hbs Ha) as (Hq' & Hc & Hbr). fold b s in Hq', Hbr.
  assert (- i64_max <= s <= i64_max) as Hs.
  { unfold s, signed_quantity. destruct (f_side f); cbn [Side.signum]; lia. }
  split; [done|]. split; [done|]. unfold position_wf, equity_at. fold b. rewrite Hq'.
  destruct (adds b s) eqn:E; destruct Hbr as [H1 H2].
  - destruct (Z.eq_dec (Z.abs b + Z.abs s) 0) as [H0|H0].
    + assert (b = 0) as Hb0 by lia. assert (s = 0) as Hs0 by lia.
      rewrite Hb0, Hs0 in H1. cbn in H1. injection H1 as H1. rewrite <- H1.
      split; [widths; lia|]. intros m. exists 0. rewrite H2, Hb0, Hs0. split; lia.
    + destruct (averaged_spec p f b s (average_price p') Hw Hp Hb Hs) as (r & Hr & Heq & Hrange);
        [lia|done|].
      split; [lia|]. intros m. destruct (add_identity _ _ _ _ _ _ m E Heq) as (e & He & Hid).
      exists e. rewrite Hid, H2. split; [ring|lia].
  - split.
    { split; [done|]. rewrite H2. destruct (b + s =? 0); [widths; lia|].
      destruct (Bool.eqb _ _); lia. }
    intros m. set (gain := (f_price f - average_price p) * Z.sgn b * _) in *.
    exists (SCALE * div_half_away gain SCALE - gain).
    rewrite H1, H2. pose proof (reduce_identity b s (f_price f) (average_price p) m E) as Hid.
    cbv zeta in Hid. fold gain in Hid. split; [|by apply div_half_away_nearest].
    set (avg' := if b + s =? 0 then 0 else _) in *. lia.
Qed.

Definition demo_position : Position := mkPosition "A" 0 (10 * SCALE) (50 * SCALE) 7 3 1.
Definition demo_fill : Fill := mkFill 1 "A" 0 Sell (60 * SCALE) (15 * SCALE) 5 true 9 None.

Example fill_moves_equity_witness :
  exists p', Position.apply demo_position demo_fill = Ok p' /\
    p_quantity p' = - (5 * SCALE) /\ average_price p' = 60 * SCALE /\
    p_realized_pnl p' = 7 + 100 * SCALE - 5 /\ position_wf p'.
Proof.
  destruct (Position.apply demo_position demo_fill) as [p'|] eqn:E; [|vm_compute in E; discriminate].
  exists p'. split; [reflexivity|].
  destruct (fill_moves_equity demo_position demo_fill p') as (Hq & _ & Hw & _);
    [unfold position_wf, demo_position, SCALE; cbn; widths; lia
    |unfold fill_fits, demo_fill, SCALE; cbn; widths; lia
    |vm_compute; split; discriminate|exact E|].
  split; [exact Hq|]. vm_compute in E. injection E as <-. split; [reflexivity|].
  split; [reflexivity|exact Hw].
Defined.

(** A portfolio is auditable from its fills: replaying a history gives, for every
    market, exactly the fold of that market's fills over an empty position, and no
    position for a market without fills; fills of other markets have no influence. *)
Theorem replay_is_fold fills pf key :
  Portfolio.replay fills = Ok pf ->
  match fills_of key fills with
  | [] => Portfolio.position pf key.1 key.2 = None
  | fs => exists pos, Portfolio.position pf key.1 key.2 = Some pos /\
      foldr_res Position.apply (Position.new key.1 key.2) fs = Ok pos
  end.
Proof.
  intros H. destruct (replay_from_is_fold fills Portfolio.new pf key H) as [_ HI].
  unfold Portfolio.position. rewrite <- surjective_pairing. exact HI.
Qed.

Definition demo_fills : list Fill :=
  [mkFill 1 "A" 0 Buy (50 * SCALE) (10 * SCALE) 3 true 1 None;
   mkFill 2 "B" 1 Sell (40 * SCALE) (2 * SCALE) 1 true 2 None;
   demo_fill].

Example replay_is_fold_witness :
  exists pf pos, Portfolio.replay demo_fills = Ok pf /\
    Portfolio.position pf "B" 1 = Some pos /\ p_quantity pos = - (2 * SCALE) /\
    Portfolio.position pf "C" 0 = None.
Proof.
  destruct (Portfolio.replay demo_fills) as [pf|] eqn:E; [|vm_compute in E; discriminate].
  pose proof (replay_is_fold demo_fills pf ("B", 1) E) as HB. vm_compute fills_of in HB.
  destruct HB as (pos & Hpos & Hfold).
  exists pf, pos. split; [reflexivity|]. split; [exact Hpos|]. split.
  - vm_compute in Hfold. injection Hfold as <-. reflexivity.
  - exact (replay_is_fold demo_fills pf ("C", 0) E).
Defined.
