(* ===== verification/Models.v ===== *)
(** * Fee, latency and fill models

    Models [models.rs].  The three traits a venue is built from are type classes; a
    fee model's interior state (the mutex-guarded accumulators) is threaded through
    [commission].  Rates are the fixed-point values the [f64] constructors produce.
    The theorems: Kalshi charges move cash in whole cents and never keep a cent of
    rounding, the tiered schedule prices at the tier of the true trailing volume, the
    prediction-market curve has its shape, and slippage shifts the taker's side of
    the book and nothing else. *)
From S2P Require Export Book Order.

(** ** Fee models *)

Record FeeContext := mkFeeContext {
  fc_order_id : OrderId;
  fc_instrument : Instrument;
  fc_side : Side;
  fc_price : Price;
  fc_quantity : Qty;
  fc_is_taker : bool;
  fc_ts : UnixNanos;
}.

Class FeeModel (F : Type) := {
  commission : F -> FeeContext -> Result (F * Money);
  order_closed : F -> OrderId -> F;
}.

Inductive NoFees := mkNoFees.
#[export] Instance feemodel_NoFees : FeeModel NoFees := {
  commission f _ := Ok (f, 0);
  order_closed f _ := f;
}.

Record ProportionalFees := mkProportionalFees { maker : Price; taker : Price }.

Module ProportionalFees.
Definition commission (f : ProportionalFees) (ctx : FeeContext) : Result Money :=
  let rate := if fc_is_taker ctx then taker f else maker f in
  let? gross := notional (fc_price ctx) (fc_quantity ctx) in
  notional rate gross.
End ProportionalFees.

#[export] Instance feemodel_ProportionalFees : FeeModel ProportionalFees := {
  commission f ctx := let? c := ProportionalFees.commission f ctx in Ok (f, c);
  order_closed f _ := f;
}.

Record PredictionMarketFees := mkPredictionMarketFees { pm_rate : Price; maker_rebate : Price }.

Module PredictionMarketFees.
(** [rate * qty * p * (1 - p)]. *)
Definition curve (f : PredictionMarketFees) (price : Price) (quantity : Qty) : Result Money :=
  let? c := complement price in
  let? pq := notional price c in
  let? scaled := notional pq quantity in
  notional (pm_rate f) scaled.

Definition commission (f : PredictionMarketFees) (ctx : FeeContext) : Result Money :=
  let? fee := curve f (fc_price ctx) (fc_quantity ctx) in
  if fc_is_taker ctx then Ok fee
  else if is_zero (maker_rebate f) then Ok 0
  else
    let? rebate := notional (maker_rebate f) fee in
    Ok (neg64 rebate).
End PredictionMarketFees.

#[export] Instance feemodel_PredictionMarketFees : FeeModel PredictionMarketFees := {
  commission f ctx := let? c := PredictionMarketFees.commission f ctx in Ok (f, c);
  order_closed f _ := f;
}.

(** [rounding]: what each open order has overpaid in rounding, below a cent. *)
Record KalshiFees := mkKalshiFees {
  taker_rate : Price;
  maker_rate : option Price;
  rounding : BTree OrderId Raw;
}.
#[export] Instance eta_KalshiFees : Eta KalshiFees := fun f =>
  mkKalshiFees (taker_rate f) (maker_rate f) (rounding f).

Module KalshiFees.
Definition CENTICENT : Raw := 100000.
Definition CENT : Raw := 10000000.

(** The sign check of [with_maker_rate]. *)
Definition with_rates (taker_rate : Price) (maker_rate : option Price) : Result KalshiFees :=
  if (taker_rate <? 0) || match maker_rate with Some r => r <? 0 | None => false end then
    Err (invalid "Kalshi fee rates must not be negative")
  else Ok (mkKalshiFees taker_rate maker_rate []).

Definition trade_fee (rate : Price) (price : Price) (quantity : Qty) : Result Money :=
  let? c := complement price in
  let? pq := notional price c in
  let? scaled := notional pq quantity in
  let? raw := notional rate scaled in
  let? up := ok_or (checked64 (raw + (CENTICENT - 1))) (Overflow "rounding Kalshi trade fee") in
  Ok (mul64 (Z.quot up CENTICENT) CENTICENT).

Definition commission (f : KalshiFees) (ctx : FeeContext) : Result (KalshiFees * Money) :=
  let rate := if fc_is_taker ctx then Some (taker_rate f) else maker_rate f in
  let? fee :=
    match rate with
    | Some r => trade_fee r (fc_price ctx) (fc_quantity ctx)
    | None => Ok 0
    end in
  let? gross := notional (fc_price ctx) (fc_quantity ctx) in
  let revenue := match fc_side ctx with Buy => neg64 gross | Sell => gross end in
  let? after := ok_or (checked64 (revenue - fee)) (Overflow "applying Kalshi trade fee") in
  let cent_aligned := mul64 (after / CENT) CENT in
  let rounding_fee := sub64 after cent_aligned in
  let? accumulated :=
    ok_or (checked64 (default 0 (bget (fc_order_id ctx) (rounding f)) + rounding_fee))
      (Overflow "accumulating Kalshi rounding fee") in
  let rebate := mul64 (Z.quot accumulated CENT) CENT in
  let f := f <| rounding := binsert (fc_order_id ctx) (sub64 accumulated rebate) (rounding f) |> in
  Ok (f, sub64 (add64 fee rounding_fee) rebate).

Definition order_closed (f : KalshiFees) (id : OrderId) : KalshiFees :=
  f <| rounding := bremove id (rounding f) |>.
End KalshiFees.

#[export] Instance feemodel_KalshiFees : FeeModel KalshiFees := {
  commission := KalshiFees.commission;
  order_closed := KalshiFees.order_closed;
}.

Record FeeTier := mkFeeTier { volume_from : Money; tier_maker : Price; tier_taker : Price }.

(** [VolumeWindow]: the fills in the window, oldest first, and their running total. *)
Record VolumeWindow := mkVolumeWindow { entries : list (Z * Raw); vw_total : Z }.

Record TieredFees := mkTieredFees {
  tiers : list FeeTier;
  window_nanos : Z;
  traded : VolumeWindow;
}.
#[export] Instance eta_TieredFees : Eta TieredFees := fun f =>
  mkTieredFees (tiers f) (window_nanos f) (traded f).

Module TieredFees.
Fixpoint adjacent_equal (l : list Z) : bool :=
  match l with
  | a :: ((b :: _) as l') => (a =? b) || adjacent_equal l'
  | _ => false
  end.

Definition new (ts : list FeeTier) (window : Z) : Result TieredFees :=
  match ts with
  | [] => Err (invalid "a fee schedule needs at least one tier")
  | t0 :: _ =>
      if window <=? 0 then Err (invalid "a rolling fee window must be positive")
      else
        let ts := sort_by_key volume_from ts in
        if negb (is_zero (volume_from (hd t0 ts))) then
          Err (invalid "the first fee tier must start at zero volume")
        else if adjacent_equal (map volume_from ts) then
          Err (invalid "two fee tiers start at the same volume")
        else Ok (mkTieredFees ts window (mkVolumeWindow [] 0))
  end.

(** The last tier whose threshold the volume reaches; [None] is the panic of indexing
    an empty schedule, which [new] refuses. *)
Definition tier_for_raw (f : TieredFees) (volume : Z) : option FeeTier :=
  match List.find (fun t => volume_from t <=? volume) (rev (tiers f)) with
  | Some t => Some t
  | None => head (tiers f)
  end.
Definition tier_for (f : TieredFees) (volume : Money) : option FeeTier := tier_for_raw f volume.

(** The [while] loop that expires entries from the front. *)
Fixpoint expire (cutoff : Z) (entries : list (Z * Raw)) (total : Z) : VolumeWindow :=
  match entries with
  | (at_, amount) :: rest =>
      if at_ <? cutoff then expire cutoff rest (wrap128 (total - amount))
      else mkVolumeWindow entries total
  | [] => mkVolumeWindow [] total
  end.

Definition commission (f : TieredFees) (ctx : FeeContext) : Result (TieredFees * Money) :=
  let? g := notional (fc_price ctx) (fc_quantity ctx) in
  let gross := fabs g in
  let cutoff := sat64 (fc_ts ctx - window_nanos f) in
  let w := expire cutoff (entries (traded f)) (vw_total (traded f)) in
  match tier_for_raw f (vw_total w) with
  | None => Err (invalid "index out of bounds")
  | Some tier =>
      let w := mkVolumeWindow (entries w ++ [(fc_ts ctx, gross)]) (wrap128 (vw_total w + gross)) in
      let rate := if fc_is_taker ctx then tier_taker tier else tier_maker tier in
      let? c := notional rate gross in
      Ok (f <| traded := w |>, c)
  end.
End TieredFees.

#[export] Instance feemodel_TieredFees : FeeModel TieredFees := {
  commission := TieredFees.commission;
  order_closed f _ := f;
}.

(** ** Latency models *)

Class LatencyModel (L : Type) := {
  insert_nanos : L -> Z;
  cancel_nanos : L -> Z;
}.

Inductive NoLatency := mkNoLatency.
#[export] Instance latency_NoLatency : LatencyModel NoLatency := {
  insert_nanos _ := 0;
  cancel_nanos _ := 0;
}.

Record ConstantLatency := mkConstantLatency { lat_insert : Z; lat_cancel : Z }.
Module ConstantLatency.
Definition millis (insert cancel : Z) : ConstantLatency :=
  mkConstantLatency (mul64 insert 1000000) (mul64 cancel 1000000).
End ConstantLatency.
#[export] Instance latency_ConstantLatency : LatencyModel ConstantLatency := {
  insert_nanos := lat_insert;
  cancel_nanos := lat_cancel;
}.

(** ** Fill models *)

Class FillModel (M : Type) := {
  book_for_fill : M -> OrderBook -> Order -> option OrderBook;
  preserves_book_prices : M -> bool;
  passive_fills_on_trade_at_price : M -> bool;
  uses_queue_position : M -> bool;
  fills_on_unknown_aggressor : M -> bool;
}.

Inductive BookFills := mkBookFills.
#[export] Instance fillmodel_BookFills : FillModel BookFills := {
  book_for_fill _ _ _ := None;
  preserves_book_prices _ := true;
  passive_fills_on_trade_at_price _ := false;
  uses_queue_position _ := false;
  fills_on_unknown_aggressor _ := false;
}.

Record TickSlippage := mkTickSlippage { ticks : Z; slip_tick_size : Price }.

Module TickSlippage.
(** [None]: no slippage, or the [expect] on the snapshot would panic; the snapshot
    never fails. *)
Definition book_for_fill (m : TickSlippage) (book : OrderBook) (order : Order)
  : option OrderBook :=
  if ticks m =? 0 then None
  else
    let shift := mul64 (ticks m) (slip_tick_size m) in
    let '(bid_shift, ask_shift) :=
      match o_side order with Buy => (0, shift) | Sell => (neg64 shift, 0) end in
    let bs := map (fun l => (add64 l.1 bid_shift, l.2)) (OrderBook.levels book Buy) in
    let as_ := map (fun l => (add64 l.1 ask_shift, l.2)) (OrderBook.levels book Sell) in
    ok (OrderBook.apply_snapshot OrderBook.new bs as_ (default 0 (b_last_update book))).
End TickSlippage.

#[export] Instance fillmodel_TickSlippage : FillModel TickSlippage := {
  book_for_fill := TickSlippage.book_for_fill;
  preserves_book_prices _ := false;
  passive_fills_on_trade_at_price _ := false;
  uses_queue_position _ := false;
  fills_on_unknown_aggressor _ := false;
}.

Record QueuePositionFills := mkQueuePositionFills { fill_on_unknown_aggressor : bool }.
Module QueuePositionFills.
Definition new : QueuePositionFills := mkQueuePositionFills false.
Definition optimistic : QueuePositionFills := mkQueuePositionFills true.
End QueuePositionFills.

#[export] Instance fillmodel_QueuePositionFills : FillModel QueuePositionFills := {
  book_for_fill _ _ _ := None;
  preserves_book_prices _ := true;
  passive_fills_on_trade_at_price _ := false;
  uses_queue_position _ := true;
  fills_on_unknown_aggressor := fill_on_unknown_aggressor;
}.

(** ** Invariants and specifications *)

(** Every accumulator holds less than a cent. *)
Definition kalshi_wf (f : KalshiFees) : Prop :=
  bwf (rounding f) /\ Forall (fun a => 0 <= a < KalshiFees.CENT) (bvalues (rounding f)).
Definition kalshi_rates_fit (f : KalshiFees) : Prop :=
  0 <= taker_rate f <= SCALE /\
  match maker_rate f with Some r => 0 <= r <= SCALE | None => True end.
Definition probability_fill (ctx : FeeContext) : Prop :=
  0 <= fc_price ctx <= SCALE /\ 0 <= fc_quantity ctx <= 4000000000000000000.

(** What an order has overpaid so far. *)
Definition overpaid (f : KalshiFees) (id : OrderId) : Z := default 0 (bget id (rounding f)).

(** A schedule [TieredFees::new] accepts. *)
Definition tiers_wf (ts : list FeeTier) : Prop :=
  StronglySorted (fun a b => volume_from a < volume_from b) ts /\
  exists t ts', ts = t :: ts' /\ volume_from t = 0.

(** The volume of a history inside the window that ends at a fill. *)
Definition trailing_volume (window ts : Z) (history : list (Z * Z)) : Z :=
  zsum (map snd (List.filter (fun e => negb (e.1 <? sat64 (ts - window))) history)).

(** ** Lemmas *)

(** A fraction of an amount is between nothing and the amount. *)
Lemma notional_fraction a b :
  0 <= a <= SCALE -> 0 <= b <= i64_max -> exists m, notional a b = Ok m /\ 0 <= m <= b.
Proof.
  intros Ha Hb. set (m := div_half_away (a * b) SCALE).
  assert (0 <= m <= b) as Hm.
  { split; [apply div_half_away_nonneg; [done|nia]|].
    rewrite <- (div_half_away_exact b SCALE) by done. apply div_half_away_mono; [done|nia]. }
  exists m. split; [|done]. apply notional_Ok. split; [widths; lia|done].
Qed.

(** *** Kalshi *)

Lemma trade_fee_spec rate price quantity :
  0 <= rate <= SCALE -> 0 <= price <= SCALE -> 0 <= quantity <= 4000000000000000000 ->
  exists fee, KalshiFees.trade_fee rate price quantity = Ok fee /\
    0 <= fee <= 4000000000000000000 /\ fee mod KalshiFees.CENTICENT = 0.
Proof.
  intros Hr Hp Hq. unfold KalshiFees.trade_fee. rewrite complement_Ok by done.
  destruct (notional_fraction price (SCALE - price)) as (pq & -> & Hpq);
    [done|unfold SCALE in *; widths; lia|].
  destruct (notional_fraction pq quantity) as (sc & -> & Hsc);
    [lia|widths; lia|].
  destruct (notional_fraction rate sc) as (raw & -> & Hraw); [done|widths; lia|].
  unfold KalshiFees.CENTICENT.
  assert (checked64 (raw + (100000 - 1)) = Some (raw + 99999)) as ->
    by (apply checked64_Some; split; [widths; lia|lia]).
  cbn [ok_or]. unfold mul64. rewrite Z.quot_div_nonneg by lia.
  assert (0 <= (raw + 99999) / 100000 * 100000 <= 4000000000000000000) as Hf.
  { pose proof (Z.div_mod (raw + 99999) 100000). pose proof (Z.mod_pos_bound (raw + 99999) 100000).
    assert (0 <= (raw + 99999) / 100000) by (apply Z.div_pos; lia).
    assert ((raw + 99999) / 100000 < 40000000000001) by (apply Z.div_lt_upper_bound; lia). lia. }
  rewrite wrap64_id by (widths; lia). eexists. split; [done|]. split; [done|].
  by apply Z.mod_mul.
Qed.

Lemma overpaid_range f id : kalshi_wf f -> 0 <= overpaid f id < KalshiFees.CENT.
Proof.
  intros [_ Hf]. unfold overpaid. destruct (bget id (rounding f)) as [a|] eqn:E; cbn.
  - rewrite List.Forall_forall in Hf. apply Hf. apply bget_In in E. by apply (in_map snd) in E.
  - unfold KalshiFees.CENT. lia.
Qed.

Lemma kalshi_closed_wf f id : kalshi_wf f -> kalshi_wf (KalshiFees.order_closed f id).
Proof.
  intros [Hb Hf]. split; cbn; [auto with h5i|]. by apply Forall_values_filter.
Qed.

(** *** The tiered schedule *)

Lemma expire_spec cutoff es total :
  StronglySorted (fun a b => a.1 <= b.1) es -> Forall (fun e => 0 <= e.2 <= i64_max) es ->
  total = zsum (map snd es) -> in_i128 total ->
  TieredFees.expire cutoff es total =
  mkVolumeWindow (List.filter (fun e => negb (e.1 <? cutoff)) es)
    (zsum (map snd (List.filter (fun e => negb (e.1 <? cutoff)) es))).
Proof.
  revert total. induction es as [|[t a] es IH]; intros total Hs Hf -> Ht; [done|].
  apply StronglySorted_inv in Hs as [Hs Hle]. apply Forall_cons in Hf as [Ha Hf]. cbn in Ha.
  assert (0 <= zsum (map snd es)) as Hnn.
  { apply zsum_nonneg, Forall_map. eapply Forall_impl; [exact Hf|]. cbn. lia. }
  change (zsum (map snd ((t, a) :: es))) with (a + zsum (map snd es)) in *.
  cbn [TieredFees.expire List.filter fst].
  destruct (t <? cutoff) eqn:E; bool_prop; cbn [negb].
  - rewrite wrap128_id by (widths; lia). apply IH; [done|done|lia|widths; lia].
  - assert (List.filter (fun e => negb (e.1 <? cutoff)) es = es) as ->; [|done].
    clear -Hle E. induction Hle as [|e es He Hes IH]; cbn; [done|].
    cbn in He. rewrite (proj2 (Z.ltb_ge _ _)) by lia. cbn. by rewrite IH.
Qed.

(** In a descending list the first entry that satisfies a bound is the greatest. *)
Lemma find_descending {A} (key : A -> Z) v l t :
  StronglySorted (fun a b => key b < key a) l ->
  List.find (fun a => key a <=? v) l = Some t ->
  forall u, In u l -> key u <= v -> key u <= key t.
Proof.
  induction 1 as [|a l Hl IH Ha]; [done|]. cbn. rewrite List.Forall_forall in Ha.
  destruct (key a <=? v) eqn:E; bool_prop.
  - intros [= ->] u [->|Hu] Huv; [lia|]. specialize (Ha u Hu). lia.
  - intros Hf u [->|Hu] Huv; [lia|]. by apply IH.
Qed.

(** The tier found is the one with the highest threshold reached. *)
Lemma tier_for_raw_spec f v :
  tiers_wf (tiers f) -> 0 <= v ->
  exists t, TieredFees.tier_for_raw f v = Some t /\ In t (tiers f) /\ volume_from t <= v /\
    forall u, In u (tiers f) -> volume_from u <= v -> volume_from u <= volume_from t.
Proof.
  intros [Hs (t0 & ts & Ets & H0)] Hv. unfold TieredFees.tier_for_raw.
  destruct (List.find _ (rev (tiers f))) as [t|] eqn:E.
  - exists t. split; [done|]. pose proof E as E'. apply List.find_some in E' as [Hin Hle].
    bool_prop. apply in_rev in Hin. split; [done|]. split; [done|]. intros u Hu Huv.
    apply StronglySorted_rev in Hs. eapply (find_descending volume_from); [exact Hs|exact E| |done].
    by apply in_rev in Hu.
  - exfalso. assert (In t0 (rev (tiers f))) as Hin by (apply in_rev; rewrite rev_involutive, Ets; by left).
    apply (List.find_none _ _ E) in Hin. bool_prop. lia.
Qed.

(** A schedule built by [new] is in order and starts at zero. *)
Lemma tiers_new_wf ts window f :
  TieredFees.new ts window = Ok f -> tiers_wf (tiers f) /\ 0 < window_nanos f /\
    traded f = mkVolumeWindow [] 0.
Proof.
  unfold TieredFees.new. destruct ts as [|t0 ts']; [done|].
  destruct (window <=? 0) eqn:Ew; [done|]. bool_prop.
  destruct (hof_list_spec volume_from (t0 :: ts')) as [Hp Hs].
  fold (sort_by_key volume_from (t0 :: ts')) in *.
  destruct (sort_by_key volume_from (t0 :: ts')) as [|t l] eqn:El;
    [apply Permutation_nil_cons in Hp; done|]. cbn [hd].
  unfold is_zero. destruct (volume_from t =? 0) eqn:Ez; [|done]. cbn [negb]. bool_prop.
  destruct (TieredFees.adjacent_equal _) eqn:Ea; [done|]. intros [= <-].
  cbn [tiers window_nanos traded]. split; [|done]. split; [|by exists t, l].
  clear Hp El. revert Hs Ea. unfold hwf. generalize (t :: l). clear.
  induction 1 as [|a l Hl IH Ha]; [constructor|]. cbn [map TieredFees.adjacent_equal].
  destruct l as [|b l]; [intros; repeat constructor|]. cbn [map]. intros [E1 E2]%orb_false_iff.
  specialize (IH E2). constructor; [done|]. bool_prop. apply Forall_cons in Ha as [Hb Ha].
  rewrite kle_Z in Hb. constructor; [lia|]. apply StronglySorted_inv in IH as [_ IH].
  eapply Forall_impl; [exact IH|]. cbn. intros u Hu. lia.
Qed.

(** What a fill adds to the trailing volume. *)
Definition volume_of (ctx : FeeContext) : Z * Z :=
  (fc_ts ctx, div_half_away (fc_price ctx * fc_quantity ctx) SCALE).
Definition long_fill (ctx : FeeContext) : Prop :=
  0 <= fc_price ctx /\ 0 <= fc_quantity ctx /\ in_i64 (fc_ts ctx).

(** The window holds what the history has since some past cutoff. *)
Definition window_rep (f : TieredFees) (cutoff : Z) (history : list (Z * Z)) : Prop :=
  let kept := List.filter (fun e => negb (e.1 <? cutoff)) history in
  traded f = mkVolumeWindow kept (zsum (map snd kept)).

Lemma filter_filter_le (c1 c2 : Z) (l : list (Z * Z)) :
  c1 <= c2 ->
  List.filter (fun e => negb (e.1 <? c2)) (List.filter (fun e => negb (e.1 <? c1)) l) =
  List.filter (fun e => negb (e.1 <? c2)) l.
Proof.
  intros Hc. induction l as [|e l IH]; cbn; [done|].
  destruct (e.1 <? c1) eqn:E1; cbn; rewrite IH; [|done].
  bool_prop. by rewrite (proj2 (Z.ltb_lt _ _)) by lia.
Qed.

Lemma StronglySorted_filter {A} (R : A -> A -> Prop) p l :
  StronglySorted R l -> StronglySorted R (List.filter p l).
Proof.
  induction 1 as [|a l Hl IH Ha]; cbn; [constructor|]. destruct (p a); [|done].
  constructor; [done|]. apply List.Forall_forall. intros x [Hx _]%filter_In.
  rewrite List.Forall_forall in Ha. auto.
Qed.

Lemma zsum_filter_bound (p : Z * Z -> bool) l :
  Forall (fun e => 0 <= e.2 <= i64_max) l -> Z.of_nat (length l) <= i64_max ->
  0 <= zsum (map snd (List.filter p l)) <= i64_max * Z.of_nat (length l).
Proof.
  intros Hl _. induction Hl as [|e l He Hl IH]; cbn [List.filter map length]; [done|].
  destruct (p e); cbn [map]; rewrite ?zsum_cons; lia.
Qed.

(** One charge: priced at the tier of the volume inside the window, which then also
    holds this fill. *)
Lemma tiered_step f K history ctx f' c :
  tiers_wf (tiers f) -> 0 < window_nanos f -> long_fill ctx ->
  window_rep f K history -> K <= sat64 (fc_ts ctx - window_nanos f) ->
  StronglySorted (fun a b => a.1 <= b.1) (history ++ [volume_of ctx]) ->
  Forall (fun e => 0 <= e.2 <= i64_max) history -> Z.of_nat (length history) < i64_max ->
  TieredFees.commission f ctx = Ok (f', c) ->
  let v := trailing_volume (window_nanos f) (fc_ts ctx) history in
  (exists t, In t (tiers f) /\ volume_from t <= v /\
    (forall u, In u (tiers f) -> volume_from u <= v -> volume_from u <= volume_from t) /\
    notional (if fc_is_taker ctx then tier_taker t else tier_maker t) (volume_of ctx).2 = Ok c) /\
  tiers f' = tiers f /\ window_nanos f' = window_nanos f /\ 0 <= (volume_of ctx).2 <= i64_max /\
  window_rep f' (sat64 (fc_ts ctx - window_nanos f)) (history ++ [volume_of ctx]).
Proof.
  intros Ht Hw (Hp & Hq & Hts) Hrep HK Hs Hh Hlen. unfold window_rep in Hrep.
  unfold TieredFees.commission. cbv zeta in *.
  destruct (notional (fc_price ctx) (fc_quantity ctx)) as [g|] eqn:Eg; [|done].
  assert (0 <= g) as Hg by (eapply notional_nonneg; [exact Eg|nia]).
  apply notional_Ok in Eg as [Hgi Hge].
  assert (fabs g = (volume_of ctx).2) as ->.
  { unfold fabs, abs64, volume_of. rewrite Z.abs_eq by done. cbn. by rewrite wrap64_id. }
  assert (0 <= (volume_of ctx).2 <= i64_max) as Hgv by (cbn; rewrite <- Hge; widths; lia).
  set (cut := sat64 (fc_ts ctx - window_nanos f)) in *. rewrite Hrep. cbn [entries vw_total].
  apply StronglySorted_app in Hs as (Hle & Hs & _).
  pose proof (zsum_filter_bound (fun e => negb (e.1 <? K)) history Hh ltac:(lia)).
  rewrite expire_spec; [|by apply StronglySorted_filter
    |apply List.Forall_forall; intros e [He _]%filter_In; rewrite List.Forall_forall in Hh; auto
    |done|widths; nia].
  rewrite filter_filter_le by done. cbn [entries vw_total]. fold cut.
  pose proof (zsum_filter_bound (fun e => negb (e.1 <? cut)) history Hh ltac:(lia)) as Hv.
  assert (trailing_volume (window_nanos f) (fc_ts ctx) history =
    zsum (map snd (List.filter (fun e => negb (e.1 <? cut)) history))) as -> by done.
  set (v := zsum (map snd (List.filter (fun e => negb (e.1 <? cut)) history))) in *.
  destruct (tier_for_raw_spec f v Ht) as (t & -> & Hin & Hvt & Hmax); [lia|].
  destruct (notional _ (volume_of ctx).2) as [c'|] eqn:Ec; [|done]. intros [= <- <-].
  split; [by exists t|]. split; [done|]. split; [done|]. split; [done|].
  unfold window_rep. cbn [traded setter]. rewrite List.filter_app. cbn [List.filter fst volume_of].
  rewrite (proj2 (Z.ltb_ge (fc_ts ctx) cut)) by (unfold cut, sat64; widths; lia). cbn [negb].
  rewrite map_app, zsum_app. cbn -[SCALE]. rewrite Z.add_0_r. f_equal.
  apply wrap128_id. cbn in Hgv. fold v. widths. nia.
Qed.

(** ** Properties *)

(** Kalshi charges: on a probability-priced fill the charge always succeeds, the
    account moves by whole cents, and the order's charge is the trade fee plus the
    change of its rounding balance, which stays below one cent; so over an order's
    life rounding never costs a full cent.  Other orders are not touched. *)
Theorem kalshi_whole_cents f ctx :
  kalshi_wf f -> kalshi_rates_fit f -> probability_fill ctx ->
  exists f' c fee gross,
    KalshiFees.commission f ctx = Ok (f', c) /\ kalshi_wf f' /\
    notional (fc_price ctx) (fc_quantity ctx) = Ok gross /\
    (- Side.signum (fc_side ctx) * gross - c) mod KalshiFees.CENT = 0 /\
    match (if fc_is_taker ctx then Some (taker_rate f) else maker_rate f) with
    | Some r => KalshiFees.trade_fee r (fc_price ctx) (fc_quantity ctx) = Ok fee
    | None => fee = 0
    end /\
    c = fee + overpaid f' (fc_order_id ctx) - overpaid f (fc_order_id ctx) /\
    forall id, id <> fc_order_id ctx -> overpaid f' id = overpaid f id.
Proof.
  intros Hf [Htr Hmr] [Hp Hq]. unfold KalshiFees.commission.
  assert (exists fee, match (if fc_is_taker ctx then Some (taker_rate f) else maker_rate f) with
    | Some r => KalshiFees.trade_fee r (fc_price ctx) (fc_quantity ctx) | None => Ok 0 end = Ok fee
    /\ 0 <= fee <= 4000000000000000000) as (fee & Hfee & Hfb).
  { destruct (fc_is_taker ctx); [|destruct (maker_rate f) as [mr|]];
      [destruct (trade_fee_spec (taker_rate f) (fc_price ctx) (fc_quantity ctx)) as (x & ? & ? & _)
      |destruct (trade_fee_spec mr (fc_price ctx) (fc_quantity ctx)) as (x & ? & ? & _)|]; eauto.
    exists 0. split; [done|lia]. }
  rewrite Hfee.
  destruct (notional_fraction (fc_price ctx) (fc_quantity ctx)) as (gross & Hg & Hgb);
    [done|widths; lia|]. rewrite Hg.
  assert ((match fc_side ctx with Buy => neg64 gross | Sell => gross end) =
          - Side.signum (fc_side ctx) * gross) as ->.
  { destruct (fc_side ctx); cbn [Side.signum]; [|lia]. unfold neg64. rewrite wrap64_id; [lia|widths; lia]. }
  set (rev := - Side.signum (fc_side ctx) * gross).
  assert (- 4000000000000000000 <= rev <= 4000000000000000000) as Hrev
    by (unfold rev; destruct (fc_side ctx); cbn [Side.signum]; lia).
  rewrite (proj2 (checked64_Some (rev - fee) (rev - fee))) by (split; [widths; lia|done]).
  cbn [ok_or]. pose proof (overpaid_range f (fc_order_id ctx) Hf) as Ho.
  unfold KalshiFees.CENT in *. set (after := rev - fee) in *.
  pose proof (Z.div_mod after 10000000). pose proof (Z.mod_pos_bound after 10000000).
  unfold mul64, sub64. rewrite (wrap64_id (after / 10000000 * 10000000)) by (widths; lia).
  rewrite (wrap64_id (after - _)) by (widths; lia).
  set (rf := after - after / 10000000 * 10000000).
  assert (rf = after mod 10000000) as Hrf by (unfold rf; lia).
  fold (overpaid f (fc_order_id ctx)). set (acc := overpaid f (fc_order_id ctx)) in *.
  rewrite (proj2 (checked64_Some (acc + rf) (acc + rf))) by (split; [widths; lia|done]).
  cbn [ok_or]. rewrite Z.quot_div_nonneg by lia.
  pose proof (Z.div_mod (acc + rf) 10000000). pose proof (Z.mod_pos_bound (acc + rf) 10000000).
  assert (0 <= (acc + rf) / 10000000) by (apply Z.div_pos; lia).
  rewrite (wrap64_id ((acc + rf) / 10000000 * 10000000)) by (widths; lia).
  set (rebate := (acc + rf) / 10000000 * 10000000) in *.
  rewrite (wrap64_id (acc + rf - rebate)) by (widths; lia).
  unfold add64. rewrite (wrap64_id (fee + rf)), (wrap64_id (fee + rf - rebate)) by (widths; lia).
  eexists _, _, fee, gross. split; [done|]. split; [|split; [done|split; [|split; [|split]]]].
  - destruct Hf as [Hb Hfa]. split; cbn; [auto with h5i|]. apply Forall_values_insert; [|done].
    unfold KalshiFees.CENT. lia.
  - replace (- Side.signum (fc_side ctx) * gross - (fee + rf - rebate))
      with ((after / 10000000 + (acc + rf) / 10000000) * 10000000)
      by (unfold rebate, rf, after, rev; lia). by apply Z.mod_mul.
  - destruct (if fc_is_taker ctx then _ else _); [done|]. by injection Hfee.
  - unfold overpaid at 1. cbn. rewrite bget_insert_eq. cbn. fold acc. lia.
  - intros id Hid. unfold overpaid. cbn. by rewrite bget_insert_ne.
Qed.

Definition demo_fee_ctx (id : OrderId) (ts : UnixNanos) : FeeContext :=
  mkFeeContext id demo_instrument Buy 370000000 3000000000 true ts.
Definition demo_kalshi : KalshiFees := mkKalshiFees 70000000 None [].

Example kalshi_whole_cents_witness :
  exists f' c, KalshiFees.commission demo_kalshi (demo_fee_ctx 1 0) = Ok (f', c) /\
    c = 50000000 /\ overpaid f' 1 = 1000000 /\ kalshi_wf f'.
Proof.
  destruct (kalshi_whole_cents demo_kalshi (demo_fee_ctx 1 0))
    as (f' & c & fee & gross & H & Hw & _).
  - split; constructor.
  - split; [cbn; unfold SCALE; lia|exact I].
  - split; cbn; unfold SCALE; lia.
  - exists f', c. split; [exact H|]. vm_compute in H. injection H as <- <-.
    split; [reflexivity|]. split; [reflexivity|exact Hw].
Defined.

(** A run of fills through the schedule. *)
Definition charge_all (f : TieredFees) (ctxs : list FeeContext) : Result TieredFees :=
  foldr_res (fun f ctx => let? ' (f, _) := TieredFees.commission f ctx in Ok f) f ctxs.

Lemma tiered_run ctxs : forall f K history f1,
  tiers_wf (tiers f) -> 0 < window_nanos f -> Forall long_fill ctxs ->
  window_rep f K history ->
  StronglySorted (fun a b => a.1 <= b.1) (history ++ map volume_of ctxs) ->
  Forall (fun ctx => K <= sat64 (fc_ts ctx - window_nanos f)) ctxs ->
  Forall (fun e => 0 <= e.2 <= i64_max) history ->
  Z.of_nat (length (history ++ map volume_of ctxs)) < i64_max ->
  charge_all f ctxs = Ok f1 ->
  tiers f1 = tiers f /\ window_nanos f1 = window_nanos f /\
  Forall (fun e => 0 <= e.2 <= i64_max) (history ++ map volume_of ctxs) /\
  exists K', window_rep f1 K' (history ++ map volume_of ctxs) /\
    forall ts, K <= sat64 (ts - window_nanos f) ->
      Forall (fun e => e.1 <= ts) (map volume_of ctxs) -> K' <= sat64 (ts - window_nanos f).
Proof.
  induction ctxs as [|ctx ctxs IH]; intros f K h f1 Ht Hw Hl Hrep Hs HK Hh Hlen Hc.
  - cbn in *. injection Hc as <-. rewrite app_nil_r. eauto 10.
  - unfold charge_all in Hc. cbn [foldr_res] in Hc.
    destruct (TieredFees.commission f ctx) as [[f' c]|] eqn:E; [|done].
    apply Forall_cons in Hl as [Hl1 Hl]. apply Forall_cons in HK as [HK1 HK].
    cbn [map] in *. replace (h ++ volume_of ctx :: map volume_of ctxs)
      with ((h ++ [volume_of ctx]) ++ map volume_of ctxs) in * by by rewrite <- app_assoc.
    pose proof Hs as Hs'. apply StronglySorted_app in Hs as (Hle & Hs1 & _).
    destruct (tiered_step f K h ctx f' c Ht Hw Hl1 Hrep HK1 Hs1 Hh) as (_ & Et & Ew & Hv & Hrep');
      [rewrite !length_app in Hlen; cbn in Hlen; lia|done|].
    rewrite <- Et, <- Ew in *.
    destruct (IH f' (sat64 (fc_ts ctx - window_nanos f')) (h ++ [volume_of ctx]) f1)
      as (H1 & H2 & H3 & K' & H4 & H5); try done.
    + apply List.Forall_forall. intros d Hd.
      assert (fc_ts ctx <= fc_ts d); [|unfold sat64; lia].
      apply (Hle (volume_of ctx) (volume_of d)); apply list_elem_of_In.
      * apply in_app_iff. right. by left.
      * by apply in_map.
    + apply Forall_app. split; [done|]. by apply Forall_singleton.
    + split; [done|]. split; [done|]. split; [done|]. exists K'. split; [done|].
      intros ts HKts Hts. apply Forall_cons in Hts as [Hts1 Hts]. cbn in Hts1.
      apply H5; [unfold sat64; lia|done].
Qed.

(** Tiered fees are priced at the tier of the true trailing volume: after any run of
    fills in time order, the next fill pays the rate of the highest tier whose threshold
    the exact volume traded inside the window before it reaches, itself not counted. *)
Theorem tiered_fee_uses_trailing_volume ts window f0 ctxs f ctx f' c :
  TieredFees.new ts window = Ok f0 -> window <= i64_max -> Forall long_fill (ctxs ++ [ctx]) ->
  StronglySorted (fun a b => fc_ts a <= fc_ts b) (ctxs ++ [ctx]) ->
  Z.of_nat (length ctxs) + 1 < i64_max ->
  charge_all f0 ctxs = Ok f -> TieredFees.commission f ctx = Ok (f', c) ->
  let v := trailing_volume window (fc_ts ctx) (map volume_of ctxs) in
  exists t, In t (tiers f0) /\ volume_from t <= v /\
    (forall u, In u (tiers f0) -> volume_from u <= v -> volume_from u <= volume_from t) /\
    notional (if fc_is_taker ctx then tier_taker t else tier_maker t) (volume_of ctx).2 = Ok c.
Proof.
  intros Hnew Hwm Hl Hs Hlen Hc Hcomm. cbv zeta.
  assert (window_nanos f0 = window) as Hwin.
  { unfold TieredFees.new in Hnew. destruct ts; [done|]. res_inv_in Hnew; done. }
  destruct (tiers_new_wf ts window f0 Hnew) as (Ht & Hw & Htr).
  apply Forall_app in Hl as [Hl Hl1]. apply Forall_cons in Hl1 as [Hl1 _].
  assert (Hs2 : StronglySorted (fun a b => a.1 <= b.1) (map volume_of (ctxs ++ [ctx])))
    by (by apply (StronglySorted_map (fun a b : Z * Z => a.1 <= b.1) volume_of)).
  rewrite map_app in Hs2. cbn [map] in Hs2. pose proof Hs2 as Hs3.
  apply StronglySorted_app in Hs2 as (Hle & Hs1 & _).
  destruct (tiered_run ctxs f0 i64_min [] f Ht Hw Hl) as (Et & Ew & Hh & K & Hrep & HK).
  - unfold window_rep. by rewrite Htr.
  - done.
  - apply List.Forall_forall. intros d _. unfold sat64. widths. lia.
  - constructor.
  - cbn [app]. rewrite length_map. lia.
  - done.
  - cbn [app] in *. rewrite <- Hwin, <- Et, <- Ew in *.
    destruct (tiered_step f K (map volume_of ctxs) ctx f' c) as (H & _); try done.
    + apply HK; [unfold sat64; widths; lia|]. apply List.Forall_forall. intros e He.
      apply (Hle e (volume_of ctx)); apply list_elem_of_In; [done|by left].
    + rewrite length_map. lia.
Qed.

Definition demo_tiers : list FeeTier :=
  [mkFeeTier (2 * SCALE) (-1000000) 300000; mkFeeTier 0 100000 500000].
Example tiered_fee_uses_trailing_volume_witness :
  exists f0 f f' c, TieredFees.new demo_tiers 100 = Ok f0 /\
    charge_all f0 [demo_fee_ctx 1 0; demo_fee_ctx 2 50; demo_fee_ctx 3 120] = Ok f /\
    TieredFees.commission f (demo_fee_ctx 4 140) = Ok (f', c) /\ c = 333000 /\
    trailing_volume 100 140 (map volume_of [demo_fee_ctx 1 0; demo_fee_ctx 2 50; demo_fee_ctx 3 120])
      = 2220000000.
Proof.
  destruct (TieredFees.new demo_tiers 100) as [f0|] eqn:E0; [|vm_compute in E0; discriminate].
  destruct (charge_all f0 [demo_fee_ctx 1 0; demo_fee_ctx 2 50; demo_fee_ctx 3 120]) as [f|] eqn:E1;
    [|vm_compute in E0; injection E0 as <-; vm_compute in E1; discriminate].
  destruct (TieredFees.commission f (demo_fee_ctx 4 140)) as [[f' c]|] eqn:E2;
    [|vm_compute in E0; injection E0 as <-; vm_compute in E1; injection E1 as <-;
      vm_compute in E2; discriminate].
  pose proof (tiered_fee_uses_trailing_volume demo_tiers 100 f0
    [demo_fee_ctx 1 0; demo_fee_ctx 2 50; demo_fee_ctx 3 120] f (demo_fee_ctx 4 140) f' c E0
    ltac:(widths; lia)
    ltac:(repeat apply List.Forall_cons; try apply List.Forall_nil; unfold long_fill; cbn; widths; lia)
    ltac:(repeat constructor; cbn; lia) ltac:(cbn; widths; lia) E1 E2) as (t & Hin & _ & Hmax & Hc).
  exists f0, f, f', c. split; [reflexivity|]. split; [exact E1|]. split; [exact E2|].
  vm_compute in E0. injection E0 as <-. cbn in Hin. split; [|reflexivity].
  destruct Hin as [<-|[<-|[]]].
  - exfalso. specialize (Hmax (mkFeeTier (2 * SCALE) (-1000000) 300000)).
    vm_compute in Hmax. destruct Hmax; [right; left; reflexivity|discriminate|reflexivity].
  - vm_compute in Hc. injection Hc as <-. reflexivity.
Defined.

(** The prediction-market fee has its curve: at any price in [0, 1] the taker fee is
    defined, the same at [p] and [1 - p], zero at certainty, and never above its value
    at even odds; a maker is never charged, and is paid at most the taker's fee. *)
Theorem prediction_fee_curve f p q :
  0 <= pm_rate f <= SCALE -> 0 <= maker_rebate f <= SCALE -> 0 <= p <= SCALE ->
  0 <= q <= i64_max ->
  exists fee top, PredictionMarketFees.curve f p q = Ok fee /\
    PredictionMarketFees.curve f (SCALE - p) q = Ok fee /\
    PredictionMarketFees.curve f (SCALE / 2) q = Ok top /\ 0 <= fee <= top /\ top <= q /\
    (p = 0 \/ p = SCALE -> fee = 0) /\
    forall ctx, fc_price ctx = p -> fc_quantity ctx = q -> fc_is_taker ctx = false ->
      exists c, PredictionMarketFees.commission f ctx = Ok c /\ - fee <= c <= 0.
Proof.
  intros Hr Hm Hp Hq. unfold PredictionMarketFees.commission, PredictionMarketFees.curve.
  assert (HS : SCALE = 1000000000) by done. assert (HS2 : SCALE / 2 = 500000000) by done.
  rewrite HS2.
  rewrite !complement_Ok by lia.
  destruct (notional_fraction p (SCALE - p)) as (a & Ha & Har); [done|widths; lia|].
  destruct (notional_fraction 500000000 (SCALE - 500000000)) as (a2 & Ha2 & Ha2r);
    [lia|widths; lia|].
  assert (notional (SCALE - p) (SCALE - (SCALE - p)) = Ok a) as ->.
  { replace (SCALE - (SCALE - p)) with p by lia. unfold notional. rewrite Z.mul_comm. exact Ha. }
  rewrite Ha, Ha2.
  assert (a <= a2) as Hle.
  { apply (notional_mono _ _ _ _ _ _ Ha Ha2). rewrite HS.
    pose proof (Z.square_nonneg (p - 500000000)). nia. }
  assert (a2 <= SCALE) as Ha2S by lia.
  destruct (notional_fraction a q) as (b & Hb & Hbr); [lia|done|].
  destruct (notional_fraction a2 q) as (b2 & Hb2 & Hb2r); [lia|done|].
  rewrite Hb, Hb2.
  assert (b <= b2) as Hle2 by (apply (notional_mono _ _ _ _ _ _ Hb Hb2); nia).
  destruct (notional_fraction (pm_rate f) b) as (fee & Hf & Hfr); [done|lia|].
  destruct (notional_fraction (pm_rate f) b2) as (top & Ht & Htr); [done|lia|].
  rewrite Hf, Ht. assert (fee <= top) by (apply (notional_mono _ _ _ _ _ _ Hf Ht); nia).
  exists fee, top. split; [done|]. split; [done|]. split; [done|]. split; [lia|]. split; [lia|]. split.
  - intros Hp0. assert (a = 0) as ->.
    { apply notional_Ok in Ha as [_ ->]. by destruct Hp0 as [-> | ->]. }
    rewrite notional_0_l in Hb. injection Hb as <-. rewrite notional_0_r in Hf. by injection Hf.
  - intros ctx -> -> ->. rewrite complement_Ok, Ha, Hb, Hf by done.
    unfold is_zero. destruct (maker_rebate f =? 0); [exists 0; split; [done|lia]|].
    destruct (notional_fraction (maker_rebate f) fee) as (rb & -> & Hrb); [done|lia|].
    exists (neg64 rb). split; [done|]. unfold neg64. rewrite wrap64_id; [lia|widths; lia].
Qed.

Example prediction_fee_curve_witness :
  exists fee, PredictionMarketFees.curve (mkPredictionMarketFees 70000000 0) 200000000 (10 * SCALE)
    = Ok fee /\
    PredictionMarketFees.curve (mkPredictionMarketFees 70000000 0) 800000000 (10 * SCALE) = Ok fee /\
    fee = 112000000.
Proof.
  destruct (prediction_fee_curve (mkPredictionMarketFees 70000000 0) 200000000 (10 * SCALE))
    as (fee & top & H1 & H2 & _); try (cbn; unfold SCALE; widths; lia).
  exists fee. split; [exact H1|]. split; [exact H2|]. vm_compute in H1. injection H1 as <-. reflexivity.
Defined.

(** *** Slippage *)

Lemma load_side_fold_get l : forall m k v,
  Forall (fun e => 0 < e.2) l -> NoDup (map fst l) ->
  bget k (fold_left (fun m (e : Z * Z) => if is_positive e.2 then binsert e.1 e.2 m else m) l m) = Some v <->
  In (k, v) l \/ (bget k m = Some v /\ ~ In k (map fst l)).
Proof.
  induction l as [|[j w] l IH]; intros m k v Hp Hd; cbn [fold_left map In fst]; [tauto|].
  apply Forall_cons in Hp as [Hw Hp]. apply NoDup_cons in Hd as [Hj Hd].
  rewrite list_elem_of_In in Hj. unfold is_positive at 2. cbn [fst snd] in *.
  rewrite (proj2 (Z.ltb_lt 0 w) Hw), IH by done. rewrite bget_insert.
  destruct (keqb k j) eqn:E.
  - apply keqb_eq in E as ->. split.
    + intros [H|[Hv _]]; [auto|]. left. left. congruence.
    + intros [[Hjw|H]|[_ H]]; [right; split; [congruence|done]|by left|tauto].
  - apply keqb_neq in E. split.
    + intros [H|[H1 H2]]; [by auto|right; split; [done|]]. intros [<-|H]; done.
    + intros [[Hjw|H]|[H1 H2]]; [congruence|by left|right; tauto].
Qed.

Lemma load_side_get l k v :
  Forall (fun e => 0 < e.2) l -> NoDup (map fst l) ->
  bget k (OrderBook.load_side l) = Some v <-> In (k, v) l.
Proof.
  intros Hp Hd. unfold OrderBook.load_side. rewrite load_side_fold_get by done. cbn. intuition congruence.
Qed.

(** Loading the entries of a side, in any order, gives the side. *)
Lemma load_side_Permutation l m :
  side_wf m -> l ≡ₚ m -> OrderBook.load_side l = m.
Proof.
  intros [Hm Hf] Hp. unfold bvalues in Hf.
  assert (Forall (fun e => 0 < e.2) l) as Hpos.
  { rewrite Hp. rewrite Forall_map in Hf. eapply Forall_impl; [exact Hf|]. cbn. lia. }
  assert (NoDup (map fst l)) as Hd by (rewrite Hp; by apply bwf_NoDup).
  apply bwf_ext; [|done|].
  - apply load_side_wf. unfold sizes_fit. rewrite Hp. rewrite Forall_map in Hf.
    eapply Forall_impl; [exact Hf|]. cbn. lia.
  - intros k. destruct (bget k m) as [v|] eqn:E.
    + apply load_side_get; [done..|]. apply (Permutation_in _ (symmetry Hp)). by apply bget_In.
    + destruct (bget k (OrderBook.load_side l)) as [v|] eqn:E2; [|done].
      apply load_side_get in E2; [|done..]. apply (Permutation_in _ Hp) in E2.
      apply (bwf_In_get k v m Hm) in E2. congruence.
Qed.

Definition shift_levels (d : Z) (l : list (Price * Qty)) : list (Price * Qty) :=
  map (fun e => (e.1 + d, e.2)) l.

Lemma side_wf_shift d m : side_wf m -> side_wf (shift_levels d m).
Proof.
  intros [Hb Hf]. unfold shift_levels. split.
  - unfold bwf, bkeys in *. rewrite map_map. cbn. apply (StronglySorted_map klt fst) in Hb.
    apply (StronglySorted_map klt (fun e : Z * Z => e.1 + d)).
    eapply StronglySorted_weaken; [|exact Hb]. intros a b. rewrite !klt_Z. lia.
  - unfold bvalues in *. rewrite map_map. exact Hf.
Qed.

Lemma map_shift_exact d m :
  Forall (fun e => in_i64 (e.1 + d)) m ->
  map (fun l : Z * Z => (add64 l.1 d, l.2)) m = shift_levels d m.
Proof.
  unfold shift_levels. induction 1 as [|e m He Hm IH]; cbn; [done|]. rewrite IH.
  unfold add64. by rewrite wrap64_id.
Qed.

(** Slippage is adverse and nothing else: the synthetic book a taker matches against
    is a well-formed book whose side the taker hits is the recorded one moved away from
    it by [ticks] ticks, level by level with unchanged sizes, and whose other side is
    the recorded one. *)
Theorem tick_slippage_adverse m b o :
  book_wf b -> ticks m <> 0 -> let d := ticks m * slip_tick_size m in
  in_i64 d -> in_i64 (- d) ->
  Forall (fun e => in_i64 e.1 /\ in_i64 (e.1 + d) /\ in_i64 (e.1 - d)) (bids b ++ asks b) ->
  exists b', TickSlippage.book_for_fill m b o = Some b' /\ book_wf b' /\
    match o_side o with
    | Buy => OrderBook.levels b' Sell = shift_levels d (OrderBook.levels b Sell) /\
             OrderBook.levels b' Buy = OrderBook.levels b Buy
    | Sell => OrderBook.levels b' Buy = shift_levels (- d) (OrderBook.levels b Buy) /\
              OrderBook.levels b' Sell = OrderBook.levels b Sell
    end.
Proof.
  intros [Hb Ha _] Ht d Hd Hnd Hf. unfold TickSlippage.book_for_fill.
  rewrite (proj2 (Z.eqb_neq _ _) Ht). cbv zeta.
  assert (mul64 (ticks m) (slip_tick_size m) = d) as -> by (by apply wrap64_id).
  apply Forall_app in Hf as [Hfb Hfa].
  assert (Hshift : forall x l, (x = 0 \/ x = d \/ x = - d) ->
    Forall (fun e => in_i64 e.1 /\ in_i64 (e.1 + d) /\ in_i64 (e.1 - d)) l ->
    map (fun l : Z * Z => (add64 l.1 x, l.2)) l = shift_levels x l).
  { intros x l Hx Hl. apply map_shift_exact. eapply Forall_impl; [exact Hl|]. cbn.
    intros e (H1 & H2 & H3). destruct Hx as [-> | [-> | ->]]; [by rewrite Z.add_0_r|done|done]. }
  assert (Hrev : forall x l, side_wf l -> OrderBook.load_side (shift_levels x (rev l)) = shift_levels x l).
  { intros x l Hl. apply load_side_Permutation; [by apply side_wf_shift|].
    unfold shift_levels. rewrite map_rev. symmetry. apply Permutation_rev. }
  assert (Hid : forall x l, side_wf l -> OrderBook.load_side (shift_levels x l) = shift_levels x l).
  { intros x l Hl. apply load_side_Permutation; [by apply side_wf_shift|done]. }
  assert (Hz : forall l, shift_levels 0 l = l).
  { intros l. unfold shift_levels. rewrite <- (map_id l) at 2. apply map_ext.
    intros [p q]. cbn. by rewrite Z.add_0_r. }
  assert (neg64 d = - d) as Hneg by (by apply wrap64_id).
  destruct (o_side o); rewrite ?Hneg; cbn [OrderBook.levels];
    rewrite !Hshift by (first [tauto | done | by apply Forall_rev]);
    unfold OrderBook.apply_snapshot; cbn [ok]; rewrite Hrev, Hid by done;
    (eexists; split; [done|]; split; [split; cbn; rewrite ?Hz; auto using side_wf_shift; discriminate|]);
    cbn; rewrite ?Hz; [done|]; unfold shift_levels; by rewrite map_rev.
Qed.

Example tick_slippage_adverse_witness :
  exists b', TickSlippage.book_for_fill (mkTickSlippage 2 5) demo_book
      (mkOrder 1 "M" 0 Buy Market 5 0 ImmediateOrCancel InFlight 0 None None None false None false)
    = Some b' /\ OrderBook.levels b' Sell = [(60, 3); (62, 4); (70, 100)].
Proof.
  destruct (tick_slippage_adverse (mkTickSlippage 2 5) demo_book
      (mkOrder 1 "M" 0 Buy Market 5 0 ImmediateOrCancel InFlight 0 None None None false None false)
      demo_book_wf) as (b' & H & _ & Hl & _).
  - discriminate.
  - widths; cbn; lia.
  - widths; cbn; lia.
  - cbn. repeat apply List.Forall_cons; try apply List.Forall_nil; cbn; widths; lia.
  - exists b'. split; [exact H|exact Hl].
Defined.
