(* ===== verification/Account.v ===== *)
(** * Balances, margin and liquidation

    Models [account.rs].  [MarginModel] is a type class; [LawfulMargin] states what
    every implementation promises (a non-negative maintenance requirement no larger
    than the initial one), and the theorem about the portfolio-wide requirement is
    proved against that interface.  Rates are the fixed-point values the [f64]
    constructors produce; [margin_ratio], an [f64], is not modelled. *)
From S2P Require Export Position.

Class MarginModel (M : Type) := {
  initial_margin : M -> Instrument -> Qty -> Price -> Result Money;
  maintenance_margin : M -> Instrument -> Qty -> Price -> Result Money;
}.

Inductive CashMargin := mkCashMargin.
Module CashMargin.
Definition initial_margin (instrument : Instrument) (quantity : Qty) (mark : Price)
  : Result Money :=
  let? per_unit :=
    if is_probability (kind instrument) && is_negative quantity then complement mark
    else Ok mark in
  let? n := notional per_unit quantity in Ok (fabs n).
End CashMargin.
#[export] Instance margin_CashMargin : MarginModel CashMargin := {
  initial_margin _ := CashMargin.initial_margin;
  maintenance_margin _ _ _ _ := Ok 0;
}.

Record LinearMargin := mkLinearMargin { initial_rate : Price; maintenance_rate : Price }.
Module LinearMargin.
(** [from_leverage] and [new], after the conversion from [f64]. *)
Definition from_initial (initial : Price) : LinearMargin :=
  mkLinearMargin initial (Z.quot initial 2).
Definition with_rates (initial maintenance : Price) : Result LinearMargin :=
  if initial <? maintenance then
    Err (invalid "maintenance margin must not exceed initial margin")
  else Ok (mkLinearMargin initial maintenance).

Definition requirement (rate : Price) (quantity : Qty) (mark : Price) : Result Money :=
  let? n := notional mark quantity in
  notional rate (fabs n).
End LinearMargin.
#[export] Instance margin_LinearMargin : MarginModel LinearMargin := {
  initial_margin m _ quantity mark := LinearMargin.requirement (initial_rate m) quantity mark;
  maintenance_margin m _ quantity mark := LinearMargin.requirement (maintenance_rate m) quantity mark;
}.

Record PerInstrumentMargin := mkPerInstrumentMargin {
  by_instrument : BTree InstrumentId LinearMargin;
  default_model : LinearMargin;
}.
Module PerInstrumentMargin.
Definition model_for (m : PerInstrumentMargin) (instrument : Instrument) : LinearMargin :=
  default (default_model m) (bget (inst_id instrument) (by_instrument m)).
Definition with_model (m : PerInstrumentMargin) (instrument : InstrumentId) (l : LinearMargin)
  : PerInstrumentMargin :=
  mkPerInstrumentMargin (binsert instrument l (by_instrument m)) (default_model m).
End PerInstrumentMargin.
#[export] Instance margin_PerInstrumentMargin : MarginModel PerInstrumentMargin := {
  initial_margin m i := initial_margin (PerInstrumentMargin.model_for m i) i;
  maintenance_margin m i := maintenance_margin (PerInstrumentMargin.model_for m i) i;
}.

(** ** Balances *)

Record Valuation := mkValuation {
  v_total : Money;
  v_currency : Currency;
  unconvertible : list (Currency * Money);
}.
Module Valuation.
Definition is_complete (v : Valuation) : bool :=
  match unconvertible v with [] => true | _ => false end.
End Valuation.

Record Account (M : Type) := mkAccount {
  balances : BTree Currency Money;
  reporting : Currency;
  haircuts : Haircuts;
  margin : M;
}.
Arguments mkAccount {M}.
Arguments balances {M}.
Arguments reporting {M}.
Arguments haircuts {M}.
Arguments margin {M}.
#[export] Instance eta_Account M : Eta (Account M) := fun a =>
  mkAccount (balances a) (reporting a) (haircuts a) (margin a).

Module Account.
Definition new {M} (reporting : Currency) (margin : M) : Account M :=
  mkAccount [] reporting Haircuts.new margin.

Definition deposit {M} (a : Account M) (currency : Currency) (amount : Money) : Account M :=
  a <| balances := bentry 0 (fun b => add64 b amount) currency (balances a) |>.

Definition cash (reporting : Currency) (starting : Money) : Account CashMargin :=
  deposit (new reporting mkCashMargin) reporting starting.

Definition with_haircuts {M} (a : Account M) (h : Haircuts) : Account M := a <| haircuts := h |>.

Definition balance {M} (a : Account M) (currency : Currency) : Money :=
  default 0 (bget currency (balances a)).

Definition apply {M} (a : Account M) (currency : Currency) (delta : Money) : Result (Account M) :=
  let? b := checked_add "Money" (balance a currency) delta in
  Ok (a <| balances := binsert currency b (balances a) |>).

(** One balance converted into the running total, or set aside. *)
Definition add_converted (fx : FxBook) (to : Currency) (st : Money * list (Currency * Money))
  (value : Money) (entry : Currency * Money) : Result (Money * list (Currency * Money)) :=
  match FxBook.convert fx value entry.1 to with
  | Ok converted => let? total := checked_add "Money" st.1 converted in Ok (total, st.2)
  | Err _ => Ok (st.1, st.2 ++ [entry])
  end.

Definition cash_value {M} (a : Account M) (fx : FxBook) : Result Valuation :=
  let? ' (total, rest) :=
    foldr_res (fun st (e : Currency * Money) =>
      if is_zero e.2 then Ok st else add_converted fx (reporting a) st e.2 e)
      (0, []) (balances a) in
  Ok (mkValuation total (reporting a) rest).

Definition collateral {M} (a : Account M) (fx : FxBook) : Result Valuation :=
  let? ' (total, rest) :=
    foldr_res (fun st (e : Currency * Money) =>
      if negb (is_positive e.2) then add_converted fx (reporting a) st e.2 e
      else
        let? after_haircut := Haircuts.apply (haircuts a) e.2 e.1 in
        add_converted fx (reporting a) st after_haircut e)
      (0, []) (balances a) in
  Ok (mkValuation total (reporting a) rest).
End Account.

(** ** Margin over a set of positions *)

Record MarginRequirement := mkMarginRequirement {
  mr_initial : Money;
  mr_maintenance : Money;
  mr_unmarked : list PositionKey;
}.
#[export] Instance eta_MarginRequirement : Eta MarginRequirement := fun r =>
  mkMarginRequirement (mr_initial r) (mr_maintenance r) (mr_unmarked r).

Section Requirement.
Context {M : Type} `{MarginModel M} (model : M).
Variable instruments : InstrumentSet.
Variable mark : InstrumentId -> OutcomeId -> option Price.

Definition margin_add (out : MarginRequirement) (position : Position) : Result MarginRequirement :=
  if Position.is_flat position then Ok out
  else
    match mark (p_instrument position) (p_outcome position) with
    | None =>
        Ok (out <| mr_unmarked := mr_unmarked out ++ [(p_instrument position, p_outcome position)] |>)
    | Some m =>
        let? instrument := InstrumentSet.get instruments (p_instrument position) in
        let? im := initial_margin model instrument (p_quantity position) m in
        let? init := checked_add "Money" (mr_initial out) im in
        let? mm := maintenance_margin model instrument (p_quantity position) m in
        let? maint := checked_add "Money" (mr_maintenance out) mm in
        Ok (out <| mr_initial := init |> <| mr_maintenance := maint |>)
    end.

Definition margin_requirement (positions : list Position) : Result MarginRequirement :=
  foldr_res margin_add (mkMarginRequirement 0 0 []) positions.
End Requirement.

Record MarginState := mkMarginState {
  ms_equity : Money;
  ms_initial : Money;
  ms_maintenance : Money;
  liquidatable : bool;
  incomplete : bool;
}.
Module MarginState.
Definition available (s : MarginState) : Money := sub64 (ms_equity s) (ms_initial s).
End MarginState.

Definition margin_state (collateral : Valuation) (marked : Money) (requirement : MarginRequirement)
  : Result MarginState :=
  let? equity := checked_add "Money" (v_total collateral) marked in
  let inc :=
    negb (Valuation.is_complete collateral)
    || match mr_unmarked requirement with [] => false | _ => true end in
  Ok (mkMarginState equity (mr_initial requirement) (mr_maintenance requirement)
        (negb inc && negb (is_zero (mr_maintenance requirement))
         && (equity <? mr_maintenance requirement))
        inc).

Record Liquidation := mkLiquidation {
  lq_instrument : InstrumentId;
  lq_outcome : OutcomeId;
  lq_quantity : Qty;
  lq_mark : Price;
  lq_equity : Money;
  lq_maintenance : Money;
}.

Definition scaled (price fraction : Price) : Result Price :=
  narrow (Z.quot (price * fraction) SCALE) "scaled".

(** ** What a margin model promises *)

(** A position whose exposure fits, at a non-negative mark, inside [0, 1] on a
    probability contract. *)
Definition exposure_fits (i : Instrument) (q : Qty) (m : Price) : Prop :=
  - i64_max <= q <= i64_max /\ 0 <= m <= i64_max /\ Z.abs (m * q) <= i64_max * SCALE /\
  (is_probability (kind i) = true -> m <= SCALE).

Class LawfulMargin (M : Type) `{MarginModel M} := {
  margin_wf : M -> Prop;
  maintenance_le_initial : forall model i q m im mm,
    margin_wf model -> exposure_fits i q m ->
    initial_margin model i q m = Ok im -> maintenance_margin model i q m = Ok mm ->
    0 <= mm <= im;
}.

(** ** Lemmas *)

Lemma fabs_notional p q n :
  notional p q = Ok n -> Z.abs (p * q) <= i64_max * SCALE ->
  fabs n = Z.abs n /\ 0 <= fabs n <= i64_max /\ 2 * Z.abs (SCALE * fabs n - Z.abs (p * q)) <= SCALE.
Proof.
  intros Hn Hb. pose proof (notional_error _ _ _ Hn) as He.
  apply notional_Ok in Hn as [Hi Hn].
  assert (- i64_max <= n <= i64_max) as Hr.
  { rewrite Hn. split.
    - rewrite <- (div_half_away_exact (- i64_max) SCALE) by done. apply div_half_away_mono; [done|lia].
    - rewrite <- (div_half_away_exact i64_max SCALE) by done. apply div_half_away_mono; [done|lia]. }
  unfold fabs, abs64. rewrite wrap64_id by (widths; lia). split; [done|]. split; [lia|].
  destruct (div_half_away_sign (p * q) SCALE eq_refl) as [H1 H2]. rewrite <- Hn in *.
  destruct (Z.le_gt_cases 0 (p * q)).
  - rewrite (Z.abs_eq (p * q)), (Z.abs_eq n) by lia. done.
  - rewrite (Z.abs_neq (p * q)), (Z.abs_neq n) by lia.
    replace (SCALE * - n - - (p * q)) with (- (SCALE * n - p * q)) by lia. by rewrite Z.abs_opp.
Qed.

Lemma linear_ordered r1 r2 i q m im mm :
  0 <= r2 <= r1 -> exposure_fits i q m ->
  LinearMargin.requirement r1 q m = Ok im -> LinearMargin.requirement r2 q m = Ok mm ->
  0 <= mm <= im.
Proof.
  intros Hr (_ & _ & Hb & _). unfold LinearMargin.requirement.
  destruct (notional m q) as [n|] eqn:En; [|done]. intros H1 H2.
  destruct (fabs_notional _ _ _ En Hb) as (_ & Hf & _).
  split; [eapply notional_nonneg; [exact H2|nia]|]. eapply notional_mono; [exact H2|exact H1|nia].
Qed.

#[export, program] Instance lawful_CashMargin : LawfulMargin CashMargin := {
  margin_wf _ := True;
}.
Next Obligation.
  intros mdl i q m im mm _ (Hq & Hm & Hb & Hp). cbn. unfold CashMargin.initial_margin.
  destruct (is_probability (kind i) && is_negative q) eqn:E.
  - apply andb_true_iff in E as [E1 E2]. specialize (Hp E1).
    unfold complement. destruct (checked_sub _ _ _) as [c|] eqn:Ec; [|done].
    apply checked_sub_Ok in Ec as [_ ->]. destruct (notional _ q) as [n|] eqn:En; [|done].
    intros [= <-] [= <-]. split; [done|]. apply (fabs_notional _ _ _ En).
    unfold PROBABILITY_MAX. unfold SCALE in *. nia.
  - destruct (notional m q) as [n|] eqn:En; [|done]. intros [= <-] [= <-].
    split; [done|]. by apply (fabs_notional _ _ _ En).
Qed.

#[export, program] Instance lawful_LinearMargin : LawfulMargin LinearMargin := {
  margin_wf m := 0 <= maintenance_rate m <= initial_rate m;
}.
Next Obligation. intros model i q m im mm Hw. cbn. by apply linear_ordered. Qed.

#[export, program] Instance lawful_PerInstrumentMargin : LawfulMargin PerInstrumentMargin := {
  margin_wf m := margin_wf (default_model m) /\ Forall margin_wf (bvalues (by_instrument m));
}.
Next Obligation.
  intros model i q m im mm [Hd Hb] Hf H1 H2. cbn in H1, H2.
  eapply (linear_ordered _ _ i); [|exact Hf|exact H1|exact H2].
  unfold PerInstrumentMargin.model_for. destruct (bget _ _) as [l|] eqn:E; cbn; [|exact Hd].
  rewrite List.Forall_forall in Hb. apply bget_In, (in_map snd) in E. exact (Hb l E).
Qed.

Section RequirementLemmas.
Context {M : Type} `{LawfulMargin M} (model : M).
Variable instruments : InstrumentSet.
Variable mark : InstrumentId -> OutcomeId -> option Price.

Definition mark_of_position (p : Position) : option Price := mark (p_instrument p) (p_outcome p).
Definition is_unmarked (p : Position) : bool :=
  negb (Position.is_flat p) && match mark_of_position p with None => true | Some _ => false end.
Definition position_fits (p : Position) : Prop :=
  forall m i, mark_of_position p = Some m ->
    InstrumentSet.get instruments (p_instrument p) = Ok i -> exposure_fits i (p_quantity p) m.

Lemma margin_fold ps : forall r0 r,
  margin_wf model -> Forall position_fits ps -> 0 <= mr_maintenance r0 <= mr_initial r0 ->
  foldr_res (margin_add model instruments mark) r0 ps = Ok r ->
  0 <= mr_maintenance r <= mr_initial r /\
  mr_unmarked r = mr_unmarked r0 ++
    map (fun p => (p_instrument p, p_outcome p)) (List.filter is_unmarked ps).
Proof.
  induction ps as [|p ps IH]; intros r0 r Hw Hf Hle Hr; cbn [foldr_res] in Hr.
  - injection Hr as <-. cbn. by rewrite app_nil_r.
  - apply Forall_cons in Hf as [Hp Hf].
    destruct (margin_add model instruments mark r0 p) as [r1|] eqn:E; [|done].
    cbn [List.filter]. unfold is_unmarked at 1. unfold margin_add in E.
    change (mark (p_instrument p) (p_outcome p)) with (mark_of_position p) in E.
    destruct (Position.is_flat p); [injection E as <-; by apply IH|]. cbn [negb andb].
    destruct (mark_of_position p) as [m|] eqn:Em.
    + destruct (InstrumentSet.get instruments (p_instrument p)) as [i|] eqn:Ei; [|done].
      destruct (initial_margin model i (p_quantity p) m) as [im|] eqn:E1; [|done].
      destruct (checked_add "Money" (mr_initial r0) im) as [a|] eqn:E2; [|done].
      destruct (maintenance_margin model i (p_quantity p) m) as [mm|] eqn:E3; [|done].
      destruct (checked_add "Money" (mr_maintenance r0) mm) as [b|] eqn:E4; [|done].
      injection E as <-. apply checked_add_Ok in E2 as [_ ->], E4 as [_ ->].
      pose proof (maintenance_le_initial model i _ m im mm Hw (Hp m i Em Ei) E1 E3).
      apply IH in Hr; [exact Hr|done|done|cbn; lia].
    + injection E as <-. apply IH in Hr as [IH1 IH2]; [|done|done|cbn; lia]. cbn in IH2. split; [done|]. cbn [map]. by rewrite IH2, <- app_assoc.
Qed.
End RequirementLemmas.

(** What the conversion loop of [cash_value] leaves. *)
Definition is_convertible (fx : FxBook) (to : Currency) (e : Currency * Money) : option Money :=
  match FxBook.convert fx e.2 e.1 to with Ok m => Some m | Err _ => None end.

Lemma cash_value_fold fx to es : forall st st',
  foldr_res (fun st (e : Currency * Money) =>
    if is_zero e.2 then Ok st else Account.add_converted fx to st e.2 e) st es = Ok st' ->
  let live := List.filter (fun e => negb (is_zero e.2)) es in
  st'.1 = st.1 + zsum (omap (is_convertible fx to) live) /\
  st'.2 = st.2 ++ List.filter (fun e => match is_convertible fx to e with Some _ => false | None => true end) live.
Proof.
  induction es as [|e es IH]; intros st st' H; cbn [foldr_res] in H.
  - injection H as <-. cbn. rewrite app_nil_r. split; [lia|done].
  - destruct (is_zero e.2) eqn:Ez; cbn [List.filter]; rewrite Ez; cbn [negb].
    + by apply IH.
    + destruct (Account.add_converted fx to st e.2 e) as [st1|] eqn:E; [|done].
      specialize (IH st1 st' H). cbv zeta in *. destruct IH as [IH1 IH2].
      unfold Account.add_converted in E.
      change (omap (is_convertible fx to) (e :: ?l)) with
        (match is_convertible fx to e with Some y => y :: omap (is_convertible fx to) l
         | None => omap (is_convertible fx to) l end).
      assert (Hcv : is_convertible fx to e =
        match FxBook.convert fx e.2 e.1 to with Ok m => Some m | Err _ => None end) by done.
      destruct (FxBook.convert fx e.2 e.1 to) as [c|] eqn:Ec; cbn [List.filter]; rewrite Hcv.
      * destruct (checked_add "Money" st.1 c) as [t|] eqn:Et; [|done]. injection E as <-.
        apply checked_add_Ok in Et as [_ ->]. cbn in *. split; [rewrite IH1; unfold zsum; cbn; lia|done].
      * injection E as <-. cbn in *. split; [done|]. by rewrite IH2, <- app_assoc.
Qed.

(** ** Properties *)

(** The portfolio's margin requirement, for any lawful margin model: maintenance
    never exceeds initial and neither is negative, so a position that can be opened is
    not at once liquidatable, and the positions reported as unmarked are exactly the
    open ones without a mark. *)
Theorem margin_requirement_ordered {M} `{LawfulMargin M} (model : M) instruments mark ps r :
  margin_wf model -> Forall (position_fits instruments mark) ps ->
  margin_requirement model instruments mark ps = Ok r ->
  0 <= mr_maintenance r <= mr_initial r /\
  mr_unmarked r = map (fun p => (p_instrument p, p_outcome p)) (List.filter (is_unmarked mark) ps).
Proof.
  intros Hw Hf Hr.
  destruct (margin_fold model instruments mark ps (mkMarginRequirement 0 0 []) r Hw Hf) as [H1 H2];
    [cbn; lia|exact Hr|]. split; [done|exact H2].
Qed.

Definition demo_set : InstrumentSet := mkInstrumentSet {[ "BTC" := demo_instrument ]}.
Definition demo_margin : LinearMargin := LinearMargin.from_initial 100000000.
Definition demo_mark (i : InstrumentId) (_ : OutcomeId) : option Price :=
  if String.eqb i "BTC" then Some (50 * SCALE) else None.
Definition demo_positions : list Position :=
  [mkPosition "BTC" 0 (2 * SCALE) (40 * SCALE) 0 0 1; mkPosition "ETH" 0 5 1 0 0 1].

Example margin_requirement_ordered_witness :
  exists r, margin_requirement demo_margin demo_set demo_mark demo_positions = Ok r /\
    0 <= mr_maintenance r <= mr_initial r /\ mr_initial r = 10 * SCALE /\
    mr_unmarked r = [("ETH", 0)].
Proof.
  destruct (margin_requirement demo_margin demo_set demo_mark demo_positions) as [r|] eqn:E;
    [|vm_compute in E; discriminate].
  exists r. split; [reflexivity|].
  destruct (margin_requirement_ordered demo_margin demo_set demo_mark demo_positions r) as [H1 H2].
  - vm_compute; split; discriminate.
  - apply List.Forall_cons; [|apply List.Forall_cons; [|apply List.Forall_nil]].
    + intros m i Hm Hi. vm_compute in Hm, Hi. injection Hm as <-. injection Hi as <-.
      unfold exposure_fits. split; [vm_compute; split; discriminate|].
      split; [vm_compute; split; discriminate|]. split; [vm_compute; discriminate|discriminate].
    + intros m i Hm Hi. discriminate Hm.
  - exact E.
  - split; [exact H1|]. split; [|rewrite H2; reflexivity].
    vm_compute in E. injection E as <-. reflexivity.
Defined.

(** What [cash_value] totals and names: nothing is left out of both. *)
Lemma cash_value_complete {M} (a : Account M) fx c : Account.cash_value a fx = Ok c ->
  v_total c = zsum (omap (is_convertible fx (reporting a)) (List.filter (fun e => negb (is_zero e.2)) (balances a))) /\
  (Valuation.is_complete c = true <->
   forall e, In e (balances a) -> e.2 <> 0 -> is_convertible fx (reporting a) e <> None).
Proof.
  unfold Account.cash_value. destruct (foldr_res _ _ (balances a)) as [[tot rest]|] eqn:E; [|done].
  intros [= <-]. apply cash_value_fold in E. cbn [fst snd app] in E. destruct E as [Etot Erest]. cbn [v_total].
  split; [done|]. unfold Valuation.is_complete. cbn [unconvertible]. split.
  - intros Hn e He Hz Hcv. destruct rest; [|done].
    assert (In e []) as []. rewrite Erest. apply filter_In. rewrite Hcv. split; [|done].
    apply filter_In. split; [done|]. unfold is_zero. by rewrite (proj2 (Z.eqb_neq _ _) Hz).
  - intros Hall. destruct rest as [|e rest]; [done|]. exfalso.
    assert (In e (e :: rest)) as He by (by left). rewrite Erest in He.
    apply filter_In in He as [He Hcv]. apply filter_In in He as [He Hz].
    apply (Hall e He); [|by destruct (is_convertible fx (reporting a) e)].
    intros Hzero. unfold is_zero in Hz. by rewrite Hzero in Hz.
Qed.

(** A fully funded position is never worth less than what was set aside for it:
    under the cash model the initial margin of a prediction-market position, long or
    short, covers its loss at every settlement price in [0, 1] to within half a raw
    unit, which the mark alone does not for a short. *)
Theorem cash_margin_covers_worst_case i q m im s :
  kind i = PredictionMarket -> - i64_max <= q <= i64_max -> 0 <= m <= SCALE -> 0 <= s <= SCALE ->
  CashMargin.initial_margin i q m = Ok im ->
  2 * (q * (m - s)) <= 2 * (SCALE * im) + SCALE.
Proof.
  intros Hk Hq Hm Hs. unfold CashMargin.initial_margin, is_negative. rewrite Hk. cbn [is_probability andb].
  destruct (q <? 0) eqn:E; bool_prop.
  - rewrite complement_Ok by done. destruct (notional (SCALE - m) q) as [n|] eqn:En; [|done].
    intros [= <-]. destruct (fabs_notional _ _ _ En) as (_ & _ & H); [unfold SCALE in *; nia|].
    assert (Z.abs ((SCALE - m) * q) = (SCALE - m) * - q) as Ha by (rewrite Z.abs_neq by nia; lia).
    rewrite Ha in H. assert (q * (m - s) <= (SCALE - m) * - q) by nia. lia.
  - destruct (notional m q) as [n|] eqn:En; [|done].
    intros [= <-]. destruct (fabs_notional _ _ _ En) as (_ & _ & H); [unfold SCALE in *; nia|].
    rewrite (Z.abs_eq (m * q)) in H by nia. assert (q * (m - s) <= m * q) by nia. lia.
Qed.

Definition demo_market : Instrument :=
  mkInstrument "M" "pm" PredictionMarket ["YES"; "NO"] 1000000 SCALE "USDC" None None false Tick.
Example cash_margin_covers_worst_case_witness :
  CashMargin.initial_margin demo_market (- (10 * SCALE)) 30000000 = Ok 9700000000 /\
  2 * (- (10 * SCALE) * (30000000 - SCALE)) <= 2 * (SCALE * 9700000000) + SCALE.
Proof.
  split; [reflexivity|].
  apply (cash_margin_covers_worst_case demo_market (- (10 * SCALE)) 30000000 9700000000 SCALE);
    try reflexivity; vm_compute; split; discriminate.
Defined.
