(* ===== verification/Settlement.v ===== *)
(** * Settlement after the run

    Models [settlement.rs].  Reasons for leaving a position unsettled are kept as
    their leading words.  The theorems: a validated resolution pays a complete set
    exactly one unit, and settlement is gated: it books nothing the run did not live
    to see, accounts for every open position once, and its total is the sum of its
    parts. *)
From S2P Require Export Position.

Inductive Payout :=
| Winner (outcome : OutcomeId)
| SplitPayout (prices : list Price)
| Void (outcomes : Z).

Module Payout.
Definition as_prices (p : Payout) : option (list Price) :=
  match p with
  | Winner _ => None
  | SplitPayout prices => Some prices
  | Void outcomes => ok (uniform_prices outcomes)
  end.

Definition is_informative (p : Payout) : bool :=
  match p with
  | Winner _ => true
  | Void _ => false
  | SplitPayout prices =>
      let first := default 0 (head prices) in
      existsb (fun price => negb (price =? first)) prices
  end.
End Payout.

Record Resolution := mkResolution {
  res_instrument : InstrumentId;
  payout : Payout;
  observable_at : UnixNanos;
}.

Module Resolution.
Definition new (instrument : InstrumentId) (winner : OutcomeId) (at_ : UnixNanos) : Resolution :=
  mkResolution instrument (Winner winner) at_.

Definition split (instrument : InstrumentId) (payouts : list Price) (at_ : UnixNanos)
  : Result Resolution :=
  if (length payouts <? 2)%nat then
    Err (invalid "a split resolution needs a payout for every outcome")
  else if existsb (fun price => is_negative price || (PROBABILITY_MAX <? price)) payouts then
    Err (invalid "every payout must lie in [0, 1]")
  else if negb (sum64 payouts =? SCALE) then Err (invalid "the payouts sum to other than 1")
  else Ok (mkResolution instrument (SplitPayout payouts) at_).

Definition void (instrument : InstrumentId) (outcomes : Z) (at_ : UnixNanos)
  : Result Resolution :=
  if outcomes <? 2 then Err (invalid "a voided market needs at least two outcomes")
  else Ok (mkResolution instrument (Void outcomes) at_).

(** The loop of [winner]: it gives up at the first price that is neither 0 nor 1. *)
Fixpoint sole_winner (index : nat) (acc : option OutcomeId) (prices : list Price)
  : option OutcomeId :=
  match prices with
  | [] => acc
  | price :: rest =>
      if price =? SCALE then sole_winner (S index) (Some (Z.of_nat index mod 65536)) rest
      else if negb (is_zero price) then None
      else sole_winner (S index) acc rest
  end.
Definition winner (r : Resolution) : option OutcomeId :=
  match payout r with
  | Winner outcome => Some outcome
  | Void _ => None
  | SplitPayout prices => sole_winner 0 None prices
  end.

Definition settlement_price (r : Resolution) (outcome : OutcomeId) : Price :=
  match payout r with
  | Winner w => if outcome =? w then SCALE else 0
  | SplitPayout prices => default 0 (prices !! Z.to_nat outcome)
  | Void outcomes =>
      match uniform_prices outcomes with
      | Ok prices => default 0 (prices !! Z.to_nat outcome)
      | Err _ => 0
      end
  end.

Definition validate (r : Resolution) (instrument : Instrument) : Result unit :=
  if negb (is_probability (kind instrument)) then
    Err (invalid "which does not resolve: a resolution pays each outcome a settlement price")
  else
    let expected := Instrument.outcome_count instrument in
    match payout r with
    | Winner w => Instrument.check_outcome instrument w
    | SplitPayout prices =>
        if negb (Z.of_nat (length prices) =? expected) then
          Err (invalid "its resolution supplies payouts")
        else Ok tt
    | Void outcomes =>
        if negb (outcomes =? expected) then Err (invalid "its void resolution names outcomes")
        else Ok tt
    end.

Definition payouts (r : Resolution) : option (list Price) := Payout.as_prices (payout r).
End Resolution.

Record PositionSettlement := mkPositionSettlement {
  st_instrument : InstrumentId;
  st_outcome : OutcomeId;
  st_quantity : Qty;
  market_exit_pnl : option Money;
  settled_pnl : Money;
  adjustment : Money;
}.

Record SettlementReport := mkSettlementReport {
  settled : list PositionSettlement;
  unsettled : list (InstrumentId * OutcomeId * string);
  total_adjustment : Money;
}.
#[export] Instance eta_SettlementReport : Eta SettlementReport := fun r =>
  mkSettlementReport (settled r) (unsettled r) (total_adjustment r).

Module SettlementReport.
Definition was_applied (r : SettlementReport) : bool :=
  match settled r with [] => false | _ => true end.
Definition warnings (r : SettlementReport) : list string :=
  map (fun u => u.1.1 +:+ " outcome " +:+ show_int u.1.2 +:+ " left unsettled: " +:+ u.2)
    (unsettled r).
End SettlementReport.

(** The lookup of resolutions by instrument; a second one for a market is an error. *)
Definition index_resolutions (resolutions : list Resolution)
  : Result (BTree InstrumentId Resolution) :=
  foldr_res (fun m r =>
    if bcontains (res_instrument r) m then Err (invalid "two resolutions supplied")
    else Ok (binsert (res_instrument r) r m)) [] resolutions.

(** The body of the loop over open positions. *)
Definition settle_position (by_instrument : BTree InstrumentId Resolution)
  (simulated_through : option UnixNanos) (marks : BTree PositionKey Price)
  (report : SettlementReport) (position : Position) : Result SettlementReport :=
  let key := (p_instrument position, p_outcome position) in
  let leave reason := Ok (report <| unsettled := unsettled report ++ [(key, reason)] |>) in
  match bget (p_instrument position) by_instrument with
  | None => leave "no resolution is known for this market"
  | Some resolution =>
      match simulated_through with
      | None => leave "the run did not record how far it simulated"
      | Some through =>
          if through <? observable_at resolution then
            leave "the run simulated through an instant before this market resolved"
          else
            let price := Resolution.settlement_price resolution (p_outcome position) in
            let? pnl := Position.unrealized_pnl position price in
            let? exit :=
              match bget key marks with
              | Some mark => let? e := Position.unrealized_pnl position mark in Ok (Some e)
              | None => Ok None
              end in
            let? adj :=
              match exit with
              | Some e => checked_sub "Money" pnl e
              | None => Ok pnl
              end in
            let? total := checked_add "Money" (total_adjustment report) adj in
            Ok (report <| total_adjustment := total |>
                  <| settled := settled report ++
                       [mkPositionSettlement (p_instrument position) (p_outcome position)
                          (p_quantity position) exit pnl adj] |>)
      end
  end.

Definition settle (portfolio : Portfolio) (resolutions : list Resolution)
  (simulated_through : option UnixNanos) (marks : BTree PositionKey Price)
  : Result SettlementReport :=
  let? by_instrument := index_resolutions resolutions in
  foldr_res (settle_position by_instrument simulated_through marks)
    (mkSettlementReport [] [] 0) (Portfolio.open_positions portfolio).

Definition settlement_proceeds (quantity : Qty) (settlement_price : Price) : Result Money :=
  notional settlement_price quantity.

Definition validate_resolutions (resolutions : list Resolution) (instruments : InstrumentSet)
  : Result unit :=
  foldr_res (fun _ r =>
    match InstrumentSet.get instruments (res_instrument r) with
    | Ok instrument => Resolution.validate r instrument
    | Err _ => Ok tt
    end) tt resolutions.

(** ** Invariant *)

(** What the constructors [new], [split] and [void] build. *)
Definition resolution_wf (r : Resolution) : Prop :=
  match payout r with
  | Winner w => 0 <= w
  | SplitPayout prices => Forall (fun p => 0 <= p <= SCALE) prices /\ zsum prices = SCALE
  | Void n => 2 <= n <= 65535
  end.

(** ** Lemmas *)

Lemma zsum_bounded l b :
  Forall (fun p => 0 <= p <= b) l -> 0 <= zsum l <= b * Z.of_nat (length l).
Proof.
  induction 1 as [|x l Hx Hl IH]; [cbn; lia|]. rewrite zsum_cons. cbn [length]. lia.
Qed.

Lemma split_wf i ps ts r :
  Z.of_nat (length ps) <= 65535 -> Resolution.split i ps ts = Ok r -> resolution_wf r.
Proof.
  intros Hlen. unfold Resolution.split. destruct (length ps <? 2)%nat; [done|].
  destruct (existsb _ ps) eqn:Ex; [done|].
  assert (Forall (fun p => 0 <= p <= SCALE) ps) as Hf.
  { apply List.Forall_forall. intros p Hp. destruct (Z_lt_le_dec p 0) as [Hn|Hn];
      [|destruct (Z_lt_le_dec SCALE p) as [Hm|Hm]; [|lia]]; exfalso;
      apply not_true_iff_false in Ex; apply Ex; apply existsb_exists; exists p; split; try done;
      unfold is_negative, PROBABILITY_MAX; apply orb_true_iff; rewrite !Z.ltb_lt; auto. }
  destruct (sum64 ps =? SCALE) eqn:Es; [|done]. bool_prop. cbn. intros [= <-].
  split; [done|]. rewrite <- Es. symmetry. apply sum64_exact.
  pose proof (zsum_bounded ps SCALE Hf). unfold SCALE in *. widths. lia.
Qed.

Lemma void_wf i n ts r : n <= 65535 -> Resolution.void i n ts = Ok r -> resolution_wf r.
Proof.
  intros Hn. unfold Resolution.void. destruct (n <? 2) eqn:E; [done|]. bool_prop.
  intros [= <-]. unfold resolution_wf; cbn. lia.
Qed.

(** Summing a list by index. *)
Lemma zsum_by_index l :
  zsum (map (fun i => default 0 (l !! i)) (seq 0 (length l))) = zsum l.
Proof.
  induction l as [|x l IH]; [done|]. cbn [length seq map]. rewrite <- seq_shift, map_map, !zsum_cons.
  by rewrite <- IH.
Qed.

Lemma outcome_ids_map (f : OutcomeId -> Z) i n :
  Instrument.outcome_count i = Z.of_nat n ->
  map f (Instrument.outcome_ids i) = map (fun k => f (Z.of_nat k)) (seq 0 n).
Proof.
  intros Hn. unfold Instrument.outcome_ids. by rewrite Hn, Nat2Z.id, map_map.
Qed.

(** One winner among [n] outcomes. *)
Lemma zsum_indicator w n :
  (w < n)%nat -> zsum (map (fun k => if Z.of_nat k =? Z.of_nat w then SCALE else 0) (seq 0 n)) = SCALE.
Proof.
  intros Hw. replace n with (w + S (n - w - 1))%nat by lia. rewrite seq_app, map_app, zsum_app.
  cbn [seq map]. rewrite zsum_cons, Z.eqb_refl.
  assert (forall a m, (forall k, (a <= k < a + m)%nat -> k <> w) ->
    zsum (map (fun k => if Z.of_nat k =? Z.of_nat w then SCALE else 0) (seq a m)) = 0) as Hz.
  { intros a m. revert a. induction m as [|m IH]; intros a Ha; [done|]. cbn [seq map].
    rewrite zsum_cons, IH, (proj2 (Z.eqb_neq _ _)); [done| |].
    - specialize (Ha a). lia.
    - intros k Hk. apply Ha. lia. }
  rewrite !Hz; [lia| |]; intros k Hk; lia.
Qed.

Definition key_of (p : Position) : PositionKey := (p_instrument p, p_outcome p).
Definition settled_key (s : PositionSettlement) : PositionKey := (st_instrument s, st_outcome s).

(** [s] books position [p] at a resolution the run lived to see. *)
Definition booked (bi : BTree InstrumentId Resolution) (through : option UnixNanos)
  (p : Position) (s : PositionSettlement) : Prop :=
  exists res ts, bget (p_instrument p) bi = Some res /\ through = Some ts /\
    observable_at res <= ts /\ settled_key s = key_of p /\ st_quantity s = p_quantity p /\
    Position.unrealized_pnl p (Resolution.settlement_price res (p_outcome p)) = Ok (settled_pnl s) /\
    adjustment s = settled_pnl s - default 0 (market_exit_pnl s).

(** One position is either left, with a reason, or booked. *)
Lemma settle_position_cases bi through marks r0 p r1 :
  settle_position bi through marks r0 p = Ok r1 ->
  (exists reason, r1 = r0 <| unsettled := unsettled r0 ++ [(key_of p, reason)] |>) \/
  exists s, booked bi through p s /\
    r1 = r0 <| total_adjustment := total_adjustment r0 + adjustment s |>
            <| settled := settled r0 ++ [s] |>.
Proof.
  unfold settle_position, key_of. intros E.
  destruct (bget (p_instrument p) bi) as [res|] eqn:Eb; [|injection E as <-; eauto].
  destruct through as [ts|]; [|injection E as <-; eauto].
  destruct (ts <? observable_at res) eqn:Et; [injection E as <-; eauto|]. bool_prop.
  destruct (Position.unrealized_pnl p _) as [pnl|] eqn:Ep; [|done].
  destruct (match bget _ marks with Some _ => _ | None => _ end) as [exit|] eqn:Ee; [|done].
  destruct (match exit with Some e => _ | None => _ end) as [adj|] eqn:Ea; [|done].
  destruct (checked_add _ _ adj) as [tot|] eqn:Etot; [|done]. injection E as <-.
  apply checked_add_Ok in Etot as [_ ->]. right.
  exists (mkPositionSettlement (p_instrument p) (p_outcome p) (p_quantity p) exit pnl adj).
  split; [|reflexivity].
  exists res, ts. cbn. repeat split; try done.
  destruct exit as [e|]; [by apply checked_sub_Ok in Ea as [_ ->]|]. injection Ea as <-. cbn. lia.
Qed.

(** The report of a loop extends the report it starts from. *)
Lemma settle_fold bi through marks ps : forall r0 r,
  foldr_res (settle_position bi through marks) r0 ps = Ok r ->
  exists st us, settled r = settled r0 ++ st /\ unsettled r = unsettled r0 ++ us /\
    total_adjustment r = total_adjustment r0 + zsum (map adjustment st) /\
    map key_of ps ≡ₚ map settled_key st ++ map fst us /\
    Forall (fun s => exists p, In p ps /\ booked bi through p s) st.
Proof.
  induction ps as [|p ps IH]; intros r0 r H; cbn [foldr_res] in H.
  { injection H as <-. exists [], []. rewrite !app_nil_r. cbn. repeat split; try constructor. lia. }
  destruct (settle_position bi through marks r0 p) as [r1|] eqn:E; [|done].
  destruct (IH r1 r H) as (st & us & H1 & H2 & H3 & H4 & H5).
  assert (Hmono : Forall (fun s => exists p', In p' (p :: ps) /\ booked bi through p' s) st).
  { eapply Forall_impl; [exact H5|]. intros s (p' & Hin & Hb). exists p'. split; [by right|done]. }
  apply settle_position_cases in E as [[reason ->]|(s & Hb & ->)]; cbn in H1, H2, H3.
  - exists st, ((key_of p, reason) :: us). split; [done|]. split; [by rewrite H2, <- app_assoc|].
    split; [done|]. split; [|done]. cbn [map fst]. rewrite H4. by rewrite Permutation_middle.
  - exists (s :: st), us. split; [by rewrite H1, <- app_assoc|]. split; [done|].
    split; [rewrite H3; cbn [map]; rewrite zsum_cons; lia|]. split.
    + cbn [map]. rewrite H4. destruct Hb as (res & ts & _ & _ & _ & -> & _). done.
    + constructor; [|done]. exists p. split; [by left|done].
Qed.

Lemma index_resolutions_get rs : forall m m',
  foldr_res (fun m r =>
    if bcontains (res_instrument r) m then Err (invalid "two resolutions supplied")
    else Ok (binsert (res_instrument r) r m)) m rs = Ok m' ->
  forall i r, bget i m' = Some r -> bget i m = Some r \/ (In r rs /\ res_instrument r = i).
Proof.
  induction rs as [|r0 rs IH]; intros m m' H i r Hg; cbn [foldr_res] in H; [injection H as <-; by left|].
  destruct (bcontains _ m); [done|]. destruct (IH _ _ H i r Hg) as [H1|[H1 H2]].
  - rewrite bget_insert in H1. destruct (keqb i (res_instrument r0)) eqn:E; [|by left].
    apply keqb_eq in E. injection H1 as ->. right. split; [by left|done].
  - right. split; [by right|done].
Qed.

(** ** Properties *)

(** A settlement conserves a complete set: a resolution that was validated against
    its market pays the outcomes of that market exactly one unit between them, whether
    it names a winner, an explicit split or a void, and never a negative amount. *)
Theorem resolution_pays_one_unit r i :
  resolution_wf r -> Z.of_nat (length (outcomes i)) <= 65535 ->
  Resolution.validate r i = Ok tt ->
  zsum (map (Resolution.settlement_price r) (Instrument.outcome_ids i)) = SCALE /\
  Forall (fun p => 0 <= p <= SCALE) (map (Resolution.settlement_price r) (Instrument.outcome_ids i)).
Proof.
  intros Hw Hlen Hv. unfold Resolution.validate in Hv.
  destruct (is_probability (kind i)); [|done]. cbn [negb] in Hv.
  assert (Hcount : Instrument.outcome_count i = Z.of_nat (length (outcomes i)))
    by (unfold Instrument.outcome_count; apply Z.mod_small; lia).
  assert (Hlist : forall l, Z.of_nat (length l) = Instrument.outcome_count i -> zsum l = SCALE ->
    Forall (fun p => 0 <= p <= SCALE) l ->
    (forall o, Resolution.settlement_price r o = default 0 (l !! Z.to_nat o)) ->
    zsum (map (Resolution.settlement_price r) (Instrument.outcome_ids i)) = SCALE /\
    Forall (fun p => 0 <= p <= SCALE) (map (Resolution.settlement_price r) (Instrument.outcome_ids i))).
  { intros l Hl Hs Hf Hp. rewrite (outcome_ids_map _ i (length l)) by done.
    erewrite map_ext by (intros k; rewrite Hp, Nat2Z.id; reflexivity).
    split; [by rewrite zsum_by_index|]. apply Forall_map, List.Forall_forall. intros k _.
    destruct (l !! k) as [x|] eqn:E; cbn; [|unfold SCALE; lia].
    apply list_elem_of_lookup_2, list_elem_of_In in E. rewrite List.Forall_forall in Hf. auto. }
  unfold resolution_wf in Hw. unfold Resolution.settlement_price in *.
  destruct (payout r) as [w|prices|n].
  - unfold Instrument.check_outcome, Instrument.outcome in Hv.
    destruct (outcomes i !! Z.to_nat w) as [o|] eqn:E; [|done]. apply lookup_lt_Some in E.
    rewrite (outcome_ids_map _ i (length (outcomes i)) Hcount). rewrite <- (Z2Nat.id w) by done.
    split; [by apply zsum_indicator|]. apply Forall_map, List.Forall_forall. intros k _.
    destruct (_ =? _); unfold SCALE; lia.
  - destruct (Z.of_nat (length prices) =? Instrument.outcome_count i) eqn:E; [|done]. bool_prop.
    destruct Hw as [Hf Hs]. by apply (Hlist prices).
  - destruct (n =? Instrument.outcome_count i) eqn:E; [|done]. bool_prop.
    destruct (uniform_prices_sum n) as (l & Hu & Hl & Hs & Hf); [lia|]. rewrite Hu in *.
    apply (Hlist l); try done; [lia|].
    assert (0 <= Z.quot SCALE n /\ Z.quot SCALE n + 1 <= SCALE) by (unfold SCALE; div_nia).
    eapply Forall_impl; [exact Hf|]. cbn. lia.
Qed.

Example resolution_pays_one_unit_witness :
  exists r i, Instrument.prediction_market "M" "pm" ["A"; "B"; "C"] = Ok i /\
    Resolution.void "M" 3 7 = Ok r /\ Resolution.validate r i = Ok tt /\
    zsum (map (Resolution.settlement_price r) (Instrument.outcome_ids i)) = SCALE.
Proof.
  eexists _, _. split; [reflexivity|]. split; [reflexivity|]. split; [reflexivity|].
  apply (resolution_pays_one_unit (mkResolution "M" (Void 3) 7)
    (mkInstrument "M" "pm" PredictionMarket ["A"; "B"; "C"] 100000 SCALE "USDC" None None false Tick)).
  - unfold resolution_wf. cbn. lia.
  - cbn. lia.
  - reflexivity.
Defined.

(** C22 Settlement is gated and complete: every open position is either settled or left
    with a reason, exactly once; a settled one has a resolution, supplied for its
    market, that the run simulated through, and is valued at what that resolution
    pays; and the total adjustment is the exact sum of the settled positions' own. *)
Theorem settle_gated pf rs through marks report :
  settle pf rs through marks = Ok report ->
  map key_of (Portfolio.open_positions pf) ≡ₚ
    map settled_key (settled report) ++ map fst (unsettled report) /\
  total_adjustment report = zsum (map adjustment (settled report)) /\
  Forall (fun s => exists p res ts, In p (Portfolio.open_positions pf) /\ In res rs /\
    res_instrument res = p_instrument p /\ through = Some ts /\ observable_at res <= ts /\
    settled_key s = key_of p /\ st_quantity s = p_quantity p /\
    Position.unrealized_pnl p (Resolution.settlement_price res (p_outcome p)) = Ok (settled_pnl s) /\
    adjustment s = settled_pnl s - default 0 (market_exit_pnl s)) (settled report).
Proof.
  unfold settle. destruct (index_resolutions rs) as [bi|] eqn:Ei; [|done]. intros H.
  apply settle_fold in H as (st & us & H1 & H2 & H3 & H4 & H5). cbn in H1, H2, H3.
  rewrite H1, H2. split; [done|]. split; [by rewrite H3|].
  eapply Forall_impl; [exact H5|].
  intros s (p & Hin & res & ts & Hb & Ht & Ho & Hk & Hq & Hp & Ha).
  exists p, res, ts. destruct (index_resolutions_get rs [] bi Ei _ _ Hb) as [|[Hr Hi]]; [done|].
  repeat split; done.
Qed.

Definition demo_open : Portfolio :=
  mkPortfolio [(("M", 0), mkPosition "M" 0 (10 * SCALE) 400000000 0 0 1);
               (("N", 1), mkPosition "N" 1 (5 * SCALE) 300000000 0 0 1)] [].
Example settle_gated_witness :
  exists report, settle demo_open [Resolution.new "M" 0 50; Resolution.new "N" 1 99] (Some 60)
      [(("M", 0), 700000000)] = Ok report /\
    map settled_key (settled report) = [("M", 0)] /\ map fst (unsettled report) = [("N", 1)] /\
    total_adjustment report = 3 * SCALE.
Proof.
  destruct (settle demo_open [Resolution.new "M" 0 50; Resolution.new "N" 1 99] (Some 60)
      [(("M", 0), 700000000)]) as [report|] eqn:E; [|vm_compute in E; discriminate].
  exists report. split; [reflexivity|].
  destruct (settle_gated _ _ _ _ _ E) as (_ & Ht & _).
  rewrite Ht. vm_compute in E. injection E as <-. repeat split.
Defined.
