(* ===== verification/Replay.v ===== *)
(** * Market events and records

    Models [event.rs].  [EventRecord] is the Rust [Record]; the constructors of
    [MarketEvent] carry the prefix [Ev]. *)
From S2P Require Export Book.

Inductive MarketEvent :=
| EvBookSnapshot (bids asks : list (Price * Qty))
| EvBookDelta (delta : BookDelta)
| EvGap
| EvTrade (price : Price) (size : Qty) (aggressor : option Side)
| EvFunding (rate : Price)
| EvCorporate (action : CorporateAction)
| EvBar (open high low close : Price) (volume : Qty)
| EvReference (mark oracle : option Price).

Module MarketEvent.
Definition kind (e : MarketEvent) : string :=
  match e with
  | EvBookSnapshot _ _ => "book_snapshot"
  | EvBookDelta _ => "book_delta"
  | EvGap => "gap"
  | EvTrade _ _ _ => "trade"
  | EvFunding _ => "funding"
  | EvCorporate _ => "corporate"
  | EvBar _ _ _ _ _ => "bar"
  | EvReference _ _ => "reference"
  end.
End MarketEvent.

Record EventRecord := mkEventRecord {
  rec_stamps : Stamps;
  rec_instrument : InstrumentId;
  rec_outcome : OutcomeId;
  rec_event : MarketEvent;
}.

Module EventRecord.
Definition new (stamps : Stamps) (instrument : InstrumentId) (outcome : OutcomeId)
  (event : MarketEvent) : EventRecord := mkEventRecord stamps instrument outcome event.
(** The instant replay orders by. *)
Definition ts (r : EventRecord) : UnixNanos := ts_init (rec_stamps r).
End EventRecord.

(** ** Merging sorted streams into one replay order

    Models [replay.rs].  A lazy source is the list of results it will yield; the heap
    of [Reverse<Key>] is the priority queue of [BTree.v] over the whole key.  The
    theorem: the merge accepts exactly the well-ordered, error-free streams, and its
    output is the one arrangement of their records in increasing
    [(ts_init, priority, stream, arrival)] order. *)

(** Where a stream sits when timestamps tie. *)
Module priority.
Definition GAP : Z := 0.
Definition SNAPSHOT : Z := 10.
Definition DELTA : Z := 20.
Definition CORPORATE : Z := 5.
Definition REFERENCE : Z := 7.
Definition TRADE : Z := 30.
Definition FUNDING : Z := 35.
Definition BAR : Z := 40.
End priority.

(** [(ts, priority, stream, arrival)], compared field by field. *)
Abbreviation Key := (Z * (Z * (Z * Z)))%type (only parsing).
Abbreviation RecordSource := (list (Result EventRecord)) (only parsing).

Record StreamState := mkStreamState {
  s_name : string;
  s_priority : Z;
  s_source : RecordSource;
  s_head : option EventRecord;
  s_arrival : Z;
  s_last_ts : option Z;
}.
#[export] Instance eta_StreamState : Eta StreamState := fun s =>
  mkStreamState (s_name s) (s_priority s) (s_source s) (s_head s) (s_arrival s) (s_last_ts s).

Module StreamState.
Definition pull (s : StreamState) : Result (StreamState * option EventRecord) :=
  match s_source s with
  | [] => Ok (s, None)
  | next :: rest =>
      let s := s <| s_source := rest |> in
      let? record := next in
      let ts := EventRecord.ts record in
      match s_last_ts s with
      | Some previous =>
          if ts <? previous then Err (OutOfOrder (s_name s) ts previous)
          else Ok (s <| s_last_ts := Some ts |>, Some record)
      | None => Ok (s <| s_last_ts := Some ts |>, Some record)
      end
  end.
End StreamState.

Record Replay := mkReplay {
  streams : list StreamState;
  heap : list Key;
  last_emitted : option UnixNanos;
  emitted : Z;
}.
#[export] Instance eta_Replay : Eta Replay := fun r =>
  mkReplay (streams r) (heap r) (last_emitted r) (emitted r).

Module Replay.
Definition mkKey (ts priority stream arrival : Z) : Key := (ts, (priority, (stream, arrival))).
Definition key_stream (k : Key) : nat := Z.to_nat k.2.2.1.

(** [None] inside the result: the heap is empty.  Indexing a missing stream or an
    empty head would panic; both are the error below, shown unreachable. *)
Definition next_record (r : Replay) : Result (Replay * option EventRecord) :=
  match hpop (heap r) with
  | None => Ok (r, None)
  | Some (key, rest) =>
      let r := r <| heap := rest |> in
      match streams r !! key_stream key with
      | None => Err (invalid "index out of bounds")
      | Some stream =>
          match s_head stream with
          | None => Err (invalid "heap key without a head record is a merge bug")
          | Some record =>
              let stream := stream <| s_head := None |> in
              let? ' (stream, next) := StreamState.pull stream in
              let '(stream, h) :=
                match next with
                | Some next =>
                    let stream := stream <| s_arrival := s_arrival stream + 1 |> in
                    let key' := mkKey (EventRecord.ts next) (s_priority stream) key.2.2.1
                                  (s_arrival stream) in
                    (stream <| s_head := Some next |>, hpush id key' (heap r))
                | None => (stream, heap r)
                end in
              let r := r <| streams := <[key_stream key := stream]> (streams r) |>
                         <| heap := h |> <| last_emitted := Some (EventRecord.ts record) |>
                         <| emitted := emitted r + 1 |> in
              Ok (r, Some record)
          end
      end
  end.

(** What is left to hand out, the fuel of draining. *)
Definition remaining (r : Replay) : nat :=
  (length (heap r) + length (concat (map s_source (streams r))))%nat.

Fixpoint collect_loop (fuel : nat) (r : Replay) : Result (list EventRecord) :=
  let? ' (r, next) := next_record r in
  match next with
  | None => Ok []
  | Some record =>
      match fuel with
      | O => Err (invalid "out of fuel")
      | S fuel' => let? out := collect_loop fuel' r in Ok (record :: out)
      end
  end.
Definition collect_all (r : Replay) : Result (list EventRecord) := collect_loop (remaining r) r.

Definition peek_ts (r : Replay) : option UnixNanos := fst <$> hpeek (heap r).
Definition is_empty (r : Replay) : bool := match heap r with [] => true | _ => false end.
Definition stream_names (r : Replay) : list string := map s_name (streams r).
End Replay.

Module ReplayBuilder.
Abbreviation Builder := (list (string * Z * RecordSource)) (only parsing).

Definition source (b : Builder) (name : string) (prio : Z) (src : RecordSource) : Builder :=
  b ++ [(name, prio, src)].
Definition stream (b : Builder) (name : string) (prio : Z) (records : list EventRecord) : Builder :=
  source b name prio (map Ok records).

(** One stream: pull its head and file its key. *)
Definition open (st : list StreamState * list Key) (s : string * Z * RecordSource)
  : Result (list StreamState * list Key) :=
  let '(states, h) := st in
  let '(name, prio, src) := s in
  let state := mkStreamState name prio src None 0 None in
  let? ' (state, head) := StreamState.pull state in
  let h :=
    match head with
    | Some record =>
        hpush id (Replay.mkKey (EventRecord.ts record) prio (Z.of_nat (length states)) 0) h
    | None => h
    end in
  Ok (states ++ [state <| s_head := head |>], h).

Definition build (b : Builder) : Result Replay :=
  let? ' (states, h) := foldr_res open ([], []) b in
  Ok (mkReplay states h None 0).
End ReplayBuilder.

(** ** Specification *)

(** The records of one stream with their order keys. *)
Fixpoint tag (prio stream arrival : Z) (recs : list EventRecord) : list (Key * EventRecord) :=
  match recs with
  | [] => []
  | r :: rest =>
      (Replay.mkKey (EventRecord.ts r) prio stream arrival, r) :: tag prio stream (arrival + 1) rest
  end.

Definition ts_sorted (recs : list EventRecord) : Prop :=
  StronglySorted (fun a b => EventRecord.ts a <= EventRecord.ts b) recs.

(** All streams, tagged by their index. *)
Fixpoint tag_all (stream : Z) (ss : list (Z * list EventRecord)) : list (list (Key * EventRecord)) :=
  match ss with
  | [] => []
  | (prio, recs) :: ss' => tag prio stream 0 recs :: tag_all (stream + 1) ss'
  end.

(** [out] is the arrangement of all tagged records in increasing key order. *)
Definition merged (tagged : list (list (Key * EventRecord))) (out : list EventRecord) : Prop :=
  exists l, l ≡ₚ concat tagged /\ StronglySorted klt (map fst l) /\ out = map snd l.

(** ** Lemmas *)

(** A stream state stands for the records it has still to hand out, head included. *)
Record stream_rep (s : StreamState) (recs : list EventRecord) : Prop := {
  sr_head : s_head s = head recs;
  sr_source : s_source s = map Ok (tail recs);
  sr_sorted : ts_sorted recs;
  sr_last : match recs with r :: _ => s_last_ts s = Some (EventRecord.ts r) | [] => True end;
}.

Definition head_key (l : list (Key * EventRecord)) : option Key := fst <$> head l.

(** The merge state stands for one tagged list per stream; the heap holds their heads. *)
Record replay_rep (r : Replay) (pend : list (list (Key * EventRecord))) : Prop := {
  rr_length : length (streams r) = length pend;
  rr_streams : forall i s l, streams r !! i = Some s -> pend !! i = Some l ->
    exists recs, stream_rep s recs /\ l = tag (s_priority s) (Z.of_nat i) (s_arrival s) recs;
  rr_heap_wf : hwf id (heap r);
  rr_heap : heap r ≡ₚ omap head_key pend;
}.

Lemma key_cmp_lt (t1 p1 s1 a1 t2 p2 s2 a2 : Z) :
  klt (Replay.mkKey t1 p1 s1 a1) (Replay.mkKey t2 p2 s2 a2) <->
  t1 < t2 \/ (t1 = t2 /\ (p1 < p2 \/ (p1 = p2 /\ (s1 < s2 \/ (s1 = s2 /\ a1 < a2))))).
Proof.
  unfold klt, Replay.mkKey. cbn. unfold pair_cmp. cbn. unfold pair_cmp. cbn. unfold pair_cmp. cbn.
  destruct (Z.compare_spec t1 t2); [destruct (Z.compare_spec p1 p2);
    [destruct (Z.compare_spec s1 s2); [destruct (Z.compare_spec a1 a2)|..]|..]|..];
    split; intros Hc; try discriminate; try lia; reflexivity.
Qed.

Lemma tag_In prio stream arr recs e :
  In e (tag prio stream arr recs) ->
  exists a, arr <= a /\ e.1 = Replay.mkKey (EventRecord.ts e.2) prio stream a /\ In e.2 recs.
Proof.
  revert arr. induction recs as [|r recs IH]; intros arr; [done|]. cbn.
  intros [<-|Hin]; [exists arr; split; [lia|]; cbn; auto|].
  destruct (IH _ Hin) as (a & Ha & -> & Hi). exists a. split; [lia|]. auto.
Qed.

(** Within a stream keys increase. *)
Lemma tag_sorted prio stream arr recs :
  ts_sorted recs -> StronglySorted klt (map fst (tag prio stream arr recs)).
Proof.
  unfold ts_sorted. intros Hs. revert arr. induction Hs as [|r recs Hs IH Hr]; intros arr; cbn; [constructor|].
  constructor; [apply IH|]. apply Forall_map, List.Forall_forall. intros e He.
  apply tag_In in He as (a & Ha & -> & Hin). rewrite List.Forall_forall in Hr.
  specialize (Hr _ Hin). apply key_cmp_lt. lia.
Qed.

Lemma tag_length prio stream arr recs : length (tag prio stream arr recs) = length recs.
Proof. revert arr. induction recs as [|r recs IH]; intros arr; cbn; [done|]. by rewrite IH. Qed.

(** Pulling from a state that stands for [recs] after its head was taken. *)
Lemma pull_rep s r recs :
  stream_rep s (r :: recs) ->
  exists s', StreamState.pull (s <| s_head := None |>) = Ok (s', head recs) /\
    s_priority s' = s_priority s /\ s_arrival s' = s_arrival s /\ s_head s' = None /\
    forall x, stream_rep (s' <| s_arrival := x |> <| s_head := head recs |>) recs.
Proof.
  intros [Hh Hs Hsrt Hl]. cbn in Hs, Hl. unfold StreamState.pull. cbn [s_source setter]. rewrite Hs.
  apply StronglySorted_inv in Hsrt as [Hsrt Hle].
  destruct recs as [|r2 recs]; cbn [map head tail].
  - eexists. split; [reflexivity|]. do 3 (split; [done|]). intros x. split; cbn; auto.
  - cbn [s_last_ts setter]. rewrite Hl. apply Forall_cons in Hle as [Hle _].
    rewrite (proj2 (Z.ltb_ge _ _)) by done.
    eexists. split; [reflexivity|]. do 3 (split; [done|]). intros x. split; cbn; auto.
Qed.

(** Opening a source: it succeeds exactly on error-free ordered records as far as it
    looks, and then stands for them. *)
Lemma pull_fresh name prio recs :
  ts_sorted recs ->
  exists s', StreamState.pull (mkStreamState name prio (map Ok recs) None 0 None) = Ok (s', head recs) /\
    s_priority s' = prio /\ s_arrival s' = 0 /\ stream_rep (s' <| s_head := head recs |>) recs.
Proof.
  intros Hs. unfold StreamState.pull. cbn [s_source]. destruct recs as [|r recs]; cbn [map head].
  - eexists. split; [reflexivity|]. repeat split; cbn; auto.
  - cbn. eexists. split; [reflexivity|]. repeat split; cbn; auto.
Qed.

(** Changing one entry of the pending lists changes one entry of the heads. *)
Lemma omap_heads_split (l1 l2 : list (list (Key * EventRecord))) l :
  omap head_key (l1 ++ l :: l2) ≡ₚ
  match head_key l with Some k => k :: omap head_key (l1 ++ l2) | None => omap head_key (l1 ++ l2) end.
Proof.
  rewrite !omap_app. cbn. destruct (head_key l); [|done]. by rewrite Permutation_middle.
Qed.

(** The least head is least among everything pending. *)
Lemma head_least pend k :
  Forall (fun l => StronglySorted klt (map fst l)) pend ->
  (forall j, In j (omap head_key pend) -> kle k j) ->
  forall e, In e (concat pend) -> kle k e.1.
Proof.
  intros Hs Hmin e (l & Hl & He)%in_concat. rewrite List.Forall_forall in Hs.
  specialize (Hs l Hl). destruct l as [|[k' x] l]; [done|].
  assert (Hk : kle k k').
  { apply Hmin. apply list_elem_of_In, list_elem_of_omap. exists ((k', x) :: l).
    split; [by apply list_elem_of_In|done]. }
  cbn in Hs. apply StronglySorted_inv in Hs as [_ Hs]. destruct He as [<-|He]; [done|].
  eapply kle_trans; [exact Hk|]. apply klt_kle. rewrite List.Forall_forall in Hs.
  apply Hs. by apply in_map.
Qed.

Lemma rep_sorted r pend :
  replay_rep r pend -> Forall (fun l => StronglySorted klt (map fst l)) pend.
Proof.
  intros [Hlen Hst _ _]. apply List.Forall_forall. intros l Hl.
  apply list_elem_of_In, list_elem_of_lookup_1 in Hl as [i Hi].
  destruct (streams r !! i) as [s|] eqn:E.
  - destruct (Hst i s l E Hi) as (recs & [_ _ Hs _] & ->). by apply tag_sorted.
  - apply lookup_ge_None in E. apply lookup_lt_Some in Hi. lia.
Qed.

(** One step of the merge: it hands out a least pending record. *)
Lemma next_record_rep r pend k rest :
  replay_rep r pend -> hpop (heap r) = Some (k, rest) ->
  exists r' l1 rec l l2, pend = l1 ++ ((k, rec) :: l) :: l2 /\
    Replay.next_record r = Ok (r', Some rec) /\ replay_rep r' (l1 ++ l :: l2) /\
    forall e, In e (concat pend) -> kle k e.1.
Proof.
  intros Hr Hpop. pose proof (rep_sorted _ _ Hr) as Hsorted. destruct Hr as [Hlen Hst Hw Hp].
  pose proof (hpop_min id _ _ _ Hw Hpop) as (Hperm & Hw' & Hmin).
  assert (Hin : k ∈ omap head_key pend).
  { apply list_elem_of_In. apply (Permutation_in _ Hp), (Permutation_in _ (symmetry Hperm)). by left. }
  apply list_elem_of_omap in Hin as (lk & Hlk & Hhead).
  apply list_elem_of_split in Hlk as (l1 & l2 & ->).
  destruct (streams r !! length l1) as [s|] eqn:Es.
  2: { apply lookup_ge_None in Es. rewrite Hlen, length_app in Es. cbn in Es. lia. }
  destruct (Hst (length l1) s lk Es) as (recs & Hs & Hlk); [by rewrite lookup_app_r, Nat.sub_diag|].
  destruct recs as [|rec recs]; [by subst lk|]. cbn in Hlk. subst lk. cbn in Hhead.
  injection Hhead as Hk.
  destruct (pull_rep s rec recs Hs) as (s' & Hpull & Hpr & Har & Hnone & Hs').
  assert (Hks : Replay.key_stream k = length l1)
    by (rewrite <- Hk; unfold Replay.key_stream; cbn; by rewrite Nat2Z.id).
  set (l := tag (s_priority s) (Z.of_nat (length l1)) (s_arrival s + 1) recs).
  set (s2 := match recs with
             | next :: _ => s' <| s_arrival := s_arrival s' + 1 |> <| s_head := Some next |>
             | [] => s' end).
  set (h2 := match recs with
             | next :: _ => hpush id (Replay.mkKey (EventRecord.ts next) (s_priority s) (Z.of_nat (length l1)) (s_arrival s + 1)) rest
             | [] => rest end).
  exists (mkReplay (<[length l1 := s2]> (streams r)) h2 (Some (EventRecord.ts rec)) (emitted r + 1)),
    l1, rec, l, l2.
  split; [rewrite <- Hk; done|]. split; [|split].
  - unfold Replay.next_record. rewrite Hpop. cbn [streams setter heap]. rewrite Hks, Es.
    rewrite (sr_head _ _ Hs). cbn [head]. rewrite Hpull. unfold s2, h2.
    destruct recs as [|next recs]; cbn [head]; [done|]. rewrite <- Hk. cbn. by rewrite Hpr, Har.
  - split; cbn [streams heap].
    + rewrite length_insert, Hlen, !length_app. done.
    + intros j sj lj Hj Hlj. destruct (decide (j = length l1)) as [->|Hne].
      * rewrite list_lookup_insert_eq in Hj by (apply lookup_lt_Some in Es; done).
        injection Hj as <-. rewrite lookup_app_r, Nat.sub_diag in Hlj by done.
        injection Hlj as <-. exists recs. unfold s2, l. destruct recs as [|next recs].
        -- split; [|done]. destruct (Hs' (s_arrival s')) as [H1 H2 H3 H4].
           cbn in *. split; auto.
        -- split; [apply Hs'|]. cbn. by rewrite Hpr, Har.
      * rewrite list_lookup_insert_ne in Hj by done. apply Hst; [done|].
        rewrite lookup_app in Hlj |- *. destruct (l1 !! j) eqn:Ej; [done|].
        apply lookup_ge_None in Ej. destruct (j - length l1)%nat eqn:Ed; [lia|]. done.
    + unfold h2. destruct recs; [done|]. by apply hpush_wf.
    + unfold h2, l. rewrite omap_heads_split.
      assert (Hrest : rest ≡ₚ omap head_key (l1 ++ l2)).
      { apply (Permutation_cons_inv (a := k)). rewrite <- Hperm, Hp, omap_heads_split. cbn. by rewrite Hk. }
      destruct recs as [|next recs]; cbn; [done|]. by rewrite hpush_Permutation, Hrest.
  - apply head_least; [done|]. intros j Hj. apply Hmin. by apply (Permutation_in _ (symmetry Hp)).
Qed.

Lemma next_record_done r pend :
  replay_rep r pend -> hpop (heap r) = None ->
  concat pend = [] /\ Replay.next_record r = Ok (r, None).
Proof.
  intros [_ _ _ Hp] Hpop. split; [|unfold Replay.next_record; by rewrite Hpop].
  assert (heap r = []) as Hn by (destruct (heap r); done). rewrite Hn in Hp.
  apply Permutation_nil_l in Hp. clear -Hp.
  induction pend as [|l pend IH]; [done|]. cbn in Hp |- *.
  destruct l as [|e l]; [by apply IH|done].
Qed.

(** Every key names the stream it is in. *)
Lemma rep_stream_index r pend j l e :
  replay_rep r pend -> pend !! j = Some l -> In e l -> e.1.2.2.1 = Z.of_nat j.
Proof.
  intros [Hlen Hst _ _] Hj He. destruct (streams r !! j) as [s|] eqn:E.
  - destruct (Hst j s l E Hj) as (recs & _ & ->). apply tag_In in He as (a & _ & -> & _). done.
  - apply lookup_ge_None in E. apply lookup_lt_Some in Hj. lia.
Qed.

(** The record handed out is strictly before everything left. *)
Lemma next_strictly_least r l1 k rec l l2 :
  replay_rep r (l1 ++ ((k, rec) :: l) :: l2) ->
  (forall e, In e (concat (l1 ++ ((k, rec) :: l) :: l2)) -> kle k e.1) ->
  forall e, In e (concat (l1 ++ l :: l2)) -> klt k e.1.
Proof.
  intros Hr Hle e He.
  assert (Hk : k.2.2.1 = Z.of_nat (length l1)).
  { apply (rep_stream_index r _ (length l1) ((k, rec) :: l) (k, rec) Hr); [|by left].
    by rewrite lookup_app_r, Nat.sub_diag. }
  pose proof (rep_sorted _ _ Hr) as Hs. apply Forall_app in Hs as [_ Hs].
  apply Forall_cons in Hs as [Hs _]. cbn in Hs. apply StronglySorted_inv in Hs as [_ Hs].
  rewrite Forall_map in Hs. rewrite List.Forall_forall in Hs.
  rewrite concat_app, in_app_iff in He. cbn [concat] in He. rewrite in_app_iff in He.
  assert (Hkle : kle k e.1).
  { apply Hle. rewrite concat_app. cbn. rewrite !in_app_iff. cbn. rewrite !in_app_iff. tauto. }
  destruct He as [He|[He|He]]; [|by apply Hs|]; apply kle_lt_or_eq in Hkle as [|Heq]; try done; exfalso.
  - apply in_concat in He as (lj & Hlj & He). apply list_elem_of_In, list_elem_of_lookup_1 in Hlj as [j Hj].
    pose proof (lookup_lt_Some _ _ _ Hj).
    pose proof (rep_stream_index r _ j lj e Hr (lookup_app_l_Some _ _ _ _ Hj) He). rewrite <- Heq in *. lia.
  - apply in_concat in He as (lj & Hlj & He). apply list_elem_of_In, list_elem_of_lookup_1 in Hlj as [j Hj].
    assert ((l1 ++ ((k, rec) :: l) :: l2) !! (length l1 + S j)%nat = Some lj) as Hj'.
    { rewrite lookup_app_r by lia. by replace (length l1 + S j - length l1)%nat with (S j) by lia. }
    pose proof (rep_stream_index r _ _ lj e Hr Hj' He). rewrite <- Heq in *. lia.
Qed.

Lemma collect_loop_spec fuel : forall r pend,
  replay_rep r pend -> (length (concat pend) <= fuel)%nat ->
  exists out, Replay.collect_loop fuel r = Ok out /\ merged pend out.
Proof.
  induction fuel as [|fuel IH]; intros r pend Hr Hf; cbn [Replay.collect_loop];
    (destruct (hpop (heap r)) as [[k rest]|] eqn:Hpop;
      [|destruct (next_record_done r pend Hr Hpop) as [Hnil ->]; exists [];
        split; [done|]; exists []; rewrite Hnil; repeat split; constructor]);
    destruct (next_record_rep r pend k rest Hr Hpop)
      as (r' & l1 & rec & l & l2 & -> & -> & Hr' & Hle).
  - rewrite concat_app, length_app in Hf. cbn in Hf. lia.
  - assert (Hperm : concat (l1 ++ ((k, rec) :: l) :: l2) ≡ₚ (k, rec) :: concat (l1 ++ l :: l2)).
    { rewrite !concat_app. cbn. symmetry. apply Permutation_middle. }
    destruct (IH r' (l1 ++ l :: l2) Hr') as (out & -> & lo & Hlo & Hs & ->).
    { rewrite (Permutation_length Hperm) in Hf. cbn in Hf. lia. }
    exists (rec :: map snd lo). split; [done|]. exists ((k, rec) :: lo).
    split; [by rewrite Hlo, Hperm|]. split; [|done]. cbn. constructor; [done|].
    apply Forall_map, List.Forall_forall. intros e He. apply (Permutation_in _ Hlo) in He.
    by apply (next_strictly_least r l1 k rec l l2 Hr Hle).
Qed.

(** *** Opening the streams *)

Definition builder_of (ss : list (string * Z * list EventRecord)) : ReplayBuilder.Builder :=
  map (fun s => (s.1.1, s.1.2, map Ok s.2)) ss.
Definition tagged_of (ss : list (string * Z * list EventRecord)) : list (list (Key * EventRecord)) :=
  tag_all 0 (map (fun s => (s.1.2, s.2)) ss).

Lemma open_step states h pend name prio recs :
  replay_rep (mkReplay states h None 0) pend -> ts_sorted recs ->
  exists states' h', ReplayBuilder.open (states, h) (name, prio, map Ok recs) = Ok (states', h') /\
    length states' = S (length states) /\
    replay_rep (mkReplay states' h' None 0) (pend ++ [tag prio (Z.of_nat (length states)) 0 recs]).
Proof.
  intros [Hlen Hst Hw Hp] Hs. cbn in Hlen, Hst, Hw, Hp. unfold ReplayBuilder.open.
  destruct (pull_fresh name prio recs Hs) as (s' & -> & Hpr & Har & Hrep).
  eexists _, _. split; [reflexivity|]. split; [rewrite length_app; cbn; lia|]. split; cbn [streams heap].
  - rewrite !length_app, Hlen. done.
  - intros i s l Hi Hl. destruct (decide (i < length states)%nat) as [Hlt|Hge].
    + rewrite lookup_app_l in Hi by lia. rewrite lookup_app_l in Hl by lia. by apply Hst.
    + rewrite lookup_app_r in Hi by lia. rewrite lookup_app_r in Hl by lia. rewrite <- Hlen in Hl.
      destruct (i - length states)%nat as [|n] eqn:E; [|done].
      injection Hi as <-. injection Hl as <-. exists recs. split; [done|]. cbn.
      rewrite Hpr, Har. do 2 f_equal. lia.
  - destruct recs; cbn [head]; [done|]. by apply hpush_wf.
  - rewrite omap_app. destruct recs as [|r recs]; cbn; [by rewrite Hp, app_nil_r|].
    rewrite hpush_Permutation, Hp. apply Permutation_cons_append.
Qed.

Lemma build_fold ss : forall states h pend,
  replay_rep (mkReplay states h None 0) pend -> Forall (fun s => ts_sorted s.2) ss ->
  exists states' h', foldr_res ReplayBuilder.open (states, h) (builder_of ss) = Ok (states', h') /\
    replay_rep (mkReplay states' h' None 0)
      (pend ++ tag_all (Z.of_nat (length states)) (map (fun s => (s.1.2, s.2)) ss)).
Proof.
  induction ss as [|[[name prio] recs] ss IH]; intros states h pend Hr Hs; cbn [builder_of map foldr_res].
  - exists states, h. split; [done|]. cbn. by rewrite app_nil_r.
  - apply Forall_cons in Hs as [Hs1 Hs].
    destruct (open_step states h pend name prio recs Hr Hs1) as (st & h1 & Ho & Hl & Hr1).
    cbn [fst snd] in *. rewrite Ho. destruct (IH st h1 _ Hr1 Hs) as (st' & h' & Hf & Hr').
    exists st', h'. split; [done|]. cbn [tag_all fst snd map].
    rewrite <- app_assoc in Hr'. cbn [app] in Hr'.
    by replace (Z.of_nat (length states) + 1) with (Z.of_nat (length st)) by lia.
Qed.

Lemma remaining_rep r pend : replay_rep r pend -> Replay.remaining r = length (concat pend).
Proof.
  intros [Hlen Hst _ Hp]. unfold Replay.remaining. rewrite (Permutation_length Hp). clear Hp.
  revert Hlen Hst. generalize (streams r) as ss.
  assert (Hgen : forall ss pend, length ss = length pend ->
    (forall i s l, ss !! i = Some s -> pend !! i = Some l ->
      exists recs, stream_rep s recs /\ length l = length recs /\ (head_key l = None <-> recs = [])) ->
    (length (omap head_key pend) + length (concat (map s_source ss)) = length (concat pend))%nat).
  { induction ss as [|s ss IH]; intros [|l pd] Hlen Hst; try done. cbn in Hlen.
    specialize (IH pd ltac:(lia) (fun i => Hst (S i))).
    destruct (Hst 0%nat s l eq_refl eq_refl) as (recs & [_ Hsrc _ _] & Hl & Hh).
    change (omap head_key (l :: pd)) with
      (match head_key l with Some k => k :: omap head_key pd | None => omap head_key pd end).
    cbn [map concat]. rewrite !length_app, Hsrc, length_map, Hl.
    destruct recs as [|r0 recs]; cbn [tail length].
    - rewrite (proj2 Hh eq_refl). cbn. exact IH.
    - destruct (head_key l); [|discriminate (proj1 Hh eq_refl)]. cbn [length]. lia. }
  intros ss Hlen Hst. apply Hgen; [done|]. intros i s l Hi Hl.
  destruct (Hst i s l Hi Hl) as (recs & Hrep & ->). exists recs. split; [done|].
  split; [apply tag_length|]. by destruct recs.
Qed.

(** *** Streams that are refused *)

(** A source yields records only, none before its predecessor. *)
Fixpoint good_from (last : option Z) (src : RecordSource) : Prop :=
  match src with
  | [] => True
  | Err _ :: _ => False
  | Ok r :: rest =>
      match last with Some p => p <= EventRecord.ts r | None => True end /\
      good_from (Some (EventRecord.ts r)) rest
  end.

Lemma pull_good s s' next :
  StreamState.pull s = Ok (s', next) ->
  (good_from (s_last_ts s') (s_source s') -> good_from (s_last_ts s) (s_source s)) /\
  (next = None -> s_source s' = []) /\ s_head s' = s_head s.
Proof.
  unfold StreamState.pull. destruct (s_source s) as [|x rest] eqn:E.
  - intros [= <- <-]. rewrite E. auto.
  - cbn [s_last_ts s_name setter]. destruct x as [rec|]; [|done]. cbn [good_from].
    destruct (s_last_ts s) as [p|]; [destruct (_ <? p) eqn:El; [done|]; bool_prop|];
      intros [= <- <-]; cbn; (split; [auto|done]).
Qed.

(** Every stream with a head is filed, and one without has run dry. *)
Definition filed (r : Replay) : Prop :=
  forall i s, streams r !! i = Some s ->
    match s_head s with
    | None => s_source s = []
    | Some _ => exists k, In k (heap r) /\ Replay.key_stream k = i
    end.
Definition all_good (r : Replay) : Prop :=
  Forall (fun s => good_from (s_last_ts s) (s_source s)) (streams r).

Lemma next_record_filed r r' rec :
  filed r -> Forall (fun k => 0 <= k.2.2.1) (heap r) ->
  Replay.next_record r = Ok (r', Some rec) ->
  filed r' /\ Forall (fun k => 0 <= k.2.2.1) (heap r') /\ (all_good r' -> all_good r).
Proof.
  intros Hf Hk. unfold Replay.next_record. destruct (heap r) as [|k rest] eqn:Eh; [done|]. cbn [hpop].
  apply Forall_cons in Hk as [Hk0 Hk]. cbn [streams setter heap].
  destruct (streams r !! Replay.key_stream k) as [s|] eqn:Es; [|done].
  destruct (s_head s) as [rec0|] eqn:Ehd; [|done].
  destruct (StreamState.pull _) as [[s1 next]|] eqn:Ep; [|done].
  destruct (pull_good _ _ _ Ep) as (Hg & Hn & Hh). cbn in Hg, Hh.
  assert (Hlt := lookup_lt_Some _ _ _ Es).
  assert (Hgood : forall s2, s_last_ts s2 = s_last_ts s1 -> s_source s2 = s_source s1 ->
    Forall (fun s => good_from (s_last_ts s) (s_source s)) (<[Replay.key_stream k := s2]> (streams r)) ->
    all_good r).
  { intros s2 H1 H2 Hall. unfold all_good. rewrite Forall_lookup in Hall |- *. intros i x Hx.
    destruct (decide (i = Replay.key_stream k)) as [->|Hne].
    - rewrite Es in Hx. injection Hx as <-. apply Hg.
      specialize (Hall (Replay.key_stream k) s2). rewrite H1, H2 in Hall. apply Hall.
      by rewrite list_lookup_insert_eq.
    - apply (Hall i). by rewrite list_lookup_insert_ne. }
  destruct next as [nx|]; intros [= <- <-]; (split; [|split]); cbn [heap streams setter].
  - intros i x Hx. cbn [streams setter heap] in Hx |- *. destruct (decide (i = Replay.key_stream k)) as [->|Hne].
    + rewrite list_lookup_insert_eq in Hx by done. injection Hx as <-. cbn.
      eexists. split; [apply (Permutation_in _ (symmetry (hpush_Permutation id _ _))); by left|].
      unfold Replay.key_stream. done.
    + rewrite list_lookup_insert_ne in Hx by done. specialize (Hf i x Hx).
      destruct (s_head x); [|done]. destruct Hf as (k2 & Hin & Hk2). rewrite Eh in Hin.
      destruct Hin as [<-|Hin]; [done|]. exists k2. split; [|done].
      apply (Permutation_in _ (symmetry (hpush_Permutation id _ _))). by right.
  - rewrite hpush_Permutation. by constructor.
  - by apply Hgood.
  - intros i x Hx. cbn [streams setter heap] in Hx |- *. destruct (decide (i = Replay.key_stream k)) as [->|Hne].
    + rewrite list_lookup_insert_eq in Hx by done. injection Hx as <-. rewrite Hh. auto.
    + rewrite list_lookup_insert_ne in Hx by done. specialize (Hf i x Hx).
      destruct (s_head x); [|done]. destruct Hf as (k2 & Hin & Hk2). rewrite Eh in Hin.
      destruct Hin as [<-|Hin]; [done|]. exists k2. done.
  - done.
  - by apply Hgood.
Qed.

Lemma collect_loop_good fuel : forall r out,
  filed r -> Forall (fun k => 0 <= k.2.2.1) (heap r) ->
  Replay.collect_loop fuel r = Ok out -> all_good r.
Proof.
  induction fuel as [|fuel IH]; intros r out Hf Hk H; cbn [Replay.collect_loop] in H;
    destruct (Replay.next_record r) as [[r1 [rec|]]|] eqn:E; try done.
  2: { destruct (next_record_filed r r1 rec Hf Hk E) as (Hf1 & Hk1 & Hg).
       destruct (Replay.collect_loop fuel r1) eqn:E1; [|done]. eauto. }
  all: unfold Replay.next_record in E; destruct (heap r) as [|k rest] eqn:Eh; cbn [hpop] in E.
  2, 4: res_inv_in E.
  all: apply Forall_lookup; intros i s Hs; specialize (Hf i s Hs); destruct (s_head s).
  1, 3: destruct Hf as (k & Hin & _); rewrite Eh in Hin; done.
  all: by rewrite Hf.
Qed.

Lemma open_filed st s st' :
  filed (mkReplay st.1 st.2 None 0) -> Forall (fun k : Key => 0 <= k.2.2.1) st.2 ->
  ReplayBuilder.open st s = Ok st' ->
  filed (mkReplay st'.1 st'.2 None 0) /\ Forall (fun k : Key => 0 <= k.2.2.1) st'.2 /\
  (all_good (mkReplay st'.1 st'.2 None 0) ->
   all_good (mkReplay st.1 st.2 None 0) /\ good_from None s.2).
Proof.
  destruct st as [states h], s as [[name prio] src]. cbn [fst snd]. intros Hf Hk.
  unfold ReplayBuilder.open. destruct (StreamState.pull _) as [[s1 head]|] eqn:Ep; [|done].
  destruct (pull_good _ _ _ Ep) as (Hg & Hn & Hh). cbn in Hg, Hh. intros [= <-]. cbn [fst snd].
  split; [|split].
  - intros i x Hx. cbn [streams heap] in *. destruct (decide (i < length states)%nat) as [Hlt|Hge].
    + rewrite lookup_app_l in Hx by done. specialize (Hf i x Hx). cbn in Hf.
      destruct (s_head x); [|done]. destruct Hf as (k & Hin & Hki). exists k. split; [|done].
      destruct head; [|done]. apply (Permutation_in _ (symmetry (hpush_Permutation id _ _))). by right.
    + rewrite lookup_app_r in Hx by lia. destruct (i - length states)%nat as [|n] eqn:E; [|done].
      injection Hx as <-. cbn. destruct head as [rec|]; [|auto].
      eexists. split; [apply (Permutation_in _ (symmetry (hpush_Permutation id _ _))); by left|].
      unfold Replay.key_stream. cbn. lia.
  - destruct head; [|done]. rewrite hpush_Permutation. constructor; [cbn; lia|done].
  - unfold all_good. cbn [streams]. intros [H1 H2]%Forall_app. split; [done|].
    apply Forall_cons in H2 as [H2 _]. cbn in H2. by apply Hg.
Qed.

(** Good sources are vectors of ordered records. *)
Lemma good_from_records last src :
  good_from last src -> exists recs, src = map Ok recs /\ ts_sorted recs /\
    match last with Some p => Forall (fun r => p <= EventRecord.ts r) recs | None => True end.
Proof.
  revert last. induction src as [|[r|] src IH]; intros last; cbn; [|intros [Hl Hg]|done].
  - intros _. exists []. split; [done|]. split; [constructor|]. by destruct last.
  - destruct (IH _ Hg) as (recs & -> & Hs & Hle). exists (r :: recs). split; [done|].
    split; [by constructor|]. destruct last as [p|]; [|done]. constructor; [done|].
    eapply Forall_impl; [exact Hle|]. cbn. lia.
Qed.

(** ** Properties *)

(** C8 The merge of sorted streams is total and deterministic: it succeeds, and its
    output is the unique arrangement of all the streams' records in increasing order of
    [(ts_init, priority, stream index, arrival index)]; nothing is lost, repeated or
    moved before something it follows. *)
Theorem replay_merges ss :
  Forall (fun s => ts_sorted s.2) ss ->
  exists r out, ReplayBuilder.build (builder_of ss) = Ok r /\ Replay.collect_all r = Ok out /\
    forall out', merged (tagged_of ss) out' <-> out' = out.
Proof.
  intros Hs. unfold ReplayBuilder.build.
  destruct (build_fold ss [] [] []) as (st & h & -> & Hr); [split; cbn; try done; constructor|done|].
  cbn [app length] in Hr. change (Z.of_nat 0) with 0 in Hr. fold (tagged_of ss) in Hr.
  unfold Replay.collect_all.
  destruct (collect_loop_spec (Replay.remaining (mkReplay st h None 0)) _ _ Hr) as (out & Hc & Hm).
  { by rewrite (remaining_rep _ _ Hr). }
  exists (mkReplay st h None 0), out. split; [done|]. split; [done|]. intros out'. split; [|by intros ->].
  destruct Hm as (l & Hp & Hsl & ->). intros (l' & Hp' & Hsl' & ->). f_equal.
  apply bwf_ext; [done|done|]. intros k.
  assert (Hiff : forall v, bget k l' = Some v <-> bget k l = Some v).
  { intros v. rewrite <- (bwf_In_iff k v l' Hsl'), <- (bwf_In_iff k v l Hsl).
    split; apply Permutation_in; [by rewrite Hp'|by rewrite Hp]. }
  destruct (bget k l') as [v|] eqn:E1, (bget k l) as [v2|] eqn:E2; try done.
  - by rewrite (proj1 (Hiff v) eq_refl).
  - discriminate (proj1 (Hiff v) eq_refl).
  - discriminate (proj2 (Hiff v2) eq_refl).
Qed.

Definition demo_record (ts : Z) (i : InstrumentId) : EventRecord :=
  mkEventRecord (Stamps.immediate ts) i 0 EvGap.
Definition demo_streams : list (string * Z * list EventRecord) :=
  [("trades", priority.TRADE, [demo_record 1 "a"; demo_record 5 "b"; demo_record 5 "c"]);
   ("deltas", priority.DELTA, [demo_record 2 "d"; demo_record 5 "e"])].

Example replay_merges_witness :
  exists r out, ReplayBuilder.build (builder_of demo_streams) = Ok r /\ Replay.collect_all r = Ok out /\
    map rec_instrument out = ["a"; "d"; "e"; "b"; "c"].
Proof.
  destruct (replay_merges demo_streams) as (r & out & H1 & H2 & _).
  - repeat apply List.Forall_cons; try apply List.Forall_nil; repeat constructor; cbn; lia.
  - exists r, out. split; [exact H1|]. split; [exact H2|].
    vm_compute in H1. injection H1 as <-. vm_compute in H2. injection H2 as <-. reflexivity.
Defined.

(** A replay that drains without error had only well-formed streams: a source that
    yields an error or a record before its predecessor makes the build or the drain
    fail, however deep in the stream it hides. *)
Theorem replay_refuses_disorder b r out :
  ReplayBuilder.build b = Ok r -> Replay.collect_all r = Ok out ->
  Forall (fun s => exists recs, s.2 = map Ok recs /\ ts_sorted recs) b.
Proof.
  unfold ReplayBuilder.build. destruct (foldr_res _ _ b) as [[st h]|] eqn:E; [|done].
  intros [= <-] Hc. unfold Replay.collect_all in Hc.
  enough (Hgen : forall b st0 st1, foldr_res ReplayBuilder.open st0 b = Ok st1 ->
    filed (mkReplay st0.1 st0.2 None 0) -> Forall (fun k : Key => 0 <= k.2.2.1) st0.2 ->
    filed (mkReplay st1.1 st1.2 None 0) /\ Forall (fun k : Key => 0 <= k.2.2.1) st1.2 /\
    (all_good (mkReplay st1.1 st1.2 None 0) ->
      all_good (mkReplay st0.1 st0.2 None 0) /\ Forall (fun s => good_from None s.2) b)).
  { destruct (Hgen b _ _ E) as (Hf & Hk & Hg); [by intros [|i]|constructor|].
    apply collect_loop_good in Hc; [|done..].
    eapply Forall_impl; [exact (proj2 (Hg Hc))|]. intros s Hs.
    destruct (good_from_records _ _ Hs) as (recs & ? & ? & _). eauto. }
  clear. induction b as [|s b IH]; intros st0 st1 H Hf Hk; cbn [foldr_res] in H.
  - injection H as <-. auto.
  - destruct (ReplayBuilder.open st0 s) as [st2|] eqn:Eo; [|done].
    destruct (open_filed _ _ _ Hf Hk Eo) as (Hf2 & Hk2 & Hg2).
    destruct (IH st2 st1 H Hf2 Hk2) as (Hf1 & Hk1 & Hg1). split; [done|]. split; [done|].
    intros Hg. destruct (Hg1 Hg) as [Hg3 Hb]. destruct (Hg2 Hg3). auto.
Qed.

Example replay_refuses_disorder_witness :
  exists r out, ReplayBuilder.build (builder_of demo_streams) = Ok r /\
    Replay.collect_all r = Ok out /\
    Forall (fun s => exists recs, s.2 = map Ok recs /\ ts_sorted recs) (builder_of demo_streams).
Proof.
  destruct (ReplayBuilder.build (builder_of demo_streams)) as [r|] eqn:E1; [|vm_compute in E1; discriminate].
  destruct (Replay.collect_all r) as [out|] eqn:E2.
  2: { vm_compute in E1. injection E1 as <-. vm_compute in E2. discriminate. }
  exists r, out. split; [reflexivity|]. split; [exact E2|].
  exact (replay_refuses_disorder _ r out E1 E2).
Defined.
