(* ===== verification/Execution.v ===== *)
(** * The execution seam

    Models [execution.rs]: the instructions that leave a strategy, the client trait as
    a type class, and the simulator's client, which records what was sent. *)
From S2P Require Export Order.

Inductive ExecutionCommand :=
| ExSubmit (order : Order)
| ExCancel (id : OrderId)
| ExAmend (id : OrderId) (quantity : option Qty) (limit : option Price).

Module ExecutionCommand.
Definition order_id (c : ExecutionCommand) : OrderId :=
  match c with ExSubmit o => o_id o | ExCancel id => id | ExAmend id _ _ => id end.
Definition kind (c : ExecutionCommand) : string :=
  match c with ExSubmit _ => "submit" | ExCancel _ => "cancel" | ExAmend _ _ _ => "amend" end.
End ExecutionCommand.

Class ExecutionClient (C : Type) := {
  client_venue : C -> string;
  send : C -> ExecutionCommand -> UnixNanos -> Result C;
  sent : C -> nat;
}.

Record SimulatedExecution := mkSimulatedExecution {
  sim_venue : string;
  log : list (UnixNanos * ExecutionCommand);
}.

Module SimulatedExecution.
Definition new (venue : string) : SimulatedExecution := mkSimulatedExecution venue [].

Definition send (c : SimulatedExecution) (command : ExecutionCommand) (ts : UnixNanos)
  : Result SimulatedExecution :=
  Ok (mkSimulatedExecution (sim_venue c) (log c ++ [(ts, command)])).

Definition dash (o : option Z) : string :=
  match o with Some v => display_fixed v | None => "-" end.

(** One line of the instruction stream; an [OrderId] prints as [O] and its number. *)
Definition fingerprint_line (e : UnixNanos * ExecutionCommand) : string :=
  show_int e.1 +:+
  match e.2 with
  | ExSubmit order =>
      " submit " +:+ o_instrument order +:+ " " +:+ show_int (o_outcome order) +:+ " " +:+
      Side.as_str (o_side order) +:+ " " +:+ display_fixed (o_quantity order)
  | ExCancel id => " cancel O" +:+ show_int id
  | ExAmend id quantity limit =>
      " amend O" +:+ show_int id +:+ " qty=" +:+ dash quantity +:+ " px=" +:+ dash limit
  end.
Definition fingerprint (c : SimulatedExecution) : list string := map fingerprint_line (log c).
End SimulatedExecution.

#[export] Instance client_SimulatedExecution : ExecutionClient SimulatedExecution := {
  client_venue := sim_venue;
  send := SimulatedExecution.send;
  sent c := length (log c);
}.

Example fingerprint_amend :
  SimulatedExecution.fingerprint
    (mkSimulatedExecution "sim" [(7, ExAmend 3 (Some (5 * SCALE)) None); (9, ExCancel 3)]) =
  ["7 amend O3 qty=5 px=-"; "9 cancel O3"].
Proof. reflexivity. Qed.
