(* ===== verification/EngineIndex.v ===== *)
(** * The engine's indexes: slots and resting orders

    Models [Slots] and [RestingIndex] of [engine.rs].  A [Slot] is its [u32]; the
    index keeps, per slot and side, the ids resting at each limit, as a sorted list
    without duplicates: [binary_search] followed by [insert] at the place it reports
    is insertion in order.  The out-parameters that collect ids are returned.  The
    theorem: after any sequence of insertions and removals the index holds exactly the
    orders it should, and each query answers what a scan over them would, in the order
    the matcher relies on. *)
From S2P Require Export Order.

Abbreviation Slot := Z (only parsing).

(** Unchecked [u32] arithmetic. *)
Definition wrap_u32 (z : Z) : Z := z mod 4294967296.

Record Slots := mkSlots {
  by_instrument : gmap string (Z * Z);
  back : list (InstrumentId * OutcomeId);
}.

Module Slots.
(** [Slot::MISSING]. *)
Definition MISSING : Slot := 4294967295.

(** The loop over the sorted ids. *)
Definition build_one (instruments : InstrumentSet) (slots : Slots) (id : InstrumentId) : Slots :=
  match InstrumentSet.get instruments id with
  | Err _ => slots
  | Ok instrument =>
      let count := Instrument.outcome_count instrument in
      let base := wrap_u32 (Z.of_nat (length (back slots))) in
      mkSlots (<[id := (base, count)]> (by_instrument slots))
        (back slots ++ map (fun outcome => (id, outcome)) (Instrument.outcome_ids instrument))
  end.
Definition build (instruments : InstrumentSet) : Slots :=
  fold_left (build_one instruments) (InstrumentSet.ids instruments) (mkSlots ∅ []).

Definition resolve (s : Slots) (instrument : InstrumentId) (outcome : OutcomeId) : Result Slot :=
  match by_instrument s !! instrument with
  | None => Err (UnknownInstrument instrument)
  | Some (base, count) =>
      if count <=? outcome then Err (UnknownOutcome instrument outcome count)
      else Ok (wrap_u32 (base + outcome))
  end.

Definition key (s : Slots) (instrument : InstrumentId) (outcome : OutcomeId) : Slot :=
  match by_instrument s !! instrument with
  | Some (base, count) => if outcome <? count then wrap_u32 (base + outcome) else MISSING
  | None => MISSING
  end.

Definition all_for (s : Slots) (instrument : InstrumentId) : list Slot :=
  match by_instrument s !! instrument with
  | Some (base, count) =>
      map (fun step => wrap_u32 (base + Z.of_nat step)) (seq 0 (Z.to_nat count))
  | None => []
  end.

Definition name (s : Slots) (slot : Slot) : InstrumentId * OutcomeId :=
  default ("<unknown>", 0) (back s !! Z.to_nat slot).
End Slots.

(** ** The resting index *)

Record QueueLevels := mkQueueLevels {
  ql_buys : BTree Raw (list OrderId);
  ql_sells : BTree Raw (list OrderId);
}.
#[export] Instance eta_QueueLevels : Eta QueueLevels := fun q =>
  mkQueueLevels (ql_buys q) (ql_sells q).

Abbreviation RestingIndex := (BTree Slot QueueLevels) (only parsing).

(** [binary_search] then [insert]: nothing when the id is already there. *)
Fixpoint ids_insert (id : OrderId) (ids : list OrderId) : list OrderId :=
  match ids with
  | [] => [id]
  | x :: ids' =>
      if id =? x then ids else if id <? x then id :: ids else x :: ids_insert id ids'
  end.
(** [binary_search] then [remove]. *)
Fixpoint ids_remove (id : OrderId) (ids : list OrderId) : list OrderId :=
  match ids with
  | [] => []
  | x :: ids' => if id =? x then ids' else x :: ids_remove id ids'
  end.

Module RestingIndex.
Definition side_levels (side : Side) (q : QueueLevels) : BTree Raw (list OrderId) :=
  match side with Buy => ql_buys q | Sell => ql_sells q end.
Definition set_side (side : Side) (q : QueueLevels) (ls : BTree Raw (list OrderId))
  : QueueLevels :=
  match side with Buy => q <| ql_buys := ls |> | Sell => q <| ql_sells := ls |> end.

Definition insert (idx : RestingIndex) (order : Order) (slot : Slot) : RestingIndex :=
  match Order.limit_price order with
  | None => idx
  | Some limit =>
      let market := default (mkQueueLevels [] []) (bget slot idx) in
      let levels := side_levels (o_side order) market in
      let ids := default [] (bget limit levels) in
      binsert slot
        (set_side (o_side order) market (binsert limit (ids_insert (o_id order) ids) levels)) idx
  end.

(** The [if let Some(ids)] block of [remove]: the id leaves its level. *)
Definition drop_id (order : Order) (limit : Price) (market : QueueLevels) : QueueLevels :=
  let levels := side_levels (o_side order) market in
  match bget limit levels with
  | None => market
  | Some ids =>
      let ids := ids_remove (o_id order) ids in
      set_side (o_side order) market
        (match ids with
         | [] => bremove limit levels
         | _ => binsert limit ids levels
         end)
  end.

Definition remove (idx : RestingIndex) (order : Order) (slot : Slot) : RestingIndex :=
  match Order.limit_price order with
  | None => idx
  | Some limit =>
      match bget slot idx with
      | None => idx
      | Some market =>
          let market := drop_id order limit market in
          match ql_buys market, ql_sells market with
          | [], [] => bremove slot idx
          | _, _ => binsert slot market idx
          end
      end
  end.

(** Every id of some levels with its price, level by level. *)
Definition level_ids (ls : BTree Raw (list OrderId)) : list (Price * OrderId) :=
  flat_map (fun l => map (fun id => (l.1, id)) l.2) ls.

Definition reached_by_trade (idx : RestingIndex) (key : Slot) (passive : Side)
  (trade_price : Price) : list (Price * OrderId) :=
  match bget key idx with
  | None => []
  | Some market =>
      match passive with
      | Buy => level_ids (rev (brange_from trade_price (ql_buys market)))
      | Sell => level_ids (brange_to trade_price (ql_sells market))
      end
  end.

Definition crossing_top (idx : RestingIndex) (key : Slot) (best_bid best_ask : option Price)
  : list OrderId :=
  match bget key idx with
  | None => []
  | Some market =>
      (match best_ask with
       | Some ask => flat_map snd (brange_from ask (ql_buys market))
       | None => []
       end) ++
      (match best_bid with
       | Some bid => flat_map snd (brange_to bid (ql_sells market))
       | None => []
       end)
  end.

Definition all_for_market (idx : RestingIndex) (key : Slot) : list OrderId :=
  match bget key idx with
  | None => []
  | Some market => flat_map snd (ql_buys market) ++ flat_map snd (ql_sells market)
  end.
End RestingIndex.

(** ** Invariant and specification *)

(** Levels in price order, none empty, ids in order without duplicates. *)
Definition levels_wf (ls : BTree Raw (list OrderId)) : Prop :=
  bwf ls /\ Forall (fun ids => ids <> [] /\ StronglySorted Z.lt ids) (bvalues ls).
Definition market_wf (q : QueueLevels) : Prop :=
  levels_wf (ql_buys q) /\ levels_wf (ql_sells q) /\ (ql_buys q <> [] \/ ql_sells q <> []).
Definition index_wf (idx : RestingIndex) : Prop :=
  bwf idx /\ Forall market_wf (bvalues idx).

(** The ids resting at a price of one side of a slot. *)
Definition ids_at (idx : RestingIndex) (slot : Slot) (side : Side) (price : Price) : list OrderId :=
  match bget slot idx with
  | Some market => default [] (bget price (RestingIndex.side_levels side market))
  | None => []
  end.
Definition rests (idx : RestingIndex) (slot : Slot) (side : Side) (price : Price) (id : OrderId)
  : Prop := In id (ids_at idx slot side price).

(** Maintenance as a sequence of operations on limit orders. *)
Inductive index_op :=
| IxInsert (order : Order) (slot : Slot)
| IxRemove (order : Order) (slot : Slot).
Definition index_step (idx : RestingIndex) (op : index_op) : RestingIndex :=
  match op with
  | IxInsert o s => RestingIndex.insert idx o s
  | IxRemove o s => RestingIndex.remove idx o s
  end.
(** The set the index stands for: what was inserted and not removed since. *)
Definition concerns (o : Order) (s slot : Slot) (side : Side) (price : Price) (id : OrderId)
  : Prop := s = slot /\ o_side o = side /\ Order.limit_price o = Some price /\ o_id o = id.
Definition spec_step (slot : Slot) (side : Side) (price : Price) (id : OrderId)
  (here : Prop) (op : index_op) : Prop :=
  match op with
  | IxInsert o s => here \/ concerns o s slot side price id
  | IxRemove o s => here /\ ~ concerns o s slot side price id
  end.

(** Best price first for the passive side, then submission order. *)
Definition queue_before (passive : Side) (a b : Price * OrderId) : Prop :=
  match passive with Buy => b.1 < a.1 | Sell => a.1 < b.1 end \/ (a.1 = b.1 /\ a.2 < b.2).

(** ** Lemmas *)

Lemma ids_insert_In id ids x : In x (ids_insert id ids) <-> x = id \/ In x ids.
Proof.
  induction ids as [|y ids IH]; cbn; [intuition|].
  destruct (Z.eqb_spec id y) as [->|]; [cbn; intuition|].
  destruct (id <? y); cbn; rewrite ?IH; intuition.
Qed.

Lemma ids_insert_sorted id ids :
  StronglySorted Z.lt ids -> StronglySorted Z.lt (ids_insert id ids).
Proof.
  induction 1 as [|y ids Hs IH Hy]; cbn; [repeat constructor|].
  destruct (Z.eqb_spec id y); [by constructor|].
  destruct (Z.ltb_spec id y).
  - repeat constructor; auto. eapply Forall_impl; [exact Hy|]. cbn; lia.
  - constructor; [done|]. apply List.Forall_forall. intros x [-> | Hx]%ids_insert_In; [lia|].
    rewrite List.Forall_forall in Hy. auto.
Qed.

Lemma ids_insert_nonempty id ids : ids_insert id ids <> [].
Proof. destruct ids; cbn; [done|]. by repeat case_match. Qed.

Lemma ids_remove_In id ids x :
  StronglySorted Z.lt ids -> In x (ids_remove id ids) <-> In x ids /\ x <> id.
Proof.
  induction 1 as [|y ids Hs IH Hy]; cbn; [tauto|].
  rewrite List.Forall_forall in Hy. destruct (Z.eqb_spec id y) as [->|].
  - split; [intros Hx; specialize (Hy _ Hx); split; [auto|lia] | intros [[->|] ?]; auto; done].
  - cbn. rewrite IH. intuition congruence.
Qed.

Lemma ids_remove_sorted id ids :
  StronglySorted Z.lt ids -> StronglySorted Z.lt (ids_remove id ids).
Proof.
  induction 1 as [|y ids Hs IH Hy]; cbn; [constructor|]. case_match; [done|].
  constructor; [done|]. apply List.Forall_forall. intros x Hx.
  rewrite List.Forall_forall in Hy. apply Hy. by apply ids_remove_In in Hx as [? _].
Qed.

Lemma side_set_eq side q ls :
  RestingIndex.side_levels side (RestingIndex.set_side side q ls) = ls.
Proof. by destruct side. Qed.
Lemma side_set_ne side side' q ls : side <> side' ->
  RestingIndex.side_levels side' (RestingIndex.set_side side q ls) =
  RestingIndex.side_levels side' q.
Proof. by destruct side, side'. Qed.

Lemma index_get idx slot q : index_wf idx -> bget slot idx = Some q -> market_wf q.
Proof.
  intros [_ Hf] Hq%bget_In. rewrite List.Forall_forall in Hf. apply Hf.
  unfold bvalues. apply in_map_iff. by exists (slot, q).
Qed.

Lemma market_side_wf side q : market_wf q -> levels_wf (RestingIndex.side_levels side q).
Proof. intros (? & ? & _). by destruct side. Qed.

Lemma level_get ls price ids :
  levels_wf ls -> bget price ls = Some ids -> ids <> [] /\ StronglySorted Z.lt ids.
Proof.
  intros [_ Hf] Hg%bget_In. rewrite List.Forall_forall in Hf. apply Hf.
  unfold bvalues. apply in_map_iff. by exists (price, ids).
Qed.

Lemma levels_wf_insert ls price ids :
  levels_wf ls -> ids <> [] -> StronglySorted Z.lt ids -> levels_wf (binsert price ids ls).
Proof. intros [? ?] ? ?. split; [by apply bwf_insert|by apply Forall_values_insert]. Qed.

Lemma levels_wf_remove ls price : levels_wf ls -> levels_wf (bremove price ls).
Proof. intros [? ?]. split; [by apply bwf_remove|by apply Forall_values_filter]. Qed.

Lemma binsert_nonempty {V} (k : Z) (v : V) (m : BTree Z V) : binsert k v m <> [].
Proof. destruct m as [|[k1 v1] m]; cbn; [done|]. by case_match. Qed.

Lemma side_levels_new side : RestingIndex.side_levels side (mkQueueLevels [] []) = [].
Proof. by destruct side. Qed.

Lemma ids_at_insert idx o s limit slot side price :
  Order.limit_price o = Some limit ->
  ids_at (RestingIndex.insert idx o s) slot side price =
  if decide (s = slot /\ o_side o = side /\ limit = price)
  then ids_insert (o_id o) (ids_at idx slot side price) else ids_at idx slot side price.
Proof.
  intros Hl. unfold RestingIndex.insert, ids_at. rewrite Hl.
  destruct (decide (s = slot)) as [->|Hs];
    [rewrite bget_insert_eq|rewrite bget_insert_ne by congruence; by rewrite decide_False by tauto].
  destruct (decide (o_side o = side)) as [<-|Hd]; [rewrite side_set_eq|rewrite side_set_ne by done].
  - destruct (decide (limit = price)) as [->|];
      [rewrite bget_insert_eq, decide_True by done|rewrite bget_insert_ne, decide_False by naive_solver];
      destruct (bget slot idx); cbn; by rewrite ?side_levels_new.
  - rewrite decide_False by tauto. destruct (bget slot idx); cbn; by rewrite ?side_levels_new.
Qed.

Lemma drop_id_ids o limit q side price :
  default [] (bget price (RestingIndex.side_levels side (RestingIndex.drop_id o limit q))) =
  if decide (o_side o = side /\ limit = price)
  then ids_remove (o_id o) (default [] (bget price (RestingIndex.side_levels side q)))
  else default [] (bget price (RestingIndex.side_levels side q)).
Proof.
  unfold RestingIndex.drop_id.
  destruct (bget limit (RestingIndex.side_levels (o_side o) q)) as [ids|] eqn:Hg.
  2: { destruct (decide _) as [[<- <-]|]; [by rewrite Hg|done]. }
  destruct (decide (o_side o = side)) as [<-|Hd];
    [rewrite side_set_eq|rewrite side_set_ne, decide_False by tauto; done].
  destruct (decide (limit = price)) as [->|];
    [rewrite decide_True, Hg by done|rewrite decide_False by tauto]; cbn;
    destruct (ids_remove (o_id o) ids);
    rewrite ?bget_remove_eq, ?bget_insert_eq, ?bget_remove_ne, ?bget_insert_ne by congruence; done.
Qed.

Lemma ids_at_remove idx o s limit slot side price :
  Order.limit_price o = Some limit ->
  ids_at (RestingIndex.remove idx o s) slot side price =
  if decide (s = slot /\ o_side o = side /\ limit = price)
  then ids_remove (o_id o) (ids_at idx slot side price) else ids_at idx slot side price.
Proof.
  intros Hl. unfold RestingIndex.remove, ids_at. rewrite Hl.
  destruct (bget s idx) as [q|] eqn:Hq.
  2: { destruct (decide _) as [(-> & _)|]; [by rewrite Hq|done]. }
  pose proof (drop_id_ids o limit q side price) as Hids.
  destruct (decide (s = slot)) as [->|].
  - rewrite Hq. transitivity (default [] (bget price
      (RestingIndex.side_levels side (RestingIndex.drop_id o limit q)))).
    + destruct (ql_buys (RestingIndex.drop_id o limit q)) eqn:Eb,
        (ql_sells (RestingIndex.drop_id o limit q)) eqn:Es;
        rewrite ?bget_remove_eq, ?bget_insert_eq; try done.
      destruct side; cbn; by rewrite ?Eb, ?Es.
    + rewrite Hids. repeat case_decide; naive_solver.
  - rewrite decide_False by tauto.
    destruct (ql_buys (RestingIndex.drop_id o limit q)), (ql_sells (RestingIndex.drop_id o limit q));
      by rewrite ?bget_remove_ne, ?bget_insert_ne by congruence.
Qed.

Lemma index_insert_wf idx o s : index_wf idx -> index_wf (RestingIndex.insert idx o s).
Proof.
  intros Hi. unfold RestingIndex.insert. destruct (Order.limit_price o) as [limit|]; [|done].
  assert (Hm : levels_wf (ql_buys (default (mkQueueLevels [] []) (bget s idx))) /\
               levels_wf (ql_sells (default (mkQueueLevels [] []) (bget s idx)))).
  { destruct (bget s idx) as [q|] eqn:E; cbn; [|repeat constructor].
    by destruct (index_get _ _ _ Hi E) as (? & ? & _). }
  set (q := default (mkQueueLevels [] []) (bget s idx)) in *. destruct Hm as [Hb Hs].
  destruct Hi as [? ?]. split; [by apply bwf_insert|]. apply Forall_values_insert; [|done].
  assert (Hl : levels_wf (binsert limit (ids_insert (o_id o)
      (default [] (bget limit (RestingIndex.side_levels (o_side o) q))))
      (RestingIndex.side_levels (o_side o) q))).
  { apply levels_wf_insert; [by destruct (o_side o)|apply ids_insert_nonempty|].
    apply ids_insert_sorted.
    destruct (bget limit _) as [ids|] eqn:E; cbn; [|constructor].
    eapply level_get; [|exact E]. by destruct (o_side o). }
  unfold market_wf. destruct (o_side o); cbn in *; eauto using binsert_nonempty.
Qed.

Lemma drop_id_wf o limit q : market_wf q ->
  levels_wf (ql_buys (RestingIndex.drop_id o limit q)) /\
  levels_wf (ql_sells (RestingIndex.drop_id o limit q)).
Proof.
  intros Hm. unfold RestingIndex.drop_id.
  destruct (bget limit (RestingIndex.side_levels (o_side o) q)) as [ids|] eqn:Hg;
    [|by destruct Hm as (? & ? & _)].
  assert (Hl : levels_wf (match ids_remove (o_id o) ids with
    | [] => bremove limit (RestingIndex.side_levels (o_side o) q)
    | _ => binsert limit (ids_remove (o_id o) ids) (RestingIndex.side_levels (o_side o) q) end)).
  { destruct (level_get _ _ _ (market_side_wf _ _ Hm) Hg) as [_ Hsort].
    apply (ids_remove_sorted (o_id o)) in Hsort.
    destruct (ids_remove (o_id o) ids) eqn:E;
      [apply levels_wf_remove|apply levels_wf_insert]; by try apply market_side_wf. }
  destruct Hm as (? & ? & _). by destruct (o_side o).
Qed.

Lemma index_remove_wf idx o s : index_wf idx -> index_wf (RestingIndex.remove idx o s).
Proof.
  intros Hi. unfold RestingIndex.remove. destruct (Order.limit_price o) as [limit|]; [|done].
  destruct (bget s idx) as [q|] eqn:Hq; [|done].
  destruct (drop_id_wf o limit _ (index_get _ _ _ Hi Hq)) as [Hb Hs]. destruct Hi as [? ?].
  destruct (ql_buys (RestingIndex.drop_id o limit q)) eqn:Eb,
    (ql_sells (RestingIndex.drop_id o limit q)) eqn:Es;
    [split; [by apply bwf_remove|by apply Forall_values_filter]|..];
    (split; [by apply bwf_insert|apply Forall_values_insert; [|done]]);
    unfold market_wf; rewrite Eb, Es; auto.
Qed.

Lemma index_step_wf idx op : index_wf idx -> index_wf (index_step idx op).
Proof. destruct op; [apply index_insert_wf|apply index_remove_wf]. Qed.

Lemma ids_at_sorted idx slot side price :
  index_wf idx -> StronglySorted Z.lt (ids_at idx slot side price).
Proof.
  intros Hi. unfold ids_at. destruct (bget slot idx) as [q|] eqn:Hq; [|constructor].
  destruct (bget price (RestingIndex.side_levels side q)) as [ids|] eqn:Hg; [|constructor].
  eapply level_get; [|exact Hg]. eapply market_side_wf, index_get; eauto.
Qed.

(** One step changes who rests where as the set it stands for changes. *)
Lemma rests_step idx op slot side price id :
  index_wf idx ->
  rests (index_step idx op) slot side price id <->
  spec_step slot side price id (rests idx slot side price id) op.
Proof.
  intros Hi. unfold rests. destruct op as [o s|o s]; cbn; unfold concerns;
    (destruct (Order.limit_price o) as [limit|] eqn:Hl;
     [|unfold RestingIndex.insert, RestingIndex.remove; rewrite Hl; intuition congruence]).
  - rewrite (ids_at_insert _ _ _ _ _ _ _ Hl). case_decide as Hd.
    + rewrite ids_insert_In. destruct Hd as (-> & <- & ->). intuition congruence.
    + split; [tauto|]. intros [|(? & ? & [= ?] & ?)]; tauto.
  - rewrite (ids_at_remove _ _ _ _ _ _ _ Hl). case_decide as Hd.
    + rewrite ids_remove_In by by apply ids_at_sorted.
      destruct Hd as (-> & <- & ->). intuition congruence.
    + split; [|tauto]. intros ?. split; [done|]. intros (? & ? & [= ?] & ?). tauto.
Qed.

Lemma level_ids_In ls p id :
  In (p, id) (RestingIndex.level_ids ls) <-> exists ids, In (p, ids) ls /\ In id ids.
Proof.
  unfold RestingIndex.level_ids. rewrite in_flat_map. split.
  - intros ([p' ids] & Hin & Hm). apply in_map_iff in Hm as (? & [= -> ->] & Hid). eauto.
  - intros (ids & Hin & Hid). exists (p, ids). split; [done|]. apply in_map_iff. eauto.
Qed.

Lemma rests_In idx slot side price id :
  index_wf idx ->
  rests idx slot side price id <->
  exists market ids, bget slot idx = Some market /\
    In (price, ids) (RestingIndex.side_levels side market) /\ In id ids.
Proof.
  intros Hi. unfold rests, ids_at. destruct (bget slot idx) as [q|] eqn:Hq; [|naive_solver].
  destruct (market_side_wf side _ (index_get _ _ _ Hi Hq)) as [Hw _]. split.
  - destruct (bget price (RestingIndex.side_levels side q)) as [ids|] eqn:Hg; [|done].
    intros ?. exists q, ids. eauto using bget_In.
  - intros (? & ids & [= <-] & Hin & ?). apply bwf_In_get in Hin; [|done]. by rewrite Hin.
Qed.

(** Entries in level order with ids in order are in queue order. *)
Lemma level_ids_sorted passive (ls : list (Price * list OrderId)) :
  StronglySorted (fun a b => match passive with Buy => b.1 < a.1 | Sell => a.1 < b.1 end) ls ->
  Forall (fun l => StronglySorted Z.lt l.2) ls ->
  StronglySorted (queue_before passive) (RestingIndex.level_ids ls).
Proof.
  induction 1 as [|[p ids] ls Hs IH Hl]; intros Hf; [constructor|].
  apply Forall_cons in Hf as [Hids Hf]. cbn. apply StronglySorted_app. split_and!; [|..|by apply IH].
  - intros [p1 i1] [p2 i2] H1%list_elem_of_In%in_map_iff H2%list_elem_of_In%level_ids_In.
    destruct H1 as (? & [= <- <-] & _), H2 as (ids' & Hin & _).
    rewrite List.Forall_forall in Hl. left. exact (Hl _ Hin).
  - apply (StronglySorted_map (queue_before passive) (fun id => (p, id))).
    eapply StronglySorted_weaken; [|exact Hids]. intros a b ?. by right.
Qed.

Lemma reached_by_trade_In idx slot passive tp p id :
  index_wf idx ->
  In (p, id) (RestingIndex.reached_by_trade idx slot passive tp) <->
  rests idx slot passive p id /\ match passive with Buy => tp <= p | Sell => p <= tp end.
Proof.
  intros Hi. rewrite rests_In by done. unfold RestingIndex.reached_by_trade.
  destruct (bget slot idx) as [q|]; [|naive_solver].
  destruct passive; rewrite level_ids_In; [setoid_rewrite <- in_rev; setoid_rewrite brange_from_In
    |setoid_rewrite brange_to_In]; setoid_rewrite kle_Z; cbn; naive_solver.
Qed.

(** Some levels of a side, by price and within a price by submission. *)
Lemma side_filter_sorted q side (f : Price * list OrderId -> bool) : market_wf q ->
  StronglySorted (fun a b => a.1 < b.1) (List.filter f (RestingIndex.side_levels side q)) /\
  Forall (fun l => StronglySorted Z.lt l.2) (List.filter f (RestingIndex.side_levels side q)).
Proof.
  intros Hm. destruct (market_side_wf side _ Hm) as [Hw Hf]. split.
  - pose proof (bwf_filter f _ Hw) as Hw'. apply (StronglySorted_map klt fst) in Hw'.
    eapply StronglySorted_weaken; [|exact Hw']. intros a b. apply klt_Z.
  - apply (Forall_values_filter _ f) in Hf. apply Forall_map in Hf.
    eapply Forall_impl; [exact Hf|]. by intros ? [_ ?].
Qed.

Lemma reached_by_trade_sorted idx slot passive tp :
  index_wf idx ->
  StronglySorted (queue_before passive) (RestingIndex.reached_by_trade idx slot passive tp).
Proof.
  intros Hi. unfold RestingIndex.reached_by_trade.
  destruct (bget slot idx) as [q|] eqn:Hq; [|constructor].
  assert (Hp := fun side f => side_filter_sorted q side f (index_get _ _ _ Hi Hq)).
  destruct passive; apply level_ids_sorted; try apply (Hp Sell).
  - apply (StronglySorted_rev _ _ (proj1 (Hp Buy _))).
  - apply Forall_rev, (Hp Buy).
Qed.

(** The resting orders that satisfy [P], from the lowest price up. *)
Definition ascending (P : Price -> OrderId -> Prop) (l : list (Price * OrderId)) : Prop :=
  StronglySorted (queue_before Sell) l /\ forall p id, In (p, id) l <-> P p id.

Lemma ascending_nil (P : Price -> OrderId -> Prop) : (forall p id, ~ P p id) -> ascending P [].
Proof. intros HP. split; [constructor|]. intros p id. split; [done|]. intros H. by apply HP in H. Qed.

Lemma ascending_levels idx slot q side (f : Price -> bool) : index_wf idx -> bget slot idx = Some q ->
  ascending (fun p id => f p = true /\ rests idx slot side p id)
    (RestingIndex.level_ids (List.filter (fun l => f l.1) (RestingIndex.side_levels side q))).
Proof.
  intros Hi Hq. destruct (side_filter_sorted q side (fun l => f l.1) (index_get _ _ _ Hi Hq)) as [Hs Hf].
  split; [by apply (level_ids_sorted Sell)|]. intros p id. rewrite level_ids_In, rests_In by done.
  setoid_rewrite filter_In. cbn. naive_solver.
Qed.

Lemma level_ids_snd (ls : list (Price * list OrderId)) : map snd (RestingIndex.level_ids ls) = flat_map snd ls.
Proof.
  induction ls as [|[p ids] ls IH]; [done|]. unfold RestingIndex.level_ids in *. cbn. rewrite map_app, map_map, IH. f_equal. apply List.map_id.
Qed.

Lemma crossing_top_lists idx slot bid ask : index_wf idx -> exists bs ss,
  RestingIndex.crossing_top idx slot bid ask = map snd bs ++ map snd ss /\
  ascending (fun p id => exists a, ask = Some a /\ a <= p /\ rests idx slot Buy p id) bs /\
  ascending (fun p id => exists b, bid = Some b /\ p <= b /\ rests idx slot Sell p id) ss.
Proof.
  intros Hi. unfold RestingIndex.crossing_top. destruct (bget slot idx) as [q|] eqn:Hq.
  2: { exists [], []. split; [done|]. split; apply ascending_nil; unfold rests, ids_at; rewrite Hq; naive_solver. }
  exists (match ask with Some a => RestingIndex.level_ids (brange_from a (ql_buys q)) | None => [] end),
    (match bid with Some b => RestingIndex.level_ids (brange_to b (ql_sells q)) | None => [] end).
  split; [destruct ask, bid; by rewrite ?level_ids_snd|]. split.
  - destruct ask as [a|]; [|apply ascending_nil; naive_solver].
    destruct (ascending_levels idx slot q Buy (kleb a) Hi Hq) as [H1 H2]. split; [exact H1|]. intros p id.
    etransitivity; [exact (H2 p id)|]. rewrite kleb_spec, kle_Z. naive_solver.
  - destruct bid as [b|]; [|apply ascending_nil; naive_solver].
    destruct (ascending_levels idx slot q Sell (fun p => kleb p b) Hi Hq) as [H1 H2]. split; [exact H1|]. intros p id.
    etransitivity; [exact (H2 p id)|]. rewrite kleb_spec, kle_Z. naive_solver.
Qed.

Lemma all_for_market_lists idx slot : index_wf idx -> exists bs ss,
  RestingIndex.all_for_market idx slot = map snd bs ++ map snd ss /\
  ascending (rests idx slot Buy) bs /\ ascending (rests idx slot Sell) ss.
Proof.
  intros Hi. unfold RestingIndex.all_for_market. destruct (bget slot idx) as [q|] eqn:Hq.
  2: { exists [], []. split; [done|]. split; apply ascending_nil; unfold rests, ids_at; rewrite Hq; naive_solver. }
  exists (RestingIndex.level_ids (ql_buys q)), (RestingIndex.level_ids (ql_sells q)). split; [by rewrite !level_ids_snd|].
  assert (Hall : forall side, ascending (rests idx slot side) (RestingIndex.level_ids (RestingIndex.side_levels side q))).
  { intros side. destruct (ascending_levels idx slot q side (fun _ => true) Hi Hq) as [H1 H2].
    rewrite (forallb_filter_id (fun _ => true)) in H1, H2 by (apply forallb_forall; done).
    split; [exact H1|]. intros p id. rewrite H2. naive_solver. }
  split; [apply (Hall Buy)|apply (Hall Sell)].
Qed.

(** ** Theorem *)

(** C16 The price-ordered index is the set of resting orders: whatever was inserted and
    removed, an id rests where it was last put and not removed, and each query is the
    scan it replaces, in an order that is fixed.  The orders a print reaches come best price
    first and, within a price, in submission order, every one that crosses and no other.  The
    orders the top of the book crosses are the buys from the best ask up and then the sells
    up to the best bid; those of a market are its buys and then its sells; each list from the
    lowest price up and, within a price, in submission order. *)
Theorem index_refines_scan ops :
  let idx := fold_left index_step ops [] in
  index_wf idx /\
  (forall slot side p id, rests idx slot side p id <->
     fold_left (spec_step slot side p id) ops False) /\
  (forall slot passive tp,
     StronglySorted (queue_before passive) (RestingIndex.reached_by_trade idx slot passive tp) /\
     forall p id, In (p, id) (RestingIndex.reached_by_trade idx slot passive tp) <->
       rests idx slot passive p id /\ match passive with Buy => tp <= p | Sell => p <= tp end) /\
  (forall slot bid ask, exists bs ss,
     RestingIndex.crossing_top idx slot bid ask = map snd bs ++ map snd ss /\
     ascending (fun p id => exists a, ask = Some a /\ a <= p /\ rests idx slot Buy p id) bs /\
     ascending (fun p id => exists b, bid = Some b /\ p <= b /\ rests idx slot Sell p id) ss) /\
  (forall slot, exists bs ss, RestingIndex.all_for_market idx slot = map snd bs ++ map snd ss /\
     ascending (rests idx slot Buy) bs /\ ascending (rests idx slot Sell) ss).
Proof.
  assert (Hrun : forall idx, index_wf idx -> index_wf (fold_left index_step ops idx) /\
    forall slot side p id (H0 : Prop), (rests idx slot side p id <-> H0) ->
      rests (fold_left index_step ops idx) slot side p id <->
      fold_left (spec_step slot side p id) ops H0).
  { induction ops as [|op ops IH]; cbn; intros idx Hi; [done|].
    destruct (IH _ (index_step_wf _ op Hi)) as [Hw Hr]. split; [done|].
    intros slot side p id H0 HH. apply Hr. rewrite rests_step by done.
    destruct op; cbn; by rewrite HH. }
  destruct (Hrun [] (conj bwf_nil (List.Forall_nil _))) as [Hw Hr]. cbn. split_and!; [done|..].
  - intros. apply Hr. unfold rests, ids_at. by cbn.
  - intros. split; [by apply reached_by_trade_sorted|intros; by apply reached_by_trade_In].
  - intros. by apply crossing_top_lists.
  - intros. by apply all_for_market_lists.
Qed.
