(* ===== verification/Strategy.v ===== *)
(** * What a strategy sees and asks for

    Models the strategy side of [engine.rs]: the requests, the [Command]s a [Context]
    queues, the context's queries and requests, the [Strategy] trait, and the two
    strategies that are data, [SignalReplay] and [CommandReplay].  A [Context] borrows
    the engine: its shared references are copied in, the four it holds mutably are its
    last fields, and the engine copies those back.  Its fields are private, so what a
    callback can do to it is what a sequence of API calls does; [LawfulStrategy] says
    so, and every strategy of this file is shown to be lawful. *)
From S2P Require Export EngineIndex Position Book Replay Clock.

Record OrderRequest := mkOrderRequest {
  rq_instrument : InstrumentId;
  rq_outcome : OutcomeId;
  rq_side : Side;
  rq_kind : OrderKind;
  rq_quantity : Qty;
  rq_time_in_force : TimeInForce;
  rq_tag : option string;
  rq_reduce_only : bool;
  rq_post_only : bool;
  rq_trigger : option Trigger;
}.
#[export] Instance eta_OrderRequest : Eta OrderRequest := fun r =>
  mkOrderRequest (rq_instrument r) (rq_outcome r) (rq_side r) (rq_kind r) (rq_quantity r)
    (rq_time_in_force r) (rq_tag r) (rq_reduce_only r) (rq_post_only r) (rq_trigger r).

Module OrderRequest.
Definition market (instrument : InstrumentId) (outcome : OutcomeId) (side : Side) (quantity : Qty)
  : OrderRequest :=
  mkOrderRequest instrument outcome side Market quantity ImmediateOrCancel None false false None.
Definition limit (instrument : InstrumentId) (outcome : OutcomeId) (side : Side) (limit : Price)
  (quantity : Qty) : OrderRequest :=
  mkOrderRequest instrument outcome side (Limit limit) quantity GoodTilCancel None false false
    None.
Definition with_tag (r : OrderRequest) (tag : string) : OrderRequest := r <| rq_tag := Some tag |>.
Definition with_time_in_force (r : OrderRequest) (tif : TimeInForce) : OrderRequest :=
  r <| rq_time_in_force := tif |>.
Definition reduce_only (r : OrderRequest) : OrderRequest := r <| rq_reduce_only := true |>.
Definition post_only (r : OrderRequest) : OrderRequest := r <| rq_post_only := true |>.
Definition with_trigger (r : OrderRequest) (t : Trigger) : OrderRequest :=
  r <| rq_trigger := Some t |>.
End OrderRequest.

Inductive SetOperationKind := Mint | Redeem | Convert (held : list OutcomeId).

Module SetOperationKind.
Definition as_str (k : SetOperationKind) : string :=
  match k with Mint => "mint" | Redeem => "redeem" | Convert _ => "convert" end.
End SetOperationKind.

Record SetOperationRequest := mkSetOperationRequest {
  sr_instrument : InstrumentId;
  sr_kind : SetOperationKind;
  sr_quantity : Qty;
  sr_tag : option string;
}.

Module SetOperationRequest.
Definition mint (instrument : InstrumentId) (quantity : Qty) : SetOperationRequest :=
  mkSetOperationRequest instrument Mint quantity None.
Definition redeem (instrument : InstrumentId) (quantity : Qty) : SetOperationRequest :=
  mkSetOperationRequest instrument Redeem quantity None.
Definition convert (instrument : InstrumentId) (held : list OutcomeId) (quantity : Qty)
  : SetOperationRequest := mkSetOperationRequest instrument (Convert held) quantity None.
Definition with_tag (r : SetOperationRequest) (tag : string) : SetOperationRequest :=
  mkSetOperationRequest (sr_instrument r) (sr_kind r) (sr_quantity r) (Some tag).
End SetOperationRequest.

Record Forecast := mkForecast {
  fo_ts : UnixNanos;
  fo_instrument : InstrumentId;
  fo_outcome : OutcomeId;
  fo_probability : Price;
  fo_market : option Price;
  fo_tag : option string;
}.

(** ** TWAP requests *)

Record TwapRequest := mkTwapRequest {
  tw_instrument : InstrumentId;
  tw_outcome : OutcomeId;
  tw_side : Side;
  tw_quantity : Qty;
  tw_duration_nanos : Z;
  tw_interval_nanos : Z;
  tw_tag : option string;
  tw_reduce_only : bool;
}.
#[export] Instance eta_TwapRequest : Eta TwapRequest := fun r =>
  mkTwapRequest (tw_instrument r) (tw_outcome r) (tw_side r) (tw_quantity r)
    (tw_duration_nanos r) (tw_interval_nanos r) (tw_tag r) (tw_reduce_only r).

Definition DEFAULT_TWAP_INTERVAL_NANOS : Z := 30 * 1000000000.

Module TwapRequest.
Definition new (instrument : InstrumentId) (outcome : OutcomeId) (side : Side) (quantity : Qty)
  (duration_nanos : Z) : TwapRequest :=
  mkTwapRequest instrument outcome side quantity duration_nanos DEFAULT_TWAP_INTERVAL_NANOS None
    false.
Definition interval_nanos (r : TwapRequest) (nanos : Z) : TwapRequest :=
  r <| tw_interval_nanos := nanos |>.
Definition with_tag (r : TwapRequest) (tag : string) : TwapRequest := r <| tw_tag := Some tag |>.
Definition reduce_only (r : TwapRequest) : TwapRequest := r <| tw_reduce_only := true |>.

Definition slices (r : TwapRequest) : Result Z :=
  if negb (is_positive (tw_quantity r)) then Err (invalid "a TWAP needs a positive quantity")
  else if (tw_duration_nanos r <=? 0) || (tw_interval_nanos r <=? 0) then
    Err (invalid "a TWAP needs a positive duration and interval")
  else if tw_duration_nanos r <? tw_interval_nanos r then
    Err (invalid "a TWAP whose interval exceeds its duration is one order")
  else Ok (Z.max (Z.quot (tw_duration_nanos r) (tw_interval_nanos r)) 1).
End TwapRequest.

Record TwapProgress := mkTwapProgress {
  tp_request : TwapRequest;
  tp_started_at : UnixNanos;
  tp_sent : Z;
  tp_total_slices : Z;
  tp_worked : Qty;
  tp_next_at : Z;
}.
#[export] Instance eta_TwapProgress : Eta TwapProgress := fun t =>
  mkTwapProgress (tp_request t) (tp_started_at t) (tp_sent t) (tp_total_slices t) (tp_worked t)
    (tp_next_at t).

Module TwapProgress.
Definition is_done (t : TwapProgress) : bool := tp_total_slices t <=? tp_sent t.
Definition remaining (t : TwapProgress) : Qty := sub64 (tw_quantity (tp_request t)) (tp_worked t).
End TwapProgress.

(** ** Commands and the context *)

Inductive Command :=
| CmdSubmit (id : OrderId) (request : OrderRequest)
| CmdCancel (id : OrderId)
| CmdAmend (id : OrderId) (quantity : option Qty) (limit : option Price)
| CmdSet (request : SetOperationRequest)
| CmdTwap (request : TwapRequest).

Record Context := mkContext {
  cx_now : UnixNanos;
  cx_slots : Slots;
  cx_books : BTree Slot OrderBook;
  cx_marks : BTree Slot Price;
  cx_oracles : BTree Slot Price;
  cx_portfolio : Portfolio;
  cx_cash : Money;
  cx_commands : list Command;
  cx_clock_requests : list (string * UnixNanos);
  cx_forecasts : list Forecast;
  cx_next_order_id : Z;
}.
#[export] Instance eta_Context : Eta Context := fun c =>
  mkContext (cx_now c) (cx_slots c) (cx_books c) (cx_marks c) (cx_oracles c) (cx_portfolio c)
    (cx_cash c) (cx_commands c) (cx_clock_requests c) (cx_forecasts c) (cx_next_order_id c).

Module Context.
Definition book (c : Context) (instrument : InstrumentId) (outcome : OutcomeId)
  : option OrderBook := bget (Slots.key (cx_slots c) instrument outcome) (cx_books c).
Definition best_bid (c : Context) (instrument : InstrumentId) (outcome : OutcomeId)
  : option Price := b ← book c instrument outcome; fst <$> OrderBook.best_bid b.
Definition best_ask (c : Context) (instrument : InstrumentId) (outcome : OutcomeId)
  : option Price := b ← book c instrument outcome; fst <$> OrderBook.best_ask b.
Definition position_quantity (c : Context) (instrument : InstrumentId) (outcome : OutcomeId)
  : Qty := default 0 (p_quantity <$> Portfolio.position (cx_portfolio c) instrument outcome).
Definition mark (c : Context) (instrument : InstrumentId) (outcome : OutcomeId) : option Price :=
  bget (Slots.key (cx_slots c) instrument outcome) (cx_marks c).
Definition oracle (c : Context) (instrument : InstrumentId) (outcome : OutcomeId)
  : option Price := bget (Slots.key (cx_slots c) instrument outcome) (cx_oracles c).

Definition push_command (c : Context) (command : Command) : Context :=
  c <| cx_commands := cx_commands c ++ [command] |>.
Definition submit_tracked (c : Context) (request : OrderRequest) : Context * OrderId :=
  let id := cx_next_order_id c + 1 in
  (push_command (c <| cx_next_order_id := id |>) (CmdSubmit id request), id).
Definition submit (c : Context) (request : OrderRequest) : Context :=
  (submit_tracked c request).1.
Definition cancel (c : Context) (id : OrderId) : Context := push_command c (CmdCancel id).
Definition amend (c : Context) (id : OrderId) (quantity : option Qty) (limit : option Price)
  : Context := push_command c (CmdAmend id quantity limit).
Definition set_timer (c : Context) (name : string) (at_ : UnixNanos) : Context :=
  c <| cx_clock_requests := cx_clock_requests c ++ [(name, at_)] |>.
Definition set_operation (c : Context) (request : SetOperationRequest) : Context :=
  push_command c (CmdSet request).
Definition mint (c : Context) (instrument : InstrumentId) (sets : Qty) : Context :=
  set_operation c (SetOperationRequest.mint instrument sets).
Definition redeem (c : Context) (instrument : InstrumentId) (sets : Qty) : Context :=
  set_operation c (SetOperationRequest.redeem instrument sets).
Definition convert (c : Context) (instrument : InstrumentId) (held : list OutcomeId)
  (quantity : Qty) : Context :=
  set_operation c (SetOperationRequest.convert instrument held quantity).
Definition twap (c : Context) (request : TwapRequest) : Context := push_command c (CmdTwap request).

Definition record_tagged_forecast (c : Context) (instrument : InstrumentId) (outcome : OutcomeId)
  (probability : Price) (tag : option string) : Result Context :=
  if (probability <? PROBABILITY_MIN) || (PROBABILITY_MAX <? probability) then
    Err (invalid "a forecast probability must lie in [0, 1]")
  else
    Ok (c <| cx_forecasts := cx_forecasts c ++
      [mkForecast (cx_now c) instrument outcome probability (mark c instrument outcome) tag] |>).
Definition record_forecast (c : Context) (instrument : InstrumentId) (outcome : OutcomeId)
  (probability : Price) : Result Context :=
  record_tagged_forecast c instrument outcome probability None.
End Context.

(** ** The strategy interface *)

Class Strategy (S : Type) := {
  on_start : S -> Context -> Result (S * Context);
  on_event : S -> Context -> EventRecord -> Result (S * Context);
  on_timer : S -> Context -> TimeEvent -> Result (S * Context);
  on_fill : S -> Context -> Fill -> Result (S * Context);
  on_stop : S -> Context -> Result (S * Context);
}.

(** The default methods. *)
Inductive NoStrategy := mkNoStrategy.
#[export] Instance strategy_NoStrategy : Strategy NoStrategy := {
  on_start s c := Ok (s, c);
  on_event s c _ := Ok (s, c);
  on_timer s c _ := Ok (s, c);
  on_fill s c _ := Ok (s, c);
  on_stop s c := Ok (s, c);
}.

(** One call a callback can make on its context. *)
Inductive api_step : Context -> Context -> Prop :=
| api_submit c request : api_step c (Context.submit c request)
| api_cancel c id : api_step c (Context.cancel c id)
| api_amend c id quantity limit : api_step c (Context.amend c id quantity limit)
| api_timer c name at_ : api_step c (Context.set_timer c name at_)
| api_set c request : api_step c (Context.set_operation c request)
| api_twap c request : api_step c (Context.twap c request)
| api_forecast c i o p tag c' :
    Context.record_tagged_forecast c i o p tag = Ok c' -> api_step c c'.

(** What the language guarantees of any implementation: a callback reaches its
    context only through the API. *)
Class LawfulStrategy (S : Type) `{Strategy S} := {
  start_api : forall s c s' c', on_start s c = Ok (s', c') -> rtc api_step c c';
  event_api : forall s c r s' c', on_event s c r = Ok (s', c') -> rtc api_step c c';
  timer_api : forall s c e s' c', on_timer s c e = Ok (s', c') -> rtc api_step c c';
  fill_api : forall s c f s' c', on_fill s c f = Ok (s', c') -> rtc api_step c c';
  stop_api : forall s c s' c', on_stop s c = Ok (s', c') -> rtc api_step c c';
}.

#[export] Instance lawful_NoStrategy : LawfulStrategy NoStrategy.
Proof. by split; intros; simplify_eq/=. Qed.

(** ** Strategies that are data *)

(** Timestamps in order, checked when the list is loaded. *)
Fixpoint check_order {A} (stream : string) (previous : option Z)
  (check : A -> Result unit) (l : list (UnixNanos * A)) : Result unit :=
  match l with
  | [] => Ok tt
  | (ts, a) :: l' =>
      let? _u :=
        match previous with
        | Some prev => if ts <? prev then Err (OutOfOrder stream ts prev) else Ok tt
        | None => Ok tt
        end in
      let? _u := check a in
      check_order stream (Some ts) check l'
  end.

Record SignalReplay := mkSignalReplay {
  intents : list (UnixNanos * OrderRequest);
  sg_undelivered : nat;
}.

Module SignalReplay.
Definition new (l : list (UnixNanos * OrderRequest)) : Result SignalReplay :=
  let? _u := check_order "signals" None (fun _ => Ok tt) l in
  Ok (mkSignalReplay l 0).

(** Submit what is due, in order. *)
Fixpoint deliver (l : list (UnixNanos * OrderRequest)) (c : Context)
  : list (UnixNanos * OrderRequest) * Context :=
  match l with
  | [] => ([], c)
  | (ts, request) :: l' =>
      if cx_now c <? ts then (l, c) else deliver l' (Context.submit c request)
  end.
Definition on_event (s : SignalReplay) (c : Context) (_ : EventRecord)
  : Result (SignalReplay * Context) :=
  let '(l, c) := deliver (intents s) c in Ok (mkSignalReplay l (sg_undelivered s), c).
Definition on_stop (s : SignalReplay) (c : Context) : Result (SignalReplay * Context) :=
  Ok (mkSignalReplay [] (length (intents s)), c).
End SignalReplay.

#[export] Instance strategy_SignalReplay : Strategy SignalReplay := {
  on_start s c := Ok (s, c);
  on_event := SignalReplay.on_event;
  on_timer s c _ := Ok (s, c);
  on_fill s c _ := Ok (s, c);
  on_stop := SignalReplay.on_stop;
}.

Inductive ReplayCommand :=
| RcSubmit (client_order_id : string) (request : OrderRequest)
| RcCancel (client_order_id : string)
| RcAmend (client_order_id : string) (quantity : option Qty) (limit : option Price).

Record CommandReplay := mkCommandReplay {
  script : list (UnixNanos * ReplayCommand);
  order_ids : BTree string OrderId;
  cr_undelivered : nat;
}.
#[export] Instance eta_CommandReplay : Eta CommandReplay := fun r =>
  mkCommandReplay (script r) (order_ids r) (cr_undelivered r).

Module CommandReplay.
Definition check_command (command : ReplayCommand) : Result unit :=
  match command with
  | RcAmend _ None None => Err (invalid "amend command must change quantity or limit_price")
  | _ => Ok tt
  end.
Definition new (l : list (UnixNanos * ReplayCommand)) : Result CommandReplay :=
  let? _u := check_order "commands" None check_command l in
  Ok (mkCommandReplay l [] 0).

Definition order_id (ids : BTree string OrderId) (client_order_id : string) : Result OrderId :=
  ok_or (bget client_order_id ids) (invalid "references unknown client_order_id").

(** One command of the loop. *)
Definition issue (ids : BTree string OrderId) (c : Context) (command : ReplayCommand)
  : Result (BTree string OrderId * Context) :=
  match command with
  | RcSubmit client_order_id request =>
      if bcontains client_order_id ids then Err (invalid "duplicate client_order_id")
      else
        let '(c, id) := Context.submit_tracked c request in
        Ok (binsert client_order_id id ids, c)
  | RcCancel client_order_id =>
      let? id := order_id ids client_order_id in Ok (ids, Context.cancel c id)
  | RcAmend client_order_id quantity limit =>
      let? id := order_id ids client_order_id in Ok (ids, Context.amend c id quantity limit)
  end.
Fixpoint deliver (l : list (UnixNanos * ReplayCommand)) (ids : BTree string OrderId) (c : Context)
  : Result (list (UnixNanos * ReplayCommand) * BTree string OrderId * Context) :=
  match l with
  | [] => Ok ([], ids, c)
  | (ts, command) :: l' =>
      if cx_now c <? ts then Ok (l, ids, c)
      else let? ' (ids, c) := issue ids c command in deliver l' ids c
  end.
Definition on_event (s : CommandReplay) (c : Context) (_ : EventRecord)
  : Result (CommandReplay * Context) :=
  let? ' (l, ids, c) := deliver (script s) (order_ids s) c in
  Ok (mkCommandReplay l ids (cr_undelivered s), c).
Definition on_stop (s : CommandReplay) (c : Context) : Result (CommandReplay * Context) :=
  Ok (s <| script := [] |> <| cr_undelivered := length (script s) |>, c).
End CommandReplay.

#[export] Instance strategy_CommandReplay : Strategy CommandReplay := {
  on_start s c := Ok (s, c);
  on_event := CommandReplay.on_event;
  on_timer s c _ := Ok (s, c);
  on_fill s c _ := Ok (s, c);
  on_stop := CommandReplay.on_stop;
}.

(** ** Lemmas *)

(** What no API call changes, and how the rest grows. *)
Lemma api_frame c c' : rtc api_step c c' ->
  cx_now c' = cx_now c /\ cx_next_order_id c <= cx_next_order_id c' /\
  (exists cmds, cx_commands c' = cx_commands c ++ cmds) /\
  (exists reqs, cx_clock_requests c' = cx_clock_requests c ++ reqs) /\
  (exists fs, cx_forecasts c' = cx_forecasts c ++ fs /\
     Forall (fun f => 0 <= fo_probability f <= SCALE /\ fo_ts f = cx_now c) fs).
Proof.
  induction 1 as [c|c c1 c' Hs _ IH].
  - split_and!; [done|lia|by exists []; rewrite app_nil_r..|].
    exists []. by rewrite app_nil_r.
  - destruct IH as (Hn & Hid & (cmds & Hc) & (reqs & Hr) & fs & Hf & Hok).
    rewrite Hn, Hc, Hr, Hf. inversion Hs as [| | | | | |c0 i o p tag c2 Hrec]; subst;
      [split_and!; cbn in *; try done; try lia; rewrite <- ?app_assoc; eauto..|].
    unfold Context.record_tagged_forecast in Hrec.
    destruct ((p <? PROBABILITY_MIN) || (PROBABILITY_MAX <? p)) eqn:E; [done|].
    injection Hrec as <-. bool_prop. unfold PROBABILITY_MIN, PROBABILITY_MAX in *. cbn in *.
    split_and!; try done; eauto. rewrite <- app_assoc. eexists. split; [done|].
    apply Forall_app. split; [by repeat constructor|done].
Qed.

Lemma signal_deliver_api l c :
  rtc api_step c (SignalReplay.deliver l c).2.
Proof.
  revert c. induction l as [|[ts r] l IH]; intros c; cbn; [done|].
  destruct (cx_now c <? ts); [done|]. eapply rtc_l; [apply api_submit|apply IH].
Qed.

#[export] Instance lawful_SignalReplay : LawfulStrategy SignalReplay.
Proof.
  split; cbn; unfold SignalReplay.on_stop; try (intros; by simplify_eq).
  intros s c r s' c'. cbn. unfold SignalReplay.on_event.
  pose proof (signal_deliver_api (intents s) c) as Ha.
  destruct (SignalReplay.deliver (intents s) c). by intros [= <- <-].
Qed.

Lemma command_deliver_api l : forall ids c l' ids' c',
  CommandReplay.deliver l ids c = Ok (l', ids', c') -> rtc api_step c c'.
Proof.
  induction l as [|[ts cmd] l IH]; intros ids c l' ids' c'; cbn; [by intros [= <- <- <-]|].
  destruct (cx_now c <? ts); [by intros [= <- <- <-]|].
  destruct (CommandReplay.issue ids c cmd) as [[ids1 c1]|] eqn:E; [|done].
  intros Hd. transitivity c1; [|by eapply IH]. apply rtc_once.
  destruct cmd; cbn in E; [destruct (bcontains _ ids); [done|]|..];
    try (destruct (CommandReplay.order_id ids client_order_id); [|done]);
    injection E as <- <-; constructor.
Qed.

#[export] Instance lawful_CommandReplay : LawfulStrategy CommandReplay.
Proof.
  split; cbn; unfold CommandReplay.on_stop; try (intros; by simplify_eq).
  intros s c r s' c'. cbn. unfold CommandReplay.on_event.
  destruct (CommandReplay.deliver (script s) (order_ids s) c) as [[[l ids] c1]|] eqn:E; [|done].
  intros [= <- <-]. by eapply command_deliver_api.
Qed.
