(* ===== verification/Engine.v ===== *)
(** * The run kernel

    Models [engine.rs].  The struct's fields that only [EngineBuilder::build] assigns
    are a [Config], the rest an [Engine]; the trait objects are type parameters with
    the classes of their traits.  A method that takes [&mut dyn Strategy] threads the
    strategy's state beside the engine's.  An operation that returns an error ends the
    run: its partial effects are not observed, so it returns none.  The two scratch
    vectors ([matching_candidates], [queue_candidates]) are local lists; [u64] counters
    are unbounded; the [expect]s on an order that was just looked up are the error
    [order_exists]. *)
From S2P Require Export Strategy Account Models Execution Replay.

(** ** Data *)

Record SetOperation := mkSetOperation {
  so_ts : UnixNanos;
  so_instrument : InstrumentId;
  so_kind : SetOperationKind;
  so_sets : Qty;
  so_cash_delta : Money;
  so_cost : Money;
  so_rejected : option string;
}.

Record MarkPoint := mkMarkPoint {
  mp_ts : UnixNanos;
  mp_instrument : InstrumentId;
  mp_outcome : OutcomeId;
  mp_price : Price;
}.

Inductive InFlightAction := IaOrder (order : Order) | IaSet (request : SetOperationRequest).
Record InFlightItem := mkInFlight {
  if_release_at : Z;
  if_sequence : Z;
  if_action : InFlightAction;
}.
(** [Ord for InFlight], reversed there because [BinaryHeap] is a max-heap. *)
Definition inflight_key (i : InFlightItem) : Z * Z := (if_release_at i, if_sequence i).

Record RunMetrics := mkRunMetrics {
  records_by_kind : BTree string Z;
  orders_submitted : Z;
  orders_filled : Z;
  orders_partially_filled : Z;
  orders_cancelled_unfilled : Z;
  orders_rejected_margin : Z;
  orders_rejected_risk : Z;
  orders_rejected_self_trade : Z;
  orders_rejected_naked_short : Z;
  orders_rejected_expired : Z;
  orders_rejected_post_only : Z;
  orders_rejected_invalid : Z;
  orders_triggered : Z;
  twap_slices : Z;
  orders_amended : Z;
  fills_taker : Z;
  fills_maker : Z;
  book_gaps : Z;
  queue_joins : Z;
  m_liquidations : Z;
  corporate_actions : Z;
  m_set_operations : Z;
  set_operations_rejected : Z;
  instruments_expired : Z;
}.
#[export] Instance eta_RunMetrics : Eta RunMetrics := fun m =>
  mkRunMetrics (records_by_kind m) (orders_submitted m) (orders_filled m)
    (orders_partially_filled m) (orders_cancelled_unfilled m) (orders_rejected_margin m)
    (orders_rejected_risk m) (orders_rejected_self_trade m) (orders_rejected_naked_short m)
    (orders_rejected_expired m) (orders_rejected_post_only m) (orders_rejected_invalid m)
    (orders_triggered m) (twap_slices m) (orders_amended m) (fills_taker m) (fills_maker m)
    (book_gaps m) (queue_joins m) (m_liquidations m) (corporate_actions m) (m_set_operations m)
    (set_operations_rejected m) (instruments_expired m).

Module RunMetrics.
Definition zero : RunMetrics := mkRunMetrics [] 0 0 0 0 0 0 0 0 0 0 0 0 0 0 0 0 0 0 0 0 0 0 0.
Definition record (m : RunMetrics) (kind : string) : RunMetrics :=
  m <| records_by_kind := bentry 0 (fun n => n + 1) kind (records_by_kind m) |>.

(** One reason of [explain_silence]: its counter and text. *)
Definition reason (count : Z) (text : string) : list string :=
  if 0 <? count then [show_int count +:+ " " +:+ text] else [].
Definition explain_silence (m : RunMetrics) : option string :=
  if orders_submitted m =? 0 then
    Some "the strategy submitted no orders: check that its signals fall inside the replayed window"
  else if (orders_filled m =? 0) && (orders_partially_filled m =? 0) then
    let reasons :=
      reason (orders_rejected_margin m) "refused for margin" ++
      reason (orders_rejected_risk m) "refused by configured risk limits" ++
      reason (orders_rejected_self_trade m) "would have crossed the account's own book" ++
      reason (orders_rejected_naked_short m)
        "would have shorted an outcome the venue does not let you borrow; buy the complementary outcome instead" ++
      reason (orders_rejected_expired m) "arrived after their instrument had stopped trading" ++
      reason (orders_rejected_invalid m)
        "named an instrument, outcome or price this run cannot trade; read their reject_reason" ++
      reason (orders_rejected_post_only m)
        "were post-only and would have crossed on arrival; a maker quote priced through the book is refused, not filled" ++
      reason (orders_cancelled_unfilled m) "found no liquidity at their price" ++
      (if 0 <? book_gaps m then [show_int (book_gaps m) +:+ " feed gaps invalidated books"] else [])
    in
    let detail :=
      match reasons with
      | [] => "no order reached a matchable book"
      | _ => String.concat "; " reasons
      end in
    Some (show_int (orders_submitted m) +:+ " orders, no fills: " +:+ detail)
  else None.
End RunMetrics.

Record RiskLimits := mkRiskLimits {
  max_order_quantity : option Qty;
  max_abs_position : option Qty;
  max_open_orders : option nat;
}.

Module RiskLimits.
Definition unlimited : RiskLimits := mkRiskLimits None None None.
Definition new (quantity position : option Qty) (orders : option nat) : Result RiskLimits :=
  if match quantity with Some v => v <=? 0 | None => false end then
    Err (invalid "max_order_quantity must be positive")
  else if match position with Some v => v <=? 0 | None => false end then
    Err (invalid "max_abs_position must be positive")
  else if match orders with Some O => true | _ => false end then
    Err (invalid "max_open_orders must be positive")
  else Ok (mkRiskLimits quantity position orders).
End RiskLimits.

Record EquityPoint := mkEquityPoint {
  ep_ts : UnixNanos;
  ep_cash : Money;
  ep_position_value : Money;
  ep_equity : Money;
  ep_realized_pnl : Money;
  ep_unrealized_pnl : Money;
}.

Inductive MarkSource := VenueMark | BookMid.
Inductive LiquidationPolicy := CloseAll | Partial.

Record SetOperationCosts := mkSetOperationCosts {
  cost_mint : Money;
  cost_redeem : Money;
  cost_convert : Money;
}.
Module SetOperationCosts.
Definition free : SetOperationCosts := mkSetOperationCosts 0 0 0.
Definition flat (cost : Money) : Result SetOperationCosts :=
  if is_negative cost then Err (invalid "a set operation cost must not be negative")
  else Ok (mkSetOperationCosts cost cost cost).
Definition for_kind (c : SetOperationCosts) (kind : SetOperationKind) : Money :=
  match kind with Mint => cost_mint c | Redeem => cost_redeem c | Convert _ => cost_convert c end.
End SetOperationCosts.

(** Where a fill came from. *)
Inductive FillOrigin := Trade (is_taker : bool) | CompleteSet.
Record FillTerms := mkFillTerms {
  ft_price : Price;
  ft_quantity : Qty;
  ft_origin : FillOrigin;
  ft_commission : Money;
}.
Record IsolatedCall := mkIsolatedCall {
  ic_instrument : InstrumentId;
  ic_equity : Money;
  ic_maintenance : Money;
  ic_open : list (OutcomeId * Qty * Price);
}.

(** Move one order's size and every price it carries across a split. *)
Definition split_order (ratio : Price) (order : Order) : Result Order :=
  let? ' (quantity, _q) := CorporateAction.split_position ratio (o_quantity order) 0 in
  let order := order <| o_quantity := quantity |> in
  let? order :=
    match o_kind order with
    | Limit limit =>
        let? ' (_z, limit) := CorporateAction.split_position ratio 0 limit in
        Ok (order <| o_kind := Limit limit |>)
    | Market => Ok order
    end in
  match o_trigger order with
  | Some trigger =>
      let? ' (_z, price) := CorporateAction.split_position ratio 0 (trg_price trigger) in
      Ok (order <| o_trigger := Some (trigger <| trg_price := price |>) |>)
  | None => Ok order
  end.

Definition order_exists : BacktestError := invalid "order exists".

(** [to_string] of the errors a refusal quotes; the others by their leading words. *)
Definition error_text (e : BacktestError) : string :=
  match e with
  | UnknownOutcome instrument outcome count =>
      "outcome " +:+ show_int outcome +:+ " is out of range for " +:+ instrument +:+
      ", which has " +:+ show_int count +:+ " outcomes"
  | Invalid message => message
  | Overflow what => "arithmetic overflow in " +:+ what
  | NotFinite what => what +:+ " must be finite"
  | Parse what _ => "cannot parse " +:+ what
  | UnknownInstrument id => "unknown instrument " +:+ id
  | Schema table detail => "schema mismatch for " +:+ table +:+ ": " +:+ detail
  | _ => "data error"
  end.

(** ** State *)

(** What [build] assigns and the run only reads.  A [BTreeSet] that is iterated is a
    [BTree] of units. *)
Record Config (FM L M : Type) := mkConfig {
  instruments : InstrumentSet;
  slots : Slots;
  starting_cash : Money;
  fill_model : FM;
  latency_model : L;
  equity_interval : Z;
  margin_model : option M;
  fx : FxBook;
  reporting_currency : Currency;
  risk_limits : RiskLimits;
  allow_naked_shorts : bool;
  expiries : list (Z * InstrumentId);
  set_costs : SetOperationCosts;
  record_mark_curve : bool;
  mark_source : MarkSource;
  liquidation : LiquidationPolicy;
  isolated : BTree InstrumentId unit;
}.
Arguments mkConfig {FM L M}.
Arguments instruments {FM L M}. Arguments slots {FM L M}. Arguments starting_cash {FM L M}.
Arguments fill_model {FM L M}. Arguments latency_model {FM L M}.
Arguments equity_interval {FM L M}. Arguments margin_model {FM L M}. Arguments fx {FM L M}.
Arguments reporting_currency {FM L M}. Arguments risk_limits {FM L M}.
Arguments allow_naked_shorts {FM L M}. Arguments expiries {FM L M}.
Arguments set_costs {FM L M}. Arguments record_mark_curve {FM L M}.
Arguments mark_source {FM L M}. Arguments liquidation {FM L M}. Arguments isolated {FM L M}.

Record Engine (F X : Type) := mkEngine {
  e_clock : Clock;
  e_books : BTree Slot OrderBook;
  e_portfolio : Portfolio;
  e_cash : Money;
  e_orders : BTree OrderId Order;
  e_resting : list OrderId;
  e_resting_index : RestingIndex;
  e_inflight : list InFlightItem;
  e_commands : list Command;
  e_clock_requests : list (string * UnixNanos);
  e_fills : list Fill;
  e_marks : BTree Slot Price;
  e_fee_model : F;
  e_next_order_id : Z;
  e_sequence : Z;
  e_records : Z;
  e_simulated_through : option UnixNanos;
  e_next_equity_sample : option Z;
  e_equity : list EquityPoint;
  e_funding_paid : Money;
  e_queue_ahead : BTree OrderId Raw;
  e_liquidations : list Liquidation;
  e_rejected_for_margin : Z;
  e_self_trades_prevented : Z;
  e_dividends_received : Money;
  e_delisted : gset string;
  e_metrics : RunMetrics;
  e_execution : X;
  e_next_expiry : nat;
  e_expired : gset string;
  e_expirations : list (InstrumentId * UnixNanos);
  e_set_operations : list SetOperation;
  e_forecasts : list Forecast;
  e_mark_curve : list MarkPoint;
  e_book_marks : BTree Slot Price;
  e_venue_marks : BTree Slot Price;
  e_oracles : BTree Slot Price;
  e_isolated_collateral : BTree InstrumentId Money;
  e_twaps : list TwapProgress;
  e_live_orders : list OrderId;
  e_untriggered : list OrderId;
}.
Arguments mkEngine {F X}.
Arguments e_clock {F X}. Arguments e_books {F X}. Arguments e_portfolio {F X}.
Arguments e_cash {F X}. Arguments e_orders {F X}. Arguments e_resting {F X}.
Arguments e_resting_index {F X}. Arguments e_inflight {F X}. Arguments e_commands {F X}.
Arguments e_clock_requests {F X}. Arguments e_fills {F X}. Arguments e_marks {F X}.
Arguments e_fee_model {F X}. Arguments e_next_order_id {F X}. Arguments e_sequence {F X}.
Arguments e_records {F X}. Arguments e_simulated_through {F X}.
Arguments e_next_equity_sample {F X}. Arguments e_equity {F X}. Arguments e_funding_paid {F X}.
Arguments e_queue_ahead {F X}. Arguments e_liquidations {F X}.
Arguments e_rejected_for_margin {F X}. Arguments e_self_trades_prevented {F X}.
Arguments e_dividends_received {F X}. Arguments e_delisted {F X}. Arguments e_metrics {F X}.
Arguments e_execution {F X}. Arguments e_next_expiry {F X}. Arguments e_expired {F X}.
Arguments e_expirations {F X}. Arguments e_set_operations {F X}. Arguments e_forecasts {F X}.
Arguments e_mark_curve {F X}. Arguments e_book_marks {F X}. Arguments e_venue_marks {F X}.
Arguments e_oracles {F X}. Arguments e_isolated_collateral {F X}. Arguments e_twaps {F X}.
Arguments e_live_orders {F X}. Arguments e_untriggered {F X}.
#[export] Instance eta_Engine F X : Eta (Engine F X) := fun e =>
  mkEngine (e_clock e) (e_books e) (e_portfolio e) (e_cash e) (e_orders e) (e_resting e)
    (e_resting_index e) (e_inflight e) (e_commands e) (e_clock_requests e) (e_fills e)
    (e_marks e) (e_fee_model e) (e_next_order_id e) (e_sequence e) (e_records e)
    (e_simulated_through e) (e_next_equity_sample e) (e_equity e) (e_funding_paid e)
    (e_queue_ahead e) (e_liquidations e) (e_rejected_for_margin e)
    (e_self_trades_prevented e) (e_dividends_received e) (e_delisted e) (e_metrics e)
    (e_execution e) (e_next_expiry e) (e_expired e) (e_expirations e) (e_set_operations e)
    (e_forecasts e) (e_mark_curve e) (e_book_marks e) (e_venue_marks e) (e_oracles e)
    (e_isolated_collateral e) (e_twaps e) (e_live_orders e) (e_untriggered e).

Module Engine.
Section Kernel.
Context {F FM L M X : Type}.
Context `{FeeModel F} `{FillModel FM} `{LatencyModel L} `{MarginModel M} `{ExecutionClient X}.
Variable cfg : Config FM L M.
Local Abbreviation Eng := (Engine F X).
Implicit Types e : Eng.

Definition bump e (f : RunMetrics -> RunMetrics) : Eng := e <| e_metrics := f (e_metrics e) |>.
Definition update_order e (id : OrderId) (f : Order -> Order) : Eng :=
  e <| e_orders := bupdate f id (e_orders e) |>.
Definition put_order e (o : Order) : Eng := e <| e_orders := binsert (o_id o) o (e_orders e) |>.
Definition is_resting e (id : OrderId) : bool := existsb (Z.eqb id) (e_resting e).
Definition order_is_open e (id : OrderId) : bool :=
  match bget id (e_orders e) with Some o => Order.is_open o | None => false end.
Definition slot_of (o : Order) : Slot := Slots.key (slots cfg) (o_instrument o) (o_outcome o).
Definition mark_at e (i : InstrumentId) (o : OutcomeId) : option Price :=
  bget (Slots.key (slots cfg) i o) (e_marks e).
Definition is_isolated (i : InstrumentId) : bool := bcontains i (isolated cfg).

(** ** The close of a market *)

Definition has_expired (instrument : InstrumentId) (ts : UnixNanos) : option UnixNanos :=
  match InstrumentSet.get (instruments cfg) instrument with
  | Ok found =>
      match expiration found with
      | Some at_ => if at_ <=? ts then Some at_ else None
      | None => None
      end
  | Err _ => None
  end.

Definition stopped_trading e (instrument : InstrumentId) (ts : UnixNanos) : option string :=
  if match expiries cfg with [] => bool_decide (e_delisted e = ∅) | _ => false end then None
  else
    match has_expired instrument ts with
    | Some at_ => Some (instrument +:+ " stopped trading at " +:+ show_int at_)
    | None =>
        if bool_decide (instrument ∈ e_delisted e) then
          Some (instrument +:+ " was delisted and stopped trading")
        else None
    end.

(** ** Resting orders and the queue *)

Definition remove_resting e (id : OrderId) : Eng :=
  let e :=
    match bget id (e_orders e) with
    | Some order =>
        e <| e_resting_index := RestingIndex.remove (e_resting_index e) order (slot_of order) |>
    | None => e
    end in
  e <| e_resting := List.filter (fun open => negb (open =? id)) (e_resting e) |>
    <| e_queue_ahead := bremove id (e_queue_ahead e) |>.

Definition prune_resting e : Eng :=
  let closed := List.filter (fun id => negb (order_is_open e id)) (e_resting e) in
  fold_left remove_resting closed e.

Definition join_queue e (order : Order) : Eng :=
  if negb (uses_queue_position (fill_model cfg)) || bcontains (o_id order) (e_queue_ahead e) then e
  else
    match Order.limit_price order with
    | None => e
    | Some limit =>
        let ahead :=
          default 0 (book ← bget (slot_of order) (e_books e);
                     OrderBook.quantity_at book (o_side order) limit) in
        bump (e <| e_queue_ahead := binsert (o_id order) ahead (e_queue_ahead e) |>)
          (fun m => m <| queue_joins := queue_joins m + 1 |>)
    end.

Definition add_resting e (order : Order) : Eng :=
  if is_resting e (o_id order) then e
  else
    let e := join_queue e order in
    e <| e_resting_index := RestingIndex.insert (e_resting_index e) order (slot_of order) |>
      <| e_resting := e_resting e ++ [o_id order] |>.

Definition fee_order_closed e (id : OrderId) : Eng :=
  e <| e_fee_model := order_closed (e_fee_model e) id |>.

Definition close e (id : OrderId) (status : OrderStatus) : Eng :=
  let e :=
    update_order e id (fun o => if Order.is_open o then o <| o_status := status |> else o) in
  let e := remove_resting e id in
  if OrderStatus.is_terminal status then fee_order_closed e id else e.

(** What the time in force does with an order left open. *)
Definition rest_or_cancel e (id : OrderId) (order : Order) : Eng :=
  match o_tif order with
  | ImmediateOrCancel | FillOrKill => close e id Cancelled
  | GoodTilCancel =>
      match o_kind order with
      | Limit _ => if is_resting e id then e else add_resting e order
      | Market => e
      end
  end.

Definition no_liquidity e (id : OrderId) : Eng :=
  match bget id (e_orders e) with
  | None => e
  | Some order => rest_or_cancel e id order
  end.

Definition cancel_expired (instrument : InstrumentId) (at_ : Z) e (id : OrderId) : Eng :=
  let e :=
    update_order e id (fun o =>
      if Order.is_open o then
        o <| o_status := Cancelled |>
          <| o_reject_reason := Some (instrument +:+ " stopped trading at " +:+ show_int at_) |>
      else o) in
  remove_resting e id.

(** The loop of [expire_due] over the expiries not yet passed. *)
Fixpoint expire_loop (l : list (Z * InstrumentId)) (ts : UnixNanos) e : Eng :=
  match l with
  | [] => e
  | (at_, instrument) :: l' =>
      if ts <? at_ then e
      else
        let e := e <| e_next_expiry := Datatypes.S (e_next_expiry e) |> in
        if bool_decide (instrument ∈ e_expired e) then expire_loop l' ts e
        else
          let e := e <| e_expired := {[instrument]} ∪ e_expired e |> in
          let doomed :=
            List.filter (fun id =>
              match bget id (e_orders e) with
              | Some o => String.eqb (o_instrument o) instrument
              | None => false
              end) (e_resting e) in
          let e := fold_left (cancel_expired instrument at_) doomed e in
          let e := e <| e_expirations := e_expirations e ++ [(instrument, at_)] |> in
          expire_loop l' ts (bump e (fun m => m <| instruments_expired := instruments_expired m + 1 |>))
  end.
Definition expire_due e (ts : UnixNanos) : Eng :=
  expire_loop (drop (e_next_expiry e) (expiries cfg)) ts e.

(** ** Marks *)

(** An empty [venue_marks] misses, so skipping it changes nothing. *)
Definition set_book_mark e (key : Slot) (price : Price) : Eng :=
  let e := e <| e_book_marks := binsert key price (e_book_marks e) |> in
  let effective :=
    match mark_source cfg with
    | VenueMark => default price (bget key (e_venue_marks e))
    | BookMid => price
    end in
  e <| e_marks := binsert key effective (e_marks e) |>.

Definition refresh_mark e (key : Slot) : Eng :=
  let effective :=
    match mark_source cfg with
    | VenueMark =>
        match bget key (e_venue_marks e) with
        | Some price => Some price
        | None => bget key (e_book_marks e)
        end
    | BookMid => bget key (e_book_marks e)
    end in
  match effective with
  | Some price => e <| e_marks := binsert key price (e_marks e) |>
  | None => e
  end.

(** ** Margin *)

Definition cross_positions e : list Position :=
  List.filter (fun p => negb (is_isolated (p_instrument p)))
    (Portfolio.open_positions (e_portfolio e)).

(** One position of [rebalance_isolated]'s requirement. *)
Definition isolated_initial (model : M) (found : Instrument) (instrument : InstrumentId)
  (required : Money) (p : Position) : Result Money :=
  if negb (String.eqb (p_instrument p) instrument) then Ok required
  else
    let? im := initial_margin model found (p_quantity p) (average_price p) in
    checked_add "Money" required im.

Definition rebalance_isolated e (instrument : InstrumentId) : Result Eng :=
  if negb (is_isolated instrument) then Ok e
  else
    match margin_model cfg with
    | None => Ok e
    | Some model =>
        let? found := InstrumentSet.get (instruments cfg) instrument in
        let? required :=
          foldr_res (isolated_initial model found instrument) 0
            (Portfolio.open_positions (e_portfolio e)) in
        let posted := default 0 (bget instrument (e_isolated_collateral e)) in
        let? delta := checked_sub "Money" required posted in
        if is_zero delta then Ok e
        else
          let? cash := checked_sub "Money" (e_cash e) delta in
          let e := e <| e_cash := cash |> in
          Ok (e <| e_isolated_collateral :=
            if is_zero required then bremove instrument (e_isolated_collateral e)
            else binsert instrument required (e_isolated_collateral e) |>)
    end.

(** One position of [margin_state]'s marked value. *)
Definition mark_value e (st : Money * list (Currency * Money)) (p : Position)
  : Result (Money * list (Currency * Money)) :=
  match mark_at e (p_instrument p) (p_outcome p) with
  | None => Ok st
  | Some mark =>
      let? instrument := InstrumentSet.get (instruments cfg) (p_instrument p) in
      let? value :=
        if is_funded (kind instrument) then Position.exposure p mark
        else Position.unrealized_pnl p mark in
      let settlement := settlement_currency instrument in
      if String.eqb settlement (reporting_currency cfg) then
        let? marked := checked_add "Money" st.1 value in Ok (marked, st.2)
      else
        match FxBook.convert (fx cfg) value settlement (reporting_currency cfg) with
        | Ok converted => let? marked := checked_add "Money" st.1 converted in Ok (marked, st.2)
        | Err _ => Ok (st.1, st.2 ++ [(settlement, value)])
        end
  end.

Definition margin_state e : Result (option MarginState) :=
  match margin_model cfg with
  | None => Ok None
  | Some model =>
      let? requirement :=
        margin_requirement model (instruments cfg) (mark_at e) (cross_positions e) in
      let? ' (marked, unconvertible) := foldr_res (mark_value e) (0, []) (cross_positions e) in
      let collateral := mkValuation (e_cash e) (reporting_currency cfg) unconvertible in
      let? state := margin_state collateral marked requirement in
      Ok (Some state)
  end.

Definition partial_close_quantity e (instrument : InstrumentId) (quantity : Qty) (mark : Price)
  : Result Qty :=
  match margin_model cfg with
  | None => Ok quantity
  | Some model =>
      let? state := margin_state e in
      match state with
      | None => Ok quantity
      | Some state =>
          let? found := InstrumentSet.get (instruments cfg) instrument in
          let held := abs64 quantity in
          let? full := maintenance_margin model found quantity mark in
          let need := sat64 (ms_maintenance state - ms_equity state) in
          if (need <=? 0) || (full <=? 0) then Ok 0
          else
            let fraction := Z.quot (wrap128 (need * held)) full in
            let? closing := narrow (Z.min fraction held) "closing size" in
            let lot := Z.max (lot_size found) 1 in
            let closing := mul64 (Z.quot (sat64 (closing + (lot - 1))) lot) lot in
            let closing := Z.min closing held in
            Ok (mul64 closing (Z.sgn quantity))
      end
  end.

Definition can_fund e (order : Order) : Result bool :=
  match margin_model cfg with
  | None => Ok true
  | Some model =>
      let? state := margin_state e in
      match state with
      | None => Ok true
      | Some state =>
          if incomplete state then Ok true
          else
            match mark_at e (o_instrument order) (o_outcome order) with
            | None => Ok true
            | Some mark =>
                let? instrument := InstrumentSet.get (instruments cfg) (o_instrument order) in
                let? needed := initial_margin model instrument (Order.remaining order) mark in
                Ok (needed <=? MarginState.available state)
            end
      end
  end.

(** ** The equity curve *)

Definition sample_marks e (ts : UnixNanos) : Eng :=
  if negb (record_mark_curve cfg) then e
  else
    e <| e_mark_curve := e_mark_curve e ++
      flat_map (fun entry : Slot * Price =>
        let '(instrument, outcome) := Slots.name (slots cfg) entry.1 in
        match InstrumentSet.get (instruments cfg) instrument with
        | Ok found =>
            if is_probability (kind found) then [mkMarkPoint ts instrument outcome entry.2] else []
        | Err _ => []
        end) (e_marks e) |>.

(** One position of [push_equity]: marked exposure, account value, profit. *)
Definition equity_add e (st : Money * Money * Money) (p : Position) : Result (Money * Money * Money) :=
  let '(position_value, account_value, unrealized) := st in
  match mark_at e (p_instrument p) (p_outcome p) with
  | None => Ok st
  | Some mark =>
      let? exposure := Position.exposure p mark in
      let? profit := Position.unrealized_pnl p mark in
      let funded :=
        match InstrumentSet.get (instruments cfg) (p_instrument p) with
        | Ok instrument => is_funded (kind instrument)
        | Err _ => true
        end in
      let? position_value := checked_add "Money" position_value exposure in
      let? account_value :=
        checked_add "Money" account_value (if funded then exposure else profit) in
      let? unrealized := checked_add "Money" unrealized profit in
      Ok (position_value, account_value, unrealized)
  end.

Definition push_equity e (ts : UnixNanos) : Result Eng :=
  let? ' (position_value, account_value, unrealized) :=
    foldr_res (equity_add e) (0, 0, 0) (Portfolio.open_positions (e_portfolio e)) in
  let? account_value :=
    foldr_res (checked_add "Money") account_value (bvalues (e_isolated_collateral e)) in
  let? equity := checked_add "Money" (e_cash e) account_value in
  let? realized := Portfolio.realized_pnl (e_portfolio e) in
  let e := e <| e_equity := e_equity e ++
    [mkEquityPoint ts (e_cash e) position_value equity realized unrealized] |> in
  Ok (sample_marks e ts).

Definition sample_equity e (ts : UnixNanos) : Result Eng :=
  let due := match e_next_equity_sample e with None => true | Some next => next <=? ts end in
  if negb due then Ok e
  else
    let? e := push_equity e ts in
    Ok (e <| e_next_equity_sample := Some (sat64 (ts + equity_interval cfg)) |>).

(** ** Commands *)

Definition queue_set_operation e (request : SetOperationRequest) : Eng :=
  let now := now (e_clock e) in
  let e := e <| e_sequence := e_sequence e + 1 |> in
  let release_at := sat64 (now + insert_nanos (latency_model cfg)) in
  e <| e_inflight :=
    hpush inflight_key (mkInFlight release_at (e_sequence e) (IaSet request)) (e_inflight e) |>.

(** The amended order and whether it loses its place. *)
Definition amend_limit (order : Order) (limit : option Price) : Result (Order * bool) :=
  match limit with
  | None => Ok (order, false)
  | Some new_limit =>
      let? instrument := InstrumentSet.get (instruments cfg) (o_instrument order) in
      let? _u := Instrument.check_price instrument new_limit in
      if bool_decide (Order.limit_price order = Some new_limit) then Ok (order, false)
      else Ok (order <| o_kind := Limit new_limit |>, true)
  end.
Definition amend_quantity (order updated : Order) (loses_priority : bool) (quantity : option Qty)
  : Result (Order * bool) :=
  match quantity with
  | None => Ok (updated, loses_priority)
  | Some new_quantity =>
      if negb (is_positive new_quantity) then
        Err (invalid "an amended quantity must be positive; cancel instead")
      else if new_quantity <? o_filled order then
        Err (invalid "cannot amend order below what is already filled")
      else
        Ok (updated <| o_quantity := new_quantity |>,
            loses_priority || (o_quantity order <? new_quantity))
  end.

Definition amend e (id : OrderId) (quantity : option Qty) (limit : option Price) : Result Eng :=
  match bget id (e_orders e) with
  | None => Ok e
  | Some order =>
      if negb (Order.is_open order) then Ok e
      else
        let? ' (updated, loses_priority) := amend_limit order limit in
        let? ' (updated, loses_priority) := amend_quantity order updated loses_priority quantity in
        let was_resting := is_resting e id in
        let? slot := Slots.resolve (slots cfg) (o_instrument order) (o_outcome order) in
        let e :=
          if loses_priority && was_resting then
            e <| e_resting_index := RestingIndex.remove (e_resting_index e) order slot |>
          else e in
        let e := e <| e_orders := binsert id updated (e_orders e) |> in
        let e := bump e (fun m => m <| orders_amended := orders_amended m + 1 |>) in
        let? execution := send (e_execution e) (ExAmend id quantity limit) (now (e_clock e)) in
        let e := e <| e_execution := execution |> in
        if loses_priority then
          let e := e <| e_queue_ahead := bremove id (e_queue_ahead e) |> in
          let e := join_queue e updated in
          Ok (if was_resting then
                e <| e_resting_index := RestingIndex.insert (e_resting_index e) updated slot |>
              else e)
        else Ok e
  end.

Definition cancel e (id : OrderId) : Result Eng :=
  if order_is_open e id then
    let e := update_order e id (fun o => o <| o_status := Cancelled |>) in
    let at_ := now (e_clock e) in
    let e := remove_resting e id in
    let? execution := send (e_execution e) (ExCancel id) at_ in
    Ok (e <| e_execution := execution |>)
  else Ok e.

(** A refused TWAP, as one rejected order. *)
Definition reject_twap e (request : TwapRequest) (reason : string) : Result Eng :=
  let id := e_next_order_id e + 1 in
  let e := e <| e_next_order_id := id |> in
  let? order :=
    Order.new id (tw_instrument request) (tw_outcome request) (tw_side request) Market
      (tw_quantity request) ImmediateOrCancel (now (e_clock e)) in
  let order := order <| o_status := Rejected |> <| o_reject_reason := Some reason |>
                     <| o_tag := Some (default "twap" (tw_tag request)) |> in
  let e := put_order e order in
  Ok (bump e (fun m => m <| orders_submitted := orders_submitted m + 1 |>
                         <| orders_rejected_invalid := orders_rejected_invalid m + 1 |>)).

Definition start_twap e (request : TwapRequest) : Result Eng :=
  let refusal :=
    match InstrumentSet.get (instruments cfg) (tw_instrument request) with
    | Ok instrument =>
        match Instrument.check_outcome instrument (tw_outcome request) with
        | Ok _ => None
        | Err error => Some (error_text error)
        end
    | Err _ => Some (tw_instrument request +:+ " is not an instrument this run carries")
    end in
  match refusal with
  | Some reason => reject_twap e request reason
  | None =>
      let? total_slices := TwapRequest.slices request in
      let now := now (e_clock e) in
      Ok (e <| e_twaps := e_twaps e ++ [mkTwapProgress request now 0 total_slices 0 now] |>)
  end.

Definition order_refusal (request : OrderRequest) : option string :=
  match InstrumentSet.get (instruments cfg) (rq_instrument request) with
  | Err _ => Some (rq_instrument request +:+ " is not an instrument this run carries")
  | Ok instrument =>
      match Instrument.check_outcome instrument (rq_outcome request) with
      | Err error => Some (error_text error)
      | Ok _ =>
          match
            match rq_kind request with
            | Limit limit => Instrument.check_price instrument limit
            | Market => Ok tt
            end
          with
          | Err error => Some (error_text error)
          | Ok _ =>
              if rq_post_only request
                 && match rq_kind request with Limit _ => false | Market => true end
              then
                Some "a post-only order must carry a limit price; a market order has nothing to rest at"
              else None
          end
      end
  end.

(** The live orders of [e] that are open and on the market of [order]. *)
Definition live_candidates e (order : Order) : list Order :=
  List.filter (fun c =>
    Order.is_open c && String.eqb (o_instrument c) (o_instrument order)
    && (o_outcome c =? o_outcome order))
    (omap (fun id => bget id (e_orders e)) (e_live_orders e)).
(** [saturating_add] over what remains of some orders. *)
Definition sat_remaining (start : Raw) (os : list Order) : Raw :=
  fold_left (fun total c => sat64 (total + Order.remaining c)) os start.
Definition held_in e (i : InstrumentId) (o : OutcomeId) : Raw :=
  default 0 (p_quantity <$> Portfolio.position (e_portfolio e) i o).

(** The outcome the refusal suggests buying instead. *)
Definition complement_label (instrument : Instrument) (outcome : OutcomeId) : string :=
  match List.find (fun c => negb (c =? outcome)) (Instrument.outcome_ids instrument) with
  | None => "the other outcome"
  | Some c =>
      match Instrument.outcome instrument c with
      | Ok label => label +:+ " (outcome " +:+ show_int c +:+ ")"
      | Err _ => show_int c
      end
  end.

Definition naked_short_rejection e (order : Order) : option string :=
  if allow_naked_shorts cfg || negb (side_eqb (o_side order) Sell) || o_reduce_only order then None
  else
    match InstrumentSet.get (instruments cfg) (o_instrument order) with
    | Err _ => None
    | Ok instrument =>
        match kind instrument with
        | PredictionMarket =>
            let held := held_in e (o_instrument order) (o_outcome order) in
            let pending :=
              sat_remaining 0
                (List.filter (fun c => negb (o_reduce_only c) && side_eqb (o_side c) Sell)
                   (live_candidates e order)) in
            let projected := sat64 (sat64 (held - pending) - o_quantity order) in
            if 0 <=? projected then None
            else
              Some ("selling " +:+ display_fixed (o_quantity order) +:+ " of " +:+
                    o_instrument order +:+ " outcome " +:+ show_int (o_outcome order) +:+
                    " would leave a short of " +:+ display_fixed (neg64 projected) +:+
                    ", and a prediction-market contract cannot be borrowed; buy " +:+
                    complement_label instrument (o_outcome order) +:+
                    " instead, which has the same payoff at a cost of one minus the price")
        | _ => None
        end
    end.

Definition position_limit_rejection e (order : Order) (maximum : Qty) : option string :=
  let current := held_in e (o_instrument order) (o_outcome order) in
  let candidates := live_candidates e order in
  let pending side := sat_remaining 0 (List.filter (fun c => side_eqb (o_side c) side) candidates) in
  let plus side := if side_eqb (o_side order) side then sat64 (pending side + o_quantity order)
                   else pending side in
  let projected_long := Z.abs (sat64 (current + plus Buy)) in
  let projected_short := Z.abs (sat64 (current - plus Sell)) in
  let projected := Z.max projected_long projected_short in
  if maximum mod 2 ^ 128 <? projected then
    Some ("worst-case absolute position " +:+ display_fixed (Z.min projected i64_max) +:+
          " across live orders exceeds max_abs_position " +:+ display_fixed maximum)
  else None.

Definition risk_rejection e (order : Order) : option string :=
  match
    match max_order_quantity (risk_limits cfg) with
    | Some maximum =>
        if maximum <? o_quantity order then
          Some ("quantity " +:+ display_fixed (o_quantity order) +:+
                " exceeds max_order_quantity " +:+ display_fixed maximum)
        else None
    | None => None
    end
  with
  | Some reason => Some reason
  | None =>
      match
        match max_open_orders (risk_limits cfg) with
        | Some maximum =>
            let open := length (List.filter (order_is_open e) (e_live_orders e)) in
            if (maximum <=? open)%nat then
              Some ("open order count " +:+ show_int (Z.of_nat open) +:+
                    " reached max_open_orders " +:+ show_int (Z.of_nat maximum))
            else None
        | None => None
        end
      with
      | Some reason => Some reason
      | None =>
          match max_abs_position (risk_limits cfg) with
          | Some maximum => position_limit_rejection e order maximum
          | None => None
          end
      end
  end.

(** A refused order is kept, with its reason, and counted. *)
Definition reject e (order : Order) (reason : string) (count : RunMetrics -> RunMetrics) : Eng :=
  bump (put_order e (order <| o_status := Rejected |> <| o_reject_reason := Some reason |>)) count.

Definition accept e (id : OrderId) (request : OrderRequest) : Result Eng :=
  let refusal := order_refusal request in
  let now := now (e_clock e) in
  let? order :=
    Order.new id (rq_instrument request) (rq_outcome request) (rq_side request) (rq_kind request)
      (rq_quantity request) (rq_time_in_force request) now in
  let order := order <| o_tag := rq_tag request |> <| o_reduce_only := rq_reduce_only request |>
                     <| o_post_only := rq_post_only request |>
                     <| o_trigger := rq_trigger request |> in
  let e := bump e (fun m => m <| orders_submitted := orders_submitted m + 1 |>) in
  let e := e <| e_live_orders := List.filter (order_is_open e) (e_live_orders e) |> in
  match refusal with
  | Some reason =>
      Ok (reject e order reason
            (fun m => m <| orders_rejected_invalid := orders_rejected_invalid m + 1 |>))
  | None =>
      match stopped_trading e (o_instrument order) now with
      | Some reason =>
          Ok (reject e order reason
                (fun m => m <| orders_rejected_expired := orders_rejected_expired m + 1 |>))
      | None =>
          match naked_short_rejection e order with
          | Some reason =>
              Ok (reject e order reason
                    (fun m => m <| orders_rejected_naked_short := orders_rejected_naked_short m + 1 |>))
          | None =>
              match risk_rejection e order with
              | Some reason =>
                  Ok (reject e order reason
                        (fun m => m <| orders_rejected_risk := orders_rejected_risk m + 1 |>))
              | None =>
                  let? execution := send (e_execution e) (ExSubmit order) now in
                  let e := e <| e_execution := execution |>
                             <| e_sequence := e_sequence e + 1 |> in
                  let release_at := sat64 (now + insert_nanos (latency_model cfg)) in
                  let item := mkInFlight release_at (e_sequence e) (IaOrder order) in
                  let e := e <| e_inflight := hpush inflight_key item (e_inflight e) |>
                             <| e_live_orders := e_live_orders e ++ [id] |> in
                  Ok (put_order e order)
              end
          end
      end
  end.

Definition run_command e (command : Command) : Result Eng :=
  match command with
  | CmdSubmit id request => accept e id request
  | CmdCancel id => cancel e id
  | CmdAmend id quantity limit => amend e id quantity limit
  | CmdSet request => Ok (queue_set_operation e request)
  | CmdTwap request => start_twap e request
  end.

(** No command reads or extends the queue, so popping until it is empty is one pass
    over it. *)
Definition drain_commands e : Result Eng :=
  let commands := e_commands e in
  foldr_res run_command (e <| e_commands := [] |>) commands.

(** ** Callbacks and fills *)

Definition context e : Context :=
  mkContext (now (e_clock e)) (slots cfg) (e_books e) (e_marks e) (e_oracles e) (e_portfolio e)
    (e_cash e) (e_commands e) (e_clock_requests e) (e_forecasts e) (e_next_order_id e).

Definition with_context {S} e (s : S) (f : Context -> Result (S * Context)) : Result (Eng * S) :=
  let? ' (s, c) := f (context e) in
  let? clock :=
    foldr_res (fun k (r : string * UnixNanos) => Clock.set_timer k r.1 r.2) (e_clock e)
      (cx_clock_requests c) in
  Ok (e <| e_commands := cx_commands c |> <| e_clock_requests := [] |>
        <| e_forecasts := cx_forecasts c |> <| e_next_order_id := cx_next_order_id c |>
        <| e_clock := clock |>, s).

(** A callback, then what it asked for. *)
Definition callback {S} e (s : S) (f : Context -> Result (S * Context)) : Result (Eng * S) :=
  let? ' (e, s) := with_context e s f in
  let? e := drain_commands e in
  Ok (e, s).

(** How cash moves with a fill: a funded instrument is bought, a derivative only
    realises profit.  The portfolio has already taken the fill. *)
Definition move_cash e (instrument : Instrument) (fill : Fill) (realized_before : Money)
  : Result Eng :=
  if is_funded (kind instrument) then
    let? gross := notional (f_price fill) (f_quantity fill) in
    let delta := match f_side fill with Buy => neg64 gross | Sell => gross end in
    let? cash := checked_add "Money" (e_cash e) delta in
    let? cash := checked_sub "Money" cash (f_commission fill) in
    Ok (e <| e_cash := cash |>)
  else
    let realized_after :=
      default 0 (p_realized_pnl <$>
        Portfolio.position (e_portfolio e) (f_instrument fill) (f_outcome fill)) in
    let? gain := checked_sub "Money" realized_after realized_before in
    let? cash := checked_add "Money" (e_cash e) gain in
    Ok (e <| e_cash := cash |>).

Definition count_fill (origin : FillOrigin) (m : RunMetrics) : RunMetrics :=
  match origin with
  | Trade true => m <| fills_taker := fills_taker m + 1 |>
  | Trade false => m <| fills_maker := fills_maker m + 1 |>
  | CompleteSet => m
  end.

(** [book_fill] up to the callback. *)
Definition book_fill_state e (id : OrderId) (terms : FillTerms) (ts : UnixNanos)
  : Result (Eng * Fill) :=
  let? order := ok_or (bget id (e_orders e)) order_exists in
  let? instrument := InstrumentSet.get (instruments cfg) (o_instrument order) in
  let is_taker := match ft_origin terms with Trade b => b | CompleteSet => false end in
  let fill :=
    mkFill id (o_instrument order) (o_outcome order) (o_side order) (ft_price terms)
      (ft_quantity terms) (ft_commission terms) is_taker ts (o_tag order) in
  let realized_before :=
    default 0 (p_realized_pnl <$>
      Portfolio.position (e_portfolio e) (o_instrument order) (o_outcome order)) in
  let? portfolio := Portfolio.apply (e_portfolio e) fill in
  let e := e <| e_portfolio := portfolio |> in
  let? e := move_cash e instrument fill realized_before in
  let? e := rebalance_isolated e (o_instrument order) in
  let? order := Order.record_fill order (ft_quantity terms) in
  let e := e <| e_orders := binsert id order (e_orders e) |> in
  let e := if Order.is_open order then e else fee_order_closed (remove_resting e id) id in
  let e := bump e (count_fill (ft_origin terms)) in
  Ok (e <| e_fills := e_fills e ++ [fill] |>, fill).

Definition book_fill {S} `{Strategy S} e (s : S) (id : OrderId) (terms : FillTerms)
  (ts : UnixNanos) : Result (Eng * S) :=
  let? ' (e, fill) := book_fill_state e id terms ts in
  callback e s (fun c => on_fill s c fill).

Definition execute {S} `{Strategy S} e (s : S) (id : OrderId) (price : Price) (quantity : Qty)
  (is_taker : bool) (ts : UnixNanos) : Result (Eng * S) :=
  let? order := ok_or (bget id (e_orders e)) order_exists in
  let? instrument := InstrumentSet.get (instruments cfg) (o_instrument order) in
  let? ' (fee_model, fee) :=
    commission (e_fee_model e)
      (mkFeeContext id instrument (o_side order) price quantity is_taker ts) in
  book_fill (e <| e_fee_model := fee_model |>) s id
    (mkFillTerms price quantity (Trade is_taker) fee) ts.

(** ** Matching *)

(** What a reduce-only order may still close. *)
Definition closable e (order : Order) : Raw :=
  let held := held_in e (o_instrument order) (o_outcome order) in
  match o_side order with Buy => Z.max (neg64 held) 0 | Sell => Z.max held 0 end.

Definition execute_all {S} `{Strategy S} (id : OrderId) (is_taker : bool) (ts : UnixNanos)
  (st : Eng * S) (fills : list (Price * Qty)) : Result (Eng * S) :=
  foldr_res (fun (st : Eng * S) (f : Price * Qty) => execute st.1 st.2 id f.1 f.2 is_taker ts)
    st fills.

Definition try_fill {S} `{Strategy S} e (s : S) (id : OrderId) (ts : UnixNanos)
  : Result (Eng * S) :=
  match bget id (e_orders e) with
  | None => Ok (e, s)
  | Some order =>
      if negb (Order.is_open order) || bool_decide (o_status order = InFlight) then Ok (e, s)
      else
        match stopped_trading e (o_instrument order) ts with
        | Some reason =>
            let e := update_order e id (fun o =>
              o <| o_status := Rejected |> <| o_reject_reason := Some reason |>) in
            let e := fee_order_closed (remove_resting e id) id in
            Ok (bump e (fun m => m <| orders_rejected_expired := orders_rejected_expired m + 1 |>), s)
        | None =>
            match bget (slot_of order) (e_books e) with
            | None => Ok (no_liquidity e id, s)
            | Some book =>
                let effective := default book (book_for_fill (fill_model cfg) book order) in
                let wanted :=
                  if o_reduce_only order then Z.min (Order.remaining order) (closable e order)
                  else Order.remaining order in
                if o_reduce_only order && negb (is_positive wanted) then
                  Ok (close e id Cancelled, s)
                else
                  let walk := OrderBook.walk effective (o_side order) wanted (Order.limit_price order) in
                  if bool_decide (o_tif order = FillOrKill) && negb (BookWalk.filled walk =? wanted)
                  then Ok (close e id Cancelled, s)
                  else
                    let? ' (e, s) :=
                      execute_all id (negb (o_post_only order)) ts (e, s) (w_fills walk) in
                    let? order := ok_or (bget id (e_orders e)) order_exists in
                    Ok (if Order.is_open order then rest_or_cancel e id order else e, s)
            end
        end
  end.

Definition try_fill_all {S} `{Strategy S} (ts : UnixNanos) (st : Eng * S) (ids : list OrderId)
  : Result (Eng * S) :=
  foldr_res (fun (st : Eng * S) id => try_fill st.1 st.2 id ts) st ids.

(** [sort_unstable] on ids. *)
Definition sort_ids (ids : list OrderId) : list OrderId := sort_by_key id ids.

Definition match_resting {S} `{Strategy S} e (s : S) (record : EventRecord) (key : Slot)
  : Result (Eng * S) :=
  match bget key (e_books e) with
  | None => Ok (e, s)
  | Some book =>
      let best_bid := fst <$> OrderBook.best_bid book in
      let best_ask := fst <$> OrderBook.best_ask book in
      let is_corporate := match rec_event record with EvCorporate _ => true | _ => false end in
      let candidates :=
        if is_corporate then
          List.filter (fun id =>
            match bget id (e_orders e) with
            | Some o => String.eqb (o_instrument o) (rec_instrument record) && Order.is_open o
            | None => false
            end) (e_resting e)
        else if preserves_book_prices (fill_model cfg) then
          sort_ids (RestingIndex.crossing_top (e_resting_index e) key best_bid best_ask)
        else sort_ids (RestingIndex.all_for_market (e_resting_index e) key) in
      match candidates with
      | [] => Ok (e, s)
      | _ =>
          let? ' (e, s) := try_fill_all (EventRecord.ts record) (e, s) candidates in
          Ok (prune_resting e, s)
      end
  end.

(** The loop over the orders a print reaches. *)
Fixpoint consume_loop {S} `{Strategy S} (ts : UnixNanos) (remaining : Raw)
  (eligible : list (Price * OrderId)) e (s : S) : Result (Eng * S) :=
  match eligible with
  | [] => Ok (e, s)
  | (limit, id) :: rest =>
      if remaining <=? 0 then Ok (e, s)
      else
        let ahead := default 0 (bget id (e_queue_ahead e)) in
        let consumed := if 0 <? ahead then Z.min remaining ahead else 0 in
        let e := e <| e_queue_ahead := binsert id (ahead - consumed) (e_queue_ahead e) |> in
        let remaining := remaining - consumed in
        if (0 <? ahead) && (remaining <=? 0) then Ok (e, s)
        else
          let wanted := default 0 (Order.remaining <$> bget id (e_orders e)) in
          let fill := Z.min remaining wanted in
          let? ' (e, s) :=
            if 0 <? fill then execute e s id limit fill false ts else Ok (e, s) in
          let remaining := if 0 <? fill then remaining - fill else remaining in
          let e :=
            if order_is_open e id then e
            else e <| e_queue_ahead := bremove id (e_queue_ahead e) |> in
          consume_loop ts remaining rest e s
  end.

Definition consume_queue_side {S} `{Strategy S} e (s : S) (record : EventRecord) (price : Price)
  (size : Qty) (passive : Side) : Result (Eng * S) :=
  let key := Slots.key (slots cfg) (rec_instrument record) (rec_outcome record) in
  let eligible := RestingIndex.reached_by_trade (e_resting_index e) key passive price in
  let? ' (e, s) := consume_loop (EventRecord.ts record) size eligible e s in
  Ok (prune_resting e, s).

Definition consume_queue {S} `{Strategy S} e (s : S) (record : EventRecord) (price : Price)
  (size : Qty) (aggressor : option Side) : Result (Eng * S) :=
  if negb (uses_queue_position (fill_model cfg)) then Ok (e, s)
  else
    match aggressor with
    | Some side => consume_queue_side e s record price size (Side.opposite side)
    | None =>
        if fills_on_unknown_aggressor (fill_model cfg) then
          let? ' (e, s) := consume_queue_side e s record price size Buy in
          consume_queue_side e s record price size Sell
        else Ok (e, s)
    end.

(** ** Orders of the venue's own *)

(** An order the engine creates already accepted: a TWAP child, a liquidation, a
    delisting settlement, a leg of a set. *)
Definition venue_order e (instrument : InstrumentId) (outcome : OutcomeId) (side : Side)
  (quantity : Qty) (ts : UnixNanos) (tag : string) (reduce_only : bool)
  : Result (Eng * OrderId) :=
  let id := e_next_order_id e + 1 in
  let e := e <| e_next_order_id := id |> in
  let? order := Order.new id instrument outcome side Market quantity ImmediateOrCancel ts in
  let order := order <| o_status := Accepted |> <| o_accepted_at := Some ts |>
                     <| o_reduce_only := reduce_only |> <| o_tag := Some tag |> in
  Ok (e <| e_orders := binsert id order (e_orders e) |>, id).

Definition closing_side (quantity : Qty) : Side := if is_positive quantity then Sell else Buy.

(** ** Corporate actions *)

(** One resting order across a split: out of the index, scaled, back in. *)
Definition split_resting (instrument : InstrumentId) (ratio : Price) e (id : OrderId)
  : Result Eng :=
  match bget id (e_orders e) with
  | None => Ok e
  | Some order =>
      if negb (String.eqb (o_instrument order) instrument) then Ok e
      else
        let? slot := Slots.resolve (slots cfg) (o_instrument order) (o_outcome order) in
        let e := e <| e_resting_index := RestingIndex.remove (e_resting_index e) order slot |> in
        let? order := split_order ratio order in
        let e := e <| e_orders := binsert id order (e_orders e) |> in
        Ok (e <| e_resting_index := RestingIndex.insert (e_resting_index e) order slot |>)
  end.

(** One order off the book, if [applies]. *)
Definition split_off_book (instrument : InstrumentId) (ratio : Price) (applies : Order -> bool) e
  (id : OrderId) : Result Eng :=
  match bget id (e_orders e) with
  | None => Ok e
  | Some order =>
      if negb (applies order) || negb (String.eqb (o_instrument order) instrument) then Ok e
      else
        let? order := split_order ratio order in
        Ok (e <| e_orders := binsert id order (e_orders e) |>)
  end.

Definition split_series (ratio : Price) (series : BTree Slot Price) (slot : Slot)
  : Result (BTree Slot Price) :=
  match bget slot series with
  | None => Ok series
  | Some price =>
      let? ' (_q, adjusted) := CorporateAction.split_position ratio 0 price in
      Ok (binsert slot adjusted series)
  end.

Definition split_book (ratio : Price) (ts : UnixNanos) (books : BTree Slot OrderBook) (slot : Slot)
  : Result (BTree Slot OrderBook) :=
  match bget slot books with
  | None => Ok books
  | Some book => let? book := OrderBook.apply_split book ratio ts in Ok (binsert slot book books)
  end.

(** The four series of one slot. *)
Definition split_prices (ratio : Price) e (slot : Slot) : Result Eng :=
  let? marks := split_series ratio (e_marks e) slot in
  let? book_marks := split_series ratio (e_book_marks e) slot in
  let? venue_marks := split_series ratio (e_venue_marks e) slot in
  let? oracles := split_series ratio (e_oracles e) slot in
  Ok (e <| e_marks := marks |> <| e_book_marks := book_marks |> <| e_venue_marks := venue_marks |>
        <| e_oracles := oracles |>).

Definition split_quotes e (instrument : InstrumentId) (ratio : Price) (ts : UnixNanos)
  : Result Eng :=
  let all := Slots.all_for (slots cfg) instrument in
  let? books := foldr_res (split_book ratio ts) (e_books e) all in
  foldr_res (split_prices ratio) (e <| e_books := books |>) all.

(** One open position cashed out at the delisting price. *)
Definition cash_out (final_price : Price) (ts : UnixNanos) e
  (open : InstrumentId * OutcomeId * Qty) : Result Eng :=
  let '(instrument, outcome, quantity) := open in
  let? ' (e, id) :=
    venue_order e instrument outcome (closing_side quantity) (abs64 quantity) ts "delisting" false in
  let? ' (e, _s) := execute e mkNoStrategy id final_price (abs64 quantity) false ts in
  Ok e.

Definition count_corporate e : Eng :=
  bump e (fun m => m <| corporate_actions := corporate_actions m + 1 |>).

Definition apply_corporate_action e (instrument : InstrumentId) (action : CorporateAction)
  (ts : UnixNanos) : Result Eng :=
  let? _u := CorporateAction.validate action in
  match action with
  | Split ratio =>
      let? portfolio := Portfolio.apply_split (e_portfolio e) instrument ratio in
      let e := e <| e_portfolio := portfolio |> in
      let? e := foldr_res (split_resting instrument ratio) e (e_resting e) in
      let? e :=
        foldr_res (split_off_book instrument ratio (fun _ => true)) e (e_untriggered e) in
      let? e :=
        foldr_res (split_off_book instrument ratio (fun o => bool_decide (o_status o = InFlight))) e
          (e_live_orders e) in
      let? e := split_quotes e instrument ratio ts in
      Ok (count_corporate e)
  | Dividend per_share =>
      let? due := Portfolio.dividend_due (e_portfolio e) instrument per_share in
      let? e :=
        if is_zero due then Ok e
        else
          let? cash := checked_add "Money" (e_cash e) due in
          let? received := checked_add "Money" (e_dividends_received e) due in
          Ok (e <| e_cash := cash |> <| e_dividends_received := received |>) in
      Ok (count_corporate e)
  | Delist final_price =>
      let open :=
        map (fun p => (p_instrument p, p_outcome p, p_quantity p))
          (List.filter (fun p => String.eqb (p_instrument p) instrument)
             (Portfolio.open_positions (e_portfolio e))) in
      let? e := foldr_res (cash_out final_price ts) e open in
      let e := e <| e_delisted := {[instrument]} ∪ e_delisted e |> in
      Ok (count_corporate e)
  end.

(** ** Market data *)

(** One position of [apply_funding]. *)
Definition funding_add e (instrument : InstrumentId) (rate : Price) (total : Money) (p : Position)
  : Result Money :=
  if negb (String.eqb (p_instrument p) instrument) then Ok total
  else
    let key := Slots.key (slots cfg) (p_instrument p) (p_outcome p) in
    match
      match bget key (e_oracles e) with Some price => Some price | None => bget key (e_marks e) end
    with
    | None => Ok total
    | Some mark =>
        let? exposure := Position.exposure p mark in
        let? payment := notional rate exposure in
        checked_sub "Money" total payment
    end.

Definition apply_funding e (instrument : InstrumentId) (rate : Price) : Result Eng :=
  let? total :=
    foldr_res (funding_add e instrument rate) 0 (Portfolio.open_positions (e_portfolio e)) in
  if is_zero total then Ok e
  else
    let? cash := checked_add "Money" (e_cash e) total in
    let? paid := checked_sub "Money" (e_funding_paid e) total in
    Ok (e <| e_cash := cash |> <| e_funding_paid := paid |>).

Definition touched_book (event : MarketEvent) : bool :=
  match event with
  | EvBookSnapshot _ _ | EvBookDelta _ | EvGap | EvCorporate _ => true
  | _ => false
  end.

(** The event's own effect, on an engine whose book at [key] exists. *)
Definition apply_event e (record : EventRecord) (key : Slot) (book : OrderBook) : Result Eng :=
  let ts := EventRecord.ts record in
  match rec_event record with
  | EvBookSnapshot bids asks =>
      let? book := OrderBook.apply_snapshot book bids asks ts in
      Ok (e <| e_books := binsert key book (e_books e) |>)
  | EvBookDelta delta =>
      let? book := OrderBook.apply_delta book (rec_instrument record) delta ts in
      Ok (e <| e_books := binsert key book (e_books e) |>)
  | EvGap =>
      Ok (bump (e <| e_books := binsert key (OrderBook.mark_gap book ts) (e_books e) |>)
            (fun m => m <| book_gaps := book_gaps m + 1 |>))
  | EvTrade price _ _ => Ok (set_book_mark e key price)
  | EvBar _ _ _ close _ => Ok (set_book_mark e key close)
  | EvReference mark oracle =>
      let e :=
        match mark with
        | Some price => e <| e_venue_marks := binsert key price (e_venue_marks e) |>
        | None => e
        end in
      Ok (match oracle with
          | Some price => e <| e_oracles := binsert key price (e_oracles e) |>
          | None => e
          end)
  | EvFunding rate => apply_funding e (rec_instrument record) rate
  | EvCorporate action => apply_corporate_action e (rec_instrument record) action ts
  end.

Definition apply_to_books e (record : EventRecord) (key : Slot) : Result Eng :=
  let? instrument := InstrumentSet.get (instruments cfg) (rec_instrument record) in
  let? _u := Instrument.check_outcome instrument (rec_outcome record) in
  let book := default OrderBook.new (bget key (e_books e)) in
  let e := e <| e_books := binsert key book (e_books e) |> in
  let? e := apply_event e record key book in
  Ok (match book ← bget key (e_books e); OrderBook.mid book with
      | Some mid =>
          if touched_book (rec_event record) then set_book_mark e key mid else refresh_mark e key
      | None => refresh_mark e key
      end).

(** ** Liquidation *)

(** What a liquidation closed, recorded only when something was filled. *)
Definition record_liquidation e (id : OrderId) (instrument : InstrumentId) (outcome : OutcomeId)
  (mark : Price) (equity maintenance : Money) : Eng :=
  let filled := default 0 (o_filled <$> bget id (e_orders e)) in
  if is_zero filled then e
  else
    let e := bump e (fun m => m <| m_liquidations := m_liquidations m + 1 |>) in
    e <| e_liquidations := e_liquidations e ++
      [mkLiquidation instrument outcome filled mark equity maintenance] |>.

(** Close some quantity of a position by crossing the book. *)
Definition liquidate {S} `{Strategy S} e (s : S) (instrument : InstrumentId) (outcome : OutcomeId)
  (closing : Qty) (mark : Price) (equity maintenance : Money) (tag : string) (ts : UnixNanos)
  : Result (Eng * S) :=
  let? ' (e, id) :=
    venue_order e instrument outcome (closing_side closing) (abs64 closing) ts tag false in
  let? ' (e, s) := try_fill e s id ts in
  Ok (record_liquidation e id instrument outcome mark equity maintenance, s).

Definition is_stopped e (instrument : InstrumentId) (ts : UnixNanos) : bool :=
  match stopped_trading e instrument ts with Some _ => true | None => false end.

(** The cross positions a call may close, with their requirements. *)
Definition doomed_add e (ts : UnixNanos)
  (doomed : list (InstrumentId * OutcomeId * Qty * Money)) (p : Position)
  : Result (list (InstrumentId * OutcomeId * Qty * Money)) :=
  match mark_at e (p_instrument p) (p_outcome p) with
  | None => Ok doomed
  | Some mark =>
      if is_stopped e (p_instrument p) ts then Ok doomed
      else
        let? instrument := InstrumentSet.get (instruments cfg) (p_instrument p) in
        let? requirement :=
          match margin_model cfg with
          | Some model => maintenance_margin model instrument (p_quantity p) mark
          | None => Ok 0
          end in
        Ok (doomed ++ [(p_instrument p, p_outcome p, p_quantity p, requirement)])
  end.

(** Largest requirement first, then instrument and outcome. *)
Definition doomed_key (d : InstrumentId * OutcomeId * Qty * Money) : Z * (string * Z) :=
  let '(instrument, outcome, _, requirement) := d in (- requirement, (instrument, outcome)).

Definition still_liquidatable e : Result bool :=
  let? state := margin_state e in
  Ok (match state with Some state => liquidatable state | None => false end).

Fixpoint liquidation_loop {S} `{Strategy S} (state : MarginState) (ts : UnixNanos)
  (doomed : list (InstrumentId * OutcomeId * Qty * Money)) e (s : S) : Result (Eng * S) :=
  match doomed with
  | [] => Ok (e, s)
  | (instrument, outcome, quantity, _) :: rest =>
      let? go :=
        match liquidation cfg with Partial => still_liquidatable e | CloseAll => Ok true end in
      if negb go then Ok (e, s)
      else
        match mark_at e instrument outcome with
        | None => liquidation_loop state ts rest e s
        | Some mark =>
            let? closing :=
              match liquidation cfg with
              | CloseAll => Ok quantity
              | Partial => partial_close_quantity e instrument quantity mark
              end in
            if is_zero closing then liquidation_loop state ts rest e s
            else
              let? ' (e, s) :=
                liquidate e s instrument outcome closing mark (ms_equity state)
                  (ms_maintenance state) "liquidation" ts in
              liquidation_loop state ts rest e s
        end
  end.

Definition check_liquidation {S} `{Strategy S} e (s : S) (ts : UnixNanos) : Result (Eng * S) :=
  let? state := margin_state e in
  match state with
  | None => Ok (e, s)
  | Some state =>
      if negb (liquidatable state) then Ok (e, s)
      else
        let? doomed := foldr_res (doomed_add e ts) [] (cross_positions e) in
        liquidation_loop state ts (sort_by_key doomed_key doomed) e s
  end.

(** One open position of an isolated instrument: profit, requirement, what to close. *)
Definition isolated_add e (model : M) (instrument : InstrumentId)
  (st : Money * Money * list (OutcomeId * Qty * Price)) (p : Position)
  : Result (Money * Money * list (OutcomeId * Qty * Price)) :=
  let '(unrealized, maintenance, open) := st in
  if negb (String.eqb (p_instrument p) instrument) then Ok st
  else
    match mark_at e instrument (p_outcome p) with
    | None => Ok st
    | Some mark =>
        let? found := InstrumentSet.get (instruments cfg) instrument in
        let? profit := Position.unrealized_pnl p mark in
        let? unrealized := checked_add "Money" unrealized profit in
        let? mm := maintenance_margin model found (p_quantity p) mark in
        let? maintenance := checked_add "Money" maintenance mm in
        Ok (unrealized, maintenance, open ++ [(p_outcome p, p_quantity p, mark)])
    end.

(** Whether one isolated instrument has exhausted its bucket. *)
Definition isolated_call e (model : M) (ts : UnixNanos) (calls : list IsolatedCall)
  (instrument : InstrumentId) : Result (list IsolatedCall) :=
  if is_stopped e instrument ts then Ok calls
  else
    let posted := default 0 (bget instrument (e_isolated_collateral e)) in
    let? ' (unrealized, maintenance, open) :=
      foldr_res (isolated_add e model instrument) (0, 0, [])
        (Portfolio.open_positions (e_portfolio e)) in
    match open with
    | [] => Ok calls
    | _ =>
        let? equity := checked_add "Money" posted unrealized in
        if maintenance <=? equity then Ok calls
        else Ok (calls ++ [mkIsolatedCall instrument equity maintenance open])
    end.

Definition close_isolated {S} `{Strategy S} (ts : UnixNanos) (call : IsolatedCall) (st : Eng * S)
  (open : OutcomeId * Qty * Price) : Result (Eng * S) :=
  let '(outcome, quantity, mark) := open in
  liquidate st.1 st.2 (ic_instrument call) outcome quantity mark (ic_equity call)
    (ic_maintenance call) "liquidation:isolated" ts.

Definition check_isolated_liquidation {S} `{Strategy S} e (s : S) (ts : UnixNanos)
  : Result (Eng * S) :=
  match margin_model cfg with
  | None => Ok (e, s)
  | Some model =>
      let? calls := foldr_res (isolated_call e model ts) [] (bkeys (isolated cfg)) in
      foldr_res (fun st call => foldr_res (close_isolated ts call) st (ic_open call)) (e, s) calls
  end.

(** ** TWAPs and triggers *)

(** One schedule on one record: its next child, if one is due. *)
Definition twap_step (ts : UnixNanos) (twap : TwapProgress) : Result (TwapProgress * option Qty) :=
  if TwapProgress.is_done twap || (ts <? tp_next_at twap) then Ok (twap, None)
  else
    let remaining_slices := tp_total_slices twap - tp_sent twap in
    let slice :=
      if remaining_slices <=? 1 then TwapProgress.remaining twap
      else Z.quot (tw_quantity (tp_request twap)) (tp_total_slices twap) in
    if negb (is_positive slice) then Ok (twap <| tp_sent := tp_total_slices twap |>, None)
    else
      let? worked := checked_add "Qty" (tp_worked twap) slice in
      Ok (twap <| tp_sent := tp_sent twap + 1 |> <| tp_worked := worked |>
            <| tp_next_at := sat64 (tp_next_at twap + tw_interval_nanos (tp_request twap)) |>,
          Some slice).

(** The schedules moved on, and the children due with the index of their schedule. *)
Fixpoint due_twaps (ts : UnixNanos) (index : nat) (twaps : list TwapProgress)
  : Result (list TwapProgress * list (nat * Qty)) :=
  match twaps with
  | [] => Ok ([], [])
  | twap :: rest =>
      let? ' (twap, slice) := twap_step ts twap in
      let? ' (rest, due) := due_twaps ts (Datatypes.S index) rest in
      Ok (twap :: rest, match slice with Some q => (index, q) :: due | None => due end)
  end.

Definition release_slice {S} `{Strategy S} (ts : UnixNanos) (st : Eng * S) (due : nat * Qty)
  : Result (Eng * S) :=
  let '(e, s) := st in
  let? twap := ok_or (e_twaps e !! due.1) (invalid "index out of bounds") in
  let request := tp_request twap in
  let? ' (e, id) :=
    venue_order e (tw_instrument request) (tw_outcome request) (tw_side request) due.2 ts
      (default "twap" (tw_tag request)) (tw_reduce_only request) in
  let e := bump e (fun m => m <| twap_slices := twap_slices m + 1 |>) in
  try_fill e s id ts.

Definition work_twaps {S} `{Strategy S} e (s : S) (ts : UnixNanos) : Result (Eng * S) :=
  let? ' (twaps, due) := due_twaps ts 0 (e_twaps e) in
  foldr_res (release_slice ts) (e <| e_twaps := twaps |>, s) due.

(** What [arm_triggers] does with a parked id: drop it, keep it, or fire it. *)
Inductive parked := Gone | Waiting | Fires.
Definition parked_state e (id : OrderId) : parked :=
  match bget id (e_orders e) with
  | None => Gone
  | Some order =>
      if negb (bool_decide (o_status order = Untriggered)) then Gone
      else
        match o_trigger order with
        | None => Gone
        | Some trigger =>
            match mark_at e (o_instrument order) (o_outcome order) with
            | Some price => if Trigger.fires_at trigger price then Fires else Waiting
            | None => Waiting
            end
        end
  end.

Definition fire_trigger {S} `{Strategy S} (ts : UnixNanos) (st : Eng * S) (id : OrderId)
  : Result (Eng * S) :=
  let '(e, s) := st in
  let e :=
    update_order e id (fun o =>
      o <| o_trigger := None |> <| o_status := Accepted |> <| o_accepted_at := Some ts |>) in
  let e := bump e (fun m => m <| orders_triggered := orders_triggered m + 1 |>) in
  try_fill e s id ts.

Definition arm_triggers {S} `{Strategy S} e (s : S) (ts : UnixNanos) : Result (Eng * S) :=
  let state := parked_state e in
  let ready := List.filter (fun id => match state id with Fires => true | _ => false end)
                 (e_untriggered e) in
  let waiting := List.filter (fun id => match state id with Waiting => true | _ => false end)
                   (e_untriggered e) in
  foldr_res (fire_trigger ts) (e <| e_untriggered := waiting |>, s) ready.

(** ** Complete sets *)

Definition set_operation_refusal e (instrument : Instrument) (side : Side) (sets : Qty)
  (cost : Money) (ts : UnixNanos) : Result (option string) :=
  match stopped_trading e (inst_id instrument) ts with
  | Some reason => Ok (Some reason)
  | None =>
      match side with
      | Buy =>
          let? gross := notional PROBABILITY_MAX sets in
          let? needed := checked_add "Money" gross cost in
          Ok (if e_cash e <? needed then
                Some ("minting " +:+ display_fixed sets +:+ " sets of " +:+ inst_id instrument +:+
                      " costs " +:+ display_fixed needed +:+ " but the account holds " +:+
                      display_fixed (e_cash e))
              else None)
      | Sell =>
          Ok (match List.find (fun outcome => held_in e (inst_id instrument) outcome <? sets)
                      (Instrument.outcome_ids instrument) with
              | Some outcome =>
                  Some ("redeeming " +:+ display_fixed sets +:+ " sets of " +:+
                        inst_id instrument +:+ " needs " +:+ display_fixed sets +:+ " of outcome "
                        +:+ show_int outcome +:+ " but only " +:+
                        display_fixed (held_in e (inst_id instrument) outcome) +:+ " are held")
              | None => None
              end)
      end
  end.

Definition set_basis e (instrument : Instrument) : Result (list Price) :=
  let quoted :=
    mapM (fun outcome =>
      match mark_at e (inst_id instrument) outcome with
      | Some price => if is_positive price then Some price else None
      | None => None
      end) (Instrument.outcome_ids instrument) in
  match quoted with
  | Some prices => normalise_to_one prices
  | None => uniform_prices (Instrument.outcome_count instrument)
  end.

(** [dedup] on a sorted list. *)
Fixpoint dedup (l : list Z) : list Z :=
  match l with
  | x :: (y :: _) as l' => if x =? y then dedup l' else x :: dedup l'
  | _ => l
  end.

(** How many sets a conversion redeems. *)
Definition conversion_sets (instrument : Instrument) (held : list OutcomeId) (quantity : Qty)
  : Result Qty :=
  if negb (neg_risk instrument) then Err (invalid "is not a negative-risk market")
  else
    let sorted := dedup (sort_ids held) in
    if negb (length sorted =? length held)%nat then
      Err (invalid "a conversion must name each outcome at most once")
    else
      let? _u := map_res (Instrument.check_outcome instrument) sorted in
      if (length sorted <? 2)%nat
         || (Instrument.outcome_count instrument <=? Z.of_nat (length sorted))
      then Err (invalid "a conversion must name between 2 and all but one of the outcomes")
      else
        ok_or (checked64 (quantity * (Z.of_nat (length sorted) - 1)))
          (Overflow "conversion set count").

(** One leg per outcome; the flat cost rides on the first. *)
Fixpoint set_legs {S} `{Strategy S} (instrument : Instrument) (side : Side) (sets : Qty)
  (cost : Money) (tag : string) (ts : UnixNanos) (index : nat) (basis : list Price) e (s : S)
  (cash_delta : Money) : Result (Eng * S * Money) :=
  match basis with
  | [] => Ok (e, s, cash_delta)
  | price :: rest =>
      let? ' (e, id) :=
        venue_order e (inst_id instrument) (Z.of_nat index mod 65536) side sets ts tag false in
      let fee := if (index =? 0)%nat then cost else 0 in
      let? leg := notional price sets in
      let? cash_delta :=
        match side with
        | Buy => checked_add "Money" cash_delta leg
        | Sell => checked_sub "Money" cash_delta leg
        end in
      let? ' (e, s) := book_fill e s id (mkFillTerms price sets CompleteSet fee) ts in
      set_legs instrument side sets cost tag ts (Datatypes.S index) rest e s cash_delta
  end.

Definition run_set_operation {S} `{Strategy S} e (s : S) (request : SetOperationRequest)
  (ts : UnixNanos) : Result (Eng * S) :=
  let? instrument := InstrumentSet.get (instruments cfg) (sr_instrument request) in
  if negb (Instrument.supports_complete_set instrument) then
    Err (invalid "does not trade as a complete set")
  else if negb (is_positive (sr_quantity request)) then Err (invalid "needs a positive quantity")
  else
    let kind := sr_kind request in
    let cost := SetOperationCosts.for_kind (set_costs cfg) kind in
    let? ' (sets, side) :=
      match kind with
      | Mint => Ok (sr_quantity request, Buy)
      | Redeem => Ok (sr_quantity request, Sell)
      | Convert held =>
          let? sets := conversion_sets instrument held (sr_quantity request) in Ok (sets, Sell)
      end in
    let? refusal := set_operation_refusal e instrument side sets cost ts in
    match refusal with
    | Some reason =>
        let record := mkSetOperation ts (inst_id instrument) kind 0 0 0 (Some reason) in
        let e := e <| e_set_operations := e_set_operations e ++ [record] |> in
        Ok (bump e (fun m => m <| set_operations_rejected := set_operations_rejected m + 1 |>), s)
    | None =>
        let? basis := set_basis e instrument in
        let tag := default (SetOperationKind.as_str kind) (sr_tag request) in
        let? ' (e, s, cash_delta) :=
          set_legs instrument side sets cost tag ts 0 basis e s 0 in
        let record := mkSetOperation ts (inst_id instrument) kind sets cash_delta cost None in
        let e := e <| e_set_operations := e_set_operations e ++ [record] |> in
        Ok (bump e (fun m => m <| m_set_operations := m_set_operations m + 1 |>), s)
    end.

(** ** Arrivals *)

(** Pop everything whose latency has elapsed. *)
Fixpoint pop_released (h : list InFlightItem) (ts : UnixNanos)
  : list InFlightAction * list InFlightItem :=
  match h with
  | [] => ([], [])
  | head :: h' =>
      if ts <? if_release_at head then ([], h)
      else let '(released, rest) := pop_released h' ts in (if_action head :: released, rest)
  end.

Definition crossing_price e (order : Order) : option Price :=
  limit ← Order.limit_price order;
  book ← bget (slot_of order) (e_books e);
  match o_side order with
  | Buy =>
      ask ← fst <$> OrderBook.best_ask book; if ask <=? limit then Some ask else None
  | Sell =>
      bid ← fst <$> OrderBook.best_bid book; if limit <=? bid then Some bid else None
  end.

Definition rests_at_front e (resting : Order) (price : Price) : bool :=
  match bget (slot_of resting) (e_books e) with
  | None => true
  | Some book =>
      match o_side resting with
      | Buy => match OrderBook.best_bid book with Some (bid, _) => bid <=? price | None => true end
      | Sell => match OrderBook.best_ask book with Some (ask, _) => price <=? ask | None => true end
      end
  end.

Definition crosses_own e (order : Order) (id : OrderId) : bool :=
  match bget id (e_orders e) with
  | None => false
  | Some resting =>
      if negb (String.eqb (o_instrument resting) (o_instrument order))
         || negb (o_outcome resting =? o_outcome order)
         || side_eqb (o_side resting) (o_side order) || negb (Order.is_open resting)
      then false
      else
        match Order.limit_price resting with
        | None => false
        | Some resting_price =>
            match Order.limit_price order with
            | None => rests_at_front e resting resting_price
            | Some bound =>
                match o_side order with
                | Buy => resting_price <=? bound
                | Sell => bound <=? resting_price
                end
            end
        end
  end.
Definition would_self_trade e (order : Order) : option OrderId :=
  List.find (crosses_own e order) (e_resting e).

(** The checks an arriving order passes before it is matched. *)
Definition admit_order {S} `{Strategy S} e (s : S) (order : Order) (ts : UnixNanos)
  : Result (Eng * S) :=
  match would_self_trade e order with
  | Some other =>
      let e := reject e order
        ("would trade against this account's own resting order O" +:+ show_int other)
        (fun m => m <| orders_rejected_self_trade := orders_rejected_self_trade m + 1 |>) in
      Ok (e <| e_self_trades_prevented := e_self_trades_prevented e + 1 |>, s)
  | None =>
      let? fundable := can_fund e order in
      if negb fundable then
        let e := reject e order "insufficient margin for this order"
          (fun m => m <| orders_rejected_margin := orders_rejected_margin m + 1 |>) in
        Ok (e <| e_rejected_for_margin := e_rejected_for_margin e + 1 |>, s)
      else
        let order := order <| o_status := Accepted |> <| o_accepted_at := Some ts |> in
        try_fill (put_order e order) s (o_id order) ts
  end.

(** A trigger not yet reached parks the order; one already reached is dropped. *)
Definition arrive_trigger {S} `{Strategy S} e (s : S) (order : Order) (ts : UnixNanos)
  : Result (Eng * S) :=
  match o_trigger order with
  | None => admit_order e s order ts
  | Some trigger =>
      let fires :=
        match mark_at e (o_instrument order) (o_outcome order) with
        | Some price => Trigger.fires_at trigger price
        | None => false
        end in
      if negb fires then
        let order := order <| o_status := Untriggered |> <| o_accepted_at := Some ts |> in
        let e := e <| e_untriggered := e_untriggered e ++ [o_id order] |> in
        Ok (put_order e order, s)
      else
        let e := bump e (fun m => m <| orders_triggered := orders_triggered m + 1 |>) in
        admit_order e s (order <| o_trigger := None |>) ts
  end.

Definition arrive {S} `{Strategy S} e (s : S) (order : Order) (ts : UnixNanos)
  : Result (Eng * S) :=
  match stopped_trading e (o_instrument order) ts with
  | Some reason =>
      Ok (reject e order (reason +:+ ", before this order arrived")
            (fun m => m <| orders_rejected_expired := orders_rejected_expired m + 1 |>), s)
  | None =>
      match (if o_post_only order then crossing_price e order else None) with
      | Some top =>
          Ok (reject e order
                ("a post-only order at " +:+
                 match Order.limit_price order with Some p => display_fixed p | None => "" end +:+
                 " would have crossed the book at " +:+ display_fixed top +:+
                 "; the venue refuses it rather than filling it as a taker")
                (fun m => m <| orders_rejected_post_only := orders_rejected_post_only m + 1 |>), s)
      | None => arrive_trigger e s order ts
      end
  end.

Definition release_one {S} `{Strategy S} (ts : UnixNanos) (st : Eng * S) (action : InFlightAction)
  : Result (Eng * S) :=
  let '(e, s) := st in
  match action with
  | IaSet request => run_set_operation e s request ts
  | IaOrder order =>
      match bget (o_id order) (e_orders e) with
      | Some current =>
          if bool_decide (o_status current = InFlight) then arrive e s current ts else Ok (e, s)
      | None => Ok (e, s)
      end
  end.

Definition release_inflight {S} `{Strategy S} e (s : S) (ts : UnixNanos) : Result (Eng * S) :=
  let '(released, rest) := pop_released (e_inflight e) ts in
  foldr_res (release_one ts) (e <| e_inflight := rest |>, s) released.

(** ** The loop *)

Definition step_timer {S} `{Strategy S} (st : Eng * S) (event : TimeEvent) : Result (Eng * S) :=
  callback st.1 st.2 (fun c => on_timer st.2 c event).

Definition step {S} `{Strategy S} e (s : S) (record : EventRecord) : Result (Eng * S) :=
  let ts := EventRecord.ts record in
  let? ' (clock, events) := Clock.advance_to (e_clock e) ts in
  let? ' (e, s) := foldr_res step_timer (e <| e_clock := clock |>, s) events in
  let e := expire_due e ts in
  let? key := Slots.resolve (slots cfg) (rec_instrument record) (rec_outcome record) in
  let? e := apply_to_books e record key in
  let? ' (e, s) :=
    match rec_event record with
    | EvTrade price size aggressor => consume_queue e s record price size aggressor
    | _ => Ok (e, s)
    end in
  let? ' (e, s) := match_resting e s record key in
  let? ' (e, s) := check_liquidation e s ts in
  let? ' (e, s) := check_isolated_liquidation e s ts in
  let? ' (e, s) := arm_triggers e s ts in
  let? ' (e, s) := work_twaps e s ts in
  let? ' (e, s) := callback e s (fun c => on_event s c record) in
  let? ' (e, s) := release_inflight e s ts in
  let e := e <| e_records := e_records e + 1 |> in
  let e := bump e (fun m => RunMetrics.record m (MarketEvent.kind (rec_event record))) in
  let e := e <| e_simulated_through := Some ts |> in
  let? e := sample_equity e ts in
  Ok (e, s).

(** The [while let] over the replay. *)
Fixpoint run_loop {S} `{Strategy S} (fuel : nat) (replay : Replay) e (s : S)
  : Result (Eng * S) :=
  let? ' (replay, next) := Replay.next_record replay in
  match next with
  | None => Ok (e, s)
  | Some record =>
      match fuel with
      | O => Err (invalid "out of fuel")
      | Datatypes.S fuel' => let? ' (e, s) := step e s record in run_loop fuel' replay e s
      end
  end.

Record RunResult := mkRunResult {
  rr_engine : Eng;
  rr_orders : list Order;
  rr_realized_pnl : Money;
  rr_commissions : Money;
  rr_marks : BTree PositionKey Price;
}.

(** The terminal-status counters: filled, partial, cancelled unfilled. *)
Definition count_order (st : Z * Z * Z) (o : Order) : Z * Z * Z :=
  let '(filled, partial, cancelled_unfilled) := st in
  match o_status o with
  | Filled => (filled + 1, partial, cancelled_unfilled)
  | PartiallyFilled => (filled, partial + 1, cancelled_unfilled)
  | Cancelled =>
      if is_zero (o_filled o) then (filled, partial, cancelled_unfilled + 1)
      else (filled, partial + 1, cancelled_unfilled)
  | _ => st
  end.

(** The fields of the Rust result that are copies of the engine's are read from
    [rr_engine]. *)
Definition finish e : Result RunResult :=
  let '(filled, partial, cancelled_unfilled) :=
    fold_left count_order (bvalues (e_orders e)) (0, 0, 0) in
  let e := bump e (fun m => m <| orders_filled := filled |> <| orders_partially_filled := partial |>
                              <| orders_cancelled_unfilled := cancelled_unfilled |>) in
  let? e :=
    match e_simulated_through e with
    | Some ts =>
        if bool_decide (ep_ts <$> last (e_equity e) = Some ts) then Ok e else push_equity e ts
    | None => Ok e
    end in
  let? realized := Portfolio.realized_pnl (e_portfolio e) in
  let? commissions := Portfolio.commissions (e_portfolio e) in
  let marks :=
    fold_left (fun ms (entry : Slot * Price) => binsert (Slots.name (slots cfg) entry.1) entry.2 ms)
      (e_marks e) [] in
  Ok (mkRunResult e (bvalues (e_orders e)) realized commissions marks).

Definition run {S} `{Strategy S} e (s : S) (replay : Replay) : Result (RunResult * S) :=
  let? ' (e, s) := callback e s (fun c => on_start s c) in
  let? ' (e, s) := run_loop (Replay.remaining replay) replay e s in
  let? ' (e, s) := callback e s (fun c => on_stop s c) in
  let? result := finish e in
  Ok (result, s).
End Kernel.
End Engine.

(** ** Building *)

Module EngineBuilder.
(** The expiries, ascending. *)
Definition expiries_of (instruments : InstrumentSet) : list (Z * InstrumentId) :=
  sort_by_key id
    (omap (fun id =>
       match InstrumentSet.get instruments id with
       | Ok instrument => at_ ← expiration instrument; Some (at_, inst_id instrument)
       | Err _ => None
       end) (InstrumentSet.ids instruments)).

Section Build.
Context {F FM L M X : Type}.
Definition config (instruments : InstrumentSet) (starting_cash : Money) (fill_model : FM)
  (latency_model : L) (equity_interval : Z) (margin : option M) (fx : FxBook)
  (reporting_currency : Currency) (risk_limits : RiskLimits) (allow_naked_shorts : bool)
  (set_costs : SetOperationCosts) (record_mark_curve : bool) (mark_source : MarkSource)
  (liquidation : LiquidationPolicy) (isolated : BTree InstrumentId unit) : Config FM L M :=
  mkConfig instruments (Slots.build instruments) starting_cash fill_model latency_model
    equity_interval margin fx reporting_currency risk_limits allow_naked_shorts
    (expiries_of instruments) set_costs record_mark_curve mark_source liquidation isolated.

(** The state [build] starts a run from. *)
Definition build (cfg : Config FM L M) (start : UnixNanos) (fee_model : F) (execution : X)
  : Engine F X :=
  mkEngine (Clock.new start) [] Portfolio.new (starting_cash cfg) [] [] [] [] [] [] [] [] fee_model
    0 0 0 None None [] 0 [] [] 0 0 0 ∅ RunMetrics.zero execution 0 ∅ [] [] [] [] [] [] [] [] [] [] [].
End Build.

Definition DEFAULT_EQUITY_INTERVAL_NANOS : Z := 1000000000.

(** The builder's defaults for a set of instruments and some cash. *)
Definition default_config (instruments : InstrumentSet) (starting_cash : Money)
  : Config BookFills NoLatency CashMargin :=
  config instruments starting_cash mkBookFills mkNoLatency DEFAULT_EQUITY_INTERVAL_NANOS None
    FxBook.new "USDC" RiskLimits.unlimited false SetOperationCosts.free true VenueMark CloseAll [].

Definition equity_interval_nanos (nanos : Z) : Result Z :=
  if nanos <=? 0 then Err (invalid "the equity sampling interval must be positive") else Ok nanos.
End EngineBuilder.
