(* ===== verification/EngineDemo.v ===== *)
(** * A small run

    Two instruments, a binary market and a perpetual, and the helpers the witnesses use
    to run the engine on a list of records with scripted orders. *)
From S2P Require Export Engine.

Definition ok_default {A} (d : A) (r : Result A) : A := match r with Ok a => a | Err _ => d end.

Definition demo_pm : Instrument :=
  mkInstrument "PM" "venue" PredictionMarket ["YES"; "NO"] 1000000 1 "USDC" None None false Tick.
Definition demo_perp : Instrument :=
  mkInstrument "PERP" "venue" Perpetual ["-"] 1000000 1 "USDC" None None false Tick.
Definition demo_instruments : InstrumentSet :=
  mkInstrumentSet (<["PM" := demo_pm]> (<["PERP" := demo_perp]> ∅)).

Definition units (n : Z) : Z := n * SCALE.
Definition cents (n : Z) : Z := n * 10000000.

Definition demo_config : Config BookFills NoLatency CashMargin :=
  EngineBuilder.default_config demo_instruments (units 1000).

Definition at_time (t : Z) (i : InstrumentId) (o : OutcomeId) (event : MarketEvent) : EventRecord :=
  EventRecord.new (mkStamps t t) i o event.
Definition quote (t : Z) (i : InstrumentId) (o : OutcomeId) (bid ask size : Z) : EventRecord :=
  at_time t i o (EvBookSnapshot [(bid, size)] [(ask, size)]).

(** One sorted stream of records. *)
Definition replay_of (records : list EventRecord) : Replay :=
  ok_default (mkReplay [] [] None 0)
    (ReplayBuilder.build (ReplayBuilder.stream [] "feed" 10 records)).
Definition signals (l : list (UnixNanos * OrderRequest)) : SignalReplay := mkSignalReplay l 0.

Definition demo_engine {FM L M} (cfg : Config FM L M) : Engine NoFees SimulatedExecution :=
  EngineBuilder.build cfg 0 mkNoFees (SimulatedExecution.new "simulated").

Definition demo_records : list EventRecord :=
  [quote 1 "PM" 0 (cents 40) (cents 42) (units 100);
   quote 2 "PERP" 0 (units 99) (units 100) (units 100);
   at_time 3 "PERP" 0 (EvFunding (cents 1));
   quote 4 "PERP" 0 (units 120) (units 121) (units 100);
   quote 5 "PM" 0 (cents 60) (cents 62) (units 100)].
Definition demo_orders : list (UnixNanos * OrderRequest) :=
  [(1, OrderRequest.market "PM" 0 Buy (units 10));
   (2, OrderRequest.market "PERP" 0 Buy (units 3));
   (4, OrderRequest.market "PERP" 0 Sell (units 3));
   (5, OrderRequest.market "PM" 0 Sell (units 4))].

Abbreviation demo_run :=
  (Engine.run demo_config
     (EngineBuilder.build demo_config 0 mkNoFees (SimulatedExecution.new "simulated"))
     (signals demo_orders) (replay_of demo_records)).
