(* ===== verification/EngineMoney.v ===== *)
(** * What the engine does to money

    Every operation of the engine is a sequence of a few steps that touch what a run
    is worth: a fill booked, funding settled, a dividend paid, a split applied; all
    the rest leaves the positions, the cash, the fills and the running totals alone.
    [money_step] is that relation, [step_money] and [run_money] show that every record
    and every run is a sequence of such steps, and the invariants are then proved once
    per step. *)
From S2P Require Export Engine.

(** The fields that hold money. *)
Record Ledger := mkLedger {
  l_portfolio : Portfolio;
  l_cash : Money;
  l_fills : list Fill;
  l_funding_paid : Money;
  l_dividends_received : Money;
  l_collateral : BTree InstrumentId Money;
}.
Definition ledger_of {F X} (e : Engine F X) : Ledger :=
  mkLedger (e_portfolio e) (e_cash e) (e_fills e) (e_funding_paid e) (e_dividends_received e)
    (e_isolated_collateral e).

(** Break the matches of a goal about a field that no branch changes. *)
Ltac frame := repeat (case_match || done).

(** A record that splits an instrument. *)
Definition is_split (r : EventRecord) : bool :=
  match rec_event r with EvCorporate (Split _) => true | _ => false end.

Section Money.
Context {F FM L M X : Type}.
Context `{FeeModel F} `{FillModel FM} `{LatencyModel L} `{MarginModel M} `{ExecutionClient X}.
Variable cfg : Config FM L M.
(** The instruments that may be split. *)
Variable split_ok : InstrumentId -> Prop.
Local Abbreviation Eng := (Engine F X).
Implicit Types e : Eng.

Inductive money_step : Eng -> Eng -> Prop :=
| ms_frame e e' : ledger_of e' = ledger_of e -> money_step e e'
| ms_fill e id terms ts e' fill :
    Engine.book_fill_state cfg e id terms ts = Ok (e', fill) -> money_step e e'
| ms_funding e instrument rate e' :
    Engine.apply_funding cfg e instrument rate = Ok e' -> money_step e e'
| ms_dividend e instrument per_share ts e' :
    Engine.apply_corporate_action cfg e instrument (Dividend per_share) ts = Ok e' ->
    money_step e e'
| ms_split e instrument ratio pf :
    split_ok instrument -> Portfolio.apply_split (e_portfolio e) instrument ratio = Ok pf ->
    money_step e (e <| e_portfolio := pf |>).
Local Abbreviation money_steps := (rtc money_step).

(** ** Operations that leave money alone *)

Lemma frame_fold {A} (f : Eng -> A -> Eng) (l : list A) e :
  (forall e a, ledger_of (f e a) = ledger_of e) -> ledger_of (fold_left f l e) = ledger_of e.
Proof. intros Hf. revert e. induction l as [|a l IH]; intros e; cbn; [done|]. by rewrite IH. Qed.

Lemma frame_foldr {A} (f : Eng -> A -> Result Eng) (l : list A) e e' :
  (forall e a e', f e a = Ok e' -> ledger_of e' = ledger_of e) ->
  foldr_res f e l = Ok e' -> ledger_of e' = ledger_of e.
Proof.
  intros Hf. revert e. induction l as [|a l IH]; intros e; cbn; [by intros [= <-]|].
  destruct (f e a) as [e1|] eqn:E; [|done]. intros Hr. rewrite (IH _ Hr). by eapply Hf.
Qed.

Lemma remove_resting_frame e id : ledger_of (Engine.remove_resting cfg e id) = ledger_of e.
Proof. unfold Engine.remove_resting. frame. Qed.

Lemma prune_resting_frame e : ledger_of (Engine.prune_resting cfg e) = ledger_of e.
Proof. apply frame_fold. intros. apply remove_resting_frame. Qed.

Lemma join_queue_frame e o : ledger_of (Engine.join_queue cfg e o) = ledger_of e.
Proof. unfold Engine.join_queue. frame. Qed.

Lemma add_resting_frame e o : ledger_of (Engine.add_resting cfg e o) = ledger_of e.
Proof. unfold Engine.add_resting. case_match; [done|]. apply (join_queue_frame e o). Qed.

Lemma close_frame e id st : ledger_of (Engine.close cfg e id st) = ledger_of e.
Proof.
  unfold Engine.close. pose proof (remove_resting_frame (Engine.update_order e id
    (fun o => if Order.is_open o then o <| o_status := st |> else o)) id) as Hr.
  by case_match.
Qed.

Lemma rest_or_cancel_frame e id o : ledger_of (Engine.rest_or_cancel cfg e id o) = ledger_of e.
Proof. unfold Engine.rest_or_cancel. repeat case_match; try done; auto using close_frame, add_resting_frame. Qed.

Lemma no_liquidity_frame e id : ledger_of (Engine.no_liquidity cfg e id) = ledger_of e.
Proof. unfold Engine.no_liquidity. case_match; [apply rest_or_cancel_frame|done]. Qed.

Lemma expire_due_frame e ts : ledger_of (Engine.expire_due cfg e ts) = ledger_of e.
Proof.
  unfold Engine.expire_due. generalize (drop (e_next_expiry e) (expiries cfg)) as l. intros l.
  revert e. induction l as [|[at_ i] l IH]; intros e; cbn [Engine.expire_loop]; [done|].
  case_match; [done|]. case_match; rewrite IH; [done|].
  match goal with |- ledger_of (Engine.bump (setter _ (fold_left ?f ?d ?e0)) _) = _ =>
    exact (frame_fold f d e0 (fun e a => remove_resting_frame _ _)) end.
Qed.

Lemma set_book_mark_frame e k p : ledger_of (Engine.set_book_mark cfg e k p) = ledger_of e.
Proof. done. Qed.

Lemma refresh_mark_frame e k : ledger_of (Engine.refresh_mark cfg e k) = ledger_of e.
Proof. unfold Engine.refresh_mark. frame. Qed.

Lemma sample_marks_frame e ts : ledger_of (Engine.sample_marks cfg e ts) = ledger_of e.
Proof. unfold Engine.sample_marks. by case_match. Qed.

Lemma push_equity_frame e ts e' :
  Engine.push_equity cfg e ts = Ok e' -> ledger_of e' = ledger_of e.
Proof. unfold Engine.push_equity. intros Hp. res_inv_in Hp. by rewrite sample_marks_frame. Qed.

Lemma sample_equity_frame e ts e' :
  Engine.sample_equity cfg e ts = Ok e' -> ledger_of e' = ledger_of e.
Proof.
  unfold Engine.sample_equity. case_match; [by intros [= <-]|].
  destruct (Engine.push_equity cfg e ts) eqn:E; [|done]. intros [= <-].
  apply (push_equity_frame _ _ _ E).
Qed.

Lemma amend_frame e id q l e' : Engine.amend cfg e id q l = Ok e' -> ledger_of e' = ledger_of e.
Proof.
  unfold Engine.amend. intros Ha. res_inv_in Ha; try done.
  all: try match goal with |- context [Engine.join_queue _ ?e0 ?o] =>
    exact (join_queue_frame e0 o) end.
Qed.

Lemma cancel_frame e id e' : Engine.cancel cfg e id = Ok e' -> ledger_of e' = ledger_of e.
Proof.
  unfold Engine.cancel. case_match; [|by intros [= <-]]. case_match; [|done]. intros [= <-].
  exact (remove_resting_frame (Engine.update_order e id _) id).
Qed.

Lemma start_twap_frame e r e' : Engine.start_twap cfg e r = Ok e' -> ledger_of e' = ledger_of e.
Proof.
  unfold Engine.start_twap, Engine.reject_twap. intros Ht. by res_inv_in Ht.
Qed.

Lemma accept_frame e id r e' : Engine.accept cfg e id r = Ok e' -> ledger_of e' = ledger_of e.
Proof. unfold Engine.accept. intros Ha. by res_inv_in Ha. Qed.

Lemma run_command_frame e c e' :
  Engine.run_command cfg e c = Ok e' -> ledger_of e' = ledger_of e.
Proof.
  destruct c; cbn; eauto using accept_frame, cancel_frame, amend_frame, start_twap_frame.
  by intros [= <-].
Qed.

Lemma drain_commands_frame e e' :
  Engine.drain_commands cfg e = Ok e' -> ledger_of e' = ledger_of e.
Proof.
  unfold Engine.drain_commands. intros Hd. etransitivity; [|done].
  exact (frame_foldr _ _ _ _ run_command_frame Hd).
Qed.

Lemma callback_frame {S} e (s : S) f e' s' :
  Engine.callback cfg e s f = Ok (e', s') -> ledger_of e' = ledger_of e.
Proof.
  unfold Engine.callback, Engine.with_context. intros Hc.
  destruct (f (Engine.context cfg e)) as [[s1 c]|]; [|done].
  destruct (foldr_res _ _ _) as [k|]; [|done].
  destruct (Engine.drain_commands cfg _) as [e1|] eqn:E; [|done]. injection Hc as <- _.
  by apply drain_commands_frame in E.
Qed.

Lemma venue_order_frame e i o sd q ts tag ro e' id :
  Engine.venue_order e i o sd q ts tag ro = Ok (e', id) -> ledger_of e' = ledger_of e.
Proof. unfold Engine.venue_order. intros Hv. by res_inv_in Hv. Qed.

(** ** Operations that are sequences of steps *)

Lemma frame_steps e e' : ledger_of e' = ledger_of e -> money_steps e e'.
Proof. intros. by apply rtc_once, ms_frame. Qed.

Lemma steps_fold {A B} (f : Eng * B -> A -> Result (Eng * B)) (l : list A) st st' :
  (forall st a st', f st a = Ok st' -> money_steps st.1 st'.1) ->
  foldr_res f st l = Ok st' -> money_steps st.1 st'.1.
Proof.
  intros Hf. revert st. induction l as [|a l IH]; intros st; cbn; [by intros [= <-]|].
  destruct (f st a) as [st1|] eqn:E; [|done]. intros Hr. etransitivity; [by eapply Hf|by apply IH].
Qed.

Lemma steps_fold1 {A} (f : Eng -> A -> Result Eng) (l : list A) e e' :
  (forall e a e', f e a = Ok e' -> money_steps e e') ->
  foldr_res f e l = Ok e' -> money_steps e e'.
Proof.
  intros Hf. revert e. induction l as [|a l IH]; intros e; cbn; [by intros [= <-]|].
  destruct (f e a) as [e1|] eqn:E; [|done]. intros Hr. etransitivity; [by eapply Hf|by apply IH].
Qed.

Lemma book_fill_steps {S} `{Strategy S} e (s : S) id terms ts e' s' :
  Engine.book_fill cfg e s id terms ts = Ok (e', s') -> money_steps e e'.
Proof.
  unfold Engine.book_fill.
  destruct (Engine.book_fill_state cfg e id terms ts) as [[e1 fill]|] eqn:E; [|done].
  intros Hc. eapply rtc_l; [by eapply ms_fill|]. eapply frame_steps, callback_frame, Hc.
Qed.

Lemma execute_steps {S} `{Strategy S} e (s : S) id p q tk ts e' s' :
  Engine.execute cfg e s id p q tk ts = Ok (e', s') -> money_steps e e'.
Proof.
  unfold Engine.execute. intros Hx.
  destruct (ok_or _ _) as [order|]; [|done]. destruct (InstrumentSet.get _ _) as [i|]; [|done].
  destruct (commission _ _) as [[fm fee]|]; [|done].
  eapply rtc_l; [|by eapply book_fill_steps, Hx]. by apply ms_frame.
Qed.

Lemma try_fill_steps {S} `{Strategy S} e (s : S) id ts e' s' :
  Engine.try_fill cfg e s id ts = Ok (e', s') -> money_steps e e'.
Proof.
  unfold Engine.try_fill. intros Ht.
  destruct (bget id (e_orders e)) as [order|]; [|by injection Ht as <- <-].
  case_match; [by injection Ht as <- <-|].
  case_match; [injection Ht as <- <-; apply frame_steps;
    exact (remove_resting_frame (Engine.update_order e id _) id)|].
  case_match; [|injection Ht as <- <-; apply frame_steps, no_liquidity_frame].
  set (wanted := if o_reduce_only order then _ else _) in *.
  case_match; [injection Ht as <- <-; apply frame_steps, close_frame|].
  case_match; [injection Ht as <- <-; apply frame_steps, close_frame|].
  destruct (Engine.execute_all _ _ _ _ _ _) as [[e1 s1]|] eqn:E; [|done].
  destruct (ok_or _ _) as [order1|]; [|done]. injection Ht as <- <-.
  transitivity e1.
  - unfold Engine.execute_all in E. apply steps_fold in E; [done|].
    intros [e2 s2] [p q] [e3 s3]. apply execute_steps.
  - apply frame_steps. destruct (Order.is_open order1); [apply rest_or_cancel_frame|done].
Qed.

Lemma match_resting_steps {S} `{Strategy S} e (s : S) r k e' s' :
  Engine.match_resting cfg e s r k = Ok (e', s') -> money_steps e e'.
Proof.
  unfold Engine.match_resting. intros Hm. case_match; [|by injection Hm as <- <-].
  case_match; [by injection Hm as <- <-|].
  destruct (Engine.try_fill_all _ _ _ _) as [[e1 s1]|] eqn:E; [|done]. injection Hm as <- <-.
  transitivity e1; [|apply frame_steps, prune_resting_frame].
  unfold Engine.try_fill_all in E. apply steps_fold in E; [done|].
  intros [e2 s2] id [e3 s3]. apply try_fill_steps.
Qed.

Lemma consume_loop_steps {S} `{Strategy S} ts l : forall rem e (s : S) e' s',
  Engine.consume_loop cfg ts rem l e s = Ok (e', s') -> money_steps e e'.
Proof.
  induction l as [|[p id] l IH]; cbn [Engine.consume_loop]; intros rem e s e' s' Hc;
    [by injection Hc as <- <-|].
  destruct (rem <=? 0); [by injection Hc as <- <-|].
  set (ahead := default 0 (bget id (e_queue_ahead e))) in *.
  set (consumed := if 0 <? ahead then Z.min rem ahead else 0) in *.
  destruct ((0 <? ahead) && (rem - consumed <=? 0));
    [injection Hc as <- <-; by apply frame_steps|].
  set (e0 := e <| e_queue_ahead := _ |>) in *. set (q := Z.min _ (default 0 _)) in *.
  destruct (if 0 <? q then Engine.execute cfg e0 s id p q false ts else Ok (e0, s))
    as [[e1 s1]|] eqn:E; [|done].
  apply IH in Hc. etransitivity; [|exact Hc].
  transitivity e1; [|apply frame_steps; by destruct (Engine.order_is_open e1 id)].
  eapply rtc_l; [by apply (ms_frame e e0)|].
  destruct (0 <? q); [by apply execute_steps in E|by injection E as <- <-].
Qed.

Lemma consume_queue_steps {S} `{Strategy S} e (s : S) r p q a e' s' :
  Engine.consume_queue cfg e s r p q a = Ok (e', s') -> money_steps e e'.
Proof.
  assert (Hside : forall e (s : S) side e' s',
    Engine.consume_queue_side cfg e s r p q side = Ok (e', s') -> money_steps e e').
  { unfold Engine.consume_queue_side. intros e0 s0 side e1 s1 Hc.
    destruct (Engine.consume_loop _ _ _ _ _ _) as [[e2 s2]|] eqn:E; [|done].
    injection Hc as <- <-. apply consume_loop_steps in E. etransitivity; [exact E|].
    apply frame_steps, prune_resting_frame. }
  unfold Engine.consume_queue. intros Hc. case_match; [by injection Hc as <- <-|].
  destruct a as [side|]; [by eapply Hside|]. case_match; [|by injection Hc as <- <-].
  destruct (Engine.consume_queue_side cfg e s r p q Buy) as [[e1 s1]|] eqn:E; [|done].
  etransitivity; eapply Hside; [exact E|exact Hc].
Qed.

Lemma liquidate_steps {S} `{Strategy S} e (s : S) i o c m eq mm tag ts e' s' :
  Engine.liquidate cfg e s i o c m eq mm tag ts = Ok (e', s') -> money_steps e e'.
Proof.
  unfold Engine.liquidate. intros Hl.
  destruct (Engine.venue_order _ _ _ _ _ _ _ _) as [[e1 id]|] eqn:Ev; [|done].
  destruct (Engine.try_fill cfg e1 s id ts) as [[e2 s2]|] eqn:Et; [|done]. injection Hl as <- <-.
  eapply rtc_l; [by apply ms_frame, (venue_order_frame _ _ _ _ _ _ _ _ _ _ Ev)|].
  etransitivity; [by eapply try_fill_steps|]. apply frame_steps.
  unfold Engine.record_liquidation. by case_match.
Qed.

Lemma liquidation_loop_steps {S} `{Strategy S} st ts l : forall e (s : S) e' s',
  Engine.liquidation_loop cfg st ts l e s = Ok (e', s') -> money_steps e e'.
Proof.
  induction l as [|[[[i o] q] req] l IH]; cbn [Engine.liquidation_loop]; intros e s e' s' Hl;
    [by injection Hl as <- <-|].
  destruct (match liquidation cfg with CloseAll => _ | Partial => _ end) as [go|]; [|done].
  destruct go; [|by injection Hl as <- <-]. cbn in Hl.
  destruct (Engine.mark_at cfg e i o) as [mark|]; [|by eapply IH].
  destruct (match liquidation cfg with CloseAll => _ | Partial => _ end) as [closing|]; [|done].
  destruct (is_zero closing); [by eapply IH|].
  destruct (Engine.liquidate _ _ _ _ _ _ _ _ _ _ _) as [[e1 s1]|] eqn:E; [|done].
  etransitivity; [by eapply liquidate_steps|by eapply IH].
Qed.

Lemma check_liquidation_steps {S} `{Strategy S} e (s : S) ts e' s' :
  Engine.check_liquidation cfg e s ts = Ok (e', s') -> money_steps e e'.
Proof.
  unfold Engine.check_liquidation. intros Hc.
  destruct (Engine.margin_state cfg e) as [[state|]|]; [|by injection Hc as <- <-|done].
  case_match; [by injection Hc as <- <-|].
  destruct (foldr_res _ _ _) as [doomed|]; [|done]. by eapply liquidation_loop_steps.
Qed.

Lemma check_isolated_steps {S} `{Strategy S} e (s : S) ts e' s' :
  Engine.check_isolated_liquidation cfg e s ts = Ok (e', s') -> money_steps e e'.
Proof.
  unfold Engine.check_isolated_liquidation. intros Hc.
  destruct (margin_model cfg) as [model|]; [|by injection Hc as <- <-].
  destruct (foldr_res (Engine.isolated_call _ _ _ _) _ _) as [calls|]; [|done].
  apply steps_fold in Hc; [done|]. clear. intros st call st' Hc.
  apply steps_fold in Hc; [done|]. clear. intros [e s] [[o q] mark] [e' s'].
  apply liquidate_steps.
Qed.

Lemma arm_triggers_steps {S} `{Strategy S} e (s : S) ts e' s' :
  Engine.arm_triggers cfg e s ts = Ok (e', s') -> money_steps e e'.
Proof.
  unfold Engine.arm_triggers. intros Ha. eapply rtc_l; [|apply steps_fold in Ha; [exact Ha|]];
    [by apply ms_frame|]. clear. intros [e s] id [e' s']. cbn. intros Ht%try_fill_steps.
  eapply rtc_l; [|exact Ht]. by apply ms_frame.
Qed.

Lemma work_twaps_steps {S} `{Strategy S} e (s : S) ts e' s' :
  Engine.work_twaps cfg e s ts = Ok (e', s') -> money_steps e e'.
Proof.
  unfold Engine.work_twaps. intros Hw.
  destruct (Engine.due_twaps _ _ _) as [[twaps due]|]; [|done].
  eapply rtc_l; [|apply steps_fold in Hw; [exact Hw|]]; [by apply ms_frame|].
  clear. intros [e s] due [e' s']. cbn. intros Hr.
  destruct (ok_or _ _) as [twap|]; [|done].
  destruct (Engine.venue_order _ _ _ _ _ _ _ _) as [[e1 id]|] eqn:Ev; [|done].
  eapply rtc_l; [apply ms_frame, (venue_order_frame _ _ _ _ _ _ _ _ _ _ Ev)|].
  eapply rtc_l; [|by eapply try_fill_steps, Hr]. by apply ms_frame.
Qed.

Lemma set_legs_steps {S} `{Strategy S} inst sd sets cost tag ts l :
  forall n e (s : S) d e' s' d',
  Engine.set_legs cfg inst sd sets cost tag ts n l e s d = Ok (e', s', d') -> money_steps e e'.
Proof.
  induction l as [|p l IH]; cbn [Engine.set_legs]; intros n e s d e' s' d' Hl;
    [by injection Hl as <- <- <-|].
  destruct (Engine.venue_order _ _ _ _ _ _ _ _) as [[e1 id]|] eqn:Ev; [|done].
  destruct (notional p sets) as [leg|]; [|done].
  destruct (match sd with Buy => _ | Sell => _ end) as [d1|]; [|done].
  destruct (Engine.book_fill _ _ _ _ _ _) as [[e2 s2]|] eqn:Ef; [|done].
  eapply rtc_l; [apply ms_frame, (venue_order_frame _ _ _ _ _ _ _ _ _ _ Ev)|].
  etransitivity; [by eapply book_fill_steps|by eapply IH].
Qed.

Lemma run_set_operation_steps {S} `{Strategy S} e (s : S) r ts e' s' :
  Engine.run_set_operation cfg e s r ts = Ok (e', s') -> money_steps e e'.
Proof.
  unfold Engine.run_set_operation. intros Hr.
  destruct (InstrumentSet.get _ _) as [inst|]; [|done]. case_match; [done|]. case_match; [done|].
  destruct (match sr_kind r with Mint => _ | Redeem => _ | Convert _ => _ end) as [[sets sd]|];
    [|done].
  destruct (Engine.set_operation_refusal _ _ _ _ _ _ _) as [[reason|]|]; [..|done];
    [injection Hr as <- <-; by apply frame_steps|].
  destruct (Engine.set_basis _ _ _) as [basis|]; [|done].
  destruct (Engine.set_legs _ _ _ _ _ _ _ _ _ _ _ _) as [[[e1 s1] d1]|] eqn:E; [|done].
  injection Hr as <- <-. etransitivity; [by eapply set_legs_steps|by apply frame_steps].
Qed.

Lemma admit_order_steps {S} `{Strategy S} e (s : S) o ts e' s' :
  Engine.admit_order cfg e s o ts = Ok (e', s') -> money_steps e e'.
Proof.
  unfold Engine.admit_order. intros Ha.
  case_match; [injection Ha as <- <-; by apply frame_steps|].
  destruct (Engine.can_fund cfg e o) as [b|]; [|done].
  destruct b; cbn in Ha; [|injection Ha as <- <-; by apply frame_steps].
  eapply rtc_l; [|by eapply try_fill_steps]. by apply ms_frame.
Qed.

Lemma release_one_steps {S} `{Strategy S} ts st a st' :
  Engine.release_one (S := S) cfg ts st a = Ok st' -> money_steps st.1 st'.1.
Proof.
  destruct st as [e s], st' as [e' s']. cbn. destruct a as [order|r];
    [|apply run_set_operation_steps].
  destruct (bget (o_id order) (e_orders e)) as [o|]; [|by intros [= <- <-]].
  case_match; [|by intros [= <- <-]]. unfold Engine.arrive.
  case_match; [intros [= <- <-]; by apply frame_steps|].
  destruct (if o_post_only o then _ else None); [intros [= <- <-]; by apply frame_steps|].
  unfold Engine.arrive_trigger. destruct (o_trigger o); [|apply admit_order_steps].
  destruct (negb _); [intros [= <- <-]; by apply frame_steps|].
  intros Ha. eapply rtc_l; [|by eapply admit_order_steps, Ha]. by apply ms_frame.
Qed.

Lemma release_inflight_steps {S} `{Strategy S} e (s : S) ts e' s' :
  Engine.release_inflight cfg e s ts = Ok (e', s') -> money_steps e e'.
Proof.
  unfold Engine.release_inflight. intros Hr.
  destruct (Engine.pop_released _ _) as [released rest].
  eapply rtc_l; [|apply steps_fold in Hr; [exact Hr|]]; [by apply ms_frame|].
  intros st a st'. apply release_one_steps.
Qed.

Lemma split_frames e instrument ratio ts e1 e2 e3 e4 :
  foldr_res (Engine.split_resting cfg instrument ratio) e (e_resting e) = Ok e1 ->
  foldr_res (Engine.split_off_book instrument ratio (fun _ => true)) e1 (e_untriggered e1) = Ok e2 ->
  foldr_res (Engine.split_off_book instrument ratio (fun o => bool_decide (o_status o = InFlight)))
    e2 (e_live_orders e2) = Ok e3 ->
  Engine.split_quotes cfg e3 instrument ratio ts = Ok e4 ->
  ledger_of e4 = ledger_of e.
Proof.
  intros H1' H2' H3' H4'.
  apply frame_foldr in H1'; [|intros ? ? ?; unfold Engine.split_resting; intros Hs; by res_inv_in Hs].
  apply frame_foldr in H2'; [|intros ? ? ?; unfold Engine.split_off_book; intros Hs; by res_inv_in Hs].
  apply frame_foldr in H3'; [|intros ? ? ?; unfold Engine.split_off_book; intros Hs; by res_inv_in Hs].
  unfold Engine.split_quotes in H4'. destruct (foldr_res (Engine.split_book _ _) _ _); [|done].
  apply frame_foldr in H4'; [|intros ? ? ?; unfold Engine.split_prices; intros Hs; by res_inv_in Hs].
  by rewrite H4', <- H1', <- H2', <- H3'.
Qed.

Lemma corporate_steps e instrument action ts e' :
  (forall ratio, action = Split ratio -> split_ok instrument) ->
  Engine.apply_corporate_action cfg e instrument action ts = Ok e' -> money_steps e e'.
Proof.
  destruct action as [ratio|per_share|final]; intros Hok Ha; [|by eapply rtc_once, ms_dividend|];
    unfold Engine.apply_corporate_action in Ha;
    (destruct (CorporateAction.validate _); [|done]).
  - destruct (Portfolio.apply_split _ _ _) as [pf|] eqn:Ep; [|done].
    destruct (foldr_res (Engine.split_resting _ _ _) _ _) as [e1|] eqn:E1; [|done].
    destruct (foldr_res (Engine.split_off_book _ _ _) e1 _) as [e2|] eqn:E2; [|done].
    destruct (foldr_res (Engine.split_off_book _ _ _) e2 _) as [e3|] eqn:E3; [|done].
    destruct (Engine.split_quotes _ _ _ _ _) as [e4|] eqn:E4; [|done]. injection Ha as <-.
    eapply rtc_l; [eapply ms_split; [by eapply Hok|done]|]. apply frame_steps.
    exact (split_frames _ _ _ _ _ _ _ _ E1 E2 E3 E4).
  - destruct (foldr_res (Engine.cash_out cfg final ts) e _) as [e1|] eqn:E; [|done].
    injection Ha as <-. transitivity e1; [|by apply frame_steps].
    apply steps_fold1 in E; [done|]. clear. intros e [[i o] q] e' Hc. unfold Engine.cash_out in Hc.
    destruct (Engine.venue_order _ _ _ _ _ _ _ _) as [[e1 id]|] eqn:Ev; [|done].
    destruct (Engine.execute _ _ _ _ _ _ _ _) as [[e2 s2]|] eqn:Ex; [|done]. injection Hc as <-.
    eapply rtc_l; [apply ms_frame, (venue_order_frame _ _ _ _ _ _ _ _ _ _ Ev)|].
    exact (execute_steps _ _ _ _ _ _ _ _ _ Ex).
Qed.

Lemma apply_to_books_steps e r k e' :
  (is_split r = true -> split_ok (rec_instrument r)) ->
  Engine.apply_to_books cfg e r k = Ok e' -> money_steps e e'.
Proof.
  unfold Engine.apply_to_books. intros Hok Ha.
  destruct (InstrumentSet.get _ _) as [inst|]; [|done]. destruct (Instrument.check_outcome _ _); [|done].
  destruct (Engine.apply_event _ _ _ _ _) as [e1|] eqn:E; [|done]. injection Ha as <-.
  eapply rtc_l with (e <| e_books := _ |>); [by apply ms_frame|]. transitivity e1.
  - unfold Engine.apply_event in E. unfold is_split in Hok. destruct (rec_event r).
    + destruct (OrderBook.apply_snapshot _ _ _ _); [|done]. injection E as <-. by apply frame_steps.
    + destruct (OrderBook.apply_delta _ _ _ _); [|done]. injection E as <-. by apply frame_steps.
    + injection E as <-. by apply frame_steps.
    + injection E as <-. by apply frame_steps.
    + by eapply rtc_once, ms_funding.
    + eapply corporate_steps; [|exact E]. intros ratio ->. by apply Hok.
    + injection E as <-. by apply frame_steps.
    + injection E as <-. apply frame_steps. by repeat case_match.
  - apply frame_steps. repeat case_match; auto using refresh_mark_frame.
Qed.

(** Every record is a sequence of money steps, and so is every run. *)
Lemma step_money {S} `{Strategy S} e (s : S) r e' s' :
  (is_split r = true -> split_ok (rec_instrument r)) ->
  Engine.step cfg e s r = Ok (e', s') -> money_steps e e'.
Proof.
  unfold Engine.step. intros Hok Hs.
  destruct (Clock.advance_to _ _) as [[clock events]|]; [|done].
  destruct (foldr_res (Engine.step_timer cfg) _ _) as [[e1 s1]|] eqn:E1; [|done].
  destruct (Slots.resolve _ _ _) as [key|]; [|done].
  destruct (Engine.apply_to_books _ _ _ _) as [e2|] eqn:E2; [|done].
  destruct (match rec_event r with EvTrade _ _ _ => _ | _ => _ end) as [[e3 s3]|] eqn:E3; [|done].
  destruct (Engine.match_resting _ _ _ _ _) as [[e4 s4]|] eqn:E4; [|done].
  destruct (Engine.check_liquidation _ _ _ _) as [[e5 s5]|] eqn:E5; [|done].
  destruct (Engine.check_isolated_liquidation _ _ _ _) as [[e6 s6]|] eqn:E6; [|done].
  destruct (Engine.arm_triggers _ _ _ _) as [[e7 s7]|] eqn:E7; [|done].
  destruct (Engine.work_twaps _ _ _ _) as [[e8 s8]|] eqn:E8; [|done].
  destruct (Engine.callback _ e8 _ _) as [[e9 s9]|] eqn:E9; [|done].
  destruct (Engine.release_inflight _ _ _ _) as [[e10 s10]|] eqn:E10; [|done].
  destruct (Engine.sample_equity _ _ _) as [e11|] eqn:E11; [|done]. injection Hs as <- <-.
  eapply rtc_l; [apply (ms_frame e (e <| e_clock := clock |>)); done|].
  transitivity e1; [apply steps_fold in E1; [exact E1|]; intros [e0 s0] ev [e0' s0'];
    intros Hc%callback_frame; by apply frame_steps|].
  eapply rtc_l; [apply ms_frame, expire_due_frame|].
  transitivity e2; [by eapply apply_to_books_steps|].
  transitivity e3; [destruct (rec_event r); try (by injection E3 as <- <-); by eapply consume_queue_steps|].
  transitivity e4; [by eapply match_resting_steps|].
  transitivity e5; [by eapply check_liquidation_steps|].
  transitivity e6; [by eapply check_isolated_steps|].
  transitivity e7; [by eapply arm_triggers_steps|].
  transitivity e8; [by eapply work_twaps_steps|].
  transitivity e9; [by eapply frame_steps, callback_frame|].
  transitivity e10; [by eapply release_inflight_steps|].
  apply frame_steps. by rewrite (sample_equity_frame _ _ _ E11).
Qed.

(** The run loop is a fold of [step] over what draining the replay yields. *)
Lemma run_loop_fold {S} `{Strategy S} fuel : forall replay e (s : S) st',
  Engine.run_loop cfg fuel replay e s = Ok st' ->
  exists records, Replay.collect_loop fuel replay = Ok records /\
    foldr_res (fun (st : Eng * S) r => Engine.step cfg st.1 st.2 r) (e, s) records = Ok st'.
Proof.
  induction fuel as [|fuel IH]; cbn [Engine.run_loop Replay.collect_loop]; intros replay e s st' Hr;
    (destruct (Replay.next_record replay) as [[replay' [record|]]|]; [|by exists []|done]);
    [done|].
  destruct (Engine.step cfg e s record) as [[e1 s1]|] eqn:E; [|done].
  destruct (IH _ _ _ _ Hr) as (records & -> & Hf). exists (record :: records). split; [done|].
  cbn. by rewrite E.
Qed.

Lemma records_money {S} `{Strategy S} records : forall e (s : S) e' s',
  Forall (fun r => is_split r = true -> split_ok (rec_instrument r)) records ->
  foldr_res (fun (st : Eng * S) r => Engine.step cfg st.1 st.2 r) (e, s) records = Ok (e', s') ->
  money_steps e e'.
Proof.
  induction records as [|r records IH]; cbn; intros e s e' s' Hf; [by intros [= <- <-]|].
  apply Forall_cons in Hf as [Hr Hf].
  destruct (Engine.step cfg e s r) as [[e1 s1]|] eqn:E; [|done]. intros Hrest.
  etransitivity; [by eapply step_money|by eapply IH].
Qed.

Lemma run_money {S} `{Strategy S} e (s : S) replay result s' :
  Engine.run cfg e s replay = Ok (result, s') ->
  exists records, Replay.collect_all replay = Ok records /\
    (Forall (fun r => is_split r = true -> split_ok (rec_instrument r)) records ->
     money_steps e (Engine.rr_engine result)).
Proof.
  unfold Engine.run, Replay.collect_all. intros Hr.
  destruct (Engine.callback cfg e s _) as [[e1 s1]|] eqn:E1; [|done].
  destruct (Engine.run_loop _ _ _ _ _) as [[e2 s2]|] eqn:E2; [|done].
  destruct (Engine.callback cfg e2 s2 _) as [[e3 s3]|] eqn:E3; [|done].
  destruct (Engine.finish cfg e3) as [r|] eqn:E4; [|done]. injection Hr as <- <-.
  apply run_loop_fold in E2 as (records & Hcol & Hfold). exists records. split; [done|]. intros Hok.
  transitivity e1; [by eapply frame_steps, callback_frame|].
  transitivity e2; [by eapply records_money|].
  transitivity e3; [by eapply frame_steps, callback_frame|]. apply frame_steps.
  unfold Engine.finish in E4. destruct (fold_left _ _ _) as [[a b] c].
  match type of E4 with context [e_simulated_through ?e0] =>
    destruct (match e_simulated_through e0 with Some _ => _ | None => _ end) as [e4|] eqn:E5; [|done] end.
  destruct (Portfolio.realized_pnl _); [|done]. destruct (Portfolio.commissions _); [|done].
  injection E4 as <-. cbn. case_match; [|by injection E5 as <-].
  case_match; [by injection E5 as <-|]. by apply push_equity_frame in E5.
Qed.
End Money.
