(* ===== verification/EngineRun.v ===== *)
(** * A run is a fold

    The loop over the replay ends: handing out a record leaves one fewer to hand out,
    so the fuel [Engine.run] gives the loop is never the reason it stops.  A run over a
    replay is then the fold of [Engine.step] over the records the replay drains to,
    between the two callbacks, and a replay that fails to drain fails the run. *)
From S2P Require Export EngineMoney EngineDemo.

(** ** The measure *)

(** Records still in the sources. *)
Definition sourced (l : list StreamState) : nat := length (concat (map s_source l)).

Lemma sourced_insert l i s s' :
  l !! i = Some s ->
  (sourced (<[i := s']> l) + length (s_source s) = sourced l + length (s_source s'))%nat.
Proof.
  unfold sourced. intros Hs. rewrite insert_take_drop by by eapply lookup_lt_Some.
  rewrite <- (take_drop_middle l i s Hs) at 3.
  rewrite !map_app, !concat_app. cbn [map concat]. rewrite !length_app. lia.
Qed.

Lemma hpush_length {A K} `{OrdKey K} (key : A -> K) x h : length (hpush key x h) = S (length h).
Proof. by rewrite (Permutation_length (hpush_Permutation key x h)). Qed.

Lemma pull_takes s s' next :
  StreamState.pull s = Ok (s', next) ->
  length (s_source s) = (length (s_source s') + match next with Some _ => 1 | None => 0 end)%nat.
Proof.
  unfold StreamState.pull. destruct (s_source s) as [|[r|] rest] eqn:E; cbn;
    [by intros [= <- <-]; rewrite E| |done].
  repeat case_match; try done; intros [= <- <-]; cbn; lia.
Qed.

(** A record handed out is one fewer to hand out. *)
Lemma next_record_shrinks r r' rec :
  Replay.next_record r = Ok (r', Some rec) ->
  Replay.remaining r = S (Replay.remaining r').
Proof.
  unfold Replay.next_record, Replay.remaining. destruct (heap r) as [|k rest]; [done|].
  cbn [hpop length streams setter].
  destruct (streams r !! Replay.key_stream k) as [s|] eqn:Es; [|done].
  destruct (s_head s); [|done].
  destruct (StreamState.pull _) as [[s1 next]|] eqn:Ep; [|done].
  apply pull_takes in Ep. cbn in Ep. fold (sourced (streams r)).
  destruct next; intros [= <- <-]; cbn [heap streams setter]; rewrite ?hpush_length;
    match goal with |- context [map s_source (<[?i := ?s2]> ?l)] =>
      pose proof (sourced_insert l i s s2 Es); fold (sourced (<[i := s2]> l)) end;
    cbn [s_source setter] in *; lia.
Qed.

Section Run.
Context {F FM L M X S : Type}.
Context `{FeeModel F} `{FillModel FM} `{LatencyModel L} `{MarginModel M} `{ExecutionClient X}.
Context `{Strategy S}.
Variable cfg : Config FM L M.
Implicit Types e : Engine F X.

(** A run over a list of records. *)
Definition run_over e (s : S) (records : list EventRecord)
  : Result (Engine.RunResult (F := F) (X := X) * S) :=
  let? ' (e, s) := Engine.callback cfg e s (fun c => on_start s c) in
  let? ' (e, s) :=
    foldr_res (fun (st : Engine F X * S) r => Engine.step cfg st.1 st.2 r) (e, s) records in
  let? ' (e, s) := Engine.callback cfg e s (fun c => on_stop s c) in
  let? result := Engine.finish cfg e in
  Ok (result, s).

Lemma run_loop_enough fuel : forall fuel' replay e (s : S),
  (Replay.remaining replay <= fuel)%nat -> (fuel <= fuel')%nat ->
  Engine.run_loop cfg fuel' replay e s = Engine.run_loop cfg fuel replay e s.
Proof.
  induction fuel as [|fuel IH]; intros fuel' replay e s Hr Hle; destruct fuel' as [|fuel']; try lia;
    [done| |]; cbn [Engine.run_loop];
    (destruct (Replay.next_record replay) as [[r' [rec|]]|] eqn:E; [|done..]);
    apply next_record_shrinks in E; [lia|].
  destruct (Engine.step cfg e s rec) as [[e1 s1]|]; [|done]. apply IH; lia.
Qed.

Lemma run_loop_collect fuel : forall replay records e (s : S),
  Replay.collect_loop fuel replay = Ok records ->
  Engine.run_loop cfg fuel replay e s =
  foldr_res (fun (st : Engine F X * S) r => Engine.step cfg st.1 st.2 r) (e, s) records.
Proof.
  induction fuel as [|fuel IH]; cbn [Replay.collect_loop Engine.run_loop]; intros replay records e s;
    (destruct (Replay.next_record replay) as [[r' [rec|]]|]; [|by intros [= <-]|done]); [done|].
  destruct (Replay.collect_loop fuel r') as [out|] eqn:E; [|done]. intros [= <-]. cbn.
  destruct (Engine.step cfg e s rec) as [[e1 s1]|]; [|done]. by apply IH.
Qed.

(** C6 A run terminates and is a fold: more fuel than the records left changes nothing,
    the run over a replay that drains to some records is the run over those records,
    whatever the streams they came from, and a replay that fails to drain fails the
    run. *)
Theorem run_is_fold e (s : S) replay :
  (forall fuel e1 (s1 : S), (Replay.remaining replay <= fuel)%nat ->
     Engine.run_loop cfg fuel replay e1 s1 =
     Engine.run_loop cfg (Replay.remaining replay) replay e1 s1) /\
  (forall records, Replay.collect_all replay = Ok records ->
     Engine.run cfg e s replay = run_over e s records) /\
  (is_ok (Replay.collect_all replay) = false -> is_ok (Engine.run cfg e s replay) = false).
Proof.
  split_and!.
  - intros fuel e1 s1 Hf. by apply run_loop_enough.
  - intros records Hc. unfold Engine.run, run_over, Replay.collect_all in *.
    destruct (Engine.callback cfg e s _) as [[e1 s1]|]; [|done].
    by rewrite (run_loop_collect _ _ _ _ _ Hc).
  - intros Hc. destruct (Engine.run cfg e s replay) as [[result s']|] eqn:Hr; [|done].
    destruct (run_money cfg (fun _ => True) _ _ _ _ _ Hr) as (records & Hcol & _).
    by rewrite Hcol in Hc.
Qed.
End Run.

(** The demo run is the run over its records; a replay whose stream goes back in time
    fails to drain and so fails the run. *)
Definition disordered : list EventRecord :=
  [quote 2 "PM" 0 (cents 40) (cents 42) (units 100); quote 3 "PM" 0 (cents 40) (cents 42) (units 100);
   quote 1 "PM" 0 (cents 40) (cents 42) (units 100)].

Example run_is_fold_witness :
  demo_run = run_over demo_config
    (EngineBuilder.build demo_config 0 mkNoFees (SimulatedExecution.new "simulated"))
    (signals demo_orders) demo_records /\
  is_ok (Engine.run demo_config
    (EngineBuilder.build demo_config 0 mkNoFees (SimulatedExecution.new "simulated"))
    mkNoStrategy (replay_of disordered)) = false.
Proof.
  split.
  - apply run_is_fold. vm_compute. reflexivity.
  - apply run_is_fold. vm_compute. reflexivity.
Defined.
