(* ===== verification/EngineLedger.v ===== *)
(** * Operations and books of the engine

    First operations on their own: the TWAP schedule, the size of a partial liquidation, and
    the legs of a complete set, each against what it promises; and two concrete runs in which
    an amendment and a split do what the engine's own checks are there to prevent.  Then the
    books of a whole run: money is conserved ([cash_ledger_balances]) and the fills explain
    the positions ([fills_explain_positions]), by an invariant of [money_step]. *)
From S2P Require Export EngineDemo EngineMoney.

(** ** The TWAP schedule *)

(** A schedule over a sequence of records' instants, with the children released. *)
Fixpoint twap_run (times : list UnixNanos) (t : TwapProgress) : Result (TwapProgress * list Qty) :=
  match times with
  | [] => Ok (t, [])
  | ts :: times' =>
      let? ' (t, slice) := Engine.twap_step ts t in
      let? ' (t, out) := twap_run times' t in
      Ok (t, match slice with Some q => q :: out | None => out end)
  end.

Definition twap_fresh (r : TwapRequest) (n : Z) (start : UnixNanos) : TwapProgress :=
  mkTwapProgress r start 0 n 0 start.

(** Where a schedule of [n] children stands. *)
Definition twap_at (n q : Z) (t : TwapProgress) : Prop :=
  tw_quantity (tp_request t) = q /\ tp_total_slices t = n /\ 0 <= tp_sent t <= n /\
  tp_worked t = if tp_sent t =? n then q else tp_sent t * (q / n).

Lemma twap_step_at n q ts t :
  1 <= n <= q -> q <= i64_max -> twap_at n q t ->
  exists t' slice, Engine.twap_step ts t = Ok (t', slice) /\ twap_at n q t' /\
    tp_request t' = tp_request t /\
    match slice with
    | Some s => 0 < s /\ tp_sent t' = tp_sent t + 1 /\ tp_worked t' = tp_worked t + s /\
        tp_next_at t <= ts /\
        tp_next_at t' = sat64 (tp_next_at t + tw_interval_nanos (tp_request t)) /\
        (tp_sent t' < n -> s = q / n)
    | None => t' = t /\ (tp_sent t = n \/ ts < tp_next_at t)
    end.
Proof.
  intros Hn Hq (Hr & Ht & Hs & Hw). unfold Engine.twap_step, TwapProgress.is_done. rewrite Ht, Hr.
  destruct (n <=? tp_sent t) eqn:Ed; bool_prop; cbn [orb].
  { exists t, None. unfold twap_at. split_and!; try done; lia. }
  destruct (ts <? tp_next_at t) eqn:El; bool_prop.
  { exists t, None. unfold twap_at. split_and!; try done; lia. }
  assert (Hsent : (tp_sent t =? n) = false) by (apply Z.eqb_neq; lia). rewrite Hsent in Hw.
  pose proof (Z.mul_div_le q n ltac:(lia)) as Hdiv.
  assert (Hd1 : 1 <= q / n) by (apply Z.div_le_lower_bound; lia).
  set (slice := if n - tp_sent t <=? 1 then _ else _).
  assert (Hsl : 0 < slice /\ tp_worked t + slice = (if tp_sent t + 1 =? n then q else (tp_sent t + 1) * (q / n))
    /\ (tp_sent t + 1 < n -> slice = q / n)).
  { subst slice. unfold TwapProgress.remaining. rewrite Hr, Hw, Z.quot_div_nonneg by lia.
    destruct (n - tp_sent t <=? 1) eqn:E1, (Z.eqb_spec (tp_sent t + 1) n); bool_prop; try lia.
    unfold sub64. rewrite wrap64_id by (widths; nia). split_and!; nia. }
  destruct Hsl as (Hpos & Hsum & Hmid).
  unfold is_positive. rewrite (proj2 (Z.ltb_lt 0 slice) Hpos). cbn [negb].
  assert (Hadd : checked_add "Qty" (tp_worked t) slice = Ok (tp_worked t + slice)).
  { apply checked_add_Ok. split; [|done]. rewrite Hsum.
    destruct (Z.eqb_spec (tp_sent t + 1) n); widths; nia. }
  rewrite Hadd. eexists _, (Some slice). split; [done|]. unfold twap_at. cbn.
  split_and!; try done; lia.
Qed.

Lemma twap_run_at n q times : forall t,
  1 <= n <= q -> q <= i64_max -> twap_at n q t ->
  exists t' out, twap_run times t = Ok (t', out) /\ twap_at n q t' /\
    tp_request t' = tp_request t /\
    tp_worked t' = tp_worked t + zsum out /\ tp_sent t' = tp_sent t + Z.of_nat (length out) /\
    Forall (fun s => 0 < s) out.
Proof.
  induction times as [|ts times IH]; cbn [twap_run]; intros t Hn Hq Ht.
  { exists t, []. split_and!; try done; cbn; lia. }
  destruct (twap_step_at n q ts t Hn Hq Ht) as (t1 & slice & -> & Ht1 & Hr1 & Hsl).
  destruct (IH t1 Hn Hq Ht1) as (t2 & out & -> & Ht2 & Hr2 & Hw & Hs & Hf).
  eexists t2, _. split; [done|]. split; [done|]. split; [congruence|].
  destruct slice as [s|]; [|destruct Hsl as [-> _]; done].
  destruct Hsl as (Hpos & Hs1 & Hw1 & _). rewrite zsum_cons. cbn [length].
  split_and!; [lia|lia|by constructor].
Qed.

(** A TWAP works its size exactly: a valid request whose size has a raw unit for each
    of its children never errs, releases only positive children, never more than were
    scheduled nor more than the size in all, and once done has worked the whole size.
    A request with fewer raw units than children works nothing at all. *)
Theorem twap_works_total r n start times :
  TwapRequest.slices r = Ok n -> tw_quantity r <= i64_max ->
  exists t' out, twap_run times (twap_fresh r n start) = Ok (t', out) /\
    tp_worked t' = zsum out /\ Forall (fun s => 0 < s) out /\
    Z.of_nat (length out) <= n /\ 0 <= zsum out <= tw_quantity r /\
    (n <= tw_quantity r -> TwapProgress.is_done t' = true -> zsum out = tw_quantity r) /\
    (tw_quantity r < n -> out = []).
Proof.
  intros Hs Hq. assert (1 <= n /\ 0 < tw_quantity r) as [Hn Hpos].
  { unfold TwapRequest.slices in Hs. res_inv_in Hs. unfold is_positive in *. bool_prop. lia. }
  destruct (Z.le_gt_cases n (tw_quantity r)) as [Hle|Hgt].
  - destruct (twap_run_at n (tw_quantity r) times (twap_fresh r n start))
      as (t' & out & Hrun & (Hr & Ht & Hb & Hw) & _ & Hw' & Hs' & Hf); [lia|lia| |].
    { unfold twap_at, twap_fresh. cbn [tp_request tp_total_slices tp_sent tp_worked].
      rewrite (proj2 (Z.eqb_neq 0 n)) by lia. split_and!; done || lia. }
    cbn in Hw', Hs'. exists t', out. split; [done|]. split; [done|]. split; [done|].
    assert (0 <= zsum out). { apply zsum_nonneg. eapply Forall_impl; [exact Hf|]. cbn. lia. }
    assert (Hdiv : n * (tw_quantity r / n) <= tw_quantity r) by (apply Z.mul_div_le; lia).
    assert (0 <= tw_quantity r / n) by (apply Z.div_pos; lia).
    unfold TwapProgress.is_done. rewrite Ht. split; [lia|]. split.
    + destruct (Z.eqb_spec (tp_sent t') n); nia.
    + split; [|lia]. intros _ Hd. bool_prop.
      rewrite (proj2 (Z.eqb_eq _ _)) in Hw by lia. lia.
  - assert (Hdone : forall times t, tp_sent t = tp_total_slices t -> twap_run times t = Ok (t, [])).
    { clear. induction times as [|ts times IH]; intros t Ht; cbn; [done|].
      unfold Engine.twap_step, TwapProgress.is_done. rewrite Ht, Z.leb_refl. cbn. by rewrite IH. }
    assert (Hrun : forall times, exists t', twap_run times (twap_fresh r n start) = Ok (t', []) /\
      tp_worked t' = 0).
    { clear times. induction times as [|ts times [t' [IH Hw]]]; [by eexists|].
      cbn [twap_run]. unfold Engine.twap_step at 1, TwapProgress.is_done. cbn.
      rewrite (proj2 (Z.leb_gt n 0)) by lia. cbn [orb].
      destruct (ts <? start) eqn:E; [cbn; rewrite IH; eauto|]. cbn.
      rewrite (proj2 (Z.leb_gt (n - 0) 1)) by lia.
      rewrite Z.quot_small by lia. cbn. rewrite Hdone by done. by eexists. }
    destruct (Hrun times) as (t' & Hr & Hw). exists t', []. cbn. split_and!; try done; lia.
Qed.

Definition demo_twap : TwapRequest := TwapRequest.new "PERP" 0 Buy 1000000001 (5 * 60 * 1000000000).

Example twap_works_total_witness :
  TwapRequest.slices demo_twap = Ok 10 /\
  exists t' out, twap_run (map (fun k => Z.of_nat k * DEFAULT_TWAP_INTERVAL_NANOS) (seq 0 12))
      (twap_fresh demo_twap 10 0) = Ok (t', out) /\ length out = 10%nat /\
    zsum out = tw_quantity demo_twap.
Proof.
  split; [vm_compute; reflexivity|].
  destruct (twap_works_total demo_twap 10 0
    (map (fun k => Z.of_nat k * DEFAULT_TWAP_INTERVAL_NANOS) (seq 0 12)))
    as (t' & out & Hrun & _ & _ & _ & _ & Hdone & _); [vm_compute; reflexivity|vm_compute; done|].
  exists t', out. split; [exact Hrun|]. vm_compute in Hrun. injection Hrun as <- <-.
  split; [reflexivity|]. apply Hdone; vm_compute; done.
Defined.

(** ** Partial liquidation *)

(** The least whole number of lots that is at least [m]. *)
Lemma round_up_lots m lot : 0 < lot -> 0 <= m ->
  m <= (m + (lot - 1)) / lot * lot < m + lot.
Proof.
  intros Hl Hm. pose proof (Z.div_mod (m + (lot - 1)) lot ltac:(lia)).
  pose proof (Z.mod_pos_bound (m + (lot - 1)) lot Hl). lia.
Qed.

(** A partial margin call closes enough and not too much: the size closed is on the
    position's side and within it; nothing is closed when nothing is needed; and
    otherwise the requirement released covers the shortfall to within the requirement
    of one raw unit, or the whole position is closed, while a whole lot less would
    not have covered it. *)
Theorem partial_close_bounds {F FM L M X} `{MarginModel M} (cfg : Config FM L M) (e : Engine F X)
    i q mark model st inst full c :
  margin_model cfg = Some model -> Engine.margin_state cfg e = Ok (Some st) ->
  InstrumentSet.get (instruments cfg) i = Ok inst ->
  maintenance_margin model inst q mark = Ok full ->
  let held := Z.abs q in
  let lot := Z.max (lot_size inst) 1 in
  let need := ms_maintenance st - ms_equity st in
  held + lot <= i64_max -> in_i64 need -> full <= i64_max ->
  Engine.partial_close_quantity cfg e i q mark = Ok c ->
  Z.abs c <= held /\ 0 <= c * q /\
  (need <= 0 \/ full <= 0 -> c = 0) /\
  (0 < need -> 0 < full ->
     (Z.abs c = held \/ (Z.abs c mod lot = 0 /\ need * held - full < full * Z.abs c)) /\
     full * (Z.abs c - lot) < Z.max 1 (need * held)).
Proof.
  intros Hm Hst Hi Hfull held lot need Hfit Hneed Hfi. unfold Engine.partial_close_quantity.
  rewrite Hm, Hst, Hi, Hfull. cbn [ok_or].
  assert (Hheld : abs64 q = held).
  { subst held. unfold abs64. apply wrap64_id. subst lot. widths. lia. }
  assert (Hsat : sat64 (ms_maintenance st - ms_equity st) = need).
  { fold need. unfold sat64. widths. lia. }
  rewrite Hheld, Hsat. assert (Hlot : 1 <= lot) by lia.
  destruct ((need <=? 0) || (full <=? 0)) eqn:E.
  { intros [= <-]. bool_prop. split_and!; cbn; try lia. }
  bool_prop. assert (0 <= need * held <= i64_max * i64_max) by (subst held lot; widths; nia).
  unfold wrap128. fold (wrap128 (need * held)). rewrite wrap128_id by (widths; lia).
  rewrite Z.quot_div_nonneg by lia. set (f := need * held / full).
  assert (Hf : 0 <= f /\ full * f <= need * held < full * f + full).
  { subst f. pose proof (Z.div_mod (need * held) full ltac:(lia)).
    pose proof (Z.mod_pos_bound (need * held) full ltac:(lia)).
    split; [apply Z.div_pos; lia|lia]. }
  set (m := Z.min f held). assert (Hmr : 0 <= m <= held) by lia.
  assert (Hn : narrow m "closing size" = Ok m).
  { apply narrow_Ok. split; [|done]. subst lot. widths. lia. }
  rewrite Hn. cbn zeta. fold lot.
  replace (sat64 (m + (lot - 1))) with (m + (lot - 1)) by (unfold sat64; widths; lia).
  rewrite Z.quot_div_nonneg by lia.
  destruct (round_up_lots m lot ltac:(lia) (proj1 Hmr)) as [Hlo Hhi].
  set (k := (m + (lot - 1)) / lot) in *.
  assert (Hk : mul64 k lot = k * lot) by (apply wrap64_id; widths; lia).
  rewrite Hk. set (c0 := Z.min (k * lot) held).
  assert (Hc0 : 0 <= c0 <= held) by lia.
  assert (Hc : mul64 c0 (Z.sgn q) = c0 * Z.sgn q).
  { apply wrap64_id. subst lot. widths. nia. }
  rewrite Hc. intros [= <-].
  assert (Habs : Z.abs (c0 * Z.sgn q) = c0).
  { rewrite Z.abs_mul. subst held. destruct q; cbn in *; lia. }
  rewrite Habs. split; [lia|]. split; [destruct q; cbn; nia|]. split; [lia|]. intros _ _. split.
  - destruct (Z.eq_dec c0 held); [by left|right]. assert (Hck : c0 = k * lot) by lia.
    assert (m = f) as Hmf by lia. split; [rewrite Hck; by apply Z.mod_mul; lia|nia].
  - destruct (Z.le_gt_cases (c0 - lot) 0); nia.
Qed.

(** ** The margin call *)
Section MarginCall.
Context {F FM L M X : Type} `{FeeModel F} `{FillModel FM} `{LatencyModel L} `{MarginModel M} `{ExecutionClient X}.
Context (cfg : Config FM L M) (e : Engine F X) (model : M).

(** What a position adds to equity, in the reporting currency: its exposure if it was paid
    for, its profit if not; nothing when it has no mark or its currency no rate. *)
Definition worth (p : Position) : option Money :=
  mark ← Engine.mark_at cfg e (p_instrument p) (p_outcome p);
  i ← ok (InstrumentSet.get (instruments cfg) (p_instrument p));
  v ← ok (if is_funded (kind i) then Position.exposure p mark else Position.unrealized_pnl p mark);
  if String.eqb (settlement_currency i) (reporting_currency cfg) then Some v
  else ok (FxBook.convert (fx cfg) v (settlement_currency i) (reporting_currency cfg)).
(** What a position requires to be maintained, when it is open and marked. *)
Definition upkeep (p : Position) : option Money :=
  if Position.is_flat p then None
  else
    mark ← Engine.mark_at cfg e (p_instrument p) (p_outcome p);
    i ← ok (InstrumentSet.get (instruments cfg) (p_instrument p));
    ok (maintenance_margin model i (p_quantity p) mark).
Definition marked (p : Position) : Prop := Engine.mark_at cfg e (p_instrument p) (p_outcome p) <> None.

Lemma mark_value_fold ps : forall st st', foldr_res (Engine.mark_value cfg e) st ps = Ok st' ->
  st'.1 = st.1 + zsum (omap worth ps) /\
  (st'.2 = [] <-> st.2 = [] /\ Forall (fun p => marked p -> worth p <> None) ps).
Proof.
  induction ps as [|p ps IH]; intros st st' Hst; cbn [foldr_res] in Hst.
  { injection Hst as <-. split; [cbn; lia|]. split; [by split|by intros [? _]]. }
  destruct (Engine.mark_value cfg e st p) as [st1|] eqn:E; [|done]. destruct (IH st1 st' Hst) as [IH1 IH2].
  assert (Hstep : (exists v, worth p = Some v /\ st1.1 = st.1 + v /\ st1.2 = st.2) \/
    (worth p = None /\ st1.1 = st.1 /\ ((~ marked p /\ st1.2 = st.2) \/ (marked p /\ st1.2 <> [])))).
  { unfold Engine.mark_value in E. unfold worth, marked. destruct (Engine.mark_at _ _ _ _) as [mark|]; [|injection E as <-; right; split; [done|]; split; [done|]; left; split; [by intros []|done]].
    cbn. destruct (InstrumentSet.get _ _) as [i|]; [|done]. cbn in *.
    destruct (if is_funded (kind i) then _ else _) as [v|]; [|done]. cbn.
    destruct (String.eqb _ _).
    - destruct (checked_add "Money" st.1 v) as [m|] eqn:Em; [|done]. apply checked_add_Ok in Em as [_ ->]. injection E as <-. left. by exists v.
    - destruct (FxBook.convert _ _ _ _) as [c|]; cbn.
      + destruct (checked_add "Money" st.1 c) as [m|] eqn:Em; [|done]. apply checked_add_Ok in Em as [_ ->]. injection E as <-. left. by exists c.
      + injection E as <-. right. split; [done|]. split; [done|]. right. split; [done|]. cbn. destruct (st.2); done. }
  cbn [omap list_omap]. rewrite IH1, IH2, Forall_cons. clear IH IH1 IH2 Hst E.
  destruct Hstep as [(v & Hw & E1 & E2)|(Hw & E1 & [[Hm E2]|[Hm E2]])]; rewrite E1; rewrite Hw at 1.
  - rewrite zsum_cons, E2. split; [lia|]. assert (marked p -> worth p <> None) by congruence. tauto.
  - rewrite E2. tauto.
  - tauto.
Qed.

Lemma margin_add_fold ps : forall r0 r, foldr_res (margin_add model (instruments cfg) (Engine.mark_at cfg e)) r0 ps = Ok r ->
  mr_maintenance r = mr_maintenance r0 + zsum (omap upkeep ps) /\
  (mr_unmarked r = [] <-> mr_unmarked r0 = [] /\ Forall (fun p => p_quantity p <> 0 -> marked p) ps).
Proof.
  induction ps as [|p ps IH]; intros r0 r Hr; cbn [foldr_res] in Hr.
  { injection Hr as <-. split; [cbn; lia|]. split; [by split|by intros [? _]]. }
  destruct (margin_add _ _ _ r0 p) as [r1|] eqn:E; [|done]. destruct (IH r1 r Hr) as [IH1 IH2].
  assert (Hstep : mr_maintenance r1 = mr_maintenance r0 + zsum (match upkeep p with Some v => [v] | None => [] end) /\
    (mr_unmarked r1 = [] <-> mr_unmarked r0 = [] /\ (p_quantity p <> 0 -> marked p))).
  { unfold margin_add in E. unfold upkeep, marked.
    assert (Hflat : Position.is_flat p = true <-> p_quantity p = 0) by apply Z.eqb_eq.
    destruct (Position.is_flat p); [injection E as <-; split; [cbn; lia|tauto]|].
    assert (p_quantity p <> 0) by (by intros ?%Hflat). cbn.
    destruct (Engine.mark_at _ _ _ _) as [mark|]; cbn.
    2: { injection E as <-. cbn. split; [lia|]. split; [destruct (mr_unmarked r0); done|]. intros [_ Hx]. by destruct Hx. }
    destruct (InstrumentSet.get _ _) as [i|]; [|done]. cbn in *. destruct (initial_margin _ _ _ _); [|done].
    destruct (checked_add _ _ _); [|done]. destruct (maintenance_margin _ _ _ _) as [mm|]; [|done].
    destruct (checked_add _ (mr_maintenance r0) _) as [m|] eqn:Em; [|done]. apply checked_add_Ok in Em as [_ ->].
    injection E as <-. cbn. split; [lia|]. split; [by split|by intros [? _]]. }
  destruct Hstep as [H1' H2']. rewrite IH1, IH2, Forall_cons, H1', H2'. split; [|tauto].
  cbn [omap list_omap]. destruct (upkeep p); rewrite ?zsum_cons; cbn; lia.
Qed.
End MarginCall.

(** C20 Liquidation is never declared on partial knowledge.  The margin state of the engine is
    cash plus the worth of its cross positions against what they require, and it is a verdict
    exactly when nothing is missing: the account is liquidatable if and only if every open
    cross position has a mark, every marked one a worth in the reporting currency, and equity
    is below a requirement that is not zero.  Unless it is, the margin check of a record
    closes nothing and changes nothing. *)
Theorem no_liquidation_on_partial_knowledge {F FM L M X} `{FeeModel F} `{FillModel FM} `{LatencyModel L} `{MarginModel M}
    `{ExecutionClient X} (cfg : Config FM L M) (e : Engine F X) model st :
  margin_model cfg = Some model -> Engine.margin_state cfg e = Ok (Some st) ->
  let ps := Engine.cross_positions cfg e in
  ms_equity st = e_cash e + zsum (omap (worth cfg e) ps) /\
  ms_maintenance st = zsum (omap (upkeep cfg e model) ps) /\
  (liquidatable st = true <->
   (forall p, In p ps -> p_quantity p <> 0 -> marked cfg e p) /\
   (forall p, In p ps -> marked cfg e p -> worth cfg e p <> None) /\
   ms_maintenance st <> 0 /\ ms_equity st < ms_maintenance st) /\
  (liquidatable st = false -> forall S (strategy : Strategy S) (s : S) ts, Engine.check_liquidation cfg e s ts = Ok (e, s)).
Proof.
  intros Hm Hst ps. pose proof Hst as Hcheck. unfold Engine.margin_state in Hst. rewrite Hm in Hst. fold ps in Hst.
  destruct (margin_requirement _ _ _ ps) as [r|] eqn:Er; [|done]. destruct (foldr_res _ (0, []) ps) as [[v rest]|] eqn:Ev; [|done].
  destruct (margin_add_fold cfg e model ps _ r Er) as [Hr Hun]. destruct (mark_value_fold cfg e ps _ _ Ev) as [Hv Hrest].
  unfold margin_state in Hst. cbn [v_total fst snd mr_maintenance mr_unmarked] in *.
  destruct (checked_add "Money" (e_cash e) v) as [eq|] eqn:Ee; [|done]. apply checked_add_Ok in Ee as [_ ->].
  injection Hst as <-. cbn. split; [lia|]. split; [lia|]. split.
  - unfold Valuation.is_complete, is_zero. cbn. rewrite !andb_true_iff, negb_true_iff, orb_false_iff, !negb_false_iff, negb_true_iff, Z.ltb_lt, Z.eqb_neq.
    assert (match rest with [] => true | _ => false end = true <-> Forall (fun p => marked cfg e p -> worth cfg e p <> None) ps) as ->.
    { destruct rest; naive_solver. }
    assert (match mr_unmarked r with [] => false | _ => true end = false <-> Forall (fun p => p_quantity p <> 0 -> marked cfg e p) ps) as ->.
    { destruct (mr_unmarked r); naive_solver. }
    rewrite !List.Forall_forall. tauto.
  - intros Hl S ? s ts. unfold Engine.check_liquidation. rewrite Hcheck. cbn. by rewrite Hl.
Qed.

(** A long perpetual under water: margin 10% initial, 5% maintenance. *)
Definition called_config : Config BookFills NoLatency LinearMargin :=
  EngineBuilder.config demo_instruments (units 900) mkBookFills mkNoLatency 1000000000
    (Some (mkLinearMargin (cents 10) (cents 5))) FxBook.new "USDC" RiskLimits.unlimited false
    SetOperationCosts.free true VenueMark Partial [].
Definition called_position : Position :=
  mkPosition "PERP" 0 (units 100) (units 100) 0 0 1.
Definition called_engine : Engine NoFees SimulatedExecution :=
  demo_engine called_config
    <| e_portfolio := mkPortfolio [(("PERP", 0), called_position)] [] |>
    <| e_marks := [(Slots.key (slots called_config) "PERP" 0, units 92)] |>.

Example partial_close_bounds_witness :
  exists c, Engine.partial_close_quantity called_config called_engine "PERP" (units 100) (units 92)
    = Ok c /\ Z.abs c <= units 100 /\ 460 * c > 360 * units 100 - 460.
Proof.
  eexists. split; [vm_compute; reflexivity|].
  destruct (partial_close_bounds called_config called_engine "PERP" (units 100) (units 92)
    (mkLinearMargin (cents 10) (cents 5))
    (mkMarginState (units 100) (units 920) (units 460) true false) demo_perp (units 460) 78260869565)
    as (Hle & _ & _ & _);
    try (vm_compute; reflexivity); try (vm_compute; split; discriminate);
    try (vm_compute; discriminate).
  split; [exact Hle|vm_compute; reflexivity].
Defined.

(** The account above is called; without a mark it is left alone. *)
Example no_liquidation_on_partial_knowledge_witness :
  exists st, Engine.margin_state called_config called_engine = Ok (Some st) /\ liquidatable st = true /\
    ms_equity st = units 100 /\ ms_maintenance st = units 460 /\
    (forall p, In p (Engine.cross_positions called_config called_engine) -> p_quantity p <> 0 -> marked called_config called_engine p).
Proof.
  eexists. split; [vm_compute; reflexivity|].
  destruct (no_liquidation_on_partial_knowledge called_config called_engine (mkLinearMargin (cents 10) (cents 5))
    (mkMarginState (units 100) (units 920) (units 460) true false)) as (He & Hr & Hl & _);
    [vm_compute; reflexivity|vm_compute; reflexivity|].
  split; [reflexivity|]. split; [exact He|]. split; [exact Hr|]. exact (proj1 (proj1 Hl eq_refl)).
Defined.
Example unmarked_account_is_left_alone :
  match Engine.margin_state called_config (called_engine <| e_marks := [] |> <| e_cash := - units 1 |>) with
  | Ok (Some st) => liquidatable st = false /\ incomplete st = true
  | _ => False
  end.
Proof. vm_compute. split; reflexivity. Qed.

(** ** Complete sets *)

(** The sum of legs each rounded on its own: within half a raw unit per leg of the
    rounded whole, and exact for a whole number of sets. *)
Lemma legs_sum sets ps legs :
  Forall2 (fun p leg => notional p sets = Ok leg) ps legs ->
  2 * Z.abs (SCALE * zsum legs - zsum ps * sets) <= SCALE * Z.of_nat (length ps) /\
  (sets mod SCALE = 0 -> SCALE * zsum legs = zsum ps * sets).
Proof.
  induction 1 as [|p leg ps legs Hl _ [IH1 IH2]]; [cbn; lia|].
  rewrite !zsum_cons. cbn [length]. pose proof (notional_error _ _ _ Hl) as He. split; [lia|].
  intros Hw. specialize (IH2 Hw). apply Z.mod_divide in Hw as [k ->]; [|done].
  apply notional_Ok in Hl as [_ ->]. replace (p * (k * SCALE)) with (p * k * SCALE) by lia.
  rewrite div_half_away_exact by done. lia.
Qed.

Section Sets.
Context {F FM L M X S : Type}.
Context `{FeeModel F} `{FillModel FM} `{LatencyModel L} `{MarginModel M} `{ExecutionClient X}.
Context `{Strategy S}.
Variable cfg : Config FM L M.
Implicit Types e : Engine F X.

Definition set_direction (side : Side) : Z := match side with Buy => 1 | Sell => -1 end.

Lemma set_legs_cash inst side sets cost tag ts basis : forall n e (s : S) d e' s' d',
  Engine.set_legs cfg inst side sets cost tag ts n basis e s d = Ok (e', s', d') ->
  exists legs, Forall2 (fun p leg => notional p sets = Ok leg) basis legs /\
    d' = d + set_direction side * zsum legs.
Proof.
  induction basis as [|p basis IH]; cbn [Engine.set_legs]; intros n e s d e' s' d' Hl.
  { injection Hl as _ _ <-. exists []. split; [constructor|cbn; lia]. }
  destruct (Engine.venue_order _ _ _ _ _ _ _ _) as [[e1 id]|]; [|done].
  destruct (notional p sets) as [leg|] eqn:En; [|done].
  destruct (match side with Buy => _ | Sell => _ end) as [d1|] eqn:Ed; [|done].
  destruct (Engine.book_fill _ _ _ _ _ _) as [[e2 s2]|]; [|done].
  destruct (IH _ _ _ _ _ _ _ Hl) as (legs & Hf & ->). exists (leg :: legs).
  split; [by constructor|]. rewrite zsum_cons.
  destruct side; [apply checked_add_Ok in Ed as [_ ->]|apply checked_sub_Ok in Ed as [_ ->]];
    unfold set_direction; lia.
Qed.

Lemma set_basis_sums e inst basis :
  Forall (fun p => p <= i64_max) (bvalues (e_marks e)) ->
  Engine.set_basis cfg e inst = Ok basis ->
  zsum basis = SCALE /\ Z.of_nat (length basis) = Instrument.outcome_count inst.
Proof.
  intros Hfit. unfold Engine.set_basis.
  assert (Hc : 0 <= Instrument.outcome_count inst <= 65535).
  { unfold Instrument.outcome_count. pose proof (Z.mod_pos_bound (Z.of_nat (length (outcomes inst))) 65536). lia. }
  assert (Hlen : Z.of_nat (length (Instrument.outcome_ids inst)) = Instrument.outcome_count inst).
  { unfold Instrument.outcome_ids. rewrite length_map, length_seq. lia. }
  destruct (mapM _ _) as [prices|] eqn:E; intros Hb.
  - apply mapM_Some in E.
    assert (Hp : Forall (fun p => 1 <= p <= i64_max) prices).
    { clear -E Hfit. induction E as [|o p os ps Ho _ IH]; constructor; [|done].
      destruct (Engine.mark_at cfg e (inst_id inst) o) as [q|] eqn:Eq; [|done].
      destruct (is_positive q) eqn:Ep; [|done]. injection Ho as <-. unfold is_positive in Ep.
      apply bget_In in Eq. rewrite List.Forall_forall in Hfit.
      assert (q <= i64_max); [|lia]. apply Hfit. unfold bvalues. apply in_map_iff. eexists. by split; [|exact Eq]. }
    assert (Hl : length prices = length (Instrument.outcome_ids inst)) by (symmetry; by eapply Forall2_length).
    destruct prices as [|p0 ps] eqn:Eps; [done|]. rewrite <- Eps in *.
    destruct (normalise_to_one_exact prices) as (l & Hn & Hll & Hs & _).
    + lia.
    + eapply Forall_impl; [exact Hp|]. cbn. lia.
    + rewrite Eps in *. rewrite zsum_cons. apply Forall_cons in Hp as [Hp0 Hps].
      assert (0 <= zsum ps); [|lia]. apply zsum_nonneg. eapply Forall_impl; [exact Hps|]. cbn; lia.
    + rewrite Hn in Hb. injection Hb as <-. split; [done|]. lia.
  - destruct (Z.eq_dec (Instrument.outcome_count inst) 0) as [E0|Hne];
      [rewrite E0 in Hb; done|].
    destruct (uniform_prices_exact (Instrument.outcome_count inst)) as (l & Hl & Hll & Hs & _); [lia|].
    rewrite Hl in Hb. by injection Hb as <-.
Qed.

(** A complete set costs and pays one unit: an operation on sets either is recorded as
    refused and leaves every position and all the money as they were, or is recorded
    with the cash it moved, which is one unit per set to within half a raw unit per
    outcome, and exactly one unit per set for a whole number of sets; a mint or
    redemption exchanges the number of sets asked for. *)
Theorem set_operation_pays_one_unit e (s : S) request ts e' s' :
  Forall (fun p => p <= i64_max) (bvalues (e_marks e)) ->
  Engine.run_set_operation cfg e s request ts = Ok (e', s') ->
  exists inst record, InstrumentSet.get (instruments cfg) (sr_instrument request) = Ok inst /\
    last (e_set_operations e') = Some record /\
    match so_rejected record with
    | Some _ => e_portfolio e' = e_portfolio e /\ e_cash e' = e_cash e /\ e_fills e' = e_fills e
    | None =>
        let sets := so_sets record in
        let due := match sr_kind request with Mint => sets | _ => - sets end in
        0 < sr_quantity request /\ Instrument.supports_complete_set inst = true /\
        2 * Z.abs (so_cash_delta record - due) <= Instrument.outcome_count inst /\
        (sets mod SCALE = 0 -> so_cash_delta record = due) /\
        match sr_kind request with
        | Convert held => sets = sr_quantity request * (Z.of_nat (length held) - 1)
        | _ => sets = sr_quantity request
        end
    end.
Proof.
  intros Hfit. unfold Engine.run_set_operation. intros Hr.
  destruct (InstrumentSet.get _ _) as [inst|]; [|done]. exists inst.
  destruct (Instrument.supports_complete_set inst) eqn:Esup; [|done].
  destruct (is_positive (sr_quantity request)) eqn:Epos; [|done]. cbn [negb] in Hr.
  destruct (match sr_kind request with Mint => _ | Redeem => _ | Convert _ => _ end)
    as [[sets sd]|] eqn:Ek; [|done].
  destruct (Engine.set_operation_refusal _ _ _ _ _ _ _) as [[reason|]|]; [..|done].
  { injection Hr as <- <-. eexists. split; [done|]. split; [apply last_snoc|]. done. }
  destruct (Engine.set_basis _ _ _) as [basis|] eqn:Eb; [|done].
  destruct (Engine.set_legs _ _ _ _ _ _ _ _ _ _ _ _) as [[[e1 s1] d1]|] eqn:El; [|done].
  injection Hr as <- <-. eexists. split; [done|]. split; [apply last_snoc|]. cbn [so_rejected so_sets so_cash_delta].
  destruct (set_basis_sums _ _ _ Hfit Eb) as [Hsum Hlen].
  destruct (set_legs_cash _ _ _ _ _ _ _ _ _ _ _ _ _ _ El) as (legs & Hf & ->).
  destruct (legs_sum _ _ _ Hf) as [Hb Hx]. rewrite Hsum in Hb, Hx. rewrite Hlen in Hb.
  unfold is_positive in Epos. cbv zeta.
  assert (Hdue : set_direction sd * sets = match sr_kind request with Mint => sets | _ => - sets end /\
    match sr_kind request with
    | Convert held => sets = sr_quantity request * (Z.of_nat (length held) - 1)
    | _ => sets = sr_quantity request
    end).
  { destruct (sr_kind request) as [| |held]; [injection Ek as <- <-; cbn; lia..|].
    destruct (Engine.conversion_sets _ _ _) as [n|] eqn:Ec; [|done]. injection Ek as <- <-.
    unfold Engine.conversion_sets in Ec. res_inv_in Ec. bool_prop.
    split; [unfold set_direction; lia|].
    apply Nat.eqb_eq in E0. rewrite E0 in Ec. unfold checked64 in Ec.
    destruct (in_i64b _); [by injection Ec|done]. }
  destruct Hdue as [Hdue Hsets]. rewrite <- Hdue. unfold SCALE in Hb, Hx.
  split_and!; try done; [lia|destruct sd; cbn; lia|].
  intros Hw. specialize (Hx Hw). assert (zsum legs = sets) as -> by lia. lia.
Qed.
End Sets.

Example set_operation_pays_one_unit_witness :
  exists e' s', Engine.run_set_operation demo_config (demo_engine demo_config) mkNoStrategy
      (SetOperationRequest.mint "PM" (units 3)) 5 = Ok (e', s') /\
    so_cash_delta <$> last (e_set_operations e') = Some (units 3).
Proof.
  destruct (Engine.run_set_operation demo_config (demo_engine demo_config) mkNoStrategy
      (SetOperationRequest.mint "PM" (units 3)) 5) as [[e' s']|] eqn:E; [|vm_compute in E; discriminate].
  exists e', s'. split; [reflexivity|].
  destruct (set_operation_pays_one_unit demo_config (demo_engine demo_config) mkNoStrategy
    (SetOperationRequest.mint "PM" (units 3)) 5 e' s')
    as (inst & record & _ & Hl & Hr); [constructor|exact E|]. rewrite Hl. cbn.
  assert (Hrej : (so_rejected <$> last (e_set_operations e')) = Some None).
  { vm_compute in E. injection E as E1 E2 || injection E as E1. rewrite <- E1. reflexivity. }
  rewrite Hl in Hrej. cbn in Hrej. injection Hrej as Hrej. rewrite Hrej in Hr.
  destruct Hr as (_ & _ & _ & Hx & Hs). cbn in Hs, Hx. rewrite Hs in Hx. f_equal. by apply Hx.
Defined.

(** ** Two runs *)

(** Hold ten contracts, rest an order to sell ten, amend it to twenty. *)
Definition amend_script (last_quantity : Qty) : CommandReplay :=
  mkCommandReplay
    [(1, RcSubmit "open" (OrderRequest.market "PM" 0 Buy (units 10)));
     (2, RcSubmit "exit" (OrderRequest.limit "PM" 0 Sell (cents 90) (units 10)));
     (3, RcAmend "exit" (Some last_quantity) None)] [] 0.
(** The same exposure asked for directly. *)
Definition direct_script : CommandReplay :=
  mkCommandReplay
    [(1, RcSubmit "open" (OrderRequest.market "PM" 0 Buy (units 10)));
     (2, RcSubmit "exit" (OrderRequest.limit "PM" 0 Sell (cents 90) (units 20)))] [] 0.
Definition amend_records : list EventRecord :=
  [quote 1 "PM" 0 (cents 40) (cents 42) (units 100);
   quote 2 "PM" 0 (cents 40) (cents 42) (units 100);
   quote 3 "PM" 0 (cents 40) (cents 42) (units 100);
   quote 4 "PM" 0 (cents 95) (cents 96) (units 100)].
Definition final_quantity {S} (i : InstrumentId) (o : OutcomeId)
  (r : Result (Engine.RunResult (F := NoFees) (X := SimulatedExecution) * S)) : option Qty :=
  match r with
  | Ok (result, _) => p_quantity <$> Portfolio.position (e_portfolio (Engine.rr_engine result)) i o
  | Err _ => None
  end.

(** An amendment opens the short the engine refuses to open: with naked shorts not
    allowed, an order to sell more than is held is rejected when submitted and the
    position stays long, but reached by amending an accepted order it fills and
    leaves the prediction-market outcome sold short. *)
Theorem amend_opens_naked_short :
  allow_naked_shorts demo_config = false /\
  final_quantity "PM" 0
    (Engine.run demo_config (demo_engine demo_config) direct_script (replay_of amend_records))
    = Some (units 10) /\
  final_quantity "PM" 0
    (Engine.run demo_config (demo_engine demo_config) (amend_script (units 20))
       (replay_of amend_records))
    = Some (- units 10).
Proof. vm_compute. repeat split. Qed.

(** Close a position of 100, fill 60 of it, split two for one, fill the rest. *)
Definition split_script : CommandReplay :=
  mkCommandReplay
    [(1, RcSubmit "open" (OrderRequest.market "PERP" 0 Buy (units 100)));
     (2, RcSubmit "exit" (OrderRequest.limit "PERP" 0 Sell (units 50) (units 100)))] [] 0.
Definition split_records : list EventRecord :=
  [quote 1 "PERP" 0 (units 40) (units 41) (units 100);
   quote 2 "PERP" 0 (units 40) (units 41) (units 100);
   quote 3 "PERP" 0 (units 50) (units 51) (units 60);
   at_time 4 "PERP" 0 EvGap;
   at_time 5 "PERP" 0 (EvCorporate (Split (units 2)));
   quote 6 "PERP" 0 (units 25) (units 26) (units 1000)].

(** A split moves an order's size but not what it has filled, so a partly filled order
    comes out of it with more to go than it went in with: scaling an order keeps its
    filled quantity whatever the ratio, and in a run whose only sell order was to
    close the position, a two-for-one split after 60 of 100 were filled lets it sell
    140 more against a position of 80. *)
Theorem split_oversells_partly_filled_order :
  (forall ratio o o', split_order ratio o = Ok o' ->
     o_filled o' = o_filled o /\ o_quantity o' = Z.quot (o_quantity o * ratio) SCALE) /\
  final_quantity "PERP" 0
    (Engine.run demo_config (demo_engine demo_config) split_script (replay_of split_records))
    = Some (- units 60).
Proof.
  split; [|vm_compute; reflexivity]. intros ratio o o' Hs. unfold split_order in Hs.
  destruct (CorporateAction.split_position ratio (o_quantity o) 0) as [[q p]|] eqn:E; [|done].
  apply split_position_Ok in E as (_ & _ & _ & -> & _).
  destruct (match o_kind (o <| o_quantity := _ |>) with Market => _ | Limit _ => _ end)
    as [o1|] eqn:E1; [|done].
  assert (o_filled o1 = o_filled o /\ o_quantity o1 = Z.quot (o_quantity o * ratio) SCALE) as [<- <-].
  { by res_inv_in E1. }
  by res_inv_in Hs.
Qed.

(** ** The run's books balance

    Two invariants of the engine over the money steps of [EngineMoney.v].  The audit:
    each position is the fold of the fills of its market, so the stored fills explain
    the final positions.  The ledger: cash and posted collateral are, to the last raw
    unit, the starting cash plus what every fill, funding payment and dividend moved. *)

(** ** Sums over maps *)

Section BSum.
Context {K V : Type} `{OrdKey K}.
Implicit Types m : BTree K V.
Definition bsum (g : K -> V -> Z) m : Z := zsum (map (fun e => g e.1 e.2) m).

Lemma bsum_cons g e m : bsum g (e :: m) = g e.1 e.2 + bsum g m.
Proof. apply zsum_cons. Qed.

Lemma bget_below k j w m : bwf ((j, w) :: m) -> klt k j -> bget k ((j, w) :: m) = None.
Proof.
  intros [_ Hj]%StronglySorted_inv Hk. apply bget_None_keys. cbn. intros [<-|Hin];
    [by apply klt_irrefl in Hk|].
  rewrite List.Forall_forall in Hj. apply (klt_irrefl k). eapply klt_trans; [exact Hk|by apply Hj].
Qed.

Lemma bsum_insert g k v m :
  bwf m -> bsum g (binsert k v m) = bsum g m - default 0 (g k <$> bget k m) + g k v.
Proof.
  induction m as [|[j w] m IH]; intros Hw; cbn [binsert]; [cbn; lia|].
  destruct (kcmp k j) eqn:E; rewrite !bsum_cons; cbn [fst snd].
  - apply kcmp_eq in E as ->. cbn. rewrite keqb_refl. cbn. lia.
  - rewrite (bget_below _ _ _ _ Hw E). cbn. lia.
  - unfold bwf in Hw. cbn in Hw. apply StronglySorted_inv in Hw as [Hw _].
    rewrite IH by done. cbn. unfold keqb. rewrite E. lia.
Qed.

Lemma bsum_remove g k m :
  bwf m -> bsum g (bremove k m) = bsum g m - default 0 (g k <$> bget k m).
Proof.
  unfold bremove. induction m as [|[j w] m IH]; intros Hw; [cbn; lia|].
  pose proof Hw as [Hw' Hj]%StronglySorted_inv. specialize (IH Hw').
  cbn [List.filter fst bget]. destruct (keqb k j) eqn:E; cbn [negb]; rewrite ?bsum_cons; cbn [fst snd].
  - apply keqb_eq in E as ->. rewrite IH. cbn.
    destruct (bget j m) eqn:Hg; cbn; [|lia]. exfalso. apply (klt_irrefl j).
    rewrite List.Forall_forall in Hj. apply Hj. apply bget_In in Hg.
    unfold bkeys. apply in_map_iff. by exists (j, v).
  - rewrite IH. lia.
Qed.
End BSum.

Lemma bsum_values {K} (m : BTree K Z) : bsum (fun _ v => v) m = zsum (bvalues m).
Proof. reflexivity. Qed.

(** Updating every entry in place, keys kept. *)
Lemma map_res_bget {K V} `{OrdKey K} (f : K * V -> Result (K * V)) m m' k :
  (forall e e', f e = Ok e' -> e'.1 = e.1) -> map_res f m = Ok m' ->
  match bget k m with
  | Some v => exists v', f (k, v) = Ok (k, v') /\ bget k m' = Some v'
  | None => bget k m' = None
  end.
Proof.
  intros Hf Hm%map_res_Forall2. induction Hm as [|[j w] [j' w'] m m' Hj _ IH]; cbn; [done|].
  pose proof (Hf _ _ Hj) as Hk. cbn in Hk. subst j'.
  destruct (keqb k j) eqn:E; [|done]. apply keqb_eq in E as ->. eauto.
Qed.

(** ** What booking a fill does *)

(** Cash a fill of a funded instrument moves: the notional and the commission. *)
Definition fill_flow (f : Fill) : Z :=
  let gross := default 0 (ok (notional (f_price f) (f_quantity f))) in
  match f_side f with Buy => neg64 gross | Sell => gross end - f_commission f.

Section Ledger.
Context {F FM L M X : Type}.
Context `{FeeModel F} `{FillModel FM} `{LatencyModel L} `{MarginModel M} `{ExecutionClient X}.
Variable cfg : Config FM L M.
Variable split_ok : InstrumentId -> Prop.
Local Abbreviation Eng := (Engine F X).
Implicit Types e : Eng.

Definition funded (instrument : InstrumentId) : bool :=
  match InstrumentSet.get (instruments cfg) instrument with
  | Ok i => is_funded (kind i)
  | Err _ => true
  end.
(** Profit realised on a derivative is cash; on a funded instrument the fills' own
    flows already are. *)
Definition derivative_pnl (key : PositionKey) (p : Position) : Z :=
  if funded key.1 then 0 else p_realized_pnl p.
Definition flows (fills : list Fill) : Z :=
  zsum (map fill_flow (List.filter (fun f => funded (f_instrument f)) fills)).

Lemma flows_snoc fills f :
  flows (fills ++ [f]) = flows fills + if funded (f_instrument f) then fill_flow f else 0.
Proof.
  unfold flows. rewrite List.filter_app, map_app, zsum_app. cbn.
  destruct (funded (f_instrument f)); cbn; lia.
Qed.

Definition account_cash e : Z := e_cash e + zsum (bvalues (e_isolated_collateral e)).

Lemma rebalance_money e i e' :
  bwf (e_isolated_collateral e) -> Engine.rebalance_isolated cfg e i = Ok e' ->
  account_cash e' = account_cash e /\ bwf (e_isolated_collateral e') /\
  e_portfolio e' = e_portfolio e /\ e_fills e' = e_fills e /\
  e_funding_paid e' = e_funding_paid e /\ e_dividends_received e' = e_dividends_received e.
Proof.
  intros Hw. unfold Engine.rebalance_isolated. case_match; [by intros [= <-]|].
  destruct (margin_model cfg) as [model|]; [|by intros [= <-]].
  destruct (InstrumentSet.get _ _) as [found|]; [|done].
  destruct (foldr_res _ _ _) as [required|]; [|done].
  destruct (checked_sub "Money" required _) as [delta|] eqn:Ed; [|done].
  apply checked_sub_Ok in Ed as [_ ->]. case_match; [by intros [= <-]|].
  destruct (checked_sub "Money" (e_cash e) _) as [cash|] eqn:Ec; [|done].
  apply checked_sub_Ok in Ec as [_ ->]. intros [= <-]. unfold account_cash. cbn.
  pose proof (bsum_insert (fun _ v => v) i required (e_isolated_collateral e) Hw) as Hi.
  pose proof (bsum_remove (fun _ v => v) i (e_isolated_collateral e) Hw) as Hr.
  rewrite !bsum_values in Hi, Hr.
  destruct (bget i (e_isolated_collateral e)) as [posted|]; cbn in Hi, Hr |- *;
    (destruct (is_zero required) eqn:Ez; [apply Z.eqb_eq in Ez; subst|]);
    unfold zsum, bvalues in *; split_and!; auto with h5i; lia.
Qed.

(** Booking a fill: the portfolio takes it, it joins the fills, and cash with
    collateral moves by its flow or by the profit it realised. *)
Lemma book_fill_money e id terms ts e' f :
  bwf (e_isolated_collateral e) -> Engine.book_fill_state cfg e id terms ts = Ok (e', f) ->
  Portfolio.apply (e_portfolio e) f = Ok (e_portfolio e') /\ e_fills e' = e_fills e ++ [f] /\
  e_funding_paid e' = e_funding_paid e /\ e_dividends_received e' = e_dividends_received e /\
  bwf (e_isolated_collateral e') /\
  let key := (f_instrument f, f_outcome f) in
  let realized pf := default 0 (p_realized_pnl <$> bget key (pf_positions pf)) in
  account_cash e' = account_cash e +
    if funded (f_instrument f) then fill_flow f
    else realized (e_portfolio e') - realized (e_portfolio e).
Proof.
  intros Hw Hb. unfold Engine.book_fill_state in Hb.
  destruct (ok_or _ _) as [order|]; [|done].
  destruct (InstrumentSet.get _ _) as [inst|] eqn:Ei; [|done].
  set (fill := mkFill _ _ _ _ _ _ _ _ _ _) in *.
  destruct (Portfolio.apply _ _) as [pf|] eqn:Ep; [|done].
  destruct (Engine.move_cash _ _ _ _) as [e1|] eqn:Em; [|done].
  destruct (Engine.rebalance_isolated _ _ _) as [e2|] eqn:Er; [|done].
  destruct (Order.record_fill _ _) as [o'|]; [|done]. injection Hb as He' Hf. subst f.
  assert (Hm : account_cash e1 = account_cash e + (if funded (f_instrument fill) then fill_flow fill
      else default 0 (p_realized_pnl <$> Portfolio.position pf (f_instrument fill) (f_outcome fill)) -
           default 0 (p_realized_pnl <$> Portfolio.position (e_portfolio e) (o_instrument order) (o_outcome order)))
    /\ ledger_of e1 = mkLedger pf (e_cash e1) (e_fills e) (e_funding_paid e)
         (e_dividends_received e) (e_isolated_collateral e)).
  { unfold Engine.move_cash in Em. unfold funded, fill_flow, account_cash.
    change (f_instrument fill) with (o_instrument order). rewrite Ei.
    destruct (is_funded (kind inst)).
    - destruct (notional _ _) as [gross|]; [|done]. cbn [default ok].
      destruct (checked_add _ _ _) as [c1|] eqn:E1; [|done].
      destruct (checked_sub _ _ _) as [c2|] eqn:E2; [|done]. injection Em as <-.
      apply checked_add_Ok in E1 as [_ ->]. apply checked_sub_Ok in E2 as [_ ->].
      split; [subst fill; cbn -[zsum bvalues neg64]; destruct (o_side order); lia|done].
    - destruct (checked_sub _ _ _) as [g|] eqn:E1; [|done].
      destruct (checked_add _ _ _) as [c|] eqn:E2; [|done]. injection Em as <-.
      apply checked_sub_Ok in E1 as [_ ->]. apply checked_add_Ok in E2 as [_ ->].
      split; [subst fill; cbn -[zsum bvalues Portfolio.position]; lia|done]. }
  destruct Hm as [Hm Hl]. unfold ledger_of in Hl. injection Hl as H1' H2' H3' H4' H5'.
  destruct (rebalance_money e1 (o_instrument order) e2) as (Hc & Hw2 & Hp2 & Hf2 & Hfu2 & Hd2);
    [by rewrite H5'|done|].
  assert (Hl' : ledger_of e' = ledger_of (e2 <| e_fills := e_fills e2 ++ [fill] |>)).
  { subst e'. destruct (Order.is_open o'); [reflexivity|].
    pose proof (remove_resting_frame cfg (e2 <| e_orders := binsert id o' (e_orders e2) |>) id) as Hr.
    unfold ledger_of in Hr |- *. cbn in *. injection Hr as -> -> -> -> -> ->. done. }
  unfold ledger_of in Hl'. cbn in Hl'. injection Hl' as -> Hcash -> -> -> Hcol.
  assert (Ha : account_cash e' = account_cash e2) by (unfold account_cash; by rewrite Hcash, Hcol).
  rewrite Ha, Hc, Hp2, Hf2, Hfu2, Hd2, Hcol. rewrite H1', H2', H3', H4'. split_and!; try done.
Qed.

(** ** The invariant *)

(** The position of a market is the fold of its fills. *)
Definition audited e (key : PositionKey) : Prop :=
  exists pos, foldr_res Position.apply (Position.new key.1 key.2) (fills_of key (e_fills e)) = Ok pos /\
    bget key (pf_positions (e_portfolio e)) =
    match fills_of key (e_fills e) with [] => None | _ => Some pos end.

(** Positions are filed under their own instrument. *)
Definition coherent (pf : Portfolio) : Prop :=
  Forall (fun entry : PositionKey * Position => p_instrument entry.2 = entry.1.1) (pf_positions pf).

Record money_inv (start : Money) e : Prop := {
  mi_positions : bwf (pf_positions (e_portfolio e));
  mi_coherent : coherent (e_portfolio e);
  mi_collateral : bwf (e_isolated_collateral e);
  mi_audit : forall key, ~ split_ok key.1 -> audited e key;
  mi_replay : (forall i, ~ split_ok i) -> Portfolio.replay (e_fills e) = Ok (e_portfolio e);
  mi_ledger : account_cash e =
    start + flows (e_fills e) + bsum derivative_pnl (pf_positions (e_portfolio e))
    - e_funding_paid e + e_dividends_received e;
}.

Lemma money_inv_frame start e e' :
  ledger_of e' = ledger_of e -> money_inv start e -> money_inv start e'.
Proof.
  unfold ledger_of. intros [= Hp Hc Hf Hfu Hd Hi] [? ? ? Ha Hre Hl].
  split; unfold audited, account_cash in *; rewrite ?Hp, ?Hc, ?Hf, ?Hfu, ?Hd, ?Hi; done.
Qed.

Lemma apply_instrument p f p' : Position.apply p f = Ok p' -> p_instrument p' = p_instrument p.
Proof.
  unfold Position.apply. intros Ha.
  destruct (if _ || _ then _ else _) as [p1|] eqn:E; [|done].
  assert (p_instrument p1 = p_instrument p) as <- by by res_inv_in E.
  by res_inv_in Ha.
Qed.

Lemma binsert_Forall {K V} `{OrdKey K} (P : K * V -> Prop) k v (m : BTree K V) :
  P (k, v) -> Forall P m -> Forall P (binsert k v m).
Proof.
  intros Hv. induction m as [|[j w] m IH]; cbn; intros Hm; [by repeat constructor|].
  apply Forall_cons in Hm as [Hw Hm]. destruct (kcmp k j); repeat (constructor; try done). by apply IH.
Qed.

Lemma portfolio_apply_coherent pf f pf' :
  coherent pf -> Portfolio.apply pf f = Ok pf' -> coherent pf'.
Proof.
  unfold coherent, Portfolio.apply. intros Hc.
  destruct (Position.apply _ f) as [pos|] eqn:E; [|done]. intros [= <-]. cbn.
  apply binsert_Forall; [|done]. cbn. rewrite (apply_instrument _ _ _ E).
  destruct (bget _ _) as [p|] eqn:Hg; [|done]. apply bget_In in Hg.
  rewrite List.Forall_forall in Hc. exact (Hc _ Hg).
Qed.

(** What a fill adds to the derivatives' realised profit. *)
Lemma portfolio_apply_pnl pf f pf' :
  bwf (pf_positions pf) -> Portfolio.apply pf f = Ok pf' ->
  let key := (f_instrument f, f_outcome f) in
  let realized pf := default 0 (p_realized_pnl <$> bget key (pf_positions pf)) in
  bsum derivative_pnl (pf_positions pf') = bsum derivative_pnl (pf_positions pf) +
    if funded (f_instrument f) then 0 else realized pf' - realized pf.
Proof.
  intros Hw. unfold Portfolio.apply.
  destruct (Position.apply _ f) as [pos|]; [|done]. intros [= <-]. cbn -[bsum].
  rewrite bsum_insert, bget_insert_eq by done. unfold derivative_pnl at 2 3. cbn -[bsum].
  destruct (funded (f_instrument f)); destruct (bget _ _); cbn; lia.
Qed.

Lemma split_position_kept p ratio p' :
  Position.apply_split p ratio = Ok p' ->
  p_instrument p' = p_instrument p /\ p_realized_pnl p' = p_realized_pnl p.
Proof. unfold Position.apply_split. intros Hs. by res_inv_in Hs. Qed.

Lemma portfolio_split pf i ratio pf' :
  coherent pf -> Portfolio.apply_split pf i ratio = Ok pf' ->
  bkeys (pf_positions pf') = bkeys (pf_positions pf) /\ coherent pf' /\
  bsum derivative_pnl (pf_positions pf') = bsum derivative_pnl (pf_positions pf) /\
  forall key, key.1 <> i -> bget key (pf_positions pf') = bget key (pf_positions pf).
Proof.
  unfold Portfolio.apply_split. intros Hc. destruct (map_res _ _) as [ps|] eqn:E; [|done].
  intros [= <-]. unfold coherent in *. cbn.
  assert (Hkey : forall x0 x1 : PositionKey * Position, (if String.eqb (p_instrument x0.2) i
      then let? p := Position.apply_split x0.2 ratio in Ok (x0.1, p) else Ok x0) = Ok x1 ->
    x1.1 = x0.1 /\ p_instrument x1.2 = p_instrument x0.2 /\ p_realized_pnl x1.2 = p_realized_pnl x0.2).
  { intros [k p] [k1 p1]. cbn. case_match; [|by intros [= <- <-]].
    destruct (Position.apply_split p ratio) eqn:Es; [|done]. intros [= <- <-].
    by destruct (split_position_kept _ _ _ Es). }
  split_and!.
  4: { intros key Hk. pose proof (map_res_bget _ _ _ key (fun x0 x1 He => proj1 (Hkey x0 x1 He)) E) as Hg.
    destruct (bget key (pf_positions pf)) as [p|] eqn:Hp; [|done].
    destruct Hg as (p' & Hf & ->). rewrite Forall_forall in Hc.
    apply bget_In, list_elem_of_In in Hp. specialize (Hc _ Hp). cbn in Hc, Hf. rewrite Hc in Hf.
    destruct (String.eqb_spec key.1 i); [done|]. by injection Hf as ->. }
  all: apply map_res_Forall2 in E; clear -E Hkey Hc;
    induction E as [|x0 x1 l l' He _ IH]; cbn; rewrite ?bsum_cons; try done;
    destruct (Hkey _ _ He) as (Hk & Hi & Hr); try (apply Forall_cons in Hc as [Hc0 Hc]);
    specialize (IH Hc).
  - unfold bkeys in *. cbn. congruence.
  - constructor; [congruence|done].
  - unfold derivative_pnl at 1 3. rewrite Hk, Hr.
    unfold bsum, zsum in *. cbn in *. lia.
Qed.

(** ** Preservation *)

Lemma fill_inv start e id terms ts e' f :
  Engine.book_fill_state cfg e id terms ts = Ok (e', f) -> money_inv start e -> money_inv start e'.
Proof.
  intros Hb [Hw Hco Hcol Hau Hre Hl].
  destruct (book_fill_money _ _ _ _ _ _ Hcol Hb) as (Hp & Hf & Hfu & Hd & Hcol' & Hcash).
  cbv zeta in Hcash. split; [by eapply portfolio_apply_bwf|by eapply portfolio_apply_coherent|done|..].
  - intros key Hk. destruct (Hau key Hk) as (pos & Hfold & Hget). unfold audited.
    rewrite Hf. unfold fills_of in *. rewrite List.filter_app. cbn [List.filter].
    destruct (portfolio_apply_get _ _ _ key Hp) as (_ & pos' & Happ & Hget').
    destruct (keqb key (f_instrument f, f_outcome f)) eqn:Ek.
    + apply keqb_eq in Ek as ->. exists pos'. rewrite foldr_res_app, Hfold. cbn [fst snd] in *.
      rewrite Hget in Happ. split.
      * assert (Hpos : default (Position.new (f_instrument f) (f_outcome f))
          match List.filter (fun g => keqb (f_instrument f, f_outcome f) (f_instrument g, f_outcome g))
              (e_fills e) with [] => None | _ => Some pos end = pos).
        { destruct (List.filter _ _); [by injection Hfold|done]. }
        rewrite Hpos in Happ. cbn. by rewrite Happ.
      * rewrite Hget'. by destruct (List.filter _ _).
    + exists pos. rewrite app_nil_r. split; [done|]. by rewrite Hget'.
  - intros Hno. rewrite Hf. unfold Portfolio.replay in *. rewrite foldr_res_app, Hre by done.
    cbn. by rewrite Hp.
  - pose proof (portfolio_apply_pnl _ _ _ Hw Hp) as Hpnl. cbv beta zeta in Hpnl, Hcash.
    rewrite Hcash, Hl, Hfu, Hd, Hf, flows_snoc, Hpnl. destruct (funded (f_instrument f)); lia.
Qed.

Lemma money_step_inv start e e' :
  money_step cfg split_ok e e' -> money_inv start e -> money_inv start e'.
Proof.
  intros [e1 e2 Hfr|e1 id terms ts e2 f Hb|e1 i rate e2 Hfu|e1 i per_share ts e2 Hd|e1 i ratio pf Hok Hs] Hi.
  - by eapply money_inv_frame.
  - by eapply fill_inv.
  - unfold Engine.apply_funding in Hfu. destruct (foldr_res _ _ _) as [total|]; [|done].
    case_match; [by injection Hfu as <-|].
    destruct (checked_add _ _ _) as [cash|] eqn:E1; [|done].
    destruct (checked_sub _ _ _) as [paid|] eqn:E2; [|done]. injection Hfu as <-.
    apply checked_add_Ok in E1 as [_ ->]. apply checked_sub_Ok in E2 as [_ ->].
    destruct Hi as [? ? ? ? ? Hl]. split; try done. unfold account_cash in *. cbn -[zsum bvalues flows bsum] in *. lia.
  - unfold Engine.apply_corporate_action in Hd. destruct (CorporateAction.validate _); [|done].
    destruct (Portfolio.dividend_due _ _ _) as [due|]; [|done].
    destruct (is_zero due); [injection Hd as <-; by eapply money_inv_frame; [|exact Hi]|].
    destruct (checked_add _ _ _) as [cash|] eqn:E1; [|done].
    destruct (checked_add "Money" (e_dividends_received e1) due) as [rec|] eqn:E2; [|done].
    injection Hd as <-.
    apply checked_add_Ok in E1 as [_ ->]. apply checked_add_Ok in E2 as [_ ->].
    destruct Hi as [? ? ? ? ? Hl]. split; try done. unfold account_cash in *. cbn -[zsum bvalues flows bsum] in *. lia.
  - destruct Hi as [Hw Hco Hcol Hau Hre Hl].
    destruct (portfolio_split _ _ _ _ Hco Hs) as (Hk & Hco' & Hsum & Hget).
    split; try done; cbn.
    + unfold bwf in *. cbn. by rewrite Hk.
    + intros key Hnk. destruct (Hau key Hnk) as (pos & ? & ?). exists pos. cbn.
      rewrite Hget by (intros Heq; apply Hnk; by rewrite Heq). done.
    + intros Hno. by destruct (Hno i).
    + rewrite Hsum. exact Hl.
Qed.

Lemma money_steps_inv start e e' :
  rtc (money_step cfg split_ok) e e' -> money_inv start e -> money_inv start e'.
Proof. induction 1; eauto using money_step_inv. Qed.

Lemma build_inv start fee exec :
  money_inv (starting_cash cfg) (EngineBuilder.build cfg start fee exec : Eng).
Proof.
  split; cbn; [apply bwf_nil|by constructor|apply bwf_nil|..].
  - intros key _. exists (Position.new key.1 key.2). done.
  - done.
  - unfold account_cash, flows. cbn. lia.
Qed.
End Ledger.

(** ** Theorems *)

Section Theorems.
Context {F FM L M X S : Type}.
Context `{FeeModel F} `{FillModel FM} `{LatencyModel L} `{MarginModel M} `{ExecutionClient X}.
Context `{Strategy S}.

Lemma run_inv (cfg : Config FM L M) start (fee : F) (exec : X) (s : S) replay result s' :
  Engine.run cfg (EngineBuilder.build cfg start fee exec) s replay = Ok (result, s') ->
  exists records, Replay.collect_all replay = Ok records /\
  money_inv cfg (fun i => exists r, In r records /\ is_split r = true /\ rec_instrument r = i)
    (starting_cash cfg) (Engine.rr_engine result).
Proof.
  intros Hr. destruct (run_money cfg (fun _ => True) _ _ _ _ _ Hr) as (records & Hcol & _).
  exists records. split; [done|].
  destruct (run_money cfg (fun i => exists r, In r records /\ is_split r = true /\ rec_instrument r = i)
    _ _ _ _ _ Hr) as (records' & Hcol' & Hsteps). rewrite Hcol in Hcol'. injection Hcol' as <-. eapply money_steps_inv; [|apply build_inv]. apply Hsteps.
  apply List.Forall_forall. eauto.
Qed.

(** C2 The cash ledger of every run balances to the last raw unit: whatever the models,
    the strategy and the data, the account's cash and posted collateral are the
    starting cash, plus what each fill of a funded instrument moved, plus the profit
    realised on derivatives, less the funding paid, plus the dividends received. *)
Theorem cash_ledger_balances (cfg : Config FM L M) start (fee : F) (exec : X) (s : S) replay
    result s' :
  Engine.run cfg (EngineBuilder.build cfg start fee exec) s replay = Ok (result, s') ->
  let e := Engine.rr_engine result in
  e_cash e + zsum (bvalues (e_isolated_collateral e)) =
  starting_cash cfg + flows cfg (e_fills e)
  + bsum (derivative_pnl cfg) (pf_positions (e_portfolio e))
  - e_funding_paid e + e_dividends_received e.
Proof. intros (records & _ & Hi)%run_inv. exact (mi_ledger _ _ _ _ Hi). Qed.

(** C4 The fills of a run explain its positions: the position of every market whose
    instrument was not split is the fold of that market's fills, there is none
    without fills, and with no split at all [Portfolio::replay] of the stored fills
    rebuilds the portfolio. *)
Theorem fills_explain_positions (cfg : Config FM L M) start (fee : F) (exec : X) (s : S) replay
    records result s' :
  Engine.run cfg (EngineBuilder.build cfg start fee exec) s replay = Ok (result, s') ->
  Replay.collect_all replay = Ok records ->
  let e := Engine.rr_engine result in
  let split i := exists r, In r records /\ is_split r = true /\ rec_instrument r = i in
  (forall key, ~ split key.1 ->
     match fills_of key (e_fills e) with
     | [] => Portfolio.position (e_portfolio e) key.1 key.2 = None
     | fs => exists pos, Portfolio.position (e_portfolio e) key.1 key.2 = Some pos /\
         foldr_res Position.apply (Position.new key.1 key.2) fs = Ok pos
     end) /\
  (existsb is_split records = false -> Portfolio.replay (e_fills e) = Ok (e_portfolio e)).
Proof.
  intros Hr Hcol. destruct (run_inv _ _ _ _ _ _ _ _ Hr) as (records' & Hcol' & Hi).
  rewrite Hcol in Hcol'. injection Hcol' as <-. split.
  - intros [i o] Hk. destruct (mi_audit _ _ _ _ Hi _ Hk) as (pos & Hf & Hg).
    unfold Portfolio.position. cbn in *. rewrite Hg. destruct (fills_of _ _); eauto.
  - intros Hno. apply (mi_replay _ _ _ _ Hi). intros i (r & Hin & Hs & _).
    assert (existsb is_split records = true) by (apply existsb_exists; eauto). congruence.
Qed.
End Theorems.

Lemma demo_run_ok : exists result s', demo_run = Ok (result, s').
Proof.
  assert (Hok : is_ok demo_run = true) by (vm_compute; reflexivity).
  revert Hok. destruct demo_run as [[result s']|]; [eauto | discriminate].
Qed.

Example cash_ledger_balances_witness :
  exists result s', demo_run = Ok (result, s') /\
    let e := Engine.rr_engine result in
    e_cash e + zsum (bvalues (e_isolated_collateral e)) = starting_cash demo_config + flows demo_config (e_fills e)
      + bsum (derivative_pnl demo_config) (pf_positions (e_portfolio e))
      - e_funding_paid e + e_dividends_received e.
Proof.
  destruct demo_run_ok as (result & s' & E). exists result, s'. split; [exact E|].
  exact (cash_ledger_balances demo_config 0 mkNoFees (SimulatedExecution.new "simulated")
    (signals demo_orders) (replay_of demo_records) result s' E).
Defined.

Example fills_explain_positions_witness :
  exists result s', demo_run = Ok (result, s') /\
    Replay.collect_all (replay_of demo_records) = Ok demo_records /\
    Portfolio.replay (e_fills (Engine.rr_engine result)) = Ok (e_portfolio (Engine.rr_engine result)).
Proof.
  destruct demo_run_ok as (result & s' & E). exists result, s'. split; [exact E|].
  assert (Hc : Replay.collect_all (replay_of demo_records) = Ok demo_records)
    by (vm_compute; reflexivity).
  split; [exact Hc|].
  apply (fills_explain_positions demo_config 0 mkNoFees (SimulatedExecution.new "simulated")
    (signals demo_orders) (replay_of demo_records) demo_records result s' E Hc).
  reflexivity.
Defined.
