(* ===== verification/StoreData.v ===== *)
(** * The objects of the storage engine

    The data types of [h5i-db-core]: what is serialised into the objects of a database
    ([manifest.rs], [spec.rs], [catalog.rs], [snapshot.rs], [retention.rs],
    [transaction.rs], [fork.rs], [fork_index.rs], [policy.rs], the staging lease of
    [segment.rs], the [FORMAT] file of [database.rs]) and the errors of [error.rs].

    An object of the store is the value its JSON encodes ([Obj]): reading parses it back,
    and an object that does not parse as what a reader expects is a [Raw] or another
    constructor.  The digest and the size of an encoding come from [blake3] and
    [serde_json] and are parameters ([Env]).  A [Uuid] is its hyphenated text; a path is
    the list of its parts, the form [object_store] gives it. *)
From S2P Require Export Types.
From Stdlib Require Export SpecFloat.

Abbreviation Uuid := string (only parsing).
Abbreviation Path := (list string) (only parsing).
Abbreviation Digest := string (only parsing).

(** ** Errors ([error.rs])

    The variants this part of the code constructs, with their fields; free-form details
    keep their leading words. *)
Inductive StoreError :=
| DatabaseNotFound (path : string)
| DatabaseExists (path : string)
| TableNotFound (name : string)
| TableExists (name : string)
| VersionNotFound (table requested hint : string)
| SnapshotNotFound (name : string)
| VersionConflict (table : string) (expected actual : Z)
| ForkNotFound (name : string)
| ForkExists (name : string)
| PromoteConflict (fork table : string) (base actual : Z) (compaction_note : string)
| SchemaMismatch (detail : string)
| SortOrderViolation (table detail : string)
| InvalidInput (detail : string)
| Unsupported (detail : string)
| ReadOnly (op : string)
| PolicyViolation (op : string)
| DataPolicyViolation (constraint : string) (violations : Z) (first_batch first_row : nat)
| Corruption (object : Path) (detail : string)
| FormatTooNew (found supported : Z)
| LimitExceeded (detail : string)
| LockTimeout (table : string)
| ObjectStore
| Arrow
| Parquet
| SerdeJson
| Internal (detail : string).
#[export] Instance StoreError_eq_dec : EqDecision StoreError.
Proof. solve_decision. Defined.

Abbreviation DbResult := (result StoreError) (only parsing).

(** ** JSON values kept opaque but for strings *)
Inductive Json := JString (s : string) | JOther (text : string).
#[export] Instance Json_eq_dec : EqDecision Json.
Proof. solve_decision. Defined.
Abbreviation JsonMap := (BTree string Json) (only parsing).

(** ** Schemas ([arrow::datatypes]) *)
Inductive DataType :=
| Int8 | Int16 | Int32 | Int64 | UInt8 | UInt16 | UInt32 | UInt64 | Float32 | Float64
| Timestamp (unit_zone : string) | Date32 | Date64
| Time32 (unit : string) | Time64 (unit : string) | Duration (unit : string)
| Utf8 | LargeUtf8 | Boolean | DictionaryUtf8 (key : string)
| Decimal128 (precision scale : Z) | OtherType (name : string).
#[export] Instance DataType_eq_dec : EqDecision DataType.
Proof. solve_decision. Defined.

Record Field := mkField { fd_name : string; fd_type : DataType; fd_nullable : bool }.
#[export] Instance Field_eq_dec : EqDecision Field.
Proof. solve_decision. Defined.
Abbreviation Schema := (list Field) (only parsing).

(** ** Manifests ([manifest.rs]) *)
Inductive OpKind :=
| OpCreate | OpWrite | OpAppend | OpReplaceRange | OpDeleteRange | OpRestore | OpCompact
| OpEvolveSchema | OpPromote.
#[export] Instance OpKind_eq_dec : EqDecision OpKind.
Proof. solve_decision. Defined.

Record ColumnStats := mkColumnStats {
  cs_min : option Json;
  cs_max : option Json;
  cs_null_count : Z;
  cs_distinct_values : option (list Json);
}.
#[export] Instance ColumnStats_eq_dec : EqDecision ColumnStats.
Proof. solve_decision. Defined.

Record SegmentMeta := mkSegmentMeta {
  sg_id : Uuid;
  sg_path : Path;
  sg_rows : Z;
  sg_bytes : Z;
  sg_checksum : Digest;
  sg_time_range : option (Z * Z);
  sg_sorted : bool;
  sg_schema_revision : Z;
  sg_created_by_sequence : Z;
  sg_columns : BTree string ColumnStats;
}.
#[export] Instance SegmentMeta_eq_dec : EqDecision SegmentMeta.
Proof. solve_decision. Defined.
#[export] Instance eta_SegmentMeta : Eta SegmentMeta := fun s =>
  mkSegmentMeta (sg_id s) (sg_path s) (sg_rows s) (sg_bytes s) (sg_checksum s) (sg_time_range s)
    (sg_sorted s) (sg_schema_revision s) (sg_created_by_sequence s) (sg_columns s).

Record VersionManifest := mkManifest {
  mf_format : Z;
  mf_table_id : Uuid;
  mf_sequence : Z;
  mf_parent : option Z;
  mf_parent_checksum : option Digest;
  mf_committed_at_ns : Z;
  mf_op : OpKind;
  mf_execution_mode : option string;
  mf_plan_hash : option Digest;
  mf_note : option string;
  mf_user_meta : JsonMap;
  mf_schema_revision : Z;
  mf_rows : Z;
  mf_bytes : Z;
  mf_time_range : option (Z * Z);
  mf_segments : list SegmentMeta;
}.
#[export] Instance VersionManifest_eq_dec : EqDecision VersionManifest.
Proof. solve_decision. Defined.
#[export] Instance eta_VersionManifest : Eta VersionManifest := fun m =>
  mkManifest (mf_format m) (mf_table_id m) (mf_sequence m) (mf_parent m) (mf_parent_checksum m)
    (mf_committed_at_ns m) (mf_op m) (mf_execution_mode m) (mf_plan_hash m) (mf_note m)
    (mf_user_meta m) (mf_schema_revision m) (mf_rows m) (mf_bytes m) (mf_time_range m)
    (mf_segments m).

Record Head := mkHead {
  hd_format : Z;
  hd_table_id : Uuid;
  hd_sequence : Z;
  hd_manifest_checksum : Digest;
}.
#[export] Instance Head_eq_dec : EqDecision Head.
Proof. solve_decision. Defined.

(** ** Table specifications ([spec.rs]) *)
Inductive Codec := Zstd | Lz4 | Snappy | Uncompressed.
#[export] Instance Codec_eq_dec : EqDecision Codec.
Proof. solve_decision. Defined.

Record StorageOptions := mkStorageOptions {
  so_target_segment_bytes : Z;
  so_target_row_group_bytes : Z;
  so_codec : Codec;
  so_bloom_filter_columns : list string;
}.
#[export] Instance StorageOptions_eq_dec : EqDecision StorageOptions.
Proof. solve_decision. Defined.

Record TableOptions := mkTableOptions {
  to_time_column : option string;
  to_sort_key : list string;
  to_storage : StorageOptions;
  to_max_segments_per_manifest : option Z;
}.

(** [schema_ipc_b64] is the schema it encodes. *)
Record TableSpec := mkTableSpec {
  ts_table_id : Uuid;
  ts_name : string;
  ts_schema_revision : Z;
  ts_schema : Schema;
  ts_time_column : option string;
  ts_sort_key : list string;
  ts_storage : StorageOptions;
  ts_max_segments_per_manifest : Z;
  ts_created_at_ns : Z;
  ts_checksum : Digest;
}.
#[export] Instance TableSpec_eq_dec : EqDecision TableSpec.
Proof. solve_decision. Defined.
#[export] Instance eta_TableSpec : Eta TableSpec := fun t =>
  mkTableSpec (ts_table_id t) (ts_name t) (ts_schema_revision t) (ts_schema t) (ts_time_column t)
    (ts_sort_key t) (ts_storage t) (ts_max_segments_per_manifest t) (ts_created_at_ns t)
    (ts_checksum t).

(** ** Catalog, snapshots, retention *)
Record CatalogEntry := mkCatalogEntry {
  ce_name : string;
  ce_table_id : Uuid;
  ce_created_at_ns : Z;
  ce_spec_revision : Z;
  ce_checksum : Digest;
}.
#[export] Instance CatalogEntry_eq_dec : EqDecision CatalogEntry.
Proof. solve_decision. Defined.
#[export] Instance eta_CatalogEntry : Eta CatalogEntry := fun c =>
  mkCatalogEntry (ce_name c) (ce_table_id c) (ce_created_at_ns c) (ce_spec_revision c)
    (ce_checksum c).

Record SnapshotEntry := mkSnapshotEntry {
  se_table_name : string;
  se_sequence : Z;
  se_manifest_checksum : Digest;
}.
#[export] Instance SnapshotEntry_eq_dec : EqDecision SnapshotEntry.
Proof. solve_decision. Defined.

Record Snapshot := mkSnapshot {
  sn_name : string;
  sn_created_at_ns : Z;
  sn_note : option string;
  sn_entries : BTree Uuid SnapshotEntry;
  sn_checksum : Digest;
}.
#[export] Instance Snapshot_eq_dec : EqDecision Snapshot.
Proof. solve_decision. Defined.
#[export] Instance eta_Snapshot : Eta Snapshot := fun s =>
  mkSnapshot (sn_name s) (sn_created_at_ns s) (sn_note s) (sn_entries s) (sn_checksum s).

Record RetentionFloor := mkRetentionFloor {
  rf_table_id : Uuid;
  rf_min_retained_sequence : Z;
  rf_set_at_ns : Z;
  rf_note : option string;
  rf_checksum : Digest;
}.
#[export] Instance RetentionFloor_eq_dec : EqDecision RetentionFloor.
Proof. solve_decision. Defined.
#[export] Instance eta_RetentionFloor : Eta RetentionFloor := fun r =>
  mkRetentionFloor (rf_table_id r) (rf_min_retained_sequence r) (rf_set_at_ns r) (rf_note r)
    (rf_checksum r).

(** ** Forks ([fork.rs], [fork_index.rs]) *)
Record ForkPin := mkForkPin {
  fp_table_name : string;
  fp_sequence : Z;
  fp_manifest_checksum : Digest;
  fp_spec_revision : option Z;
  fp_created_at_ns : option Z;
}.
#[export] Instance ForkPin_eq_dec : EqDecision ForkPin.
Proof. solve_decision. Defined.

Record Fork := mkFork {
  fk_name : string;
  fk_created_at_ns : Z;
  fk_note : option string;
  fk_as_of_ns : option Z;
  fk_parent : option string;
  fk_depth : option Z;
  fk_pins : BTree Uuid ForkPin;
  fk_user_meta : JsonMap;
  fk_checksum : Digest;
}.
#[export] Instance Fork_eq_dec : EqDecision Fork.
Proof. solve_decision. Defined.
#[export] Instance eta_Fork : Eta Fork := fun f =>
  mkFork (fk_name f) (fk_created_at_ns f) (fk_note f) (fk_as_of_ns f) (fk_parent f) (fk_depth f)
    (fk_pins f) (fk_user_meta f) (fk_checksum f).

Record ForkOrigin := mkForkOrigin {
  fo_base_table_id : Uuid;
  fo_base_sequence : Z;
  fo_base_manifest_checksum : Digest;
}.
#[export] Instance ForkOrigin_eq_dec : EqDecision ForkOrigin.
Proof. solve_decision. Defined.

Record ForkTableEntry := mkForkTableEntry {
  fe_name : string;
  fe_table_id : Uuid;
  fe_created_at_ns : Z;
  fe_spec_revision : Z;
  fe_origin : option ForkOrigin;
  fe_checksum : Digest;
}.
#[export] Instance ForkTableEntry_eq_dec : EqDecision ForkTableEntry.
Proof. solve_decision. Defined.
#[export] Instance eta_ForkTableEntry : Eta ForkTableEntry := fun f =>
  mkForkTableEntry (fe_name f) (fe_table_id f) (fe_created_at_ns f) (fe_spec_revision f)
    (fe_origin f) (fe_checksum f).

Record IndexedTable := mkIndexedTable { it_table_id : Uuid; it_object_size : Z }.
#[export] Instance IndexedTable_eq_dec : EqDecision IndexedTable.
Proof. solve_decision. Defined.

Record IndexedFork := mkIndexedFork {
  xf_object_size : Z;
  xf_pins : BTree Uuid Z;
  xf_owned : BTree string IndexedTable;
}.
#[export] Instance IndexedFork_eq_dec : EqDecision IndexedFork.
Proof. solve_decision. Defined.
#[export] Instance eta_IndexedFork : Eta IndexedFork := fun f =>
  mkIndexedFork (xf_object_size f) (xf_pins f) (xf_owned f).

Record ForkIndex := mkForkIndex {
  xi_built_at_ns : Z;
  xi_forks : BTree string IndexedFork;
  xi_checksum : Digest;
}.
#[export] Instance ForkIndex_eq_dec : EqDecision ForkIndex.
Proof. solve_decision. Defined.
#[export] Instance eta_ForkIndex : Eta ForkIndex := fun x =>
  mkForkIndex (xi_built_at_ns x) (xi_forks x) (xi_checksum x).

(** ** Policies, leases, journals, FORMAT *)
Record MutationPolicy := mkMutationPolicy {
  mp_direct_append : bool;
  mp_direct_write : bool;
  mp_direct_replace : bool;
  mp_direct_delete : bool;
  mp_direct_restore : bool;
  mp_direct_compact : bool;
}.
#[export] Instance MutationPolicy_eq_dec : EqDecision MutationPolicy.
Proof. solve_decision. Defined.
#[export] Instance eta_MutationPolicy : Eta MutationPolicy := fun p =>
  mkMutationPolicy (mp_direct_append p) (mp_direct_write p) (mp_direct_replace p)
    (mp_direct_delete p) (mp_direct_restore p) (mp_direct_compact p).

Record StagingLeaseFile := mkStagingLease {
  sl_writer_id : Uuid;
  sl_created_at_ns : Z;
  sl_expires_at_ns : Z;
  sl_segment_paths : list Path;
}.
#[export] Instance StagingLeaseFile_eq_dec : EqDecision StagingLeaseFile.
Proof. solve_decision. Defined.

Record PlanSummary := mkPlanSummary {
  ps_rows_before : Z;
  ps_rows_after : Z;
  ps_rows_affected : Z;
  ps_segments_reused : Z;
  ps_segments_added : Z;
  ps_added_bytes : Z;
  ps_affected_time_range : option (Z * Z);
}.
#[export] Instance PlanSummary_eq_dec : EqDecision PlanSummary.
Proof. solve_decision. Defined.

(** The samples are the base64 they are stored as. *)
Record MutationPlan := mkMutationPlan {
  pl_plan_id : Uuid;
  pl_created_at_ns : Z;
  pl_expires_at_ns : Z;
  pl_table : string;
  pl_table_id : Uuid;
  pl_base_version : Z;
  pl_base_manifest_checksum : Digest;
  pl_op : OpKind;
  pl_note : option string;
  pl_user_meta : JsonMap;
  pl_schema_revision : Z;
  pl_segments : list SegmentMeta;
  pl_summary : PlanSummary;
  pl_before_sample : option string;
  pl_after_sample : option string;
  pl_checksum : Digest;
}.
#[export] Instance MutationPlan_eq_dec : EqDecision MutationPlan.
Proof. solve_decision. Defined.
#[export] Instance eta_MutationPlan : Eta MutationPlan := fun p =>
  mkMutationPlan (pl_plan_id p) (pl_created_at_ns p) (pl_expires_at_ns p) (pl_table p)
    (pl_table_id p) (pl_base_version p) (pl_base_manifest_checksum p) (pl_op p) (pl_note p)
    (pl_user_meta p) (pl_schema_revision p) (pl_segments p) (pl_summary p) (pl_before_sample p)
    (pl_after_sample p) (pl_checksum p).

Record TxnEntry := mkTxnEntry {
  te_table_id : Uuid;
  te_table_name : string;
  te_base_sequence : Z;
  te_new_head : Head;
}.
#[export] Instance TxnEntry_eq_dec : EqDecision TxnEntry.
Proof. solve_decision. Defined.

Record TxnJournal := mkTxnJournal {
  tj_txn_id : Uuid;
  tj_created_at_ns : Z;
  tj_entries : list TxnEntry;
  tj_checksum : Digest;
}.
#[export] Instance TxnJournal_eq_dec : EqDecision TxnJournal.
Proof. solve_decision. Defined.
#[export] Instance eta_TxnJournal : Eta TxnJournal := fun j =>
  mkTxnJournal (tj_txn_id j) (tj_created_at_ns j) (tj_entries j) (tj_checksum j).

Record FormatFile := mkFormatFile {
  ff_format_version : Z;
  ff_min_reader_version : Z;
  ff_created_at_ns : Z;
  ff_created_by : string;
}.
#[export] Instance FormatFile_eq_dec : EqDecision FormatFile.
Proof. solve_decision. Defined.
#[export] Instance eta_FormatFile : Eta FormatFile := fun f =>
  mkFormatFile (ff_format_version f) (ff_min_reader_version f) (ff_created_at_ns f)
    (ff_created_by f).

(** ** Data policies ([data_policy.rs])

    An [f64] is a binary64 number of the Standard Library's specification. *)
Abbreviation f64 := spec_float (only parsing).
#[export] Instance spec_float_eq_dec : EqDecision spec_float.
Proof. solve_decision. Defined.

Inductive ScalarLit := LInt (z : Z) | LFloat (x : f64) | LStr (s : string) | LBool (b : bool).
#[export] Instance ScalarLit_eq_dec : EqDecision ScalarLit.
Proof. solve_decision. Defined.
Inductive CmpOp := CmpEq | CmpNe | CmpLt | CmpLe | CmpGt | CmpGe.
#[export] Instance CmpOp_eq_dec : EqDecision CmpOp.
Proof. solve_decision. Defined.
Inductive Predicate :=
| NotNull (column : string)
| Compare (column : string) (op : CmpOp) (value : ScalarLit)
| InSet (column : string) (values : list ScalarLit)
| PAnd (a b : Predicate)
| POr (a b : Predicate)
| PNot (a : Predicate).
#[export] Instance Predicate_eq_dec : EqDecision Predicate.
Proof. solve_decision. Defined.
Inductive OnFail := Reject | Warn.
#[export] Instance OnFail_eq_dec : EqDecision OnFail.
Proof. solve_decision. Defined.
Record Constraint := mkConstraint { cn_name : string; cn_predicate : Predicate; cn_on_fail : OnFail }.
#[export] Instance Constraint_eq_dec : EqDecision Constraint.
Proof. solve_decision. Defined.
Record DataPolicy := mkDataPolicy { dp_format : Z; dp_constraints : list Constraint }.
#[export] Instance DataPolicy_eq_dec : EqDecision DataPolicy.
Proof. solve_decision. Defined.

(** ** What an object holds *)
Inductive Obj :=
| OFormat (f : FormatFile)
| OCatalog (e : CatalogEntry)
| OSpec (s : TableSpec)
| OManifest (m : VersionManifest)
| OHead (h : Head)
| OSegment (content : string)
| OLease (l : StagingLeaseFile)
| OPlan (p : MutationPlan)
| OSnapshot (s : Snapshot)
| ORetention (r : RetentionFloor)
| OFork (f : Fork)
| OForkEntry (e : ForkTableEntry)
| OForkIndex (x : ForkIndex)
| OPolicy (p : MutationPolicy)
| ODataPolicy (p : DataPolicy)
| OJournal (j : TxnJournal)
| ORaw (bytes : string).
#[export] Instance Obj_eq_dec : EqDecision Obj.
Proof. solve_decision. Defined.

(** ** What the storage engine takes from elsewhere

    [checksum_hex] is [blake3] of the encoding, [object_size] its length; [hash_name]
    is [blake3] of a name; [new_uuid] the stream of [Uuid::new_v4]; [wall] the readings
    of the wall clock in nanoseconds. *)
Class Env := {
  checksum_hex : Obj -> Digest;
  object_size : Obj -> Z;
  hash_name : string -> string;
  new_uuid : nat -> Uuid;
  is_uuid : string -> bool;
  wall : nat -> Z;
}.

(** A value with a checksum field over its own encoding: the pattern of every metadata
    object ([compute_checksum], [seal], [verify]). *)
Class Sealed (A : Type) := {
  to_obj : A -> Obj;
  get_checksum : A -> Digest;
  set_checksum : Digest -> A -> A;
}.

Section Seal.
Context `{Env} {A : Type} `{Sealed A}.
Definition compute_checksum (a : A) : Digest := checksum_hex (to_obj (set_checksum "" a)).
Definition seal (a : A) : A := set_checksum (compute_checksum a) a.
Definition verify (object : Path) (detail : string) (a : A) : DbResult unit :=
  if bool_decide (get_checksum a = compute_checksum a) then Ok tt
  else Err (Corruption object detail).
End Seal.

#[export] Instance sealed_CatalogEntry : Sealed CatalogEntry :=
  {| to_obj := OCatalog; get_checksum := ce_checksum; set_checksum c x := x <| ce_checksum := c |> |}.
#[export] Instance sealed_TableSpec : Sealed TableSpec :=
  {| to_obj := OSpec; get_checksum := ts_checksum; set_checksum c x := x <| ts_checksum := c |> |}.
#[export] Instance sealed_Snapshot : Sealed Snapshot :=
  {| to_obj := OSnapshot; get_checksum := sn_checksum; set_checksum c x := x <| sn_checksum := c |> |}.
#[export] Instance sealed_RetentionFloor : Sealed RetentionFloor :=
  {| to_obj := ORetention; get_checksum := rf_checksum; set_checksum c x := x <| rf_checksum := c |> |}.
#[export] Instance sealed_Fork : Sealed Fork :=
  {| to_obj := OFork; get_checksum := fk_checksum; set_checksum c x := x <| fk_checksum := c |> |}.
#[export] Instance sealed_ForkTableEntry : Sealed ForkTableEntry :=
  {| to_obj := OForkEntry; get_checksum := fe_checksum; set_checksum c x := x <| fe_checksum := c |> |}.
#[export] Instance sealed_ForkIndex : Sealed ForkIndex :=
  {| to_obj := OForkIndex; get_checksum := xi_checksum; set_checksum c x := x <| xi_checksum := c |> |}.
#[export] Instance sealed_MutationPlan : Sealed MutationPlan :=
  {| to_obj := OPlan; get_checksum := pl_checksum; set_checksum c x := x <| pl_checksum := c |> |}.
#[export] Instance sealed_TxnJournal : Sealed TxnJournal :=
  {| to_obj := OJournal; get_checksum := tj_checksum; set_checksum c x := x <| tj_checksum := c |> |}.

(** A sealed value verifies: writing the checksum does not change what it covers. *)
Class SealedLaws (A : Type) `{Sealed A} := {
  set_set_checksum : forall c d (a : A), set_checksum c (set_checksum d a) = set_checksum c a;
  get_set_checksum : forall c (a : A), get_checksum (set_checksum c a) = c;
}.
Ltac sealed_laws := constructor; [by intros ? ? []|by intros ? []].
#[export] Instance laws_CatalogEntry : SealedLaws CatalogEntry.
Proof. sealed_laws. Qed.
#[export] Instance laws_TableSpec : SealedLaws TableSpec.
Proof. sealed_laws. Qed.
#[export] Instance laws_Snapshot : SealedLaws Snapshot.
Proof. sealed_laws. Qed.
#[export] Instance laws_RetentionFloor : SealedLaws RetentionFloor.
Proof. sealed_laws. Qed.
#[export] Instance laws_Fork : SealedLaws Fork.
Proof. sealed_laws. Qed.
#[export] Instance laws_ForkTableEntry : SealedLaws ForkTableEntry.
Proof. sealed_laws. Qed.
#[export] Instance laws_ForkIndex : SealedLaws ForkIndex.
Proof. sealed_laws. Qed.
#[export] Instance laws_MutationPlan : SealedLaws MutationPlan.
Proof. sealed_laws. Qed.
#[export] Instance laws_TxnJournal : SealedLaws TxnJournal.
Proof. sealed_laws. Qed.

Lemma compute_checksum_set `{Env} {A} `{SealedLaws A} c (a : A) :
  compute_checksum (set_checksum c a) = compute_checksum a.
Proof. unfold compute_checksum. by rewrite set_set_checksum. Qed.

Lemma verify_seal `{Env} {A} `{SealedLaws A} object detail (a : A) :
  verify object detail (seal a) = Ok tt.
Proof.
  unfold verify, seal. rewrite compute_checksum_set, get_set_checksum.
  by rewrite bool_decide_true.
Qed.
