(* ===== verification/Float64.v ===== *)
(** * Binary64 numbers

    The Rust [f64] is a binary64 number of the Standard Library's specification
    ([SpecFloat]).  The casts from and to integers and [f64::round], how far a rounded
    quotient or product of 53-bit numbers is from the exact one, sums of integers that are
    exact, and the order of finite numbers behind [f64::max] and [f64::min]. *)
From S2P Require Export StoreData.
#[local] Open Scope Z_scope.

(** [x.round() as i128]: halves away from zero, the cast saturates, NaN is zero. *)
Definition round_magnitude (m : positive) (e : Z) : Z :=
  if 0 <=? e then Z.pos m * 2 ^ e else (Z.pos m + 2 ^ (- e - 1)) / 2 ^ (- e).
Definition saturate128 (z : Z) : Z := Z.max (- 2 ^ 127) (Z.min (2 ^ 127 - 1) z).
Definition round_as_i128 (x : f64) : Z :=
  match x with
  | S754_finite s m e => saturate128 (if s then - round_magnitude m e else round_magnitude m e)
  | S754_infinity s => if s then - 2 ^ 127 else 2 ^ 127 - 1
  | S754_zero _ | S754_nan => 0
  end.
(** [as f64]: the nearest binary64, ties to even. *)
Definition f64_of_int (z : Z) : f64 := binary_normalize 53 1024 z 0 false.
Definition is_finite (x : f64) : bool := match x with S754_zero _ | S754_finite _ _ _ => true | _ => false end.
Definition fdiv (x y : f64) : f64 := SFdiv 53 1024 x y.
Definition fmul (x y : f64) : f64 := SFmul 53 1024 x y.
Definition fadd (x y : f64) : f64 := SFadd 53 1024 x y.
Definition fsub (x y : f64) : f64 := SFsub 53 1024 x y.
(** [f64::max] and [f64::min]: a NaN gives way to the other number.  Of equal numbers, which
    are the same number or zeros of either sign, the first. *)
Definition is_nan (x : f64) : bool := match x with S754_nan => true | _ => false end.
Definition fmax (x y : f64) : f64 := if is_nan x || SFltb x y then y else x.
Definition fmin (x y : f64) : f64 := if is_nan x || SFltb y x then y else x.
(** [as i64]: towards zero, the cast saturates, NaN is zero. *)
Definition truncated (m : positive) (e : Z) : Z := if 0 <=? e then Z.pos m * 2 ^ e else Z.pos m / 2 ^ (- e).
Definition f64_as_i64 (x : f64) : Z :=
  match x with
  | S754_finite s m e => sat64 (if s then - truncated m e else truncated m e)
  | S754_infinity s => if s then i64_min else i64_max
  | S754_zero _ | S754_nan => 0
  end.

(** ** Shifting right with a guard and a sticky bit *)

(** [N / D] is the number whose integer part the record holds. *)
Definition located (N D : Z) (mrs : shr_record) : Prop :=
  0 < D /\ 0 <= shr_m mrs /\
  let R := N - shr_m mrs * D in
  match shr_r mrs, shr_s mrs with
  | false, false => R = 0
  | false, true => 0 < 2 * R < D
  | true, false => 2 * R = D
  | true, true => D < 2 * R < 2 * D
  end.

Lemma located_exact m : 0 <= m -> located m 1 (Build_shr_record m false false).
Proof. unfold located. cbn. lia. Qed.

Lemma located_shr_1 N D mrs : located N D mrs -> located N (2 * D) (shr_1 mrs).
Proof.
  destruct mrs as [m r s]. unfold located. cbn [shr_m shr_r shr_s]. intros (HD & Hm & HR).
  destruct m as [|[p|p|]|p]; [..|lia]; cbn; (split; [lia|]); (split; [lia|]); destruct r, s; cbn; lia.
Qed.

Lemma shr_1_m mrs : 0 <= shr_m mrs -> shr_m (shr_1 mrs) = shr_m mrs / 2.
Proof.
  destruct mrs as [m r s]. cbn. destruct m as [|[p|p|]|p]; [done|..|lia]; intros _; cbn; [|..|done].
  - rewrite Pos2Z.inj_xI. apply Z.div_unique with 1; lia.
  - rewrite (Pos2Z.inj_xO p). apply Z.div_unique with 0; lia.
Qed.

Lemma located_iter p N D mrs : located N D mrs ->
  located N (2 ^ Z.pos p * D) (iter_pos shr_1 p mrs) /\
  shr_m (iter_pos shr_1 p mrs) = shr_m mrs / 2 ^ Z.pos p.
Proof.
  revert D mrs. induction p as [p IH|p IH|]; intros D mrs Hl; cbn [iter_pos].
  - destruct (IH _ _ (located_shr_1 _ _ _ Hl)) as [H1 E1]. destruct (IH _ _ H1) as [H2 E2].
    rewrite Pos2Z.inj_xI. replace (2 * Z.pos p + 1) with (Z.pos p + (Z.pos p + 1)) by lia. rewrite !Z.pow_add_r by lia.
    split; [replace (2 ^ Z.pos p * (2 ^ Z.pos p * 2 ^ 1) * D) with (2 ^ Z.pos p * (2 ^ Z.pos p * (2 * D))) by lia; done|].
    rewrite E2, E1, shr_1_m by apply Hl. rewrite !Z.div_div by lia. f_equal. lia.
  - destruct (IH _ _ Hl) as [H1 E1]. destruct (IH _ _ H1) as [H2 E2].
    rewrite (Pos2Z.inj_xO p). replace (2 * Z.pos p) with (Z.pos p + Z.pos p) by lia. rewrite !Z.pow_add_r by lia.
    split; [by rewrite <- Z.mul_assoc|]. rewrite E2, E1, Z.div_div by lia. done.
  - split; [by apply located_shr_1|]. apply shr_1_m, Hl.
Qed.

Lemma located_loc mrs : shr_record_of_loc (shr_m mrs) (loc_of_shr_record mrs) = mrs.
Proof. by destruct mrs as [m [] []]. Qed.

(** Round to nearest, ties to even. *)
Lemma located_rounds N D mrs : located N D mrs ->
  let m := round_nearest_even (shr_m mrs) (loc_of_shr_record mrs) in
  shr_m mrs <= m <= shr_m mrs + 1 /\ 2 * Z.abs (N - m * D) <= D.
Proof.
  destruct mrs as [m r s]. unfold located. cbn [shr_m shr_r shr_s]. intros (HD & Hm & HR).
  destruct r, s; cbn; [| |lia|lia]; [lia|]. destruct (Z.even m); lia.
Qed.

Lemma digits_log2 p : Z.pos (digits2_pos p) = Z.log2 (Z.pos p) + 1.
Proof.
  induction p as [p IH|p IH|]; cbn [digits2_pos]; [..|done]; rewrite Pos2Z.inj_succ, IH.
  - rewrite Pos2Z.inj_xI, Z.log2_succ_double by lia. lia.
  - rewrite (Pos2Z.inj_xO p), Z.log2_double by lia. lia.
Qed.
Lemma Zdigits_log2 m : 0 < m -> Zdigits2 m = Z.log2 m + 1.
Proof. destruct m as [|p|p]; [lia| |lia]. intros _. apply digits_log2. Qed.

(** ** A rounded result *)
Section Rounded.
Context (prec_53 := 53) (emax_64 := 1024).

Lemma shr_fexp_spec N D mx ex lx : located N D (shr_record_of_loc mx lx) -> 2 ^ 52 <= mx -> -1074 <= ex ->
  let k := Z.log2 mx - 52 in
  exists mrs, shr_fexp 53 1024 mx ex lx = (mrs, ex + k) /\ located N (2 ^ k * D) mrs /\ shr_m mrs = mx / 2 ^ k.
Proof.
  intros Hl Hm He k. assert (Hlog : 52 <= Z.log2 mx) by (apply Z.log2_le_pow2; lia).
  unfold shr_fexp, fexp, emin. rewrite Zdigits_log2 by lia.
  replace (Z.max _ _ - ex) with k by (unfold k; lia). destruct k as [|p|p] eqn:Ek; [..|lia].
  - exists (shr_record_of_loc mx lx). cbn [shr]. rewrite Z.add_0_r, Z.pow_0_r, Z.mul_1_l, Z.div_1_r. split; [done|]. split; [done|].
    by destruct lx as [|[]].
  - cbn [shr]. destruct (located_iter p N D _ Hl) as [Hi Em]. eexists. split; [done|]. split; [done|]. rewrite Em. by destruct lx as [|[]].
Qed.

(** The result is [M * 2 ^ (ex + k)] with [M] the nearest integer to [N / D / 2 ^ k]. *)
Definition rounded (N D ex k : Z) (s : bool) (x : f64) : Prop :=
  exists M m j, x = S754_finite s m (ex + k + j) /\ 0 <= j <= 1 /\ M = Z.pos m * 2 ^ j /\ (j = 1 <-> M = 2 ^ 53) /\
    2 ^ 52 <= M <= 2 ^ 53 /\ 2 * Z.abs (N - M * (2 ^ k * D)) <= 2 ^ k * D.

Lemma binary_round_aux_spec s N D mx ex lx : located N D (shr_record_of_loc mx lx) -> 2 ^ 52 <= mx -> -1074 <= ex ->
  let k := Z.log2 mx - 52 in ex + k <= 970 ->
  rounded N D ex k s (binary_round_aux 53 1024 s mx ex lx).
Proof.
  intros Hl Hm He k Hk. destruct (shr_fexp_spec N D mx ex lx Hl Hm He) as (mrs & E1 & Hl1 & Em). fold k in E1, Hl1, Em.
  assert (Hk0 : 0 <= k) by (unfold k; assert (52 <= Z.log2 mx) by (apply Z.log2_le_pow2; lia); lia).
  unfold binary_round_aux. rewrite E1. destruct (located_rounds _ _ _ Hl1) as [HM Herr].
  set (M := round_nearest_even (shr_m mrs) (loc_of_shr_record mrs)) in *.
  assert (Hmm : 2 ^ 52 <= shr_m mrs < 2 ^ 53).
  { rewrite Em. destruct (Z.log2_spec mx ltac:(lia)) as [Ha Hb]. replace (Z.log2 mx) with (52 + k) in * by (unfold k; lia).
    rewrite Z.pow_add_r in Ha by lia. replace (Z.succ (52 + k)) with (53 + k) in Hb by lia. rewrite Z.pow_add_r in Hb by lia.
    split; [apply Z.div_le_lower_bound; lia|apply Z.div_lt_upper_bound; lia]. }
  assert (HMp : 2 ^ 52 <= M <= 2 ^ 53) by lia.
  destruct (shr_fexp_spec M 1 M (ex + k) loc_Exact (located_exact M ltac:(lia)) ltac:(lia) ltac:(lia)) as (mrs2 & E2 & Hl2 & Em2).
  rewrite E2. destruct (decide (M = 2 ^ 53)) as [HM53|HM53].
  - rewrite HM53 in *. change (Z.log2 (2 ^ 53) - 52) with 1 in *. rewrite Em2. change (2 ^ 53 / 2 ^ 1) with (Z.pos 4503599627370496).
    destruct (Z.leb_spec (ex + k + 1) (1024 - 53)); [|lia]. exists (2 ^ 53), 4503599627370496%positive, 1. repeat (split; [try done; lia|]). lia.
  - assert (Z.log2 M - 52 = 0) as E0. { assert (Z.log2 M < 53) by (apply Z.log2_lt_pow2; lia). assert (52 <= Z.log2 M) by (apply Z.log2_le_pow2; lia). lia. }
    rewrite E0 in *. rewrite Em2, Z.pow_0_r, Z.div_1_r. destruct M as [|m|m] eqn:EM; [lia| |lia].
    destruct (Z.leb_spec (ex + k + 0) (1024 - 53)); [|lia]. exists (Z.pos m), m, 0. repeat (split; [try done; lia|]). lia.
Qed.
End Rounded.

(** ** Integers of 53 bits are exact *)
Lemma pos_iter_xO m d : Z.pos (Pos.iter xO m d) = Z.pos m * 2 ^ Z.pos d.
Proof.
  revert d. apply Pos.peano_ind.
  - change (Pos.iter xO m 1) with (xO m). rewrite (Pos2Z.inj_xO m). lia.
  - intros d IH. rewrite Pos.iter_succ, (Pos2Z.inj_xO (Pos.iter _ _ _)), IH, Pos2Z.inj_succ, Z.pow_succ_r by lia. lia.
Qed.

Lemma f64_of_pos p : Z.log2 (Z.pos p) <= 52 ->
  exists m, f64_of_int (Z.pos p) = S754_finite false m (Z.log2 (Z.pos p) - 52) /\
    f64_of_int (Z.neg p) = S754_finite true m (Z.log2 (Z.pos p) - 52) /\
    Z.pos m = Z.pos p * 2 ^ (52 - Z.log2 (Z.pos p)).
Proof.
  intros HL. set (L := Z.log2 (Z.pos p)) in *. assert (HL0 : 0 <= L) by apply Z.log2_nonneg.
  assert (Ha : exists mz, shl_align p 0 (fexp 53 1024 (Z.pos (digits2_pos p) + 0)) = (mz, L - 52) /\ Z.pos mz = Z.pos p * 2 ^ (52 - L)).
  { rewrite digits_log2. fold L. unfold fexp, emin, shl_align. replace (Z.max _ _ - 0) with (L - 52) by lia.
    destruct (L - 52) as [|d|d] eqn:E; [..|].
    - exists p. replace (52 - L) with 0 by lia. split; [done|lia].
    - lia.
    - exists (Pos.iter xO p d). split; [f_equal; lia|]. rewrite pos_iter_xO. by replace (52 - L) with (Z.pos d) by lia. }
  destruct Ha as (mz & Ea & Em). exists mz.
  assert (Hmz : Z.log2 (Z.pos mz) = 52).
  { rewrite Em, Z.log2_mul_pow2 by lia. fold L. lia. }
  assert (H52 : 2 ^ 52 <= Z.pos mz) by (apply Z.log2_le_pow2; lia).
  assert (H53 : Z.pos mz < 2 ^ 53) by (apply Z.log2_lt_pow2; lia).
  assert (Hr : forall s, binary_round_aux 53 1024 s (Z.pos mz) (L - 52) loc_Exact = S754_finite s mz (L - 52)).
  { intros s. destruct (binary_round_aux_spec s (Z.pos mz) 1 (Z.pos mz) (L - 52) loc_Exact (located_exact (Z.pos mz) ltac:(lia)) H52 ltac:(lia))
      as (M & m & j & -> & Hj & HM & Hj1 & _ & Herr); [rewrite Hmz; lia|]. rewrite Hmz in *. change (52 - 52) with 0 in *. rewrite Z.pow_0_r in Herr.
    assert (M = Z.pos mz) as -> by lia. assert (j = 0) as -> by lia. rewrite Z.pow_0_r, Z.mul_1_r in HM. injection HM as ->.
    f_equal. lia. }
  unfold f64_of_int, binary_normalize, binary_round. rewrite Ea. by rewrite !Hr.
Qed.

(** A mantissa of 53 bits, written with zeros behind it, comes out as it is. *)
Lemma round_exact s m t e : 2 ^ 52 <= Z.pos m < 2 ^ 53 -> 0 <= t -> -1074 <= e - t -> e <= 970 ->
  binary_round_aux 53 1024 s (Z.pos m * 2 ^ t) (e - t) loc_Exact = S754_finite s m e.
Proof.
  intros Hm Ht He1 He2. assert (Hp : 0 < 2 ^ t) by lia.
  assert (Hl : Z.log2 (Z.pos m) = 52) by (apply Z.log2_unique; [done|]; by change (52 + 1) with 53).
  destruct (binary_round_aux_spec s (Z.pos m * 2 ^ t) 1 (Z.pos m * 2 ^ t) (e - t) loc_Exact) as (M & m' & j & -> & Hj & HM & Hj1 & _ & Herr);
    [apply located_exact; nia|nia|done|rewrite Z.log2_mul_pow2 by lia; lia|].
  rewrite Z.log2_mul_pow2, Hl in * by lia. replace (t + 52 - 52) with t in * by lia.
  assert (M = Z.pos m) as -> by nia. assert (j = 0) as -> by lia. rewrite Z.pow_0_r, Z.mul_1_r in HM. injection HM as ->.
  f_equal. lia.
Qed.

Lemma shl_align_spec m e e' : exists m' t, shl_align m e e' = (m', e - t) /\ 0 <= t /\
  Z.pos m' = Z.pos m * 2 ^ t /\ (e - t = e' \/ t = 0 /\ e <= e').
Proof.
  unfold shl_align. destruct (e' - e) as [|d|d] eqn:E.
  - exists m, 0. rewrite Z.sub_0_r. repeat split; lia.
  - exists m, 0. rewrite Z.sub_0_r. repeat split; lia.
  - exists (Pos.iter xO m d), (Z.pos d). rewrite pos_iter_xO. split; [f_equal; lia|]. split; [lia|]. split; [done|left; lia].
Qed.

Lemma round_of_int s m d p : 0 <= d <= 52 -> Z.pos m = Z.pos p * 2 ^ d -> Z.log2 (Z.pos p) <= 52 ->
  forall c, Z.pos c = Z.pos p * 2 ^ (52 - Z.log2 (Z.pos p)) ->
  binary_round 53 1024 s m (- d) = S754_finite s c (Z.log2 (Z.pos p) - 52).
Proof.
  intros Hd Hm HL c Hc. set (L := Z.log2 (Z.pos p)) in *. assert (HL0 : 0 <= L) by apply Z.log2_nonneg.
  unfold binary_round. rewrite digits_log2, Hm, Z.log2_mul_pow2 by lia. fold L.
  unfold fexp, emin. replace (Z.max _ _) with (L - 52) by lia.
  destruct (shl_align_spec m (- d) (L - 52)) as (m' & t & -> & Ht & E & Hx).
  set (u := L - 52 + d + t). assert (Hu : 0 <= u) by (unfold u; lia).
  assert (E2 : Z.pos m' = Z.pos c * 2 ^ u).
  { rewrite E, Hm, Hc, <- !Z.mul_assoc, <- !Z.pow_add_r by (unfold u; lia). f_equal. f_equal. unfold u. lia. }
  rewrite E2. replace (- d - t) with (L - 52 - u) by (unfold u; lia).
  apply round_exact; [|done|unfold u; lia|lia].
  assert (Hlc : Z.log2 (Z.pos c) = 52) by (rewrite Hc, Z.log2_mul_pow2 by lia; fold L; lia).
  split; [apply Z.log2_le_pow2; lia|apply Z.log2_lt_pow2; lia].
Qed.

(** A sum of integers on a binary scale is that of the integers, when 53 bits hold it. *)
Lemma normalize_int z d : 0 <= d <= 52 -> Z.abs z < 2 ^ 53 -> binary_normalize 53 1024 (z * 2 ^ d) (- d) false = f64_of_int z.
Proof.
  intros Hd Hz. assert (Hp : 0 < 2 ^ d) by lia.
  destruct z as [|p|p]; [done|..].
  all: assert (HL : Z.log2 (Z.pos p) <= 52) by (assert (Z.log2 (Z.pos p) < 53) by (apply Z.log2_lt_pow2; lia); lia).
  all: destruct (f64_of_pos p HL) as (c & Ec & En & Hc).
  - rewrite Ec. destruct (Z.pos p * 2 ^ d) as [|m|m] eqn:E; [lia| |lia]. cbn [binary_normalize].
    by apply (round_of_int false m d p).
  - rewrite En. destruct (Z.neg p * 2 ^ d) as [|m|m] eqn:E; [lia|lia|]. cbn [binary_normalize].
    apply (round_of_int true m d p); [done| |done|done]. lia.
Qed.

(** The finite numbers that are integers of 53 bits, with the scale of their mantissa. *)
Lemma f64_of_int_cases z : Z.abs z < 2 ^ 53 ->
  z = 0 /\ f64_of_int z = S754_zero false \/
  exists s c d, f64_of_int z = S754_finite s c (- d) /\ 0 <= d <= 52 /\ cond_Zopp s (Z.pos c) = z * 2 ^ d.
Proof.
  intros Hz. destruct z as [|p|p]; [by left|right..].
  all: assert (HL : Z.log2 (Z.pos p) <= 52) by (assert (Z.log2 (Z.pos p) < 53) by (apply Z.log2_lt_pow2; lia); lia).
  all: pose proof (Z.log2_nonneg (Z.pos p)).
  all: destruct (f64_of_pos p HL) as (c & Ec & En & Hc).
  - exists false, c, (52 - Z.log2 (Z.pos p)). rewrite Ec. split; [f_equal; lia|]. split; [lia|done].
  - exists true, c, (52 - Z.log2 (Z.pos p)). rewrite En. split; [f_equal; lia|]. split; [lia|]. cbn [cond_Zopp]. lia.
Qed.

Lemma shl_align_down m d e : 0 <= d <= e -> Z.pos (fst (shl_align m (- d) (- e))) = Z.pos m * 2 ^ (e - d).
Proof.
  intros He. unfold shl_align. destruct (- e - - d) as [|t|t] eqn:E; cbn [fst]; [|lia|].
  - replace (e - d) with 0 by lia. lia.
  - replace (e - d) with (Z.pos t) by lia. apply pos_iter_xO.
Qed.
Lemma cond_Zopp_mul s x y : cond_Zopp s (x * y) = cond_Zopp s x * y.
Proof. destruct s; cbn; lia. Qed.

Lemma fadd_int a b : Z.abs a < 2 ^ 53 -> Z.abs b < 2 ^ 53 -> Z.abs (a + b) < 2 ^ 53 ->
  fadd (f64_of_int a) (f64_of_int b) = f64_of_int (a + b).
Proof.
  intros Ha Hb Hab. unfold fadd.
  destruct (f64_of_int_cases a Ha) as [[-> ->]|(s & c & d & Ea & Hd & Ec)], (f64_of_int_cases b Hb) as [[-> Eb]|(s' & c' & d' & Eb & Hd' & Ec')].
  - by rewrite Eb.
  - by rewrite Eb.
  - by rewrite Eb, Ea, Z.add_0_r, Ea.
  - rewrite Ea, Eb. cbn [SFadd]. replace (Z.min (- d) (- d')) with (- Z.max d d') by lia.
    rewrite !shl_align_down, !cond_Zopp_mul, Ec, Ec' by lia. rewrite <- !Z.mul_assoc, <- !Z.pow_add_r by lia.
    replace (d + (Z.max d d' - d)) with (Z.max d d') by lia. replace (d' + (Z.max d d' - d')) with (Z.max d d') by lia.
    rewrite <- Z.mul_add_distr_r. apply normalize_int; lia.
Qed.
Lemma fsub_int a b : Z.abs a < 2 ^ 53 -> Z.abs b < 2 ^ 53 -> Z.abs (a - b) < 2 ^ 53 ->
  fsub (f64_of_int a) (f64_of_int b) = f64_of_int (a - b).
Proof.
  intros Ha Hb Hab. unfold fsub.
  destruct (f64_of_int_cases a Ha) as [[-> ->]|(s & c & d & Ea & Hd & Ec)], (f64_of_int_cases b Hb) as [[-> Eb]|(s' & c' & d' & Eb & Hd' & Ec')].
  - by rewrite Eb.
  - rewrite Z.sub_0_l in *. destruct b as [|p|p]; cbn in Ec'; [destruct s'; cbn in Ec'; lia|..].
    all: assert (HL : Z.log2 (Z.pos p) <= 52) by (assert (Z.log2 (Z.pos p) < 53) by (apply Z.log2_lt_pow2; lia); lia).
    all: destruct (f64_of_pos p HL) as (m & E1 & E2 & _); rewrite Eb; change (- Z.pos p) with (Z.neg p); change (- Z.neg p) with (Z.pos p).
    all: try rewrite E1 in Eb; try rewrite E2 in Eb; rewrite ?E1, ?E2; destruct s'; cbn [SFsub negb]; congruence.
  - by rewrite Eb, Ea, Z.sub_0_r, Ea.
  - rewrite Ea, Eb. cbn [SFsub]. replace (Z.min (- d) (- d')) with (- Z.max d d') by lia.
    rewrite !shl_align_down, !cond_Zopp_mul, Ec, Ec' by lia. rewrite <- !Z.mul_assoc, <- !Z.pow_add_r by lia.
    replace (d + (Z.max d d' - d)) with (Z.max d d') by lia. replace (d' + (Z.max d d' - d')) with (Z.max d d') by lia.
    rewrite <- Z.mul_sub_distr_r. apply normalize_int; lia.
Qed.

(** ** The order of finite numbers *)

(** The sign, then the exponent and the mantissa, as a key. *)
Definition f64_key (x : f64) : Z * (Z * Z) :=
  match x with
  | S754_finite false m e => (1, (e, Z.pos m))
  | S754_finite true m e => (-1, (- e, Z.neg m))
  | _ => (0, (0, 0))
  end.

Lemma SFcompare_key x y : is_finite x = true -> is_finite y = true -> SFcompare x y = Some (kcmp (f64_key x) (f64_key y)).
Proof.
  destruct x as [sx| | |sx mx ex], y as [sy| | |sy my ey]; try done; intros _ _; [by destruct sy|by destruct sx|].
  destruct sx, sy; [|done|done|]; cbn; unfold pair_cmp; cbn; unfold pair_cmp; cbn.
  - rewrite Z.compare_opp, (Z.compare_antisym ey ex). destruct (ey ?= ex); try done.
  - by destruct (ex ?= ey).
Qed.

Definition f64_le (x y : f64) : Prop := kle (f64_key x) (f64_key y).
#[export] Instance f64_le_preorder : PreOrder f64_le.
Proof. split; [intros x; apply kle_refl|intros x y z; apply kle_trans]. Qed.

Lemma SFleb_key x y : is_finite x = true -> is_finite y = true -> SFleb x y = true <-> f64_le x y.
Proof.
  intros Hx Hy. unfold SFleb. rewrite SFcompare_key by done. unfold f64_le, kle. by destruct (kcmp _ _).
Qed.
Lemma SFltb_key x y : is_finite x = true -> is_finite y = true -> SFltb x y = kltb (f64_key x) (f64_key y).
Proof. intros Hx Hy. unfold SFltb. rewrite SFcompare_key by done. unfold kltb. by destruct (kcmp _ _). Qed.
Lemma finite_not_nan x : is_finite x = true -> is_nan x = false.
Proof. by destruct x. Qed.

(** The maximum is one of the two and above both; the minimum below. *)
Lemma fmax_spec x y : is_finite x = true -> is_finite y = true ->
  (fmax x y = x \/ fmax x y = y) /\ f64_le x (fmax x y) /\ f64_le y (fmax x y).
Proof.
  intros Hx Hy. unfold fmax. rewrite finite_not_nan, SFltb_key by done. cbn [orb].
  destruct (kltb (f64_key x) (f64_key y)) eqn:E; (split; [tauto|]).
  - apply kltb_spec in E. split; [by apply klt_kle|done].
  - split; [done|]. unfold f64_le. destruct (kle_total (f64_key y) (f64_key x)) as [?|Hlt]; [done|].
    apply kltb_spec in Hlt. congruence.
Qed.
Lemma fmin_spec x y : is_finite x = true -> is_finite y = true ->
  (fmin x y = x \/ fmin x y = y) /\ f64_le (fmin x y) x /\ f64_le (fmin x y) y.
Proof.
  intros Hx Hy. unfold fmin. rewrite finite_not_nan, SFltb_key by done. cbn [orb].
  destruct (kltb (f64_key y) (f64_key x)) eqn:E; (split; [tauto|]).
  - apply kltb_spec in E. split; [by apply klt_kle|done].
  - split; [done|]. unfold f64_le. destruct (kle_total (f64_key x) (f64_key y)) as [?|Hlt]; [done|].
    apply kltb_spec in Hlt. congruence.
Qed.
