(* ===== verification/Layout.v ===== *)
(** * The layout of a database ([layout.rs])

    One definition per path builder, the parsers that recover a revision or a sequence
    from a listing, and the constants.  Paths are lists of parts; the prefix of a listing
    is a prefix of the list, which is what [object_store] compares (whole parts, never half
    of one). *)
From S2P Require Export StoreData.

(** ** Constants *)
Definition FORMAT_FILE : string := "FORMAT".
Definition CATALOG_PREFIX : Path := ["catalog"; "tables"].
Definition SNAPSHOT_PREFIX : Path := ["snapshots"].
Definition FORK_PREFIX : Path := ["forks"].
Definition FORK_CATALOG_PREFIX : Path := ["catalog"; "forks"].
Definition FORK_INDEX_FILE : string := "FORK_INDEX.json".
Definition FORMAT_VERSION : Z := 1.
Definition MIN_READER_VERSION : Z := 1.
Definition READER_VERSION : Z := 2.
Definition FORK_MIN_READER_VERSION : Z := 2.
Definition SEQ_WIDTH : nat := 12.

Definition u32_max : Z := 4294967295.
Definition u64_max : Z := 18446744073709551615.

(** ** Numbers in names

    [{n:0w}]: at least [w] digits, zeros in front. *)
Definition pad (w : nat) (n : Z) : string :=
  if n <? 10 ^ Z.of_nat w then show_frac w n else show_nat n.

(** [str::parse] of an unsigned type: an optional [+], then digits only, at least one,
    and no overflow. *)
Definition is_digit (c : Ascii.ascii) : bool := (0 <=? digit_value c) && (digit_value c <=? 9).
Fixpoint parse_digits (bound : Z) (s : string) (acc : Z) : option Z :=
  match s with
  | EmptyString => Some acc
  | String c s' =>
      let acc' := 10 * acc + digit_value c in
      if is_digit c && (acc' <=? bound) then parse_digits bound s' acc' else None
  end.
Definition parse_uint (bound : Z) (s : string) : option Z :=
  match s with
  | EmptyString => None
  | String "+" EmptyString => None
  | String "+" s' => parse_digits bound s' 0
  | _ => parse_digits bound s 0
  end.

(** [str::strip_suffix]. *)
Fixpoint strip_suffix (suffix s : string) : option string :=
  if String.eqb s suffix then Some ""
  else match s with
       | EmptyString => None
       | String c s' =>
           match strip_suffix suffix s' with Some t => Some (String c t) | None => None end
       end.

(** ** Paths *)
Section Paths.
Context `{Env}.
Definition json (name : string) : string := name +:+ ".json".
Definition format_path : Path := [FORMAT_FILE].
Definition catalog_entry_path (table_name : string) : Path :=
  CATALOG_PREFIX ++ [json (hash_name table_name)].
Definition table_prefix (table_id : Uuid) : Path := ["tables"; table_id].
Definition head_path (table_id : Uuid) : Path := ["tables"; table_id; "HEAD"].
Definition spec_path (table_id : Uuid) (revision : Z) : Path :=
  ["tables"; table_id; "spec"; json (pad 8 revision)].
Definition spec_prefix (table_id : Uuid) : Path := ["tables"; table_id; "spec"].
Definition spec_revision_from_path (path : Path) : option Z :=
  name ← last path; stem ← strip_suffix ".json" name; parse_uint u32_max stem.
Definition manifest_prefix (table_id : Uuid) : Path := ["tables"; table_id; "manifests"].
Definition manifest_path (table_id : Uuid) (sequence : Z) : Path :=
  ["tables"; table_id; "manifests"; json (pad SEQ_WIDTH sequence)].
Definition manifest_sequence_from_path (path : Path) : option Z :=
  name ← last path; stem ← strip_suffix ".json" name; parse_uint u64_max stem.
Definition segment_prefix (table_id : Uuid) : Path := ["tables"; table_id; "segments"].
Definition staging_prefix (table_id : Uuid) : Path := ["tables"; table_id; "staging"].
Definition staging_lease_path (table_id writer_id : Uuid) : Path :=
  ["tables"; table_id; "staging"; json writer_id].
Definition segment_path (table_id segment_id : Uuid) : Path :=
  ["tables"; table_id; "segments"; segment_id +:+ ".parquet"].
Definition snapshot_path (name : string) : Path := SNAPSHOT_PREFIX ++ [json (hash_name name)].
Definition fork_path (name : string) : Path := FORK_PREFIX ++ [json (hash_name name)].
Definition fork_index_path : Path := [FORK_INDEX_FILE].
Definition fork_catalog_prefix (fork_name : string) : Path :=
  FORK_CATALOG_PREFIX ++ [hash_name fork_name].
Definition fork_catalog_entry_path (fork_name table_name : string) : Path :=
  FORK_CATALOG_PREFIX ++ [hash_name fork_name; json (hash_name table_name)].

(** The paths other files build: [retention.rs], [policy.rs], [transaction.rs], [plan.rs]. *)
Definition retention_path (table_id : Uuid) : Path := ["tables"; table_id; "RETENTION.json"].
Definition POLICY_FILE : Path := ["POLICY"].
Definition TXN_PREFIX : Path := ["txn"].
Definition txn_path (txn_id : Uuid) : Path := TXN_PREFIX ++ [json txn_id].
Definition plan_prefix (table_id : Uuid) : Path := ["tables"; table_id; "plans"].
Definition plan_path (table_id plan_id : Uuid) : Path := ["tables"; table_id; "plans"; json plan_id].
End Paths.
#[global] Arguments head_path : simpl never.
#[global] Arguments manifest_path : simpl never.
#[global] Arguments spec_path : simpl never.
#[global] Arguments segment_path : simpl never.
#[global] Arguments staging_lease_path : simpl never.
#[global] Arguments txn_path : simpl never.
#[global] Arguments plan_path : simpl never.
#[global] Arguments retention_path : simpl never.
#[global] Arguments fork_path : simpl never.
#[global] Arguments snapshot_path : simpl never.
#[global] Arguments catalog_entry_path : simpl never.
#[global] Arguments fork_catalog_entry_path : simpl never.

(** ** Numbers in names come back *)
Lemma digit_is_digit d : 0 <= d < 10 -> is_digit (digit d) = true.
Proof.
  intros Hd. unfold is_digit. rewrite digit_value_digit by done.
  apply andb_true_iff. rewrite !Z.leb_le. lia.
Qed.

Lemma parse_digits_digit bound d s acc :
  0 <= d < 10 -> 10 * acc + d <= bound ->
  parse_digits bound (String (digit d) s) acc = parse_digits bound s (10 * acc + d).
Proof.
  intros Hd Hb. cbn [parse_digits]. rewrite digit_is_digit, digit_value_digit by done.
  by rewrite (proj2 (Z.leb_le _ _) Hb).
Qed.

Lemma parse_show_frac bound w n acc :
  0 <= acc -> 0 <= n < 10 ^ Z.of_nat w -> acc * 10 ^ Z.of_nat w + n <= bound ->
  parse_digits bound (show_frac w n) acc = Some (acc * 10 ^ Z.of_nat w + n).
Proof.
  revert n acc. induction w as [|w IH]; intros n acc Ha Hn Hb.
  - cbn in *. f_equal. lia.
  - rewrite Nat2Z.inj_succ, Z.pow_succ_r in * by lia.
    set (p := 10 ^ Z.of_nat w) in *. assert (0 < p) by (apply Z.pow_pos_nonneg; lia).
    pose proof (Z.div_mod n p ltac:(lia)). pose proof (Z.mod_pos_bound n p ltac:(lia)).
    assert (0 <= n / p < 10) by (split; [apply Z.div_pos|apply Z.div_lt_upper_bound]; lia).
    assert (10 * acc + n / p <= p * (10 * acc + n / p)) by nia.
    cbn [show_frac]. fold p. rewrite parse_digits_digit by nia. rewrite IH by nia. f_equal. nia.
Qed.

Lemma parse_show_digits bound fuel n rest :
  0 <= n <= bound -> (Z.to_nat (Z.log2 n) < fuel)%nat ->
  parse_digits bound (show_digits fuel n rest) 0 = parse_digits bound rest n.
Proof.
  revert n rest. induction fuel as [|fuel IH]; intros n rest Hn Hf; [lia|].
  cbn [show_digits]. pose proof (Z.mod_pos_bound n 10 ltac:(lia)).
  destruct (n <? 10) eqn:E; bool_prop.
  - rewrite Z.mod_small by lia. by rewrite parse_digits_digit by lia.
  - pose proof (Z.div_mod n 10 ltac:(lia)).
    assert (0 <= n / 10) by (apply Z.div_pos; lia).
    rewrite IH; [rewrite parse_digits_digit by lia; f_equal; lia|lia|].
    assert (Z.log2 (n / 10) < Z.log2 n); [|pose proof (Z.log2_nonneg (n / 10)); lia].
    apply Z.log2_lt_pow2; [lia|]. apply Z.lt_le_trans with (2 ^ Z.log2 n); [|lia].
    pose proof (Z.log2_spec n ltac:(lia)) as [_ Hs]. rewrite Z.pow_succ_r in Hs; [lia|].
    apply Z.log2_nonneg.
Qed.

Lemma parse_pad bound w n :
  (0 < w)%nat -> 0 <= n <= bound -> parse_uint bound (pad w n) = Some n.
Proof.
  intros Hw Hn.
  assert (parse_digits bound (pad w n) 0 = Some n /\ exists d s, pad w n = String (digit d) s /\ 0 <= d < 10)
    as (Hp & d & s & Hs & Hd).
  { unfold pad. destruct (n <? 10 ^ Z.of_nat w) eqn:E; bool_prop.
    - rewrite parse_show_frac by lia. split; [f_equal; lia|]. destruct w as [|w]; [lia|].
      rewrite Nat2Z.inj_succ, Z.pow_succ_r in E by lia.
      assert (0 < 10 ^ Z.of_nat w) by (apply Z.pow_pos_nonneg; lia).
      exists (n / 10 ^ Z.of_nat w). eexists. split; [reflexivity|].
      split; [apply Z.div_pos; lia|apply Z.div_lt_upper_bound; lia].
    - split; [|apply show_nat_head; lia]. unfold show_nat.
      rewrite parse_show_digits by lia. done. }
  rewrite Hs in *. unfold parse_uint.
  assert (Hne : digit d <> "+"%char).
  { intros E. apply (f_equal digit_value) in E. rewrite digit_value_digit in E by done.
    change (digit_value "+"%char) with (-5) in E. lia. }
  clear Hs. destruct (digit d) as [[] [] [] [] [] [] [] []]; try exact Hp. by destruct Hne.
Qed.

Lemma strip_suffix_eq suffix s :
  s = suffix -> strip_suffix suffix s = Some "".
Proof. intros ->. destruct suffix; cbn [strip_suffix]; by rewrite String.eqb_refl. Qed.

Lemma strip_suffix_app suffix s : suffix <> "" -> strip_suffix suffix (s +:+ suffix) = Some s.
Proof.
  intros Hs. assert (Hlen : forall a b : string, String.length (a +:+ b) = (String.length a + String.length b)%nat).
  { induction a as [|c a IH]; intros b; [done|].
    change (S (String.length (a +:+ b)) = S (String.length a + String.length b)). by rewrite IH. }
  induction s as [|c s IH].
  - by apply strip_suffix_eq.
  - change (String c s +:+ suffix) with (String c (s +:+ suffix)). cbn [strip_suffix].
    destruct (String.eqb_spec (String c (s +:+ suffix)) suffix) as [E|_].
    + apply (f_equal String.length) in E. cbn in E. rewrite Hlen in E. lia.
    + by rewrite IH.
Qed.

(** ** Equal widths order like numbers *)
Definition string_lt (a b : string) : Prop := String.compare a b = Lt.

Lemma digit_compare a b :
  0 <= a < 10 -> 0 <= b < 10 -> Ascii.compare (digit a) (digit b) = (a ?= b).
Proof.
  intros Ha Hb.
  assert (forall a, 0 <= a < 10 -> In a [0;1;2;3;4;5;6;7;8;9]) as Hin by (cbn; lia).
  apply Hin in Ha, Hb. cbn in Ha, Hb.
  repeat destruct Ha as [<-|Ha]; try done; repeat destruct Hb as [<-|Hb]; done.
Qed.

Lemma string_compare_refl s : String.compare s s = Eq.
Proof.
  induction s as [|c s IH]; [done|]. cbn. unfold Ascii.compare. by rewrite N.compare_refl.
Qed.

Lemma show_frac_compare w n k rest :
  0 <= n < 10 ^ Z.of_nat w -> 0 <= k < 10 ^ Z.of_nat w ->
  String.compare (show_frac w n +:+ rest) (show_frac w k +:+ rest) = (n ?= k).
Proof.
  revert n k. induction w as [|w IH]; intros n k Hn Hk.
  - change (10 ^ Z.of_nat 0) with 1 in *. assert (n = 0) as -> by lia. assert (k = 0) as -> by lia.
    apply string_compare_refl.
  - rewrite Nat2Z.inj_succ, Z.pow_succ_r in * by lia.
    set (p := 10 ^ Z.of_nat w) in *. assert (0 < p) by (apply Z.pow_pos_nonneg; lia).
    assert (0 <= n / p < 10) by (split; [apply Z.div_pos|apply Z.div_lt_upper_bound]; lia).
    assert (0 <= k / p < 10) by (split; [apply Z.div_pos|apply Z.div_lt_upper_bound]; lia).
    pose proof (Z.div_mod n p ltac:(lia)). pose proof (Z.mod_pos_bound n p ltac:(lia)).
    pose proof (Z.div_mod k p ltac:(lia)). pose proof (Z.mod_pos_bound k p ltac:(lia)).
    cbn [show_frac]. fold p. cbn [String.append String.compare].
    change (String (digit (n / p)) (show_frac w (n mod p)) +:+ rest)
      with (String (digit (n / p)) (show_frac w (n mod p) +:+ rest)).
    change (String (digit (k / p)) (show_frac w (k mod p)) +:+ rest)
      with (String (digit (k / p)) (show_frac w (k mod p) +:+ rest)).
    cbn [String.compare]. rewrite digit_compare, IH by lia.
    destruct (Z.compare_spec (n / p) (k / p)) as [E|E|E].
    + destruct (Z.compare_spec (n mod p) (k mod p)), (Z.compare_spec n k); nia || done.
    + symmetry. apply Z.compare_lt_iff. nia.
    + symmetry. apply Z.compare_gt_iff. nia.
Qed.

(** What a listing sorts by: the text of the path, its parts joined by [/]. *)
Fixpoint path_text (p : Path) : string :=
  match p with [] => "" | [x] => x | x :: p' => x +:+ "/" +:+ path_text p' end.

Lemma compare_app_l (s a b : string) : String.compare (s +:+ a) (s +:+ b) = String.compare a b.
Proof.
  induction s as [|c s IH]; [done|].
  change ((String c (s +:+ a) ?= String c (s +:+ b))%string = (a ?= b)%string).
  cbn [String.compare]. unfold Ascii.compare. rewrite N.compare_refl. apply IH.
Qed.

Section Theorems.
Context `{Env}.

Lemma parse_manifest_path table_id n :
  0 <= n <= u64_max -> manifest_sequence_from_path (manifest_path table_id n) = Some n.
Proof.
  unfold manifest_sequence_from_path, manifest_path. cbn -[pad json strip_suffix].
  intros Hn; unfold json; rewrite strip_suffix_app by done; cbn -[pad];
    apply parse_pad; unfold SEQ_WIDTH; lia.
Qed.

(** A manifest's path parses back to its sequence, and a spec's to its revision. *)
Theorem path_numbers_read_back table_id n :
  (0 <= n <= u64_max -> manifest_sequence_from_path (manifest_path table_id n) = Some n) /\
  (0 <= n <= u32_max -> spec_revision_from_path (spec_path table_id n) = Some n).
Proof.
  split; [apply parse_manifest_path|].
  unfold spec_revision_from_path, spec_path. cbn -[pad json strip_suffix].
  intros Hn; unfold json; rewrite strip_suffix_app by done; cbn -[pad]; apply parse_pad; lia.
Qed.

(** Listing manifests in the order of their paths lists them in sequence order, up to the
    padding's 10^12. *)
Theorem manifest_listing_order table_id a b :
  0 <= a < 10 ^ 12 -> 0 <= b < 10 ^ 12 ->
  string_lt (path_text (manifest_path table_id a)) (path_text (manifest_path table_id b)) <-> a < b.
Proof.
  intros Ha Hb. unfold string_lt, manifest_path, json. cbn [path_text].
  rewrite !compare_app_l. unfold pad, SEQ_WIDTH.
  rewrite (proj2 (Z.ltb_lt a _)), (proj2 (Z.ltb_lt b _)) by (cbn; lia).
  rewrite show_frac_compare by (cbn; lia). apply Z.compare_lt_iff.
Qed.

(** No two objects of a table share a path, and nothing under a table's prefix is a
    catalog entry, a snapshot, a fork or the fork index. *)
Lemma pad_inj w n k : (0 < w)%nat -> 0 <= n -> 0 <= k -> pad w n = pad w k -> n = k.
Proof.
  intros Hw Hn Hk E. apply (f_equal (parse_uint (Z.max n k))) in E.
  rewrite !parse_pad in E by lia. congruence.
Qed.

Lemma append_inj_r (a b s : string) : s <> "" -> a +:+ s = b +:+ s -> a = b.
Proof.
  intros Hs E. apply (f_equal (strip_suffix s)) in E. rewrite !strip_suffix_app in E by done.
  congruence.
Qed.

Lemma json_inj a b : json a = json b -> a = b.
Proof. by apply append_inj_r. Qed.

Lemma manifest_path_inj t n t' k :
  0 <= n -> 0 <= k -> manifest_path t n = manifest_path t' k -> t = t' /\ n = k.
Proof.
  unfold manifest_path. intros Hn Hk [= -> E%json_inj]. split; [done|].
  eapply pad_inj; [|done..]. unfold SEQ_WIDTH. lia.
Qed.

Lemma spec_path_inj t n t' k : 0 <= n -> 0 <= k -> spec_path t n = spec_path t' k -> t = t' /\ n = k.
Proof.
  unfold spec_path. intros Hn Hk [= -> E%json_inj]. split; [done|]. eapply pad_inj; [|done..]. lia.
Qed.
End Theorems.
