(* ===== verification/Manifest.v ===== *)
(** * Version manifests ([manifest.rs], [monotonic_commit_ts] of [util.rs])

    The methods of [OpKind], [SegmentMeta], [VersionManifest] and [Head], and what the time
    range of a segment promises about its rows. *)
From S2P Require Export Layout.

(** [u64] sums of a release build. *)
Definition sum_u64 (l : list Z) : Z := fold_left (fun a b => (a + b) mod 2 ^ 64) l 0.

Module OpKind.
Definition to_string (op : OpKind) : string :=
  match op with
  | OpCreate => "create"
  | OpWrite => "write"
  | OpAppend => "append"
  | OpReplaceRange => "replace_range"
  | OpDeleteRange => "delete_range"
  | OpRestore => "restore"
  | OpCompact => "compact"
  | OpEvolveSchema => "evolve_schema"
  | OpPromote => "promote"
  end.
End OpKind.

Module SegmentMeta.
Definition covered_by_time (s : SegmentMeta) (start stop : Z) : bool :=
  match sg_time_range s with
  | None => false
  | Some (seg_min, seg_max) => (start <=? seg_min) && (seg_max <? stop)
  end.
Definition overlaps_time (s : SegmentMeta) (start stop : option Z) : bool :=
  match sg_time_range s with
  | None => true
  | Some (seg_min, seg_max) =>
      let after_start := match stop with None => true | Some e => seg_min <? e end in
      let before_end := match start with None => true | Some st => st <=? seg_max end in
      after_start && before_end
  end.
End SegmentMeta.

Definition range_join (a b : Z * Z) : Z * Z := (Z.min a.1 b.1, Z.max a.2 b.2).

(** [Iterator::reduce]. *)
Definition reduce {A} (f : A -> A -> A) (l : list A) : option A :=
  match l with [] => None | a :: l' => Some (fold_left f l' a) end.

Module VersionManifest.
Definition recompute_rollups (m : VersionManifest) : VersionManifest :=
  m <| mf_rows := sum_u64 (map sg_rows (mf_segments m)) |>
    <| mf_bytes := sum_u64 (map sg_bytes (mf_segments m)) |>
    <| mf_time_range := reduce range_join (omap sg_time_range (mf_segments m)) |>.
Definition to_bytes (m : VersionManifest) : Obj := OManifest m.
Definition from_bytes (o : Obj) (object : Path) : DbResult VersionManifest :=
  match o with
  | OManifest manifest =>
      if FORMAT_VERSION <? mf_format manifest
      then Err (FormatTooNew (mf_format manifest) FORMAT_VERSION)
      else Ok manifest
  | _ => Err (Corruption object "manifest parse error")
  end.
Definition segments_by_checksum (m : VersionManifest) : gmap Digest SegmentMeta :=
  fold_left (fun acc s => <[sg_checksum s := s]> acc) (mf_segments m) ∅.
End VersionManifest.

Module Head.
Definition to_bytes (h : Head) : Obj := OHead h.
Definition from_bytes (o : Obj) (object : Path) : DbResult Head :=
  match o with
  | OHead head =>
      if FORMAT_VERSION <? hd_format head
      then Err (FormatTooNew (hd_format head) FORMAT_VERSION)
      else Ok head
  | _ => Err (Corruption object "HEAD parse error")
  end.
End Head.

(** The wall clock reads [wall]; [timestamp_nanos_opt] fails past the range of [i64]. *)
Definition monotonic_commit_ts (wall : Z) (parent_committed_at_ns : option Z) : Z :=
  let wall := if in_i64b wall then wall else i64_max - 1 in
  match parent_committed_at_ns with
  | Some p => Z.max wall (sat64 (p + 1))
  | None => wall
  end.

(** ** Theorems *)

(** The rows of a segment, by their times, are within its range. *)
Definition times_in (s : SegmentMeta) (times : list Z) : Prop :=
  forall lo hi, sg_time_range s = Some (lo, hi) -> Forall (fun t => lo <= t <= hi) times.

(** Reading or rewriting a time window [start, stop) may skip a segment that does not
    overlap it (none of its rows is in the window), and may drop one that is covered (all of
    them are); with no recorded range a segment is never skipped and never dropped. *)
Theorem window_classifies_segment s start stop times :
  times_in s times ->
  (SegmentMeta.overlaps_time s start stop = false ->
   Forall (fun t => ~ ((forall st, start = Some st -> st <= t) /\
                       (forall e, stop = Some e -> t < e))) times) /\
  (forall st e, SegmentMeta.covered_by_time s st e = true -> Forall (fun t => st <= t < e) times) /\
  (sg_time_range s = None ->
   SegmentMeta.overlaps_time s start stop = true /\
   forall st e, SegmentMeta.covered_by_time s st e = false).
Proof.
  unfold times_in, SegmentMeta.overlaps_time, SegmentMeta.covered_by_time.
  destruct (sg_time_range s) as [[lo hi]|]; intros Ht; [|repeat split; done].
  specialize (Ht lo hi eq_refl). repeat split; [| |done..].
  - intros Ho. eapply Forall_impl; [exact Ht|]. cbn. intros t Hb [Hst He].
    destruct start as [st|], stop as [e|]; bool_prop; destruct Ho as [Ho|Ho]; try done; bool_prop;
      try specialize (Hst _ eq_refl); try specialize (He _ eq_refl); lia.
  - intros st e Hc. bool_prop. eapply Forall_impl; [exact Ht|]. cbn. lia.
Qed.

(** What a covered segment overlaps: dropping is only ever tried on the overlapping ones. *)
Lemma covered_implies_overlapping s st e :
  (forall lo hi, sg_time_range s = Some (lo, hi) -> lo <= hi) ->
  SegmentMeta.covered_by_time s st e = true -> SegmentMeta.overlaps_time s (Some st) (Some e) = true.
Proof.
  unfold SegmentMeta.overlaps_time, SegmentMeta.covered_by_time.
  destruct (sg_time_range s) as [[lo hi]|]; intros Hr; [|done]. specialize (Hr _ _ eq_refl).
  intros. bool_prop. apply andb_true_iff. rewrite Z.ltb_lt, Z.leb_le. lia.
Qed.

Lemma fold_range_join l a :
  fold_left range_join l a =
  (foldr Z.min a.1 (map fst l), foldr Z.max a.2 (map snd l)).
Proof.
  revert a. induction l as [|b l IH]; intros [lo hi]; [done|]. cbn. rewrite IH. cbn.
  assert (forall x y (k : list Z), foldr Z.min (Z.min x y) k = Z.min y (foldr Z.min x k)) as Hmin
    by (intros x y k; induction k; cbn; lia).
  assert (forall x y (k : list Z), foldr Z.max (Z.max x y) k = Z.max y (foldr Z.max x k)) as Hmax
    by (intros x y k; induction k; cbn; lia).
  by rewrite Hmin, Hmax.
Qed.

Lemma sum_u64_exact l : Forall (fun x => 0 <= x) l -> zsum l < 2 ^ 64 -> sum_u64 l = zsum l.
Proof.
  intros Hl Hs. unfold sum_u64.
  assert (forall l a, Forall (fun x => 0 <= x) l -> 0 <= a -> a + zsum l < 2 ^ 64 ->
    fold_left (fun a b => (a + b) mod 2 ^ 64) l a = a + zsum l) as Hgen.
  { clear. intros l. induction l as [|x l IH]; intros a Hl Ha Hb; [cbn in *; lia|].
    apply Forall_cons in Hl as [Hx Hl]. rewrite zsum_cons in *.
    pose proof (zsum_nonneg l Hl). cbn [fold_left]. rewrite Z.mod_small by lia.
    rewrite IH by (done || lia). lia. }
  rewrite Hgen; [lia|done|lia|lia].
Qed.

Lemma foldr_min_le (l : list Z) a : foldr Z.min a l <= a /\ (forall x, In x l -> foldr Z.min a l <= x) /\
  (foldr Z.min a l = a \/ In (foldr Z.min a l) l).
Proof.
  induction l as [|y l (IH1 & IH2 & IH3)]; cbn; [repeat split; auto; lia|].
  repeat split; [lia| |].
  - intros x [<-|Hx]; [lia|]. specialize (IH2 x Hx). lia.
  - destruct (Z.min_spec y (foldr Z.min a l)) as [[_ ->]|[_ ->]]; intuition.
Qed.

Lemma foldr_max_ge (l : list Z) a : a <= foldr Z.max a l /\ (forall x, In x l -> x <= foldr Z.max a l) /\
  (foldr Z.max a l = a \/ In (foldr Z.max a l) l).
Proof.
  induction l as [|y l (IH1 & IH2 & IH3)]; cbn; [repeat split; auto; lia|].
  repeat split; [lia| |].
  - intros x [<-|Hx]; [lia|]. specialize (IH2 x Hx). lia.
  - destruct (Z.max_spec y (foldr Z.max a l)) as [[_ ->]|[_ ->]]; intuition.
Qed.

(** The join of a list of ranges contains each and is tight at both ends. *)
Lemma reduce_range_join l lo hi :
  reduce range_join l = Some (lo, hi) ->
  (forall a b, In (a, b) l -> lo <= a /\ b <= hi) /\
  (exists b, In (lo, b) l) /\ (exists a, In (a, hi) l).
Proof.
  destruct l as [|[a0 b0] l]; [done|]. cbn [reduce]. rewrite fold_range_join. intros [= <- <-].
  destruct (foldr_min_le (map fst l) a0) as (Hm1 & Hm2 & Hm3).
  destruct (foldr_max_ge (map snd l) b0) as (HM1 & HM2 & HM3). cbn [fst snd].
  repeat split.
  - destruct H as [[= <- <-]|H]; [done|]. apply Hm2. by apply (in_map fst) in H.
  - destruct H as [[= <- <-]|H]; [done|]. apply HM2. by apply (in_map snd) in H.
  - destruct Hm3 as [->|Hin]; [exists b0; by left|].
    apply in_map_iff in Hin as ([a b] & Ha & Hin). cbn in Ha. subst. exists b. by right.
  - destruct HM3 as [->|Hin]; [exists a0; by left|].
    apply in_map_iff in Hin as ([a b] & Ha & Hin). cbn in Ha. subst. exists a. by right.
Qed.

Lemma In_omap {A B} (f : A -> option B) (l : list A) b :
  In b (omap f l) <-> exists a, In a l /\ f a = Some b.
Proof.
  rewrite <- list_elem_of_In, list_elem_of_omap. by setoid_rewrite list_elem_of_In.
Qed.

(** The rollups of a manifest: the row and byte counts are the sums over its segments as long
    as they fit, and the time range is the smallest one that contains every segment's. *)
Theorem rollups_summarise m :
  let m' := VersionManifest.recompute_rollups m in
  mf_segments m' = mf_segments m /\
  (Forall (fun s => 0 <= sg_rows s) (mf_segments m) -> zsum (map sg_rows (mf_segments m)) < 2 ^ 64 ->
   mf_rows m' = zsum (map sg_rows (mf_segments m))) /\
  (mf_time_range m' = None <-> Forall (fun s => sg_time_range s = None) (mf_segments m)) /\
  (forall lo hi, mf_time_range m' = Some (lo, hi) ->
   (forall s a b, In s (mf_segments m) -> sg_time_range s = Some (a, b) -> lo <= a /\ b <= hi) /\
   (exists s b, In s (mf_segments m) /\ sg_time_range s = Some (lo, b)) /\
   (exists s a, In s (mf_segments m) /\ sg_time_range s = Some (a, hi))).
Proof.
  intros m'. set (segs := mf_segments m). change (mf_segments m') with segs.
  change (mf_rows m') with (sum_u64 (map sg_rows segs)).
  change (mf_time_range m') with (reduce range_join (omap sg_time_range segs)).
  split; [done|]. split; [|split].
  - intros Hr Hs. apply sum_u64_exact; [by apply Forall_map|done].
  - rewrite List.Forall_forall. split.
    + intros Hn s Hs. destruct (sg_time_range s) as [r|] eqn:E; [|done].
      assert (Hin : In r (omap sg_time_range segs)) by (apply In_omap; eauto).
      by destruct (omap sg_time_range segs).
    + intros Hn. destruct (omap sg_time_range segs) as [|r l] eqn:E; [done|].
      assert (Hin : In r (omap sg_time_range segs)) by (rewrite E; by left).
      apply In_omap in Hin as (s & Hs & Hr). rewrite Hn in Hr by done. discriminate.
  - intros lo hi Hr. apply reduce_range_join in Hr as (H1 & (b & H2) & (a & H3)).
    split; [|split].
    + intros s c d Hs Hc. apply H1, In_omap. eauto.
    + apply In_omap in H2 as (s & ? & ?). eauto.
    + apply In_omap in H3 as (s & ? & ?). eauto.
Qed.

(** A commit is never stamped before the clock or at or before its parent, unless the clock
    of [i64] is exhausted. *)
Theorem commit_ts_increases wall p :
  in_i64 p -> p < i64_max ->
  p < monotonic_commit_ts wall (Some p) /\
  (in_i64 wall -> wall <= monotonic_commit_ts wall (Some p)).
Proof.
  intros Hp Hlt. unfold monotonic_commit_ts, sat64. widths.
  destruct (in_i64b wall) eqn:E; [apply in_i64b_spec in E|]; widths; split; try lia.
  intros Hw. apply in_i64b_spec in Hw. congruence.
Qed.
