(* ===== verification/TableSpec.v ===== *)
(** * Table specifications and schema evolution ([spec.rs], [evolution.rs], [policy.rs])

    A schema is its list of fields.  Arrow's arrays are their type and their cells; the
    casting kernel and the checks of [RecordBatch::try_new] are Arrow's ([ArrowKernels]). *)
From S2P Require Export Manifest.

(** [Schema::field_with_name]. *)
Definition field_with_name (schema : Schema) (name : string) : option Field :=
  List.find (fun f => String.eqb (fd_name f) name) schema.

Definition SEGMENT_COUNT_WARN : Z := 1024.
Definition SEGMENT_COUNT_HARD_DEFAULT : Z := 4096.
Definition StorageOptions_default : StorageOptions :=
  mkStorageOptions (128 * 1024 * 1024) (32 * 1024 * 1024) Zstd [].
Definition TableOptions_default : TableOptions := mkTableOptions None [] StorageOptions_default None.

Module TableSpec.
Definition time_type (t : DataType) : bool :=
  match t with
  | Timestamp _ | Int64 | Int32 | UInt64 | UInt32 | Date32 | Date64 => true
  | _ => false
  end.

(** Every named column exists. *)
Definition columns_exist (schema : Schema) (detail : string) (cols : list string) : DbResult unit :=
  foldr_res (fun _ col => match field_with_name schema col with
                          | Some _ => Ok tt
                          | None => Err (InvalidInput detail)
                          end) tt cols.

Definition check_time_column (schema : Schema) (time_column : option string) : DbResult unit :=
  match time_column with
  | None => Ok tt
  | Some tc =>
      match field_with_name schema tc with
      | None => Err (InvalidInput "time column does not exist in the schema")
      | Some field =>
          if negb (time_type (fd_type field)) then
            Err (InvalidInput "time column must be a timestamp, date, or integer type")
          else if fd_nullable field then
            Err (InvalidInput "time column must be declared non-nullable")
          else Ok tt
      end
  end.

Definition new `{Env} (table_id : Uuid) (name : string) (schema : Schema) (options : TableOptions)
    (wall : Z) : DbResult TableSpec :=
  let time_column := to_time_column options in
  let? _ := check_time_column schema time_column in
  let sort_key := match to_sort_key options, time_column with
                  | [], Some tc => [tc]
                  | k, _ => k
                  end in
  let? _ := columns_exist schema "sort key column does not exist in the schema" sort_key in
  let? _ := match time_column, sort_key with
            | Some tc, first :: _ =>
                if String.eqb first tc then Ok tt
                else Err (InvalidInput "when a time column is declared it must be the first sort key")
            | _, _ => Ok tt
            end in
  let? _ := columns_exist schema "bloom filter column does not exist in the schema"
              (so_bloom_filter_columns (to_storage options)) in
  Ok (seal (mkTableSpec table_id name 1 schema time_column sort_key (to_storage options)
    (default SEGMENT_COUNT_HARD_DEFAULT (to_max_segments_per_manifest options))
    (monotonic_commit_ts wall None) "")).

Definition verify_checksum `{Env} (object : Path) (s : TableSpec) : DbResult unit :=
  verify object "spec checksum mismatch" s.
End TableSpec.

(** ** Evolution *)
Module Evolution.
(** The readable change list, as data. *)
Inductive Change :=
| RelaxNullability (name : string)
| Widen (name : string) (from to : DataType)
| AddColumn (name : string) (type : DataType).

Definition int_rank (dt : DataType) : option (Z * Z) :=
  match dt with
  | Int8 => Some (0, 0) | Int16 => Some (0, 1) | Int32 => Some (0, 2) | Int64 => Some (0, 3)
  | UInt8 => Some (1, 0) | UInt16 => Some (1, 1) | UInt32 => Some (1, 2) | UInt64 => Some (1, 3)
  | Float32 => Some (2, 0) | Float64 => Some (2, 1)
  | _ => None
  end.

Definition is_widening (from to : DataType) : bool :=
  match int_rank from, int_rank to with
  | Some (fa, fr), Some (ta, tr) => (fa =? ta) && (fr <? tr)
  | _, _ => false
  end.

(** One existing column. *)
Definition check_field (old_f new_f : Field) : DbResult (list Change) :=
  if negb (String.eqb (fd_name new_f) (fd_name old_f)) then
    Err (SchemaMismatch "schema evolution cannot rename or reorder columns")
  else if fd_nullable old_f && negb (fd_nullable new_f) then
    Err (SchemaMismatch "cannot tighten nullability")
  else
    let relaxed := if negb (fd_nullable old_f) && fd_nullable new_f
                   then [RelaxNullability (fd_name old_f)] else [] in
    if bool_decide (fd_type old_f = fd_type new_f) then Ok relaxed
    else if negb (is_widening (fd_type old_f) (fd_type new_f)) then
      Err (SchemaMismatch "is not a widening conversion")
    else Ok (relaxed ++ [Widen (fd_name old_f) (fd_type old_f) (fd_type new_f)]).

(** One appended column. *)
Definition check_added (new_f : Field) : DbResult (list Change) :=
  if negb (fd_nullable new_f) then Err (SchemaMismatch "new column must be nullable")
  else Ok [AddColumn (fd_name new_f) (fd_type new_f)].

Definition validate_evolution (old new : Schema) : DbResult (list Change) :=
  if Nat.ltb (length new) (length old) then
    Err (SchemaMismatch "schema evolution cannot drop columns")
  else
    let? kept := map_res (fun p => check_field p.1 p.2) (combine old new) in
    let? added := map_res check_added (skipn (length old) new) in
    match concat kept ++ concat added with
    | [] => Err (InvalidInput "schema evolution requested but the schema is unchanged")
    | changes => Ok changes
    end.

Definition schema_with_added (old added : Schema) : Schema := old ++ added.
End Evolution.

(** ** Arrow batches *)
Record Array {Cell : Type} := mkArray { ar_type : DataType; ar_cells : list (option Cell) }.
Arguments Array Cell : clear implicits.
Record Batch {Cell : Type} := mkBatch {
  rb_schema : Schema; rb_columns : list (Array Cell); rb_rows : nat }.
Arguments Batch Cell : clear implicits.

Class ArrowKernels (Cell : Type) := {
  cast : Array Cell -> DataType -> option (Array Cell);
  try_new : Schema -> list (Array Cell) -> option (Batch Cell);
}.

Section Adapt.
Context {Cell : Type} `{ArrowKernels Cell}.

Definition new_null_array (t : DataType) (n : nat) : Array Cell := mkArray Cell t (replicate n None).

(** [Schema::index_of]. *)
Fixpoint index_of (schema : Schema) (name : string) : option nat :=
  match schema with
  | [] => None
  | f :: s => if String.eqb (fd_name f) name then Some O else S <$> index_of s name
  end.

Definition adapt_column (batch : Batch Cell) (field : Field) : DbResult (Array Cell) :=
  match index_of (rb_schema batch) (fd_name field) with
  | Some idx =>
      match rb_columns batch !! idx with
      | None => Err (Internal "index out of bounds")
      | Some col =>
          if bool_decide (ar_type col = fd_type field) then Ok col
          else ok_or (cast col (fd_type field)) Arrow
      end
  | None => Ok (new_null_array (fd_type field) (rb_rows batch))
  end.

Definition adapt_batch (target : Schema) (batch : Batch Cell) : DbResult (Batch Cell) :=
  if bool_decide (rb_schema batch = target) then Ok batch
  else
    let? cols := map_res (adapt_column batch) target in
    ok_or (try_new target cols) Arrow.
End Adapt.

(** ** Mutation policy *)
Module MutationPolicy.
Definition default : MutationPolicy := mkMutationPolicy true true true true true true.

Definition check_direct (p : MutationPolicy) (op : OpKind) : DbResult unit :=
  let allowed := match op with
    | OpCreate | OpEvolveSchema | OpPromote => true
    | OpWrite => mp_direct_write p
    | OpAppend => mp_direct_append p
    | OpReplaceRange => mp_direct_replace p
    | OpDeleteRange => mp_direct_delete p
    | OpRestore => mp_direct_restore p
    | OpCompact => mp_direct_compact p
    end in
  if allowed : bool then Ok tt else Err (PolicyViolation (OpKind.to_string op)).

Definition set (p : MutationPolicy) (key : string) (value : bool) : DbResult MutationPolicy :=
  if String.eqb key "direct_append" then Ok (p <| mp_direct_append := value |>)
  else if String.eqb key "direct_write" then Ok (p <| mp_direct_write := value |>)
  else if String.eqb key "direct_replace" then Ok (p <| mp_direct_replace := value |>)
  else if String.eqb key "direct_delete" then Ok (p <| mp_direct_delete := value |>)
  else if String.eqb key "direct_restore" then Ok (p <| mp_direct_restore := value |>)
  else if String.eqb key "direct_compact" then Ok (p <| mp_direct_compact := value |>)
  else Err (InvalidInput "unknown policy key").
End MutationPolicy.

(** ** Theorems: evolution is an order *)

(** What evolution may do to one column and to a schema. *)
Definition field_evolves (o n : Field) : Prop :=
  fd_name n = fd_name o /\ (fd_nullable o = true -> fd_nullable n = true) /\
  (fd_type o = fd_type n \/ Evolution.is_widening (fd_type o) (fd_type n) = true).
Definition evolves (old new : Schema) : Prop :=
  exists kept added, new = kept ++ added /\ Forall2 field_evolves old kept /\
    Forall (fun f => fd_nullable f = true) added.

Lemma is_widening_spec a b :
  Evolution.is_widening a b = true <->
  exists f r s, Evolution.int_rank a = Some (f, r) /\ Evolution.int_rank b = Some (f, s) /\ r < s.
Proof.
  unfold Evolution.is_widening. destruct (Evolution.int_rank a) as [[f r]|], (Evolution.int_rank b) as [[g s]|];
    [|split; [done|]; naive_solver..].
  rewrite andb_true_iff, Z.eqb_eq, Z.ltb_lt. split.
  - intros [-> ?]. eauto 10.
  - intros (? & ? & ? & [= <- <-] & [= <- <-] & ?). done.
Qed.

Lemma is_widening_trans a b c :
  Evolution.is_widening a b = true -> Evolution.is_widening b c = true -> Evolution.is_widening a c = true.
Proof.
  rewrite !is_widening_spec. intros (f & r & s & Ha & Hb & ?) (f' & r' & s' & Hb' & Hc & ?).
  rewrite Hb in Hb'. injection Hb' as <- <-. exists f, r, s'. repeat split; [done..|lia].
Qed.

Lemma is_widening_irrefl a : Evolution.is_widening a a = false.
Proof.
  apply not_true_is_false. rewrite is_widening_spec. intros (? & ? & ? & H1 & H2 & ?).
  rewrite H1 in H2. injection H2 as ->. lia.
Qed.

Lemma field_evolves_trans a b c : field_evolves a b -> field_evolves b c -> field_evolves a c.
Proof.
  intros (H1 & H2 & H3) (K1 & K2 & K3). repeat split; [congruence|auto|].
  destruct H3 as [->|H3], K3 as [<-|K3]; auto. right. by eapply is_widening_trans.
Qed.

Lemma field_evolves_antisym a b : field_evolves a b -> field_evolves b a -> a = b.
Proof.
  destruct a as [n t u], b as [n' t' u']. intros (H1 & H2 & H3) (_ & K2 & K3). cbn in *. f_equal; [done| |].
  - destruct H3 as [H3|H3], K3 as [K3|K3]; try done.
    pose proof (is_widening_trans _ _ _ H3 K3) as E. by rewrite is_widening_irrefl in E.
  - destruct u, u'; intuition.
Qed.

Lemma check_field_spec o n :
  (exists ch, Evolution.check_field o n = Ok ch) <-> field_evolves o n.
Proof.
  unfold Evolution.check_field, field_evolves.
  destruct (String.eqb_spec (fd_name n) (fd_name o)) as [En|En]; cbn [negb].
  2: { split; [intros (? & ?)|intros (? & ?)]; done. }
  destruct (fd_nullable o) eqn:Eo, (fd_nullable n) eqn:Ee; cbn [negb andb];
    try (split; [intros (? & ?)|intros (? & Hn & ?)]; try specialize (Hn eq_refl); done).
  all: case_bool_decide as Et; [split; [intros _; repeat split; auto|eauto]|].
  all: destruct (Evolution.is_widening (fd_type o) (fd_type n)) eqn:Ew; cbn [negb];
    (split; [intros (? & ?); try done; repeat split; auto|]).
  all: try (intros _; by eauto). all: intros (_ & _ & [?|?]); done.
Qed.

Lemma check_field_nil o n : Evolution.check_field o n = Ok [] <-> o = n.
Proof.
  unfold Evolution.check_field. split.
  - destruct (String.eqb_spec (fd_name n) (fd_name o)) as [En|En]; cbn [negb]; [|done].
    destruct o as [on ot ou], n as [nn nt nu]. cbn in *. subst nn.
    destruct ou, nu; cbn; try done; case_bool_decide as Et; try done; subst; try done;
      destruct (Evolution.is_widening _ _); done.
  - intros ->. rewrite String.eqb_refl. rewrite bool_decide_true by done.
    by destruct (fd_nullable n).
Qed.

Lemma map_res_ok {A B} (f : A -> DbResult B) l :
  (exists bs, map_res f l = Ok bs) <-> Forall (fun a => exists b, f a = Ok b) l.
Proof.
  induction l as [|a l IH]; cbn; [split; eauto|]. split.
  - intros (bs & H). res_inv_in H. constructor; [eauto|]. apply IH. eauto.
  - intros [[b Hb] Hl]%Forall_cons. apply IH in Hl as [bs Hbs]. rewrite Hb, Hbs. eauto.
Qed.

Lemma Forall2_combine {A B} (R : A -> B -> Prop) l k :
  length l = length k -> Forall (fun p => R p.1 p.2) (combine l k) <-> Forall2 R l k.
Proof.
  revert k. induction l as [|a l IH]; intros [|b k]; cbn; try done; intros Hl.
  rewrite Forall_cons, Forall2_cons, IH by lia. done.
Qed.

Lemma combine_firstn_l {A B} (l : list A) (k : list B) :
  combine l k = combine l (firstn (length l) k).
Proof. revert k. induction l as [|a l IH]; intros [|b k]; cbn; [done..|]. by rewrite IH. Qed.

(** The fields checked one by one are the relation. *)
Lemma evolves_split old new :
  evolves old new <->
  (length old <= length new)%nat /\ Forall2 field_evolves old (firstn (length old) new) /\
  Forall (fun f => fd_nullable f = true) (skipn (length old) new).
Proof.
  split.
  - intros (kept & added & -> & Hk & Ha). pose proof (Forall2_length _ _ _ Hk) as Hl.
    rewrite Hl, take_app_length, drop_app_length, length_app. repeat split; [lia|done..].
  - intros (Hl & Hk & Ha). exists (firstn (length old) new), (skipn (length old) new).
    by rewrite take_drop.
Qed.

Lemma no_changes_same old new kept :
  length old = length new ->
  map_res (fun p => Evolution.check_field p.1 p.2) (combine old new) = Ok kept ->
  concat kept = [] <-> old = new.
Proof.
  revert new kept. induction old as [|o old IH]; intros [|n new] kept; cbn; try done.
  - intros _ [= <-]. done.
  - intros [= Hl] H. destruct (Evolution.check_field o n) as [ch|] eqn:E; [|done].
    destruct (map_res _ _) as [k|] eqn:Ek; [|done]. injection H as <-. cbn.
    specialize (IH new k Hl Ek). split.
    + intros [-> Hk]%app_eq_nil. apply check_field_nil in E. f_equal; tauto.
    + intros [= -> ->]. rewrite (proj2 (check_field_nil n n) eq_refl) in E. injection E as <-.
      cbn. tauto.
Qed.

(** [validate_evolution] accepts exactly the schemas the order relates and that differ. *)
Theorem validate_evolution_iff old new :
  (exists changes, Evolution.validate_evolution old new = Ok changes) <->
  evolves old new /\ old <> new.
Proof.
  rewrite evolves_split. unfold Evolution.validate_evolution.
  destruct (Nat.ltb_spec (length new) (length old)) as [Hlt|Hle].
  { split; [intros (? & ?); done|lia]. }
  rewrite combine_firstn_l. set (p := firstn (length old) new). set (r := skipn (length old) new).
  assert (Hp : length old = length p) by (unfold p; rewrite length_take; lia).
  assert (Hn : old = new -> r = []) by (intros <-; apply drop_ge; lia).
  assert (Hk := map_res_ok (fun p => Evolution.check_field p.1 p.2) (combine old p)).
  setoid_rewrite check_field_spec in Hk. rewrite Forall2_combine in Hk by done.
  assert (Ha := map_res_ok Evolution.check_added r).
  assert (Hr : forall f, (exists b, Evolution.check_added f = Ok b) <-> fd_nullable f = true).
  { intros f. unfold Evolution.check_added. destruct (fd_nullable f); cbn; naive_solver. }
  setoid_rewrite Hr in Ha. clear Hr. rewrite <- Hk, <- Ha.
  destruct (map_res _ (combine old p)) as [kept|] eqn:Ek; [|split; [intros (? & ?)|intros ((_ & (? & ?) & _) & _)]; done].
  destruct (map_res _ r) as [added|] eqn:Er; [|split; [intros (? & ?)|intros ((_ & _ & (? & ?)) & _)]; done].
  pose proof (no_changes_same old p kept Hp Ek) as Hsame.
  assert (Hadd : concat added = [] <-> r = []).
  { destruct r as [|f r']; cbn in Er; [by injection Er as <-|].
    unfold Evolution.check_added at 1 in Er. destruct (fd_nullable f); [|done]. cbn in Er.
    destruct (map_res _ r') as [k|]; [|done]. injection Er as <-. done. }
  assert (Heq : concat kept ++ concat added = [] <-> old = new).
  { split.
    - intros [Hc Ha']%app_eq_nil. apply Hsame in Hc. apply Hadd in Ha'.
      rewrite <- (take_drop (length old) new). fold p r. by rewrite Ha', <- Hc, app_nil_r.
    - intros E. rewrite (proj2 Hadd), (proj2 Hsame); [done| |by apply Hn].
      unfold p. rewrite E. by rewrite take_ge by lia. }
  destruct (concat kept ++ concat added) as [|ch chs] eqn:Ec.
  - split; [intros (? & ?); done|]. intros [_ Hne]. destruct Hne. by apply Heq.
  - split; [|eauto]. intros _. split; [eauto|]. intros E. apply Heq in E. done.
Qed.

Lemma evolves_trans a b c : evolves a b -> evolves b c -> evolves a c.
Proof.
  intros (k1 & d1 & -> & H1 & Hd1) (k2 & d2 & -> & H2 & Hd2).
  apply Forall2_app_inv_l in H2 as (k3 & d3 & H3 & H4 & ->).
  exists k3, (d3 ++ d2). rewrite app_assoc. repeat split.
  - clear -H1 H3. revert k3 H3. induction H1 as [|x y l l' Hxy Hl IH]; intros k3 H3;
      inversion H3; subst; constructor; [by eapply field_evolves_trans|auto].
  - apply Forall_app. split; [|done]. clear -Hd1 H4. revert Hd1.
    induction H4 as [|x y l l' Hxy Hl IH]; intros Hd; [constructor|].
    apply Forall_cons in Hd as [Hx Hd]. constructor; [by apply Hxy|auto].
Qed.

(** Legal evolutions compose, and none can be undone: they order the schemas. *)
Theorem evolution_is_an_order a b c :
  evolves a a /\ (evolves a b -> evolves b c -> evolves a c) /\ (evolves a b -> evolves b a -> a = b).
Proof.
  split; [|split].
  - exists a, []. rewrite app_nil_r. repeat split; [|constructor].
    induction a as [|f a IH]; constructor; [|done]. repeat split; auto.
  - apply evolves_trans.
  - intros (k1 & d1 & -> & H1 & _) (k2 & d2 & E & H2 & _).
    pose proof (Forall2_length _ _ _ H1) as L1. pose proof (Forall2_length _ _ _ H2) as L2.
    apply (f_equal length) in E as L3. rewrite !length_app in L2, L3.
    assert (d1 = []) as -> by (destruct d1; [done|cbn in *; lia]).
    assert (d2 = []) as -> by (destruct d2; [done|cbn in *; lia]).
    rewrite app_nil_r in *. subst k2. clear -H1 H2. revert H2.
    induction H1 as [|x y l l' Hxy Hl IH]; intros H2; [done|].
    inversion H2; subst. f_equal; [by apply field_evolves_antisym|auto].
Qed.

(** ** Theorems: reading old segments *)

(** What the theorems use of Arrow's kernels. *)
Class ArrowLaws (Cell : Type) `{ArrowKernels Cell} := {
  cast_widens : forall (a : Array Cell) t, Evolution.is_widening (ar_type a) t = true ->
    exists b, cast a t = Some b /\ ar_type b = t /\
      Forall2 (fun x y => is_Some x <-> is_Some y) (ar_cells a) (ar_cells b);
  cast_cast : forall (a b : Array Cell) t u, Evolution.is_widening (ar_type a) t = true ->
    Evolution.is_widening t u = true -> cast a t = Some b -> cast b u = cast a u;
  cast_null : forall t u n, Evolution.is_widening t u = true ->
    cast (new_null_array t n) u = Some (new_null_array u n);
  try_new_valid : forall s (cols : list (Array Cell)) n, s <> [] ->
    Forall2 (fun f c => ar_type c = fd_type f /\ length (ar_cells c) = n /\
                        (fd_nullable f = true \/ Forall is_Some (ar_cells c))) s cols ->
    try_new s cols = Some (mkBatch Cell s cols n);
}.

Section AdaptTheorems.
Context {Cell : Type} `{ArrowLaws Cell}.

Definition column_fits (n : nat) (f : Field) (c : Array Cell) : Prop :=
  ar_type c = fd_type f /\ length (ar_cells c) = n /\
  (fd_nullable f = true \/ Forall is_Some (ar_cells c)).
Definition valid_batch (b : Batch Cell) : Prop :=
  rb_schema b <> [] /\ Forall2 (column_fits (rb_rows b)) (rb_schema b) (rb_columns b).

(** What adapting is, without lookups by name: the old columns in order, each widened if
    its type changed, then a null column per added field. *)
Definition carry_col (o n : Field) (c : Array Cell) : Array Cell :=
  if bool_decide (fd_type o = fd_type n) then c else default c (cast c (fd_type n)).
Fixpoint carry_cols (rows : nat) (old new : Schema) (cols : list (Array Cell)) : list (Array Cell) :=
  match new with
  | [] => []
  | f :: new' =>
      match old, cols with
      | o :: old', c :: cols' => carry_col o f c :: carry_cols rows old' new' cols'
      | _, _ => new_null_array (fd_type f) rows :: carry_cols rows [] new' []
      end
  end.

Lemma index_of_app (pre : Schema) f s :
  fd_name f ∉ map fd_name pre -> index_of (pre ++ f :: s) (fd_name f) = Some (length pre).
Proof.
  induction pre as [|g pre IH]; cbn; [by rewrite String.eqb_refl|].
  intros [H1 H2]%not_elem_of_cons. destruct (String.eqb_spec (fd_name g) (fd_name f)); [by subst|].
  by rewrite IH.
Qed.

Lemma index_of_fresh (s : Schema) name : name ∉ map fd_name s -> index_of s name = None.
Proof.
  induction s as [|g s IH]; [done|]. cbn. intros [H1 H2]%not_elem_of_cons.
  destruct (String.eqb_spec (fd_name g) name); [by subst|]. by rewrite IH.
Qed.

Lemma carry_col_spec n o f c :
  field_evolves o f -> column_fits n o c ->
  column_fits n f (carry_col o f c) /\
  (fd_type o <> fd_type f -> cast c (fd_type f) = Some (carry_col o f c)).
Proof.
  intros (_ & Hnull & Ht) (Hc1 & Hc2 & Hc3). unfold carry_col. case_bool_decide as E.
  - split; [|done]. repeat split; [congruence|done|]. destruct Hc3; auto.
  - destruct Ht as [Ht|Ht]; [done|]. rewrite <- Hc1 in Ht.
    destruct (cast_widens c (fd_type f) Ht) as (d & Hd & Htd & Hcells). rewrite Hd. cbn.
    split; [|done]. repeat split; [done| |].
    + by rewrite <- (Forall2_length _ _ _ Hcells).
    + destruct Hc3 as [Hc3|Hc3]; [auto|right]. clear -Hcells Hc3.
      induction Hcells as [|x y l k Hxy Hl IH]; [constructor|].
      apply Forall_cons in Hc3 as [Hx Hc3]. constructor; [by apply Hxy|auto].
Qed.

Lemma null_fits n f : fd_nullable f = true -> column_fits n f (new_null_array (fd_type f) n).
Proof. intros Hf. repeat split; [|by left]. apply length_replicate. Qed.

(** The relation on schemas, one field at a time. *)
Fixpoint evolves_at (old new : Schema) : Prop :=
  match old, new with
  | [], _ => Forall (fun f => fd_nullable f = true) new
  | o :: old', f :: new' => field_evolves o f /\ evolves_at old' new'
  | _ :: _, [] => False
  end.

Lemma evolves_at_iff old new : evolves old new <-> evolves_at old new.
Proof.
  revert new. induction old as [|o old IH]; intros new; cbn.
  - split; [intros (k & a & -> & Hk & Ha); by inversion Hk|]. intros Ha. by exists [], new.
  - split.
    + intros (k & a & -> & Hk & Ha). inversion Hk; subst. split; [done|]. apply IH.
      eexists _, a. eauto.
    + destruct new as [|f new]; [done|]. intros [Hf Hn].
      apply IH in Hn as (k & a & -> & Hk & Ha). exists (f :: k), a. repeat split; [by constructor|done].
Qed.

Lemma carry_cols_fit rows old new cols :
  evolves_at old new -> Forall2 (column_fits rows) old cols ->
  Forall2 (column_fits rows) new (carry_cols rows old new cols).
Proof.
  revert old cols. induction new as [|f new IH]; intros old cols He Hc; [constructor|].
  destruct Hc as [|o c old cols Hoc Hc]; cbn in *.
  - apply Forall_cons in He as [Hf He]. constructor; [by apply null_fits|]. by apply IH.
  - destruct He as [Hof He]. constructor; [by apply carry_col_spec|]. by apply IH.
Qed.

(** The lookups by name find the columns in order. *)
Lemma adapt_columns batch pre_o old pre_c cols new :
  rb_schema batch = pre_o ++ old -> rb_columns batch = pre_c ++ cols ->
  length pre_o = length pre_c -> NoDup (map fd_name pre_o ++ map fd_name new) ->
  evolves_at old new -> Forall2 (column_fits (rb_rows batch)) old cols ->
  map_res (adapt_column batch) new = Ok (carry_cols (rb_rows batch) old new cols).
Proof.
  revert pre_o old pre_c cols. induction new as [|f new IH]; intros pre_o old pre_c cols Hs Hb Hl Hn He Hc; [done|].
  assert (Hnf : NoDup (map fd_name (pre_o ++ [f]) ++ map fd_name new)).
  { rewrite map_app, <- app_assoc. exact Hn. }
  cbn [map_res]. destruct Hc as [|o c old cols Hoc Hc]; cbn [carry_cols].
  - rewrite app_nil_r in *. unfold adapt_column at 1. rewrite index_of_fresh.
    + rewrite (IH pre_o [] pre_c []); rewrite ?app_nil_r; try done.
      * apply NoDup_app in Hn as (H1 & H2 & H3). cbn in H2, H3. apply NoDup_cons in H3 as [_ H3].
        apply NoDup_app. repeat split; [done| |done]. intros x Hx Hin. apply (H2 x Hx). by right.
      * cbn in He. by apply Forall_cons in He as [_ He].
    + rewrite Hs. apply NoDup_app in Hn as (_ & H2 & _). intros Hin. apply (H2 _ Hin). by left.
  - cbn in He. destruct He as [Hof He]. pose proof Hof as (Hname & _ & _).
    destruct (carry_col_spec _ _ _ _ Hof Hoc) as [_ Hcast].
    assert (Hcol : adapt_column batch f = Ok (carry_col o f c)).
    { unfold adapt_column. rewrite Hs, Hname, index_of_app.
      - cbv beta iota. rewrite Hb, (list_lookup_middle pre_c cols c) by done. destruct Hoc as (Hty & _).
        rewrite Hty. case_bool_decide as E; [|by rewrite Hcast].
        unfold carry_col. by rewrite bool_decide_true.
      - rewrite <- Hname. apply NoDup_app in Hn as (_ & H2 & _). intros Hin.
        apply (H2 _ Hin). by left. }
    rewrite Hcol. rewrite (IH (pre_o ++ [o]) old (pre_c ++ [c]) cols); [done|..]; try done.
    + by rewrite <- app_assoc.
    + by rewrite <- app_assoc.
    + rewrite !length_app. cbn. lia.
    + rewrite map_app, <- app_assoc. cbn. rewrite <- Hname. exact Hn.
Qed.

Lemma carry_cols_same rows s cols :
  Forall2 (column_fits rows) s cols -> carry_cols rows s s cols = cols.
Proof.
  induction 1 as [|f c s cols Hf Hc IH]; [done|]. cbn. f_equal; [|done].
  unfold carry_col. by rewrite bool_decide_true.
Qed.

(** Carrying through an intermediate schema is carrying once. *)
Lemma carry_cols_trans rows old mid new cols :
  evolves_at old mid -> evolves_at mid new -> Forall2 (column_fits rows) old cols ->
  carry_cols rows mid new (carry_cols rows old mid cols) = carry_cols rows old new cols.
Proof.
  revert old mid cols. induction new as [|f new IH]; intros old mid cols H1 H2 Hc; [done|].
  destruct mid as [|m mid]; cbn [carry_cols].
  - destruct old; [|done]. by inversion Hc; subst.
  - destruct H2 as [Hmf H2]. destruct Hc as [|o c old cols Hoc Hc]; cbn [carry_cols].
    + cbn in H1. apply Forall_cons in H1 as [Hm H1]. f_equal; [|by apply IH].
      unfold carry_col. case_bool_decide as E; [by rewrite E|].
      destruct Hmf as (_ & _ & [Ht|Ht]); [done|]. by rewrite cast_null.
    + destruct H1 as [Hom H1]. f_equal; [|by apply IH].
      destruct (carry_col_spec _ _ _ _ Hom Hoc) as [_ Hcast]. revert Hcast.
      destruct Hoc as (Hty & _). destruct Hom as (_ & _ & Hom), Hmf as (_ & _ & Hmf).
      unfold carry_col. destruct (bool_decide (fd_type o = fd_type m)) eqn:E1.
      * apply bool_decide_eq_true in E1. by rewrite E1.
      * apply bool_decide_eq_false in E1. intros Hcast. specialize (Hcast E1).
        destruct Hom as [?|Hom]; [done|].
        destruct (bool_decide (fd_type m = fd_type f)) eqn:E2.
        -- apply bool_decide_eq_true in E2. rewrite <- E2. by rewrite bool_decide_false.
        -- apply bool_decide_eq_false in E2. destruct Hmf as [?|Hmf]; [done|].
           rewrite bool_decide_false.
           ++ rewrite <- Hty in Hom.
              destruct (cast_widens c (fd_type f) (is_widening_trans _ _ _ Hom Hmf)) as (d & Hd & _).
              by rewrite (cast_cast _ _ _ _ Hom Hmf Hcast), Hd.
           ++ intros E. rewrite E in Hom.
              pose proof (is_widening_trans _ _ _ Hom Hmf) as W. by rewrite is_widening_irrefl in W.
Qed.

(** The batch a newer revision reads. *)
Definition carried (b : Batch Cell) (new : Schema) : Batch Cell :=
  mkBatch Cell new (carry_cols (rb_rows b) (rb_schema b) new (rb_columns b)) (rb_rows b).

Lemma carried_valid b new : evolves (rb_schema b) new -> valid_batch b -> valid_batch (carried b new).
Proof.
  intros He [Hne Hv]. apply evolves_at_iff in He. pose proof (carry_cols_fit _ _ _ _ He Hv) as Hfit.
  split; [|done]. cbn. destruct (rb_schema b), new; done.
Qed.

Lemma adapt_is_carry b new :
  evolves (rb_schema b) new -> NoDup (map fd_name new) -> valid_batch b -> adapt_batch new b = Ok (carried b new).
Proof.
  intros He Hn Hb. pose proof (carried_valid b new He Hb) as [Hnew Hfit]. destruct Hb as [Hne Hv].
  apply evolves_at_iff in He. unfold adapt_batch, carried. case_bool_decide as E.
  - subst new. rewrite carry_cols_same by done. by destruct b.
  - rewrite (adapt_columns b [] (rb_schema b) [] (rb_columns b)) by done.
    by rewrite (try_new_valid _ _ (rb_rows b)).
Qed.

Lemma evolves_names mid new : evolves mid new -> NoDup (map fd_name new) -> NoDup (map fd_name mid).
Proof.
  intros (kept & added & -> & Hk & _). rewrite map_app. intros [Hn _]%NoDup_app.
  assert (map fd_name mid = map fd_name kept) as ->; [|done].
  induction Hk as [|f g l l' (E & _) Hl IH]; cbn in *; [done|]. apply NoDup_cons in Hn as [_ Hn].
  by rewrite E, IH.
Qed.

(** C40 A segment written under an older revision always reads under a later one: every old
    column is carried, widened if its type changed, and the added ones are null. *)
Theorem evolved_batch_reads b new :
  evolves (rb_schema b) new -> NoDup (map fd_name new) -> valid_batch b ->
  let b' := mkBatch Cell new (carry_cols (rb_rows b) (rb_schema b) new (rb_columns b)) (rb_rows b) in
  adapt_batch new b = Ok b' /\ valid_batch b'.
Proof. intros He Hn Hb. split; [by apply adapt_is_carry|by apply (carried_valid b new)]. Qed.

(** Reading through an intermediate revision gives the same batch as reading at once. *)
Theorem adapting_composes b mid new :
  evolves (rb_schema b) mid -> evolves mid new -> NoDup (map fd_name new) -> valid_batch b ->
  exists b1 b2, adapt_batch mid b = Ok b1 /\ adapt_batch new b1 = Ok b2 /\ adapt_batch new b = Ok b2.
Proof.
  intros H1 H2 Hn Hv. exists (carried b mid), (carried b new).
  pose proof (evolves_names _ _ H2 Hn) as Hm. pose proof (evolves_trans _ _ _ H1 H2) as H3.
  split; [by apply adapt_is_carry|]. split; [|by apply adapt_is_carry].
  rewrite adapt_is_carry; [|done..|by apply carried_valid]. unfold carried. do 2 f_equal. cbn.
  destruct Hv as [_ Hv]. apply evolves_at_iff in H1, H2. by rewrite carry_cols_trans.
Qed.
End AdaptTheorems.

(** A policy key governs one operation: setting it decides that operation and leaves every
    other one as it was. *)
Theorem policy_key_governs_one p key value p' op :
  MutationPolicy.set p key value = Ok p' ->
  MutationPolicy.check_direct p' op =
    if String.eqb key ("direct_" +:+ match op with
                        | OpReplaceRange => "replace" | OpDeleteRange => "delete"
                        | _ => OpKind.to_string op end)
    then if value then Ok tt else Err (PolicyViolation (OpKind.to_string op))
    else MutationPolicy.check_direct p op.
Proof.
  unfold MutationPolicy.set. intros H.
  repeat match type of H with
  | (if String.eqb key ?k then _ else _) = _ =>
      destruct (String.eqb_spec key k) as [->|?]; [injection H as <-; by destruct op|]
  end.
  discriminate.
Qed.
