(* ===== verification/Disk.v ===== *)
(** * The local backend and programs over it ([backend.rs])

    The files of a database directory with what a power loss may leave of them, the calls
    of [Backend] and [LocalHeadStore], and the monad the rest of the storage engine is
    written in.

    - A file that was written and not yet flushed may come back from a crash as it was
      before, absent or torn: [pending] keeps the alternatives until [sync_objects].
    - A program is a free monad of calls.  Any call may fail, with or without its effect
      ([Fault]); the error is a value, so cleanup code runs.  [run] executes a program
      under given faults, [states] is every disk it passes through, that is every disk a
      crash can interrupt it in.
    - A section under an exclusive lock runs without other writers: a program that takes
      the lock starts from whatever disk the others left.  Taking a lock is a call that can
      time out.
    - The temporary file of a HEAD swap is kept in [temps] under its target, with whether it was
      flushed: its name is the target's with a fresh uuid, so nothing else reads or lists it.
      Renamed unflushed, it may come back torn.
    - [wpc ft p d Q C]: with calls that may fail ([ft]) or not, [p] ends in a state of [Q], and
      every state on the way satisfies [C]. *)
From S2P Require Export TableSpec.

Record File := mkFile { fl_obj : Obj; fl_modified : Z }.
#[export] Instance File_eq_dec : EqDecision File.
Proof. solve_decision. Defined.

(** What a path may hold after a crash besides what it holds now. *)
Record Pending := mkPending { pd_before : list (option File); pd_torn : bool }.

Record Disk := mkDisk {
  files : gmap Path File;
  pending : gmap Path Pending;
  ticks : nat;
  uuids : nat;
  temps : gmap Path (Obj * bool);
}.
#[export] Instance eta_Disk : Eta Disk := fun d =>
  mkDisk (files d) (pending d) (ticks d) (uuids d) (temps d).

(** A disk after a power loss: each path holds what it held, or one of its alternatives. *)
Definition survives (d d' : Disk) : Prop :=
  (forall p, files d' !! p = files d !! p \/
     exists a, pending d !! p = Some a /\
       (In (files d' !! p) (pd_before a) \/
        (pd_torn a = true /\ exists bytes t, files d' !! p = Some (mkFile (ORaw bytes) t)))) /\
  pending d' = ∅.

(** ** Calls *)
Inductive Call : Type -> Type :=
| Get (p : Path) : Call (option File)
| Put (p : Path) (o : Obj) : Call unit
| PutIfAbsent (p : Path) (o : Obj) : Call bool
| Delete (p : Path) : Call unit
| List (prefix : Path) : Call (list (Path * File))
| SyncObjects (ps : list Path) : Call unit
| CreateTemp (p : Path) (o : Obj) : Call unit
| SyncTemp (p : Path) : Call unit
| Rename (p : Path) : Call bool
| Lock (name : string) : Call unit
| Now : Call Z
| NewUuid : Call Uuid.

Definition call_error {T} (c : Call T) : StoreError :=
  match c with Lock name => LockTimeout name | _ => ObjectStore end.

Definition mark (p : Path) (torn : bool) (d : Disk) : gmap Path Pending :=
  let a := default (mkPending [] false) (pending d !! p) in
  <[p := mkPending (files d !! p :: pd_before a) (torn || pd_torn a)]> (pending d).

Fixpoint is_prefix (prefix p : Path) : bool :=
  match prefix, p with
  | [], _ => true
  | a :: prefix', b :: p' => String.eqb a b && is_prefix prefix' p'
  | _, [] => false
  end.

Section Disk.
Context `{Env}.

Definition now (d : Disk) : Z := wall (ticks d).
Definition put_file (p : Path) (o : Obj) (torn : bool) (d : Disk) : Disk :=
  d <| files := <[p := mkFile o (now d)]> (files d) |> <| pending := mark p torn d |>.
Definition del_file (p : Path) (d : Disk) : Disk :=
  d <| files := delete p (files d) |> <| pending := mark p false d |>.

(** What each call does. *)
Definition effect {T} (c : Call T) (d : Disk) : T * Disk :=
  match c in Call T return T * Disk with
  | Get p => (files d !! p, d)
  | Put p o => (tt, put_file p o true d)
  | PutIfAbsent p o =>
      match files d !! p with
      | Some _ => (false, d)
      | None => (true, put_file p o true d)
      end
  | Delete p => (tt, match files d !! p with Some _ => del_file p d | None => d end)
  | List prefix => (List.filter (fun e => is_prefix prefix e.1 && negb (bool_decide (e.1 = prefix)))
                      (map_to_list (files d)), d)
  | SyncObjects ps => (tt, d <| pending := foldr delete (pending d) ps |>)
  | CreateTemp p o => (tt, d <| temps := <[p := (o, false)]> (temps d) |>)
  | SyncTemp p => (tt, d <| temps := alter (fun e => (e.1, true)) p (temps d) |>)
  | Rename p =>
      match temps d !! p with
      | Some (o, flushed) => (true, put_file p o (negb flushed) (d <| temps := delete p (temps d) |>))
      | None => (false, d)
      end
  | Lock _ => (tt, d)
  | Now => (now d, d <| ticks := S (ticks d) |>)
  | NewUuid => (new_uuid (uuids d), d <| uuids := S (uuids d) |>)
  end.
End Disk.
#[global] Arguments put_file : simpl never.
#[global] Arguments del_file : simpl never.

(** ** Programs *)
Inductive prog (A : Type) : Type :=
| Ret (r : DbResult A)
| Do {T : Type} (c : Call T) (k : DbResult T -> prog A).
Arguments Ret {A} r.
Arguments Do {A T} c k.

Definition ret {A} (a : A) : prog A := Ret (Ok a).
Definition throw {A} (e : StoreError) : prog A := Ret (Err e).
Definition lift {A} (r : DbResult A) : prog A := Ret r.
Definition call {T} (c : Call T) : prog T := Do c Ret.

Fixpoint then_ {A B} (p : prog A) (f : DbResult A -> prog B) : prog B :=
  match p with
  | Ret r => f r
  | Do c k => Do c (fun r => then_ (k r) f)
  end.
Definition bind {A B} (p : prog A) (f : A -> prog B) : prog B :=
  then_ p (fun r => match r with Ok a => f a | Err e => throw e end).
(** The result as a value: the code inspects or drops the error. *)
Definition attempt {A} (p : prog A) : prog (DbResult A) := then_ p (fun r => ret r).

Declare Scope prog_scope.
Delimit Scope prog_scope with prog.
Open Scope prog_scope.
Notation "'let!' x := e 'in' k" := (bind e (fun x => k))
  (at level 10, x name, e at level 200, k at level 200) : prog_scope.
Notation "'let!' ' p := e 'in' k" := (bind e (fun '(p) => k))
  (at level 10, p strict pattern, e at level 200, k at level 200) : prog_scope.
Notation "'do!' e 'in' k" := (bind e (fun _ => k))
  (at level 10, e at level 200, k at level 200) : prog_scope.

Fixpoint for_each {A} (body : A -> prog unit) (l : list A) : prog unit :=
  match l with [] => ret tt | a :: l' => do! body a in for_each body l' end.
Fixpoint fold_prog {A S} (body : S -> A -> prog S) (s : S) (l : list A) : prog S :=
  match l with [] => ret s | a :: l' => let! s' := body s a in fold_prog body s' l' end.
Fixpoint map_prog {A B} (body : A -> prog B) (l : list A) : prog (list B) :=
  match l with
  | [] => ret []
  | a :: l' => let! b := body a in let! bs := map_prog body l' in ret (b :: bs)
  end.

(** ** Running *)
Inductive Fault := NoFault | FailBefore | FailAfter.

Section Run.
Context `{Env}.

Definition perform {T} (f : Fault) (c : Call T) (d : Disk) : DbResult T * Disk :=
  let '(r, d') := effect c d in
  match f with
  | NoFault => (Ok r, d')
  | FailBefore => (Err (call_error c), d)
  | FailAfter => (Err (call_error c), d')
  end.

(** Calls past the list of faults succeed. *)
Definition next_fault (fs : list Fault) : Fault * list Fault :=
  match fs with [] => (NoFault, []) | f :: fs' => (f, fs') end.

Fixpoint run {A} (fs : list Fault) (p : prog A) (d : Disk) : DbResult A * Disk :=
  match p with
  | Ret r => (r, d)
  | Do c k =>
      let '(f, fs') := next_fault fs in
      let '(r, d') := perform f c d in
      run fs' (k r) d'
  end.

Fixpoint states {A} (fs : list Fault) (p : prog A) (d : Disk) : list Disk :=
  d :: match p with
       | Ret _ => []
       | Do c k =>
           let '(f, fs') := next_fault fs in
           let '(r, d') := perform f c d in
           states fs' (k r) d'
       end.

(** The disk found after a power loss somewhere in the run. *)
Definition crashes {A} (p : prog A) (d d' : Disk) : Prop :=
  exists fs di, In di (states fs p d) /\ survives di d'.

(** With [ft] the calls may fail, without they do not. *)
Fixpoint wpc {A} (ft : bool) (p : prog A) (d : Disk) (Q : DbResult A -> Disk -> Prop) (C : Disk -> Prop) : Prop :=
  C d /\
  match p with
  | Ret r => Q r d
  | Do c k =>
      wpc ft (k (Ok (effect c d).1)) (effect c d).2 Q C /\
      (ft = true -> wpc ft (k (Err (call_error c))) d Q C) /\
      (ft = true -> wpc ft (k (Err (call_error c))) (effect c d).2 Q C)
  end.

Lemma wpc_run {A} ft (p : prog A) d Q C fs :
  wpc ft p d Q C -> (ft = false -> fs = []) -> Q (run fs p d).1 (run fs p d).2.
Proof.
  revert d fs. induction p as [r|T c k IH]; intros d fs; cbn; [by intros [_ HQ]|].
  intros (_ & H1 & H2 & H3) Hf. destruct ft.
  - destruct (next_fault fs) as [f fs']. unfold perform.
    destruct (effect c d) as [r d']. destruct f; by apply IH; auto.
  - rewrite Hf by done. unfold next_fault, perform. destruct (effect c d) as [r d']. by apply IH.
Qed.

Lemma wpc_states {A} (p : prog A) d Q C fs : wpc true p d Q C -> Forall C (states fs p d).
Proof.
  revert d fs. induction p as [r|T c k IH]; intros d fs; cbn.
  - intros [HC _]. by repeat constructor.
  - intros (HC & H1 & H2 & H3). constructor; [done|]. destruct (next_fault fs) as [f fs']. unfold perform.
    destruct (effect c d) as [r d']. destruct f; apply IH; auto.
Qed.

Lemma wpc_crash {A} (p : prog A) d d' Q C :
  wpc true p d Q C -> crashes p d d' -> exists di, C di /\ survives di d'.
Proof.
  intros Hw (fs & di & Hin & Hs). exists di. split; [|done].
  pose proof (wpc_states p d Q C fs Hw) as HF. rewrite List.Forall_forall in HF. by apply HF.
Qed.

Lemma wpc_now {A} ft (p : prog A) d Q C : wpc ft p d Q C -> C d.
Proof. destruct p; by intros [HC _]. Qed.

Lemma wpc_mono {A} ft (p : prog A) d (Q Q' : DbResult A -> Disk -> Prop) (C C' : Disk -> Prop) :
  (forall r d, Q r d -> Q' r d) -> (forall d, C d -> C' d) -> wpc ft p d Q C -> wpc ft p d Q' C'.
Proof.
  intros HQ HC. revert d. induction p as [r|T c k IH]; intros d; cbn.
  - intros [? ?]. auto.
  - intros (? & ? & ? & ?). auto 8.
Qed.

(** Faults or none: what holds with faults holds without. *)
Lemma wpc_no_faults {A} (p : prog A) d Q C : wpc true p d Q C -> wpc false p d Q C.
Proof.
  revert d. induction p as [r|T c k IH]; intros d; cbn; [done|].
  intros (? & ? & _ & _). repeat split; [done|auto|done|done].
Qed.

Lemma wpc_then {A B} ft (p : prog A) (f : DbResult A -> prog B) d Q C :
  wpc ft p d (fun r d' => wpc ft (f r) d' Q C) C -> wpc ft (then_ p f) d Q C.
Proof.
  revert d. induction p as [r|T c k IH]; intros d; cbn; [by intros [_ ?]|].
  intros (? & ? & ? & ?). auto 8.
Qed.

Lemma wpc_bind {A B} ft (p : prog A) (f : A -> prog B) d Q C :
  wpc ft p d (fun r d' => match r with Ok a => wpc ft (f a) d' Q C | Err e => C d' /\ Q (Err e) d' end) C ->
  wpc ft (bind p f) d Q C.
Proof.
  intros Hp. apply wpc_then. eapply wpc_mono; [|done|exact Hp]. intros [a|e] d'; [done|]. by intros [? ?].
Qed.

Lemma wpc_attempt {A} ft (p : prog A) d (Q : DbResult (DbResult A) -> Disk -> Prop) C :
  wpc ft p d (fun r d' => C d' /\ Q (Ok r) d') C -> wpc ft (attempt p) d Q C.
Proof. intros Hp. apply wpc_then. eapply wpc_mono; [|done|exact Hp]. by intros r d' [? ?]. Qed.

Lemma wpc_ret {A} ft (r : DbResult A) d (Q : DbResult A -> Disk -> Prop) (C : Disk -> Prop) :
  C d -> Q r d -> wpc ft (Ret r) d Q C.
Proof. by split. Qed.

(** A call: what it does, and failing before and after. *)
Lemma wpc_call {T} ft (c : Call T) d (Q : DbResult T -> Disk -> Prop) (C : Disk -> Prop) :
  C d -> C (effect c d).2 -> Q (Ok (effect c d).1) (effect c d).2 ->
  (ft = true -> Q (Err (call_error c)) d /\ Q (Err (call_error c)) (effect c d).2) ->
  wpc ft (call c) d Q C.
Proof. intros H1 H2 H3 H4. cbn. repeat split; try done; by apply H4. Qed.

(** A loop keeps an invariant that its body keeps. *)
Lemma wpc_for_each {A} ft (body : A -> prog unit) (l : list A) (I : Disk -> Prop) d :
  (forall a d, In a l -> I d -> wpc ft (body a) d (fun _ => I) I) -> I d ->
  wpc ft (for_each body l) d (fun _ => I) I.
Proof.
  revert d. induction l as [|a l IH]; intros d Hb HI; cbn; [by split|].
  apply wpc_bind. eapply wpc_mono; [| |apply Hb; [by left|done]]; [|done].
  intros [u|e] d' HI'; [|done]. apply IH; [|done]. intros b d1 Hin. apply Hb. by right.
Qed.

(** *** Programs that only read *)
Definition reads {T} (c : Call T) : bool :=
  match c with Get _ | List _ | Now | NewUuid | Lock _ => true | _ => false end.
Fixpoint read_only {A} (p : prog A) : Prop :=
  match p with Ret _ => True | Do c k => reads c = true /\ forall r, read_only (k r) end.

Definition same_files (d d' : Disk) : Prop := files d' = files d /\ pending d' = pending d.

#[export] Instance same_files_preorder : PreOrder same_files.
Proof. split; [by split|]. intros a b c [H1 H2] [H3 H4]. split; congruence. Qed.

Lemma reads_same {T} (c : Call T) d : reads c = true -> same_files d (effect c d).2.
Proof. by destruct c. Qed.

Lemma read_only_then {A B} (p : prog A) (f : DbResult A -> prog B) :
  read_only p -> (forall r, read_only (f r)) -> read_only (then_ p f).
Proof. induction p as [r|T c k IH]; cbn; [auto|]. intros [? ?] ?. auto. Qed.

Lemma read_only_bind {A B} (p : prog A) (f : A -> prog B) :
  read_only p -> (forall a, read_only (f a)) -> read_only (bind p f).
Proof. intros Hp Hf. apply read_only_then; [done|]. by intros [a|e]. Qed.

Lemma read_only_attempt {A} (p : prog A) : read_only p -> read_only (attempt p).
Proof. intros Hp. by apply read_only_then. Qed.

Lemma read_only_fold {A S} (body : S -> A -> prog S) l s :
  (forall s a, read_only (body s a)) -> read_only (fold_prog body s l).
Proof.
  intros Hb. revert s. induction l as [|a l IH]; intros s; cbn; [done|].
  by apply read_only_bind.
Qed.

Lemma read_only_map {A B} (body : A -> prog B) l :
  (forall a, read_only (body a)) -> read_only (map_prog body l).
Proof.
  intros Hb. induction l as [|a l IH]; cbn; [done|].
  apply read_only_bind; [done|]. intros b. by apply read_only_bind.
Qed.

Lemma read_only_for_each {A} (body : A -> prog unit) l :
  (forall a, read_only (body a)) -> read_only (for_each body l).
Proof.
  intros Hb. induction l as [|a l IH]; cbn; [done|]. by apply read_only_bind.
Qed.

(** Reading changes no file under any fault or crash. *)
Lemma wpc_read_only {A} ft (p : prog A) d (C : Disk -> Prop) (Q : DbResult A -> Disk -> Prop) :
  read_only p -> (forall d', same_files d d' -> C d') ->
  (forall r d', same_files d d' -> Q r d') -> wpc ft p d Q C.
Proof.
  intros Hp HC HQ.
  assert (Hgen : forall d1, same_files d d1 -> wpc ft p d1 Q C); [|by apply Hgen].
  clear -Hp HC HQ. induction p as [r|T c k IH]; intros d1 Hd; cbn; [auto|].
  destruct Hp as [Hc Hk]. pose proof (reads_same c d1 Hc) as Hs.
  assert (same_files d (effect c d1).2) by by etransitivity.
  repeat split; eauto.
Qed.
End Run.

Ltac read_only_tac :=
  repeat first
    [ done
    | progress cbv beta iota
    | apply read_only_bind; [|intros ?]
    | apply read_only_attempt
    | apply read_only_then; [|intros ?]
    | apply read_only_fold; intros ? ?
    | apply read_only_map; intros ?
    | apply read_only_for_each; intros ?
    | match goal with |- read_only (match ?x with _ => _ end) => destruct x end
    | split; [reflexivity|intros ?] ].
#[export] Hint Resolve read_only_bind read_only_attempt read_only_fold read_only_map : h5i.
