(* ===== verification/Store.v ===== *)
(** * The object stores of the metadata

    [Backend] and [LocalHeadStore] ([backend.rs]) and the loaders and writers of each kind
    of object: [catalog.rs], [snapshot.rs], [policy.rs], the storage half of [fork.rs], and
    [retention_floor] of [retention.rs].  Concurrent fetches of a listing ([buffer_unordered])
    are one loop in the listing's order; the results are sorted as in the code. *)
From S2P Require Export Disk.

Module Backend.
Section Backend.
Definition put (p : Path) (o : Obj) : prog unit := call (Put p o).
Definition put_if_absent (p : Path) (o : Obj) : prog bool := call (PutIfAbsent p o).
Definition meta_lock : prog unit := call (Lock "<catalog metadata>").
Definition get_opt (p : Path) : prog (option Obj) :=
  let! f := call (Get p) in ret (fl_obj <$> f).
(** A missing object is an [object_store] error. *)
Definition get (p : Path) : prog Obj :=
  let! f := call (Get p) in
  match f with Some f => ret (fl_obj f) | None => throw ObjectStore end.
Definition delete (p : Path) : prog unit := call (Delete p).
Definition delete_many (ps : list Path) : prog unit := for_each delete ps.
Definition sync_objects (ps : list Path) : prog unit :=
  match ps with [] => ret tt | _ => call (SyncObjects ps) end.
Definition list (prefix : Path) : prog (list (Path * File)) := call (List prefix).
End Backend.
End Backend.

Abbreviation HeadTag := Digest (only parsing).
Record HeadState := mkHeadState { hs_head : Head; hs_tag : HeadTag }.
#[export] Instance HeadState_eq_dec : EqDecision HeadState.
Proof. solve_decision. Defined.
Record HeadSwap := mkHeadSwap {
  hw_table_id : Uuid;
  hw_table_name : string;
  hw_expected : option HeadTag;
  hw_new_head : Head;
}.

Module LocalHeadStore.
Section LocalHeadStore.
Context `{Env}.

Definition read_head_file (path : Path) : prog (option HeadState) :=
  let! bytes := Backend.get_opt path in
  match bytes with
  | None => ret None
  | Some o => let! head := lift (Head.from_bytes o path) in ret (Some (mkHeadState head (checksum_hex o)))
  end.
Definition read (table_id : Uuid) : prog (option HeadState) := read_head_file (head_path table_id).

(** A temporary file is written and flushed, renamed over HEAD, and the directory is
    flushed: HEAD is the old one or the new one at every moment. *)
Definition rename (path : Path) : prog unit :=
  let! found := call (Rename path) in if found then ret tt else throw ObjectStore.
Definition write_head_file (path : Path) (head : Head) : prog HeadTag :=
  do! call (CreateTemp path (Head.to_bytes head)) in
  do! call (SyncTemp path) in
  do! rename path in
  do! call (SyncObjects [path]) in
  ret (checksum_hex (Head.to_bytes head)).
(** Every temporary file is flushed before any rename, the directories after all of them. *)
Definition write_head_files (items : list (Path * Head)) : prog (list HeadTag) :=
  do! for_each (fun i => call (CreateTemp i.1 (Head.to_bytes i.2))) items in
  do! for_each (fun i => call (SyncTemp i.1)) items in
  do! for_each (fun i => rename i.1) items in
  do! for_each (fun i => call (SyncObjects [i.1])) items in
  ret (map (fun i => checksum_hex (Head.to_bytes i.2)) items).

Definition check_expected (table_name : string) (expected : option HeadTag) (new_head : Head)
    (current : option HeadState) : DbResult unit :=
  if bool_decide (expected = hs_tag <$> current) then Ok tt
  else Err (VersionConflict table_name (Z.max 0 (hd_sequence new_head - 1))
              (match current with Some s => hd_sequence (hs_head s) | None => 0 end)).

Definition commit (table_id : Uuid) (table_name : string) (expected : option HeadTag)
    (new_head : Head) (publish : prog unit) : prog HeadTag :=
  do! call (Lock table_name) in
  let! current := read_head_file (head_path table_id) in
  do! lift (check_expected table_name expected new_head current) in
  do! publish in
  write_head_file (head_path table_id) new_head.

Definition revalidate (swap : HeadSwap) : prog unit :=
  do! call (Lock (hw_table_name swap)) in
  let! current := read_head_file (head_path (hw_table_id swap)) in
  lift (check_expected (hw_table_name swap) (hw_expected swap) (hw_new_head swap) current).

Definition commit_batch (swaps : list HeadSwap) (publish : prog unit) : prog (list HeadTag) :=
  match swaps with
  | [] => do! publish in ret []
  | _ =>
      do! for_each revalidate swaps in
      do! publish in
      write_head_files (map (fun s => (head_path (hw_table_id s), hw_new_head s)) swaps)
  end.

Definition remove (table_id : Uuid) : prog unit :=
  do! call (Lock table_id) in Backend.delete (head_path table_id).
End LocalHeadStore.
End LocalHeadStore.

(** ** Catalog *)
Module Catalog.
Section Catalog.
Context `{Env}.

Definition parse (o : Obj) (path : Path) : DbResult CatalogEntry :=
  match o with
  | OCatalog entry =>
      let? _ := verify path "catalog entry checksum mismatch" entry in Ok entry
  | _ => Err (Corruption path "catalog parse")
  end.

Definition load_entry (name : string) : prog (option CatalogEntry) :=
  let path := catalog_entry_path name in
  let! bytes := Backend.get_opt path in
  match bytes with
  | None => ret None
  | Some o =>
      let! entry := lift (parse o path) in
      if String.eqb (ce_name entry) name then ret (Some entry)
      else throw (Corruption path "catalog entry name does not match requested name")
  end.

Definition store_entry (entry : CatalogEntry) : prog unit :=
  let path := catalog_entry_path (ce_name entry) in
  do! Backend.put path (OCatalog entry) in
  Backend.sync_objects [path].

Definition create_entry_unsynced (entry : CatalogEntry) : prog Path :=
  let path := catalog_entry_path (ce_name entry) in
  let! created := Backend.put_if_absent path (OCatalog entry) in
  if negb created then throw (TableExists (ce_name entry)) else ret path.

Definition create_entry (entry : CatalogEntry) : prog unit :=
  let! path := create_entry_unsynced entry in
  Backend.sync_objects [path].

Definition remove_entry (name : string) : prog unit := Backend.delete (catalog_entry_path name).

Definition list_entries : prog (list CatalogEntry) :=
  let! metas := Backend.list CATALOG_PREFIX in
  let! out := map_prog (fun meta =>
    let! o := Backend.get meta.1 in lift (parse o meta.1)) metas in
  ret (sort_by_key ce_name out).
End Catalog.
End Catalog.

(** ** Snapshots *)
Module Snapshot.
Section Snapshot.
Context `{Env}.

Definition parse (o : Obj) (path : Path) : DbResult Snapshot :=
  match o with
  | OSnapshot snap => let? _ := verify path "snapshot checksum mismatch" snap in Ok snap
  | _ => Err (Corruption path "snapshot parse")
  end.

Definition list : prog (list Snapshot) :=
  let! metas := Backend.list SNAPSHOT_PREFIX in
  let! out := map_prog (fun meta =>
    let! o := Backend.get meta.1 in lift (parse o meta.1)) metas in
  ret (sort_by_key sn_name out).

(** The names found only improve the message; a failed listing is dropped. *)
Definition load (name : string) : prog Snapshot :=
  let path := snapshot_path name in
  let! bytes := Backend.get_opt path in
  match bytes with
  | None => let! existing := attempt list in throw (SnapshotNotFound name)
  | Some o =>
      let! snap := lift (parse o path) in
      if String.eqb (sn_name snap) name then ret snap
      else throw (Corruption path "snapshot name does not match")
  end.

Definition store (snapshot : Snapshot) : prog unit :=
  let path := snapshot_path (sn_name snapshot) in
  let! created := Backend.put_if_absent path (OSnapshot snapshot) in
  if negb created then throw (InvalidInput "snapshot already exists")
  else Backend.sync_objects [path].

Definition delete (name : string) : prog unit :=
  let! _snap := load name in Backend.delete (snapshot_path name).
End Snapshot.
End Snapshot.

(** ** Mutation policy *)
Module PolicyStore.
Section PolicyStore.
Definition load : prog MutationPolicy :=
  let! bytes := Backend.get_opt POLICY_FILE in
  match bytes with
  | None => ret MutationPolicy.default
  | Some (OPolicy p) => ret p
  | Some _ => throw (Corruption POLICY_FILE "policy parse")
  end.
Definition store (policy : MutationPolicy) : prog unit :=
  do! Backend.put POLICY_FILE (OPolicy policy) in
  Backend.sync_objects [POLICY_FILE].
End PolicyStore.
End PolicyStore.

(** ** Retention floors *)
Section Retention.
Context `{Env}.
Definition retention_floor (table_id : Uuid) : prog (option RetentionFloor) :=
  let path := retention_path table_id in
  let! bytes := Backend.get_opt path in
  match bytes with
  | None => ret None
  | Some (ORetention floor) =>
      do! lift (verify path "retention floor checksum mismatch" floor) in ret (Some floor)
  | Some _ => throw (Corruption path "retention parse")
  end.
Definition retention_min_seq (table_id : Uuid) : prog Z :=
  let! floor := retention_floor table_id in
  ret (match floor with Some f => rf_min_retained_sequence f | None => 0 end).
End Retention.

(** ** Fork objects *)
Module Fork.
Section Fork.
Context `{Env}.
Definition pin (f : Fork) (table_id : Uuid) : option ForkPin := bget table_id (fk_pins f).
Definition pin_by_name (f : Fork) (name : string) : option (Uuid * ForkPin) :=
  List.find (fun e => String.eqb (fp_table_name e.2) name) (fk_pins f).
Definition depth (f : Fork) : Z := default 0 (fk_depth f).
Definition MAX_FORK_DEPTH : Z := 32.
Definition FORKED_FROM_META_KEY : string := "h5i.forked_from".

Definition parse (o : Obj) (path : Path) : DbResult Fork :=
  match o with
  | OFork fork => let? _ := verify path "fork checksum mismatch" fork in Ok fork
  | _ => Err (Corruption path "fork parse")
  end.

Definition load_opt (name : string) : prog (option Fork) :=
  let path := fork_path name in
  let! bytes := Backend.get_opt path in
  match bytes with
  | None => ret None
  | Some o =>
      let! fork := lift (parse o path) in
      if String.eqb (fk_name fork) name then ret (Some fork)
      else throw (Corruption path "fork name does not match")
  end.

Definition create (fork : Fork) : prog unit :=
  let path := fork_path (fk_name fork) in
  let! created := Backend.put_if_absent path (OFork fork) in
  if negb created then throw (ForkExists (fk_name fork))
  else Backend.sync_objects [path].

Definition create_many (forks : list Fork) : prog unit :=
  let! paths := map_prog (fun fork =>
    let path := fork_path (fk_name fork) in
    let! created := Backend.put_if_absent path (OFork fork) in
    if negb created then throw (ForkExists (fk_name fork)) else ret path) forks in
  Backend.sync_objects paths.

Definition list : prog (list Fork) :=
  let! metas := Backend.list FORK_PREFIX in
  let! out := map_prog (fun meta =>
    let! o := Backend.get meta.1 in lift (parse o meta.1)) metas in
  ret (sort_by_key fk_name out).

Definition load (name : string) : prog Fork :=
  let! found := load_opt name in
  match found with
  | Some f => ret f
  | None => let! existing := attempt list in throw (ForkNotFound name)
  end.

Definition store (fork : Fork) : prog unit :=
  do! Backend.delete fork_index_path in
  let path := fork_path (fk_name fork) in
  do! Backend.put path (OFork fork) in
  Backend.sync_objects [path].

Definition delete (name : string) : prog unit := Backend.delete (fork_path name).
End Fork.
End Fork.

Module ForkTableEntry.
Section ForkTableEntry.
Context `{Env}.
Definition is_shadow (e : ForkTableEntry) : bool :=
  match fe_origin e with Some _ => true | None => false end.
Definition to_catalog_entry (e : ForkTableEntry) : CatalogEntry :=
  seal (mkCatalogEntry (fe_name e) (fe_table_id e) (fe_created_at_ns e) (fe_spec_revision e) "").

Definition parse (o : Obj) (path : Path) : DbResult ForkTableEntry :=
  match o with
  | OForkEntry entry =>
      let? _ := verify path "fork catalog entry checksum mismatch" entry in Ok entry
  | _ => Err (Corruption path "fork catalog parse")
  end.

Definition load_entry (fork_name table_name : string) : prog (option ForkTableEntry) :=
  let path := fork_catalog_entry_path fork_name table_name in
  let! bytes := Backend.get_opt path in
  match bytes with
  | None => ret None
  | Some o =>
      let! entry := lift (parse o path) in
      if String.eqb (fe_name entry) table_name then ret (Some entry)
      else throw (Corruption path "fork catalog entry name does not match requested name")
  end.

Definition create_entry_unsynced (fork_name : string) (entry : ForkTableEntry) : prog Path :=
  let path := fork_catalog_entry_path fork_name (fe_name entry) in
  let! created := Backend.put_if_absent path (OForkEntry entry) in
  if negb created then throw (TableExists (fe_name entry)) else ret path.

Definition create_entry (fork_name : string) (entry : ForkTableEntry) : prog unit :=
  let! path := create_entry_unsynced fork_name entry in
  Backend.sync_objects [path].

Definition store_entry (fork_name : string) (entry : ForkTableEntry) : prog unit :=
  do! Backend.delete fork_index_path in
  let path := fork_catalog_entry_path fork_name (fe_name entry) in
  do! Backend.put path (OForkEntry entry) in
  Backend.sync_objects [path].

Definition remove_entry (fork_name table_name : string) : prog unit :=
  Backend.delete (fork_catalog_entry_path fork_name table_name).

Definition list_entries (fork_name : string) : prog (list ForkTableEntry) :=
  let! metas := Backend.list (fork_catalog_prefix fork_name) in
  let! out := map_prog (fun meta =>
    let! o := Backend.get meta.1 in lift (parse o meta.1)) metas in
  ret (sort_by_key fe_name out).
End ForkTableEntry.
End ForkTableEntry.
