(* ===== verification/ForkIndex.v ===== *)
(** * The fork visibility index ([fork_index.rs])

    A derived cache of which forks pin a table and which tables forks own.  Every read
    revalidates it against two listings: an entry whose object is present at the same size
    is reused, anything else is read again. *)
From S2P Require Export Store.

Module ForkIndex.
Definition default : ForkIndex := mkForkIndex 0 [] "".

Section Queries.
Context `{Env}.
Definition is_intact (x : ForkIndex) : bool := bool_decide (compute_checksum x = xi_checksum x).
Definition is_empty (x : ForkIndex) : bool := match xi_forks x with [] => true | _ => false end.
End Queries.

(** [Iterator::find_map]. *)
Fixpoint find_map {A B} (f : A -> option B) (l : list A) : option B :=
  match l with
  | [] => None
  | a :: l' => match f a with Some b => Some b | None => find_map f l' end
  end.

Definition first_pin_below (x : ForkIndex) (table_id : Uuid) (target : Z) : option (string * Z) :=
  find_map (fun e => match bget table_id (xf_pins e.2) with
                     | Some seq => if seq <? target then Some (e.1, seq) else None
                     | None => None
                     end) (xi_forks x).
Definition first_pin (x : ForkIndex) (table_id : Uuid) : option (string * Z) :=
  find_map (fun e => match bget table_id (xf_pins e.2) with
                     | Some seq => Some (e.1, seq)
                     | None => None
                     end) (xi_forks x).
Definition pinned_table_ids (x : ForkIndex) : gset Uuid :=
  list_to_set (concat (map (fun e => bkeys (xf_pins e.2)) (xi_forks x))).
Definition owned_table_ids (x : ForkIndex) : gset Uuid :=
  list_to_set (concat (map (fun e => map it_table_id (bvalues (xf_owned e.2))) (xi_forks x))).
Definition pins_of (x : ForkIndex) (table_id : Uuid) : list (string * Z) :=
  omap (fun e => match bget table_id (xf_pins e.2) with
                 | Some seq => Some (e.1, seq)
                 | None => None
                 end) (xi_forks x).

Section Storage.
Context `{Env}.

(** An unreadable or altered index is as good as none. *)
Definition load_opt : prog (option ForkIndex) :=
  let! bytes := Backend.get_opt fork_index_path in
  match bytes with
  | Some (OForkIndex index) => if is_intact index then ret (Some index) else ret None
  | _ => ret None
  end.

Definition store (index : ForkIndex) : prog unit :=
  do! Backend.put fork_index_path (OForkIndex index) in
  Backend.sync_objects [fork_index_path].

Definition invalidate : prog unit := Backend.delete fork_index_path.

Abbreviation Meta := (Path * File)%type (only parsing).
Definition meta_size (m : Meta) : Z := object_size (fl_obj m.2).

(** ** Rebuilding *)
Definition fork_pins (f : Fork) : BTree Uuid Z := map (fun e => (e.1, fp_sequence e.2)) (fk_pins f).

Definition read_forks (paths : list (Path * Z)) : prog (list (string * Z * BTree Uuid Z)) :=
  map_prog (fun e =>
    let! o := Backend.get e.1 in
    let! fork := lift (Fork.parse o e.1) in
    ret (fk_name fork, e.2, fork_pins fork)) paths.

Definition read_entries (paths : list (Path * string * Z)) : prog (list (string * string * IndexedTable)) :=
  map_prog (fun e =>
    let! o := Backend.get e.1.1 in
    let! entry := lift (ForkTableEntry.parse o e.1.1) in
    ret (e.1.2, fe_name entry, mkIndexedTable (fe_table_id entry) e.2)) paths.

Definition prior_forks_by_path (prior : option ForkIndex) : gmap Path (string * IndexedFork) :=
  match prior with
  | None => ∅
  | Some p => fold_left (fun acc e => <[fork_path e.1 := e]> acc) (xi_forks p) ∅
  end.

Definition prior_owned_by_path (prior : option ForkIndex) : gmap Path (string * string * IndexedTable) :=
  match prior with
  | None => ∅
  | Some p =>
      fold_left (fun acc e =>
        fold_left (fun acc o => <[fork_catalog_entry_path e.1 o.1 := (e.1, o.1, o.2)]> acc)
          (xf_owned e.2) acc) (xi_forks p) ∅
  end.

(** One object under [forks/]: reused when the size matches, else to be read. *)
Definition classify_fork (by_path : gmap Path (string * IndexedFork))
    (acc : BTree string IndexedFork * list (Path * Z)) (meta : Meta) :
    BTree string IndexedFork * list (Path * Z) :=
  let '(forks, unknown) := acc in
  match by_path !! meta.1 with
  | Some (name, entry) =>
      if xf_object_size entry =? meta_size meta
      then (binsert name (mkIndexedFork (xf_object_size entry) (xf_pins entry) []) forks, unknown)
      else (forks, unknown ++ [(meta.1, meta_size meta)])
  | None => (forks, unknown ++ [(meta.1, meta_size meta)])
  end.

Definition own (fork_name table_name : string) (owned : IndexedTable)
    (forks : BTree string IndexedFork) : BTree string IndexedFork :=
  bupdate (fun f => f <| xf_owned := binsert table_name owned (xf_owned f) |>) fork_name forks.

(** One object under [catalog/forks/]. *)
Definition classify_entry (by_hash : gmap string string)
    (by_path : gmap Path (string * string * IndexedTable))
    (acc : BTree string IndexedFork * list (Path * string * Z)) (meta : Meta) :
    BTree string IndexedFork * list (Path * string * Z) :=
  let '(forks, unknown) := acc in
  match meta.1 !! 2%nat with
  | None => acc
  | Some fork_hash =>
      match by_hash !! fork_hash with
      | None => acc
      | Some fork_name =>
          match by_path !! meta.1 with
          | Some (_, table_name, owned) =>
              if it_object_size owned =? meta_size meta
              then (own fork_name table_name owned forks, unknown)
              else (forks, unknown ++ [(meta.1, fork_name, meta_size meta)])
          | None => (forks, unknown ++ [(meta.1, fork_name, meta_size meta)])
          end
      end
  end.

Definition rebuild (prior : option ForkIndex) : prog ForkIndex :=
  let! fork_metas := Backend.list FORK_PREFIX in
  let! catalog_metas := Backend.list FORK_CATALOG_PREFIX in
  let '(forks, unknown) :=
    fold_left (classify_fork (prior_forks_by_path prior)) fork_metas ([], []) in
  let! read := read_forks unknown in
  let forks := fold_left (fun acc r => binsert r.1.1 (mkIndexedFork r.1.2 r.2 []) acc) read forks in
  let by_hash := fold_left (fun acc name => <[hash_name name := name]> acc) (bkeys forks) (∅ : gmap string string) in
  let '(forks, unknown_entries) :=
    fold_left (classify_entry by_hash (prior_owned_by_path prior)) catalog_metas (forks, []) in
  let! entries := read_entries unknown_entries in
  let forks := fold_left (fun acc r => own r.1.1 r.1.2 r.2 acc) entries forks in
  let! now := call Now in
  ret (mkForkIndex (monotonic_commit_ts now None) forks "").

Definition refresh (writable : bool) : prog ForkIndex :=
  let! prior := load_opt in
  let! rebuilt := rebuild prior in
  match prior with
  | Some p =>
      if bool_decide (xi_forks p = xi_forks rebuilt) then ret p
      else
        let sealed := seal rebuilt in
        if negb writable then ret sealed
        else if is_empty sealed then do! invalidate in ret sealed
        else do! store sealed in ret sealed
  | None =>
      let sealed := seal rebuilt in
      if negb writable || is_empty sealed then ret sealed
      else do! store sealed in ret sealed
  end.
End Storage.
End ForkIndex.
