(* ===== verification/Database.v ===== *)
(** * The database handle and version resolution ([database.rs])

    The handle, opening and creating, name resolution on the base and inside a fork, reading
    a version ([resolve], [as_of_sequence], [list_versions]) and policies.  A handle on a
    fork carries the fork object it was opened with. *)
From S2P Require Export ForkIndex.

Inductive ReadAt :=
| Latest
| Version (v : Z)
| AsOf (ts : Z)
| AtSnapshot (name : string).

Record ResolvedTable := mkResolvedTable {
  rt_entry : CatalogEntry;
  rt_spec : TableSpec;
  rt_schema : Schema;
  rt_manifest : VersionManifest;
  rt_head_sequence : Z;
}.

Record CommitResult := mkCommitResult {
  cr_table : string;
  cr_sequence : Z;
  cr_op : string;
  cr_rows_total : Z;
  cr_segments_total : Z;
  cr_segments_added : Z;
  cr_segments_deduped : Z;
  cr_committed_at_ns : Z;
}.
#[export] Instance eta_CommitResult : Eta CommitResult := fun r =>
  mkCommitResult (cr_table r) (cr_sequence r) (cr_op r) (cr_rows_total r) (cr_segments_total r)
    (cr_segments_added r) (cr_segments_deduped r) (cr_committed_at_ns r).

(** Hints a caller read a moment before; each falls back to a read. *)
Record CommitInputs := mkCommitInputs {
  ci_segment_limit : option Z;
  ci_parent_committed_at_ns : option Z;
}.

Record WriteOptions := mkWriteOptions {
  wo_expected_version : option Z;
  wo_note : option string;
  wo_user_meta : JsonMap;
  wo_idempotency_key : option string;
}.
#[export] Instance eta_WriteOptions : Eta WriteOptions := fun o =>
  mkWriteOptions (wo_expected_version o) (wo_note o) (wo_user_meta o) (wo_idempotency_key o).
Definition IDEMPOTENCY_META_KEY : string := "h5i.idempotency_key".
Definition IDEMPOTENCY_LOOKBACK : Z := 64.

Record VersionSummary := mkVersionSummary {
  vs_sequence : Z;
  vs_op : string;
  vs_committed_at_ns : Z;
  vs_rows : Z;
  vs_bytes : Z;
  vs_segments : Z;
  vs_note : option string;
  vs_execution_mode : option string;
  vs_plan_hash : option Digest;
}.

Record StagedCommit := mkStagedCommit {
  sc_entry : CatalogEntry;
  sc_head : HeadState;
  sc_manifest : VersionManifest;
  sc_segments_added : Z;
  sc_segments_deduped : Z;
  sc_lease : option Path;
  sc_known : CommitInputs;
}.
#[export] Instance eta_StagedCommit : Eta StagedCommit := fun s =>
  mkStagedCommit (sc_entry s) (sc_head s) (sc_manifest s) (sc_segments_added s)
    (sc_segments_deduped s) (sc_lease s) (sc_known s).

Record Database := mkDatabase {
  db_read_only : bool;
  db_commit_hook : option (string -> DbResult unit);
  db_fork : option Fork;
}.

Definition zlen {A} (l : list A) : Z := Z.of_nat (length l).

(** ** Helpers *)
Definition validate_table_name (name : string) : DbResult unit :=
  if (String.length name =? 0)%nat || (256 <? Z.of_nat (String.length name))
  then Err (InvalidInput "table/snapshot/fork names must be 1..=256 characters") else Ok tt.

Definition child_manifest (parent : VersionManifest) (sequence : Z) (op : OpKind)
    (opts : WriteOptions) (spec : TableSpec) : VersionManifest :=
  mkManifest FORMAT_VERSION (mf_table_id parent) sequence (Some (mf_sequence parent)) None 0 op
    (Some "direct") None (wo_note opts)
    (match wo_idempotency_key opts with
     | Some key => binsert IDEMPOTENCY_META_KEY (JString key) (wo_user_meta opts)
     | None => wo_user_meta opts
     end)
    (ts_schema_revision spec) 0 0 None [].

(** What the new segments become, and the objects they no longer need. *)
Definition dedup_one (by_hash : gmap Digest SegmentMeta) (seg : SegmentMeta) :
    SegmentMeta * option Path :=
  match by_hash !! sg_checksum seg with
  | Some existing =>
      if (sg_bytes existing =? sg_bytes seg) && (sg_rows existing =? sg_rows seg)
      then (existing, Some (sg_path seg)) else (seg, None)
  | None => (seg, None)
  end.
Definition dedup_segments (new_segments : list SegmentMeta) (parent : VersionManifest) :
    prog (list SegmentMeta * Z) :=
  let out := map (dedup_one (VersionManifest.segments_by_checksum parent)) new_segments in
  let redundant := omap snd out in
  do! for_each (fun path => let! _r := attempt (Backend.delete path) in ret tt) redundant in
  ret (map fst out, zlen redundant).

Module Database.
Section Database.
Context `{Env}.
Implicit Types db : Database.

Definition is_read_only db : bool := db_read_only db.
Definition hook db (step : string) : prog unit :=
  match db_commit_hook db with Some h => lift (h step) | None => ret tt end.
Definition ensure_writable db (op : string) : prog unit :=
  if db_read_only db then throw (ReadOnly op) else ret tt.
Definition ensure_base db (op : string) : prog unit :=
  match db_fork db with
  | Some _ => throw (InvalidInput (op +:+ " operates on the whole database"))
  | None => ret tt
  end.
Definition base db : Database := mkDatabase (db_read_only db) (db_commit_hook db) None.
Definition open_fork db (fork_name : string) : prog Database :=
  let! fork := Fork.load fork_name in
  ret (mkDatabase (db_read_only db) (db_commit_hook db) (Some fork)).

(** ** Policies *)
Definition policy : prog MutationPolicy := PolicyStore.load.
Definition set_policy db (p : MutationPolicy) : prog unit :=
  do! ensure_writable db "set_policy" in
  do! Backend.meta_lock in
  PolicyStore.store p.
Definition update_policy db (f : MutationPolicy -> DbResult MutationPolicy) : prog MutationPolicy :=
  do! ensure_writable db "set_policy" in
  do! Backend.meta_lock in
  let! policy := PolicyStore.load in
  let! policy := lift (f policy) in
  do! PolicyStore.store policy in
  ret policy.

(** ** Creating, FORMAT *)
Definition create (path version : string) : prog Database :=
  let! present := call (Get format_path) in
  match present with
  | Some _ => throw (DatabaseExists path)
  | None =>
      let! now := call Now in
      do! Backend.put format_path (OFormat (mkFormatFile FORMAT_VERSION MIN_READER_VERSION
            (monotonic_commit_ts now None) version)) in
      do! Backend.sync_objects [format_path] in
      ret (mkDatabase false None None)
  end.

Definition read_format (missing : StoreError) : prog FormatFile :=
  let! bytes := Backend.get_opt format_path in
  match bytes with
  | None => throw missing
  | Some (OFormat f) => ret f
  | Some _ => throw (Corruption format_path "parse")
  end.

(** [recover] is [transaction::recover]. *)
Definition open_with (recover : prog unit) (path : string) (read_only : bool) : prog Database :=
  let! format := read_format (DatabaseNotFound path) in
  if READER_VERSION <? ff_min_reader_version format
  then throw (FormatTooNew (ff_min_reader_version format) READER_VERSION)
  else
    do! (if negb read_only then recover else ret tt) in
    ret (mkDatabase read_only None None).

Definition raise_min_reader_version (required : Z) : prog bool :=
  let! format := read_format (Corruption format_path "FORMAT missing") in
  if required <=? ff_min_reader_version format then ret false
  else
    do! Backend.put format_path (OFormat (format <| ff_min_reader_version := required |>)) in
    do! Backend.sync_objects [format_path] in
    ret true.

(** ** Names *)
Definition pinned_entry (name : string) (table_id : Uuid) (pin : ForkPin) : option CatalogEntry :=
  match fp_spec_revision pin, fp_created_at_ns pin with
  | Some spec_revision, Some created_at_ns =>
      Some (seal (mkCatalogEntry name table_id created_at_ns spec_revision ""))
  | _, _ => None
  end.

Definition list_tables db : prog (list CatalogEntry) :=
  match db_fork db with
  | None => Catalog.list_entries
  | Some fork =>
      let by_name := fold_left (fun acc e =>
        match pinned_entry (fp_table_name e.2) e.1 e.2 with
        | Some entry => binsert (fp_table_name e.2) entry acc
        | None => acc
        end) (fk_pins fork) ([] : BTree string CatalogEntry) in
      let needs_catalog := existsb (fun e =>
        match pinned_entry (fp_table_name e.2) e.1 e.2 with Some _ => false | None => true end)
        (fk_pins fork) in
      let! by_name :=
        (if needs_catalog : bool then
           let! bases := Catalog.list_entries in
           ret (fold_left (fun acc e =>
             match Fork.pin fork (ce_table_id e) with
             | Some _ => binsert (ce_name e) e acc
             | None => acc
             end) bases by_name)
         else ret by_name) in
      let! own := ForkTableEntry.list_entries (fk_name fork) in
      ret (bvalues (fold_left (fun acc fe =>
        binsert (fe_name fe) (ForkTableEntry.to_catalog_entry fe) acc) own by_name))
  end.

Definition fork_entry db (name : string) : prog (option ForkTableEntry) :=
  match db_fork db with
  | None => ret None
  | Some fork => ForkTableEntry.load_entry (fk_name fork) name
  end.

Definition entry_opt db (name : string) : prog (option CatalogEntry) :=
  match db_fork db with
  | None => Catalog.load_entry name
  | Some fork =>
      let! own := ForkTableEntry.load_entry (fk_name fork) name in
      match own with
      | Some fe => ret (Some (ForkTableEntry.to_catalog_entry fe))
      | None =>
          match Fork.pin_by_name fork name with
          | None => ret None
          | Some (table_id, pin) =>
              match pinned_entry name table_id pin with
              | Some entry => ret (Some entry)
              | None =>
                  let! found := Catalog.load_entry name in
                  ret (match found with
                       | Some b => if String.eqb (ce_table_id b) table_id then Some b else None
                       | None => None
                       end)
              end
          end
      end
  end.

Definition entry db (name : string) : prog CatalogEntry :=
  let! found := entry_opt db name in
  match found with
  | Some e => ret e
  | None => let! existing := attempt (list_tables db) in throw (TableNotFound name)
  end.

(** ** Reading versions *)
Definition spec (table_id : Uuid) (revision : Z) : prog TableSpec :=
  let path := spec_path table_id revision in
  let! bytes := Backend.get_opt path in
  match bytes with
  | None => throw (Corruption path "spec revision missing")
  | Some (OSpec s) => do! lift (TableSpec.verify_checksum path s) in ret s
  | Some _ => throw (Corruption path "spec parse")
  end.

Definition head (table_id : Uuid) : prog HeadState :=
  let! state := LocalHeadStore.read table_id in
  match state with
  | Some s => ret s
  | None => throw (Corruption (head_path table_id) "missing HEAD")
  end.

Definition manifest_at (table_id : Uuid) (sequence : Z) : prog VersionManifest :=
  let path := manifest_path table_id sequence in
  let! bytes := Backend.get_opt path in
  match bytes with
  | None => throw (Corruption path "manifest missing for committed sequence")
  | Some o => lift (VersionManifest.from_bytes o path)
  end.

Definition effective_head db (entry : CatalogEntry) : prog (Z * Digest) :=
  match (fork ← db_fork db; Fork.pin fork (ce_table_id entry)) with
  | Some pin => ret (fp_sequence pin, fp_manifest_checksum pin)
  | None =>
      let! h := head (ce_table_id entry) in
      ret (hd_sequence (hs_head h), hd_manifest_checksum (hs_head h))
  end.

(** The loop of the binary search, in the width of [u64]; [fuel] bounds its iterations by
    the bits of the interval ([as_of_sequence_is_scan]). *)
Definition u64 (z : Z) : Z := z mod 2 ^ 64.
Fixpoint bisect (fuel : nat) (table_id : Uuid) (ts lo hi : Z) : prog Z :=
  match fuel with
  | O => ret lo
  | S fuel' =>
      if 1 <? u64 (hi - lo) then
        let mid := u64 (lo + u64 (hi - lo) / 2) in
        let! m := manifest_at table_id mid in
        if mf_committed_at_ns m <=? ts then bisect fuel' table_id ts mid hi
        else bisect fuel' table_id ts lo mid
      else ret lo
  end.
Definition bisect_fuel : nat := 65.

Definition as_of_sequence (table_id : Uuid) (floor_seq head_seq ts : Z) : prog (option Z) :=
  let! first := manifest_at table_id floor_seq in
  if ts <? mf_committed_at_ns first then ret None
  else
    let! last := manifest_at table_id head_seq in
    if mf_committed_at_ns last <=? ts then ret (Some head_seq)
    else let! lo := bisect bisect_fuel table_id ts floor_seq head_seq in ret (Some lo).

(** The sequence a read point names, with the checksum that vouches for it when known. *)
Definition select_version (entry : CatalogEntry) (at_ : ReadAt) (head_seq : Z) (head_checksum : Digest) :
    prog (Z * option Digest) :=
  match at_ with
  | Latest => ret (head_seq, Some head_checksum)
  | Version v =>
      let! retention_floor := retention_min_seq (ce_table_id entry) in
      if (v <? retention_floor) || (head_seq <? v)
      then throw (VersionNotFound (ce_name entry) "version" "retained versions are")
      else ret (v, None)
  | AsOf ts =>
      let! retention_floor := retention_min_seq (ce_table_id entry) in
      let! seq := as_of_sequence (ce_table_id entry) retention_floor head_seq ts in
      match seq with
      | Some s => ret (s, None)
      | None => throw (VersionNotFound (ce_name entry) "as_of"
                         "timestamp precedes the oldest retained commit")
      end
  | AtSnapshot snap_name =>
      let! snap := Snapshot.load snap_name in
      match bget (ce_table_id entry) (sn_entries snap) with
      | Some se => ret (se_sequence se, Some (se_manifest_checksum se))
      | None => throw (InvalidInput "snapshot does not pin table")
      end
  end.

Definition resolve_entry db (entry : CatalogEntry) (at_ : ReadAt) : prog ResolvedTable :=
  let! '(head_seq, head_checksum) := effective_head db entry in
  let! '(sequence, known) := select_version entry at_ head_seq head_checksum in
  let! verify_checksum :=
    (match known with
     | Some c => ret (Some c)
     | None =>
         if sequence =? head_seq then ret (Some head_checksum)
         else let! child := manifest_at (ce_table_id entry) (sequence + 1) in
              ret (mf_parent_checksum child)
     end) in
  let path := manifest_path (ce_table_id entry) sequence in
  let! bytes := Backend.get_opt path in
  match bytes with
  | None => throw (Corruption path "manifest missing")
  | Some o =>
      do! (match verify_checksum with
           | Some expected =>
               if String.eqb (checksum_hex o) expected then ret tt
               else throw (Corruption path "manifest checksum mismatch")
           | None => ret tt
           end) in
      let! manifest := lift (VersionManifest.from_bytes o path) in
      let! spec := spec (ce_table_id entry) (mf_schema_revision manifest) in
      ret (mkResolvedTable entry spec (ts_schema spec) manifest head_seq)
  end.

Definition resolve db (name : string) (at_ : ReadAt) : prog ResolvedTable :=
  let! e := entry db name in resolve_entry db e at_.

Definition summary (m : VersionManifest) : VersionSummary :=
  mkVersionSummary (mf_sequence m) (OpKind.to_string (mf_op m)) (mf_committed_at_ns m) (mf_rows m)
    (mf_bytes m) (zlen (mf_segments m)) (mf_note m) (mf_execution_mode m) (mf_plan_hash m).

Definition list_versions db (name : string) : prog (list VersionSummary) :=
  let! entry := entry db name in
  let! '(head_seq, _c) := effective_head db entry in
  let! retention_floor := retention_min_seq (ce_table_id entry) in
  let! metas := Backend.list (manifest_prefix (ce_table_id entry)) in
  let sequences := List.filter (fun s => (retention_floor <=? s) && (s <=? head_seq))
    (omap (fun m => manifest_sequence_from_path m.1) metas) in
  map_prog (fun seq => let! m := manifest_at (ce_table_id entry) seq in ret (summary m))
    (sort_by_key (fun s => s) sequences).

Definition fork_index db : prog ForkIndex := ForkIndex.refresh (negb (is_read_only db)).
End Database.
End Database.
