(* ===== verification/StoreRules.v ===== *)
(** * Proof rules for the calls and the loaders

    One [wpc] rule per backend call, the frame of a write (which path changes), and what
    reading a manifest, a HEAD or a floor returns. *)
From S2P Require Export Database.

Section Rules.
Context `{Env} {ft : bool}.
Implicit Types (d : Disk) (C : Disk -> Prop).

Lemma wpc_get_opt p d (Q : DbResult (option Obj) -> Disk -> Prop) C :
  C d -> Q (Ok (fl_obj <$> files d !! p)) d -> (ft = true -> Q (Err ObjectStore) d) ->
  wpc ft (Backend.get_opt p) d Q C.
Proof. intros HC HQ HF. unfold Backend.get_opt. cbn. auto 10. Qed.

Lemma wpc_get p d (Q : DbResult Obj -> Disk -> Prop) C :
  C d ->
  match files d !! p with Some f => Q (Ok (fl_obj f)) d | None => Q (Err ObjectStore) d end ->
  (ft = true -> Q (Err ObjectStore) d) -> wpc ft (Backend.get p) d Q C.
Proof.
  intros HC HQ HF. unfold Backend.get. cbn. repeat split; auto.
  destruct (files d !! p); cbn; auto.
Qed.

Lemma wpc_put p o d (Q : DbResult unit -> Disk -> Prop) C :
  C d -> C (put_file p o true d) -> Q (Ok tt) (put_file p o true d) ->
  (ft = true -> Q (Err ObjectStore) d /\ Q (Err ObjectStore) (put_file p o true d)) ->
  wpc ft (Backend.put p o) d Q C.
Proof. intros. by apply wpc_call. Qed.

(** The temporary files of HEAD swaps are beside everything else. *)
Definition with_temps (t : gmap Path (Obj * bool)) d : Disk := d <| temps := t |>.
Lemma with_temps_id d : with_temps (temps d) d = d.
Proof. by destruct d. Qed.
Lemma with_temps_same t d : same_files d (with_temps t d).
Proof. done. Qed.

(** Renaming a flushed temporary file. *)
Lemma wpc_rename p o d (Q : DbResult unit -> Disk -> Prop) C :
  let d' := put_file p o false (with_temps (delete p (temps d)) d) in
  temps d !! p = Some (o, true) -> C d -> C d' -> Q (Ok tt) d' ->
  (ft = true -> Q (Err ObjectStore) d /\ Q (Err ObjectStore) d') ->
  wpc ft (LocalHeadStore.rename p) d Q C.
Proof.
  intros d' Ht HC HC' HQ HF. unfold LocalHeadStore.rename. apply wpc_bind.
  assert (He : effect (Rename p) d = (true, d')) by (cbn; by rewrite Ht).
  apply wpc_call; rewrite ?He; [done..|by apply wpc_ret|]. intros Hft. destruct (HF Hft). done.
Qed.
(** Replacing one HEAD, flushed from the start to the end. *)
Lemma wpc_write_head_file p h d (Q : DbResult HeadTag -> Disk -> Prop) C :
  let put t := put_file p (Head.to_bytes h) false (with_temps t d) in
  let flushed t := put t <| pending := foldr delete (pending (put t)) [p] |> in
  (forall t, C (with_temps t d)) -> (forall t, C (put t)) -> (forall t, C (flushed t)) ->
  (forall t, Q (Ok (checksum_hex (Head.to_bytes h))) (flushed t)) ->
  (ft = true -> forall t, Q (Err ObjectStore) (with_temps t d) /\ Q (Err ObjectStore) (put t) /\ Q (Err ObjectStore) (flushed t)) ->
  wpc ft (LocalHeadStore.write_head_file p h) d Q C.
Proof.
  intros put flushed H0 H1 H2 HQ HF. assert (Hd : C d) by (rewrite <- with_temps_id; apply H0).
  assert (HE : ft = true -> Q (Err ObjectStore) d) by (intros Hft; rewrite <- with_temps_id; by apply HF).
  unfold LocalHeadStore.write_head_file. apply wpc_bind. set (t1 := <[p := (Head.to_bytes h, false)]> (temps d)).
  apply wpc_call; [done|exact (H0 t1)| |intros Hft; split; split; [done|by apply HE|exact (H0 t1)|by apply (HF Hft t1)]].
  apply wpc_bind. set (t2 := alter (fun e => (e.1, true)) p t1).
  apply wpc_call; [exact (H0 t1)|exact (H0 t2)| |intros Hft; split; split; [exact (H0 t1)|by apply (HF Hft t1)|exact (H0 t2)|by apply (HF Hft t2)]].
  apply wpc_bind. set (t3 := delete p t2). apply (wpc_rename p (Head.to_bytes h)).
  - cbn. unfold t1. by rewrite lookup_alter_eq, lookup_insert_eq.
  - exact (H0 t2).
  - exact (H1 t3).
  - apply wpc_bind. apply wpc_call; [exact (H1 t3)|exact (H2 t3)| |intros Hft; split; split; [exact (H1 t3)|by apply (HF Hft t3)|exact (H2 t3)|by apply (HF Hft t3)]].
    apply wpc_ret; [exact (H2 t3)|exact (HQ t3)].
  - intros Hft. split; split; [exact (H0 t2)|by apply (HF Hft t2)|exact (H1 t3)|by apply (HF Hft t3)].
Qed.

Definition synced (ps : list Path) d : Disk := d <| pending := foldr delete (pending d) ps |>.

Lemma wpc_sync ps d (Q : DbResult unit -> Disk -> Prop) C :
  C d -> C (synced ps d) -> Q (Ok tt) (synced ps d) ->
  (ft = true -> Q (Err ObjectStore) d /\ Q (Err ObjectStore) (synced ps d)) ->
  wpc ft (call (SyncObjects ps)) d Q C.
Proof. intros. by apply wpc_call. Qed.

Lemma wpc_sync_objects ps d (Q : DbResult unit -> Disk -> Prop) C :
  C d -> C (synced ps d) -> Q (Ok tt) (synced ps d) ->
  (ft = true -> Q (Err ObjectStore) d /\ Q (Err ObjectStore) (synced ps d)) ->
  wpc ft (Backend.sync_objects ps) d Q C.
Proof.
  intros. destruct ps; [|by apply wpc_sync]. split; [done|].
  replace d with (synced [] d) by by destruct d. done.
Qed.

Lemma wpc_lock name d (Q : DbResult unit -> Disk -> Prop) C :
  C d -> Q (Ok tt) d -> (ft = true -> Q (Err (LockTimeout name)) d) ->
  wpc ft (call (Lock name)) d Q C.
Proof. intros. apply wpc_call; auto. Qed.

Definition ticked d : Disk := d <| ticks := S (ticks d) |>.
Lemma wpc_now_call d (Q : DbResult Z -> Disk -> Prop) C :
  C d -> C (ticked d) -> Q (Ok (now d)) (ticked d) ->
  (ft = true -> Q (Err ObjectStore) d /\ Q (Err ObjectStore) (ticked d)) ->
  wpc ft (call Now) d Q C.
Proof. intros. by apply wpc_call. Qed.

Lemma wpc_lift {A} (r : DbResult A) d (Q : DbResult A -> Disk -> Prop) C :
  C d -> Q r d -> wpc ft (lift r) d Q C.
Proof. by split. Qed.

(** ** Files through writes *)
Lemma files_put p o torn d q :
  files (put_file p o torn d) !! q = if bool_decide (p = q) then Some (mkFile o (now d)) else files d !! q.
Proof.
  unfold put_file. cbn. case_bool_decide as E; [subst; apply lookup_insert_eq|by apply lookup_insert_ne].
Qed.
Lemma files_put_eq p o torn d : files (put_file p o torn d) !! p = Some (mkFile o (now d)).
Proof. rewrite files_put. by rewrite bool_decide_true. Qed.
Lemma files_put_ne p o torn d q : p <> q -> files (put_file p o torn d) !! q = files d !! q.
Proof. intros. rewrite files_put. by rewrite bool_decide_false. Qed.
Lemma files_synced ps d : files (synced ps d) = files d.
Proof. done. Qed.
Lemma files_ticked d : files (ticked d) = files d.
Proof. done. Qed.

Lemma pending_put_ne p o torn d q : p <> q -> pending (put_file p o torn d) !! q = pending d !! q.
Proof. intros. unfold put_file, mark. cbn. by apply lookup_insert_ne. Qed.
Lemma pending_put_eq p o torn d :
  pending (put_file p o torn d) !! p =
  let a := default (mkPending [] false) (pending d !! p) in
  Some (mkPending (files d !! p :: pd_before a) (torn || pd_torn a)).
Proof. unfold put_file, mark. cbn. apply lookup_insert_eq. Qed.

Lemma files_del_eq p d : files (del_file p d) !! p = None.
Proof. apply lookup_delete_eq. Qed.
Lemma files_del_ne p d q : q <> p -> files (del_file p d) !! q = files d !! q.
Proof. intros. by apply lookup_delete_ne. Qed.
Lemma pending_del_ne p d q : q <> p -> pending (del_file p d) !! q = pending d !! q.
Proof. intros. by apply lookup_insert_ne. Qed.
Lemma pending_del_eq p d :
  pending (del_file p d) !! p =
  let a := default (mkPending [] false) (pending d !! p) in
  Some (mkPending (files d !! p :: pd_before a) (pd_torn a)).
Proof. apply lookup_insert_eq. Qed.

Lemma foldr_delete_lookup (m : gmap Path Pending) ps q :
  foldr delete m ps !! q = if bool_decide (q ∈ ps) then None else m !! q.
Proof.
  induction ps as [|p ps IH]; cbn; [by rewrite bool_decide_false; [|apply not_elem_of_nil]|].
  destruct (decide (p = q)) as [->|Hne].
  - rewrite lookup_delete_eq. rewrite bool_decide_true; [done|by left].
  - rewrite lookup_delete_ne, IH by done. destruct (decide (q ∈ ps)) as [Hin|Hout].
    + rewrite !bool_decide_true; [done|by right|done].
    + rewrite !bool_decide_false; [done| |done]. by intros [->|?]%elem_of_cons.
Qed.
Lemma pending_synced_in ps d q : q ∈ ps -> pending (synced ps d) !! q = None.
Proof. intros. unfold synced. cbn. rewrite foldr_delete_lookup. by rewrite bool_decide_true. Qed.
Lemma pending_synced_out ps d q : q ∉ ps -> pending (synced ps d) !! q = pending d !! q.
Proof. intros. unfold synced. cbn. rewrite foldr_delete_lookup. by rewrite bool_decide_false. Qed.
Lemma pending_synced_None ps d q : pending d !! q = None -> pending (synced ps d) !! q = None.
Proof. intros. unfold synced. cbn. rewrite foldr_delete_lookup. by case_bool_decide. Qed.

(** What survives when nothing is pending. *)
Lemma survives_stable d d' p : survives d d' -> pending d !! p = None -> files d' !! p = files d !! p.
Proof. intros [Hs _] Hp. destruct (Hs p) as [?|(a & Ha & _)]; [done|congruence]. Qed.

(** ** Readers *)
Definition manifest_stored d t s (m : VersionManifest) : Prop :=
  exists f, files d !! manifest_path t s = Some f /\ fl_obj f = OManifest m /\ mf_format m <= FORMAT_VERSION.

Lemma wpc_manifest_at t s m d (Q : DbResult VersionManifest -> Disk -> Prop) C :
  manifest_stored d t s m -> C d -> Q (Ok m) d -> (ft = true -> Q (Err ObjectStore) d) ->
  wpc ft (Database.manifest_at t s) d Q C.
Proof.
  intros (f & Hf & Ho & Hv) HC HQ HF. unfold Database.manifest_at. apply wpc_bind.
  apply wpc_get_opt; [done| |by auto]. rewrite Hf. cbn. rewrite Ho. cbn.
  rewrite (proj2 (Z.ltb_ge _ _) Hv). by apply wpc_lift.
Qed.

Definition head_stored d t (h : Head) : Prop :=
  exists f, files d !! head_path t = Some f /\ fl_obj f = OHead h /\ hd_format h <= FORMAT_VERSION.

(** What reading HEAD returns. *)
Definition disk_head d t : DbResult (option HeadState) :=
  match files d !! head_path t with
  | None => Ok None
  | Some f =>
      match Head.from_bytes (fl_obj f) (head_path t) with
      | Ok h => Ok (Some (mkHeadState h (checksum_hex (fl_obj f))))
      | Err e => Err e
      end
  end.

Lemma wpc_read_head t d (Q : DbResult (option HeadState) -> Disk -> Prop) C :
  C d -> Q (disk_head d t) d -> (ft = true -> Q (Err ObjectStore) d) ->
  wpc ft (LocalHeadStore.read_head_file (head_path t)) d Q C.
Proof.
  intros HC HQ HF. unfold LocalHeadStore.read_head_file. apply wpc_bind.
  apply wpc_get_opt; [done| |by auto]. unfold disk_head in HQ.
  destruct (files d !! head_path t) as [f|]; [|by split].
  cbn [fmap option_fmap option_map]. apply wpc_bind. apply wpc_lift; [done|].
  destruct (Head.from_bytes _ _); [|by split]. by apply wpc_ret.
Qed.

Lemma disk_head_stored d t h : head_stored d t h -> disk_head d t = Ok (Some (mkHeadState h (checksum_hex (OHead h)))).
Proof.
  intros (f & Hf & Ho & Hv). unfold disk_head. rewrite Hf, Ho. cbn. by rewrite (proj2 (Z.ltb_ge _ _) Hv).
Qed.

Lemma wpc_head t h d (Q : DbResult HeadState -> Disk -> Prop) C :
  head_stored d t h -> C d -> Q (Ok (mkHeadState h (checksum_hex (OHead h)))) d ->
  (ft = true -> Q (Err ObjectStore) d) -> wpc ft (Database.head t) d Q C.
Proof.
  intros Hh HC HQ HF. unfold Database.head, LocalHeadStore.read. apply wpc_bind.
  apply wpc_read_head; [done| |by auto]. rewrite (disk_head_stored _ _ _ Hh). by apply wpc_ret.
Qed.
End Rules.
#[global] Arguments synced : simpl never.
#[global] Arguments ticked : simpl never.

(** The goals a failed call and a failed hook leave: invariant and postcondition. *)
Ltac split_ands := repeat match goal with |- _ /\ _ => split end.
Ltac fault := intros; split_ands; eauto.
Ltac hooked :=
  match goal with
  | |- db_commit_hook ?db = None \/ _ =>
      destruct (db_commit_hook db) eqn:?; [right; intros; split_ands; eauto|by left]
  end.

(** ** Time travel *)
Section AsOf.
Context `{Env}.

(** The committed history of a table from its floor to its head, in commit order. *)
Record history (d : Disk) (t : Uuid) (lo hi : Z) (ms : Z -> VersionManifest) : Prop := {
  h_bounds : 0 <= lo /\ lo <= hi /\ hi < 2 ^ 64;
  h_stored : forall s, lo <= s <= hi -> manifest_stored d t s (ms s);
  h_ordered : forall s s', lo <= s -> s <= s' -> s' <= hi ->
    mf_committed_at_ns (ms s) <= mf_committed_at_ns (ms s');
}.

(** What a linear scan of the history would answer. *)
Definition latest_at (lo hi : Z) (ms : Z -> VersionManifest) (ts : Z) (r : option Z) : Prop :=
  match r with
  | None => forall s, lo <= s <= hi -> ts < mf_committed_at_ns (ms s)
  | Some q => lo <= q <= hi /\ mf_committed_at_ns (ms q) <= ts /\
      forall s, q < s <= hi -> ts < mf_committed_at_ns (ms s)
  end.

Lemma u64_id z : 0 <= z < 2 ^ 64 -> Database.u64 z = z.
Proof. apply Z.mod_small. Qed.

Lemma wpc_bisect ft fuel d t ms ts L Hh lo hi (Q : DbResult Z -> Disk -> Prop) C :
  history d t L Hh ms -> C d -> L <= lo -> lo < hi -> hi <= Hh -> hi - lo <= 2 ^ Z.of_nat fuel ->
  mf_committed_at_ns (ms lo) <= ts -> ts < mf_committed_at_ns (ms hi) ->
  (forall q, latest_at L Hh ms ts (Some q) -> Q (Ok q) d) -> (ft = true -> Q (Err ObjectStore) d) ->
  wpc ft (Database.bisect fuel t ts lo hi) d Q C.
Proof.
  intros Hist HC HL Hlt HH Hfuel Hlo Hhi HQ HF. destruct (h_bounds _ _ _ _ _ Hist) as (Hb0 & Hb1 & Hb2).
  assert (Hdone : forall lo hi, L <= lo -> lo < hi -> hi <= Hh -> hi - lo <= 1 ->
    mf_committed_at_ns (ms lo) <= ts -> ts < mf_committed_at_ns (ms hi) -> Q (Ok lo) d).
  { clear -HQ Hist. intros lo hi HL Hlt HH H1 Hlo Hhi. apply HQ. repeat split; [lia..|done|].
    intros s Hs. eapply Z.lt_le_trans; [exact Hhi|]. apply (h_ordered _ _ _ _ _ Hist); lia. }
  revert lo hi HL Hlt HH Hfuel Hlo Hhi. induction fuel as [|fuel IH]; intros lo hi HL Hlt HH Hfuel Hlo Hhi;
    cbn [Database.bisect].
  - apply wpc_ret; [done|]. cbn in Hfuel. eapply Hdone; eauto; lia.
  - rewrite u64_id by lia. destruct (1 <? hi - lo) eqn:E; bool_prop; [|apply wpc_ret; eauto].
    rewrite Nat2Z.inj_succ, Z.pow_succ_r in Hfuel by lia.
    assert (0 <= (hi - lo) / 2 <= hi - lo) by div_lia.
    rewrite u64_id by lia. set (mid := lo + (hi - lo) / 2).
    assert (lo < mid < hi) by (unfold mid; div_lia).
    assert (mid - lo <= 2 ^ Z.of_nat fuel /\ hi - mid <= 2 ^ Z.of_nat fuel) as [? ?].
    { unfold mid. clear -Hfuel. revert Hfuel. generalize (2 ^ Z.of_nat fuel). intros P HP. split; div_lia. }
    apply wpc_bind. apply (wpc_manifest_at t mid (ms mid)); [|done| |by auto].
    { apply (h_stored _ _ _ _ _ Hist). lia. }
    destruct (mf_committed_at_ns (ms mid) <=? ts) eqn:Em; bool_prop; apply IH; lia || done.
Qed.

(** [as_of_sequence] finds what a scan of the whole history would: the last version committed
    at or before the time, or none when the oldest retained one is later.  It succeeds
    whenever its reads do, and changes nothing. *)
Theorem as_of_sequence_is_scan fs d t lo hi ms ts :
  history d t lo hi ms ->
  (run fs (Database.as_of_sequence t lo hi ts) d).2 = d /\
  match (run fs (Database.as_of_sequence t lo hi ts) d).1 with
  | Ok r => latest_at lo hi ms ts r
  | Err e => e = ObjectStore /\ fs <> []
  end.
Proof.
  intros Hist.
  assert (Hw : forall ft, (ft = false -> fs = []) ->
    wpc ft (Database.as_of_sequence t lo hi ts) d (fun r d' => d' = d /\
      match r with Ok r => latest_at lo hi ms ts r | Err e => e = ObjectStore /\ ft = true end) (fun _ => True)).
  { intros ft _. destruct (h_bounds _ _ _ _ _ Hist) as (Hb0 & Hb1 & Hb2).
    unfold Database.as_of_sequence. apply wpc_bind.
    apply (wpc_manifest_at t lo (ms lo)); [apply (h_stored _ _ _ _ _ Hist); lia|done| |done].
    destruct (ts <? mf_committed_at_ns (ms lo)) eqn:E; bool_prop.
    { apply wpc_ret; [done|]. split; [done|]. intros s Hs. eapply Z.lt_le_trans; [exact E|].
      apply (h_ordered _ _ _ _ _ Hist); lia. }
    apply wpc_bind. apply (wpc_manifest_at t hi (ms hi)); [apply (h_stored _ _ _ _ _ Hist); lia|done| |done].
    destruct (mf_committed_at_ns (ms hi) <=? ts) eqn:E2; bool_prop.
    { apply wpc_ret; [done|]. split; [done|]. repeat split; [lia..|done|lia]. }
    apply wpc_bind. destruct (Z.eq_dec lo hi) as [->|Hne]; [lia|].
    apply (wpc_bisect _ _ _ _ ms _ lo hi); try done;
      change (2 ^ Z.of_nat Database.bisect_fuel) with (2 * 2 ^ 64); lia. }
  destruct fs as [|f fs].
  - pose proof (wpc_run false _ _ _ _ [] (Hw false ltac:(done)) ltac:(done)) as [H1 H2].
    split; [done|]. destruct (run _ _ _).1; [done|]. destruct H2; done.
  - pose proof (wpc_run true _ _ _ _ (f :: fs) (Hw true ltac:(done)) ltac:(done)) as [H1 H2].
    split; [done|]. destruct (run _ _ _).1; [done|]. by destruct H2.
Qed.
End AsOf.
