(* ===== verification/Commit.v ===== *)
(** * The commit protocol and the metadata operations ([database.rs])

    [commit_manifest_locked] and everything that goes through it without touching rows:
    schema evolution, restore, planned mutations, staged commits; table creation, dropping
    and renaming; copy-on-write shadows; snapshots.  The operations that encode rows
    ([stage_write], [stage_append], ranges, compaction) are in [Writes]; what they hand over
    is a [StagedCommit]. *)
From S2P Require Export StoreRules.

Module Commit.
Section Commit.
Context `{Env}.
Implicit Types db : Database.

(** ** Publishing a manifest and swapping HEAD *)

(** The parts of the child the commit fills in. *)
Definition link (parent : option HeadState) (committed_at : Z) (m : VersionManifest) : VersionManifest :=
  match parent with
  | Some p => m <| mf_parent := Some (hd_sequence (hs_head p)) |>
                <| mf_parent_checksum := Some (hd_manifest_checksum (hs_head p)) |>
                <| mf_committed_at_ns := committed_at |>
  | None => m <| mf_committed_at_ns := committed_at |>
  end.

Definition own_segment_paths (m : VersionManifest) : list Path :=
  map sg_path (List.filter (fun s => sg_created_by_sequence s =? mf_sequence m) (mf_segments m)).

Definition publish db (t : Uuid) (m : VersionManifest) : prog unit :=
  let path := manifest_path t (mf_sequence m) in
  do! Backend.put path (VersionManifest.to_bytes m) in
  do! Database.hook db "post_manifest_put" in
  do! Backend.sync_objects (own_segment_paths m ++ [path]) in
  Database.hook db "pre_head_swap".

Definition head_of (t : Uuid) (m : VersionManifest) : Head :=
  mkHead FORMAT_VERSION t (mf_sequence m) (checksum_hex (VersionManifest.to_bytes m)).

Definition result_of (name : string) (m : VersionManifest) (added deduped : Z) : CommitResult :=
  mkCommitResult name (mf_sequence m) (OpKind.to_string (mf_op m)) (mf_rows m) (zlen (mf_segments m))
    added deduped (mf_committed_at_ns m).

Definition segment_limit (t : Uuid) (m : VersionManifest) (known : CommitInputs) : prog Z :=
  match ci_segment_limit known with
  | Some limit => ret limit
  | None =>
      let! s := attempt (Database.spec t (mf_schema_revision m)) in
      ret (match s with
           | Ok s => ts_max_segments_per_manifest s
           | Err _ => SEGMENT_COUNT_HARD_DEFAULT
           end)
  end.

Definition parent_commit_time (t : Uuid) (parent : option HeadState) (known : CommitInputs) :
    prog (option Z) :=
  match parent with
  | None => ret None
  | Some p =>
      match ci_parent_committed_at_ns known with
      | Some ts => ret (Some ts)
      | None => let! m := Database.manifest_at t (hd_sequence (hs_head p)) in
                ret (Some (mf_committed_at_ns m))
      end
  end.

Definition commit_manifest_locked db (name : string) (t : Uuid) (parent : option HeadState)
    (manifest : VersionManifest) (segments_added : Z) (known : CommitInputs) : prog CommitResult :=
  let! spec_limit := segment_limit t manifest known in
  if spec_limit <? zlen (mf_segments manifest)
  then throw (LimitExceeded "manifest would reference too many segments")
  else
    let! parent_committed := parent_commit_time t parent known in
    let! now := call Now in
    let m := VersionManifest.recompute_rollups
      (link parent (monotonic_commit_ts now parent_committed) manifest) in
    do! Database.hook db "pre_publish" in
    do! LocalHeadStore.commit t name (hs_tag <$> parent) (head_of t m) (publish db t m) in
    do! Database.hook db "post_head_swap" in
    ret (result_of name m segments_added 0).

Definition commit_manifest db (name : string) (t : Uuid) (parent : option HeadState)
    (manifest : VersionManifest) (segments_added : Z) (known : CommitInputs) : prog CommitResult :=
  do! Backend.meta_lock in
  commit_manifest_locked db name t parent manifest segments_added known.

Definition commit_planned db (name : string) (t : Uuid) (base_version : Z)
    (base_manifest_checksum : Digest) (plan : MutationPlan) : prog CommitResult :=
  do! Database.ensure_writable db "apply_plan" in
  let! h := Database.head t in
  if negb (hd_sequence (hs_head h) =? base_version)
     || negb (String.eqb (hd_manifest_checksum (hs_head h)) base_manifest_checksum)
  then throw (VersionConflict name base_version (hd_sequence (hs_head h)))
  else
    let manifest := mkManifest FORMAT_VERSION t (base_version + 1) (Some base_version) None 0
      (pl_op plan) (Some "planned") (Some (pl_checksum plan)) (pl_note plan) (pl_user_meta plan)
      (pl_schema_revision plan) 0 0 None (pl_segments plan) in
    let! res := commit_manifest db name t (Some h) manifest (ps_segments_added (pl_summary plan))
                  (mkCommitInputs None None) in
    ret (res <| cr_segments_deduped := ps_segments_reused (pl_summary plan) |>).

(** [head] of the object store: the size of an object, if it is there. *)
Definition object_length (p : Path) : prog (option Z) :=
  let! f := call (Get p) in ret (object_size ∘ fl_obj <$> f).

Definition check_plan_segment (seg : SegmentMeta) : prog unit :=
  let! size := object_length (sg_path seg) in
  match size with
  | Some n => if n =? sg_bytes seg then ret tt
              else throw (Corruption (sg_path seg) "size changed since planning")
  | None => throw (InvalidInput "plan segment no longer exists")
  end.

Definition plan_is_expired (plan : MutationPlan) (wall : Z) : bool :=
  pl_expires_at_ns plan <? monotonic_commit_ts wall None.

Definition apply_plan db (plan : MutationPlan) : prog CommitResult :=
  if db_read_only db then throw (ReadOnly "apply_plan")
  else
    do! lift (verify ["plan"] "plan checksum mismatch" plan) in
    let! now := call Now in
    if plan_is_expired plan now then throw (InvalidInput "plan expired")
    else
      do! for_each check_plan_segment (pl_segments plan) in
      let! result := commit_planned db (pl_table plan) (pl_table_id plan) (pl_base_version plan)
                       (pl_base_manifest_checksum plan) plan in
      let! _r := attempt (Backend.delete (plan_path (pl_table_id plan) (pl_plan_id plan))) in
      ret result.

(** ** Replays *)
Definition recorded_key (m : VersionManifest) : option string :=
  match bget IDEMPOTENCY_META_KEY (mf_user_meta m) with
  | Some (JString s) => Some s
  | _ => None
  end.

Fixpoint replay_from (fuel : nat) (name key : string) (t : Uuid) (floor seq : Z) :
    prog (option CommitResult) :=
  match fuel with
  | O => ret None
  | S fuel' =>
      let! m := Database.manifest_at t seq in
      if bool_decide (recorded_key m = Some key) then ret (Some (result_of name m 0 0))
      else if (seq =? 0) || (seq <=? floor) then ret None
      else replay_from fuel' name key t floor (seq - 1)
  end.
Definition replay_fuel : nat := S (Z.to_nat IDEMPOTENCY_LOOKBACK).

Definition idempotent_replay db (name : string) (opts : WriteOptions) : prog (option CommitResult) :=
  match wo_idempotency_key opts with
  | None => ret None
  | Some key =>
      let! entry := Database.entry db name in
      let! h := Database.head (ce_table_id entry) in
      let head := hd_sequence (hs_head h) in
      let! retained := retention_min_seq (ce_table_id entry) in
      let floor := Z.max (Z.max 0 (head - IDEMPOTENCY_LOOKBACK)) retained in
      replay_from replay_fuel name key (ce_table_id entry) floor head
  end.

(** ** Copy-on-write shadows *)
Record PreparedShadow := mkPreparedShadow {
  sh_name : string;
  sh_table_id : Uuid;
  sh_spec : TableSpec;
  sh_manifest : VersionManifest;
  sh_entry : ForkTableEntry;
}.

(** A segment a fork's table may reference: its own, or one of the pinned manifest's. *)
Definition check_refinement (own_prefix : Path) (base_paths : list Path) (segment_paths : list Path) :
    DbResult unit :=
  foldr_res (fun _ path =>
    if is_prefix own_prefix path || bool_decide (path ∈ base_paths) then Ok tt
    else Err (Corruption path "fork refinement invariant violated")) tt segment_paths.

(** The provenance object: the text of its four fields. *)
Definition forked_from (fork : Fork) (base : CatalogEntry) (pin : ForkPin) : Json :=
  JOther (fk_name fork +:+ " " +:+ ce_table_id base +:+ " " +:+ show_int (fp_sequence pin)
    +:+ " " +:+ fp_manifest_checksum pin).

Definition prepare_shadow (fork : Fork) (name : string) (base : CatalogEntry) : prog PreparedShadow :=
  match Fork.pin fork (ce_table_id base) with
  | None => throw (Internal "fork does not pin table")
  | Some pin =>
      let base_path := manifest_path (ce_table_id base) (fp_sequence pin) in
      let! bytes := Backend.get_opt base_path in
      match bytes with
      | None => throw (Corruption base_path "pinned manifest missing")
      | Some o =>
          if negb (String.eqb (checksum_hex o) (fp_manifest_checksum pin))
          then throw (Corruption base_path "fork pins version with another checksum")
          else
            let! base_manifest := lift (VersionManifest.from_bytes o base_path) in
            let! table_id := call NewUuid in
            let! spec := Database.spec (ce_table_id base) (mf_schema_revision base_manifest) in
            let spec := seal (spec <| ts_table_id := table_id |>) in
            let manifest := base_manifest
              <| mf_table_id := table_id |> <| mf_sequence := 0 |> <| mf_parent := None |>
              <| mf_parent_checksum := None |> <| mf_op := OpCreate |>
              <| mf_execution_mode := Some "direct" |> <| mf_plan_hash := None |>
              <| mf_note := Some ("fork: shadow at base version " +:+ show_int (fp_sequence pin)) |>
              <| mf_user_meta := binsert Fork.FORKED_FROM_META_KEY (forked_from fork base pin)
                                   (mf_user_meta base_manifest) |> in
            do! lift (check_refinement (table_prefix table_id) (map sg_path (mf_segments base_manifest))
                        (map sg_path (mf_segments manifest))) in
            let manifest := VersionManifest.recompute_rollups manifest in
            let! now := call Now in
            let entry := seal (mkForkTableEntry name table_id (monotonic_commit_ts now None)
              (ts_schema_revision spec)
              (Some (mkForkOrigin (ce_table_id base) (fp_sequence pin) (fp_manifest_checksum pin))) "") in
            ret (mkPreparedShadow name table_id spec manifest entry)
      end
  end.

Definition write_shadows db (fork : Fork) (prepared : list PreparedShadow) : prog unit :=
  match prepared with
  | [] => ret tt
  | _ =>
      let spec_of (s : PreparedShadow) := spec_path (sh_table_id s) (ts_schema_revision (sh_spec s)) in
      do! for_each (fun s => Backend.put (spec_of s) (OSpec (sh_spec s))) prepared in
      do! Backend.sync_objects (map spec_of prepared) in
      do! for_each (fun s =>
        let! _r := commit_manifest_locked db (sh_name s) (sh_table_id s) None (sh_manifest s) 0
          (mkCommitInputs (Some (ts_max_segments_per_manifest (sh_spec s))) None) in ret tt) prepared in
      let! entry_paths := map_prog (fun s =>
        ForkTableEntry.create_entry_unsynced (fk_name fork) (sh_entry s)) prepared in
      Backend.sync_objects entry_paths
  end.

Definition materialize_shadow db (fork : Fork) (name : string) (base : CatalogEntry) : prog CatalogEntry :=
  do! Backend.meta_lock in
  let! existing := ForkTableEntry.load_entry (fk_name fork) name in
  match existing with
  | Some fe => ret (ForkTableEntry.to_catalog_entry fe)
  | None =>
      let! prepared := prepare_shadow fork name base in
      do! write_shadows db fork [prepared] in
      ret (ForkTableEntry.to_catalog_entry (sh_entry prepared))
  end.

Definition materialize_shadows db (names : list string) : prog unit :=
  match db_fork db with
  | None => ret tt
  | Some fork =>
      let! candidates := fold_prog (fun acc name =>
        let! e := Database.entry_opt db name in
        ret (match e with
             | Some entry => match Fork.pin fork (ce_table_id entry) with
                             | Some _ => acc ++ [(name, entry)]
                             | None => acc
                             end
             | None => acc
             end)) [] names in
      match candidates with
      | [] => ret tt
      | _ =>
          do! Backend.meta_lock in
          let! prepared := fold_prog (fun acc c =>
            let! existing := ForkTableEntry.load_entry (fk_name fork) c.1 in
            match existing with
            | Some _ => ret acc
            | None => let! p := prepare_shadow fork c.1 c.2 in ret (acc ++ [p])
            end) [] candidates in
          write_shadows db fork prepared
      end
  end.

Definition entry_for_write db (name : string) : prog CatalogEntry :=
  let! entry := Database.entry db name in
  match db_fork db with
  | None => ret entry
  | Some fork =>
      match Fork.pin fork (ce_table_id entry) with
      | None => ret entry
      | Some _ => materialize_shadow db fork name entry
      end
  end.

(** ** Writes that touch no row *)
Definition write_prologue db (name : string) (op : OpKind) (opts : WriteOptions) :
    prog (CatalogEntry * TableSpec * HeadState * VersionManifest) :=
  do! Database.ensure_writable db (OpKind.to_string op) in
  let! policy := PolicyStore.load in
  do! lift (MutationPolicy.check_direct policy op) in
  let! entry := entry_for_write db name in
  let! h := Database.head (ce_table_id entry) in
  do! (match wo_expected_version opts with
       | Some expected =>
           if hd_sequence (hs_head h) =? expected then ret tt
           else throw (VersionConflict name expected (hd_sequence (hs_head h)))
       | None => ret tt
       end) in
  let! manifest := Database.manifest_at (ce_table_id entry) (hd_sequence (hs_head h)) in
  let! spec := Database.spec (ce_table_id entry) (mf_schema_revision manifest) in
  ret (entry, spec, h, manifest).

Definition evolve_schema db (name : string) (new_schema : Schema) (opts : WriteOptions) :
    prog CommitResult :=
  do! Database.ensure_writable db "evolve_schema" in
  let! '(entry, spec, h, parent_manifest) := write_prologue db name OpEvolveSchema opts in
  let! _changes := lift (Evolution.validate_evolution (ts_schema spec) new_schema) in
  do! Backend.meta_lock in
  let! current := Database.head (ce_table_id entry) in
  if negb (String.eqb (hs_tag current) (hs_tag h))
  then throw (VersionConflict name (hd_sequence (hs_head h)) (hd_sequence (hs_head current)))
  else if u32_max <=? ts_schema_revision spec then throw (LimitExceeded "schema revision overflow")
  else
    let spec := seal (spec <| ts_schema_revision := ts_schema_revision spec + 1 |>
                           <| ts_schema := new_schema |>) in
    let path := spec_path (ce_table_id entry) (ts_schema_revision spec) in
    do! Backend.put path (OSpec spec) in
    do! Backend.sync_objects [path] in
    let manifest := child_manifest parent_manifest (hd_sequence (hs_head h) + 1) OpEvolveSchema opts spec
                      <| mf_segments := mf_segments parent_manifest |> in
    commit_manifest_locked db name (ce_table_id entry) (Some h) manifest 0
      (mkCommitInputs None (Some (mf_committed_at_ns parent_manifest))).

Definition restore db (name : string) (version : Z) (opts : WriteOptions) : prog CommitResult :=
  let! replay := idempotent_replay db name opts in
  match replay with
  | Some r => ret r
  | None =>
      let! '(entry, spec, h, parent_manifest) := write_prologue db name OpRestore opts in
      if hd_sequence (hs_head h) <? version
      then throw (VersionNotFound name "version" "latest is")
      else
        let! target := Database.manifest_at (ce_table_id entry) version in
        let opts := match wo_note opts with
                    | Some _ => opts
                    | None => opts <| wo_note := Some ("restore of version " +:+ show_int version) |>
                    end in
        let manifest := child_manifest parent_manifest (hd_sequence (hs_head h) + 1) OpRestore opts spec
                          <| mf_schema_revision := mf_schema_revision target |>
                          <| mf_segments := mf_segments target |> in
        commit_manifest db name (ce_table_id entry) (Some h) manifest 0
          (mkCommitInputs (Some (ts_max_segments_per_manifest spec))
             (Some (mf_committed_at_ns parent_manifest)))
  end.

Definition release_staging (lease : option Path) : prog unit :=
  match lease with
  | Some path => let! _r := attempt (Backend.delete path) in ret tt
  | None => ret tt
  end.

Definition commit_staged db (staged : StagedCommit) : prog CommitResult :=
  let! result := attempt (commit_manifest db (ce_name (sc_entry staged)) (ce_table_id (sc_entry staged))
    (Some (sc_head staged)) (sc_manifest staged) (sc_segments_added staged) (sc_known staged)) in
  do! release_staging (sc_lease staged) in
  let! result := lift result in
  ret (result <| cr_segments_deduped := sc_segments_deduped staged |>).

(** ** Tables *)
Definition duplicate_names (names : list string) : bool :=
  negb (bool_decide (NoDup names)).

Definition create_tables db (tables : list (string * Schema * TableOptions)) : prog (list CommitResult) :=
  do! Database.ensure_writable db "create_table" in
  match tables with
  | [] => ret []
  | _ =>
      let names := map (fun t => t.1.1) tables in
      do! for_each (fun n => lift (validate_table_name n)) names in
      if duplicate_names names then throw (InvalidInput "create_tables was given a table twice")
      else
        do! Backend.meta_lock in
        do! for_each (fun n =>
          let! e := Database.entry_opt db n in
          match e with Some _ => throw (TableExists n) | None => ret tt end) names in
        let! prepared := map_prog (fun t =>
          let! table_id := call NewUuid in
          let! now := call Now in
          let! spec := lift (TableSpec.new table_id t.1.1 t.1.2 t.2 now) in
          do! Backend.put (spec_path table_id (ts_schema_revision spec)) (OSpec spec) in
          ret (t.1.1, table_id, spec)) tables in
        do! Backend.sync_objects
          (map (fun p => spec_path p.1.2 (ts_schema_revision p.2)) prepared) in
        do! Database.hook db "pre_publish" in
        let! published := map_prog (fun p =>
          let! now := call Now in
          let m := VersionManifest.recompute_rollups
            (mkManifest FORMAT_VERSION p.1.2 0 None None (monotonic_commit_ts now None) OpCreate
               (Some "direct") None None [] (ts_schema_revision p.2) 0 0 None []) in
          do! Backend.put (manifest_path p.1.2 (mf_sequence m)) (VersionManifest.to_bytes m) in
          ret (p, m)) prepared in
        let swaps := map (fun pm =>
          mkHeadSwap pm.1.1.2 pm.1.1.1 None (head_of pm.1.1.2 pm.2)) published in
        let publish :=
          do! Database.hook db "post_manifest_put" in
          do! Backend.sync_objects
            (map (fun pm => manifest_path pm.1.1.2 (mf_sequence pm.2)) published) in
          Database.hook db "pre_head_swap" in
        do! LocalHeadStore.commit_batch swaps publish in
        do! Database.hook db "post_head_swap" in
        let results := map (fun pm => result_of pm.1.1.1 pm.2 0 0) published in
        let! entry_paths := map_prog (fun p =>
          match db_fork db with
          | Some fork =>
              ForkTableEntry.create_entry_unsynced (fk_name fork)
                (seal (mkForkTableEntry p.1.1 p.1.2 (ts_created_at_ns p.2) (ts_schema_revision p.2) None ""))
          | None =>
              Catalog.create_entry_unsynced
                (seal (mkCatalogEntry p.1.1 p.1.2 (ts_created_at_ns p.2) (ts_schema_revision p.2) ""))
          end) prepared in
        do! Backend.sync_objects entry_paths in
        ret results
  end.

Definition create_table db (name : string) (schema : Schema) (options : TableOptions) : prog CommitResult :=
  let! created := create_tables db [(name, schema, options)] in
  match last created with
  | Some r => ret r
  | None => throw (Internal "one table in, one result out")
  end.

(** A pin of a snapshot or of a fork forbids deleting the table. *)
Definition ensure_unpinned db (t : Uuid) : prog unit :=
  let! snaps := Snapshot.list in
  do! for_each (fun snap =>
    match bget t (sn_entries snap) with
    | Some _ => throw (InvalidInput "table is pinned by snapshot")
    | None => ret tt
    end) snaps in
  let! index := Database.fork_index db in
  match ForkIndex.first_pin index t with
  | Some _ => throw (InvalidInput "table is pinned by fork")
  | None => ret tt
  end.

Definition delete_table_objects (t : Uuid) : prog unit :=
  do! LocalHeadStore.remove t in
  let! objects := Backend.list (table_prefix t) in
  Backend.delete_many (map fst objects).

Definition drop_table_locked db (name : string) : prog unit :=
  let! entry := Database.entry db name in
  match db_fork db with
  | Some fork =>
      let! own := ForkTableEntry.load_entry (fk_name fork) name in
      match own with
      | None => throw (Unsupported "table belongs to the base database")
      | Some fe =>
          do! ensure_unpinned db (fe_table_id fe) in
          do! ForkTableEntry.remove_entry (fk_name fork) name in
          delete_table_objects (fe_table_id fe)
      end
  | None =>
      do! ensure_unpinned db (ce_table_id entry) in
      do! Catalog.remove_entry name in
      delete_table_objects (ce_table_id entry)
  end.

Definition drop_table db (name : string) : prog unit :=
  do! Database.ensure_writable db "drop_table" in
  do! Backend.meta_lock in
  drop_table_locked db name.

Definition rename_table db (from to : string) : prog unit :=
  do! Database.ensure_writable db "rename_table" in
  do! Database.ensure_base db "rename_table" in
  do! lift (validate_table_name to) in
  do! Backend.meta_lock in
  let! entry := Database.entry db from in
  do! Catalog.create_entry (seal (entry <| ce_name := to |>)) in
  Catalog.remove_entry from.

(** ** Snapshots *)
Definition create_snapshot db (name : string) (tables : list string) (note : option string) :
    prog Snapshot :=
  do! Database.ensure_writable db "snapshot" in
  do! Database.ensure_base db "snapshot" in
  do! lift (validate_table_name name) in
  do! Backend.meta_lock in
  let! entries := (match tables with
                   | [] => Database.list_tables db
                   | _ => map_prog (Database.entry db) tables
                   end) in
  match entries with
  | [] => throw (InvalidInput "cannot snapshot an empty database")
  | _ =>
      let! pins := fold_prog (fun acc e =>
        let! h := Database.head (ce_table_id e) in
        ret (binsert (ce_table_id e)
               (mkSnapshotEntry (ce_name e) (hd_sequence (hs_head h)) (hd_manifest_checksum (hs_head h))) acc))
        ([] : BTree Uuid SnapshotEntry) entries in
      let! now := call Now in
      let snap := seal (mkSnapshot name (monotonic_commit_ts now None) note pins "") in
      do! Snapshot.store snap in
      ret snap
  end.

Definition list_snapshots : prog (list Snapshot) := Snapshot.list.

Definition delete_snapshot db (name : string) : prog unit :=
  do! Database.ensure_writable db "delete_snapshot" in
  do! Database.ensure_base db "delete_snapshot" in
  do! Backend.meta_lock in
  Snapshot.delete name.
End Commit.
End Commit.
