(* ===== verification/CommitProps.v ===== *)
(** * The commit protocol is crash-safe

    What a commit may leave behind at any crash point and after any fault: the old HEAD, or
    the new one with everything it references durable. *)
From S2P Require Export Commit.

Section CommitProps.
Context `{Env}.
Implicit Types (d : Disk) (db : Database).

(** Outside the given paths nothing changed; what was pending may have been flushed. *)
Definition frame (ps : list Path) d0 d : Prop :=
  forall p, p ∉ ps -> files d !! p = files d0 !! p /\
    (pending d !! p = pending d0 !! p \/ pending d !! p = None).

Lemma frame_refl ps d : frame ps d d.
Proof. intros p _. auto. Qed.
Lemma frame_trans ps d0 d1 d2 : frame ps d0 d1 -> frame ps d1 d2 -> frame ps d0 d2.
Proof.
  intros H1 H2 p Hp. destruct (H1 p Hp) as [E1 P1], (H2 p Hp) as [E2 P2]. split; [congruence|].
  destruct P2 as [P2|P2]; [|auto]. rewrite P2. exact P1.
Qed.
Lemma frame_same ps d0 d : same_files d0 d -> frame ps d0 d.
Proof. intros [E P] p _. rewrite E, P. auto. Qed.
Lemma frame_put ps p o torn d0 d : p ∈ ps -> frame ps d0 d -> frame ps d0 (put_file p o torn d).
Proof.
  intros Hp Hf q Hq. assert (p <> q) by (intros ->; done).
  rewrite files_put_ne, pending_put_ne by done. by apply Hf.
Qed.
Lemma frame_synced ps qs d0 d : frame ps d0 d -> frame ps d0 (synced qs d).
Proof.
  intros Hf p Hp. destruct (Hf p Hp) as [E P]. rewrite files_synced. split; [done|].
  destruct (decide (p ∈ qs)) as [Hin|Hout]; [right; by apply pending_synced_in|].
  by rewrite pending_synced_out.
Qed.
Lemma frame_ticked ps d0 d : frame ps d0 d -> frame ps d0 (ticked d).
Proof. done. Qed.
#[local] Hint Resolve frame_refl frame_put frame_synced frame_same frame_ticked : h5i.

Lemma head_not_manifest t u n : head_path t <> manifest_path u n.
Proof. done. Qed.

(** A path of data: below some table's [segments]. *)
Definition data_path (p : Path) : Prop := exists t u, p = segment_path t u.
Lemma data_not_head p t : data_path p -> p <> head_path t.
Proof. by intros (u & v & ->). Qed.
Lemma data_not_manifest p t n : data_path p -> p <> manifest_path t n.
Proof. by intros (u & v & ->). Qed.

(** ** The states of a commit *)

(** HEAD names [m], and [m] and the segments it introduced are on the platter. *)
Definition swapped d0 d t m : Prop :=
  (exists f, files d !! head_path t = Some f /\ fl_obj f = OHead (Commit.head_of t m)) /\
  (exists f, files d !! manifest_path t (mf_sequence m) = Some f /\ fl_obj f = OManifest m) /\
  pending d !! manifest_path t (mf_sequence m) = None /\
  Forall (fun p => files d !! p = files d0 !! p /\ pending d !! p = None) (Commit.own_segment_paths m).
Definition head_flushed d t : Prop := pending d !! head_path t = None.
Definition head_in_flight d0 d t : Prop :=
  exists before, pending d !! head_path t = Some (mkPending before false) /\
    Forall (eq (files d0 !! head_path t)) before.
Definition head_kept d0 d t : Prop :=
  files d !! head_path t = files d0 !! head_path t /\ head_flushed d t.

Definition commit_inv d0 t seq (M : VersionManifest -> Prop) d : Prop :=
  frame [head_path t; manifest_path t seq] d0 d /\
  (head_kept d0 d t \/
   exists m, M m /\ mf_sequence m = seq /\ swapped d0 d t m /\ (head_flushed d t \/ head_in_flight d0 d t)).

(** What is left after a crash in such a state. *)
Lemma commit_inv_survives d0 t seq M d d' :
  commit_inv d0 t seq M d -> survives d d' ->
  files d' !! head_path t = files d0 !! head_path t \/
  exists m, M m /\ mf_sequence m = seq /\
    (exists f, files d' !! head_path t = Some f /\ fl_obj f = OHead (Commit.head_of t m)) /\
    (exists f, files d' !! manifest_path t seq = Some f /\ fl_obj f = OManifest m) /\
    Forall (fun p => files d' !! p = files d0 !! p) (Commit.own_segment_paths m).
Proof.
  intros (_ & [[Hh Hp]|(m & HM & Hseq & (Hh & Hm & Hmp & Hs) & Hfl)]) Hsv.
  { left. rewrite <- Hh. by eapply survives_stable. }
  assert (Hcases : files d' !! head_path t = files d0 !! head_path t \/ files d' !! head_path t = files d !! head_path t).
  { destruct Hfl as [Hfl|(before & Hb & Hall)]; [right; by eapply survives_stable|].
    destruct Hsv as [Hsv _]. destruct (Hsv (head_path t)) as [E|(a & Ha & Hor)]; [by right|left].
    rewrite Hb in Ha. injection Ha as <-. destruct Hor as [Hin|[Ht _]]; [|done].
    rewrite List.Forall_forall in Hall. symmetry. by apply Hall. }
  destruct Hcases as [E|E]; [by left|right]. exists m. subst seq. split; [done|]. split; [done|].
  split; [by rewrite E|]. split.
  - destruct Hm as (f & Hf & Ho). exists f. split; [|done]. rewrite <- Hf. by eapply survives_stable.
  - eapply Forall_impl; [exact Hs|]. cbn. intros p [Hf Hpp]. rewrite <- Hf. by eapply survives_stable.
Qed.

Lemma wpc_hook ft db step d (Q : DbResult unit -> Disk -> Prop) C :
  C d -> Q (Ok tt) d -> (db_commit_hook db = None \/ forall e, Q (Err e) d) ->
  wpc ft (Database.hook db step) d Q C.
Proof.
  intros HC HQ HE. unfold Database.hook. destruct (db_commit_hook db) as [h|]; [|by apply wpc_ret].
  apply wpc_lift; [done|]. destruct HE as [?|HE]; [done|]. destruct (h step) as [[]|e]; auto.
Qed.

(** The critical section, from any disk the lock was taken on. *)
Lemma wpc_swap ft db d0 d t name expected m (Q : DbResult HeadTag -> Disk -> Prop) (M : VersionManifest -> Prop) :
  let C := commit_inv d0 t (mf_sequence m) M in
  M m -> head_kept d0 d t -> frame [head_path t; manifest_path t (mf_sequence m)] d0 d ->
  Forall data_path (Commit.own_segment_paths m) ->
  (forall e, ft = true \/ db_commit_hook db <> None ->
     forall d', C d' -> Q (Err e) d') ->
  (forall d' cur, disk_head d t = Ok cur ->
     LocalHeadStore.check_expected name expected (Commit.head_of t m) cur = Ok tt ->
     C d' -> swapped d0 d' t m -> head_flushed d' t -> forall tag, Q (Ok tag) d') ->
  (forall e, disk_head d t = Err e -> Q (Err e) d) ->
  (forall e cur, disk_head d t = Ok cur ->
     LocalHeadStore.check_expected name expected (Commit.head_of t m) cur = Err e -> Q (Err e) d) ->
  wpc ft (LocalHeadStore.commit t name expected (Commit.head_of t m) (Commit.publish db t m)) d Q C.
Proof.
  intros C HM Hk Hfr Hdata HE HO HV1 HV2.
  assert (HCd : forall d', head_kept d0 d' t -> frame [head_path t; manifest_path t (mf_sequence m)] d0 d' -> C d').
  { intros d' ? ?. split; [done|by left]. }
  assert (HF : ft = true -> forall e d', C d' -> Q (Err e) d') by eauto.
  assert (Hho : forall h, db_commit_hook db = Some h -> forall e d', C d' -> Q (Err e) d').
  { intros h Eh e. apply HE. right. by rewrite Eh. }
  unfold LocalHeadStore.commit. apply wpc_bind. apply wpc_lock; [auto| |fault].
  apply wpc_bind. apply wpc_read_head; [auto| |fault].
  destruct (disk_head d t) as [cur|e] eqn:Ecur; [|split; auto].
  apply wpc_bind. apply wpc_lift; [auto|].
  destruct (LocalHeadStore.check_expected name expected (Commit.head_of t m) cur) as [[]|e] eqn:Ec;
    [|split; eauto].
  set (d1 := put_file (manifest_path t (mf_sequence m)) (OManifest m) true d).
  assert (Hk1 : head_kept d0 d1 t).
  { destruct Hk as [K1 K2]. split; [by rewrite <- K1; apply files_put_ne|].
    unfold head_flushed, d1. by rewrite pending_put_ne. }
  assert (Hfr1 : frame [head_path t; manifest_path t (mf_sequence m)] d0 d1).
  { apply frame_put; [|done]. right. by left. }
  set (ps := Commit.own_segment_paths m ++ [manifest_path t (mf_sequence m)]).
  assert (Hk2 : head_kept d0 (synced ps d1) t).
  { destruct Hk1 as [K1 K2]. split; [done|]. by apply pending_synced_None. }
  assert (Hfr2 := frame_synced _ ps _ _ Hfr1).
  set (d3 := put_file (head_path t) (OHead (Commit.head_of t m)) false (synced ps d1)).
  assert (Hsw : swapped d0 d3 t m).
  { split; [|split; [|split]].
    - eexists. split; [apply files_put_eq|done].
    - eexists. unfold d3. rewrite files_put_ne by done. rewrite files_synced. unfold d1.
      split; [apply files_put_eq|done].
    - unfold d3. rewrite pending_put_ne by done. apply pending_synced_in. unfold ps.
      apply elem_of_app. right. by left.
    - rewrite List.Forall_forall in Hdata |- *. intros p Hp. specialize (Hdata p Hp).
      pose proof (data_not_head p t Hdata). pose proof (data_not_manifest p t (mf_sequence m) Hdata).
      unfold d3. rewrite files_put_ne, pending_put_ne by done. split.
      + apply Hfr2. rewrite not_elem_of_cons, list_elem_of_singleton. done.
      + apply pending_synced_in. unfold ps. apply elem_of_app. left. by apply list_elem_of_In. }
  assert (Hfr3 : frame [head_path t; manifest_path t (mf_sequence m)] d0 d3).
  { apply frame_put; [by left|done]. }
  assert (Hfly : head_in_flight d0 d3 t).
  { unfold d3, head_in_flight. rewrite pending_put_eq. destruct Hk2 as [K1 K2].
    rewrite K1, K2. cbn. eexists. split; [done|]. by repeat constructor. }
  assert (Hsw4 : swapped d0 (synced [head_path t] d3) t m).
  { destruct Hsw as (S1 & S2 & S3 & S4). split; [done|]. split; [done|].
    split; [by apply pending_synced_None|]. eapply Forall_impl; [exact S4|]. cbn.
    intros p [? ?]. split; [done|by apply pending_synced_None]. }
  assert (Hfl4 : head_flushed (synced [head_path t] d3) t) by (apply pending_synced_in; by left).
  assert (HC3 : C d3) by (split; [done|right; exists m; auto]).
  assert (HC4 : C (synced [head_path t] d3)) by (split; [by apply frame_synced|right; exists m; auto]).
  apply wpc_bind. unfold Commit.publish. apply wpc_bind.
  apply wpc_put; [auto..| |fault].
  apply wpc_bind. apply wpc_hook; [auto| |hooked].
  apply wpc_bind. apply wpc_sync_objects; [auto..| |fault].
  apply wpc_hook; [auto| |hooked].
  assert (HC2 : C (synced ps d1)) by auto.
  apply wpc_write_head_file; [intros tm; exact HC2|intros tm; exact HC3|intros tm; exact HC4|intros tm|].
  - apply (HO _ cur eq_refl Ec); [exact HC4|exact Hsw4|exact Hfl4].
  - intros Hft tm. split; [|split]; apply (HF Hft); [exact HC2|exact HC3|exact HC4].
Qed.

(** ** The whole commit *)
Lemma read_only_spec t r : read_only (Database.spec t r).
Proof. unfold Database.spec, Backend.get_opt, call. read_only_tac. Qed.
Lemma read_only_manifest_at t r : read_only (Database.manifest_at t r).
Proof. unfold Database.manifest_at, Backend.get_opt, call. read_only_tac. Qed.

Lemma read_only_segment_limit t m known : read_only (Commit.segment_limit t m known).
Proof.
  unfold Commit.segment_limit. destruct (ci_segment_limit known); [done|].
  apply read_only_bind; [apply read_only_attempt, read_only_spec|done].
Qed.
Lemma read_only_parent_time t p known : read_only (Commit.parent_commit_time t p known).
Proof.
  unfold Commit.parent_commit_time. destruct p; [|done]. destruct (ci_parent_committed_at_ns known); [done|].
  apply read_only_bind; [apply read_only_manifest_at|done].
Qed.

(** The manifests a commit of [m0] may publish: only the time stamp is open. *)
Definition published parent m0 (m : VersionManifest) : Prop :=
  exists ts, m = VersionManifest.recompute_rollups (Commit.link parent ts m0).

Lemma published_sequence parent m0 m : published parent m0 m -> mf_sequence m = mf_sequence m0.
Proof. intros [ts ->]. by destruct parent. Qed.
Lemma published_segments parent m0 m : published parent m0 m -> mf_segments m = mf_segments m0.
Proof. intros [ts ->]. by destruct parent. Qed.
Lemma published_own parent m0 m :
  published parent m0 m -> Commit.own_segment_paths m = Commit.own_segment_paths m0.
Proof.
  intros Hm. unfold Commit.own_segment_paths.
  by rewrite (published_sequence _ _ _ Hm), (published_segments _ _ _ Hm).
Qed.

Lemma commit_inv_same d t seq M d' : head_flushed d t -> same_files d d' -> commit_inv d t seq M d'.
Proof.
  intros Hf Hs. split; [by apply frame_same|left]. destruct Hs as [E P].
  split; [by rewrite E|]. unfold head_flushed. by rewrite P.
Qed.

(** With what is known of the parent's commit time. *)
Definition published_at (PT : option Z -> Prop) parent m0 (m : VersionManifest) : Prop :=
  exists w pt, PT pt /\ m = VersionManifest.recompute_rollups (Commit.link parent (monotonic_commit_ts w pt) m0).
Lemma published_at_published PT parent m0 m : published_at PT parent m0 m -> published parent m0 m.
Proof. intros (w & pt & _ & ->). by eexists. Qed.

Lemma wpc_commit_at ft (PT : option Z -> Prop) db name t parent m0 added known d
    (Q : DbResult CommitResult -> Disk -> Prop) :
  let C := commit_inv d t (mf_sequence m0) (published_at PT parent m0) in
  (forall d1, same_files d d1 -> wpc ft (Commit.parent_commit_time t parent known) d1
     (fun r d' => same_files d d' /\ forall pt, r = Ok pt -> PT pt) (same_files d)) ->
  head_flushed d t -> Forall data_path (Commit.own_segment_paths m0) ->
  (forall e d', C d' -> Q (Err e) d') ->
  (forall m r d', published_at PT parent m0 m -> C d' -> swapped d d' t m -> head_flushed d' t -> Q (Ok r) d') ->
  wpc ft (Commit.commit_manifest_locked db name t parent m0 added known) d Q C.
Proof.
  intros C HPT Hfl Hdata HE HO.
  assert (HC : forall d', same_files d d' -> C d') by (intros d'; by apply commit_inv_same).
  unfold Commit.commit_manifest_locked. apply wpc_bind.
  apply wpc_read_only; [apply read_only_segment_limit|done|]. intros [limit|e] d1 Hs1; [|auto].
  destruct (limit <? _); [apply wpc_ret; auto|]. apply wpc_bind.
  eapply wpc_mono; [|exact HC|by apply HPT]. cbv beta.
  intros [pt|e] d2 [Hd2 Hpt]; [|split; auto]. specialize (Hpt pt eq_refl).
  assert (Ht2 : same_files d (ticked d2)) by exact Hd2.
  apply wpc_bind. apply wpc_now_call; [auto..| |fault].
  set (m := VersionManifest.recompute_rollups (Commit.link parent (monotonic_commit_ts (now d2) pt) m0)).
  assert (Hm : published_at PT parent m0 m) by by eexists _, _.
  pose proof (published_at_published _ _ _ _ Hm) as Hmp.
  apply wpc_bind. apply wpc_hook; [auto| |right; fault].
  set (CM := commit_inv d t (mf_sequence m) (published_at PT parent m0)).
  assert (HCM : forall d', CM d' -> C d').
  { intros d'. unfold CM, C. by rewrite (published_sequence _ _ _ Hmp). }
  apply wpc_bind. eapply wpc_mono; [|exact HCM|].
  2: { apply (wpc_swap ft db d (ticked d2) t name (hs_tag <$> parent) m
         (fun r d' => match r with Ok _ => CM d' /\ swapped d d' t m /\ head_flushed d' t | Err _ => CM d' end));
         auto.
       - destruct Hd2 as [E P]. split; [by rewrite files_ticked, E|].
         unfold head_flushed, ticked. cbn. by rewrite P.
       - by apply frame_same.
       - by rewrite (published_own _ _ _ Hmp).
       - intros e _. by apply commit_inv_same.
       - intros e cur _ _. by apply commit_inv_same. }
  intros [tag|e] d' Hr; cbv beta iota in *; [|split; auto].
  destruct Hr as (HCd & Hsw & Hfd). apply wpc_bind.
  apply wpc_hook; [by apply HCM|apply wpc_ret; eauto|right; fault].
Qed.

Lemma commit_inv_mono d t seq (M M' : VersionManifest -> Prop) d' :
  (forall m, M m -> M' m) -> commit_inv d t seq M d' -> commit_inv d t seq M' d'.
Proof.
  intros HM [Hf [Hk|(m & H1 & H2)]]; split; [done|by left|done|right]. exists m. auto.
Qed.

Lemma wpc_commit ft db name t parent m0 added known d (Q : DbResult CommitResult -> Disk -> Prop) :
  let C := commit_inv d t (mf_sequence m0) (published parent m0) in
  head_flushed d t -> Forall data_path (Commit.own_segment_paths m0) ->
  (forall e d', C d' -> Q (Err e) d') ->
  (forall m r d', published parent m0 m -> C d' -> swapped d d' t m -> head_flushed d' t -> Q (Ok r) d') ->
  wpc ft (Commit.commit_manifest_locked db name t parent m0 added known) d Q C.
Proof.
  intros C Hfl Hdata HE HO.
  assert (HM : forall d', commit_inv d t (mf_sequence m0) (published_at (fun _ => True) parent m0) d' -> C d').
  { intros d'. apply commit_inv_mono, published_at_published. }
  eapply wpc_mono; [|exact HM|apply (wpc_commit_at ft (fun _ => True) db name t parent m0 added known d
    (fun r d' => Q r d'))]; [done| |done|done| |].
  - intros d1 Hs. apply wpc_read_only; [apply read_only_parent_time|intros d' ?; by etransitivity|].
    intros r d' ?. split; [by etransitivity|done].
  - auto.
  - intros m r d' Hm HC. apply HO; [by eapply published_at_published|by apply HM].
Qed.

(** The new HEAD of a table, complete: HEAD names manifest [m], which is there, and the
    segments it introduced are what the writer uploaded. *)
Definition advanced d d' t m : Prop :=
  (exists f, files d' !! head_path t = Some f /\ fl_obj f = OHead (Commit.head_of t m)) /\
  (exists f, files d' !! manifest_path t (mf_sequence m) = Some f /\ fl_obj f = OManifest m) /\
  Forall (fun p => files d' !! p = files d !! p) (Commit.own_segment_paths m).

(** C1 A power loss at any moment of a commit, after any I/O errors, leaves the table at its old
    HEAD or at the new one with its manifest and segments intact, and every other object of
    the database that was flushed as it was. *)
Theorem commit_crash_safe db name t parent m0 added known d d' :
  head_flushed d t -> Forall data_path (Commit.own_segment_paths m0) ->
  crashes (Commit.commit_manifest_locked db name t parent m0 added known) d d' ->
  (files d' !! head_path t = files d !! head_path t \/
   exists m, published parent m0 m /\ advanced d d' t m) /\
  (forall p, p <> head_path t -> p <> manifest_path t (mf_sequence m0) -> pending d !! p = None ->
     files d' !! p = files d !! p).
Proof.
  intros Hfl Hdata Hcr.
  destruct (wpc_crash _ _ _ (fun _ _ => True) (commit_inv d t (mf_sequence m0) (published parent m0))
    (wpc_commit true db name t parent m0 added known d (fun _ _ => True) Hfl Hdata
      ltac:(done) ltac:(done)) Hcr) as (di & Hinv & Hsv). split.
  - destruct (commit_inv_survives _ _ _ _ _ _ Hinv Hsv) as [?|(m & HM & Hseq & H1 & H2 & H3)]; [by left|right].
    exists m. split; [done|]. split; [done|]. by rewrite Hseq.
  - intros p H1 H2 H3. destruct Hinv as [Hfr _].
    destruct (Hfr p) as [E P]; [rewrite not_elem_of_cons, list_elem_of_singleton; auto|].
    rewrite <- E. eapply survives_stable; [done|]. destruct P as [->|]; done.
Qed.

(** ** Compare and swap *)

(** The HEAD a table has, as a reader parses it. *)
Definition head_is d t (cur : option Head) : Prop :=
  match cur with
  | None => files d !! head_path t = None
  | Some h => head_stored d t h
  end.
Definition head_tag (cur : option Head) : option HeadTag := (fun h => checksum_hex (OHead h)) <$> cur.

(** The specification of a commit: a register that moves when the expected tag is the
    current one, and is left alone otherwise. *)
Definition cas (cur : option Head) (expected : option HeadTag) (new : Head) : option Head :=
  if bool_decide (expected = head_tag cur) then Some new else cur.

Lemma disk_head_is d t cur :
  head_is d t cur -> disk_head d t = Ok ((fun h => mkHeadState h (checksum_hex (OHead h))) <$> cur).
Proof. destruct cur as [h|]; cbn; [by apply disk_head_stored|]. intros E. unfold disk_head. by rewrite E. Qed.

(** C15 Without faults a commit is exactly that register: with the expected tag it publishes the
    child of its parent and reports it, without it it fails with [VersionConflict] and
    changes no file, whatever other writers did since the parent was read. *)
Theorem commit_is_cas db name t parent m0 added limit pt d cur :
  head_flushed d t -> Forall data_path (Commit.own_segment_paths m0) -> db_commit_hook db = None ->
  zlen (mf_segments m0) <= limit -> head_is d t cur ->
  let '(r, d') := run [] (Commit.commit_manifest_locked db name t parent m0 added
                            (mkCommitInputs (Some limit) (Some pt))) d in
  let m := VersionManifest.recompute_rollups (Commit.link parent
             (monotonic_commit_ts (now d) ((fun _ => pt) <$> parent)) m0) in
  head_is d' t (cas cur (hs_tag <$> parent) (Commit.head_of t m)) /\
  if bool_decide (hs_tag <$> parent = head_tag cur)
  then r = Ok (Commit.result_of name m added 0) /\ advanced d d' t m /\ head_flushed d' t
  else r = Err (VersionConflict name (Z.max 0 (mf_sequence m0 - 1))
                  (match cur with Some h => hd_sequence h | None => 0 end)) /\ files d' = files d.
Proof.
  intros Hfl Hdata Hhook Hlimit Hcur. 
  set (m := VersionManifest.recompute_rollups _).
  assert (Hm : published parent m0 m) by by eexists.
  set (Q := fun (r : DbResult CommitResult) d' =>
    head_is d' t (cas cur (hs_tag <$> parent) (Commit.head_of t m)) /\
    if bool_decide (hs_tag <$> parent = head_tag cur)
    then r = Ok (Commit.result_of name m added 0) /\ advanced d d' t m /\ head_flushed d' t
    else r = Err (VersionConflict name (Z.max 0 (mf_sequence m0 - 1))
                  (match cur with Some h => hd_sequence h | None => 0 end)) /\ files d' = files d).
  assert (Hw : wpc false (Commit.commit_manifest_locked db name t parent m0 added
    (mkCommitInputs (Some limit) (Some pt))) d Q (fun _ => True)).
  2: { pose proof (wpc_run false _ _ _ _ [] Hw ltac:(done)) as HQ. by destruct (run _ _ _). }
  unfold Commit.commit_manifest_locked, Commit.segment_limit. cbn [ci_segment_limit]. apply wpc_bind.
  apply wpc_ret; [done|]. rewrite (proj2 (Z.ltb_ge _ _) Hlimit). apply wpc_bind.
  assert (Hpt : Commit.parent_commit_time t parent (mkCommitInputs (Some limit) (Some pt)) =
    ret ((fun _ => pt) <$> parent)) by by destruct parent.
  rewrite Hpt. apply wpc_ret; [done|]. apply wpc_bind. apply wpc_now_call; [done..| |done].
  fold m. apply wpc_bind. apply wpc_hook; [done| |by left]. apply wpc_bind.
  eapply wpc_mono; [|intros d' _; exact I|apply (wpc_swap false db d (ticked d) t name (hs_tag <$> parent) m
    (fun r d' => match r with
       | Ok _ => swapped d d' t m /\ head_flushed d' t /\ hs_tag <$> parent = head_tag cur
       | Err e => d' = ticked d /\ hs_tag <$> parent <> head_tag cur /\
           e = VersionConflict name (Z.max 0 (mf_sequence m0 - 1))
                  (match cur with Some h => hd_sequence h | None => 0 end) end) (published parent m0))]; auto.
  - intros [tag|e] d' Hr; cbv beta iota in *.
    + destruct Hr as ((S1 & S2 & S3 & S4) & Hf & Htag). apply wpc_bind.
      apply wpc_hook; [done| |by left]. apply wpc_ret; [done|]. unfold Q, cas.
      rewrite bool_decide_true by done. split; [|split; [done|split; [|done]]].
      * destruct S1 as (f & Hf1 & Ho). exists f. repeat split; done.
      * split; [done|]. split; [done|]. eapply Forall_impl; [exact S4|]. by intros ? [? _].
    + destruct Hr as (-> & Hne & ->). split; [done|]. unfold Q, cas.
      rewrite !bool_decide_false by done. split; [|done]. exact Hcur.
  - by split.
  - by apply frame_same.
  - by rewrite (published_own _ _ _ Hm).
  - by intros ? [?|?].
  - intros d' cur' Hcur' Hc _ Hsw Hfd _. split; [done|]. split; [done|].
    change (disk_head d t = Ok cur') in Hcur'. rewrite (disk_head_is _ _ _ Hcur) in Hcur'.
    injection Hcur' as <-. revert Hc. unfold LocalHeadStore.check_expected.
    case_bool_decide as E; [|done]. intros _. rewrite E. by destruct cur.
  - intros e. change (disk_head (ticked d) t) with (disk_head d t). by rewrite (disk_head_is _ _ _ Hcur).
  - intros e cur' Hcur' Hc. split; [done|].
    change (disk_head d t = Ok cur') in Hcur'. rewrite (disk_head_is _ _ _ Hcur) in Hcur'.
    injection Hcur' as <-. revert Hc. unfold LocalHeadStore.check_expected.
    case_bool_decide as E; [done|]. intros [= <-]. split; [by destruct cur|].
    f_equal; [by destruct parent|by destruct cur].
Qed.
End CommitProps.
