(* ===== verification/Transaction.v ===== *)
(** * Multi-table transactions ([transaction.rs], [commit_staged_transaction])

    All manifests are published and flushed, a journal of the target HEADs is written and
    flushed (the commit point), the HEADs are swapped, the journal is deleted.  Opening the
    database rolls a journal it finds forward.  A
    transaction starts from its [StagedCommit]s; [Writes] stages them. *)
From S2P Require Export CommitProps.

Module Transaction.
Section Transaction.
Context `{Env}.
Implicit Types db : Database.

Definition txn_entry (staged : StagedCommit) (m : VersionManifest) : TxnEntry :=
  mkTxnEntry (ce_table_id (sc_entry staged)) (ce_name (sc_entry staged))
    (hd_sequence (hs_head (sc_head staged))) (Commit.head_of (ce_table_id (sc_entry staged)) m).

Definition journal (txn_id : Uuid) (created_at : Z) (entries : list TxnEntry) : TxnJournal :=
  seal (mkTxnJournal txn_id created_at entries "").

Definition validate_base (staged : StagedCommit) : prog unit :=
  let! current := LocalHeadStore.read (ce_table_id (sc_entry staged)) in
  if bool_decide (hs_tag <$> current = Some (hs_tag (sc_head staged))) then ret tt
  else throw (VersionConflict (ce_name (sc_entry staged)) (hd_sequence (hs_head (sc_head staged)))
                (match current with Some s => hd_sequence (hs_head s) | None => 0 end)).

Definition publish_staged (staged : StagedCommit) : prog VersionManifest :=
  let t := ce_table_id (sc_entry staged) in
  let! spec := Database.spec t (mf_schema_revision (sc_manifest staged)) in
  if ts_max_segments_per_manifest spec <? zlen (mf_segments (sc_manifest staged))
  then throw (LimitExceeded "manifest would reference too many segments")
  else
    let! parent := Database.manifest_at t (hd_sequence (hs_head (sc_head staged))) in
    let! now := call Now in
    let m := VersionManifest.recompute_rollups
      (Commit.link (Some (sc_head staged)) (monotonic_commit_ts now (Some (mf_committed_at_ns parent)))
         (sc_manifest staged)) in
    do! Backend.put (manifest_path t (mf_sequence m)) (VersionManifest.to_bytes m) in
    ret m.

Definition durable_paths (staged : StagedCommit) (m : VersionManifest) : list Path :=
  Commit.own_segment_paths m ++ [manifest_path (ce_table_id (sc_entry staged)) (mf_sequence m)].

Definition head_swap (staged : StagedCommit) (m : VersionManifest) : HeadSwap :=
  mkHeadSwap (ce_table_id (sc_entry staged)) (ce_name (sc_entry staged))
    (Some (hs_tag (sc_head staged))) (Commit.head_of (ce_table_id (sc_entry staged)) m).

Definition commit_staged_transaction_inner (txn_id : Uuid) (staged : list StagedCommit) :
    prog (list CommitResult) :=
  do! Backend.meta_lock in
  do! for_each validate_base staged in
  let! ms := map_prog publish_staged staged in
  do! Backend.sync_objects (concat (zip_with durable_paths staged ms)) in
  let! now := call Now in
  let journal_path := txn_path txn_id in
  do! Backend.put journal_path
        (OJournal (journal txn_id (monotonic_commit_ts now None) (zip_with txn_entry staged ms))) in
  do! Backend.sync_objects [journal_path] in
  do! LocalHeadStore.commit_batch (zip_with head_swap staged ms) (ret tt) in
  do! Backend.delete journal_path in
  ret (zip_with (fun s m => Commit.result_of (ce_name (sc_entry s)) m (sc_segments_added s)
                              (sc_segments_deduped s)) staged ms).

Definition commit_staged_transaction (staged : list StagedCommit) : prog (list CommitResult) :=
  let! txn_id := call NewUuid in
  let! result := attempt (commit_staged_transaction_inner txn_id staged) in
  let! found := Backend.get_opt (txn_path txn_id) in
  do! (if is_ok result || match found with None => true | Some _ => false end
       then for_each (fun s => Commit.release_staging (sc_lease s)) staged
       else ret tt) in
  lift result.

(** ** Recovery *)
Definition parse (o : Obj) (path : Path) : DbResult TxnJournal :=
  match o with
  | OJournal j => let? _ := verify path "txn journal checksum mismatch" j in Ok j
  | _ => Err (Corruption path "txn parse")
  end.

Definition roll_forward (entry : TxnEntry) : prog unit :=
  let! current := LocalHeadStore.read (te_table_id entry) in
  match current with
  | Some state =>
      if hd_sequence (hs_head state) <? hd_sequence (te_new_head entry) then
        do! LocalHeadStore.commit (te_table_id entry) (te_table_name entry) (Some (hs_tag state))
              (te_new_head entry) (ret tt) in
        ret tt
      else ret tt
  | None => ret tt
  end.

Definition recover : prog unit :=
  let! metas := Backend.list TXN_PREFIX in
  for_each (fun meta =>
    let! o := Backend.get meta.1 in
    let! journal := lift (parse o meta.1) in
    do! for_each roll_forward (tj_entries journal) in
    Backend.delete meta.1) metas.

(** [Database::open] and [open_read_only]. *)
Definition open (path : string) : prog Database := Database.open_with recover path false.
Definition open_read_only (path : string) : prog Database := Database.open_with recover path true.
End Transaction.
End Transaction.
