(* ===== verification/TransactionProps.v ===== *)
(** * Transactions are all or nothing

    From any crash point of a transaction, recovery at the next open leaves every table at
    its old HEAD or every table at its new one. *)
From S2P Require Export Transaction.

Section TransactionProps.
Context `{Env}.
Implicit Types (d : Disk) (s : StagedCommit) (m : VersionManifest).

Definition tid s : Uuid := ce_table_id (sc_entry s).
Definition slot s : Path := manifest_path (tid s) (mf_sequence (sc_manifest s)).
Definition hpath s : Path := head_path (tid s).
Definition published_by s m : Prop := published (Some (sc_head s)) (sc_manifest s) m.
Definition new_head s m : Head := Commit.head_of (tid s) m.

(** A transaction ready to commit: distinct tables, each at the HEAD it was staged from, the
    next sequence, and no journal of another transaction. *)
Record ready d (txn_id : Uuid) (staged : list StagedCommit) : Prop := {
  rd_distinct : NoDup (map tid staged);
  rd_head : Forall (fun s => head_stored d (tid s) (hs_head (sc_head s)) /\ head_flushed d (tid s)) staged;
  rd_next : Forall (fun s => hd_sequence (hs_head (sc_head s)) < mf_sequence (sc_manifest s)) staged;
  rd_data : Forall (fun s => Forall data_path (Commit.own_segment_paths (sc_manifest s))) staged;
  rd_alone : forall p, is_prefix TXN_PREFIX p = true -> files d !! p = None /\ pending d !! p = None;
}.

Section Run.
Context (d0 : Disk) (txn_id : Uuid) (staged : list StagedCommit) (Hready : ready d0 txn_id staged).

Abbreviation jp := (txn_path txn_id).
Definition touched : list Path := map hpath staged ++ map slot staged ++ [jp].

Definition old_at s d : Prop := files d !! hpath s = files d0 !! hpath s.
Definition new_at s m d : Prop := exists f, files d !! hpath s = Some f /\ fl_obj f = OHead (new_head s m).
Definition stored s m d : Prop := exists f, files d !! slot s = Some f /\ fl_obj f = OManifest m.
Definition kept_data s d : Prop :=
  Forall (fun p => files d !! p = files d0 !! p) (Commit.own_segment_paths (sc_manifest s)).
(** The manifest and the segments of [s] are there to stay. *)
Definition installed s m d : Prop :=
  published_by s m /\ stored s m d /\ pending d !! slot s = None /\
  Forall (fun p => files d !! p = files d0 !! p /\ pending d !! p = None)
    (Commit.own_segment_paths (sc_manifest s)).
Definition settled s m d : Prop :=
  forall a, pending d !! hpath s = Some a -> pd_torn a = false /\
    Forall (fun x => x = files d0 !! hpath s \/ exists f, x = Some f /\ fl_obj f = OHead (new_head s m)) (pd_before a).
Abbreviation pairs := (list (StagedCommit * VersionManifest)) (only parsing).
Definition journal_of (sms : pairs) (ts : Z) : TxnJournal :=
  Transaction.journal txn_id ts (map (fun sm => Transaction.txn_entry sm.1 sm.2) sms).
Definition is_journal (sms : pairs) (x : option File) : Prop :=
  exists f ts, x = Some f /\ fl_obj f = OJournal (journal_of sms ts).
Definition journaled (sms : pairs) d : Prop := is_journal sms (files d !! jp).

Definition before_journal d : Prop :=
  frame touched d0 d /\ Forall (fun s => old_at s d /\ head_flushed d (tid s)) staged /\
  files d !! jp = None /\ pending d !! jp = None.
Definition journal_in_flight (sms : pairs) d : Prop :=
  frame touched d0 d /\ map fst sms = staged /\
  Forall (fun sm => old_at sm.1 d /\ head_flushed d (tid sm.1) /\ installed sm.1 sm.2 d) sms /\
  journaled sms d /\ pending d !! jp = Some (mkPending [None] true).
Definition after_journal (sms : pairs) d : Prop :=
  frame touched d0 d /\ map fst sms = staged /\
  Forall (fun sm => installed sm.1 sm.2 d /\ settled sm.1 sm.2 d /\
                    (old_at sm.1 d \/ new_at sm.1 sm.2 d)) sms /\
  journaled sms d /\ pending d !! jp = None.
Definition all_swapped (sms : pairs) d : Prop :=
  frame touched d0 d /\ map fst sms = staged /\
  Forall (fun sm => installed sm.1 sm.2 d /\ head_flushed d (tid sm.1) /\ new_at sm.1 sm.2 d) sms /\
  files d !! jp = None /\
  forall a, pending d !! jp = Some a -> pd_torn a = false /\ Forall (is_journal sms) (pd_before a).
Definition txn_inv d : Prop :=
  before_journal d \/ exists sms, journal_in_flight sms d \/ after_journal sms d \/ all_swapped sms d.

(** ** Paths *)
Lemma slot_not_head s s' : slot s <> hpath s'.
Proof. done. Qed.
Lemma jp_not_head s : jp <> hpath s.
Proof. done. Qed.
Lemma jp_not_slot s : jp <> slot s.
Proof. done. Qed.
Lemma data_not_jp p : data_path p -> p <> jp.
Proof. by intros (u & v & ->). Qed.
Lemma data_not_slot p s : data_path p -> p <> slot s.
Proof. apply data_not_manifest. Qed.
Lemma hpath_inj s s' : hpath s = hpath s' -> tid s = tid s'.
Proof. by intros [= ->]. Qed.
Lemma slot_tid s s' : slot s = slot s' -> tid s = tid s'.
Proof. unfold slot, manifest_path. congruence. Qed.

Lemma distinct_tid s s' l l' : staged = l ++ s :: l' -> In s' (l ++ l') -> tid s <> tid s'.
Proof.
  intros -> Hin E. pose proof (rd_distinct _ _ _ Hready) as Hn.
  rewrite map_app in Hn. cbn in Hn. apply NoDup_app in Hn as (_ & H2 & H3).
  apply NoDup_cons in H3 as [H3 _]. apply in_app_iff in Hin as [Hin|Hin].
  - apply (H2 (tid s')); [by apply list_elem_of_In, in_map|]. rewrite E. by left.
  - apply H3. rewrite E. by apply list_elem_of_In, in_map.
Qed.

Lemma touched_head s : In s staged -> hpath s ∈ touched.
Proof. intros. apply elem_of_app. left. by apply list_elem_of_In, in_map. Qed.
Lemma touched_slot s : In s staged -> slot s ∈ touched.
Proof. intros. apply elem_of_app. right. apply elem_of_app. left. by apply list_elem_of_In, in_map. Qed.
Lemma touched_jp : jp ∈ touched.
Proof. apply elem_of_app. right. apply elem_of_app. right. by left. Qed.
Lemma data_untouched p : data_path p -> p ∉ touched.
Proof.
  intros Hd Hin. apply elem_of_app in Hin as [Hin|Hin]; [|apply elem_of_app in Hin as [Hin|Hin]].
  - apply list_elem_of_In, in_map_iff in Hin as (s & <- & _). by destruct Hd as (? & ? & ?).
  - apply list_elem_of_In, in_map_iff in Hin as (s & <- & _). by eapply data_not_slot.
  - apply list_elem_of_singleton in Hin. by eapply data_not_jp.
Qed.

(** ** Before the journal *)
Lemma before_same d d' : same_files d d' -> before_journal d -> before_journal d'.
Proof.
  intros [E P] (Hf & Ho & H1 & H2). unfold before_journal. rewrite E, P. split_ands; [| |done..].
  - intros p Hp. rewrite E, P. by apply Hf.
  - eapply Forall_impl; [exact Ho|]. unfold old_at, head_flushed. by rewrite E, P.
Qed.

Lemma before_start : before_journal d0.
Proof.
  split; [apply frame_refl|]. split; [|by apply (rd_alone _ _ _ Hready)].
  eapply Forall_impl; [apply (rd_head _ _ _ Hready)|]. by intros s [_ ?].
Qed.

Lemma before_put s o torn d :
  In s staged -> before_journal d -> before_journal (put_file (slot s) o torn d).
Proof.
  intros Hs (Hf & Ho & H1 & H2). unfold before_journal. split_ands.
  - apply frame_put; [by apply touched_slot|done].
  - eapply Forall_impl; [exact Ho|]. intros s' [O F]. unfold old_at, head_flushed in *.
    rewrite files_put_ne, pending_put_ne by done. done.
  - by rewrite files_put_ne.
  - by rewrite pending_put_ne.
Qed.

Lemma before_synced ps d : before_journal d -> before_journal (synced ps d).
Proof.
  intros (Hf & Ho & H1 & H2). unfold before_journal. split_ands; [by apply frame_synced| |done|by apply pending_synced_None].
  eapply Forall_impl; [exact Ho|]. intros s [O F]. split; [done|by apply pending_synced_None].
Qed.

Lemma wpc_publish ft l d :
  (exists l0, staged = l0 ++ l) -> before_journal d ->
  wpc ft (map_prog Transaction.publish_staged l) d (fun r d' => before_journal d' /\
    (forall p, p ∉ map slot l -> files d' !! p = files d !! p) /\
    match r with
    | Ok ms => Forall2 (fun s m => published_by s m /\ stored s m d') l ms
    | Err _ => True
    end) before_journal.
Proof.
  revert d. induction l as [|s l IH]; intros d [l0 Hl] Hb.
  { apply wpc_ret; [done|]. split; [done|]. split; [done|constructor]. }
  assert (Hs : In s staged) by (rewrite Hl; apply in_app_iff; right; by left).
  assert (Hsame : forall d', same_files d d' -> before_journal d') by (intros; by eapply before_same).
  assert (Hq : forall d', same_files d d' -> before_journal d' /\
    (forall p, p ∉ map slot (s :: l) -> files d' !! p = files d !! p) /\ True).
  { intros d' Hs'. split; [auto|]. split; [|done]. intros p _. by destruct Hs' as [-> _]. }
  cbn [map_prog]. apply wpc_bind. unfold Transaction.publish_staged. apply wpc_bind.
  apply wpc_read_only; [apply read_only_spec|done|]. intros [spec|e] d1 Hd1; [|split; auto].
  destruct (_ <? _); [apply wpc_ret; split_ands; auto; by apply Hq|]. apply wpc_bind.
  apply wpc_read_only; [apply read_only_manifest_at|intros; apply Hsame; by etransitivity|].
  intros [parent|e] d2 Hd2; assert (Hd2' : same_files d d2) by (by etransitivity);
    [|split_ands; auto; by apply Hq].
  assert (Ht2 : same_files d (ticked d2)) by exact Hd2'.
  apply wpc_bind. apply wpc_now_call; [auto..| |fault; by first [apply (Hq _ Hd2')|apply (Hq _ Ht2)]].
  set (m := VersionManifest.recompute_rollups _). cbv zeta.
  assert (Hm : published_by s m) by by eexists.
  fold (tid s). change (manifest_path (tid s) (mf_sequence m)) with (slot s).
  set (d3 := put_file (slot s) (VersionManifest.to_bytes m) true (ticked d2)).
  assert (Hb3 : before_journal d3) by (apply before_put; auto).
  assert (Hf3 : forall p, p <> slot s -> files d3 !! p = files d !! p).
  { intros p Hp. unfold d3. rewrite files_put_ne by done. by destruct Ht2 as [-> _]. }
  assert (Hq3 : forall p, p ∉ map slot (s :: l) -> files d3 !! p = files d !! p).
  { intros p Hp. apply Hf3. intros ->. apply Hp. by left. }
  apply wpc_bind. apply wpc_put; [auto..| |].
  2: { intros _. split_ands; auto; by apply (Hq _ Ht2). }
  apply wpc_ret; [done|]. apply wpc_bind. eapply wpc_mono; [|intros d' Hd'; exact Hd'|apply (IH d3); [|done]].
  2: { exists (l0 ++ [s]). by rewrite Hl, <- app_assoc. }
  intros [ms|e] d' (Hb' & Hf' & Hms).
  - apply wpc_ret; [done|]. split; [done|]. split.
    + intros p Hp. cbn in Hp. apply not_elem_of_cons in Hp as [H1 H2]. rewrite Hf' by done. by apply Hf3.
    + constructor; [|done]. split; [done|]. unfold stored. rewrite Hf'.
      * unfold d3. rewrite files_put_eq. eauto.
      * intros Hin. apply list_elem_of_In, in_map_iff in Hin as (s' & E & Hin).
        eapply (distinct_tid s s' l0 l); [done|apply in_app_iff; by right|]. symmetry. by apply slot_tid.
  - split; [done|]. split; [done|]. split; [|done].
    intros p Hp. cbn in Hp. apply not_elem_of_cons in Hp as [H1 H2]. rewrite Hf' by done. by apply Hf3.
Qed.

(** ** From the journal to the swaps *)
Lemma pair_unique (sms : pairs) sm sm' :
  map fst sms = staged -> In sm sms -> In sm' sms -> tid sm.1 = tid sm'.1 -> sm = sm'.
Proof.
  intros Hf H1 H2 E. apply in_split in H1 as (l1 & l2 & ->).
  apply in_app_iff in H2 as [H2|[<-|H2]]; [|done|]; exfalso; rewrite map_app in Hf; cbn in Hf;
    (eapply (distinct_tid sm.1 sm'.1 (map fst l1) (map fst l2)); [done| |exact E]);
    apply in_app_iff; [left|right]; by apply in_map.
Qed.

Lemma published_slot s m : published_by s m -> manifest_path (tid s) (mf_sequence m) = slot s.
Proof. intros Hm. by rewrite (published_sequence _ _ _ Hm). Qed.

Lemma installed_put p o torn s m d :
  (forall q, data_path q -> q <> p) -> slot s <> p -> In s staged ->
  installed s m d -> installed s m (put_file p o torn d).
Proof.
  intros Hd Hp Hs (I1 & (f & I2 & I2') & I3 & I4). split; [done|].
  rewrite pending_put_ne by done. split; [exists f; by rewrite files_put_ne|]. split; [done|].
  pose proof (rd_data _ _ _ Hready) as Hdata. rewrite List.Forall_forall in Hdata.
  specialize (Hdata s Hs). rewrite List.Forall_forall in Hdata, I4 |- *.
  intros q Hq. assert (q <> p) by (apply Hd; auto). rewrite files_put_ne, pending_put_ne by done. auto.
Qed.

Lemma installed_synced ps s m d : installed s m d -> installed s m (synced ps d).
Proof.
  intros (I1 & I2 & I3 & I4). split; [done|]. split; [done|]. split; [by apply pending_synced_None|].
  eapply Forall_impl; [exact I4|]. intros p [? ?]. split; [done|by apply pending_synced_None].
Qed.

Lemma in_staged (sms : pairs) sm : map fst sms = staged -> In sm sms -> In sm.1 staged.
Proof. intros <-. apply in_map. Qed.

Lemma data_not_hpath q s : data_path q -> q <> hpath s.
Proof. apply data_not_head. Qed.

(** Renaming one HEAD keeps the state after the journal. *)
Lemma after_rename (sms : pairs) sm d :
  In sm sms -> after_journal sms d ->
  after_journal sms (put_file (hpath sm.1) (OHead (new_head sm.1 sm.2)) false d).
Proof.
  intros Hin (Hf & Hst & HF & Hj & Hjp). rewrite List.Forall_forall in HF.
  pose proof (in_staged _ _ Hst Hin) as Hs. split; [|split; [done|split; [|split]]].
  - apply frame_put; [by apply touched_head|done].
  - rewrite List.Forall_forall. intros sm' Hin'. destruct (HF sm' Hin') as (I & S & O).
    split; [apply installed_put; auto; [intros q; apply data_not_hpath|by eapply in_staged]|].
    destruct (decide (tid sm.1 = tid sm'.1)) as [E|Hne].
    + assert (sm = sm') as <- by by eapply pair_unique. unfold settled, new_at.
      rewrite pending_put_eq, files_put_eq. split; [|right; eauto]. intros a [= <-]. cbn.
      assert (Hold : files d !! hpath sm.1 = files d0 !! hpath sm.1 \/
        exists f, files d !! hpath sm.1 = Some f /\ fl_obj f = OHead (new_head sm.1 sm.2)) by exact O.
      unfold settled in S. destruct (pending d !! hpath sm.1) as [a|]; cbn.
      * destruct (S a eq_refl) as [S1 S2]. split; [done|constructor; [exact Hold|exact S2]].
      * split; [done|constructor; [exact Hold|constructor]].
    + assert (Hp : hpath sm.1 <> hpath sm'.1) by (intros E; apply Hne; by apply hpath_inj).
      unfold settled, old_at, new_at. rewrite pending_put_ne, files_put_ne by done. done.
  - unfold journaled. by rewrite files_put_ne.
  - by rewrite pending_put_ne.
Qed.

Lemma after_synced (sms : pairs) ps d : after_journal sms d -> after_journal sms (synced ps d).
Proof.
  intros (Hf & Hst & HF & Hj & Hjp). split; [by apply frame_synced|]. split; [done|].
  split; [|split; [done|by apply pending_synced_None]].
  eapply Forall_impl; [exact HF|]. intros sm (I & S & O). split; [by apply installed_synced|].
  split; [|done]. intros a Ha. apply S. unfold synced in Ha. cbn in Ha.
  rewrite foldr_delete_lookup in Ha. by case_bool_decide.
Qed.

Lemma after_same (sms : pairs) d d' : same_files d d' -> after_journal sms d -> after_journal sms d'.
Proof.
  intros [E P] (Hf & Hst & HF & Hj & Hjp). split; [intros p Hp; rewrite E, P; by apply Hf|].
  split; [done|]. unfold journaled. rewrite E, P. split; [|done]. eapply Forall_impl; [exact HF|].
  intros sm. unfold installed, settled, old_at, new_at, stored. rewrite E, P. done.
Qed.

Definition swap_item (sm : StagedCommit * VersionManifest) : Path * Head := (hpath sm.1, new_head sm.1 sm.2).

(** The temporary files of the swaps are written, then flushed; the rest is as it was. *)
Definition temps_hold (flushed : bool) (items : list (Path * Head)) d : Prop :=
  Forall (fun i => temps d !! i.1 = Some (Head.to_bytes i.2, flushed)) items.
Definition temps_only (items : list (Path * Head)) d d' : Prop :=
  d' = with_temps (temps d') d /\ forall p, p ∉ map fst items -> temps d' !! p = temps d !! p.
Lemma temps_only_same (items : list (Path * Head)) d d' : temps_only items d d' -> same_files d d'.
Proof. by intros [-> _]. Qed.
Lemma temps_only_refl (items : list (Path * Head)) d : temps_only items d d.
Proof. split; [by rewrite with_temps_id|done]. Qed.
Lemma temps_only_step (i : Path * Head) (items : list (Path * Head)) d (t : gmap Path (Obj * bool)) d' :
  (forall p, p <> i.1 -> t !! p = temps d !! p) -> temps_only items (with_temps t d) d' -> temps_only (i :: items) d d'.
Proof.
  intros Ht [E Hp]. split; [exact E|]. intros p [H1 H2]%not_elem_of_cons. rewrite Hp by done. by apply Ht.
Qed.
Lemma wpc_temps ft (step : Path * Head -> Call unit) (before : Path * Head -> Disk -> Prop) flushed (items : list (Path * Head)) d :
  (forall i d, before i d -> exists t, effect (step i) d = (tt, with_temps t d) /\
     t !! i.1 = Some (Head.to_bytes i.2, flushed) /\ forall p, p <> i.1 -> t !! p = temps d !! p) ->
  (forall i d d', temps d' !! i.1 = temps d !! i.1 -> before i d -> before i d') ->
  NoDup (map fst items) -> Forall (fun i => before i d) items ->
  wpc ft (for_each (fun i => call (step i)) items) d
    (fun r d' => temps_only items d d' /\ match r with Ok _ => temps_hold flushed items d' | Err _ => True end) (temps_only items d).
Proof.
  intros Hstep Hstable. revert d. induction items as [|i items IH]; intros d Hnd Hb; [apply wpc_ret; [apply temps_only_refl|by split; [apply temps_only_refl|constructor]]|].
  cbn [map] in Hnd. apply NoDup_cons in Hnd as [Hi Hnd]. apply Forall_cons in Hb as [Hbi Hb]. cbn [for_each].
  destruct (Hstep i d Hbi) as (t & He & Ht & Hrest). apply wpc_bind.
  assert (H1 : temps_only (i :: items) d (with_temps t d)) by (eapply temps_only_step; [exact Hrest|apply temps_only_refl]).
  apply wpc_call; rewrite ?He; [apply temps_only_refl|exact H1| |intros _; split; split; [apply temps_only_refl|by split; [apply temps_only_refl|]|exact H1|by split]].
  eapply wpc_mono; [| |apply IH; [done|]].
  - intros r d' [Ho Hr]. split; [by eapply temps_only_step|]. destruct r; [|done]. constructor; [|exact Hr].
    destruct Ho as [_ Ho]. by rewrite Ho.
  - intros d' Ho. by eapply temps_only_step.
  - rewrite List.Forall_forall in Hb |- *. intros j Hj. apply (Hstable j d); [|by apply Hb]. cbn. apply Hrest.
    intros E. apply Hi. rewrite <- E. apply list_elem_of_In, in_map, Hj.
Qed.

Lemma wpc_renames ft (sms l : pairs) d :
  (exists l0, sms = l0 ++ l) -> after_journal sms d -> temps_hold true (map swap_item l) d ->
  wpc ft (for_each (fun i => LocalHeadStore.rename i.1) (map swap_item l)) d
    (fun r d' => after_journal sms d' /\
       match r with
       | Ok _ => Forall (fun sm => new_at sm.1 sm.2 d') l /\
                 (forall p, p ∉ map (fun sm => hpath sm.1) l -> files d' !! p = files d !! p)
       | Err _ => True
       end) (after_journal sms).
Proof.
  revert d. induction l as [|sm l IH]; intros d [l0 Hl] Ha Ht; [by apply wpc_ret|].
  assert (Hin : In sm sms) by (rewrite Hl; apply in_app_iff; right; by left).
  cbn [map] in Ht. apply Forall_cons in Ht as [Ht Htl]. cbn [fst swap_item] in Ht.
  set (dt := with_temps (delete (hpath sm.1) (temps d)) d).
  assert (Hat : after_journal sms dt) by (eapply after_same; [|exact Ha]; apply with_temps_same).
  pose proof (after_rename _ _ _ Hin Hat) as Ha1.
  assert (Hsm : hpath sm.1 ∉ map (fun sm => hpath sm.1) l).
  { intros Hx. apply list_elem_of_In, in_map_iff in Hx as (sm' & E & Hin'). destruct Ha as (_ & Hst & _).
    rewrite Hl, map_app in Hst. cbn in Hst.
    eapply (distinct_tid sm.1 sm'.1); [by rewrite <- Hst| |symmetry; by apply hpath_inj].
    apply in_app_iff. right. by apply in_map. }
  cbn [map for_each]. apply wpc_bind. apply (wpc_rename _ (OHead (new_head sm.1 sm.2))); [exact Ht|done|exact Ha1| |fault; auto].
  eapply wpc_mono; [|intros d' Hd'; exact Hd'|apply IH; [exists (l0 ++ [sm]); by rewrite Hl, <- app_assoc|exact Ha1|]].
  2: { unfold temps_hold in *. rewrite List.Forall_forall in Htl |- *. intros i Hi. unfold put_file. cbn. rewrite lookup_delete_ne; [by apply Htl|].
    intros E. apply Hsm. rewrite E. apply list_elem_of_In. apply in_map_iff in Hi as (sm' & <- & Hi). by apply (in_map (fun sm => hpath sm.1)). }
  intros [u|e] d' (Ha' & Hr); [|done]. destruct Hr as [Hr Hp]. split; [done|].
  split.
  - constructor; [|done]. unfold new_at. rewrite Hp by done.
    change (swap_item sm).1 with (hpath sm.1). rewrite files_put_eq. by eexists.
  - intros p Hpp. cbn in Hpp. apply not_elem_of_cons in Hpp as [H1 H2]. rewrite Hp by done.
    rewrite files_put_ne; [done|]. cbn. congruence.
Qed.

Lemma wpc_head_syncs ft (sms l : pairs) d :
  Forall (fun sm => new_at sm.1 sm.2 d) sms -> after_journal sms d ->
  wpc ft (for_each (fun i => call (SyncObjects [i.1])) (map swap_item l)) d
    (fun r d' => after_journal sms d' /\
       match r with
       | Ok _ => files d' = files d /\ Forall (fun sm => head_flushed d' (tid sm.1)) l /\
                 (forall t, head_flushed d t -> head_flushed d' t)
       | Err _ => True
       end) (after_journal sms).
Proof.
  intros Hn. revert d Hn. induction l as [|sm l IH]; intros d Hn Ha; [by apply wpc_ret|].
  pose proof (after_synced _ [hpath sm.1] _ Ha) as Ha1.
  cbn [map for_each]. apply wpc_bind. apply wpc_sync; [done|exact Ha1| |fault; auto].
  eapply wpc_mono; [|intros d' Hd'; exact Hd'|apply IH; [exact Hn|exact Ha1]].
  intros [u|e] d' (Ha' & Hr); [|done]. destruct Hr as (Hr1 & Hr2 & Hr3). split; [done|].
  split; [done|]. split; [constructor; [|done]|].
  - apply Hr3. apply pending_synced_in. by left.
  - intros t Ht. apply Hr3. by apply pending_synced_None.
Qed.

Lemma read_only_read_head p : read_only (LocalHeadStore.read_head_file p).
Proof. unfold LocalHeadStore.read_head_file, Backend.get_opt, call. read_only_tac. Qed.
Lemma read_only_validate s : read_only (Transaction.validate_base s).
Proof.
  unfold Transaction.validate_base. apply read_only_bind; [apply read_only_read_head|].
  intros cur. by case_bool_decide.
Qed.
Lemma read_only_revalidate w : read_only (LocalHeadStore.revalidate w).
Proof.
  unfold LocalHeadStore.revalidate. apply read_only_bind; [read_only_tac|]. intros _.
  apply read_only_bind; [apply read_only_read_head|]. done.
Qed.

Lemma zip_combine {A B D} (f : A -> B -> D) l k :
  zip_with f l k = map (fun p => f p.1 p.2) (combine l k).
Proof. revert k. induction l as [|a l IH]; intros [|b k]; cbn; [done..|]. f_equal. apply IH. Qed.

Lemma Forall_combine {A B} (R : A -> B -> Prop) l k :
  Forall2 R l k -> map fst (combine l k) = l /\ Forall (fun p => R p.1 p.2) (combine l k).
Proof.
  induction 1 as [|a b l k Hab Hl [IH1 IH2]]; [done|]. cbn. split; [by f_equal|by constructor].
Qed.

Lemma swap_paths (sms : pairs) d : after_journal sms d -> NoDup (map fst (map swap_item sms)).
Proof.
  intros (_ & Hst & _). rewrite map_map. 
  enough (Hg : forall l l0, sms = l0 ++ l -> NoDup (map (fun sm => (swap_item sm).1) l)) by by apply (Hg sms []).
  induction l as [|sm l IH]; intros l0 Hl; [constructor|]. cbn [map]. constructor; [|by apply (IH (l0 ++ [sm])); rewrite Hl, <- app_assoc].
  intros Hx. apply list_elem_of_In, in_map_iff in Hx as (sm' & E & Hin'). rewrite Hl, map_app in Hst. cbn in Hst.
  eapply (distinct_tid sm.1 sm'.1); [by rewrite <- Hst| |symmetry; by apply hpath_inj].
  apply in_app_iff. right. by apply in_map.
Qed.

Lemma wpc_write_heads ft (sms : pairs) d :
  after_journal sms d ->
  wpc ft (LocalHeadStore.write_head_files (map swap_item sms)) d
    (fun r d' => after_journal sms d' /\
       match r with
       | Ok _ => Forall (fun sm => head_flushed d' (tid sm.1) /\ new_at sm.1 sm.2 d') sms
       | Err _ => True
       end) (after_journal sms).
Proof.
  intros Ha.
  unfold LocalHeadStore.write_head_files. apply wpc_bind.
  eapply wpc_mono; [|intros d' Hd'; eapply after_same; [by eapply temps_only_same|exact Ha]|
    apply (wpc_temps ft (fun i => CreateTemp i.1 (Head.to_bytes i.2)) (fun _ _ => True) false)]; [|..].
  2: { intros i d' _. eexists. split; [done|]. split; [apply lookup_insert_eq|]. intros p Hp. by apply lookup_insert_ne. }
  2: done. 2: by eapply swap_paths. 2: by apply List.Forall_forall.
  intros [u0|e] da (Hoa & Hta); (assert (Haa : after_journal sms da) by (eapply after_same; [by eapply temps_only_same|exact Ha])); [|by split].
  apply wpc_bind.
  eapply wpc_mono; [|intros d' Hd'; eapply after_same; [by eapply temps_only_same|exact Haa]|
    apply (wpc_temps ft (fun i => SyncTemp i.1) (fun i d => temps d !! i.1 = Some (Head.to_bytes i.2, false)) true)]; [|..].
  2: { intros i d' Hi. eexists. split; [done|]. split; [by rewrite lookup_alter_eq, Hi|]. intros p Hp. by apply lookup_alter_ne. }
  2: by intros i d' d'' ->. 2: by eapply swap_paths. 2: done.
  intros [u9|e] db (Hob & Htb); (assert (Hab : after_journal sms db) by (eapply after_same; [by eapply temps_only_same|exact Haa])); [|by split].
  apply wpc_bind.
  eapply wpc_mono; [|intros d' Hd'; exact Hd'|apply (wpc_renames ft sms sms); [by exists []|done|done]].
  intros [u'|e] d2 (Ha2 & Hr); [|done]. destruct Hr as [Hn _]. apply wpc_bind.
  eapply wpc_mono; [|intros d' Hd'; exact Hd'|apply (wpc_head_syncs ft sms sms); done].
  intros [u''|e] d3 (Ha3 & Hr); [|done]. destruct Hr as (E & Hfl & _). apply wpc_ret; [done|].
  split; [done|]. apply Forall_and. split; [done|]. unfold new_at. by rewrite E.
Qed.

Lemma wpc_swaps ft (sms : pairs) d :
  after_journal sms d ->
  wpc ft (LocalHeadStore.commit_batch (map (fun sm => Transaction.head_swap sm.1 sm.2) sms) (ret tt)) d
    (fun r d' => after_journal sms d' /\
       match r with
       | Ok _ => Forall (fun sm => head_flushed d' (tid sm.1) /\ new_at sm.1 sm.2 d') sms
       | Err _ => True
       end) (after_journal sms).
Proof.
  intros Ha. unfold LocalHeadStore.commit_batch.
  assert (Hgo : wpc ft (do! for_each LocalHeadStore.revalidate (map (fun sm => Transaction.head_swap sm.1 sm.2) sms) in
      do! ret tt in
      LocalHeadStore.write_head_files (map (fun w => (head_path (hw_table_id w), hw_new_head w))
        (map (fun sm => Transaction.head_swap sm.1 sm.2) sms))) d
    (fun r d' => after_journal sms d' /\
       match r with
       | Ok _ => Forall (fun sm => head_flushed d' (tid sm.1) /\ new_at sm.1 sm.2 d') sms
       | Err _ => True
       end) (after_journal sms)).
  { apply wpc_bind. apply wpc_read_only; [apply read_only_for_each; intros; apply read_only_revalidate| |].
    { intros. by eapply after_same. }
    intros [u|e] d1 Hd1; pose proof (after_same _ _ _ Hd1 Ha) as Ha1; [|by split].
    apply wpc_bind. apply wpc_ret; [done|]. rewrite map_map.
    change (map (fun x => (head_path (hw_table_id (Transaction.head_swap x.1 x.2)),
      hw_new_head (Transaction.head_swap x.1 x.2))) sms) with (map swap_item sms).
    by apply wpc_write_heads. }
  destruct sms as [|sm sms]; [|exact Hgo]. apply wpc_bind. apply wpc_ret; [done|]. apply wpc_ret; [done|]. by split.
Qed.

Lemma installed_of_stored s m d :
  In s staged -> before_journal d -> published_by s m -> stored s m d ->
  installed s m (synced (Transaction.durable_paths s m) d).
Proof.
  intros Hs (Hf & _) Hm Hst. split; [done|]. split; [done|].
  unfold Transaction.durable_paths. fold (tid s). rewrite (published_slot _ _ Hm), (published_own _ _ _ Hm).
  split; [apply pending_synced_in, elem_of_app; right; by left|].
  pose proof (rd_data _ _ _ Hready) as Hdata. rewrite List.Forall_forall in Hdata.
  specialize (Hdata s Hs). rewrite List.Forall_forall in Hdata |- *. intros p Hp.
  split; [apply Hf, data_untouched; auto|]. apply pending_synced_in, elem_of_app. left. by apply list_elem_of_In.
Qed.

(** Flushing the manifests and the new segments installs them. *)
Lemma flush_installs (sms : pairs) d :
  map fst sms = staged -> before_journal d ->
  Forall (fun sm => published_by sm.1 sm.2 /\ stored sm.1 sm.2 d) sms ->
  Forall (fun sm => installed sm.1 sm.2
    (synced (concat (map (fun p => Transaction.durable_paths p.1 p.2) sms)) d)) sms.
Proof.
  intros Hfst Hb Hall. set (ps := concat _). rewrite List.Forall_forall in Hall |- *.
  intros sm Hin. destruct (Hall sm Hin) as [Hm Hst].
  destruct (installed_of_stored sm.1 sm.2 d (in_staged _ _ Hfst Hin) Hb Hm Hst) as (I1 & I2 & I3 & I4).
  assert (Hps : forall p, p ∈ Commit.own_segment_paths (sc_manifest sm.1) ++ [slot sm.1] ->
    pending (synced ps d) !! p = None).
  { intros p Hp. apply pending_synced_in. apply list_elem_of_In, in_concat.
    exists (Transaction.durable_paths sm.1 sm.2). split; [apply in_map_iff; eauto|].
    unfold Transaction.durable_paths. fold (tid sm.1). rewrite (published_slot _ _ Hm), (published_own _ _ _ Hm).
    by apply list_elem_of_In. }
  split; [done|]. split; [done|]. split; [apply Hps, elem_of_app; right; by left|].
  rewrite List.Forall_forall in I4 |- *. intros p Hp. destruct (I4 p Hp) as [F _]. split; [done|].
  apply Hps, elem_of_app. left. by apply list_elem_of_In.
Qed.

Lemma journal_written (sms : pairs) ts d :
  map fst sms = staged -> before_journal d -> Forall (fun sm => installed sm.1 sm.2 d) sms ->
  journal_in_flight sms (put_file jp (OJournal (journal_of sms ts)) true d).
Proof.
  intros Hfst (Hf & Ho & E & P) Hin. set (d' := put_file _ _ _ _).
  split; [apply frame_put; [apply touched_jp|done]|]. split; [done|]. split; [|split].
  - rewrite <- Hfst, Forall_map in Ho. rewrite List.Forall_forall in Ho, Hin |- *. intros sm Hsm.
    destruct (Ho sm Hsm) as [O F]. unfold old_at, head_flushed, d' in *.
    rewrite files_put_ne, pending_put_ne by done. split; [done|]. split; [done|].
    apply installed_put; [|done| |by apply Hin]; [intros q; apply data_not_jp|by eapply in_staged].
  - unfold journaled, is_journal, d'. rewrite files_put_eq. do 2 eexists. split; done.
  - unfold d'. rewrite pending_put_eq. by rewrite E, P.
Qed.

Lemma journal_flushed (sms : pairs) d : journal_in_flight sms d -> after_journal sms (synced [jp] d).
Proof.
  intros (Hf & Hfst & HF & Hj & _). split; [by apply frame_synced|]. split; [done|].
  split; [|split; [done|apply pending_synced_in; by left]].
  eapply Forall_impl; [exact HF|]. intros sm (O & F & I). split; [by apply installed_synced|].
  split; [|by left]. intros a Ha. by rewrite (pending_synced_None [jp] d (hpath sm.1) F) in Ha.
Qed.

Lemma journal_deleted (sms : pairs) d :
  after_journal sms d -> Forall (fun sm => head_flushed d (tid sm.1) /\ new_at sm.1 sm.2 d) sms ->
  all_swapped sms (effect (Delete jp) d).2.
Proof.
  intros (Hf & Hfst & HF & (f & ts & E & Ho) & Hjp) Hr.
  change (effect (Delete jp) d).2 with (match files d !! jp with Some _ => del_file jp d | None => d end).
  rewrite E.
  assert (Hne : forall q, q <> jp -> files (del_file jp d) !! q = files d !! q /\
    pending (del_file jp d) !! q = pending d !! q).
  { intros q Hq. by rewrite files_del_ne, pending_del_ne. }
  split; [|split; [done|split; [|split]]].
  - intros p Hp. assert (p <> jp) by (intros ->; apply Hp, touched_jp). destruct (Hne p) as [-> ->]; auto.
  - pose proof (rd_data _ _ _ Hready) as Hdata. rewrite List.Forall_forall in Hdata, HF, Hr |- *.
    intros sm Hin. destruct (HF sm Hin) as ((I1 & (g & I2) & I3 & I4) & _ & _), (Hr sm Hin) as [Fl (h & N)].
    specialize (Hdata _ (in_staged _ _ Hfst Hin)).
    destruct (Hne (slot sm.1)) as [S1 S2], (Hne (hpath sm.1)) as [S3 S4]; try done.
    split; [|split; [by unfold head_flushed; fold (hpath sm.1); rewrite S4|exists h; by rewrite S3]].
    split; [done|]. split; [exists g; by rewrite S1|]. split; [by rewrite S2|].
    rewrite List.Forall_forall in Hdata, I4 |- *. intros p Hp.
    destruct (Hne p) as [-> ->]; [by apply data_not_jp, Hdata|]. auto.
  - apply files_del_eq.
  - intros a. rewrite pending_del_eq, Hjp, E. intros [= <-]. cbn [pd_torn pd_before default from_option].
    split; [done|]. constructor; [|constructor]. by exists f, ts.
Qed.

Lemma wpc_inner ft :
  wpc ft (Transaction.commit_staged_transaction_inner txn_id staged) d0
    (fun r d' => txn_inv d' /\ match r with Ok _ => exists sms, all_swapped sms d' | Err _ => True end) txn_inv.
Proof.
  pose proof before_start as Hb0.
  assert (HB : forall d, before_journal d -> txn_inv d) by (intros; by left).
  unfold Transaction.commit_staged_transaction_inner. apply wpc_bind. apply wpc_lock; [auto| |fault].
  apply wpc_bind. apply wpc_read_only.
  { apply read_only_for_each. intros. apply read_only_validate. }
  { intros. eapply HB, before_same; eauto. }
  intros [u|e] d1 Hd1; pose proof (before_same _ _ Hd1 Hb0) as Hb1; [|split; auto].
  apply wpc_bind. eapply wpc_mono; [|exact HB|apply wpc_publish; [by exists []|done]].
  intros [ms|e] d2 (Hb2 & _ & Hms); [|split; auto].
  destruct (Forall_combine _ _ _ Hms) as [Hfst Hall]. set (sms := combine staged ms) in *.
  rewrite !zip_combine. fold sms. pose proof (flush_installs sms d2 Hfst Hb2 Hall) as Hin3.
  set (ps := concat _) in *. assert (Hb3 := before_synced ps _ Hb2).
  apply wpc_bind. apply wpc_sync_objects; [auto..| |fault].
  assert (Ht3 : before_journal (ticked (synced ps d2))) by exact Hb3.
  apply wpc_bind. apply wpc_now_call; [auto..| |fault].
  pose proof (fun ts => journal_written sms ts (ticked (synced ps d2)) Hfst Ht3 Hin3) as H4.
  specialize (H4 (monotonic_commit_ts (now (synced ps d2)) None)). set (d4 := put_file _ _ _ _) in H4.
  assert (HI4 : txn_inv d4) by (right; eauto).
  apply wpc_bind. apply wpc_put; [auto|exact HI4| |fault]. fold d4.
  assert (HA : forall d, after_journal sms d -> txn_inv d) by (intros; right; eauto).
  pose proof (journal_flushed _ _ H4) as H5.
  apply wpc_bind. apply wpc_sync_objects; [exact HI4|auto| |fault].
  apply wpc_bind. eapply wpc_mono; [|exact HA|apply wpc_swaps; exact H5].
  intros [tags|e] d6 (H6 & Hr); [|split; auto].
  pose proof (journal_deleted _ _ H6 Hr) as H7.
  assert (HI7 : txn_inv (effect (Delete jp) d6).2) by (right; eauto).
  apply wpc_bind. apply wpc_call; [auto|exact HI7| |fault].
  apply wpc_ret; [exact HI7|]. split; [exact HI7|]. eauto.
Qed.

(** ** What a crash leaves *)
Definition intact sm d : Prop := published_by sm.1 sm.2 /\ stored sm.1 sm.2 d /\ kept_data sm.1 d.
Definition recoverable d : Prop :=
  (forall p, is_prefix TXN_PREFIX p = true -> p <> jp -> files d !! p = None) /\
  ((files d !! jp = None /\
    (Forall (fun s => old_at s d) staged \/
     exists sms, map fst sms = staged /\ Forall (fun sm => intact sm d /\ new_at sm.1 sm.2 d) sms)) \/
   (exists sms, map fst sms = staged /\ is_journal sms (files d !! jp) /\
      Forall (fun sm => intact sm d /\ (old_at sm.1 d \/ new_at sm.1 sm.2 d)) sms) \/
   (exists bytes t, files d !! jp = Some (mkFile (ORaw bytes) t)) /\ Forall (fun s => old_at s d) staged).

Lemma survives_installed sm d d' : survives d d' -> installed sm.1 sm.2 d -> intact sm d'.
Proof.
  intros Hs (I1 & (f & I2 & I2') & I3 & I4). split; [done|]. split.
  - exists f. split; [|done]. rewrite <- I2. by eapply survives_stable.
  - eapply Forall_impl; [exact I4|]. intros p [F P]. rewrite <- F. by eapply survives_stable.
Qed.
Lemma survives_old s d d' : survives d d' -> old_at s d -> head_flushed d (tid s) -> old_at s d'.
Proof. intros Hs O F. unfold old_at. rewrite <- O. by eapply survives_stable. Qed.
Lemma survives_olds d d' :
  survives d d' -> Forall (fun s => old_at s d /\ head_flushed d (tid s)) staged ->
  Forall (fun s => old_at s d') staged.
Proof. intros Hs Ho. eapply Forall_impl; [exact Ho|]. intros s [O F]. by eapply survives_old. Qed.

Lemma survives_alone d d' :
  survives d d' -> frame touched d0 d ->
  forall p, is_prefix TXN_PREFIX p = true -> p <> jp -> files d' !! p = None.
Proof.
  intros Hs Hf p Hp Hne. destruct (rd_alone _ _ _ Hready p Hp) as [E P].
  assert (Hout : p ∉ touched).
  { intros Hin. apply elem_of_app in Hin as [Hin|Hin]; [|apply elem_of_app in Hin as [Hin|Hin]].
    - by apply list_elem_of_In, in_map_iff in Hin as (s & <- & _).
    - by apply list_elem_of_In, in_map_iff in Hin as (s & <- & _).
    - by apply list_elem_of_singleton in Hin. }
  destruct (Hf p Hout) as [E' P']. rewrite <- E, <- E'. eapply survives_stable; [done|].
  destruct P' as [->|]; done.
Qed.

Lemma crash_recoverable d d' : txn_inv d -> survives d d' -> recoverable d'.
Proof.
  intros [(F & O & E & P)|(sms & [(F & Hst & HF & (f & ts & E & Hj) & P)|
    [(F & Hst & HF & Hj & P)|(F & Hst & HF & E & P)]])] Hs;
    (split; [by eapply survives_alone|]).
  - left. split; [by rewrite (survives_stable _ _ _ Hs P)|]. left. by eapply survives_olds.
  - assert (Hold : Forall (fun s => old_at s d') staged).
    { eapply survives_olds; [done|]. rewrite <- Hst, Forall_map. eapply Forall_impl; [exact HF|].
      intros sm (? & ? & _). by split. }
    destruct (proj1 Hs jp) as [Ej|(a & Ha & Hor)].
    + right. left. exists sms. split; [done|]. split; [exists f, ts; by rewrite Ej|].
      eapply Forall_impl; [exact HF|]. intros sm (O & Fl & I). split; [by eapply survives_installed|].
      left. by eapply survives_old.
    + rewrite P in Ha. injection Ha as <-. destruct Hor as [Hin|[_ (bytes & t & Ej)]].
      * left. destruct Hin as [Hin|[]]. cbn in Hin. rewrite <- Hin. auto.
      * right. right. split; [|done]. eauto.
  - right. left. exists sms. split; [done|]. split; [by rewrite (survives_stable _ _ _ Hs P)|].
    eapply Forall_impl; [exact HF|]. intros sm (I & S & O). split; [by eapply survives_installed|].
    destruct (proj1 Hs (hpath sm.1)) as [Eh|(a & Ha & Hor)].
    + destruct O as [O|(g & O)]; [left; by unfold old_at; rewrite Eh|right; exists g; by rewrite Eh].
    + destruct (S a Ha) as [St Sb]. destruct Hor as [Hin|[Ht _]]; [|congruence].
      rewrite List.Forall_forall in Sb. destruct (Sb _ Hin) as [Hx|Hx]; [by left|by right].
  - assert (Hnew : Forall (fun sm => intact sm d' /\ new_at sm.1 sm.2 d') sms).
    { eapply Forall_impl; [exact HF|]. intros sm (I & Fl & (g & N)). split; [by eapply survives_installed|].
      exists g. by rewrite (survives_stable _ _ (hpath sm.1) Hs Fl). }
    destruct (proj1 Hs jp) as [Ej|(a & Ha & Hor)].
    + left. split; [congruence|]. right. eauto.
    + destruct (P a Ha) as [Pt Pb]. destruct Hor as [Hin|[Ht _]]; [|congruence].
      rewrite List.Forall_forall in Pb. specialize (Pb _ Hin). right. left. exists sms.
      split; [done|]. split; [done|]. eapply Forall_impl; [exact Hnew|]. intros sm [? ?]. auto.
Qed.

(** ** Recovery *)
Definition all_old d : Prop := Forall (fun s => old_at s d) staged.
Definition all_new d : Prop :=
  exists sms, map fst sms = staged /\ Forall (fun sm => intact sm d /\ new_at sm.1 sm.2 d) sms.

(** The listing of journals. *)
Lemma listing_none d :
  (forall p, is_prefix TXN_PREFIX p = true -> files d !! p = None) -> (effect (List TXN_PREFIX) d).1 = [].
Proof.
  intros Hn. cbn -[is_prefix]. destruct (List.filter _ _) as [|[p f] l] eqn:E; [done|].
  assert (Hin : In (p, f) (List.filter (fun e => is_prefix TXN_PREFIX e.1 && negb (bool_decide (e.1 = TXN_PREFIX)))
    (map_to_list (files d)))) by (rewrite E; by left).
  apply filter_In in Hin as [Hin Hp]. apply list_elem_of_In, elem_of_map_to_list in Hin.
  apply andb_true_iff in Hp as [Hp _]. rewrite Hn in Hin by done. done.
Qed.

Lemma listing_one d f :
  (forall p, is_prefix TXN_PREFIX p = true -> p <> jp -> files d !! p = None) ->
  files d !! jp = Some f -> (effect (List TXN_PREFIX) d).1 = [(jp, f)].
Proof.
  intros Hn Hf. cbn -[is_prefix]. set (q := fun e : Path * File => _).
  assert (Hin : forall e, In e (List.filter q (map_to_list (files d))) <-> e = (jp, f)).
  { intros [p g]. rewrite filter_In, <- list_elem_of_In, elem_of_map_to_list. unfold q. cbn [fst]. split.
    - intros [Hg Hp]. apply andb_true_iff in Hp as [Hp _]. destruct (decide (p = jp)) as [->|Hne].
      + congruence.
      + rewrite Hn in Hg by done. done.
    - intros [= -> ->]. split; [done|]. by rewrite bool_decide_false. }
  assert (Hnd : NoDup (List.filter q (map_to_list (files d)))).
  { apply NoDup_ListNoDup, List.NoDup_filter, NoDup_ListNoDup, NoDup_map_to_list. }
  destruct (List.filter q _) as [|a [|b l]]; cbn in Hin.
  - by destruct (proj2 (Hin (jp, f)) eq_refl).
  - f_equal. apply Hin. by left.
  - apply NoDup_cons in Hnd as [Ha _]. destruct Ha.
    rewrite (proj1 (Hin a)) by (by left). rewrite (proj1 (Hin b)) by (right; by left). by left.
Qed.

Lemma wpc_swap_plain t name new d st (Q : DbResult HeadTag -> Disk -> Prop) :
  disk_head d t = Ok (Some st) ->
  (forall tm, Q (Ok (checksum_hex (OHead new))) (synced [head_path t] (put_file (head_path t) (OHead new) false (with_temps tm d)))) ->
  wpc false (LocalHeadStore.commit t name (Some (hs_tag st)) new (ret tt)) d Q (fun _ => True).
Proof.
  intros Hh HQ. unfold LocalHeadStore.commit. apply wpc_bind. apply wpc_lock; [done| |done].
  apply wpc_bind. apply wpc_read_head; [done| |done]. rewrite Hh. apply wpc_bind. apply wpc_lift; [done|].
  unfold LocalHeadStore.check_expected. rewrite bool_decide_true by done.
  apply wpc_bind. apply wpc_ret; [done|]. apply wpc_write_head_file; [done..|intros tm; apply HQ|done].
Qed.

Definition swappable sm d : Prop := intact sm d /\ (old_at sm.1 d \/ new_at sm.1 sm.2 d).

Lemma swap_keeps (sms : pairs) sm d :
  map fst sms = staged -> In sm sms ->
  let d' := synced [hpath sm.1] (put_file (hpath sm.1) (OHead (new_head sm.1 sm.2)) false d) in
  new_at sm.1 sm.2 d' /\
  (forall sm', In sm' sms -> intact sm' d -> intact sm' d') /\
  (forall sm', In sm' sms -> (old_at sm'.1 d \/ new_at sm'.1 sm'.2 d) -> old_at sm'.1 d' \/ new_at sm'.1 sm'.2 d') /\
  (forall sm', In sm' sms -> new_at sm'.1 sm'.2 d -> new_at sm'.1 sm'.2 d').
Proof.
  intros Hst Hin d'.
  assert (Hn : new_at sm.1 sm.2 d').
  { unfold new_at, d'. rewrite files_synced, files_put_eq. by eexists. }
  assert (Hne : forall q, q <> hpath sm.1 -> files d' !! q = files d !! q).
  { intros q Hq. unfold d'. by rewrite files_synced, files_put_ne. }
  assert (Hp : forall sm', In sm' sms -> sm' = sm \/ hpath sm'.1 <> hpath sm.1).
  { intros sm' Hin'. destruct (decide (tid sm'.1 = tid sm.1)) as [E|Hd]; [left; by eapply pair_unique|right].
    intros E. by apply hpath_inj in E. }
  split; [done|]. split; [|split].
  - intros sm' Hin' (I1 & (f & I2) & I3). split; [done|]. split; [exists f; by rewrite Hne|].
    pose proof (rd_data _ _ _ Hready) as Hdata. rewrite List.Forall_forall in Hdata.
    specialize (Hdata _ (in_staged _ _ Hst Hin')). unfold kept_data in *.
    rewrite List.Forall_forall in Hdata, I3 |- *. intros p Hpp. rewrite Hne; [auto|]. apply data_not_head; auto.
  - intros sm' Hin' Hor. destruct (Hp sm' Hin') as [->|Hd]; [by right|].
    destruct Hor as [O|(f & N)]; [left; unfold old_at; by rewrite Hne|right; exists f; by rewrite Hne].
  - intros sm' Hin' (f & N). destruct (Hp sm' Hin') as [->|Hd]; [done|]. exists f. by rewrite Hne.
Qed.

Lemma wpc_roll (sms l : pairs) d :
  map fst sms = staged -> (exists l0, sms = l0 ++ l) -> Forall (fun sm => swappable sm d) sms ->
  wpc false (for_each Transaction.roll_forward (map (fun sm => Transaction.txn_entry sm.1 sm.2) l)) d
    (fun r d' => r = Ok tt /\ Forall (fun sm => swappable sm d') sms /\
       Forall (fun sm => new_at sm.1 sm.2 d') l /\
       (forall sm, In sm sms -> new_at sm.1 sm.2 d -> new_at sm.1 sm.2 d') /\
       (files d !! jp = None -> files d' !! jp = None)) (fun _ => True).
Proof.
  intros Hst. revert d. induction l as [|sm l IH]; intros d [l0 Hl] HF; [by apply wpc_ret|].
  assert (Hin : In sm sms) by (rewrite Hl; apply in_app_iff; right; by left).
  assert (Hs := in_staged _ _ Hst Hin).
  pose proof HF as HF'. rewrite List.Forall_forall in HF. destruct (HF sm Hin) as [I O].
  assert (Hnext : exists l1, sms = l1 ++ l) by (exists (l0 ++ [sm]); by rewrite Hl, <- app_assoc).
  cbn [map for_each]. apply wpc_bind. unfold Transaction.roll_forward, LocalHeadStore.read. apply wpc_bind.
  cbn [Transaction.txn_entry te_table_id te_new_head te_table_name]. fold (tid sm.1).
  apply wpc_read_head; [done| |done]. fold (new_head sm.1 sm.2).
  assert (Hskip : new_at sm.1 sm.2 d -> disk_head d (tid sm.1) = Ok (Some (mkHeadState (new_head sm.1 sm.2)
    (checksum_hex (OHead (new_head sm.1 sm.2)))))).
  { intros (f & E & Ho). apply disk_head_stored. exists f. split; [done|]. split; [done|].
    unfold new_head, Commit.head_of. cbn. lia. }
  destruct O as [O|N].
  - pose proof (rd_head _ _ _ Hready) as Hh. pose proof (rd_next _ _ _ Hready) as Hnx.
    rewrite List.Forall_forall in Hh, Hnx. destruct (Hh _ Hs) as [(f & Ef & Eo & Ev) _]. specialize (Hnx _ Hs).
    assert (Hd : disk_head d (tid sm.1) = Ok (Some (mkHeadState (hs_head (sc_head sm.1))
      (checksum_hex (OHead (hs_head (sc_head sm.1))))))).
    { apply disk_head_stored. exists f. split; [|done]. unfold old_at, hpath in O. by rewrite O. }
    rewrite Hd. cbn [hs_head]. rewrite (proj2 (Z.ltb_lt _ _)).
    2: { destruct I as (Hm & _). unfold new_head, Commit.head_of. cbn [hd_sequence].
         by rewrite (published_sequence _ _ _ Hm). }
    apply wpc_bind. eapply wpc_swap_plain; [exact Hd|]. intros tm. apply wpc_ret; [done|].
    destruct (swap_keeps sms sm (with_temps tm d) Hst Hin) as (K1 & K2 & K3 & K4). fold (hpath sm.1) in *.
    set (d' := synced _ _) in *.
    eapply wpc_mono; [|done|apply (IH d' Hnext)].
    + intros r d2 (-> & H1 & H2 & H3 & H4). split; [done|]. split; [done|]. split; [constructor; auto|].
      split; [intros sm' Hin' N; apply H3; [done|exact (K4 _ Hin' N)]|]. intros Ej. apply H4. unfold d'. by rewrite files_synced, files_put_ne.
    + rewrite List.Forall_forall. intros sm' Hin'. destruct (HF _ Hin') as [X Y]. split; [exact (K2 _ Hin' X)|exact (K3 _ Hin' Y)].
  - rewrite (Hskip N). cbn [hs_head]. rewrite Z.ltb_irrefl. apply wpc_ret; [done|].
    eapply wpc_mono; [|done|apply (IH d Hnext HF')].
    intros r d2 (-> & H1 & H2 & H3 & H4). split; [done|]. split; [done|]. split; [constructor; auto|]. auto.
Qed.

Lemma wpc_recover d :
  recoverable d ->
  wpc false Transaction.recover d (fun r d' =>
    (r = Ok tt /\ (all_old d' \/ all_new d')) \/
    (r = Err (Corruption jp "txn parse") /\ all_old d' /\ files d' = files d)) (fun _ => True).
Proof.
  intros [Hal [(E & Hc)|[(sms & Hst & (f & ts & E & Hj) & HF)|((bytes & t & E) & Ho)]]];
    unfold Transaction.recover; apply wpc_bind; (apply wpc_call; [done..| |done]).
  - rewrite listing_none.
    2: { intros p Hp. destruct (decide (p = jp)) as [->|]; auto. }
    apply wpc_ret; [done|]. left. split; [done|]. destruct Hc as [Hc|Hc]; [by left|by right].
  - rewrite (listing_one d f) by done. cbn [for_each]. apply wpc_bind. apply wpc_bind.
    apply wpc_get; [done| |done]. cbn [fst]. change (effect (List TXN_PREFIX) d).2 with d. rewrite E, Hj.
    apply wpc_bind. apply wpc_lift; [done|]. unfold Transaction.parse, journal_of, Transaction.journal.
    rewrite verify_seal. apply wpc_bind. cbn [tj_entries seal set_checksum sealed_TxnJournal setter].
    eapply wpc_mono; [|done|apply (wpc_roll sms sms d Hst); [by exists []|done]].
    intros r d2 (-> & H1 & H2 & _ & _). cbv beta iota. apply wpc_call; [done..| |done].
    apply wpc_ret; [done|]. left. split; [done|]. right. exists sms. split; [done|].
    assert (Hne : forall q, q <> jp -> files (effect (Delete jp) d2).2 !! q = files d2 !! q).
    { intros q Hq. change (effect (Delete jp) d2).2 with (match files d2 !! jp with Some _ => del_file jp d2 | None => d2 end).
      destruct (files d2 !! jp); [by apply files_del_ne|done]. }
    pose proof (rd_data _ _ _ Hready) as Hdata.
    rewrite List.Forall_forall in Hdata, H1, H2 |- *. intros sm Hin.
    destruct (H1 sm Hin) as [(I1 & (g & I2) & I3) _], (H2 sm Hin) as (h & N).
    specialize (Hdata _ (in_staged _ _ Hst Hin)). split; [|exists h; by rewrite Hne].
    split; [done|]. split; [exists g; by rewrite Hne|]. unfold kept_data in *.
    rewrite List.Forall_forall in Hdata, I3 |- *. intros p Hp. rewrite Hne; [auto|]. apply data_not_jp; auto.
  - rewrite (listing_one d (mkFile (ORaw bytes) t)) by done. cbn [for_each]. apply wpc_bind. apply wpc_bind.
    apply wpc_get; [done| |done]. cbn [fst]. change (effect (List TXN_PREFIX) d).2 with d. rewrite E.
    apply wpc_bind. apply wpc_lift; [done|]. split; [done|]. split; [done|]. right. done.
Qed.
End Run.

(** C3 A transaction interrupted at any moment and after any I/O errors: once the next open has
    recovered, every table is at its old HEAD, or every table is at its new one, whose
    manifest and segments are intact.  Recovery itself fails in one case, a journal torn
    before it was flushed, and then no table has moved. *)
Theorem transaction_all_or_nothing d txn_id staged d' :
  ready d txn_id staged ->
  crashes (Transaction.commit_staged_transaction_inner txn_id staged) d d' ->
  let '(r, d2) := run [] Transaction.recover d' in
  (r = Ok tt /\ (all_old d staged d2 \/ all_new d staged d2)) \/
  (r = Err (Corruption (txn_path txn_id) "txn parse") /\ all_old d staged d2).
Proof.
  intros Hr Hcr.
  destruct (wpc_crash _ _ _ _ _ (wpc_inner d txn_id staged Hr true) Hcr) as (di & Hinv & Hs).
  pose proof (crash_recoverable d txn_id staged Hr di d' Hinv Hs) as Hrec.
  pose proof (wpc_run false _ _ _ _ [] (wpc_recover d txn_id staged Hr d' Hrec) ltac:(done)) as HQ.
  destruct (run [] Transaction.recover d') as [r d2]. cbn in HQ.
  destruct HQ as [HQ|(H1 & H2 & _)]; auto.
Qed.

(** C39 A transaction that reports success has moved every table. *)
Theorem transaction_success fs d txn_id staged :
  ready d txn_id staged ->
  let '(r, d') := run fs (Transaction.commit_staged_transaction_inner txn_id staged) d in
  is_ok r = true -> all_new d staged d'.
Proof.
  intros Hr. pose proof (wpc_run true _ _ _ _ fs (wpc_inner d txn_id staged Hr true) ltac:(done)) as HQ.
  destruct (run fs _ d) as [r d']. cbn in HQ. destruct HQ as [_ HQ]. destruct r as [a|e]; [|done].
  intros _. destruct HQ as (sms & _ & Hst & HF & _). exists sms. split; [done|].
  eapply Forall_impl; [exact HF|]. intros sm ((I1 & I2 & I3 & I4) & _ & N). split; [|done].
  split; [done|]. split; [done|]. eapply Forall_impl; [exact I4|]. by intros p [? _].
Qed.
End TransactionProps.
