(* ===== verification/Retention.v ===== *)
(** * Retention floors, incremental reads and replays ([retention.rs], [incremental.rs])

    [set_retention] raises the floor below which versions are unreachable; [diff] names the
    segments a pure-append range introduced. *)
From S2P Require Export TransactionProps.

Inductive RetentionCut :=
| KeepLast (n : Z)
| BeforeSequence (s : Z)
| BeforeTimestamp (ts : Z).

Record VersionDiff := mkVersionDiff {
  vd_table : string;
  vd_from_sequence : Z;
  vd_to_sequence : Z;
  vd_added_segments : list SegmentMeta;
  vd_added_rows : Z;
  vd_added_bytes : Z;
}.

Module Retention.
Section Retention.
Context `{Env}.
Implicit Types db : Database.

Definition retention (name : string) : prog (option RetentionFloor) :=
  let! found := Catalog.load_entry name in
  match found with
  | None => throw (TableNotFound name)
  | Some entry => retention_floor (ce_table_id entry)
  end.

(** The walk down from the head: at most one step per version above the floor. *)
Fixpoint oldest_kept (fuel : nat) (t : Uuid) (ts floor kept : Z) : prog Z :=
  match fuel with
  | O => ret kept
  | S fuel' =>
      if floor <? kept then
        let! m := Database.manifest_at t (kept - 1) in
        if mf_committed_at_ns m <? ts then ret kept else oldest_kept fuel' t ts floor (kept - 1)
      else ret kept
  end.

Definition cut_target (t : Uuid) (head_seq : Z) (cut : RetentionCut) : prog Z :=
  match cut with
  | KeepLast n =>
      if n =? 0 then throw (InvalidInput "keep_last must retain at least 1 version")
      else ret (Z.max 0 (head_seq - (n - 1)))
  | BeforeSequence s => ret s
  | BeforeTimestamp ts =>
      let! current_floor := retention_min_seq t in
      oldest_kept (Z.to_nat (head_seq - current_floor)) t ts current_floor head_seq
  end.

Definition check_snapshot_pin (t : Uuid) (target : Z) (snap : Snapshot) : DbResult unit :=
  match bget t (sn_entries snap) with
  | Some se => if se_sequence se <? target then Err (InvalidInput "snapshot pins version below the floor")
               else Ok tt
  | None => Ok tt
  end.

Definition set_retention db (name : string) (cut : RetentionCut) (note : option string) :
    prog RetentionFloor :=
  if db_read_only db then throw (ReadOnly "set_retention")
  else
    do! Database.ensure_base db "set_retention" in
    do! Backend.meta_lock in
    let! resolved := Database.resolve db name Latest in
    let t := ce_table_id (rt_entry resolved) in
    let! target := cut_target t (rt_head_sequence resolved) cut in
    let target := Z.min target (rt_head_sequence resolved) in
    let! current := retention_min_seq t in
    if target <? current then throw (InvalidInput "retention floor never decreases")
    else
      let! snaps := Snapshot.list in
      do! lift (foldr_res (fun _ snap => check_snapshot_pin t target snap) tt snaps) in
      let! index := Database.fork_index db in
      match ForkIndex.first_pin_below index t target with
      | Some _ => throw (InvalidInput "fork pins version below the floor")
      | None =>
          let! now := call Now in
          let floor := seal (mkRetentionFloor t target (monotonic_commit_ts now None) note "") in
          let path := retention_path t in
          do! Backend.put path (ORetention floor) in
          do! Backend.sync_objects [path] in
          ret floor
      end.

(** ** Incremental reads *)
Definition is_append (op : OpKind) : bool :=
  match op with OpAppend | OpEvolveSchema => true | _ => false end.

(** The sequences [(from, to]]. *)
Definition range_after (from to : Z) : list Z := map (fun i => from + 1 + Z.of_nat i) (seq 0 (Z.to_nat (to - from))).

Definition added_in (from to : Z) (segments : list SegmentMeta) : list SegmentMeta :=
  List.filter (fun s => (from <? sg_created_by_sequence s) && (sg_created_by_sequence s <=? to)) segments.

Definition diff db (name : string) (from to : Z) : prog VersionDiff :=
  if to <? from then throw (InvalidInput "diff range is reversed")
  else
    let! resolved := Database.resolve db name (Version to) in
    do! for_each (fun seq =>
      let! m := Database.manifest_at (ce_table_id (rt_entry resolved)) seq in
      if is_append (mf_op m) then ret tt
      else throw (Unsupported "incremental diff requires a pure-append chain")) (range_after from to) in
    let added := added_in from to (mf_segments (rt_manifest resolved)) in
    ret (mkVersionDiff name from to added (sum_u64 (map sg_rows added)) (sum_u64 (map sg_bytes added))).
End Retention.
End Retention.

(** ** Vacuum and verify ([database.rs], [plan_protected_paths] of [plan.rs])

    Which objects are reachable, and the deletion of those that are not. *)

Record VacuumReport := mkVacuumReport {
  vr_scanned_objects : Z;
  vr_candidates : list Path;
  vr_candidate_bytes : Z;
  vr_deleted : Z;
  vr_dry_run : bool;
}.

Inductive Problem :=
| ManifestMissing (p : Path)
| ChainMismatch (p : Path)
| SegmentSize (p : Path)
| SegmentContent (p : Path)
| SegmentMissing (p : Path)
| FloorAbovePin
| RefinementViolated (version : Z).

Record VerifyReport := mkVerifyReport {
  vf_table : string;
  vf_head_sequence : Z;
  vf_manifests_checked : Z;
  vf_segments_checked : Z;
  vf_bytes_checked : Z;
  vf_problems : list Problem;
}.
#[export] Instance eta_VerifyReport : Eta VerifyReport := fun r =>
  mkVerifyReport (vf_table r) (vf_head_sequence r) (vf_manifests_checked r) (vf_segments_checked r)
    (vf_bytes_checked r) (vf_problems r).

Module Vacuum.
Section Vacuum.
Context `{Env}.
Implicit Types db : Database.

(** ** What is reachable *)
Definition segment_paths (m : VersionManifest) : list Path := map sg_path (mf_segments m).

Definition parse_plan (o : Obj) (path : Path) : DbResult MutationPlan :=
  match o with
  | OPlan plan => let? _ := verify path "plan checksum mismatch" plan in Ok plan
  | _ => Err (Corruption path "plan parse")
  end.

Definition plan_protected_paths (t : Uuid) : prog (list Path) :=
  let! metas := Backend.list (plan_prefix t) in
  fold_prog (fun acc meta =>
    let! o := Backend.get meta.1 in
    let! plan := lift (parse_plan o meta.1) in
    let! now := call Now in
    ret (if Commit.plan_is_expired plan now then acc else acc ++ map sg_path (pl_segments plan)))
    [] metas.

(** [floor..=head]. *)
Definition retained (floor head : Z) : list Z :=
  map (fun i => floor + Z.of_nat i) (seq 0 (Z.to_nat (head + 1 - floor))).

Definition manifest_paths (t : Uuid) (floor head : Z) : prog (list Path) :=
  fold_prog (fun acc seq =>
    let! m := Database.manifest_at t seq in ret (acc ++ segment_paths m)) [] (retained floor head).

Definition lease_is_expired (lease : StagingLeaseFile) (wall : Z) : bool :=
  sl_expires_at_ns lease <? monotonic_commit_ts wall None.

(** The paths live leases protect, and the expired leases. *)
Definition lease_paths (t : Uuid) : prog (list Path * list Path) :=
  let! metas := Backend.list (staging_prefix t) in
  fold_prog (fun acc meta =>
    let! o := Backend.get meta.1 in
    match o with
    | OLease lease =>
        let! now := call Now in
        ret (if lease_is_expired lease now then (acc.1, acc.2 ++ [meta.1])
             else (acc.1 ++ sl_segment_paths lease, acc.2))
    | _ => throw (Corruption meta.1 "staging lease parse")
    end) ([], []) metas.

(** [contains("/x/")] on a path of parts: a part [x] that is neither first nor last. *)
Fixpoint inner_part (x : string) (p : Path) : bool :=
  match p with
  | [] | [_] => false
  | _ :: ((y :: _ :: _) as p') => String.eqb x y || inner_part x p'
  | _ :: _ => false
  end.

(** [num_seconds] truncates toward zero. *)
Definition age_seconds (now modified : Z) : Z := Z.quot (now - modified) 1000000000.

Definition old_enough (now grace : Z) (f : File) : bool := grace <=? age_seconds now (fl_modified f).

(** Whether vacuum collects an object of the table; [HEAD.tmp] files are not kept by the
    model of the disk. *)
Definition is_debris (referenced expired_leases : list Path) (floor head : Z) (p : Path) : bool :=
  let is_orphan_segment := inner_part "segments" p && negb (bool_decide (p ∈ referenced)) in
  let is_uncommitted_manifest := inner_part "manifests" p &&
    match manifest_sequence_from_path p with Some s => head <? s | None => true end in
  let is_expired_manifest := inner_part "manifests" p &&
    match manifest_sequence_from_path p with Some s => s <? floor | None => false end in
  is_orphan_segment || is_uncommitted_manifest || is_expired_manifest || bool_decide (p ∈ expired_leases).

(** The objects of one table that are to go. *)
Definition table_debris (now grace : Z) (referenced expired_leases : list Path) (floor head : Z)
    (objects : list (Path * File)) : list (Path * File) :=
  List.filter (fun e => old_enough now grace e.2 && is_debris referenced expired_leases floor head e.1) objects.

Definition collect (report : VacuumReport) (scanned : Z) (doomed : list (Path * File)) (apply : bool) :
    VacuumReport :=
  mkVacuumReport (vr_scanned_objects report + scanned) (vr_candidates report ++ map fst doomed)
    (vr_candidate_bytes report + zsum (map (fun e => object_size (fl_obj e.2)) doomed))
    (vr_deleted report + (if apply then zlen doomed else 0)) (vr_dry_run report).

Definition delete_doomed (apply : bool) (doomed : list (Path * File)) : prog unit :=
  if apply then Backend.delete_many (map fst doomed) else ret tt.

Definition vacuum_table (now grace : Z) (apply : bool) (report : VacuumReport) (entry : CatalogEntry) :
    prog VacuumReport :=
  let t := ce_table_id entry in
  let! h := Database.head t in
  let head_seq := hd_sequence (hs_head h) in
  let! floor := retention_min_seq t in
  let! committed := manifest_paths t floor head_seq in
  let! planned := plan_protected_paths t in
  let! '(leased, expired) := lease_paths t in
  let! objects := Backend.list (table_prefix t) in
  let doomed := table_debris now grace (committed ++ planned ++ leased) expired floor head_seq objects in
  do! delete_doomed apply doomed in
  ret (collect report (zlen objects) doomed apply).

(** ** Orphaned table directories *)
Definition table_of (p : Path) : option Uuid :=
  match p !! 1%nat with
  | Some part => if is_uuid part then Some part else None
  | None => None
  end.

Definition by_table (metas : list (Path * File)) : BTree Uuid (list (Path * File)) :=
  fold_left (fun acc meta =>
    match table_of meta.1 with
    | Some id => bentry [] (fun l => l ++ [meta]) id acc
    | None => acc
    end) metas [].

Definition orphan_dirs (now grace : Z) (live : list Uuid) (metas : list (Path * File)) :
    list (Uuid * list (Path * File)) :=
  List.filter (fun e => negb (bool_decide (e.1 ∈ live)) && forallb (fun m => old_enough now grace m.2) e.2)
    (by_table metas).

Definition sweep_orphans db (now grace : Z) (apply : bool) (cataloged : list Uuid) (report : VacuumReport) :
    prog VacuumReport :=
  let! snaps := Snapshot.list in
  let pinned := concat (map (fun snap => bkeys (sn_entries snap)) snaps) in
  let! index := Database.fork_index db in
  let live := cataloged ++ pinned ++ elements (ForkIndex.pinned_table_ids index)
                ++ elements (ForkIndex.owned_table_ids index) in
  let! metas := Backend.list ["tables"] in
  fold_prog (fun report dir =>
    do! delete_doomed apply dir.2 in
    ret (collect report (zlen dir.2) dir.2 apply)) report (orphan_dirs now grace live metas).

Definition vacuum db (table : option string) (grace_seconds : Z) (apply : bool) : prog VacuumReport :=
  do! (if apply then Database.ensure_writable db "vacuum" else ret tt) in
  do! Database.ensure_base db "vacuum" in
  let! all_entries := Database.list_tables db in
  let! entries := (match table with
                   | Some name => let! e := Database.entry db name in ret [e]
                   | None => ret all_entries
                   end) in
  let! now := call Now in
  let! report := fold_prog (vacuum_table now grace_seconds apply) (mkVacuumReport 0 [] 0 0 (negb apply)) entries in
  match table with
  | Some _ => ret report
  | None => sweep_orphans db now grace_seconds apply (map ce_table_id all_entries) report
  end.

(** ** Verify *)
Definition problem (p : Problem) (r : VerifyReport) : VerifyReport := r <| vf_problems := vf_problems r ++ [p] |>.

Definition verify_segment (deep : bool) (report : VerifyReport) (seg : SegmentMeta) : prog VerifyReport :=
  let! size := Commit.object_length (sg_path seg) in
  match size with
  | None => ret (problem (SegmentMissing (sg_path seg)) report)
  | Some n =>
      let report := report <| vf_segments_checked := vf_segments_checked report + 1 |> in
      let report := if n =? sg_bytes seg then report else problem (SegmentSize (sg_path seg)) report in
      if deep then
        let! o := Backend.get (sg_path seg) in
        let report := report <| vf_bytes_checked := vf_bytes_checked report + object_size o |> in
        ret (if String.eqb (checksum_hex o) (sg_checksum seg) then report
             else problem (SegmentContent (sg_path seg)) report)
      else ret report
  end.

(** One version of the walk from HEAD down: the report and the checksum the next one must have. *)
Definition verify_version (t : Uuid) (head_seq : Z) (deep : bool) (shadow_base : option (Path * list Path))
    (acc : VerifyReport * option Digest) (seq : Z) : prog (VerifyReport * option Digest) :=
  let '(report, expected) := acc in
  let path := manifest_path t seq in
  let! bytes := Backend.get_opt path in
  match bytes with
  | None => ret (problem (ManifestMissing path) report, None)
  | Some o =>
      let report := report <| vf_manifests_checked := vf_manifests_checked report + 1 |> in
      let report := match expected with
                    | Some exp => if String.eqb (checksum_hex o) exp then report
                                  else problem (ChainMismatch path) report
                    | None => report
                    end in
      let! m := lift (VersionManifest.from_bytes o path) in
      let! report := (if deep || (seq =? head_seq) then fold_prog (verify_segment deep) report (mf_segments m)
                      else ret report) in
      let report := match shadow_base with
                    | Some (own_prefix, base_paths) =>
                        match Commit.check_refinement own_prefix base_paths (segment_paths m) with
                        | Ok _ => report
                        | Err _ => problem (RefinementViolated seq) report
                        end
                    | None => report
                    end in
      ret (report, mf_parent_checksum m)
  end.

Definition verify db (name : string) (deep : bool) : prog VerifyReport :=
  let! entry := Database.entry db name in
  let t := ce_table_id entry in
  let! h := Database.head t in
  let head_seq := hd_sequence (hs_head h) in
  let! floor := retention_min_seq t in
  let! own := Database.fork_entry db name in
  let report := mkVerifyReport name head_seq 0 0 0 [] in
  let! '(report, shadow_base) :=
    (match (fe ← own; fe_origin fe) with
     | None => ret (report, None)
     | Some origin =>
         let! base := Database.manifest_at (fo_base_table_id origin) (fo_base_sequence origin) in
         let! base_floor := retention_min_seq (fo_base_table_id origin) in
         ret (if fo_base_sequence origin <? base_floor then problem FloorAbovePin report else report,
              Some (table_prefix t, segment_paths base))
     end) in
  let! '(report, _e) := fold_prog (verify_version t head_seq deep shadow_base)
    (report, Some (hd_manifest_checksum (hs_head h))) (rev (retained floor head_seq)) in
  ret report.
End Vacuum.
End Vacuum.
