(* ===== verification/Forks.v ===== *)
(** * Forks: creation, listing, dropping, diff and promotion ([fork.rs])

    The operations of the second half of [fork.rs].  A fork is one object whose pins name
    a version of every table; dropping deletes what the fork owns and then the pin;
    promoting a shadow is a commit on the base table, promoting a created table moves its
    catalog entry. *)
From S2P Require Export Retention.

Inductive ForkTableKind := Created | Shadowed.
#[export] Instance ForkTableKind_eq_dec : EqDecision ForkTableKind.
Proof. solve_decision. Defined.

Record ForkTableDiff := mkForkTableDiff {
  ftd_table : string;
  ftd_kind : ForkTableKind;
  ftd_base_sequence : option Z;
  ftd_base_head_sequence : option Z;
  ftd_fork_versions : Z;
  ftd_rows_base : Z;
  ftd_rows_fork : Z;
  ftd_bytes_base : Z;
  ftd_bytes_fork : Z;
  ftd_segments_added : Z;
  ftd_segments_removed : Z;
  ftd_segments_shared : Z;
  ftd_schema_revision_base : option Z;
  ftd_schema_revision_fork : Z;
  ftd_base_moved : bool;
  ftd_base_moved_by_compaction_only : bool;
}.

Record ForkDiff := mkForkDiff {
  fd_fork : string;
  fd_created_at_ns : Z;
  fd_tables : list ForkTableDiff;
}.

Record PromoteResult := mkPromoteResult {
  pr_fork : string;
  pr_table : string;
  pr_kind : ForkTableKind;
  pr_base_sequence : Z;
  pr_rows : Z;
  pr_segments_linked : Z;
  pr_bytes_copied : Z;
  pr_rebased_from : option Z;
}.

Record ForkSummary := mkForkSummary {
  fs_name : string;
  fs_created_at_ns : Z;
  fs_note : option string;
  fs_as_of_ns : option Z;
  fs_parent : option string;
  fs_depth : Z;
  fs_tables_pinned : Z;
  fs_tables_created : Z;
  fs_tables_shadowed : Z;
  fs_commits_own : Z;
  fs_last_write_ns : option Z;
  fs_stale_shadows : Z;
  fs_bytes_own : Z;
  fs_bytes_pinned : Z;
}.

(** What [list_forks] adds up over the tables a fork owns. *)
Record OwnTotals := mkOwnTotals {
  ot_bytes : Z;
  ot_created : Z;
  ot_shadowed : Z;
  ot_commits : Z;
  ot_last_write_ns : option Z;
  ot_stale : Z;
}.

Module Forks.
Section Forks.
Context `{Env}.
Implicit Types db : Database.

(** [path.starts_with("<prefix>/")] on paths of parts. *)
Definition is_own_segment (prefix segment_path : Path) : bool := is_prefix prefix segment_path.

Definition spec_revision_conflict (existing incoming : TableSpec) : bool :=
  negb (bool_decide (ts_schema existing = ts_schema incoming)) ||
  negb (bool_decide (ts_time_column existing = ts_time_column incoming)) ||
  negb (bool_decide (ts_sort_key existing = ts_sort_key incoming)).

Definition pinned_base_name (fork : Fork) (base_table_id : Uuid) : DbResult string :=
  match Fork.pin fork base_table_id with
  | Some pin => Ok (fp_table_name pin)
  | None => Err (Corruption (fork_path (fk_name fork)) "shadow records base table the fork does not pin")
  end.

(** ** Creating *)
Definition manifest_checksum_at (table_id : Uuid) (sequence : Z) : prog Digest :=
  let path := manifest_path table_id sequence in
  let! bytes := Backend.get_opt path in
  match bytes with
  | None => throw (Corruption path "manifest missing")
  | Some o => ret (checksum_hex o)
  end.

Definition child_depth db : DbResult Z :=
  match db_fork db with
  | None => Ok 0
  | Some parent =>
      let depth := Fork.depth parent + 1 in
      if Fork.MAX_FORK_DEPTH <? depth then Err (InvalidInput "fork is already too deep") else Ok depth
  end.

(** The version of one table a new fork pins, if it has one. *)
Definition pin_version db (as_of_ns : option Z) (entry : CatalogEntry) : prog (option (Z * Digest)) :=
  match as_of_ns with
  | None =>
      let! h := Database.head (ce_table_id entry) in
      ret (Some (hd_sequence (hs_head h), hd_manifest_checksum (hs_head h)))
  | Some ts =>
      let! resolved := attempt (Database.resolve db (ce_name entry) (AsOf ts)) in
      match resolved with
      | Ok r =>
          let seq := mf_sequence (rt_manifest r) in
          let! checksum := manifest_checksum_at (ce_table_id entry) seq in
          ret (Some (seq, checksum))
      | Err (VersionNotFound _ _ _) => ret None
      | Err e => throw e
      end
  end.

Definition pin_tables db (as_of_ns : option Z) (tables : list CatalogEntry) : prog (BTree Uuid ForkPin) :=
  fold_prog (fun pins entry =>
    let! v := pin_version db as_of_ns entry in
    ret (match v with
         | Some (sequence, checksum) =>
             binsert (ce_table_id entry)
               (mkForkPin (ce_name entry) sequence checksum (Some (ce_spec_revision entry))
                  (Some (ce_created_at_ns entry))) pins
         | None => pins
         end)) [] tables.

Definition is_nil {A} (l : list A) : bool := match l with [] => true | _ => false end.

Definition create_forks db (names : list string) (note : option string) (as_of_ns : option Z)
    (user_meta : JsonMap) : prog (list Fork) :=
  do! Database.ensure_writable db "fork create" in
  let! depth := lift (child_depth db) in
  if is_nil names then throw (InvalidInput "fork create needs at least one name")
  else
    do! for_each (fun n => lift (validate_table_name n)) names in
    if Commit.duplicate_names names
    then throw (InvalidInput "fork create was given the same name twice")
    else
      do! Backend.meta_lock in
      do! for_each (fun n =>
        let! f := Fork.load_opt n in
        match f with Some _ => throw (ForkExists n) | None => ret tt end) names in
      let! base_tables := Database.list_tables db in
      let! pins := pin_tables db as_of_ns base_tables in
      if match as_of_ns with Some _ => true | None => false end && is_nil pins && negb (is_nil base_tables)
      then throw (InvalidInput "--as-of pins no version of any table")
      else
        let! _raised := Database.raise_min_reader_version FORK_MIN_READER_VERSION in
        let! now := call Now in
        let forks := map (fun name =>
          seal (mkFork name (monotonic_commit_ts now None) note as_of_ns (fk_name <$> db_fork db)
                  (if 0 <? depth then Some depth else None) pins user_meta "")) names in
        do! Fork.create_many forks in
        ret forks.

Definition create_fork db (name : string) (note : option string) (as_of_ns : option Z)
    (user_meta : JsonMap) : prog Fork :=
  let! created := create_forks db [name] note as_of_ns user_meta in
  match last created with
  | Some f => ret f
  | None => throw (Internal "one name in, one fork out")
  end.

Definition fork_many db (prefix : string) (count : nat) (note : option string) (as_of_ns : option Z)
    (user_meta : JsonMap) : prog (list Fork) :=
  if (count =? 0)%nat then throw (InvalidInput "fork_many needs a count of at least 1")
  else create_forks db (map (fun i => prefix +:+ "-" +:+ pad 4 (Z.of_nat i)) (seq 0 count))
         note as_of_ns user_meta.

(** ** Listing *)
Definition fork_info (name : string) : prog Fork := Fork.load name.

Definition fork_names db : prog (list string) :=
  let! index := Database.fork_index db in ret (bkeys (xi_forks index)).

Definition own_bytes (table_id : Uuid) (m : VersionManifest) : Z :=
  sum_u64 (map sg_bytes (List.filter (fun s => is_own_segment (table_prefix table_id) (sg_path s)) (mf_segments m))).

Definition add_own (acc : OwnTotals) (fe : ForkTableEntry) : prog OwnTotals :=
  let shadow := ForkTableEntry.is_shadow fe in
  let! h := Database.head (fe_table_id fe) in
  let head := hd_sequence (hs_head h) in
  let! manifest := Database.manifest_at (fe_table_id fe) head in
  let! stale := (match fe_origin fe with
    | None => ret false
    | Some origin =>
        let! bh := Database.head (fo_base_table_id origin) in
        ret (fo_base_sequence origin <? hd_sequence (hs_head bh))
    end) in
  ret (mkOwnTotals
    ((ot_bytes acc + own_bytes (fe_table_id fe) manifest) mod 2 ^ 64)
    (if shadow then ot_created acc else ot_created acc + 1)
    (if shadow then ot_shadowed acc + 1 else ot_shadowed acc)
    ((ot_commits acc + head) mod 2 ^ 64)
    (Some (match ot_last_write_ns acc with
           | None => mf_committed_at_ns manifest
           | Some t => Z.max t (mf_committed_at_ns manifest)
           end))
    (if stale : bool then ot_stale acc + 1 else ot_stale acc)).

Definition bytes_pinned (fork : Fork) : prog Z :=
  fold_prog (fun acc e =>
    let! m := attempt (Database.manifest_at e.1 (fp_sequence e.2)) in
    ret (match m with Ok m => (acc + mf_bytes m) mod 2 ^ 64 | Err _ => acc end)) 0 (fk_pins fork).

Definition summarise (fork : Fork) : prog ForkSummary :=
  let! entries := ForkTableEntry.list_entries (fk_name fork) in
  let! own := fold_prog add_own (mkOwnTotals 0 0 0 0 None 0) entries in
  let! pinned := bytes_pinned fork in
  ret (mkForkSummary (fk_name fork) (fk_created_at_ns fork) (fk_note fork) (fk_as_of_ns fork)
    (fk_parent fork) (Fork.depth fork) (zlen (fk_pins fork)) (ot_created own) (ot_shadowed own)
    (ot_commits own) (ot_last_write_ns own) (ot_stale own) (ot_bytes own) pinned).

Definition list_forks : prog (list ForkSummary) :=
  let! forks := Fork.list in map_prog summarise forks.

(** ** Dropping *)
Definition depending_on (index : ForkIndex) (name : string) : list string :=
  match bget name (xi_forks index) with
  | None => []
  | Some me =>
      let owned := map it_table_id (bvalues (xf_owned me)) in
      map fst (List.filter (fun e =>
        negb (String.eqb e.1 name) && existsb (fun id => bool_decide (id ∈ owned)) (bkeys (xf_pins e.2)))
        (xi_forks index))
  end.

Definition forks_depending_on db (name : string) : prog (list string) :=
  let! index := Database.fork_index db in ret (depending_on index name).

Definition drop_owned (fork_name : string) (fe : ForkTableEntry) : prog unit :=
  do! ForkTableEntry.remove_entry fork_name (fe_name fe) in
  Commit.delete_table_objects (fe_table_id fe).

Definition drop_fork_locked db (name : string) : prog Z :=
  let! fork := Fork.load name in
  let! dependents := forks_depending_on db name in
  if negb (is_nil dependents) then throw (InvalidInput "fork has forks nested below it")
  else
    let! entries := ForkTableEntry.list_entries (fk_name fork) in
    do! for_each (drop_owned (fk_name fork)) entries in
    do! Fork.delete name in
    ret (zlen entries).

Definition drop_prologue db : prog unit :=
  do! Database.ensure_writable db "fork drop" in
  do! Database.ensure_base db "fork drop" in
  Backend.meta_lock.

Definition drop_fork db (name : string) : prog Z :=
  do! drop_prologue db in drop_fork_locked db name.

Definition drop_all db (names : list string) : prog Z :=
  fold_prog (fun dropped name => let! n := drop_fork_locked db name in ret (dropped + n)) 0 names.

Definition drop_forks db (names : list string) : prog Z :=
  do! drop_prologue db in drop_all db names.

(** The subtree below a fork, collected with an explicit stack; a name is expanded once, so
    [fuel] is enough at one step per name and per edge between forks. *)
Fixpoint collect_subtree db (fuel : nat) (order stack : list string) : prog (list string) :=
  match fuel with
  | O => ret order
  | S fuel' =>
      match stack with
      | [] => ret order
      | current :: stack' =>
          if bool_decide (current ∈ order) then collect_subtree db fuel' order stack'
          else
            let! deps := forks_depending_on db current in
            collect_subtree db fuel' (order ++ [current]) (rev deps ++ stack')
      end
  end.

Definition drop_fork_tree db (fuel : nat) (name : string) : prog Z :=
  do! drop_prologue db in
  let! order := collect_subtree db fuel [] [name] in
  drop_all db (rev order).

(** ** Diff *)
Fixpoint all_compaction (table_id : Uuid) (floor : Z) (seqs : list Z) : prog bool :=
  match seqs with
  | [] => ret true
  | seq :: rest =>
      if seq <? floor then ret false
      else
        let! m := Database.manifest_at table_id seq in
        if bool_decide (mf_op m = OpCompact) then all_compaction table_id floor rest else ret false
  end.

Definition intervening_commits_are_compaction (table_id : Uuid) (from to : Z) : prog bool :=
  if to <=? from then ret false
  else
    let! floor := retention_min_seq table_id in
    all_compaction table_id floor (Retention.range_after from to).

Definition path_set (m : VersionManifest) : gset Path := list_to_set (Vacuum.segment_paths m).

Definition own_count (table_id : Uuid) (m : VersionManifest) : Z :=
  zlen (List.filter (fun s => is_own_segment (table_prefix table_id) (sg_path s)) (mf_segments m)).

Definition diff_one (fork : Fork) (fe : ForkTableEntry) : prog ForkTableDiff :=
  let! h := Database.head (fe_table_id fe) in
  let fork_head := hd_sequence (hs_head h) in
  let! fork_manifest := Database.manifest_at (fe_table_id fe) fork_head in
  match fe_origin fe with
  | None =>
      ret (mkForkTableDiff (fe_name fe) Created None None fork_head 0 (mf_rows fork_manifest) 0
             (mf_bytes fork_manifest) (zlen (mf_segments fork_manifest)) 0 0 None
             (mf_schema_revision fork_manifest) false false)
  | Some origin =>
      let! base_manifest := Database.manifest_at (fo_base_table_id origin) (fo_base_sequence origin) in
      let base_paths := path_set base_manifest in
      let fork_paths := path_set fork_manifest in
      let! _base_name := lift (pinned_base_name fork (fo_base_table_id origin)) in
      let! bh := Database.head (fo_base_table_id origin) in
      let base_head := hd_sequence (hs_head bh) in
      let base_moved := negb (base_head =? fo_base_sequence origin) in
      let! compaction_only :=
        (if base_moved : bool
         then intervening_commits_are_compaction (fo_base_table_id origin) (fo_base_sequence origin) base_head
         else ret false) in
      ret (mkForkTableDiff (fe_name fe) Shadowed (Some (fo_base_sequence origin)) (Some base_head) fork_head
             (mf_rows base_manifest) (mf_rows fork_manifest) (mf_bytes base_manifest) (mf_bytes fork_manifest)
             (own_count (fe_table_id fe) fork_manifest)
             (Z.of_nat (size (base_paths ∖ fork_paths))) (Z.of_nat (size (fork_paths ∩ base_paths)))
             (Some (mf_schema_revision base_manifest)) (mf_schema_revision fork_manifest)
             base_moved compaction_only)
  end.

Definition fork_diff db (name : string) (table : option string) : prog ForkDiff :=
  do! Database.ensure_base db "fork diff" in
  let! fork := Fork.load name in
  let! entries := (match table with
    | None => ForkTableEntry.list_entries (fk_name fork)
    | Some t => let! e := ForkTableEntry.load_entry (fk_name fork) t in
                ret (match e with Some fe => [fe] | None => [] end)
    end) in
  let! tables := map_prog (diff_one fork) entries in
  ret (mkForkDiff (fk_name fork) (fk_created_at_ns fork) tables).
End Forks.
End Forks.

(** ** Promotion ([promote], [copy_spec_revisions], [promote_created] of [fork.rs])

    A shadow is promoted by a compare-and-swap commit on its base table; the fork's own
    segments are linked into the base table's directory first, and its schema revisions are
    copied. *)

Module Promote.
Section Promote.
Context `{Env}.
Implicit Types db : Database.

(** A hard link shares the bytes of the source; when linking fails for another reason than
    the target being there, the bytes are copied.  Answers the bytes copied. *)
Definition link_or_copy_segment (from to : Path) : prog Z :=
  let! o := Backend.get from in
  let! linked := attempt (Backend.put_if_absent to o) in
  match linked with
  | Ok _ => ret 0
  | Err _ => do! Backend.put to o in ret (object_size o)
  end.

(** Whether the pinned segments are all still referenced. *)
Definition keeps_every_inherited_row (pinned fork_manifest : VersionManifest) : bool :=
  forallb (fun s => bool_decide (sg_path s ∈ Vacuum.segment_paths fork_manifest)) (mf_segments pinned).

(** A base that moved is accepted only across compactions; the answer is the version the
    fork was cut from when the promotion is replayed on a newer one. *)
Definition check_base (fork : Fork) (table : string) (origin : ForkOrigin) (base_head : Z)
    (pinned fork_manifest : VersionManifest) : prog (option Z) :=
  if base_head =? fo_base_sequence origin then ret None
  else
    let! compaction_only :=
      Forks.intervening_commits_are_compaction (fo_base_table_id origin) (fo_base_sequence origin) base_head in
    if compaction_only && keeps_every_inherited_row pinned fork_manifest
    then ret (Some (fo_base_sequence origin))
    else throw (PromoteConflict (fk_name fork) table (fo_base_sequence origin) base_head
                  (if compaction_only then " (every intervening commit was a compaction)" else "")).

(** One segment of the fork in the new base manifest; the fork's own ones move. *)
Definition move_segment (fork_table base_table : Uuid) (new_sequence : Z) (rebased : bool)
    (acc : list SegmentMeta * Z * Z) (seg : SegmentMeta) : prog (list SegmentMeta * Z * Z) :=
  let '(segments, linked, bytes_copied) := acc in
  if negb (Forks.is_own_segment (table_prefix fork_table) (sg_path seg)) then
    ret (if rebased then acc else (segments ++ [seg], linked, bytes_copied))
  else
    let to := segment_path base_table (sg_id seg) in
    let! copied := link_or_copy_segment (sg_path seg) to in
    ret (segments ++ [seg <| sg_path := to |> <| sg_created_by_sequence := new_sequence |>],
         linked + 1, bytes_copied + copied).

Definition copy_spec_revision (from_table to_table : Uuid) (to_name : string) (paths : list Path)
    (meta : Path * File) : prog (list Path) :=
  match spec_revision_from_path meta.1 with
  | None => ret paths
  | Some revision =>
      let to := spec_path to_table revision in
      let! spec := Database.spec from_table revision in
      let! present := Backend.get_opt to in
      match present with
      | Some _ =>
          let! existing := Database.spec to_table revision in
          if Forks.spec_revision_conflict existing spec
          then throw (Corruption to "table already has a different schema at this revision")
          else ret paths
      | None =>
          let spec := seal (spec <| ts_table_id := to_table |> <| ts_name := to_name |>) in
          do! Backend.put to (OSpec spec) in
          ret (paths ++ [to])
      end
  end.

Definition copy_spec_revisions (from_table to_table : Uuid) (to_name : string) : prog unit :=
  let! metas := Backend.list (spec_prefix from_table) in
  let! paths := fold_prog (copy_spec_revision from_table to_table to_name) [] metas in
  Backend.sync_objects paths.

Definition promote_created (fork : Fork) (fe : ForkTableEntry) (manifest : VersionManifest) :
    prog PromoteResult :=
  let! taken := (match fk_parent fork with
    | None => let! e := Catalog.load_entry (fe_name fe) in
              ret (match e with Some _ => true | None => false end)
    | Some parent => let! e := ForkTableEntry.load_entry parent (fe_name fe) in
                     ret (match e with Some _ => true | None => false end)
    end) in
  if taken then throw (TableExists (fe_name fe))
  else
    do! (match fk_parent fork with
         | None => Catalog.create_entry (ForkTableEntry.to_catalog_entry fe)
         | Some parent =>
             ForkTableEntry.create_entry parent
               (seal (mkForkTableEntry (fe_name fe) (fe_table_id fe) (fe_created_at_ns fe)
                        (fe_spec_revision fe) None ""))
         end) in
    do! ForkTableEntry.remove_entry (fk_name fork) (fe_name fe) in
    ret (mkPromoteResult (fk_name fork) (fe_name fe) Created (mf_sequence manifest) (mf_rows manifest) 0 0 None).

(** The provenance the promoted manifest carries. *)
Definition promoted_from (fork : Fork) (fe : ForkTableEntry) (fork_sequence base_sequence : Z)
    (rebased_onto : option Z) : Json :=
  JOther (fk_name fork +:+ " " +:+ fe_table_id fe +:+ " " +:+ show_int fork_sequence +:+ " "
    +:+ show_int base_sequence
    +:+ match rebased_onto with Some n => " " +:+ show_int n | None => "" end).

Definition promotion_note (fork : Fork) (fork_sequence base_head : Z) (rebased_from : option Z) : string :=
  "promoted from fork " +:+ fk_name fork +:+ " (fork version " +:+ show_int fork_sequence +:+ ")"
  +:+ match rebased_from with
      | None => ""
      | Some from => ", rebased from base version " +:+ show_int from +:+ " onto " +:+ show_int base_head
                       +:+ " across compaction"
      end.

(** The manifest a promotion commits on the base table. *)
Definition promoted_manifest (fork : Fork) (fe : ForkTableEntry) (origin : ForkOrigin)
    (fork_sequence base_head : Z) (rebased_from : option Z) (fork_manifest : VersionManifest)
    (segments : list SegmentMeta) : VersionManifest :=
  VersionManifest.recompute_rollups
    (fork_manifest
       <| mf_table_id := fo_base_table_id origin |> <| mf_sequence := base_head + 1 |>
       <| mf_op := OpPromote |> <| mf_execution_mode := Some "direct" |> <| mf_plan_hash := None |>
       <| mf_segments := segments |>
       <| mf_note := Some (promotion_note fork fork_sequence base_head rebased_from) |>
       <| mf_user_meta := binsert Fork.FORKED_FROM_META_KEY
            (promoted_from fork fe fork_sequence (fo_base_sequence origin)
               ((fun _ => base_head) <$> rebased_from)) (mf_user_meta fork_manifest) |>).

Definition promote_shadow db (fork : Fork) (fe : ForkTableEntry) (table : string) (origin : ForkOrigin)
    (fork_sequence : Z) (fork_manifest : VersionManifest) : prog PromoteResult :=
  let base_table := fo_base_table_id origin in
  let! base_name := lift (Forks.pinned_base_name fork base_table) in
  let! base_head_state := Database.head base_table in
  let base_head := hd_sequence (hs_head base_head_state) in
  let! pinned_manifest := Database.manifest_at base_table (fo_base_sequence origin) in
  let! rebased_from := check_base fork table origin base_head pinned_manifest fork_manifest in
  do! lift (Commit.check_refinement (table_prefix (fe_table_id fe)) (Vacuum.segment_paths pinned_manifest)
              (Vacuum.segment_paths fork_manifest)) in
  let! inherit_from := (match rebased_from with
    | Some _ => Database.manifest_at base_table base_head
    | None => ret pinned_manifest
    end) in
  let start := match rebased_from with Some _ => mf_segments inherit_from | None => [] end in
  let! '(segments, linked, bytes_copied) :=
    fold_prog (move_segment (fe_table_id fe) base_table (base_head + 1)
                 (match rebased_from with Some _ => true | None => false end))
      (start, 0, 0) (mf_segments fork_manifest) in
  do! copy_spec_revisions (fe_table_id fe) base_table base_name in
  let manifest :=
    promoted_manifest fork fe origin fork_sequence base_head rebased_from fork_manifest segments in
  let! result := Commit.commit_manifest_locked db base_name base_table (Some base_head_state) manifest linked
                   (mkCommitInputs None None) in
  ret (mkPromoteResult (fk_name fork) table Shadowed (cr_sequence result) (cr_rows_total result)
         linked bytes_copied rebased_from).

Definition promote db (fork_name table : string) : prog PromoteResult :=
  do! Database.ensure_writable db "fork promote" in
  do! Database.ensure_base db "fork promote" in
  do! Backend.meta_lock in
  let! fork := Fork.load fork_name in
  let! own := ForkTableEntry.load_entry (fk_name fork) table in
  match own with
  | None => throw (InvalidInput "fork does not own table")
  | Some fe =>
      let! h := Database.head (fe_table_id fe) in
      let fork_sequence := hd_sequence (hs_head h) in
      let! fork_manifest := Database.manifest_at (fe_table_id fe) fork_sequence in
      match fe_origin fe with
      | None => promote_created fork fe fork_manifest
      | Some origin => promote_shadow db fork fe table origin fork_sequence fork_manifest
      end
  end.
End Promote.
End Promote.
