(* ===== verification/Reads.v ===== *)
(** * What reading programs return

    [finds m p R]: over the files [m], whichever calls fail, [p] writes nothing and a value
    it returns satisfies [R].  The rules follow the program; [finds_wpc] uses such a
    fact inside a writer's [wpc]. *)
From S2P Require Export Forks.

Section Finds.
Context `{Env}.
Implicit Types (m : gmap Path File) (d : Disk).

Fixpoint finds {A} m (p : prog A) (R : A -> Prop) : Prop :=
  match p with
  | Ret (Ok a) => R a
  | Ret (Err _) => True
  | Do c k =>
      reads c = true /\
      (forall d, files d = m -> finds m (k (Ok (effect c d).1)) R) /\
      finds m (k (Err (call_error c))) R
  end.

Lemma finds_wpc {A} ft (p : prog A) d (R : A -> Prop) (Q : DbResult A -> Disk -> Prop) (C : Disk -> Prop) :
  finds (files d) p R -> (forall d', same_files d d' -> C d') ->
  (forall e d', same_files d d' -> Q (Err e) d') ->
  (forall a d', same_files d d' -> R a -> Q (Ok a) d') -> wpc ft p d Q C.
Proof.
  intros Hp HC HE HO.
  assert (Hgen : forall d1, same_files d d1 -> wpc ft p d1 Q C); [|by apply Hgen].
  clear -Hp HC HE HO. induction p as [[a|e]|T c k IH]; intros d1 Hd; cbn; [split; auto..|].
  destruct Hp as (Hc & Hk & Hf). pose proof (reads_same c d1 Hc) as Hs.
  assert (same_files d (effect c d1).2) by by etransitivity.
  repeat split; auto. apply IH; [|done]. apply Hk. apply Hd.
Qed.

Lemma finds_run {A} fs (p : prog A) d (R : A -> Prop) :
  finds (files d) p R -> match (run fs p d).1 with Ok a => R a | Err _ => True end.
Proof.
  intros Hp. refine (wpc_run true _ d (fun r _ => match r with Ok a => R a | Err _ => True end) (fun _ => True) fs _ _);
    [|done]. by eapply finds_wpc.
Qed.

(** The reading prefix of a writer, relative to the disk it started on. *)
Lemma finds_step {A B} ft d (p : prog A) (f : A -> prog B) (R : A -> Prop) d1
    (Q : DbResult B -> Disk -> Prop) (C : Disk -> Prop) :
  finds (files d) p R -> same_files d d1 -> (forall d', same_files d d' -> C d') ->
  (forall e d', same_files d d' -> Q (Err e) d') ->
  (forall a d', same_files d d' -> R a -> wpc ft (f a) d' Q C) -> wpc ft (bind p f) d1 Q C.
Proof.
  intros Hp Hd HC HE HO. apply wpc_bind. eapply finds_wpc; [by rewrite (proj1 Hd)|..]; cbv beta.
  - intros d' ?. apply HC. by etransitivity.
  - intros e d' ?. split; [apply HC|apply HE]; by etransitivity.
  - intros a d' ? HR. apply HO; [by etransitivity|done].
Qed.

(** A loop over a listing keeps an invariant its body keeps. *)
Lemma wpc_fold {A S} ft (body : S -> A -> prog S) l s (I : Disk -> Prop) d :
  (forall s a d, In a l -> I d -> wpc ft (body s a) d (fun _ => I) I) -> I d ->
  wpc ft (fold_prog body s l) d (fun _ => I) I.
Proof.
  revert s d. induction l as [|a l IH]; intros s d Hb HI; cbn; [by split|].
  apply wpc_bind. eapply wpc_mono with (C := I); [|done|apply Hb; [by left|done]].
  intros [s'|e] d' HI'; [|done]. apply IH; [|done]. intros s1 b d1 Hin. apply Hb. by right.
Qed.

(** Rules. *)
Lemma finds_ret {A} m (a : A) (R : A -> Prop) : R a -> finds m (ret a) R.
Proof. done. Qed.
Lemma finds_throw {A} m e (R : A -> Prop) : finds m (throw e) R.
Proof. done. Qed.
Lemma finds_lift {A} m (r : DbResult A) (R : A -> Prop) : (forall a, r = Ok a -> R a) -> finds m (lift r) R.
Proof. destruct r; cbn; auto. Qed.

Lemma finds_mono {A} m (p : prog A) (R S : A -> Prop) :
  (forall a, R a -> S a) -> finds m p R -> finds m p S.
Proof.
  intros HRS. induction p as [[a|e]|T c k IH]; cbn; [auto..|]. intros (? & ? & ?). auto.
Qed.

Lemma finds_then {A B} m (p : prog A) (f : DbResult A -> prog B) (R : A -> Prop) (S : B -> Prop) :
  finds m p R -> (forall a, R a -> finds m (f (Ok a)) S) -> (forall e, finds m (f (Err e)) S) ->
  finds m (then_ p f) S.
Proof.
  intros Hp Hf He. induction p as [[a|e]|T c k IH]; cbn in *; [auto..|].
  destruct Hp as (? & ? & ?). auto.
Qed.

Lemma finds_bind {A B} m (p : prog A) (f : A -> prog B) (R : A -> Prop) (S : B -> Prop) :
  finds m p R -> (forall a, R a -> finds m (f a) S) -> finds m (bind p f) S.
Proof. intros Hp Hf. by eapply finds_then. Qed.

Lemma finds_attempt {A} m (p : prog A) (R : A -> Prop) (S : DbResult A -> Prop) :
  finds m p R -> (forall a, R a -> S (Ok a)) -> (forall e, S (Err e)) -> finds m (attempt p) S.
Proof. intros Hp Ho He. eapply finds_then; eauto. Qed.

Lemma finds_read_only {A} m (p : prog A) : read_only p -> finds m p (fun _ => True).
Proof. induction p as [[a|e]|T c k IH]; cbn; [done..|]. intros [? ?]. auto. Qed.

Lemma read_only_finds {A} m (p : prog A) (R : A -> Prop) : (forall a, R a) -> read_only p -> finds m p R.
Proof. intros HR Hp. eapply finds_mono; [|by apply finds_read_only]. auto. Qed.

Lemma finds_call {T} m (c : Call T) (R : T -> Prop) :
  reads c = true -> (forall d, files d = m -> R (effect c d).1) -> finds m (call c) R.
Proof. intros. by split. Qed.

Lemma finds_get_opt m p (R : option Obj -> Prop) : R (fl_obj <$> m !! p) -> finds m (Backend.get_opt p) R.
Proof.
  intros HR. eapply finds_bind; [apply (finds_call _ _ (fun f => f = m !! p)); [done|]|].
  - by intros d <-.
  - by intros a ->.
Qed.

Lemma finds_get m p (R : Obj -> Prop) :
  (forall f, m !! p = Some f -> R (fl_obj f)) -> finds m (Backend.get p) R.
Proof.
  intros HR. eapply finds_bind; [apply (finds_call _ _ (fun f => f = m !! p)); [done|]|].
  - by intros d <-.
  - intros [f|] E; [|done]. by apply HR.
Qed.

Lemma is_prefix_app pre p : is_prefix pre p = true <-> exists rest, p = pre ++ rest.
Proof.
  revert p. induction pre as [|a pre IH]; intros p; [split; [by exists p|done]|].
  destruct p as [|b p]; [split; [done|by intros [? ?]]|]. cbn [is_prefix app].
  rewrite andb_true_iff, IH. split.
  - intros [->%String.eqb_eq [rest ->]]. by exists rest.
  - intros [rest [= -> ->]]. split; [apply String.eqb_refl|by exists rest].
Qed.

(** The objects of a listing. *)
Definition listed m (prefix : Path) : list (Path * File) :=
  List.filter (fun e => is_prefix prefix e.1 && negb (bool_decide (e.1 = prefix))) (map_to_list m).

Lemma in_listed m prefix p f :
  In (p, f) (listed m prefix) <-> m !! p = Some f /\ is_prefix prefix p = true /\ p <> prefix.
Proof.
  unfold listed. rewrite filter_In, andb_true_iff, negb_true_iff, bool_decide_eq_false. cbn.
  rewrite <- list_elem_of_In, elem_of_map_to_list. done.
Qed.

Lemma listed_shape m prefix p f : In (p, f) (listed m prefix) -> exists y rest, p = prefix ++ y :: rest.
Proof.
  intros (_ & Hp & Hne)%in_listed. apply is_prefix_app in Hp as [[|y rest] ->]; [by rewrite app_nil_r in Hne|eauto].
Qed.

Lemma finds_list m prefix (R : list (Path * File) -> Prop) :
  R (listed m prefix) -> finds m (Backend.list prefix) R.
Proof. intros HR. apply finds_call; [done|]. by intros d <-. Qed.

Lemma finds_fold {A S} m (body : S -> A -> prog S) (I : S -> list A -> Prop) l s :
  (forall s a l', I s (a :: l') -> finds m (body s a) (fun s' => I s' l')) -> I s l ->
  finds m (fold_prog body s l) (fun s' => I s' []).
Proof.
  intros Hb. revert s. induction l as [|a l IH]; intros s HI; cbn; [done|].
  eapply finds_bind; [by apply Hb|]. cbn. auto.
Qed.

Lemma finds_map {A B} m (body : A -> prog B) (R : A -> B -> Prop) l :
  (forall a, In a l -> finds m (body a) (R a)) -> finds m (map_prog body l) (Forall2 R l).
Proof.
  induction l as [|a l IH]; intros Hb; cbn; [constructor|].
  eapply finds_bind; [apply Hb; by left|]. intros b Hab. eapply finds_bind; [apply IH|].
  - intros x Hx. apply Hb. by right.
  - intros bs Hbs. by constructor.
Qed.

Lemma finds_each {A} m (body : A -> prog unit) (R : A -> Prop) l :
  (forall a, In a l -> finds m (body a) (fun _ => R a)) -> finds m (for_each body l) (fun _ => Forall R l).
Proof.
  induction l as [|a l IH]; intros Hb; cbn; [constructor|].
  eapply finds_bind; [apply Hb; by left|]. intros u Ha. eapply finds_mono; [|apply IH].
  - intros v Hv. by constructor.
  - intros x Hx. apply Hb. by right.
Qed.

(** What [lift] of a check leaves. *)
Lemma foldr_res_each {A} (f : A -> DbResult unit) l u :
  foldr_res (fun _ a => f a) tt l = Ok u -> Forall (fun a => f a = Ok tt) l.
Proof.
  induction l as [|a l IH]; cbn; [constructor|]. destruct (f a) as [[]|e] eqn:E; [|done]. auto.
Qed.

Lemma Forall2_in_l {A B} (R : A -> B -> Prop) l k a :
  Forall2 R l k -> In a l -> exists b, In b k /\ R a b.
Proof.
  induction 1 as [|x y l k Hxy Hl IH]; [done|]. intros [->|Hin]; [exists y; split; [by left|done]|].
  destruct (IH Hin) as (b & ? & ?). exists b. split; [by right|done].
Qed.
Lemma Forall2_in_r {A B} (R : A -> B -> Prop) l k b :
  Forall2 R l k -> In b k -> exists a, In a l /\ R a b.
Proof.
  induction 1 as [|x y l k Hxy Hl IH]; [done|]. intros [->|Hin]; [exists x; split; [by left|done]|].
  destruct (IH Hin) as (a & ? & ?). exists a. split; [by right|done].
Qed.

Lemma in_sort_by_key {T K} `{OrdKey K} (key : T -> K) (l : list T) x : In x (sort_by_key key l) <-> In x l.
Proof.
  unfold sort_by_key. rewrite <- !list_elem_of_In. by rewrite (proj1 (hof_list_spec key l)).
Qed.

(** Every listing of parsed objects holds exactly what is on disk. *)
Definition all_of {A} m prefix (mk : A -> Obj) (out : list A) : Prop :=
  forall a, In a out <-> exists p f, In (p, f) (listed m prefix) /\ fl_obj f = mk a.

Lemma finds_objects {A} m prefix (mk : A -> Obj) (parse : Obj -> Path -> DbResult A) :
  Inj (=) (=) mk -> (forall o p a, parse o p = Ok a -> o = mk a) ->
  finds m (map_prog (fun meta => let! o := Backend.get meta.1 in lift (parse o meta.1)) (listed m prefix))
    (all_of m prefix mk).
Proof.
  intros Hinj Hparse.
  eapply finds_mono; [|apply (finds_map _ _ (fun meta a => exists f, m !! meta.1 = Some f /\ fl_obj f = mk a))].
  - intros out Hout a. split.
    + intros Hin. destruct (Forall2_in_r _ _ _ _ Hout Hin) as ([p g] & Hl & f & Hf & Ho). exists p, f.
      split; [|done]. apply in_listed in Hl as (Hg & ? & ?). cbn in Hf. by apply in_listed.
    + intros (p & f & Hl & Ho). destruct (Forall2_in_l _ _ _ _ Hout Hl) as (b & Hb & f' & Hf' & Ho').
      apply in_listed in Hl as (Hf & _). cbn in Hf'. rewrite Hf in Hf'. injection Hf' as <-.
      rewrite Ho in Ho'. by apply (inj mk) in Ho' as ->.
  - intros [p g] _. cbn [fst]. eapply finds_bind; [apply (finds_get _ _ (fun o => exists f, m !! p = Some f /\ fl_obj f = o)); eauto|].
    intros o (f & Hf & <-). apply finds_lift. intros a Ha. exists f. split; [done|]. by eapply Hparse.
Qed.

Lemma all_of_sort {A K} `{OrdKey K} m prefix (mk : A -> Obj) out (key : A -> K) :
  all_of m prefix mk out -> all_of m prefix mk (sort_by_key key out).
Proof. intros Ha a. rewrite in_sort_by_key. apply Ha. Qed.

(** ** The loaders *)
Lemma finds_snapshots m : finds m Snapshot.list (all_of m SNAPSHOT_PREFIX OSnapshot).
Proof.
  unfold Snapshot.list. eapply finds_bind; [by apply (finds_list _ _ (eq (listed m SNAPSHOT_PREFIX)))|].
  intros metas <-. eapply finds_bind; [apply (finds_objects _ _ OSnapshot)|].
  - by intros ? ? [= ->].
  - intros o p a. unfold Snapshot.parse. destruct o; try done. destruct (verify _ _ _); cbn; congruence.
  - intros out Hout. by apply finds_ret, all_of_sort.
Qed.

Lemma finds_catalog m : finds m Catalog.list_entries (all_of m CATALOG_PREFIX OCatalog).
Proof.
  unfold Catalog.list_entries. eapply finds_bind; [by apply (finds_list _ _ (eq (listed m CATALOG_PREFIX)))|].
  intros metas <-. eapply finds_bind; [apply (finds_objects _ _ OCatalog)|].
  - by intros ? ? [= ->].
  - intros o p a. unfold Catalog.parse. destruct o; try done. destruct (verify _ _ _); cbn; congruence.
  - intros out Hout. by apply finds_ret, all_of_sort.
Qed.

Definition stored m (t : Uuid) (s : Z) (mf : VersionManifest) : Prop :=
  exists f, m !! manifest_path t s = Some f /\ fl_obj f = OManifest mf.
Definition head_at m (t : Uuid) (h : Head) : Prop :=
  exists f, m !! head_path t = Some f /\ fl_obj f = OHead h.
Definition floor_at m (t : Uuid) : Z :=
  match m !! retention_path t with
  | Some f => match fl_obj f with ORetention r => rf_min_retained_sequence r | _ => 0 end
  | None => 0
  end.

Lemma finds_manifest_at m t s : finds m (Database.manifest_at t s) (stored m t s).
Proof.
  unfold Database.manifest_at. eapply finds_bind; [by apply (finds_get_opt _ _ (eq (fl_obj <$> m !! manifest_path t s)))|].
  intros o <-. destruct (m !! manifest_path t s) as [f|] eqn:E; [|done]. cbn [fmap option_fmap option_map].
  apply finds_lift. intros mf Hmf. exists f. split; [done|].
  unfold VersionManifest.from_bytes in Hmf. destruct (fl_obj f); try done. destruct (_ <? _); [done|]. by injection Hmf as ->.
Qed.

Definition head_read m (t : Uuid) (s : option HeadState) : Prop :=
  match s with
  | Some s => head_at m t (hs_head s) /\ hs_tag s = checksum_hex (OHead (hs_head s))
  | None => m !! head_path t = None
  end.

Lemma finds_read m t : finds m (LocalHeadStore.read t) (head_read m t).
Proof.
  unfold LocalHeadStore.read, LocalHeadStore.read_head_file. eapply finds_bind.
  { by apply (finds_get_opt _ _ (eq (fl_obj <$> m !! head_path t))). }
  intros o <-. destruct (m !! head_path t) as [f|] eqn:E; [|done]. cbn [fmap option_fmap option_map].
  eapply finds_bind; [apply (finds_lift _ _ (fun h => fl_obj f = OHead h))|].
  - intros h Hh. unfold Head.from_bytes in Hh. destruct (fl_obj f); try done. destruct (_ <? _); [done|]. by injection Hh as ->.
  - intros h Hh. split; [by exists f|]. by rewrite Hh.
Qed.

Lemma finds_head m t :
  finds m (Database.head t) (fun s => head_at m t (hs_head s) /\ hs_tag s = checksum_hex (OHead (hs_head s))).
Proof.
  unfold Database.head. eapply finds_bind; [apply finds_read|]. by intros [s|] Hs.
Qed.

Lemma finds_floor m t :
  finds m (retention_floor t)
    (fun r => floor_at m t = match r with Some f => rf_min_retained_sequence f | None => 0 end).
Proof.
  unfold retention_floor. eapply finds_bind.
  { by apply (finds_get_opt _ _ (eq (fl_obj <$> m !! retention_path t))). }
  intros o <-. unfold floor_at. destruct (m !! retention_path t) as [f|]; [|done].
  cbn [fmap option_fmap option_map]. destruct (fl_obj f); try done.
  by eapply finds_bind; [apply (finds_lift _ _ (fun _ => True))|].
Qed.

Lemma finds_min_seq m t : finds m (retention_min_seq t) (fun z => z = floor_at m t).
Proof. unfold retention_min_seq. eapply finds_bind; [apply finds_floor|]. by intros r ->. Qed.
End Finds.
#[global] Arguments finds : simpl never.
#[global] Arguments bind : simpl never.
#[global] Arguments then_ : simpl never.
#[global] Arguments attempt : simpl never.
#[global] Arguments call : simpl never.
