(* ===== verification/RetentionProps.v ===== *)
(** * Pins, the retention floor and incremental reads

    Whatever an index that was honest when written says, rebuilding it from the two
    listings yields every pin and every owned table of the forks on disk; so the floor a
    retention sets passes none of them.  Then what an incremental read returns. *)
From S2P Require Export Reads.

Section Index.
Context `{Env}.
Implicit Types (m : gmap Path File) (forks : BTree string IndexedFork).

(** Objects sit where their name puts them. *)
Record forks_in_place m : Prop := {
  fip_fork : forall p f fk, is_prefix FORK_PREFIX p = true -> m !! p = Some f -> fl_obj f = OFork fk ->
    p = fork_path (fk_name fk);
  fip_entry : forall p f fe, is_prefix FORK_CATALOG_PREFIX p = true -> m !! p = Some f ->
    fl_obj f = OForkEntry fe -> exists h, p = FORK_CATALOG_PREFIX ++ [h; json (hash_name (fe_name fe))];
}.

(** What the object of a fork, and of a table it owns, says. *)
Definition pins_right m (name : string) (ps : BTree Uuid Z) : Prop :=
  exists f fk, m !! fork_path name = Some f /\ fl_obj f = OFork fk /\ fk_name fk = name /\
    ps = ForkIndex.fork_pins fk.
Definition owned_right m (fork_name table_name : string) (it : IndexedTable) : Prop :=
  exists f fe, m !! fork_catalog_entry_path fork_name table_name = Some f /\ fl_obj f = OForkEntry fe /\
    fe_table_id fe = it_table_id it.

(** An index is honest when an entry whose object still has the recorded size describes it. *)
Record honest m (x : ForkIndex) : Prop := {
  ho_fork : forall name e f, In (name, e) (xi_forks x) -> m !! fork_path name = Some f ->
    object_size (fl_obj f) = xf_object_size e -> pins_right m name (xf_pins e);
  ho_owned : forall name e tn it f, In (name, e) (xi_forks x) -> In (tn, it) (xf_owned e) ->
    m !! fork_catalog_entry_path name tn = Some f ->
    object_size (fl_obj f) = it_object_size it -> owned_right m name tn it;
}.

(** Everything an index says is so. *)
Definition sound m forks : Prop :=
  forall name e, bget name forks = Some e ->
    pins_right m name (xf_pins e) /\
    forall tn it, bget tn (xf_owned e) = Some it -> owned_right m name tn it.

Lemma sound_insert m forks name size pins :
  sound m forks -> pins_right m name pins -> sound m (binsert name (mkIndexedFork size pins []) forks).
Proof.
  intros Hs Hp n e. rewrite bget_insert. destruct (keqb n name) eqn:E; [|apply Hs].
  apply keqb_eq in E as ->. intros [= <-]. by split.
Qed.

Lemma sound_own m forks fn tn it : sound m forks -> owned_right m fn tn it -> sound m (ForkIndex.own fn tn it forks).
Proof.
  intros Hs Hp n e. unfold ForkIndex.own. rewrite bget_update. destruct (keqb n fn) eqn:E; [|apply Hs].
  apply keqb_eq in E as ->. destruct (bget fn forks) as [e0|] eqn:E0; [|done]. intros [= <-].
  destruct (Hs fn e0 E0) as [H1 H2]. split; [done|]. intros tn' it'. cbn. rewrite bget_insert.
  destruct (keqb tn' tn) eqn:E; [|apply H2]. apply keqb_eq in E as ->. by intros [= <-].
Qed.

Lemma own_keeps fn tn it forks name :
  (bget name (ForkIndex.own fn tn it forks) = None <-> bget name forks = None).
Proof.
  unfold ForkIndex.own. rewrite bget_update. destruct (keqb name fn); [|done]. by destruct (bget name forks).
Qed.

(** A table recorded as owned stays recorded. *)
Definition owns forks (fn tn : string) : Prop :=
  exists e it, bget fn forks = Some e /\ bget tn (xf_owned e) = Some it.
Lemma owns_own fn tn it forks : bget fn forks <> None -> owns (ForkIndex.own fn tn it forks) fn tn.
Proof.
  intros Hf. unfold owns, ForkIndex.own. rewrite bget_update, (keqb_refl fn).
  destruct (bget fn forks) as [e|] eqn:E; [|done]. eexists _, it. split; [done|]. apply bget_insert_eq.
Qed.
Lemma owns_keeps fn tn it forks fn' tn' : owns forks fn' tn' -> owns (ForkIndex.own fn tn it forks) fn' tn'.
Proof.
  intros (e & it' & He & Hit). unfold owns, ForkIndex.own. rewrite bget_update, He.
  destruct (keqb fn' fn); cbn; [|by exists e, it'].
  destruct (decide (tn' = tn)) as [->|Hne].
  - eexists _, it. split; [done|]. apply bget_insert_eq.
  - eexists _, it'. split; [done|]. cbn. by rewrite bget_insert_ne.
Qed.

(** ** The prior index, by path *)
Lemma fold_paths {K} `{Countable K} {A} (l : list A) (path : A -> K) (acc : gmap K A) p a :
  fold_left (fun acc e => <[path e := e]> acc) l acc !! p = Some a ->
  acc !! p = Some a \/ In a l /\ path a = p.
Proof.
  revert acc. induction l as [|b l IH]; intros acc; cbn; [auto|]. intros Hp.
  apply IH in Hp as [Hp|[Hin Hp]]; [|auto]. apply lookup_insert_Some in Hp as [[<- <-]|[_ Hp]]; auto.
Qed.

Lemma prior_fork prior p name e :
  ForkIndex.prior_forks_by_path prior !! p = Some (name, e) ->
  exists x, prior = Some x /\ In (name, e) (xi_forks x) /\ p = fork_path name.
Proof.
  destruct prior as [x|]; cbn; [|by rewrite lookup_empty]. intros Hp.
  apply (fold_paths _ (fun e => fork_path e.1)) in Hp as [Hp|[Hin <-]]; [by rewrite lookup_empty in Hp|eauto].
Qed.

Lemma prior_owned prior p fn tn it :
  ForkIndex.prior_owned_by_path prior !! p = Some (fn, tn, it) ->
  exists x e, prior = Some x /\ In (fn, e) (xi_forks x) /\ In (tn, it) (xf_owned e) /\
    p = fork_catalog_entry_path fn tn.
Proof.
  destruct prior as [x|]; cbn; [|by rewrite lookup_empty].
  assert (Hgen : forall l (acc : gmap Path (string * string * IndexedTable)), fold_left (fun acc e =>
      fold_left (fun acc o => <[fork_catalog_entry_path e.1 o.1 := (e.1, o.1, o.2)]> acc) (xf_owned e.2) acc) l acc
      !! p = Some (fn, tn, it) -> acc !! p = Some (fn, tn, it) \/
      exists e, In (fn, e) l /\ In (tn, it) (xf_owned e) /\ p = fork_catalog_entry_path fn tn).
  2: { intros Hp. apply Hgen in Hp as [Hp|(e & ? & ? & ?)]; [by rewrite lookup_empty in Hp|]. by exists x, e. }
  induction l as [|[n e] l IH]; intros acc; cbn; [auto|]. intros Hp.
  apply IH in Hp as [Hp|(e' & ? & ? & ?)]; [|right; exists e'; auto].
  clear IH. revert acc Hp.
  enough (Hin : forall os (acc : gmap Path (string * string * IndexedTable)), (forall o, In o os -> In o (xf_owned e)) ->
    fold_left (fun acc o => <[fork_catalog_entry_path n o.1 := (n, o.1, o.2)]> acc) os acc !! p
      = Some (fn, tn, it) -> acc !! p = Some (fn, tn, it) \/
      n = fn /\ In (tn, it) (xf_owned e) /\ p = fork_catalog_entry_path fn tn).
  { intros acc Hp. apply Hin in Hp as [Hp|(-> & ? & ?)]; [auto|right; exists e; auto|auto]. }
  induction os as [|[t i] os IHo]; intros acc Ho; cbn; [auto|]. intros Hp.
  apply IHo in Hp as [Hp|?]; [|auto|intros o ?; apply Ho; by right].
  apply lookup_insert_Some in Hp as [[<- [= -> -> ->]]|[_ Hp]]; [|auto].
  right. split; [done|]. split; [apply Ho; by left|done].
Qed.

(** ** Forks *)
Definition known forks (name : string) : Prop := bget name forks <> None.

Lemma known_insert forks name e n : known forks n -> known (binsert name e forks) n.
Proof. unfold known. rewrite bget_insert. by destruct (keqb n name). Qed.
Lemma known_insert_eq forks name e : known (binsert name e forks) name.
Proof. unfold known. by rewrite bget_insert_eq. Qed.

(** What the first pass over [forks/] leaves: every fork is known or yet to be read. *)
Record forks_classified m (metas : list (Path * File)) (acc : BTree string IndexedFork * list (Path * Z)) : Prop := {
  fc_sound : sound m acc.1;
  fc_unknown : forall u, In u acc.2 -> exists f, In (u.1, f) (listed m FORK_PREFIX);
  fc_all : forall p f fk, In (p, f) metas -> fl_obj f = OFork fk ->
    known acc.1 (fk_name fk) \/ exists z, In (p, z) acc.2;
}.

Lemma classify_fork_step m prior seen acc meta :
  forks_in_place m -> (forall x, prior = Some x -> honest m x) -> In meta (listed m FORK_PREFIX) ->
  forks_classified m seen acc ->
  forks_classified m (meta :: seen) (ForkIndex.classify_fork (ForkIndex.prior_forks_by_path prior) acc meta).
Proof.
  intros Hip Hho Hmeta [Hs Hu Ha]. destruct acc as [forks unknown], meta as [p f]. cbn in *.
  assert (Hread : forks_classified m ((p, f) :: seen)
    (forks, unknown ++ [(p, ForkIndex.meta_size (p, f))])).
  { split; cbn; [done| |].
    - intros u [Hin|[<-|[]]]%in_app_iff; [auto|by exists f].
    - intros q g fk [[= <- <-]|Hin] Hfk.
      + right. eexists. apply in_app_iff. right. by left.
      + destruct (Ha q g fk Hin Hfk) as [?|[z ?]]; [by left|right; exists z; apply in_app_iff; auto]. }
  destruct (ForkIndex.prior_forks_by_path prior !! p) as [[name e]|] eqn:Ep; [|done].
  destruct (_ =? _) eqn:Esz; [|done]. bool_prop.
  apply prior_fork in Ep as (x & -> & Hin & ->). apply in_listed in Hmeta as (Hf & Hpre & _).
  assert (Hp : pins_right m name (xf_pins e)).
  { eapply ho_fork; [by apply Hho|done|done|]. unfold ForkIndex.meta_size in Esz. cbn in Esz. lia. }
  split; cbn; [by apply sound_insert|done|].
  intros q g fk [[= <- <-]|Hq] Hfk.
  - left. destruct Hp as (f' & fk' & Hf' & Hfk' & Hn & _). rewrite Hf in Hf'. injection Hf' as <-.
    rewrite Hfk in Hfk'. injection Hfk' as <-. rewrite Hn. apply known_insert_eq.
  - destruct (Ha q g fk Hq Hfk) as [?|?]; [left; by apply known_insert|by right].
Qed.

Lemma classify_forks m prior metas acc seen :
  forks_in_place m -> (forall x, prior = Some x -> honest m x) ->
  (forall meta, In meta metas -> In meta (listed m FORK_PREFIX)) ->
  forks_classified m seen acc ->
  forks_classified m (rev metas ++ seen)
    (fold_left (ForkIndex.classify_fork (ForkIndex.prior_forks_by_path prior)) metas acc).
Proof.
  intros Hip Hho. revert acc seen. induction metas as [|meta metas IH]; intros acc seen Hl Hc; cbn; [done|].
  rewrite <- app_assoc. apply IH; [intros x ?; apply Hl; by right|].
  apply classify_fork_step; auto. apply Hl. by left.
Qed.

(** Reading the rest. *)
Lemma finds_read_forks m unknown :
  finds m (ForkIndex.read_forks unknown) (Forall2 (fun u r => exists f fk,
    m !! u.1 = Some f /\ fl_obj f = OFork fk /\ r = (fk_name fk, u.2, ForkIndex.fork_pins fk)) unknown).
Proof.
  apply finds_map. intros [p z] _. cbn [fst snd].
  eapply finds_bind; [apply (finds_get _ _ (fun o => exists f, m !! p = Some f /\ fl_obj f = o)); eauto|].
  intros o (f & Hf & <-).
  eapply finds_bind; [apply (finds_lift _ _ (fun fk => fl_obj f = OFork fk))|].
  - intros fk. unfold Fork.parse. destruct (fl_obj f); try done. destruct (verify _ _ _); cbn; [|done]. congruence.
  - intros fk Hfk. by exists f, fk.
Qed.

Lemma read_forks_complete m (read : list (string * Z * BTree Uuid Z)) unknown forks :
  forks_in_place m -> (forall u, In u unknown -> exists f, In (u.1, f) (listed m FORK_PREFIX)) ->
  Forall2 (fun u r => exists f fk, m !! u.1 = Some f /\ fl_obj f = OFork fk /\
    r = (fk_name fk, u.2, ForkIndex.fork_pins fk)) unknown read ->
  sound m forks ->
  let forks' := fold_left (fun acc r => binsert r.1.1 (mkIndexedFork r.1.2 r.2 []) acc) read forks in
  sound m forks' /\ (forall n, known forks n -> known forks' n) /\
  (forall p z f fk, In (p, z) unknown -> m !! p = Some f -> fl_obj f = OFork fk -> known forks' (fk_name fk)).
Proof.
  intros Hip Hu Hr. revert forks. induction Hr as [|[p z] r unknown read (f & fk & Hf & Hfk & ->) Hr IH];
    intros forks Hs; cbn; [split_ands; [done|auto|done]|].
  assert (Hp : p = fork_path (fk_name fk)).
  { destruct (Hu (p, z)) as (g & Hg); [by left|]. apply in_listed in Hg as (Hg & Hpre & _). cbn in *.
    by apply (fip_fork _ Hip p f fk). }
  destruct (IH ltac:(intros u ?; apply Hu; by right)
    (binsert (fk_name fk) (mkIndexedFork z (ForkIndex.fork_pins fk) []) forks)) as (H1 & H2 & H3).
  { apply sound_insert; [done|]. exists f, fk. by rewrite <- Hp. }
  split_ands; [done| |].
  - intros n Hn. by apply H2, known_insert.
  - intros q z' g fk' [[= <- <-]|Hin] Hg Hfk'; [|by eapply H3].
    cbn in Hf. rewrite Hf in Hg. injection Hg as <-. rewrite Hfk in Hfk'. injection Hfk' as <-.
    apply H2, known_insert_eq.
Qed.
(** ** Owned tables *)
Definition by_hash_right (by_hash : gmap string string) forks : Prop :=
  (forall h n, by_hash !! h = Some n -> hash_name n = h) /\
  (forall n, known forks n -> exists n', by_hash !! hash_name n = Some n').

Lemma fold_by_hash (l : list string) (acc : gmap string string) forks :
  (forall h n, acc !! h = Some n -> hash_name n = h) ->
  (forall n, known forks n -> In n l \/ exists n', acc !! hash_name n = Some n') ->
  by_hash_right (fold_left (fun acc name => <[hash_name name := name]> acc) l acc) forks.
Proof.
  revert acc. induction l as [|a l IH]; intros acc H1 H2; cbn.
  - split; [done|]. intros n Hn. by destruct (H2 n Hn).
  - apply IH.
    + intros h n [[<- <-]|[_ ?]]%lookup_insert_Some; auto.
    + intros n Hn. destruct (H2 n Hn) as [[->|?]|[n' Hn']]; [right|by left|right].
      * exists n. apply lookup_insert_eq.
      * destruct (decide (hash_name a = hash_name n)) as [->|Hne].
        -- exists a. apply lookup_insert_eq.
        -- exists n'. by rewrite lookup_insert_ne.
Qed.

Lemma known_keys forks n : known forks n -> In n (bkeys forks).
Proof.
  unfold known. intros Hn. destruct (in_dec string_dec n (bkeys forks)) as [?|Hx]; [done|].
  by apply bget_None_keys in Hx.
Qed.

Record entries_classified m forks0 (metas : list (Path * File))
    (acc : BTree string IndexedFork * list (Path * string * Z)) : Prop := {
  ec_sound : sound m acc.1;
  ec_known : forall n, known acc.1 n <-> known forks0 n;
  ec_unknown : forall u, In u acc.2 -> exists f h, In (u.1.1, f) (listed m FORK_CATALOG_PREFIX) /\
    u.1.1 !! 2%nat = Some h /\ hash_name u.1.2 = h /\ known forks0 u.1.2;
  ec_all : forall fn tn f fe, In (fork_catalog_entry_path fn tn, f) metas -> fl_obj f = OForkEntry fe ->
    known forks0 fn -> owns acc.1 fn tn \/ exists z, In (fork_catalog_entry_path fn tn, fn, z) acc.2;
}.

Lemma entry_path_fork fn tn fn' tn' :
  fork_catalog_entry_path fn tn = fork_catalog_entry_path fn' tn' ->
  hash_name fn = hash_name fn' /\ hash_name tn = hash_name tn'.
Proof. intros E. injection E as E1 E2. split; [done|]. by apply json_inj. Qed.

Lemma entry_path_hash fn tn : fork_catalog_entry_path fn tn !! 2%nat = Some (hash_name fn).
Proof. done. Qed.

Lemma classify_entry_step m prior by_hash forks0 seen acc meta :
  Inj (=) (=) hash_name -> (forall x, prior = Some x -> honest m x) ->
  by_hash_right by_hash forks0 -> (forall h n, by_hash !! h = Some n -> known forks0 n) ->
  In meta (listed m FORK_CATALOG_PREFIX) -> entries_classified m forks0 seen acc ->
  entries_classified m forks0 (meta :: seen)
    (ForkIndex.classify_entry by_hash (ForkIndex.prior_owned_by_path prior) acc meta).
Proof.
  intros Hinj Hho [Hb1 Hb2] Hbk Hmeta [Hs Hk Hu Ha]. destruct acc as [forks unknown], meta as [p f].
  unfold ForkIndex.classify_entry. cbn [fst snd] in *.
  assert (Hskip : (forall fn tn, p = fork_catalog_entry_path fn tn -> known forks0 fn -> False) ->
    entries_classified m forks0 ((p, f) :: seen) (forks, unknown)).
  { intros Hno. split; cbn [fst snd]; auto. intros fn tn g fe [[= Hp <-]|Hin] Hg Hfn; [by edestruct Hno|eauto]. }
  destruct (p !! 2%nat) as [h|] eqn:Eh; [|apply Hskip; by intros fn tn ->].
  destruct (by_hash !! h) as [name|] eqn:En.
  2: { apply Hskip. intros fn tn -> Hfn. destruct (Hb2 fn Hfn) as [n' Hn'].
    rewrite entry_path_hash in Eh. congruence. }
  pose proof (Hb1 _ _ En) as Hh. pose proof (Hbk _ _ En) as Hname. clear Hskip.
  assert (Hread : entries_classified m forks0 ((p, f) :: seen)
    (forks, unknown ++ [(p, name, ForkIndex.meta_size (p, f))])).
  { split; cbn [fst snd]; [done|done| |].
    - intros u [Hin|[<-|[]]]%in_app_iff; [auto|]. by exists f, h.
    - intros fn tn g fe [[= -> <-]|Hin] Hg Hfn.
      + right. eexists. apply in_app_iff. right. left. rewrite entry_path_hash in Eh. injection Eh as <-. by rewrite (inj hash_name _ _ Hh).
      + destruct (Ha fn tn g fe Hin Hg Hfn) as [?|[z ?]]; [by left|right; exists z; apply in_app_iff; auto]. }
  destruct (ForkIndex.prior_owned_by_path prior !! p) as [[[fn' tn] it]|] eqn:Ep; [|done].
  destruct (_ =? _) eqn:Esz; [|done]. bool_prop. clear Hread.
  apply prior_owned in Ep as (x & e & -> & Hin & Hit & ->). apply in_listed in Hmeta as (Hf & _ & _).
  rewrite entry_path_hash in Eh. injection Eh as <-. apply (inj hash_name) in Hh as ->.
  assert (Hp : owned_right m fn' tn it).
  { eapply ho_owned; [by apply Hho|done..|]. unfold ForkIndex.meta_size in Esz. cbn in Esz. lia. }
  split; cbn [fst snd]; [by apply sound_own| |done|].
  - intros n. rewrite <- Hk. unfold known. by rewrite own_keeps.
  - intros fn t g fe [[= E1 E2 <-]|Hq] Hg Hfn.
    + left. apply (inj hash_name) in E1 as <-. apply json_inj, (inj hash_name) in E2 as <-.
      apply owns_own. by apply Hk.
    + destruct (Ha fn t g fe Hq Hg Hfn) as [?|?]; [left; by apply owns_keeps|by right].
Qed.

Lemma classify_entries m prior by_hash forks0 metas seen acc :
  Inj (=) (=) hash_name -> (forall x, prior = Some x -> honest m x) ->
  by_hash_right by_hash forks0 -> (forall h n, by_hash !! h = Some n -> known forks0 n) ->
  (forall meta, In meta metas -> In meta (listed m FORK_CATALOG_PREFIX)) ->
  entries_classified m forks0 seen acc ->
  entries_classified m forks0 (rev metas ++ seen)
    (fold_left (ForkIndex.classify_entry by_hash (ForkIndex.prior_owned_by_path prior)) metas acc).
Proof.
  intros Hinj Hho Hb Hbk. revert acc seen. induction metas as [|meta metas IH]; intros acc seen Hl Hc; cbn; [done|].
  rewrite <- app_assoc. apply IH; [intros x ?; apply Hl; by right|].
  apply classify_entry_step; auto. apply Hl. by left.
Qed.

Lemma finds_read_entries m unknown :
  finds m (ForkIndex.read_entries unknown) (Forall2 (fun u r => exists f fe,
    m !! u.1.1 = Some f /\ fl_obj f = OForkEntry fe /\
    r = (u.1.2, fe_name fe, mkIndexedTable (fe_table_id fe) u.2)) unknown).
Proof.
  apply finds_map. intros [[p n] z] _. cbn [fst snd].
  eapply finds_bind; [apply (finds_get _ _ (fun o => exists f, m !! p = Some f /\ fl_obj f = o)); eauto|].
  intros o (f & Hf & <-).
  eapply finds_bind; [apply (finds_lift _ _ (fun fe => fl_obj f = OForkEntry fe))|].
  - intros fe. unfold ForkTableEntry.parse. destruct (fl_obj f); try done. destruct (verify _ _ _); cbn; [|done]. congruence.
  - intros fe Hfe. by exists f, fe.
Qed.

Lemma read_entries_complete m (read : list (string * string * IndexedTable)) unknown forks :
  Inj (=) (=) hash_name -> forks_in_place m ->
  (forall u, In u unknown -> exists f h, In (u.1.1, f) (listed m FORK_CATALOG_PREFIX) /\
    u.1.1 !! 2%nat = Some h /\ hash_name u.1.2 = h /\ known forks u.1.2) ->
  Forall2 (fun u r => exists f fe, m !! u.1.1 = Some f /\ fl_obj f = OForkEntry fe /\
    r = (u.1.2, fe_name fe, mkIndexedTable (fe_table_id fe) u.2)) unknown read ->
  sound m forks ->
  let forks' := fold_left (fun acc r => ForkIndex.own r.1.1 r.1.2 r.2 acc) read forks in
  sound m forks' /\ (forall n, known forks' n <-> known forks n) /\
  (forall fn tn, owns forks fn tn -> owns forks' fn tn) /\
  (forall fn tn z, In (fork_catalog_entry_path fn tn, fn, z) unknown -> owns forks' fn tn).
Proof.
  intros Hinj Hip Hu Hr. revert forks Hu.
  induction Hr as [|[[p n] z] r unknown read (f & fe & Hf & Hfe & ->) Hr IH];
    intros forks Hu Hs; cbn [fold_left fst snd]; [split_ands; [done|done|done|done]|].
  cbn [fst snd] in *. destruct (Hu (p, n, z)) as (g & h & Hg & Hh & Hn & Hkn); [by left|]. cbn [fst snd] in *.
  apply in_listed in Hg as (_ & Hpre & _).
  destruct (fip_entry _ Hip p f fe Hpre Hf Hfe) as [h' Hp].
  assert (Hpath : p = fork_catalog_entry_path n (fe_name fe)).
  { rewrite Hp in Hh. cbn in Hh. injection Hh as ->. by rewrite Hp, <- Hn. }
  set (forks1 := ForkIndex.own n (fe_name fe) (mkIndexedTable (fe_table_id fe) z) forks).
  assert (Hk1 : forall x, known forks1 x <-> known forks x) by (intros x; unfold known, forks1; by rewrite own_keeps).
  destruct (IH forks1) as (H1 & H2 & H3 & H4).
  - intros u Hin. destruct (Hu u) as (g' & h1 & ? & ? & ? & ?); [by right|]. exists g', h1. by rewrite Hk1.
  - apply sound_own; [done|]. exists f, fe. by rewrite <- Hpath.
  - split_ands; [done| | |].
    + intros x. by rewrite H2.
    + intros fn tn Ho. by apply H3, owns_keeps.
    + intros fn tn z' [[= Hq -> <-]|Hin]; [|by eapply H4].
      rewrite Hpath in Hq. apply entry_path_fork in Hq as [_ Hq]. apply (inj hash_name) in Hq as <-.
      by apply H3, owns_own.
Qed.

(** ** The rebuilt index *)
Record index_of m (x : ForkIndex) : Prop := {
  io_pins : forall f fk, m !! fork_path (fk_name fk) = Some f -> fl_obj f = OFork fk ->
    exists e, In (fk_name fk, e) (xi_forks x) /\ bget (fk_name fk) (xi_forks x) = Some e /\
      xf_pins e = ForkIndex.fork_pins fk;
  io_owned : forall fn tn f fe e, m !! fork_catalog_entry_path fn tn = Some f -> fl_obj f = OForkEntry fe ->
    bget fn (xi_forks x) = Some e ->
    exists it, bget tn (xf_owned e) = Some it /\ it_table_id it = fe_table_id fe;
}.

Lemma index_of_intro m forks ts c :
  sound m forks ->
  (forall f fk, m !! fork_path (fk_name fk) = Some f -> fl_obj f = OFork fk -> known forks (fk_name fk)) ->
  (forall fn tn f fe, m !! fork_catalog_entry_path fn tn = Some f -> fl_obj f = OForkEntry fe ->
    known forks fn -> owns forks fn tn) ->
  index_of m (mkForkIndex ts forks c).
Proof.
  intros Hs Hk Ho. split; cbn [xi_forks].
  - intros f fk Hf Hfk. specialize (Hk f fk Hf Hfk). unfold known in Hk.
    destruct (bget (fk_name fk) forks) as [e|] eqn:E; [|done]. exists e. split; [by apply bget_In|]. split; [done|].
    destruct (Hs _ _ E) as [(f' & fk' & Hf' & Hfk' & _ & ->) _]. congruence.
  - intros fn tn f fe e Hf Hfe He. destruct (Ho fn tn f fe Hf Hfe) as (e' & it & He' & Hit); [unfold known; congruence|].
    rewrite He in He'. injection He' as <-. exists it. split; [done|].
    destruct (Hs _ _ He) as [_ Hs2]. destruct (Hs2 tn it Hit) as (f' & fe' & Hf' & Hfe' & E). congruence.
Qed.

Lemma finds_rebuild m prior :
  Inj (=) (=) hash_name -> forks_in_place m -> (forall x, prior = Some x -> honest m x) ->
  finds m (ForkIndex.rebuild prior) (index_of m).
Proof.
  intros Hinj Hip Hho. unfold ForkIndex.rebuild.
  eapply finds_bind; [by apply (finds_list _ _ (eq (listed m FORK_PREFIX)))|]. intros fm <-.
  eapply finds_bind; [by apply (finds_list _ _ (eq (listed m FORK_CATALOG_PREFIX)))|]. intros cm <-.
  pose proof (classify_forks m prior (listed m FORK_PREFIX) ([], []) [] Hip Hho ltac:(done)
    ltac:(by split)) as Hc.
  destruct (fold_left _ (listed m FORK_PREFIX) ([], [])) as [forks unknown]. destruct Hc as [Hs Hu Ha]. cbn [fst snd] in *.
  eapply finds_bind; [apply finds_read_forks|]. intros read Hread.
  destruct (read_forks_complete m read unknown forks Hip Hu Hread Hs) as (Hs1 & Hk1 & Hr1).
  set (forks1 := fold_left _ read forks) in *.
  pose proof (fold_by_hash (bkeys forks1) ∅ forks1 ltac:(intros ? ?; by rewrite lookup_empty)
    ltac:(intros n Hn; left; by apply known_keys)) as Hb.
  set (by_hash := fold_left _ (bkeys forks1) (∅ : gmap string string)) in *.
  assert (Hbk : forall h n, by_hash !! h = Some n -> known forks1 n).
  { intros h n Hn. apply (fold_paths _ hash_name) in Hn as [Hn|[Hin _]]; [by rewrite lookup_empty in Hn|].
    intros Hx. by apply bget_None_keys in Hx. }
  pose proof (classify_entries m prior by_hash forks1 (listed m FORK_CATALOG_PREFIX) [] (forks1, []) Hinj Hho Hb Hbk
    ltac:(done) ltac:(by split)) as Hc.
  destruct (fold_left _ (listed m FORK_CATALOG_PREFIX) (forks1, [])) as [forks2 unknown2].
  destruct Hc as [Hs2 Hk2 Hu2 Ha2]. cbn [fst snd] in *.
  eapply finds_bind; [apply finds_read_entries|]. intros entries Hentries.
  destruct (read_entries_complete m entries unknown2 forks2 Hinj Hip) as (Hs3 & Hk3 & Ho3 & Hn3); [|done..|].
  { intros u Hin. destruct (Hu2 u Hin) as (f & h & ? & ? & ? & ?). exists f, h. by rewrite Hk2. }
  set (forks3 := fold_left _ entries forks2) in *.
  eapply finds_bind; [apply (finds_call _ _ (fun _ => True)); done|]. intros ts _. apply finds_ret.
  apply index_of_intro; [done| |].
  - intros f fk Hf Hfk. apply Hk3, Hk2. destruct (Ha (fork_path (fk_name fk)) f fk) as [?|[z Hz]]; [|done|by apply Hk1|by eapply Hr1].
    apply in_app_iff. left. apply in_rev. rewrite rev_involutive. by apply in_listed.
  - intros fn tn f fe Hf Hfe Hkn. destruct (Ha2 fn tn f fe) as [?|[z Hz]]; [|done| |by apply Ho3|by eapply Hn3].
    + apply in_app_iff. left. apply in_rev. rewrite rev_involutive. by apply in_listed.
    + by apply Hk2, Hk3.
Qed.

(** ** Queries *)
Lemma find_map_none {A B} (f : A -> option B) l : ForkIndex.find_map f l = None -> forall a, In a l -> f a = None.
Proof.
  induction l as [|a l IH]; cbn; [done|]. destruct (f a) eqn:E; [done|]. intros Hn b [<-|Hin]; auto.
Qed.

Lemma fork_pins_get t fk : bget t (ForkIndex.fork_pins fk) = fp_sequence <$> bget t (fk_pins fk).
Proof.
  unfold ForkIndex.fork_pins. induction (fk_pins fk) as [|[k p] l IH]; cbn; [done|]. by destruct (keqb t k).
Qed.

(** The forks of a database, and what they pin. *)
Definition pinned_by m (t : Uuid) (fk : Fork) (pin : ForkPin) : Prop :=
  exists f, m !! fork_path (fk_name fk) = Some f /\ fl_obj f = OFork fk /\ Fork.pin fk t = Some pin.

Lemma index_pin m x t fk pin : index_of m x -> pinned_by m t fk pin ->
  exists e, In (fk_name fk, e) (xi_forks x) /\ bget t (xf_pins e) = Some (fp_sequence pin).
Proof.
  intros Hx (f & Hf & Hfk & Hp). destruct (io_pins _ _ Hx f fk Hf Hfk) as (e & Hin & _ & E).
  exists e. split; [done|]. rewrite E, fork_pins_get. unfold Fork.pin in Hp. by rewrite Hp.
Qed.

Lemma first_pin_below_none m x t target fk pin :
  index_of m x -> ForkIndex.first_pin_below x t target = None -> pinned_by m t fk pin -> target <= fp_sequence pin.
Proof.
  intros Hx Hn Hp. destruct (index_pin _ _ _ _ _ Hx Hp) as (e & Hin & He).
  pose proof (find_map_none _ _ Hn _ Hin) as Hne. cbn in Hne. rewrite He in Hne.
  destruct (_ <? _) eqn:E; [done|]. by bool_prop.
Qed.

Lemma first_pin_none m x t fk pin : index_of m x -> ForkIndex.first_pin x t = None -> ~ pinned_by m t fk pin.
Proof.
  intros Hx Hn Hp. destruct (index_pin _ _ _ _ _ Hx Hp) as (e & Hin & He).
  pose proof (find_map_none _ _ Hn _ Hin) as Hne. cbn in Hne. by rewrite He in Hne.
Qed.

(** ** Refreshing *)
Definition index_honest m : Prop :=
  forall f x, m !! fork_index_path = Some f -> fl_obj f = OForkIndex x ->
    ForkIndex.is_intact x = true -> honest m x.

Lemma finds_load_opt m :
  index_honest m -> finds m ForkIndex.load_opt (fun r => forall x, r = Some x -> honest m x).
Proof.
  intros Hh. unfold ForkIndex.load_opt.
  eapply finds_bind; [by apply (finds_get_opt _ _ (eq (fl_obj <$> m !! fork_index_path)))|]. intros o <-.
  destruct (m !! fork_index_path) as [f|] eqn:E; [|done]. cbn [fmap option_fmap option_map].
  destruct (fl_obj f) eqn:Eo; try done. destruct (ForkIndex.is_intact x) eqn:Ei; [|done].
  apply finds_ret. intros y [= <-]. by eapply Hh.
Qed.

Lemma index_of_forks m x y : xi_forks x = xi_forks y -> index_of m x -> index_of m y.
Proof. intros E [H1 H2]. split; by rewrite <- E. Qed.

Lemma wpc_refresh ft writable d (Q : DbResult ForkIndex -> Disk -> Prop) (C : Disk -> Prop) :
  Inj (=) (=) hash_name -> forks_in_place (files d) -> index_honest (files d) ->
  (forall d', frame [fork_index_path] d d' -> C d') ->
  (forall e d', frame [fork_index_path] d d' -> Q (Err e) d') ->
  (forall x d', frame [fork_index_path] d d' -> index_of (files d) x -> Q (Ok x) d') ->
  wpc ft (ForkIndex.refresh writable) d Q C.
Proof.
  intros Hinj Hip Hho HC HE HO. unfold ForkIndex.refresh.
  assert (Hin : fork_index_path ∈ [fork_index_path]) by by left.
  apply wpc_bind. eapply finds_wpc; [by apply finds_load_opt|..]; cbv beta.
  { intros d' ?. by apply HC, frame_same. } { intros e d' ?. split; [by apply HC, frame_same|by apply HE, frame_same]. }
  intros prior d1 H1 Hprior. apply wpc_bind. assert (E1 : files d1 = files d) by apply H1.
  eapply finds_wpc; [rewrite E1; by apply finds_rebuild|..]; cbv beta.
  { intros d' ?. apply HC, frame_same. by etransitivity. }
  { intros e d' ?. split; [apply HC, frame_same|apply HE, frame_same]; by etransitivity. }
  intros x d2 H2 Hx. assert (F2 : frame [fork_index_path] d d2) by (apply frame_same; by etransitivity).
  assert (Hs : index_of (files d) (seal x)) by by eapply index_of_forks, Hx.
  assert (Hstore : wpc ft (do! ForkIndex.store (seal x) in ret (seal x)) d2 Q C).
  { apply wpc_bind. unfold ForkIndex.store. apply wpc_bind.
    assert (F3 : frame [fork_index_path] d (put_file fork_index_path (OForkIndex (seal x)) true d2)) by by apply frame_put.
    apply wpc_put; [auto..| |fault]. apply wpc_sync_objects; [by auto using frame_synced..| |].
    - apply wpc_ret; auto using frame_synced.
    - intros; split_ands; auto using frame_synced. }
  destruct prior as [p|].
  - case_bool_decide as E; [apply wpc_ret; auto; eapply HO; [done|]; by eapply index_of_forks, Hx|].
    destruct (negb writable); [apply wpc_ret; auto|]. destruct (ForkIndex.is_empty (seal x)); [|done].
    assert (F3 : frame [fork_index_path] d (del_file fork_index_path d2)).
    { intros q Hq. assert (q <> fork_index_path) by by intros ->. rewrite files_del_ne, pending_del_ne by done. by apply F2. }
    apply wpc_bind. unfold ForkIndex.invalidate, Backend.delete.
    apply wpc_call; cbn [effect fst snd]; destruct (files d2 !! fork_index_path); auto;
      try (apply wpc_ret; auto); intros; split_ands; auto.
  - destruct (_ || _); [apply wpc_ret; auto|done].
Qed.
End Index.

(** ** The retention floor respects every pin

    What [set_retention] leaves on disk at any moment, whichever calls fail; and what an
    incremental read over a chain of appends returns. *)

Section RetentionProps.
Context `{Env}.
Implicit Types (m : gmap Path File) (d : Disk) (db : Database).

(** A snapshot of the database, and what it pins. *)
Definition snapshot_pins m (t : Uuid) (sn : Snapshot) (se : SnapshotEntry) : Prop :=
  (exists p f, In (p, f) (listed m SNAPSHOT_PREFIX) /\ fl_obj f = OSnapshot sn) /\
  bget t (sn_entries sn) = Some se.

(** A floor no pin is below, that does not pass HEAD. *)
Record floor_allowed m (t : Uuid) (s : Z) : Prop := {
  fa_monotone : floor_at m t <= s;
  fa_head : exists h, head_at m t h /\ s <= hd_sequence h;
  fa_snapshots : forall sn se, snapshot_pins m t sn se -> s <= se_sequence se;
  fa_forks : forall fk pin, pinned_by m t fk pin -> s <= fp_sequence pin;
}.

(** ** Resolving *)
Lemma read_only_min_seq t : read_only (retention_min_seq t).
Proof. unfold retention_min_seq, retention_floor, Backend.get_opt, call. read_only_tac. Qed.

Lemma read_only_catalog_load name : read_only (Catalog.load_entry name).
Proof. unfold Catalog.load_entry, Backend.get_opt, call. read_only_tac. Qed.
Lemma read_only_fork_load fork name : read_only (ForkTableEntry.load_entry fork name).
Proof. unfold ForkTableEntry.load_entry, Backend.get_opt, call. read_only_tac. Qed.
Lemma read_only_list_tables db : read_only (Database.list_tables db).
Proof.
  unfold Database.list_tables, Catalog.list_entries, ForkTableEntry.list_entries, Backend.get, Backend.list, call.
  destruct (db_fork db); read_only_tac.
Qed.
Lemma read_only_entry_opt db name : read_only (Database.entry_opt db name).
Proof.
  unfold Database.entry_opt. destruct (db_fork db); [|apply read_only_catalog_load].
  apply read_only_bind; [apply read_only_fork_load|]. intros [fe|]; [done|].
  destruct (Fork.pin_by_name f name) as [[t pin]|]; [|done]. destruct (Database.pinned_entry name t pin); [done|].
  apply read_only_bind; [apply read_only_catalog_load|done].
Qed.
Lemma read_only_entry db name : read_only (Database.entry db name).
Proof.
  unfold Database.entry. apply read_only_bind; [apply read_only_entry_opt|]. intros [e|]; [done|].
  apply read_only_bind; [apply read_only_attempt, read_only_list_tables|done].
Qed.

(** The head a handle resolves at: the pinned version inside a fork, HEAD otherwise. *)
Definition effective m db (e : CatalogEntry) (s : Z) : Prop :=
  match (fork ← db_fork db; Fork.pin fork (ce_table_id e)) with
  | Some pin => s = fp_sequence pin
  | None => exists h, head_at m (ce_table_id e) h /\ s = hd_sequence h
  end.

Lemma finds_effective_head m db e :
  finds m (Database.effective_head db e) (fun r => effective m db e r.1).
Proof.
  unfold Database.effective_head, effective. destruct (db_fork db ≫= _) as [pin|]; [done|].
  eapply finds_bind; [apply finds_head|]. intros s [Hs _]. apply finds_ret. by eexists.
Qed.

(** The version a read point selects. *)
Definition selects m (e : CatalogEntry) (at_ : ReadAt) (head s : Z) : Prop :=
  match at_ with
  | Latest => s = head
  | Version v => s = v /\ floor_at m (ce_table_id e) <= v <= head
  | _ => True
  end.

Lemma read_only_bisect fuel t ts lo hi : read_only (Database.bisect fuel t ts lo hi).
Proof.
  revert lo hi. induction fuel as [|fuel IH]; intros lo hi; cbn [Database.bisect]; [done|].
  destruct (_ <? _); [|done]. apply read_only_bind; [apply read_only_manifest_at|]. intros mf. by destruct (_ <=? _).
Qed.
Lemma read_only_as_of t lo hi ts : read_only (Database.as_of_sequence t lo hi ts).
Proof.
  unfold Database.as_of_sequence. apply read_only_bind; [apply read_only_manifest_at|]. intros m1.
  destruct (_ <? _); [done|]. apply read_only_bind; [apply read_only_manifest_at|]. intros m2.
  destruct (_ <=? _); [done|]. apply read_only_bind; [apply read_only_bisect|done].
Qed.
Lemma read_only_snapshot_load name : read_only (Snapshot.load name).
Proof.
  unfold Snapshot.load, Snapshot.list, Backend.get_opt, Backend.get, Backend.list, call. read_only_tac.
Qed.

Lemma finds_select m e at_ hs hc : finds m (Database.select_version e at_ hs hc) (fun r => selects m e at_ hs r.1).
Proof.
  destruct at_ as [|v|ts|n]; cbn [Database.select_version selects]; [done|..].
  - eapply finds_bind; [apply finds_min_seq|]. intros fl ->. destruct (_ || _) eqn:E; [done|]. bool_prop.
    apply finds_ret. cbn. lia.
  - eapply finds_bind; [apply finds_read_only, read_only_min_seq|]. intros fl _.
    eapply finds_bind; [apply finds_read_only, read_only_as_of|]. by intros [s|] _.
  - eapply finds_bind; [apply finds_read_only, read_only_snapshot_load|]. intros sn _.
    by destruct (bget _ _).
Qed.

(** A spec revision, and the table a name stands for, on disk. *)
Definition spec_at m (t : Uuid) (r : Z) (spec : TableSpec) : Prop :=
  exists f, m !! spec_path t r = Some f /\ fl_obj f = OSpec spec.
Definition named m (name : string) (e : CatalogEntry) : Prop :=
  exists f, m !! catalog_entry_path name = Some f /\ fl_obj f = OCatalog e.

Lemma finds_spec m t r : finds m (Database.spec t r) (spec_at m t r).
Proof.
  unfold Database.spec. eapply finds_bind; [by apply (finds_get_opt _ _ (eq (fl_obj <$> m !! spec_path t r)))|].
  intros o <-. destruct (m !! spec_path t r) as [f|] eqn:E; [|done]. cbn [fmap option_fmap option_map].
  destruct (fl_obj f) eqn:Ef; try done. eapply finds_bind; [apply (finds_lift _ _ (fun _ => True)); done|].
  intros u _. apply finds_ret. by exists f.
Qed.

Lemma finds_entry m db name : db_fork db = None -> finds m (Database.entry db name) (named m name).
Proof.
  intros Hb. unfold Database.entry, Database.entry_opt. rewrite Hb.
  eapply (finds_bind _ _ _ (fun o => match o with Some e => named m name e | None => True end)).
  - unfold Catalog.load_entry. eapply finds_bind; [by apply (finds_get_opt _ _ (eq (fl_obj <$> m !! catalog_entry_path name)))|].
    intros o <-. destruct (m !! catalog_entry_path name) as [f|] eqn:E; [|done]. cbn [fmap option_fmap option_map].
    eapply finds_bind; [apply (finds_lift _ _ (fun e => fl_obj f = OCatalog e))|].
    + intros e. unfold Catalog.parse. destruct (fl_obj f); try done. destruct (verify _ _ _); [|done]. by intros [= ->].
    + intros e He. destruct (String.eqb _ _); [|done]. apply finds_ret. by exists f.
  - intros [e|] He; [by apply finds_ret|]. eapply finds_bind; [apply finds_read_only, read_only_attempt, read_only_list_tables|done].
Qed.

(** What a resolved table is: a stored manifest at the selected version. *)
Lemma finds_resolve m db name at_ :
  finds m (Database.resolve db name at_) (fun r => effective m db (rt_entry r) (rt_head_sequence r) /\
    (exists s, selects m (rt_entry r) at_ (rt_head_sequence r) s /\ stored m (ce_table_id (rt_entry r)) s (rt_manifest r)) /\
    (db_fork db = None -> named m name (rt_entry r)) /\
    spec_at m (ce_table_id (rt_entry r)) (mf_schema_revision (rt_manifest r)) (rt_spec r) /\
    rt_schema r = ts_schema (rt_spec r)).
Proof.
  unfold Database.resolve. eapply (finds_bind _ _ _ (fun e => db_fork db = None -> named m name e)).
  { destruct (db_fork db) eqn:Eb; [apply read_only_finds; [done|apply read_only_entry]|].
    eapply finds_mono; [|by apply finds_entry]. auto. }
  intros e Hn.
  unfold Database.resolve_entry. eapply finds_bind; [apply finds_effective_head|]. intros [hs hc] Hh.
  eapply finds_bind; [apply finds_select|]. intros [s k] Hs. cbn [fst snd] in *.
  eapply finds_bind; [apply finds_read_only|].
  { destruct k; [done|]. destruct (_ =? _); [done|]. apply read_only_bind; [apply read_only_manifest_at|done]. }
  intros c _. eapply finds_bind; [by apply (finds_get_opt _ _ (eq (fl_obj <$> m !! manifest_path (ce_table_id e) s)))|].
  intros o <-. destruct (m !! manifest_path (ce_table_id e) s) as [f|] eqn:Ef; [|done]. cbn [fmap option_fmap option_map].
  eapply finds_bind; [apply finds_read_only; read_only_tac|]. intros u _.
  eapply finds_bind; [apply (finds_lift _ _ (fun mf => fl_obj f = OManifest mf))|].
  { intros mf Hmf. unfold VersionManifest.from_bytes in Hmf. destruct (fl_obj f); try done.
    destruct (_ <? _); [done|]. by injection Hmf as ->. }
  intros mf Hmf. eapply finds_bind; [apply finds_spec|]. intros sp Hsp. apply finds_ret.
  split; [done|]. split; [|done]. exists s. split; [done|]. by exists f.
Qed.

Lemma finds_resolve_head m db name :
  db_fork db = None ->
  finds m (Database.resolve db name Latest)
    (fun r => exists h, head_at m (ce_table_id (rt_entry r)) h /\ rt_head_sequence r = hd_sequence h).
Proof.
  intros Hb. eapply finds_mono; [|apply finds_resolve]. intros r [He _]. unfold effective in He. by rewrite Hb in He.
Qed.

(** ** Setting the floor *)
Lemma read_only_oldest fuel t ts floor kept : read_only (Retention.oldest_kept fuel t ts floor kept).
Proof.
  revert kept. induction fuel as [|fuel IH]; intros kept; cbn; [done|]. destruct (_ <? _); [|done].
  apply read_only_bind; [apply read_only_manifest_at|]. intros mf. by destruct (_ <? _).
Qed.

Lemma read_only_cut_target t h cut : read_only (Retention.cut_target t h cut).
Proof.
  destruct cut; cbn; [by destruct (_ =? _)|done|].
  apply read_only_bind; [apply read_only_min_seq|]. intros; apply read_only_oldest.
Qed.

(** What [set_retention] may leave: the floors it found, or one allowed floor more. *)
Definition floors_ok d d' : Prop :=
  (forall p, p <> fork_index_path -> (forall t, p <> retention_path t) -> files d' !! p = files d !! p) /\
  forall t, floor_at (files d') t = floor_at (files d) t \/ floor_allowed (files d) t (floor_at (files d') t).

Lemma floor_at_same m m' t : m' !! retention_path t = m !! retention_path t -> floor_at m' t = floor_at m t.
Proof. unfold floor_at. by intros ->. Qed.

Lemma floors_ok_frame d d' : frame [fork_index_path] d d' -> floors_ok d d'.
Proof.
  intros Hf. split.
  - intros p Hp _. apply Hf. by rewrite list_elem_of_singleton.
  - intros t. left. apply floor_at_same. by apply Hf; rewrite list_elem_of_singleton.
Qed.

Lemma floors_ok_put d d' t floor :
  frame [fork_index_path] d d' -> floor_allowed (files d) t (rf_min_retained_sequence floor) ->
  floors_ok d (put_file (retention_path t) (ORetention floor) true d').
Proof.
  intros Hf Ha. destruct (floors_ok_frame _ _ Hf) as [F1 F2]. split.
  - intros p Hp Hr. rewrite files_put_ne by (intros <-; by eapply Hr). auto.
  - intros t'. destruct (decide (t' = t)) as [->|Hne].
    + right. unfold floor_at. by rewrite files_put_eq.
    + rewrite (floor_at_same (files d')); [apply F2|]. apply files_put_ne. intros [= E]. done.
Qed.

Lemma wpc_set_retention ft db name cut note d :
  Inj (=) (=) hash_name -> forks_in_place (files d) -> index_honest (files d) ->
  wpc ft (Retention.set_retention db name cut note) d
    (fun r d' => floors_ok d d' /\ forall floor, r = Ok floor ->
       floor_at (files d') (rf_table_id floor) = rf_min_retained_sequence floor /\
       floor_allowed (files d) (rf_table_id floor) (rf_min_retained_sequence floor)) (floors_ok d).
Proof.
  intros Hinj Hip Hho. unfold Retention.set_retention. set (Q := fun r d' => _).
  assert (HE : forall e d', floors_ok d d' -> Q (Err e) d') by (by split).
  assert (HR : floors_ok d d) by apply floors_ok_frame, frame_refl.
  destruct (db_read_only db); [apply wpc_ret; auto|].
  assert (HC : forall d', same_files d d' -> floors_ok d d') by (intros; by apply floors_ok_frame, frame_same).
  assert (HT : forall d1 d', same_files d d1 -> same_files d1 d' -> floors_ok d d').
  { intros d1 d' ? ?. apply HC. by etransitivity. }
  apply wpc_bind. unfold Database.ensure_base. destruct (db_fork db) eqn:Hb; [apply wpc_ret; auto|]. apply wpc_ret; [done|].
  apply wpc_bind. apply wpc_lock; [done| |auto]. apply wpc_bind.
  eapply finds_wpc; [by apply finds_resolve_head|auto|auto|]. intros r d1 H1 (h & Hh & Hseq). cbv zeta.
  apply wpc_bind. eapply wpc_read_only; [apply read_only_cut_target|eauto|].
  intros [target0|e] d2 H2; [|split; eauto].
  assert (S2 : same_files d d2) by by etransitivity. assert (E2 : files d2 = files d) by apply S2.
  set (target := Z.min target0 (rt_head_sequence r)). set (t := ce_table_id (rt_entry r)) in *.
  apply wpc_bind. eapply finds_wpc; [apply finds_min_seq|eauto|split; eauto|].
  intros current d3 H3 ->. assert (S3 : same_files d d3) by by etransitivity.
  destruct (target <? _) eqn:Ecur; [apply wpc_ret; auto|]. bool_prop. rewrite E2 in Ecur.
  apply wpc_bind. eapply finds_wpc; [apply finds_snapshots|eauto|split; eauto|].
  intros snaps d4 H4 Hsn. assert (S4 : same_files d d4) by by etransitivity.
  replace (files d3) with (files d) in Hsn by (symmetry; apply S3).
  apply wpc_bind. apply wpc_lift; [auto|]. destruct (foldr_res _ tt snaps) as [u|e] eqn:Echk; [|split; auto].
  apply foldr_res_each in Echk. apply wpc_bind. assert (E4 : files d4 = files d) by apply S4.
  assert (HC4 : forall d', frame [fork_index_path] d4 d' -> frame [fork_index_path] d d').
  { intros d' Hf. eapply frame_trans; [by apply frame_same|done]. }
  apply wpc_refresh; [done|by rewrite E4|by rewrite E4| | |].
  { intros d' ?. by apply floors_ok_frame, HC4. }
  { intros e d' ?. split; [|apply HE]; by apply floors_ok_frame, HC4. }
  intros x d5 Hf5 Hx. rewrite E4 in Hx. apply HC4 in Hf5. pose proof (floors_ok_frame _ _ Hf5) as HO5.
  destruct (ForkIndex.first_pin_below x t target) as [?|] eqn:Epin; [apply wpc_ret; auto|].
  assert (Ha : floor_allowed (files d) t target).
  { split; [lia|exists h; split; [done|lia]| |].
    - intros sn se [Hin Hse]. apply Hsn in Hin. rewrite List.Forall_forall in Echk. specialize (Echk sn Hin).
      unfold Retention.check_snapshot_pin in Echk. rewrite Hse in Echk. destruct (_ <? _) eqn:E; [done|]. by bool_prop.
    - intros fk pin. by eapply first_pin_below_none. }
  apply wpc_bind. apply wpc_now_call; [auto|exact HO5| |auto]. cbv zeta.
  set (floor := seal _). assert (Hput : floors_ok d (put_file (retention_path t) (ORetention floor) true (ticked d5))).
  { by apply floors_ok_put. }
  apply wpc_bind. apply wpc_put; [exact HO5|exact Hput| |auto].
  apply wpc_bind. apply wpc_sync_objects; [exact Hput|exact Hput| |auto].
  apply wpc_ret; [exact Hput|]. split; [exact Hput|]. intros fl [= <-]. split; [|exact Ha].
  change (floor_at (files (put_file (retention_path t) (ORetention floor) true (ticked d5))) t = target).
  unfold floor_at. by rewrite files_put_eq.
Qed.

(** C34 At no moment of [set_retention], whichever calls fail, is a table's floor on disk
    anything but the one it had or one that does not decrease it, does not pass HEAD and
    is below no version a snapshot or a fork pins; on success it is that one.  This is where
    the stored fork index is honest ([index_honest]): it may miss forks and name dropped ones,
    but an entry whose object is there with the recorded size describes it.  A fork dropped and
    recreated under its name at the same size leaves an index that is not
    ([recreated_fork_loses_its_pin]), and then the floor passes that fork's pin.  Forks are
    stored at the paths of their names, and the hash of names has no collision. *)
Theorem retention_respects_pins fs db name cut note d :
  Inj (=) (=) hash_name -> forks_in_place (files d) -> index_honest (files d) ->
  Forall (floors_ok d) (states fs (Retention.set_retention db name cut note) d) /\
  match run fs (Retention.set_retention db name cut note) d with
  | (Ok floor, d') =>
      floor_at (files d') (rf_table_id floor) = rf_min_retained_sequence floor /\
      floor_allowed (files d) (rf_table_id floor) (rf_min_retained_sequence floor)
  | (Err _, d') => floors_ok d d'
  end.
Proof.
  intros Hinj Hip Hho. pose proof (wpc_set_retention true db name cut note d Hinj Hip Hho) as Hw. split.
  - by eapply wpc_states.
  - pose proof (wpc_run true _ _ _ _ fs Hw ltac:(done)) as [H1 H2].
    destruct (run fs _ d) as [[floor|e] d']; [by apply H2|done].
Qed.

(** ** Incremental reads *)

(** What the appends of a table do: each adds segments marked with its own sequence, on top
    of segments no newer than where the range starts. *)
Record appends (ms : Z -> VersionManifest) (from to : Z) : Prop := {
  ap_step : forall s, from < s <= to -> Retention.is_append (mf_op (ms s)) = true ->
    exists new, mf_segments (ms s) = mf_segments (ms (s - 1)) ++ new /\
      Forall (fun g => sg_created_by_sequence g = s) new;
  ap_start : Forall (fun g => sg_created_by_sequence g <= from) (mf_segments (ms from));
}.

Lemma in_range_after from to s : In s (Retention.range_after from to) <-> from < s <= to.
Proof.
  unfold Retention.range_after. rewrite in_map_iff. split.
  - intros (i & <- & Hi). apply in_seq in Hi. lia.
  - intros Hs. exists (Z.to_nat (s - from - 1)). split; [lia|]. apply in_seq. lia.
Qed.

Lemma appended_suffix ms from (n : nat) :
  appends ms from (from + Z.of_nat n) ->
  (forall s, from < s <= from + Z.of_nat n -> Retention.is_append (mf_op (ms s)) = true) ->
  exists added, mf_segments (ms (from + Z.of_nat n)) = mf_segments (ms from) ++ added /\
    Forall (fun g => from < sg_created_by_sequence g <= from + Z.of_nat n) added.
Proof.
  induction n as [|n IH]; intros [Hstep Hstart] Hop.
  - exists []. rewrite Z.add_0_r, app_nil_r. by repeat constructor.
  - destruct IH as (added & E & Hadded); [split; [intros s ?; apply Hstep; lia|done]|intros s ?; apply Hop; lia|].
    destruct (Hstep (from + Z.of_nat (S n))) as (new & E' & Hnew); [lia|apply Hop; lia|].
    exists (added ++ new). rewrite E'. replace (from + Z.of_nat (S n) - 1) with (from + Z.of_nat n) by lia.
    rewrite E, app_assoc. split; [done|]. apply Forall_app. split.
    + eapply Forall_impl; [exact Hadded|]. cbn. lia.
    + eapply Forall_impl; [exact Hnew|]. cbn. lia.
Qed.

Lemma added_in_suffix from to old added :
  Forall (fun g => sg_created_by_sequence g <= from) old ->
  Forall (fun g => from < sg_created_by_sequence g <= to) added ->
  Retention.added_in from to (old ++ added) = added.
Proof.
  intros Ho Ha. unfold Retention.added_in. rewrite List.filter_app.
  replace (List.filter _ old) with (@nil SegmentMeta); [cbn|].
  - induction Ha as [|g l Hg Hl IH]; cbn; [done|]. rewrite IH.
    by rewrite (proj2 (Z.ltb_lt _ _)), (proj2 (Z.leb_le _ _)) by lia.
  - induction Ho as [|g l Hg Hl IH]; cbn; [done|]. rewrite <- IH.
    by rewrite (proj2 (Z.ltb_ge _ _)) by lia.
Qed.

(** A diff of the range [(from, to]]: all of it appends, and what they added. *)
Definition describes_range m (from to : Z) (v : VersionDiff) : Prop :=
  exists t, forall ms, (forall s, from <= s <= to -> stored m t s (ms s)) -> appends ms from to ->
    (forall s, from < s <= to -> Retention.is_append (mf_op (ms s)) = true) /\
    mf_segments (ms to) = mf_segments (ms from) ++ vd_added_segments v /\
    vd_added_rows v = sum_u64 (map sg_rows (vd_added_segments v)).

(** An incremental read returns exactly what the range appended: when it succeeds every version
    of the range is an append, and the segments of the last version are those of the first
    followed by the ones returned. *)
Theorem diff_is_what_was_appended fs db name from to d :
  match (run fs (Retention.diff db name from to) d).1 with
  | Ok v => describes_range (files d) from to v
  | Err _ => True
  end.
Proof.
  apply (finds_run fs (Retention.diff db name from to) d (describes_range (files d) from to)).
  unfold Retention.diff. destruct (to <? from) eqn:Erange; [done|]. bool_prop.
  eapply finds_bind; [apply finds_resolve|]. intros r (_ & (s & Hs & Hst) & _). cbn in Hs. destruct Hs as [-> _].
  set (t := ce_table_id (rt_entry r)) in *.
  eapply finds_bind; [apply (finds_each _ _ (fun q => exists mf, stored (files d) t q mf /\ Retention.is_append (mf_op mf) = true))|].
  { intros q _. eapply finds_bind; [apply finds_manifest_at|]. intros mf Hmf.
    destruct (Retention.is_append (mf_op mf)) eqn:E; [|done]. apply finds_ret. by exists mf. }
  intros u Hall. cbv beta in Hall. rewrite List.Forall_forall in Hall. apply finds_ret. exists t. intros ms Hms Happ.
  assert (Hfun : forall q a b, stored (files d) t q a -> stored (files d) t q b -> a = b).
  { intros q a b (f & Hf & Ha) (f' & Hf' & Hb). congruence. }
  assert (Hops : forall q, from < q <= to -> Retention.is_append (mf_op (ms q)) = true).
  { intros q Hq. destruct (Hall q) as (mf & Hmf & E); [by apply in_range_after|].
    by rewrite (Hfun q (ms q) mf) by (auto; apply Hms; lia). }
  assert (Eto : rt_manifest r = ms to) by (apply (Hfun to); [done|apply Hms; lia]).
  destruct (appended_suffix ms from (Z.to_nat (to - from))) as (added & E & Hadded).
  { by replace (from + Z.of_nat (Z.to_nat (to - from))) with to by lia. }
  { intros q Hq. apply Hops. lia. }
  replace (from + Z.of_nat (Z.to_nat (to - from))) with to in * by lia.
  cbn [vd_added_segments vd_added_rows]. rewrite Eto, E.
  rewrite added_in_suffix by (done || apply (ap_start _ _ _ Happ)). done.
Qed.
End RetentionProps.
