(* ===== verification/VacuumProps.v ===== *)
(** * Vacuum deletes only what nothing needs

    Which objects of the database are needed, and that [vacuum] leaves them alone at every
    moment, whichever calls fail. *)
From S2P Require Export RetentionProps.

Section VacuumProps.
Context `{Env}.
Implicit Types (m : gmap Path File) (d : Disk) (db : Database).

(** ** What is needed *)
Definition cataloged m (t : Uuid) : Prop :=
  exists e p f, In (p, f) (listed m CATALOG_PREFIX) /\ fl_obj f = OCatalog e /\ ce_table_id e = t.

(** The retained versions of a table and their segments. *)
Definition retained_path m (t : Uuid) (p : Path) : Prop :=
  exists h s mf, head_at m t h /\ floor_at m t <= s <= hd_sequence h /\ 0 <= s <= u64_max /\ stored m t s mf /\
    (p = manifest_path t s \/ (In p (Vacuum.segment_paths mf) /\ exists u, p = segment_path t u)).

(** What an unexpired lease or plan protects, with the lease or plan. *)
Definition leased_path m (t : Uuid) (p : Path) : Prop :=
  exists w f l, m !! staging_lease_path t w = Some f /\ fl_obj f = OLease l /\
    (forall k, Vacuum.lease_is_expired l (wall k) = false) /\
    (p = staging_lease_path t w \/ (In p (sl_segment_paths l) /\ exists u, p = segment_path t u)).
Definition planned_path m (t : Uuid) (p : Path) : Prop :=
  exists w f pl, m !! plan_path t w = Some f /\ fl_obj f = OPlan pl /\
    (forall k, Commit.plan_is_expired pl (wall k) = false) /\
    (p = plan_path t w \/ (In p (map sg_path (pl_segments pl)) /\ exists u, p = segment_path t u)).
Definition metadata_path (t : Uuid) (p : Path) : Prop :=
  p = head_path t \/ p = retention_path t \/ exists n, p = spec_path t n.

Definition needed m (t : Uuid) (p : Path) : Prop :=
  retained_path m t p \/ leased_path m t p \/ planned_path m t p \/ metadata_path t p.

(** A table nothing in the catalog names, but a snapshot or a fork holds. *)
Definition held m (t : Uuid) : Prop :=
  (exists sn se, snapshot_pins m t sn se) \/ (exists fk pin, pinned_by m t fk pin) \/
  (exists fk f p g fe, m !! fork_path (fk_name fk) = Some f /\ fl_obj f = OFork fk /\
     p = fork_catalog_entry_path (fk_name fk) (fe_name fe) /\ m !! p = Some g /\ fl_obj g = OForkEntry fe /\
     fe_table_id fe = t).

Definition in_table (t : Uuid) (p : Path) : Prop := exists x rest, p = "tables" :: t :: x :: rest.

(** What a vacuum must leave alone: everything outside the table directories, what a
    cataloged table needs, and all of a table that is held. *)
Definition kept m (p : Path) : Prop :=
  (forall rest, p <> "tables" :: rest) \/
  exists t, in_table t p /\ ((cataloged m t /\ needed m t p) \/ (~ cataloged m t /\ held m t)).

Definition proper_ids m : Prop := forall t, cataloged m t -> t <> "segments" /\ t <> "manifests".

Definition agree (K : Path -> Prop) d0 d : Prop :=
  forall p, K p -> files d !! p = files d0 !! p /\
    (pending d !! p = pending d0 !! p \/ pending d !! p = None).

Lemma agree_refl K d : agree K d d.
Proof. intros p _. auto. Qed.
Lemma agree_trans K d0 d1 d2 : agree K d0 d1 -> agree K d1 d2 -> agree K d0 d2.
Proof.
  intros H1 H2 p Hp. destruct (H1 p Hp) as [E1 P1], (H2 p Hp) as [E2 P2]. split; [congruence|].
  destruct P2 as [P2|P2]; [|auto]. rewrite P2. exact P1.
Qed.
Lemma agree_same K d0 d : same_files d0 d -> agree K d0 d.
Proof. intros [E P] p _. rewrite E, P. auto. Qed.
Lemma agree_frame (K : Path -> Prop) ps d0 d : (forall p, K p -> p ∉ ps) -> frame ps d0 d -> agree K d0 d.
Proof. intros HK Hf p Hp. by apply Hf, HK. Qed.

Lemma wpc_delete_many ft ps d0 d (K : Path -> Prop) :
  (forall p, In p ps -> ~ K p) -> agree K d0 d ->
  wpc ft (Backend.delete_many ps) d (fun _ => agree K d0) (agree K d0).
Proof.
  intros Hps Hag. apply wpc_for_each; [|done]. intros q d' Hq Hd'.
  assert (Hdel : agree K d0 (effect (Delete q) d').2).
  { cbn. destruct (files d' !! q) eqn:E; [|done]. intros p Hp. assert (p <> q) by (intros ->; by eapply Hps).
    rewrite files_del_ne, pending_del_ne by done. by apply Hd'. }
  unfold Backend.delete. apply wpc_call; [done|exact Hdel|exact Hdel|intros _; split; [exact Hd'|exact Hdel]].
Qed.

(** ** Paths *)
Lemma listed_in_table m t p f : In (p, f) (listed m (table_prefix t)) -> in_table t p.
Proof. intros (y & rest & ->)%listed_shape. by exists y, rest. Qed.

Lemma in_table_inj t t' p : in_table t p -> in_table t' p -> t = t'.
Proof. intros (x & rest & ->) (y & rest' & E). by injection E as ->. Qed.

(** ** What a table's vacuum reads *)
Lemma finds_manifest_paths m t floor head :
  finds m (Vacuum.manifest_paths t floor head) (fun l =>
    forall s mf, floor <= s <= head -> stored m t s mf -> forall p, In p (Vacuum.segment_paths mf) -> In p l).
Proof.
  unfold Vacuum.manifest_paths.
  eapply finds_mono; [|apply (finds_fold _ _ (fun acc rest => forall s mf, floor <= s <= head -> ~ In s rest ->
    stored m t s mf -> forall p, In p (Vacuum.segment_paths mf) -> In p acc))].
  - intros l Hl s mf Hs Hst p Hp. exact (Hl s mf Hs (fun x => x) Hst p Hp).
  - intros acc s rest Hacc. eapply finds_bind; [apply finds_manifest_at|]. intros mf Hmf. apply finds_ret.
    intros s' mf' Hs' Hni Hst p Hp. apply in_app_iff. destruct (Z.eq_dec s s') as [->|Hne].
    + right. destruct Hmf as (f & Hf & Ho), Hst as (f' & Hf' & Ho'). congruence.
    + left. eapply Hacc; [done| |done|done]. intros [->|?]; done.
  - intros s mf Hs Hni. destruct Hni. unfold Vacuum.retained. apply in_map_iff.
    exists (Z.to_nat (s - floor)). split; [lia|]. apply in_seq. lia.
Qed.

Lemma finds_clock m (R : Z -> Prop) : (forall k, R (wall k)) -> finds m (call Now) R.
Proof. intros HR. apply finds_call; [done|]. intros d _. apply HR. Qed.

(** A loop that collects what unexpired objects of a listing protect. *)
Lemma finds_plans m t :
  finds m (Vacuum.plan_protected_paths t) (fun l => forall q f pl, In (q, f) (listed m (plan_prefix t)) ->
    fl_obj f = OPlan pl -> (forall k, Commit.plan_is_expired pl (wall k) = false) ->
    forall p, In p (map sg_path (pl_segments pl)) -> In p l).
Proof.
  unfold Vacuum.plan_protected_paths.
  eapply finds_bind; [by apply (finds_list _ _ (eq (listed m (plan_prefix t))))|]. intros metas <-.
  set (L := listed m (plan_prefix t)). assert (HL : forall q f, In (q, f) L -> m !! q = Some f) by by intros q f (? & _)%in_listed.
  eapply finds_mono; [|apply (finds_fold _ _ (fun acc rest => (forall x, In x rest -> In x L) /\
    forall q f pl, In (q, f) L -> ~ In (q, f) rest ->
    fl_obj f = OPlan pl -> (forall k, Commit.plan_is_expired pl (wall k) = false) ->
    forall p, In p (map sg_path (pl_segments pl)) -> In p acc))].
  - intros l [_ Hl] q f pl Hq. exact (Hl q f pl Hq (fun x => x)).
  - intros acc [q f] rest [Hr Hacc]. cbn [fst].
    eapply finds_bind; [apply (finds_get _ _ (eq (fl_obj f)))|].
    { intros f' Hf'. rewrite (HL q f) in Hf' by (apply Hr; by left). by injection Hf' as <-. }
    intros o <-. eapply finds_bind; [apply (finds_lift _ _ (fun pl => fl_obj f = OPlan pl))|].
    { intros pl. unfold Vacuum.parse_plan. destruct (fl_obj f); try done. destruct (verify _ _ _); cbn; congruence. }
    intros pl Hpl. eapply finds_bind; [by apply (finds_clock _ (fun z => exists k, z = wall k)); eauto|]. intros z [k ->].
    apply finds_ret. split; [intros x ?; apply Hr; by right|]. intros q' f' pl' Hin Hni Ho Hexp p Hp.
    destruct (decide ((q', f') = (q, f))) as [[= -> ->]|Hne].
    + rewrite Hpl in Ho. injection Ho as ->. rewrite Hexp. apply in_app_iff. by right.
    + assert (In p acc) by (eapply (Hacc q' f'); eauto; by intros [?|?]).
      destruct (Commit.plan_is_expired pl (wall k)); [done|]. apply in_app_iff. by left.
  - split; [done|]. by intros q f pl Hq [].
Qed.

Lemma finds_leases m t :
  finds m (Vacuum.lease_paths t) (fun r =>
    (forall q f l, In (q, f) (listed m (staging_prefix t)) -> fl_obj f = OLease l ->
      (forall k, Vacuum.lease_is_expired l (wall k) = false) ->
      (forall p, In p (sl_segment_paths l) -> In p r.1) /\ ~ In q r.2) /\
    (forall q, In q r.2 -> exists f, In (q, f) (listed m (staging_prefix t)))).
Proof.
  unfold Vacuum.lease_paths.
  eapply finds_bind; [by apply (finds_list _ _ (eq (listed m (staging_prefix t))))|]. intros metas <-.
  set (L := listed m (staging_prefix t)). assert (HL : forall q f, In (q, f) L -> m !! q = Some f) by by intros q f (? & _)%in_listed.
  eapply finds_mono; [|apply (finds_fold _ _ (fun acc rest => (forall x, In x rest -> In x L) /\
    (forall q f l, In (q, f) L -> fl_obj f = OLease l ->
      (forall k, Vacuum.lease_is_expired l (wall k) = false) ->
      (~ In (q, f) rest -> forall p, In p (sl_segment_paths l) -> In p acc.1) /\ ~ In q acc.2) /\
    (forall q, In q acc.2 -> exists f, In (q, f) L)))].
  - intros r (_ & Hl & He). split; [|done]. intros q f l Hq Ho Hx. destruct (Hl q f l Hq Ho Hx) as [H1 H2]. auto.
  - intros [leased expired] [q f] rest (Hr & Hacc & He). cbn [fst snd] in *.
    assert (Hqf : In (q, f) L) by (apply Hr; by left).
    eapply finds_bind; [apply (finds_get _ _ (eq (fl_obj f)))|].
    { intros f' Hf'. rewrite (HL q f) in Hf' by done. by injection Hf' as <-. }
    intros o <-. destruct (fl_obj f) eqn:Eo; try done.
    eapply finds_bind; [by apply (finds_clock _ (fun z => exists k, z = wall k)); eauto|]. intros z [k ->].
    apply finds_ret. split; [intros x ?; apply Hr; by right|]. split.
    + intros q' f' l' Hin Ho Hexp. destruct (Hacc q' f' l' Hin Ho Hexp) as [H1 H2].
      destruct (decide (q' = q)) as [->|Hne].
      * assert (f' = f) as -> by (apply HL in Hin, Hqf; congruence). rewrite Eo in Ho. injection Ho as ->.
        rewrite Hexp. cbn. split; [|done]. intros _ p Hp. apply in_app_iff. by right.
      * assert (forall p, ~ In (q', f') rest -> In p (sl_segment_paths l') -> In p leased).
        { intros p Hni. apply H1. by intros [[= <- <-]|?]. }
        destruct (Vacuum.lease_is_expired l (wall k)); cbn; (split; [|]).
        -- auto.
        -- intros [?|[<-|[]]]%in_app_iff; done.
        -- intros ? p ?. apply in_app_iff. auto.
        -- done.
    + intros q'. destruct (Vacuum.lease_is_expired l (wall k)); cbn; [|apply He].
      intros [?|[<-|[]]]%in_app_iff; [by apply He|by exists f].
  - split; [done|]. split; [|by intros []]. intros q f l Hq Ho Hx. split; [by intros []|intros []].
Qed.

(** ** Debris *)
Lemma inner_part_three x a t b : Vacuum.inner_part x [a; t; b] = String.eqb x t || false.
Proof. done. Qed.
Lemma inner_part_four x a t b c : Vacuum.inner_part x [a; t; b; c] = String.eqb x t || (String.eqb x b || false).
Proof. done. Qed.

Lemma lease_listed m t w f : m !! staging_lease_path t w = Some f -> In (staging_lease_path t w, f) (listed m (staging_prefix t)).
Proof. intros Hf. apply in_listed. split; [done|]. split; [by apply is_prefix_app; eexists|done]. Qed.
Lemma plan_listed m t w f : m !! plan_path t w = Some f -> In (plan_path t w, f) (listed m (plan_prefix t)).
Proof. intros Hf. apply in_listed. split; [done|]. split; [by apply is_prefix_app; eexists|done]. Qed.

(** The lists a table's vacuum compares with. *)
Record references m (t : Uuid) (floor head : Z) (referenced expired : list Path) : Prop := {
  rf_floor : floor = floor_at m t;
  rf_head : exists h, head_at m t h /\ head = hd_sequence h;
  rf_committed : forall s mf p, floor <= s <= head -> stored m t s mf -> In p (Vacuum.segment_paths mf) -> In p referenced;
  rf_planned : forall q f pl p, In (q, f) (listed m (plan_prefix t)) -> fl_obj f = OPlan pl ->
    (forall k, Commit.plan_is_expired pl (wall k) = false) -> In p (map sg_path (pl_segments pl)) -> In p referenced;
  rf_leased : forall q f l, In (q, f) (listed m (staging_prefix t)) -> fl_obj f = OLease l ->
    (forall k, Vacuum.lease_is_expired l (wall k) = false) ->
    (forall p, In p (sl_segment_paths l) -> In p referenced) /\ ~ In q expired;
  rf_expired : forall q, In q expired -> exists f, In (q, f) (listed m (staging_prefix t));
}.

Lemma not_expired m t floor head referenced expired x rest :
  references m t floor head referenced expired -> x <> "staging" -> ~ In ("tables" :: t :: x :: rest) expired.
Proof.
  intros Hr Hx Hin. destruct (rf_expired _ _ _ _ _ _ Hr _ Hin) as [f Hf].
  apply listed_shape in Hf as (y & r & E). by injection E.
Qed.

Lemma referenced_segment_kept t u referenced expired floor head :
  t <> "segments" -> t <> "manifests" ->
  In (segment_path t u) referenced -> ~ In (segment_path t u) expired ->
  Vacuum.is_debris referenced expired floor head (segment_path t u) = false.
Proof.
  intros H1 H2 Hin Hni. unfold Vacuum.is_debris, segment_path. rewrite !inner_part_four.
  rewrite (bool_decide_true (_ ∈ referenced)) by (by apply list_elem_of_In).
  rewrite (bool_decide_false (_ ∈ expired)) by (by rewrite list_elem_of_In).
  rewrite (proj2 (String.eqb_neq "manifests" t)) by congruence. cbn. by rewrite !andb_false_r.
Qed.

Lemma plain_kept t x rest referenced expired floor head :
  Vacuum.inner_part "segments" ("tables" :: t :: x :: rest) = false ->
  Vacuum.inner_part "manifests" ("tables" :: t :: x :: rest) = false ->
  ~ In ("tables" :: t :: x :: rest) expired ->
  Vacuum.is_debris referenced expired floor head ("tables" :: t :: x :: rest) = false.
Proof.
  intros H1 H2 Hni. unfold Vacuum.is_debris. rewrite H1, H2.
  by rewrite (bool_decide_false (_ ∈ expired)) by (by rewrite list_elem_of_In).
Qed.

Lemma needed_is_not_debris m t floor head referenced expired p :
  t <> "segments" -> t <> "manifests" -> references m t floor head referenced expired -> needed m t p ->
  Vacuum.is_debris referenced expired floor head p = false.
Proof.
  intros H1 H2 Hr Hn.
  assert (N1 : String.eqb "segments" t = false) by by apply String.eqb_neq.
  assert (N2 : String.eqb "manifests" t = false) by by apply String.eqb_neq.
  assert (Hseg : forall u, In (segment_path t u) referenced ->
    Vacuum.is_debris referenced expired floor head (segment_path t u) = false).
  { intros u Hin. apply referenced_segment_kept; try done. by eapply not_expired. }
  destruct Hn as [Hn|[Hn|[Hn|Hn]]].
  - destruct Hn as (h & s & mf & Hh & Hs & Hb & Hst & Hp).
    rewrite <- (rf_floor _ _ _ _ _ _ Hr) in Hs.
    assert (head = hd_sequence h) as Eh.
    { destruct (rf_head _ _ _ _ _ _ Hr) as (h' & (f & Hf & Ho) & ->). destruct Hh as (f' & Hf' & Ho'). congruence. }
    destruct Hp as [->|[Hp [u ->]]]; [|apply Hseg; eapply rf_committed; eauto; lia].
    unfold Vacuum.is_debris. rewrite (parse_manifest_path t s) by done.
    rewrite (proj2 (Z.ltb_ge _ _)), (proj2 (Z.ltb_ge _ _)) by lia.
    rewrite (bool_decide_false (_ ∈ expired)) by (rewrite list_elem_of_In; by eapply not_expired).
    unfold manifest_path. rewrite inner_part_four, N1. by rewrite !andb_false_r.
  - destruct Hn as (w & f & l & Hq%lease_listed & Ho & Hx & Hp).
    destruct (rf_leased _ _ _ _ _ _ Hr _ f l Hq Ho Hx) as [L1 L2].
    destruct Hp as [->|[Hp [u ->]]]; [|by apply Hseg, L1].
    unfold staging_lease_path in *. apply plain_kept; [by rewrite inner_part_four, N1|by rewrite inner_part_four, N2|done].
  - destruct Hn as (w & f & pl & Hq%plan_listed & Ho & Hx & Hp).
    destruct Hp as [->|[Hp [u ->]]]; [|apply Hseg; by eapply rf_planned].
    unfold plan_path in *. apply plain_kept; [by rewrite inner_part_four, N1|by rewrite inner_part_four, N2|].
    by eapply not_expired.
  - destruct Hn as [->|[->|[n ->]]]; unfold head_path, retention_path, spec_path;
      (apply plain_kept; [by rewrite ?inner_part_three, ?inner_part_four, N1|by rewrite ?inner_part_three, ?inner_part_four, N2|]);
      by eapply not_expired.
Qed.

(** ** One table *)
Lemma needed_in_table m t p : needed m t p -> in_table t p.
Proof.
  intros [(h & s & mf & _ & _ & _ & _ & [->|[_ [u ->]]])|[(w & f & l & _ & _ & _ & [->|[_ [u ->]]])|
    [(w & f & l & _ & _ & _ & [->|[_ [u ->]]])|[->|[->|[n ->]]]]]]; by eexists _, _.
Qed.

Lemma needed_kept m t p : cataloged m t -> needed m t p -> kept m p.
Proof. intros Hc Hn. right. exists t. split; [by eapply needed_in_table|by left]. Qed.

Lemma needed_stable d0 d t p :
  agree (kept (files d0)) d0 d -> cataloged (files d0) t -> needed (files d0) t p -> needed (files d) t p.
Proof.
  intros Hag Hc Hn. set (m := files d0) in *.
  assert (Hsame : forall q, needed m t q -> files d !! q = m !! q) by (intros q Hq; by apply Hag, (needed_kept m t)).
  assert (Hhead : files d !! head_path t = m !! head_path t) by (apply Hsame; right; right; right; by left).
  assert (Hfloor : floor_at (files d) t = floor_at m t).
  { apply floor_at_same, Hsame. right; right; right. right. by left. }
  destruct Hn as [Hn|[Hn|[Hn|Hn]]].
  - left. destruct Hn as (h & s & mf & Hh & Hs & Hb & Hst & Hp). exists h, s, mf.
    unfold head_at, stored. rewrite Hhead, Hfloor, (Hsame (manifest_path t s)); [done|].
    left. exists h, s, mf. split_ands; auto; lia.
  - right; left. destruct Hn as (w & f & l & Hq & Ho & Hx & Hp). exists w, f, l.
    rewrite (Hsame (staging_lease_path t w)); [done|]. right; left. exists w, f, l. auto.
  - right; right; left. destruct Hn as (w & f & l & Hq & Ho & Hx & Hp). exists w, f, l.
    rewrite (Hsame (plan_path t w)); [done|]. right; right; left. exists w, f, l. auto.
  - by right; right; right.
Qed.

Lemma wpc_vacuum_table ft now grace apply report e d0 d :
  let K := kept (files d0) in
  proper_ids (files d0) -> cataloged (files d0) (ce_table_id e) -> agree K d0 d ->
  wpc ft (Vacuum.vacuum_table now grace apply report e) d (fun _ => agree K d0) (agree K d0).
Proof.
  intros K Hid Hc Hag. unfold Vacuum.vacuum_table. set (t := ce_table_id e) in *.
  assert (HC : forall d', same_files d d' -> agree K d0 d') by (intros; eapply agree_trans, agree_same; done).
  assert (HE : forall (e : StoreError) d', same_files d d' -> agree K d0 d') by auto.
  eapply (finds_step _ d); [apply finds_head|done|auto..|]. intros h d1 H1 [Hh _].
  eapply (finds_step _ d); [apply finds_min_seq|auto..|]. intros floor d2 H2 ->.
  eapply (finds_step _ d); [apply finds_manifest_paths|auto..|]. intros committed d3 H3 Hcm.
  eapply (finds_step _ d); [apply finds_plans|auto..|]. intros planned d4 H4 Hpl.
  eapply (finds_step _ d); [apply finds_leases|auto..|]. intros [leased expired] d5 H5 [Hl1 Hl2]. cbn [fst snd] in *.
  eapply (finds_step _ d); [by apply (finds_list _ _ (eq (listed (files d) (table_prefix t))))|auto..|].
  intros objects d6 H6 <-.
  set (referenced := committed ++ planned ++ leased).
  assert (Hr : references (files d) t (floor_at (files d) t) (hd_sequence (hs_head h)) referenced expired).
  { unfold referenced. split; [done|by exists (hs_head h)|..].
    - intros s mf p Hs Hst Hp. apply in_app_iff. left. by eapply Hcm.
    - intros q f pl p Hq Ho Hx Hp. apply in_app_iff. right. apply in_app_iff. left. by eapply Hpl.
    - intros q f l Hq Ho Hx. destruct (Hl1 q f l Hq Ho Hx) as [L1 L2]. split; [|done].
      intros p Hp. apply in_app_iff. right. apply in_app_iff. right. auto.
    - done. }
  set (doomed := Vacuum.table_debris _ _ _ _ _ _ _).
  assert (Hno : forall p, In p (map fst doomed) -> ~ K p).
  { intros p Hin Hk. apply in_map_iff in Hin as ([q f] & <- & Hin). apply filter_In in Hin as [Hl Hd].
    apply andb_true_iff in Hd as [_ Hd]. cbn [fst] in *. pose proof (listed_in_table _ _ _ _ Hl) as Hit.
    destruct Hk as [Hk|(t' & Hit' & Hk)]; [destruct Hit as (x & rest & ->); by eapply Hk|].
    assert (t' = t) as -> by by eapply in_table_inj. destruct Hk as [[_ Hn]|[Hn _]]; [|done].
    destruct (Hid t Hc) as [N1 N2]. rewrite (needed_is_not_debris (files d) t) in Hd; [done..|].
    by eapply needed_stable. }
  apply wpc_bind. eapply wpc_mono with (Q := fun _ => agree K d0) (C := agree K d0); [|done|].
  { intros [u|er] d' Hd'; [by apply wpc_ret|by split]. }
  unfold Vacuum.delete_doomed. destruct apply; [|apply wpc_ret; auto]. apply wpc_delete_many; auto.
Qed.

(** ** Orphaned directories *)
Lemma by_table_right metas id l x :
  In (id, l) (Vacuum.by_table metas) -> In x l -> Vacuum.table_of x.1 = Some id /\ In x metas.
Proof.
  unfold Vacuum.by_table. set (P := fun i y => Vacuum.table_of y.1 = Some i /\ In y metas).
  assert (Hgen : forall ms acc, (forall a, In a ms -> In a metas) ->
    bwf acc -> (forall i k y, bget i acc = Some k -> In y k -> P i y) ->
    let acc' := fold_left (fun acc meta => match Vacuum.table_of meta.1 with
      | Some id => bentry [] (fun l => l ++ [meta]) id acc | None => acc end) ms acc in
    bwf acc' /\ forall i k y, bget i acc' = Some k -> In y k -> P i y).
  { induction ms as [|a ms IH]; intros acc Hm Hw Ha; cbn; [done|].
    destruct (Vacuum.table_of a.1) as [j|] eqn:E; [|apply IH; auto; intros b ?; apply Hm; by right].
    apply IH; [intros b ?; apply Hm; by right|by apply bwf_entry|].
    intros i k y. unfold bentry. rewrite bget_insert. destruct (keqb i j) eqn:Ei; [|apply Ha].
    apply keqb_eq in Ei as ->. intros [= <-] [Hin|[<-|[]]]%in_app_iff; [|split; [done|apply Hm; by left]].
    destruct (bget j acc) as [k|] eqn:Ek; [by eapply Ha|done]. }
  intros Hin Hx. destruct (Hgen metas [] ltac:(done) bwf_nil ltac:(done)) as [Hw Hr].
  eapply Hr; [|done]. by apply bwf_In_get.
Qed.

Lemma outside_same d0 d p : agree (kept (files d0)) d0 d -> (forall rest, p <> "tables" :: rest) -> files d !! p = files d0 !! p.
Proof. intros Hag Hp. apply Hag. by left. Qed.

Lemma under_not_tables pre p : is_prefix pre p = true -> (exists a pre', pre = a :: pre' /\ a <> "tables") ->
  forall rest, p <> "tables" :: rest.
Proof. intros [r ->]%is_prefix_app (a & pre' & -> & Ha) rest. by intros [= -> _]. Qed.

Lemma in_place_agree d0 d : agree (kept (files d0)) d0 d -> forks_in_place (files d0) -> forks_in_place (files d).
Proof.
  intros Hag [F1 F2]. split.
  - intros p f fk Hp Hf. apply F1; [done|]. rewrite <- Hf. symmetry. apply outside_same; [done|].
    eapply under_not_tables; [done|by eexists _, _].
  - intros p f fe Hp Hf Ho. eapply F2; [done| |done]. rewrite <- Hf. symmetry. apply outside_same; [done|].
    eapply under_not_tables; [done|by eexists _, _].
Qed.

Lemma honest_agree d0 d : agree (kept (files d0)) d0 d -> index_honest (files d0) -> index_honest (files d).
Proof.
  intros Hag Hh f x Hf Ho Hi. rewrite (outside_same _ _ _ Hag) in Hf by done.
  destruct (Hh f x Hf Ho Hi) as [H1 H2]. split.
  - intros name e g Hin Hg Hsz. rewrite (outside_same _ _ _ Hag) in Hg by done.
    destruct (H1 name e g Hin Hg Hsz) as (f' & fk & Hf' & ?). exists f', fk.
    by rewrite (outside_same _ _ _ Hag) by done.
  - intros name e tn it g Hin Hit Hg Hsz. rewrite (outside_same _ _ _ Hag) in Hg by done.
    destruct (H2 name e tn it g Hin Hit Hg Hsz) as (f' & fe & Hf' & ?). exists f', fe.
    by rewrite (outside_same _ _ _ Hag) by done.
Qed.

(** Every table someone holds is live for the sweep. *)
Lemma held_is_live m x snaps t :
  index_of m x -> all_of m SNAPSHOT_PREFIX OSnapshot snaps -> held m t ->
  In t (concat (map (fun snap => bkeys (sn_entries snap)) snaps) ++ elements (ForkIndex.pinned_table_ids x)
          ++ elements (ForkIndex.owned_table_ids x)).
Proof.
  intros Hx Hs Hh. rewrite !in_app_iff.
  assert (Hkey : forall V (b : BTree Uuid V) k v, bget k b = Some v -> In k (bkeys b)).
  { intros V b k v Hb. apply bget_In in Hb. by apply (in_map fst) in Hb. }
  destruct Hh as [(sn & se & Hin & Hse)|[(fk & pin & Hp)|(fk & f & p & g & fe & Hf & Hfk & -> & Hg & Hfe & <-)]].
  - left. apply in_concat. exists (bkeys (sn_entries sn)). split; [|by eapply Hkey].
    apply in_map_iff. exists sn. split; [done|by apply Hs].
  - right; left. destruct (index_pin _ _ _ _ _ Hx Hp) as (e & Hin & He).
    apply list_elem_of_In, elem_of_elements, elem_of_list_to_set, list_elem_of_In, in_concat.
    exists (bkeys (xf_pins e)). split; [|by eapply Hkey]. apply in_map_iff. by exists (fk_name fk, e).
  - right; right. destruct (io_pins _ _ Hx f fk Hf Hfk) as (e & Hin & He & _).
    destruct (io_owned _ _ Hx _ _ g fe e Hg Hfe He) as (it & Hit & <-).
    apply list_elem_of_In, elem_of_elements, elem_of_list_to_set, list_elem_of_In, in_concat.
    exists (map it_table_id (bvalues (xf_owned e))). split; [by apply in_map_iff; exists (fk_name fk, e)|].
    apply in_map, bget_In in Hit || (apply bget_In in Hit; apply (in_map snd) in Hit; by apply (in_map it_table_id) in Hit).
Qed.

Definition kept_files m (p : Path) : Prop := kept m p /\ p <> fork_index_path.

Lemma agree_weaken (K K' : Path -> Prop) d0 d : (forall p, K' p -> K p) -> agree K d0 d -> agree K' d0 d.
Proof. intros HK Hag p Hp. by apply Hag, HK. Qed.

Lemma held_agree d0 d t : agree (kept (files d0)) d0 d -> held (files d0) t -> held (files d) t.
Proof.
  intros Hag Hh. destruct Hh as [(sn & se & (p & f & Hl & Ho) & Hse)|[(fk & pin & f & Hf & Hfk & Hp)|Hh]].
  - left. exists sn, se. split; [|done]. exists p, f. split; [|done].
    pose proof (listed_shape _ _ _ _ Hl) as (y & r & ->). apply in_listed in Hl as (Hf & Hp & Hne). apply in_listed.
    split; [|done]. by rewrite (outside_same _ _ _ Hag).
  - right; left. exists fk, pin, f. by rewrite (outside_same _ _ _ Hag).
  - right; right. destruct Hh as (fk & f & p & g & fe & Hf & Hfk & -> & Hg & Hfe & E).
    exists fk, f, (fork_catalog_entry_path (fk_name fk) (fe_name fe)), g, fe. by rewrite !(outside_same _ _ _ Hag).
Qed.

Lemma in_table_of t p id : in_table t p -> Vacuum.table_of p = Some id -> id = t.
Proof. intros (x & rest & ->). cbn. destruct (is_uuid t); congruence. Qed.

(** What the sweep deletes belongs to no live table. *)
Lemma orphan_not_kept m m' now grace live dir p :
  (forall t, cataloged m t -> In t live) -> (forall t, held m t -> In t live) ->
  In dir (Vacuum.orphan_dirs now grace live (listed m' ["tables"])) -> In p (map fst dir.2) -> ~ kept m p.
Proof.
  intros Hc Hh Hdir Hp Hk. destruct dir as [id l]. apply filter_In in Hdir as [Hdir Hn].
  apply andb_true_iff in Hn as [Hn _]. apply negb_true_iff, bool_decide_eq_false in Hn. cbn [fst snd] in *.
  apply in_map_iff in Hp as ([q f] & <- & Hin). cbn [fst] in *.
  destruct (by_table_right _ _ _ _ Hdir Hin) as [Ht Hl]. cbn [fst] in Ht.
  destruct Hk as [Hk|(t & Hit & Hk)].
  - apply listed_shape in Hl as (y & r & ->). by eapply Hk.
  - pose proof (in_table_of _ _ _ Hit Ht) as ->. apply Hn, list_elem_of_In.
    destruct Hk as [[Hk _]|[_ Hk]]; auto.
Qed.

Lemma wpc_sweep ft db now grace apply cat report d0 d :
  let K := kept_files (files d0) in
  Inj (=) (=) hash_name -> forks_in_place (files d0) -> index_honest (files d0) ->
  (forall t, cataloged (files d0) t -> In t cat) -> agree (kept (files d0)) d0 d ->
  wpc ft (Vacuum.sweep_orphans db now grace apply cat report) d (fun _ => agree K d0) (agree K d0).
Proof.
  intros K Hinj Hip Hho Hcat Hag. unfold Vacuum.sweep_orphans.
  assert (HK : forall d', agree (kept (files d0)) d0 d' -> agree K d0 d') by (intros d'; apply agree_weaken; by intros p [? _]).
  assert (HC : forall d', same_files d d' -> agree K d0 d') by (intros; apply HK; eapply agree_trans, agree_same; done).
  eapply (finds_step _ d); [apply finds_snapshots|done|auto..|]. intros snaps d1 H1 Hsn. cbv zeta.
  assert (Hag1 : agree (kept (files d0)) d0 d1) by (eapply agree_trans, agree_same; done).
  assert (HF : forall d', frame [fork_index_path] d1 d' -> agree K d0 d').
  { intros d' Hf. eapply agree_trans; [by apply HK|]. eapply agree_frame; [|exact Hf].
    intros p [_ Hp]. by rewrite list_elem_of_singleton. }
  apply wpc_bind. apply wpc_refresh; [done|by eapply in_place_agree|by eapply honest_agree|auto|auto|].
  intros x d2 H2 Hx. apply HF in H2.
  set (live := cat ++ _).
  assert (Hlc : forall t, cataloged (files d0) t -> In t live) by (intros t ?; apply in_app_iff; auto).
  assert (Hlh : forall t, held (files d0) t -> In t live).
  { intros t Ht. apply in_app_iff. right. eapply held_is_live; [done| |by eapply held_agree].
    by rewrite (proj1 H1). }
  eapply (finds_step _ d2); [by apply (finds_list _ _ (eq (listed (files d2) ["tables"])))|done| | |].
  { intros d' ?. eapply agree_trans, agree_same; done. } { intros e d' ?. eapply agree_trans, agree_same; done. }
  intros metas d3 H3 <-. apply wpc_fold; [|eapply agree_trans, agree_same; done].
  intros r dir d' Hdir Hd'. apply wpc_bind.
  eapply wpc_mono with (Q := fun _ => agree K d0) (C := agree K d0); [|done|].
  { intros [u|er] d'' Hd''; [by apply wpc_ret|by split]. }
  unfold Vacuum.delete_doomed. destruct apply; [|apply wpc_ret; auto]. apply wpc_delete_many; [|done].
  intros p Hp [Hk _]. by eapply orphan_not_kept.
Qed.

(** ** The whole run *)
Lemma finds_base_entry m db name :
  db_fork db = None -> finds m (Database.entry db name) (fun e => cataloged m (ce_table_id e)).
Proof.
  intros Hb. unfold Database.entry, Database.entry_opt. rewrite Hb.
  apply finds_bind with (R := fun r => match r with Some e => cataloged m (ce_table_id e) | None => True end).
  - unfold Catalog.load_entry.
    eapply finds_bind; [by apply (finds_get_opt _ _ (eq (fl_obj <$> m !! catalog_entry_path name)))|]. intros o <-.
    destruct (m !! catalog_entry_path name) as [f|] eqn:Ef; [|done]. cbn [fmap option_fmap option_map].
    eapply finds_bind; [apply (finds_lift _ _ (fun e => fl_obj f = OCatalog e))|].
    { intros e. unfold Catalog.parse. destruct (fl_obj f); try done. destruct (verify _ _ _); cbn; congruence. }
    intros e He. destruct (String.eqb _ _); [|done]. apply finds_ret. exists e, (catalog_entry_path name), f.
    split; [|done]. apply in_listed. split; [done|]. split; [by apply is_prefix_app; eexists|done].
  - intros [e|] He; [done|]. eapply finds_bind; [apply finds_read_only, read_only_attempt, read_only_list_tables|done].
Qed.

Lemma finds_base_tables m db :
  db_fork db = None -> finds m (Database.list_tables db) (fun es => forall t, cataloged m t <-> In t (map ce_table_id es)).
Proof.
  intros Hb. unfold Database.list_tables. rewrite Hb. eapply finds_mono; [|apply finds_catalog].
  intros es Hes t. rewrite in_map_iff. split.
  - intros (e & p & f & Hl & Ho & <-). exists e. split; [done|]. apply Hes. eauto.
  - intros (e & <- & Hin). apply Hes in Hin as (p & f & ? & ?). by exists e, p, f.
Qed.

Lemma wpc_vacuum ft db table grace apply d :
  let K := kept_files (files d) in
  Inj (=) (=) hash_name -> forks_in_place (files d) -> index_honest (files d) -> proper_ids (files d) ->
  wpc ft (Vacuum.vacuum db table grace apply) d (fun _ => agree K d) (agree K d).
Proof.
  intros K Hinj Hip Hho Hid. unfold Vacuum.vacuum.
  assert (HC : forall d', same_files d d' -> agree K d d') by (intros; by apply agree_same).
  assert (H0 : agree K d d) by apply agree_refl.
  apply wpc_bind. unfold Database.ensure_writable. apply wpc_mono with (Q := fun _ d' => d' = d) (C := agree K d); [|done|].
  2: { destruct apply; [|by apply wpc_ret]. by destruct (db_read_only db); apply wpc_ret. }
  intros [u|e] d1 ->; [|done]. apply wpc_bind. unfold Database.ensure_base.
  destruct (db_fork db) eqn:Hb; [by apply wpc_ret|]. apply wpc_ret; [done|].
  eapply (finds_step _ d); [by apply finds_base_tables|done|auto..|]. intros es d1 H1 Hes.
  eapply (finds_step _ d _ _ (fun l => forall e, In e l -> cataloged (files d) (ce_table_id e))); [|done|auto..|].
  { destruct table as [name|]; [|apply finds_ret; intros e Hin; by apply Hes, in_map].
    eapply finds_bind; [by apply finds_base_entry|]. intros e He. apply finds_ret. by intros e' [<-|[]]. }
  intros entries d2 H2 Hentries.
  eapply (finds_step _ d _ _ (fun _ => True)); [by apply finds_call|done|auto..|]. intros now d3 H3 _.
  assert (HK : forall d', agree (kept (files d)) d d' -> agree K d d') by (intros d'; apply agree_weaken; by intros p [? _]).
  apply wpc_bind. eapply wpc_mono with (C := agree (kept (files d)) d); [|exact HK|apply wpc_fold].
  - intros [report|e] d4 H4; [|split; by apply HK]. destruct table; [apply wpc_ret; by apply HK|].
    apply wpc_sweep; try done. intros t Ht. by apply Hes.
  - intros r e d' Hin Hd'. by apply wpc_vacuum_table; [|apply Hentries|].
  - by apply agree_same.
Qed.

(** C5 Vacuum leaves every object the database needs alone: at no moment, whichever calls fail,
    is anything outside the table directories (but the derived fork index), a retained
    version or a segment of one, what an unexpired lease or plan protects, or an object of
    a table that a snapshot or a fork holds changed; and a power loss brings back what was
    flushed of it.  This is where the stored fork index is honest ([index_honest]): an entry
    whose fork or shadow still has an object of the recorded size describes it.  A fork dropped
    and recreated under its name at the same size leaves an index that is not
    ([recreated_fork_loses_its_pin]), and then vacuum deletes what that fork reads.  Forks are
    stored at the paths of their names, no table id is a word of the layout, and the
    hash of fork names has no collision. *)
Theorem vacuum_keeps_what_is_needed fs db table grace apply d :
  Inj (=) (=) hash_name -> forks_in_place (files d) -> index_honest (files d) -> proper_ids (files d) ->
  Forall (fun di => forall p, kept_files (files d) p -> files di !! p = files d !! p)
    (states fs (Vacuum.vacuum db table grace apply) d) /\
  forall d', crashes (Vacuum.vacuum db table grace apply) d d' ->
    forall p, kept_files (files d) p -> pending d !! p = None -> files d' !! p = files d !! p.
Proof.
  intros Hinj Hip Hho Hid. pose proof (wpc_vacuum true db table grace apply d Hinj Hip Hho Hid) as Hw. split.
  - eapply Forall_impl; [by eapply wpc_states|]. intros di Hag p Hp. by apply Hag.
  - intros d' Hcr p Hp Hpend. destruct (wpc_crash _ _ _ _ _ Hw Hcr) as (di & Hag & Hsv).
    destruct (Hag p Hp) as [<- Hpd]. apply (survives_stable di); [done|]. rewrite Hpend in Hpd. by destruct Hpd.
Qed.
End VacuumProps.
