(* ===== verification/History.v ===== *)
(** * The history of a table

    Commits keep every table's manifests a chain from its floor to HEAD; replays, restores
    and [verify] read that chain. *)
From S2P Require Export VacuumProps.

Section History.
Context `{Env}.
Implicit Types (m : gmap Path File) (d : Disk) (db : Database).

(** ** The chain *)

(** Every version from [lo] to HEAD is there, names its predecessor by sequence and
    checksum, and was committed no earlier than it; HEAD names the last one. *)
Record chain d (t : Uuid) (lo hi : Z) (ms : Z -> VersionManifest) : Prop := {
  ch_bounds : 0 <= lo <= hi;
  ch_stored : forall s, lo <= s <= hi -> manifest_stored d t s (ms s) /\ mf_sequence (ms s) = s /\
    mf_committed_at_ns (ms s) <= i64_max;
  ch_linked : forall s, lo < s <= hi ->
    mf_parent (ms s) = Some (s - 1) /\
    mf_parent_checksum (ms s) = Some (checksum_hex (OManifest (ms (s - 1)))) /\
    mf_committed_at_ns (ms (s - 1)) <= mf_committed_at_ns (ms s);
  ch_head : head_stored d t (Commit.head_of t (ms hi));
}.

Definition extend (ms : Z -> VersionManifest) (s : Z) (mf : VersionManifest) : Z -> VersionManifest :=
  fun q => if q =? s then mf else ms q.
Lemma extend_at ms s mf : extend ms s mf s = mf.
Proof. unfold extend. by rewrite Z.eqb_refl. Qed.
Lemma extend_below ms s mf q : q < s -> extend ms s mf q = ms q.
Proof. intros. unfold extend. by rewrite (proj2 (Z.eqb_neq q s)) by lia. Qed.

(** Time travel's hypothesis. *)
Lemma chain_ordered d t lo hi ms s s' :
  chain d t lo hi ms -> lo <= s -> s <= s' -> s' <= hi -> mf_committed_at_ns (ms s) <= mf_committed_at_ns (ms s').
Proof.
  intros Hc Hlo Hs Hhi. replace s' with (s + Z.of_nat (Z.to_nat (s' - s))) in * by lia.
  remember (Z.to_nat (s' - s)) as n. clear Heqn s' Hs. induction n as [|n IH]; [rewrite Z.add_0_r; lia|].
  destruct (ch_linked _ _ _ _ _ Hc (s + Z.of_nat (S n))) as (_ & _ & Hle); [lia|].
  replace (s + Z.of_nat (S n) - 1) with (s + Z.of_nat n) in Hle by lia. etransitivity; [apply IH; lia|done].
Qed.

Lemma chain_history d t lo hi ms : chain d t lo hi ms -> hi < 2 ^ 64 -> history d t lo hi ms.
Proof.
  intros Hc Hhi. split.
  - pose proof (ch_bounds _ _ _ _ _ Hc). lia.
  - intros s Hs. by apply (ch_stored _ _ _ _ _ Hc).
  - intros s s'. by apply (chain_ordered _ _ _ _ _ _ _ Hc).
Qed.

Lemma monotonic_after w p : p <= i64_max -> p <= monotonic_commit_ts w (Some p).
Proof. unfold monotonic_commit_ts, sat64. widths. lia. Qed.
Lemma monotonic_in w p : monotonic_commit_ts w p <= i64_max.
Proof.
  unfold monotonic_commit_ts, sat64. destruct (in_i64b w) eqn:E; [apply in_i64b_spec in E|]; destruct p; widths; lia.
Qed.

(** A disk that kept HEAD and the manifests kept the chain. *)
Lemma chain_kept d d' t lo hi ms :
  chain d t lo hi ms -> files d' !! head_path t = files d !! head_path t ->
  (forall s, lo <= s <= hi -> files d' !! manifest_path t s = files d !! manifest_path t s) -> chain d' t lo hi ms.
Proof.
  intros [Hb Hs Hl Hh] E1 E2. split; [done| |done|].
  - intros s Hls. destruct (Hs s Hls) as [(f & Hf & ?) ?]. split; [|done]. exists f. by rewrite E2.
  - destruct Hh as (f & Hf & ?). exists f. by rewrite E1.
Qed.

(** The child of the last version extends it. *)
Lemma chain_extended d d' t lo hi ms mf ts :
  chain d t lo hi ms -> mf_sequence mf = hi + 1 -> mf_format mf <= FORMAT_VERSION ->
  mf_parent mf = Some hi -> mf_parent_checksum mf = Some (checksum_hex (OManifest (ms hi))) ->
  mf_committed_at_ns mf = ts -> mf_committed_at_ns (ms hi) <= ts <= i64_max ->
  (forall s, lo <= s <= hi -> files d' !! manifest_path t s = files d !! manifest_path t s) ->
  swapped d d' t mf -> chain d' t lo (hi + 1) (extend ms (hi + 1) mf).
Proof.
  intros [Hb Hs Hl Hh] Hseq Hfmt Hp Hpc Hts Hle E (Hhead & Hman & _). split; [lia| | |].
  - intros s Hls. destruct (Z.eq_dec s (hi + 1)) as [->|Hne].
    + rewrite extend_at. split; [|rewrite Hts; split; [done|lia]]. destruct Hman as (f & Hf & Ho). rewrite Hseq in Hf. by exists f.
    + rewrite extend_below by lia. destruct (Hs s) as [(f & Hf & ?) ?]; [lia|]. split; [|done].
      exists f. by rewrite E by lia.
  - intros s Hls. destruct (Z.eq_dec s (hi + 1)) as [->|Hne].
    + rewrite extend_at, extend_below by lia. replace (hi + 1 - 1) with hi by lia. rewrite Hts. by destruct Hle.
    + rewrite !extend_below by lia. apply Hl. lia.
  - rewrite extend_at. destruct Hhead as (f & Hf & Ho). by exists f.
Qed.

(** A commit whose parent is no longer HEAD changes nothing. *)
Lemma wpc_commit_stale ft db name t p mf0 added known d h (Q : DbResult CommitResult -> Disk -> Prop) (C : Disk -> Prop) :
  head_stored d t h -> hs_tag p <> checksum_hex (OHead h) ->
  (forall d', same_files d d' -> C d') -> (forall e d', same_files d d' -> Q (Err e) d') ->
  wpc ft (Commit.commit_manifest_locked db name t (Some p) mf0 added known) d Q C.
Proof.
  intros Hh Htag HC HE. unfold Commit.commit_manifest_locked.
  eapply (finds_step _ d); [apply finds_read_only, read_only_segment_limit|done|auto..|]. intros limit d1 H1 _.
  destruct (limit <? _); [apply wpc_ret; auto|].
  eapply (finds_step _ d); [apply finds_read_only, read_only_parent_time|auto..|]. intros pt d2 H2 _.
  eapply (finds_step _ d _ _ (fun _ => True)); [by apply finds_call|auto..|]. intros w d3 H3 _. cbv zeta.
  apply wpc_bind. apply wpc_hook; [auto| |].
  2: { destruct (db_commit_hook db); [right; intros e; split; auto|by left]. }
  unfold LocalHeadStore.commit. apply wpc_bind.
  eapply (finds_step _ d _ _ (fun _ => True)); [by apply finds_call|auto|auto|split; auto|]. intros u d4 H4 _.
  eapply (finds_step _ d _ _ (head_read (files d) t)); [apply finds_read|auto|auto|split; auto|].
  intros cur d5 H5 Hcur. apply wpc_bind. apply wpc_lift; [auto|].
  unfold LocalHeadStore.check_expected. rewrite bool_decide_false; [split; auto|].
  destruct Hh as (f & Hf & Ho & _), cur as [s|]; cbn in Hcur; [|congruence].
  destruct Hcur as [(f' & Hf' & Ho') Ht]. cbn. rewrite Ht. intros [= E]. apply Htag.
  rewrite Hf in Hf'. injection Hf' as <-. congruence.
Qed.

(** The time a commit takes from its parent. *)
Lemma wpc_parent_time ft t h known d d1 lo hi ms :
  chain d t lo hi ms -> hd_sequence (hs_head h) = hi ->
  (ci_parent_committed_at_ns known = None \/ ci_parent_committed_at_ns known = Some (mf_committed_at_ns (ms hi))) ->
  same_files d d1 ->
  wpc ft (Commit.parent_commit_time t (Some h) known) d1
    (fun r d' => same_files d d' /\ forall pt, r = Ok pt -> pt = Some (mf_committed_at_ns (ms hi))) (same_files d).
Proof.
  intros Hc Hseq Hknown Hs. unfold Commit.parent_commit_time.
  destruct (ci_parent_committed_at_ns known) as [pt|].
  - apply wpc_ret; [done|]. split; [done|]. destruct Hknown as [?|[= ->]]; [done|]. by intros pt [= <-].
  - rewrite Hseq. eapply (finds_step _ d); [apply finds_manifest_at|done|done|by split|].
    intros mf d2 H2 (f & Hf & Ho). apply wpc_ret; [done|]. split; [done|]. intros pt [= <-].
    destruct (ch_stored _ _ _ _ _ Hc hi) as [(f' & Hf' & Ho' & _) _]; [pose proof (ch_bounds _ _ _ _ _ Hc); lia|].
    congruence.
Qed.

(** What a writer brings to a commit: the HEAD it read, whole, and the next sequence. *)
Record child_of (t : Uuid) (p : HeadState) (mf0 : VersionManifest) : Prop := {
  co_tag : hs_tag p = checksum_hex (OHead (hs_head p));
  co_next : mf_sequence mf0 = hd_sequence (hs_head p) + 1;
  co_format : mf_format mf0 <= FORMAT_VERSION;
  co_data : Forall data_path (Commit.own_segment_paths mf0);
}.

(** The history a commit leaves: as it was, or one version longer. *)
Definition history_grows (PT : option Z -> Prop) t lo hi ms p mf0 d' : Prop :=
  chain d' t lo hi ms \/
  exists mf, published_at PT (Some p) mf0 mf /\ mf_sequence mf = hi + 1 /\
    chain d' t lo (hi + 1) (extend ms (hi + 1) mf).

Lemma commit_inv_grows d t lo hi ms p mf0 d' :
  chain d t lo hi ms -> hs_head p = Commit.head_of t (ms hi) -> child_of t p mf0 ->
  let PT := eq (Some (mf_committed_at_ns (ms hi))) in
  commit_inv d t (mf_sequence mf0) (published_at PT (Some p) mf0) d' -> history_grows PT t lo hi ms p mf0 d'.
Proof.
  intros Hc Hp Hco PT [Hfr Hor]. pose proof (ch_bounds _ _ _ _ _ Hc) as Hb.
  destruct (ch_stored _ _ _ _ _ Hc hi) as (_ & Hshi & Hthi); [lia|].
  assert (Hnext : mf_sequence mf0 = hi + 1) by (rewrite (co_next _ _ _ Hco), Hp; cbn; lia).
  assert (E : forall s, lo <= s <= hi -> files d' !! manifest_path t s = files d !! manifest_path t s).
  { intros s Hs. apply Hfr. rewrite not_elem_of_cons, list_elem_of_singleton. split; [done|].
    intros Heq. apply manifest_path_inj in Heq as [_ ?]; lia. }
  destruct Hor as [[Hk _]|(mf & Hm & Hseq & Hsw & _)].
  - left. by eapply chain_kept.
  - right. exists mf. split; [done|]. split; [congruence|]. destruct Hm as (w & pt & <- & ->).
    eapply (chain_extended d d' _ _ _ _ _ (monotonic_commit_ts w (Some (mf_committed_at_ns (ms hi))))); [done|by rewrite Hseq|exact (co_format _ _ _ Hco)|cbn; by rewrite Hp; cbn; rewrite Hshi|
      cbn; by rewrite Hp|reflexivity| |exact E|exact Hsw].
    split; [by apply monotonic_after|apply monotonic_in].
Qed.

(** C13 Whoever commits, with whatever it read and whichever calls fail, the table's history stays
    a chain: at every moment it is the history it was, or that history one version longer
    when the writer's parent was the current HEAD.  No committed version is ever lost,
    overwritten or reordered in time. *)
Theorem commits_keep_the_chain fs db name t p mf0 added known d lo hi ms :
  (forall a b, checksum_hex (OHead a) = checksum_hex (OHead b) -> a = b) ->
  chain d t lo hi ms -> head_flushed d t -> child_of t p mf0 ->
  (hs_head p = Commit.head_of t (ms hi) -> ci_parent_committed_at_ns known = None \/
     ci_parent_committed_at_ns known = Some (mf_committed_at_ns (ms hi))) ->
  Forall (history_grows (eq (Some (mf_committed_at_ns (ms hi)))) t lo hi ms p mf0)
    (states fs (Commit.commit_manifest_locked db name t (Some p) mf0 added known) d).
Proof.
  intros Hinj Hc Hfl Hco Hknown.
  eapply (wpc_states _ _ (fun _ _ => True)).
  destruct (decide (hs_head p = Commit.head_of t (ms hi))) as [Hp|Hp].
  - eapply wpc_mono with (Q := fun _ _ => True); [done|intros d'; by apply (commit_inv_grows d)|].
    apply wpc_commit_at; [|done|apply (co_data _ _ _ Hco)|done..].
    intros d1 Hs. eapply wpc_mono; [|done|eapply (wpc_parent_time true t p known d d1 lo hi ms)]; [|done| |by apply Hknown|done].
    + intros r d' [H1 H2]. split; [done|]. intros pt Hr. by rewrite (H2 pt Hr).
    + rewrite Hp. cbn. apply (ch_stored _ _ _ _ _ Hc). pose proof (ch_bounds _ _ _ _ _ Hc). lia.
  - eapply wpc_commit_stale; [apply (ch_head _ _ _ _ _ Hc)| | |done].
    + rewrite (co_tag _ _ _ Hco). intros E. by apply Hp, Hinj.
    + intros d' [E _]. left. eapply chain_kept; [done|by rewrite E|]. intros s _. by rewrite E.
Qed.

(** ** Verify *)

(** A segment is what its manifest says; with [deep], to its content. *)
Definition segment_ok m (deep : bool) (g : SegmentMeta) : Prop :=
  exists f, m !! sg_path g = Some f /\ object_size (fl_obj f) = sg_bytes g /\
    (deep = true -> checksum_hex (fl_obj f) = sg_checksum g).

Lemma finds_object_length m p :
  finds m (Commit.object_length p) (fun r => r = object_size ∘ fl_obj <$> m !! p).
Proof.
  unfold Commit.object_length. eapply finds_bind; [apply (finds_call _ _ (fun f => f = m !! p)); [done|]|].
  - by intros d <-.
  - by intros f ->.
Qed.

Lemma app_nil_inv {A} (l k : list A) : l ++ k = [] -> l = [] /\ k = [].
Proof. by destruct l. Qed.

Lemma finds_verify_segment m deep report g :
  finds m (Vacuum.verify_segment deep report g) (fun r =>
    vf_problems r = [] -> vf_problems report = [] /\ segment_ok m deep g).
Proof.
  unfold Vacuum.verify_segment. eapply finds_bind; [apply finds_object_length|]. intros n ->.
  destruct (m !! sg_path g) as [f|] eqn:Ef; cbn [fmap option_fmap option_map].
  2: { apply finds_ret. cbn. by intros [_ ?]%app_nil_inv. }
  destruct (_ =? _) eqn:Esz; cbn [compose] in *.
  - bool_prop. destruct deep; [|by apply finds_ret; intros E; split; [|exists f]].
    eapply finds_bind; [apply (finds_get _ _ (eq (fl_obj f)))|]. { intros f' Hf'. congruence. }
    intros o <-. destruct (String.eqb _ _) eqn:Ec; apply finds_ret; cbn.
    + intros E. split; [done|]. exists f. split; [done|]. split; [done|]. intros _. by apply String.eqb_eq.
    + by intros [_ ?]%app_nil_inv.
  - destruct deep; [|apply finds_ret; cbn; by intros [_ ?]%app_nil_inv].
    eapply finds_bind; [apply (finds_get _ _ (fun _ => True)); done|]. intros o _.
    destruct (String.eqb _ _); apply finds_ret; cbn.
    + by intros [_ ?]%app_nil_inv.
    + by intros [[_ ?]%app_nil_inv _]%app_nil_inv.
Qed.

Lemma finds_verify_segments m deep report gs :
  finds m (fold_prog (Vacuum.verify_segment deep) report gs) (fun r =>
    vf_problems r = [] -> vf_problems report = [] /\ Forall (segment_ok m deep) gs).
Proof.
  revert report. induction gs as [|g gs IH]; intros report; cbn [fold_prog]; [apply finds_ret; by split; [|constructor]|].
  eapply finds_bind; [apply finds_verify_segment|]. intros r Hr. eapply finds_mono; [|apply IH].
  intros r' Hr' E. destruct (Hr' E) as [E1 F1]. destruct (Hr E1) as [E2 F2]. split; [done|by constructor].
Qed.

(** What a clean visit of one version establishes. *)
Record version_ok m (t : Uuid) (head_seq : Z) (deep : bool) (shadow_base : option (Path * list Path))
    (s : Z) (expected : option Digest) (mf : VersionManifest) : Prop := {
  vo_stored : stored m t s mf;
  vo_expected : forall c, expected = Some c -> checksum_hex (OManifest mf) = c;
  vo_segments : deep = true \/ s = head_seq -> Forall (segment_ok m deep) (mf_segments mf);
  vo_refines : forall own base, shadow_base = Some (own, base) ->
    Forall (fun p => is_prefix own p = true \/ p ∈ base) (Vacuum.segment_paths mf);
}.

Lemma check_refinement_ok own base paths u :
  Commit.check_refinement own base paths = Ok u <-> Forall (fun p => is_prefix own p = true \/ p ∈ base) paths.
Proof.
  destruct u. unfold Commit.check_refinement. split.
  - intros Hc. apply foldr_res_each in Hc. eapply Forall_impl; [exact Hc|]. intros p. cbn.
    destruct (_ || _) eqn:E; [|done]. apply orb_true_iff in E as [?|?%bool_decide_eq_true]; auto.
  - induction 1 as [|p l Hp Hl IH]; cbn; [done|]. rewrite (proj2 (orb_true_iff _ _)); [done|].
    destruct Hp; [by left|right; by apply bool_decide_eq_true].
Qed.

Lemma finds_verify_version m t head_seq deep sb report expected s :
  finds m (Vacuum.verify_version t head_seq deep sb (report, expected) s) (fun r =>
    vf_problems r.1 = [] -> vf_problems report = [] /\
    exists mf, version_ok m t head_seq deep sb s expected mf /\ r.2 = mf_parent_checksum mf).
Proof.
  unfold Vacuum.verify_version.
  eapply finds_bind; [by apply (finds_get_opt _ _ (eq (fl_obj <$> m !! manifest_path t s)))|]. intros o <-.
  destruct (m !! manifest_path t s) as [f|] eqn:Ef; cbn [fmap option_fmap option_map].
  2: { apply finds_ret. cbn. by intros [_ ?]%app_nil_inv. }
  cbv zeta. set (report1 := match expected with Some _ => _ | None => _ end).
  eapply finds_bind; [apply (finds_lift _ _ (fun mf => fl_obj f = OManifest mf))|].
  { intros mf Hmf. unfold VersionManifest.from_bytes in Hmf. destruct (fl_obj f); try done.
    destruct (_ <? _); [done|]. by injection Hmf as ->. }
  intros mf Hmf.
  assert (H1 : vf_problems report1 = [] -> vf_problems report = [] /\
    forall c, expected = Some c -> checksum_hex (OManifest mf) = c).
  { unfold report1. rewrite Hmf. destruct expected as [c|]; [|intros E; split; [exact E|done]].
    destruct (String.eqb (checksum_hex (OManifest mf)) c) eqn:Ec; cbn.
    - intros E. split; [exact E|]. intros c' [= <-]. by apply String.eqb_eq.
    - by intros [_ ?]%app_nil_inv. }
  eapply finds_bind with (R := fun r => vf_problems r = [] -> vf_problems report1 = [] /\
    (deep = true \/ s = head_seq -> Forall (segment_ok m deep) (mf_segments mf))).
  { destruct (deep || _) eqn:Ed; [eapply finds_mono; [|apply finds_verify_segments]; cbn; intros r Hr E; by destruct (Hr E)|].
    apply finds_ret. intros E. split; [done|]. bool_prop. by intros [?|?]; [congruence|lia]. }
  intros report2 H2. apply finds_ret. cbn [fst snd].
  set (report3 := match sb with Some _ => _ | None => _ end).
  assert (H3 : vf_problems report3 = [] -> vf_problems report2 = [] /\
    forall own base, sb = Some (own, base) -> Forall (fun p => is_prefix own p = true \/ p ∈ base) (Vacuum.segment_paths mf)).
  { unfold report3. destruct sb as [[own base]|]; [|by split].
    destruct (Commit.check_refinement _ _ _) as [u|e] eqn:Ec; cbn.
    - intros E. split; [done|]. intros ? ? [= <- <-]. by apply check_refinement_ok in Ec.
    - by intros [_ ?]%app_nil_inv. }
  intros E. destruct (H3 E) as [E3 F3], (H2 E3) as [E2 F2], (H1 E2) as [E1 F1]. split; [done|].
  exists mf. split; [|done]. split; [by exists f|done..].
Qed.

(** The walk from HEAD down to the floor. *)
Definition down (k : Z) (n : nat) : list Z := map (fun i => k - Z.of_nat i) (seq 0 n).
Lemma down_S k n : down k (S n) = k :: down (k - 1) n.
Proof.
  unfold down. cbn [seq map]. f_equal; [lia|]. rewrite <- seq_shift, map_map. apply map_ext. intros i. lia.
Qed.
Lemma rev_retained floor head : rev (Vacuum.retained floor head) = down head (Z.to_nat (head + 1 - floor)).
Proof.
  unfold Vacuum.retained. set (n := Z.to_nat (head + 1 - floor)).
  assert (Hgen : forall n, rev (map (fun i => floor + Z.of_nat i) (seq 0 n)) = down (floor + Z.of_nat n - 1) n).
  { clear. induction n as [|n IH]; [done|]. rewrite seq_S, map_app, rev_app_distr, down_S. cbn [map rev app].
    f_equal; [lia|]. rewrite IH. f_equal. lia. }
  rewrite Hgen. destruct n as [|n'] eqn:En; [done|]. f_equal. unfold n in En. lia.
Qed.

Lemma finds_walk m t head_seq deep sb n : forall k report expected,
  finds m (fold_prog (Vacuum.verify_version t head_seq deep sb) (report, expected) (down k n)) (fun r =>
    vf_problems r.1 = [] -> vf_problems report = [] /\
    forall s, k - Z.of_nat n < s <= k -> exists mf exp, version_ok m t head_seq deep sb s exp mf /\
      (s = k -> exp = expected) /\
      (s < k -> exists child, stored m t (s + 1) child /\ exp = mf_parent_checksum child)).
Proof.
  induction n as [|n IH]; intros k report expected.
  - apply finds_ret. cbn [fst]. intros E. split; [done|]. lia.
  - rewrite down_S. cbn [fold_prog]. eapply finds_bind; [apply finds_verify_version|]. intros [report1 exp1] H1.
    eapply finds_mono; [|apply IH]. cbn [fst snd] in *. intros r Hr E.
    destruct (Hr E) as [E1 Hs]. destruct (H1 E1) as [E0 (mf & Hmf & ->)]. split; [done|]. intros s Hsk.
    destruct (Z.eq_dec s k) as [->|Hne]; [exists mf, expected; split; [done|]; split; [done|lia]|].
    destruct (Hs s) as (mf' & exp' & Hok & Hk & Hlt); [lia|]. exists mf', exp'. split; [done|]. split; [done|].
    intros _. destruct (Z.eq_dec s (k - 1)) as [->|Hne']; [|apply Hlt; lia].
    exists mf. replace (k - 1 + 1) with k by lia. split; [apply (vo_stored _ _ _ _ _ _ _ _ Hmf)|by apply Hk].
Qed.

(** What a clean report is worth. *)
Definition verified m (t : Uuid) (deep : bool) : Prop :=
  exists h, head_at m t h /\ forall s, floor_at m t <= s <= hd_sequence h ->
    exists mf, stored m t s mf /\
      (s = hd_sequence h -> checksum_hex (OManifest mf) = hd_manifest_checksum h) /\
      (s < hd_sequence h -> exists child, stored m t (s + 1) child /\
         forall c, mf_parent_checksum child = Some c -> checksum_hex (OManifest mf) = c) /\
      (deep = true \/ s = hd_sequence h -> Forall (segment_ok m deep) (mf_segments mf)).

(** A report without problems vouches for the whole retained history: every manifest from the
    floor to HEAD is there, HEAD's checksum and each child's vouch for the one before, and
    the segments of HEAD - of every version when [deep] - are there with the recorded size,
    and content when [deep]. *)
Theorem clean_verify_vouches fs db name deep d :
  match (run fs (Vacuum.verify db name deep) d).1 with
  | Ok report => vf_problems report = [] -> exists t, verified (files d) t deep
  | Err _ => True
  end.
Proof.
  apply (finds_run fs (Vacuum.verify db name deep) d
    (fun report => vf_problems report = [] -> exists t, verified (files d) t deep)).
  unfold Vacuum.verify. eapply finds_bind; [apply finds_read_only, read_only_entry|]. intros e _. cbv zeta.
  set (t := ce_table_id e). eapply finds_bind; [apply finds_head|]. intros h [Hh _].
  eapply finds_bind; [apply finds_min_seq|]. intros floor ->.
  eapply finds_bind; [apply finds_read_only|].
  { unfold Database.fork_entry. destruct (db_fork db); [apply read_only_fork_load|done]. }
  intros own _. eapply finds_bind; [apply finds_read_only|].
  { destruct (own ≫= _); [|done]. apply read_only_bind; [apply read_only_manifest_at|]. intros base.
    by apply read_only_bind; [apply read_only_min_seq|]. }
  intros [report sb] _. rewrite rev_retained. eapply finds_bind; [apply finds_walk|].
  intros [report' e'] Hw. apply finds_ret. cbn [fst] in Hw. intros E. destruct (Hw E) as [_ Hs].
  exists t, (hs_head h). split; [done|]. intros s Hsr. destruct (Hs s) as (mf & exp & Hok & Hk & Hlt); [lia|].
  exists mf. split; [apply Hok|]. split_ands.
  - intros Eh. specialize (Hk Eh). apply (vo_expected _ _ _ _ _ _ _ _ Hok). by rewrite Hk.
  - intros Hl. destruct (Hlt Hl) as (child & Hc & ->). exists child. split; [done|].
    apply (vo_expected _ _ _ _ _ _ _ _ Hok).
  - apply (vo_segments _ _ _ _ _ _ _ _ Hok).
Qed.

(** ** Idempotent replays *)

(** The newest version of a window that carries the key. *)
Definition newest_with_key m (t : Uuid) (lo hi : Z) (name key : string) (r : option CommitResult) : Prop :=
  match r with
  | Some res => exists s mf, lo <= s <= hi /\ stored m t s mf /\ Commit.recorded_key mf = Some key /\
      res = Commit.result_of name mf 0 0 /\
      forall s' mf', s < s' <= hi -> stored m t s' mf' -> Commit.recorded_key mf' <> Some key
  | None => forall s mf, lo <= s <= hi -> stored m t s mf -> Commit.recorded_key mf <> Some key
  end.

Lemma stored_fun m t s a b : stored m t s a -> stored m t s b -> a = b.
Proof. intros (f & Hf & Ha) (f' & Hf' & Hb). congruence. Qed.

Lemma finds_replay m fuel name key t lo : forall hi, 0 <= lo -> lo <= hi -> hi - lo < Z.of_nat fuel ->
  finds m (Commit.replay_from fuel name key t lo hi) (newest_with_key m t lo hi name key).
Proof.
  induction fuel as [|fuel IH]; intros hi H0 Hlo Hf; [lia|]. cbn [Commit.replay_from].
  eapply finds_bind; [apply finds_manifest_at|]. intros mf Hmf. case_bool_decide as Ek.
  - apply finds_ret. exists hi, mf. split_ands; [lia|lia|done|done|done|]. lia.
  - assert (Hno : forall s mf', s = hi -> stored m t s mf' -> Commit.recorded_key mf' <> Some key).
    { intros s mf' -> Hs. by rewrite (stored_fun _ _ _ _ _ Hs Hmf). }
    destruct (_ || _) eqn:Eb.
    + apply finds_ret. intros s mf' Hs. apply Hno. apply orb_true_iff in Eb as [Eb|Eb]; bool_prop; lia.
    + bool_prop. eapply finds_mono; [|apply IH; lia]. intros [res|] Hr.
      * destruct Hr as (s & mf' & Hs & Hst & Hk & -> & Hnew). exists s, mf'. split_ands; [lia|lia|done|done|done|].
        intros s' mf'' Hs' Hst'. destruct (Z.eq_dec s' hi) as [->|Hne]; [by eapply Hno|]. eapply Hnew; [|done]. lia.
      * intros s mf' Hs Hst. destruct (Z.eq_dec s hi) as [->|Hne]; [by eapply Hno|]. eapply Hr; [|done]. lia.
Qed.

Lemma read_only_replay fuel name key t lo hi : read_only (Commit.replay_from fuel name key t lo hi).
Proof.
  revert hi. induction fuel as [|fuel IH]; intros hi; cbn [Commit.replay_from]; [done|].
  apply read_only_bind; [apply read_only_manifest_at|]. intros mf. case_bool_decide; [done|]. by destruct (_ || _).
Qed.

(** The window of a table, when its floor is sound. *)
Definition replayed m (name key : string) (r : option CommitResult) : Prop :=
  exists t h, head_at m t h /\ (0 <= floor_at m t <= hd_sequence h ->
    newest_with_key m t (Z.max (hd_sequence h - 64) (floor_at m t)) (hd_sequence h) name key r).

(** A keyed write asks the last 64 retained versions: when one of them carries the key the
    newest such commit is reported again, and when none is found none of them does. *)
Theorem replay_is_search fs db name opts key d :
  wo_idempotency_key opts = Some key ->
  match (run fs (Commit.idempotent_replay db name opts) d).1 with
  | Ok r => replayed (files d) name key r
  | Err _ => True
  end.
Proof.
  intros Hkey.
  apply (finds_run fs (Commit.idempotent_replay db name opts) d (replayed (files d) name key)).
  unfold Commit.idempotent_replay. rewrite Hkey.
  eapply finds_bind; [apply finds_read_only, read_only_entry|]. intros e _.
  eapply finds_bind; [apply finds_head|]. intros h [Hh _]. cbv zeta.
  eapply finds_bind; [apply finds_min_seq|]. intros floor ->.
  set (t := ce_table_id e) in *. set (fl := floor_at (files d) t).
  destruct (decide (0 <= fl <= hd_sequence (hs_head h))) as [Hfl|Hfl].
  - eapply finds_mono; [|apply finds_replay; unfold Commit.replay_fuel, IDEMPOTENCY_LOOKBACK; lia].
    intros r Hr. exists t, (hs_head h). split; [done|]. intros _. unfold IDEMPOTENCY_LOOKBACK in Hr.
    by replace (Z.max (Z.max 0 _) _) with (Z.max (hd_sequence (hs_head h) - 64) fl) in Hr by lia.
  - eapply finds_mono; [|apply finds_read_only, read_only_replay].
    intros r _. exists t, (hs_head h). split; [done|]. by intros ?.
Qed.

(** ** Restoring *)
Lemma read_only_head t : read_only (Database.head t).
Proof.
  unfold Database.head, LocalHeadStore.read, LocalHeadStore.read_head_file, Backend.get_opt, call. read_only_tac.
Qed.

Lemma read_only_prologue db name op opts :
  db_fork db = None -> read_only (Commit.write_prologue db name op opts).
Proof.
  intros Hb. unfold Commit.write_prologue.
  apply read_only_bind; [unfold Database.ensure_writable; by destruct (db_read_only db)|]. intros _.
  apply read_only_bind; [unfold PolicyStore.load, Backend.get_opt, call; read_only_tac|]. intros pol.
  apply read_only_bind; [done|]. intros _. apply read_only_bind.
  { unfold Commit.entry_for_write. rewrite Hb. by apply read_only_bind; [apply read_only_entry|]. }
  intros e. apply read_only_bind; [apply read_only_head|]. intros h.
  apply read_only_bind; [by destruct (wo_expected_version opts); [destruct (_ =? _)|]|]. intros _.
  apply read_only_bind; [apply read_only_manifest_at|]. intros mf.
  by apply read_only_bind; [apply read_only_spec|].
Qed.

(** The HEAD a restore of version [v] leaves. *)
Definition restored d (v : Z) d' : Prop :=
  exists t target mf, stored (files d) t v target /\ swapped d d' t mf /\
    mf_segments mf = mf_segments target /\ mf_schema_revision mf = mf_schema_revision target /\
    mf_op mf = OpRestore /\ mf_rows mf = sum_u64 (map sg_rows (mf_segments target)).

(** A restore that succeeds leaves a new HEAD whose segments and schema revision are those of
    the version asked for, which is still there to be read. *)
Theorem restore_brings_back fs db name v opts d :
  wo_idempotency_key opts = None -> db_fork db = None -> (forall t, head_flushed d t) ->
  (forall t s mf, stored (files d) t s mf -> Forall (fun g => data_path (sg_path g)) (mf_segments mf)) ->
  match run fs (Commit.restore db name v opts) d with
  | (Ok _, d') => restored d v d'
  | (Err _, _) => True
  end.
Proof.
  intros Hkey Hb Hfl Hdata.
  assert (Hw : wpc true (Commit.restore db name v opts) d
    (fun r d' => match r with Ok _ => restored d v d' | Err _ => True end) (fun _ => True)).
  2: { pose proof (wpc_run true _ _ _ _ fs Hw ltac:(done)) as HQ. by destruct (run fs _ d) as [[r|e] d']. }
  unfold Commit.restore, Commit.idempotent_replay. rewrite Hkey.
  apply wpc_bind. apply wpc_ret; [done|]. cbv beta iota.
  eapply (finds_step _ d); [by apply finds_read_only, read_only_prologue|done..|]. intros [[[e sp] h] pm] d1 H1 _.
  destruct (_ <? v); [by apply wpc_ret|].
  eapply (finds_step _ d); [apply finds_manifest_at|done..|]. intros target d2 H2 Htarget. cbv zeta.
  set (t := ce_table_id e) in *. unfold Commit.commit_manifest.
  eapply (finds_step _ d _ _ (fun _ => True)); [by apply finds_call|done..|]. intros u d3 [E3 P3] _.
  set (mf0 := child_manifest _ _ _ _ _ <| mf_schema_revision := _ |> <| mf_segments := _ |>).
  eapply wpc_mono; [intros r d' HQ; exact HQ|intros d' _; exact I|apply wpc_commit]; cbv beta.
  - unfold head_flushed. rewrite P3. apply Hfl.
  - specialize (Hdata _ _ _ Htarget). rewrite List.Forall_forall in Hdata |- *. intros p Hp.
    apply in_map_iff in Hp as (g & <- & Hg). apply filter_In in Hg as [Hg _]. by apply Hdata.
  - done.
  - intros mf r d' [ts ->] _ (S1 & S2 & S3 & S4) _. cbv beta iota.
    exists t, target, (VersionManifest.recompute_rollups (Commit.link (Some h) ts mf0)). split; [done|]. split; [|by split_ands].
    split; [done|]. split; [done|]. split; [done|]. eapply Forall_impl; [exact S4|]. cbv beta. by rewrite E3.
Qed.
End History.
