(* ===== verification/ForkProps.v ===== *)
(** * What fork operations promise

    Creating fences old readers off first; promoting never overwrites what the base
    committed since the fork was cut; dropping releases the pin last. *)
From S2P Require Export History.

Section ForkProps.
Context `{Env}.
Implicit Types (m : gmap Path File) (d : Disk) (db : Database).

(** ** Promotion *)

(** When a base that is at [base_head] may be promoted onto. *)
Definition promotable m (origin : ForkOrigin) (base_head : Z) (pinned fork_manifest : VersionManifest)
    (r : option Z) : Prop :=
  match r with
  | None => base_head = fo_base_sequence origin
  | Some from => from = fo_base_sequence origin /\ from < base_head /\
      (forall s, from < s <= base_head ->
         exists mf, stored m (fo_base_table_id origin) s mf /\ mf_op mf = OpCompact) /\
      incl (Vacuum.segment_paths pinned) (Vacuum.segment_paths fork_manifest)
  end.

Lemma finds_all_compaction m t floor seqs :
  finds m (Forks.all_compaction t floor seqs) (fun b => b = true ->
    forall s, In s seqs -> exists mf, stored m t s mf /\ mf_op mf = OpCompact).
Proof.
  induction seqs as [|s seqs IH]; cbn [Forks.all_compaction]; [by intros _ s []|].
  destruct (s <? floor); [by apply finds_ret|].
  eapply finds_bind; [apply finds_manifest_at|]. intros mf Hmf. case_bool_decide as E; [|by apply finds_ret].
  eapply finds_mono; [|apply IH]. intros b Hb Ht q [<-|Hin]; eauto.
Qed.

Lemma finds_check_base m fork table origin base_head pinned fm :
  finds m (Promote.check_base fork table origin base_head pinned fm) (promotable m origin base_head pinned fm).
Proof.
  unfold Promote.check_base. destruct (_ =? _) eqn:E; bool_prop; [by apply finds_ret|].
  unfold Forks.intervening_commits_are_compaction.
  eapply finds_bind with (R := fun b => b = true -> fo_base_sequence origin < base_head /\
    forall s, fo_base_sequence origin < s <= base_head ->
      exists mf, stored m (fo_base_table_id origin) s mf /\ mf_op mf = OpCompact).
  - destruct (_ <=? _) eqn:El; bool_prop; [by apply finds_ret|].
    eapply finds_bind; [apply finds_read_only, read_only_min_seq|]. intros floor _.
    eapply finds_mono; [|apply finds_all_compaction]. intros b Hb Ht. split; [lia|]. intros s Hs.
    apply Hb; [done|]. by apply in_range_after.
  - intros b Hb. destruct (b && _) eqn:Eb; [|by destruct b]. bool_prop.
    apply finds_ret. destruct (Hb ltac:(done)) as [Hlt Hall]. split; [done|]. split; [lia|]. split; [done|].
    intros p Hp. apply in_map_iff in Hp as (g & <- & Hg).
    match goal with H : Promote.keeps_every_inherited_row _ _ = true |- _ => rename H into Hk end.
    unfold Promote.keeps_every_inherited_row in Hk. rewrite forallb_forall in Hk. specialize (Hk g Hg).
    by apply bool_decide_eq_true, list_elem_of_In in Hk.
Qed.

(** The segments of the promoted manifest. *)
Definition moved (fork_table base_table : Uuid) (seq : Z) (rebased : bool) (g : SegmentMeta) : option SegmentMeta :=
  if Forks.is_own_segment (table_prefix fork_table) (sg_path g)
  then Some (g <| sg_path := segment_path base_table (sg_id g) |> <| sg_created_by_sequence := seq |>)
  else if rebased then None else Some g.

Definition base_data (base : Uuid) (p : Path) : Prop :=
  (exists u, p = segment_path base u) \/ exists n, p = spec_path base n.
Definition outside (base : Uuid) (p : Path) : Prop := ~ base_data base p.

Lemma agree_put (K : Path -> Prop) p o torn d0 d : ~ K p -> agree K d0 d -> agree K d0 (put_file p o torn d).
Proof.
  intros Hp Hag q Hq. assert (p <> q) by by intros ->. rewrite files_put_ne, pending_put_ne by done. by apply Hag.
Qed.
Lemma agree_synced (K : Path -> Prop) ps d0 d : agree K d0 d -> agree K d0 (synced ps d).
Proof.
  intros Hag q Hq. destruct (Hag q Hq) as [E P]. split; [done|].
  destruct (decide (q ∈ ps)); [right; by apply pending_synced_in|by rewrite pending_synced_out].
Qed.

Lemma wpc_link base from u d0 d (Q : DbResult Z -> Disk -> Prop) :
  agree (outside base) d0 d -> (forall r d', agree (outside base) d0 d' -> Q r d') ->
  wpc true (Promote.link_or_copy_segment from (segment_path base u)) d Q (fun _ => True).
Proof.
  intros Hag HQ. unfold Promote.link_or_copy_segment.
  assert (Hout : ~ outside base (segment_path base u)) by (intros Ho; apply Ho; left; by exists u).
  eapply (finds_step _ d _ _ (fun _ => True)); [by apply finds_get|done|done| |].
  { intros e d' ?. apply HQ. eapply agree_trans, agree_same; done. }
  intros o d1 H1 _. assert (Hag1 : agree (outside base) d0 d1) by (eapply agree_trans, agree_same; done).
  assert (Hput : agree (outside base) d0 (put_file (segment_path base u) o true d1)) by by apply agree_put.
  assert (Hcopy : forall d', agree (outside base) d0 d' ->
    wpc true (do! Backend.put (segment_path base u) o in ret (object_size o)) d' Q (fun _ => True)).
  { intros d' Hd'. apply wpc_bind. assert (agree (outside base) d0 (put_file (segment_path base u) o true d')) by by apply agree_put.
    apply wpc_put; [done|done|apply wpc_ret; auto|fault]. }
  apply wpc_bind, wpc_attempt. unfold Backend.put_if_absent.
  apply wpc_call; [done|done| |]; cbn [effect]; destruct (files d1 !! segment_path base u); cbn [fst snd].
  - split; [done|]. apply wpc_ret; auto.
  - split; [done|]. apply wpc_ret; auto.
  - intros _. split; (split; [done|by apply Hcopy]).
  - intros _. split; (split; [done|by apply Hcopy]).
Qed.

Lemma wpc_move fork_table base seq rebased gs d0 : forall d segs linked copied
    (Q : DbResult (list SegmentMeta * Z * Z) -> Disk -> Prop),
  agree (outside base) d0 d -> (forall e d', agree (outside base) d0 d' -> Q (Err e) d') ->
  (forall d' l c, agree (outside base) d0 d' ->
     Q (Ok (segs ++ omap (moved fork_table base seq rebased) gs, l, c)) d') ->
  wpc true (fold_prog (Promote.move_segment fork_table base seq rebased) (segs, linked, copied) gs) d Q (fun _ => True).
Proof.
  induction gs as [|g gs IH]; intros d segs linked copied Q Hag HE HO; cbn [fold_prog].
  - apply wpc_ret; [done|]. specialize (HO d linked copied Hag). by rewrite app_nil_r in HO.
  - apply wpc_bind. unfold Promote.move_segment at 1. cbn [omap list_omap] in HO. unfold moved at 1 in HO.
    destruct (Forks.is_own_segment _ _); cbn [negb].
    + apply wpc_bind. apply (wpc_link _ _ _ d0); [done|]. intros [c|e] d' Hd'; [|auto].
      apply wpc_ret; [done|]. apply IH; [done|done|]. intros d2 l c2 H2. rewrite <- app_assoc. by apply HO.
    + apply wpc_ret; [done|]. destruct rebased; [by apply IH|]. apply IH; [done|done|].
      intros d2 l c2 H2. rewrite <- app_assoc. by apply HO.
Qed.

Lemma wpc_copy_specs from base name d0 d :
  agree (outside base) d0 d ->
  wpc true (Promote.copy_spec_revisions from base name) d (fun _ => agree (outside base) d0) (agree (outside base) d0).
Proof.
  intros Hag. unfold Promote.copy_spec_revisions.
  assert (HC : forall d1 d', agree (outside base) d0 d1 -> same_files d1 d' -> agree (outside base) d0 d').
  { intros d1 d' ? ?. eapply agree_trans, agree_same; done. }
  eapply (finds_step _ d _ _ (fun _ => True)); [by apply finds_list|done|eauto..|]. intros metas d1 H1 _.
  apply wpc_bind. eapply wpc_mono with (C := agree (outside base) d0); [|done|apply wpc_fold with (I := agree (outside base) d0)]; [|..|eauto].
  - intros [paths|e] d' Hd'; [|done]. apply wpc_sync_objects; [done|by apply agree_synced..|]. intros; split; [done|by apply agree_synced].
  - intros paths meta d' _ Hd'. unfold Promote.copy_spec_revision. destruct (spec_revision_from_path meta.1) as [rev|]; [|by apply wpc_ret].
    cbv zeta. eapply (finds_step _ d'); [apply finds_read_only, read_only_spec|done|eauto..|]. intros sp d2 H2 _.
    eapply (finds_step _ d' _ _ (fun _ => True)); [by apply finds_get_opt|done|eauto..|]. intros [o|] d3 H3 _.
    + eapply (finds_step _ d'); [apply finds_read_only, read_only_spec|done|eauto..|]. intros sp' d4 H4 _.
      destruct (Forks.spec_revision_conflict sp' sp); apply wpc_ret; eauto.
    + assert (Hput : agree (outside base) d0 (put_file (spec_path base rev)
        (OSpec (seal (sp <| ts_table_id := base |> <| ts_name := name |>))) true d3)).
      { apply agree_put; [|eauto]. intros Ho. apply Ho. right. by exists rev. }
      apply wpc_bind. apply wpc_put; [eauto|exact Hput|by apply wpc_ret|intros; split; [|split]; eauto].
Qed.

(** What a promoted shadow leaves on its base table: one commit on the HEAD the base had. *)
Definition promoted d (fork_table : Uuid) (origin : ForkOrigin) (pinned fm : VersionManifest) d' : Prop :=
  let base := fo_base_table_id origin in
  exists h r mf, head_at (files d) base h /\ promotable (files d) origin (hd_sequence h) pinned fm r /\
    (exists f, files d' !! head_path base = Some f /\ fl_obj f = OHead (Commit.head_of base mf)) /\
    stored (files d') base (hd_sequence h + 1) mf /\ mf_parent mf = Some (hd_sequence h) /\
    (r = None -> mf_segments mf = omap (moved fork_table base (hd_sequence h + 1) false) (mf_segments fm)) /\
    (r <> None -> exists cur, stored (files d) base (hd_sequence h) cur /\
       mf_segments mf = mf_segments cur ++ omap (moved fork_table base (hd_sequence h + 1) true) (mf_segments fm)) /\
    Forall (fun p => (exists u, p = segment_path base u) \/ In p (Vacuum.segment_paths pinned) \/
      exists cur, stored (files d) base (hd_sequence h) cur /\ In p (Vacuum.segment_paths cur)) (Vacuum.segment_paths mf).

Lemma moved_paths fork_table base seq rebased gs g :
  In g (omap (moved fork_table base seq rebased) gs) ->
  (exists u, sg_path g = segment_path base u) \/
  (rebased = false /\ In g gs /\ Forks.is_own_segment (table_prefix fork_table) (sg_path g) = false).
Proof.
  intros Hin. apply In_omap in Hin as (g0 & Hin & Hg). unfold moved in Hg.
  destruct (Forks.is_own_segment _ (sg_path g0)) eqn:E.
  - injection Hg as <-. left. by exists (sg_id g0).
  - destruct rebased; [done|]. injection Hg as ->. auto.
Qed.

Definition data_manifests m : Prop := forall t s mf, stored m t s mf -> Forall data_path (Vacuum.segment_paths mf).

Lemma own_data mf : Forall data_path (Vacuum.segment_paths mf) -> Forall data_path (Commit.own_segment_paths mf).
Proof.
  rewrite !List.Forall_forall. intros Hd p Hp. apply in_map_iff in Hp as (g & <- & Hg).
  apply filter_In in Hg as [Hg _]. apply Hd, in_map, Hg.
Qed.

Lemma outside_head base : outside base (head_path base).
Proof. by intros [[u ?]|[n ?]]. Qed.

(** The last step of a promotion: the commit, from the HEAD read at the start. *)
Lemma wpc_promote_commit db name d0 d1 base h mf0 linked known (R : CommitResult -> Disk -> Prop) :
  agree (outside base) d0 d1 -> head_flushed d0 base -> Forall data_path (Vacuum.segment_paths mf0) ->
  mf_sequence mf0 = hd_sequence (hs_head h) + 1 ->
  (forall r d' mf, (exists f, files d' !! head_path base = Some f /\ fl_obj f = OHead (Commit.head_of base mf)) ->
     stored (files d') base (hd_sequence (hs_head h) + 1) mf -> mf_parent mf = Some (hd_sequence (hs_head h)) ->
     mf_segments mf = mf_segments mf0 -> R r d') ->
  wpc true (Commit.commit_manifest_locked db name base (Some h) mf0 linked known) d1
    (fun r d' => match r with Ok r => R r d' | Err _ => True end) (fun _ => True).
Proof.
  intros Hag Hfl Hdata Hseq HR.
  eapply wpc_mono; [intros r d' HQ; exact HQ|intros d' _; exact I|apply wpc_commit]; cbv beta.
  - destruct (Hag (head_path base) (outside_head base)) as [_ [P|P]]; unfold head_flushed in *; congruence.
  - by apply own_data.
  - done.
  - intros mf r d' Hp _ (S1 & (f & Hf & Ho) & _) _. cbv beta iota.
    apply (HR r d' mf); [done| | |by eapply published_segments].
    + exists f. by rewrite <- Hseq, <- (published_sequence _ _ _ Hp).
    + by destruct Hp as [ts ->].
Qed.

Lemma wpc_promote_shadow db fork fe table origin fs fm d :
  head_flushed d (fo_base_table_id origin) -> data_manifests (files d) ->
  Forall data_path (Vacuum.segment_paths fm) ->
  wpc true (Promote.promote_shadow db fork fe table origin fs fm) d (fun r d' =>
    match r with
    | Ok _ => exists pinned, stored (files d) (fo_base_table_id origin) (fo_base_sequence origin) pinned /\
        promoted d (fe_table_id fe) origin pinned fm d'
    | Err _ => True
    end) (fun _ => True).
Proof.
  intros Hfl Hdm Hdata. unfold Promote.promote_shadow. set (base := fo_base_table_id origin) in *.
  apply wpc_bind. apply wpc_lift; [done|]. destruct (Forks.pinned_base_name fork base) as [name|]; [|done].
  eapply (finds_step _ d); [apply finds_head|done..|]. intros h d1 H1 [Hh _].
  eapply (finds_step _ d); [apply finds_manifest_at|done..|]. intros pinned d2 H2 Hpinned.
  eapply (finds_step _ d); [apply finds_check_base|done..|]. intros r d3 H3 Hr.
  apply wpc_bind. apply wpc_lift; [done|]. destruct (Commit.check_refinement _ _ _) as [u|] eqn:Eref; [|done].
  apply check_refinement_ok in Eref.
  eapply (finds_step _ d _ _ (fun mf => r <> None -> stored (files d) base (hd_sequence (hs_head h)) mf)); [|done..|].
  { destruct r; [|by apply finds_ret]. eapply finds_mono; [|apply finds_manifest_at]. auto. }
  intros cur d4 H4 Hcur. cbv zeta. set (rebased := match r with Some _ => true | None => false end).
  set (start := match r with Some _ => mf_segments cur | None => [] end).
  apply wpc_bind. apply (wpc_move _ _ _ _ _ d); [by apply agree_same|done|]. intros d5 linked copied H5. cbv beta iota.
  apply wpc_bind. eapply wpc_mono with (C := agree (outside base) d); [|done|by apply wpc_copy_specs].
  intros [u'|e] d6 H6; [|done]. set (segs := start ++ _).
  apply wpc_bind. set (mf0 := Promote.promoted_manifest _ _ _ _ _ _ _ _).
  assert (Hpaths : Forall (fun p => (exists u, p = segment_path base u) \/ In p (Vacuum.segment_paths pinned) \/
      exists cur, stored (files d) base (hd_sequence (hs_head h)) cur /\ In p (Vacuum.segment_paths cur)) (map sg_path segs)).
  { rewrite List.Forall_forall. intros p Hp. apply in_map_iff in Hp as (g & <- & Hg). apply in_app_iff in Hg as [Hg|Hg].
    - unfold start in Hg. destruct r; [|done]. right; right. exists cur. split; [by apply Hcur|by apply in_map].
    - destruct (moved_paths _ _ _ _ _ _ Hg) as [?|(_ & Hin & Hno)]; [by left|right; left].
      rewrite List.Forall_forall in Eref. destruct (Eref (sg_path g)) as [Hp|Hp]; [by apply in_map| |by apply list_elem_of_In].
      unfold Forks.is_own_segment in Hno. congruence. }
  assert (Hsegs : Forall data_path (map sg_path segs)).
  { eapply Forall_impl; [exact Hpaths|]. intros p [[w ->]|[Hp|(c & Hc & Hp)]]; [by exists base, w|..].
    - specialize (Hdm _ _ _ Hpinned). rewrite List.Forall_forall in Hdm. auto.
    - specialize (Hdm _ _ _ Hc). rewrite List.Forall_forall in Hdm. auto. }
  eapply (wpc_mono true); [| |apply (wpc_promote_commit db name d d6 base h mf0 linked _ (fun _ d' =>
    promoted d (fe_table_id fe) origin pinned fm d'))]; [|done..|].
  { intros [a|e] d' HQ; [|done]. apply wpc_ret; [done|]. by exists pinned. }
  intros res d' mf F1 F2 F3 F4.
  exists (hs_head h), r, mf. split; [done|]. split; [done|]. split; [done|]. split; [done|]. split; [done|].
  change (mf_segments mf0) with segs in F4. unfold Vacuum.segment_paths at 3. rewrite F4. split; [by intros ->|]. split; [|done].
  intros Hne. exists cur. split; [by apply Hcur|]. unfold segs, start, rebased. by destruct r.
Qed.

(** A property of every value a program can return. *)
Fixpoint returns {A} (p : prog A) (R : A -> Prop) : Prop :=
  match p with
  | Ret (Ok a) => R a
  | Ret (Err _) => True
  | Do c k => forall r, returns (k r) R
  end.
Lemma returns_bind {A B} (p : prog A) (f : A -> prog B) (R : B -> Prop) :
  (forall a, returns (f a) R) -> returns (bind p f) R.
Proof.
  intros Hf. unfold bind. induction p as [[a|e]|T c k IH]; [apply Hf|done|]. intros r. apply IH.
Qed.
Lemma returns_wpc {A} ft (p : prog A) d (R : A -> Prop) :
  returns p R -> wpc ft p d (fun r _ => match r with Ok a => R a | Err _ => True end) (fun _ => True).
Proof.
  revert d. induction p as [[a|e]|T c k IH]; intros d Hr; [done|done|]. repeat split; try (intros _); apply IH, Hr.
Qed.

Lemma finds_fork_load m n :
  finds m (Fork.load n) (fun fk => fk_name fk = n /\ exists f, m !! fork_path n = Some f /\ fl_obj f = OFork fk).
Proof.
  unfold Fork.load. eapply finds_bind with (R := fun r => match r with
    | Some fk => fk_name fk = n /\ exists f, m !! fork_path n = Some f /\ fl_obj f = OFork fk | None => True end).
  - unfold Fork.load_opt. eapply finds_bind; [by apply (finds_get_opt _ _ (eq (fl_obj <$> m !! fork_path n)))|].
    intros o <-. destruct (m !! fork_path n) as [f|] eqn:E; [|done]. cbn [fmap option_fmap option_map].
    eapply finds_bind; [apply (finds_lift _ _ (fun fk => fl_obj f = OFork fk))|].
    { intros fk. unfold Fork.parse. destruct (fl_obj f); try done. destruct (verify _ _ _); cbn; congruence. }
    intros fk Hfk. destruct (String.eqb _ _) eqn:En; [|done]. apply String.eqb_eq in En. apply finds_ret. eauto.
  - intros [fk|] Hfk; [done|]. eapply finds_bind; [|done]. apply finds_read_only, read_only_attempt.
    unfold Fork.list, Backend.list, Backend.get, call. read_only_tac.
Qed.

(** The entry of a fork for a table. *)
Definition fork_entry m (fork_name table : string) (fe : ForkTableEntry) : Prop :=
  fe_name fe = table /\ exists f, m !! fork_catalog_entry_path fork_name table = Some f /\ fl_obj f = OForkEntry fe.

Lemma finds_fork_entry m n table :
  finds m (ForkTableEntry.load_entry n table) (fun r => forall fe, r = Some fe -> fork_entry m n table fe).
Proof.
  unfold ForkTableEntry.load_entry.
  eapply finds_bind; [by apply (finds_get_opt _ _ (eq (fl_obj <$> m !! fork_catalog_entry_path n table)))|].
  intros o <-. destruct (m !! fork_catalog_entry_path n table) as [f|] eqn:E; [|done]. cbn [fmap option_fmap option_map].
  eapply finds_bind; [apply (finds_lift _ _ (fun fe => fl_obj f = OForkEntry fe))|].
  { intros fe. unfold ForkTableEntry.parse. destruct (fl_obj f); try done. destruct (verify _ _ _); cbn; congruence. }
  intros fe Hfe. destruct (String.eqb _ _) eqn:En; [|done]. apply String.eqb_eq in En.
  apply finds_ret. intros fe' [= <-]. split; [done|]. by exists f.
Qed.

(** C38 A promoted shadow becomes one commit on the HEAD its base has.  The fork of that name owns
    the table, its entry records the base table and the version it was cut from, and what is
    promoted is the version its own HEAD is at.  The base is still at the version the entry
    records, or moved by compactions alone under a fork that kept every segment it
    inherited; the new version follows the HEAD of the base, its segments are the fork's,
    its own moved into the base's directory, and all of them are segments of the base. *)
Theorem promotion_builds_on_the_base fs db fork_name table d :
  (forall t, head_flushed d t) -> data_manifests (files d) ->
  match run fs (Promote.promote db fork_name table) d with
  | (Ok r, d') => pr_kind r = Shadowed -> exists fk fe h fm origin pinned,
      (fk_name fk = fork_name /\ exists f, files d !! fork_path fork_name = Some f /\ fl_obj f = OFork fk) /\
      fork_entry (files d) fork_name table fe /\ fe_origin fe = Some origin /\
      head_at (files d) (fe_table_id fe) h /\ stored (files d) (fe_table_id fe) (hd_sequence h) fm /\
      stored (files d) (fo_base_table_id origin) (fo_base_sequence origin) pinned /\
      promoted d (fe_table_id fe) origin pinned fm d'
  | (Err _, _) => True
  end.
Proof.
  intros Hfl Hdm.
  set (Q := fun (r : DbResult PromoteResult) d' => match r with
    | Ok r => pr_kind r = Shadowed -> exists fk fe h fm origin pinned,
      (fk_name fk = fork_name /\ exists f, files d !! fork_path fork_name = Some f /\ fl_obj f = OFork fk) /\
      fork_entry (files d) fork_name table fe /\ fe_origin fe = Some origin /\
      head_at (files d) (fe_table_id fe) h /\ stored (files d) (fe_table_id fe) (hd_sequence h) fm /\
      stored (files d) (fo_base_table_id origin) (fo_base_sequence origin) pinned /\
      promoted d (fe_table_id fe) origin pinned fm d'
    | Err _ => True end).
  assert (Hw : wpc true (Promote.promote db fork_name table) d Q (fun _ => True)).
  2: { pose proof (wpc_run true _ _ _ _ fs Hw ltac:(done)) as HQ. by destruct (run fs _ d) as [[r|e] d']. }
  unfold Promote.promote.
  eapply (finds_step _ d); [apply finds_read_only; unfold Database.ensure_writable; by destruct (db_read_only db)|done..|].
  intros _ d1 H1 _. eapply (finds_step _ d); [apply finds_read_only; unfold Database.ensure_base; by destruct (db_fork db)|done..|].
  intros _ d2 H2 _. eapply (finds_step _ d _ _ (fun _ => True)); [by apply finds_call|done..|]. intros _ d3 H3 _.
  eapply (finds_step _ d); [apply finds_fork_load|done..|].
  intros fork d4 H4 [Hname Hfork]. eapply (finds_step _ d); [apply finds_fork_entry|done..|].
  intros [fe|] d5 H5 Hfe; [|done]. specialize (Hfe fe eq_refl). rewrite Hname in Hfe.
  eapply (finds_step _ d); [apply finds_head|done..|]. intros h d6 H6 [Hh _]. cbv zeta.
  eapply (finds_step _ d); [apply finds_manifest_at|done..|]. intros fm d7 H7 Hfm.
  destruct (fe_origin fe) as [origin|] eqn:Eo.
  - eapply wpc_mono with (C := fun _ => True); [|done|].
    2: { apply wpc_promote_shadow.
         - unfold head_flushed. rewrite (proj2 H7). apply Hfl.
         - unfold data_manifests, stored. rewrite (proj1 H7). apply Hdm.
         - by eapply Hdm. }
    intros [r|e] d' Hr; [|done]. intros _. destruct Hr as (pinned & Hp & Hpr). unfold promoted, promotable, stored, head_at in *.
    rewrite (proj1 H7) in Hp, Hpr. by exists fork, fe, (hs_head h), fm, origin, pinned.
  - eapply wpc_mono with (C := fun _ => True); [|done|apply (returns_wpc _ _ _ (fun r => pr_kind r = Created))].
    { intros [r|e] d' Hr; [|done]. cbn. congruence. }
    unfold Promote.promote_created. repeat (apply returns_bind; intros ?). destruct a; [done|].
    repeat (apply returns_bind; intros ?). done.
Qed.

(** ** Creation *)

(** The pins a fork of the database as it is now gets: every table at its HEAD. *)
Definition pins_heads m (pins : BTree Uuid ForkPin) : Prop :=
  (forall t, cataloged m t -> exists pin, bget t pins = Some pin) /\
  forall t pin, bget t pins = Some pin -> exists h, head_at m t h /\
    fp_sequence pin = hd_sequence h /\ fp_manifest_checksum pin = hd_manifest_checksum h.

Lemma finds_pin_heads m db tables :
  (forall t, cataloged m t <-> In t (map ce_table_id tables)) ->
  finds m (Forks.pin_tables db None tables) (pins_heads m).
Proof.
  intros Hcat. unfold Forks.pin_tables.
  eapply finds_mono; [|apply (finds_fold _ _ (fun pins rest =>
    (forall t, In t (map ce_table_id tables) -> In t (map ce_table_id rest) \/ exists pin, bget t pins = Some pin) /\
    forall t pin, bget t pins = Some pin -> exists h, head_at m t h /\
      fp_sequence pin = hd_sequence h /\ fp_manifest_checksum pin = hd_manifest_checksum h))].
  - intros pins [H1 H2]. split; [|done]. intros t Ht. by destruct (H1 t (proj1 (Hcat t) Ht)) as [[]|?].
  - intros pins e rest [H1 H2]. unfold Forks.pin_version. eapply finds_bind.
    { eapply finds_bind; [apply finds_head|]. intros h [Hh _].
      apply (finds_ret _ _ (fun v => match v with Some (s, c) => exists h, head_at m (ce_table_id e) h /\
        s = hd_sequence h /\ c = hd_manifest_checksum h | None => False end)). by exists (hs_head h). }
    intros [[s c]|] Hv; [|done]. apply finds_ret. split.
    + intros t Ht. destruct (decide (t = ce_table_id e)) as [->|Hne].
      * right. eexists. apply bget_insert_eq.
      * rewrite bget_insert_ne by done. destruct (H1 t Ht) as [[?|?]|?]; [done|by left|by right].
    + intros t pin. rewrite bget_insert. destruct (keqb t (ce_table_id e)) eqn:E; [|apply H2].
      apply keqb_eq in E as ->. by intros [= <-].
  - split; [|done]. intros t Ht. by left.
Qed.

(** The fence: a reader that cannot see forks refuses the database. *)
Definition fenced d : Prop :=
  exists f ff, files d !! format_path = Some f /\ fl_obj f = OFormat ff /\
    FORK_MIN_READER_VERSION <= ff_min_reader_version ff /\ pending d !! format_path = None.
Definition forks_same d d' : Prop :=
  forall p, is_prefix FORK_PREFIX p = true -> files d' !! p = files d !! p /\ pending d' !! p = pending d !! p.
Definition fence_first d d' : Prop := forks_same d d' \/ fenced d'.

Lemma fence_same d d' : same_files d d' -> fence_first d d'.
Proof. intros [E P]. left. intros p _. by rewrite E, P. Qed.

Lemma wpc_raise ft d d0 (Q : DbResult bool -> Disk -> Prop) :
  same_files d0 d -> pending d0 !! format_path = None ->
  (forall e d', fence_first d0 d' -> Q (Err e) d') -> (forall b d', fenced d' -> Q (Ok b) d') ->
  wpc ft (Database.raise_min_reader_version FORK_MIN_READER_VERSION) d Q (fence_first d0).
Proof.
  intros Hs Hp HE HO. unfold Database.raise_min_reader_version.
  assert (HC : forall d', same_files d d' -> fence_first d0 d') by (intros; apply fence_same; by etransitivity).
  eapply (finds_step _ d _ _ (fun ff => exists f, files d !! format_path = Some f /\ fl_obj f = OFormat ff));
    [|done|auto|auto|].
  { unfold Database.read_format. eapply finds_bind; [by apply (finds_get_opt _ _ (eq (fl_obj <$> files d !! format_path)))|].
    intros o <-. destruct (files d !! format_path) as [f|] eqn:E; [|done]. cbn [fmap option_fmap option_map].
    destruct (fl_obj f) eqn:Eo; try done. apply finds_ret. by exists f. }
  intros ff d1 H1 (f & Hf & Ho). destruct (_ <=? _) eqn:El; bool_prop.
  - apply wpc_ret; [auto|]. apply HO. exists f, ff. rewrite (proj1 H1), (proj2 H1), (proj2 Hs). done.
  - set (o := OFormat _). set (d2 := put_file format_path o true d1).
    assert (H2 : fence_first d0 d2).
    { left. intros p Hpre. unfold d2. rewrite files_put_ne, pending_put_ne by (intros <-; done).
      rewrite (proj1 H1), (proj2 H1), (proj1 Hs), (proj2 Hs). done. }
    assert (H3 : fenced (synced [format_path] d2)).
    { eexists _, _. rewrite files_synced. unfold d2 at 1. rewrite files_put_eq. split; [done|]. split; [reflexivity|].
      split; [cbn; lia|]. apply pending_synced_in. by left. }
    apply wpc_bind. apply wpc_put; [auto|exact H2| |auto].
    apply wpc_bind. apply wpc_sync_objects; [exact H2|by right| |intros _; split_ands; [exact H2|by apply HE|by right|apply HE; by right]].
    apply wpc_ret; [by right|auto].
Qed.

Lemma fenced_put p o d : p <> format_path -> fenced d -> fenced (put_file p o true d).
Proof.
  intros Hp (f & ff & Hf & ?). exists f, ff. rewrite files_put_ne, pending_put_ne by done. done.
Qed.
Lemma fenced_synced ps d : fenced d -> fenced (synced ps d).
Proof. intros (f & ff & Hf & Ho & Hm & Hp). exists f, ff. split_ands; [done..|]. by apply pending_synced_None. Qed.

Lemma wpc_create_many ft forks d :
  fenced d -> wpc ft (Fork.create_many forks) d (fun _ => fenced) fenced.
Proof.
  intros Hf. unfold Fork.create_many. apply wpc_bind.
  eapply wpc_mono with (Q := fun _ => fenced) (C := fenced); [|done|].
  { intros [paths|e] d' Hd'; [|done]. apply wpc_sync_objects; auto using fenced_synced. }
  revert d Hf. induction forks as [|fk forks IH]; intros d Hf; cbn [map_prog]; [by apply wpc_ret|].
  assert (Hput : fenced (put_file (fork_path (fk_name fk)) (OFork fk) true d)) by by apply fenced_put.
  apply wpc_bind. cbv zeta. apply wpc_bind. unfold Backend.put_if_absent.
  assert (Hrest : forall d', fenced d' -> wpc ft (let! bs := map_prog (fun fork =>
      let path := fork_path (fk_name fork) in let! created := Backend.put_if_absent path (OFork fork) in
      if negb created then throw (ForkExists (fk_name fork)) else ret path) forks in
      ret (fork_path (fk_name fk) :: bs)) d' (fun _ => fenced) fenced).
  { intros d' Hd'. apply wpc_bind. eapply wpc_mono with (C := fenced); [|done|by apply IH].
    intros [bs|e] d2 H2; [by apply wpc_ret|done]. }
  apply wpc_call; [done|..]; cbn [effect]; destruct (files d !! fork_path (fk_name fk)); cbn [fst snd negb]; try done.
  apply wpc_ret; [done|]. by apply Hrest.
Qed.

Lemma read_only_name_checks db names :
  read_only (for_each (fun n => let! f := Fork.load_opt n in
    match f with Some _ => throw (ForkExists n) | None => ret tt end) names) /\
  (forall n, read_only (lift (validate_table_name n))) /\ read_only (lift (Forks.child_depth db)).
Proof.
  split_ands; [|done|done]. apply read_only_for_each. intros n.
  apply read_only_bind; [unfold Fork.load_opt, Backend.get_opt, call; read_only_tac|]. by intros [f|].
Qed.

Lemma wpc_create_forks db names note user_meta d :
  db_fork db = None -> pending d !! format_path = None ->
  wpc true (Forks.create_forks db names note None user_meta) d
    (fun r d' => fence_first d d' /\ match r with
       | Ok forks => fenced d' /\ map fk_name forks = names /\ Forall (fun fk => pins_heads (files d) (fk_pins fk)) forks
       | Err _ => True end) (fence_first d).
Proof.
  intros Hb Hp. unfold Forks.create_forks. set (Q := fun r d' => _).
  assert (HE : forall e d', fence_first d d' -> Q (Err e) d') by (by split).
  assert (HC : forall d', same_files d d' -> fence_first d d') by apply fence_same.
  destruct (read_only_name_checks db names) as (R1 & R2 & R3).
  eapply (finds_step _ d); [apply finds_read_only; unfold Database.ensure_writable; by destruct (db_read_only db)|done|auto|auto|].
  intros _ d1 H1 _. eapply (finds_step _ d); [by apply finds_read_only|auto|auto|auto|]. intros depth d2 H2 _.
  destruct (Forks.is_nil names); [apply wpc_ret; auto|].
  eapply (finds_step _ d); [by apply finds_read_only, read_only_for_each|auto|auto|auto|]. intros _ d3 H3 _.
  destruct (Commit.duplicate_names names); [apply wpc_ret; auto|].
  eapply (finds_step _ d _ _ (fun _ => True)); [by apply finds_call|auto|auto|auto|]. intros _ d4 H4 _.
  eapply (finds_step _ d); [by apply finds_read_only|auto|auto|auto|]. intros _ d5 H5 _.
  eapply (finds_step _ d); [by apply finds_base_tables|auto|auto|auto|]. intros tables d6 H6 Hcat.
  eapply (finds_step _ d); [by apply finds_pin_heads|auto|auto|auto|]. intros pins d7 H7 Hpins.
  cbn [andb]. apply wpc_bind. apply wpc_raise; [done|done|by split; [|apply HE]|]. intros b d8 H8.
  assert (HF : forall d', fenced d' -> fence_first d d') by by right.
  apply wpc_bind. apply wpc_now_call; [auto|by apply HF| |]; [|intros _; split_ands; auto].
  cbv zeta. set (forks := map _ names). apply wpc_bind.
  eapply wpc_mono with (C := fenced); [|exact HF|by apply wpc_create_many].
  intros [u|e] d9 H9; [|split; auto]. apply wpc_ret; [auto|]. split; [auto|]. split; [done|]. split.
  - unfold forks. rewrite map_map. cbn. by rewrite map_id.
  - unfold forks. rewrite List.Forall_forall. intros fk Hfk. apply in_map_iff in Hfk as (n & <- & _). exact Hpins.
Qed.

(** Creating forks of the database as it is now: every new fork pins every table, at its
    HEAD with HEAD's checksum; and until FORMAT durably refuses the readers that cannot see
    forks, no object under [forks/] changes - at no moment, whichever calls fail, and after
    a power loss. *)
Theorem forks_pin_every_head fs db names note user_meta d :
  db_fork db = None -> pending d !! format_path = None ->
  Forall (fence_first d) (states fs (Forks.create_forks db names note None user_meta) d) /\
  (forall d', crashes (Forks.create_forks db names note None user_meta) d d' ->
     (forall p, is_prefix FORK_PREFIX p = true -> pending d !! p = None -> files d' !! p = files d !! p) \/ fenced d') /\
  match run fs (Forks.create_forks db names note None user_meta) d with
  | (Ok forks, d') => fenced d' /\ map fk_name forks = names /\
      Forall (fun fk => pins_heads (files d) (fk_pins fk)) forks
  | (Err _, _) => True
  end.
Proof.
  intros Hb Hp. pose proof (wpc_create_forks db names note user_meta d Hb Hp) as Hw. split_ands.
  - by eapply wpc_states.
  - intros d' Hcr. destruct (wpc_crash _ _ _ _ _ Hw Hcr) as (di & [Hs|(f & ff & Hf & Ho & Hm & Hpd)] & Hsv).
    + left. intros p Hpre Hpp. destruct (Hs p Hpre) as [<- Ppd]. apply (survives_stable di); [done|]. congruence.
    + right. exists f, ff. rewrite (survives_stable di) by done. split_ands; [done..|].
      destruct Hsv as [_ ->]. apply lookup_empty.
  - pose proof (wpc_run true _ _ _ _ fs Hw ltac:(done)) as [_ HQ]. by destruct (run fs _ d) as [[forks|e] d'].
Qed.

(** ** Dropping *)

(** Files only disappear, the index aside. *)
Definition shrinks d d' : Prop :=
  forall p, p <> fork_index_path -> files d' !! p = files d !! p \/ files d' !! p = None.
Definition keeps (p : Path) d d' : Prop := files d' !! p = files d !! p.
Definition gone (fork_name : string) (fe : ForkTableEntry) d : Prop :=
  files d !! fork_catalog_entry_path fork_name (fe_name fe) = None /\ files d !! head_path (fe_table_id fe) = None.

Lemma shrinks_trans d1 d2 d3 : shrinks d1 d2 -> shrinks d2 d3 -> shrinks d1 d3.
Proof. intros H1 H2 p Hp. destruct (H2 p Hp) as [E|E]; [rewrite E; auto|auto]. Qed.
Lemma shrinks_same d d' : same_files d d' -> shrinks d d'.
Proof. intros [E _] p _. rewrite E. auto. Qed.
Lemma shrinks_none d d' p : shrinks d d' -> p <> fork_index_path -> files d !! p = None -> files d' !! p = None.
Proof. intros Hs Hp E. destruct (Hs p Hp); congruence. Qed.
Lemma gone_shrinks n fe d d' : shrinks d d' -> gone n fe d -> gone n fe d'.
Proof. intros Hs [H1 H2]. split; by eapply shrinks_none. Qed.

Definition deleted (p : Path) d : Disk := (effect (Delete p) d).2.
Lemma shrinks_deleted p d : shrinks d (deleted p d).
Proof.
  intros q _. unfold deleted. cbn. destruct (files d !! p) eqn:E; [|auto].
  destruct (decide (q = p)) as [->|Hne]; [right; apply files_del_eq|left; by apply files_del_ne].
Qed.
Lemma keeps_deleted q p d : q <> p -> keeps q d (deleted p d).
Proof. intros Hne. unfold keeps, deleted. cbn. destruct (files d !! p); [by apply files_del_ne|done]. Qed.
Lemma deleted_none p d : files (deleted p d) !! p = None.
Proof. unfold deleted. cbn. destruct (files d !! p) eqn:E; [apply files_del_eq|done]. Qed.

Definition shrunk (fp : Path) d0 d : Prop := shrinks d0 d /\ keeps fp d0 d.

Lemma wpc_delete fp p d0 d (Q : DbResult unit -> Disk -> Prop) :
  fp <> p -> shrunk fp d0 d -> (forall e d', shrunk fp d0 d' -> Q (Err e) d') ->
  (shrunk fp d0 (deleted p d) -> Q (Ok tt) (deleted p d)) ->
  wpc true (Backend.delete p) d Q (shrunk fp d0).
Proof.
  intros Hp [Hs Hk] HE HO.
  assert (H1 : shrunk fp d0 (deleted p d)).
  { split; [eapply shrinks_trans; [done|apply shrinks_deleted]|].
    unfold keeps in *. rewrite <- Hk. by apply keeps_deleted. }
  apply wpc_call; [done|exact H1|by apply HO|]. intros _. split; apply HE; [done|exact H1].
Qed.

Lemma wpc_drop_owned n fe d :
  let fp := fork_path n in
  wpc true (Forks.drop_owned n fe) d
    (fun r d' => shrunk fp d d' /\ (r = Ok tt -> gone n fe d')) (shrunk fp d).
Proof.
  intros fp. unfold Forks.drop_owned, ForkTableEntry.remove_entry, Commit.delete_table_objects, LocalHeadStore.remove.
  set (Q := fun r d' => _). assert (HE : forall e d', shrunk fp d d' -> Q (Err e) d') by (by split).
  assert (H0 : shrunk fp d d) by (split; [by apply shrinks_same|done]).
  set (d1 := deleted (fork_catalog_entry_path n (fe_name fe)) d).
  set (d2 := deleted (head_path (fe_table_id fe)) d1).
  apply wpc_bind. apply (wpc_delete fp); [done|done|intros; split; auto|]. intros H1. fold d1 in H1 |- *.
  apply wpc_bind, wpc_bind. apply wpc_lock; [done| |intros _; split; [done|split; auto]].
  apply (wpc_delete fp); [done|done|intros; split; auto|]. intros H2. fold d2 in H2 |- *.
  assert (Hg : gone n fe d2).
  { split; [|apply deleted_none]. eapply shrinks_none; [apply shrinks_deleted|done|apply deleted_none]. }
  eapply (finds_step _ d2); [by apply (finds_list _ _ (eq (listed (files d2) (table_prefix (fe_table_id fe)))))|done|..].
  { intros d' Hs. split; [eapply shrinks_trans; [apply H2|by apply shrinks_same]|]. unfold keeps. rewrite (proj1 Hs). apply H2. }
  { intros e d' Hs. apply HE. split; [eapply shrinks_trans; [apply H2|by apply shrinks_same]|]. unfold keeps. rewrite (proj1 Hs). apply H2. }
  intros objects d3 H3 <-. set (I := fun d' => shrunk fp d d' /\ shrinks d2 d').
  eapply wpc_mono with (Q := fun _ => I) (C := I); [|by intros d' [? _]|].
  { intros r d' [? Hs]. split; [done|]. intros _. by eapply gone_shrinks. }
  apply wpc_for_each.
  - intros p d' Hp [Hs1 Hs2]. apply in_map_iff in Hp as ([q f] & <- & Hl). cbn [fst].
    assert (Hne : fp <> q) by (apply listed_in_table in Hl as (x & rest & ->); done).
    assert (HI : I (deleted q d')).
    { split; [|eapply shrinks_trans; [done|apply shrinks_deleted]]. split; [eapply shrinks_trans; [apply Hs1|apply shrinks_deleted]|].
      destruct Hs1 as [_ Hk]. unfold keeps in *. rewrite <- Hk. by apply keeps_deleted. }
    apply wpc_call; [by split|exact HI|exact HI|]. intros _. by split; [split|].
  - split; [|by apply shrinks_same]. split; [eapply shrinks_trans; [apply H2|by apply shrinks_same]|].
    unfold keeps. rewrite (proj1 H3). apply H2.
Qed.

Lemma wpc_drop_all_owned n fes : forall d,
  wpc true (for_each (Forks.drop_owned n) fes) d
    (fun r d' => shrunk (fork_path n) d d' /\ (r = Ok tt -> Forall (fun fe => gone n fe d') fes))
    (shrunk (fork_path n) d).
Proof.
  induction fes as [|fe fes IH]; intros d; cbn [for_each].
  - assert (shrunk (fork_path n) d d) by (split; [by apply shrinks_same|done]). by apply wpc_ret.
  - assert (HT : forall d1 d2, shrunk (fork_path n) d d1 -> shrunk (fork_path n) d1 d2 -> shrunk (fork_path n) d d2).
    { intros d1 d2 [H1 H2] [H3 H4]. split; [by eapply shrinks_trans|]. unfold keeps in *. congruence. }
    apply wpc_bind. eapply wpc_mono; [|intros d' H'; exact H'|apply wpc_drop_owned].
    intros [[]|e] d1 [H1 Hg1]; [|by split_ands]. eapply wpc_mono; [| |apply IH]; cbv beta.
    + intros r d2 [H2 Hg2]. split; [by eapply HT|]. intros E. constructor; [|auto].
      eapply gone_shrinks; [apply H2|auto].
    + intros d2. by apply HT.
Qed.

(** The tables a fork owns. *)
Definition owns_table m (n : string) (fe : ForkTableEntry) : Prop :=
  exists f, m !! fork_catalog_entry_path n (fe_name fe) = Some f /\ fl_obj f = OForkEntry fe.

(** The pin outlives the tables: while anything the fork owns is left, so is the fork. *)
Definition pin_last d n d' : Prop :=
  keeps (fork_path n) d d' \/ forall fe, owns_table (files d) n fe -> gone n fe d'.

Lemma no_dependents m x n fe fk pin :
  index_of m x -> Forks.depending_on x n = [] -> owns_table m n fe ->
  (exists f me, m !! fork_path n = Some f /\ fl_obj f = OFork me /\ fk_name me = n) ->
  pinned_by m (fe_table_id fe) fk pin -> fk_name fk = n.
Proof.
  intros Hx Hd (g & Hg & Hfe) (f & me & Hf & Hme & Hn) Hpin. subst n.
  destruct (io_pins _ _ Hx f me Hf Hme) as (e & _ & He & _).
  destruct (io_owned _ _ Hx _ _ g fe e Hg Hfe He) as (it & Hit & Eid).
  destruct (index_pin _ _ _ _ _ Hx Hpin) as (e2 & Hin2 & Hp2).
  unfold Forks.depending_on in Hd. rewrite He in Hd. apply map_eq_nil in Hd.
  destruct (String.eqb (fk_name fk) (fk_name me)) eqn:Enm; [by apply String.eqb_eq|exfalso].
  assert (Hflt : In (fk_name fk, e2) []); [|done]. rewrite <- Hd. apply filter_In. split; [done|]. cbn [fst snd]. rewrite Enm.
  apply existsb_exists. exists (fe_table_id fe). split.
  - apply bget_In in Hp2. by apply (in_map fst) in Hp2.
  - apply bool_decide_eq_true, list_elem_of_In. rewrite <- Eid. apply in_map.
    apply bget_In in Hit. by apply (in_map snd) in Hit.
Qed.

Lemma finds_fork_entries m n :
  finds m (ForkTableEntry.list_entries n) (all_of m (fork_catalog_prefix n) OForkEntry).
Proof.
  unfold ForkTableEntry.list_entries.
  eapply finds_bind; [by apply (finds_list _ _ (eq (listed m (fork_catalog_prefix n))))|].
  intros metas <-. eapply finds_bind; [apply (finds_objects _ _ OForkEntry)|].
  - by intros ? ? [= ->].
  - intros o p a. unfold ForkTableEntry.parse. destruct o; try done. destruct (verify _ _ _); cbn; congruence.
  - intros out Hout. by apply finds_ret, all_of_sort.
Qed.

(** Deleting the last object. *)
Lemma wpc_release d n d1 (Q : DbResult unit -> Disk -> Prop) :
  keeps (fork_path n) d d1 -> (forall fe, owns_table (files d) n fe -> gone n fe d1) ->
  (forall r d', pin_last d n d' -> Q r d') -> wpc true (Fork.delete n) d1 Q (pin_last d n).
Proof.
  intros Hk Hg HQ. assert (H1 : pin_last d n d1) by by left.
  assert (H2 : pin_last d n (deleted (fork_path n) d1)).
  { right. intros fe Hfe. eapply gone_shrinks; [apply shrinks_deleted|auto]. }
  apply wpc_call; [done|exact H2|by apply HQ|intros _; split; by apply HQ].
Qed.

Lemma wpc_drop_fork db n d :
  Inj (=) (=) hash_name -> forks_in_place (files d) -> index_honest (files d) ->
  wpc true (Forks.drop_fork db n) d (fun r d' => pin_last d n d' /\
    (is_ok r = true -> forall fe fk pin, owns_table (files d) n fe -> pinned_by (files d) (fe_table_id fe) fk pin -> fk_name fk = n))
    (pin_last d n).
Proof.
  intros Hinj Hip Hho. unfold Forks.drop_fork, Forks.drop_prologue. set (Q := fun r d' => _).
  assert (HE : forall e d', pin_last d n d' -> Q (Err e) d') by (by split).
  assert (HC : forall d', same_files d d' -> pin_last d n d') by (intros d' [E _]; left; unfold keeps; by rewrite E).
  eapply (finds_step _ d); [apply finds_read_only|done|auto|auto|].
  { apply read_only_bind; [unfold Database.ensure_writable; by destruct (db_read_only db)|]. intros _.
    by apply read_only_bind; [unfold Database.ensure_base; by destruct (db_fork db)|]. }
  intros _ d1 H1 _. unfold Forks.drop_fork_locked.
  eapply (finds_step _ d); [apply finds_fork_load|auto|auto|auto|]. intros fork d2 H2 [Hn (f & Hf & Hfk)].
  assert (HF : forall d', frame [fork_index_path] d2 d' -> keeps (fork_path n) d d').
  { intros d' Hfr. unfold keeps. rewrite <- (proj1 H2). apply Hfr. by rewrite list_elem_of_singleton. }
  unfold Forks.forks_depending_on, Database.fork_index. apply wpc_bind, wpc_bind.
  apply wpc_refresh; [done|by rewrite (proj1 H2)..|intros; left; auto|intros; split_ands; [left; auto..|apply HE; left; auto]|].
  intros x d3 H3 Hx. rewrite (proj1 H2) in Hx. pose proof (HF _ H3) as K3.
  apply wpc_ret; [by left|]. destruct (negb _) eqn:Edep; [apply wpc_ret; [by left|apply HE; by left]|].
  assert (Hdep : Forks.depending_on x n = []).
  { apply negb_false_iff in Edep. by destruct (Forks.depending_on x n). }
  eapply (finds_step _ d3); [apply finds_fork_entries|done| | |].
  { intros d' Hs. left. unfold keeps. by rewrite (proj1 Hs). }
  { intros e d' Hs. apply HE. left. unfold keeps. by rewrite (proj1 Hs). }
  intros entries d4 H4 Hent. rewrite Hn in Hent.
  assert (K4 : keeps (fork_path n) d d4) by (unfold keeps; by rewrite (proj1 H4)).
  assert (HK : forall d', shrunk (fork_path n) d4 d' -> keeps (fork_path n) d d').
  { intros d' [_ Hk]. unfold keeps in *. congruence. }
  apply wpc_bind. rewrite Hn.
  eapply wpc_mono; [|intros d' Hd'; left; by apply HK|apply wpc_drop_all_owned]; cbv beta.
  intros [[]|e] d5 [H5 Hg]; [|split; [left; auto|apply HE; left; auto]]. specialize (Hg eq_refl).
  apply wpc_bind. apply wpc_release; [auto| |].
  - intros fe (g & Hg' & Hfe). rewrite List.Forall_forall in Hg. apply Hg, Hent.
    exists (fork_catalog_entry_path n (fe_name fe)), g. split; [|done]. apply in_listed. split.
    + assert (E3 : files d3 !! fork_catalog_entry_path n (fe_name fe) = files d2 !! fork_catalog_entry_path n (fe_name fe)).
      { apply H3. by rewrite list_elem_of_singleton. }
      rewrite E3, (proj1 H2). done.
    + split; [by apply is_prefix_app; eexists [_]|done].
  - intros [[]|e] d6 H6; [|split; auto]. apply wpc_ret; [done|]. split; [done|]. intros _ fe fk pin Hfe.
    apply (no_dependents _ x); [done..|]. by exists f, fork.
Qed.

(** Dropping a fork refuses while another fork pins a table it owns, and deletes in an order
    that never orphans data: at no moment, whichever calls fail, is the fork object gone
    while a table it owns still has its entry or its HEAD. *)
Theorem drop_releases_the_pin_last fs db n d :
  Inj (=) (=) hash_name -> forks_in_place (files d) -> index_honest (files d) ->
  Forall (pin_last d n) (states fs (Forks.drop_fork db n) d) /\
  (is_ok (run fs (Forks.drop_fork db n) d).1 = true -> forall fe fk pin,
     owns_table (files d) n fe -> pinned_by (files d) (fe_table_id fe) fk pin -> fk_name fk = n).
Proof.
  intros Hinj Hip Hho. pose proof (wpc_drop_fork db n d Hinj Hip Hho) as Hw. split; [by eapply wpc_states|].
  by pose proof (wpc_run true _ _ _ _ fs Hw ltac:(done)) as [_ HQ].
Qed.
End ForkProps.
