(* ===== verification/Arrow.v ===== *)
(** * Rows: Arrow arrays and Parquet files

    The values the row data plane works on.  A cell of an array is its physical value: an
    integer for the integer, date, time, timestamp and decimal types, a binary64 number, a
    string, a boolean.  The kernels of [arrow::compute], the comparators, the row format and
    the Parquet reader and writer are third-party code: the class [ArrowRows] has them as
    operations, and [ArrowRowsSpec] states what the theorems use of their documentation. *)
From S2P Require Export Database.

Inductive Cell := CInt (z : Z) | CFloat (x : f64) | CStr (s : string) | CBool (b : bool)
| COther (bytes : string).
#[export] Instance Cell_eq_dec : EqDecision Cell.
Proof. solve_decision. Defined.

Abbreviation Column := (Array Cell) (only parsing).
Abbreviation RecordBatch := (Batch Cell) (only parsing).

(** ** Parquet metadata *)

(** The [min] and [max] of a column chunk, by physical type. *)
Inductive Statistics :=
| StatInt64 (min max : option Z)
| StatInt32 (min max : option Z)
| StatOther.

(** [pm_leaves]: the path of every leaf column.  [pm_row_groups]: per row group the
    statistics of each leaf. *)
Record ParquetMeta := mkParquetMeta {
  pm_schema : Schema;
  pm_leaves : list (list string);
  pm_row_groups : list (list (option Statistics));
}.

Inductive Compression := ZSTD (level : Z) | LZ4_RAW | SNAPPY | UNCOMPRESSED.
Record WriterProperties := mkWriterProperties {
  wp_compression : Compression;
  wp_rows_per_group : Z;
  wp_bloom_columns : list string;
}.

Class ArrowRows := {
  arrow_kernels :: ArrowKernels Cell;
  (** The order of the comparators and of the row format: ascending, nulls first. *)
  cell_compare : option Cell -> option Cell -> comparison;
  comparable : DataType -> bool;
  row_converter : list DataType -> bool;
  convert_columns : list DataType -> list Column -> bool;
  compute_min : Column -> option Cell;
  compute_max : Column -> option Cell;
  concat_batches : Schema -> list RecordBatch -> option RecordBatch;
  lexsort_to_indices : list Column -> option (list nat);
  take : Column -> list nat -> option Column;
  interleave : list Column -> list (nat * nat) -> option Column;
  filter_record_batch : RecordBatch -> list bool -> option RecordBatch;
  get_array_memory_size : RecordBatch -> Z;
  json_f64 : f64 -> Json;
  ipc_write : Schema -> list RecordBatch -> option string;
  ipc_read : string -> option (list RecordBatch);
  b64_encode : string -> string;
  b64_decode : string -> option string;
  parquet_write : WriterProperties -> Schema -> list RecordBatch -> option string;
  parquet_metadata : string -> option ParquetMeta;
  (** Projection by root columns and selection of row groups; [None] is all of them. *)
  parquet_read : string -> option (list nat) -> option (list nat) -> option (list RecordBatch);
}.

Section Arrays.
Context `{ArrowRows}.

Definition is_null (c : option Cell) : bool := match c with None => true | Some _ => false end.
Definition null_count (a : Column) : Z := zlen (List.filter is_null (ar_cells a)).
Definition cell (a : Column) (i : nat) : option Cell := default None (ar_cells a !! i).

(** The value of an [Int64Array] slot; a null slot reads as zero. *)
Definition int_of (c : option Cell) : Z := match c with Some (CInt z) => z | _ => 0 end.
Definition int_values (a : Column) : list Z := map int_of (ar_cells a).

Definition column_by_name (b : RecordBatch) (name : string) : option Column :=
  match index_of (rb_schema b) name with Some i => rb_columns b !! i | None => None end.
Definition num_rows (b : RecordBatch) : Z := Z.of_nat (rb_rows b).

(** [RecordBatch::slice]: zero-copy windows of the columns. *)
Definition slice_column (off len : nat) (a : Column) : Column :=
  mkArray Cell (ar_type a) (firstn len (skipn off (ar_cells a))).
Definition slice (b : RecordBatch) (off len : nat) : RecordBatch :=
  mkBatch Cell (rb_schema b) (map (slice_column off len) (rb_columns b)) (Nat.min len (rb_rows b - off)).

(** [RecordBatch::project]. *)
Definition project (b : RecordBatch) (indices : list nat) : option RecordBatch :=
  match mapM (fun i => rb_schema b !! i) indices, mapM (fun i => rb_columns b !! i) indices with
  | Some s, Some cs => Some (mkBatch Cell s cs (rb_rows b))
  | _, _ => None
  end.

(** Rows compared by their key columns, the first that differs decides. *)
Fixpoint compare_keys (a b : list (option Cell)) : comparison :=
  match a, b with
  | x :: a', y :: b' => match cell_compare x y with Eq => compare_keys a' b' | c => c end
  | _, _ => Eq
  end.
End Arrays.

(** ** What the theorems use of the kernels *)
Section Rows.
Context `{ArrowRows}.

(** The rows of a batch, and the shape every [RecordBatch] has. *)
Definition row_at (cols : list Column) (i : nat) : list (option Cell) := map (fun c => cell c i) cols.
Definition table_rows (b : RecordBatch) : list (list (option Cell)) :=
  map (row_at (rb_columns b)) (seq 0 (rb_rows b)).
Definition all_rows (bs : list RecordBatch) : list (list (option Cell)) := concat (map table_rows bs).
Definition shaped (b : RecordBatch) : Prop :=
  length (rb_columns b) = length (rb_schema b) /\
  Forall (fun c => length (ar_cells c) = rb_rows b) (rb_columns b).

(** A batch whose columns fit a schema, which may promise more than its own. *)
Definition fits (s : Schema) (b : RecordBatch) : Prop :=
  map fd_name (rb_schema b) = map fd_name s /\ Forall2 (column_fits (rb_rows b)) s (rb_columns b).

(** Columns stored as 64-bit integers: their chunks have [StatInt64] statistics, which bound
    the values. *)
Definition wide (t : DataType) : bool := match t with Int64 | Date64 | Timestamp _ => true | _ => false end.
Definition within (stats : option Statistics) (c : option Cell) : Prop :=
  match c with
  | None => True
  | Some (CInt z) =>
      match stats with
      | Some (StatInt64 (Some mn) (Some mx)) => mn <= z <= mx
      | Some _ => False
      | None => True
      end
  | Some _ => False
  end.

Definition cell_le (a b : option Cell) : Prop := cell_compare a b <> Gt.
Definition keys_le (a b : list (option Cell)) : Prop := compare_keys a b <> Gt.
End Rows.

Class ArrowRowsSpec `{ArrowRows} := {
  arrow_laws :: ArrowLaws Cell;
  cell_compare_refl : forall a, cell_compare a a = Eq;
  cell_compare_swap : forall a b, cell_compare b a = CompOpp (cell_compare a b);
  cell_le_trans : forall a b c, cell_le a b -> cell_le b c -> cell_le a c;
  cell_compare_int : forall x y, cell_compare (Some (CInt x)) (Some (CInt y)) = (x ?= y);
  cell_compare_str : forall x y, cell_compare (Some (CStr x)) (Some (CStr y)) = String.compare x y;
  compute_min_spec : forall a,
    match compute_min a with
    | Some m => In (Some m) (ar_cells a) /\ forall c, In (Some c) (ar_cells a) -> cell_le (Some m) (Some c)
    | None => Forall (fun c => c = None) (ar_cells a)
    end;
  compute_max_spec : forall a,
    match compute_max a with
    | Some m => In (Some m) (ar_cells a) /\ forall c, In (Some c) (ar_cells a) -> cell_le (Some c) (Some m)
    | None => Forall (fun c => c = None) (ar_cells a)
    end;
  try_new_inv : forall s cols b, try_new s cols = Some b ->
    rb_schema b = s /\ rb_columns b = cols /\ shaped b;
  concat_spec : forall s bs b, concat_batches s bs = Some b ->
    rb_schema b = s /\ shaped b /\ (s <> [] -> valid_batch b) /\ table_rows b = all_rows bs;
  take_spec : forall a idx b, take a idx = Some b ->
    ar_type b = ar_type a /\ ar_cells b = map (cell a) idx;
  lexsort_spec : forall cols n idx, cols <> [] -> Forall (fun c => length (ar_cells c) = n) cols ->
    lexsort_to_indices cols = Some idx ->
    idx ≡ₚ seq 0 n /\ StronglySorted (fun i j => keys_le (row_at cols i) (row_at cols j)) idx;
  interleave_spec : forall sources picks a, interleave sources picks = Some a ->
    ar_cells a = map (fun p => default None (sources !! p.1 ≫= fun c => ar_cells c !! p.2)) picks;
  interleave_same_type : forall sources picks t, sources <> [] ->
    Forall (fun c => ar_type c = t) sources ->
    Forall (fun p => exists c, sources !! p.1 = Some c /\ (p.2 < length (ar_cells c))%nat) picks ->
    exists a, interleave sources picks = Some a /\ ar_type a = t;
  filter_spec : forall b mask f, length mask = rb_rows b -> filter_record_batch b mask = Some f ->
    rb_schema f = rb_schema b /\ shaped f /\ (valid_batch b -> valid_batch f) /\
    table_rows f = map snd (List.filter fst (combine mask (table_rows b)));
  parquet_roundtrip : forall props s bs c, s <> [] -> Forall (fits s) bs ->
    parquet_write props s bs = Some c ->
    is_Some (parquet_metadata c) /\
    exists bs', parquet_read c None None = Some bs' /\ all_rows bs' = all_rows bs /\
      Forall (fun b => rb_schema b = s /\ fits s b) bs';
  (** The row groups partition the rows, can be read alone, and have true statistics. *)
  parquet_groups : forall props s bs c meta, s <> [] -> NoDup (map fd_name s) -> Forall (fits s) bs ->
    parquet_write props s bs = Some c -> parquet_metadata c = Some meta ->
    exists groups, concat groups = all_rows bs /\ length groups = length (pm_row_groups meta) /\
      (forall sel out, parquet_read c None (Some sel) = Some out ->
         all_rows out = concat (map (fun k => default [] (groups !! k)) sel) /\
         Forall (fun b => rb_schema b = s /\ fits s b) out) /\
      (forall i f leaf k rows stats, s !! i = Some f -> wide (fd_type f) ->
         pm_leaves meta !! leaf = Some [fd_name f] -> groups !! k = Some rows -> pm_row_groups meta !! k = Some stats ->
         Forall (fun r => within (mjoin (stats !! leaf)) (default None (r !! i))) rows);
  cast_i64_time : forall a b, cast a Int64 = Some b ->
    match ar_type a with Int64 | Date64 | Timestamp _ => ar_cells b = ar_cells a | _ => True end;
}.

Section Order.
Context `{ArrowRowsSpec}.

Lemma compare_keys_refl a : compare_keys a a = Eq.
Proof. induction a as [|x a IH]; cbn; [done|]. by rewrite cell_compare_refl. Qed.

Lemma compare_keys_swap a b : compare_keys b a = CompOpp (compare_keys a b).
Proof.
  revert b. induction a as [|x a IH]; intros [|y b]; cbn; try done.
  rewrite (cell_compare_swap x y). destruct (cell_compare x y); cbn; [apply IH|done|done].
Qed.

Lemma keys_le_total a b : keys_le a b \/ keys_le b a.
Proof.
  unfold keys_le. rewrite (compare_keys_swap a b). destruct (compare_keys a b); cbn; [left|left|right]; done.
Qed.

(** A comparison decided by [<=] both ways. *)
Lemma cell_compare_le x y : cell_compare x y = match cell_compare x y with Gt => Gt | c => c end.
Proof. by destruct (cell_compare x y). Qed.

Lemma cell_lt_le x y z : cell_compare x y = Lt -> cell_le y z -> cell_compare x z = Lt.
Proof.
  intros Hlt Hle. destruct (cell_compare x z) eqn:E; [|done|].
  - assert (Hz : cell_le y x).
    { eapply cell_le_trans; [exact Hle|]. unfold cell_le. rewrite (cell_compare_swap x z), E. done. }
    unfold cell_le in Hz. by rewrite (cell_compare_swap x y), Hlt in Hz.
  - exfalso. apply (cell_le_trans x y z); [unfold cell_le; by rewrite Hlt|exact Hle|exact E].
Qed.
Lemma cell_le_lt x y z : cell_le x y -> cell_compare y z = Lt -> cell_compare x z = Lt.
Proof.
  intros Hle Hlt. destruct (cell_compare x z) eqn:E; [|done|].
  - assert (Hz : cell_le z y).
    { eapply cell_le_trans; [|exact Hle]. unfold cell_le. rewrite (cell_compare_swap x z), E. done. }
    unfold cell_le in Hz. by rewrite (cell_compare_swap y z), Hlt in Hz.
  - exfalso. apply (cell_le_trans x y z); [exact Hle|unfold cell_le; by rewrite Hlt|exact E].
Qed.
Lemma cell_eq_trans x y z : cell_compare x y = Eq -> cell_compare y z = Eq -> cell_compare x z = Eq.
Proof.
  intros H1 H2. destruct (cell_compare x z) eqn:E; [done| |]; exfalso.
  - assert (Hb : cell_le z x).
    { apply (cell_le_trans z y x); unfold cell_le.
      - by rewrite (cell_compare_swap y z), H2.
      - by rewrite (cell_compare_swap x y), H1. }
    unfold cell_le in Hb. by rewrite (cell_compare_swap x z), E in Hb.
  - apply (cell_le_trans x y z); [unfold cell_le; by rewrite H1|unfold cell_le; by rewrite H2|exact E].
Qed.

(** Transitivity for rows with as many keys. *)
Lemma keys_le_trans a b c :
  length a = length b -> length b = length c -> keys_le a b -> keys_le b c -> keys_le a c.
Proof.
  unfold keys_le. revert b c. induction a as [|x a IH]; intros [|y b] [|z c]; cbn; try done.
  intros [= H1] [= H2] Hab Hbc.
  destruct (cell_compare x y) eqn:Exy; [|..|done].
  - destruct (cell_compare y z) eqn:Eyz; [|..|done].
    + rewrite (cell_eq_trans x y z) by done. by apply (IH b c).
    + rewrite (cell_le_lt x y z); [done|unfold cell_le; by rewrite Exy|done].
  - rewrite (cell_lt_le x y z); [done|done|]. unfold cell_le. by destruct (cell_compare y z).
Qed.
End Order.
