(* ===== verification/DataPolicy.v ===== *)
(** * Data-safety policies ([data_policy.rs])

    The predicate grammar and its evaluation over Arrow arrays, a whole column mask at a
    time; loading, storing and clearing the sidecar of a table; the methods of [Database]
    that use them.  Then the meaning of a predicate for one row ([row_holds]) and the
    theorem that [enforce] accepts exactly the batches whose rows all satisfy it. *)
From S2P Require Export Float64 Arrow.

(** The types [cell_at] reads as integers through a cast. *)
Definition time_like (t : DataType) : bool :=
  match t with
  | Timestamp _ | Date32 | Date64 | Time32 _ | Time64 _ | Duration _ => true
  | _ => false
  end.

Module DataPolicyEval.
Definition FORMAT : Z := 1.

Definition eval_ordering (op : CmpOp) (ord : comparison) : bool :=
  match op, ord with
  | CmpEq, Eq | CmpLt, Lt | CmpGt, Gt => true
  | CmpNe, (Lt | Gt) | CmpLe, (Lt | Eq) | CmpGe, (Eq | Gt) => true
  | _, _ => false
  end.

Inductive PolicyCell := Null | Int (z : Z) | Float (x : f64) | Str (s : string) | Bool (b : bool).

Definition cmp_f64 (a b : f64) : comparison := default Gt (SFcompare a b).

Definition cmp_bool (a b : bool) : comparison :=
  match a, b with false, true => Lt | true, false => Gt | _, _ => Eq end.

Definition compare_cell (c : PolicyCell) (op : CmpOp) (lit : ScalarLit) : DbResult bool :=
  match c, lit with
  | Null, _ => Ok false
  | Int a, LInt b => Ok (eval_ordering op (a ?= b))
  | Int a, LFloat b => Ok (eval_ordering op (cmp_f64 (f64_of_int a) b))
  | Float a, LFloat b => Ok (eval_ordering op (cmp_f64 a b))
  | Float a, LInt b => Ok (eval_ordering op (cmp_f64 a (f64_of_int b)))
  | Str a, LStr b => Ok (eval_ordering op (String.compare a b))
  | Bool a, LBool b =>
      match op with
      | CmpEq | CmpNe => Ok (eval_ordering op (cmp_bool a b))
      | _ => Err (InvalidInput "data policy: ordering comparison on boolean column")
      end
  | _, _ => Err (InvalidInput "data policy: type mismatch comparing column against literal")
  end.

Section Eval.
Context `{ArrowRows}.

Definition column_array (b : RecordBatch) (column : string) : DbResult Column :=
  ok_or (column_by_name b column) (InvalidInput "data policy references unknown column").

(** A cell that is not of the physical form of its type cannot be built in Arrow. *)
Definition int_cell (c : Cell) : PolicyCell := match c with CInt z => Int z | _ => Null end.

Definition cell_at (a : Column) (i : nat) : DbResult PolicyCell :=
  match cell a i with
  | None => Ok Null
  | Some c =>
      match ar_type a with
      | Int8 | Int16 | Int32 | Int64 | UInt8 | UInt16 | UInt32 | UInt64 => Ok (int_cell c)
      | Float32 | Float64 => Ok (match c with CFloat x => Float x | _ => Null end)
      | Utf8 | LargeUtf8 => Ok (match c with CStr s => Str s | _ => Null end)
      | Boolean => Ok (match c with CBool x => Bool x | _ => Null end)
      | t =>
          if time_like t then
            match cast a Int64 with
            | None => Err (InvalidInput "data policy: time column not i64-able")
            | Some casted =>
                if bool_decide (ar_type casted = Int64) then Ok (Int (int_of (cell casted i)))
                else Err (InvalidInput "data policy: time column cast did not yield i64")
            end
          else Err (InvalidInput "data policy: unsupported column type for comparison")
      end
  end.

Fixpoint in_set (c : PolicyCell) (values : list ScalarLit) : DbResult bool :=
  match values with
  | [] => Ok false
  | v :: values' =>
      let? eq := compare_cell c CmpEq v in
      if eq then Ok true else in_set c values'
  end.

Definition rows_of (b : RecordBatch) : list nat := seq 0 (rb_rows b).
Definition zip_with_bool (f : bool -> bool -> bool) (a b : list bool) : list bool :=
  map (fun p => f p.1 p.2) (combine a b).

Fixpoint eval_mask (pred : Predicate) (b : RecordBatch) : DbResult (list bool) :=
  match pred with
  | NotNull column =>
      let? a := column_array b column in
      Ok (map (fun i => negb (is_null (cell a i))) (rows_of b))
  | Compare column op value =>
      let? a := column_array b column in
      map_res (fun i => let? c := cell_at a i in compare_cell c op value) (rows_of b)
  | InSet column values =>
      let? a := column_array b column in
      map_res (fun i => let? c := cell_at a i in in_set c values) (rows_of b)
  | PAnd p q =>
      let? mp := eval_mask p b in let? mq := eval_mask q b in Ok (zip_with_bool andb mp mq)
  | POr p q =>
      let? mp := eval_mask p b in let? mq := eval_mask q b in Ok (zip_with_bool orb mp mq)
  | PNot p => let? mp := eval_mask p b in Ok (map negb mp)
  end.

(** The running count of violations and the first of them, as (batch, row). *)
Abbreviation Tally := (Z * option (nat * nat))%type (only parsing).
Definition note_row (bi : nat) (t : Tally) (entry : nat * bool) : Tally :=
  let '(row, satisfied) := entry in
  if satisfied then t
  else (t.1 + 1, match t.2 with None => Some (bi, row) | first => first end).
Definition tally_batch (c : Constraint) (t : Tally) (entry : nat * RecordBatch) : DbResult Tally :=
  let '(bi, batch) := entry in
  if num_rows batch =? 0 then Ok t
  else
    let? mask := eval_mask (cn_predicate c) batch in
    Ok (fold_left (note_row bi) (combine (seq 0 (length mask)) mask) t).

Definition enforce_one (batches : list RecordBatch) (c : Constraint) : DbResult unit :=
  let? t := foldr_res (tally_batch c) (0, None) (combine (seq 0 (length batches)) batches) in
  if t.1 =? 0 then Ok tt
  else
    match cn_on_fail c with
    | Warn => Ok tt
    | Reject =>
        let '(bi, row) := default (0%nat, 0%nat) t.2 in
        Err (DataPolicyViolation (cn_name c) t.1 bi row)
    end.

Definition enforce (p : DataPolicy) (batches : list RecordBatch) : DbResult unit :=
  foldr_res (fun _ c => enforce_one batches c) tt (dp_constraints p).
End Eval.
End DataPolicyEval.

(** ** The sidecar *)
Module DataPolicyStore.
Section DataPolicyStore.
Context `{Env} `{ArrowRows}.
Implicit Types db : Database.

Definition data_policy_path (t : Uuid) : Path := table_prefix t ++ ["DATA_POLICY.json"].

Definition from_bytes (o : Obj) (path : Path) : DbResult DataPolicy :=
  match o with
  | ODataPolicy p =>
      if DataPolicyEval.FORMAT <? dp_format p
      then Err (FormatTooNew (dp_format p) DataPolicyEval.FORMAT) else Ok p
  | _ => Err (Corruption path "data policy parse")
  end.

Definition load (t : Uuid) : prog (option DataPolicy) :=
  let path := data_policy_path t in
  let! bytes := Backend.get_opt path in
  match bytes with
  | None => ret None
  | Some o => let! p := lift (from_bytes o path) in ret (Some p)
  end.

Definition store (t : Uuid) (p : DataPolicy) : prog unit :=
  let path := data_policy_path t in
  do! Backend.put path (ODataPolicy p) in
  Backend.sync_objects [path].

Definition clear (t : Uuid) : prog unit := Backend.delete (data_policy_path t).

(** *** The methods of [Database] *)
Definition data_policy db (table : string) : prog (option DataPolicy) :=
  let! e := Database.entry db table in load (ce_table_id e).

Definition set_data_policy db (table : string) (p : DataPolicy) : prog unit :=
  do! Database.ensure_writable db "set_data_policy" in
  let! e := Database.entry db table in
  do! Backend.meta_lock in
  store (ce_table_id e) p.

Definition clear_data_policy db (table : string) : prog unit :=
  do! Database.ensure_writable db "clear_data_policy" in
  let! e := Database.entry db table in
  do! Backend.meta_lock in
  clear (ce_table_id e).

Definition enforce_data_policy (t : Uuid) (batches : list RecordBatch) : prog unit :=
  let! p := load t in
  match p with
  | Some policy => lift (DataPolicyEval.enforce policy batches)
  | None => ret tt
  end.
End DataPolicyStore.
End DataPolicyStore.

(** ** The meaning of a predicate, one row at a time *)
Section RowSemantics.
Context `{ArrowRows}.
Import DataPolicyEval.

(** [None]: the predicate cannot be evaluated at the row. *)
Fixpoint row_holds (pred : Predicate) (b : RecordBatch) (i : nat) : option bool :=
  match pred with
  | NotNull column => a ← column_by_name b column; Some (negb (is_null (cell a i)))
  | Compare column op value =>
      a ← column_by_name b column; c ← ok (cell_at a i); ok (compare_cell c op value)
  | InSet column values =>
      a ← column_by_name b column; c ← ok (cell_at a i); ok (in_set c values)
  | PAnd p q => x ← row_holds p b i; y ← row_holds q b i; Some (x && y)
  | POr p q => x ← row_holds p b i; y ← row_holds q b i; Some (x || y)
  | PNot p => x ← row_holds p b i; Some (negb x)
  end.

(** Every row of every batch, by position. *)
Fixpoint rows_from (k : nat) (batches : list RecordBatch) : list ((nat * nat) * RecordBatch) :=
  match batches with
  | [] => []
  | b :: bs => map (fun i => ((k, i), b)) (rows_of b) ++ rows_from (S k) bs
  end.
Definition violates (p : Predicate) (e : (nat * nat) * RecordBatch) : bool :=
  match row_holds p e.2 e.1.2 with Some false => true | _ => false end.
Definition violators (p : Predicate) (batches : list RecordBatch) : list (nat * nat) :=
  map fst (List.filter (violates p) (rows_from 0 batches)).
Definition evaluable (p : Predicate) (batches : list RecordBatch) : Prop :=
  Forall (fun e => is_Some (row_holds p e.2 e.1.2)) (rows_from 0 batches).
Definition evaluableb (p : Predicate) (batches : list RecordBatch) : bool :=
  forallb (fun e => bool_decide (is_Some (row_holds p e.2 e.1.2))) (rows_from 0 batches).

Lemma evaluableb_spec p batches : evaluableb p batches = true <-> evaluable p batches.
Proof.
  unfold evaluableb, evaluable. rewrite forallb_forall, List.Forall_forall.
  split; intros Hf e He; specialize (Hf e He); by apply bool_decide_eq_true in Hf || apply bool_decide_eq_true.
Qed.

(** A column-wise [map_res] is the row-wise answer at every row, or fails at one. *)
Lemma map_res_rows (f : nat -> DbResult bool) (g : nat -> option bool) l :
  (forall i, ok (f i) = g i) ->
  match map_res f l with
  | Ok m => Forall2 (fun i v => g i = Some v) l m
  | Err _ => Exists (fun i => g i = None) l
  end.
Proof.
  intros Hfg. induction l as [|i l IH]; cbn; [constructor|]. specialize (Hfg i).
  destruct (f i); cbn in Hfg; [|by left].
  destruct (map_res f l); [by constructor|by right].
Qed.

Lemma combine_rows (f : bool -> bool -> bool) (g h : nat -> option bool) l m n :
  Forall2 (fun i v => g i = Some v) l m -> Forall2 (fun i v => h i = Some v) l n ->
  Forall2 (fun i v => (x ← g i; y ← h i; Some (f x y)) = Some v) l (zip_with_bool f m n).
Proof.
  intros Hm. revert n. induction Hm as [|i v l m Hi _ IH]; intros n Hn; inversion Hn; subst; [constructor|].
  cbn. constructor; [|by apply IH]. rewrite Hi. cbn. by match goal with E : h i = _ |- _ => rewrite E end.
Qed.

Lemma first_row l : l <> [] -> forall P : nat -> Prop, (forall i, P i) -> Exists P l.
Proof. destruct l; [done|]. intros _ P HP. by left. Qed.

(** [eval_mask] is row-wise evaluation. *)
Lemma eval_mask_rows p b : rb_rows b <> O ->
  match eval_mask p b with
  | Ok m => Forall2 (fun i v => row_holds p b i = Some v) (rows_of b) m
  | Err _ => Exists (fun i => row_holds p b i = None) (rows_of b)
  end.
Proof.
  intros Hne. assert (Hl : rows_of b <> []) by (unfold rows_of; by destruct (rb_rows b)).
  pose proof (first_row _ Hl) as Hfirst.
  induction p as [col|col op v|col vs|p IHp q IHq|p IHp q IHq|p IHp]; cbn [eval_mask row_holds];
    try (unfold column_array; destruct (column_by_name b col) as [a|]; cbn; [|by apply Hfirst]).
  - apply Forall2_fmap_r, Forall_Forall2_diag, Forall_forall. by intros.
  - apply map_res_rows. intros i. by destruct (cell_at a i).
  - apply map_res_rows. intros i. by destruct (cell_at a i).
  - destruct (eval_mask p b); [destruct (eval_mask q b)|].
    + by apply (combine_rows andb).
    + eapply Exists_impl; [exact IHq|]. cbn. intros i ->. by destruct (row_holds p b i).
    + eapply Exists_impl; [exact IHp|]. cbn. by intros i ->.
  - destruct (eval_mask p b); [destruct (eval_mask q b)|].
    + by apply (combine_rows orb).
    + eapply Exists_impl; [exact IHq|]. cbn. intros i ->. by destruct (row_holds p b i).
    + eapply Exists_impl; [exact IHp|]. cbn. by intros i ->.
  - destruct (eval_mask p b).
    + apply Forall2_fmap_r. eapply Forall2_impl; [exact IHp|]. cbn. by intros i v ->.
    + eapply Exists_impl; [exact IHp|]. cbn. by intros i ->.
Qed.

(** Evaluation fails with [InvalidInput] alone. *)
Definition invalid (e : StoreError) : Prop := exists detail, e = InvalidInput detail.

Lemma compare_cell_err c op l e : compare_cell c op l = Err e -> invalid e.
Proof. unfold invalid. destruct c, l, op; cbn; intros [= <-]; eauto. Qed.
Lemma in_set_err c vs e : in_set c vs = Err e -> invalid e.
Proof.
  induction vs as [|v vs IH]; cbn; [done|].
  destruct (compare_cell c CmpEq v) as [[]|] eqn:E; [done|done|]. intros [= <-]. by eapply compare_cell_err.
Qed.
Lemma cell_at_err a i e : cell_at a i = Err e -> invalid e.
Proof.
  unfold cell_at, invalid. destruct (cell a i); [|done].
  destruct (ar_type a); cbn; try done; try (intros [= <-]; eauto);
    destruct (cast a Int64); try case_bool_decide; intros [= <-]; eauto.
Qed.
Lemma eval_mask_err p b e : eval_mask p b = Err e -> invalid e.
Proof.
  assert (Hcol : forall col a, column_array b col = Err a -> invalid a).
  { unfold column_array, invalid. intros col a. destruct column_by_name; cbn; [done|]. intros [= <-]. eauto. }
  revert e. induction p as [col|col op v|col vs|p IHp q IHq|p IHp q IHq|p IHp]; intros e; cbn [eval_mask];
    try (destruct (column_array b col) as [a|] eqn:Ec; [|intros [= <-]; by eapply Hcol]); [done| | | | |].
  - apply map_res_err. intros i e'. destruct (cell_at a i) eqn:E; [apply compare_cell_err|].
    intros [= <-]. by eapply cell_at_err.
  - apply map_res_err. intros i e'. destruct (cell_at a i) eqn:E; [apply in_set_err|].
    intros [= <-]. by eapply cell_at_err.
  - destruct (eval_mask p b); [destruct (eval_mask q b); [done|]|]; intros [= <-]; auto.
  - destruct (eval_mask p b); [destruct (eval_mask q b); [done|]|]; intros [= <-]; auto.
  - destruct (eval_mask p b); [done|]. intros [= <-]. auto.
Qed.
Lemma tally_err c t l e : foldr_res (tally_batch c) t l = Err e -> invalid e.
Proof.
  apply foldr_res_err. intros s [bi b] e'. unfold tally_batch. destruct (_ =? _); [done|].
  destruct eval_mask eqn:E; [done|]. intros [= <-]. by eapply eval_mask_err.
Qed.

(** The tally after finding the violators [l] is the one before plus [l]. *)
Definition found (t : Z * option (nat * nat)) (l : list (nat * nat)) : Z * option (nat * nat) :=
  (t.1 + zlen l, match t.2 with None => head l | first => first end).

Lemma found_app t l l' : found (found t l) l' = found t (l ++ l').
Proof.
  unfold found, zlen. cbn. rewrite length_app. f_equal; [lia|].
  destruct t as [z [f|]], l; reflexivity.
Qed.
Lemma found_nil t : found t [] = t.
Proof. unfold found, zlen. destruct t as [z [f|]]; cbn; f_equal; lia. Qed.

Definition row_violators (p : Predicate) (bi : nat) (b : RecordBatch) (rows : list nat) : list (nat * nat) :=
  map fst (List.filter (violates p) (map (fun i => ((bi, i), b)) rows)).

Lemma note_rows p bi b k n m t :
  Forall2 (fun i v => row_holds p b i = Some v) (seq k n) m ->
  fold_left (note_row bi) (combine (seq k (length m)) m) t = found t (row_violators p bi b (seq k n)).
Proof.
  revert k m t. induction n as [|n IH]; intros k m t Hm; cbn [seq] in *.
  - inversion Hm; subst. cbn. by rewrite found_nil.
  - inversion Hm as [|? v ? m' Hv Hm']; subst. cbn [length seq combine fold_left].
    rewrite IH by done. unfold row_violators. cbn [map List.filter].
    assert (Hvi : violates p (bi, k, b) = negb v).
    { unfold violates. cbn. rewrite Hv. by destruct v. }
    rewrite Hvi. destruct v; cbn; [done|].
    change ((bi, k) :: ?l) with ([(bi, k)] ++ l). rewrite <- found_app. f_equal. 
Qed.

Lemma tally_one c bi b t :
  match tally_batch c t (bi, b) with
  | Ok t' => Forall (fun i => is_Some (row_holds (cn_predicate c) b i)) (rows_of b) /\
             t' = found t (row_violators (cn_predicate c) bi b (rows_of b))
  | Err _ => Exists (fun i => row_holds (cn_predicate c) b i = None) (rows_of b)
  end.
Proof.
  unfold tally_batch, num_rows, rows_of. destruct (Z.eqb_spec (Z.of_nat (rb_rows b)) 0) as [E|E].
  - assert (rb_rows b = O) as -> by lia. cbn. split; [constructor|by rewrite found_nil].
  - assert (Hne : rb_rows b <> O) by lia. pose proof (eval_mask_rows (cn_predicate c) b Hne) as Hm.
    destruct (eval_mask (cn_predicate c) b) as [m|e]; [|exact Hm]. split.
    + clear -Hm. unfold rows_of in Hm. induction Hm as [|i v l m Hv _ IH]; constructor; eauto.
    + exact (note_rows _ _ _ _ _ _ _ Hm).
Qed.

Lemma tally_all c k batches t :
  match foldr_res (tally_batch c) t (combine (seq k (length batches)) batches) with
  | Ok t' => Forall (fun e => is_Some (row_holds (cn_predicate c) e.2 e.1.2)) (rows_from k batches) /\
             t' = found t (map fst (List.filter (violates (cn_predicate c)) (rows_from k batches)))
  | Err _ => Exists (fun e => row_holds (cn_predicate c) e.2 e.1.2 = None) (rows_from k batches)
  end.
Proof.
  revert k t. induction batches as [|b bs IH]; intros k t; cbn [length seq combine foldr_res rows_from].
  - split; [constructor|by rewrite found_nil].
  - pose proof (tally_one c k b t) as H1. destruct (tally_batch c t (k, b)) as [t1|e].
    + destruct H1 as [Hf ->]. specialize (IH (S k) (found t (row_violators (cn_predicate c) k b (rows_of b)))).
      destruct foldr_res.
      * destruct IH as [Hr ->]. split; [apply Forall_app; split; [by apply Forall_map|done]|].
        rewrite found_app. unfold row_violators. by rewrite List.filter_app, map_app.
      * apply Exists_app. by right.
    + apply Exists_app. left. by apply Exists_fmap.
Qed.

Lemma not_evaluable p batches :
  Exists (fun e => row_holds p e.2 e.1.2 = None) (rows_from 0 batches) -> ~ evaluable p batches.
Proof.
  intros Hx Hf. apply Exists_exists in Hx as (e & He & Hn).
  unfold evaluable in Hf. rewrite Forall_forall in Hf. destruct (Hf e He) as [v Hv]. by rewrite Hn in Hv.
Qed.

(** What a constraint that lets the batches through says of their rows. *)
Definition admits (batches : list RecordBatch) (c : Constraint) : Prop :=
  evaluable (cn_predicate c) batches /\
  (cn_on_fail c = Reject -> violators (cn_predicate c) batches = []).

Lemma enforce_one_spec batches c :
  match enforce_one batches c with
  | Ok _ => admits batches c
  | Err (DataPolicyViolation name n bi row) =>
      cn_on_fail c = Reject /\ evaluable (cn_predicate c) batches /\ name = cn_name c /\
      n = zlen (violators (cn_predicate c) batches) /\
      head (violators (cn_predicate c) batches) = Some (bi, row)
  | Err (InvalidInput _) => ~ evaluable (cn_predicate c) batches
  | Err _ => False
  end.
Proof.
  unfold enforce_one. pose proof (tally_all c 0 batches (0, None)) as Ht.
  destruct (foldr_res _ _ _) as [t|e] eqn:Ef.
  - destruct Ht as [He ->]. fold (violators (cn_predicate c) batches). unfold found. cbn [fst snd].
    destruct (violators (cn_predicate c) batches) as [|[bi row] l] eqn:Ev.
    + cbn. split; [done|]. by intros _.
    + assert ((0 + zlen ((bi, row) :: l) =? 0) = false) as -> by (apply Z.eqb_neq; unfold zlen; cbn; lia).
      destruct (cn_on_fail c) eqn:Eo; cbn.
      * by repeat split.
      * split; [done|]. by rewrite Eo.
  - apply not_evaluable in Ht. by destruct (tally_err _ _ _ _ Ef) as [d ->].
Qed.

(** C37 Enforcement is total and fails closed: it accepts exactly the batches at whose every row
    every constraint can be evaluated and every [Reject] constraint holds.  A violation
    names the first constraint that fails, counts the rows that violate it and gives the
    first; the only other refusal is of a constraint that cannot be evaluated at some row. *)
Theorem enforce_fails_closed p batches :
  (enforce p batches = Ok tt <-> Forall (admits batches) (dp_constraints p)) /\
  match enforce p batches with
  | Ok _ => True
  | Err (DataPolicyViolation name n bi row) =>
      exists before c after, dp_constraints p = before ++ c :: after /\ Forall (admits batches) before /\
        cn_on_fail c = Reject /\ name = cn_name c /\ n = zlen (violators (cn_predicate c) batches) /\
        head (violators (cn_predicate c) batches) = Some (bi, row)
  | Err (InvalidInput _) => Exists (fun c => ~ evaluable (cn_predicate c) batches) (dp_constraints p)
  | Err _ => False
  end.
Proof.
  unfold enforce. induction (dp_constraints p) as [|c cs IH]; cbn [foldr_res].
  { repeat split; by constructor. }
  pose proof (enforce_one_spec batches c) as Hc. destruct (enforce_one batches c) as [[]|e].
  - destruct IH as [Hiff Hres]. split.
    + rewrite Hiff, Forall_cons. tauto.
    + destruct (foldr_res _ _ cs) as [|e]; [done|]. destruct e; try done; [by right|].
      destruct Hres as (before & c' & after & -> & Hb & Hrest). exists (c :: before), c', after.
      split; [done|]. split; [by apply Forall_cons|done].
  - split.
    + split; [done|]. intros [[He Hr] _]%Forall_cons. exfalso. destruct e; try done.
      destruct Hc as (Ho & _ & _ & _ & Hh). by rewrite (Hr Ho) in Hh.
    + destruct e; try done; [by left|]. destruct Hc as (Ho & _ & Hn & Hv & Hh).
      exists [], c, cs. by repeat split.
Qed.
End RowSemantics.
