(* ===== verification/Segment.v ===== *)
(** * Segments ([segment.rs])

    Statistics over arrays, the helpers of the time column, sortedness, the k-way merge of
    sorted batches, the segment writer with its staging lease, and reading a segment back
    with row-group pruning.  The blocking task that encodes a segment turns a panic into an
    [Internal] error; an index out of bounds elsewhere is one too. *)
From S2P Require Export DataPolicy.

Definition out_of_bounds : StoreError := Internal "index out of bounds".

(** ** Statistics *)
Inductive ScalarStat :=
| StInt (z : Z) | StUInt (z : Z) | StFloat (x : f64) | StStr (s : string) | StBool (b : bool)
| StDecimal (z : Z).
#[export] Instance ScalarStat_eq_dec : EqDecision ScalarStat.
Proof. solve_decision. Defined.

(** [usize] of a text: its bytes. *)
Definition str_len (s : string) : Z := Z.of_nat (String.length s).

Module SegmentStats.
Definition MAX_STRING_STAT_LEN : Z := 64.
Definition MAX_DISTINCT_VALUES : Z := 128.

Definition less_than (a b : ScalarStat) : bool :=
  match a, b with
  | StInt x, StInt y | StUInt x, StUInt y | StDecimal x, StDecimal y => x <? y
  | StFloat x, StFloat y => SFltb x y
  | StStr x, StStr y => match String.compare x y with Lt => true | _ => false end
  | StBool x, StBool y => negb x && y
  | _, _ => false
  end.

Record ColumnAcc := mkColumnAcc {
  ca_min : option ScalarStat;
  ca_max : option ScalarStat;
  ca_null_count : Z;
  ca_stats_dropped : bool;
  ca_distinct : BTree string unit;
  ca_distinct_eligible : bool;
  ca_distinct_dropped : bool;
}.
#[export] Instance eta_ColumnAcc : Eta ColumnAcc := fun c =>
  mkColumnAcc (ca_min c) (ca_max c) (ca_null_count c) (ca_stats_dropped c) (ca_distinct c)
    (ca_distinct_eligible c) (ca_distinct_dropped c).
Definition default_acc : ColumnAcc := mkColumnAcc None None 0 false [] false false.

(** [is_none_or]. *)
Definition none_or {A} (f : A -> bool) (o : option A) : bool :=
  match o with None => true | Some a => f a end.

Definition observe (acc : ColumnAcc) (min max : option ScalarStat) (nulls : Z) : ColumnAcc :=
  let acc := acc <| ca_null_count := ca_null_count acc + nulls |> in
  if ca_stats_dropped acc then acc
  else
    let acc := match min with
               | Some m => if none_or (less_than m) (ca_min acc) then acc <| ca_min := Some m |> else acc
               | None => acc
               end in
    match max with
    | Some m => if none_or (fun cur => less_than cur m) (ca_max acc)
                then acc <| ca_max := Some m |> else acc
    | None => acc
    end.

Definition drop_stats (acc : ColumnAcc) (nulls : Z) : ColumnAcc :=
  acc <| ca_null_count := ca_null_count acc + nulls |> <| ca_stats_dropped := true |>
      <| ca_min := None |> <| ca_max := None |>.

Definition insert_distinct (acc : ColumnAcc) (value : string) : ColumnAcc :=
  if bcontains value (ca_distinct acc) then acc
  else
    let distinct := binsert value tt (ca_distinct acc) in
    if MAX_DISTINCT_VALUES <? zlen distinct
    then acc <| ca_distinct := [] |> <| ca_distinct_dropped := true |>
    else acc <| ca_distinct := distinct |>.

(** The loop over the values stops once the set is dropped. *)
Fixpoint insert_all (acc : ColumnAcc) (cells : list (option Cell)) : ColumnAcc :=
  match cells with
  | [] => acc
  | Some (CStr s) :: cells' =>
      let acc := insert_distinct acc s in
      if ca_distinct_dropped acc then acc else insert_all acc cells'
  | _ :: cells' => insert_all acc cells'
  end.

Section Stats.
Context `{ArrowRows}.

Definition to_json (s : ScalarStat) : Json :=
  match s with
  | StInt v | StUInt v => JOther (show_int v)
  | StFloat v => json_f64 v
  | StStr v => JString v
  | StBool v => JOther (if v then "true" else "false")
  | StDecimal v => JString (show_int v)
  end.

Definition observe_distinct (acc : ColumnAcc) (a : Column) : ColumnAcc :=
  if ca_distinct_dropped acc then acc
  else
    match ar_type a with
    | Utf8 | LargeUtf8 => insert_all (acc <| ca_distinct_eligible := true |>) (ar_cells a)
    | DictionaryUtf8 _ =>
        match cast a Utf8 with
        | None => acc <| ca_distinct_dropped := true |>
        | Some m => insert_all (acc <| ca_distinct_eligible := true |>) (ar_cells m)
        end
    | _ => acc
    end.

Definition finish (acc : ColumnAcc) : ColumnStats :=
  mkColumnStats (to_json <$> ca_min acc) (to_json <$> ca_max acc) (ca_null_count acc)
    (if ca_distinct_eligible acc && negb (ca_distinct_dropped acc)
     then Some (map JString (bkeys (ca_distinct acc))) else None).

Definition minmax (f : Cell -> ScalarStat) (a : Column) : option ScalarStat * option ScalarStat :=
  (f <$> compute_min a, f <$> compute_max a).
Definition stat_int (c : Cell) : ScalarStat := StInt (int_of (Some c)).
Definition stat_uint (c : Cell) : ScalarStat := StUInt (int_of (Some c)).
Definition stat_decimal (c : Cell) : ScalarStat := StDecimal (int_of (Some c)).
Definition stat_float (c : Cell) : ScalarStat :=
  StFloat (match c with CFloat x => x | _ => S754_nan end).
Definition stat_str (c : Cell) : ScalarStat := StStr (match c with CStr s => s | _ => "" end).
Definition stat_bool (c : Cell) : ScalarStat := StBool (match c with CBool b => b | _ => false end).

(** Long strings are left out of the manifest. *)
Definition guard (s : option ScalarStat) : option ScalarStat :=
  match s with
  | Some (StStr v) => if MAX_STRING_STAT_LEN <? str_len v then None else s
  | _ => s
  end.

Definition array_minmax (a : Column) : option (option ScalarStat * option ScalarStat) :=
  let found := match ar_type a with
    | Int8 | Int16 | Int32 | Int64 | Date32 | Date64 | Timestamp _ => Some (minmax stat_int a)
    | UInt8 | UInt16 | UInt32 | UInt64 => Some (minmax stat_uint a)
    | Float32 | Float64 => Some (minmax stat_float a)
    | Boolean => Some (minmax stat_bool a)
    | Utf8 | LargeUtf8 => Some (minmax stat_str a)
    | DictionaryUtf8 _ => minmax stat_str <$> cast a Utf8
    | Decimal128 _ _ => Some (minmax stat_decimal a)
    | _ => None
    end in
  (fun mm => (guard mm.1, guard mm.2)) <$> found.

(** One column of one batch added to its accumulator. *)
Definition observe_column (acc : ColumnAcc) (a : Column) : ColumnAcc :=
  let acc := match array_minmax a with
             | Some (min, max) => observe acc min max (null_count a)
             | None => drop_stats acc (null_count a)
             end in
  observe_distinct acc a.
End Stats.
End SegmentStats.

(** ** The time column *)
Module SegmentTime.
Section SegmentTime.
Context `{ArrowRows}.

Definition time_slice_i64 (col : Column) : option (list Z) :=
  match ar_type col with
  | Int64 | Date64 | Timestamp _ => Some (int_values col)
  | _ => None
  end.

Definition time_column_of (b : RecordBatch) (time_col : string) : DbResult Column :=
  let? idx := ok_or (index_of (rb_schema b) time_col) Arrow in
  let? col := ok_or (rb_columns b !! idx) out_of_bounds in
  if 0 <? null_count col then Err (InvalidInput "time column contains nulls") else Ok col.

Definition cast_to_i64 (col : Column) : DbResult Column :=
  let? casted := ok_or (cast col Int64) Arrow in
  if bool_decide (ar_type casted = Int64) then Ok casted
  else Err (Internal "time column cast to i64 failed").

Definition time_values_i64 (b : RecordBatch) (time_col : string) : DbResult (list Z) :=
  let? col := time_column_of b time_col in
  match time_slice_i64 col with
  | Some values => Ok values
  | None => let? arr := cast_to_i64 col in Ok (int_values arr)
  end.

Definition fold_range (values : list Z) : Z * Z :=
  (fold_left Z.min values i64_max, fold_left Z.max values i64_min).

Definition time_min_max (b : RecordBatch) (time_col : string) : DbResult (option (Z * Z)) :=
  if num_rows b =? 0 then Ok None
  else
    let? col := time_column_of b time_col in
    match time_slice_i64 col with
    | Some values => Ok (Some (fold_range values))
    | None =>
        let? arr := cast_to_i64 col in
        match compute_min arr, compute_max arr with
        | Some mn, Some mx => Ok (Some (int_of (Some mn), int_of (Some mx)))
        | _, _ => Ok None
        end
    end.

(** The range over several batches, [None] when no batch has one. *)
Definition time_range_step (time_col : string) (acc : Z * Z) (b : RecordBatch) : DbResult (Z * Z) :=
  let? r := time_min_max b time_col in
  Ok (match r with Some (mn, mx) => (Z.min acc.1 mn, Z.max acc.2 mx) | None => acc end).
Definition time_range_of (time_column : option string) (batches : list RecordBatch) :
    DbResult (option (Z * Z)) :=
  match time_column with
  | None => Ok None
  | Some tc =>
      let? acc := foldr_res (time_range_step tc) (i64_max, i64_min) batches in
      Ok (if acc.1 <=? acc.2 then Some acc else None)
  end.

Definition in_window (start stop : option Z) (v : Z) : bool :=
  SegmentStats.none_or (fun s => s <=? v) start && SegmentStats.none_or (fun e => v <? e) stop.

Definition filter_one (time_col : string) (start stop : option Z) (out : list RecordBatch)
    (b : RecordBatch) : DbResult (list RecordBatch) :=
  if num_rows b =? 0 then Ok out
  else
    match index_of (rb_schema b) time_col with
    | None => Err (Internal "time filter requested but time column not present in projection")
    | Some idx =>
        let? col := ok_or (rb_columns b !! idx) out_of_bounds in
        let? arr := cast_to_i64 col in
        if 0 <? null_count arr then Err (Corruption [time_col] "null time value in stored segment")
        else
          let? filtered := ok_or (filter_record_batch b (map (in_window start stop) (int_values arr))) Arrow in
          Ok (if 0 <? num_rows filtered then out ++ [filtered] else out)
    end.
Definition filter_batches_by_time (batches : list RecordBatch) (time_col : string)
    (start stop : option Z) : DbResult (list RecordBatch) :=
  foldr_res (filter_one time_col start stop) [] batches.
End SegmentTime.
End SegmentTime.
