(* ===== verification/SegmentIO.v ===== *)
(** * Sorting and merging batches ([segment.rs])

    [batch_is_sorted], [sort_batches], [sort_each_batch] and [SortedBatchMerger], the k-way
    merge that feeds the segment writer chunks of bounded size. *)
From S2P Require Export Segment.

Module SegmentSort.
Definition MERGE_CHUNK_ROWS : Z := 64 * 1024.

Section Sort.
Context `{ArrowRows}.

(** The column of a sort key: an unknown name is an Arrow error. *)
Definition key_column (b : RecordBatch) (name : string) : DbResult Column :=
  let? idx := ok_or (index_of (rb_schema b) name) Arrow in ok_or (rb_columns b !! idx) out_of_bounds.
Definition key_columns (b : RecordBatch) (sort_key : list string) : DbResult (list Column) :=
  map_res (key_column b) sort_key.

Definition make_comparator (col : Column) : option (nat -> nat -> comparison) :=
  if comparable (ar_type col) then Some (fun i j => cell_compare (cell col i) (cell col j)) else None.

(** The rows [i - 1] and [i] by the comparators in turn. *)
Fixpoint compare_rows (comparators : list (nat -> nat -> comparison)) (i j : nat) : comparison :=
  match comparators with
  | [] => Eq
  | c :: cs => match c i j with Eq => compare_rows cs i j | o => o end
  end.

Definition batch_is_sorted (b : RecordBatch) (sort_key : list string) : DbResult bool :=
  if bool_decide (sort_key = []) || (num_rows b <? 2) then Ok true
  else
    let? comparators := map_res (fun name =>
      let? col := key_column b name in ok_or (make_comparator col) Arrow) sort_key in
    Ok (forallb (fun i => match compare_rows comparators (i - 1) i with Gt => false | _ => true end)
          (seq 1 (rb_rows b - 1))).

(** [lexsort_to_indices], then [take] on every column. *)
Definition sort_rows (schema : Schema) (b : RecordBatch) (sort_key : list string) : DbResult RecordBatch :=
  let? columns := key_columns b sort_key in
  let? indices := ok_or (lexsort_to_indices columns) Arrow in
  let? cols := map_res (fun c => ok_or (take c indices) Arrow) (rb_columns b) in
  ok_or (try_new schema cols) Arrow.

Definition sort_batches (schema : Schema) (batches : list RecordBatch) (sort_key : list string) :
    DbResult RecordBatch :=
  let? combined := ok_or (concat_batches schema batches) Arrow in
  if bool_decide (sort_key = []) || (num_rows combined <? 2) then Ok combined
  else sort_rows schema combined sort_key.

Definition nonempty (b : RecordBatch) : bool := 0 <? num_rows b.

Definition sort_one (sort_key : list string) (b : RecordBatch) : DbResult RecordBatch :=
  if bool_decide (sort_key = []) || (num_rows b <? 2) then Ok b
  else
    let? sorted := batch_is_sorted b sort_key in
    if sorted then Ok b else sort_rows (rb_schema b) b sort_key.
Definition sort_each_batch (batches : list RecordBatch) (sort_key : list string) :
    DbResult (list RecordBatch) :=
  map_res (sort_one sort_key) (List.filter nonempty batches).
End Sort.
End SegmentSort.

(** ** The merge *)
Record SortedBatchMerger := mkMerger {
  mg_batches : list RecordBatch;
  (** The key columns each batch's rows are encoded from. *)
  mg_rows : list (list Column);
  mg_positions : list nat;
  mg_chunk_rows : nat;
}.
#[export] Instance eta_Merger : Eta SortedBatchMerger := fun m =>
  mkMerger (mg_batches m) (mg_rows m) (mg_positions m) (mg_chunk_rows m).

Module Merger.
Section Merger.
Context `{ArrowRows}.

Definition new (batches : list RecordBatch) (sort_key : list string) (chunk_rows : nat) :
    DbResult SortedBatchMerger :=
  let batches := List.filter SegmentSort.nonempty batches in
  let? fields := match batches with
                 | [] => Ok []
                 | first :: _ =>
                     map_res (fun name =>
                       let? idx := ok_or (index_of (rb_schema first) name) Arrow in
                       let? f := ok_or (rb_schema first !! idx) out_of_bounds in Ok (fd_type f)) sort_key
                 end in
  if negb (row_converter fields) then Err Arrow
  else
    let? rows := map_res (fun b =>
      let? cols := SegmentSort.key_columns b sort_key in
      if convert_columns fields cols then Ok cols else Err Arrow) batches in
    Ok (mkMerger batches rows (replicate (length batches) O) (Nat.max chunk_rows 1)).

Definition row (cols : list Column) (i : nat) : list (option Cell) := map (fun c => cell c i) cols.
Definition row_lt (a b : list (option Cell)) : bool :=
  match compare_keys a b with Lt => true | _ => false end.

(** The head of batch [b] beats the best one so far only if it is strictly less. *)
Definition consider (m : SortedBatchMerger) (best : option nat) (entry : nat * nat) : option nat :=
  let '(b, pos) := entry in
  if Nat.leb (default O (rb_rows <$> mg_batches m !! b)) pos then best
  else
    match best with
    | None => Some b
    | Some cur =>
        let cur_row := row (default [] (mg_rows m !! cur)) (default O (mg_positions m !! cur)) in
        let cand_row := row (default [] (mg_rows m !! b)) pos in
        if row_lt cand_row cur_row then Some b else Some cur
    end.
Definition best_head (m : SortedBatchMerger) : option nat :=
  fold_left (consider m) (combine (seq 0 (length (mg_positions m))) (mg_positions m)) None.

Definition advance (b : nat) (m : SortedBatchMerger) : SortedBatchMerger :=
  m <| mg_positions := alter S b (mg_positions m) |>.

Fixpoint pick_rows (n : nat) (m : SortedBatchMerger) : list (nat * nat) * SortedBatchMerger :=
  match n with
  | O => ([], m)
  | S n' =>
      match best_head m with
      | None => ([], m)
      | Some b =>
          let '(picks, m') := pick_rows n' (advance b m) in
          ((b, default O (mg_positions m !! b)) :: picks, m')
      end
  end.

Definition gather (m : SortedBatchMerger) (schema : Schema) (picks : list (nat * nat)) :
    DbResult RecordBatch :=
  let? cols := map_res (fun c =>
    let? sources := map_res (fun b => ok_or (rb_columns b !! c) out_of_bounds) (mg_batches m) in
    ok_or (interleave sources picks) Arrow) (seq 0 (length schema)) in
  ok_or (try_new schema cols) Arrow.

Definition next_chunk (m : SortedBatchMerger) : DbResult (option RecordBatch * SortedBatchMerger) :=
  match mg_batches m with
  | [] => Ok (None, m)
  | first :: _ =>
      let '(picks, m') := pick_rows (mg_chunk_rows m) m in
      match picks with
      | [] => Ok (None, m')
      | _ => let? chunk := gather m (rb_schema first) picks in Ok (Some chunk, m')
      end
  end.

(** The rows not merged yet: the fuel of the loop over the chunks. *)
Definition remaining (m : SortedBatchMerger) : nat :=
  sum_list (zip_with (fun b pos => (rb_rows b - pos)%nat) (mg_batches m) (mg_positions m)).

(** [while let Some(chunk) = merger.next_chunk()?]. *)
Fixpoint all_chunks (fuel : nat) (m : SortedBatchMerger) : DbResult (list RecordBatch) :=
  match fuel with
  | O => Ok []
  | S fuel' =>
      let? '(chunk, m') := next_chunk m in
      match chunk with
      | None => Ok []
      | Some b => let? bs := all_chunks fuel' m' in Ok (b :: bs)
      end
  end.
Definition chunks (m : SortedBatchMerger) : DbResult (list RecordBatch) := all_chunks (S (remaining m)) m.
End Merger.
End Merger.

(** ** Writing and reading segments ([segment.rs])

    [SegmentWriter]: buffering, splitting at the target size, encoding, the statistics and
    the staging lease that is persisted before each upload.  [read_segment] with projection,
    row-group pruning and the exact row filter, and its checksum-verified twin. *)

Definition STAGING_LEASE_TTL_SECONDS : Z := 24 * 3600.

Record SegmentWriter := mkSegmentWriter {
  sw_spec : TableSpec;
  sw_schema : Schema;
  sw_created_by_sequence : Z;
  sw_written : list SegmentMeta;
  sw_buffered : list RecordBatch;
  sw_buffered_bytes : Z;
  sw_input_sorted : bool;
  sw_last_sort_row : option (list ScalarStat);
  sw_writer_id : Uuid;
  sw_lease : option StagingLeaseFile;
}.
#[export] Instance eta_SegmentWriter : Eta SegmentWriter := fun w =>
  mkSegmentWriter (sw_spec w) (sw_schema w) (sw_created_by_sequence w) (sw_written w) (sw_buffered w)
    (sw_buffered_bytes w) (sw_input_sorted w) (sw_last_sort_row w) (sw_writer_id w) (sw_lease w).

(** A segment as it leaves the encoder. *)
Record Encoded := mkEncoded {
  en_content : string;
  en_columns : BTree string ColumnStats;
  en_time_range : option (Z * Z);
}.

Module SegmentWriter.
Section SegmentWriter.
Context `{Env} `{ArrowRows}.
Implicit Types w : SegmentWriter.

Definition clamp (lo hi x : Z) : Z := Z.max lo (Z.min hi x).
Definition writer_properties (spec : TableSpec) (sample_rows_bytes : option (Z * Z)) : WriterProperties :=
  let storage := ts_storage spec in
  let compression := match so_codec storage with
    | Zstd => ZSTD 3 | Lz4 => LZ4_RAW | Snappy => SNAPPY | Uncompressed => UNCOMPRESSED end in
  let row_width := match sample_rows_bytes with
    | Some (rows, bytes) => Z.max 1 (Z.max bytes 1 / Z.max rows 1) | None => 64 end in
  mkWriterProperties compression
    (clamp (8 * 1024) (4 * 1024 * 1024) (so_target_row_group_bytes storage / row_width))
    (so_bloom_filter_columns storage).

Definition new (spec : TableSpec) (schema : Schema) (created_by_sequence : Z) : prog SegmentWriter :=
  let! id := call NewUuid in
  ret (mkSegmentWriter spec schema created_by_sequence [] [] 0 true None id None).

Definition lease_path w : option Path :=
  (fun _ => staging_lease_path (ts_table_id (sw_spec w)) (sw_writer_id w)) <$> sw_lease w.

Definition record_staged w (path : Path) : prog SegmentWriter :=
  let! t := call Now in
  let now := monotonic_commit_ts t None in
  let lease := default (mkStagingLease (sw_writer_id w) now
                          (now + STAGING_LEASE_TTL_SECONDS * 1000000000) []) (sw_lease w) in
  let lease := mkStagingLease (sl_writer_id lease) (sl_created_at_ns lease) (sl_expires_at_ns lease)
                 (sl_segment_paths lease ++ [path]) in
  do! Backend.put (staging_lease_path (ts_table_id (sw_spec w)) (sw_writer_id w)) (OLease lease) in
  ret (w <| sw_lease := Some lease |>).

(** *** Boundary rows *)
Definition sort_row_scalars (b : RecordBatch) (row : nat) (sort_key : list string) :
    DbResult (list ScalarStat) :=
  map_res (fun name =>
    let? col := SegmentSort.key_column b name in
    match SegmentStats.array_minmax (slice_column row 1 col) with
    | Some (Some min, _) => Ok min
    | _ => Err (InvalidInput "sort key column has a null or non-comparable value at a batch boundary")
    end) sort_key.

Fixpoint row_less_than (a b : list ScalarStat) : bool :=
  match a, b with
  | x :: a', y :: b' =>
      if SegmentStats.less_than x y then true
      else if SegmentStats.less_than y x then false else row_less_than a' b'
  | _, _ => false
  end.

(** *** Encoding *)

(** The statistics of one batch added to those so far; a batch with fewer columns than the
    schema panics in the blocking task. *)
Definition observe_batch (schema : Schema) (accs : BTree string SegmentStats.ColumnAcc) (b : RecordBatch) :
    DbResult (BTree string SegmentStats.ColumnAcc) :=
  foldr_res (fun accs entry =>
    let '(i, field) := entry in
    let? arr := ok_or (rb_columns b !! i) (Internal "task panicked") in
    Ok (bentry SegmentStats.default_acc (fun acc => SegmentStats.observe_column acc arr) (fd_name field) accs))
    accs (combine (seq 0 (length schema)) schema).

Definition encode w (batches : list RecordBatch) (rows bytes : Z) : DbResult Encoded :=
  let props := writer_properties (sw_spec w) (Some (rows, bytes)) in
  let? content := ok_or (parquet_write props (sw_schema w) batches) Parquet in
  let? accs := foldr_res (observe_batch (sw_schema w)) [] batches in
  let? time_range := SegmentTime.time_range_of (ts_time_column (sw_spec w)) batches in
  Ok (mkEncoded content (map (fun e => (e.1, SegmentStats.finish e.2)) accs) time_range).

Definition total_rows (batches : list RecordBatch) : Z := zsum (map num_rows batches).

Definition segment_meta w (id : Uuid) (rows : Z) (e : Encoded) : SegmentMeta :=
  let object := OSegment (en_content e) in
  mkSegmentMeta id (segment_path (ts_table_id (sw_spec w)) id) rows (object_size object)
    (checksum_hex object) (en_time_range e)
    (sw_input_sorted w && negb (bool_decide (ts_sort_key (sw_spec w) = [])))
    (ts_schema_revision (sw_spec w)) (sw_created_by_sequence w) (en_columns e).

Definition flush w : prog SegmentWriter :=
  match sw_buffered w with
  | [] => ret w
  | batches =>
      let rows := total_rows batches in
      let bytes := sw_buffered_bytes w in
      let w := w <| sw_buffered := [] |> <| sw_buffered_bytes := 0 |> in
      let! e := lift (encode w batches rows bytes) in
      let! id := call NewUuid in
      let path := segment_path (ts_table_id (sw_spec w)) id in
      let! w := record_staged w path in
      do! Backend.put path (OSegment (en_content e)) in
      ret (w <| sw_written := sw_written w ++ [segment_meta w id rows e] |>)
  end.

(** *** Feeding *)

(** The sortedness of the input so far, with the last row seen. *)
Definition track_order w (b : RecordBatch) : DbResult SegmentWriter :=
  let sort_key := ts_sort_key (sw_spec w) in
  if bool_decide (sort_key = []) then Ok w
  else
    let? sorted := SegmentSort.batch_is_sorted b sort_key in
    let w := if sorted then w else w <| sw_input_sorted := false |> in
    if sw_input_sorted w then
      let? first := sort_row_scalars b 0 sort_key in
      let w := match sw_last_sort_row w with
               | Some last => if row_less_than first last then w <| sw_input_sorted := false |> else w
               | None => w
               end in
      let? last := sort_row_scalars b (rb_rows b - 1) sort_key in
      Ok (w <| sw_last_sort_row := Some last |>)
    else Ok w.

Definition push w (b : RecordBatch) : prog SegmentWriter :=
  if num_rows b =? 0 then ret w
  else
    let! w := lift (track_order w b) in
    let w := w <| sw_buffered_bytes := sw_buffered_bytes w + get_array_memory_size b |>
               <| sw_buffered := sw_buffered w ++ [b] |> in
    if so_target_segment_bytes (ts_storage (sw_spec w)) <=? sw_buffered_bytes w then flush w else ret w.

Definition push_all w (batches : list RecordBatch) : prog SegmentWriter := fold_prog push w batches.

Definition finish w : prog (list SegmentMeta * bool * option Path) :=
  let! w := flush w in
  ret (sw_written w, sw_input_sorted w, lease_path w).
End SegmentWriter.
End SegmentWriter.

(** ** Reading *)
Module SegmentReader.
Section SegmentReader.
Context `{Env} `{ArrowRows}.

(** [(column, start, end)]. *)
Abbreviation TimeFilter := (option (string * option Z * option Z)) (only parsing).

Definition parquet_leaf_index (leaves : list (list string)) (name : string) : option nat :=
  fst <$> list_find (fun parts => parts = [name]) leaves.

Definition parquet_i64_stats (stats : Statistics) : option (Z * Z) :=
  match stats with
  | StatInt64 (Some min) (Some max) | StatInt32 (Some min) (Some max) => Some (min, max)
  | _ => None
  end.

Definition keep_row_group (col_idx : nat) (start stop : option Z) (rg : list (option Statistics)) : bool :=
  match mjoin (rg !! col_idx) ≫= parquet_i64_stats with
  | Some (min, max) =>
      SegmentStats.none_or (fun e => min <? e) stop && SegmentStats.none_or (fun s => s <=? max) start
  | None => false
  end.

(** The row groups to read, [None] for all of them. *)
Definition row_groups_to_read (meta : ParquetMeta) (filter : TimeFilter) : option (list nat) :=
  match filter with
  | None => None
  | Some (time_col, start, stop) =>
      match parquet_leaf_index (pm_leaves meta) time_col with
      | None => None
      | Some col_idx =>
          let groups := pm_row_groups meta in
          let keep := map fst (List.filter (fun e => keep_row_group col_idx start stop e.2)
                        (combine (seq 0 (length groups)) groups)) in
          if forallb (fun rg => match mjoin (rg !! col_idx) with Some _ => true | None => false end) groups
          then Some keep else None
      end
  end.

Definition project_roots (meta : ParquetMeta) (projection : option (list string)) :
    DbResult (option (list nat)) :=
  match projection with
  | None => Ok None
  | Some cols => let? idx := map_res (fun c => ok_or (index_of (pm_schema meta) c) Arrow) cols in Ok (Some idx)
  end.

Definition apply_filter (filter : TimeFilter) (batches : list RecordBatch) : DbResult (list RecordBatch) :=
  match filter with
  | Some (time_col, start, stop) =>
      match start, stop with
      | None, None => Ok batches
      | _, _ => SegmentTime.filter_batches_by_time batches time_col start stop
      end
  | None => Ok batches
  end.

(** A JSON object is not a Parquet file. *)
Definition content_of (o : Obj) : option string :=
  match o with OSegment c | ORaw c => Some c | _ => None end.

(** What [read_segment] makes of the bytes it finds. *)
Definition decode (content : string) (projection : option (list string)) (filter : TimeFilter) :
    DbResult (list RecordBatch) :=
  let? meta := ok_or (parquet_metadata content) Parquet in
  let? roots := project_roots meta projection in
  let? batches := ok_or (parquet_read content roots (row_groups_to_read meta filter)) Parquet in
  apply_filter filter batches.

Definition read_segment (seg : SegmentMeta) (projection : option (list string)) (filter : TimeFilter) :
    prog (list RecordBatch) :=
  let! found := Backend.get_opt (sg_path seg) in
  match found with
  | None => throw Parquet
  | Some o => let! content := lift (ok_or (content_of o) Parquet) in lift (decode content projection filter)
  end.

Definition read_segment_verified (seg : SegmentMeta) (projection : option (list string))
    (filter : TimeFilter) : prog (list RecordBatch) :=
  let! o := Backend.get (sg_path seg) in
  if negb (String.eqb (checksum_hex o) (sg_checksum seg))
  then throw (Corruption (sg_path seg) "segment content checksum mismatch")
  else
    let! content := lift (ok_or (content_of o) Parquet) in
    let! meta := lift (ok_or (parquet_metadata content) Parquet) in
    let! roots := lift (project_roots meta projection) in
    let! batches := lift (ok_or (parquet_read content roots None) Arrow) in
    lift (apply_filter filter batches).
End SegmentReader.
End SegmentReader.
