(* ===== verification/SortProps.v ===== *)
(** * Merging and sorting batches

    [SortedBatchMerger] against its specification: the chunks it yields are, row by row, the
    stable merge of the batches.  A pick is a pair (batch, row); picks are ordered by their
    keys, then by batch, then by row.  Then sorting each batch first, against the stable sort
    of all rows. *)
From S2P Require Export SegmentIO.

Section Keys.
Context `{ArrowRowsSpec}.

Lemma keys_lt_le a b c :
  length a = length b -> length b = length c -> compare_keys a b = Lt -> keys_le b c -> compare_keys a c = Lt.
Proof.
  intros H1 H2 Hlt Hle. destruct (compare_keys a c) eqn:E; [|done|]; exfalso.
  - apply (keys_le_trans b c a); [done|congruence|done| |].
    + unfold keys_le. by rewrite (compare_keys_swap a c), E.
    + by rewrite (compare_keys_swap a b), Hlt.
  - apply (keys_le_trans b c a); [done|congruence|done| |].
    + unfold keys_le. by rewrite (compare_keys_swap a c), E.
    + by rewrite (compare_keys_swap a b), Hlt.
Qed.

Lemma keys_le_lt a b c :
  length a = length b -> length b = length c -> keys_le a b -> compare_keys b c = Lt -> compare_keys a c = Lt.
Proof.
  intros H1 H2 Hle Hlt. destruct (compare_keys a c) eqn:E; [|done|]; exfalso.
  - apply (keys_le_trans c a b); [congruence|done| |done|].
    + unfold keys_le. by rewrite (compare_keys_swap a c), E.
    + by rewrite (compare_keys_swap b c), Hlt.
  - apply (keys_le_trans c a b); [congruence|done| |done|].
    + unfold keys_le. by rewrite (compare_keys_swap a c), E.
    + by rewrite (compare_keys_swap b c), Hlt.
Qed.

Lemma keys_eq_trans a b c :
  length a = length b -> length b = length c ->
  compare_keys a b = Eq -> compare_keys b c = Eq -> compare_keys a c = Eq.
Proof.
  intros H1 H2 Hab Hbc. destruct (compare_keys a c) eqn:E; [done| |]; exfalso.
  - apply (keys_le_trans c b a); [congruence|congruence|..].
    + unfold keys_le. by rewrite (compare_keys_swap b c), Hbc.
    + unfold keys_le. by rewrite (compare_keys_swap a b), Hab.
    + by rewrite (compare_keys_swap a c), E.
  - apply (keys_le_trans a b c); [congruence|congruence|..]; unfold keys_le; by rewrite ?Hab, ?Hbc.
Qed.
End Keys.

Module MergeProps.
Import Merger.
Section MergeProps.
Context `{ArrowRowsSpec}.
Implicit Types m : SortedBatchMerger.

(** ** Positions *)
Definition rows_in m (b : nat) : nat := default O (rb_rows <$> mg_batches m !! b).
Definition pos m (b : nat) : nat := default O (mg_positions m !! b).
Definition key m (p : nat * nat) : list (option Cell) := row (default [] (mg_rows m !! p.1)) p.2.
Definition live m (b : nat) : bool := Nat.ltb (pos m b) (rows_in m b).

(** The picks not taken yet. *)
Definition left_in m (b : nat) : list (nat * nat) := map (pair b) (seq (pos m b) (rows_in m b - pos m b)).
Definition left m : list (nat * nat) := concat (map (left_in m) (seq 0 (length (mg_positions m)))).

Definition pick_le m (p q : nat * nat) : Prop :=
  compare_keys (key m p) (key m q) = Lt \/
  compare_keys (key m p) (key m q) = Eq /\ ((p.1 < q.1)%nat \/ p.1 = q.1 /\ (p.2 <= q.2)%nat).

(** Encoded rows have [k] keys and each batch is sorted. *)
Record wf (k : nat) m : Prop := {
  wf_keys : forall p, (p.1 < length (mg_positions m))%nat -> length (key m p) = k;
  wf_sorted : forall b i j, (b < length (mg_positions m))%nat -> (i <= j < rows_in m b)%nat ->
    keys_le (key m (b, i)) (key m (b, j));
}.

Lemma wf_advance k m b : wf k m -> wf k (advance b m).
Proof.
  intros [H1 H2]. unfold advance. split; cbn; rewrite ?length_alter; [exact H1|exact H2].
Qed.

(** ** The best head *)
Definition beats m (b b' : nat) : Prop := pick_le m (b, pos m b) (b', pos m b').

Lemma lengths k m b b' i j : wf k m -> (b < length (mg_positions m))%nat -> (b' < length (mg_positions m))%nat ->
  length (key m (b, i)) = length (key m (b', j)).
Proof. intros Hw Hb Hb'. by rewrite !(wf_keys _ _ Hw). Qed.

Lemma heads_spec k m j : wf k m -> (j <= length (mg_positions m))%nat ->
  match fold_left (consider m) (map (fun b => (b, pos m b)) (seq 0 j)) None with
  | None => forall b, (b < j)%nat -> live m b = false
  | Some b => (b < j)%nat /\ live m b = true /\ forall b', (b' < j)%nat -> live m b' = true -> beats m b b'
  end.
Proof.
  intros Hw. induction j as [|j IH]; intros Hj; [cbn; lia|]. specialize (IH ltac:(lia)).
  rewrite seq_S, map_app, fold_left_app. cbn [map fold_left plus].
  destruct (fold_left _ _ None) as [cur|]; cbn [consider]; fold (rows_in m j);
    destruct (Nat.leb_spec (rows_in m j) (pos m j)) as [Hx|Hx].
  - destruct IH as (Hc & Hl & Hb). split; [lia|]. split; [done|]. intros b' Hb' Hlb'.
    destruct (decide (b' = j)) as [->|]; [|apply Hb; [lia|done]].
    unfold live in Hlb'. apply Nat.ltb_lt in Hlb'. lia.
  - assert (Hlj : live m j = true) by (apply Nat.ltb_lt; lia). destruct IH as (Hc & Hl & Hb).
    change (row (default [] (mg_rows m !! j)) (pos m j)) with (key m (j, pos m j)).
    change (row (default [] (mg_rows m !! cur)) (default O (mg_positions m !! cur))) with (key m (cur, pos m cur)).
    unfold row_lt. rewrite (compare_keys_swap (key m (cur, pos m cur))).
    destruct (compare_keys (key m (cur, pos m cur)) (key m (j, pos m j))) eqn:E; cbn [CompOpp].
    + split; [lia|]. split; [done|]. intros b' Hb' Hlb'.
      destruct (decide (b' = j)) as [->|]; [|apply Hb; [lia|done]]. right. split; [done|]. left. cbn. lia.
    + split; [lia|]. split; [done|]. intros b' Hb' Hlb'.
      destruct (decide (b' = j)) as [->|]; [|apply Hb; [lia|done]]. by left.
    + split; [lia|]. split; [done|]. intros b' Hb' Hlb'. destruct (decide (b' = j)) as [->|].
      * right. split; [apply compare_keys_refl|]. right. split; [done|]. cbn. lia.
      * left. apply (keys_lt_le _ (key m (cur, pos m cur))); [(apply (lengths _ _ _ _ _ _ Hw); lia)..| |].
        -- by rewrite (compare_keys_swap (key m (cur, pos m cur))), E.
        -- unfold keys_le. destruct (Hb b' ltac:(lia) Hlb') as [->|[-> _]]; done.
  - intros b Hb. destruct (decide (b = j)) as [->|]; [apply Nat.ltb_ge; lia|apply IH; lia].
  - split; [lia|]. split; [apply Nat.ltb_lt; lia|]. intros b' Hb' Hlb'.
    destruct (decide (b' = j)) as [->|]; [|by rewrite IH in Hlb' by lia].
    right. split; [apply compare_keys_refl|]. right. split; [done|]. cbn. lia.
Qed.

Lemma positions_of m :
  combine (seq 0 (length (mg_positions m))) (mg_positions m) =
  map (fun b => (b, pos m b)) (seq 0 (length (mg_positions m))).
Proof.
  unfold pos. generalize (mg_positions m). intros l.
  apply list_eq. intros i. rewrite list_lookup_fmap.
  destruct (decide (i < length l)%nat) as [Hi|Hi].
  - rewrite lookup_seq_lt by done. cbn. destruct (lookup_lt_is_Some_2 l i Hi) as [x Hx].
    rewrite Hx. cbn. change (@combine nat nat) with (@zip_with nat nat (nat * nat) pair).
    rewrite lookup_zip_with, lookup_seq_lt by done. cbn. by rewrite Hx.
  - rewrite lookup_seq_ge by lia. cbn. apply lookup_ge_None. rewrite length_combine, length_seq. lia.
Qed.

Lemma best_head_spec k m : wf k m ->
  match best_head m with
  | None => left m = []
  | Some b => (b < length (mg_positions m))%nat /\ live m b = true /\
      forall p, In p (left m) -> pick_le m (b, pos m b) p
  end.
Proof.
  intros Hw. unfold best_head. rewrite positions_of.
  pose proof (heads_spec k m _ Hw (le_n _)) as Hh. destruct (fold_left _ _ None) as [b|].
  - destruct Hh as (Hb & Hl & Hbeats). split; [done|]. split; [done|]. intros [b' i] Hin.
    unfold left in Hin. apply in_concat in Hin as (l & Hl' & Hi). apply in_map_iff in Hl' as (b1 & <- & Hb1).
    unfold left_in in Hi. apply in_map_iff in Hi as (i1 & [= <- <-] & Hi1).
    apply in_seq in Hb1, Hi1. assert (Hlive : live m b1 = true) by (apply Nat.ltb_lt; lia).
    pose proof (wf_sorted _ _ Hw b1 (pos m b1) i1 ltac:(lia) ltac:(lia)) as Hs.
    destruct (Hbeats b1 ltac:(lia) Hlive) as [Hlt|[Heq Ho]].
    + left. apply (keys_lt_le _ (key m (b1, pos m b1))); [(apply (lengths _ _ _ _ _ _ Hw); lia)..|done|done].
    + unfold keys_le in Hs. destruct (compare_keys (key m (b1, pos m b1)) (key m (b1, i1))) eqn:E; [|..|done].
      * right. split; [by apply (keys_eq_trans _ (key m (b1, pos m b1))); [(apply (lengths _ _ _ _ _ _ Hw); lia)..| |]|].
        cbn in *. lia.
      * left. apply (keys_le_lt _ (key m (b1, pos m b1))); [(apply (lengths _ _ _ _ _ _ Hw); lia)..| |done].
        unfold keys_le. by rewrite Heq.
  - apply concat_nil_Forall, List.Forall_forall. intros l Hl. apply in_map_iff in Hl as (b & <- & Hb).
    apply in_seq in Hb. specialize (Hh b ltac:(lia)). apply Nat.ltb_ge in Hh. unfold left_in.
    by replace (rows_in m b - pos m b)%nat with O by lia.
Qed.

(** ** Advancing *)
Lemma pos_advance m b b' : (b < length (mg_positions m))%nat ->
  pos (advance b m) b' = if decide (b' = b) then S (pos m b) else pos m b'.
Proof.
  intros Hb. unfold pos, advance. cbn. destruct (decide (b' = b)) as [->|Hn].
  - rewrite list_lookup_alter_eq. destruct (lookup_lt_is_Some_2 _ _ Hb) as [x ->]. done.
  - by rewrite list_lookup_alter_ne.
Qed.

Lemma left_advance m b : (b < length (mg_positions m))%nat -> live m b = true ->
  left m ≡ₚ (b, pos m b) :: left (advance b m).
Proof.
  intros Hb Hl. apply Nat.ltb_lt in Hl. unfold left.
  replace (length (mg_positions (advance b m))) with (length (mg_positions m))
    by (unfold advance; cbn; by rewrite length_alter).
  assert (Hseq : seq 0 (length (mg_positions m)) =
    seq 0 b ++ b :: seq (S b) (length (mg_positions m) - S b)).
  { replace (length (mg_positions m)) with (b + S (length (mg_positions m) - S b))%nat at 1 by lia.
    by rewrite seq_app. }
  rewrite Hseq, !map_app, !concat_app. cbn [map concat].
  assert (Hother : forall l, ~ In b l -> map (left_in (advance b m)) l = map (left_in m) l).
  { intros l Hnin. apply map_ext_in. intros b' Hb'. unfold left_in.
    rewrite pos_advance by done. rewrite decide_False by (by intros ->). reflexivity. }
  rewrite !Hother by (rewrite in_seq; lia).
  assert (Hhere : left_in m b = (b, pos m b) :: left_in (advance b m) b).
  { unfold left_in. rewrite pos_advance, decide_True by done. change (rows_in (advance b m) b) with (rows_in m b).
    replace (rows_in m b - pos m b)%nat with (S (rows_in m b - S (pos m b))) by lia. reflexivity. }
  rewrite Hhere. cbn [app]. by rewrite <- Permutation_middle.
Qed.

Lemma remaining_left m : length (mg_batches m) = length (mg_positions m) -> remaining m = length (left m).
Proof.
  intros Hlen. unfold remaining, left.
  assert (Hz : zip_with (fun b p => (rb_rows b - p)%nat) (mg_batches m) (mg_positions m) =
               map (fun b => length (left_in m b)) (seq 0 (length (mg_positions m)))).
  { apply list_eq. intros i. rewrite lookup_zip_with, list_lookup_fmap. unfold left_in, pos, rows_in.
    destruct (decide (i < length (mg_positions m))%nat) as [Hi|Hi].
    - rewrite lookup_seq_lt by done. cbn. rewrite length_map, length_seq.
      destruct (lookup_lt_is_Some_2 (mg_batches m) i ltac:(lia)) as [b ->].
      by destruct (lookup_lt_is_Some_2 (mg_positions m) i Hi) as [x ->].
    - by rewrite lookup_seq_ge, (lookup_ge_None_2 (mg_batches m)) by lia. }
  rewrite Hz. clear Hz. induction (seq 0 _) as [|b l IH]; cbn; [done|]. by rewrite length_app, IH.
Qed.

(** ** Picking *)
Definition same_input m m' : Prop :=
  mg_batches m' = mg_batches m /\ mg_rows m' = mg_rows m /\ mg_chunk_rows m' = mg_chunk_rows m /\
  length (mg_positions m') = length (mg_positions m).

Lemma same_advance m b : same_input m (advance b m).
Proof. unfold same_input, advance. cbn. by rewrite length_alter. Qed.
Lemma same_trans m1 m2 m3 : same_input m1 m2 -> same_input m2 m3 -> same_input m1 m3.
Proof. unfold same_input. intuition congruence. Qed.
Lemma same_pick_le m m' p q : same_input m m' -> pick_le m' p q <-> pick_le m p q.
Proof. intros (_ & Hr & _). unfold pick_le, key. by rewrite Hr. Qed.

Lemma pick_rows_spec k n m : wf k m ->
  let '(picks, m') := pick_rows n m in
  same_input m m' /\ wf k m' /\ left m ≡ₚ picks ++ left m' /\
  StronglySorted (pick_le m) picks /\ (forall p q, In p picks -> In q (left m') -> pick_le m p q) /\
  (length picks <= n)%nat /\ (length picks = n \/ left m' = []).
Proof.
  revert m. induction n as [|n IH]; intros m Hw; cbn [pick_rows].
  { split; [by unfold same_input|]. split; [done|]. split; [done|].
    split; [constructor|]. split; [done|]. split; [done|by left]. }
  pose proof (best_head_spec k m Hw) as Hb. destruct (best_head m) as [b|].
  2: { split; [by unfold same_input|]. split; [done|]. split; [done|].
       split; [constructor|]. split; [done|]. split; [cbn; lia|by right]. }
  destruct Hb as (Hb & Hl & Hle). specialize (IH (advance b m) (wf_advance _ _ b Hw)).
  pose proof (left_advance m b Hb Hl) as Hp. pose proof (same_advance m b) as Hsame.
  destruct (pick_rows n (advance b m)) as [picks m'].
  destruct IH as (H1 & H2 & H3 & H4 & H5 & H6 & H7). change (default O (mg_positions m !! b)) with (pos m b).
  split; [by eapply same_trans|]. split; [done|]. split; [by rewrite Hp, H3|]. split; [|split; [|cbn; split; [lia|intuition lia]]].
  - constructor.
    + eapply StronglySorted_weaken; [|exact H4]. intros p q. exact (proj1 (same_pick_le _ _ p q Hsame)).
    + apply Forall_forall. intros p Hin. apply Hle. rewrite Hp. right. rewrite H3. apply in_app_iff. left. by apply list_elem_of_In.
  - intros p q [<-|Hin] Hq.
    + apply Hle. rewrite Hp. right. rewrite H3. apply in_app_iff. by right.
    + apply (proj1 (same_pick_le _ _ p q Hsame)). by apply H5.
Qed.

(** ** Chunks of picks *)
Fixpoint pick_chunks (fuel : nat) m : list (list (nat * nat)) :=
  match fuel with
  | O => []
  | S fuel' =>
      let '(picks, m') := pick_rows (mg_chunk_rows m) m in
      match picks with [] => [] | _ => picks :: pick_chunks fuel' m' end
  end.

Definition chunk_ok m (c : list (nat * nat)) : Prop := (1 <= length c <= mg_chunk_rows m)%nat.

Lemma pick_chunks_spec k fuel m : wf k m -> (1 <= mg_chunk_rows m)%nat -> (length (left m) < fuel)%nat ->
  concat (pick_chunks fuel m) ≡ₚ left m /\ StronglySorted (pick_le m) (concat (pick_chunks fuel m)) /\
  Forall (chunk_ok m) (pick_chunks fuel m) /\
  forall more, (length (left m) < more)%nat -> pick_chunks more m = pick_chunks fuel m.
Proof.
  revert m. induction fuel as [|fuel IH]; intros m Hw Hc Hf; [lia|]. cbn [pick_chunks].
  pose proof (pick_rows_spec k (mg_chunk_rows m) m Hw) as Hp.
  destruct (pick_rows (mg_chunk_rows m) m) as [picks m'] eqn:Ep.
  destruct Hp as (Hsame & Hw' & Hleft & Hs & Hle & Hlen & Hor). destruct picks as [|p picks].
  - destruct Hor as [Hor|Hor]; [cbn in Hor; lia|]. rewrite Hleft, Hor. cbn.
    split; [done|]. split; [constructor|]. split; [constructor|].
    intros [|more] Hm; cbn; [done|]. by rewrite Ep.
  - pose proof Hsame as (_ & _ & Hcr & _).
    assert (Hshort : (length (left m') < fuel)%nat).
    { rewrite Hleft, length_app in Hf. cbn in Hf. lia. }
    destruct (IH m' Hw' ltac:(by rewrite Hcr) Hshort) as (H1 & H2 & H3 & H4). cbn [concat].
    split; [by rewrite H1, Hleft|]. split; [|split].
    + apply StronglySorted_app. split; [|split; [done|]].
      * intros x y Hx Hy. apply list_elem_of_In in Hx, Hy. apply Hle; [done|]. by rewrite <- H1.
      * eapply StronglySorted_weaken; [|exact H2]. intros x y. exact (proj1 (same_pick_le _ _ x y Hsame)).
    + constructor; [unfold chunk_ok; cbn in *; lia|]. unfold chunk_ok in *. by rewrite Hcr in H3.
    + intros [|more] Hm; [lia|]. cbn. rewrite Ep. f_equal. apply H4.
      rewrite Hleft, length_app in Hm. cbn in Hm. lia.
Qed.

Lemma gather_same m m' s picks : same_input m m' -> gather m' s picks = gather m s picks.
Proof. intros (Hb & _). unfold gather. by rewrite Hb. Qed.

Lemma all_chunks_picks k fuel m first rest : wf k m -> mg_batches m = first :: rest ->
  all_chunks fuel m = map_res (gather m (rb_schema first)) (pick_chunks fuel m).
Proof.
  revert m. induction fuel as [|fuel IH]; intros m Hw Hb; [done|]. cbn [all_chunks pick_chunks].
  unfold next_chunk. rewrite Hb.
  pose proof (pick_rows_spec k (mg_chunk_rows m) m Hw) as Hp.
  destruct (pick_rows (mg_chunk_rows m) m) as [picks m']. destruct Hp as (Hsame & Hw' & _).
  destruct picks as [|p picks]; [done|]. cbn [map_res]. destruct (gather m (rb_schema first) _); [|done].
  rewrite IH by (done || by destruct Hsame as [-> _]).
  erewrite (map_res_ext (gather m' _)); [reflexivity|]. intros ps. by apply gather_same.
Qed.

(** ** Gathering a chunk *)
Definition source m (p : nat * nat) : list (option Cell) :=
  row_at (default [] (rb_columns <$> mg_batches m !! p.1)) p.2.
Definition in_range m (p : nat * nat) : Prop :=
  exists b, mg_batches m !! p.1 = Some b /\ (p.2 < rb_rows b)%nat.

Lemma left_in_range m : Forall (in_range m) (left m).
Proof.
  apply List.Forall_forall. intros p Hin. unfold left in Hin.
  apply in_concat in Hin as (l & Hl & Hp). apply in_map_iff in Hl as (b & <- & _).
  unfold left_in in Hp. apply in_map_iff in Hp as (i & <- & Hi). apply in_seq in Hi.
  unfold rows_in in Hi. unfold in_range. cbn. destruct (mg_batches m !! b) as [x|]; cbn in Hi; [|lia].
  exists x. split; [done|lia].
Qed.

Definition uniform (s : Schema) (b : RecordBatch) : Prop := rb_schema b = s /\ valid_batch b.

(** One column of a chunk: the picked cells, of the type of its field. *)
Definition picked m (c : nat) (p : nat * nat) : option Cell :=
  match mg_batches m !! p.1 with
  | Some b => match rb_columns b !! c with Some a => cell a p.2 | None => None end
  | None => None
  end.

Lemma uniform_column s b c f : uniform s b -> s !! c = Some f ->
  exists a, rb_columns b !! c = Some a /\ column_fits (rb_rows b) f a.
Proof.
  intros [<- [_ Hf]] Hc. destruct (Forall2_lookup_l _ _ _ _ _ Hf Hc) as (a & Ha & Hfit). eauto.
Qed.

Lemma sources_spec s m c f : Forall (uniform s) (mg_batches m) -> s !! c = Some f ->
  exists sources, map_res (fun b => ok_or (rb_columns b !! c) out_of_bounds) (mg_batches m) = Ok sources /\
    Forall2 (fun b a => rb_columns b !! c = Some a /\ column_fits (rb_rows b) f a) (mg_batches m) sources.
Proof.
  intros Hu Hc. apply map_res_exists. eapply Forall_impl; [exact Hu|]. intros b Hb.
  destruct (uniform_column s b c f Hb Hc) as (a & Ha & Hf). exists a. rewrite Ha. split; [done|by split].
Qed.

Lemma gather_column s m c f picks : Forall (uniform s) (mg_batches m) -> mg_batches m <> [] ->
  s !! c = Some f -> Forall (in_range m) picks ->
  exists a, (let? sources := map_res (fun b => ok_or (rb_columns b !! c) out_of_bounds) (mg_batches m) in
             ok_or (interleave sources picks) Arrow) = Ok a /\
    ar_cells a = map (picked m c) picks /\ column_fits (length picks) f a.
Proof.
  intros Hu Hne Hc Hr. destruct (sources_spec s m c f Hu Hc) as (sources & -> & Hs).
  assert (Hsrc : forall p b, mg_batches m !! p = Some b -> exists a, sources !! p = Some a /\
            rb_columns b !! c = Some a /\ column_fits (rb_rows b) f a).
  { intros p b Hp. destruct (Forall2_lookup_l _ _ _ _ _ Hs Hp) as (a & Ha & Hb). eauto. }
  destruct (interleave_same_type sources picks (fd_type f)) as (a & Ha & Ht).
  - destruct Hs; done.
  - clear -Hs. induction Hs as [|b a l l' (_ & Hf & _) _ IH]; by constructor.
  - eapply Forall_impl; [exact Hr|]. intros p (b & Hb & Hp).
    destruct (Hsrc _ _ Hb) as (a & Ha & _ & _ & Hlen & _). exists a. by rewrite Hlen.
  - rewrite Ha. exists a. split; [done|].
    assert (Hcells : ar_cells a = map (picked m c) picks).
    { rewrite (interleave_spec _ _ _ Ha). apply map_ext_Forall. eapply Forall_impl; [exact Hr|].
      intros p (b & Hb & Hp). destruct (Hsrc _ _ Hb) as (x & Hx & Hxb & _). unfold picked, cell.
      rewrite Hx, Hb, Hxb. reflexivity. }
    split; [done|]. split; [done|]. split; [by rewrite Hcells, length_map|].
    destruct (fd_nullable f) eqn:En; [by left|right]. rewrite Hcells. apply Forall_map.
    eapply Forall_impl; [exact Hr|]. intros p (b & Hb & Hp).
    destruct (Hsrc _ _ Hb) as (x & Hx & Hxb & _ & Hlen & [?|Hsome]); [congruence|].
    cbn. unfold picked, cell. rewrite Hb, Hxb. destruct (lookup_lt_is_Some_2 (ar_cells x) p.2) as [y Hy]; [lia|].
    rewrite Hy. rewrite Forall_forall in Hsome. apply Hsome. by apply (list_elem_of_lookup_2 _ p.2).
Qed.

Lemma gather_spec s m picks : Forall (uniform s) (mg_batches m) -> mg_batches m <> [] ->
  Forall (in_range m) picks ->
  exists b, gather m s picks = Ok b /\ uniform s b /\ rb_rows b = length picks /\
    table_rows b = map (source m) picks.
Proof.
  intros Hu Hne Hr. unfold gather.
  destruct (map_res_exists (fun c =>
    let? sources := map_res (fun b => ok_or (rb_columns b !! c) out_of_bounds) (mg_batches m) in
    ok_or (interleave sources picks) Arrow)
    (fun c a => ar_cells a = map (picked m c) picks /\ forall f, s !! c = Some f -> column_fits (length picks) f a)
    (seq 0 (length s))) as (cols & -> & Hcols).
  { apply List.Forall_forall. intros c Hc. apply in_seq in Hc.
    destruct (lookup_lt_is_Some_2 s c ltac:(lia)) as [f Hf].
    destruct (gather_column s m c f picks Hu Hne Hf Hr) as (a & Ha & Hcells & Hfit).
    exists a. split; [done|]. split; [done|]. intros f' Hf'. by replace f' with f by congruence. }
  pose proof (Forall2_length _ _ _ Hcols) as Hlen. rewrite length_seq in Hlen.
  assert (Hfits : Forall2 (column_fits (length picks)) s cols).
  { apply Forall2_same_length_lookup. split; [done|]. intros i f a Hf Ha.
    destruct (Forall2_lookup_r _ _ _ _ _ Hcols Ha) as (j & Hj & _ & Hfit).
    apply lookup_seq in Hj as [-> _]. by apply Hfit. }
  assert (Hs : s <> []).
  { destruct (mg_batches m) as [|b l]; [done|]. apply Forall_cons in Hu as [[<- [Hs _]] _]. exact Hs. }
  exists (mkBatch Cell s cols (length picks)). rewrite (try_new_valid s cols (length picks)) by done.
  split; [done|]. split; [by split|]. split; [done|]. unfold table_rows. cbn.
  apply list_eq. intros i. rewrite !list_lookup_fmap. destruct (decide (i < length picks)%nat) as [Hi|Hi].
  2: { rewrite lookup_seq_ge by lia. by rewrite lookup_ge_None_2 by lia. }
  rewrite lookup_seq_lt by done. destruct (lookup_lt_is_Some_2 picks i Hi) as [p Hp]. rewrite Hp. cbn. f_equal.
  assert (Hin : in_range m p) by (by eapply Forall_lookup_1). destruct Hin as (b & Hb & _).
  unfold source, row_at. rewrite Hb. cbn.
  assert (Hub : uniform s b) by (by eapply Forall_lookup_1). destruct Hub as [<- [_ Hfb]].
  apply Forall2_length in Hfb. apply list_eq. intros c. rewrite !list_lookup_fmap.
  destruct (decide (c < length cols)%nat) as [Hc|Hc].
  2: { by rewrite !lookup_ge_None_2 by lia. }
  destruct (lookup_lt_is_Some_2 cols c Hc) as [a Ha], (lookup_lt_is_Some_2 (rb_columns b) c ltac:(lia)) as [x Hx].
  rewrite Ha, Hx. cbn. f_equal.
  destruct (Forall2_lookup_r _ _ _ _ _ Hcols Ha) as (j & Hj & Hcells & _). apply lookup_seq in Hj as [-> _].
  unfold cell at 1. rewrite Hcells, list_lookup_fmap, Hp. cbn. unfold picked. by rewrite Hb, Hx.
Qed.

(** ** The whole merge *)

(** A batch is sorted by a key when its key columns are, row by row. *)
Definition sorted_by (sort_key : list string) (b : RecordBatch) : Prop :=
  forall cols, SegmentSort.key_columns b sort_key = Ok cols ->
    forall i j, (i <= j < rb_rows b)%nat -> keys_le (row_at cols i) (row_at cols j).

Lemma new_spec bs sort_key n m :
  Merger.new bs sort_key n = Ok m ->
  mg_batches m = List.filter SegmentSort.nonempty bs /\ mg_chunk_rows m = Nat.max n 1 /\
  mg_positions m = replicate (length (mg_batches m)) O /\
  Forall2 (fun b cols => SegmentSort.key_columns b sort_key = Ok cols) (mg_batches m) (mg_rows m).
Proof.
  unfold Merger.new. intros Hn. destruct (match List.filter _ _ with [] => _ | _ => _ end) as [fields|]; [|done].
  destruct (negb _); [done|]. destruct (map_res _ _) as [rows|] eqn:Er; [|done]. injection Hn as <-. cbn.
  split; [done|]. split; [done|]. split; [done|]. apply map_res_Forall2 in Er.
  eapply Forall2_impl; [exact Er|]. cbn. intros b cols Hb. destruct (SegmentSort.key_columns b sort_key); [|done].
  destruct (convert_columns _ _); [|done]. by injection Hb as <-.
Qed.

Lemma new_wf bs sort_key n m :
  Merger.new bs sort_key n = Ok m -> Forall (sorted_by sort_key) (List.filter SegmentSort.nonempty bs) ->
  wf (length sort_key) m /\ length (mg_batches m) = length (mg_positions m).
Proof.
  intros Hn Hs. destruct (new_spec _ _ _ _ Hn) as (Hb & _ & Hp & Hr). rewrite <- Hb in Hs.
  assert (Hlen : length (mg_batches m) = length (mg_positions m)) by (by rewrite Hp, length_replicate).
  assert (Hrow : forall b, (b < length (mg_positions m))%nat -> exists x cols,
    mg_batches m !! b = Some x /\ mg_rows m !! b = Some cols /\ SegmentSort.key_columns x sort_key = Ok cols).
  { intros b Hlt. destruct (lookup_lt_is_Some_2 (mg_batches m) b ltac:(lia)) as [x Hx].
    destruct (Forall2_lookup_l _ _ _ _ _ Hr Hx) as (cols & Hc & Hk). eauto. }
  split; [|done]. split.
  - intros [b i] Hlt. destruct (Hrow b Hlt) as (x & cols & _ & Hc & Hk). unfold key, row. cbn. rewrite Hc. cbn.
    rewrite length_map. apply map_res_Forall2, Forall2_length in Hk. done.
  - intros b i j Hlt Hij. destruct (Hrow b Hlt) as (x & cols & Hx & Hc & Hk). unfold rows_in in Hij.
    rewrite Hx in Hij. cbn in Hij. unfold key. cbn. rewrite Hc. cbn.
    eapply Forall_lookup_1 in Hs; [|exact Hx]. by apply (Hs cols).
Qed.

Lemma rows_of_all m : mg_positions m = replicate (length (mg_batches m)) O ->
  map (source m) (left m) = Arrow.all_rows (mg_batches m).
Proof.
  intros Hp. unfold left, Arrow.all_rows. rewrite concat_map, map_map, Hp, length_replicate. f_equal.
  apply list_eq. intros i. rewrite !list_lookup_fmap. destruct (decide (i < length (mg_batches m))%nat) as [Hi|Hi].
  2: { rewrite lookup_seq_ge by lia. by rewrite lookup_ge_None_2 by lia. }
  rewrite lookup_seq_lt by done. destruct (lookup_lt_is_Some_2 _ _ Hi) as [b Hb]. rewrite Hb. cbn. f_equal.
  unfold left_in, rows_in, pos, source. rewrite Hp, Hb, lookup_replicate_2 by done. cbn.
  rewrite map_map, Nat.sub_0_r. cbn. by rewrite Hb.
Qed.

Lemma nonempty_rows bs : Arrow.all_rows (List.filter SegmentSort.nonempty bs) = Arrow.all_rows bs.
Proof.
  unfold Arrow.all_rows. induction bs as [|b bs IH]; cbn; [done|].
  destruct (SegmentSort.nonempty b) eqn:Eb; cbn; rewrite IH; [done|].
  unfold SegmentSort.nonempty, num_rows in Eb. apply Z.ltb_ge in Eb.
  unfold table_rows. by replace (rb_rows b) with O by lia.
Qed.

(** Merging batches that are each sorted always succeeds.  The chunks have between one row
    and the limit, their rows are those of the batches, in the order of a stable merge: by
    key, then by batch, then by row.  The loop ends within one step per row. *)
Lemma merge_chunks s bs sort_key n m :
  Forall (uniform s) bs -> Forall (sorted_by sort_key) (List.filter SegmentSort.nonempty bs) ->
  Merger.new bs sort_key n = Ok m ->
  exists cs picks, Merger.chunks m = Ok cs /\
    (forall fuel, (remaining m < fuel)%nat -> Merger.all_chunks fuel m = Ok cs) /\
    Forall (fun c => uniform s c /\ (1 <= rb_rows c <= Nat.max n 1)%nat) cs /\
    Arrow.all_rows cs = map (source m) picks /\ Arrow.all_rows cs ≡ₚ Arrow.all_rows bs /\
    picks ≡ₚ left m /\ StronglySorted (pick_le m) picks.
Proof.
  intros Hu Hs Hn. destruct (new_wf _ _ _ _ Hn Hs) as [Hw Hlen].
  destruct (new_spec _ _ _ _ Hn) as (Hb & Hcr & Hp & _).
  set (f := S (remaining m)). pose proof (remaining_left m Hlen) as Hrem.
  destruct (pick_chunks_spec (length sort_key) f m Hw ltac:(lia) ltac:(lia)) as (H1 & H2 & H3 & H4).
  assert (Hsrc : map (source m) (left m) = Arrow.all_rows bs) by (by rewrite rows_of_all, Hb, nonempty_rows).
  assert (Hfu : Forall (uniform s) (mg_batches m)).
  { rewrite Hb. apply List.Forall_forall. intros b [Hin _]%filter_In. rewrite List.Forall_forall in Hu. by apply Hu. }
  destruct (mg_batches m) as [|first rest] eqn:Em.
  { assert (Hall : forall fuel, Merger.all_chunks fuel m = Ok []).
    { intros [|fuel]; [done|]. cbn. unfold Merger.next_chunk. by rewrite Em. }
    assert (Hl : left m = []) by (unfold left; by rewrite <- Hlen).
    exists [], []. rewrite Hl in *. unfold Merger.chunks. rewrite <- Hsrc.
    repeat split; try done; constructor. }
  assert (Hsch : rb_schema first = s) by (by apply Forall_cons in Hfu as [[? _] _]).
  destruct (map_res_exists (gather m s) (fun ps c => uniform s c /\ rb_rows c = length ps /\
    table_rows c = map (source m) ps) (pick_chunks f m)) as (cs & Hcs & Hall).
  { assert (Hin : Forall (in_range m) (concat (pick_chunks f m))).
    { rewrite H1. apply left_in_range. }
    apply List.Forall_forall. intros ps Hps. apply gather_spec; [by rewrite Em|by rewrite Em|].
    apply List.Forall_forall. intros p Hp1. rewrite List.Forall_forall in Hin. apply Hin, in_concat. eauto. }
  exists cs, (concat (pick_chunks f m)).
  assert (Hrows : Arrow.all_rows cs = map (source m) (concat (pick_chunks f m))).
  { rewrite concat_map. unfold Arrow.all_rows. f_equal. clear -Hall.
    induction Hall as [|ps c l cs (_ & _ & Hr) _ IH]; cbn; [done|]. by rewrite Hr, IH. }
  repeat split.
  - unfold Merger.chunks. by rewrite (all_chunks_picks _ _ _ _ _ Hw Em), Hsch.
  - intros fuel Hf. by rewrite (all_chunks_picks _ _ _ _ _ Hw Em), Hsch, H4 by lia.
  - clear -Hall H3 Hcr. induction Hall as [|ps c l cs (Hc & Hl & _) _ IH]; constructor.
    + split; [done|]. apply Forall_cons in H3 as [H3 _]. unfold chunk_ok in H3. by rewrite Hl, <- Hcr.
    + apply IH. by apply Forall_cons in H3 as [_ H3].
  - done.
  - by rewrite Hrows, H1, Hsrc.
  - done.
  - done.
Qed.
End MergeProps.
End MergeProps.

(** ** Sorting batches

    [sort_each_batch] leaves every batch sorted by its key with the same rows; what the merge
    then yields, and that a batch rebuilt from rows that fit a schema fits it. *)
Import MergeProps.

Lemma StronglySorted_lookup {A} (R : A -> A -> Prop) l i j a b :
  StronglySorted R l -> l !! i = Some a -> l !! j = Some b -> (i < j)%nat -> R a b.
Proof.
  intros Hs. revert i j. induction Hs as [|x l Hs IH Hx]; intros i j Hi Hj Hij; [done|].
  destruct j as [|j]; [lia|]. destruct i as [|i]; cbn in *.
  - injection Hi as ->. by eapply Forall_lookup_1.
  - apply (IH i j); [done|done|lia].
Qed.

Lemma StronglySorted_mono {A} (R S : A -> A -> Prop) l :
  (forall a b, R a b -> S a b) -> StronglySorted R l -> StronglySorted S l.
Proof. intros HRS. induction 1 as [|x l Hs IH Hx]; constructor; [done|]. eapply Forall_impl; [exact Hx|]. auto. Qed.

Section SortProps.
Context `{ArrowRowsSpec}.

(** ** A reference: the stable insertion sort of rows *)
Section StableSort.
Context {A : Type} (key : A -> list (option Cell)).
Fixpoint insert_row (r : A) (l : list A) : list A :=
  match l with
  | [] => [r]
  | x :: l' => match compare_keys (key r) (key x) with Gt => x :: insert_row r l' | _ => r :: l end
  end.
Definition stable_sort (l : list A) : list A := foldr insert_row [] l.
#[local] Arguments stable_sort : simpl never.
Lemma stable_sort_cons r l : stable_sort (r :: l) = insert_row r (stable_sort l).
Proof. done. Qed.

Lemma insert_row_perm r l : insert_row r l ≡ₚ r :: l.
Proof.
  induction l as [|x l IH]; cbn; [done|]. destruct (compare_keys _ _); [done..|]. rewrite IH. apply Permutation_swap.
Qed.
Lemma stable_sort_perm l : stable_sort l ≡ₚ l.
Proof. induction l as [|x l IH]; [done|]. rewrite stable_sort_cons. by rewrite insert_row_perm, IH. Qed.

(** Behind every row it puts the ones with a greater key, and those with an equal key that
    came later. *)
Lemma stable_sort_sorted k (before : A -> A -> Prop) l :
  Forall (fun r => length (key r) = k) l -> StronglySorted before l ->
  StronglySorted (fun p q => compare_keys (key p) (key q) = Lt \/ compare_keys (key p) (key q) = Eq /\ before p q) (stable_sort l).
Proof.
  intros Hk Hb. induction Hb as [|p l Hb IH Hp]; [constructor|]. rewrite stable_sort_cons. apply Forall_cons in Hk as [Hkp Hk].
  specialize (IH Hk). rewrite <- (stable_sort_perm l) in Hp, Hk. revert IH Hp Hk. generalize (stable_sort l). clear l Hb.
  intros l Hs. induction Hs as [|x l Hs IH Hx]; intros Hp Hk; cbn; [by repeat constructor|].
  apply Forall_cons in Hp as [Hpx Hp]. apply Forall_cons in Hk as [Hkx Hk].
  destruct (compare_keys (key p) (key x)) eqn:E.
  - constructor; [by constructor|]. constructor; [by right|]. rewrite List.Forall_forall in Hp, Hk, Hx |- *. intros y Hy.
    assert (Hkl : compare_keys (key x) (key y) = Eq \/ compare_keys (key x) (key y) = Lt) by (destruct (Hx y Hy) as [?|[? _]]; auto).
    destruct Hkl as [He|Hl].
    + right. split; [|by apply Hp]. apply (keys_eq_trans _ (key x)); [congruence| |done..]. by rewrite (Hk y Hy).
    + left. apply (keys_le_lt _ (key x)); [congruence| | |done]; [by rewrite (Hk y Hy)|unfold keys_le; by rewrite E].
  - constructor; [by constructor|]. constructor; [by left|]. rewrite List.Forall_forall in Hk, Hx |- *. intros y Hy. left.
    apply (keys_lt_le _ (key x)); [congruence|by rewrite (Hk y Hy)|done|].
    unfold keys_le. by destruct (Hx y Hy) as [->|[-> _]].
  - constructor; [by apply IH|]. rewrite insert_row_perm. constructor; [|done]. left.
    rewrite (compare_keys_swap (key p) (key x)), E. done.
Qed.
End StableSort.

Lemma stable_sort_map {A B} (f : A -> B) (ka : A -> list (option Cell)) (kb : B -> list (option Cell)) l :
  (forall a, In a l -> ka a = kb (f a)) -> map f (stable_sort ka l) = stable_sort kb (map f l).
Proof.
  induction l as [|a l IH]; intros Hk; [done|]. cbn [map]. rewrite !stable_sort_cons, <- IH by (intros b Hb; apply Hk; by right).
  assert (Hka : ka a = kb (f a)) by (apply Hk; by left).
  assert (Hl : forall b, In b (stable_sort ka l) -> ka b = kb (f b)).
  { intros b Hb. apply Hk. right. apply list_elem_of_In. rewrite <- (stable_sort_perm ka l). by apply list_elem_of_In. }
  clear IH Hk. induction (stable_sort ka l) as [|b l' IH]; cbn; [done|].
  rewrite <- Hka, <- (Hl b) by by left. destruct (compare_keys (ka a) (ka b)); cbn; [done..|].
  rewrite IH; [done|]. intros c Hc. apply Hl. by right.
Qed.

(** ** Rows that fit a schema *)
Definition row_fits (schema : Schema) (r : list (option Cell)) : Prop :=
  Forall2 (fun f c => fd_nullable f = true \/ is_Some c) schema r.

Lemma fits_rows schema b : fits schema b -> Forall (row_fits schema) (table_rows b).
Proof.
  intros [_ Hf]. apply List.Forall_forall. intros r (i & <- & Hi%in_seq)%in_map_iff. unfold row_fits, row_at.
  apply Forall2_fmap_r. eapply Forall2_impl; [exact Hf|]. intros f c (_ & Hl & [?|Hn]); [by left|right].
  unfold cell. destruct (lookup_lt_is_Some_2 (ar_cells c) i ltac:(lia)) as [x Hx]. rewrite Hx. cbn.
  by eapply Forall_lookup_1 in Hn.
Qed.

Lemma rows_fit s schema b :
  uniform s b -> map fd_type s = map fd_type schema -> map fd_name s = map fd_name schema ->
  Forall (row_fits schema) (table_rows b) -> fits schema b.
Proof.
  intros [Hs [_ Hv]] Ht Hn Hr. rewrite Hs in Hv. pose proof (Forall2_length _ _ _ Hv) as Hl.
  assert (Hl2 : length s = length schema) by (rewrite <- (length_map fd_type s), Ht; apply length_map).
  split; [congruence|]. apply Forall2_same_length_lookup_2; [congruence|]. intros i f c Hf Hc.
  destruct (lookup_lt_is_Some_2 s i ltac:(apply lookup_lt_Some in Hf; lia)) as [g Hg].
  pose proof (Forall2_lookup_lr _ _ _ _ _ _ Hv Hg Hc) as (Hty & Hlen & _).
  assert (Et : fd_type g = fd_type f).
  { assert (E : map fd_type s !! i = map fd_type schema !! i) by by rewrite Ht.
    rewrite !list_lookup_fmap, Hg, Hf in E. by injection E. }
  split; [congruence|]. split; [done|]. destruct (fd_nullable f) eqn:En; [by left|right].
  apply Forall_lookup_2. intros j x Hx.
  assert (Hj : (j < rb_rows b)%nat) by (apply lookup_lt_Some in Hx; lia).
  rewrite List.Forall_forall in Hr. specialize (Hr (row_at (rb_columns b) j)).
  destruct (Forall2_lookup_l _ _ _ i f (Hr ltac:(apply in_map, in_seq; lia)) Hf) as (y & Hy & Hfy).
  unfold row_at in Hy. rewrite list_lookup_fmap, Hc in Hy. cbn in Hy. injection Hy as <-.
  unfold cell in Hfy. rewrite Hx in Hfy. cbn in Hfy. destruct Hfy as [Hfy|?]; [congruence|done].
Qed.

(** Batches of one schema agree with a schema they fit on the types. *)
Lemma agreed_types s schema b : uniform s b -> fits schema b ->
  map fd_type s = map fd_type schema /\ map fd_name s = map fd_name schema.
Proof.
  intros [Hs [_ Hv]] [Hn Hf]. split; [|congruence]. rewrite Hs in Hv. clear Hs. clear Hn. revert schema Hf.
  induction Hv as [|f c s cols (Ht & _) _ IH]; intros schema Hf; inversion Hf as [|g c' schema' cols' (Hg & _) Hrest]; subst; [done|].
  cbn. rewrite (IH schema' Hrest). f_equal. congruence.
Qed.

(** ** Sorting one batch *)
Lemma key_column_length s b name c : uniform s b -> SegmentSort.key_column b name = Ok c -> length (ar_cells c) = rb_rows b.
Proof.
  intros [_ [_ Hv]]. unfold SegmentSort.key_column. destruct (TableSpec.index_of _ _) as [i|]; [|done]. cbn.
  destruct (rb_columns b !! i) as [x|] eqn:E; [|done]. intros [= <-].
  destruct (Forall2_lookup_r _ _ _ _ _ Hv E) as (f & _ & _ & Hl & _). done.
Qed.

Lemma key_columns_length s b key cols : uniform s b -> SegmentSort.key_columns b key = Ok cols ->
  length cols = length key /\ Forall (fun c => length (ar_cells c) = rb_rows b) cols.
Proof.
  intros Hu Hk. apply map_res_Forall2 in Hk. split; [symmetry; by apply Forall2_length in Hk|].
  induction Hk as [|n c key cols Hc _ IH]; constructor; [by eapply key_column_length|done].
Qed.

Lemma compare_rows_keys cols i j comps :
  Forall2 (fun c f => SegmentSort.make_comparator c = Some f) cols comps ->
  SegmentSort.compare_rows comps i j = compare_keys (row_at cols i) (row_at cols j).
Proof.
  induction 1 as [|c f cols comps Hf _ IH]; [done|]. cbn. unfold SegmentSort.make_comparator in Hf.
  destruct (comparable _); [|done]. injection Hf as <-. rewrite IH. by destruct (cell_compare _ _).
Qed.

(** Sorted one step at a time is sorted. *)
Lemma sorted_steps (cols : list (Array Cell)) n :
  (forall i, (1 <= i < n)%nat -> keys_le (row_at cols (i - 1)) (row_at cols i)) ->
  forall i j, (i <= j < n)%nat -> keys_le (row_at cols i) (row_at cols j).
Proof.
  intros Hstep i j Hij. induction j as [|j IH].
  - assert (i = 0%nat) as -> by lia. unfold keys_le. by rewrite compare_keys_refl.
  - destruct (Nat.eq_dec i (S j)) as [->|Hne]; [unfold keys_le; by rewrite compare_keys_refl|].
    apply (keys_le_trans _ (row_at cols j)); [unfold row_at; by rewrite !length_map..|apply IH; lia|].
    specialize (Hstep (S j) ltac:(lia)). by replace (S j - 1)%nat with j in Hstep by lia.
Qed.

(** The check finds out that a batch is sorted. *)
Lemma sorted_is_checked s b key r : uniform s b -> SegmentSort.batch_is_sorted b key = Ok r -> sorted_by key b -> r = true.
Proof.
  unfold SegmentSort.batch_is_sorted. intros Hu Hs Hb. destruct (_ || _); [by injection Hs|].
  destruct (map_res _ key) as [comps|] eqn:Ec; [|done]. injection Hs as <-. apply map_res_Forall2 in Ec.
  assert (Hk : exists cols, Forall2 (fun n c => SegmentSort.key_column b n = Ok c) key cols /\
    Forall2 (fun c f => SegmentSort.make_comparator c = Some f) cols comps).
  { clear Hb. induction Ec as [|n f key comps Hf _ (cols & Hc1 & Hc2)]; [by exists []; repeat constructor|].
    destruct (SegmentSort.key_column b n) as [c|] eqn:E; [|done]. cbn in Hf.
    destruct (SegmentSort.make_comparator c) eqn:Em; [|done]. injection Hf as <-. exists (c :: cols). by repeat constructor. }
  destruct Hk as (cols & Hc1 & Hc2). apply forallb_forall. intros i Hi%in_seq.
  rewrite (compare_rows_keys cols _ _ comps Hc2).
  assert (Hle : keys_le (row_at cols (i - 1)) (row_at cols i)) by (apply Hb; [by apply map_res_Forall2|lia]).
  unfold keys_le in Hle. by destruct (compare_keys _ _).
Qed.

Lemma batch_is_sorted_spec b key : SegmentSort.batch_is_sorted b key = Ok true -> sorted_by key b.
Proof.
  unfold SegmentSort.batch_is_sorted. intros Hs cols Hcols.
  destruct (_ || _) eqn:Ee.
  - intros i j Hij. apply orb_true_iff in Ee as [Ee|Ee].
    + apply bool_decide_eq_true in Ee as ->. injection Hcols as <-. done.
    + apply Z.ltb_lt in Ee. unfold num_rows in Ee. assert (i = j) as -> by lia. unfold keys_le. by rewrite compare_keys_refl.
  - destruct (map_res _ key) as [comps|] eqn:Ec; [|done]. injection Hs as Hs. rewrite forallb_forall in Hs.
    assert (Hc : Forall2 (fun c f => SegmentSort.make_comparator c = Some f) cols comps).
    { apply map_res_Forall2 in Ec, Hcols. clear -Ec Hcols. revert comps Ec.
      induction Hcols as [|n c key cols Hc _ IH]; intros comps Ec; inversion Ec as [|? f ? comps' Hf Hr]; subst; constructor; [|by apply IH].
      rewrite Hc in Hf. cbn in Hf. destruct (SegmentSort.make_comparator c); [|done]. by injection Hf as ->. }
    apply sorted_steps. intros i Hi. specialize (Hs i ltac:(apply in_seq; lia)).
    rewrite (compare_rows_keys cols _ _ comps Hc) in Hs. unfold keys_le. by destruct (compare_keys _ _).
Qed.

(** Columns taken at some indices. *)
Abbreviation taken idx := (fun c c' : Array Cell => ar_type c' = ar_type c /\ ar_cells c' = map (cell c) idx).

Lemma taken_row cols cols' idx j i :
  Forall2 (taken idx) cols cols' -> idx !! j = Some i -> row_at cols' j = row_at cols i.
Proof.
  intros Ht Hj. unfold row_at. induction Ht as [|c c' cols cols' [_ Hc] _ IH]; [done|]. cbn. rewrite IH. f_equal.
  unfold cell at 1. rewrite Hc, list_lookup_fmap, Hj. done.
Qed.

Lemma taken_rows cols cols' idx : Forall2 (taken idx) cols cols' ->
  map (row_at cols') (seq 0 (length idx)) = map (row_at cols) idx.
Proof.
  intros Ht. apply list_eq. intros j. rewrite !list_lookup_fmap. destruct (idx !! j) as [i|] eqn:E.
  - rewrite lookup_seq_lt by (by eapply lookup_lt_Some). cbn. f_equal. by eapply taken_row.
  - by rewrite lookup_seq_ge by (by apply lookup_ge_None).
Qed.

Lemma taken_fits n idx f c c' : idx ≡ₚ seq 0 n -> column_fits n f c -> taken idx c c' -> column_fits (length idx) f c'.
Proof.
  intros Hp (Ht & Hl & Hn) [Ht' Hc']. split; [congruence|]. split; [by rewrite Hc', length_map|].
  destruct Hn as [?|Hn]; [by left|right]. rewrite Hc'. apply List.Forall_forall. intros x (i & <- & Hi)%in_map_iff.
  apply list_elem_of_In in Hi. rewrite Hp in Hi. apply elem_of_seq in Hi. unfold cell.
  destruct (lookup_lt_is_Some_2 (ar_cells c) i ltac:(lia)) as [y Hy]. rewrite Hy. by eapply Forall_lookup_1 in Hn.
Qed.

Lemma key_column_taken s b b' idx name c : rb_schema b = s -> rb_schema b' = s ->
  Forall2 (taken idx) (rb_columns b) (rb_columns b') -> SegmentSort.key_column b name = Ok c ->
  exists c', SegmentSort.key_column b' name = Ok c' /\ taken idx c c'.
Proof.
  intros Hs Hs' Ht. unfold SegmentSort.key_column. rewrite Hs, Hs'.
  destruct (TableSpec.index_of s name) as [i|]; [|done]. cbn. destruct (rb_columns b !! i) as [x|] eqn:E; [|done].
  intros [= <-]. destruct (Forall2_lookup_l _ _ _ _ _ Ht E) as (x' & -> & Hx). by exists x'.
Qed.

Lemma key_columns_taken s b b' idx key cols : rb_schema b = s -> rb_schema b' = s ->
  Forall2 (taken idx) (rb_columns b) (rb_columns b') -> SegmentSort.key_columns b key = Ok cols ->
  exists cols', SegmentSort.key_columns b' key = Ok cols' /\ Forall2 (taken idx) cols cols'.
Proof.
  intros Hs Hs' Ht Hk. apply map_res_Forall2 in Hk.
  assert (Hall : exists cols', Forall2 (fun n c => SegmentSort.key_column b' n = Ok c) key cols' /\ Forall2 (taken idx) cols cols').
  { induction Hk as [|n c key cols Hc _ (cols' & H1' & H2')]; [exists []; by split|].
    destruct (key_column_taken s b b' idx n c Hs Hs' Ht Hc) as (c' & ? & ?). exists (c' :: cols'). split; by constructor. }
  destruct Hall as (cols' & H1' & H2'). exists cols'. split; [by apply map_res_Forall2|done].
Qed.

Lemma sort_rows_spec s b key b' : uniform s b -> key <> [] -> SegmentSort.sort_rows s b key = Ok b' ->
  uniform s b' /\ table_rows b' ≡ₚ table_rows b /\ sorted_by key b'.
Proof.
  intros Hu Hne. unfold SegmentSort.sort_rows. destruct (SegmentSort.key_columns b key) as [kcols|] eqn:Ek; [|done].
  destruct (key_columns_length s b key kcols Hu Ek) as [Hkl Hkn].
  assert (Hkne : kcols <> []) by (intros ->; by destruct key).
  destruct (lexsort_to_indices kcols) as [idx|] eqn:El; [|done]. cbn.
  destruct (lexsort_spec kcols _ idx Hkne Hkn El) as [Hp Hsort].
  destruct (map_res _ _) as [cols|] eqn:Et; [|done].
  assert (Ht : Forall2 (taken idx) (rb_columns b) cols).
  { apply map_res_Forall2 in Et. eapply Forall2_impl; [exact Et|]. cbn. intros c c' Hc.
    destruct (take c idx) as [x|] eqn:E; [|done]. injection Hc as <-. by apply take_spec. }
  destruct Hu as [Hs [Hsne Hv]]. rewrite Hs in Hsne, Hv.
  assert (Hfit : Forall2 (column_fits (length idx)) s cols).
  { clear -Hv Ht Hp. revert cols Ht. induction Hv as [|f c s cs Hf _ IH]; intros cols Ht; inversion Ht; subst; constructor.
    - by eapply taken_fits.
    - by apply IH. }
  rewrite (try_new_valid s cols (length idx) Hsne Hfit). cbn. intros [= <-]. split; [|split].
  - by split.
  - unfold table_rows. cbn. rewrite (taken_rows _ _ _ Ht). by apply Permutation_map.
  - intros cols' Hk' i j Hij. cbn in Hij.
    destruct (key_columns_taken s b (mkBatch Cell s cols (length idx)) idx key kcols Hs eq_refl Ht Ek) as (kc & Hkc & Hkt).
    rewrite Hkc in Hk'. injection Hk' as <-.
    destruct (lookup_lt_is_Some_2 idx i ltac:(lia)) as [a Ha], (lookup_lt_is_Some_2 idx j ltac:(lia)) as [c Hc].
    rewrite (taken_row _ _ _ _ _ Hkt Ha), (taken_row _ _ _ _ _ Hkt Hc).
    destruct (Nat.eq_dec i j) as [->|Hn]; [assert (a = c) as -> by congruence; unfold keys_le; by rewrite compare_keys_refl|].
    exact (StronglySorted_lookup _ idx i j a c Hsort Ha Hc ltac:(lia)).
Qed.

(** ** The merge against the reference *)
Definition row_key (s : Schema) (sort_key : list string) (r : list (option Cell)) : list (option Cell) :=
  map (fun name => default None (TableSpec.index_of s name ≫= fun i => r !! i)) sort_key.

Lemma uniform_fits s b : uniform s b -> fits s b.
Proof. intros [<- [_ Hv]]. by split. Qed.

Lemma sort_batches_spec s bs key b : s <> [] -> SegmentSort.sort_batches s bs key = Ok b ->
  uniform s b /\ table_rows b ≡ₚ all_rows bs.
Proof.
  intros Hne. unfold SegmentSort.sort_batches. destruct (concat_batches s bs) as [c|] eqn:Ec; [|done]. cbn.
  apply concat_spec in Ec as (Hs & _ & Hv & Hr). assert (Hu : uniform s c) by (split; [done|by apply Hv]).
  destruct (_ || _) eqn:Ee; [intros [= <-]; by rewrite Hr|]. intros Hsort.
  apply orb_false_iff in Ee as [Ek _]. apply bool_decide_eq_false in Ek.
  destruct (sort_rows_spec s c key b Hu Ek Hsort) as (? & Hp & _). by rewrite <- Hr.
Qed.

Lemma row_key_at s b key cols i : rb_schema b = s -> SegmentSort.key_columns b key = Ok cols ->
  row_key s key (row_at (rb_columns b) i) = row_at cols i.
Proof.
  intros Hs Hk. apply map_res_Forall2 in Hk. unfold row_key, row_at at 2.
  induction Hk as [|n c key cols Hc _ IH]; [done|]. cbn. rewrite IH. f_equal.
  unfold SegmentSort.key_column in Hc. rewrite Hs in Hc. destruct (TableSpec.index_of s n) as [j|]; [|done]. cbn in *.
  unfold row_at. rewrite list_lookup_fmap. destruct (rb_columns b !! j) as [x|]; [|done]. by injection Hc as ->.
Qed.

Lemma left_before m : StronglySorted (fun p q => (p.1 < q.1)%nat \/ p.1 = q.1 /\ (p.2 <= q.2)%nat) (left m).
Proof.
  unfold left. generalize (length (mg_positions m)) as n. intros n. generalize 0%nat as a.
  induction n as [|n IH]; intros a; cbn; [constructor|]. apply StronglySorted_app. split; [|split].
  - intros p q Hp Hq. apply list_elem_of_In in Hp, Hq. apply in_map_iff in Hp as (i & <- & _).
    apply in_concat in Hq as (l & (b & <- & Hb%in_seq)%in_map_iff & (j & <- & _)%in_map_iff). left. cbn. lia.
  - unfold left_in. generalize (pos m a), (rows_in m a - pos m a)%nat. clear. intros i k. revert i.
    induction k as [|k IH]; intros i; cbn; [constructor|]. constructor; [apply IH|]. apply List.Forall_forall.
    intros q (j & <- & Hj%in_seq)%in_map_iff. right. cbn. lia.
  - apply IH.
Qed.

(** Merging batches of one schema that are each sorted yields, in chunks of at most the limit,
    the stable sort of their concatenated rows. *)
Lemma merge_sorts s bs sort_key n m :
  Forall (uniform s) bs -> Forall (sorted_by sort_key) (List.filter SegmentSort.nonempty bs) ->
  Merger.new bs sort_key n = Ok m ->
  exists cs, Merger.chunks m = Ok cs /\
    Forall (fun c => uniform s c /\ (1 <= rb_rows c <= Nat.max n 1)%nat) cs /\
    all_rows cs = stable_sort (row_key s sort_key) (all_rows bs).
Proof.
  intros Hu Hs Hn. destruct (merge_chunks s bs sort_key n m Hu Hs Hn) as (cs & picks & Hcs & _ & Hall & Hrows & _ & Hp & Hsort).
  exists cs. split; [done|]. split; [done|]. destruct (new_wf _ _ _ _ Hn Hs) as [Hw Hlen].
  destruct (new_spec _ _ _ _ Hn) as (Hb & _ & Hpos & Hr).
  assert (Hin : forall p, In p (left m) -> exists b cols, mg_batches m !! p.1 = Some b /\ mg_rows m !! p.1 = Some cols /\
    SegmentSort.key_columns b sort_key = Ok cols /\ rb_schema b = s).
  { intros p Hin. pose proof (left_in_range m) as Hir. rewrite List.Forall_forall in Hir.
    destruct (Hir p Hin) as (b & Hmb & _). destruct (Forall2_lookup_l _ _ _ _ _ Hr Hmb) as (cols & Hc & Hk). exists b, cols.
    repeat split; try done. rewrite List.Forall_forall in Hu. apply Hu. rewrite Hb in Hmb.
    apply list_elem_of_lookup_2, list_elem_of_In, filter_In in Hmb. apply Hmb. }
  assert (Hpicks : picks = stable_sort (key m) (left m)).
  { apply (StronglySorted_unique_strong (pick_le m)); [|done| |by rewrite Hp, stable_sort_perm].
    - intros [b i] [b' i'] _ _ [H1'|[H1' [?|[? ?]]]] [H2'|[H2' [?|[? ?]]]]; cbn in *; subst;
        rewrite compare_keys_swap in H2'; rewrite ?H1' in H2'; try done; try lia. f_equal. lia.
    - apply (stable_sort_sorted (key m) (length sort_key)); [|apply left_before].
      apply List.Forall_forall. intros p Hpl. apply (wf_keys _ _ Hw). destruct (Hin p Hpl) as (b & _ & Hmb & _).
      rewrite <- Hlen. by eapply lookup_lt_Some. }
  rewrite Hrows, Hpicks, (stable_sort_map (source m) (key m) (row_key s sort_key)).
  - f_equal. by rewrite rows_of_all, Hb, nonempty_rows.
  - intros p Hpl. destruct (Hin p Hpl) as (b & cols & Hmb & Hmr & Hk & Hsch). unfold key, source.
    rewrite Hmb, Hmr. symmetry. exact (row_key_at s b sort_key cols p.2 Hsch Hk).
Qed.

(** ** Sorting each batch *)
Lemma sort_one_spec s key b b' : uniform s b -> SegmentSort.sort_one key b = Ok b' ->
  uniform s b' /\ table_rows b' ≡ₚ table_rows b /\ (key <> [] -> sorted_by key b').
Proof.
  intros Hu. unfold SegmentSort.sort_one. destruct (_ || _) eqn:Ee.
  - intros [= <-]. split; [done|]. split; [done|]. intros Hne. apply orb_true_iff in Ee as [Ee|Ee].
    { by apply bool_decide_eq_true in Ee. }
    apply Z.ltb_lt in Ee. unfold num_rows in Ee. intros cols _ i j Hij. assert (i = j) as -> by lia.
    unfold keys_le. by rewrite compare_keys_refl.
  - apply orb_false_iff in Ee as [Ee _]. apply bool_decide_eq_false in Ee.
    destruct (SegmentSort.batch_is_sorted b key) as [[]|] eqn:Eb; [|..|done].
    + intros [= <-]. split; [done|]. split; [done|]. intros _. by apply batch_is_sorted_spec.
    + pose proof Hu as [Hs _]. rewrite Hs. intros Hr. destruct (sort_rows_spec s b key b' Hu Ee Hr) as (? & ? & ?). auto.
Qed.

Lemma sort_each_spec s key bs bs' : Forall (uniform s) bs -> SegmentSort.sort_each_batch bs key = Ok bs' ->
  Forall (uniform s) bs' /\ all_rows bs' ≡ₚ all_rows bs /\ (key <> [] -> Forall (sorted_by key) bs').
Proof.
  intros Hu. unfold SegmentSort.sort_each_batch. rewrite <- (nonempty_rows bs).
  assert (Hu' : Forall (uniform s) (List.filter SegmentSort.nonempty bs)).
  { rewrite !List.Forall_forall in *. intros b [Hb _]%filter_In. auto. }
  clear Hu. revert Hu'. generalize (List.filter SegmentSort.nonempty bs). intros l Hu Hm. apply map_res_Forall2 in Hm.
  induction Hm as [|b b' l l' Hb _ IH]; [by repeat split; intros|]. apply Forall_cons in Hu as [Hu1 Hu].
  destruct (sort_one_spec s key b b' Hu1 Hb) as (? & Hp & ?), (IH Hu) as (? & Hp' & ?). unfold all_rows in *. cbn.
  split; [by constructor|]. split; [by rewrite Hp, Hp'|]. intros. constructor; auto.
Qed.

(** Batches that are sorted already are left alone. *)
Lemma sort_each_sorted s key bs bs' : Forall (uniform s) bs -> SegmentSort.sort_each_batch bs key = Ok bs' ->
  Forall (sorted_by key) (List.filter SegmentSort.nonempty bs) -> bs' = List.filter SegmentSort.nonempty bs.
Proof.
  unfold SegmentSort.sort_each_batch. intros Hu Hm Hs. assert (Hu' : Forall (uniform s) (List.filter SegmentSort.nonempty bs)).
  { rewrite !List.Forall_forall in *. intros b [Hb _]%filter_In. auto. }
  clear Hu. apply map_res_Forall2 in Hm. induction Hm as [|b b' l l' Hb _ IH]; [done|].
  apply Forall_cons in Hu' as [Hu1 Hu], Hs as [Hs1 Hs]. rewrite IH by done. f_equal.
  unfold SegmentSort.sort_one in Hb. destruct (_ || _); [by injection Hb|].
  destruct (SegmentSort.batch_is_sorted b key) as [r|] eqn:Er; [|done].
  rewrite (sorted_is_checked s b key r Hu1 Er Hs1) in Hb. by injection Hb.
Qed.

(** C36 Sorting each batch and merging, as a write and a compaction do, succeeds whenever the first
    step does and yields, in chunks of at most the limit, the rows of the input in the order
    of the key; for batches that were sorted, in the order of the stable sort. *)
Theorem merge_is_stable_sort s key bs sorted n m :
  Forall (uniform s) bs -> key <> [] -> SegmentSort.sort_each_batch bs key = Ok sorted -> Merger.new sorted key n = Ok m ->
  exists cs, Merger.chunks m = Ok cs /\ Forall (fun c => uniform s c /\ (1 <= rb_rows c <= Nat.max n 1)%nat) cs /\
    all_rows cs ≡ₚ all_rows bs /\ all_rows cs = stable_sort (row_key s key) (all_rows sorted) /\
    (Forall (sorted_by key) (List.filter SegmentSort.nonempty bs) ->
     all_rows cs = stable_sort (row_key s key) (all_rows bs)).
Proof.
  intros Hu Hne Hs Hm. destruct (sort_each_spec s key bs sorted Hu Hs) as (Hu' & Hp & Hsorted).
  assert (Hsn : Forall (sorted_by key) (List.filter SegmentSort.nonempty sorted)).
  { specialize (Hsorted Hne). rewrite !List.Forall_forall in *. intros b [Hb _]%filter_In. auto. }
  destruct (merge_sorts s sorted key n m Hu' Hsn Hm) as (cs & Hcs & Hall & Hrows). exists cs.
  split; [done|]. split; [done|]. split; [by rewrite Hrows, stable_sort_perm|]. split; [done|].
  intros Hb. by rewrite Hrows, (sort_each_sorted s key bs sorted Hu Hs Hb), nonempty_rows.
Qed.
End SortProps.
