(* ===== verification/Writes.v ===== *)
(** * Writing rows ([database.rs], [transaction.rs])

    Validation of the input, [write], [append] with its segment budget and retries,
    [replace_range] and [delete_range], [compact], and the builder of multi-table
    transactions.  What they stage is committed by [Commit] and [Transaction].  The pauses
    between retries are not modelled. *)
From S2P Require Export SegmentIO Forks.

(** ** Validation *)
Module Validate.
Section Validate.
Context `{ArrowRows}.

Definition field_matches (b : RecordBatch) (want have : Field) : DbResult unit :=
  if negb (String.eqb (fd_name want) (fd_name have)) || negb (bool_decide (fd_type want = fd_type have))
  then Err (SchemaMismatch "expected field")
  else if negb (fd_nullable want) && fd_nullable have then
    let? col := ok_or (column_by_name b (fd_name have)) out_of_bounds in
    if 0 <? null_count col then Err (SchemaMismatch "column is non-nullable but input contains nulls")
    else Ok tt
  else Ok tt.

Definition batch_schema (schema : Schema) (b : RecordBatch) : DbResult unit :=
  if negb (Nat.eqb (length (rb_schema b)) (length schema)) then Err (SchemaMismatch "expected columns")
  else foldr_res (fun _ f => field_matches b f.1 f.2) tt (combine schema (rb_schema b)).

Definition validate_batches_schema (schema : Schema) (batches : list RecordBatch) : DbResult unit :=
  foldr_res (fun _ b => batch_schema schema b) tt batches.

Definition validate_time_column (spec : TableSpec) (batches : list RecordBatch) : DbResult unit :=
  match ts_time_column spec with
  | None => Ok tt
  | Some tc =>
      foldr_res (fun _ b =>
        if 0 <? num_rows b then let? _ := SegmentTime.time_values_i64 b tc in Ok tt else Ok tt) tt batches
  end.

Definition rows_in_window (tc : string) (start stop : Z) (batches : list RecordBatch) : DbResult unit :=
  foldr_res (fun _ b =>
    if num_rows b =? 0 then Ok tt
    else
      let? values := SegmentTime.time_values_i64 b tc in
      if forallb (fun v => (start <=? v) && (v <? stop)) values then Ok tt
      else Err (InvalidInput "replacement row at time falls outside")) tt batches.
End Validate.
End Validate.

Module Writes.
Section Writes.
Context `{Env} `{ArrowRows}.
Implicit Types db : Database.

(** The merger feeding the writer, chunk by chunk. *)
Fixpoint push_chunks (fuel : nat) (m : SortedBatchMerger) (w : SegmentWriter) : prog SegmentWriter :=
  match fuel with
  | O => ret w
  | S fuel' =>
      let! '(chunk, m) := lift (Merger.next_chunk m) in
      match chunk with
      | None => ret w
      | Some b => let! w := SegmentWriter.push w b in push_chunks fuel' m w
      end
  end.
Definition push_sorted (w : SegmentWriter) (batches : list RecordBatch) (sort_key : list string) :
    prog SegmentWriter :=
  if bool_decide (sort_key = []) then SegmentWriter.push_all w batches
  else
    let! sorted := lift (SegmentSort.sort_each_batch batches sort_key) in
    let! m := lift (Merger.new sorted sort_key (Z.to_nat SegmentSort.MERGE_CHUNK_ROWS)) in
    push_chunks (S (Merger.remaining m)) m w.

Definition known_inputs (spec : TableSpec) (parent : VersionManifest) : CommitInputs :=
  mkCommitInputs (Some (ts_max_segments_per_manifest spec)) (Some (mf_committed_at_ns parent)).

(** ** Replacing the whole table *)
Definition stage_write db (name : string) (batches : list RecordBatch) (opts : WriteOptions) :
    prog StagedCommit :=
  let! '(entry, spec, head, parent) := Commit.write_prologue db name OpWrite opts in
  let schema := ts_schema spec in
  do! lift (Validate.validate_batches_schema schema batches) in
  do! lift (Validate.validate_time_column spec batches) in
  do! DataPolicyStore.enforce_data_policy (ce_table_id entry) batches in
  let next_seq := hd_sequence (hs_head head) + 1 in
  let! w := SegmentWriter.new spec schema next_seq in
  let! w := push_sorted w batches (ts_sort_key spec) in
  let! '(segments, _sorted, lease) := SegmentWriter.finish w in
  let! '(segments, deduped) := dedup_segments segments parent in
  let manifest := child_manifest parent next_seq OpWrite opts spec <| mf_segments := segments |> in
  ret (mkStagedCommit entry head manifest (zlen segments - deduped) deduped lease (known_inputs spec parent)).

Definition write db (name : string) (batches : list RecordBatch) (opts : WriteOptions) : prog CommitResult :=
  let! replay := Commit.idempotent_replay db name opts in
  match replay with
  | Some r => ret r
  | None => let! staged := stage_write db name batches opts in Commit.commit_staged db staged
  end.

(** ** Compaction *)
Definition time_key (s : SegmentMeta) : Z := default i64_max (fst <$> sg_time_range s).
Definition in_time_order (segments : list SegmentMeta) : list SegmentMeta := sort_by_key time_key segments.

(** The run being collected, its encoded bytes, and what earlier runs became. *)
Record Grouping := mkGrouping {
  gr_current : list SegmentMeta;
  gr_bytes : Z;
  gr_untouched : list SegmentMeta;
  gr_groups : list (list SegmentMeta);
}.

Definition close_current (g : Grouping) : Grouping :=
  if Nat.ltb 1 (length (gr_current g))
  then mkGrouping [] 0 (gr_untouched g) (gr_groups g ++ [gr_current g])
  else mkGrouping [] 0 (gr_untouched g ++ gr_current g) (gr_groups g).

Definition group_step (small_threshold target_encoded : Z) (g : Grouping) (seg : SegmentMeta) : Grouping :=
  if sg_bytes seg <? small_threshold then
    let g := mkGrouping (gr_current g ++ [seg]) (gr_bytes g + sg_bytes seg) (gr_untouched g) (gr_groups g) in
    if target_encoded <=? gr_bytes g then close_current g else g
  else
    let g := close_current g in
    mkGrouping (gr_current g) (gr_bytes g) (gr_untouched g ++ [seg]) (gr_groups g).

Definition group_segments (target : Z) (inherited ordered : list SegmentMeta) : Grouping :=
  let target_encoded := Z.max (target / 3) 1 in
  let small_threshold := Z.max (target_encoded / 2) 1 in
  close_current (fold_left (group_step small_threshold target_encoded) ordered (mkGrouping [] 0 inherited [])).

Definition read_group (group : list SegmentMeta) : prog (list RecordBatch) :=
  fold_prog (fun acc seg =>
    let! bs := SegmentReader.read_segment seg None None in ret (acc ++ bs)) [] group.
Definition rewrite_group (sort_key : list string) (w : SegmentWriter) (group : list SegmentMeta) :
    prog SegmentWriter :=
  let! batches := read_group group in
  let! w := push_sorted w batches sort_key in
  SegmentWriter.flush w.

Definition nothing_to_compact (name : string) (head : HeadState) (parent : VersionManifest) : CommitResult :=
  mkCommitResult name (hd_sequence (hs_head head)) "compact" (mf_rows parent) (zlen (mf_segments parent)) 0 0
    (mf_committed_at_ns parent).

(** The segments of the table itself, and the inherited ones: a fork leaves those alone. *)
Definition own_and_inherited (t : Uuid) (parent : VersionManifest) : list SegmentMeta * list SegmentMeta :=
  let own (s : SegmentMeta) := Forks.is_own_segment (table_prefix t) (sg_path s) in
  (List.filter own (mf_segments parent), List.filter (fun s => negb (own s)) (mf_segments parent)).

Definition compact_with db (name : string) (target_bytes : option Z) (opts : WriteOptions) : prog CommitResult :=
  let! replay := Commit.idempotent_replay db name opts in
  match replay with
  | Some r => ret r
  | None =>
      let! '(entry, spec, head, parent) := Commit.write_prologue db name OpCompact opts in
      let target := default (so_target_segment_bytes (ts_storage spec)) target_bytes in
      let '(owned, inherited) := own_and_inherited (ce_table_id entry) parent in
      let g := group_segments target inherited (in_time_order owned) in
      match gr_groups g with
      | [] => ret (nothing_to_compact name head parent)
      | groups =>
          let next_seq := hd_sequence (hs_head head) + 1 in
          let! w := SegmentWriter.new spec (ts_schema spec) next_seq in
          let! w := fold_prog (rewrite_group (ts_sort_key spec)) w groups in
          let! '(rewritten, _sorted, lease) := SegmentWriter.finish w in
          let segments := in_time_order (gr_untouched g ++ rewritten) in
          let manifest := child_manifest parent next_seq OpCompact opts spec <| mf_segments := segments |> in
          if negb (sum_u64 (map sg_rows segments) =? mf_rows parent)
          then throw (Internal "compaction row-count mismatch")
          else
            let! res := Commit.commit_manifest db name (ce_table_id entry) (Some head) manifest
                          (zlen rewritten) (known_inputs spec parent) in
            do! Commit.release_staging lease in
            ret res
      end
  end.
Definition compact db (name : string) (opts : WriteOptions) : prog CommitResult :=
  compact_with db name None opts.

(** ** Appending *)

(** Each batch sorted, and starting no earlier than the one before ended. *)
Definition ordered_step (name : string) (spec : TableSpec) (prev_last : option Z) (b : RecordBatch) :
    DbResult (option Z) :=
  if num_rows b =? 0 then Ok prev_last
  else
    let? sorted := SegmentSort.batch_is_sorted b (ts_sort_key spec) in
    if negb sorted
    then Err (SortOrderViolation name "append input batch is not sorted by the table sort key")
    else
      match ts_time_column spec with
      | None => Ok prev_last
      | Some tc =>
          let? r := SegmentTime.time_min_max b tc in
          match r with
          | None => Ok prev_last
          | Some (bmin, bmax) =>
              if negb (SegmentStats.none_or (fun prev => prev <=? bmin) prev_last)
              then Err (SortOrderViolation name "append input batches are not mutually ordered")
              else Ok (Some bmax)
          end
      end.

Definition starts_after (name : string) (spec : TableSpec) (parent : VersionManifest)
    (batches : list RecordBatch) : DbResult unit :=
  match mf_time_range parent, ts_time_column spec with
  | Some (_, table_max), Some tc =>
      match List.filter SegmentSort.nonempty batches with
      | [] => Ok tt
      | first :: _ =>
          let? r := SegmentTime.time_min_max first tc in
          match r with
          | Some (mn, _) =>
              if mn <? table_max then Err (SortOrderViolation name "append input starts before the table ends")
              else Ok tt
          | None => Ok tt
          end
      end
  | _, _ => Ok tt
  end.

Definition check_append_order (name : string) (spec : TableSpec) (parent : VersionManifest)
    (batches : list RecordBatch) : DbResult unit :=
  if bool_decide (ts_sort_key spec = []) then Ok tt
  else
    let? _ := foldr_res (ordered_step name spec) None batches in
    starts_after name spec parent batches.

Definition may_compact (auto_compact : bool) (opts : WriteOptions) : prog bool :=
  if negb auto_compact || match wo_expected_version opts with Some _ => true | None => false end then ret false
  else let! policy := PolicyStore.load in ret (is_ok (MutationPolicy.check_direct policy OpCompact)).

(** [again]: the restart after a compaction, with compaction off. *)
Definition append_attempt db (name : string) (batches : list RecordBatch) (opts : WriteOptions)
    (auto_compact : bool) (again : prog StagedCommit) : prog StagedCommit :=
  let! '(entry, spec, head, parent) := Commit.write_prologue db name OpAppend opts in
  let schema := ts_schema spec in
  do! lift (Validate.validate_batches_schema schema batches) in
  do! lift (Validate.validate_time_column spec batches) in
  do! DataPolicyStore.enforce_data_policy (ce_table_id entry) batches in
  if ts_max_segments_per_manifest spec <=? zlen (mf_segments parent) then
    let! can_compact := may_compact auto_compact opts in
    if negb can_compact then throw (LimitExceeded "table already references segments; run compact first")
    else do! compact db name (mkWriteOptions None None [] None) in again
  else
    do! lift (check_append_order name spec parent batches) in
    let next_seq := hd_sequence (hs_head head) + 1 in
    let! w := SegmentWriter.new spec schema next_seq in
    let! w := SegmentWriter.push_all w batches in
    let! '(segments, _sorted, lease) := SegmentWriter.finish w in
    let! '(segments, deduped) := dedup_segments segments parent in
    let manifest := child_manifest parent next_seq OpAppend opts spec
                      <| mf_segments := mf_segments parent ++ segments |> in
    ret (mkStagedCommit entry head manifest (zlen segments - deduped) deduped lease (known_inputs spec parent)).

Definition stage_append db (name : string) (batches : list RecordBatch) (opts : WriteOptions)
    (auto_compact : bool) : prog StagedCommit :=
  append_attempt db name batches opts auto_compact
    (append_attempt db name batches opts false (throw (Internal "compaction is off"))).

Definition append_inner db (name : string) (batches : list RecordBatch) (opts : WriteOptions)
    (auto_compact : bool) : prog CommitResult :=
  let! staged := stage_append db name batches opts auto_compact in Commit.commit_staged db staged.

Definition append db (name : string) (batches : list RecordBatch) (opts : WriteOptions) : prog CommitResult :=
  let! replay := Commit.idempotent_replay db name opts in
  match replay with
  | Some r => ret r
  | None => append_inner db name batches opts true
  end.

Fixpoint append_with_retry db (name : string) (batches : list RecordBatch) (opts : WriteOptions)
    (max_retries : nat) : prog CommitResult :=
  let! r := attempt (append db name batches opts) in
  match r, max_retries with
  | Err (VersionConflict _ _ _), S n | Err (LockTimeout _), S n => append_with_retry db name batches opts n
  | _, _ => lift r
  end.

(** ** Replacing a time range *)

(** A segment outside the range is kept, one inside it is dropped without being read, one
    across a bound is rewritten. *)
Definition is_kept (start stop : Z) (seg : SegmentMeta) : bool :=
  negb (SegmentMeta.overlaps_time seg (Some start) (Some stop)).
Definition is_boundary (start stop : Z) (seg : SegmentMeta) : bool :=
  SegmentMeta.overlaps_time seg (Some start) (Some stop) && negb (SegmentMeta.covered_by_time seg start stop).

(** The rows of a boundary segment outside the range: those before, then those after. *)
Definition rewrite_boundary (tc : string) (start stop : Z) (w : SegmentWriter) (seg : SegmentMeta) :
    prog SegmentWriter :=
  let! batches := SegmentReader.read_segment seg None None in
  let! before := lift (SegmentTime.filter_batches_by_time batches tc None (Some start)) in
  let! w := SegmentWriter.push_all w before in
  let! after := lift (SegmentTime.filter_batches_by_time batches tc (Some stop) None) in
  SegmentWriter.push_all w after.

Definition replace_range_impl db (name : string) (start stop : Z) (new_batches : list RecordBatch)
    (opts : WriteOptions) (op : OpKind) : prog CommitResult :=
  let! replay := Commit.idempotent_replay db name opts in
  match replay with
  | Some r => ret r
  | None =>
      if stop <=? start then throw (InvalidInput "empty range")
      else
        let! '(entry, spec, head, parent) := Commit.write_prologue db name op opts in
        let! tc := lift (ok_or (ts_time_column spec) (Unsupported "requires a table with a time column")) in
        let schema := ts_schema spec in
        do! lift (Validate.validate_batches_schema schema new_batches) in
        do! lift (Validate.validate_time_column spec new_batches) in
        do! DataPolicyStore.enforce_data_policy (ce_table_id entry) new_batches in
        do! lift (Validate.rows_in_window tc start stop new_batches) in
        let next_seq := hd_sequence (hs_head head) + 1 in
        let! w := SegmentWriter.new spec schema next_seq in
        let! w := fold_prog (rewrite_boundary tc start stop) w
                    (List.filter (is_boundary start stop) (mf_segments parent)) in
        let! w := (match new_batches with
                   | [] => ret w
                   | _ => let! sorted := lift (SegmentSort.sort_batches schema new_batches (ts_sort_key spec)) in
                          SegmentWriter.push w sorted
                   end) in
        let! '(rewritten, _sorted, lease) := SegmentWriter.finish w in
        let! '(rewritten, deduped) := dedup_segments rewritten parent in
        let segments := in_time_order (List.filter (is_kept start stop) (mf_segments parent) ++ rewritten) in
        let manifest := child_manifest parent next_seq op opts spec <| mf_segments := segments |> in
        let! res := Commit.commit_manifest db name (ce_table_id entry) (Some head) manifest
                      (zlen rewritten - deduped) (known_inputs spec parent) in
        do! Commit.release_staging lease in
        ret (res <| cr_segments_deduped := deduped |>)
  end.
Definition replace_range db (name : string) (start stop : Z) (new_batches : list RecordBatch)
    (opts : WriteOptions) : prog CommitResult :=
  replace_range_impl db name start stop new_batches opts OpReplaceRange.
Definition delete_range db (name : string) (start stop : Z) (opts : WriteOptions) : prog CommitResult :=
  replace_range_impl db name start stop [] opts OpDeleteRange.
End Writes.
End Writes.

(** ** Building a transaction *)
Inductive StagedOp := AppendOp (batches : list RecordBatch) | WriteOp (batches : list RecordBatch).

Record TransactionBuilder := mkTransaction {
  tx_ops : BTree string StagedOp;
  tx_opts : WriteOptions;
}.
#[export] Instance eta_TransactionBuilder : Eta TransactionBuilder := fun t =>
  mkTransaction (tx_ops t) (tx_opts t).

Module TransactionBuilder.
Section TransactionBuilder.
Context `{Env} `{ArrowRows}.
Implicit Types db : Database.

Definition transaction : TransactionBuilder := mkTransaction [] (mkWriteOptions None None [] None).

Definition add (t : TransactionBuilder) (table : string) (op : StagedOp) : DbResult TransactionBuilder :=
  if bcontains table (tx_ops t) then Err (InvalidInput "transaction already contains an operation for table")
  else Ok (t <| tx_ops := binsert table op (tx_ops t) |>).
Definition append (t : TransactionBuilder) (table : string) (batches : list RecordBatch) :=
  add t table (AppendOp batches).
Definition write (t : TransactionBuilder) (table : string) (batches : list RecordBatch) :=
  add t table (WriteOp batches).
Definition with_options (t : TransactionBuilder) (opts : WriteOptions) : TransactionBuilder :=
  t <| tx_opts := opts |>.

Definition stage_op db (opts : WriteOptions) (entry : string * StagedOp) : prog StagedCommit :=
  match entry.2 with
  | AppendOp batches => Writes.stage_append db entry.1 batches opts false
  | WriteOp batches => Writes.stage_write db entry.1 batches opts
  end.

Definition commit db (t : TransactionBuilder) : prog (list CommitResult) :=
  match tx_ops t with
  | [] => throw (InvalidInput "empty transaction")
  | ops =>
      if Database.is_read_only db then throw (ReadOnly "transaction")
      else
        do! Commit.materialize_shadows db (bkeys ops) in
        let! staged := map_prog (stage_op db (tx_opts t)) ops in
        Transaction.commit_staged_transaction
          (sort_by_key (fun s => ce_table_id (sc_entry s)) staged)
  end.
End TransactionBuilder.
End TransactionBuilder.
