(* ===== verification/Scan.v ===== *)
(** * Reading rows ([database.rs], [incremental.rs], [tail.rs])

    A scan prunes segments by the time range of the manifest, reads the survivors in manifest
    order, adapts those of an older schema revision, and cuts the stream at the limit.
    [diff_scan] is a scan of the appended segments; a tail polls HEAD and scans what each
    advance appended.  Concurrent reads of segments are one loop in manifest order: reading
    changes nothing. *)
From S2P Require Export Writes.

Record ScanOptions := mkScanOptions {
  sp_projection : option (list string);
  sp_time_start : option Z;
  sp_time_end : option Z;
  sp_limit : option Z;
  sp_verify_checksums : bool;
}.
#[export] Instance eta_ScanOptions : Eta ScanOptions := fun o =>
  mkScanOptions (sp_projection o) (sp_time_start o) (sp_time_end o) (sp_limit o) (sp_verify_checksums o).
Definition ScanOptions_default : ScanOptions := mkScanOptions None None None None false.

Record ScanReport := mkScanReport {
  sr_segments_total : Z;
  sr_segments_scanned : Z;
  sr_segments_pruned : Z;
  sr_bytes_scanned : Z;
  sr_rows_returned : Z;
}.
#[export] Instance eta_ScanReport : Eta ScanReport := fun r =>
  mkScanReport (sr_segments_total r) (sr_segments_scanned r) (sr_segments_pruned r) (sr_bytes_scanned r)
    (sr_rows_returned r).

Module Scan.
Section Scan.
Context `{Env} `{ArrowRows}.
Implicit Types db : Database.

Definition project_out (b : RecordBatch) (column : string) : DbResult RecordBatch :=
  let indices := List.filter (fun i => match rb_schema b !! i with
                                       | Some f => negb (String.eqb (fd_name f) column)
                                       | None => false end) (seq 0 (length (rb_schema b))) in
  ok_or (project b indices) Arrow.

Definition time_filter_requested (o : ScanOptions) : bool :=
  bool_decide (is_Some (sp_time_start o)) || bool_decide (is_Some (sp_time_end o)).

Definition survivors (o : ScanOptions) (segments : list SegmentMeta) : list SegmentMeta :=
  List.filter (fun s => negb (time_filter_requested o)
                 || SegmentMeta.overlaps_time s (sp_time_start o) (sp_time_end o)) segments.

Definition report_of (o : ScanOptions) (segments : list SegmentMeta) : ScanReport :=
  let scanned := survivors o segments in
  mkScanReport (zlen segments) (zlen scanned) (zlen segments - zlen scanned)
    (sum_u64 (map sg_bytes scanned)) 0.

(** The columns to read, and whether the time column is only there for the filter. *)
Definition effective_projection (o : ScanOptions) (tc : option string) : option (list string) * bool :=
  match sp_projection o, tc with
  | Some proj, Some tc =>
      if time_filter_requested o && negb (bool_decide (tc ∈ proj)) then (Some (proj ++ [tc]), true)
      else (Some proj, false)
  | p, _ => (p, false)
  end.

Definition project_adapted (target : Schema) (proj : option (list string)) (b : RecordBatch) :
    DbResult RecordBatch :=
  let? adapted := adapt_batch target b in
  match proj with
  | None => Ok adapted
  | Some columns =>
      let? indices := map_res (fun name => ok_or (index_of target name) Arrow) columns in
      ok_or (project adapted indices) Arrow
  end.

Definition read_one (verified : bool) (seg : SegmentMeta) (proj : option (list string))
    (tf : option (string * option Z * option Z)) : prog (list RecordBatch) :=
  if verified then SegmentReader.read_segment_verified seg proj tf else SegmentReader.read_segment seg proj tf.

Definition read_adapted (r : ResolvedTable) (o : ScanOptions) (proj : option (list string))
    (tf : option (string * option Z * option Z)) (seg : SegmentMeta) : prog (list RecordBatch) :=
  if sg_schema_revision seg =? ts_schema_revision (rt_spec r)
  then read_one (sp_verify_checksums o) seg proj tf
  else
    let! batches := read_one (sp_verify_checksums o) seg None tf in
    lift (map_res (project_adapted (rt_schema r) proj) batches).

(** The stream's last stage for the batches of one segment: [None] once the limit is reached. *)
Fixpoint take_batches (limit : option Z) (drop_time : option string) (rows : Z) (bs : list RecordBatch) :
    DbResult (list RecordBatch * option Z) :=
  match bs with
  | [] => Ok ([], Some rows)
  | b :: bs' =>
      if match limit with Some lim => lim <=? rows | None => false end then Ok ([], None)
      else
        let b := match limit with
                 | Some lim => if lim <? rows + num_rows b then slice b 0 (Z.to_nat (lim - rows)) else b
                 | None => b
                 end in
        let? out := match drop_time with Some tc => project_out b tc | None => Ok b end in
        let? '(rest, state) := take_batches limit drop_time (rows + num_rows b) bs' in
        Ok ((if 0 <? num_rows out then [out] else []) ++ rest, state)
  end.

Fixpoint scan_segments (read : SegmentMeta -> prog (list RecordBatch)) (limit : option Z)
    (drop_time : option string) (rows : Z) (segs : list SegmentMeta) : prog (list RecordBatch) :=
  match segs with
  | [] => ret []
  | seg :: segs' =>
      let! bs := read seg in
      let! '(out, state) := lift (take_batches limit drop_time rows bs) in
      match state with
      | None => ret out
      | Some rows => let! rest := scan_segments read limit drop_time rows segs' in ret (out ++ rest)
      end
  end.

Definition scan_resolved (r : ResolvedTable) (o : ScanOptions) : prog (list RecordBatch * ScanReport) :=
  let tc := ts_time_column (rt_spec r) in
  if time_filter_requested o && bool_decide (tc = None)
  then throw (InvalidInput "time-range scan on a table without a time column")
  else
    let segments := mf_segments (rt_manifest r) in
    let '(proj, drop_time_col) := effective_projection o tc in
    let tf := if time_filter_requested o then (fun c => (c, sp_time_start o, sp_time_end o)) <$> tc else None in
    let! batches := scan_segments (read_adapted r o proj tf) (sp_limit o)
                      (if drop_time_col then tc else None) 0 (survivors o segments) in
    ret (batches, report_of o segments <| sr_rows_returned := SegmentWriter.total_rows batches |>).

Definition scan db (name : string) (at_ : ReadAt) (o : ScanOptions) : prog (list RecordBatch * ScanReport) :=
  let! r := Database.resolve db name at_ in scan_resolved r o.

(** ** Incremental reads *)
Definition diff_scan db (name : string) (from to : Z) (o : ScanOptions) :
    prog (list RecordBatch * ScanReport) :=
  let! d := Retention.diff db name from to in
  let! r := Database.resolve db name (Version to) in
  let narrowed := mkResolvedTable (rt_entry r) (rt_spec r) (rt_schema r)
    (rt_manifest r <| mf_segments := vd_added_segments d |>) (rt_head_sequence r) in
  scan_resolved narrowed o.

(** ** Tailing *)
Inductive TailEvent := Advanced (seq : Z) | TimedOut.

(** One poll: HEAD of the table the base catalog has under this name. *)
Definition poll (name : string) (after : Z) : prog (option Z) :=
  let! e := Catalog.load_entry name in
  match e with
  | None => throw (TableNotFound name)
  | Some entry =>
      let! h := LocalHeadStore.read (ce_table_id entry) in
      ret (match h with
           | Some state => if after <? hd_sequence (hs_head state) then Some (hd_sequence (hs_head state)) else None
           | None => None
           end)
  end.

(** [polls] is how many polls fit before the timeout: there is always one. *)
Fixpoint wait_for_version (name : string) (after : Z) (polls : nat) : prog TailEvent :=
  let! found := poll name after in
  match found with
  | Some seq => ret (Advanced seq)
  | None => match polls with O => ret TimedOut | S n => wait_for_version name after n end
  end.

Record TailState := mkTailState {
  tl_after : Z;
  tl_pending : list RecordBatch;
  tl_failed : bool;
}.

(** The next item of the stream; [rounds] bounds how often a wait may time out or an advance
    bring no batch, [None] when they are used up. *)
Fixpoint tail_next db (name : string) (polls rounds : nat) (s : TailState) :
    prog (option (option (DbResult RecordBatch)) * TailState) :=
  if tl_failed s then ret (Some None, s)
  else
    match tl_pending s with
    | b :: rest => ret (Some (Some (Ok b)), mkTailState (tl_after s) rest false)
    | [] =>
        match rounds with
        | O => ret (None, s)
        | S rounds' =>
            let failed e := ret (Some (Some (Err e)), mkTailState (tl_after s) [] true) in
            let! waited := attempt (wait_for_version name (tl_after s) polls) in
            match waited with
            | Err e => failed e
            | Ok TimedOut => tail_next db name polls rounds' s
            | Ok (Advanced next) =>
                let! scanned := attempt (diff_scan db name (tl_after s) next ScanOptions_default) in
                match scanned with
                | Err e => failed e
                | Ok (batches, _) => tail_next db name polls rounds' (mkTailState next batches false)
                end
            end
        end
    end.
End Scan.
End Scan.

(** ** Planned mutations ([plan.rs])

    [plan_replace_range] and [plan_write] run the whole write path short of the commit and
    store what applying will publish; [load_plan], [list_plans] and [discard_plan].
    [apply_plan] is in [Commit], the protection of planned segments in [Vacuum]. *)

Module Plans.
Section Plans.
Context `{Env} `{ArrowRows}.
Implicit Types db : Database.

Definition PLAN_TTL_SECONDS : Z := 7 * 24 * 3600.
Definition SAMPLE_ROWS : nat := 8.

(** *** Samples *)
Fixpoint sample_batches (limit : nat) (rows : nat) (batches : list RecordBatch) : list RecordBatch :=
  match batches with
  | [] => []
  | b :: bs =>
      if Nat.leb limit rows || Nat.eqb (rb_rows b) 0 then []
      else
        let take := Nat.min (limit - rows) (rb_rows b) in
        slice b 0 take :: sample_batches limit (rows + take) bs
  end.

Definition encode_sample (batches : list RecordBatch) (limit : nat) : DbResult (option string) :=
  match sample_batches limit 0 batches with
  | [] => Ok None
  | first :: _ as taken =>
      let? buf := ok_or (ipc_write (rb_schema first) taken) Arrow in Ok (Some (b64_encode buf))
  end.

Definition decode_sample (b64 : string) : DbResult (list RecordBatch) :=
  let? bytes := ok_or (b64_decode b64) (Corruption ["plan sample"] "bad base64") in
  ok_or (ipc_read bytes) Arrow.

(** *** Storing *)
Definition store_plan (plan : MutationPlan) : prog unit :=
  let path := plan_path (pl_table_id plan) (pl_plan_id plan) in
  do! Backend.put path (OPlan plan) in
  Backend.sync_objects [path].

Definition catalog_entry (table : string) : prog CatalogEntry :=
  let! e := Catalog.load_entry table in
  match e with Some entry => ret entry | None => throw (TableNotFound table) end.

Definition load_plan (table : string) (plan_id : Uuid) : prog MutationPlan :=
  let! entry := catalog_entry table in
  let path := plan_path (ce_table_id entry) plan_id in
  let! found := Backend.get_opt path in
  match found with
  | None => throw (InvalidInput "plan not found for table")
  | Some o => lift (Vacuum.parse_plan o path)
  end.

Definition list_plans (table : string) : prog (list MutationPlan) :=
  let! entry := catalog_entry table in
  let! metas := Backend.list (plan_prefix (ce_table_id entry)) in
  let! plans := map_prog (fun m => let! o := Backend.get m.1 in lift (Vacuum.parse_plan o m.1)) metas in
  ret (sort_by_key pl_created_at_ns plans).

Definition discard_plan (table : string) (plan_id : Uuid) : prog unit :=
  let! entry := catalog_entry table in
  Backend.delete (plan_path (ce_table_id entry) plan_id).

(** *** Planning *)

(** What a plan says of itself, sealed and stored; the lease of the staged segments is then
    redundant. *)
Definition finish_plan (name : string) (r : ResolvedTable) (opts : WriteOptions) (op : OpKind)
    (segments : list SegmentMeta) (summary : PlanSummary) (before after : list RecordBatch)
    (lease : option Path) : prog MutationPlan :=
  let! t := call Now in
  let now := monotonic_commit_ts t None in
  let! id := call NewUuid in
  let! h := LocalHeadStore.read (ce_table_id (rt_entry r)) in
  let! h := lift (ok_or h (Internal "HEAD vanished during planning")) in
  let! before_sample := lift (encode_sample before SAMPLE_ROWS) in
  let! after_sample := lift (encode_sample after SAMPLE_ROWS) in
  let plan := seal (mkMutationPlan id now (now + PLAN_TTL_SECONDS * 1000000000) name
    (ce_table_id (rt_entry r)) (rt_head_sequence r) (hd_manifest_checksum (hs_head h)) op (wo_note opts)
    (wo_user_meta opts) (mf_schema_revision (rt_manifest r)) segments summary before_sample after_sample "") in
  do! store_plan plan in
  do! Commit.release_staging lease in
  ret plan.

Definition added_bytes (next_seq : Z) (segments : list SegmentMeta) : Z :=
  sum_u64 (map sg_bytes (List.filter (fun s => sg_created_by_sequence s =? next_seq) segments)).

Definition plan_replace_range db (name : string) (start stop : Z) (new_batches : list RecordBatch)
    (opts : WriteOptions) : prog MutationPlan :=
  if stop <=? start then throw (InvalidInput "empty range")
  else
    let op := match new_batches with [] => OpDeleteRange | _ => OpReplaceRange end in
    let! r := Database.resolve db name Latest in
    let spec := rt_spec r in
    let! tc := lift (ok_or (ts_time_column spec) (Unsupported "requires a table with a time column")) in
    let schema := rt_schema r in
    do! lift (Validate.validate_batches_schema schema new_batches) in
    do! DataPolicyStore.enforce_data_policy (ce_table_id (rt_entry r)) new_batches in
    do! lift (Validate.rows_in_window tc start stop new_batches) in
    let! '(before, _report) := Scan.scan_resolved r
      (mkScanOptions None (Some start) (Some stop) (Some (Z.of_nat SAMPLE_ROWS)) false) in
    let! '(in_range, _report) := Scan.scan_resolved r
      (mkScanOptions (Some [tc]) (Some start) (Some stop) None false) in
    let next_seq := rt_head_sequence r + 1 in
    let overlaps s := SegmentMeta.overlaps_time s (Some start) (Some stop) in
    let kept := List.filter (fun s => negb (overlaps s)) (mf_segments (rt_manifest r)) in
    let! w := SegmentWriter.new spec schema next_seq in
    let! w := fold_prog (Writes.rewrite_boundary tc start stop) w
                (List.filter overlaps (mf_segments (rt_manifest r))) in
    let! after := (match new_batches with
                   | [] => ret []
                   | _ => let! sorted := lift (SegmentSort.sort_batches schema new_batches (ts_sort_key spec)) in
                          ret [sorted]
                   end) in
    let! w := SegmentWriter.push_all w after in
    let! '(rewritten, _sorted, lease) := SegmentWriter.finish w in
    let! '(rewritten, deduped) := dedup_segments rewritten (rt_manifest r) in
    let segments := Writes.in_time_order (kept ++ rewritten) in
    let summary := mkPlanSummary (mf_rows (rt_manifest r)) (sum_u64 (map sg_rows segments))
      (SegmentWriter.total_rows in_range) (zlen kept + deduped) (zlen rewritten - deduped)
      (added_bytes next_seq rewritten) (Some (start, stop)) in
    finish_plan name r opts op segments summary before after lease.

(** The merge of [plan_write], which keeps the first rows of the first chunk. *)
Definition head_of_batch (b : RecordBatch) : RecordBatch := slice b 0 (Nat.min (rb_rows b) SAMPLE_ROWS).
Definition note_head (after : option RecordBatch) (b : RecordBatch) : option RecordBatch :=
  match after with
  | None => if 0 <? num_rows b then Some (head_of_batch b) else None
  | Some _ => after
  end.
Fixpoint push_noting (w : SegmentWriter) (after : option RecordBatch) (bs : list RecordBatch) :
    prog (SegmentWriter * option RecordBatch) :=
  match bs with
  | [] => ret (w, after)
  | b :: bs' => let! w := SegmentWriter.push w b in push_noting w (note_head after b) bs'
  end.
Fixpoint push_chunks_noting (fuel : nat) (m : SortedBatchMerger) (w : SegmentWriter)
    (after : option RecordBatch) : prog (SegmentWriter * option RecordBatch) :=
  match fuel with
  | O => ret (w, after)
  | S fuel' =>
      let! '(chunk, m) := lift (Merger.next_chunk m) in
      match chunk with
      | None => ret (w, after)
      | Some b => let! w := SegmentWriter.push w b in push_chunks_noting fuel' m w (note_head after b)
      end
  end.

Definition plan_write db (name : string) (batches : list RecordBatch) (opts : WriteOptions) :
    prog MutationPlan :=
  let! r := Database.resolve db name Latest in
  let spec := rt_spec r in
  let schema := rt_schema r in
  do! lift (Validate.validate_batches_schema schema batches) in
  do! DataPolicyStore.enforce_data_policy (ce_table_id (rt_entry r)) batches in
  let! '(before, _report) := Scan.scan_resolved r
    (ScanOptions_default <| sp_limit := Some (Z.of_nat SAMPLE_ROWS) |>) in
  let next_seq := rt_head_sequence r + 1 in
  let! w := SegmentWriter.new spec schema next_seq in
  let! '(w, after) :=
    (if bool_decide (ts_sort_key spec = []) then push_noting w None batches
     else
       let! sorted := lift (SegmentSort.sort_each_batch batches (ts_sort_key spec)) in
       let! m := lift (Merger.new sorted (ts_sort_key spec) (Z.to_nat SegmentSort.MERGE_CHUNK_ROWS)) in
       push_chunks_noting (S (Merger.remaining m)) m w None) in
  let! '(segments, _sorted, lease) := SegmentWriter.finish w in
  let! '(segments, deduped) := dedup_segments segments (rt_manifest r) in
  let rows_after := sum_u64 (map sg_rows segments) in
  let summary := mkPlanSummary (mf_rows (rt_manifest r)) rows_after (Z.max (mf_rows (rt_manifest r)) rows_after)
    deduped (zlen segments - deduped) (added_bytes next_seq segments) (mf_time_range (rt_manifest r)) in
  finish_plan name r opts OpWrite segments summary before
    (match after with Some b => [b] | None => [] end) lease.
End Plans.
End Plans.
