(* ===== verification/WriterProps.v ===== *)
(** * The statistics of a column and the segment writer

    What [ColumnAcc] has seen of a column bounds it: the recorded minimum and maximum are
    values of the column, and no value is outside them, as long as every string is short.
    Then what the segment writer leaves on disk, under a lease that lists it. *)
From S2P Require Export SegmentIO SortProps Writes Reads.

Section StatsProps.
Context `{ArrowRowsSpec}.
Import SegmentStats.

Definition signed (t : DataType) : bool :=
  match t with Int8 | Int16 | Int32 | Int64 | Date32 | Date64 | Timestamp _ => true | _ => false end.

(** Arrays of one type, with the cells of that type; strings within the budget. *)
Definition measured (a : Column) : Prop :=
  (signed (ar_type a) = true /\ Forall (fun c => match c with None | Some (CInt _) => True | _ => False end) (ar_cells a)) \/
  ((ar_type a = Utf8 \/ ar_type a = LargeUtf8) /\
   Forall (fun c => match c with None => True | Some (CStr s) => str_len s <= MAX_STRING_STAT_LEN | _ => False end) (ar_cells a)).
Definition alike (a b : Column) : Prop := signed (ar_type a) = signed (ar_type b).

Definition stat (ints : bool) (c : Cell) : ScalarStat := if ints then stat_int c else stat_str c.
Definition values (a : Column) : list Cell := omap (fun c => c) (ar_cells a).

Lemma in_values c a : In c (values a) <-> In (Some c) (ar_cells a).
Proof. unfold values. rewrite <- !list_elem_of_In, list_elem_of_omap. split; [by intros (x & ? & ->)|by exists (Some c)]. Qed.

(** Cells of one kind are ordered as their statistics. *)
Definition kind (ints : bool) (c : Cell) : Prop := if ints then exists z, c = CInt z else exists s, c = CStr s.
Lemma stat_order ints x y : kind ints x -> kind ints y ->
  less_than (stat ints x) (stat ints y) = match cell_compare (Some x) (Some y) with Lt => true | _ => false end.
Proof.
  destruct ints; intros [a ->] [b ->]; cbn; [rewrite cell_compare_int; unfold Z.ltb|rewrite cell_compare_str]; by destruct (_ ?= _) || by destruct (String.compare a b).
Qed.

(** The minimum and the maximum of one array. *)
Lemma measured_minmax a : measured a ->
  Forall (kind (signed (ar_type a))) (values a) /\
  array_minmax a = Some (stat (signed (ar_type a)) <$> compute_min a, stat (signed (ar_type a)) <$> compute_max a).
Proof.
  intros [[Hs Hc]|[Ht Hc]].
  - rewrite Hs. split.
    + apply List.Forall_forall. intros c Hin%in_values. rewrite List.Forall_forall in Hc. specialize (Hc _ Hin).
      destruct c; try done. by eexists.
    + unfold array_minmax, minmax, stat. destruct (ar_type a); try discriminate; cbn;
        destruct (compute_min a), (compute_max a); done.
  - assert (Hs : signed (ar_type a) = false) by (by destruct Ht as [->| ->]). rewrite Hs.
    rewrite List.Forall_forall in Hc.
    assert (Hg : forall o : option Cell, (forall c, o = Some c -> In (Some c) (ar_cells a)) -> guard (stat_str <$> o) = stat_str <$> o).
    { intros [c|] Hin; [|done]. specialize (Hc _ (Hin c eq_refl)). destruct c; try done. cbn.
      destruct (Z.ltb_spec MAX_STRING_STAT_LEN (str_len s)); [lia|done]. }
    split.
    + apply List.Forall_forall. intros c Hin%in_values. specialize (Hc _ Hin). destruct c; try done. by eexists.
    + assert (E : array_minmax a = Some (guard (stat_str <$> compute_min a), guard (stat_str <$> compute_max a))).
      { unfold array_minmax, minmax. by destruct Ht as [->| ->]. }
      rewrite E. pose proof (compute_min_spec a) as Hmin. pose proof (compute_max_spec a) as Hmax.
      rewrite !Hg; [done|..].
      * intros c Ec. rewrite Ec in Hmax. apply Hmax.
      * intros c Ec. rewrite Ec in Hmin. apply Hmin.
Qed.

(** What an accumulator knows after the values [vs]. *)
Record bounds (ints : bool) (vs : list Cell) (acc : ColumnAcc) : Prop := {
  bo_kept : ca_stats_dropped acc = false;
  bo_min : match ca_min acc with
    | Some s => exists m, s = stat ints m /\ In m vs /\ forall v, In v vs -> cell_le (Some m) (Some v)
    | None => vs = [] end;
  bo_max : match ca_max acc with
    | Some s => exists m, s = stat ints m /\ In m vs /\ forall v, In v vs -> cell_le (Some v) (Some m)
    | None => vs = [] end;
}.

Lemma insert_all_same acc cells :
  ca_min (insert_all acc cells) = ca_min acc /\ ca_max (insert_all acc cells) = ca_max acc /\
  ca_stats_dropped (insert_all acc cells) = ca_stats_dropped acc /\ ca_null_count (insert_all acc cells) = ca_null_count acc.
Proof.
  assert (Hone : forall acc s, ca_min (insert_distinct acc s) = ca_min acc /\ ca_max (insert_distinct acc s) = ca_max acc /\
    ca_stats_dropped (insert_distinct acc s) = ca_stats_dropped acc /\ ca_null_count (insert_distinct acc s) = ca_null_count acc).
  { intros acc' s. unfold insert_distinct. destruct (bcontains _ _); [done|]. cbv zeta. by destruct (_ <? _). }
  revert acc. induction cells as [|[c|] cells IH]; intros acc; [done| |apply IH]. destruct c; try apply IH. cbn.
  destruct (ca_distinct_dropped _); [apply Hone|]. destruct (IH (insert_distinct acc s)) as (-> & -> & -> & ->). apply Hone.
Qed.

Lemma observe_distinct_same acc a :
  ca_min (observe_distinct acc a) = ca_min acc /\ ca_max (observe_distinct acc a) = ca_max acc /\
  ca_stats_dropped (observe_distinct acc a) = ca_stats_dropped acc /\ ca_null_count (observe_distinct acc a) = ca_null_count acc.
Proof.
  unfold observe_distinct. destruct (ca_distinct_dropped acc); [done|]. assert (Hset : forall cells, let acc' := insert_all (acc <| ca_distinct_eligible := true |>) cells in
    ca_min acc' = ca_min acc /\ ca_max acc' = ca_max acc /\ ca_stats_dropped acc' = ca_stats_dropped acc /\
    ca_null_count acc' = ca_null_count acc).
  { intros cells. exact (insert_all_same (acc <| ca_distinct_eligible := true |>) cells). }
  destruct (ar_type a); try done; try apply Hset. destruct (cast a Utf8); [apply Hset|done].
Qed.

Lemma bounds_same ints vs acc acc' : ca_min acc' = ca_min acc -> ca_max acc' = ca_max acc ->
  ca_stats_dropped acc' = ca_stats_dropped acc -> bounds ints vs acc -> bounds ints vs acc'.
Proof. intros E1 E2 E3 []. split; by rewrite ?E1, ?E2, ?E3. Qed.

Lemma le_flip x y : cell_compare x y <> Lt -> cell_le y x.
Proof. unfold cell_le. rewrite (cell_compare_swap x y). by destruct (cell_compare x y). Qed.

(** The least of two minima, each the least of its values. *)
Lemma join_min ints vs ws m n : Forall (kind ints) vs -> Forall (kind ints) ws ->
  In m vs -> In n ws -> (forall v, In v vs -> cell_le (Some m) (Some v)) -> (forall v, In v ws -> cell_le (Some n) (Some v)) ->
  let k := if less_than (stat ints n) (stat ints m) then n else m in
  In k (vs ++ ws) /\ forall v, In v (vs ++ ws) -> cell_le (Some k) (Some v).
Proof.
  intros Hv Hw Hm Hn Hlm Hln k. rewrite List.Forall_forall in Hv, Hw. unfold k. rewrite (stat_order ints n m (Hw n Hn) (Hv m Hm)).
  destruct (cell_compare (Some n) (Some m)) eqn:E; (split; [apply in_app_iff; auto|]); intros v [Hi|Hi]%in_app_iff; auto.
  - eapply cell_le_trans; [|by apply Hln]. apply le_flip. by rewrite E.
  - eapply cell_le_trans; [|by apply Hlm]. unfold cell_le. by rewrite E.
  - eapply cell_le_trans; [|by apply Hln]. apply le_flip. by rewrite E.
Qed.
Lemma join_max ints vs ws m n : Forall (kind ints) vs -> Forall (kind ints) ws ->
  In m vs -> In n ws -> (forall v, In v vs -> cell_le (Some v) (Some m)) -> (forall v, In v ws -> cell_le (Some v) (Some n)) ->
  let k := if less_than (stat ints m) (stat ints n) then n else m in
  In k (vs ++ ws) /\ forall v, In v (vs ++ ws) -> cell_le (Some v) (Some k).
Proof.
  intros Hv Hw Hm Hn Hlm Hln k. rewrite List.Forall_forall in Hv, Hw. unfold k. rewrite (stat_order ints m n (Hv m Hm) (Hw n Hn)).
  destruct (cell_compare (Some m) (Some n)) eqn:E; (split; [apply in_app_iff; auto|]); intros v [Hi|Hi]%in_app_iff; auto.
  - eapply cell_le_trans; [by apply Hln|]. apply le_flip. by rewrite E.
  - eapply cell_le_trans; [by apply Hlm|]. unfold cell_le. by rewrite E.
  - eapply cell_le_trans; [by apply Hln|]. apply le_flip. by rewrite E.
Qed.

(** An extreme after one more array: [better] says when the new one replaces the old one. *)
Definition extreme (ints : bool) (le : Cell -> Cell -> Prop) (vs : list Cell) (o : option ScalarStat) : Prop :=
  match o with
  | Some s => exists m, s = stat ints m /\ In m vs /\ forall v, In v vs -> le m v
  | None => vs = []
  end.
Lemma extreme_step ints (le : Cell -> Cell -> Prop) (better : ScalarStat -> ScalarStat -> bool) vs ws o n :
  extreme ints le vs o -> In n ws -> (forall v, In v ws -> le n v) ->
  (forall m, In m vs -> (forall v, In v vs -> le m v) ->
     let k := if better (stat ints n) (stat ints m) then n else m in In k (vs ++ ws) /\ forall v, In v (vs ++ ws) -> le k v) ->
  extreme ints le (vs ++ ws) (if none_or (better (stat ints n)) o then Some (stat ints n) else o).
Proof.
  intros Ho Hn Hl Hj. destruct o as [s|]; cbn in *.
  - destruct Ho as (m & -> & Hm & Hlm). specialize (Hj m Hm Hlm). destruct (better _ _); cbn; [by exists n|by exists m].
  - subst vs. by exists n.
Qed.

(** An array without values has neither extreme. *)
Lemma no_extreme a : (compute_min a = None -> values a = []) /\ (compute_max a = None -> values a = []) /\
  (values a = [] -> compute_min a = None /\ compute_max a = None).
Proof.
  assert (Hnil : Forall (fun c : option Cell => c = None) (ar_cells a) -> values a = []).
  { unfold values. induction 1 as [|c l Hc _ IH]; [done|]. cbn. by rewrite Hc. }
  pose proof (compute_min_spec a) as Hn. pose proof (compute_max_spec a) as Hx. split; [|split].
  - intros E. rewrite E in Hn. auto.
  - intros E. rewrite E in Hx. auto.
  - intros E. split.
    + destruct (compute_min a); [|done]. destruct Hn as [Hin%in_values _]. by rewrite E in Hin.
    + destruct (compute_max a); [|done]. destruct Hx as [Hin%in_values _]. by rewrite E in Hin.
Qed.

Lemma observe_fields acc n x k : ca_stats_dropped acc = false ->
  let acc' := observe acc (Some n) (Some x) k in
  ca_min acc' = (if none_or (less_than n) (ca_min acc) then Some n else ca_min acc) /\
  ca_max acc' = (if none_or (fun cur => less_than cur x) (ca_max acc) then Some x else ca_max acc) /\
  ca_stats_dropped acc' = false.
Proof.
  intros Hk. cbv zeta. unfold observe. destruct acc as [mn mx nc sd ds de dd]. cbn in Hk. subst sd. cbv zeta.
  destruct mn as [mn|], mx as [mx|]; cbn; try destruct (less_than n mn); cbn; try destruct (less_than mx x); done.
Qed.

Lemma bounds_step ints vs acc a : bounds ints vs acc -> Forall (kind ints) vs -> measured a -> signed (ar_type a) = ints ->
  bounds ints (vs ++ values a) (observe_column acc a).
Proof.
  intros [Hk Hmin Hmax] Hv Ha Ht. destruct (measured_minmax a Ha) as [Hw Hmm]. rewrite Ht in Hw, Hmm.
  unfold observe_column. rewrite Hmm.
  destruct (observe_distinct_same (observe acc (stat ints <$> compute_min a) (stat ints <$> compute_max a) (null_count a)) a) as (E1 & E2 & E3 & _).
  eapply bounds_same; [exact E1|exact E2|exact E3|]. clear E1 E2 E3.
  pose proof (compute_min_spec a) as Hcm. pose proof (compute_max_spec a) as HcM. destruct (no_extreme a) as (Hn1 & Hx1 & Hno).
  destruct (compute_min a) as [n|] eqn:En, (compute_max a) as [x|] eqn:Ex.
  - destruct Hcm as [Hn%in_values Hln], HcM as [Hx%in_values Hlx].
    destruct (observe_fields acc (stat ints n) (stat ints x) (null_count a) Hk) as (E1 & E2 & E3). split; [done|..].
    + cbn [fmap option_fmap option_map]. rewrite E1. refine (extreme_step ints _ less_than vs (values a) (ca_min acc) n Hmin Hn
        (fun v Hi => Hln v (proj1 (in_values v a) Hi)) (fun m Hm Hl => join_min ints vs (values a) m n Hv Hw Hm Hn Hl
        (fun v Hi => Hln v (proj1 (in_values v a) Hi)))).
    + cbn [fmap option_fmap option_map]. rewrite E2. refine (extreme_step ints _ (fun new cur => less_than cur new) vs (values a) (ca_max acc) x Hmax Hx
        (fun v Hi => Hlx v (proj1 (in_values v a) Hi)) (fun m Hm Hl => join_max ints vs (values a) m x Hv Hw Hm Hx Hl
        (fun v Hi => Hlx v (proj1 (in_values v a) Hi)))).
  - rewrite (Hx1 eq_refl) in Hno. by destruct (Hno eq_refl).
  - rewrite (Hn1 eq_refl) in Hno. by destruct (Hno eq_refl).
  - rewrite (Hn1 eq_refl), app_nil_r. cbn [fmap option_fmap option_map]. unfold observe. cbv zeta.
    destruct acc as [mn mx nc sd ds de dd]. cbn in Hk. subst sd. by split.
Qed.

(** Every array of one kind, one after the other. *)
Lemma bounds_all ints arrays acc vs : bounds ints vs acc -> Forall (kind ints) vs ->
  Forall (fun a => measured a /\ signed (ar_type a) = ints) arrays ->
  bounds ints (vs ++ concat (map values arrays)) (fold_left observe_column arrays acc) /\
  ca_null_count (fold_left observe_column arrays acc) = ca_null_count acc + zsum (map null_count arrays).
Proof.
  intros Hb Hv Ha. revert acc vs Hb Hv. induction Ha as [|a arrays [Hm Ht] _ IH]; intros acc vs Hb Hv; cbn [fold_left map concat].
  - rewrite app_nil_r. split; [done|]. cbn. lia.
  - destruct (measured_minmax a Hm) as [Hw Hmm]. rewrite Ht in Hw, Hmm.
    destruct (IH (observe_column acc a) (vs ++ values a)) as [Hb' Hn].
    + by apply bounds_step.
    + by apply Forall_app.
    + rewrite <- app_assoc in Hb'. split; [done|]. rewrite Hn, zsum_cons. unfold observe_column. rewrite Hmm.
      destruct (observe_distinct_same (observe acc (stat ints <$> compute_min a) (stat ints <$> compute_max a) (null_count a)) a) as (_ & _ & _ & ->).
      unfold observe. cbv zeta. destruct acc as [mn mx nc sd ds de dd]. cbn. pose proof (bo_kept _ _ _ Hb) as Hk. cbn in Hk. subst sd.
      destruct (stat ints <$> compute_min a), (stat ints <$> compute_max a); cbn; repeat case_match; cbn; lia.
Qed.

(** The statistics of a column bound it: over any number of arrays of integers or of strings
    within the length budget, nulls are counted exactly, the recorded minimum and maximum
    are values of the column and no value lies outside them; without values there are none. *)
Theorem statistics_bound_the_column ints arrays :
  Forall (fun a => measured a /\ signed (ar_type a) = ints) arrays ->
  let acc := fold_left observe_column arrays default_acc in
  ca_null_count acc = zsum (map null_count arrays) /\
  bounds ints (concat (map values arrays)) acc.
Proof.
  intros Ha acc. destruct (bounds_all ints arrays default_acc [] ltac:(by split) ltac:(constructor) Ha) as [Hb Hn]. done.
Qed.
End StatsProps.

(** ** What the segment writer leaves on disk

    A [SegmentWriter] is a list of batches to its caller: whatever is pushed comes back from
    [finish] as segments that hold exactly those batches, in order, each described by its
    metadata.  On the way, under any faults, every object it has put is listed in the
    staging lease that was put before it. *)

(** Identifiers are only drawn from the stream, never put back. *)
Lemma wpc_uuids `{Env} {A} ft (p : prog A) d (Q : DbResult A -> Disk -> Prop) (C : Disk -> Prop) :
  wpc ft p d Q C ->
  wpc ft p d (fun r d' => Q r d' /\ (uuids d <= uuids d')%nat) (fun d' => C d' /\ (uuids d <= uuids d')%nat).
Proof.
  assert (Hstep : forall T (c : Call T) d1, (uuids d1 <= uuids (effect c d1).2)%nat).
  { intros T c d1. destruct c as [q|q o|q o|q|q|qs|q o|q|q|n| |]; unfold effect, put_file, del_file; cbn; try lia;
      repeat case_match; cbn; lia. }
  intros Hw. assert (Hgen : forall d1, (uuids d <= uuids d1)%nat -> wpc ft p d1 Q C ->
    wpc ft p d1 (fun r d' => Q r d' /\ (uuids d <= uuids d')%nat) (fun d' => C d' /\ (uuids d <= uuids d')%nat)).
  2: { by apply Hgen. }
  clear Hw. induction p as [r|T c k IH]; intros d1 Hd; cbn.
  - intros [HC HQ]. by repeat split.
  - intros (HC & H1 & H2 & H3). pose proof (Hstep T c d1) as Hs.
    split; [done|]. split; [apply IH; [lia|done]|]. split; intros Hft; apply IH; auto; lia.
Qed.

Section Writer.
Context `{Env} `{ArrowRows}.
Context (spec : TableSpec) (schema : Schema) (seq_no : Z).
Implicit Types (d : Disk) (w : SegmentWriter) (m : SegmentMeta).

Local Abbreviation t := (ts_table_id spec).

(** A segment on disk that holds batches [bs], and what its metadata says of them. *)
Record holds (d : Disk) (m : SegmentMeta) (bs : list RecordBatch) : Prop := {
  ho_file : exists f content props, files d !! sg_path m = Some f /\ fl_obj f = OSegment content /\
    parquet_write props schema bs = Some content /\
    sg_bytes m = object_size (OSegment content) /\ sg_checksum m = checksum_hex (OSegment content);
  ho_rows : sg_rows m = SegmentWriter.total_rows bs;
  ho_times : SegmentTime.time_range_of (ts_time_column spec) bs = Ok (sg_time_range m);
  ho_stats : exists accs, foldr_res (SegmentWriter.observe_batch schema) [] bs = Ok accs /\
    sg_columns m = map (fun e => (e.1, SegmentStats.finish e.2)) accs;
  ho_revision : sg_schema_revision m = ts_schema_revision spec;
  ho_created : sg_created_by_sequence m = seq_no;
}.

(** What the lease of writer [id] has covered: all that changed since [d0]. *)
Definition lease_at d (id : Uuid) (l : StagingLeaseFile) : Prop :=
  exists f, files d !! staging_lease_path t id = Some f /\ fl_obj f = OLease l.
Definition covered d0 d (id : Uuid) (paths : list Path) : Prop :=
  forall p, files d !! p <> files d0 !! p -> p = staging_lease_path t id \/ In p paths.
Definition drawn_since d0 (p : Path) : Prop :=
  exists n, (uuids d0 <= n)%nat /\ p = segment_path t (new_uuid n).
Definition leased d0 d : Prop :=
  files d = files d0 \/ exists id l, lease_at d id l /\ covered d0 d id (sl_segment_paths l) /\
    Forall (drawn_since d0) (sl_segment_paths l).

(** No object has an identifier that is still to be drawn. *)
Definition unused_ids d : Prop := forall n u, (uuids d <= n)%nat -> files d !! segment_path u (new_uuid n) = None.

Record writer_inv (d0 d : Disk) w (pushed : list RecordBatch) : Prop := {
  wi_spec : sw_spec w = spec;
  wi_schema : sw_schema w = schema;
  wi_seq : sw_created_by_sequence w = seq_no;
  wi_content : exists groups, concat groups ++ sw_buffered w = pushed /\
    Forall2 (holds d) (sw_written w) groups /\ Forall (fun g => g <> []) groups;
  wi_paths : Forall (fun m => exists n, (uuids d0 <= n < uuids d)%nat /\
    sg_path m = segment_path t (new_uuid n)) (sw_written w);
  wi_distinct : NoDup (map sg_path (sw_written w));
  wi_lease : match sw_lease w with
    | None => files d = files d0
    | Some l => lease_at d (sw_writer_id w) l /\ covered d0 d (sw_writer_id w) (sl_segment_paths l) /\
        Forall (drawn_since d0) (sl_segment_paths l)
    end;
  wi_fresh : unused_ids d;
  wi_uuids : (uuids d0 <= uuids d)%nat;
}.

Lemma wi_leased d0 d w pushed : writer_inv d0 d w pushed -> leased d0 d.
Proof.
  intros Hi. pose proof (wi_lease _ _ _ _ Hi) as Hl. unfold leased. destruct (sw_lease w) as [l|]; [right|by left].
  by exists (sw_writer_id w), l.
Qed.

Lemma holds_kept d d' m bs : files d' !! sg_path m = files d !! sg_path m -> holds d m bs -> holds d' m bs.
Proof. intros He []. split; try done. by rewrite He. Qed.

Lemma lease_not_segment id u : staging_lease_path t id <> segment_path t u.
Proof. done. Qed.
Lemma segment_path_inj u v : segment_path t u = segment_path t v -> u = v.
Proof.
  unfold segment_path. intros [= Hs]. pose proof (strip_suffix_app ".parquet" u ltac:(done)) as Hu.
  rewrite Hs, strip_suffix_app in Hu by done. congruence.
Qed.

Context `{!Inj (=) (=) new_uuid}.

Definition written_state d0 pushed (r : DbResult SegmentWriter) (d : Disk) : Prop :=
  match r with Ok w => writer_inv d0 d w pushed | Err _ => True end.

(** *** Recording a path *)
Definition lease_with w (now : Z) (path : Path) : StagingLeaseFile :=
  let l := default (mkStagingLease (sw_writer_id w) now
                      (now + STAGING_LEASE_TTL_SECONDS * 1000000000) []) (sw_lease w) in
  mkStagingLease (sl_writer_id l) (sl_created_at_ns l) (sl_expires_at_ns l) (sl_segment_paths l ++ [path]).

Lemma lease_covers d0 d w pushed now path : writer_inv d0 d w pushed ->
  covered d0 (put_file (staging_lease_path t (sw_writer_id w)) (OLease (lease_with w now path)) true d)
    (sw_writer_id w) (sl_segment_paths (lease_with w now path)).
Proof.
  intros Hi p Hp. destruct (decide (staging_lease_path t (sw_writer_id w) = p)) as [E|E]; [by left|].
  rewrite files_put_ne in Hp by done.
  pose proof (wi_lease _ _ _ _ Hi) as Hl. unfold lease_with. cbn.
  destruct (sw_lease w) as [l|]; cbn; [|by rewrite Hl in Hp].
  destruct Hl as (_ & Hc & _). destruct (Hc p Hp) as [?|?]; [by left|]. right. apply in_app_iff. by left.
Qed.

Lemma lease_drawn d0 d w pushed now path : writer_inv d0 d w pushed -> drawn_since d0 path ->
  Forall (drawn_since d0) (sl_segment_paths (lease_with w now path)).
Proof.
  intros Hi Hp. pose proof (wi_lease _ _ _ _ Hi) as Hl. unfold lease_with. cbn. apply Forall_app.
  split; [|by constructor]. destruct (sw_lease w) as [l|]; cbn; [by destruct Hl as (_ & _ & Hl)|constructor].
Qed.

Lemma leased_put_lease d0 d w pushed now path : writer_inv d0 d w pushed -> drawn_since d0 path ->
  leased d0 (put_file (staging_lease_path t (sw_writer_id w)) (OLease (lease_with w now path)) true d).
Proof.
  intros Hi Hp. right. exists (sw_writer_id w), (lease_with w now path).
  split; [eexists; by rewrite files_put_eq|]. split; [by eapply lease_covers|by eapply lease_drawn].
Qed.

(** *** Flushing *)
Definition drawn d : Disk := d <| uuids := S (uuids d) |>.

(** The disk after a segment is recorded and put. *)
Definition flushed d w (now : Z) (e : Encoded) : Disk :=
  let path := segment_path t (new_uuid (uuids d)) in
  put_file path (OSegment (en_content e)) true
    (put_file (staging_lease_path t (sw_writer_id w)) (OLease (lease_with w now path)) true (ticked (drawn d))).

Lemma uuids_flushed d w now e : uuids (flushed d w now e) = S (uuids d).
Proof. reflexivity. Qed.

Lemma writer_inv_moved d0 d d' w pushed :
  files d' = files d -> (uuids d <= uuids d')%nat -> writer_inv d0 d w pushed -> writer_inv d0 d' w pushed.
Proof.
  intros Hf Hu Hi. pose proof (wi_uuids _ _ _ _ Hi) as Hu0. destruct Hi as [H1 H2 H3 (gs & Hg & Hh & Hn) H5 H6 H8 H7 _].
  split; try done.
  - exists gs. split; [done|]. split; [|done]. eapply Forall2_impl; [exact Hh|]. intros m g. apply holds_kept. by rewrite Hf.
  - eapply Forall_impl; [exact H5|]. intros m (n & ? & ?). exists n. split; [lia|done].
  - destruct (sw_lease w); [|by rewrite Hf]. unfold lease_at, covered in *. by rewrite Hf.
  - intros n u Hn'. rewrite Hf. apply H7. lia.
  - lia.
Qed.

Lemma flush_inv d0 d w pushed now e rows bytes :
  writer_inv d0 d w pushed -> sw_buffered w <> [] ->
  SegmentWriter.encode w (sw_buffered w) rows bytes = Ok e ->
  let path := segment_path t (new_uuid (uuids d)) in
  let w1 := w <| sw_buffered := [] |> <| sw_buffered_bytes := 0 |> <| sw_lease := Some (lease_with w now path) |> in
  writer_inv d0 (flushed d w now e)
    (w1 <| sw_written := sw_written w1 ++
       [SegmentWriter.segment_meta w1 (new_uuid (uuids d)) (SegmentWriter.total_rows (sw_buffered w)) e] |>) pushed.
Proof.
  intros Hi Hne He path w1. assert (Hi' : writer_inv d0 (ticked (drawn d)) w pushed).
  { eapply writer_inv_moved; [| |exact Hi]; [done|change (uuids d <= S (uuids d))%nat; lia]. }
  pose proof (lease_covers d0 _ w pushed now path Hi') as Hcov. pose proof (wi_fresh _ _ _ _ Hi) as Hfr. pose proof (wi_uuids _ _ _ _ Hi) as Hu.
  pose proof (wi_spec _ _ _ _ Hi) as Hsp. pose proof (wi_schema _ _ _ _ Hi) as Hsc.
  assert (Hpath : forall n, (n < uuids d)%nat -> segment_path t (new_uuid n) <> path).
  { intros n Hn Hp. apply segment_path_inj, (inj new_uuid) in Hp. lia. }
  split; cbn; try (apply Hi).
  - destruct (wi_content _ _ _ _ Hi) as (gs & Hg & Hh & Hn). exists (gs ++ [sw_buffered w]). split; [|split].
    + rewrite concat_app. cbn. by rewrite !app_nil_r.
    + apply Forall2_app; [|constructor; [|constructor]].
      * pose proof (wi_paths _ _ _ _ Hi) as Hp. clear -Hh Hp Hpath.
        induction Hh as [|m g ms gs Hm _ IH]; constructor.
        -- apply Forall_cons in Hp as [(n & Hn & Hmp) _]. eapply holds_kept; [|exact Hm]. unfold flushed.
           rewrite files_put_ne by (rewrite Hmp; intros E; symmetry in E; revert E; apply Hpath; lia).
           by rewrite files_put_ne by (by rewrite Hmp).
        -- apply IH. by apply Forall_cons in Hp as [_ Hp].
      * unfold SegmentWriter.encode in He. rewrite Hsp, Hsc in He.
        destruct (parquet_write _ _ _) as [content|] eqn:Ew; [|done]. cbn in He.
        destruct (foldr_res _ _ _) as [accs|] eqn:Ea; [|done].
        destruct (SegmentTime.time_range_of _ _) as [tr|] eqn:Et; [|done]. injection He as <-.
        split; cbn; rewrite ?Hsp; try done.
        -- eexists _, content, _. unfold flushed. rewrite files_put_eq. by repeat split.
        -- by exists accs.
        -- apply Hi.
    + apply Forall_app. by split; [|constructor].
  - apply Forall_app. split; [|constructor; [|constructor]].
    + eapply Forall_impl; [exact (wi_paths _ _ _ _ Hi)|]. intros m (n & ? & ?). exists n. split; [rewrite uuids_flushed; lia|done].
    + exists (uuids d). split; [rewrite uuids_flushed; lia|]. unfold SegmentWriter.segment_meta. cbn. by rewrite Hsp.
  - rewrite map_app. apply NoDup_app. split; [apply Hi|]. split; [|apply NoDup_singleton].
    intros p Hp Hin. apply list_elem_of_singleton in Hin. subst p. cbn in Hp. rewrite Hsp in Hp.
    apply list_elem_of_fmap in Hp as (m & Hm & Hin). pose proof (wi_paths _ _ _ _ Hi) as Hps.
    rewrite Forall_forall in Hps. destruct (Hps m Hin) as (n & Hn & Hmp). apply (Hpath n); [lia|]. unfold path. congruence.
  - split; [|split].
    + eexists. unfold flushed. rewrite files_put_ne by (intros E; symmetry in E; by apply lease_not_segment in E).
      by rewrite files_put_eq.
    + intros p Hp. destruct (decide (path = p)) as [<-|E].
      * right. apply in_app_iff. right. by left.
      * apply Hcov. unfold flushed in Hp. by rewrite files_put_ne in Hp.
    + eapply lease_drawn; [exact Hi|]. by exists (uuids d).
  - intros n u Hn. rewrite uuids_flushed in Hn. unfold flushed. rewrite files_put_ne.
    + rewrite files_put_ne by done. apply Hfr. lia.
    + intros E. assert (E' : segment_path t (new_uuid (uuids d)) = segment_path t (new_uuid n)).
      { unfold segment_path in *. congruence. }
      apply segment_path_inj, (inj new_uuid) in E'. lia.
  - rewrite uuids_flushed. lia.
Qed.

(** ** The operations of the writer *)
Definition Wrote d0 (P : SegmentWriter -> Disk -> Prop) (r : DbResult SegmentWriter) (d : Disk) : Prop :=
  match r with Ok w => P w d | Err _ => leased d0 d end.

Lemma leased_same d0 d d' : files d' = files d -> leased d0 d -> leased d0 d'.
Proof. unfold leased, lease_at, covered. by intros ->. Qed.

Lemma wpc_flush ft d0 d w pushed : writer_inv d0 d w pushed ->
  wpc ft (SegmentWriter.flush w) d
    (Wrote d0 (fun w' d' => writer_inv d0 d' w' pushed /\ sw_buffered w' = [])) (leased d0).
Proof.
  intros Hi. pose proof (wi_leased _ _ _ _ Hi) as Hl. unfold SegmentWriter.flush.
  destruct (sw_buffered w) as [|b bs] eqn:Eb; [by apply wpc_ret|]. rewrite <- Eb.
  apply wpc_bind, wpc_lift; [done|].
  destruct (SegmentWriter.encode _ _ _ _) as [e|er] eqn:Ee; [|by split].
  assert (Ee' : SegmentWriter.encode w (sw_buffered w) (SegmentWriter.total_rows (sw_buffered w)) (sw_buffered_bytes w) = Ok e)
    by exact Ee.
  pose proof (flush_inv d0 d w pushed (monotonic_commit_ts (now (drawn d)) None) e _ _ Hi ltac:(by rewrite Eb) Ee') as Hfl.
  assert (Hi2 : writer_inv d0 (ticked (drawn d)) w pushed).
  { eapply writer_inv_moved; [| |exact Hi]; [done|change (uuids d <= S (uuids d))%nat; lia]. }
  set (path := segment_path t (new_uuid (uuids d))) in *.
  assert (Hdr : drawn_since d0 path) by (exists (uuids d); split; [apply Hi|done]).
  pose proof (leased_put_lease d0 _ w pushed (monotonic_commit_ts (now (drawn d)) None) path Hi2 Hdr) as Hl3.
  apply wpc_bind, wpc_call; [done|done| |by intros; split; split].
  cbn [fst]. change (effect NewUuid d).2 with (drawn d).
  assert (Hsp : ts_table_id (sw_spec w) = t) by (by rewrite (wi_spec _ _ _ _ Hi)).
  unfold SegmentWriter.record_staged. apply wpc_bind, wpc_bind, wpc_now_call; [done|done| |by intros; split; split].
  apply wpc_bind. cbn. rewrite Hsp. apply wpc_put; [done|exact Hl3| |intros _; split; split; (done || exact Hl3)].
  split; [exact Hl3|]. apply wpc_bind. 
  assert (Hl4 : leased d0 (flushed d w (monotonic_commit_ts (now (drawn d)) None) e)) by exact (wi_leased _ _ _ _ Hfl).
  apply wpc_put; [exact Hl3|exact Hl4| |intros _; split; split; (exact Hl3 || exact Hl4)].
  split; [exact Hl4|]. split; [exact Hfl|done].
Qed.

(** Tracking the order of the input touches nothing else. *)
Lemma track_order_inv d0 d w b w' pushed :
  SegmentWriter.track_order w b = Ok w' -> writer_inv d0 d w pushed ->
  writer_inv d0 d w' pushed /\ sw_buffered w' = sw_buffered w.
Proof.
  unfold SegmentWriter.track_order. case_bool_decide; [by intros [= <-]|].
  destruct (SegmentSort.batch_is_sorted _ _) as [sorted|]; [|done].
  assert (Hset : forall v x, writer_inv d0 d x pushed -> writer_inv d0 d (x <| sw_input_sorted := v |>) pushed).
  { by intros v x []. }
  assert (Hrow : forall v x, writer_inv d0 d x pushed -> writer_inv d0 d (x <| sw_last_sort_row := v |>) pushed).
  { by intros v x []. }
  intros Ht Hi. cbv zeta in Ht.
  destruct (sw_input_sorted (if sorted then w else _)).
  - destruct (SegmentWriter.sort_row_scalars b 0 _); [|done].
    destruct (SegmentWriter.sort_row_scalars b (rb_rows b - 1) _); [|done]. injection Ht as <-.
    split; [apply Hrow|]; destruct sorted; cbn; destruct (sw_last_sort_row w); cbn;
      try destruct (SegmentWriter.row_less_than _ _); auto.
  - injection Ht as <-. destruct sorted; auto.
Qed.

Lemma wpc_push ft d0 d w b pushed : writer_inv d0 d w pushed ->
  wpc ft (SegmentWriter.push w b) d
    (Wrote d0 (fun w' d' => writer_inv d0 d' w' (pushed ++ List.filter SegmentSort.nonempty [b]))) (leased d0).
Proof.
  intros Hi. pose proof (wi_leased _ _ _ _ Hi) as Hl. unfold SegmentWriter.push. cbn [List.filter].
  unfold SegmentSort.nonempty. destruct (Z.eqb_spec (num_rows b) 0) as [E|E].
  { assert ((0 <? num_rows b) = false) as -> by (apply Z.ltb_ge; lia). rewrite app_nil_r. by apply wpc_ret. }
  assert ((0 <? num_rows b) = true) as -> by (apply Z.ltb_lt; unfold num_rows in *; lia).
  apply wpc_bind, wpc_lift; [done|]. destruct (SegmentWriter.track_order w b) as [w1|] eqn:Et; [|by split].
  destruct (track_order_inv _ _ _ _ _ _ Et Hi) as [H1 Hb1]. cbv zeta.
  set (w2 := w1 <| sw_buffered_bytes := _ |> <| sw_buffered := _ |>).
  assert (H2 : writer_inv d0 d w2 (pushed ++ [b])).
  { destruct H1 as [? ? ? (gs & Hg & Hh & Hn) ? ? ? ? ?]. split; try done.
    exists gs. split; [|done]. cbn. by rewrite app_assoc, Hg. }
  destruct (_ <=? _); [|by apply wpc_ret].
  eapply wpc_mono; [|done|by apply wpc_flush]. by intros [w3|e] d'; [intros [? ?]|].
Qed.

Lemma wpc_push_all ft d0 d w bs pushed : writer_inv d0 d w pushed ->
  wpc ft (SegmentWriter.push_all w bs) d
    (Wrote d0 (fun w' d' => writer_inv d0 d' w' (pushed ++ List.filter SegmentSort.nonempty bs))) (leased d0).
Proof.
  revert d w pushed. unfold SegmentWriter.push_all.
  induction bs as [|b bs IH]; intros d w pushed Hi; cbn [fold_prog].
  - cbn [List.filter]. rewrite app_nil_r. apply wpc_ret; [by eapply wi_leased|done].
  - apply wpc_bind. eapply wpc_mono; [|done|by apply wpc_push]. intros [w1|e] d1 Hw1; [|by split].
    change (b :: bs) with ([b] ++ bs). rewrite List.filter_app, app_assoc. by apply IH.
Qed.

Lemma wpc_new ft d : unused_ids d ->
  wpc ft (SegmentWriter.new spec schema seq_no) d (Wrote d (fun w d' => writer_inv d d' w [])) (leased d).
Proof.
  intros Hf. assert (Hl : leased d d) by (by left). unfold SegmentWriter.new.
  apply wpc_bind, wpc_call; [done|by left| |by intros; split; split; left].
  apply wpc_ret; [by left|]. split; try done.
  - by exists [].
  - constructor.
  - intros n u Hn. change (S (uuids d) <= n)%nat in Hn. exact (Hf n u ltac:(lia)).
  - change (uuids d <= S (uuids d))%nat. lia.
Qed.

(** The lease a writer leaves to its caller. *)
Definition lease_form (lease : option Path) : Prop :=
  match lease with Some p => exists u id, p = staging_lease_path u id | None => True end.

(** The segments [finish] returns hold what was pushed. *)
Definition stored_batches d0 (pushed : list RecordBatch) (out : list SegmentMeta * bool * option Path)
    (d : Disk) : Prop :=
  exists groups, concat groups = pushed /\ Forall2 (holds d) out.1.1 groups /\ Forall (fun g => g <> []) groups /\
    Forall (fun m => exists n, (uuids d0 <= n < uuids d)%nat /\ sg_path m = segment_path t (new_uuid n)) out.1.1 /\
    NoDup (map sg_path out.1.1) /\ leased d0 d /\ unused_ids d /\ lease_form out.2.

Lemma wpc_finish ft d0 d w pushed : writer_inv d0 d w pushed ->
  wpc ft (SegmentWriter.finish w) d
    (fun r d' => match r with Ok out => stored_batches d0 pushed out d' | Err _ => leased d0 d' end) (leased d0).
Proof.
  intros Hi. unfold SegmentWriter.finish. apply wpc_bind. eapply wpc_mono; [|done|by apply wpc_flush].
  intros [w'|e] d'; [|by split]. intros [Hi' Hb]. pose proof (wi_leased _ _ _ _ Hi') as Hl.
  apply wpc_ret; [done|]. destruct (wi_content _ _ _ _ Hi') as (gs & Hg & Hh & Hn). rewrite Hb, app_nil_r in Hg.
  exists gs. split; [done|]. split; [done|]. split; [done|]. split; [apply Hi'|]. split; [apply Hi'|]. split; [done|]. split; [apply Hi'|].
  unfold SegmentWriter.lease_path. destruct (sw_lease w'); [by eexists _, _|done].
Qed.
End Writer.
