(* ===== verification/TableContents.v ===== *)
(** * The rows of a table

    What a list of segments holds, as rows, on a disk, and what a segment reads back as.
    The theorems about staging, committing and scanning rows are stated on it.  At its end,
    what staging leaves on disk. *)
From S2P Require Export WriterProps.

Lemma NoDup_map_inj {A B} (f : A -> B) l a b :
  NoDup (map f l) -> In a l -> In b l -> f a = f b -> a = b.
Proof.
  induction l as [|x l IH]; cbn; [done|]. intros [Hx Hn]%NoDup_cons Ha Hb E.
  destruct Ha as [->|Ha], Hb as [->|Hb]; [done|..|by apply IH]; exfalso; apply Hx.
  - rewrite E. apply list_elem_of_In. by apply in_map.
  - rewrite <- E. apply list_elem_of_In. by apply in_map.
Qed.

Lemma mapM_option_app {A B} (f : A -> option B) l1 l2 :
  mapM f (l1 ++ l2) = (r1 ← mapM f l1; r2 ← mapM f l2; Some (r1 ++ r2)).
Proof.
  induction l1 as [|a l1 IH]; cbn; [by destruct (mapM f l2)|]. destruct (f a); cbn; [|done].
  rewrite IH. destruct (mapM f l1); cbn; [|done]. by destruct (mapM f l2).
Qed.

Section Contents.
Context `{Env} `{ArrowRows}.
Implicit Types (m : gmap Path File) (d : Disk) (g : SegmentMeta).

Abbreviation Row := (list (option Cell)) (only parsing).

Definition decoded (o : Obj) : option (list RecordBatch) :=
  c ← SegmentReader.content_of o; _ ← parquet_metadata c; parquet_read c None None.
Definition segment_batches m g : option (list RecordBatch) := f ← m !! sg_path g; decoded (fl_obj f).
Definition segment_rows m g : option (list Row) := all_rows <$> segment_batches m g.
Definition contents m (segs : list SegmentMeta) : option (list Row) := @concat Row <$> mapM (segment_rows m) segs.

Lemma contents_app m l1 l2 :
  contents m (l1 ++ l2) = (r1 ← contents m l1; r2 ← contents m l2; Some (r1 ++ r2)).
Proof.
  unfold contents. rewrite mapM_option_app. destruct (mapM _ l1), (mapM _ l2); cbn; try done. by rewrite concat_app.
Qed.

Lemma contents_same m m' segs segs' :
  Forall2 (fun g g' => segment_rows m' g' = segment_rows m g) segs segs' -> contents m' segs' = contents m segs.
Proof.
  intros Hs. unfold contents. f_equal. induction Hs as [|g g' l l' Hg _ IH]; cbn; [done|]. by rewrite Hg, IH.
Qed.

(** Contents up to the order of the rows do not depend on the order of the segments. *)
Lemma contents_perm m segs segs' rows :
  segs ≡ₚ segs' -> contents m segs = Some rows -> exists rows', contents m segs' = Some rows' /\ rows' ≡ₚ rows.
Proof.
  intros Hp. unfold contents. revert rows. induction Hp as [|g l l' _ IH|g g' l|l1 l2 l3 _ IH1 _ IH2]; intros rows Hr.
  - by exists rows.
  - cbn in *. destruct (segment_rows m g) as [r|]; [|done]. cbn in *.
    destruct (mapM (segment_rows m) l) as [rs|]; [|done]. injection Hr as <-.
    destruct (IH (concat rs) eq_refl) as (rows' & Hr' & Hp'). destruct (mapM _ l') as [rs'|]; [|done].
    injection Hr' as <-. exists (r ++ concat rs'). split; [done|]. cbn. by rewrite Hp'.
  - cbn in *. destruct (segment_rows m g) as [r|], (segment_rows m g') as [r'|]; cbn in *; try done.
    destruct (mapM _ l) as [rs|]; [|done]. injection Hr as <-. eexists. split; [done|]. cbn.
    rewrite !app_assoc. apply Permutation_app_tail, Permutation_app_comm.
  - destruct (IH1 rows Hr) as (r1 & H1 & P1). destruct (IH2 r1 H1) as (r2 & H2 & P2).
    exists r2. split; [done|]. by rewrite P2.
Qed.

(** ** Reading a segment *)
Lemma finds_read_segment m g :
  finds m (SegmentReader.read_segment g None None) (fun bs => segment_batches m g = Some bs).
Proof.
  unfold SegmentReader.read_segment, segment_batches.
  eapply finds_bind; [by apply (finds_get_opt _ _ (eq (fl_obj <$> m !! sg_path g)))|].
  intros o <-. destruct (m !! sg_path g) as [f|]; cbn [fmap option_fmap option_map]; [|done].
  unfold decoded. eapply finds_bind; [apply (finds_lift _ _ (fun c => SegmentReader.content_of (fl_obj f) = Some c))|].
  { intros c. by destruct (SegmentReader.content_of (fl_obj f)); intros [= <-]. }
  intros c Hc. apply finds_lift. intros bs. unfold SegmentReader.decode. cbn. rewrite Hc. cbn.
  destruct (parquet_metadata c); [|done]. cbn. by destruct (parquet_read c None None); intros [= <-].
Qed.
End Contents.

Section Held.
Context `{Env} `{ArrowRowsSpec}.
Implicit Types (m : gmap Path File) (d : Disk) (g : SegmentMeta).

(** What a written segment reads back as. *)
Lemma holds_rows spec schema n d g bs : schema <> [] -> Forall (fits schema) bs ->
  holds spec schema n d g bs -> segment_rows (files d) g = Some (all_rows bs).
Proof.
  intros Hs Hf Hh. destruct (ho_file _ _ _ _ _ _ Hh) as (f & c & props & Hp & Ho & Hw & _).
  destruct (parquet_roundtrip props schema bs c Hs Hf Hw) as ([meta Hm] & bs' & Hr & Hrows & _).
  unfold segment_rows, segment_batches. rewrite Hp. cbn. unfold decoded. rewrite Ho. cbn. rewrite Hm. cbn.
  rewrite Hr. cbn. by rewrite Hrows.
Qed.

Lemma held_contents spec schema n d gs groups : schema <> [] -> Forall (fits schema) (concat groups) ->
  Forall2 (holds spec schema n d) gs groups -> contents (files d) gs = Some (all_rows (concat groups)).
Proof.
  intros Hs Hf Hh. induction Hh as [|g bs gs groups Hg _ IH]; [done|].
  cbn in Hf. apply Forall_app in Hf as [Hf1 Hf2]. change (g :: gs) with ([g] ++ gs).
  rewrite contents_app, (IH Hf2). unfold contents. cbn. rewrite (holds_rows _ _ _ _ _ _ Hs Hf1 Hg). cbn.
  unfold all_rows. by rewrite app_nil_r, map_app, concat_app.
Qed.
End Held.

(** ** Times: the range a segment records, and filtering by time

    The recorded range of a segment bounds the times of its rows, filtering batches by time
    filters their rows, and reading only the row groups whose statistics meet the window
    loses no row of the window. *)

Section Times.
Context `{ArrowRowsSpec}.

(** The place of a time column stored as 64-bit integers, and the time of a row. *)
Definition time_at (tc : string) (sc : Schema) (i : nat) : Prop :=
  TableSpec.index_of sc tc = Some i /\ exists f, sc !! i = Some f /\ wide (fd_type f).
Definition row_time (i : nat) (r : list (option Cell)) : Z := int_of (default None (r !! i)).

Lemma index_of_names (s s' : Schema) name : map fd_name s = map fd_name s' -> TableSpec.index_of s name = TableSpec.index_of s' name.
Proof.
  revert s'. induction s as [|f s IH]; intros [|f' s']; cbn; try done. intros [= -> E]. by rewrite (IH s' E).
Qed.

(** The time column of a batch that fits. *)
Lemma time_column tc sc i b : time_at tc sc i -> fits sc b ->
  exists c, TableSpec.index_of (rb_schema b) tc = Some i /\ rb_columns b !! i = Some c /\ wide (ar_type c) /\
    length (ar_cells c) = rb_rows b /\ map (row_time i) (table_rows b) = int_values c.
Proof.
  intros (Hi & f & Hf & Hw) [Hn Hc]. rewrite (index_of_names _ _ tc Hn).
  destruct (Forall2_lookup_l _ _ _ _ _ Hc Hf) as (c & Hci & Ht & Hl & _). exists c. rewrite Ht.
  do 4 (split; [done|]). unfold table_rows, int_values. rewrite map_map. rewrite <- Hl.
  transitivity (map (fun j => int_of (cell c j)) (seq 0 (length (ar_cells c)))).
  - apply map_ext. intros j. unfold row_time, row_at. by rewrite list_lookup_fmap, Hci.
  - apply list_eq. intros j. rewrite !list_lookup_fmap. unfold cell. destruct (decide (j < length (ar_cells c))%nat) as [Hj|Hj].
    + rewrite lookup_seq_lt by done. cbn. by destruct (lookup_lt_is_Some_2 _ _ Hj) as [x ->].
    + rewrite lookup_seq_ge, lookup_ge_None_2 by lia. done.
Qed.

Lemma fold_range_bounds l : Forall (fun t => (SegmentTime.fold_range l).1 <= t <= (SegmentTime.fold_range l).2) l.
Proof.
  assert (Hmin : forall l a, fold_left Z.min l a <= a /\ Forall (fun t => fold_left Z.min l a <= t) l).
  { clear l. induction l as [|x l IH]; intros a; cbn; [by split; [lia|]|]. destruct (IH (Z.min a x)) as [Ha Hl].
    split; [lia|]. constructor; [lia|done]. }
  assert (Hmax : forall l a, a <= fold_left Z.max l a /\ Forall (fun t => t <= fold_left Z.max l a) l).
  { clear l Hmin. induction l as [|x l IH]; intros a; cbn; [by split; [lia|]|]. destruct (IH (Z.max a x)) as [Ha Hl].
    split; [lia|]. constructor; [lia|done]. }
  unfold SegmentTime.fold_range. cbn. destruct (Hmin l i64_max) as [_ H1], (Hmax l i64_min) as [_ H2].
  rewrite List.Forall_forall in *. auto.
Qed.

Lemma batch_times tc sc i b r : time_at tc sc i -> fits sc b -> SegmentTime.time_min_max b tc = Ok r ->
  match r with Some (lo, hi) => Forall (fun x => lo <= row_time i x <= hi) (table_rows b) | None => table_rows b = [] end.
Proof.
  intros Ht Hf. destruct (time_column tc sc i b Ht Hf) as (c & Hi & Hc & Hw & Hl & Hrows).
  unfold SegmentTime.time_min_max. destruct (Z.eqb_spec (num_rows b) 0) as [E|E].
  { intros [= <-]. unfold table_rows. unfold num_rows in E. by assert (rb_rows b = O) as -> by lia. }
  unfold SegmentTime.time_column_of. rewrite Hi. cbn. rewrite Hc. cbn. destruct (0 <? null_count c); [done|]. cbn.
  assert (Hs : SegmentTime.time_slice_i64 c = Some (int_values c)) by (unfold SegmentTime.time_slice_i64; by destruct (ar_type c)).
  rewrite Hs. intros [= <-]. pose proof (fold_range_bounds (int_values c)) as Hb. cbv zeta. unfold SegmentTime.fold_range in *. cbn in Hb.
  set (lo := fold_left Z.min _ _) in *. set (hi := fold_left Z.max _ _) in *. clearbody lo hi.
  rewrite <- Hrows in Hb. by apply List.Forall_map in Hb.
Qed.

(** The time range a writer records bounds the times of the rows. *)
Lemma time_range_bounds tc sc i bs lo hi : time_at tc sc i -> Forall (fits sc) bs ->
  SegmentTime.time_range_of (Some tc) bs = Ok (Some (lo, hi)) -> Forall (fun x => lo <= row_time i x <= hi) (all_rows bs).
Proof.
  intros Ht Hf. unfold SegmentTime.time_range_of. destruct (foldr_res _ _ _) as [acc|] eqn:E; [|done]. cbn.
  destruct (acc.1 <=? acc.2); [|done]. intros [= ->]. cut (forall bs a acc, foldr_res (SegmentTime.time_range_step tc) a bs = Ok acc ->
    Forall (fits sc) bs -> acc.1 <= a.1 /\ a.2 <= acc.2 /\ Forall (fun x => acc.1 <= row_time i x <= acc.2) (all_rows bs)).
  { intros Hgen. by destruct (Hgen bs _ _ E Hf) as (_ & _ & ?). }
  clear -Ht. induction bs as [|b bs IH]; intros a acc; cbn [foldr_res].
  - intros [= <-] _. split; [lia|]. split; [lia|]. constructor.
  - destruct (SegmentTime.time_range_step tc a b) as [a1|] eqn:E1; [|done]. cbn. intros E [Hb Hf]%Forall_cons.
    destruct (IH a1 acc E Hf) as (H1 & H2 & H3). unfold SegmentTime.time_range_step in E1.
    destruct (SegmentTime.time_min_max b tc) as [r|] eqn:Er; [|done]. pose proof (batch_times tc sc i b r Ht Hb Er) as Hbt.
    change (all_rows (b :: bs)) with (table_rows b ++ all_rows bs).
    destruct r as [[mn mx]|]; cbn in E1; injection E1 as <-; cbn in *.
    + split; [lia|]. split; [lia|]. apply Forall_app. split; [|done]. eapply Forall_impl; [exact Hbt|]. cbn. intros; lia.
    + rewrite Hbt. by repeat split.
Qed.

(** Filtering batches by time filters their rows. *)
Definition in_window (i : nat) (start stop : option Z) (r : list (option Cell)) : bool :=
  SegmentTime.in_window start stop (row_time i r).

Lemma cast_wide c arr : wide (ar_type c) -> SegmentTime.cast_to_i64 c = Ok arr -> ar_cells arr = ar_cells c.
Proof.
  intros Hw. unfold SegmentTime.cast_to_i64. destruct (cast c Int64) as [x|] eqn:E; [|done]. cbn.
  case_bool_decide; [|done]. intros [= <-]. pose proof (cast_i64_time c x E) as Hc. by destruct (ar_type c).
Qed.

Lemma filter_mask {A} (f : A -> bool) (l : list A) : map snd (List.filter fst (combine (map f l) l)) = List.filter f l.
Proof. induction l as [|x l IH]; cbn; [done|]. destruct (f x); cbn; by rewrite IH. Qed.

Lemma filter_map_mask {A B} (g : A -> B) (f : B -> bool) (l : list A) :
  map snd (List.filter fst (combine (map f (map g l)) l)) = List.filter (fun x => f (g x)) l.
Proof. rewrite map_map. apply filter_mask. Qed.

Lemma filter_one_spec tc sc i start stop out b out' : time_at tc sc i -> rb_schema b = sc -> fits sc b ->
  Forall (fun b => rb_schema b = sc /\ fits sc b) out ->
  SegmentTime.filter_one tc start stop out b = Ok out' ->
  Forall (fun b => rb_schema b = sc /\ fits sc b) out' /\
  all_rows out' = all_rows out ++ List.filter (in_window i start stop) (table_rows b).
Proof.
  intros Ht Hs Hf Hout. destruct (time_column tc sc i b Ht Hf) as (c & Hi & Hc & Hw & Hl & Hrows).
  unfold SegmentTime.filter_one. destruct (Z.eqb_spec (num_rows b) 0) as [E|E].
  { intros [= <-]. split; [done|]. unfold table_rows. unfold num_rows in E. assert (rb_rows b = O) as -> by lia. cbn. by rewrite app_nil_r. }
  rewrite Hi. cbn. rewrite Hc. cbn. destruct (SegmentTime.cast_to_i64 c) as [arr|] eqn:Ea; [|done]. cbn.
  apply (cast_wide _ _ Hw) in Ea. destruct (0 <? null_count arr); [done|].
  destruct (filter_record_batch b _) as [fb|] eqn:Ef; [|done]. cbn.
  apply filter_spec in Ef as (Hsf & _ & Hval & Hrf). 2: { unfold int_values. rewrite !length_map. by rewrite Ea. }
  unfold int_values in Hrf. rewrite Ea in Hrf. fold (int_values c) in Hrf. rewrite <- Hrows, filter_map_mask in Hrf.
  change (table_rows fb = List.filter (in_window i start stop) (table_rows b)) in Hrf. rewrite <- Hrf.
  assert (Hfit : fits sc fb).
  { destruct Ht as (_ & f & Hfi & _). destruct Hval as [_ Hv].
    - split; [rewrite Hs; by destruct sc|]. rewrite Hs. apply Hf.
    - rewrite Hsf, Hs in Hv. split; [congruence|done]. }
  destruct (Z.ltb_spec 0 (num_rows fb)) as [Hn|Hn]; intros [= <-].
  - split; [apply Forall_app; split; [done|]; constructor; [split; [congruence|done]|constructor]|].
    unfold all_rows. rewrite map_app, concat_app. cbn. by rewrite app_nil_r.
  - split; [done|]. unfold table_rows at 1. unfold num_rows in Hn. assert (rb_rows fb = O) as -> by lia. cbn. by rewrite app_nil_r.
Qed.

Lemma filter_rows_spec tc sc i start stop bs out : time_at tc sc i ->
  Forall (fun b => rb_schema b = sc /\ fits sc b) bs ->
  SegmentTime.filter_batches_by_time bs tc start stop = Ok out ->
  Forall (fun b => rb_schema b = sc /\ fits sc b) out /\
  all_rows out = List.filter (in_window i start stop) (all_rows bs).
Proof.
  intros Ht Hb. unfold SegmentTime.filter_batches_by_time.
  cut (forall acc, Forall (fun b => rb_schema b = sc /\ fits sc b) acc ->
    foldr_res (SegmentTime.filter_one tc start stop) acc bs = Ok out ->
    Forall (fun b => rb_schema b = sc /\ fits sc b) out /\
    all_rows out = all_rows acc ++ List.filter (in_window i start stop) (all_rows bs)).
  { intros Hgen. apply (Hgen []). constructor. }
  induction Hb as [|b bs [Hs Hf] _ IH]; intros acc Ha; cbn [foldr_res].
  - intros [= <-]. split; [done|]. by rewrite app_nil_r.
  - destruct (SegmentTime.filter_one tc start stop acc b) as [acc'|] eqn:E; [|done]. cbn. intros Ho.
    destruct (filter_one_spec tc sc i start stop acc b acc' Ht Hs Hf Ha E) as [Ha' Hr].
    destruct (IH acc' Ha' Ho) as [Hout Hrows]. split; [done|]. rewrite Hrows, Hr, <- app_assoc. f_equal.
    change (all_rows (b :: bs)) with (table_rows b ++ all_rows bs). by rewrite List.filter_app.
Qed.

(** ** Row groups *)
Lemma leaf_path (leaves : list (list string)) name k : SegmentReader.parquet_leaf_index leaves name = Some k -> leaves !! k = Some [name].
Proof.
  unfold SegmentReader.parquet_leaf_index. destruct (list_find _ leaves) as [[j p]|] eqn:E; [|done]. intros [= <-].
  apply list_find_Some in E as (Hj & -> & _). done.
Qed.

Lemma filter_concat {A} (f : A -> bool) (ls : list (list A)) : List.filter f (concat ls) = concat (map (List.filter f) ls).
Proof. induction ls as [|l ls IH]; cbn; [done|]. by rewrite List.filter_app, IH. Qed.

(** Reading some of the groups filters as reading them all, when the others have nothing to
    offer. *)
Lemma selected_groups {A B} (f : A -> bool) (keep : B -> bool) (groups : list (list A)) (stats : list B) :
  length groups = length stats ->
  (forall k rows st, groups !! k = Some rows -> stats !! k = Some st -> keep st = false -> List.filter f rows = []) ->
  List.filter f (concat (map (fun k => default [] (groups !! k))
    (map fst (List.filter (fun e => keep e.2) (combine (seq 0 (length stats)) stats))))) = List.filter f (concat groups).
Proof.
  intros Hl Hk. rewrite !filter_concat, !map_map.
  cut (forall off pre, length pre = off -> concat (map (fun e : nat * B => List.filter f (default [] ((pre ++ groups) !! e.1)))
    (List.filter (fun e => keep e.2) (combine (seq off (length stats)) stats))) = concat (map (List.filter f) groups)).
  { intros Hgen. exact (Hgen 0%nat [] eq_refl). }
  revert stats Hl Hk. induction groups as [|rows groups IH]; intros [|st stats] Hl Hk off pre Hoff; try done. injection Hl as Hl.
  cbn [length seq combine List.filter map concat snd].
  assert (Hrest : concat (map (fun e : nat * B => List.filter f (default [] ((pre ++ rows :: groups) !! e.1)))
    (List.filter (fun e => keep e.2) (combine (seq (S off) (length stats)) stats))) = concat (map (List.filter f) groups)).
  { specialize (IH stats Hl (fun k => Hk (S k)) (S off) (pre ++ [rows])). rewrite <- app_assoc in IH. apply IH.
    rewrite length_app. cbn. lia. }
  assert (Hhd : (pre ++ rows :: groups) !! off = Some rows) by (by apply list_lookup_middle).
  destruct (keep st) eqn:E; cbn [map concat fst]; rewrite Hrest; [by rewrite Hhd|].
  by rewrite (Hk 0%nat rows st eq_refl eq_refl E).
Qed.

Lemma index_of_name (s : Schema) name i f : TableSpec.index_of s name = Some i -> s !! i = Some f -> fd_name f = name.
Proof.
  revert i. induction s as [|g s IH]; intros i; cbn; [done|]. destruct (String.eqb_spec (fd_name g) name) as [E|E].
  - intros [= <-] [= <-]. done.
  - destruct (TableSpec.index_of s name) as [j|]; [|done]. intros [= <-]. by apply IH.
Qed.

(** A group whose statistics miss the window has no row of the window. *)
Lemma missed_group i leaf start stop (rows : list (list (option Cell))) stats st :
  Forall (fun r => within (mjoin (stats !! leaf)) (default None (r !! i))) rows ->
  Forall (fun r => is_Some (default None (r !! i))) rows -> mjoin (stats !! leaf) = Some st ->
  SegmentReader.keep_row_group leaf start stop stats = false -> List.filter (in_window i start stop) rows = [].
Proof.
  intros Hw Hn Hst Hk. unfold SegmentReader.keep_row_group in Hk. rewrite Hst in *. cbn in Hk.
  induction rows as [|r rows IH]; [done|]. apply Forall_cons in Hw as [Hr Hw], Hn as [Hx Hn]. cbn [List.filter].
  rewrite (IH Hw Hn). assert (Hf : in_window i start stop r = false); [|by rewrite Hf].
  unfold in_window, SegmentTime.in_window, row_time. destruct (default None (r !! i)) as [[z| | | |]|]; try done.
  cbn in Hr |- *. destruct st as [[mn|] [mx|]| |]; try done. cbn in Hk.
  destruct start as [s|], stop as [e|]; cbn in *; rewrite ?andb_true_r in *; bool_prop;
    apply not_true_iff_false; rewrite ?andb_true_iff, ?Z.leb_le, ?Z.ltb_lt; lia || (destruct Hk; bool_prop; lia).
Qed.

Definition timed_rows (i : nat) (rows : list (list (option Cell))) : Prop := Forall (fun r => is_Some (default None (r !! i))) rows.

Lemma no_window i rows : List.filter (in_window i None None) rows = rows.
Proof. induction rows as [|r rows IH]; cbn; [done|]. by rewrite IH. Qed.

(** Decoding with a time filter is decoding and filtering, whatever row groups it skips. *)
Lemma decode_filtered props s bs c tc i start stop out : s <> [] -> NoDup (map fd_name s) -> Forall (fits s) bs ->
  parquet_write props s bs = Some c -> time_at tc s i -> timed_rows i (all_rows bs) ->
  SegmentReader.decode c None (Some (tc, start, stop)) = Ok out ->
  all_rows out = List.filter (in_window i start stop) (all_rows bs) /\ Forall (fun b => rb_schema b = s /\ fits s b) out.
Proof.
  intros Hs Hnd Hf Hw Ht Hn. destruct (parquet_roundtrip props s bs c Hs Hf Hw) as ([meta Hm] & all & Hall & Hrows & Hsc).
  destruct (parquet_groups props s bs c meta Hs Hnd Hf Hw Hm) as (groups & Hg & Hlen & Hread & Hstats).
  unfold SegmentReader.decode. rewrite Hm. cbn [ok_or SegmentReader.project_roots].
  cut (forall bs', parquet_read c None (SegmentReader.row_groups_to_read meta (Some (tc, start, stop))) = Some bs' ->
    List.filter (in_window i start stop) (all_rows bs') = List.filter (in_window i start stop) (all_rows bs) /\
    Forall (fun b => rb_schema b = s /\ fits s b) bs').
  { intros Hcut. destruct (parquet_read c None (SegmentReader.row_groups_to_read _ _)) as [bs'|] eqn:Er; [|done]. cbn.
    destruct (Hcut bs' eq_refl) as [Hfil Hall'].
    intros Ho. destruct start as [a|], stop as [b|]; cbn in Ho;
      try (destruct (filter_rows_spec tc s i _ _ bs' out Ht Hall' Ho) as [? ->]; by rewrite Hfil).
    injection Ho as <-. by rewrite !no_window in *. }
  assert (Hfull : forall bs', parquet_read c None None = Some bs' ->
    List.filter (in_window i start stop) (all_rows bs') = List.filter (in_window i start stop) (all_rows bs) /\
    Forall (fun b => rb_schema b = s /\ fits s b) bs').
  { intros bs' Hb. rewrite Hall in Hb. injection Hb as <-. by rewrite Hrows. }
  intros bs' Hbs'. unfold SegmentReader.row_groups_to_read in Hbs'.
  destruct (SegmentReader.parquet_leaf_index _ tc) as [leaf|] eqn:El; [|by apply Hfull].
  destruct (forallb _ _) eqn:Ea; [|by apply Hfull].
  destruct (Hread _ bs' Hbs') as [Hr' Hsc']. split; [|done]. rewrite Hr', <- Hg. apply selected_groups; [done|].
  intros k rows st Hk Hst Hkeep. apply leaf_path in El. destruct Ht as (Hi & f & Hfi & Hwide).
  rewrite forallb_forall in Ea. specialize (Ea st ltac:(by eapply list_elem_of_In, list_elem_of_lookup_2)).
  destruct (mjoin (st !! leaf)) as [x|] eqn:Ex; [|done].
  assert (Hname : fd_name f = tc) by (by eapply index_of_name).
  rewrite <- Hname in El. eapply missed_group; [by eapply Hstats|..|exact Ex|exact Hkeep].
  unfold timed_rows in Hn. rewrite <- Hg in Hn. rewrite List.Forall_forall in *. intros r Hr. apply Hn, in_concat.
  exists rows. split; [|done]. by eapply list_elem_of_In, list_elem_of_lookup_2.
Qed.

(** ** What the time range of a segment is good for *)
Lemma no_nulls c : (0 <? null_count c) = false -> Forall is_Some (ar_cells c).
Proof.
  unfold null_count, zlen. intros Hz%Z.ltb_ge. apply List.Forall_forall. intros [x|] Hin; [done|].
  assert (Hf : In None (List.filter is_null (ar_cells c))) by by apply filter_In.
  destruct (List.filter _ _); [done|]. cbn in Hz. lia.
Qed.

Lemma batch_timed tc sc i b r : time_at tc sc i -> fits sc b -> SegmentTime.time_min_max b tc = Ok r -> timed_rows i (table_rows b).
Proof.
  intros Ht Hf Hr. destruct (time_column tc sc i b Ht Hf) as (c & Hi & Hc & _ & Hl & _). apply List.Forall_forall.
  intros x (j & <- & Hj%in_seq)%in_map_iff. unfold SegmentTime.time_min_max in Hr.
  destruct (Z.eqb_spec (num_rows b) 0) as [E|E]; [unfold num_rows in E; lia|].
  unfold SegmentTime.time_column_of in Hr. rewrite Hi in Hr. cbn in Hr. rewrite Hc in Hr. cbn in Hr.
  destruct (0 <? null_count c) eqn:En; [done|]. apply no_nulls in En. unfold row_at. rewrite list_lookup_fmap, Hc. cbn.
  unfold cell. destruct (lookup_lt_is_Some_2 (ar_cells c) j ltac:(lia)) as [y Hy]. rewrite Hy. by eapply Forall_lookup_1 in En.
Qed.

Lemma range_timed tc sc i bs r : time_at tc sc i -> Forall (fits sc) bs ->
  SegmentTime.time_range_of (Some tc) bs = Ok r -> timed_rows i (all_rows bs).
Proof.
  intros Ht Hf. unfold SegmentTime.time_range_of. destruct (foldr_res _ _ _) as [acc|] eqn:E; [|done]. intros _. revert E.
  generalize (i64_max, i64_min) as a. induction Hf as [|b bs Hb _ IH]; intros a; cbn [foldr_res]; [constructor|].
  destruct (SegmentTime.time_range_step tc a b) as [a1|] eqn:E1; [|done]. cbn. intros E. unfold SegmentTime.time_range_step in E1.
  destruct (SegmentTime.time_min_max b tc) as [x|] eqn:Ex; [|done]. apply Forall_app. split; [by eapply batch_timed|by eapply IH].
Qed.

(** The recorded range bounds the times of the rows, and reading with a time filter is
    filtering the rows. *)
Definition range_bounds (m : gmap Path File) (g : SegmentMeta) (i : nat) : Prop := forall lo hi rows,
  sg_time_range g = Some (lo, hi) -> segment_rows m g = Some rows -> Forall (fun x => lo <= row_time i x <= hi) rows.
Definition filters_exactly (m : gmap Path File) (g : SegmentMeta) (tc : string) (sc : Schema) (i : nat) : Prop := forall start stop f c out,
  m !! sg_path g = Some f -> SegmentReader.content_of (fl_obj f) = Some c ->
  SegmentReader.decode c None (Some (tc, start, stop)) = Ok out ->
  exists rows, segment_rows m g = Some rows /\ all_rows out = List.filter (in_window i start stop) rows.
Definition times_bounded (time_column : option string) (sc : Schema) (m : gmap Path File) (g : SegmentMeta) : Prop :=
  forall tc i, time_column = Some tc -> time_at tc sc i -> range_bounds m g i /\ filters_exactly m g tc sc i.

Lemma holds_times `{Env} spec schema n d g bs : schema <> [] -> NoDup (map fd_name schema) -> Forall (fits schema) bs ->
  holds spec schema n d g bs -> times_bounded (ts_time_column spec) schema (files d) g.
Proof.
  intros Hs Hnd Hf Hh tc i Ec Ht. pose proof (holds_rows _ _ _ _ _ _ Hs Hf Hh) as Hrows.
  pose proof (ho_times _ _ _ _ _ _ Hh) as Hb. rewrite Ec in Hb. split.
  - intros lo hi rows Er Hr. rewrite Hrows in Hr. injection Hr as <-. rewrite Er in Hb. by eapply time_range_bounds.
  - intros start stop f c out Hp Hc Ho. destruct (ho_file _ _ _ _ _ _ Hh) as (f' & c' & props & Hp' & Ho' & Hw & _).
    rewrite Hp in Hp'. injection Hp' as <-. rewrite Ho' in Hc. injection Hc as <-. exists (all_rows bs). split; [done|].
    eapply (decode_filtered props schema bs c'); try done. by eapply range_timed.
Qed.

Lemma times_kept tc sc m m' g : m' !! sg_path g = m !! sg_path g -> times_bounded tc sc m g -> times_bounded tc sc m' g.
Proof.
  intros E Hb tc' i Ec Ht. destruct (Hb tc' i Ec Ht) as [H1' H2']. unfold range_bounds, filters_exactly, segment_rows, segment_batches in *.
  rewrite E. by split.
Qed.
End Times.

(** ** Staged rows

    What deduplication makes of the segments a writer returns, and the rows that were staged
    as segments on disk. *)

(** ** Deduplication *)
Section Dedup.
Context `{Env} `{ArrowRows}.
Context (spec : TableSpec).
Implicit Types (d : Disk) (g : SegmentMeta).
Local Abbreviation t := (ts_table_id spec).

(** A segment whose object has the checksum its metadata records. *)
Definition undamaged (m : gmap Path File) g : Prop :=
  exists f, m !! sg_path g = Some f /\ checksum_hex (fl_obj f) = sg_checksum g.

Lemma by_checksum_in (mf : VersionManifest) c g :
  VersionManifest.segments_by_checksum mf !! c = Some g -> In g (mf_segments mf) /\ sg_checksum g = c.
Proof.
  unfold VersionManifest.segments_by_checksum.
  assert (Hgen : forall l (acc : gmap Digest SegmentMeta), (forall g, acc !! c = Some g -> In g (mf_segments mf) /\ sg_checksum g = c) ->
    (forall g, In g l -> In g (mf_segments mf)) ->
    fold_left (fun acc s => <[sg_checksum s := s]> acc) l acc !! c = Some g ->
    In g (mf_segments mf) /\ sg_checksum g = c).
  { induction l as [|x l IH]; intros acc Ha Hl; cbn; [apply Ha|]. apply IH; [|intros; apply Hl; by right].
    intros g' Hg'. destruct (decide (sg_checksum x = c)) as [<-|Hn].
    - rewrite lookup_insert_eq in Hg'. injection Hg' as <-. split; [apply Hl; by left|done].
    - rewrite lookup_insert_ne in Hg' by done. by apply Ha. }
  intros Hg. apply (Hgen (mf_segments mf) ∅); [by intros ? ?%lookup_empty_Some|done|done].
Qed.

(** What a written segment becomes: itself, or a segment of the parent with its content. *)
Lemma dedup_one_spec (mf : VersionManifest) g g' o :
  dedup_one (VersionManifest.segments_by_checksum mf) g = (g', o) ->
  (g' = g /\ o = None) \/
  (In g' (mf_segments mf) /\ sg_checksum g' = sg_checksum g /\ sg_rows g' = sg_rows g /\ o = Some (sg_path g)).
Proof.
  unfold dedup_one. destruct (_ !! _) as [x|] eqn:E; [|intros [= <- <-]; by left].
  apply by_checksum_in in E as [Hin Hc].
  destruct (Z.eqb_spec (sg_bytes x) (sg_bytes g)), (Z.eqb_spec (sg_rows x) (sg_rows g)); cbn;
    intros [= <- <-]; auto.
Qed.

(** Deleting objects that were not there at first: the rest stays. *)
Definition deleted_only (ps : list Path) d d' : Prop :=
  forall q, files d' !! q = files d !! q \/ (In q ps /\ files d' !! q = None).

Lemma leased_deleted d0 d d' ps :
  leased spec d0 d -> (forall q, In q ps -> data_path q /\ files d0 !! q = None) ->
  deleted_only ps d d' -> leased spec d0 d'.
Proof.
  intros Hl Hps Hd. destruct Hl as [Hsame|(id & l & (f & Hf & Ho) & Hc & Hdr)].
  - left. apply map_eq. intros q. rewrite <- Hsame. destruct (Hd q) as [->|[Hq Hn]]; [done|].
    rewrite Hn, Hsame. symmetry. by apply Hps.
  - right. exists id, l. split; [|split; [|done]].
    + exists f. split; [|done]. destruct (Hd (staging_lease_path t id)) as [->|[Hq _]]; [done|].
      destruct (Hps _ Hq) as [(u & v & Huv) _]. by apply lease_not_segment in Huv || discriminate Huv.
    + intros q Hq. destruct (Hd q) as [He|[Hq' Hn]]; [apply Hc; by rewrite <- He|].
      exfalso. apply Hq. rewrite Hn. symmetry. by apply Hps.
Qed.

Lemma wpc_delete_all ft d ps :
  wpc ft (for_each (fun path => let! _r := attempt (Backend.delete path) in ret tt) ps) d
    (fun r d' => r = Ok tt /\ deleted_only ps d d') (fun d' => deleted_only ps d d').
Proof.
  assert (Hgen : forall l d1, incl l ps -> deleted_only ps d d1 ->
    wpc ft (for_each (fun path => let! _r := attempt (Backend.delete path) in ret tt) l) d1
      (fun r d' => r = Ok tt /\ deleted_only ps d d') (fun d' => deleted_only ps d d')).
  2: { apply Hgen; [apply incl_refl|]. intros q. by left. }
  induction l as [|p l IH]; intros d1 Hin Hd1; [by apply wpc_ret|]. cbn [for_each].
  assert (Hd2 : deleted_only ps d (effect (Delete p) d1).2).
  { intros q. cbn. destruct (files d1 !! p) eqn:E; [|apply Hd1]. destruct (decide (q = p)) as [->|Hn].
    - right. split; [apply Hin; by left|]. by rewrite files_del_eq.
    - cbn. rewrite files_del_ne by done. apply Hd1. }
  assert (Hrest : forall d2, deleted_only ps d d2 -> wpc ft (for_each (fun path =>
    let! _r := attempt (Backend.delete path) in ret tt) l) d2
      (fun r d' => r = Ok tt /\ deleted_only ps d d') (fun d' => deleted_only ps d d')).
  { intros d2 H2. apply IH; [|done]. intros q Hq. apply Hin. by right. }
  apply wpc_bind, wpc_bind, wpc_attempt. apply wpc_call; [done|done| |]; intros; repeat split; try done; auto.
Qed.
End Dedup.

(** ** Staging: finishing the writer, then deduplicating *)
Section Staging.
Context `{Env} `{ArrowRowsSpec} `{!Inj (=) (=) new_uuid}.
Context (spec : TableSpec) (schema : Schema) (seq_no : Z).
Implicit Types (d : Disk) (g : SegmentMeta).
Local Abbreviation t := (ts_table_id spec).

(** The digest of a segment's content is that of no other object. *)
Definition collision_free : Prop := forall o c, checksum_hex o = checksum_hex (OSegment c) -> o = OSegment c.

(** The segments a table has: their objects are there, unchanged, under segment paths. *)
Definition undamaged_segments d (segs : list SegmentMeta) : Prop :=
  Forall (fun g => undamaged (files d) g /\ data_path (sg_path g)) segs.

Lemma data_not_lease q id u : data_path q -> q <> staging_lease_path u id.
Proof. by intros (? & ? & ->). Qed.

(** Staging overwrites nothing but lease files. *)
Lemma leased_keeps d0 d q f : leased spec d0 d -> unused_ids d0 -> files d0 !! q = Some f ->
  (forall id, q <> staging_lease_path t id) -> files d !! q = Some f.
Proof.
  intros [Hs|(id & l & _ & Hc & Hd)] Hfr Hq Hn; [by rewrite Hs|].
  destruct (decide (files d !! q = files d0 !! q)) as [->|Hne]; [done|]. exfalso.
  destruct (Hc q Hne) as [Hlp|Hin]; [by apply (Hn id)|].
  rewrite List.Forall_forall in Hd. destruct (Hd q Hin) as (n & Hle & ->). by rewrite Hfr in Hq.
Qed.

(** A segment whose object decodes to batches of a schema. *)
Definition readable (m : gmap Path File) (sc : Schema) g : Prop :=
  exists bs, segment_batches m g = Some bs /\ Forall (fun b => rb_schema b = sc /\ fits sc b) bs.

(** A segment staged under this spec: where a manifest would have it. *)
Definition staged_segment (parent : VersionManifest) (pushed : list RecordBatch) d g : Prop :=
  In g (mf_segments parent) \/
  (undamaged (files d) g /\ data_path (sg_path g) /\ sg_schema_revision g = ts_schema_revision spec /\
   (schema <> [] -> NoDup (map fd_name schema) -> Forall (fits schema) pushed ->
    readable (files d) schema g /\ times_bounded (ts_time_column spec) schema (files d) g)).

(** What staging leaves: a leased disk, and segments that hold what was pushed. *)
Definition staged_rows d0 (parent : VersionManifest) (pushed : list RecordBatch)
    (ms : list SegmentMeta) d : Prop :=
  leased spec d0 d /\ unused_ids d /\ Forall (staged_segment parent pushed d) ms /\
  (schema <> [] -> Forall (fits schema) pushed -> collision_free -> undamaged_segments d0 (mf_segments parent) ->
   contents (files d) ms = Some (all_rows pushed)).

Lemma shared_rows d0 d d' (parent : VersionManifest) g g' bs :
  collision_free -> undamaged_segments d0 (mf_segments parent) -> unused_ids d0 -> leased spec d0 d' ->
  In g' (mf_segments parent) -> sg_checksum g' = sg_checksum g -> holds spec schema seq_no d g bs ->
  segment_rows (files d') g' = segment_rows (files d) g.
Proof.
  intros Hcf Hint Hfr Hl Hin Hck Hh. unfold undamaged_segments in Hint. rewrite List.Forall_forall in Hint.
  destruct (Hint g' Hin) as [(f & Hf & Hfc) Hdp].
  destruct (ho_file _ _ _ _ _ _ Hh) as (f2 & c & props & Hf2 & Ho2 & _ & _ & Hc2).
  assert (Hsame : fl_obj f = fl_obj f2) by (rewrite Ho2; apply Hcf; congruence).
  unfold segment_rows, segment_batches. rewrite Hf2, (leased_keeps d0 d' _ f Hl Hfr Hf).
  - cbn. by rewrite Hsame.
  - intros id. by apply data_not_lease.
Qed.

Lemma holds_readable d g bs : schema <> [] -> Forall (fits schema) bs -> holds spec schema seq_no d g bs ->
  readable (files d) schema g.
Proof.
  intros Hs Hf Hh. destruct (ho_file _ _ _ _ _ _ Hh) as (f & c & props & Hp & Ho & Hw & _).
  destruct (parquet_roundtrip props schema bs c Hs Hf Hw) as ([meta Hm] & bs' & Hr & _ & Hall).
  exists bs'. split; [|done]. unfold segment_batches. rewrite Hp. cbn. unfold decoded. rewrite Ho. cbn. by rewrite Hm.
Qed.

Lemma holds_undamaged d g bs : holds spec schema seq_no d g bs -> undamaged (files d) g.
Proof.
  intros Hh. destruct (ho_file _ _ _ _ _ _ Hh) as (f & c & props & Hp & Ho & _ & _ & Hc).
  exists f. split; [done|]. by rewrite Ho.
Qed.

(** What deduplication makes of a segment: one of the parent, or itself with its object. *)
Lemma dedup_fate (parent : VersionManifest) ms d d' g :
  let one := dedup_one (VersionManifest.segments_by_checksum parent) in
  NoDup (map sg_path ms) -> deleted_only (omap snd (map one ms)) d d' -> In g ms ->
  (In (one g).1 (mf_segments parent) /\ sg_checksum (one g).1 = sg_checksum g) \/
  ((one g).1 = g /\ files d' !! sg_path g = files d !! sg_path g).
Proof.
  intros one Hnd Hd Hin. destruct (one g) as [g' o] eqn:E. cbn. pose proof E as E'.
  apply dedup_one_spec in E as [[-> ->]|(Hin' & Hck & _ & _)]; [right|by left]. split; [done|].
  destruct (Hd (sg_path g)) as [->|[Hq _]]; [done|]. exfalso.
  apply list_elem_of_In, list_elem_of_omap in Hq as (x & Hx & Hs).
  apply list_elem_of_fmap in Hx as (g2 & -> & Hg2%list_elem_of_In).
  destruct (one g2) as [g2' o2] eqn:E2. cbn in Hs. subst o2. pose proof E2 as E2'.
  apply dedup_one_spec in E2 as [[_ ?]|(_ & _ & _ & [= Ho])]; [done|].
  assert (g2 = g) as -> by (by eapply (NoDup_map_inj sg_path ms)). congruence.
Qed.

(** The objects deduplication deletes are new ones. *)
Lemma redundant_paths (parent : VersionManifest) ms q :
  In q (omap snd (map (dedup_one (VersionManifest.segments_by_checksum parent)) ms)) -> In q (map sg_path ms).
Proof.
  intros Hq. apply list_elem_of_In, list_elem_of_omap in Hq as (x & Hx & Hs).
  apply list_elem_of_fmap in Hx as (g & -> & Hg%list_elem_of_In). destruct (dedup_one _ g) as [g' o] eqn:E.
  cbn in Hs. subst o. apply dedup_one_spec in E as [[_ ?]|(_ & _ & _ & [= ->])]; [done|]. by apply in_map.
Qed.

Lemma segment_rows_at (m m' : gmap Path File) g : m' !! sg_path g = m !! sg_path g -> segment_rows m' g = segment_rows m g.
Proof. unfold segment_rows, segment_batches. by intros ->. Qed.

(** Deduplicated, the segments hold what they held. *)
Lemma deduped_rows (one : SegmentMeta -> SegmentMeta) d0 d d' (parent : VersionManifest) ms gs pushed :
  unused_ids d0 -> leased spec d0 d' -> concat gs = pushed -> Forall2 (holds spec schema seq_no d) ms gs ->
  Forall (fun g => exists n, sg_path g = segment_path t (new_uuid n)) ms ->
  (forall g, In g ms -> (In (one g) (mf_segments parent) /\ sg_checksum (one g) = sg_checksum g) \/
     (one g = g /\ files d' !! sg_path g = files d !! sg_path g)) ->
  Forall (staged_segment parent pushed d') (map one ms) /\
  (schema <> [] -> Forall (fits schema) pushed -> collision_free -> undamaged_segments d0 (mf_segments parent) ->
   contents (files d') (map one ms) = Some (all_rows pushed)).
Proof.
  intros Hfr Hl <- Hh Hp Hfate. split.
  - apply List.Forall_forall. intros g' (g & Hg' & Hin)%in_map_iff. subst g'.
    destruct (Hfate g Hin) as [[? _]|[Heq Hkept]]; [by left|right]. rewrite Heq.
    destruct (Forall2_in_l _ _ _ _ Hh Hin) as (bs & Hbs & Hb).
    rewrite List.Forall_forall in Hp. destruct (Hp g Hin) as (n & Hn). split; [|split; [|split]].
    + destruct (holds_undamaged _ _ _ Hb) as (f & ? & ?). exists f. by rewrite Hkept.
    + by eexists _, _.
    + apply Hb.
    + intros Hne Hnd Hfit. assert (Hfb : Forall (fits schema) bs).
      { rewrite !List.Forall_forall in *. intros b Hb'. apply Hfit. apply in_concat. by exists bs. }
      split; [|by eapply times_kept, holds_times].
      destruct (holds_readable d g bs Hne Hfb Hb) as (bs' & Hs & Ha).
      exists bs'. split; [|done]. unfold segment_batches in *. by rewrite Hkept.
  - intros Hne Hfit Hcf Hint. rewrite <- (held_contents spec schema seq_no d ms gs Hne Hfit Hh). apply contents_same.
    apply Forall2_fmap_r, Forall_Forall2_diag, List.Forall_forall. intros g Hin.
    destruct (Forall2_in_l _ _ _ _ Hh Hin) as (bs & _ & Hb).
    destruct (Hfate g Hin) as [[Hpar Hck]|[Heq Hkept]]; [by apply (shared_rows d0 d d' parent g _ bs)|].
    cbn. rewrite Heq. by apply segment_rows_at.
Qed.

Lemma wpc_dedup ft d0 d ms s lease pushed (parent : VersionManifest) :
  unused_ids d0 -> stored_batches spec schema seq_no d0 pushed (ms, s, lease) d ->
  wpc ft (dedup_segments ms parent) d
    (fun r d' => match r with Ok (ms', _) => staged_rows d0 parent pushed ms' d' | Err _ => leased spec d0 d' end)
    (leased spec d0).
Proof.
  intros Hfr (gs & Hg & Hh & _ & Hpaths & Hnd & Hl & Hfd & _). cbn [fst] in *. unfold dedup_segments.
  set (out := map (dedup_one _) ms). set (redundant := omap snd out).
  assert (Hnew : forall q, In q redundant -> data_path q /\ files d0 !! q = None).
  { intros q (g & <- & Hin)%redundant_paths%in_map_iff. rewrite List.Forall_forall in Hpaths.
    destruct (Hpaths g Hin) as (n & Hn & ->). split; [by eexists _, _|]. apply Hfr. lia. }
  assert (Hld : forall d', deleted_only redundant d d' -> leased spec d0 d').
  { intros d' Hd. by apply (leased_deleted spec d0 d d' redundant). }
  apply wpc_bind. eapply wpc_mono; [| |apply wpc_uuids, wpc_delete_all]; cbv beta; [|intros d' [Hd _]; exact (Hld d' Hd)].
  intros r d' [[-> Hd] Hu]. apply wpc_ret; [by apply Hld|]. split; [by apply Hld|]. split.
  { intros n u Hn. destruct (Hd (segment_path u (new_uuid n))) as [->|[_ ->]]; [|done]. apply Hfd. lia. }
  unfold out. rewrite map_map.
  apply (deduped_rows _ d0 d d' parent ms gs pushed); try done; [by apply Hld|..].
  - eapply Forall_impl; [exact Hpaths|]. intros g (n & _ & Hn). by exists n.
  - intros g. by apply dedup_fate.
Qed.
End Staging.
