(* ===== verification/RowWrites.v ===== *)
(** * The state a row mutation starts from and leaves

    [rows_ok]: every manifest of every table has its segments on disk, intact and readable
    under the schema they were written with, and the identifiers still to be drawn are
    unused.  A row mutation is a reading prologue, staging, a commit and the release of the
    lease; the lemmas here carry the state through each. *)
From S2P Require Export TableContents History SortProps.

(** ** Programs confined to some paths *)
Section Confined.
Context `{Env}.
Implicit Types (d : Disk) (P : Path -> Prop).

Definition writes_to {T} (c : Call T) : list Path :=
  match c with Put p _ | PutIfAbsent p _ | Delete p | Rename p => [p] | _ => [] end.
Fixpoint confined {A} P (p : prog A) : Prop :=
  match p with Ret _ => True | Do c k => Forall P (writes_to c) /\ forall r, confined P (k r) end.

(** Outside [P] nothing changed; what was pending may have been flushed. *)
Definition untouched P d0 d : Prop :=
  forall q, ~ P q -> files d !! q = files d0 !! q /\
    (pending d !! q = pending d0 !! q \/ pending d !! q = None).

Lemma untouched_refl P d : untouched P d d.
Proof. by intros q _; auto. Qed.
Lemma untouched_trans P d0 d1 d2 : untouched P d0 d1 -> untouched P d1 d2 -> untouched P d0 d2.
Proof.
  intros H1 H2 q Hq. destruct (H1 q Hq) as [E1 P1], (H2 q Hq) as [E2 P2]. split; [congruence|].
  destruct P2 as [->|?]; auto.
Qed.
Lemma untouched_same P d0 d : same_files d0 d -> untouched P d0 d.
Proof. intros [E1 E2] q _. rewrite E1, E2. auto. Qed.
Lemma untouched_mono P P' d0 d : (forall q, P q -> P' q) -> untouched P d0 d -> untouched P' d0 d.
Proof. intros HP Hu q Hq. apply Hu. auto. Qed.
Lemma frame_untouched ps d0 d : frame ps d0 d -> untouched (fun q => q ∈ ps) d0 d.
Proof. intros Hf q Hq. by apply Hf. Qed.

Lemma effect_untouched {T} (c : Call T) P d : Forall P (writes_to c) -> untouched P d (effect c d).2.
Proof.
  intros Hw q Hq. destruct c as [p|p o|p o|p|pre|ps|p o|p|p|n| |]; cbn in *; auto;
    try (apply Forall_cons in Hw as [Hp _]; assert (p <> q) by (intros ->; done)).
  - by rewrite files_put_ne, pending_put_ne by done; auto.
  - destruct (files d !! p); cbn; [auto|]. by rewrite files_put_ne, pending_put_ne by done; auto.
  - destruct (files d !! p); cbn; [|auto]. by rewrite files_del_ne, pending_del_ne by done; auto.
  - split; [done|]. rewrite foldr_delete_lookup. case_bool_decide; auto.
  - destruct (temps d !! p) as [[o flushed]|]; cbn; [|auto]. by rewrite files_put_ne, pending_put_ne by done; auto.
Qed.

Lemma wpc_confined {A} ft (p : prog A) P d (Q : DbResult A -> Disk -> Prop) (C : Disk -> Prop) :
  confined P p -> wpc ft p d Q C ->
  wpc ft p d (fun r d' => Q r d' /\ untouched P d d') (fun d' => C d' /\ untouched P d d').
Proof.
  intros Hc Hw. assert (Hgen : forall d1, untouched P d d1 -> wpc ft p d1 Q C ->
    wpc ft p d1 (fun r d' => Q r d' /\ untouched P d d') (fun d' => C d' /\ untouched P d d')).
  2: { apply Hgen; [apply untouched_refl|exact Hw]. }
  clear Hw. induction p as [r|T c k IH]; intros d1 Hd; cbn.
  - intros [HC HQ]. split; split; done.
  - intros (HC & H1 & H2 & H3). destruct Hc as [Hc Hk].
    assert (Hd' : untouched P d (effect c d1).2) by (eapply untouched_trans; [exact Hd|by apply effect_untouched]).
    split; [done|]. split; [by apply IH|]. split; intros Hft; apply IH; auto.
Qed.

Lemma wpc_true {A} ft (p : prog A) d : wpc ft p d (fun _ _ => True) (fun _ => True).
Proof. revert d. induction p as [r|T c k IH]; intros d; cbn; auto 10. Qed.

Lemma read_only_confined {A} P (p : prog A) : read_only p -> confined P p.
Proof.
  induction p as [r|T c k IH]; cbn; [done|]. intros [Hc Hk]. split; [by destruct c|]. intros r. apply IH, Hk.
Qed.
Lemma confined_then {A B} P (p : prog A) (f : DbResult A -> prog B) :
  confined P p -> (forall r, confined P (f r)) -> confined P (then_ p f).
Proof.
  intros Hp Hf. induction p as [r|T c k IH]; cbn in *; [apply Hf|]. destruct Hp as [Hw Hk]. split; [done|]. auto.
Qed.
Lemma confined_bind {A B} P (p : prog A) (f : A -> prog B) :
  confined P p -> (forall a, confined P (f a)) -> confined P (bind p f).
Proof. intros Hp Hf. apply confined_then; [done|]. by intros [a|e]. Qed.
Lemma confined_attempt {A} P (p : prog A) : confined P p -> confined P (attempt p).
Proof. intros Hp. by apply confined_then. Qed.
Lemma confined_fold {A S} P (body : S -> A -> prog S) l s :
  (forall s a, confined P (body s a)) -> confined P (fold_prog body s l).
Proof. intros Hb. revert s. induction l as [|a l IH]; intros s; cbn; [done|]. by apply confined_bind. Qed.
Lemma confined_for_each {A} P (body : A -> prog unit) l :
  (forall a, In a l -> confined P (body a)) -> confined P (for_each body l).
Proof.
  induction l as [|a l IH]; intros Hb; cbn; [done|]. apply confined_bind; [apply Hb; by left|].
  intros _. apply IH. intros b Hin. apply Hb. by right.
Qed.
Lemma confined_lift {A} P (r : DbResult A) : confined P (lift r).
Proof. done. Qed.
Lemma confined_ret {A} P (a : A) : confined P (ret a).
Proof. done. Qed.
Lemma confined_call {T} P (c : Call T) : Forall P (writes_to c) -> confined P (call c).
Proof. done. Qed.
End Confined.
#[global] Arguments confined : simpl never.
#[export] Hint Resolve confined_bind confined_attempt confined_fold confined_lift confined_ret read_only_confined : h5i.

(** ** Staging touches leases and segments only *)
Section StagingPaths.
Context `{Env} `{ArrowRows}.

Definition staging_path (q : Path) : Prop := data_path q \/ exists u id, q = staging_lease_path u id.

Lemma confined_flush w : confined staging_path (SegmentWriter.flush w).
Proof.
  unfold SegmentWriter.flush. destruct (sw_buffered w); [done|].
  apply confined_bind; [done|]. intros e. apply confined_bind; [by apply confined_call|]. intros id.
  apply confined_bind.
  - unfold SegmentWriter.record_staged. apply confined_bind; [by apply confined_call|]. intros n.
    apply confined_bind; [|done]. apply confined_call. constructor; [|constructor]. right. by eexists _, _.
  - intros w'. apply confined_bind; [|done]. apply confined_call. constructor; [|constructor]. left. by eexists _, _.
Qed.
Lemma confined_push w b : confined staging_path (SegmentWriter.push w b).
Proof.
  unfold SegmentWriter.push. destruct (_ =? _); [done|]. apply confined_bind; [done|]. intros w'.
  destruct (_ <=? _); [apply confined_flush|done].
Qed.
Lemma confined_push_all w bs : confined staging_path (SegmentWriter.push_all w bs).
Proof. apply confined_fold. intros. apply confined_push. Qed.
Lemma confined_new spec schema s : confined staging_path (SegmentWriter.new spec schema s).
Proof. apply confined_bind; [by apply confined_call|done]. Qed.
Lemma confined_finish w : confined staging_path (SegmentWriter.finish w).
Proof. apply confined_bind; [apply confined_flush|done]. Qed.

Lemma confined_dedup ms parent : confined (fun q => In q (map sg_path ms)) (dedup_segments ms parent).
Proof.
  apply confined_bind; [|done]. apply confined_for_each. intros q Hq%redundant_paths.
  apply confined_bind; [|done]. apply confined_attempt, confined_call. by constructor.
Qed.

Lemma staging_not_head q t : staging_path q -> q <> head_path t.
Proof. by intros [(u & v & ->)|(u & id & ->)]. Qed.
Lemma staging_not_manifest q t s : staging_path q -> q <> manifest_path t s.
Proof. by intros [(u & v & ->)|(u & id & ->)]. Qed.
Lemma staging_not_spec q t r : staging_path q -> q <> spec_path t r.
Proof. by intros [(u & v & ->)|(u & id & ->)]. Qed.
End StagingPaths.

(** ** The state *)
Section RowState.
Context `{Env} `{ArrowRows}.
Implicit Types (d : Disk) (m : gmap Path File) (g : SegmentMeta) (mf : VersionManifest).

(** What creating and evolving a table guarantee of its specs. *)
Record good_spec (t : Uuid) (r : Z) (spec : TableSpec) : Prop := {
  gs_table : ts_table_id spec = t;
  gs_revision : spec_path t (ts_schema_revision spec) = spec_path t r;
  gs_unsigned : 0 <= ts_schema_revision spec;
  gs_columns : ts_schema spec <> [];
  gs_names : NoDup (map fd_name (ts_schema spec));
}.

(** A segment of a manifest: on disk, unchanged, and of the schema of its revision. *)
Definition good_segment m (t : Uuid) g : Prop :=
  undamaged m g /\ data_path (sg_path g) /\
  exists spec, spec_at m t (sg_schema_revision g) spec /\ readable m (ts_schema spec) g /\
    times_bounded (ts_time_column spec) (ts_schema spec) m g.

Record rows_ok d : Prop := {
  ro_fresh : unused_ids d;
  ro_flushed : forall t, head_flushed d t;
  ro_specs : forall t r spec, spec_at (files d) t r spec -> good_spec t r spec;
  ro_segments : forall t s mf, stored (files d) t s mf -> Forall (good_segment (files d) t) (mf_segments mf);
}.

(** Reading only draws identifiers and time. *)
Definition read_from d d' : Prop := same_files d d' /\ (uuids d <= uuids d')%nat.
#[export] Instance read_from_preorder : PreOrder read_from.
Proof. split; [by split|]. intros a b c [? ?] [? ?]. split; [by etransitivity|lia]. Qed.

Lemma unused_later d d' : files d' = files d -> (uuids d <= uuids d')%nat -> unused_ids d -> unused_ids d'.
Proof. intros Hf Hu Hfr n u Hn. rewrite Hf. apply Hfr. lia. Qed.

Lemma rows_ok_read d d' : read_from d d' -> rows_ok d -> rows_ok d'.
Proof.
  intros [[Hf Hp] Hu] [H1 H2 H3 H4]. split; unfold head_flushed; rewrite ?Hf, ?Hp; auto. by eapply unused_later.
Qed.

Lemma reads_step {A B} ft d (p : prog A) (f : A -> prog B) (R : A -> Prop) d1
    (Q : DbResult B -> Disk -> Prop) (C : Disk -> Prop) :
  finds (files d) p R -> read_from d d1 -> (forall d', read_from d d' -> C d') ->
  (forall e d', read_from d d' -> Q (Err e) d') ->
  (forall a d', read_from d d' -> R a -> wpc ft (f a) d' Q C) -> wpc ft (bind p f) d1 Q C.
Proof.
  intros Hp Hd HC HE HO.
  assert (Hw : wpc ft p d1 (fun r d' => (same_files d1 d' /\ match r with Ok a => R a | Err _ => True end) /\ (uuids d1 <= uuids d')%nat)
    (fun d' => same_files d1 d' /\ (uuids d1 <= uuids d')%nat)).
  { apply (wpc_uuids ft p d1 (fun r d' => same_files d1 d' /\ match r with Ok a => R a | Err _ => True end) (same_files d1)).
    eapply finds_wpc; [by rewrite (proj1 (proj1 Hd))|..]; auto. }
  assert (Hread : forall d', same_files d1 d' /\ (uuids d1 <= uuids d')%nat -> read_from d d').
  { intros d' ?. by transitivity d1. }
  apply wpc_bind. eapply wpc_mono; [| |exact Hw]; cbv beta.
  - intros [a|e] d' [[Hs Ha] Hu]; [apply HO; auto|]. split; [apply HC|apply HE]; auto.
  - auto.
Qed.

(** *** The prologue of a write outside forks *)
Definition base_version m name (e : CatalogEntry) (spec : TableSpec) (h : HeadState) mf : Prop :=
  named m name e /\ head_at m (ce_table_id e) (hs_head h) /\ stored m (ce_table_id e) (hd_sequence (hs_head h)) mf /\
  spec_at m (ce_table_id e) (mf_schema_revision mf) spec.

Lemma finds_prologue m db name op opts : db_fork db = None ->
  finds m (Commit.write_prologue db name op opts)
    (fun r => let '(e, spec, h, mf) := r in base_version m name e spec h mf).
Proof.
  intros Hb. unfold Commit.write_prologue.
  eapply finds_bind; [apply finds_read_only; unfold Database.ensure_writable; by destruct (db_read_only db)|]. intros _ _.
  eapply finds_bind; [apply finds_read_only; unfold PolicyStore.load, Backend.get_opt, call; read_only_tac|]. intros pol _.
  eapply finds_bind; [by apply (finds_lift _ _ (fun _ => True))|]. intros _ _.
  eapply (finds_bind _ _ _ (named m name)).
  { unfold Commit.entry_for_write. rewrite Hb. eapply finds_bind; [by apply finds_entry|]. intros e He. by apply finds_ret. }
  intros e He. eapply finds_bind; [apply finds_head|]. intros h [Hh _].
  eapply finds_bind; [apply finds_read_only; by destruct (wo_expected_version opts); [destruct (_ =? _)|]|]. intros _ _.
  eapply finds_bind; [apply finds_manifest_at|]. intros mf Hmf. eapply finds_bind; [apply finds_spec|].
  intros spec Hs. by apply finds_ret.
Qed.

(** *** After the commit *)

(** The version a table is at. *)
Definition current d (t : Uuid) mf : Prop :=
  exists h, head_at (files d) t h /\ stored (files d) t (hd_sequence h) mf.

(** Which table a name is. *)
Definition same_names d d' : Prop := forall name, files d' !! catalog_entry_path name = files d !! catalog_entry_path name.
#[export] Instance same_names_preorder : PreOrder same_names.
Proof. split; [done|]. intros a b c E1 E2 name. by rewrite E2. Qed.
Lemma same_names_named d d' name e : same_names d d' -> named (files d') name e -> named (files d) name e.
Proof. intros Hs (f & Hf & Ho). exists f. by rewrite <- Hs. Qed.

(** A segment stays good while its object and the specs stay. *)
Lemma good_segment_kept m m' t g :
  (forall r, m' !! spec_path t r = m !! spec_path t r) -> m' !! sg_path g = m !! sg_path g ->
  good_segment m t g -> good_segment m' t g.
Proof.
  intros Hsp Hg ((f & Hf & Hc) & Hd & spec & (fs & Hfs & Ho) & (bs & Hb & Ha) & Ht). split; [|split; [done|]].
  - exists f. by rewrite Hg.
  - exists spec. split; [exists fs; by rewrite Hsp|]. split; [|by eapply times_kept].
    exists bs. unfold segment_batches in *. by rewrite Hg.
Qed.

Lemma manifest_table t t' s s' : manifest_path t s = manifest_path t' s' -> t = t'.
Proof. by intros [= -> _]. Qed.
End RowState.

(** ** Staging, committing, releasing *)
Section RowCommit.
Context `{Env} `{ArrowRowsSpec} `{!Inj (=) (=) new_uuid}.
Implicit Types (d : Disk) (g : SegmentMeta) (mf : VersionManifest).

Lemma not_in_two {A} (a b q : A) : q <> a -> q <> b -> q ∉ [a; b].
Proof. intros Ha Hb [?|[?|[]%elem_of_nil]%elem_of_cons]%elem_of_cons; done. Qed.

Lemma good_data m t g : good_segment m t g -> data_path (sg_path g).
Proof. by intros (_ & ? & _). Qed.

Lemma contents_kept (m m' : gmap Path File) segs :
  (forall g, In g segs -> m' !! sg_path g = m !! sg_path g) -> contents m' segs = contents m segs.
Proof.
  intros Hk. apply contents_same, Forall_Forall2_diag, List.Forall_forall. intros g Hin. by apply segment_rows_at, Hk.
Qed.

Lemma good_kept spec d d' t g : leased spec d d' -> unused_ids d -> good_segment (files d) t g ->
  files d' !! sg_path g = files d !! sg_path g.
Proof.
  intros Hl Hfr ((f & Hf & _) & Hd & _). rewrite Hf. apply (leased_keeps spec d d' _ f Hl Hfr Hf).
  intros id. by apply data_not_lease.
Qed.

Lemma stored_kept (m m' : gmap Path File) t s mf :
  m' !! manifest_path t s = m !! manifest_path t s -> stored m' t s mf -> stored m t s mf.
Proof. intros E (f & Hf & Ho). exists f. by rewrite <- E. Qed.

Lemma rows_ok_staged spec d d' :
  rows_ok d -> leased spec d d' -> untouched staging_path d d' -> unused_ids d' -> rows_ok d'.
Proof.
  intros Hok Hl Hu Hfr.
  assert (Hman : forall t s, files d' !! manifest_path t s = files d !! manifest_path t s).
  { intros t s. apply Hu. intros Hq. by apply (staging_not_manifest _ t s Hq). }
  assert (Hspec : forall t r, files d' !! spec_path t r = files d !! spec_path t r).
  { intros t r. apply Hu. intros Hq. by apply (staging_not_spec _ t r Hq). }
  split; [done|..].
  - intros t. destruct (Hu (head_path t)) as [_ [E|?]]; [by intros ?%(staging_not_head _ t)| |done].
    unfold head_flushed. rewrite E. apply Hok.
  - intros t r sp (f & Hf & Ho). apply (ro_specs d Hok). exists f. by rewrite <- Hspec.
  - intros t s mf Hst. apply (stored_kept (files d)) in Hst; [|done].
    eapply Forall_impl; [by apply (ro_segments d Hok t s)|]. intros g Hg. eapply (good_segment_kept (files d)); [done| |exact Hg].
    eapply good_kept; [done|apply Hok|exact Hg].
Qed.

(** A commit of good segments on a sound state. *)
Definition committed d (t : Uuid) (parent : HeadState) (m0 : VersionManifest) d' : Prop :=
  exists m, published (Some parent) m0 m /\ rows_ok d' /\ current d' t m /\ same_names d d' /\
    forall g, In g (mf_segments m0) -> files d' !! sg_path g = files d !! sg_path g.

Lemma rows_ok_committed d d' t m0 m parent :
  rows_ok d -> Forall (good_segment (files d) t) (mf_segments m0) -> published (Some parent) m0 m ->
  frame [head_path t; manifest_path t (mf_sequence m)] d d' -> (uuids d <= uuids d')%nat ->
  swapped d d' t m -> head_flushed d' t -> rows_ok d'.
Proof.
  intros Hok Hsegs Hm Hfr Hu Hsw Hfl.
  assert (Hdata : forall q, data_path q -> files d' !! q = files d !! q).
  { intros q (u & v & ->). by apply Hfr, not_in_two. }
  assert (Hspec : forall u r, files d' !! spec_path u r = files d !! spec_path u r).
  { intros u r. by apply Hfr, not_in_two. }
  split.
  - intros n u Hn. rewrite Hdata by by eexists _, _. apply Hok. lia.
  - intros u. destruct (decide (u = t)) as [->|Hne]; [done|]. unfold head_flushed.
    destruct (Hfr (head_path u)) as [_ [->|?]]; [|apply Hok|done]. apply not_in_two; [by intros [= ->]|done].
  - intros u r sp (f & Hf & Ho). apply (ro_specs d Hok). exists f. by rewrite <- Hspec.
  - intros u s mf Hst. assert (Hg : Forall (good_segment (files d) u) (mf_segments mf)).
    { destruct (decide (manifest_path u s = manifest_path t (mf_sequence m))) as [E|Hne].
      - pose proof (manifest_table _ _ _ _ E) as ->. destruct Hsw as (_ & (f & Hf & Ho) & _), Hst as (f' & Hf' & Ho').
        rewrite E, Hf in Hf'. injection Hf' as <-. assert (mf = m) as -> by congruence.
        by rewrite (published_segments _ _ _ Hm).
      - apply (ro_segments d Hok u s). eapply stored_kept; [|exact Hst]. by apply Hfr, not_in_two. }
    eapply Forall_impl; [exact Hg|]. intros g Hgg. eapply (good_segment_kept (files d)); [done| |exact Hgg].
    by apply Hdata, (good_data _ _ _ Hgg).
Qed.

Lemma wpc_commit_rows ft db name t parent m0 added known d :
  rows_ok d -> Forall (good_segment (files d) t) (mf_segments m0) ->
  wpc ft (Commit.commit_manifest db name t (Some parent) m0 added known) d
    (fun r d' => match r with Ok _ => committed d t parent m0 d' | Err _ => True end) (fun _ => True).
Proof.
  intros Hok Hsegs. unfold Commit.commit_manifest, Backend.meta_lock. apply wpc_bind.
  apply wpc_lock; [done| |by split].
  eapply wpc_mono; [| |apply (wpc_uuids ft _ d
    (fun r d' => match r with Ok _ => exists m, published (Some parent) m0 m /\
       commit_inv d t (mf_sequence m0) (published (Some parent) m0) d' /\ swapped d d' t m /\ head_flushed d' t | Err _ => True end)), wpc_commit];
    cbv beta; [|done|apply Hok| |done|eauto 10].
  - intros [r|e] d' [HQ Hu]; [|done]. destruct HQ as (m & Hm & [Hfr _] & Hsw & Hfl). exists m. split; [done|].
    assert (Hseq : mf_sequence m = mf_sequence m0) by (by destruct Hm as [ts ->]). rewrite <- Hseq in Hfr.
    split; [by eapply rows_ok_committed|]. split.
    + destruct Hsw as (Hh & Hmf & _). exists (Commit.head_of t m). by split.
    + split; [intros n; by apply Hfr, not_in_two|].
      intros g Hg. rewrite List.Forall_forall in Hsegs. destruct (good_data _ _ _ (Hsegs g Hg)) as (u & v & ->).
      by apply Hfr, not_in_two.
  - apply List.Forall_forall. intros p (g & <- & [Hg _]%filter_In)%in_map_iff.
    rewrite List.Forall_forall in Hsegs. by eapply good_data, Hsegs.
Qed.

(** Releasing a lease keeps everything else. *)
Lemma rows_ok_released d p u id :
  p = staging_lease_path u id -> rows_ok d -> rows_ok (effect (Delete p) d).2.
Proof.
  intros -> Hok. set (p := staging_lease_path u id). pose proof (effect_untouched (Delete p) (eq p) d ltac:(by constructor)) as Hu.
  set (d' := (effect (Delete p) d).2) in *.
  assert (Hk : forall q, q <> p -> files d' !! q = files d !! q) by (intros q Hq; by apply Hu).
  split.
  - intros n v Hn. rewrite Hk by done. apply Hok. unfold d' in Hn. cbn in Hn. by destruct (files d !! p).
  - intros t. unfold head_flushed. destruct (Hu (head_path t)) as [_ [->|?]]; [done|apply Hok|done].
  - intros t r sp (f & Hf & Ho). apply (ro_specs d Hok). exists f. by rewrite <- Hk.
  - intros t s mf Hst. pose proof (stored_kept _ _ t s mf (Hk (manifest_path t s) ltac:(done)) Hst) as Hst'.
    eapply Forall_impl; [exact (ro_segments d Hok t s mf Hst')|].
    intros g Hg. eapply (good_segment_kept (files d)); [|apply Hk; by apply data_not_lease, (good_data _ _ _ Hg)|exact Hg].
    intros r. by apply Hk.
Qed.

Lemma wpc_drop_lease ft d t mf lease (segs : list SegmentMeta) (P : option (list (list (option Cell))) -> Prop) :
  lease_form lease -> rows_ok d -> current d t mf -> Forall (good_segment (files d) t) segs -> P (contents (files d) segs) ->
  wpc ft (Commit.release_staging lease) d
    (fun r d' => r = Ok tt /\ rows_ok d' /\ current d' t mf /\ same_names d d' /\ P (contents (files d') segs)) (fun _ => True).
Proof.
  intros Hl Hok Hc Hs HP. destruct lease as [p|]; [|by apply wpc_ret]. destruct Hl as (u & id & ->).
  unfold Commit.release_staging. apply wpc_bind, wpc_attempt. set (p := staging_lease_path u id).
  assert (Hd' : rows_ok (effect (Delete p) d).2 /\ current (effect (Delete p) d).2 t mf /\
    same_names d (effect (Delete p) d).2 /\ P (contents (files (effect (Delete p) d).2) segs)).
  { pose proof (effect_untouched (Delete p) (eq p) d ltac:(by constructor)) as Hu.
    split; [by eapply rows_ok_released|]. split.
    - destruct Hc as (h & (f & Hf & Ho) & f' & Hf' & Ho'). exists h. split.
      + exists f. by rewrite (proj1 (Hu (head_path t) ltac:(done))).
      + exists f'. by rewrite (proj1 (Hu (manifest_path t (hd_sequence h)) ltac:(done))).
    - split; [intros n; by apply (Hu (catalog_entry_path n))|]. rewrite (contents_kept (files d)); [done|]. intros g Hg. rewrite List.Forall_forall in Hs.
      apply Hu. intros E. symmetry in E. revert E. by apply data_not_lease, (good_data _ _ _ (Hs g Hg)). }
  assert (Hdone : forall d', rows_ok d' /\ current d' t mf /\ same_names d d' /\ P (contents (files d') segs) ->
    True /\ wpc ft (ret tt) d' (fun r d' => r = Ok tt /\ rows_ok d' /\ current d' t mf /\ same_names d d' /\
      P (contents (files d') segs)) (fun _ => True)).
  { intros d' Hx. split; [done|]. by apply wpc_ret. }
  apply wpc_call; [done|done|by apply Hdone|]. intros _. split; by apply Hdone.
Qed.
End RowCommit.

(** ** What row mutations do to the rows

    [append], [write] and their transactions against the rows of the table: an append adds
    its rows after those that were there, a write replaces them by its own, sorted. *)
Import MergeProps.

Section Staged.
Context `{Env} `{ArrowRowsSpec} `{!Inj (=) (=) new_uuid}.
Implicit Types (d : Disk) (g : SegmentMeta) (mf parent : VersionManifest).

Abbreviation Row := (list (option Cell)) (only parsing).

(** What staging under [spec] adds to a sound state: good segments that hold [pushed]. *)
Record staged d (t : Uuid) parent (pushed : list RecordBatch) (ms : list SegmentMeta) d' : Prop := {
  st_ok : rows_ok d';
  st_names : same_names d d';
  st_parent : Forall (good_segment (files d') t) (mf_segments parent);
  st_same : forall g, good_segment (files d) t g -> files d' !! sg_path g = files d !! sg_path g;
  st_new : Forall (good_segment (files d') t) ms;
  st_rows : contents (files d') ms = Some (all_rows pushed);
}.

Lemma spec_kept d d' t r spec : untouched staging_path d d' -> spec_at (files d) t r spec -> spec_at (files d') t r spec.
Proof.
  intros Hu (f & Hf & Ho). exists f. rewrite (proj1 (Hu (spec_path t r) (fun Hq => staging_not_spec _ t r Hq eq_refl))). done.
Qed.

Lemma staged_of d d' t spec parent r pushed ms :
  collision_free -> rows_ok d -> untouched staging_path d d' -> spec_at (files d) t r spec ->
  Forall (good_segment (files d) t) (mf_segments parent) -> Forall (fits (ts_schema spec)) pushed ->
  staged_rows spec (ts_schema spec) d parent pushed ms d' -> staged d t parent pushed ms d'.
Proof.
  intros Hcf Hok Hu Hspec Hpar Hfit (Hl & Hfr & Hms & Hrows).
  destruct (ro_specs d Hok t r spec Hspec) as [Ht Hr _ Hne Hnd].
  assert (Hok' : rows_ok d') by (by eapply (rows_ok_staged spec d)).
  assert (Hkeep : forall g, good_segment (files d) t g -> good_segment (files d') t g).
  { intros g Hg. eapply (good_segment_kept (files d)); [|by eapply good_kept, Hg; [|apply Hok]|exact Hg].
    intros r'. apply Hu. intros Hq. by apply (staging_not_spec _ t r' Hq). }
  split; [done| |by eapply Forall_impl; [exact Hpar|]|by intros; eapply good_kept; [|apply Hok|]|..].
  - intros n. apply Hu. by intros [(u & v & E)|(u & v & E)].
  - rewrite List.Forall_forall in Hpar. eapply Forall_impl; [exact Hms|]. intros g [Hin|(Hund & Hd & Hrev & Hread)].
    + by apply Hkeep, Hpar.
    + split; [done|split; [done|]]. exists spec. rewrite Hrev. split; [|by apply Hread]. unfold spec_at. rewrite Hr. by eapply spec_kept.
  - apply Hrows; try done. eapply Forall_impl; [exact Hpar|]. intros g (? & ? & _). by split.
Qed.

(** Feeding a writer and finishing it. *)
Definition feeds ft d spec seq (P : list RecordBatch -> Prop) (feed : SegmentWriter -> prog SegmentWriter) : Prop :=
  (forall w, confined staging_path (feed w)) /\
  forall w d1, writer_inv spec (ts_schema spec) seq d d1 w [] -> wpc ft (feed w) d1
    (fun r d' => match r with Ok w' => exists pushed, writer_inv spec (ts_schema spec) seq d d' w' pushed /\ P pushed | Err _ => True end)
    (fun _ => True).

Lemma wpc_feed {B} ft d spec seq (P : list RecordBatch -> Prop) (feed : SegmentWriter -> prog SegmentWriter)
    (f : list SegmentMeta * bool * option Path -> prog B) (Q : DbResult B -> Disk -> Prop) :
  rows_ok d -> feeds ft d spec seq P feed -> (forall e d', Q (Err e) d') ->
  (forall out pushed d', P pushed -> stored_batches spec (ts_schema spec) seq d pushed out d' -> untouched staging_path d d' ->
     wpc ft (f out) d' Q (fun _ => True)) ->
  wpc ft (let! w := SegmentWriter.new spec (ts_schema spec) seq in
          let! w := feed w in let! out := SegmentWriter.finish w in f out) d Q (fun _ => True).
Proof.
  intros Hok [Hconf Hfeed] HE Hf. apply wpc_bind.
  eapply wpc_mono; [| |apply (wpc_confined _ _ staging_path); [apply confined_new|apply wpc_new, Hok]]; cbv beta; [|done].
  intros [w|e] d1 [Hi1 Hu1]; [|by split]. apply wpc_bind.
  eapply wpc_mono; [| |apply (wpc_confined _ _ staging_path); [apply Hconf|by apply Hfeed]]; cbv beta; [|done].
  intros [w2|e] d2 [Hi2 Hu2]; [|by split]. destruct Hi2 as (pushed & Hi2 & HPp). apply wpc_bind.
  eapply wpc_mono; [| |apply (wpc_confined _ _ staging_path); [apply confined_finish|by apply wpc_finish]]; cbv beta; [|done].
  intros [out|e] d3 [Hst Hu3]; [|by split]. apply (Hf out pushed d3 HPp Hst).
  eapply untouched_trans; [exact Hu1|]. by eapply untouched_trans.
Qed.

Lemma stored_lease d spec seq pushed ms s lease d' :
  stored_batches spec (ts_schema spec) seq d pushed (ms, s, lease) d' -> lease_form lease.
Proof. by intros (? & _ & _ & _ & _ & _ & _ & _ & Hl). Qed.

(** Staged without deduplication. *)
Lemma staged_plain d d' t spec parent seq r pushed ms s lease :
  collision_free -> rows_ok d -> untouched staging_path d d' -> spec_at (files d) t r spec ->
  Forall (good_segment (files d) t) (mf_segments parent) -> Forall (fits (ts_schema spec)) pushed ->
  stored_batches spec (ts_schema spec) seq d pushed (ms, s, lease) d' -> staged d t parent pushed ms d'.
Proof.
  intros Hcf Hok Hu Hspec Hpar Hfit (gs & Hg & Hh & _ & Hp & _ & Hl & Hfr & _). cbn [fst] in *.
  eapply staged_of; try done. split; [done|]. split; [done|].
  pose proof (deduped_rows spec (ts_schema spec) seq (fun g => g) d d' d' parent ms gs pushed) as Hd.
  rewrite map_id in Hd. apply Hd; try done; [apply Hok|..].
  - eapply Forall_impl; [exact Hp|]. intros g (n & _ & Hn). by exists n.
  - intros g _. by right.
Qed.

(** Staged and deduplicated against the parent. *)
Lemma wpc_stage {B} ft d t spec seq r parent (P : list RecordBatch -> Prop) (feed : SegmentWriter -> prog SegmentWriter)
    (f : list SegmentMeta -> Z -> option Path -> prog B) (Q : DbResult B -> Disk -> Prop) :
  collision_free -> rows_ok d -> spec_at (files d) t r spec -> Forall (good_segment (files d) t) (mf_segments parent) ->
  (forall pushed, P pushed -> Forall (fits (ts_schema spec)) pushed) -> feeds ft d spec seq P feed ->
  (forall e d', Q (Err e) d') ->
  (forall ms k lease pushed d', lease_form lease -> P pushed -> staged d t parent pushed ms d' ->
     wpc ft (f ms k lease) d' Q (fun _ => True)) ->
  wpc ft (let! w := SegmentWriter.new spec (ts_schema spec) seq in
          let! w := feed w in
          let! '(ms, _sorted, lease) := SegmentWriter.finish w in
          let! '(ms, k) := dedup_segments ms parent in f ms k lease) d Q (fun _ => True).
Proof.
  intros Hcf Hok Hspec Hpar HP Hfeed HE Hf. eapply wpc_feed; [done|exact Hfeed|done|].
  intros [[ms s] lease] pushed d3 HPp Hst Hu3. pose proof (stored_lease _ _ _ _ _ _ _ _ Hst) as Hlf.
  assert (Hdata : Forall (fun g => data_path (sg_path g)) ms).
  { destruct Hst as (gs & _ & _ & _ & Hp & _). eapply Forall_impl; [exact Hp|]. intros g (n & _ & ->). by eexists _, _. }
  apply wpc_bind.
  eapply wpc_mono; [| |apply (wpc_confined _ _ (fun q => In q (map sg_path ms))); [apply confined_dedup|
    apply (wpc_dedup spec (ts_schema spec) seq ft d d3 ms s lease pushed parent); [apply Hok|done]]]; cbv beta; [|done].
  intros [[ms' k]|e] d4 [Hsr Hu4]; [|by split]. apply (Hf ms' k lease pushed d4); [done|done|].
  eapply staged_of; try done; [|by apply HP]. eapply untouched_trans; [exact Hu3|].
  eapply untouched_mono; [|exact Hu4]. intros q (g & <- & Hg)%in_map_iff.
  left. rewrite List.Forall_forall in Hdata. by apply Hdata.
Qed.

(** Committing what was staged, and releasing the lease. *)
Lemma wpc_commit_staged ft db s d (P : option (list (list (option Cell))) -> Prop) :
  lease_form (sc_lease s) -> rows_ok d ->
  Forall (good_segment (files d) (ce_table_id (sc_entry s))) (mf_segments (sc_manifest s)) ->
  P (contents (files d) (mf_segments (sc_manifest s))) ->
  wpc ft (Commit.commit_staged db s) d
    (fun r d' => match r with
       | Ok _ => exists m, published (Some (sc_head s)) (sc_manifest s) m /\ rows_ok d' /\
           current d' (ce_table_id (sc_entry s)) m /\ same_names d d' /\ P (contents (files d') (mf_segments m))
       | Err _ => True end) (fun _ => True).
Proof.
  intros Hl Hok Hg HP. unfold Commit.commit_staged. apply wpc_bind, wpc_attempt.
  eapply wpc_mono; [| |by apply wpc_commit_rows]; cbv beta; [|done]. intros [res|e] d1 Hc; (split; [done|]).
  2: { apply wpc_bind. eapply (wpc_mono _ _ _ (fun _ _ => True) _ (fun _ => True)); [|done|by apply wpc_true].
       intros [u|e'] d2 _; [|done]. by apply wpc_bind, wpc_lift. }
  destruct Hc as (m & Hm & Hok1 & Hcur & Hn & Hk). apply wpc_bind.
  assert (Hg1 : Forall (good_segment (files d1) (ce_table_id (sc_entry s))) (mf_segments m)).
  { rewrite (published_segments _ _ _ Hm). destruct Hcur as (h & _ & Hst). 
    pose proof (ro_segments d1 Hok1 _ _ _ Hst) as Hgs. by rewrite (published_segments _ _ _ Hm) in Hgs. }
  eapply wpc_mono; [| |apply (wpc_drop_lease ft d1 (ce_table_id (sc_entry s)) m (sc_lease s) (mf_segments m) P)]; cbv beta; try done.
  - intros r d2 (-> & Hok2 & Hcur2 & Hn2 & HP2). apply wpc_bind, wpc_lift; [done|]. apply wpc_ret; [done|].
    exists m. split; [done|]. split; [done|]. split; [done|]. split; [by etransitivity|done].
  - rewrite (published_segments _ _ _ Hm), (contents_kept (files d)); [done|]. done.
Qed.
End Staged.

(** ** What validation accepts fits the schema of the table *)
Section Validated.
Context `{ArrowRows}.

Lemma index_of_lookup (s : Schema) i f : NoDup (map fd_name s) -> s !! i = Some f -> TableSpec.index_of s (fd_name f) = Some i.
Proof.
  intros Hnd Hi. rewrite <- (take_drop_middle s i f Hi) in Hnd |- *. rewrite index_of_app.
  - by rewrite length_take_le; [|apply lookup_lt_Some in Hi; lia].
  - rewrite map_app in Hnd. apply NoDup_app in Hnd as (_ & Hd & _). intros Hin. apply (Hd _ Hin). by left.
Qed.

Lemma field_matches_fits b want have c i :
  NoDup (map fd_name (rb_schema b)) -> rb_schema b !! i = Some have -> rb_columns b !! i = Some c ->
  column_fits (rb_rows b) have c -> Validate.field_matches b want have = Ok tt ->
  fd_name want = fd_name have /\ column_fits (rb_rows b) want c.
Proof.
  intros Hnd Hi Hc (Ht & Hl & Hn). unfold Validate.field_matches.
  destruct (String.eqb_spec (fd_name want) (fd_name have)) as [En|]; [|done]. cbn.
  case_bool_decide as Et; [|done]. cbn. destruct (fd_nullable want) eqn:Ew; cbn.
  { intros _. split; [done|]. split; [congruence|]. split; [done|by left]. }
  destruct (fd_nullable have) eqn:Eh; cbn.
  - unfold column_by_name. rewrite (index_of_lookup _ i have Hnd Hi), Hc. cbn.
    destruct (0 <? null_count c) eqn:Ez; [done|]. intros _. split; [done|]. split; [congruence|].
    split; [done|]. right. by apply no_nulls.
  - intros _. split; [done|]. split; [congruence|]. split; [done|]. right. by destruct Hn.
Qed.

Lemma batch_schema_fits schema b :
  NoDup (map fd_name schema) -> valid_batch b -> Validate.batch_schema schema b = Ok tt -> fits schema b.
Proof.
  intros Hnd [_ Hv]. unfold Validate.batch_schema.
  destruct (Nat.eqb_spec (length (rb_schema b)) (length schema)) as [El|]; [|done]. cbn. intros Hm.
  apply (foldr_res_each (fun f : Field * Field => Validate.field_matches b f.1 f.2)) in Hm.
  assert (Hnames : map fd_name (rb_schema b) = map fd_name schema).
  { clear -Hm El. revert El Hm. generalize (rb_schema b). intros s. revert schema.
    induction s as [|f s IH]; intros [|w schema] El; cbn; try done. intros [Hf Hm]%Forall_cons.
    cbn in El. rewrite (IH schema); [|lia|done]. f_equal. unfold Validate.field_matches in Hf. cbn in Hf.
    by destruct (String.eqb_spec (fd_name w) (fd_name f)). }
  pose proof (Forall2_length _ _ _ Hv) as El2. split; [done|]. apply Forall2_same_length_lookup_2; [congruence|].
  intros i want c Hw Hc. destruct (rb_schema b !! i) as [have|] eqn:Hh.
  2: { apply lookup_ge_None in Hh. apply lookup_lt_Some in Hw. lia. }
  eapply field_matches_fits; [by rewrite Hnames|exact Hh|exact Hc|by eapply Forall2_lookup_lr|].
  rewrite List.Forall_forall in Hm. apply (Hm (want, have)). apply list_elem_of_In, list_elem_of_lookup. exists i.
  clear -Hw Hh. revert i schema Hw Hh. generalize (rb_schema b). intros s. 
  induction s as [|f s IH]; intros [|i] [|w schema]; cbn; try done; [by intros [= ->] [= ->]|apply IH].
Qed.

Lemma validated_fits schema bs u :
  NoDup (map fd_name schema) -> Forall valid_batch bs -> Validate.validate_batches_schema schema bs = Ok u ->
  Forall (fits schema) bs.
Proof.
  intros Hnd Hv Hok. apply (foldr_res_each (Validate.batch_schema schema)) in Hok.
  rewrite !List.Forall_forall in *. intros b Hb. apply batch_schema_fits; auto.
Qed.

Lemma all_rows_app bs bs' : all_rows (bs ++ bs') = all_rows bs ++ all_rows bs'.
Proof. unfold all_rows. by rewrite map_app, concat_app. Qed.
End Validated.

(** ** Feeding the writer *)
Section Feeding.
Context `{Env} `{ArrowRowsSpec} `{!Inj (=) (=) new_uuid}.
Context (spec : TableSpec) (schema : Schema) (seq_no : Z).
Implicit Types (d : Disk) (w : SegmentWriter).
Local Abbreviation inv := (writer_inv spec schema seq_no) (only parsing).

Lemma wpc_bind_ext {A B} ft (p : prog A) (f g : A -> prog B) d (Q : DbResult B -> Disk -> Prop) C :
  (forall a d', wpc ft (f a) d' Q C -> wpc ft (g a) d' Q C) -> wpc ft (bind p f) d Q C -> wpc ft (bind p g) d Q C.
Proof.
  intros Hfg. revert d. induction p as [[a|e]|T c k IH]; intros d; [apply Hfg|done|].
  unfold bind in *. cbn. intros (HC & Hn & Hb & Ha). split; [done|]. split; [by apply IH|]. split; intros Hft; apply IH; auto.
Qed.

(** Feeding chunk by chunk is feeding all the chunks. *)
Lemma push_chunks_all ft fuel m cs w d (Q : DbResult SegmentWriter -> Disk -> Prop) C :
  Merger.all_chunks fuel m = Ok cs -> wpc ft (SegmentWriter.push_all w cs) d Q C ->
  wpc ft (Writes.push_chunks fuel m w) d Q C.
Proof.
  revert m cs w d. induction fuel as [|fuel IH]; intros m cs w d; cbn [Merger.all_chunks Writes.push_chunks].
  { by intros [= <-]. }
  destruct (Merger.next_chunk m) as [[[b|] m']|e]; [|by intros [= <-]|done].
  destruct (Merger.all_chunks fuel m') as [bs|] eqn:E; [|done]. intros [= <-].
  apply (wpc_bind_ext ft (SegmentWriter.push w b)). intros w' d'. by apply IH.
Qed.

Lemma confined_push_chunks fuel m w : confined staging_path (Writes.push_chunks fuel m w).
Proof.
  revert m w. induction fuel as [|fuel IH]; intros m w; cbn [Writes.push_chunks]; [done|].
  apply confined_bind; [done|]. intros [[b|] m']; [|done]. apply confined_bind; [apply confined_push|auto].
Qed.
Lemma confined_push_sorted w bs key : confined staging_path (Writes.push_sorted w bs key).
Proof.
  unfold Writes.push_sorted. case_bool_decide; [apply confined_push_all|].
  apply confined_bind; [done|]. intros sorted. apply confined_bind; [done|]. intros m. apply confined_push_chunks.
Qed.

Lemma true_sorted {A} (l : list A) : StronglySorted (fun _ _ => True) l.
Proof. induction l; constructor; [done|]. by apply List.Forall_forall. Qed.

(** The rows a writer was fed with, in the order of the key if there is one. *)
Definition in_key_order (s : Schema) (key : list string) (rows : list (list (option Cell))) : Prop :=
  key <> [] -> StronglySorted (fun r r' => keys_le (row_key s key r) (row_key s key r')) rows.

Lemma stable_sort_order s key rows : in_key_order s key (stable_sort (row_key s key) rows).
Proof.
  intros _. assert (Hk : Forall (fun r => length (row_key s key r) = length key) rows).
  { apply List.Forall_forall. intros r _. apply length_map. }
  pose proof (stable_sort_sorted (row_key s key) _ _ rows Hk (true_sorted rows)) as Hs.
  eapply StronglySorted_mono, Hs. intros r r' [E|[E _]]; unfold keys_le; by rewrite E.
Qed.

Definition fed s key (bs more : list RecordBatch) : Prop :=
  Forall (fits schema) more /\ all_rows more ≡ₚ all_rows bs /\ in_key_order s key (all_rows more).

Lemma wpc_push_sorted ft d0 d w pushed bs key s :
  inv d0 d w pushed -> Forall (uniform s) bs -> Forall (fits schema) bs ->
  wpc ft (Writes.push_sorted w bs key) d
    (fun r d' => match r with Ok w' => exists more, inv d0 d' w' (pushed ++ more) /\ fed s key bs more | Err _ => True end)
    (fun _ => True).
Proof.
  intros Hi Hu Hf. unfold Writes.push_sorted. case_bool_decide as Ek.
  - eapply wpc_mono; [| |by apply (wpc_push_all spec schema seq_no ft d0)]; cbv beta; [|done]. intros [w'|e] d' Hw; [|done].
    eexists. split; [exact Hw|]. split; [|split; [|by intros Hne]].
    + rewrite !List.Forall_forall in *. intros b [Hb _]%filter_In. auto.
    + by rewrite nonempty_rows.
  - apply wpc_bind, wpc_lift; [done|]. destruct (SegmentSort.sort_each_batch bs key) as [sorted|] eqn:Es; [|done].
    destruct (sort_each_spec s key bs sorted Hu Es) as (Hu' & Hp & Hs).
    apply wpc_bind, wpc_lift; [done|]. destruct (Merger.new _ _ _) as [m|] eqn:Em; [|done].
    assert (Hsn : Forall (sorted_by key) (List.filter SegmentSort.nonempty sorted)).
    { specialize (Hs Ek). rewrite !List.Forall_forall in *. intros b [Hb _]%filter_In. auto. }
    destruct (merge_sorts s sorted key _ m Hu' Hsn Em) as (cs & Hcs & Hall & Hrows).
    apply (push_chunks_all ft _ m cs); [exact Hcs|].
    eapply wpc_mono; [| |by apply (wpc_push_all spec schema seq_no ft d0)]; cbv beta; [|done]. intros [w'|e] d' Hw; [|done].
    assert (Hperm : all_rows cs ≡ₚ all_rows bs) by (by rewrite Hrows, stable_sort_perm).
    eexists. split; [exact Hw|]. split; [|split].
    + apply List.Forall_forall. intros c [Hc _]%filter_In. rewrite List.Forall_forall in Hall. destruct (Hall c Hc) as [Huc Hrc].
      assert (Hin : forall r, In r (table_rows c) -> exists b, In b bs /\ In r (table_rows b)).
      { intros r Hr. assert (Hir : In r (all_rows bs)).
        { apply list_elem_of_In. rewrite <- Hperm. apply list_elem_of_In, in_concat. exists (table_rows c).
          split; [by apply in_map|done]. }
        apply in_concat in Hir as (l & (b & <- & Hb)%in_map_iff & Hrl). by exists b. }
      destruct (Hin (row_at (rb_columns c) 0)) as (b0 & Hb0 & _); [apply in_map, in_seq; lia|].
      rewrite List.Forall_forall in Hf, Hu. destruct (agreed_types s schema b0 (Hu b0 Hb0) (Hf b0 Hb0)) as [Ht Hn].
      apply (rows_fit s); [done..|].
      apply List.Forall_forall. intros r Hr. destruct (Hin r Hr) as (b & Hb & Hrb).
      pose proof (fits_rows schema b (Hf b Hb)) as Hfr. rewrite List.Forall_forall in Hfr. auto.
    + by rewrite nonempty_rows.
    + rewrite nonempty_rows, Hrows. apply stable_sort_order.
Qed.
End Feeding.
