(* ===== verification/RowProps.v ===== *)
(** * The rows of a table through its mutations

    Compaction keeps the rows, an append adds its own behind them, a write replaces them by
    its own in the order of the key, a range rewrite changes the range and nothing else. *)
From S2P Require Export RowWrites.
Import MergeProps.

Section RowProps.
Context `{Env} `{ArrowRowsSpec} `{!Inj (=) (=) new_uuid}.
Implicit Types (d : Disk) (g : SegmentMeta) (mf parent : VersionManifest) (db : Database).

Abbreviation Rows := (list (list (option Cell))) (only parsing).

(** Every segment of the current version has the current schema. *)
Definition one_revision d : Prop := forall t mf, current d t mf ->
  Forall (fun g => sg_schema_revision g = mf_schema_revision mf) (mf_segments mf).

(** One table moved from version [parent] to [m]: its rows changed as [rel] says. *)
Record changed (name : string) (rel : Rows -> Rows -> Prop) d d' : Prop := {
  ch_ok : rows_ok d';
  ch_names : same_names d d';
  ch_rows : exists e parent m rows rows',
    named (files d) name e /\ current d (ce_table_id e) parent /\ current d' (ce_table_id e) m /\
    contents (files d) (mf_segments parent) = Some rows /\
    contents (files d') (mf_segments m) = Some rows' /\ rel rows rows';
}.

Lemma named_fun m name e e' : named m name e -> named m name e' -> e = e'.
Proof. intros (f & Hf & Ho) (f' & Hf' & Ho'). congruence. Qed.
Lemma current_fun d t mf mf' : current d t mf -> current d t mf' -> mf = mf'.
Proof.
  intros (h & (f & Hf & Ho) & f2 & Hf2 & Ho2) (h' & (f' & Hf' & Ho') & f2' & Hf2' & Ho2').
  assert (h = h') as -> by congruence. congruence.
Qed.

Lemma changed_mono name (R R' : Rows -> Rows -> Prop) d d' :
  (forall r r', R r r' -> R' r r') -> changed name R d d' -> changed name R' d d'.
Proof.
  intros HR [Hok Hn (e & p & m & r & r' & ? & ? & ? & ? & ? & Hr)]. split; [done|done|]. exists e, p, m, r, r'. auto 10.
Qed.
Lemma changed_then name (R1 R2 : Rows -> Rows -> Prop) d d1 d2 : changed name R1 d d1 -> changed name R2 d1 d2 ->
  changed name (fun r r2 => exists r1, R1 r r1 /\ R2 r1 r2) d d2.
Proof.
  intros [_ Hn (e & p & m & r & r1 & He & Hp & Hm & Hr & Hr1 & HR)] [Hok Hn2 (e' & p' & m' & r1' & r2 & He' & Hp' & Hm' & Hr1' & Hr2 & HR2)].
  pose proof (same_names_named _ _ _ _ Hn He') as He2. pose proof (named_fun _ _ _ _ He He2) as <-.
  pose proof (current_fun _ _ _ _ Hm Hp') as <-. assert (r1' = r1) as -> by congruence.
  split; [done|by etransitivity|]. exists e, p, m', r, r2. eauto 10.
Qed.
Lemma changed_from name (R : Rows -> Rows -> Prop) d d1 d' : same_files d d1 -> changed name R d1 d' -> changed name R d d'.
Proof.
  intros [Hf Hp] [Hok Hn (e & p & m & r & r' & He & (h & Hh & Hs) & Hm & Hr & Hr' & HR)]. rewrite Hf in *.
  split; [done|intros n; by rewrite Hn, Hf|]. exists e, p, m, r, r'. split; [done|]. split; [by exists h|]. auto.
Qed.

Lemma good_contents m t segs : Forall (good_segment m t) segs -> exists rows, contents m segs = Some rows.
Proof.
  unfold contents. induction 1 as [|g segs Hg _ [rows IH]]; [by exists []|].
  destruct Hg as (_ & _ & spec & _ & (bs & Hb & _) & _).
  assert (Hr : segment_rows m g = Some (all_rows bs)) by (unfold segment_rows; by rewrite Hb).
  cbn. rewrite Hr. cbn. destruct (mapM _ segs); [|done]. by eexists.
Qed.

Lemma spec_at_fun m t r s s' : spec_at m t r s -> spec_at m t r s' -> s = s'.
Proof. intros (f & Hf & Ho) (f' & Hf' & Ho'). congruence. Qed.

Lemma base_current d name e spec h mf : base_version (files d) name e spec h mf -> current d (ce_table_id e) mf.
Proof. intros (_ & Hh & Hs & _). by exists (hs_head h). Qed.
Lemma base_good d name e spec h mf : rows_ok d -> base_version (files d) name e spec h mf ->
  Forall (good_segment (files d) (ce_table_id e)) (mf_segments mf) /\
  spec_at (files d) (ce_table_id e) (mf_schema_revision mf) spec /\
  good_spec (ce_table_id e) (mf_schema_revision mf) spec.
Proof.
  intros Hok (_ & _ & Hst & Hsp). split; [by eapply ro_segments|]. split; [done|]. by apply (ro_specs d Hok).
Qed.
Lemma base_read d d' name e spec h mf : same_files d d' -> base_version (files d) name e spec h mf -> base_version (files d') name e spec h mf.
Proof. by intros [-> _]. Qed.
Lemma read_from_names d d' : read_from d d' -> same_names d d'.
Proof. intros [[E _] _] n. by rewrite E. Qed.

(** The reading prologue of a mutation. *)
Lemma prologue_step {B} ft d db name op opts (f : CatalogEntry * TableSpec * HeadState * VersionManifest -> prog B) d1
    (Q : DbResult B -> Disk -> Prop) :
  db_fork db = None -> rows_ok d -> read_from d d1 -> (forall e d', Q (Err e) d') ->
  (forall e spec h mf d', read_from d d' -> rows_ok d' -> base_version (files d') name e spec h mf ->
     wpc ft (f (e, spec, h, mf)) d' Q (fun _ => True)) ->
  wpc ft (bind (Commit.write_prologue db name op opts) f) d1 Q (fun _ => True).
Proof.
  intros Hb Hok Hr HE Hf. eapply reads_step; [by apply finds_prologue|done|done|done|].
  intros [[[e spec] h] mf] d' Hrd Hbase. apply Hf; [done|by eapply rows_ok_read|]. by rewrite (proj1 (proj1 Hrd)).
Qed.

(** Loading and enforcing the data policy only reads. *)
Lemma read_only_policy t batches : read_only (DataPolicyStore.enforce_data_policy t batches).
Proof.
  unfold DataPolicyStore.enforce_data_policy, DataPolicyStore.load, Backend.get_opt, call. read_only_tac.
Qed.

(** The checks of the input, after the prologue. *)
Lemma checked_step {B} ft d name e spec h mf batches (f : prog B) d2 (Q : DbResult B -> Disk -> Prop) :
  read_from d d2 -> rows_ok d2 -> base_version (files d2) name e spec h mf -> Forall valid_batch batches ->
  (forall er d', Q (Err er) d') ->
  (forall d', read_from d d' -> rows_ok d' -> base_version (files d') name e spec h mf ->
     Forall (fits (ts_schema spec)) batches -> wpc ft f d' Q (fun _ => True)) ->
  wpc ft (do! lift (Validate.validate_batches_schema (ts_schema spec) batches) in
          do! lift (Validate.validate_time_column spec batches) in
          do! DataPolicyStore.enforce_data_policy (ce_table_id e) batches in f) d2 Q (fun _ => True).
Proof.
  intros H2 Hok2 Hbase Hv HE Hf. destruct (base_good _ _ _ _ _ _ Hok2 Hbase) as (_ & _ & Hgs).
  apply wpc_bind, wpc_lift; [done|]. destruct (Validate.validate_batches_schema _ _) as [u|] eqn:Ev; [|done].
  pose proof (validated_fits _ _ _ (gs_names _ _ _ Hgs) Hv Ev) as Hfit.
  apply wpc_bind, wpc_lift; [done|]. destruct (Validate.validate_time_column _ _); [|done].
  eapply (reads_step _ d2 _ _ (fun _ => True)); [apply finds_read_only, read_only_policy|done..|]. intros _ d3 H3 _.
  apply Hf; [by transitivity d2|by eapply rows_ok_read|exact (base_read _ _ _ _ _ _ _ (proj1 H3) Hbase)|done].
Qed.

Lemma child_segments mf s op opts spec l : mf_segments (child_manifest mf s op opts spec <| mf_segments := l |>) = l.
Proof. done. Qed.

(** ** Appending, when the table has room *)

Definition appended (batches : list RecordBatch) (rows rows' : Rows) : Prop := rows' = rows ++ all_rows batches.

Lemma push_all_feeds ft d spec seq bs : Forall (fits (ts_schema spec)) bs ->
  feeds ft d spec seq (eq (List.filter SegmentSort.nonempty bs)) (fun w => SegmentWriter.push_all w bs).
Proof.
  intros Hf. split; [intros w; apply confined_push_all|]. intros w d1 Hi.
  eapply wpc_mono; [| |by apply (wpc_push_all spec (ts_schema spec) seq ft d)]; cbv beta; [|done].
  intros [w'|e] d' Hw; [|done]. by eexists.
Qed.

Lemma nonempty_fits schema bs : Forall (fits schema) bs -> Forall (fits schema) (List.filter SegmentSort.nonempty bs).
Proof. rewrite !List.Forall_forall. intros Hf b [Hb _]%filter_In. auto. Qed.

(** What staging hands over to the commit. *)
Definition then_commit ft db (Q : DbResult CommitResult -> Disk -> Prop) (r : DbResult StagedCommit) (d' : Disk) : Prop :=
  match r with
  | Ok a => wpc ft (Commit.commit_staged db a) d' Q (fun _ => True)
  | Err e => True /\ Q (Err e) d'
  end.

(** Committing what was staged: the rows the segments hold are those of the table. *)
Lemma wpc_then_commit ft db name (R : Rows -> Rows -> Prop) e spec h mf d d1 d2 seq op opts segs added k lease known rows rows'
    (Q : DbResult CommitResult -> Disk -> Prop) :
  same_files d d1 -> base_version (files d1) name e spec h mf -> contents (files d1) (mf_segments mf) = Some rows ->
  lease_form lease -> rows_ok d2 -> same_names d1 d2 -> Forall (good_segment (files d2) (ce_table_id e)) segs ->
  contents (files d2) segs = Some rows' -> R rows rows' ->
  (forall e d', Q (Err e) d') -> (forall r d', changed name R d d' -> Q (Ok r) d') ->
  wpc ft (ret (mkStagedCommit e h (child_manifest mf seq op opts spec <| mf_segments := segs |>) added k lease known)) d2
    (then_commit ft db Q) (fun _ => True).
Proof.
  intros Hs Hbase Hrows Hlf Hok2 Hn2 Hg2 Hrows2 HR HE HO. apply wpc_ret; [done|]. unfold then_commit.
  eapply wpc_mono; [| |eapply (wpc_commit_staged ft db _ d2 (eq (Some rows')))]; cbv beta; [|done|done|done|..].
  - intros [res|er] d3 Hc; [|apply HE]. destruct Hc as (m & _ & Hok3 & Hcur & Hn & Hc). apply HO.
    apply (changed_from _ _ _ d1 _ Hs). split; [done|by transitivity d2|].
    exists e, mf, m, rows, rows'. split; [apply Hbase|]. split; [by eapply base_current|]. done.
  - cbn [sc_manifest sc_entry]. by rewrite child_segments.
  - cbn [sc_manifest]. by rewrite child_segments.
Qed.

(** Appending with room in the manifest. *)
Lemma wpc_append_here ft db name batches opts e spec h mf d d1 (Q : DbResult CommitResult -> Disk -> Prop) :
  collision_free -> rows_ok d1 -> same_files d d1 -> base_version (files d1) name e spec h mf ->
  Forall (fits (ts_schema spec)) batches ->
  (forall e d', Q (Err e) d') -> (forall r d', changed name (appended batches) d d' -> Q (Ok r) d') ->
  wpc ft (let! w := SegmentWriter.new spec (ts_schema spec) (hd_sequence (hs_head h) + 1) in
          let! w := SegmentWriter.push_all w batches in
          let! '(segments, _sorted, lease) := SegmentWriter.finish w in
          let! '(segments, deduped) := dedup_segments segments mf in
          ret (mkStagedCommit e h (child_manifest mf (hd_sequence (hs_head h) + 1) OpAppend opts spec
                 <| mf_segments := mf_segments mf ++ segments |>)
            (zlen segments - deduped) deduped lease (Writes.known_inputs spec mf))) d1 (then_commit ft db Q) (fun _ => True).
Proof.
  intros Hcf Hok1 Hs Hbase Hfit HE HO. destruct (base_good _ _ _ _ _ _ Hok1 Hbase) as (Hg & Hsp & Hgs).
  pose proof (push_all_feeds ft d1 spec (hd_sequence (hs_head h) + 1) batches Hfit) as Hfeed.
  eapply (wpc_stage ft d1 (ce_table_id e) spec _ _ mf _ _ _ (then_commit ft db Q) Hcf Hok1 Hsp Hg); [|exact Hfeed|by split|].
  { intros pushed <-. by apply nonempty_fits. }
  intros ms k lease pushed d2 Hlf <- Hst. destruct (good_contents _ _ _ Hg) as [rows Hrows].
  assert (Hrows2 : contents (files d2) (mf_segments mf) = Some rows).
  { rewrite (contents_kept (files d1)); [done|]. intros g Hin. apply (st_same _ _ _ _ _ _ Hst).
    rewrite List.Forall_forall in Hg. by apply Hg. }
  eapply (wpc_then_commit ft db name (appended batches) e spec h mf d d1 d2); try done; try apply Hst.
  - apply Forall_app. split; apply Hst.
  - rewrite contents_app, Hrows2, (st_rows _ _ _ _ _ _ Hst). cbn. by rewrite nonempty_rows.
Qed.

Lemma wpc_append_attempt ft db name batches opts auto again d d1 (Q : DbResult CommitResult -> Disk -> Prop) :
  collision_free -> db_fork db = None -> rows_ok d -> read_from d d1 -> Forall valid_batch batches ->
  (forall e d', Q (Err e) d') -> (forall r d', changed name (appended batches) d d' -> Q (Ok r) d') ->
  (auto = true -> forall d', read_from d d' -> rows_ok d' ->
     wpc ft (do! Writes.compact db name (mkWriteOptions None None [] None) in again) d' (then_commit ft db Q) (fun _ => True)) ->
  wpc ft (Writes.append_attempt db name batches opts auto again) d1 (then_commit ft db Q) (fun _ => True).
Proof.
  intros Hcf Hb Hok Hr Hv HE HO Hagain. assert (HE1 : forall e d', then_commit ft db Q (Err e) d') by (by split).
  unfold Writes.append_attempt. eapply (prologue_step ft d); try done. intros e spec h mf d2 H2 Hok2 Hbase. cbv zeta.
  eapply (checked_step ft d); try done. intros d3 H3 Hok3 Hbase3 Hfit.
  destruct (_ <=? _).
  - eapply (reads_step _ d3 _ _ (fun can => can = true -> auto = true)); [|done..|].
    { unfold Writes.may_compact. destruct auto; cbn; [|by apply finds_ret]. apply read_only_finds; [done|].
      destruct (wo_expected_version opts); [done|]. unfold PolicyStore.load, Backend.get_opt, call. read_only_tac. }
    intros can d4 H4 Hcan. destruct can; cbn; [|done].
    apply (Hagain (Hcan eq_refl)); [by transitivity d3|by eapply rows_ok_read].
  - apply wpc_bind, wpc_lift; [done|]. destruct (Writes.check_append_order _ _ _ _); [|done].
    apply (wpc_append_here ft db name batches opts e spec h mf d d3 Q); try done. apply H3.
Qed.

(** ** Compaction *)

(** Grouping loses no segment. *)
Definition grouped (g : Writes.Grouping) : list SegmentMeta :=
  Writes.gr_untouched g ++ Writes.gr_current g ++ concat (Writes.gr_groups g).

Lemma close_current_spec (g : Writes.Grouping) : grouped (Writes.close_current g) ≡ₚ grouped g /\ Writes.gr_current (Writes.close_current g) = [].
Proof.
  unfold Writes.close_current, grouped. destruct (Nat.ltb _ _); cbn; (split; [|done]).
  - rewrite concat_app. cbn. rewrite app_nil_r. f_equiv. apply Permutation_app_comm.
  - by rewrite <- app_assoc.
Qed.

Lemma group_step_spec a b (g : Writes.Grouping) seg : grouped (Writes.group_step a b g seg) ≡ₚ seg :: grouped g.
Proof.
  unfold Writes.group_step. destruct (_ <? _); cbv zeta.
  - assert (Hs : grouped (Writes.mkGrouping (Writes.gr_current g ++ [seg]) (Writes.gr_bytes g + sg_bytes seg)
      (Writes.gr_untouched g) (Writes.gr_groups g)) ≡ₚ seg :: grouped g).
    { unfold grouped. cbn. rewrite <- app_assoc. cbn. rewrite <- !Permutation_middle. done. }
    destruct (_ <=? _); [|done]. by rewrite (proj1 (close_current_spec _)).
  - destruct (close_current_spec g) as [Hp Hc]. rewrite <- Hp. unfold grouped. cbn. rewrite Hc. cbn.
    rewrite <- app_assoc. cbn. by rewrite <- Permutation_middle.
Qed.

Lemma group_segments_spec target inherited ordered :
  Writes.gr_untouched (Writes.group_segments target inherited ordered) ++
    concat (Writes.gr_groups (Writes.group_segments target inherited ordered)) ≡ₚ inherited ++ ordered.
Proof.
  unfold Writes.group_segments. cbv zeta. set (fin := fold_left _ _ _).
  destruct (close_current_spec fin) as [Hp Hc]. unfold grouped in Hp at 1. rewrite Hc in Hp. cbn in Hp. rewrite Hp.
  assert (Hf : forall l (g : Writes.Grouping), grouped (fold_left (Writes.group_step (Z.max (Z.max (target / 3) 1 / 2) 1) (Z.max (target / 3) 1)) l g) ≡ₚ grouped g ++ l).
  { induction l as [|x l IH]; intros g; cbn; [by rewrite app_nil_r|]. rewrite IH, group_step_spec. cbn. by rewrite <- Permutation_middle. }
  unfold fin. rewrite Hf. unfold grouped. cbn. by rewrite app_nil_r.
Qed.

Lemma filter_split_perm {A} (f : A -> bool) l : List.filter (fun x => negb (f x)) l ++ List.filter f l ≡ₚ l.
Proof.
  induction l as [|x l IH]; cbn; [done|]. destruct (f x); cbn; [|by rewrite IH]. rewrite <- Permutation_middle. by rewrite IH.
Qed.

Lemma own_and_inherited_spec t mf owned inherited :
  Writes.own_and_inherited t mf = (owned, inherited) -> inherited ++ owned ≡ₚ mf_segments mf.
Proof.
  intros [= <- <-]. apply (filter_split_perm (fun g => Forks.is_own_segment (table_prefix t) (sg_path g))).
Qed.

Lemma in_time_order_perm l : Writes.in_time_order l ≡ₚ l.
Proof. apply (hof_list_spec Writes.time_key l). Qed.

(** Reading a group of segments. *)
Lemma finds_read_group m group : finds m (Writes.read_group group)
  (fun bs => exists bss, Forall2 (fun g b => segment_batches m g = Some b) group bss /\ bs = concat bss).
Proof.
  unfold Writes.read_group. assert (Hgen : forall acc, finds m (fold_prog (fun acc seg =>
    let! bs := SegmentReader.read_segment seg None None in ret (acc ++ bs)) acc group)
    (fun bs => exists bss, Forall2 (fun g b => segment_batches m g = Some b) group bss /\ bs = acc ++ concat bss)).
  2: { exact (Hgen []). }
  induction group as [|g group IH]; intros acc; cbn [fold_prog].
  - apply finds_ret. exists []. split; [constructor|by rewrite app_nil_r].
  - eapply finds_bind with (R := fun acc' => exists b, segment_batches m g = Some b /\ acc' = acc ++ b).
    + eapply finds_bind; [apply finds_read_segment|]. intros bs Hbs. apply finds_ret. by exists bs.
    + intros acc' (b & Hb & ->). eapply finds_mono; [|apply IH]. intros bs (bss & Hall & ->).
      exists (b :: bss). split; [by constructor|]. cbn. by rewrite app_assoc.
Qed.

Lemma batches_contents m group bss : Forall2 (fun g b => segment_batches m g = Some b) group bss ->
  contents m group = Some (all_rows (concat bss)).
Proof.
  induction 1 as [|g b group bss Hg _ IH]; [done|]. change (g :: group) with ([g] ++ group).
  assert (Hone : contents m [g] = Some (all_rows b)).
  { unfold contents. cbn. unfold segment_rows. rewrite Hg. cbn. by rewrite app_nil_r. }
  change (concat (b :: bss)) with (b ++ concat bss). by rewrite contents_app, Hone, IH, all_rows_app.
Qed.

(** Segments of one schema, as [compact] needs them. *)
Definition plain_segment m (sc : Schema) g : Prop := data_path (sg_path g) /\ readable m sc g /\ undamaged m g.

Lemma plain_batches m sc group bss : Forall (plain_segment m sc) group ->
  Forall2 (fun g b => segment_batches m g = Some b) group bss -> Forall (fun b => rb_schema b = sc /\ fits sc b) (concat bss).
Proof.
  intros Hp Hb. induction Hb as [|g b group bss Hg _ IH]; cbn; [constructor|].
  apply Forall_cons in Hp as [(_ & (b' & Hb' & Ha) & _) Hp]. assert (b' = b) as -> by congruence.
  apply Forall_app. by split; [|apply IH].
Qed.

Section Rewriting.
Context (spec : TableSpec) (seq_no : Z) (d0 : Disk).
Context (Hne : ts_schema spec <> []) (Hfr : unused_ids d0).
Local Abbreviation inv := (writer_inv spec (ts_schema spec) seq_no d0) (only parsing).
Local Abbreviation sc := (ts_schema spec) (only parsing).

Lemma plain_survives d g : leased spec d0 d -> plain_segment (files d0) sc g -> files d !! sg_path g = files d0 !! sg_path g.
Proof.
  intros Hl (Hd & _ & f & Hf & _). rewrite Hf. apply (leased_keeps spec d0 d _ f Hl Hfr Hf). intros id. by apply data_not_lease.
Qed.

Lemma wpc_rewrite_group ft d w pushed group key : inv d w pushed -> Forall (plain_segment (files d0) sc) group ->
  wpc ft (Writes.rewrite_group key w group) d
    (fun r d' => match r with Ok w' => exists more rows, inv d' w' (pushed ++ more) /\ Forall (fits sc) more /\
       contents (files d0) group = Some rows /\ all_rows more ≡ₚ rows | Err _ => True end) (fun _ => True).
Proof.
  intros Hi Hg. unfold Writes.rewrite_group. pose proof (wi_leased _ _ _ _ _ _ _ Hi) as Hl.
  eapply (reads_step _ d); [apply finds_read_group|done..|]. intros bs d1 Hr (bss & Hall & ->).
  assert (Hi1 : inv d1 w pushed) by (eapply writer_inv_moved; [apply Hr|apply Hr|exact Hi]).
  assert (Hall0 : Forall2 (fun g b => segment_batches (files d0) g = Some b) group bss).
  { rewrite List.Forall_forall in Hg. clear -Hall Hg Hl Hfr. induction Hall as [|g b group bss Hb _ IH]; constructor.
    - unfold segment_batches in *. rewrite <- (plain_survives d g Hl); [done|]. apply Hg. by left.
    - apply IH. intros x Hx. apply Hg. by right. }
  pose proof (plain_batches _ _ _ _ Hg Hall0) as Hfit.
  assert (Hu : Forall (uniform sc) (concat bss)).
  { eapply Forall_impl; [exact Hfit|]. intros b [Hs [_ Hb]]. split; [done|]. by rewrite <- Hs in Hb, Hne. }
  assert (Hf : Forall (fits sc) (concat bss)) by (eapply Forall_impl; [exact Hfit|]; by intros b [_ ?]).
  apply wpc_bind. eapply wpc_mono; [| |by eapply (wpc_push_sorted spec sc seq_no ft d0)]; cbv beta; [|done].
  intros [w2|e] d2 Hw2; [|done]. destruct Hw2 as (more & Hi2 & Hfm & Hp & _).
  eapply wpc_mono; [| |by apply (wpc_flush spec sc seq_no ft d0)]; cbv beta; [|done]. intros [w3|e] d3; [|done].
  intros [Hi3 _]. exists more, (all_rows (concat bss)). split; [done|]. split; [done|]. split; [by apply batches_contents|done].
Qed.

Lemma wpc_rewrite_groups ft d w pushed groups key : inv d w pushed -> Forall (plain_segment (files d0) sc) (concat groups) ->
  wpc ft (fold_prog (Writes.rewrite_group key) w groups) d
    (fun r d' => match r with Ok w' => exists more rows, inv d' w' (pushed ++ more) /\ Forall (fits sc) more /\
       contents (files d0) (concat groups) = Some rows /\ all_rows more ≡ₚ rows | Err _ => True end) (fun _ => True).
Proof.
  revert d w pushed. induction groups as [|group groups IH]; intros d w pushed Hi Hg; cbn [fold_prog concat] in *.
  - apply wpc_ret; [done|]. exists [], []. by rewrite app_nil_r.
  - apply Forall_app in Hg as [Hg1 Hg2]. apply wpc_bind.
    eapply wpc_mono; [| |by apply wpc_rewrite_group]; cbv beta; [|done]. intros [w1|e] d1 Hw1; [|done].
    destruct Hw1 as (m1 & r1 & Hi1 & Hf1 & Hc1 & Hp1).
    eapply wpc_mono; [| |by apply IH]; cbv beta; [|done]. intros [w2|e] d2 Hw2; [|done].
    destruct Hw2 as (m2 & r2 & Hi2 & Hf2 & Hc2 & Hp2). exists (m1 ++ m2), (r1 ++ r2).
    split; [by rewrite app_assoc|]. split; [by apply Forall_app|]. rewrite contents_app, Hc1, Hc2, all_rows_app. cbn.
    split; [done|]. by rewrite Hp1, Hp2.
Qed.
End Rewriting.

Lemma confined_rewrite key w group : confined staging_path (Writes.rewrite_group key w group).
Proof.
  unfold Writes.rewrite_group. apply confined_bind; [|intros bs; apply confined_bind; [apply confined_push_sorted|intros; apply confined_flush]].
  apply read_only_confined. unfold Writes.read_group. apply read_only_fold. intros acc seg.
  apply read_only_bind; [|done]. unfold SegmentReader.read_segment, Backend.get_opt, call. read_only_tac.
Qed.

Lemma groups_feed ft d spec seq key groups rows :
  rows_ok d -> ts_schema spec <> [] -> Forall (plain_segment (files d) (ts_schema spec)) (concat groups) ->
  contents (files d) (concat groups) = Some rows ->
  feeds ft d spec seq (fun pushed => Forall (fits (ts_schema spec)) pushed /\ all_rows pushed ≡ₚ rows)
    (fun w => fold_prog (Writes.rewrite_group key) w groups).
Proof.
  intros Hok Hne Hg Hrows. split; [intros w; apply confined_fold; intros; apply confined_rewrite|]. intros w d1 Hi.
  eapply wpc_mono; [| |apply (wpc_rewrite_groups spec seq d Hne (ro_fresh d Hok) ft d1 w [] groups key Hi Hg)]; cbv beta; [|done].
  intros [w'|e] d' Hw; [|done]. destruct Hw as (more & rows' & Hi' & Hf & Hc & Hp). exists more. rewrite Hrows in Hc.
  injection Hc as <-. by split.
Qed.

Lemma plain_of_good d t mf spec g : one_revision d -> current d t mf -> spec_at (files d) t (mf_schema_revision mf) spec ->
  Forall (good_segment (files d) t) (mf_segments mf) -> In g (mf_segments mf) ->
  plain_segment (files d) (ts_schema spec) g /\ times_bounded (ts_time_column spec) (ts_schema spec) (files d) g.
Proof.
  intros Ho Hc Hsp Hg Hin. pose proof (Ho t mf Hc) as Hrev. rewrite List.Forall_forall in Hrev, Hg.
  destruct (Hg g Hin) as (Hu & Hd & spec' & Hsp' & Hr & Ht). rewrite (Hrev g Hin) in Hsp'.
  rewrite (spec_at_fun _ _ _ _ _ Hsp Hsp'). split; [by split|done].
Qed.

(** Committing the manifest and releasing the lease. *)
Lemma wpc_publish_rows ft db name e h m0 added known lease d (finish : CommitResult -> CommitResult)
    (P : option Rows -> Prop) (Q : DbResult CommitResult -> Disk -> Prop) :
  lease_form lease -> rows_ok d -> Forall (good_segment (files d) (ce_table_id e)) (mf_segments m0) ->
  P (contents (files d) (mf_segments m0)) -> (forall e d', Q (Err e) d') ->
  (forall r m d', rows_ok d' -> current d' (ce_table_id e) m -> same_names d d' ->
     P (contents (files d') (mf_segments m)) -> Q (Ok (finish r)) d') ->
  wpc ft (let! res := Commit.commit_manifest db name (ce_table_id e) (Some h) m0 added known in
          do! Commit.release_staging lease in ret (finish res)) d Q (fun _ => True).
Proof.
  intros Hl Hok Hg HP HE HO. apply wpc_bind. eapply wpc_mono; [| |by apply wpc_commit_rows]; cbv beta; [|done].
  intros [res|er] d1 Hc; [|by split]. destruct Hc as (m & Hm & Hok1 & Hcur & Hn & Hk). pose proof (published_segments _ _ _ Hm) as Hseg.
  assert (Hg1 : Forall (good_segment (files d1) (ce_table_id e)) (mf_segments m)).
  { destruct Hcur as (h1 & _ & Hst). exact (ro_segments d1 Hok1 _ _ _ Hst). }
  apply wpc_bind. eapply wpc_mono; [| |apply (wpc_drop_lease ft d1 (ce_table_id e) m lease (mf_segments m) P)]; cbv beta; try done.
  - intros r d2 (-> & Hok2 & Hcur2 & Hn2 & HP2). apply wpc_ret; [done|]. apply (HO res m d2); [done|done|by etransitivity|done].
  - by rewrite Hseg, (contents_kept (files d)).
Qed.

(** Rewriting the groups and committing the result. *)
Lemma wpc_compact_groups ft db name target opts e spec h mf d d1 groups (g := Writes.group_segments target (Writes.own_and_inherited (ce_table_id e) mf).2 (Writes.in_time_order (Writes.own_and_inherited (ce_table_id e) mf).1)) (Q : DbResult CommitResult -> Disk -> Prop) :
  collision_free -> one_revision d -> rows_ok d1 -> same_files d d1 -> base_version (files d1) name e spec h mf ->
  Writes.gr_groups g = groups -> (forall e d', Q (Err e) d') -> (forall r d', changed name (≡ₚ) d d' -> Q (Ok r) d') ->
  wpc ft (let! w := SegmentWriter.new spec (ts_schema spec) (hd_sequence (hs_head h) + 1) in
          let! w := fold_prog (Writes.rewrite_group (ts_sort_key spec)) w groups in
          let! '(rewritten, _sorted, lease) := SegmentWriter.finish w in
          let segments := Writes.in_time_order (Writes.gr_untouched g ++ rewritten) in
          let manifest := child_manifest mf (hd_sequence (hs_head h) + 1) OpCompact opts spec <| mf_segments := segments |> in
          if negb (sum_u64 (map sg_rows segments) =? mf_rows mf)
          then throw (Internal "compaction row-count mismatch")
          else
            let! res := Commit.commit_manifest db name (ce_table_id e) (Some h) manifest
                          (zlen rewritten) (Writes.known_inputs spec mf) in
            do! Commit.release_staging lease in
            ret res) d1 Q (fun _ => True).
Proof.
  intros Hcf Hone Hok1 Hs Hbase <- HE HO. destruct (base_good _ _ _ _ _ _ Hok1 Hbase) as (Hg & Hsp & Hgs).
  assert (Hcur : current d1 (ce_table_id e) mf) by by eapply base_current.
  assert (Hone1 : one_revision d1) by (intros t m (h' & Hh' & Hm'); rewrite (proj1 Hs) in Hh', Hm'; apply (Hone t); by exists h').
  assert (Hp : Writes.gr_untouched g ++ concat (Writes.gr_groups g) ≡ₚ mf_segments mf).
  { unfold g. rewrite group_segments_spec, in_time_order_perm. by apply (own_and_inherited_spec (ce_table_id e)). }
  destruct (good_contents _ _ _ Hg) as [rows Hrows].
  destruct (contents_perm _ _ _ _ (symmetry Hp) Hrows) as (rows2 & Hr2 & Hp2). rewrite contents_app in Hr2.
  destruct (contents (files d1) (Writes.gr_untouched g)) as [kept|] eqn:Ekept; [|done]. cbn in Hr2.
  destruct (contents (files d1) (concat (Writes.gr_groups g))) as [old|] eqn:Eold; [|done]. cbn in Hr2. injection Hr2 as <-.
  assert (Hplain : Forall (plain_segment (files d1) (ts_schema spec)) (concat (Writes.gr_groups g))).
  { apply List.Forall_forall. intros x Hx. eapply (proj1 (B := times_bounded _ _ _ x)), plain_of_good; [exact Hone1|exact Hcur|exact Hsp|exact Hg|].
    apply list_elem_of_In. rewrite <- Hp. apply elem_of_app. right. by apply list_elem_of_In. }
  pose proof (groups_feed ft d1 spec (hd_sequence (hs_head h) + 1) (ts_sort_key spec) _ _ Hok1 (gs_columns _ _ _ Hgs) Hplain Eold) as Hfeed.
  eapply (wpc_feed ft d1); [exact Hok1|exact Hfeed|done|]. intros [[rewritten s] lease] pushed d2 [Hfit Hpp] Hst Hu.
  pose proof (stored_lease _ _ _ _ _ _ _ _ Hst) as Hlf. cbv zeta.
  pose proof (staged_plain d1 d2 (ce_table_id e) spec mf _ _ pushed rewritten s lease Hcf Hok1 Hu Hsp Hg Hfit Hst) as Hstaged.
  destruct (negb _); [done|].
  assert (Hin : forall x, In x (Writes.gr_untouched g) -> In x (mf_segments mf)).
  { intros x Hx. apply list_elem_of_In. rewrite <- Hp. apply elem_of_app. left. by apply list_elem_of_In. }
  destruct (contents_perm (files d2) (Writes.gr_untouched g ++ rewritten) (Writes.in_time_order (Writes.gr_untouched g ++ rewritten)) (kept ++ all_rows pushed))
    as (rows' & Hr' & Hpr); [by rewrite in_time_order_perm| |].
  { rewrite contents_app, (st_rows _ _ _ _ _ _ Hstaged), (contents_kept (files d1)), Ekept; [done|].
    intros x Hx. apply (st_same _ _ _ _ _ _ Hstaged). rewrite List.Forall_forall in Hg. auto. }
  eapply (wpc_publish_rows ft db name e h _ _ _ lease d2 (fun r => r) (eq (Some rows'))); [done|apply Hstaged|..|exact HE|].
  - rewrite child_segments. eapply Permutation_Forall; [symmetry; apply in_time_order_perm|]. apply Forall_app.
    pose proof (st_parent _ _ _ _ _ _ Hstaged) as Hpar. split; [|apply Hstaged]. rewrite List.Forall_forall in *. auto.
  - by rewrite child_segments.
  - intros r m d3 Hok3 Hcur3 Hn3 Hc3. apply HO. apply (changed_from _ _ _ d1 _ Hs). split; [done|transitivity d2; [apply Hstaged|done]|].
    exists e, mf, m, rows, rows'. split; [apply Hbase|]. do 4 (split; [done|]). rewrite Hpr, Hpp. by rewrite <- Hp2.
Qed.
(** A step that is not replayed. *)
Lemma not_replayed {B} ft db name opts (f : option CommitResult -> prog B) d (Q : DbResult B -> Disk -> Prop) :
  wo_idempotency_key opts = None -> wpc ft (f None) d Q (fun _ => True) ->
  wpc ft (bind (Commit.idempotent_replay db name opts) f) d Q (fun _ => True).
Proof. intros Hk Hf. unfold Commit.idempotent_replay. rewrite Hk. by apply wpc_bind, wpc_ret. Qed.

(** A version read and left as it is. *)
Lemma unchanged name d d' e spec h mf : rows_ok d -> read_from d d' -> base_version (files d') name e spec h mf ->
  changed name (≡ₚ) d d'.
Proof.
  intros Hok Hr Hbase. destruct (base_good _ _ _ _ _ _ (rows_ok_read _ _ Hr Hok) Hbase) as (Hg & _).
  destruct (good_contents _ _ _ Hg) as [rows Hrows]. apply (changed_from _ _ _ d' _ (proj1 Hr)).
  split; [by eapply rows_ok_read|done|]. exists e, mf, mf, rows, rows.
  split; [apply Hbase|]. pose proof (base_current _ _ _ _ _ _ Hbase) as Hc. done.
Qed.

Lemma wpc_compact ft db name target opts d d1 (Q : DbResult CommitResult -> Disk -> Prop) :
  collision_free -> db_fork db = None -> wo_idempotency_key opts = None -> rows_ok d -> one_revision d -> read_from d d1 ->
  (forall e d', Q (Err e) d') -> (forall r d', changed name (≡ₚ) d d' -> Q (Ok r) d') ->
  wpc ft (Writes.compact_with db name target opts) d1 Q (fun _ => True).
Proof.
  intros Hcf Hb Hk Hok Hone Hr HE HO. unfold Writes.compact_with. apply not_replayed; [done|].
  eapply (prologue_step ft d); try done. intros e spec h mf d2 H2 Hok2 Hbase. cbv zeta.
  destruct (Writes.own_and_inherited (ce_table_id e) mf) as [owned inherited] eqn:Eoi.
  set (tb := default _ target).
  destruct (Writes.gr_groups (Writes.group_segments tb inherited (Writes.in_time_order owned))) as [|g0 groups] eqn:Eg.
  - apply wpc_ret; [done|]. apply HO. by eapply unchanged.
  - pose proof (wpc_compact_groups ft db name tb opts e spec h mf d d2 (g0 :: groups) Q) as Hcg. rewrite Eoi in Hcg. cbn [fst snd] in Hcg.
    apply Hcg; try done. apply H2.
Qed.

(** ** Appending, with the compaction the segment budget may ask for *)
Definition appended_up_to (compacts : bool) (batches : list RecordBatch) (rows rows' : Rows) : Prop :=
  exists before, before ≡ₚ rows /\ (compacts = false -> before = rows) /\ rows' = before ++ all_rows batches.

Lemma wpc_append ft db name batches opts auto d (Q : DbResult CommitResult -> Disk -> Prop) :
  collision_free -> db_fork db = None -> rows_ok d -> (auto = true -> one_revision d) -> Forall valid_batch batches ->
  (forall e d', Q (Err e) d') -> (forall r d', changed name (appended_up_to auto batches) d d' -> Q (Ok r) d') ->
  wpc ft (Writes.append_inner db name batches opts auto) d Q (fun _ => True).
Proof.
  intros Hcf Hb Hok Hone Hv HE HO. unfold Writes.append_inner, Writes.stage_append. apply wpc_bind.
  apply (wpc_append_attempt ft db name batches opts auto _ d d Q); try done.
  { intros r d' Hc. apply (HO r). eapply changed_mono; [|exact Hc]. intros rows rows' ->. by exists rows. }
  intros Hauto d1 Hr1 Hok1. apply wpc_bind.
  eapply (wpc_mono _ _ _ (fun r d' => match r with Ok _ => changed name (≡ₚ) d d' | Err _ => True end) _ (fun _ => True)); [|done|].
  2: { apply (wpc_compact ft db name None _ d d1); try done. by apply Hone. }
  intros [r|e] d2 Hc; [|split; [done|]; by split]. pose proof (ch_ok _ _ _ _ Hc) as Hok2.
  apply (wpc_append_attempt ft db name batches opts false _ d2 d2 Q); try done.
  intros r' d3 Hc3. apply (HO r'). eapply changed_mono; [|exact (changed_then _ _ _ _ _ _ Hc Hc3)].
  intros rows rows' (r1 & Hp & ->). exists r1. split; [done|]. by rewrite Hauto.
Qed.

(** ** Replacing the table *)

(** The sort key of the table a name stands for. *)
Definition table_key d (name : string) (key : list string) : Prop :=
  exists e mf spec, named (files d) name e /\ current d (ce_table_id e) mf /\
    spec_at (files d) (ce_table_id e) (mf_schema_revision mf) spec /\ ts_sort_key spec = key.

(** The rows are those of [batches], in the order of the key of the table. *)
Definition replaced d (name : string) (s : Schema) (batches : list RecordBatch) (_ rows' : Rows) : Prop :=
  rows' ≡ₚ all_rows batches /\ forall key, table_key d name key -> in_key_order s key rows'.

Lemma table_key_fun d name key key' : table_key d name key -> table_key d name key' -> key = key'.
Proof.
  intros (e & mf & sp & He & Hc & Hs & <-) (e' & mf' & sp' & He' & Hc' & Hs' & <-).
  pose proof (named_fun _ _ _ _ He He') as <-. pose proof (current_fun _ _ _ _ Hc Hc') as <-.
  by rewrite (spec_at_fun _ _ _ _ _ Hs Hs').
Qed.
Lemma base_key d d1 name e spec h mf : same_files d d1 -> base_version (files d1) name e spec h mf -> table_key d name (ts_sort_key spec).
Proof.
  intros Hs Hb. pose proof (base_current _ _ _ _ _ _ Hb) as (h' & Hh & Hm). destruct Hb as (He & _ & _ & Hsp).
  rewrite (proj1 Hs) in *. exists e, mf, spec. split; [done|]. split; [by exists h'|done].
Qed.

Lemma push_sorted_feeds ft d spec seq s bs key : Forall (uniform s) bs -> Forall (fits (ts_schema spec)) bs ->
  feeds ft d spec seq (fed (ts_schema spec) s key bs) (fun w => Writes.push_sorted w bs key).
Proof.
  intros Hu Hf. split; [intros w; apply confined_push_sorted|]. intros w d1 Hi.
  eapply wpc_mono; [| |by apply (wpc_push_sorted spec (ts_schema spec) seq ft d d1 w [] bs key s Hi)]; cbv beta; [|done].
  intros [w'|e] d' Hw; [|done]. done.
Qed.

Lemma wpc_stage_write ft db name s batches opts d (Q : DbResult CommitResult -> Disk -> Prop) :
  collision_free -> db_fork db = None -> rows_ok d -> Forall (uniform s) batches ->
  (forall e d', Q (Err e) d') -> (forall r d', changed name (replaced d name s batches) d d' -> Q (Ok r) d') ->
  wpc ft (Writes.stage_write db name batches opts) d (then_commit ft db Q) (fun _ => True).
Proof.
  intros Hcf Hb Hok Hv HE HO. assert (HE1 : forall e d', then_commit ft db Q (Err e) d') by (by split).
  unfold Writes.stage_write. eapply (prologue_step ft d); try done. intros e spec h mf d2 H2 Hok2 Hbase. cbv zeta.
  eapply (checked_step ft d); try done; [eapply Forall_impl; [exact Hv|]; by intros b []|]. intros d3 H3' Hok3 Hbase3 Hfit.
  destruct (base_good _ _ _ _ _ _ Hok3 Hbase3) as (Hg3 & Hsp3 & _).
  pose proof (push_sorted_feeds ft d3 spec (hd_sequence (hs_head h) + 1) s batches (ts_sort_key spec) Hv Hfit) as Hfeed.
  eapply (wpc_stage ft d3 (ce_table_id e) spec _ _ mf _ _ _ (then_commit ft db Q) Hcf Hok3 Hsp3 Hg3); [|exact Hfeed|by split|].
  { by intros pushed (? & _). }
  intros ms k lease pushed d4 Hlf (_ & Hp & Hord) Hst. destruct (good_contents _ _ _ Hg3) as [rows Hrows].
  eapply (wpc_then_commit ft db name (replaced d name s batches) e spec h mf d d3 d4); try done; try apply Hst; [apply H3'|].
  split; [done|]. intros key Hk. by rewrite (table_key_fun _ _ _ _ Hk (base_key _ _ _ _ _ _ _ (proj1 H3') Hbase3)).
Qed.
End RowProps.

(** ** Replacing a range of times

    [replace_range] and [delete_range] against the rows of the table: those inside the range
    go, those outside stay, the new rows come in.  Segments are kept, dropped or rewritten by
    their recorded time range alone; that this is exact rests on the ranges bounding the
    times of the rows, which every writer establishes. *)
Import MergeProps.

(** Binding is associative, as far as [wpc] sees. *)
Lemma wpc_bind_assoc `{Env} {A B D} ft (p : prog A) (f : A -> prog B) (g : B -> prog D) d (Q : DbResult D -> Disk -> Prop) C :
  wpc ft (bind (bind p f) g) d Q C <-> wpc ft (bind p (fun a => bind (f a) g)) d Q C.
Proof.
  revert d. induction p as [[a|e]|T c k IH]; intros d; [done..|]. unfold bind in *. cbn. split.
  - intros (HC & H1 & H2 & H3). split; [done|]. split; [by apply IH|]. split; intros Hft; apply IH; auto.
  - intros (HC & H1 & H2 & H3). split; [done|]. split; [by apply IH|]. split; intros Hft; apply IH; auto.
Qed.

#[export] Instance filter_proper {A} (f : A -> bool) : Proper (Permutation ==> Permutation) (List.filter f).
Proof.
  intros l l' Hp. induction Hp as [|x l l' _ IH|x y l|l1 l2 l3 _ IH1 _ IH2]; cbn; [done|..|by rewrite IH1].
  - destruct (f x); by rewrite IH.
  - destruct (f x), (f y); done || apply perm_swap.
Qed.

Section RangeProps.
Context `{Env} `{ArrowRowsSpec} `{!Inj (=) (=) new_uuid}.
Implicit Types (d : Disk) (g : SegmentMeta) (mf parent : VersionManifest) (db : Database).
Abbreviation Rows := (list (list (option Cell))) (only parsing).

(** Where the time of a row of the table is. *)
Definition table_time d (name : string) (i : nat) : Prop :=
  exists e mf spec tc, named (files d) name e /\ current d (ce_table_id e) mf /\
    spec_at (files d) (ce_table_id e) (mf_schema_revision mf) spec /\ ts_time_column spec = Some tc /\
    time_at tc (ts_schema spec) i.

Definition inside (i : nat) (start stop : Z) (r : list (option Cell)) : bool := in_window i (Some start) (Some stop) r.
Definition outside i start stop r : bool := negb (inside i start stop r).

(** The range of the rows is replaced by [batches]. *)
Definition range_replaced i start stop (batches : list RecordBatch) (rows rows' : Rows) : Prop :=
  rows' ≡ₚ List.filter (outside i start stop) rows ++ all_rows batches.

(** ** Which segments are kept, dropped, rewritten *)
Definition is_dropped start stop g : bool :=
  SegmentMeta.overlaps_time g (Some start) (Some stop) && SegmentMeta.covered_by_time g start stop.

Lemma three_ways start stop segs :
  List.filter (Writes.is_kept start stop) segs ++ List.filter (Writes.is_boundary start stop) segs ++
    List.filter (is_dropped start stop) segs ≡ₚ segs.
Proof.
  induction segs as [|g segs IH]; [done|]. cbn. unfold Writes.is_kept at 1, Writes.is_boundary at 1, is_dropped at 1.
  destruct (SegmentMeta.overlaps_time g _ _), (SegmentMeta.covered_by_time g _ _); cbn.
  - rewrite app_assoc, <- Permutation_middle, <- app_assoc. by rewrite IH.
  - rewrite <- Permutation_middle. by rewrite IH.
  - by rewrite IH.
  - by rewrite IH.
Qed.

Lemma in_range i start stop r : inside i start stop r = true <-> start <= row_time i r < stop.
Proof. unfold inside, in_window, SegmentTime.in_window. cbn. rewrite andb_true_iff, Z.leb_le, Z.ltb_lt. done. Qed.


Lemma kept_rows tc sc m i start stop g rows : times_bounded (Some tc) sc m g -> time_at tc sc i ->
  segment_rows m g = Some rows -> Writes.is_kept start stop g = true -> List.filter (outside i start stop) rows = rows.
Proof.
  intros Hb Ht Hr Hk. unfold Writes.is_kept, SegmentMeta.overlaps_time in Hk.
  destruct (sg_time_range g) as [[lo hi]|] eqn:E; [|done]. apply filter_all.
  eapply Forall_impl; [exact (proj1 (Hb tc i eq_refl Ht) lo hi rows E Hr)|]. intros r Hx. cbn in Hx.
  apply negb_true_iff, not_true_iff_false. rewrite in_range. bool_prop. lia.
Qed.

Lemma dropped_rows tc sc m i start stop g rows : times_bounded (Some tc) sc m g -> time_at tc sc i ->
  segment_rows m g = Some rows -> is_dropped start stop g = true -> List.filter (outside i start stop) rows = [].
Proof.
  intros Hb Ht Hr Hk. unfold is_dropped, SegmentMeta.covered_by_time in Hk. apply andb_true_iff in Hk as [_ Hk].
  destruct (sg_time_range g) as [[lo hi]|] eqn:E; [|done]. apply filter_none.
  eapply Forall_impl; [exact (proj1 (Hb tc i eq_refl Ht) lo hi rows E Hr)|]. intros r Hx. cbn in Hx.
  apply negb_false_iff, in_range. bool_prop. lia.
Qed.

(** The rows before the range and those after it are the rows outside. *)
Lemma outside_rows i start stop rows : start < stop ->
  List.filter (in_window i None (Some start)) rows ++ List.filter (in_window i (Some stop) None) rows ≡ₚ
  List.filter (outside i start stop) rows.
Proof.
  intros Hlt. induction rows as [|r rows IH]; [done|]. cbn [List.filter].
  assert (Ho : outside i start stop r = (row_time i r <? start) || (stop <=? row_time i r)).
  { unfold outside. apply eq_true_iff_eq. rewrite negb_true_iff, <- not_true_iff_false, in_range, orb_true_iff, Z.ltb_lt, Z.leb_le. lia. }
  assert (Hb : in_window i None (Some start) r = (row_time i r <? start)) by done.
  assert (Ha : in_window i (Some stop) None r = (stop <=? row_time i r)) by apply andb_true_r.
  rewrite Ho, Hb, Ha.
  destruct (Z.ltb_spec (row_time i r) start), (Z.leb_spec stop (row_time i r)); cbn; [lia|by rewrite IH|rewrite <- Permutation_middle; by rewrite IH|done].
Qed.

(** ** Feeding the writer *)
Section Feeding.
Context (spec : TableSpec) (seq_no : Z) (d0 : Disk) (tc : string) (i : nat) (start stop : Z).
Context (Hne : ts_schema spec <> []) (Hfr : unused_ids d0) (Ht : time_at tc (ts_schema spec) i) (Hlt : start < stop).
Local Abbreviation inv := (writer_inv spec (ts_schema spec) seq_no d0) (only parsing).
Local Abbreviation sc := (ts_schema spec) (only parsing).

(** A feeding step pushed batches that hold [rows], up to their order. *)
Definition fed_rows pushed (rows : Rows) (r : DbResult SegmentWriter) d' : Prop :=
  match r with
  | Ok w' => exists more, inv d' w' (pushed ++ more) /\ Forall (fits sc) more /\ all_rows more ≡ₚ rows
  | Err _ => True
  end.

Lemma wpc_push_plain ft d w pushed bs : inv d w pushed -> Forall (fun b => rb_schema b = sc /\ fits sc b) bs ->
  wpc ft (SegmentWriter.push_all w bs) d (fed_rows pushed (all_rows bs)) (fun _ => True).
Proof.
  intros Hi Hb. eapply wpc_mono; [| |by apply (wpc_push_all spec sc seq_no ft d0)]; cbv beta; [|done]. intros [w'|e] d' Hw; [|done].
  eexists. split; [exact Hw|]. split; [|by rewrite nonempty_rows].
  apply nonempty_fits. eapply Forall_impl; [exact Hb|]. by intros b [].
Qed.

(** Feeding twice. *)
Lemma fed_then ft pushed rows1 rows2 rows (f : SegmentWriter -> prog SegmentWriter) (r : DbResult SegmentWriter) d1 :
  (forall d w pushed, inv d w pushed -> wpc ft (f w) d (fed_rows pushed rows2) (fun _ => True)) ->
  rows1 ++ rows2 ≡ₚ rows -> fed_rows pushed rows1 r d1 ->
  match r with
  | Ok w => wpc ft (f w) d1 (fed_rows pushed rows) (fun _ => True)
  | Err e => True /\ fed_rows pushed rows (Err e) d1
  end.
Proof.
  intros Hf Hp. destruct r as [w|e]; [|done]. intros (m1 & Hi1 & Hf1 & Hp1).
  eapply wpc_mono; [| |by apply Hf]; cbv beta; [|done]. intros [w'|e] d' Hw; [|done]. destruct Hw as (m2 & Hi2 & Hf2 & Hp2).
  exists (m1 ++ m2). split; [by rewrite app_assoc|]. split; [by apply Forall_app|]. by rewrite all_rows_app, Hp1, Hp2.
Qed.

Lemma wpc_rewrite_boundary ft d w pushed g rows : inv d w pushed -> plain_segment (files d0) sc g ->
  segment_rows (files d0) g = Some rows ->
  wpc ft (Writes.rewrite_boundary tc start stop w g) d (fed_rows pushed (List.filter (outside i start stop) rows)) (fun _ => True).
Proof.
  intros Hi Hg Hrows. unfold Writes.rewrite_boundary. pose proof (wi_leased _ _ _ _ _ _ _ Hi) as Hl.
  eapply (reads_step _ d); [apply finds_read_segment|done..|]. intros bs d1 Hr Hbs.
  assert (Hi1 : inv d1 w pushed) by (eapply writer_inv_moved; [apply Hr|apply Hr|exact Hi]).
  unfold segment_batches in Hbs. rewrite (plain_survives spec d0 Hfr d g Hl Hg) in Hbs. fold (segment_batches (files d0) g) in Hbs.
  destruct Hg as (_ & (bs' & Hb' & Hall) & _). assert (bs' = bs) as -> by congruence.
  unfold segment_rows in Hrows. rewrite Hbs in Hrows. injection Hrows as <-.
  apply wpc_bind, wpc_lift; [done|]. destruct (SegmentTime.filter_batches_by_time bs tc None (Some start)) as [before|] eqn:Eb; [|done].
  destruct (filter_rows_spec tc sc i _ _ bs before Ht Hall Eb) as [Hbf Hbr].
  apply wpc_bind. eapply wpc_mono; [| |by apply wpc_push_plain]; cbv beta; [|done]. intros r d2.
  apply (fed_then ft pushed _ (List.filter (in_window i (Some stop) None) (all_rows bs)) _
    (fun w => let! after := lift (SegmentTime.filter_batches_by_time bs tc (Some stop) None) in SegmentWriter.push_all w after)).
  - intros d3 w3 p3 Hi3. apply wpc_bind, wpc_lift; [done|].
    destruct (SegmentTime.filter_batches_by_time bs tc (Some stop) None) as [after|] eqn:Ea; [|done].
    destruct (filter_rows_spec tc sc i _ _ bs after Ht Hall Ea) as [Haf Har]. rewrite <- Har. by apply wpc_push_plain.
  - rewrite Hbr. by apply outside_rows.
Qed.

Lemma wpc_rewrite_boundaries ft d w pushed segs rows : inv d w pushed -> Forall (plain_segment (files d0) sc) segs ->
  contents (files d0) segs = Some rows ->
  wpc ft (fold_prog (Writes.rewrite_boundary tc start stop) w segs) d
    (fed_rows pushed (List.filter (outside i start stop) rows)) (fun _ => True).
Proof.
  intros Hi Hg. revert d w pushed rows Hi. induction Hg as [|g segs Hg _ IH]; intros d w pushed rows Hi Hr; cbn [fold_prog].
  - injection Hr as <-. apply wpc_ret; [done|]. exists []. rewrite app_nil_r. split; [done|]. by split; [constructor|].
  - change (g :: segs) with ([g] ++ segs) in Hr. rewrite contents_app in Hr.
    assert (Hone : contents (files d0) [g] = segment_rows (files d0) g).
    { unfold contents. cbn. destruct (segment_rows (files d0) g); cbn; [by rewrite app_nil_r|done]. }
    rewrite Hone in Hr. destruct (segment_rows (files d0) g) as [r1|] eqn:E1; [|done]. cbn in Hr.
    destruct (contents (files d0) segs) as [r2|]; [|done]. injection Hr as <-.
    apply wpc_bind. eapply wpc_mono; [| |by eapply wpc_rewrite_boundary]; cbv beta; [|done]. intros r d2.
    apply (fed_then ft pushed _ (List.filter (outside i start stop) r2) _ (fun w => fold_prog (Writes.rewrite_boundary tc start stop) w segs)).
    + intros d3 w3 p3 Hi3. by apply IH.
    + by rewrite List.filter_app.
Qed.

(** The new rows, sorted, at the end. *)
Definition push_new (new_batches : list RecordBatch) (w : SegmentWriter) : prog SegmentWriter :=
  match new_batches with
  | [] => ret w
  | _ => let! sorted := lift (SegmentSort.sort_batches sc new_batches (ts_sort_key spec)) in SegmentWriter.push w sorted
  end.
Lemma wpc_push_new ft d w pushed bs : inv d w pushed ->
  wpc ft (push_new bs w) d (fed_rows pushed (all_rows bs)) (fun _ => True).
Proof.
  intros Hi. unfold push_new. destruct bs as [|b bs].
  { apply wpc_ret; [done|]. exists []. rewrite app_nil_r. split; [done|]. by split; [constructor|]. }
  apply wpc_bind, wpc_lift; [done|]. destruct (SegmentSort.sort_batches _ _ _) as [sorted|] eqn:E; [|done].
  destruct (sort_batches_spec sc _ _ sorted Hne E) as [Hu Hp].
  eapply wpc_mono; [| |by apply (wpc_push spec sc seq_no ft d0)]; cbv beta; [|done]. intros [w'|e] d' Hw; [|done].
  eexists. split; [exact Hw|]. split.
  - apply nonempty_fits. constructor; [by apply uniform_fits|constructor].
  - rewrite nonempty_rows. unfold all_rows at 1. cbn. by rewrite app_nil_r.
Qed.
End Feeding.

Lemma range_feeds ft d spec seq tc i start stop segs rows bs :
  rows_ok d -> ts_schema spec <> [] -> time_at tc (ts_schema spec) i -> start < stop ->
  Forall (plain_segment (files d) (ts_schema spec)) segs -> contents (files d) segs = Some rows ->
  feeds ft d spec seq
    (fun pushed => Forall (fits (ts_schema spec)) pushed /\
       all_rows pushed ≡ₚ List.filter (outside i start stop) rows ++ all_rows bs)
    (fun w => let! w := fold_prog (Writes.rewrite_boundary tc start stop) w segs in push_new spec bs w).
Proof.
  intros Hok Hne Ht Hlt Hg Hr. split.
  - intros w. apply confined_bind; [|intros w'; unfold push_new; destruct bs; [done|]; apply confined_bind; [done|intros; apply confined_push]].
    apply confined_fold. intros w' g. unfold Writes.rewrite_boundary. apply confined_bind.
    + apply read_only_confined. unfold SegmentReader.read_segment, Backend.get_opt, call. read_only_tac.
    + intros b. repeat (apply confined_bind; [by (apply confined_lift || apply confined_push_all)|]; intros). apply confined_push_all.
  - intros w d1 Hi. apply wpc_bind.
    eapply wpc_mono; [| |eapply (wpc_rewrite_boundaries spec seq d tc i start stop (ro_fresh d Hok) Ht Hlt ft d1 w [] segs rows Hi Hg Hr)]; cbv beta; [|done].
    intros r d2 Hfed.
    pose proof (fed_then spec seq d ft [] _ (all_rows bs) _ (push_new spec bs) r d2
      (fun d3 w p Hi' => wpc_push_new spec seq d Hne ft d3 w p bs Hi') (reflexivity _) Hfed) as Hnext.
    destruct r as [w2|e]; [|done]. eapply wpc_mono; [| |exact Hnext]; cbv beta; [|done].
    intros [w3|e] d3 Hw3; [|done]. destruct Hw3 as (more & Hi3 & Hf3 & Hp3). by exists more.
Qed.

(** A property of rows that holds of each segment holds of them all. *)
Lemma contents_rows (m : gmap Path File) (P : Rows -> Prop) segs rows :
  P [] -> (forall a b, P a -> P b -> P (a ++ b)) ->
  (forall g r, In g segs -> segment_rows m g = Some r -> P r) -> contents m segs = Some rows -> P rows.
Proof.
  intros H0' Happ. unfold contents. revert rows. induction segs as [|g segs IH]; intros rows Hg Hr; [by injection Hr as <-|].
  cbn in Hr. destruct (segment_rows m g) as [r|] eqn:E; [|done]. cbn in Hr.
  destruct (mapM (segment_rows m) segs) as [rs|]; [|done]. injection Hr as <-. cbn.
  apply Happ; [apply (Hg g); [by left|done]|]. apply IH; [|done]. intros g' r' Hin. apply Hg. by right.
Qed.

(** The rows outside the range, by what happens to their segments. *)
Lemma outside_split (m : gmap Path File) tc sc i start stop segs rows :
  time_at tc sc i -> (forall g, In g segs -> times_bounded (Some tc) sc m g) -> contents m segs = Some rows ->
  exists kept rewritten, contents m (List.filter (Writes.is_kept start stop) segs) = Some kept /\
    contents m (List.filter (Writes.is_boundary start stop) segs) = Some rewritten /\
    List.filter (outside i start stop) rows ≡ₚ kept ++ List.filter (outside i start stop) rewritten.
Proof.
  intros Ht Hb Hr. destruct (contents_perm m segs _ rows (symmetry (three_ways start stop segs)) Hr) as (rows' & Hr' & Hp).
  rewrite !contents_app in Hr'. destruct (contents m (List.filter (Writes.is_kept start stop) segs)) as [k|] eqn:Ek; [|done].
  destruct (contents m (List.filter (Writes.is_boundary start stop) segs)) as [b|] eqn:Eb; [|done].
  destruct (contents m (List.filter (is_dropped start stop) segs)) as [dr|] eqn:Ed; [|done]. cbn in Hr'. injection Hr' as <-.
  exists k, b. do 2 (split; [done|]). rewrite <- Hp, !List.filter_app.
  assert (Hk : List.filter (outside i start stop) k = k).
  { eapply (contents_rows m (fun r => List.filter (outside i start stop) r = r)); [done|intros; rewrite List.filter_app; congruence| |exact Ek].
    intros g r [Hin Hkept]%filter_In Hgr. eapply kept_rows; [by apply Hb|done..]. }
  assert (Hd : List.filter (outside i start stop) dr = []).
  { eapply (contents_rows m (fun r => List.filter (outside i start stop) r = [])); [done|intros a c Ha Hc; by rewrite List.filter_app, Ha| |exact Ed].
    intros g r [Hin Hdr]%filter_In Hgr. eapply dropped_rows; [by apply Hb|done..]. }
  by rewrite Hk, Hd, app_nil_r.
Qed.

Lemma table_time_base d d1 name i e spec h mf : same_files d d1 -> base_version (files d1) name e spec h mf ->
  table_time d name i -> exists tc, ts_time_column spec = Some tc /\ time_at tc (ts_schema spec) i.
Proof.
  intros Hs Hb (e' & mf' & sp & tc & He & Hc & Hsp & Htc & Ht). pose proof (base_current _ _ _ _ _ _ Hb) as Hc1.
  destruct Hb as (He1 & _ & _ & Hsp1). unfold current in Hc1. rewrite (proj1 Hs) in *.
  pose proof (named_fun _ _ _ _ He He1) as ->. pose proof (current_fun d _ _ _ Hc Hc1) as ->.
  rewrite (spec_at_fun _ _ _ _ _ Hsp Hsp1) in *. by exists tc.
Qed.

Lemma one_revision_same d d1 : same_files d d1 -> one_revision d -> one_revision d1.
Proof. intros [Hf _] Ho t mf (h & Hh & Hm). rewrite Hf in Hh, Hm. apply (Ho t). by exists h. Qed.

(** Staging, committing and releasing a replaced range. *)
Lemma wpc_range ft db name i start stop batches opts op e spec h mf tc d d1 (Q : DbResult CommitResult -> Disk -> Prop) :
  collision_free -> one_revision d -> rows_ok d1 -> same_files d d1 -> base_version (files d1) name e spec h mf ->
  ts_time_column spec = Some tc -> time_at tc (ts_schema spec) i -> start < stop ->
  (forall e d', Q (Err e) d') -> (forall r d', changed name (range_replaced i start stop batches) d d' -> Q (Ok r) d') ->
  wpc ft (let! w := SegmentWriter.new spec (ts_schema spec) (hd_sequence (hs_head h) + 1) in
          let! w := (let! w := fold_prog (Writes.rewrite_boundary tc start stop) w
                      (List.filter (Writes.is_boundary start stop) (mf_segments mf)) in push_new spec batches w) in
          let! '(rewritten, _sorted, lease) := SegmentWriter.finish w in
          let! '(rewritten, deduped) := dedup_segments rewritten mf in
          let segments := Writes.in_time_order (List.filter (Writes.is_kept start stop) (mf_segments mf) ++ rewritten) in
          let manifest := child_manifest mf (hd_sequence (hs_head h) + 1) op opts spec <| mf_segments := segments |> in
          let! res := Commit.commit_manifest db name (ce_table_id e) (Some h) manifest
                        (zlen rewritten - deduped) (Writes.known_inputs spec mf) in
          do! Commit.release_staging lease in
          ret (res <| cr_segments_deduped := deduped |>)) d1 Q (fun _ => True).
Proof.
  intros Hcf Hone Hok1 Hs Hbase Htc Ht Hlt HE HO. destruct (base_good _ _ _ _ _ _ Hok1 Hbase) as (Hg & Hsp & Hgs).
  pose proof (base_current _ _ _ _ _ _ Hbase) as Hcur. apply (one_revision_same _ _ Hs) in Hone.
  assert (Hpl : forall g, In g (mf_segments mf) -> plain_segment (files d1) (ts_schema spec) g /\
    times_bounded (Some tc) (ts_schema spec) (files d1) g).
  { intros g Hin. rewrite <- Htc. by eapply plain_of_good. }
  destruct (good_contents _ _ _ Hg) as [rows Hrows].
  destruct (outside_split (files d1) tc (ts_schema spec) i start stop (mf_segments mf) rows Ht (fun g Hin => proj2 (Hpl g Hin)) Hrows)
    as (kept & old & Hk & Ho & Hsplit).
  assert (Hplain : Forall (plain_segment (files d1) (ts_schema spec)) (List.filter (Writes.is_boundary start stop) (mf_segments mf))).
  { apply List.Forall_forall. intros g [Hin _]%filter_In. by apply Hpl. }
  pose proof (range_feeds ft d1 spec (hd_sequence (hs_head h) + 1) tc i start stop _ old batches Hok1
    (gs_columns _ _ _ Hgs) Ht Hlt Hplain Ho) as Hfeed.
  eapply (wpc_stage ft d1 (ce_table_id e) spec _ _ mf _ _ _ Q Hcf Hok1 Hsp Hg); [|exact Hfeed|done|].
  { by intros pushed [? _]. }
  intros ms k lease pushed d2 Hlf [_ Hpp] Hst. cbv zeta.
  set (segs := List.filter (Writes.is_kept start stop) (mf_segments mf) ++ ms).
  assert (Hk2 : contents (files d2) segs = Some (kept ++ all_rows pushed)).
  { unfold segs. rewrite contents_app, (st_rows _ _ _ _ _ _ Hst), (contents_kept (files d1)), Hk; [done|].
    intros g [Hin _]%filter_In. apply (st_same _ _ _ _ _ _ Hst). rewrite List.Forall_forall in Hg. auto. }
  destruct (contents_perm (files d2) segs (Writes.in_time_order segs) _ (symmetry (in_time_order_perm segs)) Hk2) as (rows' & Hr' & Hpr).
  eapply (wpc_publish_rows ft db name e h _ _ _ lease d2 (fun r => r <| cr_segments_deduped := k |>) (eq (Some rows')));
    [done|apply Hst|..|exact HE|].
  - rewrite child_segments. eapply Permutation_Forall; [symmetry; apply in_time_order_perm|]. apply Forall_app. split; [|apply Hst].
    pose proof (st_parent _ _ _ _ _ _ Hst) as Hpar. rewrite List.Forall_forall in *. intros g [Hin _]%filter_In. auto.
  - by rewrite child_segments.
  - intros r m d3 Hok3 Hcur3 Hn3 Hc3. apply HO. apply (changed_from _ _ _ d1 _ Hs). split; [done|transitivity d2; [apply Hst|done]|].
    exists e, mf, m, rows, rows'. split; [apply Hbase|]. do 4 (split; [done|]). unfold range_replaced. by rewrite Hpr, Hpp, Hsplit, <- app_assoc.
Qed.

Lemma wpc_replace_range ft db name i start stop batches opts op d (Q : DbResult CommitResult -> Disk -> Prop) :
  collision_free -> db_fork db = None -> wo_idempotency_key opts = None -> rows_ok d -> one_revision d ->
  table_time d name i -> Forall valid_batch batches ->
  (forall e d', Q (Err e) d') -> (forall r d', changed name (range_replaced i start stop batches) d d' -> Q (Ok r) d') ->
  wpc ft (Writes.replace_range_impl db name start stop batches opts op) d Q (fun _ => True).
Proof.
  intros Hcf Hb Hk Hok Hone Htt Hv HE HO. unfold Writes.replace_range_impl. apply not_replayed; [done|].
  destruct (Z.leb_spec stop start) as [|Hlt]; [done|].
  eapply (prologue_step ft d); try done. intros e spec h mf d2 H2 Hok2 Hbase.
  destruct (table_time_base _ _ _ _ _ _ _ _ (proj1 H2) Hbase Htt) as (tc & Htc & Ht). rewrite Htc.
  apply wpc_bind, wpc_lift; [done|]. cbn [ok_or]. cbv zeta.
  eapply (checked_step ft d); try done. intros d3 H3 Hok3 Hbase3 Hfit.
  apply wpc_bind, wpc_lift; [done|]. destruct (Validate.rows_in_window _ _ _ _); [|done].
  eapply (wpc_bind_ext ft); [intros w d'; apply (proj1 (wpc_bind_assoc ft _ (push_new spec batches) _ d' Q _))|].
  by apply (wpc_range ft db name i start stop batches opts op e spec h mf tc d d3 Q); try apply H3.
Qed.
End RangeProps.
