(* ===== verification/RowTheorems.v ===== *)
(** * Scanning

    A scan returns the rows of the version it resolved that are in the window, up to the
    limit, in the order of the manifest: pruning segments by their recorded range and row
    groups by their statistics loses no row of the window. *)
From S2P Require Export RowProps Scan.

Section ScanProps.
Context `{Env} `{ArrowRowsSpec}.
Implicit Types (m : gmap Path File) (g : SegmentMeta) (mf : VersionManifest) (db : Database) (o : ScanOptions).
Abbreviation Rows := (list (list (option Cell))) (only parsing).

(** ** The limit *)
Definition up_to (limit : option Z) (rows : Z) (l : Rows) : Rows :=
  match limit with Some lim => firstn (Z.to_nat (lim - rows)) l | None => l end.

Lemma slice_rows b n : table_rows (slice b 0 n) = firstn n (table_rows b).
Proof.
  unfold table_rows, slice. cbn. rewrite Nat.sub_0_r. rewrite firstn_map, take_seq. apply map_ext_in. intros j Hj%in_seq.
  unfold row_at. rewrite map_map. apply map_ext. intros c. unfold cell, slice_column. cbn. by rewrite lookup_take_lt by lia.
Qed.

Lemma length_table_rows b : length (table_rows b) = rb_rows b.
Proof. unfold table_rows. by rewrite length_map, length_seq. Qed.

(** What one batch gives, and how many rows have come by then. *)
Lemma take_batches_spec limit rows bs out st :
  Scan.take_batches limit None rows bs = Ok (out, st) ->
  all_rows out = up_to limit rows (all_rows bs) /\
  match st with
  | Some rows' => forall more, up_to limit rows (all_rows bs ++ more) = all_rows out ++ up_to limit rows' more
  | None => forall more, up_to limit rows (all_rows bs ++ more) = all_rows out
  end.
Proof.
  revert rows out st. induction bs as [|b bs IH]; intros rows out st; cbn [Scan.take_batches].
  - intros [= <- <-]. split; [|done]. unfold up_to. destruct limit; [by rewrite firstn_nil|done].
  - destruct (match limit with Some lim => lim <=? rows | None => false end) eqn:El.
    { intros [= <- <-]. destruct limit as [lim|]; [|done]. apply Z.leb_le in El.
      unfold up_to. assert (Z.to_nat (lim - rows) = O) as -> by lia. by split. }
    set (b' := match limit with Some lim => _ | None => b end).
    destruct (Scan.take_batches limit None (rows + num_rows b') bs) as [[rest s]|] eqn:E; [|done]. cbn. intros [= <- <-].
    destruct (IH _ _ _ E) as [Hr Hs].
    assert (Hout : all_rows ((if 0 <? num_rows b' then [b'] else []) ++ rest) = table_rows b' ++ all_rows rest).
    { rewrite all_rows_app. destruct (Z.ltb_spec 0 (num_rows b')) as [Hn|Hn]; cbn; [by rewrite app_nil_r|].
      unfold table_rows. unfold num_rows in Hn. by assert (rb_rows b' = O) as -> by lia. }
    rewrite Hout. change (all_rows (b :: bs)) with (table_rows b ++ all_rows bs).
    assert (Hb : forall l, up_to limit rows (table_rows b ++ l) = table_rows b' ++ up_to limit (rows + num_rows b') l).
    { intros l. unfold b', up_to. destruct limit as [lim|]; [|done]. apply Z.leb_gt in El.
      rewrite firstn_app, length_table_rows. destruct (Z.ltb_spec lim (rows + num_rows b)) as [Hc|Hc].
      - rewrite slice_rows. unfold num_rows in *. cbn [rb_rows slice]. f_equal. rewrite Nat.sub_0_r. f_equal. lia.
      - unfold num_rows in *. rewrite firstn_all2 by (rewrite length_table_rows; lia). f_equal. f_equal. lia. }
    split; [by rewrite Hb, Hr|]. destruct s; intros more; rewrite <- app_assoc, Hb, Hs; [by rewrite <- app_assoc|done].
Qed.

(** The segments one after the other. *)
Lemma finds_segments m limit (read : SegmentMeta -> prog (list RecordBatch)) (R : SegmentMeta -> Rows) segs rows :
  (forall g, In g segs -> finds m (read g) (fun bs => all_rows bs = R g)) ->
  finds m (Scan.scan_segments read limit None rows segs)
    (fun out => all_rows out = up_to limit rows (concat (map R segs))).
Proof.
  revert rows. induction segs as [|g segs IH]; intros rows Hr; cbn [Scan.scan_segments map concat].
  - apply finds_ret. unfold up_to. destruct limit; [by rewrite firstn_nil|done].
  - eapply finds_bind; [apply Hr; by left|]. intros bs Hbs.
    eapply finds_bind; [apply (finds_lift _ _ (fun out => Scan.take_batches limit None rows bs = Ok out)); by intros ? ->|].
    intros [out st] Ht. destruct (take_batches_spec _ _ _ _ _ Ht) as [Hout Hst]. rewrite Hbs in Hst. destruct st as [rows'|].
    + eapply finds_bind; [apply IH; intros g' Hin; apply Hr; by right|]. intros rest Hrest. apply finds_ret.
      by rewrite all_rows_app, Hrest, Hst.
    + apply finds_ret. by rewrite Hst.
Qed.

(** ** Reading one segment *)

(** The filter of a scan, and the window it stands for. *)
Definition filter_of o (tc : option string) : option (string * option Z * option Z) :=
  if Scan.time_filter_requested o then (fun c => (c, sp_time_start o, sp_time_end o)) <$> tc else None.
Definition rows_in o (i : nat) (rows : Rows) : Rows := List.filter (in_window i (sp_time_start o) (sp_time_end o)) rows.

(** [i] is where a row has its time, if the scan asks for times. *)
Definition timed_by o (spec : TableSpec) (i : nat) : Prop :=
  Scan.time_filter_requested o = true -> exists tc, ts_time_column spec = Some tc /\ time_at tc (ts_schema spec) i.

Lemma unfiltered o i rows : Scan.time_filter_requested o = false -> rows_in o i rows = rows.
Proof.
  unfold Scan.time_filter_requested, rows_in. destruct (sp_time_start o), (sp_time_end o); cbn; try done. intros _. apply no_window.
Qed.

Lemma finds_read_filtered m g o spec i : readable m (ts_schema spec) g ->
  times_bounded (ts_time_column spec) (ts_schema spec) m g -> timed_by o spec i ->
  finds m (SegmentReader.read_segment g None (filter_of o (ts_time_column spec)))
    (fun bs => all_rows bs = rows_in o i (default [] (segment_rows m g))).
Proof.
  intros _ Hb Ht. unfold filter_of. destruct (Scan.time_filter_requested o) eqn:Er.
  2: { eapply finds_mono; [|apply finds_read_segment]. intros bs Hbs. unfold segment_rows. rewrite Hbs. by rewrite unfiltered. }
  destruct (Ht Er) as (tc & Hc & Hta). rewrite Hc in *. destruct (Hb tc i eq_refl Hta) as [_ Hf]. cbn.
  unfold SegmentReader.read_segment.
  eapply finds_bind; [by apply (finds_get_opt _ _ (eq (fl_obj <$> m !! sg_path g)))|].
  intros ob <-. destruct (m !! sg_path g) as [f|] eqn:E; cbn [fmap option_fmap option_map]; [|done].
  eapply finds_bind; [apply (finds_lift _ _ (fun c => SegmentReader.content_of (fl_obj f) = Some c))|].
  { intros c. by destruct (SegmentReader.content_of (fl_obj f)); intros [= <-]. }
  intros c Hco. apply finds_lift. intros bs Hd. destruct (Hf _ _ f c bs E Hco Hd) as (rows & -> & Hrows). done.
Qed.

Lemma finds_read_verified m g o spec i : readable m (ts_schema spec) g -> timed_by o spec i ->
  finds m (SegmentReader.read_segment_verified g None (filter_of o (ts_time_column spec)))
    (fun bs => all_rows bs = rows_in o i (default [] (segment_rows m g))).
Proof.
  intros (bs0 & Hb0 & Hall) Ht. unfold SegmentReader.read_segment_verified. unfold segment_rows. rewrite Hb0.
  unfold segment_batches in Hb0. eapply finds_bind; [by apply (finds_get _ _ (fun ob : Obj => exists f, m !! sg_path g = Some f /\ fl_obj f = ob)); eauto|].
  intros ob (f & Hf & <-). rewrite Hf in Hb0. cbn in Hb0. unfold decoded in Hb0. destruct (negb _); [done|].
  eapply finds_bind; [apply (finds_lift _ _ (fun c => SegmentReader.content_of (fl_obj f) = Some c))|].
  { intros c. by destruct (SegmentReader.content_of (fl_obj f)); intros [= <-]. }
  intros c Hc. rewrite Hc in Hb0. cbn in Hb0. destruct (parquet_metadata c) as [meta|]; [|done]. cbn in Hb0 |- *.
  eapply finds_bind; [by apply (finds_lift _ _ (eq meta)); intros x [= <-]|]. intros x <-.
  eapply finds_bind; [by apply (finds_lift _ _ (eq None)); intros x [= <-]|]. intros x <-.
  eapply finds_bind; [by apply (finds_lift _ _ (eq bs0)); intros bs; rewrite Hb0; intros [= <-]|]. intros bs <-.
  apply finds_lift. unfold filter_of. destruct (Scan.time_filter_requested o) eqn:Er; cbn.
  2: { intros bs [= <-]. symmetry. by apply unfiltered. }
  destruct (Ht Er) as (tc & Htc & Hta). rewrite Htc. cbn. intros bs Ho.
  assert (Hcase : SegmentTime.filter_batches_by_time bs0 tc (sp_time_start o) (sp_time_end o) = Ok bs).
  { unfold Scan.time_filter_requested in Er. destruct (sp_time_start o), (sp_time_end o); done. }
  destruct (filter_rows_spec tc _ i _ _ bs0 bs Hta Hall Hcase) as [_ Hrows]. done.
Qed.

(** ** The segments a scan leaves out *)
Lemma pruned_rows m g i start stop rows : range_bounds m g i -> segment_rows m g = Some rows ->
  SegmentMeta.overlaps_time g start stop = false -> List.filter (in_window i start stop) rows = [].
Proof.
  intros Hb Hr. unfold SegmentMeta.overlaps_time. destruct (sg_time_range g) as [[lo hi]|] eqn:E; [|done]. intros Ho.
  apply filter_none. eapply Forall_impl; [exact (Hb lo hi rows E Hr)|]. intros r Hx. cbn in Hx. apply not_true_iff_false.
  unfold in_window, SegmentTime.in_window. rewrite andb_true_iff. destruct start, stop; cbn in *; bool_prop; rewrite ?Z.leb_le, ?Z.ltb_lt; lia.
Qed.

(** The rows of the survivors in the window are those of all the segments. *)
Lemma survivors_rows m o spec i segs rows : (forall g, In g segs -> times_bounded (ts_time_column spec) (ts_schema spec) m g) ->
  timed_by o spec i -> contents m segs = Some rows ->
  concat (map (fun g => rows_in o i (default [] (segment_rows m g))) (Scan.survivors o segs)) = rows_in o i rows.
Proof.
  intros Hb Ht. unfold contents. revert rows. induction segs as [|g segs IH]; intros rows Hr; [by injection Hr as <-|].
  cbn in Hr. destruct (segment_rows m g) as [r|] eqn:E; [|done]. cbn in Hr.
  destruct (mapM (segment_rows m) segs) as [rs|]; [|done]. injection Hr as <-.
  specialize (IH (fun g' Hin => Hb g' (or_intror Hin)) (concat rs) eq_refl). unfold Scan.survivors in *. cbn [List.filter concat].
  unfold rows_in at 2. rewrite List.filter_app. destruct (negb _ || _) eqn:Es; cbn [map concat].
  - rewrite IH, E. done.
  - rewrite IH. apply orb_false_iff in Es as [Er Eo]. apply negb_false_iff in Er. destruct (Ht Er) as (tc & Hc & Hta).
    destruct (Hb g (or_introl eq_refl) tc i Hc Hta) as [Hrb _]. by rewrite (pruned_rows m g i _ _ r Hrb E Eo).
Qed.

(** ** Scanning a table *)
Lemma finds_forall {A} m (p : prog A) (I : nat -> Prop) (T : A -> Prop) (R : nat -> A -> Prop) :
  finds m p T -> (forall i, I i -> finds m p (R i)) -> finds m p (fun a => T a /\ forall i, I i -> R i a).
Proof.
  induction p as [[a|e]|U c k IH]; cbn; [by split|done|]. intros (Hc & H1' & H2') Hp. split; [done|]. split.
  - intros d Hd. apply IH; [by apply H1'|]. intros i Hi. by apply (Hp i Hi).
  - apply IH; [done|]. intros i Hi. apply (Hp i Hi).
Qed.

Lemma zlen_all_rows bs : SegmentWriter.total_rows bs = zlen (all_rows bs).
Proof.
  unfold SegmentWriter.total_rows, all_rows, zlen. induction bs as [|b bs IH]; [done|]. cbn [map concat].
  rewrite length_app, length_table_rows. rewrite zsum_cons, IH. unfold num_rows. lia.
Qed.

Lemma read_only_segments limit drop (read : SegmentMeta -> prog (list RecordBatch)) segs rows :
  (forall g, read_only (read g)) -> read_only (Scan.scan_segments read limit drop rows segs).
Proof.
  intros Hr. revert rows. induction segs as [|g segs IH]; intros rows; [done|]. cbn [Scan.scan_segments].
  apply read_only_bind; [apply Hr|]. intros bs. apply read_only_bind; [done|]. intros [out [rows'|]]; [|done].
  by apply read_only_bind.
Qed.

Lemma finds_rows_returned m r o : finds m (Scan.scan_resolved r o) (fun out => sr_rows_returned out.2 = zlen (all_rows out.1)).
Proof.
  unfold Scan.scan_resolved. destruct (_ && _); [done|]. cbv zeta. destruct (Scan.effective_projection _ _) as [proj drop].
  eapply finds_bind; [apply finds_read_only, read_only_segments|].
  - intros g. unfold Scan.read_adapted, Scan.read_one, SegmentReader.read_segment, SegmentReader.read_segment_verified, Backend.get, Backend.get_opt, call.
    destruct (_ =? _); destruct (sp_verify_checksums o); read_only_tac.
  - intros bs _. apply finds_ret. apply zlen_all_rows.
Qed.

Lemma finds_scan_resolved m r o i rows : sp_projection o = None ->
  (forall g, In g (mf_segments (rt_manifest r)) -> sg_schema_revision g = ts_schema_revision (rt_spec r) /\
     readable m (ts_schema (rt_spec r)) g /\ times_bounded (ts_time_column (rt_spec r)) (ts_schema (rt_spec r)) m g) ->
  timed_by o (rt_spec r) i -> contents m (mf_segments (rt_manifest r)) = Some rows ->
  finds m (Scan.scan_resolved r o) (fun out => all_rows out.1 = up_to (sp_limit o) 0 (rows_in o i rows)).
Proof.
  intros Hp Hsegs Ht Hrows. unfold Scan.scan_resolved. destruct (_ && _); [done|]. cbv zeta.
  unfold Scan.effective_projection. rewrite Hp. fold (filter_of o (ts_time_column (rt_spec r))).
  eapply finds_bind; [apply (finds_segments m (sp_limit o) _ (fun g => rows_in o i (default [] (segment_rows m g))))|].
  - intros g Hin. assert (Hin' : In g (mf_segments (rt_manifest r))) by (by apply filter_In in Hin as [? _]).
    destruct (Hsegs g Hin') as (Hrev & Hread & Htb). unfold Scan.read_adapted. rewrite Hrev, Z.eqb_refl. unfold Scan.read_one.
    destruct (sp_verify_checksums o); [by apply finds_read_verified|by apply finds_read_filtered].
  - intros bs Hbs. apply finds_ret. cbn [fst]. rewrite Hbs. f_equal.
    apply (survivors_rows m o (rt_spec r)); [|done|done]. intros g Hin. by apply Hsegs.
Qed.

(** The segments of every version have the schema of the version. *)
Definition revisions_agree d : Prop := forall t s mf, Reads.stored (files d) t s mf -> 0 <= mf_schema_revision mf /\
  Forall (fun g => sg_schema_revision g = mf_schema_revision mf) (mf_segments mf).

(** What a scan of the table returns at the version it selects. *)
Definition scanned d db name at_ o (out : list RecordBatch * ScanReport) : Prop :=
  exists e mf spec hs s rows,
    named (files d) name e /\ effective (files d) db e hs /\ selects (files d) e at_ hs s /\
    Reads.stored (files d) (ce_table_id e) s mf /\ spec_at (files d) (ce_table_id e) (mf_schema_revision mf) spec /\
    contents (files d) (mf_segments mf) = Some rows /\ sr_rows_returned out.2 = zlen (all_rows out.1) /\
    forall i, timed_by o spec i -> all_rows out.1 = up_to (sp_limit o) 0 (rows_in o i rows).

Lemma finds_scan d db name at_ o : db_fork db = None -> rows_ok d -> revisions_agree d -> sp_projection o = None ->
  finds (files d) (Scan.scan db name at_ o) (scanned d db name at_ o).
Proof.
  intros Hb Hok Hrev Hp. unfold Scan.scan. eapply finds_bind; [apply finds_resolve|]. intros r (He & (s & Hs & Hst) & Hn & Hsp & _).
  destruct (Hrev _ _ _ Hst) as [Hu Hr]. pose proof (ro_segments d Hok _ _ _ Hst) as Hg.
  destruct (good_contents _ _ _ Hg) as [rows Hrows]. destruct (ro_specs d Hok _ _ _ Hsp) as [_ Hsr Hsu _ _].
  apply spec_path_inj in Hsr as [_ Hsr]; [|done..].
  assert (Hsegs : forall g, In g (mf_segments (rt_manifest r)) -> sg_schema_revision g = ts_schema_revision (rt_spec r) /\
     readable (files d) (ts_schema (rt_spec r)) g /\ times_bounded (ts_time_column (rt_spec r)) (ts_schema (rt_spec r)) (files d) g).
  { intros g Hin. rewrite List.Forall_forall in Hr, Hg. destruct (Hg g Hin) as (_ & _ & sp & Hsp' & Hread).
    rewrite (Hr g Hin) in Hsp' |- *. pose proof (spec_at_fun _ _ _ _ _ Hsp Hsp') as <-. done. }
  eapply finds_mono; [|apply (finds_forall _ _ (timed_by o (rt_spec r)) _ (fun i out =>
    all_rows out.1 = up_to (sp_limit o) 0 (rows_in o i rows)) (finds_rows_returned (files d) r o))].
  - intros out [Hn' Hout]. exists (rt_entry r), (rt_manifest r), (rt_spec r), (rt_head_sequence r), s, rows.
    split; [by apply Hn|]. by repeat (split; [done|]).
  - intros i Hi. by apply finds_scan_resolved.
Qed.
End ScanProps.

(** ** What the operations on rows do, run under any faults

    The properties of appends, writes, range rewrites, compactions, scans and staging, as
    statements about runs: each follows from the lemma about its program. *)
Import MergeProps.

Section RowTheorems.
Context `{Env} `{ArrowRowsSpec} `{!Inj (=) (=) new_uuid}.
Implicit Types (d : Disk) (db : Database).

(** A run that succeeds, from what holds of the program. *)
Lemma run_succeeds {A} fs (p : prog A) d (P : A -> Disk -> Prop) :
  (forall Q : DbResult A -> Disk -> Prop, (forall e d', Q (Err e) d') -> (forall a d', P a d' -> Q (Ok a) d') ->
     wpc true p d Q (fun _ => True)) ->
  match run fs p d with (Ok a, d') => P a d' | (Err _, _) => True end.
Proof.
  intros Hw. specialize (Hw (fun r d' => match r with Ok a => P a d' | Err _ => True end) ltac:(done) ltac:(done)).
  pose proof (wpc_run true _ _ _ _ fs Hw ltac:(done)) as HQ. by destruct (run fs p d) as [[a|e] d'].
Qed.

(** C7 An append on the base database without an idempotency key that succeeds leaves the rows
    that were there, and behind them its own, in their order.  Only when it compacted first, to
    make room in the manifest, may the rows before them be in another order; none is lost, none
    appears twice, and the state stays sound.  An append that may compact is covered when the
    current versions list only segments of their own schema revision.  (A keyed append in a
    fork may succeed and write nothing, [keyed_write_in_a_fork_is_skipped].) *)
Theorem append_adds_its_rows fs db name batches opts compacts d :
  collision_free -> db_fork db = None -> wo_idempotency_key opts = None -> rows_ok d ->
  (compacts = true -> one_revision d) -> Forall valid_batch batches ->
  match run fs (if compacts then Writes.append db name batches opts
                else Writes.append_inner db name batches opts false) d with
  | (Ok _, d') => changed name (appended_up_to compacts batches) d d'
  | (Err _, _) => True
  end.
Proof.
  intros Hcf Hb Hk Hok Hone Hv. apply (run_succeeds fs _ d (fun _ => changed name (appended_up_to compacts batches) d)).
  intros Q HE HO. destruct compacts.
  - unfold Writes.append. apply not_replayed; [done|]. by apply wpc_append.
  - by apply wpc_append.
Qed.

(** A write that succeeds leaves exactly its rows, in the order of the sort key, whatever the
    table held. *)
Theorem write_replaces_the_rows fs db name s batches opts d :
  collision_free -> db_fork db = None -> wo_idempotency_key opts = None -> rows_ok d -> Forall (uniform s) batches ->
  match run fs (Writes.write db name batches opts) d with
  | (Ok _, d') => changed name (replaced d name s batches) d d'
  | (Err _, _) => True
  end.
Proof.
  intros Hcf Hb Hk Hok Hu. apply (run_succeeds fs _ d (fun _ => changed name (replaced d name s batches) d)).
  intros Q HE HO. unfold Writes.write. apply not_replayed; [done|]. apply wpc_bind.
  by apply (wpc_stage_write true db name s).
Qed.

(** C35 Replacing or deleting a range of times, on the base database and without an idempotency
    key, changes that range and nothing else: as a multiset, the rows after are those outside
    the range before and the new ones.  The current versions list only segments of their own
    schema revision; others the operation refuses to rewrite
    ([old_segments_cannot_be_compacted]). *)
Theorem range_is_replaced fs db name i start stop batches opts op d :
  collision_free -> db_fork db = None -> wo_idempotency_key opts = None -> rows_ok d -> one_revision d ->
  table_time d name i -> Forall valid_batch batches ->
  match run fs (Writes.replace_range_impl db name start stop batches opts op) d with
  | (Ok _, d') => changed name (range_replaced i start stop batches) d d'
  | (Err _, _) => True
  end.
Proof.
  intros Hcf Hb Hk Hok Hone Ht Hv. apply (run_succeeds fs _ d (fun _ => changed name (range_replaced i start stop batches) d)).
  intros Q HE HO. by apply (wpc_replace_range true db name i).
Qed.

(** C11 A compaction keeps the rows of the table, whatever segments it merges: on the base
    database, without an idempotency key, where the current versions list only segments of
    their own schema revision. *)
Theorem compaction_keeps_the_rows fs db name target opts d :
  collision_free -> db_fork db = None -> wo_idempotency_key opts = None -> rows_ok d -> one_revision d ->
  match run fs (Writes.compact_with db name target opts) d with
  | (Ok _, d') => changed name (≡ₚ) d d'
  | (Err _, _) => True
  end.
Proof.
  intros Hcf Hb Hk Hok Hone. apply (run_succeeds fs _ d (fun _ => changed name (≡ₚ) d)).
  intros Q HE HO. by apply (wpc_compact true db name target opts d d).
Qed.

(** C9 A scan of all columns of a table of the base database returns, in order, the rows of the
    version it selects that are in the window, up to the limit: pruning segments by their time
    range and row groups by their statistics, or verifying checksums and reading everything,
    gives the same rows.  It is for versions that list only segments of their own schema
    revision: projected scans and the adapting of older segments are outside. *)
Theorem scan_reads_the_window fs db name at_ o d :
  db_fork db = None -> rows_ok d -> revisions_agree d -> sp_projection o = None ->
  match (run fs (Scan.scan db name at_ o) d).1 with
  | Ok out => scanned d db name at_ o out
  | Err _ => True
  end.
Proof.
  intros Hb Hok Hrev Hp. apply (finds_run fs (Scan.scan db name at_ o) d (scanned d db name at_ o)). by apply finds_scan.
Qed.

(** At no moment, whichever calls fail, is there an object of a writer that its staging lease
    does not list; and the segments a writer returns hold the batches it was given. *)
Theorem staging_is_leased fs spec seq batches d :
  unused_ids d ->
  let p := let! w := SegmentWriter.new spec (ts_schema spec) seq in
           let! w := SegmentWriter.push_all w batches in SegmentWriter.finish w in
  Forall (leased spec d) (states fs p d) /\
  match run fs p d with
  | (Ok out, d') => stored_batches spec (ts_schema spec) seq d (List.filter SegmentSort.nonempty batches) out d'
  | (Err _, d') => leased spec d d'
  end.
Proof.
  intros Hfr p. assert (Hw : wpc true p d (fun r d' => match r with
    | Ok out => stored_batches spec (ts_schema spec) seq d (List.filter SegmentSort.nonempty batches) out d'
    | Err _ => leased spec d d' end) (leased spec d)).
  { apply wpc_bind. eapply wpc_mono; [|done|by apply wpc_new]. intros [w|e] d1 Hw1; [|by split].
    apply wpc_bind. eapply wpc_mono; [|done|by apply wpc_push_all]. intros [w2|e] d2 Hw2; [|by split]. by apply wpc_finish. }
  split; [by eapply wpc_states|]. pose proof (wpc_run true _ _ _ _ fs Hw ltac:(done)) as HQ. by destruct (run fs p d) as [[out|e] d'].
Qed.
End RowTheorems.
