(* ===== verification/StoreWitness.v ===== *)
(** * Concrete databases

    An instance of [Env] and databases built with the operations themselves from an empty
    directory: the inputs of the witnesses, and runs that show what the code does where it
    surprises. *)
From S2P Require Export ForkProps.
From stdpp Require Import pretty.
#[local] Open Scope Z_scope.

(** ** An environment

    Digests are texts that keep what the demonstrations tell apart; two texts are joined
    so that both can be read back. *)
Fixpoint join_text (a b : string) : string :=
  match a with
  | EmptyString => String "b" b
  | String c a' => String "a" (String c (join_text a' b))
  end.

Lemma join_text_inj a b a' b' : join_text a b = join_text a' b' -> a = a' /\ b = b'.
Proof.
  revert a'. induction a as [|c a IH]; intros [|c' a']; cbn; [by intros [= ->]|done|done|].
  intros [= -> E]. by destruct (IH a' E) as [-> ->].
Qed.

Definition head_text (h : Head) : string :=
  join_text (pretty (hd_format h)) (join_text (pretty (hd_sequence h))
    (join_text (hd_table_id h) (hd_manifest_checksum h))).

Lemma head_text_inj a b : head_text a = head_text b -> a = b.
Proof.
  destruct a, b. unfold head_text.
  intros (E1 & (E2 & (E3 & E4)%join_text_inj)%join_text_inj)%join_text_inj.
  apply (inj pretty) in E1, E2. cbn in *. by subst.
Qed.

Definition segments_text (gs : list SegmentMeta) : string :=
  fold_right (fun g acc => join_text (sg_checksum g) acc) "" gs.

Definition digest (o : Obj) : Digest :=
  match o with
  | OHead h => join_text "head" (head_text h)
  | OManifest m => join_text "manifest" (join_text (mf_table_id m) (join_text (pretty (mf_sequence m)) (segments_text (mf_segments m))))
  | OCatalog e => join_text "catalog" (join_text (ce_name e) (ce_table_id e))
  | OFork f => join_text "fork" (fk_name f)
  | OForkEntry e => join_text "entry" (join_text (fe_name e) (fe_table_id e))
  | OForkIndex x => join_text "index" (pretty (zlen (xi_forks x)))
  | OSnapshot s => join_text "snapshot" (sn_name s)
  | ORetention r => join_text "floor" (pretty (rf_min_retained_sequence r))
  | OSpec s => join_text "spec" (ts_table_id s)
  | OPlan p => join_text "plan" (pl_plan_id p)
  | OJournal j => join_text "journal" (tj_txn_id j)
  | OSegment c => join_text "segment" c
  | _ => "other"
  end.

(** Sizes: a segment is as long as its content; equal kinds of metadata are equally long. *)
Definition demo_size (o : Obj) : Z :=
  match o with OSegment c => Z.of_nat (String.length c) | _ => 100 end.

Definition demo_start : Z := 1000000000000.
#[export] Instance demo_env : Env := {|
  checksum_hex := digest;
  object_size := demo_size;
  hash_name := fun n => n;
  new_uuid := fun n => "u" +:+ pretty n;
  is_uuid := fun s => negb (String.eqb s "segments" || String.eqb s "manifests");
  wall := fun n => demo_start + Z.of_nat n * 1000000000;
|}.

#[export] Instance demo_hash_inj : Inj (=) (=) (hash_name (Env := demo_env)).
Proof. by intros a b E. Qed.

Lemma demo_heads_inj a b : checksum_hex (OHead a) = checksum_hex (OHead b) -> a = b.
Proof. intros E. apply head_text_inj. by apply join_text_inj in E as [_ E]. Qed.

(** ** Programs over the demo *)
Definition nowhere : Disk := mkDisk ∅ ∅ 0 0 ∅.
(** Run without faults, then let the system flush. *)
Definition after {A} (p : prog A) (d : Disk) : Disk := (run [] p d).2 <| pending := ∅ |>.
Definition result_on {A} (p : prog A) (d : Disk) : DbResult A := (run [] p d).1.

Definition demo_db : Database := mkDatabase false None None.
Definition demo_schema : Schema := [mkField "ts" Int64 false; mkField "px" Float64 true].
Definition demo_options : TableOptions := TableOptions_default.
Definition no_opts : WriteOptions := mkWriteOptions None None [] None.

(** What appending one batch stages: the parent's segments and one of its own. *)
Definition demo_segment (t id content : string) (seq : Z) : SegmentMeta :=
  mkSegmentMeta id (segment_path t id) 10 (Z.of_nat (String.length content)) (digest (OSegment content))
    (Some (seq * 10, seq * 10 + 9)) true 1 seq [].
Definition demo_append (db : Database) (name id content : string) (opts : WriteOptions) : prog CommitResult :=
  let! '(entry, spec, h, parent) := Commit.write_prologue db name OpAppend opts in
  let t := ce_table_id entry in
  let seq := hd_sequence (hs_head h) + 1 in
  do! Backend.put (segment_path t id) (OSegment content) in
  let! '(fresh, deduped) := dedup_segments [demo_segment t id content seq] parent in
  Commit.commit_staged db (mkStagedCommit entry h
    (child_manifest parent seq OpAppend opts spec <| mf_segments := mf_segments parent ++ fresh |>)
    1 deduped None (mkCommitInputs None None)).

Definition created : Disk :=
  after (do! Database.create "demo" "1" in Commit.create_table demo_db "t" demo_schema demo_options) nowhere.
Definition tbl : Uuid := "u0".
Definition one : Disk := after (demo_append demo_db "t" "a" "aaaa" no_opts) created.
Definition two : Disk := after (demo_append demo_db "t" "b" "bbbb" no_opts) one.
Definition three : Disk := after (demo_append demo_db "t" "c" "cccc" no_opts) two.

Example demo_head_is_three : match files three !! head_path tbl with
  | Some f => match fl_obj f with OHead h => hd_sequence h | _ => -1 end | None => -1 end = 3.
Proof. vm_compute. reflexivity. Qed.

(** ** Runs that surprise *)
Definition in_fork {A} (name : string) (p : Database -> prog A) : prog A :=
  let! f := Database.open_fork demo_db name in p f.
Definition fork_at (name : string) (as_of : option Z) : prog Fork := Forks.create_fork demo_db name None as_of [].
Definition commit_time (s : Z) (d : Disk) : Z :=
  match result_on (Database.manifest_at tbl s) d with Ok m => mf_committed_at_ns m | Err _ => 0 end.
Definition head_seq (t : Uuid) (d : Disk) : Z :=
  match result_on (Database.head t) d with Ok h => hd_sequence (hs_head h) | Err _ => -1 end.
Definition with_key (k : string) : WriteOptions := no_opts <| wo_idempotency_key := Some k |>.

(** A fork dropped and created again under its name keeps the size of its object, so the index
    answers with the pins of the old one: the floor passes the new fork's pin, and a
    vacuum deletes the version it reads. *)
Definition recreated : Disk :=
  let d1 := after (fork_at "f" (Some (commit_time 3 three))) three in
  let d2 := after (Forks.drop_fork demo_db "f") d1 in
  after (fork_at "f" (Some (commit_time 1 three))) d2.
Definition floored : Disk := after (Retention.set_retention demo_db "t" (BeforeSequence 3) None) recreated.
Definition vacuumed : Disk := after (Vacuum.vacuum demo_db None 0 true) floored.

Example recreated_fork_loses_its_pin :
  match result_on (Fork.load "f") floored with
  | Ok f => fp_sequence <$> Fork.pin f tbl = Some 1
  | Err _ => False
  end /\ floor_at (files floored) tbl = 3 /\
  is_ok (result_on (in_fork "f" (fun db => Database.resolve db "t" Latest)) recreated) = true /\
  result_on (in_fork "f" (fun db => Database.resolve db "t" Latest)) vacuumed
    = Err (Corruption (manifest_path tbl 1) "manifest missing").
Proof. vm_compute. auto. Qed.

(** *** A journal torn before it was flushed

    A transaction starts from the staged commit of its table.  A power loss after the journal
    was written and before it was flushed may leave a file that does not parse: no table has
    moved, and every later open for writing fails. *)
Definition demo_stage (name id content : string) : prog StagedCommit :=
  let! '(entry, spec, h, parent) := Commit.write_prologue demo_db name OpAppend no_opts in
  let t := ce_table_id entry in
  let seq := hd_sequence (hs_head h) + 1 in
  do! Backend.put (segment_path t id) (OSegment content) in
  ret (mkStagedCommit entry h
    (child_manifest parent seq OpAppend no_opts spec
       <| mf_segments := mf_segments parent ++ [demo_segment t id content seq] |>)
    1 0 None (mkCommitInputs None None)).
Definition staging : Disk := after (demo_stage "t" "d" "dddd") three.
Definition staged_commits : list StagedCommit :=
  match result_on (demo_stage "t" "d" "dddd") three with Ok s => [s] | Err _ => [] end.
Definition demo_txn : prog (list CommitResult) := Transaction.commit_staged_transaction_inner "x" staged_commits.

(** The state right after the journal's [put], and the disk with the journal torn. *)
Definition journal_written : Disk :=
  match List.find (fun d => match files d !! txn_path "x" with Some _ => true | None => false end)
    (states [] demo_txn staging) with Some d => d | None => staging end.
Definition torn_journal : Disk :=
  mkDisk (<[txn_path "x" := mkFile (ORaw "") 0]> (files journal_written)) ∅ 0 0 ∅.

Lemma torn_survives d p bytes t a :
  pending d !! p = Some a -> pd_torn a = true ->
  survives d (mkDisk (<[p := mkFile (ORaw bytes) t]> (files d)) ∅ 0 0 ∅).
Proof.
  intros Ha Ht. split; [|done]. intros q. destruct (decide (q = p)) as [->|Hq].
  - right. exists a. split; [done|]. right. split; [done|]. exists bytes, t. apply lookup_insert_eq.
  - left. by apply lookup_insert_ne.
Qed.

Lemma torn_journal_blocks_open :
  crashes demo_txn staging torn_journal /\ head_seq tbl torn_journal = 3 /\
  result_on (Transaction.open "demo") torn_journal = Err (Corruption (txn_path "x") "txn parse").
Proof.
  split; [|split; vm_compute; reflexivity]. exists [], journal_written. split.
  - unfold journal_written. destruct (List.find _ _) as [d|] eqn:E; [by apply find_some in E as [E _]|].
    left. reflexivity.
  - apply (torn_survives _ _ _ _ (default (mkPending [] false) (pending journal_written !! txn_path "x")));
      vm_compute; reflexivity.
Qed.

(** *** A fork of a fork

    [pin_tables] without a time pins the HEAD of the base table, not the version the parent fork
    pins: a child created inside a fork sees commits its parent does not. *)
Definition forked_old : Disk := after (fork_at "f" (Some (commit_time 1 three))) three.
Definition nested : Disk :=
  after (in_fork "f" (fun f => Forks.create_fork f "g" None None [])) forked_old.
Definition version_in (fork : string) (d : Disk) : Z :=
  match result_on (in_fork fork (fun f => Database.resolve f "t" Latest)) d with
  | Ok r => mf_sequence (rt_manifest r) | Err _ => -1 end.

Example nested_fork_pins_the_live_head :
  version_in "f" nested = 1 /\ version_in "g" nested = 3 /\
  match result_on (Fork.load "g") nested with Ok g => fk_parent g = Some "f" | Err _ => False end.
Proof. vm_compute. auto. Qed.

(** *** A keyed write in a fork

    The replay search reads the live HEAD of the table the fork has not shadowed yet: a key
    committed on the base after the fork was cut makes the fork's write a replay, and
    nothing is written in the fork. *)
Definition keyed_base : Disk := after (demo_append demo_db "t" "k" "kkkk" (with_key "key")) forked_old.

Example keyed_write_in_a_fork_is_skipped :
  match result_on (in_fork "f" (fun f => Commit.restore f "t" 1 (with_key "key"))) keyed_base with
  | Ok r => cr_sequence r = 4 /\ cr_op r = "append" | Err _ => False end /\
  bool_decide (files (after (in_fork "f" (fun f => Commit.restore f "t" 1 (with_key "key"))) keyed_base)
               = files keyed_base) = true.
Proof. vm_compute. auto. Qed.

(** *** A plan applied through a fork handle

    [commit_planned] resolves no name and makes no shadow: the plan's table is the base's. *)
Definition demo_plan : MutationPlan :=
  match result_on (Database.head tbl) three, result_on (Database.manifest_at tbl 3) three with
  | Ok h, Ok m =>
      StoreData.seal (mkMutationPlan "p" 0 (demo_start * 2) "t" tbl 3 (hd_manifest_checksum (hs_head h)) OpWrite None []
        1 (firstn 1 (mf_segments m)) (mkPlanSummary 30 10 20 1 0 0 None) None None "")
  | _, _ => mkMutationPlan "" 0 0 "" "" 0 "" OpWrite None [] 0 [] (mkPlanSummary 0 0 0 0 0 0 None) None None ""
  end.
Definition forked_new : Disk := after (fork_at "f" None) three.

Example plan_in_a_fork_moves_the_base :
  let d := after (in_fork "f" (fun f => Commit.apply_plan f demo_plan)) forked_new in
  head_seq tbl d = 4 /\ version_in "f" d = 3.
Proof. vm_compute. auto. Qed.

(** *** Restoring below the floor

    A vacuum with a grace period may delete the segments of a version below the floor and
    keep its younger manifest.  [restore] asks HEAD's bound and not the floor's, so it
    commits a HEAD whose segments are gone. *)
Definition demo_rewrite (name id content : string) : prog CommitResult :=
  let! '(entry, spec, h, parent) := Commit.write_prologue demo_db name OpWrite no_opts in
  let t := ce_table_id entry in
  let seq := hd_sequence (hs_head h) + 1 in
  do! Backend.put (segment_path t id) (OSegment content) in
  Commit.commit_staged demo_db (mkStagedCommit entry h
    (child_manifest parent seq OpWrite no_opts spec <| mf_segments := [demo_segment t id content seq] |>)
    1 0 None (mkCommitInputs None None)).
Definition rewritten : Disk := after (demo_rewrite "t" "w" "wwww") three.
Definition above : Disk := after (Retention.set_retention demo_db "t" (KeepLast 1) None) rewritten.
(** A grace that the segments of version 3 have outlived and its manifest has not. *)
Definition between_grace : Z :=
  match files above !! manifest_path tbl 3 with
  | Some f => Vacuum.age_seconds (now above) (fl_modified f) + 1
  | None => 0
  end.
Definition swept : Disk := after (Vacuum.vacuum demo_db None between_grace true) above.
Definition revived : Disk := after (Commit.restore demo_db "t" 3 no_opts) swept.

Example restore_below_the_floor_loses_segments :
  floor_at (files swept) tbl = 4 /\ head_seq tbl revived = 5 /\
  match result_on (Vacuum.verify demo_db "t" false) swept, result_on (Vacuum.verify demo_db "t" false) revived with
  | Ok before, Ok r => vf_problems before = [] /\
      vf_problems r = map (fun id => SegmentMissing (segment_path tbl id)) ["a"; "b"; "c"]
  | _, _ => False
  end.
Proof. vm_compute. auto. Qed.

(** *** Incremental reads

    In a fork the versions are the shadow's and the segments it inherited carry the numbers of
    the base: a diff over the fork's first append reports the base's segment as well.  A
    segment that was deduplicated carries the version that wrote it first: appending it again
    is a version with more rows and an empty diff. *)
Definition written_fork : Disk := after (in_fork "f" (fun f => demo_append f "t" "n" "nnnn" no_opts)) forked_new.
Definition again : Disk := after (demo_append demo_db "t" "c2" "cccc" no_opts) three.
Definition diff_ids (r : DbResult VersionDiff) : list Uuid :=
  match r with Ok v => map sg_id (vd_added_segments v) | Err _ => ["error"] end.

Example diff_in_a_fork_reports_inherited_segments :
  diff_ids (result_on (in_fork "f" (fun f => Retention.diff f "t" 0 1)) written_fork) = ["a"; "n"] /\
  diff_ids (result_on (Retention.diff demo_db "t" 3 4) again) = [] /\
  match result_on (Database.manifest_at tbl 4) again with Ok m => mf_rows m = 40 | Err _ => False end.
Proof. vm_compute. auto. Qed.

(** *** A revision number used twice

    Restoring a version from before an evolution brings its revision back; the next
    evolution takes the number the dropped one had and overwrites its spec, so the version
    committed under it is read with another schema. *)
Definition wide_schema : Schema := demo_schema ++ [mkField "sz" Int32 true].
Definition other_schema : Schema := demo_schema ++ [mkField "venue" UInt8 true].
Definition evolved : Disk := after (Commit.evolve_schema demo_db "t" wide_schema no_opts) three.
Definition evolved_twice : Disk :=
  after (Commit.evolve_schema demo_db "t" other_schema no_opts)
    (after (Commit.restore demo_db "t" 3 no_opts) evolved).
Definition schema_at (v : Z) (d : Disk) : Schema :=
  match result_on (Database.resolve demo_db "t" (Version v)) d with Ok r => rt_schema r | Err _ => [] end.

Example evolution_after_restore_rewrites_a_spec :
  schema_at 4 evolved = wide_schema /\ schema_at 4 evolved_twice = other_schema.
Proof. vm_compute. auto. Qed.

(** *** A fork tree that is not a tree

    [drop_fork_tree] collects forks in preorder and drops them in reverse; a fork that depends
    on two others is not always dropped before both. *)
Definition demo_table (f : Database) (name : string) : prog CommitResult :=
  Commit.create_table f name demo_schema demo_options.
Definition diamond : Disk :=
  after (in_fork "p" (fun p => demo_table p "tp"))
    (after (fork_at "p" None) three).
Definition diamond2 : Disk :=
  after (in_fork "a" (fun c => demo_table c "tc"))
    (after (in_fork "p" (fun p => Forks.create_fork p "a" None None [])) diamond).
Definition diamond3 : Disk :=
  after (in_fork "a" (fun c => Forks.create_fork c "b" None None [])) diamond2.

Example drop_fork_tree_stops_at_a_diamond :
  result_on (Forks.forks_depending_on demo_db "p") diamond3 = Ok ["a"; "b"] /\
  result_on (Forks.drop_fork_tree demo_db 20 "p") diamond3
    = Err (InvalidInput "fork has forks nested below it").
Proof. vm_compute. auto. Qed.

(** ** The theorems at concrete databases

    Checks of the theorems' hypotheses on a disk, and the theorems of the storage engine
    applied to the databases of [StoreDemo]. *)
#[local] Open Scope Z_scope.

(** ** Checking a disk *)
Definition each_file (ok : Path -> File -> bool) (m : gmap Path File) : bool :=
  forallb (fun e => ok e.1 e.2) (map_to_list m).
Lemma each_file_spec ok m p f : each_file ok m = true -> m !! p = Some f -> ok p f = true.
Proof.
  unfold each_file. rewrite forallb_forall. intros Hok Hf. apply (Hok (p, f)).
  apply list_elem_of_In. by apply elem_of_map_to_list.
Qed.

Definition segment_in_place (g : SegmentMeta) : bool :=
  match sg_path g with
  | _ :: t :: _ => bool_decide (sg_path g = segment_path t (sg_id g))
  | _ => false
  end.
Definition manifest_data_ok (p : Path) (f : File) : bool :=
  match fl_obj f with OManifest m => forallb segment_in_place (mf_segments m) | _ => true end.

Lemma segment_in_place_data g : segment_in_place g = true -> data_path (sg_path g).
Proof.
  unfold segment_in_place. destruct (sg_path g) as [|a [|t rest]] eqn:E; [done..|].
  intros ->%bool_decide_eq_true. by exists t, (sg_id g).
Qed.
Lemma data_ok m t s mf :
  each_file manifest_data_ok m = true -> stored m t s mf -> Forall (fun g => data_path (sg_path g)) (mf_segments mf).
Proof.
  intros Hm (f & Hf & Ho). apply (each_file_spec _ _ _ _ Hm) in Hf. unfold manifest_data_ok in Hf.
  rewrite Ho, forallb_forall in Hf. apply List.Forall_forall. intros g Hg. apply segment_in_place_data. auto.
Qed.
Lemma data_manifests_ok m : each_file manifest_data_ok m = true -> data_manifests m.
Proof. intros Hm t s mf Hs. apply Forall_map. by eapply data_ok. Qed.

Definition fork_ok (p : Path) (f : File) : bool :=
  match fl_obj f with
  | OFork fk => bool_decide (p = fork_path (fk_name fk))
  | OForkEntry fe => match p !! 2%nat with
      | Some h => bool_decide (p = FORK_CATALOG_PREFIX ++ [h; json (hash_name (fe_name fe))])
      | None => false
      end
  | _ => true
  end.
Lemma forks_in_place_ok m : each_file fork_ok m = true -> forks_in_place m.
Proof.
  intros Hm. split.
  - intros p f fk _ Hf Ho. apply (each_file_spec _ _ _ _ Hm) in Hf. unfold fork_ok in Hf.
    rewrite Ho in Hf. by apply bool_decide_eq_true in Hf.
  - intros p f fe _ Hf Ho. apply (each_file_spec _ _ _ _ Hm) in Hf. unfold fork_ok in Hf. rewrite Ho in Hf.
    destruct (p !! 2%nat) as [h|]; [|done]. exists h. by apply bool_decide_eq_true in Hf.
Qed.

(** An index entry whose object has the recorded size describes it. *)
Definition pins_ok (m : gmap Path File) (name : string) (e : IndexedFork) : bool :=
  match m !! fork_path name with
  | Some f => negb (object_size (fl_obj f) =? xf_object_size e) ||
      match fl_obj f with
      | OFork fk => bool_decide (fk_name fk = name) && bool_decide (xf_pins e = ForkIndex.fork_pins fk)
      | _ => false
      end
  | None => true
  end.
Definition owned_ok (m : gmap Path File) (name tn : string) (it : IndexedTable) : bool :=
  match m !! fork_catalog_entry_path name tn with
  | Some f => negb (object_size (fl_obj f) =? it_object_size it) ||
      match fl_obj f with OForkEntry fe => bool_decide (fe_table_id fe = it_table_id it) | _ => false end
  | None => true
  end.
Definition index_ok (m : gmap Path File) : bool :=
  match fl_obj <$> m !! fork_index_path with
  | Some (OForkIndex x) =>
      forallb (fun e => pins_ok m e.1 e.2 && forallb (fun o => owned_ok m e.1 o.1 o.2) (xf_owned e.2)) (xi_forks x)
  | _ => true
  end.
Lemma index_honest_ok m : index_ok m = true -> index_honest m.
Proof.
  intros Hm f x Hf Ho _. unfold index_ok in Hm. rewrite Hf in Hm. cbn in Hm. rewrite Ho, forallb_forall in Hm. split.
  - intros name e g Hin Hg Hsz. apply Hm in Hin as [Hp _]%andb_true_iff. cbn in Hp. unfold pins_ok in Hp.
    rewrite Hg, Hsz, Z.eqb_refl in Hp. cbn in Hp. destruct (fl_obj g) eqn:Eg; try done.
    apply andb_true_iff in Hp as [Hn%bool_decide_eq_true Hps%bool_decide_eq_true]. by repeat eexists.
  - intros name e tn it g Hin Hown Hg Hsz. apply Hm in Hin as [_ Hq]%andb_true_iff. cbn in Hq.
    rewrite forallb_forall in Hq. apply Hq in Hown. cbn in Hown. unfold owned_ok in Hown.
    rewrite Hg, Hsz, Z.eqb_refl in Hown. cbn in Hown. destruct (fl_obj g) eqn:Eg; try done.
    apply bool_decide_eq_true in Hown. by repeat eexists.
Qed.

Definition id_ok (p : Path) (f : File) : bool :=
  match fl_obj f with
  | OCatalog e => bool_decide (ce_table_id e <> "segments") && bool_decide (ce_table_id e <> "manifests")
  | _ => true
  end.
Lemma proper_ids_ok m : each_file id_ok m = true -> proper_ids m.
Proof.
  intros Hm t (e & p & f & (Hf & _)%in_listed & Ho & <-). apply (each_file_spec _ _ _ _ Hm) in Hf.
  unfold id_ok in Hf. rewrite Ho in Hf. by apply andb_true_iff in Hf as [?%bool_decide_eq_true ?%bool_decide_eq_true].
Qed.

(** A run that was not interrupted before its end. *)
Lemma run_in_states {A} fs (p : prog A) d : In (run fs p d).2 (states fs p d).
Proof.
  revert fs d. induction p as [r|T c k IH]; intros fs d; cbn; [by left|]. right.
  destruct (next_fault fs) as [f fs']. destruct (perform f c d) as [r d']. apply IH.
Qed.
Lemma flushed_survives d : survives d (d <| pending := ∅ |>).
Proof. split; [|done]. intros q. by left. Qed.
Lemma crashes_after {A} (p : prog A) d : crashes p d (after p d).
Proof.
  exists [], (run [] p d).2. split; [apply run_in_states|apply flushed_survives].
Qed.

(** ** The commit *)
Definition demo_commit : StagedCommit :=
  default (mkStagedCommit (mkCatalogEntry "" "" 0 0 "") (mkHeadState (mkHead 0 "" 0 "") "") 
             (mkManifest 0 "" 0 None None 0 OpCreate None None None [] 0 0 0 None []) 0 0 None (mkCommitInputs None None))
    (head staged_commits).
Definition demo_head : HeadState := sc_head demo_commit.
Definition demo_child : VersionManifest := sc_manifest demo_commit.
Definition demo_publish (known : CommitInputs) : prog CommitResult :=
  Commit.commit_manifest_locked demo_db "t" tbl (Some demo_head) demo_child 1 known.

Lemma demo_child_data : Forall data_path (Commit.own_segment_paths demo_child).
Proof.
  assert (E : Commit.own_segment_paths demo_child = [segment_path tbl "d"]) by (vm_compute; reflexivity).
  rewrite E. constructor; [by exists tbl, "d"|constructor].
Qed.

Lemma commit_crash_safe_witness :
  let d' := after (demo_publish (mkCommitInputs None None)) staging in
  (files d' !! head_path tbl = files staging !! head_path tbl \/
   exists m, published (Some demo_head) demo_child m /\ advanced staging d' tbl m) /\
  (forall p, p <> head_path tbl -> p <> manifest_path tbl (mf_sequence demo_child) ->
     pending staging !! p = None -> files d' !! p = files staging !! p).
Proof.
  intros d'. apply (commit_crash_safe demo_db "t" tbl (Some demo_head) demo_child 1 (mkCommitInputs None None)).
  - vm_compute. reflexivity.
  - apply demo_child_data.
  - exact (crashes_after (demo_publish (mkCommitInputs None None)) staging).
Defined.

(** Staged from version 3 and committed on a table that moved to 4: a conflict; on the table as
    it was staged: a commit. *)
Definition moved_on : Disk := after (demo_append demo_db "t" "e" "eeee" no_opts) staging.
Definition current_head (d : Disk) : Head :=
  match result_on (Database.head tbl) d with Ok h => hs_head h | Err _ => mkHead 0 "" 0 "" end.

Lemma head_is_current d :
  match fl_obj <$> files d !! head_path tbl with
  | Some (OHead h) => bool_decide (h = current_head d) && (hd_format h <=? FORMAT_VERSION)
  | _ => false
  end = true -> head_is d tbl (Some (current_head d)).
Proof.
  intros Hb. destruct (files d !! head_path tbl) as [f|] eqn:E; [|done]. cbn in Hb.
  destruct (fl_obj f) as [| | | |h | | | | | | | | | | | |] eqn:Eo; try done.
  apply andb_true_iff in Hb as [->%bool_decide_eq_true Hf%Z.leb_le]. by exists f.
Qed.

Lemma commit_is_cas_witness :
  let '(r, d') := run [] (demo_publish (mkCommitInputs (Some 4096) (Some 0))) moved_on in
  let m := VersionManifest.recompute_rollups (Commit.link (Some demo_head)
             (monotonic_commit_ts (now moved_on) ((fun _ => 0) <$> Some demo_head)) demo_child) in
  head_is d' tbl (cas (Some (current_head moved_on)) (hs_tag <$> Some demo_head) (Commit.head_of tbl m)) /\
  if bool_decide (hs_tag <$> Some demo_head = head_tag (Some (current_head moved_on)))
  then r = Ok (Commit.result_of "t" m 1 0) /\ advanced moved_on d' tbl m /\ head_flushed d' tbl
  else r = Err (VersionConflict "t" (Z.max 0 (mf_sequence demo_child - 1)) (hd_sequence (current_head moved_on))) /\
       files d' = files moved_on.
Proof.
  apply (commit_is_cas demo_db "t" tbl (Some demo_head) demo_child 1 4096 0 moved_on (Some (current_head moved_on))).
  - vm_compute. reflexivity.
  - apply demo_child_data.
  - reflexivity.
  - vm_compute. discriminate.
  - apply head_is_current. vm_compute. reflexivity.
Defined.

(** ** Histories *)
Definition demo_ms (d : Disk) (s : Z) : VersionManifest :=
  match result_on (Database.manifest_at tbl s) d with Ok m => m | Err _ => sc_manifest demo_commit end.
Definition link_ok (d : Disk) (s : Z) : bool :=
  let m := demo_ms d s in
  match fl_obj <$> files d !! manifest_path tbl s with
  | Some (OManifest m') => bool_decide (m' = m)
  | _ => false
  end && (mf_format m <=? FORMAT_VERSION) && (mf_sequence m =? s) && (mf_committed_at_ns m <=? i64_max) &&
  ((s =? 0) || bool_decide (mf_parent m = Some (s - 1)) &&
     bool_decide (mf_parent_checksum m = Some (checksum_hex (OManifest (demo_ms d (s - 1))))) &&
     (mf_committed_at_ns (demo_ms d (s - 1)) <=? mf_committed_at_ns m)).
Definition chain_ok (d : Disk) (hi : Z) : bool :=
  forallb (link_ok d) (map Z.of_nat (seq 0 (Z.to_nat hi + 1))) &&
  match fl_obj <$> files d !! head_path tbl with
  | Some (OHead h) => bool_decide (h = Commit.head_of tbl (demo_ms d hi)) && (hd_format h <=? FORMAT_VERSION)
  | _ => false
  end.

Lemma links_ok d hi s : chain_ok d hi = true -> 0 <= s <= hi -> link_ok d s = true.
Proof.
  intros [Hl _]%andb_true_iff Hs. rewrite forallb_forall in Hl. apply Hl. apply in_map_iff.
  exists (Z.to_nat s). split; [lia|]. apply in_seq. lia.
Qed.
Lemma link_stored d s : link_ok d s = true -> manifest_stored d tbl s (demo_ms d s).
Proof.
  unfold link_ok. rewrite !andb_true_iff. intros ((((Hf & Hv) & _) & _) & _).
  destruct (files d !! manifest_path tbl s) as [f|] eqn:E; [|done]. cbn in Hf. destruct (fl_obj f) eqn:Eo; try done.
  apply bool_decide_eq_true in Hf as ->. exists f. apply Z.leb_le in Hv. done.
Qed.
Lemma chain_of_ok d hi : 0 <= hi -> chain_ok d hi = true -> chain d tbl 0 hi (demo_ms d).
Proof.
  intros Hhi Hc. split; [lia| | |].
  - intros s Hs. pose proof (links_ok d hi s Hc Hs) as Hl. split; [by apply link_stored|].
    unfold link_ok in Hl. rewrite !andb_true_iff, Z.eqb_eq, !Z.leb_le in Hl. tauto.
  - intros s Hs. pose proof (links_ok d hi s Hc ltac:(lia)) as Hl. unfold link_ok in Hl.
    apply andb_true_iff in Hl as [_ [H0%Z.eqb_eq|Hl]%orb_true_iff]; [lia|]. rewrite !andb_true_iff in Hl.
    by destruct Hl as ((?%bool_decide_eq_true & ?%bool_decide_eq_true) & ?%Z.leb_le).
  - apply andb_true_iff in Hc as [_ Hc].
    destruct (files d !! head_path tbl) as [f|] eqn:E; [|done]. cbn in Hc. destruct (fl_obj f) eqn:Eo; try done.
    apply andb_true_iff in Hc as [->%bool_decide_eq_true Hv%Z.leb_le]. by exists f.
Qed.

Lemma commits_keep_the_chain_witness :
  Forall (history_grows (eq (Some (mf_committed_at_ns (demo_ms staging 3)))) tbl 0 3 (demo_ms staging) demo_head demo_child)
    (states [NoFault; NoFault; FailAfter] (demo_publish (mkCommitInputs None None)) staging).
Proof.
  apply (commits_keep_the_chain [NoFault; NoFault; FailAfter] demo_db "t" tbl demo_head demo_child 1
           (mkCommitInputs None None) staging 0 3 (demo_ms staging)).
  - exact demo_heads_inj.
  - apply chain_of_ok; [lia|]. vm_compute. reflexivity.
  - vm_compute. reflexivity.
  - split; [vm_compute; reflexivity..|vm_compute; discriminate|apply demo_child_data].
  - intros _. left. reflexivity.
Defined.

(** Between the commits of versions 1 and 2. *)
Lemma as_of_sequence_is_scan_witness :
  let ts := commit_time 2 three - 1 in
  (run [] (Database.as_of_sequence tbl 0 3 ts) three).2 = three /\
  match (run [] (Database.as_of_sequence tbl 0 3 ts) three).1 with
  | Ok r => latest_at 0 3 (demo_ms three) ts r
  | Err e => e = ObjectStore /\ [] <> ([] : list Fault)
  end.
Proof.
  intros ts. apply (as_of_sequence_is_scan [] three tbl 0 3 (demo_ms three) ts).
  assert (Hc : chain_ok three 3 = true) by (vm_compute; reflexivity). split; [lia| |].
  - intros s Hs. apply link_stored. by apply (links_ok three 3).
  - intros s s' H0 Hs Hs'. apply Z.leb_le.
    assert (Hin : forall i, 0 <= i <= 3 -> i = 0 \/ i = 1 \/ i = 2 \/ i = 3) by lia.
    destruct (Hin s ltac:(lia)) as [->|[->|[->| ->]]], (Hin s' ltac:(lia)) as [->|[->|[->| ->]]];
      try lia; vm_compute; reflexivity.
Defined.

Lemma replay_is_search_witness :
  wo_idempotency_key (with_key "key") = Some "key" /\
  match (run [] (Commit.idempotent_replay demo_db "t" (with_key "key")) keyed_base).1 with
  | Ok r => replayed (files keyed_base) "t" "key" r
  | Err _ => True
  end.
Proof. split; [reflexivity|]. apply (replay_is_search [] demo_db "t" (with_key "key") "key" keyed_base). reflexivity. Defined.

Lemma restore_brings_back_witness :
  match run [] (Commit.restore demo_db "t" 1 no_opts) three with
  | (Ok _, d') => restored three 1 d'
  | (Err _, _) => True
  end.
Proof.
  apply (restore_brings_back [] demo_db "t" 1 no_opts three).
  - reflexivity.
  - reflexivity.
  - intros t. reflexivity.
  - intros t s mf. apply data_ok. vm_compute. reflexivity.
Defined.

(** ** A transaction over two tables *)
Definition second_table : Disk := after (Commit.create_table demo_db "s" demo_schema demo_options) three.
Definition stage_both : prog (list StagedCommit) :=
  let! a := demo_stage "t" "d" "dddd" in let! b := demo_stage "s" "e" "eeee" in ret [a; b].
Definition staged_both : Disk := after stage_both second_table.
Definition both : list StagedCommit :=
  match result_on stage_both second_table with Ok l => l | Err _ => [] end.

Definition commit_ready (d : Disk) (s : StagedCommit) : bool :=
  match fl_obj <$> files d !! hpath s with
  | Some (OHead h) => bool_decide (h = hs_head (sc_head s)) && (hd_format h <=? FORMAT_VERSION)
  | _ => false
  end && match pending d !! hpath s with None => true | Some _ => false end &&
  (hd_sequence (hs_head (sc_head s)) <? mf_sequence (sc_manifest s)) &&
  forallb segment_in_place (mf_segments (sc_manifest s)).
Lemma ready_ok d txn_id l :
  bool_decide (NoDup (map tid l)) = true -> forallb (commit_ready d) l = true ->
  each_file (fun p _ => negb (is_prefix TXN_PREFIX p)) (files d) = true -> pending d = ∅ -> ready d txn_id l.
Proof.
  intros Hnd Hl Hj Hp. rewrite forallb_forall in Hl.
  assert (Hs : forall s, In s l -> (head_stored d (tid s) (hs_head (sc_head s)) /\ head_flushed d (tid s)) /\
    hd_sequence (hs_head (sc_head s)) < mf_sequence (sc_manifest s) /\
    Forall data_path (Commit.own_segment_paths (sc_manifest s))).
  { intros s Hin. apply Hl in Hin. unfold commit_ready, hpath in Hin. rewrite !andb_true_iff in Hin.
    destruct Hin as (((Hh & _) & Hn%Z.ltb_lt) & Hg). split; [|split; [done|]].
    - split; [|by unfold head_flushed; rewrite Hp]. destruct (files d !! head_path (tid s)) as [f|] eqn:E; [|done].
      cbn in Hh. destruct (fl_obj f) eqn:Eo; try done.
      apply andb_true_iff in Hh as [->%bool_decide_eq_true Hv%Z.leb_le]. by exists f.
    - rewrite forallb_forall in Hg. apply own_data. unfold Vacuum.segment_paths. apply Forall_map, List.Forall_forall.
      intros g Hin. by apply segment_in_place_data, Hg. }
  split; [by apply bool_decide_eq_true in Hnd|apply List.Forall_forall; intros s Hin; by apply Hs..|].
  intros p Hpre. split; [|by rewrite Hp]. destruct (files d !! p) as [f|] eqn:E; [|done].
  apply (each_file_spec _ _ _ _ Hj) in E. by rewrite Hpre in E.
Qed.

Lemma both_ready : ready staged_both "x" both.
Proof. apply ready_ok; vm_compute; reflexivity. Qed.

Lemma transaction_success_witness :
  let '(r, d') := run [] (Transaction.commit_staged_transaction_inner "x" both) staged_both in
  is_ok r = true -> all_new staged_both both d'.
Proof. apply (transaction_success [] staged_both "x" both). apply both_ready. Defined.

(** Interrupted when the journal is written and one HEAD has moved. *)
Definition half_way : Disk :=
  match List.find (fun d => negb (head_seq "u0" d =? 3))
    (states [] (Transaction.commit_staged_transaction_inner "x" both) staged_both) with
  | Some d => d | None => staged_both end.
Example half_way_heads : head_seq "u0" half_way = 4 /\ head_seq "u1" half_way = 0.
Proof. vm_compute. auto. Qed.

Lemma transaction_all_or_nothing_witness :
  let d' := half_way <| pending := ∅ |> in
  let '(r, d2) := run [] Transaction.recover d' in
  (r = Ok tt /\ (all_old staged_both both d2 \/ all_new staged_both both d2)) \/
  (r = Err (Corruption (txn_path "x") "txn parse") /\ all_old staged_both both d2).
Proof.
  intros d'. apply (transaction_all_or_nothing staged_both "x" both d').
  - apply both_ready.
  - exists [], half_way. split; [|exact (flushed_survives half_way)].
    unfold half_way. destruct (List.find _ _) as [d|] eqn:E; [by apply find_some in E as [E _]|]. left. reflexivity.
Defined.

(** ** Forks, retention, vacuum *)

(** A fork at version 1, with an index on disk. *)
Definition indexed : Disk := after (Retention.set_retention demo_db "t" (BeforeSequence 0) None) forked_old.
Example indexed_has_index :
  match fl_obj <$> files indexed !! fork_index_path with
  | Some (OForkIndex x) => map fst (xi_forks x) = ["f"] | _ => False end.
Proof. vm_compute. reflexivity. Qed.

Lemma retention_respects_pins_witness :
  let p := Retention.set_retention demo_db "t" (BeforeSequence 1) None in
  Forall (floors_ok indexed) (states [] p indexed) /\
  match run [] p indexed with
  | (Ok floor, d') =>
      floor_at (files d') (rf_table_id floor) = rf_min_retained_sequence floor /\
      floor_allowed (files indexed) (rf_table_id floor) (rf_min_retained_sequence floor)
  | (Err _, d') => floors_ok indexed d'
  end.
Proof.
  apply (retention_respects_pins [] demo_db "t" (BeforeSequence 1) None indexed).
  - exact demo_hash_inj.
  - apply forks_in_place_ok. vm_compute. reflexivity.
  - apply index_honest_ok. vm_compute. reflexivity.
Defined.

Lemma vacuum_keeps_what_is_needed_witness :
  let p := Vacuum.vacuum demo_db None 0 true in
  Forall (fun di => forall q, kept_files (files indexed) q -> files di !! q = files indexed !! q) (states [] p indexed) /\
  forall d', crashes p indexed d' ->
    forall q, kept_files (files indexed) q -> pending indexed !! q = None -> files d' !! q = files indexed !! q.
Proof.
  apply (vacuum_keeps_what_is_needed [] demo_db None 0 true indexed).
  - exact demo_hash_inj.
  - apply forks_in_place_ok. vm_compute. reflexivity.
  - apply index_honest_ok. vm_compute. reflexivity.
  - apply proper_ids_ok. vm_compute. reflexivity.
Defined.

Lemma drop_releases_the_pin_last_witness :
  Forall (pin_last written_fork "f") (states [] (Forks.drop_fork demo_db "f") written_fork) /\
  (is_ok (run [] (Forks.drop_fork demo_db "f") written_fork).1 = true -> forall fe fk pin,
     owns_table (files written_fork) "f" fe -> pinned_by (files written_fork) (fe_table_id fe) fk pin -> fk_name fk = "f").
Proof.
  apply (drop_releases_the_pin_last [] demo_db "f" written_fork).
  - exact demo_hash_inj.
  - apply forks_in_place_ok. vm_compute. reflexivity.
  - apply index_honest_ok. vm_compute. reflexivity.
Defined.

Lemma forks_pin_every_head_witness :
  let p := Forks.create_forks demo_db ["a"; "b"] None None [] in
  Forall (fence_first three) (states [] p three) /\
  (forall d', crashes p three d' ->
     (forall q, is_prefix FORK_PREFIX q = true -> pending three !! q = None -> files d' !! q = files three !! q) \/ fenced d') /\
  match run [] p three with
  | (Ok forks, d') => fenced d' /\ map fk_name forks = ["a"; "b"] /\
      Forall (fun fk => pins_heads (files three) (fk_pins fk)) forks
  | (Err _, _) => True
  end.
Proof. apply (forks_pin_every_head [] demo_db ["a"; "b"] None [] three); reflexivity. Defined.

Lemma promotion_builds_on_the_base_witness :
  match run [] (Promote.promote demo_db "f" "t") written_fork with
  | (Ok r, d') => pr_kind r = Shadowed -> exists fk fe h fm origin pinned,
      (fk_name fk = "f" /\ exists f, files written_fork !! fork_path "f" = Some f /\ fl_obj f = OFork fk) /\
      fork_entry (files written_fork) "f" "t" fe /\ fe_origin fe = Some origin /\
      head_at (files written_fork) (fe_table_id fe) h /\ stored (files written_fork) (fe_table_id fe) (hd_sequence h) fm /\
      stored (files written_fork) (fo_base_table_id origin) (fo_base_sequence origin) pinned /\
      promoted written_fork (fe_table_id fe) origin pinned fm d'
  | (Err _, _) => True
  end.
Proof.
  apply (promotion_builds_on_the_base [] demo_db "f" "t" written_fork).
  - intros t. reflexivity.
  - apply data_manifests_ok. vm_compute. reflexivity.
Defined.

(** None of these runs ends in an error. *)
Example demonstrated_runs_succeed :
  is_ok (result_on (Promote.promote demo_db "f" "t") written_fork) = true /\
  is_ok (result_on (Forks.create_forks demo_db ["a"; "b"] None None []) three) = true /\
  is_ok (result_on (Forks.drop_fork demo_db "f") written_fork) = true /\
  is_ok (result_on (Retention.set_retention demo_db "t" (BeforeSequence 1) None) indexed) = true /\
  is_ok (result_on (Vacuum.vacuum demo_db None 0 true) indexed) = true /\
  is_ok (result_on (Commit.restore demo_db "t" 1 no_opts) three) = true /\
  is_ok (result_on (Transaction.commit_staged_transaction_inner "x" both) staged_both) = true /\
  result_on (Database.as_of_sequence tbl 0 3 (commit_time 2 three - 1)) three = Ok (Some 1).
Proof. vm_compute. auto 10. Qed.

(** ** Segments and schemas *)
Lemma window_classifies_segment_witness :
  let s := demo_segment "t" "a" "aaaa" 1 in
  (SegmentMeta.overlaps_time s (Some 20) (Some 30) = false ->
   Forall (fun t => ~ ((forall st, Some 20 = Some st -> st <= t) /\ (forall e, Some 30 = Some e -> t < e))) [10; 15]) /\
  (forall st e, SegmentMeta.covered_by_time s st e = true -> Forall (fun t => st <= t < e) [10; 15]) /\
  (sg_time_range s = None ->
   SegmentMeta.overlaps_time s (Some 20) (Some 30) = true /\
   forall st e, SegmentMeta.covered_by_time s st e = false).
Proof.
  intros s. apply (window_classifies_segment s (Some 20) (Some 30) [10; 15]).
  intros lo hi [= <- <-]. repeat constructor; discriminate.
Defined.

(** Cells that are numbers: widening keeps them. *)
#[export] Instance demo_arrow : ArrowKernels Z := {|
  cast := fun a t => Some (mkArray Z t (ar_cells a));
  try_new := fun s cols => match cols with
    | c :: _ => Some (mkBatch Z s cols (length (ar_cells c))) | [] => None end;
|}.
#[export] Instance demo_arrow_laws : ArrowLaws Z.
Proof.
  split.
  - intros a t _. eexists. split; [reflexivity|]. split; [reflexivity|]. cbn. by induction (ar_cells a); constructor.
  - intros a b t u _ _ [= <-]. reflexivity.
  - reflexivity.
  - intros s cols n Hs Hf. destruct Hf as [|f c s cols (_ & Hn & _) Hf]; [done|]. cbn. by rewrite Hn.
Qed.
Definition demo_batch : Batch Z :=
  mkBatch Z demo_schema [mkArray Z Int64 [Some 1; Some 2]; mkArray Z Float64 [Some 7; None]] 2.
Definition mid_schema : Schema := [mkField "ts" Int64 true; mkField "px" Float64 true; mkField "sz" Int32 true].
Definition last_schema : Schema := [mkField "ts" Int64 true; mkField "px" Float64 true; mkField "sz" Int64 true].

Lemma demo_batch_valid : valid_batch demo_batch.
Proof.
  split; [done|]. apply Forall2_cons. split; [|apply Forall2_cons; split; [|constructor]]; (split; [done|split; [done|]]).
  - right. repeat constructor; by eexists.
  - by left.
Qed.
Lemma demo_evolves : evolves (rb_schema demo_batch) mid_schema /\ evolves mid_schema last_schema.
Proof.
  split.
  - exists (firstn 2 mid_schema), (skipn 2 mid_schema). split; [done|]. split; [|by repeat constructor].
    repeat first [apply Forall2_cons; split | constructor]; cbn; auto.
  - exists last_schema, []. split; [done|]. split; [|done].
    repeat first [apply Forall2_cons; split | apply Forall2_nil; done]; repeat split; cbn; auto.
Qed.
Lemma last_names : NoDup (map fd_name last_schema).
Proof. apply (bool_decide_eq_true (NoDup (map fd_name last_schema))). reflexivity. Qed.

Lemma evolved_batch_reads_witness :
  let b' := mkBatch Z last_schema (carry_cols (rb_rows demo_batch) (rb_schema demo_batch) last_schema (rb_columns demo_batch)) 2 in
  adapt_batch last_schema demo_batch = Ok b' /\ valid_batch b'.
Proof.
  apply (evolved_batch_reads demo_batch last_schema).
  - destruct demo_evolves as [H1 H2]. by eapply evolves_trans.
  - apply last_names.
  - apply demo_batch_valid.
Defined.

Lemma adapting_composes_witness :
  exists b1 b2, adapt_batch mid_schema demo_batch = Ok b1 /\ adapt_batch last_schema b1 = Ok b2 /\
    adapt_batch last_schema demo_batch = Ok b2.
Proof.
  apply (adapting_composes demo_batch mid_schema last_schema).
  - apply demo_evolves.
  - apply demo_evolves.
  - apply last_names.
  - apply demo_batch_valid.
Defined.
