(* ===== verification/RowWitness.v ===== *)
(** * Arrow at work: an instance of the kernels, and a table with rows

    [ArrowRows] over columns of integers, with its laws, and databases whose rows the
    operations themselves wrote: the inputs of the witnesses about rows. *)
From S2P Require Export RowTheorems Scan StoreWitness WriterProps.
From stdpp Require Import sorting strings.
From stdpp Require Import pretty.
#[local] Open Scope Z_scope.

(** ** The order of cells *)
Definition cell_rank (c : option Cell) : Z :=
  match c with
  | None => 0 | Some (CInt _) => 1 | Some (CFloat _) => 2 | Some (CStr _) => 3 | Some (CBool _) => 4 | Some (COther _) => 5
  end.
Definition cell_int (c : option Cell) : Z := match c with Some (CInt z) => z | _ => 0 end.
Definition cell_str (c : option Cell) : string := match c with Some (CStr s) => s | _ => "" end.
Definition cell_key (c : option Cell) : Z * (Z * string) := (cell_rank c, (cell_int c, cell_str c)).
Definition demo_compare (a b : option Cell) : comparison := kcmp (cell_key a) (cell_key b).

Lemma demo_compare_refl a : demo_compare a a = Eq.
Proof. apply kcmp_refl. Qed.
Lemma demo_compare_swap a b : demo_compare b a = CompOpp (demo_compare a b).
Proof. apply kcmp_antisym. Qed.
Lemma demo_compare_trans a b c : demo_compare a b <> Gt -> demo_compare b c <> Gt -> demo_compare a c <> Gt.
Proof. apply (kle_trans (cell_key a) (cell_key b) (cell_key c)). Qed.
Lemma demo_compare_int x y : demo_compare (Some (CInt x)) (Some (CInt y)) = (x ?= y).
Proof. unfold demo_compare. cbn. unfold pair_cmp. cbn. by destruct (x ?= y). Qed.
Lemma demo_compare_str x y : demo_compare (Some (CStr x)) (Some (CStr y)) = String.compare x y.
Proof. done. Qed.

(** Rows of keys, the first difference decides. *)
Fixpoint demo_keys (a b : list (option Cell)) : comparison :=
  match a, b with
  | x :: a', y :: b' => match demo_compare x y with Eq => demo_keys a' b' | c => c end
  | _, _ => Eq
  end.

(** ** Batches from rows *)
Abbreviation Row := (list (option Cell)) (only parsing).
Definition row_ok (s : Schema) (r : Row) : bool :=
  Nat.eqb (length r) (length s) && forallb (fun e => fd_nullable e.1 || bool_decide (is_Some e.2)) (combine s r).
Definition column_of (rows : list Row) (i : nat) (f : Field) : Column :=
  mkArray Cell (fd_type f) (map (fun r : Row => default None (r !! i)) rows).
Definition of_rows (s : Schema) (rows : list Row) : option RecordBatch :=
  if negb (bool_decide (s = [])) && forallb (row_ok s) rows
  then Some (mkBatch Cell s (imap (column_of rows) s) (length rows)) else None.

Lemma of_rows_spec s rows b : of_rows s rows = Some b -> rb_schema b = s /\ shaped b /\ valid_batch b /\ table_rows b = rows.
Proof.
  unfold of_rows. destruct (negb _ && _) eqn:E; [|done]. intros [= <-]. apply andb_true_iff in E as [Hs Hr].
  apply negb_true_iff, bool_decide_eq_false in Hs. rewrite forallb_forall in Hr.
  assert (Hlen : forall r, In r rows -> length r = length s).
  { intros r Hin. apply Hr in Hin. apply andb_true_iff in Hin as [Hl _]. by apply Nat.eqb_eq in Hl. }
  split; [done|]. split; [|split].
  - split; [apply length_imap|]. apply Forall_lookup_2. intros i c Hc. cbn in Hc. rewrite list_lookup_imap in Hc.
    destruct (s !! i); [|done]. injection Hc as <-. apply length_map.
  - split; [done|]. cbn. apply Forall2_same_length_lookup_2; [by rewrite length_imap|]. intros i f c Hf Hc.
    rewrite list_lookup_imap, Hf in Hc. injection Hc as <-. split; [done|]. split; [apply length_map|].
    destruct (fd_nullable f) eqn:En; [by left|right]. apply Forall_fmap, List.Forall_forall. intros r Hin. cbn.
    apply Hr, andb_true_iff in Hin as [Hl Hn]. apply Nat.eqb_eq in Hl. rewrite forallb_forall in Hn.
    destruct (lookup_lt_is_Some_2 r i) as [x Hx]; [rewrite Hl; by eapply lookup_lt_Some|]. rewrite Hx. cbn.
    specialize (Hn (f, x)). cbn in Hn. rewrite En in Hn. refine (bool_decide_eq_true_1 (is_Some x) (Hn _)).
    clear -Hf Hx. revert r i Hf Hx. induction s as [|g s IH]; intros [|y r] [|i]; cbn; try done.
    + intros [= ->] [= ->]. by left.
    + intros Hf Hx. right. by eapply IH.
  - unfold table_rows. cbn. apply list_eq. intros j. rewrite list_lookup_fmap.
    destruct (rows !! j) as [r|] eqn:Ej.
    + rewrite lookup_seq_lt by (by eapply lookup_lt_Some). cbn. f_equal. unfold row_at. apply list_eq. intros i.
      rewrite list_lookup_fmap, list_lookup_imap. pose proof (Hlen r ltac:(by eapply list_elem_of_In, list_elem_of_lookup_2)) as Hl.
      destruct (s !! i) as [f|] eqn:Ef; cbn.
      * unfold cell, column_of. cbn. rewrite list_lookup_fmap, Ej. cbn.
        destruct (lookup_lt_is_Some_2 r i) as [x Hx]; [rewrite Hl; by eapply lookup_lt_Some|]. by rewrite Hx.
      * symmetry. apply lookup_ge_None_2. apply lookup_ge_None in Ef. lia.
    + rewrite lookup_seq_ge; [done|]. by apply lookup_ge_None in Ej.
Qed.

(** ** A file format: a text that reads back *)
Fixpoint to_text (p : positive) : string :=
  match p with xH => "" | xO p => String "0" (to_text p) | xI p => String "1" (to_text p) end.
Fixpoint of_text (t : string) : positive :=
  match t with EmptyString => xH | String c t => if Ascii.eqb c "0" then xO (of_text t) else xI (of_text t) end.
Lemma of_to_text p : of_text (to_text p) = p.
Proof. induction p as [p IH|p IH|]; cbn; by rewrite ?IH. Qed.

(** The columns with their nullability, and the row groups. *)
Definition IntFile : Type := list (string * bool) * list (list (list (option Z))).
Definition int_cell (c : option Cell) : option (option Z) :=
  match c with None => Some None | Some (CInt z) => Some (Some z) | Some _ => None end.
Definition int_rows (b : RecordBatch) : option (list (list (option Z))) := mapM (mapM int_cell) (table_rows b).
Definition cell_rows (rows : list (list (option Z))) : list Row := map (map (fun x => CInt <$> x)) rows.
Definition file_schema (f : IntFile) : Schema := map (fun e => mkField e.1 Int64 e.2) f.1.

Definition demo_write (props : WriterProperties) (s : Schema) (bs : list RecordBatch) : option string :=
  groups ← mapM int_rows bs;
  if forallb (fun f => bool_decide (fd_type f = Int64)) s && forallb (fun b => bool_decide (is_Some (of_rows s (table_rows b)))) bs
  then Some (to_text (encode (map (fun f => (fd_name f, fd_nullable f)) s, groups) : positive)) else None.
Definition demo_file (c : string) : option IntFile := decode (of_text c).

Definition ints_of (i : nat) (rows : list (list (option Z))) : list Z := omap (fun r : list (option Z) => mjoin (r !! i)) rows.
Definition demo_stats (rows : list (list (option Z))) (i : nat) (_ : string * bool) : option Statistics :=
  match ints_of i rows with
  | [] => Some (StatInt64 None None)
  | z :: zs => Some (StatInt64 (Some (fold_left Z.min zs z)) (Some (fold_left Z.max zs z)))
  end.
Definition demo_metadata (c : string) : option ParquetMeta :=
  (fun f : IntFile => mkParquetMeta (file_schema f) (map (fun e => [e.1]) f.1)
     (map (fun rows => imap (demo_stats rows) f.1) f.2)) <$> demo_file c.
Definition demo_read (c : string) (roots sel : option (list nat)) : option (list RecordBatch) :=
  f ← demo_file c;
  let group rows := of_rows (file_schema f) (cell_rows rows) in
  match roots, sel with
  | None, None => mapM group f.2
  | None, Some ks => mapM (fun k => f.2 !! k ≫= group) ks
  | Some _, _ => None
  end.

(** ** The kernels *)
Definition demo_le (cols : list Column) (i j : nat) : bool :=
  match demo_keys (row_at cols i) (row_at cols j) with Gt => false | _ => true end.
Definition demo_before (cols : list Column) (i j : nat) : Prop := demo_le cols i j = true.
#[export] Instance demo_before_dec cols : RelDecision (demo_before cols) := fun i j => bool_eq_dec _ _.
Fixpoint all_le (le : nat -> nat -> bool) (l : list nat) : bool :=
  match l with [] => true | x :: l' => forallb (le x) l' && all_le le l' end.
Definition demo_lexsort (cols : list Column) : option (list nat) :=
  match cols with
  | [] => None
  | c :: _ =>
      let idx := merge_sort (demo_before cols) (seq 0 (length (ar_cells c))) in
      if all_le (demo_le cols) idx then Some idx else None
  end.
(** The least and the greatest value of a column: [sel] picks one of two. *)
Definition best_of (sel : Cell -> Cell -> bool) (a : Column) : option Cell :=
  match omap (fun c => c) (ar_cells a) with
  | [] => None
  | x :: l => Some (fold_left (fun m c => if sel c m then c else m) l x)
  end.
Definition cell_lt (a b : Cell) : bool := match demo_compare (Some a) (Some b) with Lt => true | _ => false end.

#[export] Instance demo_kernels : ArrowKernels Cell := {|
  cast := fun a t => Some (mkArray Cell t (ar_cells a));
  try_new := fun s cols =>
    match cols with
    | [] => None
    | c :: _ =>
        let n := length (ar_cells c) in
        if Nat.eqb (length cols) (length s) && forallb (fun c => Nat.eqb (length (ar_cells c)) n) cols
        then Some (mkBatch Cell s cols n) else None
    end;
|}.

#[export] Instance demo_rows : ArrowRows := {|
  cell_compare := demo_compare;
  comparable := fun _ => true;
  row_converter := fun _ => true;
  convert_columns := fun _ _ => true;
  compute_min := best_of cell_lt;
  compute_max := best_of (fun c m => cell_lt m c);
  concat_batches := fun s bs => of_rows s (all_rows bs);
  lexsort_to_indices := demo_lexsort;
  Arrow.take := fun a idx => Some (mkArray Cell (ar_type a) (map (cell a) idx));
  Arrow.interleave := fun sources picks =>
    match sources with
    | [] => None
    | c :: _ => Some (mkArray Cell (ar_type c) (map (fun p => default None (sources !! p.1 ≫= fun c => ar_cells c !! p.2)) picks))
    end;
  filter_record_batch := fun b mask => of_rows (rb_schema b) (map snd (List.filter fst (combine mask (table_rows b))));
  get_array_memory_size := fun b => 16 * Z.of_nat (rb_rows b);
  json_f64 := fun _ => JOther "f64";
  ipc_write := fun s bs => demo_write (mkWriterProperties UNCOMPRESSED 0 []) s bs;
  ipc_read := fun c => demo_read c None None;
  b64_encode := fun t => t;
  b64_decode := Some;
  parquet_write := demo_write;
  parquet_metadata := demo_metadata;
  parquet_read := demo_read;
|}.

(** ** The laws *)
Lemma demo_keys_compare a b : demo_keys a b = compare_keys a b.
Proof. done. Qed.

Lemma all_le_sorted le l : all_le le l = true -> StronglySorted (fun i j => le i j = true) l.
Proof.
  induction l as [|x l IH]; cbn; [constructor|]. intros [Hx Hl]%andb_true_iff. constructor; [auto|].
  rewrite forallb_forall in Hx. by apply List.Forall_forall.
Qed.

Lemma demo_lexsort_spec cols n idx : cols <> [] -> Forall (fun c => length (ar_cells c) = n) cols ->
  demo_lexsort cols = Some idx -> idx ≡ₚ seq 0 n /\ StronglySorted (fun i j => keys_le (row_at cols i) (row_at cols j)) idx.
Proof.
  intros Hne Hl. unfold demo_lexsort. destruct cols as [|c cols]; [done|]. cbv zeta. apply Forall_cons in Hl as [-> _].
  destruct (all_le _ _) eqn:E; [|done]. intros [= <-]. split; [apply merge_sort_Permutation|].
  eapply StronglySorted_mono; [|by apply all_le_sorted]. intros i j. unfold demo_le, keys_le. rewrite demo_keys_compare.
  by destruct (compare_keys _ _).
Qed.

Lemma best_of_spec (sel : Cell -> Cell -> bool) (R : Cell -> Cell -> Prop) a :
  (forall x, R x x) -> (forall x y z, R x y -> R y z -> R x z) -> (forall c m, if sel c m then R c m else R m c) ->
  match best_of sel a with
  | Some m => In (Some m) (ar_cells a) /\ forall c, In (Some c) (ar_cells a) -> R m c
  | None => Forall (fun c => c = None) (ar_cells a)
  end.
Proof.
  intros Hr Ht Hs. unfold best_of. assert (Hin : forall c, In (Some c) (ar_cells a) <-> In c (omap (fun c => c) (ar_cells a))).
  { intros c. rewrite <- !list_elem_of_In, list_elem_of_omap. split; [by exists (Some c)|by intros (x & ? & ->)]. }
  destruct (omap _ (ar_cells a)) as [|x l].
  - apply List.Forall_forall. intros [c|] Hc; [|done]. apply Hin in Hc. by destruct Hc.
  - cut (forall l m, In (fold_left (fun m c => if sel c m then c else m) l m) (m :: l) /\
      forall c, In c (m :: l) -> R (fold_left (fun m c => if sel c m then c else m) l m) c).
    { intros Hgen. destruct (Hgen l x) as [H1' H2']. split; [by apply Hin|]. intros c Hc. by apply H2', Hin. }
    clear -Hr Ht Hs. induction l as [|y l IH]; intros m; cbn [fold_left].
    + split; [by left|]. intros c [<-|[]]. apply Hr.
    + specialize (Hs y m). set (m' := if sel y m then y else m). destruct (IH m') as [Hi Hall].
      assert (Hm : R m' m /\ R m' y) by (unfold m'; by destruct (sel y m)). split.
      * assert (Hm' : m' = y \/ m' = m) by (unfold m'; destruct (sel y m); auto).
        destruct Hi as [<-|Hi]; [|by right; right]. destruct Hm' as [->| ->]; [by right; left|by left].
      * intros c Hc. destruct Hc as [<-|[<-|Hc]]; [eapply Ht; [|apply Hm]; apply Hall; by left..|apply Hall; by right].
Qed.

Lemma demo_le_cases (c m : Cell) : if cell_lt c m then cell_le (Some c) (Some m) else cell_le (Some m) (Some c).
Proof.
  unfold cell_lt, cell_le. cbn [cell_compare demo_rows]. rewrite (demo_compare_swap (Some c) (Some m)).
  by destruct (demo_compare (Some c) (Some m)).
Qed.
Lemma demo_min_spec a : match best_of cell_lt a with
  | Some m => In (Some m) (ar_cells a) /\ forall c, In (Some c) (ar_cells a) -> cell_le (Some m) (Some c)
  | None => Forall (fun c => c = None) (ar_cells a) end.
Proof.
  apply (best_of_spec cell_lt (fun x y => cell_le (Some x) (Some y))).
  - intros x. unfold cell_le. cbn [cell_compare demo_rows]. by rewrite demo_compare_refl.
  - intros x y z. apply demo_compare_trans.
  - apply demo_le_cases.
Qed.
Lemma demo_max_spec a : match best_of (fun c m => cell_lt m c) a with
  | Some m => In (Some m) (ar_cells a) /\ forall c, In (Some c) (ar_cells a) -> cell_le (Some c) (Some m)
  | None => Forall (fun c => c = None) (ar_cells a) end.
Proof.
  apply (best_of_spec (fun c m => cell_lt m c) (fun x y => cell_le (Some y) (Some x))).
  - intros x. unfold cell_le. cbn [cell_compare demo_rows]. by rewrite demo_compare_refl.
  - intros x y z Hxy Hyz. by eapply demo_compare_trans.
  - intros c m. apply (demo_le_cases m c).
Qed.

(** *** The file format *)
Lemma int_cell_spec c x : int_cell c = Some x -> c = CInt <$> x.
Proof. destruct c as [[]|]; cbn; try done; by intros [= <-]. Qed.
Lemma mapM_inv {A B} (f : A -> option B) (g : B -> A) l k : (forall a b, f a = Some b -> a = g b) -> mapM f l = Some k -> l = map g k.
Proof.
  intros Hf. revert k. induction l as [|a l IH]; intros k; cbn; [by intros [= <-]|]. destruct (f a) as [b|] eqn:E; [|done]. cbn.
  destruct (mapM f l) as [k'|]; [|done]. intros [= <-]. cbn. by rewrite <- (IH k' eq_refl), <- (Hf a b E).
Qed.
Lemma int_rows_spec b rows : int_rows b = Some rows -> table_rows b = cell_rows rows.
Proof.
  unfold int_rows, cell_rows. apply mapM_inv. intros r zs. apply mapM_inv. intros c x. apply int_cell_spec.
Qed.

(** What was written: the file, and the batches it reads as. *)
Lemma demo_write_spec props s bs c : demo_write props s bs = Some c -> exists f,
  demo_file c = Some f /\ file_schema f = s /\ Forall2 (fun b rows => table_rows b = cell_rows rows) bs f.2 /\
  Forall2 (fun b rows => exists b', of_rows s (cell_rows rows) = Some b') bs f.2.
Proof.
  unfold demo_write. destruct (mapM int_rows bs) as [groups|] eqn:Eg; [|done]. cbn [mbind option_bind].
  destruct (_ && _) eqn:E; [|done]. intros [= <-]. apply andb_true_iff in E as [Hs Hb]. eexists.
  split; [unfold demo_file; rewrite of_to_text; by rewrite decode_encode|]. cbn [snd]. rewrite !forallb_forall in *.
  apply mapM_Some in Eg. assert (Hrows : Forall2 (fun b rows => table_rows b = cell_rows rows) bs groups).
  { eapply Forall2_impl; [exact Eg|]. intros b rows. apply int_rows_spec. }
  split; [|split; [done|]].
  - unfold file_schema. cbn. rewrite map_map. transitivity (map (fun f => f) s); [|apply map_id]. apply map_ext_in.
    intros f Hf%Hs%bool_decide_eq_true. destruct f. cbn in *. by subst.
  - clear Eg Hs. induction Hrows as [|b rows bs groups Hr _ IH]; constructor.
    + specialize (Hb b (or_introl eq_refl)). apply bool_decide_eq_true in Hb as [b' Hb']. exists b'. by rewrite <- Hr.
    + apply IH. intros x Hx. apply Hb. by right.
Qed.

Lemma of_rows_fits s rows b : of_rows s rows = Some b -> rb_schema b = s /\ fits s b /\ table_rows b = rows.
Proof.
  intros Hb. destruct (of_rows_spec s rows b Hb) as (Hs & _ & [_ Hv] & Hr). split; [done|]. split; [|done].
  rewrite Hs in Hv. split; [by rewrite Hs|done].
Qed.

(** Some groups read as batches. *)
Lemma read_groups (s : Schema) {A} (read : A -> option RecordBatch) (rows_of : A -> list Row) ks out :
  (forall k b, read k = Some b -> of_rows s (rows_of k) = Some b) -> mapM read ks = Some out ->
  all_rows out = concat (map rows_of ks) /\ Forall (fun b => rb_schema b = s /\ fits s b) out.
Proof.
  intros Hof. revert out. induction ks as [|k ks IH]; intros out; cbn; [by intros [= <-]|].
  destruct (read k) as [b|] eqn:E; [|done]. cbn. destruct (mapM read ks) as [bs|]; [|done]. intros [= <-].
  destruct (IH bs eq_refl) as [Hr Ha]. destruct (of_rows_fits _ _ _ (Hof k b E)) as (Hs & Hf & Hb). split; [|by constructor].
  change (all_rows (b :: bs)) with (table_rows b ++ all_rows bs). by rewrite Hb, Hr.
Qed.

Lemma written_rows (bs : list RecordBatch) groups :
  Forall2 (fun b rows => table_rows b = cell_rows rows) bs groups -> concat (map cell_rows groups) = all_rows bs.
Proof. induction 1 as [|b rows bs groups Hb _ IH]; [done|]. cbn. rewrite IH, <- Hb. done. Qed.

Lemma demo_roundtrip props s bs c : demo_write props s bs = Some c ->
  is_Some (demo_metadata c) /\ exists bs', demo_read c None None = Some bs' /\ all_rows bs' = all_rows bs /\
    Forall (fun b => rb_schema b = s /\ fits s b) bs'.
Proof.
  intros (f & Hf & Hs & Hrows & Hread)%demo_write_spec. unfold demo_metadata, demo_read. rewrite Hf. cbn. split; [by eexists|].
  rewrite Hs. assert (Hall : exists bs', mapM (fun rows => of_rows s (cell_rows rows)) f.2 = Some bs').
  { clear -Hread. induction Hread as [|b rows bs groups [b' Hb'] _ [bs' IH]]; [by exists []|]. cbn. rewrite Hb'. cbn. rewrite IH. cbn. by eexists. }
  destruct Hall as [bs' Hbs']. exists bs'. split; [done|].
  destruct (read_groups s (fun rows => of_rows s (cell_rows rows)) cell_rows f.2 bs' ltac:(done) Hbs') as [Hr Ha].
  split; [|done]. rewrite Hr. by apply written_rows.
Qed.

Lemma fold_min_bounds zs z : fold_left Z.min zs z <= z /\ Forall (fun x => fold_left Z.min zs z <= x) zs.
Proof.
  revert z. induction zs as [|x zs IH]; intros z; cbn; [by split; [lia|]|]. destruct (IH (Z.min z x)) as [H1' H2'].
  split; [lia|]. constructor; [lia|done].
Qed.
Lemma fold_max_bounds zs z : z <= fold_left Z.max zs z /\ Forall (fun x => x <= fold_left Z.max zs z) zs.
Proof.
  revert z. induction zs as [|x zs IH]; intros z; cbn; [by split; [lia|]|]. destruct (IH (Z.max z x)) as [H1' H2'].
  split; [lia|]. constructor; [lia|done].
Qed.

Lemma demo_stats_bound rows i e r : In r (cell_rows rows) -> within (demo_stats rows i e) (default None (r !! i)).
Proof.
  intros (zs & <- & Hin)%in_map_iff. rewrite list_lookup_fmap. destruct (zs !! i) as [[z|]|] eqn:Ez; cbn; try done.
  assert (Hz : In z (ints_of i rows)).
  { apply list_elem_of_In, list_elem_of_omap. exists zs. split; [by apply list_elem_of_In|]. by rewrite Ez. }
  unfold demo_stats. destruct (ints_of i rows) as [|y l]; [done|]. destruct (fold_min_bounds l y) as [A1 A2], (fold_max_bounds l y) as [B1 B2].
  rewrite List.Forall_forall in A2, B2. destruct Hz as [->|Hz]; [lia|]. specialize (A2 z Hz). specialize (B2 z Hz). lia.
Qed.

Lemma demo_groups props s bs c meta : NoDup (map fd_name s) -> demo_write props s bs = Some c -> demo_metadata c = Some meta ->
  exists groups, concat groups = all_rows bs /\ length groups = length (pm_row_groups meta) /\
    (forall sel out, demo_read c None (Some sel) = Some out ->
       all_rows out = concat (map (fun k => default [] (groups !! k)) sel) /\
       Forall (fun b => rb_schema b = s /\ fits s b) out) /\
    (forall i f leaf k rows stats, s !! i = Some f -> wide (fd_type f) ->
       pm_leaves meta !! leaf = Some [fd_name f] -> groups !! k = Some rows -> pm_row_groups meta !! k = Some stats ->
       Forall (fun r => within (mjoin (stats !! leaf)) (default None (r !! i))) rows).
Proof.
  intros Hnd (f & Hf & Hs & Hrows & Hread)%demo_write_spec. unfold demo_metadata. rewrite Hf. intros [= <-]. cbn [pm_row_groups pm_leaves].
  exists (map cell_rows f.2). split; [by apply written_rows|]. split; [by rewrite !length_map|]. split.
  - intros sel out. unfold demo_read. rewrite Hf. cbn. rewrite Hs. intros Ho.
    apply (read_groups s (fun k => f.2 !! k ≫= fun rows => of_rows s (cell_rows rows))); [|done].
    intros k b. rewrite list_lookup_fmap. by destruct (f.2 !! k).
  - intros i fd leaf k rows stats Hi _ Hleaf Hk Hst. apply list_lookup_fmap_Some in Hk as (g & -> & Hg).
    apply list_lookup_fmap_Some in Hst as (g' & -> & Hg'). assert (g' = g) as -> by congruence.
    assert (Hli : leaf = i).
    { rewrite list_lookup_fmap in Hleaf. destruct (f.1 !! leaf) as [e|] eqn:Ee; [|done]. injection Hleaf as Hn.
      eapply (NoDup_lookup (map fd_name s)); [done| |by rewrite list_lookup_fmap, Hi].
      rewrite <- Hs. unfold file_schema. rewrite map_map, list_lookup_fmap, Ee. cbn. by rewrite Hn. }
    subst leaf. apply List.Forall_forall. intros r Hr. rewrite list_lookup_imap.
    destruct (f.1 !! i) as [e|] eqn:Ee; cbn; [by apply demo_stats_bound|].
    exfalso. rewrite <- Hs in Hi. unfold file_schema in Hi. by rewrite list_lookup_fmap, Ee in Hi.
Qed.

#[export] Instance demo_cell_laws : ArrowLaws Cell.
Proof.
  split.
  - intros a t _. eexists. split; [reflexivity|]. split; [reflexivity|]. cbn. by induction (ar_cells a); constructor.
  - intros a b t u _ _ [= <-]. reflexivity.
  - reflexivity.
  - intros s cols n Hs Hf. destruct Hf as [|f c s cols (_ & Hn & _) Hf]; [done|]. cbn. rewrite Hn.
    rewrite (Forall2_length _ _ _ Hf), Nat.eqb_refl, Nat.eqb_refl. cbn.
    assert (forallb (fun c => Nat.eqb (length (ar_cells c)) n) cols = true) as ->; [|done].
    apply forallb_forall. intros x Hx. apply Nat.eqb_eq. clear Hs. induction Hf as [|g y s cols (_ & Hy & _) _ IH]; [done|].
    destruct Hx as [<-|Hx]; auto.
Qed.

#[export] Instance demo_rows_spec : ArrowRowsSpec.
Proof.
  split.
  - apply _.
  - apply demo_compare_refl.
  - apply demo_compare_swap.
  - intros a b c. apply demo_compare_trans.
  - apply demo_compare_int.
  - apply demo_compare_str.
  - apply demo_min_spec.
  - apply demo_max_spec.
  - intros s cols b. cbn. destruct cols as [|c cols]; [done|]. destruct (_ && _) eqn:E; [|done]. intros [= <-].
    apply andb_true_iff in E as [Hl%Nat.eqb_eq Hc]. split; [done|]. split; [done|]. split; [done|]. cbn. apply List.Forall_forall.
    rewrite forallb_forall in Hc. intros x Hx. by apply Nat.eqb_eq, Hc.
  - intros s bs b (Hs & Hsh & Hv & Hr)%of_rows_spec. by repeat (split; [done|]).
  - by intros a idx b [= <-].
  - apply demo_lexsort_spec.
  - intros sources picks a. cbn. destruct sources; [done|]. by intros [= <-].
  - intros sources picks t Hne Ht _. cbn. destruct sources as [|c sources]; [done|]. eexists. split; [reflexivity|].
    by apply Forall_cons in Ht as [? _].
  - intros b mask f _ (Hs & Hsh & Hv & Hr)%of_rows_spec. by repeat (split; [done|]).
  - intros props s bs c _ _ Hw. by eapply demo_roundtrip.
  - intros props s bs c meta _ Hnd _ Hw Hm. by eapply demo_groups.
  - intros a b [= <-]. by destruct (ar_type a).
Qed.

(** ** A table with rows *)
Definition tick_schema : Schema := [mkField "ts" Int64 false; mkField "px" Int64 true].
Definition tick_options : TableOptions :=
  mkTableOptions (Some "ts") ["ts"] (mkStorageOptions 1000000 1000000 Uncompressed []) (Some 3).
Definition tick (ts px : Z) : Row := [Some (CInt ts); Some (CInt px)].
Definition tick_batch (rows : list (Z * Z)) : RecordBatch :=
  default (mkBatch Cell [] [] 0) (of_rows tick_schema (map (fun e => tick e.1 e.2) rows)).

Definition empty_ticks : Disk :=
  after (do! Database.create "demo" "1" in Commit.create_table demo_db "t" tick_schema tick_options) nowhere.
Definition append_ticks (rows : list (Z * Z)) : prog CommitResult := Writes.append demo_db "t" [tick_batch rows] no_opts.
Definition ticks1 : Disk := after (append_ticks [(10, 1); (20, 2)]) empty_ticks.
Definition ticks2 : Disk := after (append_ticks [(30, 3); (40, 4)]) ticks1.
Definition ticks3 : Disk := after (append_ticks [(50, 5)]) ticks2.
Definition ticks4 : Disk := after (append_ticks [(60, 6)]) ticks3.
Definition scan_ticks (o : ScanOptions) (d : Disk) : option (list Row) :=
  match result_on (Scan.scan demo_db "t" Latest o) d with Ok (bs, _) => Some (all_rows bs) | Err _ => None end.

(** ** Runs that surprise *)
Definition long_text : string := "cccccccccccccccccccccccccccccccccccccccccccccccccccccccccccccccccccccccc".
Definition texts (l : list string) : Column := mkArray Cell Utf8 (map (fun s => Some (CStr s)) l).

(** A string over the length budget is left out of the statistics, and those of the other
    batches stay: the recorded maximum is below a value of the column. *)
Example long_string_above_the_maximum :
  let acc := fold_left SegmentStats.observe_column [texts ["a"; "b"]; texts [long_text]] SegmentStats.default_acc in
  SegmentStats.ca_max acc = Some (StStr "b") /\ String.compare "b" long_text = Lt /\ SegmentStats.ca_stats_dropped acc = false.
Proof. vm_compute. by repeat split. Qed.

(** A lower bound admits NaN. *)
Example nan_passes_a_lower_bound :
  let b := mkBatch Cell [mkField "px" Float64 false] [mkArray Cell Float64 [Some (CFloat S754_nan)]] 1 in
  let positive := mkConstraint "positive" (Compare "px" CmpGt (LInt 0)) Reject in
  DataPolicyEval.enforce (mkDataPolicy 1 [positive]) [b] = Ok tt.
Proof. vm_compute. reflexivity. Qed.

(** The policy of a table is kept under its id: the shadow a fork makes on its first write has
    another, and no policy. *)
Definition guarded : Disk :=
  after (DataPolicyStore.set_data_policy demo_db "t" (mkDataPolicy 1 [mkConstraint "positive" (Compare "px" CmpGt (LInt 0)) Reject])) ticks1.
Definition forked : Disk := after (fork_at "f" None) guarded.
Definition bad : list RecordBatch := [tick_batch [(90, -1)]].
Example policy_is_lost_in_a_fork :
  is_ok (result_on (Writes.append demo_db "t" bad no_opts) forked) = false /\
  is_ok (result_on (in_fork "f" (fun db => Writes.append db "t" bad no_opts)) forked) = true.
Proof. vm_compute. by split. Qed.

(** Setting a policy through a fork on a table it has not written sets that of the base. *)
Example policy_of_a_fork_reaches_the_base :
  let strict := mkDataPolicy 1 [mkConstraint "none" (Compare "px" CmpGt (LInt 1000)) Reject] in
  let d := after (in_fork "f" (fun db => DataPolicyStore.set_data_policy db "t" strict)) (after (fork_at "f" None) ticks1) in
  is_ok (result_on (Writes.append demo_db "t" [tick_batch [(90, 1)]] no_opts) ticks1) = true /\
  is_ok (result_on (Writes.append demo_db "t" [tick_batch [(90, 1)]] no_opts) d) = false.
Proof. vm_compute. by split. Qed.

(** After a column was added, the segments written before it cannot be compacted. *)
Definition wide_schema : Schema := tick_schema ++ [mkField "sz" Int64 true].
Definition evolved : Disk := after (Commit.evolve_schema demo_db "t" wide_schema no_opts) ticks2.
Example old_segments_cannot_be_compacted :
  is_ok (result_on (Writes.compact demo_db "t" no_opts) ticks2) = true /\
  is_ok (result_on (Writes.compact demo_db "t" no_opts) evolved) = false /\
  is_ok (result_on (Writes.delete_range demo_db "t" 15 25 no_opts) ticks2) = true /\
  is_ok (result_on (Writes.delete_range demo_db "t" 15 25 no_opts) evolved) = false.
Proof. vm_compute. by repeat split. Qed.

(** ** The theorems about rows at a concrete table

    Checks of the invariants on a disk, and the theorems about rows applied to the tables of
    [RowDemo], whose rows the operations themselves wrote. *)
#[local] Open Scope Z_scope.
Import MergeProps.

(** ** The environment *)
#[export] Instance demo_uuid_inj : Inj (=) (=) (new_uuid (Env := demo_env)).
Proof. intros a b E. cbn in E. injection E as E. exact (inj pretty _ _ E). Qed.

Lemma demo_collision_free : collision_free.
Proof.
  intros o c. cbn [checksum_hex demo_env]. destruct o; cbn [digest]; intros E; try (apply join_text_inj in E as [E _]; discriminate); try discriminate.
  apply join_text_inj in E as [_ ->]. done.
Qed.

(** ** Checking an empty table *)
Definition data_file (p : Path) : bool :=
  match p with _ :: _ :: k :: _ => String.eqb k "segments" | _ => false end.
Definition spec_ok (p : Path) (f : File) : bool :=
  match fl_obj f with
  | OSpec s => bool_decide (p = spec_path (ts_table_id s) (ts_schema_revision s)) && (0 <=? ts_schema_revision s) &&
      negb (bool_decide (ts_schema s = [])) && bool_decide (NoDup (map fd_name (ts_schema s)))
  | OManifest m => bool_decide (mf_segments m = [])
  | _ => true
  end && negb (data_file p).

Lemma empty_rows_ok d : each_file spec_ok (files d) = true -> pending d = ∅ -> rows_ok d.
Proof.
  intros Hf Hp. split.
  - intros n u _. destruct (files d !! segment_path u (new_uuid n)) as [f|] eqn:E; [|done].
    apply (each_file_spec _ _ _ _ Hf) in E. apply andb_true_iff in E as [_ E]. done.
  - intros t. unfold head_flushed. by rewrite Hp.
  - intros t r spec (f & Ef & Ho). apply (each_file_spec _ _ _ _ Hf) in Ef. unfold spec_ok in Ef. rewrite Ho in Ef.
    apply andb_true_iff in Ef as [[[[Epath%bool_decide_eq_true Eu%Z.leb_le]%andb_true_iff Ene]%andb_true_iff End]%andb_true_iff _].
    apply negb_true_iff, bool_decide_eq_false in Ene. apply bool_decide_eq_true in End.
    assert (Et : ts_table_id spec = t) by (unfold spec_path in Epath; congruence). split; try done. by rewrite <- Et at 1.
  - intros t s mf (f & Ef & Ho). apply (each_file_spec _ _ _ _ Hf) in Ef. unfold spec_ok in Ef. rewrite Ho in Ef.
    apply andb_true_iff in Ef as [->%bool_decide_eq_true _]. constructor.
Qed.

(** ** Checking the revisions of the segments *)
Definition revision_ok (_ : Path) (f : File) : bool :=
  match fl_obj f with
  | OManifest m => (0 <=? mf_schema_revision m) &&
      forallb (fun g => sg_schema_revision g =? mf_schema_revision m) (mf_segments m)
  | _ => true
  end.
Lemma revisions_ok d : each_file revision_ok (files d) = true -> revisions_agree d.
Proof.
  intros Hf t s mf (f & Ef & Ho). apply (each_file_spec _ _ _ _ Hf) in Ef. unfold revision_ok in Ef. rewrite Ho in Ef.
  apply andb_true_iff in Ef as [Hu%Z.leb_le Hs]. split; [done|]. rewrite forallb_forall in Hs. apply List.Forall_forall.
  intros g Hg. by apply Z.eqb_eq, Hs.
Qed.
Lemma agree_one_revision d : revisions_agree d -> one_revision d.
Proof. intros Hr t mf (h & _ & Hs). by apply (Hr t _ mf Hs). Qed.

(** ** The tables of the demonstration *)
Lemma flushed_rows_ok d : rows_ok d -> rows_ok (d <| pending := ∅ |>).
Proof. intros [H1' _ H3' H4']. by split. Qed.

Lemma ticks_valid rows : valid_batch (tick_batch rows) <-> tick_batch rows <> mkBatch Cell [] [] 0.
Proof.
  unfold tick_batch. destruct (of_rows _ _) as [b|] eqn:E; cbn.
  - apply of_rows_spec in E as (Hs & _ & Hv & _). split; [|done]. intros [Hne _] ->. done.
  - split; [by intros []|done].
Qed.

(** An append that succeeds keeps a table sound. *)
Lemma append_rows_ok d rows : rows_ok d -> each_file revision_ok (files d) = true ->
  tick_batch rows <> mkBatch Cell [] [] 0 -> is_ok (result_on (append_ticks rows) d) = true -> rows_ok (after (append_ticks rows) d).
Proof.
  intros Hok Hr Hv%ticks_valid Ho. apply flushed_rows_ok. unfold result_on in Ho.
  assert (Hw : wpc true (append_ticks rows) d (fun r d' => match r with Ok _ => rows_ok d' | Err _ => True end) (fun _ => True)).
  { unfold append_ticks, Writes.append. apply not_replayed; [done|]. apply wpc_append; try done.
    - apply demo_collision_free.
    - intros _. by apply agree_one_revision, revisions_ok.
    - by constructor.
    - intros r d' Hc. apply Hc. }
  pose proof (wpc_run true _ _ _ _ [] Hw ltac:(done)) as HQ. by destruct (run [] (append_ticks rows) d) as [[r|e] d'].
Qed.

Lemma empty_ticks_ok : rows_ok empty_ticks.
Proof. apply empty_rows_ok; vm_compute; reflexivity. Qed.
Ltac ticks_step := apply append_rows_ok; [|vm_compute; reflexivity|discriminate|vm_compute; reflexivity].
Lemma ticks1_ok : rows_ok ticks1.
Proof. ticks_step. apply empty_ticks_ok. Qed.
Lemma ticks2_ok : rows_ok ticks2.
Proof. ticks_step. apply ticks1_ok. Qed.
Lemma ticks3_ok : rows_ok ticks3.
Proof. ticks_step. apply ticks2_ok. Qed.
Lemma ticks3_revisions : revisions_agree ticks3.
Proof. apply revisions_ok. vm_compute. reflexivity. Qed.

(** ** The theorems about rows *)
Definition late : list RecordBatch := [tick_batch [(60, 6); (70, 7)]].
Lemma late_valid : Forall valid_batch late.
Proof. constructor; [|constructor]. by apply ticks_valid. Qed.

Lemma append_adds_its_rows_witness :
  let p := Writes.append demo_db "t" late no_opts in
  is_ok (run [] p ticks3).1 = true /\ changed "t" (appended_up_to true late) ticks3 (run [] p ticks3).2.
Proof.
  intros p. assert (Ho : is_ok (run [] p ticks3).1 = true) by (vm_compute; reflexivity). split; [exact Ho|].
  assert (Ht : match run [] p ticks3 with (Ok _, d') => changed "t" (appended_up_to true late) ticks3 d' | (Err _, _) => True end).
  { apply (append_adds_its_rows [] demo_db "t" late no_opts true ticks3); [apply demo_collision_free|reflexivity|reflexivity|apply ticks3_ok|
      intros _; apply agree_one_revision, ticks3_revisions|apply late_valid]. }
  destruct (run [] p ticks3) as [[r|e] d']; [exact Ht|discriminate Ho].
Defined.

Definition disorder : list RecordBatch := [tick_batch [(30, 1); (10, 2)]; tick_batch [(20, 3)]].
Lemma disorder_uniform : Forall (uniform tick_schema) disorder.
Proof. constructor; [|constructor; [|constructor]]; (split; [reflexivity|]); by apply ticks_valid. Qed.

Lemma write_replaces_the_rows_witness :
  let p := Writes.write demo_db "t" disorder no_opts in
  is_ok (run [] p ticks3).1 = true /\ changed "t" (replaced ticks3 "t" tick_schema disorder) ticks3 (run [] p ticks3).2.
Proof.
  intros p. assert (Ho : is_ok (run [] p ticks3).1 = true) by (vm_compute; reflexivity). split; [exact Ho|].
  assert (Ht : match run [] p ticks3 with (Ok _, d') => changed "t" (replaced ticks3 "t" tick_schema disorder) ticks3 d' | (Err _, _) => True end).
  { apply (write_replaces_the_rows [] demo_db "t" tick_schema disorder no_opts ticks3); [apply demo_collision_free|reflexivity|reflexivity|apply ticks3_ok|apply disorder_uniform]. }
  destruct (run [] p ticks3) as [[r|e] d']; [exact Ht|discriminate Ho].
Defined.

(** The time of a row of the table is its first column. *)
Lemma ticks3_time : table_time ticks3 "t" 0.
Proof.
  assert (Hr : is_ok (result_on (Database.resolve demo_db "t" Latest) ticks3) = true) by (vm_compute; reflexivity).
  pose proof (finds_run [] _ ticks3 _ (finds_resolve (files ticks3) demo_db "t" Latest)) as Hf.
  assert (Hc : forall r, result_on (Database.resolve demo_db "t" Latest) ticks3 = Ok r ->
    ts_time_column (rt_spec r) = Some "ts" /\ ts_schema (rt_spec r) = tick_schema).
  { intros r. assert (E : match result_on (Database.resolve demo_db "t" Latest) ticks3 with
      | Ok r => ts_time_column (rt_spec r) = Some "ts" /\ ts_schema (rt_spec r) = tick_schema | Err _ => True end) by (vm_compute; by split).
    intros Hr'. by rewrite Hr' in E. }
  unfold result_on in *. destruct (run [] (Database.resolve demo_db "t" Latest) ticks3).1 as [r|e]; [|discriminate Hr].
  destruct Hf as (He & (s & Hs & Hst) & Hn & Hsp & _). destruct (Hc r eq_refl) as [Htc Hsc].
  exists (rt_entry r), (rt_manifest r), (rt_spec r), "ts". split; [by apply Hn|]. split.
  - destruct He as (h & Hh & Hseq). cbn in Hs. exists h. split; [done|]. by rewrite <- Hseq, <- Hs.
  - split; [done|]. split; [done|]. rewrite Hsc. split; [reflexivity|]. by exists (mkField "ts" Int64 false).
Qed.

Definition within_range : list RecordBatch := [tick_batch [(35, 1); (18, 2)]].
Lemma range_is_replaced_witness :
  let p := Writes.replace_range demo_db "t" 15 45 within_range no_opts in
  is_ok (run [] p ticks3).1 = true /\ changed "t" (range_replaced 0 15 45 within_range) ticks3 (run [] p ticks3).2.
Proof.
  intros p. assert (Ho : is_ok (run [] p ticks3).1 = true) by (vm_compute; reflexivity). split; [exact Ho|].
  assert (Ht : match run [] p ticks3 with (Ok _, d') => changed "t" (range_replaced 0 15 45 within_range) ticks3 d' | (Err _, _) => True end).
  { apply (range_is_replaced [] demo_db "t" 0 15 45 within_range no_opts OpReplaceRange ticks3); [apply demo_collision_free|reflexivity|reflexivity|
      apply ticks3_ok|apply agree_one_revision, ticks3_revisions|apply ticks3_time|].
    constructor; [|constructor]. by apply ticks_valid. }
  destruct (run [] p ticks3) as [[r|e] d']; [exact Ht|discriminate Ho].
Defined.

Lemma compaction_keeps_the_rows_witness :
  let p := Writes.compact demo_db "t" no_opts in
  is_ok (run [] p ticks3).1 = true /\ changed "t" (≡ₚ) ticks3 (run [] p ticks3).2.
Proof.
  intros p. assert (Ho : is_ok (run [] p ticks3).1 = true) by (vm_compute; reflexivity). split; [exact Ho|].
  assert (Ht : match run [] p ticks3 with (Ok _, d') => changed "t" (≡ₚ) ticks3 d' | (Err _, _) => True end).
  { apply (compaction_keeps_the_rows [] demo_db "t" None no_opts ticks3); [apply demo_collision_free|reflexivity|reflexivity|
      apply ticks3_ok|apply agree_one_revision, ticks3_revisions]. }
  destruct (run [] p ticks3) as [[r|e] d']; [exact Ht|discriminate Ho].
Defined.

(** A window, a limit: two of the five rows. *)
Definition window : ScanOptions := mkScanOptions None (Some 20) (Some 50) (Some 2) false.
Lemma scan_reads_the_window_witness :
  let out := (run [] (Scan.scan demo_db "t" Latest window) ticks3).1 in
  scan_ticks window ticks3 = Some [tick 20 2; tick 30 3] /\
  match out with Ok o => scanned ticks3 demo_db "t" Latest window o | Err _ => False end.
Proof.
  intros out. split; [vm_compute; reflexivity|]. assert (Ho : is_ok out = true) by (vm_compute; reflexivity).
  assert (Ht : match out with Ok o => scanned ticks3 demo_db "t" Latest window o | Err _ => True end).
  { apply (scan_reads_the_window [] demo_db "t" Latest window ticks3); [reflexivity|apply ticks3_ok|apply ticks3_revisions|reflexivity]. }
  destruct out as [o|e]; [exact Ht|discriminate Ho].
Defined.

(** A writer that flushes each batch. *)
Definition small_spec : TableSpec :=
  mkTableSpec tbl "t" 1 tick_schema (Some "ts") ["ts"] (mkStorageOptions 16 16 Uncompressed []) 3 0 "".
Lemma staging_is_leased_witness :
  let batches := [tick_batch [(60, 6)]; tick_batch [(70, 7)]] in
  let p := let! w := SegmentWriter.new small_spec (ts_schema small_spec) 4 in
           let! w := SegmentWriter.push_all w batches in SegmentWriter.finish w in
  is_ok (run [] p ticks3).1 = true /\ Forall (leased small_spec ticks3) (states [] p ticks3).
Proof.
  intros batches p. split; [vm_compute; reflexivity|].
  apply (staging_is_leased [] small_spec 4 batches ticks3). apply (ro_fresh ticks3 ticks3_ok).
Defined.

Lemma merge_is_stable_sort_witness :
  let bs := [tick_batch [(30, 1); (10, 2)]; tick_batch [(20, 3); (30, 4)]] in
  exists sorted m cs, SegmentSort.sort_each_batch bs ["ts"] = Ok sorted /\ Merger.new sorted ["ts"] 2 = Ok m /\
    Merger.chunks m = Ok cs /\ all_rows cs ≡ₚ all_rows bs /\
    map (row_time 0) (all_rows cs) = [10; 20; 30; 30].
Proof.
  intros bs. assert (Hs : exists sorted, SegmentSort.sort_each_batch bs ["ts"] = Ok sorted) by (eexists; vm_compute; reflexivity).
  destruct Hs as [sorted Hs].
  assert (Hm : exists m, Merger.new sorted ["ts"] 2 = Ok m).
  { assert (E : match SegmentSort.sort_each_batch bs ["ts"] with Ok s => is_ok (Merger.new s ["ts"] 2) | Err _ => false end = true)
      by (vm_compute; reflexivity). rewrite Hs in E. destruct (Merger.new sorted ["ts"] 2) as [m|]; [by exists m|discriminate E]. }
  destruct Hm as [m Hm].
  destruct (merge_is_stable_sort tick_schema ["ts"] bs sorted 2 m) as (cs & Hcs & _ & Hp & _); [|discriminate|exact Hs|exact Hm|].
  - constructor; [|constructor; [|constructor]]; (split; [reflexivity|]); by apply ticks_valid.
  - exists sorted, m, cs. do 4 (split; [assumption|]).
    assert (E : match SegmentSort.sort_each_batch bs ["ts"] with
      | Ok s => match Merger.new s ["ts"] 2 with
        | Ok m => match Merger.chunks m with Ok cs => map (row_time 0) (all_rows cs) = [10; 20; 30; 30] | Err _ => False end
        | Err _ => False end
      | Err _ => False end) by (vm_compute; reflexivity).
    rewrite Hs, Hm, Hcs in E. exact E.
Defined.

Lemma statistics_bound_the_column_witness :
  let arrays := [texts ["b"; "a"]; texts ["c"]] in
  let acc := fold_left SegmentStats.observe_column arrays SegmentStats.default_acc in
  SegmentStats.ca_max acc = Some (StStr "c") /\ bounds false [CStr "b"; CStr "a"; CStr "c"] acc.
Proof.
  intros arrays acc. split; [vm_compute; reflexivity|].
  apply (statistics_bound_the_column false arrays).
  repeat (constructor; [split; [right; split; [by left|]; repeat (constructor; [vm_compute; discriminate|]); constructor|reflexivity]|]). constructor.
Defined.
