(* ===== verification/AsOf.v ===== *)
(** * The values of the query layer ([h5i-db-query])

    Scalars and expressions are DataFusion's, as far as the code builds or takes apart: an
    expression it does not look into is an [EOther].  The class [QueryKernels] has the
    operations of Arrow and DataFusion the query layer calls beyond those of [ArrowRows], the
    class [QuerySpec] what the theorems use of their documentation.  [scans], [limits] and
    [errors] of the storage engine are those of Part I. *)
From S2P Require Export SortProps Scan.

Inductive DfError :=
| DfPlan (message : string)
| DfExecution (message : string)
| DfInternal (message : string)
| DfResources (message : string)
| DfArrow
| DfExternal (e : StoreError).
Abbreviation DfResult := (result DfError) (only parsing).

(** A [ScalarValue] is a type and a cell of it, [None] when it is null. *)
Record ScalarValue := mkScalar { sv_type : DataType; sv_cell : option Cell }.
#[export] Instance ScalarValue_eq_dec : EqDecision ScalarValue.
Proof. solve_decision. Defined.

Inductive Operator := OEq | ONotEq | OLt | OLtEq | OGt | OGtEq | OOther (name : string).
#[export] Instance Operator_eq_dec : EqDecision Operator.
Proof. solve_decision. Defined.

Inductive Expr :=
| ECol (qualifier : option string) (name : string)
| ELit (v : ScalarValue)
| EBin (l : Expr) (op : Operator) (r : Expr)
| EOther (tag : string) (args : list Expr).

(** [Operator::swap]: the comparison with its sides exchanged. *)
Definition op_swap (op : Operator) : option Operator :=
  match op with
  | OEq => Some OEq | ONotEq => Some ONotEq
  | OLt => Some OGt | OLtEq => Some OGtEq | OGt => Some OLt | OGtEq => Some OLtEq
  | OOther _ => None
  end.
Definition op_holds (op : Operator) (a b : Z) : bool :=
  match op with
  | OEq => a =? b | ONotEq => negb (a =? b)
  | OLt => a <? b | OLtEq => a <=? b | OGt => b <? a | OGtEq => b <=? a
  | OOther _ => false
  end.

(** [Expr::column_refs], and the rewriting of every column. *)
Fixpoint column_refs (e : Expr) : list string :=
  match e with
  | ECol _ n => [n]
  | ELit _ => []
  | EBin l _ r => column_refs l ++ column_refs r
  | EOther _ args => (fix refs l := match l with [] => [] | a :: l' => column_refs a ++ refs l' end) args
  end.
Fixpoint unqualify (e : Expr) : Expr :=
  match e with
  | ECol _ n => ECol None n
  | ELit v => ELit v
  | EBin l op r => EBin (unqualify l) op (unqualify r)
  | EOther t args => EOther t ((fix each l := match l with [] => [] | a :: l' => unqualify a :: each l' end) args)
  end.

Class QueryKernels `{ArrowRows} := {
  (** The value type of a dictionary type held under its name. *)
  dictionary_value : string -> option DataType;
  (** [RowConverter::convert_columns]: the bytes of one row. *)
  row_data : list DataType -> list (option Cell) -> string;
  (** Does an expression evaluate to true at a row? *)
  holds : Schema -> list (option Cell) -> Expr -> bool;
}.

(** Equal bytes are equal rows; a column of integers compared with an integer. *)
Class QuerySpec `{ArrowRowsSpec} `{!QueryKernels} := {
  row_data_eq : forall ts a b, length a = length ts -> length b = length ts ->
    row_data ts a = row_data ts b <-> compare_keys a b = Eq;
  holds_column : forall s row q n i v t w op, TableSpec.index_of s n = Some i -> row !! i = Some (Some (CInt v)) ->
    (forall name, op <> OOther name) ->
    holds s row (EBin (ECol q n) op (ELit (mkScalar t (Some (CInt w))))) = op_holds op v w;
  holds_literal : forall s row q n i v t w op, TableSpec.index_of s n = Some i -> row !! i = Some (Some (CInt v)) ->
    (forall name, op <> OOther name) ->
    holds s row (EBin (ELit (mkScalar t (Some (CInt w)))) op (ECol q n)) = op_holds op w v;
}.

(** [slice::partition_point], on a slice the predicate partitions. *)
Fixpoint partition_point {A} (p : A -> bool) (l : list A) : nat :=
  match l with
  | x :: l' => if p x then S (partition_point p l') else O
  | [] => O
  end.

Definition field_with_name (s : Schema) (name : string) : option Field :=
  TableSpec.index_of s name ≫= fun i => s !! i.
Definition df_bounds : DfError := DfInternal "index out of bounds".

(** A batch and its place in the list. *)
Definition enumerate {A} (l : list A) : list (nat * A) := combine (seq 0 (length l)) l.

(** [time_column_i64] ([asof.rs]), which [latest.rs] shares. *)
Definition time_column_i64 `{ArrowRows} (b : RecordBatch) (idx : nat) : DfResult (list Z) :=
  let? col := ok_or (rb_columns b !! idx) df_bounds in
  if 0 <? null_count col then Err (DfExecution "asof: time column contains nulls")
  else
    match ar_type col with
    | Int64 | Timestamp _ => Ok (int_values col)
    | _ => let? casted := ok_or (TableSpec.cast col Int64) DfArrow in Ok (int_values casted)
    end.

(** ** The ASOF join ([asof.rs])

    The key types and the output schema, the index of the right side ([RightRuns]), the probe
    of one left row, the join of a left batch, and what the table function pushes down to the
    scans of its two sides.  The plan nodes, the sorts put below the join and the streams that
    feed it are DataFusion's. *)

Inductive AsOfDirection := Backward | Forward.
#[export] Instance AsOfDirection_eq_dec : EqDecision AsOfDirection.
Proof. solve_decision. Defined.

Record AsOfOptions := mkAsOfOptions {
  ao_left_on : string;
  ao_right_on : string;
  ao_by : list (string * string);
  ao_direction : AsOfDirection;
  ao_tolerance : option Z;
  ao_inner : bool;
}.
Definition AsOfOptions_default : AsOfOptions := mkAsOfOptions "ts" "ts" [] Backward None false.

(** A run of right rows: their times and, beside them, their (batch, row). *)
Record Run := mkRun { rn_times : list Z; rn_locs : list (nat * nat) }.
Inductive RunIndex := Single (run : Run) | Keyed (runs : gmap string Run).
Record RightRuns := mkRightRuns {
  rr_index : RunIndex;
  rr_converter : option (list DataType);
  rr_mem_bytes : Z;
}.

Module AsOf.
Section AsOf.
Context `{QueryKernels}.

(** ** Key types and the output schema *)
Definition value_type (t : DataType) : DataType :=
  match t with
  | DictionaryUtf8 _ => Utf8
  | OtherType name => default t (dictionary_value name)
  | _ => t
  end.
Definition is_string (t : DataType) : bool :=
  match t with Utf8 | LargeUtf8 => true | OtherType name => String.eqb name "Utf8View" | _ => false end.
Definition canonical_key_type (l r : DataType) : option DataType :=
  if bool_decide (l = r) then Some l
  else
    let lv := value_type l in let rv := value_type r in
    if bool_decide (lv = rv) then Some lv
    else if is_string lv && is_string rv then Some Utf8 else None.

Definition by_key_types (left right : Schema) (o : AsOfOptions) : DfResult (list DataType) :=
  map_res (fun '(l, r) =>
    let? lf := ok_or (field_with_name left l) DfArrow in
    let? rf := ok_or (field_with_name right r) DfArrow in
    ok_or (canonical_key_type (fd_type lf) (fd_type rf)) (DfPlan "asof: by-column types differ")) (ao_by o).

Definition key_columns (b : RecordBatch) (by_idx : list nat) (key_types : list DataType) :
    DfResult (list Column) :=
  map_res (fun '(i, ty) =>
    let? col := ok_or (rb_columns b !! i) df_bounds in
    if bool_decide (ar_type col = ty) then Ok col else ok_or (TableSpec.cast col ty) DfArrow)
    (combine by_idx key_types).

(** The output column a right column becomes, unless it is a key. *)
Definition right_field (left : Schema) (f : Field) : Field :=
  mkField (if existsb (fun l => String.eqb (fd_name l) (fd_name f)) left then fd_name f ++ "_right" else fd_name f)
    (fd_type f) true.
Definition is_by (o : AsOfOptions) (f : Field) : bool := existsb (fun p => String.eqb p.2 (fd_name f)) (ao_by o).

Definition asof_output_schema (left right : Schema) (o : AsOfOptions) : DfResult (Schema * list nat) :=
  let? lt := ok_or (field_with_name left (ao_left_on o)) (DfPlan "asof: left time column not found") in
  let? rt := ok_or (field_with_name right (ao_right_on o)) (DfPlan "asof: right time column not found") in
  if negb (bool_decide (fd_type lt = fd_type rt)) then Err (DfPlan "asof: time column types differ")
  else
    let? _ := by_key_types left right o in
    let kept := List.filter (fun e => negb (is_by o e.2)) (enumerate right) in
    Ok (left ++ map (fun e => right_field left e.2) kept, map fst kept).

(** ** The right side *)
Definition empty_run : Run := mkRun [] [].
Definition push_row (r : Run) (t : Z) (loc : nat * nat) : Run :=
  mkRun (rn_times r ++ [t]) (rn_locs r ++ [loc]).

(** Stable, and skipped when the times are in order. *)
Definition ensure_sorted (r : Run) : Run :=
  if existsb (fun w => w.2 <? w.1) (combine (rn_times r) (tail (rn_times r))) then
    let idx := sort_by_key (fun i => nth i (rn_times r) 0) (seq 0 (length (rn_times r))) in
    mkRun (map (fun i => nth i (rn_times r) 0) idx) (map (fun i => nth i (rn_locs r) (0%nat, 0%nat)) idx)
  else r.

Definition RUN_ROW_BYTES : Z := 8 + 16.

Definition single_batch (time_idx : nat) (run : Run) (e : nat * RecordBatch) : DfResult Run :=
  let? time := time_column_i64 e.2 time_idx in
  Ok (fold_left (fun r ri => push_row r (nth ri time 0) (e.1, ri)) (seq 0 (rb_rows e.2)) run).

(** One row filed under its key; the counts are of the bytes of new keys and of the rows. *)
Definition keyed_row (key_types : list DataType) (time : list Z) (cols : list Column) (bi : nat)
    (s : gmap string Run * Z * Z) (ri : nat) : gmap string Run * Z * Z :=
  let '(m, key_bytes, total) := s in
  let key := row_data key_types (row_at cols ri) in
  let '(m, key_bytes) :=
    match m !! key with
    | None => (<[key := empty_run]> m, key_bytes + Z.of_nat (String.length key))
    | Some _ => (m, key_bytes)
    end in
  (alter (fun r => push_row r (nth ri time 0) (bi, ri)) key m, key_bytes, total + 1).

Definition keyed_batch (time_idx : nat) (by_idx : list nat) (key_types : list DataType)
    (s : gmap string Run * Z * Z) (e : nat * RecordBatch) : DfResult (gmap string Run * Z * Z) :=
  let? time := time_column_i64 e.2 time_idx in
  let? cols := key_columns e.2 by_idx key_types in
  if negb (convert_columns key_types cols) then Err DfArrow
  else Ok (fold_left (keyed_row key_types time cols e.1) (seq 0 (rb_rows e.2)) s).

Definition build (batches : list RecordBatch) (right_schema : Schema) (o : AsOfOptions)
    (key_types : list DataType) : DfResult RightRuns :=
  let? time_idx := ok_or (TableSpec.index_of right_schema (ao_right_on o)) DfArrow in
  let? by_idx := map_res (fun p => ok_or (TableSpec.index_of right_schema p.2) DfArrow) (ao_by o) in
  match by_idx with
  | [] =>
      let? run := foldr_res (single_batch time_idx) empty_run (enumerate batches) in
      let run := ensure_sorted run in
      Ok (mkRightRuns (Single run) None (zlen (rn_times run) * RUN_ROW_BYTES))
  | _ =>
      if negb (row_converter key_types) then Err DfArrow
      else
        let? '(m, key_bytes, total) :=
          foldr_res (keyed_batch time_idx by_idx key_types) (∅, 0, 0) (enumerate batches) in
        Ok (mkRightRuns (Keyed (ensure_sorted <$> m)) (Some key_types) (total * RUN_ROW_BYTES + key_bytes))
  end.

(** ** The match of one left row *)
Definition too_far (o : AsOfOptions) (later earlier : Z) : bool :=
  match ao_tolerance o with Some tol => tol <? sub64 later earlier | None => false end.

Definition probe_run (run : Run) (t : Z) (o : AsOfOptions) : option (nat * nat) :=
  match ao_direction o with
  | Backward =>
      match partition_point (fun x => x <=? t) (rn_times run) with
      | O => None
      | S i => if too_far o t (nth i (rn_times run) 0) then None else rn_locs run !! i
      end
  | Forward =>
      let pos := partition_point (fun x => x <? t) (rn_times run) in
      if Nat.leb (length (rn_times run)) pos then None
      else if too_far o (nth pos (rn_times run) 0) t then None else rn_locs run !! pos
  end.

Definition probe (rr : RightRuns) (key : option string) (t : Z) (o : AsOfOptions) : option (nat * nat) :=
  match rr_index rr, key with
  | Single run, _ => probe_run run t o
  | Keyed m, Some key => m !! key ≫= fun run => probe_run run t o
  | Keyed _, None => None
  end.
End AsOf.
End AsOf.

(** ** Joining a left batch *)
Record Joiner := mkJoiner {
  jn_runs : RightRuns;
  jn_right_batches : list RecordBatch;
  jn_options : AsOfOptions;
  jn_schema : Schema;
  jn_right_kept : list nat;
  jn_right_schema : Schema;
  jn_left_time_idx : nat;
  jn_left_by_idx : list nat;
  jn_key_types : list DataType;
}.

Module Joiner.
Section Joiner.
Context `{QueryKernels}.

(** The bytes of the keys of a left batch, row by row. *)
Definition left_keys (j : Joiner) (left : RecordBatch) : DfResult (nat -> option string) :=
  match rr_converter (jn_runs j) with
  | None => Ok (fun _ => None)
  | Some types =>
      let? cols := AsOf.key_columns left (jn_left_by_idx j) (jn_key_types j) in
      if negb (convert_columns types cols) then Err DfArrow
      else Ok (fun ri => Some (row_data types (row_at cols ri)))
  end.

Definition matches_of (j : Joiner) (left : RecordBatch) : DfResult (list (option (nat * nat))) :=
  let? times := time_column_i64 left (jn_left_time_idx j) in
  let? key := left_keys j left in
  Ok (map (fun ri => AsOf.probe (jn_runs j) (key ri) (nth ri times 0) (jn_options j)) (seq 0 (rb_rows left))).

Definition is_some {A} (o : option A) : bool := match o with Some _ => true | None => false end.

Definition drop_unmatched (j : Joiner) (left : RecordBatch) (matches : list (option (nat * nat))) :
    DfResult (RecordBatch * list (option (nat * nat))) :=
  if ao_inner (jn_options j) then
    let? filtered := ok_or (filter_record_batch left (map is_some matches)) DfArrow in
    Ok (filtered, List.filter is_some matches)
  else Ok (left, matches).

(** One right column at the matched rows, a null where there is none. *)
Definition gather_right (j : Joiner) (matches : list (option (nat * nat))) (col : nat) : DfResult Column :=
  let? sources := map_res (fun b => ok_or (rb_columns b !! col) df_bounds) (jn_right_batches j) in
  let? f := ok_or (jn_right_schema j !! col) df_bounds in
  let null_batch_idx := length sources in
  ok_or (Arrow.interleave (sources ++ [TableSpec.new_null_array (fd_type f) 1])
           (map (default (null_batch_idx, 0%nat)) matches)) DfArrow.

Definition join_batch (j : Joiner) (left : RecordBatch) : DfResult RecordBatch :=
  let? matches := matches_of j left in
  let? '(left_out, matches) := drop_unmatched j left matches in
  let? right := map_res (gather_right j matches) (jn_right_kept j) in
  ok_or (TableSpec.try_new (jn_schema j) (rb_columns left_out ++ right)) DfArrow.

(** [AsOfJoinExec::execute], for the batches of its two sides: [grow] says whether the memory
    pool grants one more reservation. *)
Definition execute (grow : Z -> Z -> bool) (left_schema right_schema schema : Schema) (right_kept : list nat)
    (o : AsOfOptions) (right left : list RecordBatch) : DfResult (list RecordBatch) :=
  let? key_types := AsOf.by_key_types left_schema right_schema o in
  let reserve total n := if grow total n then Ok (total + n) else Err (DfResources "memory") in
  let? total := foldr_res (fun total b => reserve total (get_array_memory_size b)) 0 right in
  let? runs := AsOf.build right right_schema o key_types in
  let? _ := reserve total (rr_mem_bytes runs) in
  let? left_time_idx := ok_or (TableSpec.index_of left_schema (ao_left_on o)) DfArrow in
  let? left_by_idx := map_res (fun p => ok_or (TableSpec.index_of left_schema p.1) DfArrow) (ao_by o) in
  map_res (join_batch (mkJoiner runs right o schema right_kept right_schema left_time_idx left_by_idx key_types)) left.
End Joiner.
End Joiner.

(** ** What the table function pushes down *)
Record AsOfTableProvider := mkAsOfTableProvider {
  ap_left : Schema;
  ap_right : Schema;
  ap_options : AsOfOptions;
  ap_schema : Schema;
  ap_right_kept : list nat;
}.

Module AsOfTableProvider.
Section Provider.
Context `{QueryKernels}.

Definition scalar_time_i64 (s : ScalarValue) : option Z :=
  match sv_type s, sv_cell s with
  | (Int64 | Timestamp _), Some (CInt v) => Some v
  | _, _ => None
  end.
Definition scalar_with_time (proto : ScalarValue) (v : Z) : ScalarValue :=
  match sv_type proto with
  | Timestamp u => mkScalar (Timestamp u) (Some (CInt v))
  | _ => mkScalar Int64 (Some (CInt v))
  end.

Definition is_left_filter (p : AsOfTableProvider) (e : Expr) : bool :=
  forallb (fun c =>
    match TableSpec.index_of (ap_left p) c with Some _ => true | None => false end &&
    forallb (fun f => negb (String.eqb (fd_name f) c)) (skipn (length (ap_left p)) (ap_schema p)))
    (column_refs e).

Definition time_cmp (p : AsOfTableProvider) (f : Expr) : option (Operator * ScalarValue) :=
  let found op v := match scalar_time_i64 v with Some _ => Some (op, v) | None => None end in
  match f with
  | EBin (ECol _ c) op (ELit v) => if String.eqb c (ao_left_on (ap_options p)) then found op v else None
  | EBin (ELit v) op (ECol _ c) =>
      if String.eqb c (ao_left_on (ap_options p)) then op_swap op ≫= fun op => found op v else None
  | _ => None
  end.

(** The bounds of the left times, and a literal of their type. *)
Record Bounds := mkBounds { bd_lo : option Z; bd_hi : option Z; bd_proto : option ScalarValue }.
Definition raise_lo (b : Bounds) (v : Z) : option Z := Some (match bd_lo b with Some x => Z.max x v | None => v end).
Definition lower_hi (b : Bounds) (v : Z) : option Z := Some (match bd_hi b with Some x => Z.min x v | None => v end).
Definition note_filter (p : AsOfTableProvider) (b : Bounds) (f : Expr) : Bounds :=
  match time_cmp p f with
  | None => b
  | Some (op, lit) =>
      match scalar_time_i64 lit with
      | None => b
      | Some v =>
          match op with
          | OGt | OGtEq => mkBounds (raise_lo b v) (bd_hi b) (Some lit)
          | OLt | OLtEq => mkBounds (bd_lo b) (lower_hi b v) (Some lit)
          | OEq => mkBounds (raise_lo b v) (lower_hi b v) (Some lit)
          | _ => b
          end
      end
  end.
Definition bounds_of (p : AsOfTableProvider) (left_filters : list Expr) : Bounds :=
  fold_left (note_filter p) left_filters (mkBounds None None None).

Definition right_time_bounds (p : AsOfTableProvider) (left_filters : list Expr) : list Expr :=
  let b := bounds_of p left_filters in
  match bd_proto b with
  | None => []
  | Some proto =>
      let right_col := ECol None (ao_right_on (ap_options p)) in
      let compare op v := EBin right_col op (ELit (scalar_with_time proto v)) in
      let tol := match ao_tolerance (ap_options p) with Some t => if 0 <=? t then Some t else None | None => None end in
      match ao_direction (ap_options p) with
      | Backward =>
          match bd_hi b with Some hi => [compare OLtEq hi] | None => [] end ++
          match bd_lo b, tol with Some lo, Some tol => [compare OGtEq (sat64 (lo - tol))] | _, _ => [] end
      | Forward =>
          match bd_lo b with Some lo => [compare OGtEq lo] | None => [] end ++
          match bd_hi b, tol with Some hi, Some tol => [compare OLtEq (sat64 (hi + tol))] | _, _ => [] end
      end
  end.

(** [supports_filters_pushdown]: [true] is Inexact, [false] Unsupported. *)
Definition supports_filters_pushdown (p : AsOfTableProvider) (filters : list Expr) : list bool :=
  map (is_left_filter p) filters.

(** What [scan] asks of its two sides, and the places of the requested columns in the join of
    what they return. *)
Record ScanPlan := mkScanPlan {
  pl_left_filters : list Expr;
  pl_right_filters : list Expr;
  pl_left_limit : option Z;
  pl_projections : option (list nat * list nat);
  pl_output : option (list nat);
}.

(** A [BTreeSet] of column indices, in order. *)
Definition index_set (l : list nat) : list nat := foldr (fun i s => if existsb (Nat.eqb i) s then s else hpush (fun i => Z.of_nat i) i s) [] l.
Definition position (l : list nat) (i : nat) : option nat := fst <$> list_find (fun j => i = j) l.

Definition left_needed (p : AsOfTableProvider) (indices : list nat) : DfResult (list nat) :=
  let lw := length (ap_left p) in
  let? on := ok_or (TableSpec.index_of (ap_left p) (ao_left_on (ap_options p))) DfArrow in
  let? by_ := map_res (fun q => ok_or (TableSpec.index_of (ap_left p) q.1) DfArrow) (ao_by (ap_options p)) in
  Ok (index_set (List.filter (fun i => Nat.ltb i lw) indices ++ on :: by_)).
Definition right_needed (p : AsOfTableProvider) (indices : list nat) : DfResult (list nat) :=
  let lw := length (ap_left p) in
  let? wanted := map_res (fun i => ok_or (ap_right_kept p !! (i - lw)%nat) df_bounds)
                   (List.filter (fun i => Nat.leb lw i) indices) in
  let? on := ok_or (TableSpec.index_of (ap_right p) (ao_right_on (ap_options p))) DfArrow in
  let? by_ := map_res (fun q => ok_or (TableSpec.index_of (ap_right p) q.2) DfArrow) (ao_by (ap_options p)) in
  Ok (index_set (wanted ++ on :: by_)).

(** The projected right columns that are not keys. *)
Definition right_out (p : AsOfTableProvider) (right_proj : list nat) : list nat :=
  List.filter (fun r => match ap_right p !! r with
                        | Some f => negb (AsOf.is_by (ap_options p) f) | None => false end) right_proj.
Definition output_position (p : AsOfTableProvider) (left_proj right_proj : list nat) (i : nat) : DfResult nat :=
  let lw := length (ap_left p) in
  if Nat.ltb i lw then ok_or (position left_proj i) (DfInternal "projected left column present")
  else
    let? rj := ok_or (ap_right_kept p !! (i - lw)%nat) df_bounds in
    let? pos := ok_or (position (right_out p right_proj) rj) (DfInternal "projected right column present") in
    Ok (length left_proj + pos)%nat.

Definition scan (p : AsOfTableProvider) (projection : option (list nat)) (filters : list Expr)
    (limit : option Z) : DfResult ScanPlan :=
  let left_filters := map unqualify (List.filter (is_left_filter p) filters) in
  let right_filters := right_time_bounds p left_filters in
  let left_limit := match filters with [] => if ao_inner (ap_options p) then None else limit | _ => None end in
  match projection with
  | None => Ok (mkScanPlan left_filters right_filters left_limit None None)
  | Some indices =>
      let? left_proj := left_needed p indices in
      let? right_proj := right_needed p indices in
      let? out := map_res (output_position p left_proj right_proj) indices in
      Ok (mkScanPlan left_filters right_filters left_limit (Some (left_proj, right_proj)) (Some out))
  end.
End Provider.
End AsOfTableProvider.
