(* ===== verification/AsOfTheorems.v ===== *)
(** * The ASOF join and its pushdown

    The join is its definition over all rows, and what is pushed down below it does not change
    the answer.

    [nearest]: among timed rows, the latest at or before a time (the earliest at or after
    it), the last (the first) of those at the same time, if its distance is within the
    tolerance.  [asof_match] is the same with the distance as the code computes it, in 64 bits,
    where two times may be further apart than that; on times that are not they agree.  A sorted run with its binary search computes it, and rows outside an interval that has
    every match do not change it. *)
From S2P Require Export AsOf.
#[local] Open Scope Z_scope.

(** ** The definition *)
Section Match.
Context {L : Type}.
Implicit Types (l : list (Z * L)) (e : Z * L).

Definition latest l : option (Z * L) :=
  fold_left (fun best e => match best with Some b => if b.1 <=? e.1 then Some e else best | None => Some e end) l None.
Definition earliest l : option (Z * L) :=
  fold_left (fun best e => match best with Some b => if e.1 <? b.1 then Some e else best | None => Some e end) l None.
Definition asof_match (o : AsOfOptions) (t : Z) l : option L :=
  match ao_direction o with
  | Backward =>
      match latest (List.filter (fun e => e.1 <=? t) l) with
      | Some e => if AsOf.too_far o t e.1 then None else Some e.2
      | None => None
      end
  | Forward =>
      match earliest (List.filter (fun e => t <=? e.1) l) with
      | Some e => if AsOf.too_far o e.1 t then None else Some e.2
      | None => None
      end
  end.


(** The definition, with the exact distance. *)
Definition within (o : AsOfOptions) (l r : Z) : bool :=
  match ao_tolerance o with Some tol => Z.abs (l - r) <=? tol | None => true end.
Definition nearest (o : AsOfOptions) (t : Z) l : option L :=
  match (match ao_direction o with
         | Backward => latest (List.filter (fun e => e.1 <=? t) l)
         | Forward => earliest (List.filter (fun e => t <=? e.1) l)
         end) with
  | Some e => if within o t e.1 then Some e.2 else None
  | None => None
  end.

Definition in_time l : Prop := StronglySorted (fun a b => a.1 <= b.1) l.
Definition by_time l : list (Z * L) := sort_by_key fst l.

Lemma by_time_snoc l e : by_time (l ++ [e]) = hpush fst e (by_time l).
Proof. unfold by_time, sort_by_key, hof_list. by rewrite fold_left_app. Qed.

Lemma by_time_sorted l : in_time (by_time l).
Proof.
  destruct (hof_list_spec fst l) as [_ Hw]. unfold by_time, sort_by_key, in_time. unfold hwf in Hw.
  eapply StronglySorted_weaken; [|exact Hw]. intros a b Hab. by apply kle_Z.
Qed.

Lemma latest_snoc l e :
  latest (l ++ [e]) = match latest l with Some b => if b.1 <=? e.1 then Some e else Some b | None => Some e end.
Proof. unfold latest. rewrite fold_left_app. cbn. by destruct (fold_left _ l None). Qed.
Lemma earliest_snoc l e :
  earliest (l ++ [e]) = match earliest l with Some b => if e.1 <? b.1 then Some e else Some b | None => Some e end.
Proof. unfold earliest. rewrite fold_left_app. cbn. by destruct (fold_left _ l None). Qed.

Lemma filter_hpush (p : Z * L -> bool) e l : (forall a b : Z * L, a.1 <= b.1 -> p b = true -> p a = true) \/ (forall a b : Z * L, a.1 <= b.1 -> p a = true -> p b = true) ->
  in_time l ->
  List.filter p (hpush fst e l) = if p e then hpush fst e (List.filter p l) else List.filter p l.
Proof.
  intros Hp. induction l as [|y l IH]; cbn [hpush]; intros Hs; [cbn; by destruct (p e)|].
  apply StronglySorted_inv in Hs as [Hs Hy]. specialize (IH Hs).
  destruct (kltb e.1 y.1) eqn:E.
  - cbn [List.filter]. destruct (p e) eqn:Epe; [|done]. destruct (p y) eqn:Epy; cbn [hpush]; [by rewrite E|].
    apply kltb_spec, (proj1 (klt_Z _ _)) in E.
    destruct Hp as [Hp|Hp]; [|by rewrite (Hp e y ltac:(lia) Epe) in Epy].
    assert (List.filter p l = []) as ->; [|done].
    clear IH Hs. induction Hy as [|z l Hz _ IHl]; [done|]. cbn. destruct (p z) eqn:Epz; [|done].
    by rewrite (Hp y z Hz Epz) in Epy.
  - cbn [List.filter]. rewrite IH. destruct (p y) eqn:Epy; destruct (p e); try done. cbn [hpush]. by rewrite E.
Qed.

Lemma last_hpush e l : in_time l ->
  last (hpush fst e l) = match last l with Some b => if b.1 <=? e.1 then Some e else Some b | None => Some e end.
Proof.
  induction l as [|y l IH]; [done|]. intros Hs. apply StronglySorted_inv in Hs as [Hs Hy]. cbn [hpush].
  destruct (kltb e.1 y.1) eqn:E.
  - apply kltb_spec, (proj1 (klt_Z _ _)) in E. rewrite last_cons, last_cons. destruct (last l) as [b|] eqn:El.
    + assert (y.1 <= b.1). { apply last_Some in El as [l' ->]. apply Forall_app in Hy as [_ Hy]. by inversion Hy. }
      by destruct (Z.leb_spec b.1 e.1); [lia|].
    + by destruct (Z.leb_spec y.1 e.1); [lia|].
  - rewrite last_cons, (IH Hs), last_cons. assert (Hle : y.1 <= e.1).
    { destruct (Z.leb_spec y.1 e.1) as [|Hlt]; [done|]. apply (proj2 (klt_Z _ _)), kltb_spec in Hlt. congruence. }
    destruct (last l) as [b|]; [by destruct (b.1 <=? e.1)|]. by destruct (Z.leb_spec y.1 e.1); [|lia].
Qed.
Lemma head_hpush e l : head (hpush fst e l) = match head l with Some b => if e.1 <? b.1 then Some e else Some b | None => Some e end.
Proof.
  destruct l as [|y l]; [done|]. cbn. destruct (kltb e.1 y.1) eqn:E, (Z.ltb_spec e.1 y.1) as [Hl|Hl]; try done.
  - apply kltb_spec, (proj1 (klt_Z _ _)) in E. lia.
  - apply (proj2 (klt_Z _ _)), kltb_spec in Hl. congruence.
Qed.

Lemma in_time_filter p l : in_time l -> in_time (List.filter p l).
Proof.
  unfold in_time. induction 1 as [|y l Hs IH Hy]; cbn; [constructor|]. destruct (p y); [|done]. constructor; [done|].
  rewrite List.Forall_forall in *. intros z [Hz _]%filter_In. auto.
Qed.

(** The last row of a sorted list is the latest, the first the earliest. *)
Lemma last_latest t l : last (List.filter (fun e => e.1 <=? t) (by_time l)) = latest (List.filter (fun e => e.1 <=? t) l).
Proof.
  induction l as [|e l IH] using rev_ind; [done|]. rewrite by_time_snoc, filter_hpush, List.filter_app; [|left; intros; lia|apply by_time_sorted].
  cbn. destruct (e.1 <=? t); [|by rewrite app_nil_r]. rewrite latest_snoc, <- IH. apply last_hpush, in_time_filter, by_time_sorted.
Qed.
Lemma head_earliest t l : head (List.filter (fun e => t <=? e.1) (by_time l)) = earliest (List.filter (fun e => t <=? e.1) l).
Proof.
  induction l as [|e l IH] using rev_ind; [done|]. rewrite by_time_snoc, filter_hpush, List.filter_app; [|right; intros; lia|apply by_time_sorted].
  cbn. destruct (t <=? e.1); [|by rewrite app_nil_r]. by rewrite earliest_snoc, <- IH, head_hpush.
Qed.
End Match.

(** ** Runs *)
Lemma sort_by_key_map {A B} (f : A -> B) (ka : A -> Z) (k : B -> Z) l :
  (forall a, ka a = k (f a)) -> map f (sort_by_key ka l) = sort_by_key k (map f l).
Proof.
  intros Hk. assert (Hp : forall x l, map f (hpush ka x l) = hpush k (f x) (map f l)).
  { intros x l'. induction l' as [|y l' IH]; [done|]. cbn. rewrite !Hk. destruct (kltb _ _); cbn; [done|]. by rewrite IH. }
  induction l as [|x l IH] using rev_ind; [done|]. unfold sort_by_key, hof_list in *.
  rewrite List.map_app, !fold_left_app. cbn. by rewrite Hp, IH.
Qed.
Lemma map_nth_seq {A} (l : list A) d : map (fun i => nth i l d) (seq 0 (length l)) = l.
Proof.
  apply list_eq. intros i. rewrite list_lookup_fmap. destruct (decide (i < length l)%nat) as [Hi|Hi].
  - rewrite lookup_seq_lt by done. cbn. rewrite nth_lookup. by destruct (lookup_lt_is_Some_2 _ _ Hi) as [x ->].
  - rewrite lookup_seq_ge, lookup_ge_None_2 by lia. done.
Qed.

Lemma in_time_steps {L} (l : list (Z * L)) :
  existsb (fun w => w.2 <? w.1) (combine (map fst l) (tail (map fst l))) = false -> in_time l.
Proof.
  intros E. apply Sorted_StronglySorted; [intros a b c; lia|]. induction l as [|a l IH]; [constructor|].
  destruct l as [|b l]; [repeat constructor|]. cbn in E. apply orb_false_iff in E as [E1%Z.ltb_ge E2].
  constructor; [by apply IH|]. by constructor.
Qed.
Lemma by_time_id {L} (l : list (Z * L)) : in_time l -> by_time l = l.
Proof.
  induction l as [|e l IH] using rev_ind; [done|]. intros Hs. rewrite by_time_snoc.
  assert (Hl : in_time l /\ Forall (fun a => a.1 <= e.1) l).
  { clear IH. induction l as [|y l IHl]; [split; constructor|]. apply StronglySorted_inv in Hs as [Hs Hy].
    destruct (IHl Hs) as [H1 H2]. apply Forall_app in Hy as [Hy1 Hy2]. inversion Hy2; subst. split; by constructor. }
  destruct Hl as [Hl He]. rewrite (IH Hl). clear IH Hs Hl. induction He as [|y l Hy _ IHl]; [done|]. cbn.
  destruct (kltb e.1 y.1) eqn:E; [|by rewrite IHl]. apply kltb_spec, (proj1 (klt_Z _ _)) in E. lia.
Qed.

Definition run_of (l : list (Z * (nat * nat))) : Run := mkRun (map fst l) (map snd l).
Lemma ensure_sorted_spec l : AsOf.ensure_sorted (run_of l) = run_of (by_time l).
Proof.
  unfold AsOf.ensure_sorted. cbn [run_of rn_times rn_locs]. destruct (existsb _ _) eqn:E.
  - rewrite length_map. set (f := fun i => nth i l (0, (0%nat, 0%nat))).
    assert (Hf : map f (sort_by_key (fun i => nth i (map fst l) 0) (seq 0 (length l))) = by_time l).
    { transitivity (by_time (map f (seq 0 (length l)))); [|unfold f; by rewrite map_nth_seq].
      apply sort_by_key_map. intros i. unfold f. by rewrite <- (map_nth fst l (0, (0%nat, 0%nat)) i). }
    unfold run_of. rewrite <- Hf, !map_map. f_equal; apply map_ext; intros i; unfold f.
    + by rewrite <- (map_nth fst l (0, (0%nat, 0%nat)) i).
    + by rewrite <- (map_nth snd l (0, (0%nat, 0%nat)) i).
  - by rewrite (by_time_id l (in_time_steps l E)).
Qed.

(** The binary search finds the last row at or before a time, the first at or after. *)
Lemma last_before t (l : list (Z * (nat * nat))) : in_time l ->
  match partition_point (fun x => x <=? t) (map fst l) with O => None | S i => l !! i end =
  last (List.filter (fun e => e.1 <=? t) l).
Proof.
  induction l as [|e l IH]; [done|]. intros Hs. apply StronglySorted_inv in Hs as [Hs He]. specialize (IH Hs). cbn.
  destruct (Z.leb_spec e.1 t).
  - rewrite last_cons, <- IH. destruct (partition_point _ _) as [|n] eqn:En; [done|]. cbn.
    assert (Hn : (n < length l)%nat).
    { clear -En. revert n En. induction l as [|y l IHl]; intros n; cbn; [done|]. destruct (y.1 <=? t); [|done].
      intros [= En]. destruct n; [lia|]. apply IHl in En. lia. }
    destruct (lookup_lt_is_Some_2 _ _ Hn) as [x Hx]. by rewrite !Hx.
  - symmetry. rewrite last_None. clear IH Hs. induction He as [|y l Hy _ IHl]; [done|]. cbn. by destruct (Z.leb_spec y.1 t); [lia|].
Qed.
Lemma first_after t (l : list (Z * (nat * nat))) :
  in_time l -> l !! partition_point (fun x => x <? t) (map fst l) = head (List.filter (fun e => t <=? e.1) l).
Proof.
  induction l as [|e l IH]; [done|]. intros Hs. apply StronglySorted_inv in Hs as [Hs He]. cbn.
  destruct (Z.ltb_spec e.1 t), (Z.leb_spec t e.1); try lia; [|done]. cbn. by apply IH.
Qed.

Lemma probe_run_spec l t o : AsOf.probe_run (run_of (by_time l)) t o = asof_match o t l.
Proof.
  unfold AsOf.probe_run, asof_match. cbn [run_of rn_times rn_locs]. pose proof (by_time_sorted l) as Hs.
  destruct (ao_direction o).
  - rewrite <- last_latest, <- last_before by done. destruct (partition_point _ _) as [|i]; [done|].
    change 0 with (fst (0, (0%nat, 0%nat))). rewrite map_nth, nth_lookup, list_lookup_fmap.
    destruct (by_time l !! i) as [e|]; cbn; [done|]. by destruct (AsOf.too_far _ _ _).
  - rewrite <- head_earliest, <- first_after by done. rewrite length_map. set (n := partition_point _ _).
    change 0 with (fst (0, (0%nat, 0%nat))). rewrite map_nth, nth_lookup, list_lookup_fmap.
    destruct (Nat.leb_spec (length (by_time l)) n) as [Hn|Hn]; [by rewrite (lookup_ge_None_2 _ _ Hn)|].
    by destruct (lookup_lt_is_Some_2 _ _ Hn) as [e ->].
Qed.

(** ** The index of the right side *)
Lemma match_map {L M} (f : L -> M) o t (l : list (Z * L)) :
  asof_match o t (map (fun e => (e.1, f e.2)) l) = f <$> asof_match o t l.
Proof.
  assert (Hf : forall p : Z -> bool, List.filter (fun e => p e.1) (map (fun e : Z * L => (e.1, f e.2)) l) =
    map (fun e => (e.1, f e.2)) (List.filter (fun e => p e.1) l)).
  { intros p. induction l as [|e l IH]; [done|]. cbn. destruct (p e.1); cbn; by rewrite IH. }
  assert (Hl : forall l, latest (map (fun e : Z * L => (e.1, f e.2)) l) = (fun e => (e.1, f e.2)) <$> latest l).
  { clear. induction l as [|e l IH] using rev_ind; [done|]. rewrite List.map_app. cbn [map]. rewrite !latest_snoc, IH.
    destruct (latest l) as [b|]; cbn; [|done]. by destruct (b.1 <=? e.1). }
  assert (He : forall l, earliest (map (fun e : Z * L => (e.1, f e.2)) l) = (fun e => (e.1, f e.2)) <$> earliest l).
  { clear. induction l as [|e l IH] using rev_ind; [done|]. rewrite List.map_app. cbn [map]. rewrite !earliest_snoc, IH.
    destruct (earliest l) as [b|]; cbn; [|done]. by destruct (e.1 <? b.1). }
  unfold asof_match. destruct (ao_direction o).
  - rewrite (Hf (fun x => x <=? t)), Hl. destruct (latest _) as [e|]; cbn; [|done]. by destruct (AsOf.too_far _ _ _).
  - rewrite (Hf (fun x => t <=? x)), He. destruct (earliest _) as [e|]; cbn; [|done]. by destruct (AsOf.too_far _ _ _).
Qed.

Lemma latest_in {L} (l : list (Z * L)) e : latest l = Some e -> In e l.
Proof.
  revert e. induction l as [|a l IH] using rev_ind; [done|]. intros e. rewrite latest_snoc, in_app_iff. cbn.
  destruct (latest l) as [b|]; [destruct (b.1 <=? a.1)|]; intros [= <-]; auto.
Qed.
Lemma earliest_in {L} (l : list (Z * L)) e : earliest l = Some e -> In e l.
Proof.
  revert e. induction l as [|a l IH] using rev_ind; [done|]. intros e. rewrite earliest_snoc, in_app_iff. cbn.
  destruct (earliest l) as [b|]; [destruct (a.1 <? b.1)|]; intros [= <-]; auto.
Qed.
Lemma asof_match_in {L} o t (l : list (Z * L)) x : asof_match o t l = Some x -> In x (map snd l).
Proof.
  unfold asof_match. destruct (ao_direction o).
  - destruct (latest _) as [e|] eqn:E; [|done]. destruct (AsOf.too_far _ _ _); [done|]. intros [= <-].
    apply latest_in, filter_In in E as [E _]. by apply in_map.
  - destruct (earliest _) as [e|] eqn:E; [|done]. destruct (AsOf.too_far _ _ _); [done|]. intros [= <-].
    apply earliest_in, filter_In in E as [E _]. by apply in_map.
Qed.
(** Times less than [2^63] apart have the distance the code computes. *)
Lemma match_nearest {L} o t (l : list (Z * L)) :
  (ao_tolerance o <> None -> Forall (fun e => in_i64 (t - e.1) /\ in_i64 (e.1 - t)) l) -> asof_match o t l = nearest o t l.
Proof.
  intros Hl. assert (Hfar : forall e later earlier, In e l -> (later, earlier) = (t, e.1) \/ (later, earlier) = (e.1, t) -> earlier <= later ->
    (if AsOf.too_far o later earlier then None else Some e.2) = if within o t e.1 then Some e.2 else None).
  { intros e later earlier He Hc Hle. unfold AsOf.too_far, within. destruct (ao_tolerance o) as [tol|] eqn:Et; [|done].
    specialize (Hl ltac:(done)). rewrite List.Forall_forall in Hl. destruct (Hl e He). unfold sub64. rewrite wrap64_id by (destruct Hc as [[= -> ->]|[= -> ->]]; done).
    destruct (Z.ltb_spec tol (later - earlier)), (Z.leb_spec (Z.abs (t - e.1)) tol); try done; destruct Hc as [[= -> ->]|[= -> ->]]; lia. }
  unfold asof_match, nearest. destruct (ao_direction o).
  - destruct (latest _) as [e|] eqn:E; [|done]. apply latest_in, filter_In in E as [He Hle%Z.leb_le]. by apply Hfar; [|left|].
  - destruct (earliest _) as [e|] eqn:E; [|done]. apply earliest_in, filter_In in E as [He Hle%Z.leb_le]. by apply Hfar; [|right|].
Qed.

(** ** Intervals of times *)
Lemma latest_above {L} c (l : list (Z * L)) :
  latest (List.filter (fun e => c <=? e.1) l) = match latest l with Some b => if c <=? b.1 then Some b else None | None => None end.
Proof.
  induction l as [|e l IH] using rev_ind; [done|]. rewrite List.filter_app, latest_snoc. cbn.
  destruct (Z.leb_spec c e.1) as [Hc|Hc].
  - rewrite latest_snoc, IH. destruct (latest l) as [b|]; [|by rewrite (proj2 (Z.leb_le _ _) Hc)].
    destruct (Z.leb_spec b.1 e.1), (Z.leb_spec c b.1); try lia; rewrite ?(proj2 (Z.leb_le _ _) Hc); try done.
    + destruct (Z.leb_spec b.1 e.1); [done|lia].
    + by destruct (Z.leb_spec b.1 e.1); [lia|].
  - rewrite app_nil_r, IH. destruct (latest l) as [b|]; [|by destruct (Z.leb_spec c e.1); [lia|]].
    destruct (Z.leb_spec b.1 e.1), (Z.leb_spec c b.1), (Z.leb_spec c e.1); try lia; done.
Qed.
Lemma earliest_below {L} c (l : list (Z * L)) :
  earliest (List.filter (fun e => e.1 <=? c) l) = match earliest l with Some b => if b.1 <=? c then Some b else None | None => None end.
Proof.
  induction l as [|e l IH] using rev_ind; [done|]. rewrite List.filter_app, earliest_snoc. cbn.
  destruct (Z.leb_spec e.1 c) as [Hc|Hc].
  - rewrite earliest_snoc, IH. destruct (earliest l) as [b|]; [|by rewrite (proj2 (Z.leb_le _ _) Hc)].
    destruct (Z.leb_spec b.1 c); [destruct (Z.ltb_spec e.1 b.1)|destruct (Z.ltb_spec e.1 b.1); [|lia]];
      by rewrite ?(proj2 (Z.leb_le _ _) Hc), ?(proj2 (Z.leb_le b.1 c) ltac:(done)).
  - rewrite app_nil_r, IH. destruct (earliest l) as [b|]; [|by destruct (Z.leb_spec e.1 c); [lia|]].
    destruct (Z.ltb_spec e.1 b.1), (Z.leb_spec b.1 c), (Z.leb_spec e.1 c); try lia; done.
Qed.

Definition in_interval (lo hi : option Z) (t : Z) : bool :=
  match lo with Some c => c <=? t | None => true end && match hi with Some c => t <=? c | None => true end.

(** Rows outside an interval that has every match do not matter. *)
Lemma filter_filter {A} (f g : A -> bool) l : List.filter f (List.filter g l) = List.filter (fun e => f e && g e) l.
Proof. induction l as [|e l IH]; [done|]. cbn. destruct (g e); cbn; rewrite ?andb_true_r, ?andb_false_r; by rewrite IH. Qed.
Lemma match_interval {L} o t lo hi (l : list (Z * L)) :
  match ao_direction o with
  | Backward => match hi with Some c => t <= c | None => True end /\
      match lo with Some c => Forall (fun e => e.1 < c -> e.1 <= t -> AsOf.too_far o t e.1 = true) l | None => True end
  | Forward => match lo with Some c => c <= t | None => True end /\
      match hi with Some c => Forall (fun e => c < e.1 -> t <= e.1 -> AsOf.too_far o e.1 t = true) l | None => True end
  end ->
  asof_match o t (List.filter (fun e => in_interval lo hi e.1) l) = asof_match o t l.
Proof.
  unfold asof_match, in_interval. destruct (ao_direction o); intros [Hfree Hfar]; rewrite filter_filter.
  - rewrite (filter_ext_Forall _ (fun e => match lo with Some c => c <=? e.1 | None => true end && (e.1 <=? t)));
      [|apply List.Forall_forall; intros e _; destruct (Z.leb_spec e.1 t), hi as [c|]; cbn; rewrite ?andb_true_r, ?andb_false_r; try done;
        by rewrite (proj2 (Z.leb_le e.1 c)), ?andb_true_r by lia].
    rewrite <- (filter_filter (fun e => match lo with Some c => c <=? e.1 | None => true end)).
    destruct lo as [c|]; [|by rewrite filter_all by (by apply List.Forall_forall)]. rewrite latest_above.
    destruct (latest _) as [e|] eqn:El; [|done]. destruct (Z.leb_spec c e.1) as [Hc|Hc]; [done|].
    assert (Hin : In e (List.filter (fun e => e.1 <=? t) l)) by (by apply latest_in).
    apply filter_In in Hin as [Hin Ht%Z.leb_le]. rewrite List.Forall_forall in Hfar. by rewrite (Hfar e Hin Hc Ht).
  - rewrite (filter_ext_Forall _ (fun e => match hi with Some c => e.1 <=? c | None => true end && (t <=? e.1)));
      [|apply List.Forall_forall; intros e _; destruct (Z.leb_spec t e.1), lo as [c|]; cbn; rewrite ?andb_true_r, ?andb_false_r; try done;
        by rewrite (proj2 (Z.leb_le c e.1)) by lia].
    rewrite <- (filter_filter (fun e => match hi with Some c => e.1 <=? c | None => true end)).
    destruct hi as [c|]; [|by rewrite filter_all by (by apply List.Forall_forall)]. rewrite earliest_below.
    destruct (earliest _) as [e|] eqn:El; [|done]. destruct (Z.leb_spec e.1 c) as [Hc|Hc]; [done|].
    assert (Hin : In e (List.filter (fun e => t <=? e.1) l)) by (by apply earliest_in).
    apply filter_In in Hin as [Hin Ht%Z.leb_le]. rewrite List.Forall_forall in Hfar. by rewrite (Hfar e Hin Hc Ht).
Qed.

(** ** The ASOF join is its definition

    The index of the right side, the probe and the gathering of columns compute
    [asof_rows], the join by the definition of the match ([AsOfMatch]); the filters, the
    limit and the columns pushed down to the two sides do not change it. *)
Import MergeProps.
#[local] Open Scope Z_scope.

Section Index.
Context `{QuerySpec}.

(** A row with its time and its keys, as the join reads them. *)
Record KeyedRow := mkKeyedRow { kr_time : Z; kr_keys : list (option Cell); kr_row : list (option Cell) }.
Definition times_of (time_idx : nat) (b : RecordBatch) : list Z := default [] (ok (time_column_i64 b time_idx)).
Definition keys_of (by_idx : list nat) (types : list DataType) (b : RecordBatch) : list Column :=
  default [] (ok (AsOf.key_columns b by_idx types)).
Definition keyed_at (ti : nat) (bi : list nat) (types : list DataType) (b : RecordBatch) (ri : nat) : KeyedRow :=
  mkKeyedRow (nth ri (times_of ti b) 0) (row_at (keys_of bi types b) ri) (row_at (rb_columns b) ri).
Definition keyed_rows ti bi types (b : RecordBatch) : list KeyedRow :=
  map (keyed_at ti bi types b) (seq 0 (rb_rows b)).
Definition same_keys (a b : list (option Cell)) : bool := match compare_keys a b with Eq => true | _ => false end.

(** The same with the place of each row. *)
Definition located ti bi types (es : list (nat * RecordBatch)) : list (KeyedRow * (nat * nat)) :=
  concat (map (fun e => map (fun ri => (keyed_at ti bi types e.2 ri, (e.1, ri))) (seq 0 (rb_rows e.2))) es).
Definition timed (l : list (KeyedRow * (nat * nat))) : list (Z * (nat * nat)) := map (fun x => (kr_time x.1, x.2)) l.

Lemma run_of_snoc l t loc : AsOf.push_row (run_of l) t loc = run_of (l ++ [(t, loc)]).
Proof. unfold run_of, AsOf.push_row. cbn. by rewrite !List.map_app. Qed.

Lemma single_spec ti types es l run :
  foldr_res (AsOf.single_batch ti) (run_of l) es = Ok run -> run = run_of (l ++ timed (located ti [] types es)).
Proof.
  revert l. induction es as [|[i b] es IH]; intros l; cbn [foldr_res]; [intros [= <-]; cbn; by rewrite app_nil_r|].
  unfold AsOf.single_batch at 1. cbn [fst snd]. destruct (time_column_i64 b ti) as [time|] eqn:Et; [|done]. cbn.
  assert (Hf : forall ris l, fold_left (fun r ri => AsOf.push_row r (nth ri time 0) (i, ri)) ris (run_of l) =
    run_of (l ++ timed (map (fun ri => (keyed_at ti [] types b ri, (i, ri))) ris))).
  { clear IH. induction ris as [|ri ris IHr]; intros l'; cbn [fold_left map]; [cbn; by rewrite app_nil_r|].
    rewrite run_of_snoc, IHr, <- app_assoc. cbn. unfold keyed_at, times_of. by rewrite Et. }
  rewrite Hf. intros E. apply IH in E as ->. unfold located, timed. cbn. by rewrite List.map_app, app_assoc.
Qed.

(** The runs of a keyed index hold, for each key, the rows with that key. *)
Definition files_rows (types : list DataType) (l : list (KeyedRow * (nat * nat))) (m : gmap string Run) : Prop :=
  forall k, default AsOf.empty_run (m !! k) =
    run_of (timed (List.filter (fun x => String.eqb (row_data types (kr_keys x.1)) k) l)).

Lemma filed_row types time cols i m kb n ri l x :
  files_rows types l m -> kr_time x.1 = nth ri time 0 -> kr_keys x.1 = row_at cols ri -> x.2 = (i, ri) ->
  files_rows types (l ++ [x]) (AsOf.keyed_row types time cols i (m, kb, n) ri).1.1.
Proof.
  intros Hm Ht Hk Hl k. unfold AsOf.keyed_row. rewrite <- Hk. set (key := row_data types (kr_keys x.1)).
  rewrite List.filter_app. cbn [List.filter]. fold key.
  assert (Hpush : default AsOf.empty_run (alter (fun r => AsOf.push_row r (nth ri time 0) (i, ri)) key
      (match m !! key with None => <[key := AsOf.empty_run]> m | Some _ => m end) !! k) =
    if String.eqb key k then AsOf.push_row (default AsOf.empty_run (m !! k)) (nth ri time 0) (i, ri) else default AsOf.empty_run (m !! k)).
  { destruct (String.eqb_spec key k) as [<-|Hne].
    - rewrite lookup_alter_eq. destruct (m !! key) eqn:E; cbn; [by rewrite E|]. by rewrite lookup_insert_eq.
    - rewrite lookup_alter_ne by done. destruct (m !! key); [done|]. by rewrite lookup_insert_ne. }
  destruct (m !! key) eqn:E; cbn [fst]; rewrite Hpush, (Hm k); (destruct (String.eqb key k); [|by rewrite app_nil_r]);
    unfold timed; rewrite List.map_app, run_of_snoc; cbn; by rewrite Ht, Hl.
Qed.

Lemma keyed_spec ti bi types es s0 s1 l : files_rows types l s0.1.1 ->
  foldr_res (AsOf.keyed_batch ti bi types) s0 es = Ok s1 -> files_rows types (l ++ located ti bi types es) s1.1.1.
Proof.
  revert s0 l. induction es as [|[i b] es IH]; intros s0 l Hm; cbn [foldr_res]; [intros [= <-]; cbn; by rewrite app_nil_r|].
  unfold AsOf.keyed_batch at 1. cbn [fst snd]. destruct (time_column_i64 b ti) as [time|] eqn:Et; [|done]. cbn.
  destruct (AsOf.key_columns b bi types) as [cols|] eqn:Ec; [|done]. cbn. destruct (negb _); [done|].
  assert (Hf : forall ris s l, files_rows types l s.1.1 ->
    files_rows types (l ++ map (fun ri => (keyed_at ti bi types b ri, (i, ri))) ris)
      (fold_left (AsOf.keyed_row types time cols i) ris s).1.1).
  { clear IH. induction ris as [|ri ris IHr]; intros [[m kb] n] l' Hm'; cbn [fold_left map]; [by rewrite app_nil_r|].
    change (?x :: ?r) with ([x] ++ r). rewrite app_assoc. apply IHr. apply filed_row; [done| | |done]; cbn;
      unfold times_of, keys_of; by rewrite ?Et, ?Ec. }
  cbn. intros E. apply (IH _ (l ++ map (fun ri => (keyed_at ti bi types b ri, (i, ri))) (seq 0 (rb_rows b)))) in E; [|by apply Hf].
  unfold located. cbn. by rewrite app_assoc.
Qed.

(** What the index answers to a left row. *)
Definition candidates ti bi types (right : list RecordBatch) (keys : list (option Cell)) : list (Z * (nat * nat)) :=
  timed (List.filter (fun x => same_keys keys (kr_keys x.1)) (located ti bi types (enumerate right))).

Lemma keys_length bi types b cols ri : length bi = length types -> AsOf.key_columns b bi types = Ok cols ->
  length (row_at cols ri) = length types.
Proof.
  intros Hl E. unfold row_at. rewrite length_map. apply map_res_Forall2, Forall2_length in E. rewrite <- E, length_combine. lia.
Qed.
Lemma located_lengths ti bi types es : length bi = length types ->
  Forall (fun e => is_Some (ok (AsOf.key_columns e.2 bi types))) es ->
  Forall (fun x => length (kr_keys x.1) = length types) (located ti bi types es).
Proof.
  intros Hl He. unfold located. apply Forall_concat, List.Forall_map. eapply Forall_impl; [exact He|].
  intros [i b] [cols Hc]. apply List.Forall_map, List.Forall_forall. intros ri _. cbn in *. unfold keys_of. rewrite Hc. cbn.
  apply (keys_length bi types b); [done|]. destruct (AsOf.key_columns _ _ _); cbn in Hc; [congruence|done].
Qed.

Lemma same_keys_data types a b : length a = length types -> length b = length types ->
  String.eqb (row_data types b) (row_data types a) = same_keys a b.
Proof.
  intros Ha Hb. unfold same_keys. pose proof (row_data_eq types a b Ha Hb) as E.
  destruct (String.eqb_spec (row_data types b) (row_data types a)) as [Hd|Hd].
  - symmetry in Hd. apply E in Hd. by rewrite Hd.
  - destruct (compare_keys a b) eqn:Ec; [|done|done]. exfalso. apply Hd. symmetry. by apply E.
Qed.

Lemma loop_ok {E A S} (body : S -> A -> result E S) (P : A -> Prop) l s s' :
  (forall s a s', body s a = Ok s' -> P a) -> foldr_res body s l = Ok s' -> Forall P l.
Proof.
  intros Hb. revert s. induction l as [|a l IH]; intros s; cbn; [constructor|]. destruct (body s a) as [s1|] eqn:Eb; [|done].
  cbn. intros E1. constructor; [by eapply Hb|by eapply IH].
Qed.

(** The places of the key columns. *)
Definition by_indices (s : Schema) (names : list string) : DfResult (list nat) :=
  map_res (fun n => ok_or (TableSpec.index_of s n) DfArrow) names.
Lemma by_indices_map {A} s (f : A -> string) l :
  map_res (fun p => ok_or (TableSpec.index_of s (f p)) DfArrow) l = by_indices s (map f l).
Proof. unfold by_indices. induction l as [|a l IH]; [done|]. cbn. by rewrite IH. Qed.

Lemma build_spec right rs o types rr : length types = length (ao_by o) -> AsOf.build right rs o types = Ok rr ->
  exists ti bi, TableSpec.index_of rs (ao_right_on o) = Some ti /\ by_indices rs (map snd (ao_by o)) = Ok bi /\
    rr_converter rr = match ao_by o with [] => None | _ => Some types end /\
    forall keys t, length keys = length types ->
      AsOf.probe rr (match ao_by o with [] => None | _ => Some (row_data types keys) end) t o =
      asof_match o t (candidates ti bi types right keys).
Proof.
  intros Hl. unfold AsOf.build. destruct (TableSpec.index_of rs _) as [ti|]; [|done]. cbn [ok_or].
  rewrite (by_indices_map rs snd). destruct (by_indices rs (map snd (ao_by o))) as [bi|] eqn:Eb; [|done]. cbn.
  assert (Hbl : length bi = length (ao_by o)).
  { unfold by_indices in Eb. apply map_res_Forall2, Forall2_length in Eb. by rewrite length_map in Eb. }
  intros E. exists ti, bi. do 2 (split; [done|]). destruct bi as [|b0 bi].
  - destruct (ao_by o); [|done]. destruct types; [|done].
    change AsOf.empty_run with (run_of []) in E. destruct (foldr_res _ _ _) as [run|] eqn:Ef; [|done]. cbn in E.
    injection E as <-. apply (single_spec ti []) in Ef as ->. split; [done|]. intros keys t Hk. cbn.
    rewrite ensure_sorted_spec, probe_run_spec. destruct keys; [|done]. unfold candidates. f_equal. f_equal.
    symmetry. apply filter_all, List.Forall_forall. intros x _. unfold same_keys. by destruct (kr_keys _).
  - destruct (ao_by o) as [|p by_]; [done|]. destruct (negb (row_converter types)); [done|].
    destruct (foldr_res _ _ _) as [s|] eqn:Ef; [|done]. cbn in E. destruct s as [[m kb] n]. injection E as <-.
    split; [done|]. intros keys t Hk. unfold AsOf.probe. cbn [rr_index].
    assert (Hok : Forall (fun e => is_Some (ok (AsOf.key_columns e.2 (b0 :: bi) types))) (enumerate right)).
    { eapply loop_ok; [|exact Ef]. intros s e s' Hs. unfold AsOf.keyed_batch in Hs.
      destruct (time_column_i64 _ _); [|done]. destruct (AsOf.key_columns _ _ _); [by eexists|done]. }
    apply located_lengths with (ti := ti) in Hok; [|cbn in *; congruence].
    apply (keyed_spec ti (b0 :: bi) types _ _ _ []) in Ef; [|intros k; cbn [fst]; by rewrite lookup_empty].
    specialize (Ef (row_data types keys)). cbn [fst app] in Ef. rewrite lookup_fmap.
    assert (Hc : timed (List.filter (fun x => String.eqb (row_data types (kr_keys x.1)) (row_data types keys))
      (located ti (b0 :: bi) types (enumerate right))) = candidates ti (b0 :: bi) types right keys).
    { unfold candidates. f_equal. apply filter_ext_Forall. eapply Forall_impl; [exact Hok|]. intros x Hx.
      by apply same_keys_data. }
    rewrite Hc in Ef. destruct (m !! row_data types keys) as [run|]; cbn in Ef |- *.
    + by rewrite Ef, ensure_sorted_spec, probe_run_spec.
    + destruct (candidates _ _ _ _ _); [|done]. unfold asof_match. by destruct (ao_direction o).
Qed.
End Index.

(** ** Joining a batch *)
Section Join.
Context `{QuerySpec}.

Definition row_of (right : list RecordBatch) (loc : nat * nat) : list (option Cell) :=
  match right !! loc.1 with Some b => row_at (rb_columns b) loc.2 | None => [] end.

Lemma lookup_enumerate {A} (l : list A) i : enumerate l !! i = pair i <$> l !! i.
Proof.
  unfold enumerate. enough (forall k, combine (seq k (length l)) l !! i = pair (k + i)%nat <$> l !! i) as E by apply (E 0%nat).
  revert i. induction l as [|x l IH]; intros [|i] k; cbn; try done; [by rewrite Nat.add_0_r|]. by rewrite IH, Nat.add_succ_r.
Qed.
Lemma in_enumerate {A} (l : list A) i x : In (i, x) (enumerate l) -> l !! i = Some x.
Proof.
  intros [k Hk]%list_elem_of_In%list_elem_of_lookup. rewrite lookup_enumerate in Hk.
  destruct (l !! k) eqn:E; [|done]. by injection Hk as -> ->.
Qed.
Lemma enumerate_snd {A} (l : list A) : map snd (enumerate l) = l.
Proof. apply list_eq. intros i. rewrite list_lookup_fmap, lookup_enumerate. by destruct (l !! i). Qed.

Lemma located_rows ti bi types right :
  Forall (fun x => kr_row x.1 = row_of right x.2) (located ti bi types (enumerate right)).
Proof.
  unfold located. apply Forall_concat, List.Forall_map, List.Forall_forall. intros [i b] Hin%in_enumerate.
  apply List.Forall_map, List.Forall_forall. intros ri _. unfold row_of. cbn. by rewrite Hin.
Qed.
Lemma located_fst ti bi types right : map fst (located ti bi types (enumerate right)) = concat (map (keyed_rows ti bi types) right).
Proof.
  unfold located. rewrite concat_map, map_map. rewrite <- (enumerate_snd right) at 2. rewrite map_map. f_equal.
  apply map_ext. intros [i b]. by rewrite map_map.
Qed.

(** Right rows as the definition sees them: those with the keys, with their time. *)
Definition right_rows (rights : list KeyedRow) (keys : list (option Cell)) : list (Z * list (option Cell)) :=
  map (fun r => (kr_time r, kr_row r)) (List.filter (fun r => same_keys keys (kr_keys r)) rights).
Lemma candidate_rows o t ti bi types right keys :
  row_of right <$> asof_match o t (candidates ti bi types right keys) =
  asof_match o t (right_rows (concat (map (keyed_rows ti bi types) right)) keys).
Proof.
  rewrite <- match_map. f_equal. unfold candidates, timed, right_rows. rewrite <- located_fst.
  pose proof (located_rows ti bi types right) as Hr. induction Hr as [|x l Hx _ IH]; [done|]. cbn.
  destruct (same_keys _ _); [|done]. cbn. by rewrite IH, Hx.
Qed.

Definition right_cells (kept : list nat) (m : option (list (option Cell))) : list (option Cell) :=
  map (fun i => m ≫= fun row => default None (row !! i)) kept.

Lemma gather_right_spec j matches col c :
  Forall (fun m => match m with Some loc => (loc.1 < length (jn_right_batches j))%nat | None => True end) matches ->
  Joiner.gather_right j matches col = Ok c ->
  ar_cells c = map (fun m => m ≫= fun loc => default None (row_of (jn_right_batches j) loc !! col)) matches.
Proof.
  intros Hin. unfold Joiner.gather_right. destruct (map_res _ _) as [sources|] eqn:Es; [|done]. cbn.
  destruct (jn_right_schema j !! col) as [f|]; [|done]. cbn. destruct (Arrow.interleave _ _) as [a|] eqn:Ea; [|done].
  intros [= <-]. apply interleave_spec in Ea as ->. rewrite map_map. apply map_res_Forall2 in Es.
  apply map_ext_in. intros m Hm. rewrite List.Forall_forall in Hin. specialize (Hin m Hm). destruct m as [[bi ri]|]; cbn in Hin |- *.
  - destruct (lookup_lt_is_Some_2 _ _ Hin) as [b Hb]. destruct (Forall2_lookup_l _ _ _ _ _ Es Hb) as (c & Hc & E).
    rewrite lookup_app_l by (by apply lookup_lt_Some in Hc). rewrite Hc. cbn. unfold row_of. cbn. rewrite Hb.
    unfold row_at. rewrite list_lookup_fmap. destruct (rb_columns b !! col); [|done]. by injection E as ->.
  - rewrite lookup_app_r, Nat.sub_diag by done. done.
Qed.

(** The rows of a batch put together from left columns and gathered right ones. *)
Lemma joined_rows n (lc rc : list Column) s kept (ms : list (option (list (option Cell)))) b :
  lc <> [] -> Forall (fun c => length (ar_cells c) = n) lc -> length ms = n ->
  Forall2 (fun i c => ar_cells c = map (fun m => m ≫= fun row => default None (row !! i)) ms) kept rc ->
  TableSpec.try_new s (lc ++ rc) = Some b ->
  table_rows b = zip_with (fun row m => row ++ right_cells kept m) (map (row_at lc) (seq 0 n)) ms.
Proof.
  intros Hne Hlc Hms Hrc (_ & Hcols & _ & Hsh)%try_new_inv. unfold table_rows. rewrite Hcols in Hsh |- *.
  assert (rb_rows b = n) as ->. { destruct lc as [|c lc]; [done|]. inversion Hlc; subst. inversion Hsh; subst. congruence. }
  apply list_eq. intros i. rewrite list_lookup_fmap, lookup_zip_with, list_lookup_fmap.
  destruct (decide (i < n)%nat) as [Hi|Hi]; [|by rewrite lookup_seq_ge by lia].
  rewrite lookup_seq_lt by done. cbn. assert (Hms' : (i < length ms)%nat) by lia.
  destruct (lookup_lt_is_Some_2 _ _ Hms') as [m Hm]. rewrite Hm. cbn. f_equal. unfold row_at. rewrite List.map_app. f_equal.
  unfold right_cells. clear Hsh Hcols. induction Hrc as [|k c kept rc Hc _ IH]; [done|]. cbn. rewrite IH. f_equal.
  unfold cell. rewrite Hc, list_lookup_fmap, Hm. done.
Qed.

Lemma inner_rows {A B} (f : A -> option B -> A) (rows : list A) (ms : list (option B)) : length rows = length ms ->
  zip_with f (map snd (List.filter fst (combine (map Joiner.is_some ms) rows))) (List.filter Joiner.is_some ms) =
  concat (zip_with (fun row m => match m with Some _ => [f row m] | None => [] end) rows ms).
Proof.
  revert ms. induction rows as [|r rows IH]; intros [|m ms] Hl; try done. cbn in *. destruct m; cbn; [f_equal|]; apply IH; lia.
Qed.

Lemma candidate_place o t ti bi types right keys loc :
  asof_match o t (candidates ti bi types right keys) = Some loc ->
  exists b, right !! loc.1 = Some b /\ (loc.2 < rb_rows b)%nat.
Proof.
  intros Hm%asof_match_in. unfold candidates, timed in Hm. rewrite map_map in Hm.
  apply in_map_iff in Hm as ([k l] & <- & [Hin _]%filter_In). unfold located in Hin. cbn.
  apply in_concat in Hin as (rows & Hrows & Hin). apply in_map_iff in Hrows as ([i b] & <- & Hb%in_enumerate).
  apply in_map_iff in Hin as (ri & [= <- <-] & Hri%in_seq). exists b. cbn. split; [done|]. cbn in Hri. lia.
Qed.
Lemma candidate_in_range o t ti bi types right keys loc :
  asof_match o t (candidates ti bi types right keys) = Some loc -> (loc.1 < length right)%nat.
Proof. intros (b & Hb & _)%candidate_place. by apply lookup_lt_Some in Hb. Qed.

(** The join of left rows with right rows, by the definition of the match. *)
Definition asof_rows (o : AsOfOptions) (kept : list nat) (lefts rights : list KeyedRow) : list (list (option Cell)) :=
  concat (map (fun l =>
    match asof_match o (kr_time l) (right_rows rights (kr_keys l)) with
    | Some row => [kr_row l ++ right_cells kept (Some row)]
    | None => if ao_inner o then [] else [kr_row l ++ right_cells kept None]
    end) lefts).

(** The same by the definition, and when the distances are what the code computes: without a
    tolerance, or with one that is not negative over times less than [2^63] apart. *)
Definition join_rows (o : AsOfOptions) (kept : list nat) (lefts rights : list KeyedRow) : list (list (option Cell)) :=
  concat (map (fun l =>
    match nearest o (kr_time l) (right_rows rights (kr_keys l)) with
    | Some row => [kr_row l ++ right_cells kept (Some row)]
    | None => if ao_inner o then [] else [kr_row l ++ right_cells kept None]
    end) lefts).
(** Times less than [2^63] apart. *)
Definition close (lefts rights : list KeyedRow) : Prop :=
  Forall (fun l => Forall (fun r => in_i64 (kr_time l - kr_time r) /\ in_i64 (kr_time r - kr_time l)) rights) lefts.
Definition measurable (o : AsOfOptions) (lefts rights : list KeyedRow) : Prop :=
  match ao_tolerance o with Some tol => 0 <= tol /\ close lefts rights | None => True end.
Lemma rows_by_definition o kept lefts rights : measurable o lefts rights -> asof_rows o kept lefts rights = join_rows o kept lefts rights.
Proof.
  intros Hm. unfold asof_rows, join_rows. f_equal. apply map_ext_in. intros l Hl. rewrite match_nearest; [done|].
  unfold measurable in Hm. destruct (ao_tolerance o) as [tol|]; [|done]. intros _. destruct Hm as [_ Hc]. unfold close in Hc.
  rewrite List.Forall_forall in Hc. specialize (Hc l Hl). unfold right_rows. apply List.Forall_map, List.Forall_forall. intros r [Hr _]%filter_In.
  rewrite List.Forall_forall in Hc. exact (Hc r Hr).
Qed.

Section Batch.
Context (rr : RightRuns) (right : list RecordBatch) (o : AsOfOptions) (schema rs : Schema) (kept : list nat)
  (lti ti : nat) (lbi bi : list nat) (types : list DataType).
Hypothesis Htypes : length types = length (ao_by o).
Hypothesis Hlbi : length lbi = length (ao_by o).
Hypothesis Hconv : rr_converter rr = match ao_by o with [] => None | _ => Some types end.
Hypothesis Hprobe : forall keys t, length keys = length types ->
  AsOf.probe rr (match ao_by o with [] => None | _ => Some (row_data types keys) end) t o =
  asof_match o t (candidates ti bi types right keys).
Let j := mkJoiner rr right o schema kept rs lti lbi types.

(** The matched row of a left row. *)
Definition matched (l : KeyedRow) : option (nat * nat) := asof_match o (kr_time l) (candidates ti bi types right (kr_keys l)).

Lemma matches_of_spec left ms : Joiner.matches_of j left = Ok ms -> ms = map matched (keyed_rows lti lbi types left).
Proof.
  unfold Joiner.matches_of. cbn [jn_left_time_idx jn_runs jn_options j]. destruct (time_column_i64 left lti) as [times|] eqn:Et; [|done]. cbn.
  destruct (Joiner.left_keys j left) as [key|] eqn:Ek; [|done]. intros [= <-]. unfold keyed_rows. rewrite map_map.
  apply map_ext. intros ri. unfold matched, keyed_at, times_of. rewrite Et. cbn [kr_time kr_keys default ok].
  unfold Joiner.left_keys in Ek. cbn [jn_runs jn_left_by_idx jn_key_types j] in Ek. rewrite Hconv in Ek.
  assert (Hb : ao_by o = [] \/ exists cols, AsOf.key_columns left lbi types = Ok cols /\ ao_by o <> []).
  { destruct (ao_by o); [by left|]. right. destruct (AsOf.key_columns left lbi types); [by eexists|done]. }
  rewrite <- Hprobe; cycle 1.
  - unfold keys_of. destruct Hb as [Hb|(cols & Hc & _)].
    + rewrite Hb in Htypes, Hlbi. destruct lbi; [|done]. destruct types; [|done]. done.
    + rewrite Hc. apply (keys_length lbi types left); [by rewrite Hlbi|done].
  - f_equal. unfold keys_of. destruct Hb as [Hb|(cols & Hc & Hne)].
    + rewrite Hb in Ek |- *. by injection Ek as <-.
    + destruct (ao_by o); [done|]. rewrite Hc in Ek |- *. cbn in Ek. destruct (negb _); [done|]. by injection Ek as <-.
Qed.

Lemma gathered ms right_cols : Forall (fun m => match m with Some loc => (loc.1 < length right)%nat | None => True end) ms ->
  map_res (Joiner.gather_right j ms) kept = Ok right_cols ->
  Forall2 (fun i c => ar_cells c = map (fun m => m ≫= fun row => default None (row !! i)) (map (fmap (row_of right)) ms)) kept right_cols.
Proof.
  intros Hin Hr%map_res_Forall2. eapply Forall2_impl; [exact Hr|]. intros i c Hc.
  rewrite (gather_right_spec j ms i c Hin Hc), map_map. apply map_ext. by intros [loc|].
Qed.

Lemma join_batch_spec ls left out : uniform ls left -> Joiner.join_batch j left = Ok out ->
  table_rows out = asof_rows o kept (keyed_rows lti lbi types left) (concat (map (keyed_rows ti bi types) right)).
Proof.
  intros [Hs [Hne Hfit]]. unfold Joiner.join_batch. destruct (Joiner.matches_of j left) as [ms|] eqn:Em; [|done]. cbn.
  apply matches_of_spec in Em. destruct (Joiner.drop_unmatched j left ms) as [[lo ms']|] eqn:Ed; [|done]. cbn.
  destruct (map_res _ _) as [rc|] eqn:Er; [|done]. cbn. destruct (TableSpec.try_new _ _) as [b|] eqn:Eb; [|done]. intros [= <-].
  assert (Hrange : Forall (fun m : option (nat * nat) => match m with Some loc => (loc.1 < length right)%nat | None => True end) ms).
  { rewrite Em. apply List.Forall_map, List.Forall_forall. intros l _. unfold matched.
    destruct (asof_match _ _ _) eqn:E; [|done]. by eapply candidate_in_range. }
  assert (Hms : map (fmap (row_of right)) ms = map (fun l => asof_match o (kr_time l) (right_rows (concat (map (keyed_rows ti bi types) right)) (kr_keys l)))
      (keyed_rows lti lbi types left)).
  { rewrite Em, map_map. apply map_ext. intros l. unfold matched. by rewrite candidate_rows. }
  assert (Hrows : map kr_row (keyed_rows lti lbi types left) = table_rows left) by (unfold keyed_rows; by rewrite map_map).
  assert (Hlen : length ms = length (table_rows left)) by (by rewrite Em, <- Hrows, !length_map).
  unfold Joiner.drop_unmatched in Ed. cbn [jn_options j] in Ed. unfold asof_rows. destruct (ao_inner o).
  - destruct (filter_record_batch _ _) as [f|] eqn:Ef; [|done]. cbn in Ed. injection Ed as <- <-.
    apply filter_spec in Ef as (Hfs & (Hfc & Hfl) & _ & Hft); [|rewrite length_map, Hlen; unfold table_rows; by rewrite length_map, length_seq].
    assert (Hlm : length (List.filter Joiner.is_some ms) = rb_rows f).
    { transitivity (length (table_rows f)); [|unfold table_rows; by rewrite length_map, length_seq]. rewrite Hft, length_map.
      clear -Hlen. revert ms Hlen. induction (table_rows left) as [|r l IH]; intros [|m ms] Hl; try done. cbn in *.
      destruct m; cbn; rewrite (IH ms); lia. }
    erewrite (joined_rows (rb_rows f) _ rc schema kept); [|intros E; rewrite E, Hfs in Hfc; cbn in Hfc; by destruct (rb_schema left)|done| | |exact Eb].
    2: by rewrite length_map.
    2: { apply gathered; [|done]. apply List.Forall_forall. intros m [Hm _]%filter_In. exact (proj1 (List.Forall_forall _ _) Hrange m Hm). }
    change (map (row_at (rb_columns f)) (seq 0 (rb_rows f))) with (table_rows f). rewrite Hft.
    assert (Hmap : map (fmap (row_of right)) (List.filter Joiner.is_some ms) = List.filter Joiner.is_some (map (fmap (row_of right)) ms)).
    { clear. induction ms as [|[m|] ms IH]; cbn; [done|by rewrite IH|done]. }
    assert (Hmask : map Joiner.is_some ms = map Joiner.is_some (map (fmap (row_of right)) ms)).
    { rewrite map_map. apply map_ext. by intros [m|]. }
    rewrite Hmap, Hmask, inner_rows, Hms, <- Hrows by (by rewrite length_map). f_equal.
    clear. induction (keyed_rows lti lbi types left) as [|l ls IH]; [done|]. cbn. rewrite IH. by destruct (asof_match _ _ _).
  - injection Ed as <- <-.
    rewrite (joined_rows (rb_rows left) (rb_columns left) rc schema kept (map (fmap (row_of right)) ms)); [|intros E; rewrite E in Hfit; apply Hne; by inversion Hfit| | | |done].
    + change (map (row_at (rb_columns left)) (seq 0 (rb_rows left))) with (table_rows left). rewrite Hms, <- Hrows.
      clear. induction (keyed_rows lti lbi types left) as [|l ls IH]; [done|]. cbn. rewrite IH. by destruct (asof_match _ _ _).
    + apply List.Forall_forall. intros c Hc. apply list_elem_of_In, list_elem_of_lookup in Hc as [i Hi].
      destruct (Forall2_lookup_r _ _ _ _ _ Hfit Hi) as (fd & _ & _ & Hl & _). done.
    + rewrite length_map, Hlen. unfold table_rows. by rewrite length_map, length_seq.
    + by apply gathered.
Qed.
End Batch.

(** ** The filters pushed down *)

(** Filters on the left, and what they say of its times. *)
Definition passes (s : Schema) (filters : list Expr) (r : KeyedRow) : bool := forallb (holds s (kr_row r)) filters.
Definition timed_rows (idx : nat) (rows : list KeyedRow) : Prop :=
  Forall (fun r => kr_row r !! idx = Some (Some (CInt (kr_time r))) /\ in_i64 (kr_time r)) rows.
Definition admits (b : AsOfTableProvider.Bounds) (t : Z) : Prop :=
  match AsOfTableProvider.bd_lo b with Some lo => lo <= t | None => True end /\
  match AsOfTableProvider.bd_hi b with Some hi => t <= hi | None => True end.

Lemma swap_holds op op' a b : op_swap op = Some op' -> op_holds op b a = op_holds op' a b.
Proof. destruct op; cbn; intros [= <-]; cbn; rewrite ?(Z.eqb_sym b a); done. Qed.

Lemma time_cmp_holds p f op lit v lti row t :
  TableSpec.index_of (ap_left p) (ao_left_on (ap_options p)) = Some lti -> row !! lti = Some (Some (CInt t)) ->
  AsOfTableProvider.time_cmp p f = Some (op, lit) -> AsOfTableProvider.scalar_time_i64 lit = Some v ->
  holds (ap_left p) row f = true -> (forall name, op <> OOther name) -> op_holds op t v = true.
Proof.
  intros Hi Hr Hc Hv Hh Hop. assert (Hlit : exists ty, lit = mkScalar ty (Some (CInt v))).
  { unfold AsOfTableProvider.scalar_time_i64 in Hv. destruct lit as [ty c]. cbn in Hv. destruct ty, c as [[]|]; try done;
      injection Hv as <-; by eexists. }
  destruct Hlit as [ty ->]. destruct f as [| |l o r|]; try done. cbn in Hc. destruct l as [q n|x| |], r as [q' n'|x'| |]; try done.
  - destruct (String.eqb_spec n (ao_left_on (ap_options p))) as [->|]; [|done]. destruct (AsOfTableProvider.scalar_time_i64 x'); [|done].
    injection Hc as -> ->. by rewrite (holds_column _ _ _ _ lti t) in Hh.
  - destruct (String.eqb_spec n' (ao_left_on (ap_options p))) as [->|]; [|done]. destruct (op_swap o) as [o'|] eqn:Eo; [|done]. cbn in Hc.
    destruct (AsOfTableProvider.scalar_time_i64 x); [|done]. injection Hc as -> ->.
    rewrite (holds_literal _ _ _ _ lti t) in Hh; [|done..|intros name ->; done]. by rewrite <- (swap_holds o op t v Eo).
Qed.

Lemma bounds_admit p filters lti row t :
  TableSpec.index_of (ap_left p) (ao_left_on (ap_options p)) = Some lti -> row !! lti = Some (Some (CInt t)) ->
  forallb (holds (ap_left p) row) filters = true -> admits (AsOfTableProvider.bounds_of p filters) t.
Proof.
  intros Hi Hr. unfold AsOfTableProvider.bounds_of.
  enough (forall b, admits b t -> forallb (holds (ap_left p) row) filters = true ->
    admits (fold_left (AsOfTableProvider.note_filter p) filters b) t) as Hg by (apply Hg; by split).
  induction filters as [|f filters IH]; intros b Hb; [done|]. cbn. intros [Hf Hfs]%andb_true_iff. apply IH; [|done].
  unfold AsOfTableProvider.note_filter. destruct (AsOfTableProvider.time_cmp p f) as [[op lit]|] eqn:Ec; [|done].
  destruct (AsOfTableProvider.scalar_time_i64 lit) as [v|] eqn:Ev; [|done].
  assert (Hv : (forall name, op <> OOther name) -> op_holds op t v = true) by (by eapply time_cmp_holds).
  destruct op as [| | | | | |name]; try done; specialize (Hv ltac:(done)); destruct Hb as [Hlo Hhi]; cbn in Hv; bool_prop; split; cbn;
    unfold AsOfTableProvider.raise_lo, AsOfTableProvider.lower_hi; destruct (AsOfTableProvider.bd_lo b), (AsOfTableProvider.bd_hi b); lia.
Qed.

(** The times the pushed-down filters leave. *)
Definition lower_bound (p : AsOfTableProvider) (b : AsOfTableProvider.Bounds) : option Z :=
  match ao_direction (ap_options p), AsOfTableProvider.bd_lo b with
  | Forward, lo => lo
  | Backward, Some lo =>
      match ao_tolerance (ap_options p) with Some tol => if 0 <=? tol then Some (sat64 (lo - tol)) else None | None => None end
  | Backward, None => None
  end.
Definition upper_bound (p : AsOfTableProvider) (b : AsOfTableProvider.Bounds) : option Z :=
  match ao_direction (ap_options p), AsOfTableProvider.bd_hi b with
  | Backward, hi => hi
  | Forward, Some hi =>
      match ao_tolerance (ap_options p) with Some tol => if 0 <=? tol then Some (sat64 (hi + tol)) else None | None => None end
  | Forward, None => None
  end.
Lemma bounds_hold p filters rti row t :
  TableSpec.index_of (ap_right p) (ao_right_on (ap_options p)) = Some rti -> row !! rti = Some (Some (CInt t)) ->
  let b := AsOfTableProvider.bounds_of p filters in
  forallb (holds (ap_right p) row) (AsOfTableProvider.right_time_bounds p filters) =
  match AsOfTableProvider.bd_proto b with None => true | Some _ => in_interval (lower_bound p b) (upper_bound p b) t end.
Proof.
  intros Hi Hr b. unfold AsOfTableProvider.right_time_bounds, in_interval, lower_bound, upper_bound. cbv zeta. fold b.
  destruct (AsOfTableProvider.bd_proto b) as [proto|]; [|done].
  assert (Hh : forall op v, (forall name, op <> OOther name) ->
    holds (ap_right p) row (EBin (ECol None (ao_right_on (ap_options p))) op (ELit (AsOfTableProvider.scalar_with_time proto v))) = op_holds op t v).
  { intros op v Hop. unfold AsOfTableProvider.scalar_with_time. destruct (sv_type proto); by apply (holds_column _ _ _ _ rti). }
  destruct (ao_direction (ap_options p)), (AsOfTableProvider.bd_hi b), (AsOfTableProvider.bd_lo b), (ao_tolerance (ap_options p)) as [tol|];
    cbn [app forallb]; try destruct (0 <=? tol); cbn [app forallb]; rewrite ?Hh by done; cbn [op_holds];
    rewrite ?andb_true_r, ?andb_true_l; try done; apply andb_comm.
Qed.

Lemma match_pushed {L} p filters t (l : list (Z * L)) :
  let b := AsOfTableProvider.bounds_of p filters in
  admits b t -> in_i64 t -> Forall (fun e => in_i64 e.1 /\ in_i64 (t - e.1) /\ in_i64 (e.1 - t)) l ->
  asof_match (ap_options p) t (List.filter (fun e => in_interval (lower_bound p b) (upper_bound p b) e.1) l) = asof_match (ap_options p) t l.
Proof.
  intros b [Hlo Hhi] Ht Hl. apply match_interval. unfold lower_bound, upper_bound, AsOf.too_far.
  assert (Hfar : forall e x, In e l -> (x = t - e.1 \/ x = e.1 - t) -> wrap64 x = x).
  { intros e x He Hx. rewrite List.Forall_forall in Hl. apply wrap64_id. destruct (Hl e He) as (_ & ? & ?). by destruct Hx as [->| ->]. }
  unfold sat64, sub64, in_i64, i64_min, i64_max in *.
  destruct (ao_direction (ap_options p)).
  - split; [by destruct (AsOfTableProvider.bd_hi b)|]. destruct (AsOfTableProvider.bd_lo b) as [lo|]; [|done].
    destruct (ao_tolerance (ap_options p)) as [tol|]; [|done]. destruct (Z.leb_spec 0 tol); [|done].
    apply List.Forall_forall. intros e He Hc Hle. rewrite (Hfar e) by auto. apply Z.ltb_lt.
    rewrite List.Forall_forall in Hl. destruct (Hl e He) as (? & _). lia.
  - split; [by destruct (AsOfTableProvider.bd_lo b)|]. destruct (AsOfTableProvider.bd_hi b) as [hi|]; [|done].
    destruct (ao_tolerance (ap_options p)) as [tol|]; [|done]. destruct (Z.leb_spec 0 tol); [|done].
    apply List.Forall_forall. intros e He Hc Hle. rewrite (Hfar e) by auto. apply Z.ltb_lt.
    rewrite List.Forall_forall in Hl. destruct (Hl e He) as (? & _). lia.
Qed.
End Join.

(** ** The ASOF join: what it returns, and what is pushed down *)
Import MergeProps.
#[local] Open Scope Z_scope.

Section AsOfTheorems.
Context `{QuerySpec}.

Lemma all_rows_map {A} (f : RecordBatch -> list A) (g : list A -> list (list (option Cell))) bs out :
  (forall l1 l2, g (l1 ++ l2) = g l1 ++ g l2) -> g [] = [] ->
  Forall2 (fun b b' => table_rows b' = g (f b)) bs out -> all_rows out = g (concat (map f bs)).
Proof.
  intros Happ Hnil. unfold all_rows. induction 1 as [|b b' bs out Hb _ IH]; cbn; [done|]. by rewrite Happ, Hb, IH.
Qed.
Lemma asof_rows_app o kept l1 l2 rights : asof_rows o kept (l1 ++ l2) rights = asof_rows o kept l1 rights ++ asof_rows o kept l2 rights.
Proof. unfold asof_rows. by rewrite List.map_app, concat_app. Qed.

Lemma execute_rows grow ls rs schema kept o right left out types :
  AsOf.by_key_types ls rs o = Ok types -> Forall (uniform ls) left ->
  Joiner.execute grow ls rs schema kept o right left = Ok out ->
  exists lti ti lbi bi, TableSpec.index_of ls (ao_left_on o) = Some lti /\ TableSpec.index_of rs (ao_right_on o) = Some ti /\
    by_indices ls (map fst (ao_by o)) = Ok lbi /\ by_indices rs (map snd (ao_by o)) = Ok bi /\
    all_rows out = asof_rows o kept (concat (map (keyed_rows lti lbi types) left)) (concat (map (keyed_rows ti bi types) right)).
Proof.
  intros Hty Hl. unfold Joiner.execute. rewrite Hty. cbn. destruct (foldr_res _ 0 right) as [total|]; [|done]. cbn.
  destruct (AsOf.build right rs o types) as [rr|] eqn:Eb; [|done]. cbn. destruct (grow _ _); [|done]. cbn.
  destruct (TableSpec.index_of ls _) as [lti|] eqn:El; [|done]. cbn. rewrite (by_indices_map ls fst).
  destruct (by_indices ls _) as [lbi|] eqn:Ebi; [|done]. cbn. intros Ho%map_res_Forall2.
  assert (Htl : length types = length (ao_by o)).
  { unfold AsOf.by_key_types in Hty. apply map_res_Forall2, Forall2_length in Hty. done. }
  assert (Hbl : length lbi = length (ao_by o)).
  { unfold by_indices in Ebi. apply map_res_Forall2, Forall2_length in Ebi. by rewrite length_map in Ebi. }
  destruct (build_spec right rs o types rr Htl Eb) as (ti & bi & Hti & Hbi & Hconv & Hprobe).
  exists lti, ti, lbi, bi. do 4 (split; [done|]).
  apply (all_rows_map (keyed_rows lti lbi types) (fun l => asof_rows o kept l (concat (map (keyed_rows ti bi types) right))));
    [intros; apply asof_rows_app|done|].
  eapply Forall2_impl; [apply Forall2_same_length_lookup_2; [by eapply Forall2_length|exact (fun i a b Ha Hb => conj (Forall_lookup_1 _ _ _ _ Hl Ha) (Forall2_lookup_lr _ _ _ _ _ _ Ho Ha Hb))]|].
  intros b b' [Hu Hj]. by eapply join_batch_spec.
Qed.

(** ** Sides on which nothing can fail *)
Definition plain_time (s : Schema) (name : string) : Prop :=
  exists i f, TableSpec.index_of s name = Some i /\ s !! i = Some f /\ fd_nullable f = false /\
    match fd_type f with Int64 | Timestamp _ => True | _ => False end.
Record plain_sides (ls rs : Schema) (o : AsOfOptions) : Prop := {
  ps_left : plain_time ls (ao_left_on o);
  ps_right : plain_time rs (ao_right_on o);
  ps_by : Forall (fun p => exists lf rf, field_with_name ls p.1 = Some lf /\ field_with_name rs p.2 = Some rf /\ fd_type lf = fd_type rf) (ao_by o);
  ps_left_join : ao_inner o = false;
  ps_converter : forall types cols, row_converter types = true /\ convert_columns types cols = true;
}.

Lemma plain_time_ok s name b i : plain_time s name -> TableSpec.index_of s name = Some i -> uniform s b ->
  exists l, time_column_i64 b i = Ok l.
Proof.
  intros (j & f & Hj & Hf & Hn & Ht) Hi [Hs [_ Hfit]]. assert (j = i) as -> by congruence. rewrite Hs in Hfit.
  destruct (Forall2_lookup_l _ _ _ _ _ Hfit Hf) as (c & Hc & Hty & _ & Hnull). unfold time_column_i64. rewrite Hc. cbn.
  assert (null_count c = 0) as ->.
  { destruct Hnull as [?|Hsome]; [congruence|]. unfold null_count. rewrite (filter_none is_null); [done|].
    eapply Forall_impl; [exact Hsome|]. by intros x [y ->]. }
  cbn. rewrite Hty. destruct (fd_type f); try done; by eexists.
Qed.

Lemma key_columns_ok s names bi types b : by_indices s names = Ok bi ->
  Forall2 (fun n t => exists f, field_with_name s n = Some f /\ fd_type f = t) names types -> uniform s b ->
  exists cols, AsOf.key_columns b bi types = Ok cols.
Proof.
  intros Hb%map_res_Forall2 Ht [Hs [_ Hfit]]. rewrite Hs in Hfit. unfold AsOf.key_columns. revert types Ht.
  induction Hb as [|n i names bi Hn _ IH]; intros types Ht; inversion Ht as [|? t ? types' (f & Hf & Hft) Ht']; subst; [by eexists|].
  cbn. apply ok_or_Ok in Hn. unfold field_with_name in Hf. rewrite Hn in Hf. cbn in Hf.
  destruct (Forall2_lookup_l _ _ _ _ _ Hfit Hf) as (c & -> & Hct & _). cbn. rewrite bool_decide_true by done. cbn.
  destruct (IH types' Ht') as [cols ->]. by eexists.
Qed.

Lemma loop_total {E A S} (body : S -> A -> result E S) l s :
  (forall s a, In a l -> exists s', body s a = Ok s') -> exists s', foldr_res body s l = Ok s'.
Proof.
  revert s. induction l as [|a l IH]; intros s Hb; cbn; [by eexists|]. destruct (Hb s a ltac:(by left)) as [s1 ->]. cbn.
  apply IH. intros s2 x Hx. apply Hb. by right.
Qed.

Lemma in_batches right (e : nat * RecordBatch) rs : Forall (uniform rs) right -> In e (enumerate right) -> uniform rs e.2.
Proof. destruct e as [i b]. intros Hu Hin%in_enumerate. by eapply Forall_lookup_1. Qed.

Section Plain.
Context (ls rs : Schema) (o : AsOfOptions) (types : list DataType) (right : list RecordBatch).
Hypothesis Hplain : plain_sides ls rs o.
Hypothesis Hright : Forall (uniform rs) right.
Hypothesis Htypes : AsOf.by_key_types ls rs o = Ok types.

(** The keys have one type on both sides, so none is cast. *)
Lemma key_fields :
  Forall2 (fun n t => exists f, field_with_name ls n = Some f /\ fd_type f = t) (map fst (ao_by o)) types /\
  Forall2 (fun n t => exists f, field_with_name rs n = Some f /\ fd_type f = t) (map snd (ao_by o)) types.
Proof.
  pose proof Htypes as Ht. unfold AsOf.by_key_types in Ht. apply map_res_Forall2 in Ht. pose proof (ps_by _ _ _ Hplain) as Hby. clear Htypes.
  induction Ht as [|[l r] t by_ ts Hp _ IH]; [by split|]. apply Forall_cons in Hby as [(lf & rf & Hl & Hr & Heq) Hby].
  cbn in Hl, Hr. rewrite Hl, Hr in Hp. cbn in Hp. unfold AsOf.canonical_key_type in Hp. rewrite bool_decide_true in Hp by done.
  cbn in Hp. injection Hp as <-. destruct (IH Hby) as [IH1 IH2]. split; cbn; (constructor; [|done]); [by exists lf|by exists rf].
Qed.

Lemma names_found s (names : list string) (ts : list DataType) :
  Forall2 (fun n t => exists f, field_with_name s n = Some f /\ fd_type f = t) names ts -> exists bi, by_indices s names = Ok bi.
Proof.
  unfold by_indices. induction 1 as [|n t names ts (f & Hf & _) _ [bi IH]]; [by eexists|].
  cbn. unfold field_with_name in Hf. destruct (TableSpec.index_of s n); [|done]. cbn. rewrite IH. by eexists.
Qed.

Lemma build_ok : exists rr, AsOf.build right rs o types = Ok rr.
Proof.
  unfold AsOf.build. destruct (ps_right _ _ _ Hplain) as (ti & f & Hti & Hf). rewrite Hti. cbn. rewrite (by_indices_map rs snd).
  destruct key_fields as [_ Hr]. destruct (names_found rs _ _ Hr) as [bi Hbi]. rewrite Hbi. cbn.
  assert (Hcols : forall e, In e (enumerate right) -> exists cols, AsOf.key_columns e.2 bi types = Ok cols).
  { intros e He. eapply key_columns_ok; [done..|]. by eapply in_batches. }
  assert (Htime : forall e, In e (enumerate right) -> exists l, time_column_i64 e.2 ti = Ok l).
  { intros e He. eapply plain_time_ok; [exact (ps_right _ _ _ Hplain)|done|]. by eapply in_batches. }
  destruct bi as [|b0 bi].
  - destruct (loop_total (AsOf.single_batch ti) (enumerate right) AsOf.empty_run) as [run Hrun]; [|rewrite Hrun; by eexists].
    intros s e He. unfold AsOf.single_batch. destruct (Htime e He) as [l ->]. by eexists.
  - rewrite (proj1 (ps_converter _ _ _ Hplain types [])). cbn -[AsOf.key_columns].
    destruct (loop_total (AsOf.keyed_batch ti (b0 :: bi) types) (enumerate right) (∅, 0, 0)) as [[[m kb] n] Hrun]; [|rewrite Hrun; by eexists].
    intros s e He. unfold AsOf.keyed_batch. destruct (Htime e He) as [l ->], (Hcols e He) as [cols ->]. cbn.
    rewrite (proj2 (ps_converter _ _ _ Hplain types cols)). by eexists.
Qed.

Context (schema : Schema) (kept : list nat) (rr : RightRuns) (lti ti : nat) (lbi bi : list nat).
Hypothesis Hschema : AsOf.asof_output_schema ls rs o = Ok (schema, kept).
Hypothesis Hlti : TableSpec.index_of ls (ao_left_on o) = Some lti.
Hypothesis Hlbi : by_indices ls (map fst (ao_by o)) = Ok lbi.
Hypothesis Hconv : rr_converter rr = match ao_by o with [] => None | _ => Some types end.
Hypothesis Hprobe : forall keys t, length keys = length types ->
  AsOf.probe rr (match ao_by o with [] => None | _ => Some (row_data types keys) end) t o =
  asof_match o t (candidates ti bi types right keys).
Let j := mkJoiner rr right o schema kept rs lti lbi types.

Lemma by_lengths : length types = length (ao_by o) /\ length lbi = length (ao_by o).
Proof.
  split.
  - pose proof Htypes as Ht. unfold AsOf.by_key_types in Ht. by apply map_res_Forall2, Forall2_length in Ht.
  - pose proof Hlbi as Hb. unfold by_indices in Hb. apply map_res_Forall2, Forall2_length in Hb. by rewrite length_map in Hb.
Qed.

Lemma matches_ok b : uniform ls b -> exists ms, Joiner.matches_of j b = Ok ms /\ length ms = rb_rows b /\
  Forall (fun m => match m with Some loc => exists rb, right !! loc.1 = Some rb /\ (loc.2 < rb_rows rb)%nat | None => True end) ms.
Proof.
  intros Hu. destruct by_lengths as [Htl Hbl].
  assert (Hm : exists ms, Joiner.matches_of j b = Ok ms).
  { unfold Joiner.matches_of. cbn [jn_left_time_idx j]. destruct (plain_time_ok ls _ b lti (ps_left _ _ _ Hplain) Hlti Hu) as [l ->]. cbn.
    unfold Joiner.left_keys. cbn [jn_runs jn_left_by_idx jn_key_types j]. rewrite Hconv. destruct (ao_by o) eqn:Eby; [by eexists|].
    rewrite <- Eby in *. destruct key_fields as [Hk _].
    destruct (key_columns_ok ls _ lbi types b Hlbi Hk Hu) as [cols ->]. cbn. rewrite (proj2 (ps_converter _ _ _ Hplain types cols)). by eexists. }
  destruct Hm as [ms Hms]. exists ms. split; [done|].
  apply (matches_of_spec rr right o schema rs kept lti ti lbi bi types Htl Hbl Hconv Hprobe) in Hms as ->.
  split; [unfold keyed_rows; by rewrite !length_map, length_seq|]. apply List.Forall_map, List.Forall_forall. intros l _.
  unfold matched. destruct (asof_match _ _ _) eqn:E; [|done]. by eapply candidate_place.
Qed.

Lemma gather_ok ms i f : rs !! i = Some f ->
  Forall (fun m => match m with Some loc => exists rb, right !! loc.1 = Some rb /\ (loc.2 < rb_rows rb)%nat | None => True end) ms ->
  exists c, Joiner.gather_right j ms i = Ok c /\ ar_type c = fd_type f /\ length (ar_cells c) = length ms.
Proof.
  intros Hf Hms. unfold Joiner.gather_right. cbn [jn_right_batches jn_right_schema j].
  destruct (map_res_exists (fun b => ok_or (rb_columns b !! i) df_bounds) (fun b c => rb_columns b !! i = Some c /\ column_fits (rb_rows b) f c) right)
    as (sources & Hs & Hsources).
  { eapply Forall_impl; [exact Hright|]. intros b [Hsb [_ Hfit]]. rewrite Hsb in Hfit.
    destruct (Forall2_lookup_l _ _ _ _ _ Hfit Hf) as (c & Hc & Hcf). exists c. by rewrite Hc. }
  rewrite Hs. cbn. rewrite Hf. cbn.
  destruct (interleave_same_type (sources ++ [TableSpec.new_null_array (fd_type f) 1]) (map (default (length sources, 0%nat)) ms) (fd_type f)) as (a & Ha & Hta).
  - by destruct sources.
  - apply Forall_app. split; [|by constructor]. apply List.Forall_forall. intros c Hc.
    apply list_elem_of_In, list_elem_of_lookup in Hc as [k Hk]. by destruct (Forall2_lookup_r _ _ _ _ _ Hsources Hk) as (b & _ & _ & Ht & _).
  - apply List.Forall_map. eapply Forall_impl; [exact Hms|]. intros [[k ri]|] Hm; cbn in Hm |- *.
    + destruct Hm as (rb & Hk & Hri). destruct (Forall2_lookup_l _ _ _ _ _ Hsources Hk) as (c & Hc & _ & _ & Hl & _). exists c.
      split; [|by rewrite Hl]. rewrite lookup_app_l; [done|by apply lookup_lt_Some in Hc].
    + exists (TableSpec.new_null_array (fd_type f) 1). split; [|cbn; lia]. by rewrite lookup_app_r, Nat.sub_diag by done.
  - rewrite Ha. exists a. split; [done|]. split; [done|]. apply interleave_spec in Ha as ->. by rewrite !length_map.
Qed.

Lemma join_batch_ok b : uniform ls b -> exists out, Joiner.join_batch j b = Ok out.
Proof.
  intros Hu. destruct (matches_ok b Hu) as (ms & Hms & Hlen & Hplace). unfold Joiner.join_batch. rewrite Hms. cbn.
  unfold Joiner.drop_unmatched. cbn [jn_options j]. rewrite (ps_left_join _ _ _ Hplain). cbn.
  pose proof Hschema as Hsk. unfold AsOf.asof_output_schema in Hsk. destruct (ok_or (field_with_name ls _) _); [|done]. cbn in Hsk.
  destruct (ok_or (field_with_name rs _) _); [|done]. cbn in Hsk. destruct (negb _); [done|]. rewrite Htypes in Hsk. cbn in Hsk.
  injection Hsk as Hsch Hkept. set (fields := List.filter (fun e => negb (AsOf.is_by o e.2)) (enumerate rs)) in *.
  destruct (map_res_exists (fun e : nat * Field => Joiner.gather_right j ms e.1) (fun e c => column_fits (rb_rows b) (AsOf.right_field ls e.2) c) fields)
    as (rc & Hrc & Hfits).
  { apply List.Forall_forall. intros [i f] [Hin%in_enumerate _]%filter_In. destruct (gather_ok ms i f Hin Hplace) as (c & Hc & Ht & Hl).
    exists c. split; [done|]. split; [done|]. split; [by rewrite Hl|]. by left. }
  assert (map_res (Joiner.gather_right j ms) kept = Ok rc) as ->.
  { rewrite <- Hkept. apply map_res_Forall2. apply map_res_Forall2 in Hrc. by apply Forall2_fmap_l. }
  cbn. destruct Hu as [Hs [Hne Hfit]]. rewrite Hs in Hne, Hfit. rewrite (try_new_valid _ _ (rb_rows b)); [by eexists| |].
  - rewrite <- Hsch. by destruct ls.
  - rewrite <- Hsch. apply Forall2_app; [done|]. by apply Forall2_fmap_l.
Qed.
End Plain.

Lemma execute_ok grow ls rs schema kept o right left :
  plain_sides ls rs o -> Forall (uniform ls) left -> Forall (uniform rs) right -> (forall a b, grow a b = true) ->
  AsOf.asof_output_schema ls rs o = Ok (schema, kept) ->
  exists out, Joiner.execute grow ls rs schema kept o right left = Ok out.
Proof.
  intros Hp Hl Hr Hg Hs. assert (Ht : exists types, AsOf.by_key_types ls rs o = Ok types).
  { unfold AsOf.asof_output_schema in Hs. destruct (ok_or (field_with_name ls _) _); [|done]. cbn in Hs.
    destruct (ok_or (field_with_name rs _) _); [|done]. cbn in Hs. destruct (negb _); [done|]. destruct (AsOf.by_key_types ls rs o); [by eexists|done]. }
  destruct Ht as [types Ht]. unfold Joiner.execute. rewrite Ht. cbn.
  destruct (loop_total (E := DfError) (fun total b => if grow total (get_array_memory_size b) then Ok (total + get_array_memory_size b) else Err (DfResources "memory")) right 0) as [total Htot].
  { intros s a _. rewrite Hg. by eexists. }
  rewrite Htot. cbn. destruct (build_ok ls rs o types right Hp Hr Ht) as [rr Hrr]. rewrite Hrr. cbn. rewrite Hg. cbn.
  destruct (ps_left _ _ _ Hp) as (lti & f & Hlti & _). rewrite Hlti. cbn. rewrite (by_indices_map ls fst).
  destruct (key_fields ls rs o types Hp Ht) as [Hkl _]. destruct (names_found ls _ _ Hkl) as [lbi Hlbi]. rewrite Hlbi. cbn.
  assert (Htl : length types = length (ao_by o)).
  { unfold AsOf.by_key_types in Ht. by apply map_res_Forall2, Forall2_length in Ht. }
  destruct (build_spec right rs o types rr Htl Hrr) as (ti & bi & _ & _ & Hconv & Hprobe).
  edestruct (map_res_exists (Joiner.join_batch (mkJoiner rr right o schema kept rs lti lbi types)) (fun _ _ => True) left) as (out & Ho & _).
  { eapply Forall_impl; [exact Hl|]. intros b Hu.
    destruct (join_batch_ok ls rs o types right Hp Hr Ht schema kept rr lti ti lbi bi Hs Hlti Hlbi Hconv Hprobe b Hu) as [out Ho]. by exists out. }
  exists out. exact Ho.
Qed.

(** C17 The ASOF join is its definition: whenever it returns, in the order of the left rows, each
    left row comes with the right row of equal keys that is the latest at or before it (the
    earliest at or after it), the last (the first) of those at one time, if its distance is at
    most the tolerance; without one it comes with nulls, or not at all in an inner join.  This
    is for no tolerance, or for one that is not negative over left and right times less than
    [2^63] apart: a larger distance wraps in the code, and a negative tolerance refuses every
    match where a comment has it restrict none.  A left join of columns that need no conversion
    returns whenever it gets its memory. *)
Theorem asof_join_is_its_definition grow ls rs schema kept o right left :
  Forall (uniform ls) left -> Forall (uniform rs) right -> AsOf.asof_output_schema ls rs o = Ok (schema, kept) ->
  (forall out, Joiner.execute grow ls rs schema kept o right left = Ok out ->
    exists types lti ti lbi bi, AsOf.by_key_types ls rs o = Ok types /\
      TableSpec.index_of ls (ao_left_on o) = Some lti /\ TableSpec.index_of rs (ao_right_on o) = Some ti /\
      by_indices ls (map fst (ao_by o)) = Ok lbi /\ by_indices rs (map snd (ao_by o)) = Ok bi /\
      let lefts := concat (map (keyed_rows lti lbi types) left) in let rights := concat (map (keyed_rows ti bi types) right) in
      (measurable o lefts rights -> all_rows out = join_rows o kept lefts rights)) /\
  (plain_sides ls rs o -> (forall a b, grow a b = true) ->
    exists out, Joiner.execute grow ls rs schema kept o right left = Ok out).
Proof.
  intros Hl Hr Hs. split; [|intros Hp Hg; by eapply execute_ok]. intros out Ho.
  destruct (AsOf.by_key_types ls rs o) as [types|e] eqn:Ht; [|unfold Joiner.execute in Ho; by rewrite Ht in Ho].
  exists types. destruct (execute_rows grow ls rs schema kept o right left out types Ht Hl Ho) as (lti & ti & lbi & bi & Hlt & Hrt & Hlb & Hrb & Hrows).
  exists lti, ti, lbi, bi. repeat (split; [done|]). intros lefts rights Hm. by rewrite <- rows_by_definition.
Qed.
End AsOfTheorems.

(** ** What the ASOF table function pushes down does not change its answer

    The filters that reach the left side, the time bounds derived from them for the right
    side, the limit, and the columns asked of both. *)
#[local] Open Scope Z_scope.

Section AsOfPushdown.
Context `{QuerySpec}.

Definition limited {A} (limit : option Z) (l : list A) : list A :=
  match limit with Some n => firstn (Z.to_nat n) l | None => l end.

Lemma limited_in {A} limit (l : list A) x : In x (limited limit l) -> In x l.
Proof. unfold limited. destruct limit as [n|]; [|done]. intros Hx. rewrite <- (firstn_skipn (Z.to_nat n) l). apply in_or_app. by left. Qed.

(** A left join has one row per left row. *)
Lemma limited_rows o kept lefts rights n : ao_inner o = false ->
  asof_rows o kept (firstn n lefts) rights = firstn n (asof_rows o kept lefts rights).
Proof.
  intros Hi. unfold asof_rows. rewrite Hi. revert n. induction lefts as [|l lefts IH]; intros [|n]; try done. cbn [firstn map concat].
  rewrite IH. by destruct (asof_match _ _ _).
Qed.

(** Matching only the rows the pushed-down bounds leave. *)
Lemma pushed_rows p filters rti kept lefts rights :
  TableSpec.index_of (ap_right p) (ao_right_on (ap_options p)) = Some rti ->
  timed_rows rti rights -> close lefts rights ->
  Forall (fun l => admits (AsOfTableProvider.bounds_of p filters) (kr_time l) /\ in_i64 (kr_time l)) lefts ->
  asof_rows (ap_options p) kept lefts (List.filter (passes (ap_right p) (AsOfTableProvider.right_time_bounds p filters)) rights) =
  asof_rows (ap_options p) kept lefts rights.
Proof.
  intros Hrti Hr Hc Hl. unfold asof_rows. f_equal. apply map_ext_in. intros l Hin.
  rewrite List.Forall_forall in Hl. destruct (Hl l Hin) as [Hadm Ht]. unfold close in Hc. rewrite List.Forall_forall in Hc. specialize (Hc l Hin).
  set (b := AsOfTableProvider.bounds_of p filters) in *.
  assert (E : asof_match (ap_options p) (kr_time l) (right_rows (List.filter (passes (ap_right p) (AsOfTableProvider.right_time_bounds p filters)) rights) (kr_keys l)) =
    asof_match (ap_options p) (kr_time l) (right_rows rights (kr_keys l))); [|by rewrite E].
  assert (Hb : forall r, In r rights -> passes (ap_right p) (AsOfTableProvider.right_time_bounds p filters) r =
    match AsOfTableProvider.bd_proto b with None => true | Some _ => in_interval (lower_bound p b) (upper_bound p b) (kr_time r) end).
  { intros r Hin'. unfold timed_rows in Hr. rewrite List.Forall_forall in Hr. destruct (Hr r Hin') as [Hrow _]. by apply (bounds_hold p filters rti). }
  rewrite (filter_ext_Forall _ (fun r => match AsOfTableProvider.bd_proto b with None => true | Some _ => in_interval (lower_bound p b) (upper_bound p b) (kr_time r) end))
    by (by apply List.Forall_forall).
  destruct (AsOfTableProvider.bd_proto b); [|by rewrite filter_all by (by apply List.Forall_forall)].
  assert (Hpush : right_rows (List.filter (fun r => in_interval (lower_bound p b) (upper_bound p b) (kr_time r)) rights) (kr_keys l) =
    List.filter (fun e => in_interval (lower_bound p b) (upper_bound p b) e.1) (right_rows rights (kr_keys l))).
  { unfold right_rows. clear. induction rights as [|r rights IH]; [done|]. cbn.
    destruct (in_interval _ _ (kr_time r)) eqn:Ei, (same_keys (kr_keys l) (kr_keys r)) eqn:Ek; cbn; rewrite ?Ek, ?Ei; cbn; by rewrite ?IH. }
  rewrite Hpush. apply match_pushed; [done..|]. unfold right_rows. apply List.Forall_map, List.Forall_forall. intros r [Hin' _]%filter_In. cbn.
  unfold timed_rows in Hr. rewrite List.Forall_forall in Hr, Hc. destruct (Hr r Hin') as [_ Hi]. by destruct (Hc r Hin').
Qed.

(** ** Columns *)

(** The columns a projected side keeps, and the kept right columns of the join of the
    projected sides. *)
Definition pick (proj : list nat) (row : list (option Cell)) : list (option Cell) := map (fun i => default None (row !! i)) proj.
Lemma position_lookup l i k : AsOfTableProvider.position l i = Some k -> l !! k = Some i.
Proof. unfold AsOfTableProvider.position. destruct (list_find _ _) as [[k' x]|] eqn:E; [|done]. intros [= <-]. by apply list_find_Some in E as (-> & -> & _). Qed.

Lemma output_column p left_proj right_proj i pos lrow rrow : length lrow = length (ap_left p) ->
  AsOfTableProvider.output_position p left_proj right_proj i = Ok pos ->
  (pick left_proj lrow ++ right_cells (AsOfTableProvider.right_out p right_proj) rrow) !! pos =
  (lrow ++ right_cells (ap_right_kept p) rrow) !! i.
Proof.
  intros Hl. unfold AsOfTableProvider.output_position. destruct (Nat.ltb_spec i (length (ap_left p))) as [Hi|Hi].
  - intros Hp%ok_or_Ok%position_lookup. rewrite lookup_app_l by (unfold pick; rewrite length_map; by apply lookup_lt_Some in Hp).
    unfold pick. rewrite list_lookup_fmap, Hp. cbn. rewrite lookup_app_l by lia.
    destruct (lookup_lt_is_Some_2 lrow i ltac:(lia)) as [x ->]. done.
  - destruct (ok_or (ap_right_kept p !! _) _) as [rj|] eqn:Ej; [|done]. cbn. apply ok_or_Ok in Ej.
    destruct (ok_or (AsOfTableProvider.position _ _) _) as [k|] eqn:Ek; [|done]. cbn. intros [= <-]. apply ok_or_Ok, position_lookup in Ek.
    rewrite lookup_app_r by (unfold pick; rewrite length_map; lia). unfold pick. rewrite length_map.
    replace (length left_proj + k - length left_proj)%nat with k by lia. rewrite lookup_app_r by lia. rewrite Hl.
    unfold right_cells. by rewrite !list_lookup_fmap, Ek, Ej.
Qed.

(** The kept columns of a projected right side, as [asof_output_schema] finds them. *)
Definition kept_of (o : AsOfOptions) (s : Schema) : list nat := map fst (List.filter (fun e => negb (AsOf.is_by o e.2)) (enumerate s)).
Lemma kept_projected p right_proj projected rrow :
  Forall2 (fun r f => ap_right p !! r = Some f) right_proj projected ->
  right_cells (kept_of (ap_options p) projected) (pick right_proj <$> rrow) =
  right_cells (AsOfTableProvider.right_out p right_proj) rrow.
Proof.
  intros Hp. unfold kept_of, AsOfTableProvider.right_out, right_cells, enumerate.
  enough (forall pre, map (fun i => (pick (pre ++ right_proj) <$> rrow) ≫= fun row => default None (row !! i))
      (map fst (List.filter (fun e => negb (AsOf.is_by (ap_options p) e.2)) (combine (seq (length pre) (length projected)) projected))) =
    map (fun i => rrow ≫= fun row => default None (row !! i))
      (List.filter (fun r => match ap_right p !! r with Some f => negb (AsOf.is_by (ap_options p) f) | None => false end) right_proj)) as E by apply (E []).
  induction Hp as [|r f rp ps Hf _ IH]; intros pre; [done|]. cbn [List.filter length seq combine]. rewrite Hf. cbn [snd].
  specialize (IH (pre ++ [r])). rewrite length_app, Nat.add_1_r, <- app_assoc in IH. cbn [app] in IH.
  destruct (negb _); [|exact IH]. cbn [map fst]. rewrite IH. f_equal. destruct rrow as [row|]; [|done]. cbn.
  unfold pick. rewrite list_lookup_fmap, lookup_app_r, Nat.sub_diag by done. cbn. by destruct (row !! r).
Qed.

(** C19 What [asof_join] pushes down does not change its answer: joining the filtered left rows
    with the right rows inside the bounds derived from the filters is joining them with all
    right rows, a limit on the left is the limit on the result, and the columns taken of the
    join of the projected sides are the columns asked for.  Times must be less than [2^63]
    apart. *)
Theorem asof_pushdown_is_sound p projection filters limit plan lti rti kept lefts rights :
  AsOfTableProvider.scan p projection filters limit = Ok plan ->
  TableSpec.index_of (ap_left p) (ao_left_on (ap_options p)) = Some lti ->
  TableSpec.index_of (ap_right p) (ao_right_on (ap_options p)) = Some rti ->
  timed_rows lti lefts -> timed_rows rti rights -> close lefts rights ->
  let o := ap_options p in
  let wanted := List.filter (passes (ap_left p) (AsOfTableProvider.pl_left_filters plan)) lefts in
  asof_rows o kept (limited (AsOfTableProvider.pl_left_limit plan) wanted)
    (List.filter (passes (ap_right p) (AsOfTableProvider.pl_right_filters plan)) rights) =
  limited (AsOfTableProvider.pl_left_limit plan) (asof_rows o kept wanted rights) /\
  forall indices left_proj right_proj out projected lrow rrow,
    projection = Some indices -> AsOfTableProvider.pl_projections plan = Some (left_proj, right_proj) ->
    AsOfTableProvider.pl_output plan = Some out -> length lrow = length (ap_left p) ->
    Forall2 (fun r f => ap_right p !! r = Some f) right_proj projected ->
    map (fun pos => (pick left_proj lrow ++ right_cells (kept_of o projected) (pick right_proj <$> rrow)) !! pos) out =
    map (fun i => (lrow ++ right_cells (ap_right_kept p) rrow) !! i) indices.
Proof.
  intros Hscan Hlti Hrti Hl Hr Hc o wanted.
  assert (Hplan : AsOfTableProvider.pl_right_filters plan = AsOfTableProvider.right_time_bounds p (AsOfTableProvider.pl_left_filters plan) /\
    (forall n, AsOfTableProvider.pl_left_limit plan = Some n -> ao_inner o = false) /\
    forall indices left_proj right_proj out, projection = Some indices -> AsOfTableProvider.pl_projections plan = Some (left_proj, right_proj) ->
      AsOfTableProvider.pl_output plan = Some out -> map_res (AsOfTableProvider.output_position p left_proj right_proj) indices = Ok out).
  { unfold AsOfTableProvider.scan in Hscan. set (lf := map unqualify _) in Hscan. set (ll := match filters with [] => _ | _ => _ end) in Hscan.
    assert (Hll : forall n, ll = Some n -> ao_inner o = false).
    { intros n. unfold ll, o. destruct filters; [|done]. by destruct (ao_inner (ap_options p)). }
    destruct projection as [indices|].
    - destruct (AsOfTableProvider.left_needed p indices) as [lp|]; [|done]. cbn in Hscan.
      destruct (AsOfTableProvider.right_needed p indices) as [rp|]; [|done]. cbn in Hscan.
      destruct (map_res _ indices) as [out|] eqn:Eo; [|done]. injection Hscan as <-. split; [done|]. split; [exact Hll|].
      intros i l r o' [= <-] [= <- <-] [= <-]. exact Eo.
    - injection Hscan as <-. split; [done|]. by split. }
  destruct Hplan as (Hrf & Hlim & Hout). split.
  - rewrite Hrf. unfold o. rewrite (pushed_rows p _ rti); [|done|done| |].
    + destruct (AsOfTableProvider.pl_left_limit plan) as [n|] eqn:En; [|done]. cbn. apply limited_rows. by eapply Hlim.
    + unfold close, timed_rows in *. apply List.Forall_forall. intros l Hin. rewrite List.Forall_forall in Hc. apply Hc.
      by apply limited_in, filter_In in Hin as [Hin _].
    + apply List.Forall_forall. intros l Hin.
      apply limited_in, filter_In in Hin as [Hin' Hp]. unfold timed_rows in Hl. rewrite List.Forall_forall in Hl. destruct (Hl l Hin') as [Hrow Ht].
      split; [|done]. by eapply bounds_admit.
  - intros indices lp rp out projected lrow rrow Hi Hp Ho Hlen Hproj. specialize (Hout _ _ _ _ Hi Hp Ho).
    apply map_res_Forall2 in Hout. unfold o. rewrite (kept_projected p rp projected rrow Hproj). clear -Hout Hlen.
    induction Hout as [|i pos indices out Hpos _ IH]; [done|]. cbn. rewrite IH. f_equal. by apply output_column.
Qed.
End AsOfPushdown.
