(* ===== verification/Rollup.v ===== *)
(** * Aggregate states of segments ([aggregate_state.rs], [sidecar.rs])

    [AggregateStateStore::finance_rollup]: open, high, low, close, volume and volume-weighted
    price per group of a version of a table, merged from one state per segment.  A state is
    built from the rows of its segment, or read back from a sidecar object under
    [cache/aggregates/v1] and verified; in the mode [ReadWrite] a built state is sealed and
    published, and the oldest sidecars are evicted when they outgrow a budget.

    A sidecar is the bytes [serde_json] makes of a state; the class [SidecarKernels] has that
    encoding, [blake3] on bytes and the [Debug] names of types.  [for] loops over rows and
    segments are folds; a missing column, which [expect] takes for a bug, is an error. *)
From S2P Require Export AsOf Float64.
#[local] Open Scope Z_scope.

Definition FORMAT : Z := 1.
Definition SEMANTICS_VERSION : Z := 3.
Definition PREFIX : Path := ["cache"; "aggregates"; "v1"].
Definition MAX_CACHE_BYTES : Z := 256 * 1024 * 1024.

(** [u64] and [usize] sums. *)
Definition add_u64 (a b : Z) : Z := (a + b) mod 2 ^ 64.

Inductive AggregateStateMode := Disabled | ReadOnlyMode | ReadWrite.
#[export] Instance AggregateStateMode_eq_dec : EqDecision AggregateStateMode.
Proof. solve_decision. Defined.

Record FinanceAggregateSpec := mkFinanceAggregateSpec {
  fs_timestamp : string;
  fs_price : string;
  fs_volume : string;
  fs_group_by : option string;
}.
Module FinanceAggregateSpec.
Definition ohlcv (timestamp price volume : string) : FinanceAggregateSpec :=
  mkFinanceAggregateSpec timestamp price volume None.
Definition grouped_by (s : FinanceAggregateSpec) (column : string) : FinanceAggregateSpec :=
  mkFinanceAggregateSpec (fs_timestamp s) (fs_price s) (fs_volume s) (Some column).
End FinanceAggregateSpec.

Record AggregateStateMetrics := mkAggregateStateMetrics {
  am_states_requested : Z;
  am_states_reused : Z;
  am_states_built : Z;
  am_segments_scanned : Z;
  am_rows_scanned : Z;
  am_bytes_scheduled : Z;
  am_corrupt_entries : Z;
  am_evictions : Z;
}.
#[export] Instance eta_AggregateStateMetrics : Eta AggregateStateMetrics := fun m =>
  mkAggregateStateMetrics (am_states_requested m) (am_states_reused m) (am_states_built m)
    (am_segments_scanned m) (am_rows_scanned m) (am_bytes_scheduled m) (am_corrupt_entries m) (am_evictions m).
Definition AggregateStateMetrics_default : AggregateStateMetrics := mkAggregateStateMetrics 0 0 0 0 0 0 0 0.

Record FinanceAggregate := mkFinanceAggregate {
  fa_group : option string;
  fa_rows : Z;
  fa_first_timestamp : Z;
  fa_last_timestamp : Z;
  fa_open : f64;
  fa_high : f64;
  fa_low : f64;
  fa_close : f64;
  fa_volume : f64;
  fa_vwap : option f64;
}.
Record FinanceAggregateResult := mkFinanceAggregateResult {
  fr_table : string;
  fr_sequence : Z;
  fr_groups : list FinanceAggregate;
  fr_metrics : AggregateStateMetrics;
}.

(** ** The order of rows *)
Record PointKey := mkPointKey {
  pk_timestamp : Z;
  pk_created_by_sequence : Z;
  pk_segment : Uuid;
  pk_row : Z;
}.
#[export] Instance PointKey_eq_dec : EqDecision PointKey.
Proof. solve_decision. Defined.

(** The derived order: field by field.  Uuids of equal form compare as their texts do. *)
Definition pk_fields (k : PointKey) : Z * (Z * (string * Z)) :=
  (pk_timestamp k, (pk_created_by_sequence k, (pk_segment k, pk_row k))).
Lemma pk_fields_inj a b : pk_fields a = pk_fields b -> a = b.
Proof. destruct a, b. unfold pk_fields. cbn. by intros [= -> -> -> ->]. Qed.
#[export, program] Instance ordkey_PointKey : OrdKey PointKey := {| kcmp a b := kcmp (pk_fields a) (pk_fields b) |}.
Next Obligation. intros a b. rewrite kcmp_eq. split; [apply pk_fields_inj|by intros ->]. Qed.
Next Obligation. intros. apply kcmp_antisym. Qed.
Next Obligation. intros a b c. apply kcmp_lt_trans. Qed.

(** [Option<String>]: [None] before [Some]. *)
Definition option_cmp {K} `{OrdKey K} (a b : option K) : comparison :=
  match a, b with
  | None, None => Eq | None, Some _ => Lt | Some _, None => Gt
  | Some x, Some y => kcmp x y
  end.
#[export, program] Instance ordkey_option {K} `{OrdKey K} : OrdKey (option K) := {| kcmp := option_cmp |}.
Next Obligation. intros K HK [a|] [b|]; cbn; rewrite ?kcmp_eq; naive_solver. Qed.
Next Obligation. intros K HK [a|] [b|]; cbn; auto using kcmp_antisym. Qed.
Next Obligation. intros K HK [a|] [b|] [c|]; cbn; try done. apply kcmp_lt_trans. Qed.

(** ** The state of a group *)

(** [finance::neumaier_add]: the running sum and its compensation. *)
Definition neumaier_add (sc : f64 * f64) (value : f64) : f64 * f64 :=
  let '(sum, c) := sc in
  let t := fadd sum value in
  let c := if SFleb (SFabs value) (SFabs sum) then fadd c (fadd (fsub sum t) value)
           else fadd c (fadd (fsub value t) sum) in
  (t, c).

Record GroupState := mkGroupState {
  gs_group : option string;
  gs_rows : Z;
  gs_open_key : PointKey;
  gs_close_key : PointKey;
  gs_open : f64;
  gs_high : f64;
  gs_low : f64;
  gs_close : f64;
  gs_volume : f64;
  gs_price_volume : f64;
  gs_c_volume : f64;
  gs_c_price_volume : f64;
}.
#[export] Instance eta_GroupState : Eta GroupState := fun g =>
  mkGroupState (gs_group g) (gs_rows g) (gs_open_key g) (gs_close_key g) (gs_open g) (gs_high g) (gs_low g)
    (gs_close g) (gs_volume g) (gs_price_volume g) (gs_c_volume g) (gs_c_price_volume g).

Definition f64_zero : f64 := S754_zero false.

Module GroupState.
Definition new (group : option string) (key : PointKey) (price volume : f64) : GroupState :=
  mkGroupState group 1 key key price price price price volume (fmul price volume) f64_zero f64_zero.

(** [if key < self.open_key], and the other way round. *)
Definition note_open (key : PointKey) (price : f64) (g : GroupState) : GroupState :=
  if kltb key (gs_open_key g) then g <| gs_open_key := key |> <| gs_open := price |> else g.
Definition note_close (key : PointKey) (price : f64) (g : GroupState) : GroupState :=
  if kltb (gs_close_key g) key then g <| gs_close_key := key |> <| gs_close := price |> else g.
Definition note_range (high low : f64) (g : GroupState) : GroupState :=
  g <| gs_high := fmax (gs_high g) high |> <| gs_low := fmin (gs_low g) low |>.
Definition note_volume (volume price_volume : f64) (g : GroupState) : GroupState :=
  let '(v, cv) := neumaier_add (gs_volume g, gs_c_volume g) volume in
  let '(p, cp) := neumaier_add (gs_price_volume g, gs_c_price_volume g) price_volume in
  g <| gs_volume := v |> <| gs_c_volume := cv |> <| gs_price_volume := p |> <| gs_c_price_volume := cp |>.
Definition sums_finite (g : GroupState) : bool :=
  is_finite (fadd (gs_volume g) (gs_c_volume g)) && is_finite (fadd (gs_price_volume g) (gs_c_price_volume g)).

Definition add (g : GroupState) (key : PointKey) (price volume : f64) : GroupState * bool :=
  let g := g <| gs_rows := add_u64 (gs_rows g) 1 |> in
  let g := note_volume volume (fmul price volume)
             (note_range price price (note_close key price (note_open key price g))) in
  (g, sums_finite g).

Definition merge (g other : GroupState) : GroupState * bool :=
  let g := g <| gs_rows := add_u64 (gs_rows g) (gs_rows other) |> in
  let g := note_volume (fadd (gs_volume other) (gs_c_volume other)) (fadd (gs_price_volume other) (gs_c_price_volume other))
             (note_range (gs_high other) (gs_low other)
               (note_close (gs_close_key other) (gs_close other) (note_open (gs_open_key other) (gs_open other) g))) in
  (g, sums_finite g).

Definition settle (g : GroupState) : GroupState :=
  g <| gs_volume := fadd (gs_volume g) (gs_c_volume g) |> <| gs_c_volume := f64_zero |>
    <| gs_price_volume := fadd (gs_price_volume g) (gs_c_price_volume g) |> <| gs_c_price_volume := f64_zero |>.

Definition finish (g : GroupState) : FinanceAggregate :=
  let g := settle g in
  mkFinanceAggregate (gs_group g) (gs_rows g) (pk_timestamp (gs_open_key g)) (pk_timestamp (gs_close_key g))
    (gs_open g) (gs_high g) (gs_low g) (gs_close g) (gs_volume g)
    (if negb (SFeqb (gs_volume g) f64_zero) then Some (fdiv (gs_price_volume g) (gs_volume g)) else None).
End GroupState.

(** ** The state of a segment *)
Record AggregateStateEntry := mkAggregateStateEntry {
  ae_format : Z;
  ae_segment_checksum : Digest;
  ae_schema_revision : Z;
  ae_aggregate_plan_hash : Digest;
  ae_expression_semantics_version : Z;
  ae_source_row_count : Z;
  ae_groups : list GroupState;
  ae_checksum : Digest;
}.
#[export] Instance eta_AggregateStateEntry : Eta AggregateStateEntry := fun e =>
  mkAggregateStateEntry (ae_format e) (ae_segment_checksum e) (ae_schema_revision e) (ae_aggregate_plan_hash e)
    (ae_expression_semantics_version e) (ae_source_row_count e) (ae_groups e) (ae_checksum e).

(** What is hashed to name a plan. *)
Definition PlanText : Type := Z * (string * string) * (string * string) * (string * string) * (option string * string).

Class SidecarKernels := {
  (** [blake3::hash] in hexadecimal. *)
  blake3_hex : string -> Digest;
  (** [serde_json::to_vec] and [from_slice] of a state; the compensations are skipped. *)
  entry_to_vec : AggregateStateEntry -> option string;
  entry_from_slice : string -> option AggregateStateEntry;
  plan_to_vec : PlanText -> option string;
  (** [format!("{:?}", data_type)]. *)
  debug_type : DataType -> string;
}.

Module AggregateStateEntry.
Section AggregateStateEntry.
Context `{Env} `{SidecarKernels}.

(** The digest of the entry without one. *)
Definition digest (e : AggregateStateEntry) : DbResult Digest :=
  let? bytes := ok_or (entry_to_vec (e <| ae_checksum := "" |>)) SerdeJson in Ok (checksum_hex (ORaw bytes)).

(** The entry is changed whether or not it can be encoded. *)
Definition seal (e : AggregateStateEntry) : AggregateStateEntry * DbResult unit :=
  let e := e <| ae_groups := map GroupState.settle (ae_groups e) |> <| ae_checksum := "" |> in
  match digest e with
  | Ok checksum => (e <| ae_checksum := checksum |>, Ok tt)
  | Err err => (e, Err err)
  end.

Definition key_matches (e : AggregateStateEntry) (seg : SegmentMeta) (plan_hash : Digest) : bool :=
  (ae_format e =? FORMAT) && String.eqb (ae_segment_checksum e) (sg_checksum seg) &&
  (ae_schema_revision e =? sg_schema_revision seg) && String.eqb (ae_aggregate_plan_hash e) plan_hash &&
  (ae_expression_semantics_version e =? SEMANTICS_VERSION) && (ae_source_row_count e =? sg_rows seg).

Definition group_valid (seg : SegmentMeta) (seen : list (option string)) (g : GroupState) : bool :=
  (0 <? gs_rows g) && negb (bool_decide (gs_group g ∈ seen)) &&
  (pk_created_by_sequence (gs_open_key g) =? sg_created_by_sequence seg) &&
  (pk_created_by_sequence (gs_close_key g) =? sg_created_by_sequence seg) &&
  String.eqb (pk_segment (gs_open_key g)) (sg_id seg) && String.eqb (pk_segment (gs_close_key g)) (sg_id seg) &&
  is_finite (gs_open g) && is_finite (gs_high g) && is_finite (gs_low g) && is_finite (gs_close g) &&
  is_finite (gs_volume g) && is_finite (gs_price_volume g) &&
  SFleb (gs_low g) (gs_open g) && SFleb (gs_open g) (gs_high g) &&
  SFleb (gs_low g) (gs_close g) && SFleb (gs_close g) (gs_high g).

Definition verify_group (seg : SegmentMeta) (s : list (option string) * Z) (g : GroupState) :
    DbResult (list (option string) * Z) :=
  let '(seen, rows) := s in
  if negb (group_valid seg seen g) then Err (Corruption (sg_path seg) "invalid aggregate state payload")
  else if 2 ^ 64 <=? rows + gs_rows g then Err (Corruption (sg_path seg) "aggregate state row count overflow")
  else Ok (gs_group g :: seen, rows + gs_rows g).

Definition verify (e : AggregateStateEntry) (seg : SegmentMeta) (plan_hash : Digest) : DbResult unit :=
  if negb (key_matches e seg plan_hash) then Err (Corruption (sg_path seg) "aggregate state key mismatch")
  else
    let? actual := digest e in
    if negb (String.eqb (ae_checksum e) actual)
    then Err (Corruption (sg_path seg) "aggregate state checksum mismatch")
    else
      let? '(_, rows) := foldr_res (verify_group seg) ([], 0) (ae_groups e) in
      if rows =? ae_source_row_count e then Ok tt
      else Err (Corruption (sg_path seg) "aggregate state row count mismatch").
End AggregateStateEntry.
End AggregateStateEntry.

(** ** The budget of sidecars ([sidecar.rs]) *)
Module Sidecar.
Section Sidecar.
Context `{Env}.

Fixpoint evict (max_bytes : Z) (objects : list (Path * File)) (total evictions : Z) : prog Z :=
  match objects with
  | [] => ret evictions
  | o :: objects =>
      if total <=? max_bytes then ret evictions
      else
        do! Backend.delete o.1 in
        evict max_bytes objects (Z.max 0 (total - object_size (fl_obj o.2))) (add_u64 evictions 1)
  end.
Definition enforce_budget (prefix : Path) (max_bytes : Z) : prog Z :=
  let! objects := Backend.list prefix in
  evict max_bytes (sort_by_key (fun o => fl_modified o.2) objects)
    (sum_u64 (map (fun o => object_size (fl_obj o.2)) objects)) 0.
End Sidecar.
End Sidecar.

(** ** Values of a row *)
Definition is_nanoseconds (unit_zone : string) : bool := String.prefix "ns" unit_zone.

Definition timestamp_value (a : Column) (row : nat) : DbResult Z :=
  match cell a row with
  | None => Err (InvalidInput "null aggregate timestamp")
  | c =>
      match ar_type a with
      | Timestamp u => if is_nanoseconds u then Ok (int_of c) else Err (InvalidInput "unsupported aggregate timestamp representation")
      | Int64 => Ok (int_of c)
      | _ => Err (InvalidInput "unsupported aggregate timestamp representation")
      end
  end.

Definition float_of (c : option Cell) : f64 := match c with Some (CFloat x) => x | _ => f64_zero end.
Definition f64_value (a : Column) (row : nat) : DbResult f64 :=
  match cell a row with
  | None => Err (InvalidInput "null aggregate numeric value")
  | c =>
      match ar_type a with
      | Float64 => Ok (float_of c)
      | Int64 =>
          let value := int_of c in
          let converted := f64_of_int value in
          if f64_as_i64 converted =? value then Ok converted
          else Err (InvalidInput "int64 aggregate volume is not exactly representable as float64")
      | _ => Err (InvalidInput "unsupported aggregate numeric representation")
      end
  end.

Definition string_value (a : Column) (row : nat) : DbResult string :=
  match cell a row with
  | None => Err (InvalidInput "null aggregate group")
  | c =>
      match ar_type a with
      | Utf8 | LargeUtf8 => Ok (match c with Some (CStr s) => s | _ => "" end)
      | _ => Err (InvalidInput "unsupported aggregate group representation")
      end
  end.

(** What a row contributes. *)
Record Sample := mkSample { sm_group : option string; sm_key : PointKey; sm_price : f64; sm_volume : f64 }.

(** The columns of a batch that a plan reads. *)
Record PlanColumns := mkPlanColumns {
  pc_timestamp : Column;
  pc_price : Column;
  pc_volume : Column;
  pc_group : option Column;
}.

(** ** The store *)
Record AggregateStateStore := mkAggregateStateStore { as_db : Database; as_mode : AggregateStateMode }.

Module AggregateStateStore.
Section AggregateStateStore.
Context `{Env} `{ArrowRows} `{SidecarKernels}.
Implicit Types (s : AggregateStateStore) (seg : SegmentMeta) (metrics : AggregateStateMetrics).

Definition new (db : Database) (mode : AggregateStateMode) : AggregateStateStore := mkAggregateStateStore db mode.

(** *** Building *)
Definition validated_column (b : RecordBatch) (name : string) : DbResult Column :=
  ok_or (column_by_name b name) (Internal "validated column").
Definition plan_columns (spec : FinanceAggregateSpec) (b : RecordBatch) : DbResult PlanColumns :=
  let? timestamp := validated_column b (fs_timestamp spec) in
  let? price := validated_column b (fs_price spec) in
  let? volume := validated_column b (fs_volume spec) in
  match fs_group_by spec with
  | Some name => let? group := validated_column b name in Ok (mkPlanColumns timestamp price volume (Some group))
  | None => Ok (mkPlanColumns timestamp price volume None)
  end.

Definition row_sample seg (c : PlanColumns) (row_offset : Z) (row : nat) : DbResult Sample :=
  let? timestamp := timestamp_value (pc_timestamp c) row in
  let? price := f64_value (pc_price c) row in
  let? volume := f64_value (pc_volume c) row in
  if negb (is_finite price && is_finite volume && is_finite (fmul price volume))
  then Err (InvalidInput "finance aggregate price and volume must be finite")
  else
    let? group := (match pc_group c with
                   | Some a => let? g := string_value a row in Ok (Some g)
                   | None => Ok None
                   end) in
    Ok (mkSample group (mkPointKey timestamp (sg_created_by_sequence seg) (sg_id seg) (row_offset + Z.of_nat row)) price volume).

Definition add_sample (groups : BTree (option string) GroupState) (x : Sample) : DbResult (BTree (option string) GroupState) :=
  match bget (sm_group x) groups with
  | Some state =>
      let '(state, finite) := GroupState.add state (sm_key x) (sm_price x) (sm_volume x) in
      if finite then Ok (binsert (sm_group x) state groups)
      else Err (InvalidInput "finance aggregate overflow while building state")
  | None => Ok (binsert (sm_group x) (GroupState.new (sm_group x) (sm_key x) (sm_price x) (sm_volume x)) groups)
  end.

Definition build_row seg (c : PlanColumns) (row_offset : Z) (groups : BTree (option string) GroupState) (row : nat) :
    DbResult (BTree (option string) GroupState) :=
  let? x := row_sample seg c row_offset row in add_sample groups x.
Definition build_batch seg (spec : FinanceAggregateSpec) (s : BTree (option string) GroupState * Z) (b : RecordBatch) :
    DbResult (BTree (option string) GroupState * Z) :=
  let '(groups, row_offset) := s in
  let? c := plan_columns spec b in
  let? groups := foldr_res (build_row seg c row_offset) groups (seq 0 (rb_rows b)) in
  Ok (groups, add_u64 row_offset (num_rows b)).

(** The state of a segment from its batches. *)
Definition build_entry seg (plan_hash : Digest) (spec : FinanceAggregateSpec) (batches : list RecordBatch) :
    DbResult AggregateStateEntry :=
  let? '(groups, row_offset) := foldr_res (build_batch seg spec) ([], 0) batches in
  if negb (row_offset =? sg_rows seg) then Err (Corruption (sg_path seg) "aggregate state source row mismatch")
  else
    Ok (mkAggregateStateEntry FORMAT (sg_checksum seg) (sg_schema_revision seg) plan_hash SEMANTICS_VERSION
          (sg_rows seg) (bvalues groups) "").

Definition projection (spec : FinanceAggregateSpec) : list string :=
  [fs_timestamp spec; fs_price spec; fs_volume spec] ++ match fs_group_by spec with Some group => [group] | None => [] end.
Definition build seg (plan_hash : Digest) (spec : FinanceAggregateSpec) : prog AggregateStateEntry :=
  let! batches := SegmentReader.read_segment seg (Some (projection spec)) None in
  lift (build_entry seg plan_hash spec batches).

(** *** Naming *)
Definition field_of (schema : Schema) (name : string) : DbResult Field := ok_or (field_with_name schema name) Arrow.
Definition time_type (t : DataType) : bool :=
  match t with Timestamp u => is_nanoseconds u | Int64 => true | _ => false end.
Definition volume_type (t : DataType) : bool := match t with Float64 | Int64 => true | _ => false end.
Definition group_type (schema : Schema) (spec : FinanceAggregateSpec) : DbResult string :=
  match fs_group_by spec with
  | Some group =>
      let? field := field_of schema group in
      if fd_nullable field || negb (match fd_type field with Utf8 | LargeUtf8 => true | _ => false end)
      then Err (InvalidInput "finance aggregate group must be a non-null string")
      else Ok (debug_type (fd_type field))
  | None => Ok "none"
  end.
Definition validate_and_hash (resolved : ResolvedTable) (spec : FinanceAggregateSpec) : DbResult Digest :=
  let schema := rt_schema resolved in
  let? timestamp := field_of schema (fs_timestamp spec) in
  let? price := field_of schema (fs_price spec) in
  let? volume := field_of schema (fs_volume spec) in
  if fd_nullable timestamp || fd_nullable price || fd_nullable volume
  then Err (InvalidInput "finance aggregate columns must be non-null")
  else if negb (time_type (fd_type timestamp)) || negb (bool_decide (fd_type price = Float64)) || negb (volume_type (fd_type volume))
  then Err (InvalidInput "finance aggregate requires timestamp/int64 time, float64 price, and float64/int64 volume")
  else
    let? group := group_type schema spec in
    let? canonical := ok_or (plan_to_vec (SEMANTICS_VERSION, (fs_timestamp spec, debug_type (fd_type timestamp)),
      (fs_price spec, debug_type (fd_type price)), (fs_volume spec, debug_type (fd_type volume)), (fs_group_by spec, group))) SerdeJson in
    Ok (blake3_hex canonical).

Definition state_key seg (plan_hash : Digest) : string :=
  sg_id seg +:+ ":" +:+ show_int (sg_created_by_sequence seg) +:+ ":" +:+ sg_checksum seg +:+ ":" +:+
  show_int (sg_schema_revision seg) +:+ ":" +:+ plan_hash +:+ ":" +:+ show_int SEMANTICS_VERSION.
Definition state_path seg (plan_hash : Digest) : Path :=
  let digest := blake3_hex (state_key seg plan_hash) in
  PREFIX ++ [String.substring 0 2 digest; json digest].

(** *** Reading a sidecar back *)

(** Bytes that parse and verify for the segment. *)
Definition parse_state (o : Obj) seg (plan_hash : Digest) : option AggregateStateEntry :=
  match SegmentReader.content_of o with
  | None => None
  | Some bytes =>
      match entry_from_slice bytes with
      | None => None
      | Some entry => match AggregateStateEntry.verify entry seg plan_hash with Ok _ => Some entry | Err _ => None end
      end
  end.

Definition load s (path : Path) seg (plan_hash : Digest) metrics : prog (option AggregateStateEntry * AggregateStateMetrics) :=
  let! found := attempt (Backend.get_opt path) in
  match found with
  | Ok (Some o) =>
      match parse_state o seg plan_hash with
      | Some entry => ret (Some entry, metrics)
      | None =>
          let metrics := metrics <| am_corrupt_entries := add_u64 (am_corrupt_entries metrics) 1 |> in
          if bool_decide (as_mode s = ReadWrite)
          then let! _dropped := attempt (Backend.delete path) in ret (None, metrics)
          else ret (None, metrics)
      end
  | _ => ret (None, metrics)
  end.

(** *** Publishing a built state *)
Definition publish s (path : Path) (state : AggregateStateEntry) metrics : prog (AggregateStateEntry * AggregateStateMetrics) :=
  if negb (bool_decide (as_mode s = ReadWrite)) then ret (state, metrics)
  else
    let '(state, sealed) := AggregateStateEntry.seal state in
    match sealed, entry_to_vec state with
    | Ok _, Some bytes =>
        let! put := attempt (Backend.put_if_absent path (ORaw bytes)) in
        match put with
        | Ok true =>
            let! evicted := attempt (Sidecar.enforce_budget PREFIX MAX_CACHE_BYTES) in
            let n := match evicted with Ok n => n | Err _ => 0 end in
            ret (state, metrics <| am_evictions := add_u64 (am_evictions metrics) n |>)
        | _ => ret (state, metrics)
        end
    | _, _ => ret (state, metrics)
    end.

(** *** The rollup *)
Definition count_build seg metrics : AggregateStateMetrics :=
  metrics <| am_states_built := add_u64 (am_states_built metrics) 1 |>
          <| am_segments_scanned := add_u64 (am_segments_scanned metrics) 1 |>
          <| am_rows_scanned := add_u64 (am_rows_scanned metrics) (sg_rows seg) |>
          <| am_bytes_scheduled := add_u64 (am_bytes_scheduled metrics) (sg_bytes seg) |>.

(** The state of one segment: reused, or built and published. *)
Definition segment_state s (plan_hash : Digest) (spec : FinanceAggregateSpec) seg metrics :
    prog (AggregateStateEntry * AggregateStateMetrics) :=
  let path := state_path seg plan_hash in
  let! '(state, metrics) := (if negb (bool_decide (as_mode s = Disabled))
                             then load s path seg plan_hash metrics else ret (None, metrics)) in
  match state with
  | Some state => ret (state, metrics <| am_states_reused := add_u64 (am_states_reused metrics) 1 |>)
  | None => let! state := build seg plan_hash spec in publish s path state (count_build seg metrics)
  end.

Definition merge_group (merged : BTree (option string) GroupState) (group : GroupState) :
    DbResult (BTree (option string) GroupState) :=
  match bget (gs_group group) merged with
  | Some current =>
      let '(current, finite) := GroupState.merge current group in
      if finite then Ok (binsert (gs_group group) current merged)
      else Err (InvalidInput "finance aggregate overflow while merging states")
  | None => Ok (binsert (gs_group group) group merged)
  end.

Definition rollup_segment s (plan_hash : Digest) (spec : FinanceAggregateSpec)
    (acc : BTree (option string) GroupState * AggregateStateMetrics) seg :
    prog (BTree (option string) GroupState * AggregateStateMetrics) :=
  let '(merged, metrics) := acc in
  let! '(state, metrics) := segment_state s plan_hash spec seg metrics in
  let! merged := lift (foldr_res merge_group merged (ae_groups state)) in
  ret (merged, metrics).

Definition finance_rollup s (table : string) (at_ : ReadAt) (spec : FinanceAggregateSpec) : prog FinanceAggregateResult :=
  let! resolved := Database.resolve (as_db s) table at_ in
  let! plan_hash := lift (validate_and_hash resolved spec) in
  let segments := mf_segments (rt_manifest resolved) in
  let metrics := AggregateStateMetrics_default <| am_states_requested := zlen segments |> in
  let! '(merged, metrics) := fold_prog (rollup_segment s plan_hash spec) ([], metrics) segments in
  ret (mkFinanceAggregateResult (ce_name (rt_entry resolved)) (mf_sequence (rt_manifest resolved))
         (map GroupState.finish (bvalues merged)) metrics).
End AggregateStateStore.
End AggregateStateStore.
