(* ===== verification/RollupProps.v ===== *)
(** * What a rollup returns

    The states of a rollup are summaries of the rows they were made from: [summary] says what
    one group holds, [summarised] what a map of groups does.  Adding a row, merging two states
    and settling one keep it, so a rollup is the summary of all rows of the version, whichever
    states it built and whichever it read back ([rollup_is_of_all_rows]).  Sidecars stay
    honest and nothing else is touched ([rollup_keeps_to_its_cache]); a state that was
    published verifies and is reused ([warm_rollup_equals_cold]); volumes that are integers
    are summed exactly ([whole_volumes_are_exact]). *)
From S2P Require Export Rollup RetentionProps.
#[local] Open Scope Z_scope.

(** ** A group is the summary of its rows *)
Section Extremes.
Implicit Types (S T : list Sample) (x : Sample) (k : PointKey) (p : f64).

Definition opens S k p : Prop :=
  exists o, In o S /\ k = sm_key o /\ p = sm_price o /\ forall x, In x S -> kle k (sm_key x).
Definition closes S k p : Prop :=
  exists c, In c S /\ k = sm_key c /\ p = sm_price c /\ forall x, In x S -> kle (sm_key x) k.
Definition tops S p : Prop := exists h, In h S /\ p = sm_price h /\ forall x, In x S -> f64_le (sm_price x) p.
Definition bottoms S p : Prop := exists l, In l S /\ p = sm_price l /\ forall x, In x S -> f64_le p (sm_price x).

Definition finite_sample x : Prop :=
  is_finite (sm_price x) = true /\ is_finite (sm_volume x) = true /\ is_finite (fmul (sm_price x) (sm_volume x)) = true.

Lemma kltb_false {K} `{OrdKey K} (a b : K) : kltb a b = false -> kle b a.
Proof. intros E. destruct (kle_total b a) as [?|Hlt]; [done|]. apply kltb_spec in Hlt. congruence. Qed.

Lemma opens_app S T k p k' p' : opens S k p -> opens T k' p' ->
  opens (S ++ T) (if kltb k' k then k' else k) (if kltb k' k then p' else p).
Proof.
  intros (o & Ho & -> & -> & Hm) (o' & Ho' & -> & -> & Hm'). destruct (kltb _ _) eqn:E.
  - apply kltb_spec in E. exists o'. repeat split; [by apply in_or_app; right|]. intros x [Hx|Hx]%in_app_or; [|by apply Hm'].
    eapply kle_trans; [by apply klt_kle|by apply Hm].
  - apply kltb_false in E. exists o. repeat split; [by apply in_or_app; left|]. intros x [Hx|Hx]%in_app_or; [by apply Hm|].
    eapply kle_trans; [done|by apply Hm'].
Qed.
Lemma closes_app S T k p k' p' : closes S k p -> closes T k' p' ->
  closes (S ++ T) (if kltb k k' then k' else k) (if kltb k k' then p' else p).
Proof.
  intros (o & Ho & -> & -> & Hm) (o' & Ho' & -> & -> & Hm'). destruct (kltb _ _) eqn:E.
  - apply kltb_spec in E. exists o'. repeat split; [by apply in_or_app; right|]. intros x [Hx|Hx]%in_app_or; [|by apply Hm'].
    eapply kle_trans; [by apply Hm|by apply klt_kle].
  - apply kltb_false in E. exists o. repeat split; [by apply in_or_app; left|]. intros x [Hx|Hx]%in_app_or; [by apply Hm|].
    eapply kle_trans; [by apply Hm'|done].
Qed.

Lemma tops_app S T p p' : Forall finite_sample S -> Forall finite_sample T -> tops S p -> tops T p' -> tops (S ++ T) (fmax p p').
Proof.
  rewrite !List.Forall_forall. intros HS HT (h & Hh & -> & Hm) (h' & Hh' & -> & Hm').
  destruct (fmax_spec (sm_price h) (sm_price h')) as (Hc & Hl & Hr); [by apply HS|by apply HT|].
  destruct Hc as [E|E]; [exists h|exists h']; rewrite E in *; (split; [by apply in_or_app; auto|]); (split; [done|]).
  all: intros x [Hx|Hx]%in_app_or; etransitivity; [by apply Hm|done|by apply Hm'|done].
Qed.
Lemma bottoms_app S T p p' : Forall finite_sample S -> Forall finite_sample T -> bottoms S p -> bottoms T p' ->
  bottoms (S ++ T) (fmin p p').
Proof.
  rewrite !List.Forall_forall. intros HS HT (h & Hh & -> & Hm) (h' & Hh' & -> & Hm').
  destruct (fmin_spec (sm_price h) (sm_price h')) as (Hc & Hl & Hr); [by apply HS|by apply HT|].
  destruct Hc as [E|E]; [exists h|exists h']; rewrite E in *; (split; [by apply in_or_app; auto|]); (split; [done|]).
  all: intros x [Hx|Hx]%in_app_or; (etransitivity; [|first [by apply Hm|by apply Hm']]); done.
Qed.
End Extremes.

(** Volumes that are integers, with a sum that 53 bits hold. *)
Definition whole (v : Sample -> Z) (S : list Sample) : Prop :=
  (forall x, In x S -> sm_volume x = f64_of_int (v x)) /\ zsum (map (fun x => Z.abs (v x)) S) < 2 ^ 53.
Definition sum_of (v : Sample -> Z) (S : list Sample) : Z := zsum (map v S).

Lemma sum_of_app v S T : sum_of v (S ++ T) = sum_of v S + sum_of v T.
Proof. unfold sum_of. by rewrite List.map_app, zsum_app. Qed.
Lemma sum_of_abs v S : Z.abs (sum_of v S) <= sum_of (fun x => Z.abs (v x)) S.
Proof. unfold sum_of. induction S as [|x S IH]; cbn [map]; rewrite ?zsum_cons; [done|]. lia. Qed.
Lemma whole_app v S T : whole v (S ++ T) -> whole v S /\ whole v T.
Proof.
  unfold whole. rewrite List.map_app, zsum_app. intros [Hv Hs].
  pose proof (sum_of_abs v S) as HS. pose proof (sum_of_abs v T) as HT. unfold sum_of in HS, HT.
  split; (split; [intros x Hx; apply Hv, in_or_app; auto|lia]).
Qed.

(** A compensated sum of integers never needs its compensation. *)
Lemma neumaier_int a b : Z.abs a < 2 ^ 53 -> Z.abs b < 2 ^ 53 -> Z.abs (a + b) < 2 ^ 53 ->
  neumaier_add (f64_of_int a, f64_zero) (f64_of_int b) = (f64_of_int (a + b), f64_zero).
Proof.
  intros Ha Hb Hab. unfold neumaier_add. rewrite fadd_int by done.
  rewrite (fsub_int a (a + b)), (fsub_int b (a + b)) by lia.
  replace (a - (a + b)) with (- b) by lia. replace (b - (a + b)) with (- a) by lia.
  rewrite (fadd_int (- b) b), (fadd_int (- a) a) by lia. rewrite !Z.add_opp_diag_l.
  by destruct (SFleb _ _).
Qed.

Record summary (S : list Sample) (g : GroupState) : Prop := {
  sy_rows : gs_rows g = zlen S mod 2 ^ 64;
  sy_open : opens S (gs_open_key g) (gs_open g);
  sy_close : closes S (gs_close_key g) (gs_close g);
  sy_high : tops S (gs_high g);
  sy_low : bottoms S (gs_low g);
  sy_volume : forall v, whole v S -> gs_volume g = f64_of_int (sum_of v S) /\ gs_c_volume g = f64_zero;
  sy_finite : is_finite (fadd (gs_volume g) (gs_c_volume g)) = true /\
              is_finite (fadd (gs_price_volume g) (gs_c_price_volume g)) = true;
}.

Lemma fadd_zero x : is_finite x = true -> is_finite (fadd x f64_zero) = true.
Proof. by destruct x as [[]| | |]. Qed.
Lemma whole_sum v S : whole v S -> Z.abs (sum_of v S) < 2 ^ 53.
Proof. intros [_ Hs]. pose proof (sum_of_abs v S). unfold sum_of in *. lia. Qed.

Lemma summary_new x : finite_sample x -> summary [x] (GroupState.new (sm_group x) (sm_key x) (sm_price x) (sm_volume x)).
Proof.
  intros (Hp & Hv & Hpv). split; cbn.
  - done.
  - exists x. repeat split; [by left|]. intros y [<-|[]]. apply kle_refl.
  - exists x. repeat split; [by left|]. intros y [<-|[]]. apply kle_refl.
  - exists x. repeat split; [by left|]. by intros y [<-|[]].
  - exists x. repeat split; [by left|]. by intros y [<-|[]].
  - intros v [Hw _]. unfold sum_of. cbn. rewrite Z.add_0_r. split; [|done]. apply Hw. by left.
  - split; by apply fadd_zero.
Qed.

(** One more summary of rows: [add] takes that of a row, [merge] that of a state. *)
Lemma summary_note S T g rows ok o ck c hi lo vol pv :
  let g' := GroupState.note_volume vol pv (GroupState.note_range hi lo
              (GroupState.note_close ck c (GroupState.note_open ok o (g <| gs_rows := rows |>)))) in
  Forall finite_sample S -> Forall finite_sample T -> summary S g -> rows = (gs_rows g + zlen T) mod 2 ^ 64 ->
  opens T ok o -> closes T ck c -> tops T hi -> bottoms T lo ->
  (forall v, whole v T -> vol = f64_of_int (sum_of v T)) -> GroupState.sums_finite g' = true ->
  summary (S ++ T) g'.
Proof.
  intros g' HS HT [Hr Ho Hc Hh Hl Hv _] -> To Tc Th Tl Tv Hf.
  assert (Hfields : gs_rows g' = (gs_rows g + zlen T) mod 2 ^ 64 /\
    gs_open_key g' = (if kltb ok (gs_open_key g) then ok else gs_open_key g) /\
    gs_open g' = (if kltb ok (gs_open_key g) then o else gs_open g) /\
    gs_close_key g' = (if kltb (gs_close_key g) ck then ck else gs_close_key g) /\
    gs_close g' = (if kltb (gs_close_key g) ck then c else gs_close g) /\
    gs_high g' = fmax (gs_high g) hi /\ gs_low g' = fmin (gs_low g) lo /\
    (gs_volume g', gs_c_volume g') = neumaier_add (gs_volume g, gs_c_volume g) vol).
  { subst g'. destruct g. unfold GroupState.note_volume, GroupState.note_range, GroupState.note_close, GroupState.note_open.
    cbn. destruct (kltb ok _); cbn; destruct (kltb _ ck); cbn; repeat split. }
  clearbody g'. destruct Hfields as (E1 & E2 & E3 & E4 & E5 & E6 & E7 & E8). split.
  - rewrite E1, Hr. unfold zlen. rewrite Z.add_mod_idemp_l by done. f_equal. rewrite length_app. lia.
  - rewrite E2, E3. by apply opens_app.
  - rewrite E4, E5. by apply closes_app.
  - rewrite E6. by apply tops_app.
  - rewrite E7. by apply bottoms_app.
  - intros v Hw. destruct (whole_app _ _ _ Hw) as [HwS HwT]. destruct (Hv v HwS) as [Ev Ec].
    rewrite (Tv v HwT), Ev, Ec, neumaier_int in E8; [by injection E8 as -> ->; rewrite sum_of_app|by apply whole_sum..|].
    rewrite <- sum_of_app. by apply whole_sum.
  - by apply andb_true_iff in Hf.
Qed.

Lemma zlen_one {A} (x : A) : zlen [x] = 1.
Proof. done. Qed.

Lemma summary_add S g x g' : Forall finite_sample S -> finite_sample x -> summary S g ->
  GroupState.add g (sm_key x) (sm_price x) (sm_volume x) = (g', true) -> summary (S ++ [x]) g'.
Proof.
  intros HS Hx Hg. unfold GroupState.add. intros [= <- Hf]. apply summary_note; try done; [by constructor|..].
  - exists x. repeat split; [by left|]. intros y [<-|[]]. apply kle_refl.
  - exists x. repeat split; [by left|]. intros y [<-|[]]. apply kle_refl.
  - exists x. repeat split; [by left|]. by intros y [<-|[]].
  - exists x. repeat split; [by left|]. by intros y [<-|[]].
  - intros v [Hw _]. unfold sum_of. cbn. rewrite Z.add_0_r. apply Hw. by left.
Qed.

Lemma summary_merge S T g h g' : Forall finite_sample S -> Forall finite_sample T -> summary S g -> summary T h ->
  GroupState.merge g h = (g', true) -> summary (S ++ T) g'.
Proof.
  intros HS HT Hg [Hr Ho Hc Hh Hl Hv _]. unfold GroupState.merge. intros [= <- Hf]. apply summary_note; try done.
  - unfold add_u64. by rewrite Hr, Z.add_mod_idemp_r.
  - intros v Hw. destruct (Hv v Hw) as [-> ->]. change f64_zero with (f64_of_int 0).
    rewrite fadd_int; rewrite ?Z.add_0_r; [done|by apply whole_sum|done|by apply whole_sum].
Qed.

Lemma summary_settle S g : summary S g -> summary S (GroupState.settle g).
Proof.
  intros [Hr Ho Hc Hh Hl Hv [Hf1 Hf2]]. split; try done.
  - intros v Hw. destruct (Hv v Hw) as [Ev Ec]. cbn. rewrite Ev, Ec. split; [|done]. change f64_zero with (f64_of_int 0).
    rewrite fadd_int; rewrite ?Z.add_0_r; [done|by apply whole_sum|done|by apply whole_sum].
  - split; by apply fadd_zero.
Qed.

(** ** A map of groups is the summary of its rows, group by group *)
Definition of_group (k : option string) (S : list Sample) : list Sample := List.filter (fun x => bool_decide (sm_group x = k)) S.
Definition summarised (S : list Sample) (m : BTree (option string) GroupState) : Prop :=
  bwf m /\ forall k, match bget k m with
                     | Some g => gs_group g = k /\ summary (of_group k S) g
                     | None => of_group k S = []
                     end.

Lemma of_group_app k S T : of_group k (S ++ T) = of_group k S ++ of_group k T.
Proof. apply List.filter_app. Qed.
Lemma of_group_finite k S : Forall finite_sample S -> Forall finite_sample (of_group k S).
Proof. rewrite !List.Forall_forall. intros HS x [Hx _]%filter_In. by apply HS. Qed.
Lemma summarised_nil : summarised [] [].
Proof. split; [constructor|done]. Qed.

Lemma note_group vol pv hi lo ck c ok o g :
  gs_group (GroupState.note_volume vol pv (GroupState.note_range hi lo (GroupState.note_close ck c (GroupState.note_open ok o g)))) = gs_group g.
Proof.
  unfold GroupState.note_volume, GroupState.note_range, GroupState.note_close, GroupState.note_open.
  destruct g. cbn. destruct (kltb ok _); cbn; by destruct (kltb _ ck).
Qed.
Lemma add_group g key price volume g' b : GroupState.add g key price volume = (g', b) -> gs_group g' = gs_group g.
Proof. intros E. apply (f_equal fst) in E. unfold GroupState.add in E. cbn [fst] in E. rewrite <- E. by rewrite note_group. Qed.
Lemma merge_group_of g h g' b : GroupState.merge g h = (g', b) -> gs_group g' = gs_group g.
Proof. intros E. apply (f_equal fst) in E. unfold GroupState.merge in E. cbn [fst] in E. rewrite <- E. by rewrite note_group. Qed.

Section Groups.
Context `{Env} `{ArrowRows} `{SidecarKernels}.

Lemma summarised_add S m x m' : Forall finite_sample S -> finite_sample x -> summarised S m ->
  AggregateStateStore.add_sample m x = Ok m' -> summarised (S ++ [x]) m'.
Proof.
  intros HS Hx [Hw Hm] Ha. unfold AggregateStateStore.add_sample in Ha. pose proof (Hm (sm_group x)) as Hk.
  assert (Hnew : exists g, gs_group g = sm_group x /\ summary (of_group (sm_group x) (S ++ [x])) g /\ m' = binsert (sm_group x) g m).
  { rewrite of_group_app. unfold of_group at 2. cbn. rewrite bool_decide_true by done.
    destruct (bget (sm_group x) m) as [g|] eqn:Eg.
    - destruct Hk as [Hg Hs]. destruct (GroupState.add _ _ _ _) as [g' b] eqn:Ea. destruct b; [|done]. injection Ha as <-.
      exists g'. split; [by rewrite (add_group _ _ _ _ _ _ Ea)|]. split; [|done]. eapply summary_add; [by apply of_group_finite|done|exact Hs|exact Ea].
    - injection Ha as <-. rewrite Hk. eexists. split; [|split; [by apply summary_new|done]]. done. }
  destruct Hnew as (g & Hg & Hs & ->). split; [by apply bwf_insert|]. intros k. rewrite bget_insert. destruct (keqb k (sm_group x)) eqn:Ek.
  - apply keqb_eq in Ek as ->. done.
  - apply keqb_neq in Ek. specialize (Hm k). rewrite of_group_app. unfold of_group at 2 4. cbn. rewrite bool_decide_false by congruence.
    by rewrite app_nil_r.
Qed.
(** Merging the groups of a state into a map, group by group. *)
Lemma merge_groups_get l m m' : NoDup (bkeys l) -> Forall (fun e => gs_group e.2 = e.1) l -> bwf m ->
  foldr_res AggregateStateStore.merge_group m (bvalues l) = Ok m' ->
  bwf m' /\ forall k, match bget k l with
                     | Some h => match bget k m with
                                 | Some c => exists g, GroupState.merge c h = (g, true) /\ bget k m' = Some g
                                 | None => bget k m' = Some h
                                 end
                     | None => bget k m' = bget k m
                     end.
Proof.
  revert m. induction l as [|[j h] l IH]; intros m Hn Hg Hw; cbn; [by intros [= <-]|].
  apply NoDup_cons in Hn as [Hj Hn]. apply Forall_cons in Hg as [Hh Hg]. cbn in Hh.
  destruct (AggregateStateStore.merge_group m h) as [m1|] eqn:E1; [|done]. intros Hf.
  assert (Hone : exists g1, m1 = binsert j g1 m /\
    match bget j m with Some c => GroupState.merge c h = (g1, true) | None => g1 = h end).
  { unfold AggregateStateStore.merge_group in E1. rewrite Hh in E1. destruct (bget j m) as [c|].
    - destruct (GroupState.merge c h) as [g1 [|]] eqn:Em; [|done]. injection E1 as <-. by exists g1.
    - injection E1 as <-. by exists h. }
  destruct Hone as (g1 & -> & Hone). destruct (IH (binsert j g1 m) Hn Hg (bwf_insert _ _ _ Hw) Hf) as [Hw' Hk]. split; [done|].
  intros k. specialize (Hk k). rewrite bget_insert in Hk. destruct (keqb k j) eqn:Ek; [|done].
  apply keqb_eq in Ek as ->. rewrite (proj2 (bget_None_keys j l)) in Hk by by rewrite <- list_elem_of_In.
  rewrite Hk. destruct (bget j m) as [c|]; [by exists g1|by subst].
Qed.

Lemma summarised_values T groups : summarised T groups -> NoDup (bkeys groups) /\ Forall (fun e => gs_group e.2 = e.1) groups.
Proof.
  intros [Hw Hm]. split; [by apply bwf_NoDup|]. apply List.Forall_forall. intros [k g] Hin. cbn.
  specialize (Hm k). rewrite (bwf_In_get _ _ _ Hw Hin) in Hm. by destruct Hm.
Qed.

Lemma summarised_merge S T m groups m' : Forall finite_sample S -> Forall finite_sample T ->
  summarised S m -> summarised T groups ->
  foldr_res AggregateStateStore.merge_group m (bvalues groups) = Ok m' -> summarised (S ++ T) m'.
Proof.
  intros HS HT HmS HmT Hf. destruct (summarised_values _ _ HmT) as [Hn Hg].
  destruct (merge_groups_get groups m m' Hn Hg (proj1 HmS) Hf) as [Hw Hk]. split; [done|]. intros k.
  specialize (Hk k). destruct HmS as [_ HmS], HmT as [_ HmT]. specialize (HmS k). specialize (HmT k). rewrite of_group_app.
  destruct (bget k groups) as [h|], (bget k m) as [c|].
  - destruct Hk as (g & Hgm & ->). destruct HmS as [Hgc Hsc], HmT as [Hgh Hsh]. rewrite (merge_group_of _ _ _ _ Hgm). split; [done|].
    eapply summary_merge; [by apply of_group_finite..|exact Hsc|exact Hsh|exact Hgm].
  - rewrite Hk, HmS. done.
  - rewrite Hk, HmT, app_nil_r. done.
  - rewrite Hk, HmS, HmT. done.
Qed.

(** What a state of a segment says of the rows it was made from. *)
Definition entry_of (S : list Sample) (e : AggregateStateEntry) : Prop :=
  Forall finite_sample S /\ exists groups, summarised S groups /\ ae_groups e = bvalues groups.

Lemma summarised_settle S m : summarised S m -> summarised S (map (fun e => (e.1, GroupState.settle e.2)) m).
Proof.
  intros [Hw Hm]. assert (Ek : forall m : BTree (option string) GroupState, bkeys (map (fun e => (e.1, GroupState.settle e.2)) m) = bkeys m).
  { intros m0. unfold bkeys. rewrite List.map_map. done. }
  split; [by unfold bwf; rewrite Ek|]. intros k. specialize (Hm k).
  assert (Eg : bget k (map (fun e => (e.1, GroupState.settle e.2)) m) = GroupState.settle <$> bget k m).
  { clear. induction m as [|[j g] m IH]; cbn; [done|]. by destruct (keqb k j). }
  rewrite Eg. destruct (bget k m) as [g|]; [|done]. destruct Hm as [Hg Hs]. split; [|by apply summary_settle]. by destruct g.
Qed.

Lemma seal_groups e e' r : AggregateStateEntry.seal e = (e', r) -> ae_groups e' = map GroupState.settle (ae_groups e).
Proof.
  unfold AggregateStateEntry.seal. destruct (AggregateStateEntry.digest _); intros E; apply (f_equal fst) in E; cbn [fst] in E; by rewrite <- E.
Qed.
Lemma entry_of_seal S e e' r : entry_of S e -> AggregateStateEntry.seal e = (e', r) -> entry_of S e'.
Proof.
  intros (HS & groups & Hs & He) E. split; [done|]. eexists. split; [by apply summarised_settle|].
  rewrite (seal_groups _ _ _ E), He. unfold bvalues. by rewrite !List.map_map.
Qed.

(** ** The rows of a segment *)

(** The rows of batches one after the other: the reference the states are compared with. *)
Fixpoint samples_from (seg : SegmentMeta) (spec : FinanceAggregateSpec) (row_offset : Z) (bs : list RecordBatch) : DbResult (list Sample) :=
  match bs with
  | [] => Ok []
  | b :: bs' =>
      let? c := AggregateStateStore.plan_columns spec b in
      let? here := map_res (AggregateStateStore.row_sample seg c row_offset) (seq 0 (rb_rows b)) in
      let? rest := samples_from seg spec (add_u64 row_offset (num_rows b)) bs' in
      Ok (here ++ rest)
  end.

Definition segment_batches (m : gmap Path File) (spec : FinanceAggregateSpec) (seg : SegmentMeta) : DbResult (list RecordBatch) :=
  match m !! sg_path seg with
  | None => Err Parquet
  | Some f =>
      let? content := ok_or (SegmentReader.content_of (fl_obj f)) Parquet in
      SegmentReader.decode content (Some (AggregateStateStore.projection spec)) None
  end.
Definition segment_samples (m : gmap Path File) (spec : FinanceAggregateSpec) (seg : SegmentMeta) : DbResult (list Sample) :=
  let? bs := segment_batches m spec seg in samples_from seg spec 0 bs.

(** A sample has the key of its segment. *)
Definition keyed_by (seg : SegmentMeta) (x : Sample) : Prop :=
  pk_segment (sm_key x) = sg_id seg /\ pk_created_by_sequence (sm_key x) = sg_created_by_sequence seg.

Lemma row_sample_spec seg c off row x : AggregateStateStore.row_sample seg c off row = Ok x -> finite_sample x /\ keyed_by seg x.
Proof.
  unfold AggregateStateStore.row_sample. destruct (timestamp_value _ _) as [t|]; [|done]. cbn.
  destruct (f64_value (pc_price c) row) as [p|]; [|done]. cbn. destruct (f64_value (pc_volume c) row) as [v|]; [|done]. cbn.
  destruct (negb _) eqn:Ef; [done|]. apply negb_false_iff, andb_true_iff in Ef as [[Hp Hv]%andb_true_iff Hpv].
  destruct (match pc_group c with Some a => _ | None => _ end) as [g|]; [|done]. cbn. by intros [= <-].
Qed.

Lemma build_rows S m seg c off rows m' : Forall finite_sample S -> summarised S m ->
  foldr_res (AggregateStateStore.build_row seg c off) m rows = Ok m' ->
  exists T, map_res (AggregateStateStore.row_sample seg c off) rows = Ok T /\ Forall finite_sample T /\ Forall (keyed_by seg) T /\
    summarised (S ++ T) m'.
Proof.
  revert S m. induction rows as [|r rows IH]; intros S m HS Hm; cbn.
  - intros [= <-]. exists []. by rewrite app_nil_r.
  - unfold AggregateStateStore.build_row at 1. destruct (AggregateStateStore.row_sample seg c off r) as [x|] eqn:Ex; [|done]. cbn.
    destruct (row_sample_spec _ _ _ _ _ Ex) as [Hx Hk].
    destruct (AggregateStateStore.add_sample m x) as [m1|] eqn:E1; [|done]. intros Hf.
    destruct (IH (S ++ [x]) m1) as (T & -> & HT & HkT & Hs); [apply Forall_app; split; [done|by constructor]|by eapply summarised_add|done|].
    exists (x :: T). split; [done|]. split; [by constructor|]. split; [by constructor|]. by rewrite <- app_assoc in Hs.
Qed.

Lemma build_batches S m off seg spec bs m' off' : Forall finite_sample S -> summarised S m -> 0 <= off < 2 ^ 64 ->
  foldr_res (AggregateStateStore.build_batch seg spec) (m, off) bs = Ok (m', off') ->
  exists T, samples_from seg spec off bs = Ok T /\ Forall finite_sample T /\ Forall (keyed_by seg) T /\
    summarised (S ++ T) m' /\ off' = (off + zlen T) mod 2 ^ 64.
Proof.
  revert S m off. induction bs as [|b bs IH]; intros S m off HS Hm Ho; cbn.
  - intros [= <- <-]. exists []. rewrite app_nil_r. do 4 (split; [done|]). change (zlen (@nil Sample)) with 0. by rewrite Z.add_0_r, Z.mod_small.
  - destruct (AggregateStateStore.plan_columns spec b) as [c|] eqn:Ec; [|done]. cbn.
    destruct (foldr_res _ m (seq 0 (rb_rows b))) as [m1|] eqn:E1; [|done]. intros Hf.
    destruct (build_rows S m seg c off _ m1 HS Hm E1) as (T & Ht & HT & HkT & Hs). rewrite Ht. cbn.
    assert (Hl : num_rows b = zlen T).
    { apply map_res_Forall2, Forall2_length in Ht. rewrite length_seq in Ht. unfold zlen, num_rows. by rewrite <- Ht. }
    destruct (IH (S ++ T) m1 (add_u64 off (num_rows b))) as (T' & -> & HT' & HkT' & Hs' & Ho'); [by apply Forall_app|done| |done|].
    { unfold add_u64. by apply Z.mod_pos_bound. }
    exists (T ++ T'). rewrite app_assoc. split; [done|]. split; [by apply Forall_app|]. split; [by apply Forall_app|]. split; [done|].
    rewrite Ho', Hl. unfold add_u64, zlen. rewrite Z.add_mod_idemp_l, length_app by done. f_equal. lia.
Qed.

(** Building a state is summarising the rows of the segment. *)
Lemma build_entry_spec seg plan_hash spec bs e : AggregateStateStore.build_entry seg plan_hash spec bs = Ok e ->
  exists S, samples_from seg spec 0 bs = Ok S /\ entry_of S e /\ Forall (keyed_by seg) S /\
    AggregateStateEntry.key_matches e seg plan_hash = true /\ sg_rows seg = zlen S mod 2 ^ 64.
Proof.
  unfold AggregateStateStore.build_entry. destruct (foldr_res _ _ bs) as [[m off]|] eqn:E; [|done]. cbn.
  destruct (Z.eqb_spec off (sg_rows seg)) as [Hr|]; [|done]. cbn. intros [= <-].
  destruct (build_batches [] [] 0 seg spec bs m off) as (T & Ht & HT & Hk & Hs & Ho); [done|apply summarised_nil|done|done|].
  exists T. split; [done|]. split; [split; [done|by exists m]|]. split; [done|]. split; [|by rewrite <- Hr].
  unfold AggregateStateEntry.key_matches. cbn. by rewrite !String.eqb_refl, !Z.eqb_refl.
Qed.
End Groups.

(** ** Where sidecars are *)
Fixpoint colon_free (s : string) : bool :=
  match s with EmptyString => true | String c s => negb (Ascii.eqb c ":") && colon_free s end.

Lemma colon_split a b x y : colon_free a = true -> colon_free b = true ->
  a +:+ ":" +:+ x = b +:+ ":" +:+ y -> a = b /\ x = y.
Proof.
  revert b. induction a as [|c a IH]; intros [|c' b]; cbn.
  - intros _ _ E. injection E as E. by split; [|exact E].
  - intros _ Hb E. injection E as <- _. done.
  - intros Ha _ E. injection E as -> _. done.
  - intros [_ Ha]%andb_true_iff [_ Hb]%andb_true_iff E. injection E as -> E. by destruct (IH b Ha Hb E) as [-> ->].
Qed.

Lemma digits_colon_free fuel n acc : 0 <= n -> colon_free acc = true -> colon_free (show_digits fuel n acc) = true.
Proof.
  revert n acc. induction fuel as [|fuel IH]; intros n acc Hn Ha; cbn [show_digits]; [done|].
  pose proof (Z.mod_pos_bound n 10 ltac:(lia)) as Hd.
  assert (Hc : colon_free (String (digit (n mod 10)) acc) = true).
  { cbn [colon_free]. rewrite Ha, andb_true_r. apply negb_true_iff, Ascii.eqb_neq. intros E.
    apply (f_equal digit_value) in E. rewrite digit_value_digit in E by done. change (digit_value ":"%char) with 10 in E. lia. }
  destruct (n <? 10); [done|]. apply IH; [by apply Z.div_pos|done].
Qed.
Lemma show_int_inj a b : 0 <= a -> 0 <= b -> show_int a = show_int b -> a = b.
Proof.
  intros Ha Hb. unfold show_int. destruct (Z.ltb_spec a 0); [lia|]. destruct (Z.ltb_spec b 0); [lia|]. intros E.
  apply (f_equal (fun s => parse_digits (Z.max a b) s 0)) in E. unfold show_nat in E.
  rewrite !parse_show_digits in E by lia. cbn in E. by injection E.
Qed.
Lemma show_int_colon_free a : 0 <= a -> colon_free (show_int a) = true.
Proof. intros Ha. unfold show_int. destruct (Z.ltb_spec a 0); [lia|]. by apply digits_colon_free. Qed.

(** What the encodings promise: digests do not collide, different plans have different texts,
    and a state without compensations comes back as it was ([float_roundtrip]). *)
Definition settled (g : GroupState) : Prop :=
  gs_c_volume g = f64_zero /\ gs_c_price_volume g = f64_zero /\
  is_finite (gs_open g) = true /\ is_finite (gs_high g) = true /\ is_finite (gs_low g) = true /\ is_finite (gs_close g) = true /\
  is_finite (gs_volume g) = true /\ is_finite (gs_price_volume g) = true.
Class SidecarLaws `{SidecarKernels} := {
  blake3_hex_inj : forall a b, blake3_hex a = blake3_hex b -> a = b;
  plan_to_vec_inj : forall a b t, plan_to_vec a = Some t -> plan_to_vec b = Some t -> a = b;
  entry_to_vec_total : forall e, is_Some (entry_to_vec e);
  entry_roundtrip : forall e bytes, Forall settled (ae_groups e) -> entry_to_vec e = Some bytes -> entry_from_slice bytes = Some e;
}.

(** The segments a database has had: a segment is its id and the version that stamped it, and
    it is not stored among the sidecars. *)
Record catalogue (U : SegmentMeta -> Prop) : Prop := {
  ct_same : forall a b, U a -> U b -> sg_id a = sg_id b -> sg_created_by_sequence a = sg_created_by_sequence b -> a = b;
  ct_id : forall a, U a -> colon_free (sg_id a) = true;
  ct_sequence : forall a, U a -> 0 <= sg_created_by_sequence a;
  ct_path : forall a, U a -> is_prefix PREFIX (sg_path a) = false;
}.

Section Cache.
Context `{Env} `{ArrowRows} `{SidecarLaws}.
Context (U : SegmentMeta -> Prop) (HU : catalogue U).

Definition plan_of (spec : FinanceAggregateSpec) (plan_hash : Digest) : Prop :=
  exists r, AggregateStateStore.validate_and_hash r spec = Ok plan_hash.

Lemma plan_of_inj spec spec' p : plan_of spec p -> plan_of spec' p -> spec = spec'.
Proof.
  assert (Hp : forall spec r, AggregateStateStore.validate_and_hash r spec = Ok p -> exists t a b c d,
    plan_to_vec (SEMANTICS_VERSION, (fs_timestamp spec, a), (fs_price spec, b), (fs_volume spec, c), (fs_group_by spec, d)) = Some t /\ p = blake3_hex t).
  { intros sp r. unfold AggregateStateStore.validate_and_hash.
    destruct (AggregateStateStore.field_of _ (fs_timestamp sp)) as [f1|]; [|done]. cbn.
    destruct (AggregateStateStore.field_of _ (fs_price sp)) as [f2|]; [|done]. cbn.
    destruct (AggregateStateStore.field_of _ (fs_volume sp)) as [f3|]; [|done]. cbn.
    destruct (_ || _); [done|]. destruct (_ || _); [done|]. destruct (AggregateStateStore.group_type _ _) as [g|]; [|done]. cbn.
    destruct (plan_to_vec _) as [t|] eqn:Et; [|done]. intros [= <-]. by eexists t, _, _, _, _. }
  intros (r & Hr) (r' & Hr'). destruct (Hp _ _ Hr) as (t & a & b & c & d & Et & ->), (Hp _ _ Hr') as (t' & a' & b' & c' & d' & Et' & Eb).
  apply blake3_hex_inj in Eb as <-. pose proof (plan_to_vec_inj _ _ _ Et Et') as E. destruct spec, spec'. cbn in E. by simplify_eq.
Qed.

Lemma state_path_inj a b p q : U a -> U b -> AggregateStateStore.state_path a p = AggregateStateStore.state_path b q -> a = b.
Proof.
  intros Ha Hb E. unfold AggregateStateStore.state_path in E. injection E as _ Ej. apply json_inj, blake3_hex_inj in Ej.
  unfold AggregateStateStore.state_key in Ej.
  apply colon_split in Ej as [Eid Ej]; [|by eapply ct_id..].
  apply colon_split in Ej as [Eseq _]; [|by apply show_int_colon_free; eapply ct_sequence..].
  apply show_int_inj in Eseq; [|by eapply ct_sequence..]. by eapply ct_same.
Qed.
Lemma state_path_prefix a p : is_prefix PREFIX (AggregateStateStore.state_path a p) = true.
Proof. done. Qed.

(** ** Honest sidecars: what verifies is the sealed state of the rows *)
Definition honest (m0 m : gmap Path File) : Prop := forall seg spec plan f e, U seg -> plan_of spec plan ->
  m !! AggregateStateStore.state_path seg plan = Some f -> AggregateStateStore.parse_state (fl_obj f) seg plan = Some e ->
  exists bs e0, segment_batches m0 spec seg = Ok bs /\ AggregateStateStore.build_entry seg plan spec bs = Ok e0 /\ e = (AggregateStateEntry.seal e0).1.

(** Nothing but sidecars differs. *)
Definition kept (d d' : Disk) : Prop := forall p, is_prefix PREFIX p = false ->
  files d' !! p = files d !! p /\ pending d' !! p = pending d !! p.

Lemma kept_batches d d' spec seg : kept d d' -> U seg -> segment_batches (files d') spec seg = segment_batches (files d) spec seg.
Proof. intros Hk Hs. unfold segment_batches. by rewrite (proj1 (Hk _ (ct_path U HU seg Hs))). Qed.

Lemma parse_state_inv o seg plan e : AggregateStateStore.parse_state o seg plan = Some e ->
  exists bytes, SegmentReader.content_of o = Some bytes /\ entry_from_slice bytes = Some e /\ AggregateStateEntry.verify e seg plan = Ok tt.
Proof.
  unfold AggregateStateStore.parse_state. destruct (SegmentReader.content_of o) as [bytes|]; [|done].
  destruct (entry_from_slice bytes) as [e'|] eqn:Ee; [|done]. destruct (AggregateStateEntry.verify e' seg plan) as [[]|] eqn:Ev; [|done].
  intros [= <-]. by exists bytes.
Qed.
Lemma verify_key e seg plan u : AggregateStateEntry.verify e seg plan = Ok u -> AggregateStateEntry.key_matches e seg plan = true.
Proof. unfold AggregateStateEntry.verify. by destruct (AggregateStateEntry.key_matches e seg plan). Qed.
Lemma key_plan e seg plan : AggregateStateEntry.key_matches e seg plan = true -> ae_aggregate_plan_hash e = plan.
Proof. unfold AggregateStateEntry.key_matches. intros [[[_ Hp%String.eqb_eq]%andb_true_iff _]%andb_true_iff _]%andb_true_iff. done. Qed.
Lemma seal_key e seg plan : AggregateStateEntry.key_matches (AggregateStateEntry.seal e).1 seg plan = AggregateStateEntry.key_matches e seg plan.
Proof. unfold AggregateStateEntry.seal. by destruct (AggregateStateEntry.digest _). Qed.

(** The settled groups of a summary have finite numbers. *)
Lemma summary_settled S g : Forall finite_sample S -> summary S g -> settled (GroupState.settle g).
Proof.
  rewrite List.Forall_forall. intros HS [_ (o & Ho & _ & Eo & _) (c & Hc & _ & Ec & _) (h & Hh & Eh & _) (l & Hl & El & _) _ [Hf1 Hf2]].
  unfold settled. destruct g. cbn in *. subst. repeat split; try done; by apply HS.
Qed.
Lemma entry_settled S e : entry_of S e -> Forall settled (map GroupState.settle (ae_groups e)).
Proof.
  intros (HS & groups & [Hw Hm] & ->). apply List.Forall_forall. intros g' (g & <- & Hin)%in_map_iff.
  unfold bvalues in Hin. apply in_map_iff in Hin as ([k g0] & <- & Hin). specialize (Hm k).
  rewrite (bwf_In_get _ _ _ Hw Hin) in Hm. destruct Hm as [_ Hs]. eapply summary_settled; [|exact Hs]. by apply of_group_finite.
Qed.

Lemma honest_put m0 m seg spec plan bs e0 bytes t : honest m0 m -> U seg -> plan_of spec plan ->
  segment_batches m0 spec seg = Ok bs -> AggregateStateStore.build_entry seg plan spec bs = Ok e0 ->
  entry_to_vec (AggregateStateEntry.seal e0).1 = Some bytes ->
  honest m0 (<[AggregateStateStore.state_path seg plan := mkFile (ORaw bytes) t]> m).
Proof.
  intros Hh Hs Hp Hb He Hv seg' spec' plan' f e Hs' Hp' Hf Hparse.
  destruct (decide (AggregateStateStore.state_path seg plan = AggregateStateStore.state_path seg' plan')) as [E|E].
  2:{ rewrite lookup_insert_ne in Hf by done. by eapply Hh. }
  rewrite E, lookup_insert_eq in Hf. injection Hf as <-. apply state_path_inj in E as <-; [|done..].
  destruct (parse_state_inv _ _ _ _ Hparse) as (b & [= <-] & Hsl & Hver). cbn in Hsl.
  destruct (build_entry_spec _ _ _ _ _ He) as (S & _ & HS & _ & Hkey & _).
  assert (Hset : Forall settled (ae_groups (AggregateStateEntry.seal e0).1)).
  { destruct (AggregateStateEntry.seal e0) as [e1 r] eqn:Ese. cbn. rewrite (seal_groups _ _ _ Ese). by eapply entry_settled. }
  rewrite (entry_roundtrip _ _ Hset Hv) in Hsl. injection Hsl as <-.
  apply verify_key in Hver. rewrite seal_key in Hver. apply key_plan in Hver, Hkey. assert (plan' = plan) as -> by congruence.
  rewrite <- (plan_of_inj _ _ _ Hp Hp'). by exists bs, e0.
Qed.

Lemma honest_delete m0 m p : honest m0 m -> honest m0 (delete p m).
Proof.
  intros Hh seg spec plan f e Hs Hp Hf. apply lookup_delete_Some in Hf as [_ Hf]. by eapply Hh.
Qed.

(** *** The invariant, and the calls that keep it *)
Definition cache_inv (d d' : Disk) : Prop := kept d d' /\ honest (files d) (files d').

Lemma inv_same d d1 d2 : cache_inv d d1 -> same_files d1 d2 -> cache_inv d d2.
Proof. intros [Hk Hh] [Hf Hp]. unfold cache_inv, kept in *. by rewrite Hf, Hp. Qed.

Lemma kept_cached d d1 p (f : option File) (a : Pending) d2 : kept d d1 -> is_prefix PREFIX p = true ->
  files d2 = partial_alter (fun _ => f) p (files d1) -> pending d2 = <[p := a]> (pending d1) -> kept d d2.
Proof.
  intros Hk Hp Hf Hpe q Hq. assert (Hne : p <> q) by (intros ->; congruence). destruct (Hk q Hq) as [H1' H2'].
  rewrite Hf, Hpe, lookup_partial_alter_ne, lookup_insert_ne by done. done.
Qed.

Lemma inv_delete d d1 p : cache_inv d d1 -> is_prefix PREFIX p = true -> cache_inv d (effect (Delete p) d1).2.
Proof.
  intros [Hk Hh] Hp. cbn. destruct (files d1 !! p) eqn:E; [|done]. split; [|by apply honest_delete].
  by eapply kept_cached.
Qed.
Lemma wpc_cache_delete ft d d1 p : cache_inv d d1 -> is_prefix PREFIX p = true ->
  wpc ft (Backend.delete p) d1 (fun _ => cache_inv d) (cache_inv d).
Proof. intros Hi Hp. pose proof (inv_delete d d1 p Hi Hp). by apply wpc_call. Qed.

Lemma wpc_evict ft d d1 max objects total n : cache_inv d d1 -> (forall o, In o objects -> is_prefix PREFIX o.1 = true) ->
  wpc ft (Sidecar.evict max objects total n) d1 (fun _ => cache_inv d) (cache_inv d).
Proof.
  revert d1 total n. induction objects as [|o objects IH]; intros d1 total n Hi Hp; cbn [Sidecar.evict]; [by apply wpc_ret|].
  destruct (total <=? max); [by apply wpc_ret|]. apply wpc_bind.
  eapply wpc_mono; [|done|apply wpc_cache_delete; [exact Hi|apply Hp; by left]].
  intros [u|e] d2 Hi2; [|done]. apply IH; [done|]. intros o' Ho'. apply Hp. by right.
Qed.

Lemma wpc_enforce ft d d1 max : cache_inv d d1 ->
  wpc ft (Sidecar.enforce_budget PREFIX max) d1 (fun _ => cache_inv d) (cache_inv d).
Proof.
  intros Hi. unfold Sidecar.enforce_budget. apply wpc_bind. eapply finds_wpc; [by apply (finds_list _ _ (eq (listed (files d1) PREFIX)))|..]; cbv beta.
  - intros d2 Hs. by eapply inv_same.
  - intros e d2 Hs. split; by eapply inv_same.
  - intros objects d2 Hs <-. apply wpc_evict; [by eapply inv_same|]. intros [p f] Hin%in_sort_by_key. cbn.
    by apply in_listed in Hin as (_ & ? & _).
Qed.
(** *** One segment *)
Implicit Types (seg : SegmentMeta) (spec : FinanceAggregateSpec) (metrics : AggregateStateMetrics).

(** The state built from the rows of a segment, and what of it may come back from a sidecar. *)
Definition built_of (m : gmap Path File) seg spec plan (e0 : AggregateStateEntry) : Prop :=
  exists bs, segment_batches m spec seg = Ok bs /\ AggregateStateStore.build_entry seg plan spec bs = Ok e0.

Lemma wpc_load s seg spec plan metrics d d1 : cache_inv d d1 -> U seg -> plan_of spec plan ->
  wpc true (AggregateStateStore.load s (AggregateStateStore.state_path seg plan) seg plan metrics) d1
    (fun r d2 => cache_inv d d2 /\ match r with
                                   | Ok (Some e, _) => exists e0, built_of (files d) seg spec plan e0 /\ e = (AggregateStateEntry.seal e0).1
                                   | _ => True
                                   end) (cache_inv d).
Proof.
  intros Hi Hs Hp. unfold AggregateStateStore.load. apply wpc_bind, wpc_attempt.
  eapply finds_wpc; [by apply (finds_get_opt _ _ (eq (fl_obj <$> files d1 !! AggregateStateStore.state_path seg plan)))|..]; cbv beta.
  - intros d2 Hd. by eapply inv_same.
  - intros e d2 Hd. pose proof (inv_same _ _ _ Hi Hd). split; [done|]. (apply wpc_ret; [done|by split]).
  - intros o d2 Hd <-. pose proof (inv_same _ _ _ Hi Hd) as Hi2. split; [done|].
    destruct (files d1 !! AggregateStateStore.state_path seg plan) as [f|] eqn:Ef; cbn [fmap option_fmap option_map]; [|apply wpc_ret; [done|by split]].
    destruct (AggregateStateStore.parse_state (fl_obj f) seg plan) as [e|] eqn:Ee.
    + apply wpc_ret; [done|]. split; [done|]. destruct (proj2 Hi _ _ _ _ _ Hs Hp Ef Ee) as (bs & e0 & Hb & He & ->).
      exists e0. split; [by exists bs|done].
    + destruct (bool_decide _); [|apply wpc_ret; [done|by split]]. apply wpc_bind, wpc_attempt.
      eapply wpc_mono; [|done|apply wpc_cache_delete; [exact Hi2|apply state_path_prefix]].
      intros r d3 Hi3. split; [done|]. (apply wpc_ret; [done|by split]).
Qed.

Lemma finds_build d d1 seg spec plan : kept d d1 -> U seg ->
  finds (files d1) (AggregateStateStore.build seg plan spec) (built_of (files d) seg spec plan).
Proof.
  intros Hk Hs. unfold AggregateStateStore.build. eapply (finds_bind _ _ _ (fun bs => segment_batches (files d) spec seg = Ok bs)).
  - rewrite <- (kept_batches d d1 spec seg Hk Hs). unfold SegmentReader.read_segment, segment_batches.
    eapply finds_bind; [by apply (finds_get_opt _ _ (eq (fl_obj <$> files d1 !! sg_path seg)))|]. intros o <-.
    destruct (files d1 !! sg_path seg) as [f|]; [|done]. cbn.
    eapply finds_bind; [apply (finds_lift _ _ (fun c => SegmentReader.content_of (fl_obj f) = Some c))|].
    + intros c. destruct (SegmentReader.content_of (fl_obj f)); [|done]. by intros [= ->].
    + intros c ->. cbn. by apply finds_lift.
  - intros bs Hb. apply finds_lift. intros e He. by exists bs.
Qed.

Lemma wpc_publish_state s seg spec plan e0 metrics d d1 : cache_inv d d1 -> U seg -> plan_of spec plan -> built_of (files d) seg spec plan e0 ->
  wpc true (AggregateStateStore.publish s (AggregateStateStore.state_path seg plan) e0 metrics) d1
    (fun r d2 => cache_inv d d2 /\ match r with Ok (e, _) => e = e0 \/ e = (AggregateStateEntry.seal e0).1 | Err _ => True end) (cache_inv d).
Proof.
  intros Hi Hs Hp (bs & Hb & He). unfold AggregateStateStore.publish. destruct (negb _); [apply wpc_ret; [done|]; (split; [done|by left])|].
  destruct (AggregateStateEntry.seal e0) as [e r] eqn:Ese. assert (E1 : e = (AggregateStateEntry.seal e0).1) by by rewrite Ese.
  destruct r as [u|err]; [|apply wpc_ret; [done|]; (split; [done|by right])].
  destruct (entry_to_vec e) as [bytes|] eqn:Ev; [|apply wpc_ret; [done|]; (split; [done|by right])].
  assert (Hput : cache_inv d (effect (PutIfAbsent (AggregateStateStore.state_path seg plan) (ORaw bytes)) d1).2).
  { cbn. destruct (files d1 !! _); [done|]. destruct Hi as [Hk Hh].
    split; [by eapply (kept_cached d d1 (AggregateStateStore.state_path seg plan) (Some (mkFile (ORaw bytes) (now d1))))|]. cbn.
    eapply honest_put; [done..|]. by rewrite <- E1. }
  apply wpc_bind, wpc_attempt. apply wpc_call; [done|done|..].
  - split; [done|]. destruct (effect _ _).1; [|apply wpc_ret; [done|]; (split; [done|by right])].
    apply wpc_bind, wpc_attempt. eapply wpc_mono; [|done|by apply wpc_enforce].
    intros r d2 Hi2. split; [done|]. apply wpc_ret; [done|]. (split; [done|by right]).
  - intros _. split; (split; [done|]); (apply wpc_ret; [done|]); (split; [done|by right]).
Qed.

Lemma wpc_segment_state s seg spec plan metrics d d1 : cache_inv d d1 -> U seg -> plan_of spec plan ->
  wpc true (AggregateStateStore.segment_state s plan spec seg metrics) d1
    (fun r d2 => cache_inv d d2 /\ match r with
                                   | Ok (e, _) => exists S, segment_samples (files d) spec seg = Ok S /\ entry_of S e
                                   | Err _ => True
                                   end) (cache_inv d).
Proof.
  intros Hi Hs Hp. unfold AggregateStateStore.segment_state. apply wpc_bind.
  assert (Hend : forall e e0, built_of (files d) seg spec plan e0 -> e = e0 \/ e = (AggregateStateEntry.seal e0).1 ->
    exists S, segment_samples (files d) spec seg = Ok S /\ entry_of S e).
  { intros e e0 (bs & Hb & He) Hor. destruct (build_entry_spec _ _ _ _ _ He) as (S & HS & Hent & _). exists S.
    split; [unfold segment_samples; by rewrite Hb|]. destruct Hor as [->| ->]; [done|].
    destruct (AggregateStateEntry.seal e0) as [e1 r] eqn:Ese. by eapply entry_of_seal. }
  assert (Hmiss : forall d2 metrics, cache_inv d d2 ->
    wpc true (let! state := AggregateStateStore.build seg plan spec in
              AggregateStateStore.publish s (AggregateStateStore.state_path seg plan) state metrics) d2
      (fun r d2 => cache_inv d d2 /\ match r with
                                     | Ok (e, _) => exists S, segment_samples (files d) spec seg = Ok S /\ entry_of S e
                                     | Err _ => True
                                     end) (cache_inv d)).
  { intros d2 mt Hi2. apply wpc_bind. eapply finds_wpc; [apply (finds_build d d2); [apply Hi2|done]|..]; cbv beta.
    - intros d3 Hd. by eapply inv_same.
    - intros e d3 Hd. pose proof (inv_same _ _ _ Hi2 Hd). by repeat (split; [done|]).
    - intros e0 d3 Hd He0. eapply wpc_mono; [|done|apply (wpc_publish_state s seg spec); [by eapply inv_same|done..|exact He0]].
      intros [[e mt']|err] d4 [Hi4 Hor]; (split; [done|]); [|done]. by eapply Hend. }
  destruct (negb _).
  - eapply wpc_mono; [|done|by eapply wpc_load]. intros [[[e|] mt]|err] d2 [Hi2 Hr]; [|by apply Hmiss|by split].
    apply wpc_ret; [done|]. split; [done|]. destruct Hr as (e0 & Hb & ->). eapply Hend; [done|by right].
  - apply wpc_ret; [done|]. by apply Hmiss.
Qed.

(** *** All segments *)
Lemma wpc_rollup s spec plan d segs : plan_of spec plan -> Forall U segs -> forall merged metrics S d1,
  cache_inv d d1 -> Forall finite_sample S -> summarised S merged ->
  wpc true (fold_prog (AggregateStateStore.rollup_segment s plan spec) (merged, metrics) segs) d1
    (fun r d2 => cache_inv d d2 /\ match r with
                                   | Ok (merged', _) => exists ss, map_res (segment_samples (files d) spec) segs = Ok ss /\
                                                          summarised (S ++ concat ss) merged'
                                   | Err _ => True
                                   end) (cache_inv d).
Proof.
  intros Hp. induction 1 as [|seg segs Hs _ IH]; intros merged metrics S d1 Hi HS Hm; cbn [fold_prog].
  { apply wpc_ret; [done|]. split; [done|]. exists []. cbn. by rewrite app_nil_r. }
  apply wpc_bind. unfold AggregateStateStore.rollup_segment at 1. apply wpc_bind.
  eapply wpc_mono; [|done|by apply wpc_segment_state]. intros [[e mt]|err] d2 [Hi2 Hr]; [|by split].
  destruct Hr as (T & HT & HTf & groups & Hg & He). apply wpc_bind.
  destruct (foldr_res AggregateStateStore.merge_group merged (ae_groups e)) as [merged'|err] eqn:Ef; apply wpc_ret; try done.
  apply wpc_ret; [done|]. rewrite He in Ef.
  eapply wpc_mono; [|done|apply (IH merged' mt (S ++ T)); [exact Hi2|by apply Forall_app|by eapply summarised_merge]].
  intros [[m' mt']|err] d3 [Hi3 Hr]; (split; [done|]); [|done]. destruct Hr as (ss & Hss & Hm'). exists (T :: ss). cbn.
  rewrite HT. cbn. rewrite Hss. cbn. by rewrite app_assoc.
Qed.
(** ** A rollup *)

(** What is reported of the rows of a group. *)
Definition reports (S : list Sample) (a : FinanceAggregate) : Prop :=
  fa_rows a = zlen S mod 2 ^ 64 /\
  (exists k, opens S k (fa_open a) /\ fa_first_timestamp a = pk_timestamp k) /\
  (exists k, closes S k (fa_close a) /\ fa_last_timestamp a = pk_timestamp k) /\
  tops S (fa_high a) /\ bottoms S (fa_low a).

(** A version of a table that the database has. *)
Definition version_of (m : gmap Path File) (db : Database) (at_ : ReadAt) (r : ResolvedTable) : Prop :=
  exists n, selects m (rt_entry r) at_ (rt_head_sequence r) n /\ stored m (ce_table_id (rt_entry r)) n (rt_manifest r).
Definition catalogued (m : gmap Path File) : Prop := forall t n mf, stored m t n mf -> Forall U (mf_segments mf).

(** The groups of a result are those of the rows, each once and in order. *)
Definition groups_of (S : list Sample) (l : list FinanceAggregate) : Prop :=
  StronglySorted klt (map fa_group l) /\ (forall k, In k (map fa_group l) <-> of_group k S <> []).
Definition rolled_up (m : gmap Path File) s at_ spec (res : FinanceAggregateResult) : Prop := exists r ss,
  version_of m (as_db s) at_ r /\ fr_sequence res = mf_sequence (rt_manifest r) /\
  map_res (segment_samples m spec) (mf_segments (rt_manifest r)) = Ok ss /\ groups_of (concat ss) (fr_groups res) /\
  forall a, In a (fr_groups res) -> reports (of_group (fa_group a) (concat ss)) a /\
    forall v, whole v (of_group (fa_group a) (concat ss)) -> fa_volume a = f64_of_int (sum_of v (of_group (fa_group a) (concat ss))).

Lemma finish_group g : fa_group (GroupState.finish g) = gs_group g.
Proof. by destruct g. Qed.
Lemma summary_finish S g : summary S g -> reports S (GroupState.finish g) /\
  forall v, whole v S -> fa_volume (GroupState.finish g) = f64_of_int (sum_of v S).
Proof.
  intros Hs%summary_settle. destruct Hs as [Hr Ho Hc Hh Hl Hv _]. unfold GroupState.finish. cbv zeta. split.
  - split; [done|]. split; [by eexists|]. split; [by eexists|]. done.
  - intros v Hw. cbn [fa_volume]. by destruct (Hv v Hw).
Qed.

Lemma summarised_finish S merged : summarised S merged ->
  groups_of S (map GroupState.finish (bvalues merged)) /\
  forall a, In a (map GroupState.finish (bvalues merged)) -> exists g, a = GroupState.finish g /\ summary (of_group (fa_group a) S) g.
Proof.
  intros [Hw Hm]. assert (Ek : map fa_group (map GroupState.finish (bvalues merged)) = bkeys merged).
  { unfold bvalues, bkeys. rewrite !List.map_map. apply map_ext_in. intros [k g] Hin. rewrite finish_group. cbn.
    specialize (Hm k). rewrite (bwf_In_get _ _ _ Hw Hin) in Hm. by destruct Hm. }
  split; [split; rewrite Ek; [done|]|].
  - intros k. specialize (Hm k). destruct (bget k merged) as [g|] eqn:Eg.
    + destruct Hm as [_ Hs]. split; [|intros _; apply bget_In in Eg; by apply (in_map fst) in Eg].
      intros _ E. rewrite E in Hs. by destruct (sy_high _ _ Hs) as (h & [] & _).
    + rewrite Hm. apply bget_None_keys in Eg. tauto.
  - intros a (g & <- & Hin)%in_map_iff. exists g. split; [done|]. rewrite finish_group.
    unfold bvalues in Hin. apply in_map_iff in Hin as ([k g'] & <- & Hin). cbn. specialize (Hm k).
    rewrite (bwf_In_get _ _ _ Hw Hin) in Hm. destruct Hm as [-> Hs]. done.
Qed.

Lemma wpc_finance_rollup s table at_ spec d : catalogued (files d) -> honest (files d) (files d) ->
  wpc true (AggregateStateStore.finance_rollup s table at_ spec) d
    (fun r d2 => cache_inv d d2 /\ match r with Ok res => rolled_up (files d) s at_ spec res | Err _ => True end) (cache_inv d).
Proof.
  intros Hc Hh. assert (Hi : cache_inv d d) by by split. unfold AggregateStateStore.finance_rollup. apply wpc_bind.
  eapply finds_wpc; [apply finds_resolve|..]; cbv beta.
  - intros d2 Hd. by eapply inv_same.
  - intros e d2 Hd. pose proof (inv_same _ _ _ Hi Hd). by repeat (split; [done|]).
  - intros r d2 Hd (_ & (n & Hsel & Hst) & _). pose proof (inv_same _ _ _ Hi Hd) as Hi2. apply wpc_bind.
    destruct (AggregateStateStore.validate_and_hash r spec) as [plan|e] eqn:Ep; apply wpc_ret; try done.
    apply wpc_bind. eapply wpc_mono; [|done|apply (wpc_rollup s spec plan d); [by exists r|by eapply Hc|exact Hi2|by apply Forall_nil|apply summarised_nil]].
    intros [[merged mt]|e] d3 [Hi3 Hr]; [|by split]. destruct Hr as (ss & Hss & Hm). cbn [app] in Hm.
    apply wpc_ret; [done|]. split; [done|]. exists r, ss. split; [by exists n|]. split; [done|]. split; [done|].
    destruct (summarised_finish _ _ Hm) as [Hg Ha]. split; [done|]. intros a Hin. destruct (Ha a Hin) as (g & E & Hs).
    destruct (summary_finish _ _ Hs) as [H1' H2']. rewrite <- E in H1', H2'. done.
Qed.
End Cache.

(** ** A sealed state verifies *)
Section Sealed.
Context `{Env} `{ArrowRows} `{SidecarLaws}.

(** Groups partition the rows. *)
Lemma groups_partition (S : list Sample) ks : NoDup ks -> (forall x, In x S -> In (sm_group x) ks) ->
  zsum (map (fun k => zlen (of_group k S)) ks) = zlen S.
Proof.
  intros Hn. induction S as [|x S IH]; intros Hin.
  - induction ks as [|k ks IHk]; cbn [map]; [done|]. rewrite zsum_cons, IHk; [done|by apply NoDup_cons in Hn as []|by intros y []].
  - assert (Hx : zsum (map (fun k => zlen (of_group k (x :: S))) ks) = zsum (map (fun k => zlen (of_group k S)) ks) + 1).
    { specialize (Hin x (or_introl eq_refl)). clear IH. revert Hin. induction Hn as [|k ks Hk Hn IH]; [done|]. intros Hin.
      cbn [map]. rewrite !zsum_cons. unfold of_group at 1. cbn [List.filter]. destruct (decide (sm_group x = k)) as [E|E].
      - rewrite bool_decide_true by done. fold (of_group k S).
        assert (map (fun k0 => zlen (of_group k0 (x :: S))) ks = map (fun k0 => zlen (of_group k0 S)) ks) as ->.
        { apply map_ext_in. intros k0 Hk0. unfold of_group. cbn [List.filter]. rewrite bool_decide_false; [done|].
          intros E'. apply Hk. apply list_elem_of_In. congruence. }
        unfold zlen. cbn [length]. lia.
      - rewrite bool_decide_false by done. fold (of_group k S). destruct Hin as [Hin|Hin]; [congruence|]. rewrite (IH Hin). lia. }
    rewrite Hx, IH by (intros y Hy; apply Hin; by right). unfold zlen. cbn [length]. lia.
Qed.

Lemma SFleb_le x y : is_finite x = true -> is_finite y = true -> f64_le x y -> SFleb x y = true.
Proof. intros Hx Hy. by apply SFleb_key. Qed.

Lemma summary_valid seg seen S g : Forall finite_sample S -> Forall (keyed_by seg) S -> zlen S < 2 ^ 64 -> summary S g ->
  gs_group g ∉ seen -> AggregateStateEntry.group_valid seg seen (GroupState.settle g) = true /\ gs_rows (GroupState.settle g) = zlen S.
Proof.
  intros HS Hk Hz Hg Hn. pose proof (summary_settled S g HS Hg) as Hset. apply summary_settle in Hg.
  assert (Hgr : gs_group (GroupState.settle g) = gs_group g) by by destruct g. rewrite <- Hgr in Hn. clear Hgr.
  set (g' := GroupState.settle g) in *. clearbody g'.
  destruct Hset as (_ & _ & Fo & Fh & Fl & Fc & Fv & Fp).
  destruct Hg as [Hr (o & Ho & Eok & Eo & _) (c & Hc & Eck & Ec & _) (h & Hh & Eh & Hhm) (l & Hl & El & Hlm) _ _].
  assert (Hpos : 0 < zlen S) by (destruct S; [done|unfold zlen; cbn; lia]).
  assert (Hrows : gs_rows g' = zlen S) by (rewrite Hr; apply Z.mod_small; lia). split; [|done].
  rewrite List.Forall_forall in Hk. destruct (Hk o Ho) as [Ks Kq], (Hk c Hc) as [Ks' Kq'].
  unfold AggregateStateEntry.group_valid. rewrite Hrows, Eok, Eck, Ks, Kq, Ks', Kq', !Z.eqb_refl, !String.eqb_refl, Fo, Fh, Fl, Fc, Fv, Fp.
  rewrite bool_decide_false by done. destruct (Z.ltb_spec 0 (zlen S)); [|lia]. cbn [negb andb].
  rewrite !SFleb_le; try done.
  - rewrite Ec. by apply Hhm.
  - rewrite Ec. by apply Hlm.
  - rewrite Eo. by apply Hhm.
  - rewrite Eo. by apply Hlm.
Qed.

Lemma verify_groups seg S m seen rows : Forall finite_sample S -> Forall (keyed_by seg) S -> zlen S < 2 ^ 64 ->
  NoDup (bkeys m) -> (forall k g, In (k, g) m -> gs_group g = k /\ k ∉ seen /\ summary (of_group k S) g) ->
  0 <= rows -> rows + zsum (map (fun k => zlen (of_group k S)) (bkeys m)) < 2 ^ 64 ->
  exists seen', foldr_res (AggregateStateEntry.verify_group seg) (seen, rows) (map GroupState.settle (bvalues m)) =
    Ok (seen', rows + zsum (map (fun k => zlen (of_group k S)) (bkeys m))).
Proof.
  intros HS Hk Hz. revert seen rows. induction m as [|[k g] m IH]; intros seen rows Hn Hm Hr Ht.
  { exists seen. cbn. f_equal. f_equal. lia. }
  unfold bkeys in Hn, Ht |- *. cbn [map fst] in Hn, Ht |- *. rewrite zsum_cons in Ht |- *. apply NoDup_cons in Hn as [Hkn Hn].
  destruct (Hm k g (or_introl eq_refl)) as (Eg & Hseen & Hg). cbn [bvalues map snd foldr_res].
  assert (Hle : zlen (of_group k S) <= zlen S) by (unfold zlen, of_group; pose proof (filter_length_le (fun x => bool_decide (sm_group x = k)) S); lia).
  destruct (summary_valid seg seen (of_group k S) g) as [Hv Hrows]; [by apply of_group_finite| |lia|done|by rewrite Eg|].
  { rewrite List.Forall_forall in Hk |- *. intros x [Hx _]%filter_In. by apply Hk. }
  assert (Hge : 0 <= zsum (map (fun k => zlen (of_group k S)) (bkeys m))).
  { clear. induction (bkeys m) as [|k ks IHk]; cbn [map]; [done|]. rewrite zsum_cons. unfold zlen at 1. lia. }
  unfold AggregateStateEntry.verify_group at 1. rewrite Hv, Hrows. cbn [negb]. unfold bkeys in Hge.
  destruct (Z.leb_spec (2 ^ 64) (rows + zlen (of_group k S))); [lia|].
  destruct (IH (gs_group (GroupState.settle g) :: seen) (rows + zlen (of_group k S))) as (seen' & E); [done| |unfold zlen; lia|unfold bkeys; lia|].
  - intros k' g' Hin. destruct (Hm k' g' (or_intror Hin)) as (Eg' & Hs' & Hg'). split; [done|]. split; [|done].
    intros [E|Hs]%elem_of_cons; [|done]. apply Hkn. apply list_elem_of_In. rewrite <- Eg. replace (gs_group g) with (gs_group (GroupState.settle g)) by by destruct g.
    rewrite <- E. by apply (in_map fst) in Hin.
  - exists seen'. unfold bvalues, bkeys in E. rewrite E. f_equal. f_equal. lia.
Qed.

Lemma seal_total e : exists e', AggregateStateEntry.seal e = (e', Ok tt) /\ AggregateStateEntry.digest e' = Ok (ae_checksum e').
Proof.
  unfold AggregateStateEntry.seal, AggregateStateEntry.digest.
  set (e1 := e <| ae_groups := _ |> <| ae_checksum := "" |>).
  destruct (entry_to_vec_total (e1 <| ae_checksum := "" |>)) as [b Hb]. rewrite Hb. cbn [ok_or]. eexists. split; [done|].
  replace (e1 <| ae_checksum := checksum_hex (ORaw b) |> <| ae_checksum := "" |>) with (e1 <| ae_checksum := "" |>) by by destruct e. by rewrite Hb.
Qed.

(** The state of a segment, once sealed, passes every check when it is read back. *)
Lemma sealed_verifies seg plan spec bs e0 S : AggregateStateStore.build_entry seg plan spec bs = Ok e0 ->
  samples_from seg spec 0 bs = Ok S -> zlen S < 2 ^ 64 -> AggregateStateEntry.verify (AggregateStateEntry.seal e0).1 seg plan = Ok tt.
Proof.
  intros He HS Hz. destruct (build_entry_spec _ _ _ _ _ He) as (S' & HS' & (HfS & groups & Hsum & Eg) & Hkeyed & Hkey & Hrows).
  rewrite HS in HS'. injection HS' as <-. rewrite Z.mod_small in Hrows by (unfold zlen in *; lia).
  destruct (seal_total e0) as (e & Ese & Hd). pose proof (seal_key e0 seg plan) as Hk. pose proof (seal_groups _ _ _ Ese) as Egs.
  rewrite Ese in Hk |- *. cbn [fst] in *. unfold AggregateStateEntry.verify. rewrite Hk, Hkey, Hd. cbn [negb]. rewrite String.eqb_refl. cbn [negb].
  rewrite Egs, Eg. destruct (summarised_values _ _ Hsum) as [Hn _]. destruct Hsum as [Hw Hm].
  assert (Hpart : zsum (map (fun k => zlen (of_group k S)) (bkeys groups)) = zlen S).
  { apply groups_partition; [done|]. intros x Hx. specialize (Hm (sm_group x)). destruct (bget (sm_group x) groups) as [g|] eqn:E.
    - apply bget_In in E. by apply (in_map fst) in E.
    - exfalso. assert (Hin : In x (of_group (sm_group x) S)) by (apply filter_In; by rewrite bool_decide_true). by rewrite Hm in Hin. }
  destruct (verify_groups seg S groups [] 0) as (seen' & ->); [done..| |done|by rewrite Hpart|].
  { intros k g Hin. specialize (Hm k). rewrite (bwf_In_get _ _ _ Hw Hin) in Hm. destruct Hm. split; [done|]. split; [by apply not_elem_of_nil|done]. }
  rewrite Hpart. rewrite Hkey in Hk. unfold AggregateStateEntry.key_matches in Hk. apply andb_true_iff in Hk as [_ Hk%Z.eqb_eq].
  cbn. by rewrite Hk, Hrows, Z.eqb_refl.
Qed.
End Sealed.

(** ** Published states are reused *)
Section Warm.
Context `{Env} `{ArrowRows} `{SidecarLaws}.
Context (U : SegmentMeta -> Prop) (HU : catalogue U).
Implicit Types (seg : SegmentMeta) (spec : FinanceAggregateSpec) (e : AggregateStateEntry).

(** If the sidecar of a segment is there it reads back as the state. *)
Definition reads_as (m : gmap Path File) plan seg e : Prop := forall f, m !! AggregateStateStore.state_path seg plan = Some f ->
  AggregateStateStore.parse_state (fl_obj f) seg plan = Some e.
(** Other files are as they were, or gone. *)
Definition others_kept (p : Path) (m m' : gmap Path File) : Prop := forall q, q <> p -> m' !! q = m !! q \/ m' !! q = None.

Lemma others_refl p m : others_kept p m m.
Proof. intros q _. by left. Qed.
Lemma others_trans p m1 m2 m3 : others_kept p m1 m2 -> others_kept p m2 m3 -> others_kept p m1 m3.
Proof. intros H1' H2' q Hq. destruct (H2' q Hq) as [->|?]; [by apply H1'|by right]. Qed.
Lemma others_reads p m m' plan seg e : others_kept p m m' -> AggregateStateStore.state_path seg plan <> p -> reads_as m plan seg e -> reads_as m' plan seg e.
Proof. intros Hs Hp Hr f Hf. destruct (Hs _ Hp) as [E|E]; rewrite E in Hf; [by apply Hr|done]. Qed.
Lemma others_delete p q m : others_kept p m (delete q m).
Proof. intros r Hr. destruct (decide (q = r)) as [->|]; [right; apply lookup_delete_eq|left; by apply lookup_delete_ne]. Qed.

(** All files are as they were, or gone. *)
Definition evicted (m m' : gmap Path File) : Prop := forall q, m' !! q = m !! q \/ m' !! q = None.
Lemma wpc_evicted objects total n max d d1 : evicted (files d) (files d1) ->
  wpc false (Sidecar.evict max objects total n) d1 (fun _ d2 => evicted (files d) (files d2)) (fun _ => True).
Proof.
  revert d1 total n. induction objects as [|o objects IH]; intros d1 total n He; cbn [Sidecar.evict]; [by apply wpc_ret|].
  destruct (total <=? max); [by apply wpc_ret|]. apply wpc_bind. apply wpc_call; [done|done| |done]. apply IH. cbn.
  destruct (files d1 !! o.1); [|done]. intros q. unfold del_file. cbn. destruct (decide (o.1 = q)) as [<-|]; [right; apply lookup_delete_eq|].
  rewrite lookup_delete_ne by done. apply He.
Qed.
Lemma wpc_enforce_evicted max d1 : wpc false (Sidecar.enforce_budget PREFIX max) d1 (fun _ d2 => evicted (files d1) (files d2)) (fun _ => True).
Proof.
  unfold Sidecar.enforce_budget. apply wpc_bind. apply wpc_call; [done|done| |done]. apply wpc_evicted. intros q. by left.
Qed.

(** A cold step in the mode [ReadWrite]: the state it returns is the one the sidecar has, if the
    sidecar is still there. *)
Definition stepped plan seg d1 (r : DbResult (AggregateStateEntry * AggregateStateMetrics)) d2 : Prop :=
  match r with
  | Ok (e, _) => reads_as (files d2) plan seg e /\ others_kept (AggregateStateStore.state_path seg plan) (files d1) (files d2)
  | Err _ => True
  end.

Lemma warm_publish s seg spec plan e0 metrics d d1 S : as_mode s = ReadWrite ->
  built_of (files d) seg spec plan e0 -> segment_samples (files d) spec seg = Ok S -> zlen S < 2 ^ 64 ->
  files d1 !! AggregateStateStore.state_path seg plan = None ->
  wpc false (AggregateStateStore.publish s (AggregateStateStore.state_path seg plan) e0 metrics) d1 (stepped plan seg d1) (fun _ => True).
Proof.
  intros Hmode (bs & Hb & He) HS Hz Hn. unfold AggregateStateStore.publish. rewrite Hmode. cbn [negb bool_decide decide_rel].
  unfold segment_samples in HS. rewrite Hb in HS. cbn in HS.
  pose proof (sealed_verifies _ _ _ _ _ _ He HS Hz) as Hv. destruct (seal_total e0) as (e & Ese & _). rewrite Ese in Hv |- *. cbn [fst] in Hv.
  destruct (entry_to_vec_total e) as [bytes Hbytes]. rewrite Hbytes.
  assert (Hparse : AggregateStateStore.parse_state (ORaw bytes) seg plan = Some e).
  { unfold AggregateStateStore.parse_state. cbn. rewrite (entry_roundtrip e bytes); [by rewrite Hv| |done].
    rewrite (seal_groups _ _ _ Ese). destruct (build_entry_spec _ _ _ _ _ He) as (S' & _ & Hent & _). by eapply entry_settled. }
  apply wpc_bind, wpc_attempt. apply wpc_call; [done|done| |done]. split; [done|]. cbn [effect]. rewrite Hn. cbn [fst snd].
  set (d2 := put_file _ _ _ d1).
  assert (Hr2 : reads_as (files d2) plan seg e).
  { intros f Hf. unfold d2, put_file in Hf. cbn in Hf. rewrite lookup_insert_eq in Hf. by injection Hf as <-. }
  assert (Hs2 : others_kept (AggregateStateStore.state_path seg plan) (files d1) (files d2)).
  { intros q Hq. left. unfold d2, put_file. cbn. by rewrite lookup_insert_ne. }
  apply wpc_bind, wpc_attempt. eapply wpc_mono; [|done|apply wpc_enforce_evicted]. intros r d3 Hev. split; [done|].
  apply wpc_ret; [done|]. split.
  - intros f Hf. destruct (Hev (AggregateStateStore.state_path seg plan)) as [E|E]; rewrite E in Hf; [by apply Hr2|done].
  - eapply others_trans; [exact Hs2|]. intros q _. apply Hev.
Qed.

Lemma warm_segment s seg spec plan metrics d d1 : as_mode s = ReadWrite -> kept d d1 -> U seg ->
  (forall S, segment_samples (files d) spec seg = Ok S -> zlen S < 2 ^ 64) ->
  wpc false (AggregateStateStore.segment_state s plan spec seg metrics) d1 (stepped plan seg d1) (fun _ => True).
Proof.
  intros Hmode Hk Hs Hz. unfold AggregateStateStore.segment_state. rewrite Hmode. cbn [negb bool_decide decide_rel]. apply wpc_bind.
  set (p := AggregateStateStore.state_path seg plan).
  (* after a miss the sidecar is not there *)
  assert (Hmiss : forall d2 metrics, files d2 !! p = None -> others_kept p (files d1) (files d2) -> kept d d2 ->
    wpc false (let! state := AggregateStateStore.build seg plan spec in AggregateStateStore.publish s p state metrics) d2
      (stepped plan seg d1) (fun _ => True)).
  { intros d2 mt Hn Hsh Hk2. apply wpc_bind. eapply finds_wpc; [by apply (finds_build U HU d d2)|done|done|].
    intros e0 d3 [Hf _] Hb. assert (exists S, segment_samples (files d) spec seg = Ok S) as [S HS].
    { destruct Hb as (bs & Hb & He). destruct (build_entry_spec _ _ _ _ _ He) as (S & HS & _). exists S. unfold segment_samples. by rewrite Hb. }
    eapply wpc_mono; [|done|apply (warm_publish s seg spec plan e0 mt d d3 S); [done|done|done|by apply Hz|by rewrite Hf]].
    intros [[e mt']|err] d4; [|done]. intros [Hr Hs4]. split; [done|]. rewrite Hf in Hs4. by eapply others_trans. }
  unfold AggregateStateStore.load. apply wpc_bind, wpc_attempt, wpc_bind. apply wpc_call; [done|done| |done]. cbn [effect fst snd].
  apply wpc_ret; [done|]. split; [done|]. fold p. destruct (files d1 !! p) as [f|] eqn:Ef; cbn [fmap option_fmap option_map].
  - destruct (AggregateStateStore.parse_state (fl_obj f) seg plan) as [e|] eqn:Ee.
    + apply wpc_ret; [done|]. apply wpc_ret; [done|]. split; [|apply others_refl]. intros f' Hf'. fold p in Hf'. congruence.
    + rewrite Hmode. cbn [bool_decide decide_rel]. apply wpc_bind, wpc_attempt. apply wpc_call; [done|done| |done]. split; [done|].
      apply wpc_ret; [done|]. cbn [effect snd]. rewrite Ef. apply Hmiss.
      * apply lookup_delete_eq.
      * apply others_delete.
      * eapply (kept_cached d d1 p None); [done|done|reflexivity..].
  - apply wpc_ret; [done|]. apply Hmiss; [done|apply others_refl|done].
Qed.
(** Without faults programs run one after the other. *)
Lemma run_then {A B} (p : prog A) (f : DbResult A -> prog B) d : run [] (then_ p f) d = run [] (f (run [] p d).1) (run [] p d).2.
Proof.
  revert d. induction p as [r|T c k IH]; intros d; [done|].
  change (then_ (Do c k) f) with (Do c (fun r => then_ (k r) f)). cbn [run next_fault]. unfold perform.
  destruct (effect c d) as [t d1]. apply IH.
Qed.
Lemma run_bind {A B} (p : prog A) (f : A -> prog B) d :
  run [] (bind p f) d = match run [] p d with (Ok a, d1) => run [] (f a) d1 | (Err e, d1) => (Err e, d1) end.
Proof. unfold bind. rewrite run_then. by destruct (run [] p d) as [[a|e] d1]. Qed.
Lemma run_get_opt p d : run [] (attempt (Backend.get_opt p)) d = (Ok (Ok (fl_obj <$> files d !! p)), d).
Proof.
  unfold attempt. rewrite run_then. unfold Backend.get_opt. rewrite run_bind.
  by change (run [] (call (Get p)) d) with (@Ok StoreError _ (files d !! p), d).
Qed.

(** The states of a list of segments, merged one after the other. *)
Fixpoint merge_all merged (es : list AggregateStateEntry) : DbResult (BTree (option string) GroupState) :=
  match es with
  | [] => Ok merged
  | e :: es => let? merged := foldr_res AggregateStateStore.merge_group merged (ae_groups e) in merge_all merged es
  end.

Lemma path_apart plan seg seg' : U seg -> U seg' -> seg <> seg' ->
  AggregateStateStore.state_path seg plan <> AggregateStateStore.state_path seg' plan.
Proof. intros Hs Hs' Hne E. apply Hne. by eapply (state_path_inj U HU). Qed.

(** A step leaves an invariant intact and knows its own sidecar. *)
Lemma cold_step s seg spec plan metrics d d1 : as_mode s = ReadWrite -> plan_of spec plan -> U seg -> cache_inv U d d1 ->
  (forall S, segment_samples (files d) spec seg = Ok S -> zlen S < 2 ^ 64) ->
  let out := run [] (AggregateStateStore.segment_state s plan spec seg metrics) d1 in
  cache_inv U d out.2 /\ stepped plan seg d1 out.1 out.2.
Proof.
  intros Hmode Hp Hs Hi Hz out. split.
  - by apply (wpc_run true _ _ _ _ [] (wpc_segment_state U HU s seg spec plan metrics d d1 Hi Hs Hp)).
  - apply (wpc_run false _ _ _ _ [] (warm_segment s seg spec plan metrics d d1 Hmode (proj1 Hi) Hs Hz)). done.
Qed.

(** A cold run: what its sidecars read as is what it merged. *)
Lemma cold_run s spec plan d segs : as_mode s = ReadWrite -> plan_of spec plan -> Forall U segs -> NoDup segs ->
  (forall seg S, In seg segs -> segment_samples (files d) spec seg = Ok S -> zlen S < 2 ^ 64) ->
  forall merged metrics d1 merged' metrics' d2, cache_inv U d d1 ->
  run [] (fold_prog (AggregateStateStore.rollup_segment s plan spec) (merged, metrics) segs) d1 = (Ok (merged', metrics'), d2) ->
  exists es, merge_all merged es = Ok merged' /\ Forall2 (reads_as (files d2) plan) segs es /\
    forall seg e, U seg -> seg ∉ segs -> reads_as (files d1) plan seg e -> reads_as (files d2) plan seg e.
Proof.
  intros Hmode Hp. induction segs as [|seg segs IH]; intros HUs Hn Hz merged metrics d1 merged' metrics' d2 Hi; cbn [fold_prog].
  { cbn. intros [= <- _ <-]. exists []. split; [done|]. split; [constructor|done]. }
  apply Forall_cons in HUs as [Hs HUs]. apply NoDup_cons in Hn as [Hni Hn].
  rewrite run_bind. unfold AggregateStateStore.rollup_segment at 1. rewrite run_bind.
  pose proof (cold_step s seg spec plan metrics d d1 Hmode Hp Hs Hi (fun S => Hz seg S (or_introl eq_refl))) as Hc. cbv zeta in Hc.
  destruct (run [] (AggregateStateStore.segment_state s plan spec seg metrics) d1) as [[[e mt]|err] d3]; [|done].
  destruct Hc as [Hi3 [Hr Ho]]. cbn [fst snd] in *. rewrite run_bind.
  destruct (foldr_res AggregateStateStore.merge_group merged (ae_groups e)) as [m1|err] eqn:Ef; [|done]. cbn [run lift].
  change (run [] (lift (Ok m1)) d3) with (@Ok StoreError _ m1, d3). cbn [run ret].
  intros Hrun. destruct (IH HUs Hn (fun g S Hg => Hz g S (or_intror Hg)) m1 mt d3 merged' metrics' d2 Hi3 Hrun) as (es & Hes & Hread & Hkeep).
  exists (e :: es). cbn [merge_all]. rewrite Ef. cbn. split; [done|]. split; [constructor; [by apply Hkeep|done]|].
  intros g eg Hg [Hne Hnin]%not_elem_of_cons Hreads. apply Hkeep; [done|done|]. eapply others_reads; [exact Ho| |exact Hreads].
  by apply path_apart.
Qed.

(** A warm run: every state is reused. *)
Definition reuse n (metrics : AggregateStateMetrics) : AggregateStateMetrics :=
  Nat.iter n (fun m => m <| am_states_reused := add_u64 (am_states_reused m) 1 |>) metrics.
Lemma warm_run s spec plan segs es d : as_mode s <> Disabled -> Forall2 (reads_as (files d) plan) segs es ->
  (forall seg, In seg segs -> is_Some (files d !! AggregateStateStore.state_path seg plan)) ->
  forall merged metrics merged', merge_all merged es = Ok merged' ->
  run [] (fold_prog (AggregateStateStore.rollup_segment s plan spec) (merged, metrics) segs) d = (Ok (merged', reuse (length segs) metrics), d).
Proof.
  intros Hmode. induction 1 as [|seg e segs es Hr _ IH]; intros Hthere merged metrics merged' Hm; cbn [fold_prog merge_all] in *.
  { injection Hm as <-. done. }
  rewrite run_bind. unfold AggregateStateStore.rollup_segment at 1. rewrite run_bind.
  assert (Hst : run [] (AggregateStateStore.segment_state s plan spec seg metrics) d =
    (Ok (e, metrics <| am_states_reused := add_u64 (am_states_reused metrics) 1 |>), d)).
  { destruct (Hthere seg (or_introl eq_refl)) as [f Hf]. unfold AggregateStateStore.segment_state.
    rewrite bool_decide_false by done. cbn [negb]. rewrite run_bind. unfold AggregateStateStore.load. rewrite run_bind.
    rewrite run_get_opt, Hf. cbn [fmap option_fmap option_map]. by rewrite (Hr f Hf). }
  rewrite Hst, run_bind. destruct (foldr_res AggregateStateStore.merge_group merged (ae_groups e)) as [m1|err]; [|done]. cbn in Hm.
  change (run [] (lift (Ok m1)) d) with (@Ok StoreError _ m1, d). cbn [run ret].
  rewrite (IH (fun g Hg => Hthere g (or_intror Hg)) m1 _ merged' Hm). f_equal. f_equal. f_equal. cbn [length]. unfold reuse.
  by rewrite Nat.iter_succ_r.
Qed.
(** Resolving a version changes no file. *)
Lemma resolve_same db table at_ d : same_files d (run [] (Database.resolve db table at_) d).2.
Proof.
  pose proof (finds_wpc true (Database.resolve db table at_) d _ (fun _ d' => same_files d d') (fun _ => True) (finds_resolve (files d) db table at_)) as Hw.
  refine (wpc_run true _ _ _ _ [] (Hw _ _ _) _); done.
Qed.
End Warm.

Section RollupTheorems.
Context `{Env} `{ArrowRows} `{SidecarLaws}.

(** C30 The result of a rollup is that of one pass over all rows of the version it reads: its
    groups are the groups of those rows, each once and in order, and each has the number of its
    rows, the price of the row that is first and of the one that is last (by time, then version,
    segment and place), and the highest and lowest price; whichever of its states were
    built and whichever came from sidecars, in whatever mode, whichever calls on the cache fail. *)
Theorem rollup_is_of_all_rows U s table at_ spec fs d res d' :
  catalogue U -> catalogued U (files d) -> honest U (files d) (files d) ->
  run fs (AggregateStateStore.finance_rollup s table at_ spec) d = (Ok res, d') ->
  exists r ss, version_of (files d) (as_db s) at_ r /\ fr_sequence res = mf_sequence (rt_manifest r) /\
    map_res (segment_samples (files d) spec) (mf_segments (rt_manifest r)) = Ok ss /\
    groups_of (concat ss) (fr_groups res) /\
    Forall (fun a => reports (of_group (fa_group a) (concat ss)) a) (fr_groups res).
Proof.
  intros HU Hc Hh Hrun. pose proof (wpc_run true _ _ _ _ fs (wpc_finance_rollup U HU s table at_ spec d Hc Hh) ltac:(done)) as Hw.
  rewrite Hrun in Hw. destruct Hw as [_ (r & ss & Hv & Hn & Hs & Hg & Ha)]. exists r, ss. do 4 (split; [done|]).
  apply List.Forall_forall. intros a Hin. by apply Ha.
Qed.

(** C31 Volumes that are integers are summed exactly: if the volumes of a group are integers
    whose magnitudes sum to less than 2^53, its volume is their sum, however the rows are cut
    into segments and whichever states were cached. *)
Theorem whole_volumes_are_exact U s table at_ spec fs d res d' :
  catalogue U -> catalogued U (files d) -> honest U (files d) (files d) ->
  run fs (AggregateStateStore.finance_rollup s table at_ spec) d = (Ok res, d') ->
  exists r ss, version_of (files d) (as_db s) at_ r /\
    map_res (segment_samples (files d) spec) (mf_segments (rt_manifest r)) = Ok ss /\
    forall a v, In a (fr_groups res) -> whole v (of_group (fa_group a) (concat ss)) ->
      fa_volume a = f64_of_int (sum_of v (of_group (fa_group a) (concat ss))).
Proof.
  intros HU Hc Hh Hrun. pose proof (wpc_run true _ _ _ _ fs (wpc_finance_rollup U HU s table at_ spec d Hc Hh) ltac:(done)) as Hw.
  rewrite Hrun in Hw. destruct Hw as [_ (r & ss & Hv & _ & Hs & _ & Ha)]. exists r, ss. do 2 (split; [done|]).
  intros a v Hin. by apply Ha.
Qed.

(** C32 A rollup touches nothing but sidecars, and keeps them honest: at every moment of it,
    whichever calls fail, every other file is as it was, flushed or not, and a sidecar
    that verifies for a segment and a plan is the sealed state of the rows of that segment. *)
Theorem rollup_keeps_to_its_cache U s table at_ spec fs d :
  catalogue U -> catalogued U (files d) -> honest U (files d) (files d) ->
  Forall (fun d' => kept d d' /\ honest U (files d') (files d')) (states fs (AggregateStateStore.finance_rollup s table at_ spec) d).
Proof.
  intros HU Hc Hh. pose proof (wpc_states _ _ _ _ fs (wpc_finance_rollup U HU s table at_ spec d Hc Hh)) as Hw.
  eapply Forall_impl; [exact Hw|]. intros d' [Hk Hh']. split; [done|]. intros seg sp plan f e Hs Hp Hf He.
  destruct (Hh' seg sp plan f e Hs Hp Hf He) as (bs & e0 & Hb & He0 & ->). exists bs, e0.
  by rewrite (kept_batches U HU d d' sp seg Hk Hs).
Qed.

(** C33 A warm rollup equals the cold one to the last bit and scans nothing: after a rollup
    in the mode [ReadWrite] whose sidecars were not evicted, another one of the same version
    and plan, in any mode that reads sidecars, reports the same groups, floats included; it
    reuses every state, builds none and finds none corrupt, and leaves the disk as it is. *)
Theorem warm_rollup_equals_cold U s s' table at_ spec r d d1 d2 d3 res :
  catalogue U -> honest U (files d) (files d) -> Forall U (mf_segments (rt_manifest r)) -> NoDup (mf_segments (rt_manifest r)) ->
  (forall seg S, In seg (mf_segments (rt_manifest r)) -> segment_samples (files d) spec seg = Ok S -> zlen S < 2 ^ 64) ->
  as_mode s = ReadWrite -> as_mode s' <> Disabled ->
  run [] (Database.resolve (as_db s) table at_) d = (Ok r, d1) ->
  run [] (AggregateStateStore.finance_rollup s table at_ spec) d = (Ok res, d2) ->
  (forall seg plan, In seg (mf_segments (rt_manifest r)) -> AggregateStateStore.validate_and_hash r spec = Ok plan ->
     is_Some (files d2 !! AggregateStateStore.state_path seg plan)) ->
  run [] (Database.resolve (as_db s') table at_) d2 = (Ok r, d3) ->
  exists res', run [] (AggregateStateStore.finance_rollup s' table at_ spec) d2 = (Ok res', d3) /\
    same_files d2 d3 /\ fr_groups res' = fr_groups res /\
    fr_metrics res' = reuse (length (mf_segments (rt_manifest r)))
      (AggregateStateMetrics_default <| am_states_requested := zlen (mf_segments (rt_manifest r)) |>).
Proof.
  intros HU Hh HUs Hn Hz Hmode Hmode' Hres Hrun Hthere Hres'.
  pose proof (resolve_same (as_db s) table at_ d) as Hs1. rewrite Hres in Hs1. cbn in Hs1.
  pose proof (resolve_same (as_db s') table at_ d2) as Hs3. rewrite Hres' in Hs3. cbn in Hs3.
  unfold AggregateStateStore.finance_rollup in *. rewrite run_bind, Hres, run_bind in Hrun. rewrite run_bind, Hres', run_bind.
  destruct (AggregateStateStore.validate_and_hash r spec) as [plan|err] eqn:Ep; [|done].
  change (run [] (lift (Ok plan)) d1) with (@Ok StoreError _ plan, d1) in Hrun. change (run [] (lift (Ok plan)) d3) with (@Ok StoreError _ plan, d3).
  cbv beta iota zeta in Hrun |- *. rewrite run_bind in Hrun. rewrite run_bind.
  destruct (run [] (fold_prog _ _ _) d1) as [[[merged mt]|err] d4] eqn:Ef; [|done]. cbn in Hrun. injection Hrun as <- <-.
  assert (Hi : cache_inv U d d1) by (eapply inv_same; [by split|exact Hs1]).
  destruct (cold_run U HU s spec plan d _ Hmode ltac:(by exists r) HUs Hn Hz _ _ _ _ _ _ Hi Ef) as (es & Hes & Hread & _).
  rewrite <- (proj1 Hs3) in Hread, Hthere.
  rewrite (warm_run s' spec plan _ es d3 Hmode' Hread (fun seg Hs => Hthere seg plan Hs eq_refl) [] _ merged Hes).
  eexists. split; [done|]. done.
Qed.
End RollupTheorems.
