(* ===== verification/QueryWitness.v ===== *)
(** * The query layer at work

    [QueryKernels] and [SidecarKernels] over the columns of [RowDemo], with their laws, the
    witnesses of the theorems about joins and rollups, and the runs of the query layer that
    surprise. *)
From S2P Require Export RowWitness AsOfTheorems RollupProps.
From stdpp Require Import countable strings.
#[local] Open Scope Z_scope.

Definition demo_cell (s : Schema) (row : list (option Cell)) (name : string) : option Cell :=
  TableSpec.index_of s name ≫= fun i => default None (row !! i).
Definition demo_compared (a : option Cell) (op : Operator) (b : option Cell) : bool :=
  match a, b with Some (CInt x), Some (CInt y) => op_holds op x y | _, _ => false end.

#[export] Instance demo_query : QueryKernels := {|
  dictionary_value := fun _ => None;
  row_data := fun _ row => to_text (encode (map cell_key row));
  holds := fun s row e =>
    match e with
    | EBin (ECol _ n) op (ELit v) => demo_compared (demo_cell s row n) op (sv_cell v)
    | EBin (ELit v) op (ECol _ n) => demo_compared (sv_cell v) op (demo_cell s row n)
    | _ => true
    end;
|}.

Lemma cell_key_compare a b : length a = length b -> map cell_key a = map cell_key b <-> compare_keys a b = Eq.
Proof.
  revert b. induction a as [|x a IH]; intros [|y b]; try done. intros [= Hl]. specialize (IH b Hl).
  assert (compare_keys (x :: a) (y :: b) = match kcmp (cell_key x) (cell_key y) with Eq => compare_keys a b | c => c end) as -> by done.
  assert (Hc : forall (k k' : Z * (Z * string)) l l', k :: l = k' :: l' <-> k = k' /\ l = l').
  { clear. split; [intros E; by simplify_eq|by intros [-> ->]]. }
  cbn [map]. rewrite Hc. destruct (kcmp (cell_key x) (cell_key y)) eqn:E.
  - apply kcmp_eq in E. tauto.
  - split; [|done]. intros [H' _]. by rewrite H', kcmp_refl in E.
  - split; [|done]. intros [H' _]. by rewrite H', kcmp_refl in E.
Qed.

#[export] Instance demo_query_spec : QuerySpec.
Proof.
  split.
  - intros ts a b Ha Hb. rewrite <- cell_key_compare by congruence. cbn. split; [|by intros ->].
    intros E. apply (f_equal of_text) in E. rewrite !of_to_text in E. by apply (inj encode) in E.
  - intros s row q n i v t w op Hi Hr _. cbn. unfold demo_compared, demo_cell. rewrite Hi. cbn. by rewrite Hr.
  - intros s row q n i v t w op Hi Hr _. cbn. unfold demo_compared, demo_cell. rewrite Hi. cbn. by rewrite Hr.
Qed.

(** ** Trades and quotes *)
Definition trade_schema : Schema := [mkField "ts" Int64 false; mkField "sym" Int64 true].
Definition quote_schema : Schema := [mkField "ts" Int64 false; mkField "sym" Int64 true; mkField "bid" Int64 true].
Definition batch_of (s : Schema) (rows : list (list Z)) : RecordBatch :=
  default (mkBatch Cell [] [] 0) (of_rows s (map (map (fun z => Some (CInt z))) rows)).
Definition trades : list RecordBatch := [batch_of trade_schema [[10; 1]; [20; 2]]; batch_of trade_schema [[30; 1]]].
Definition quotes : list RecordBatch := [batch_of quote_schema [[5; 1; 100]; [10; 1; 101]]; batch_of quote_schema [[25; 2; 200]; [29; 1; 102]]].
Definition by_sym (dir : AsOfDirection) (tol : option Z) : AsOfOptions := mkAsOfOptions "ts" "ts" [("sym", "sym")] dir tol false.
Definition asof (o : AsOfOptions) (left right : list RecordBatch) : DfResult (list (list (option Z))) :=
  let? '(schema, kept) := AsOf.asof_output_schema trade_schema quote_schema o in
  let? out := Joiner.execute (fun _ _ => true) trade_schema quote_schema schema kept o right left in
  Ok (map (map (fun c => match c with Some (CInt z) => Some z | _ => None end)) (all_rows out)).

Example asof_backward : asof (by_sym Backward None) trades quotes =
  Ok [[Some 10; Some 1; Some 10; Some 101]; [Some 20; Some 2; None; None]; [Some 30; Some 1; Some 29; Some 102]].
Proof. vm_compute. reflexivity. Qed.
Example asof_forward : asof (by_sym Forward (Some 5)) trades quotes =
  Ok [[Some 10; Some 1; Some 10; Some 101]; [Some 20; Some 2; Some 25; Some 200]; [Some 30; Some 1; None; None]].
Proof. vm_compute. reflexivity. Qed.

(** ** Runs that surprise *)

(** A negative tolerance, which the pushdown takes for no tolerance, refuses every match. *)
Example negative_tolerance_refuses_all : asof (by_sym Backward (Some (-1))) trades quotes =
  Ok [[Some 10; Some 1; None; None]; [Some 20; Some 2; None; None]; [Some 30; Some 1; None; None]].
Proof. vm_compute. reflexivity. Qed.

(** Times [2^63] apart are within any tolerance: their difference wraps around. *)
Example far_times_wrap : asof (by_sym Backward (Some 1))
    [batch_of trade_schema [[i64_max; 1]]] [batch_of quote_schema [[-1; 1; 100]]] =
  Ok [[Some i64_max; Some 1; Some (-1); Some 100]].
Proof. vm_compute. reflexivity. Qed.

(** ** Witnesses of the theorems on the query layer: the trades and quotes of [QueryDemo]. *)
Import MergeProps.
#[local] Open Scope Z_scope.

Lemma batch_of_uniform s rows : s <> [] -> rb_schema (batch_of s rows) = s -> uniform s (batch_of s rows).
Proof.
  intros Hs He. split; [done|]. revert He. unfold batch_of. destruct (of_rows _ _) as [b|] eqn:E; cbn; [|congruence].
  by apply of_rows_spec in E as (_ & _ & Hv & _).
Qed.
Ltac uniform_batches := repeat (apply List.Forall_cons; [apply batch_of_uniform; done|]); apply List.Forall_nil.

Definition within_five : AsOfOptions := by_sym Backward (Some 5).
Lemma asof_join_is_its_definition_witness :
  let o := within_five in
  match AsOf.asof_output_schema trade_schema quote_schema o with
  | Err _ => False
  | Ok (schema, kept) =>
      match Joiner.execute (fun _ _ => true) trade_schema quote_schema schema kept o quotes trades with
      | Err _ => False
      | Ok out => exists types lti ti lbi bi,
          AsOf.by_key_types trade_schema quote_schema o = Ok types /\
          all_rows out = join_rows o kept (concat (map (keyed_rows lti lbi types) trades)) (concat (map (keyed_rows ti bi types) quotes))
      end
  end.
Proof.
  intros o. destruct (AsOf.asof_output_schema trade_schema quote_schema o) as [[schema kept]|] eqn:Hs; [|discriminate Hs].
  assert (Hl : Forall (uniform trade_schema) trades) by uniform_batches.
  assert (Hr : Forall (uniform quote_schema) quotes) by uniform_batches.
  destruct (Joiner.execute (fun _ _ => true) trade_schema quote_schema schema kept o quotes trades) as [out|] eqn:Ho.
  - destruct (asof_join_is_its_definition (fun _ _ => true) _ _ _ _ _ _ _ Hl Hr Hs) as [Hj _].
    destruct (Hj out Ho) as (types & lti & ti & lbi & bi & Ht & Hlt & Hrt & Hlb & Hrb & He). exists types, lti, ti, lbi, bi.
    split; [exact Ht|]. apply He. clear He. vm_compute in Ht, Hlt, Hrt, Hlb, Hrb. injection Ht as <-. injection Hlt as <-. injection Hrt as <-.
    injection Hlb as <-. injection Hrb as <-. split; [vm_compute; discriminate|].
    apply (bool_decide_eq_true_1 (Forall _ _)). vm_compute. reflexivity.
  - vm_compute in Hs. injection Hs as <- <-. vm_compute in Ho. discriminate Ho.
Defined.

(** Trades from 20 on, their symbol and the bid: the scan of the quotes starts at 15. *)
Definition recent_trades : AsOfTableProvider :=
  mkAsOfTableProvider trade_schema quote_schema within_five
    (trade_schema ++ [mkField "ts_right" Int64 true; mkField "bid" Int64 true]) [0; 2]%nat.
Definition from_20 : Expr := EBin (ECol (Some "t") "ts") OGtEq (ELit (mkScalar Int64 (Some (CInt 20)))).
Definition keyed (rows : list (list Z)) : list KeyedRow :=
  map (fun r => mkKeyedRow (nth 0 r 0) [Some (CInt (nth 1 r 0))] (map (fun z => Some (CInt z)) r)) rows.
Definition trade_rows : list KeyedRow := keyed [[10; 1]; [20; 2]; [30; 1]].
Definition quote_rows : list KeyedRow := keyed [[5; 1; 100]; [10; 1; 101]; [25; 2; 200]; [29; 1; 102]].
Lemma asof_pushdown_is_sound_witness :
  match AsOfTableProvider.scan recent_trades (Some [1; 3]%nat) [from_20] None with
  | Err _ => False
  | Ok plan =>
      AsOfTableProvider.pl_right_filters plan = [EBin (ECol None "ts") OGtEq (ELit (mkScalar Int64 (Some (CInt 15))))] /\
      let wanted := List.filter (passes trade_schema (AsOfTableProvider.pl_left_filters plan)) trade_rows in
      asof_rows within_five [0; 2]%nat (limited (AsOfTableProvider.pl_left_limit plan) wanted)
        (List.filter (passes quote_schema (AsOfTableProvider.pl_right_filters plan)) quote_rows) =
      limited (AsOfTableProvider.pl_left_limit plan) (asof_rows within_five [0; 2]%nat wanted quote_rows)
  end.
Proof.
  destruct (AsOfTableProvider.scan recent_trades (Some [1; 3]%nat) [from_20] None) as [plan|] eqn:Hp; [|discriminate Hp].
  assert (Hf : AsOfTableProvider.pl_right_filters plan = [EBin (ECol None "ts") OGtEq (ELit (mkScalar Int64 (Some (CInt 15))))])
    by (vm_compute in Hp; injection Hp as <-; reflexivity).
  split; [exact Hf|].
  apply (asof_pushdown_is_sound recent_trades (Some [1; 3]%nat) [from_20] None plan 0 0 [0; 2]%nat trade_rows quote_rows Hp);
    [reflexivity|reflexivity|..]; repeat constructor; vm_compute; intuition discriminate.
Defined.

(** ** Rollups: a table of trades with prices and volumes, and sidecars that are texts *)
Module RollupDemo.
Abbreviation Tree := (gen_tree (Z + string)) (only parsing).
Definition zt (z : Z) : Tree := GenLeaf (inl z).
Definition st (s : string) : Tree := GenLeaf (inr s).
Definition bt (b : bool) : Tree := zt (if b then 1 else 0).
Definition float_tree (x : f64) : Tree :=
  match x with
  | S754_zero s => GenNode 0 [bt s] | S754_infinity s => GenNode 1 [bt s] | S754_nan => GenNode 2 []
  | S754_finite s m e => GenNode 3 [bt s; zt (Z.pos m); zt e]
  end.
Definition key_tree (k : PointKey) : Tree :=
  GenNode 0 [zt (pk_timestamp k); zt (pk_created_by_sequence k); st (pk_segment k); zt (pk_row k)].
Definition name_tree (o : option string) : Tree := GenNode 0 (match o with Some s => [st s] | None => [] end).
Definition group_tree (g : GroupState) : Tree :=
  GenNode 0 [name_tree (gs_group g); zt (gs_rows g); key_tree (gs_open_key g); key_tree (gs_close_key g);
    float_tree (gs_open g); float_tree (gs_high g); float_tree (gs_low g); float_tree (gs_close g);
    float_tree (gs_volume g); float_tree (gs_price_volume g)].
Definition entry_tree (e : AggregateStateEntry) : Tree :=
  GenNode 0 [zt (ae_format e); st (ae_segment_checksum e); zt (ae_schema_revision e); st (ae_aggregate_plan_hash e);
    zt (ae_expression_semantics_version e); zt (ae_source_row_count e); GenNode 0 (map group_tree (ae_groups e)); st (ae_checksum e)].

Definition tree_z (t : Tree) : Z := match t with GenLeaf (inl z) => z | _ => 0 end.
Definition tree_s (t : Tree) : string := match t with GenLeaf (inr s) => s | _ => "" end.
Definition tree_b (t : Tree) : bool := tree_z t =? 1.
Definition tree_float (t : Tree) : f64 :=
  match t with
  | GenNode O [s] => S754_zero (tree_b s) | GenNode 1 [s] => S754_infinity (tree_b s)
  | GenNode 3 [s; m; e] => S754_finite (tree_b s) (Z.to_pos (tree_z m)) (tree_z e)
  | _ => S754_nan
  end.
Definition tree_key (t : Tree) : option PointKey :=
  match t with GenNode _ [a; b; c; d] => Some (mkPointKey (tree_z a) (tree_z b) (tree_s c) (tree_z d)) | _ => None end.
Definition tree_name (t : Tree) : option string := match t with GenNode _ [s] => Some (tree_s s) | _ => None end.
Definition tree_group (t : Tree) : option GroupState :=
  match t with
  | GenNode _ [n; r; ok; ck; o; h; l; c; v; pv] =>
      ok ← tree_key ok; ck ← tree_key ck;
      Some (mkGroupState (tree_name n) (tree_z r) ok ck (tree_float o) (tree_float h) (tree_float l) (tree_float c)
              (tree_float v) (tree_float pv) f64_zero f64_zero)
  | _ => None
  end.
Definition tree_entry (t : Tree) : option AggregateStateEntry :=
  match t with
  | GenNode _ [f; sc; r; p; v; n; GenNode _ gs; c] =>
      gs ← mapM tree_group gs;
      Some (mkAggregateStateEntry (tree_z f) (tree_s sc) (tree_z r) (tree_s p) (tree_z v) (tree_z n) gs (tree_s c))
  | _ => None
  end.

Lemma tree_float_back x : tree_float (float_tree x) = x.
Proof. destruct x as [[]|[]| |[] m e]; done. Qed.
Lemma tree_group_back g : gs_c_volume g = f64_zero -> gs_c_price_volume g = f64_zero -> tree_group (group_tree g) = Some g.
Proof.
  destruct g as [n r [] [] o h l c v pv cv cp]. cbn [gs_c_volume gs_c_price_volume]. intros -> ->.
  unfold tree_group, group_tree. cbn [gs_group gs_rows gs_open_key gs_close_key gs_open gs_high gs_low gs_close gs_volume gs_price_volume].
  rewrite !tree_float_back. by destruct n.
Qed.
Lemma tree_entry_back e : Forall settled (ae_groups e) -> tree_entry (entry_tree e) = Some e.
Proof.
  intros Hs. destruct e as [f sc r p v n gs c]. cbn in Hs. unfold tree_entry, entry_tree. cbn [ae_groups].
  assert (mapM tree_group (map group_tree gs) = Some gs) as ->; [|done].
  induction Hs as [|g gs [Hv [Hp _]] _ IH]; [done|]. cbn [map mapM]. rewrite tree_group_back by done. cbn. by rewrite IH.
Qed.

#[local] Instance sidecar_texts : SidecarKernels := {|
  blake3_hex := fun t => t;
  entry_to_vec := fun e => Some (to_text (encode (entry_tree e)));
  entry_from_slice := fun t => decode (of_text t) ≫= tree_entry;
  plan_to_vec := fun p => Some (to_text (encode p));
  debug_type := fun _ => "type";
|}.
#[local] Instance sidecar_laws : SidecarLaws.
Proof.
  split; cbn.
  - done.
  - intros a b t [= <-] E. injection E as E. apply (f_equal of_text) in E. rewrite !of_to_text in E. symmetry. by apply (inj encode) in E.
  - by eexists.
  - intros e bytes Hs [= <-]. rewrite of_to_text, decode_encode. cbn. by apply tree_entry_back.
Qed.

(** *** Trades: a segment's content names its rows *)
Definition bar_schema : Schema := [mkField "ts" Int64 false; mkField "sym" Utf8 false; mkField "px" Float64 false; mkField "sz" Float64 false].
Definition trade (ts : Z) (sym : string) (px sz : Z) : Row :=
  [Some (CInt ts); Some (CStr sym); Some (CFloat (f64_of_int px)); Some (CFloat (f64_of_int sz))].
Definition trades_of (content : string) : list Row :=
  if String.eqb content "aaaa" then [trade 10 "A" 5 2; trade 20 "A" 7 1; trade 10 "B" 1 4]
  else if String.eqb content "bbbb" then [trade 10 "A" 6 3; trade 30 "B" 2 1]
  else if String.eqb content "cccc" then [trade 10 "A" 5 (2 ^ 53); trade 20 "A" 5 1]
  else [trade 30 "A" 5 1].
#[local] Instance bar_rows : ArrowRows := {|
  arrow_kernels := demo_kernels;
  cell_compare := demo_compare;
  comparable := fun _ => true;
  row_converter := fun _ => true;
  convert_columns := fun _ _ => true;
  compute_min := compute_min;
  compute_max := compute_max;
  concat_batches := concat_batches;
  lexsort_to_indices := demo_lexsort;
  Arrow.take := Arrow.take;
  Arrow.interleave := Arrow.interleave;
  filter_record_batch := filter_record_batch;
  get_array_memory_size := get_array_memory_size;
  json_f64 := json_f64;
  ipc_write := ipc_write;
  ipc_read := ipc_read;
  b64_encode := b64_encode;
  b64_decode := b64_decode;
  parquet_write := parquet_write;
  parquet_metadata := fun _ => Some (mkParquetMeta bar_schema [] []);
  parquet_read := fun content _ _ => b ← of_rows bar_schema (trades_of content); Some [b];
|}.

Definition bar_segment (t id content : string) (seq : Z) : SegmentMeta :=
  mkSegmentMeta id (segment_path t id) (zlen (trades_of content)) 4 (digest (OSegment content)) None false 1 seq [].
Definition bar_append (id content : string) : prog CommitResult :=
  let! '(entry, spec, h, parent) := Commit.write_prologue demo_db "t" OpAppend no_opts in
  let t := ce_table_id entry in
  let seq := hd_sequence (hs_head h) + 1 in
  do! Backend.put (segment_path t id) (OSegment content) in
  Commit.commit_staged demo_db (mkStagedCommit entry h
    (child_manifest parent seq OpAppend no_opts spec <| mf_segments := mf_segments parent ++ [bar_segment t id content seq] |>)
    1 0 None (mkCommitInputs None None)).
Definition bars_created : Disk :=
  after (do! Database.create "demo" "1" in Commit.create_table demo_db "t" bar_schema demo_options) nowhere.
Definition bars : Disk := after (do! bar_append "a" "aaaa" in bar_append "b" "bbbb") bars_created.
Definition big_bars : Disk := after (do! bar_append "c" "cccc" in bar_append "d" "dddd") bars_created.

Definition by_symbol : FinanceAggregateSpec := FinanceAggregateSpec.grouped_by (FinanceAggregateSpec.ohlcv "ts" "px" "sz") "sym".
Definition rollup (mode : AggregateStateMode) : prog FinanceAggregateResult :=
  AggregateStateStore.finance_rollup (AggregateStateStore.new demo_db mode) "t" Latest by_symbol.
Definition whole_of (x : f64) : Z := f64_as_i64 x.
Definition shown (r : DbResult FinanceAggregateResult) : list (option string * Z * list Z) :=
  match r with
  | Ok res => map (fun a => (fa_group a, fa_rows a, map whole_of [fa_open a; fa_high a; fa_low a; fa_close a; fa_volume a])) (fr_groups res)
  | Err _ => []
  end.
Definition counted (r : DbResult FinanceAggregateResult) : list Z :=
  match r with
  | Ok res => let m := fr_metrics res in [am_states_requested m; am_states_reused m; am_states_built m; am_corrupt_entries m; am_evictions m]
  | Err _ => []
  end.

Example rollup_by_symbol : shown (result_on (rollup Disabled) bars) =
  [(Some "A", 3, [5; 7; 5; 7; 6]); (Some "B", 2, [1; 2; 1; 2; 5])].
Proof. vm_compute. reflexivity. Qed.
Definition warm_bars : Disk := after (rollup ReadWrite) bars.
Example rollup_cold_then_warm :
  counted (result_on (rollup ReadWrite) bars) = [2; 0; 2; 0; 0] /\ counted (result_on (rollup ReadOnlyMode) warm_bars) = [2; 2; 0; 0; 0].
Proof. split; vm_compute; reflexivity. Qed.

(** *** Where the hypotheses hold *)
Definition segments_of (d : Disk) : list SegmentMeta :=
  match result_on (Database.resolve demo_db "t" Latest) d with Ok r => mf_segments (rt_manifest r) | Err _ => [] end.
Definition of_list (segs : list SegmentMeta) (g : SegmentMeta) : Prop := In g segs.
Definition catalogue_ok (segs : list SegmentMeta) : bool :=
  forallb (fun a => forallb (fun b => negb (String.eqb (sg_id a) (sg_id b)) || bool_decide (a = b)) segs &&
    colon_free (sg_id a) && (0 <=? sg_created_by_sequence a) && negb (is_prefix PREFIX (sg_path a))) segs.
Lemma catalogue_of segs : catalogue_ok segs = true -> catalogue (of_list segs).
Proof.
  unfold catalogue_ok. intros Hok. rewrite forallb_forall in Hok.
  assert (Hall : forall a, In a segs -> (forall b, In b segs -> sg_id a = sg_id b -> a = b) /\ colon_free (sg_id a) = true /\
    0 <= sg_created_by_sequence a /\ is_prefix PREFIX (sg_path a) = false).
  { intros a Ha. apply Hok in Ha as [[[Hs Hc]%andb_true_iff Hq]%andb_true_iff Hp]%andb_true_iff.
    split; [|split; [done|]; split; [by apply Z.leb_le|by apply negb_true_iff]].
    rewrite forallb_forall in Hs. intros b Hb E. specialize (Hs b Hb). rewrite E, String.eqb_refl in Hs. by apply bool_decide_eq_true in Hs. }
  split; intros a Ha; [|by apply Hall..]. intros b Hb E _. by apply Hall.
Qed.
Definition lists_only (segs : list SegmentMeta) (_ : Path) (f : File) : bool :=
  match fl_obj f with OManifest mf => forallb (fun g => existsb (fun h => bool_decide (g = h)) segs) (mf_segments mf) | _ => true end.
Lemma catalogued_of segs m : each_file (lists_only segs) m = true -> catalogued (of_list segs) m.
Proof.
  intros Hf t n mf (f & Hm & Ho). pose proof (each_file_spec _ _ _ _ Hf Hm) as Hok. unfold lists_only in Hok. rewrite Ho, forallb_forall in Hok.
  apply List.Forall_forall. intros g Hg. apply Hok, existsb_exists in Hg as (h & Hh & ->%bool_decide_eq_true). done.
Qed.
Definition no_sidecar (p : Path) (_ : File) : bool := negb (is_prefix PREFIX p).
Lemma honest_fresh U m : each_file no_sidecar m = true -> honest U m m.
Proof. intros Hf seg spec plan f e _ _ Hm. by pose proof (each_file_spec _ _ _ _ Hf Hm). Qed.

(** The first write of a sidecar fails after it took effect, then a read, then a write. *)
Definition shaky : list Fault := replicate 6 NoFault ++ [FailAfter; FailBefore; NoFault; FailBefore].
Lemma rollup_is_of_all_rows_witness :
  match run shaky (rollup ReadWrite) bars with
  | (Ok res, _) => counted (Ok res) = [2; 0; 2; 0; 0] /\ exists r ss, version_of (files bars) demo_db Latest r /\
      map_res (segment_samples (files bars) by_symbol) (mf_segments (rt_manifest r)) = Ok ss /\
      Forall (fun a => reports (of_group (fa_group a) (concat ss)) a) (fr_groups res)
  | (Err _, _) => False
  end.
Proof.
  assert (Hok : match (run shaky (rollup ReadWrite) bars).1 with Ok res => counted (Ok res) = [2; 0; 2; 0; 0] | Err _ => False end)
    by (vm_compute; reflexivity).
  destruct (run shaky (rollup ReadWrite) bars) as [[res|err] d'] eqn:E; cbn [fst] in Hok; [|destruct Hok]. split; [exact Hok|].
  destruct (rollup_is_of_all_rows (of_list (segments_of bars)) (AggregateStateStore.new demo_db ReadWrite) "t" Latest by_symbol shaky bars res d')
    as (r & ss & Hv & _ & Hs & _ & Ha).
  - apply catalogue_of. vm_compute. reflexivity.
  - apply catalogued_of. vm_compute. reflexivity.
  - apply honest_fresh. vm_compute. reflexivity.
  - exact E.
  - exists r, ss. auto.
Defined.

Lemma whole_volumes_are_exact_witness :
  match run [] (rollup Disabled) bars with
  | (Ok res, _) => exists r ss, version_of (files bars) demo_db Latest r /\
      forall a v, In a (fr_groups res) -> whole v (of_group (fa_group a) (concat ss)) ->
        fa_volume a = f64_of_int (sum_of v (of_group (fa_group a) (concat ss)))
  | (Err _, _) => False
  end.
Proof.
  assert (Hok : match (run [] (rollup Disabled) bars).1 with Ok _ => True | Err _ => False end) by (vm_compute; exact I).
  destruct (run [] (rollup Disabled) bars) as [[res|err] d'] eqn:E; cbn [fst] in Hok; [|destruct Hok].
  destruct (whole_volumes_are_exact (of_list (segments_of bars)) (AggregateStateStore.new demo_db Disabled) "t" Latest by_symbol [] bars res d')
    as (r & ss & Hv & _ & Ha).
  - apply catalogue_of. vm_compute. reflexivity.
  - apply catalogued_of. vm_compute. reflexivity.
  - apply honest_fresh. vm_compute. reflexivity.
  - exact E.
  - exists r, ss. auto.
Defined.

Lemma rollup_keeps_to_its_cache_witness :
  (length (states shaky (rollup ReadWrite) bars) = 11)%nat /\
  Forall (fun d' => kept bars d' /\ honest (of_list (segments_of bars)) (files d') (files d')) (states shaky (rollup ReadWrite) bars).
Proof.
  split; [vm_compute; reflexivity|].
  apply (rollup_keeps_to_its_cache (of_list (segments_of bars)) (AggregateStateStore.new demo_db ReadWrite) "t" Latest by_symbol shaky bars).
  - apply catalogue_of. vm_compute. reflexivity.
  - apply catalogued_of. vm_compute. reflexivity.
  - apply honest_fresh. vm_compute. reflexivity.
Defined.

(** *** Warm and cold *)
Definition resolved (d : Disk) : ResolvedTable * Disk :=
  match run [] (Database.resolve demo_db "t" Latest) d with
  | (Ok r, d') => (r, d')
  | (Err _, d') => (mkResolvedTable (mkCatalogEntry "" "" 0 0 "") small_spec [] (demo_ms bars 0) 0, d')
  end.
Definition resolves (d : Disk) : bool := match (run [] (Database.resolve demo_db "t" Latest) d).1 with Ok _ => true | Err _ => false end.
Lemma resolved_run d : resolves d = true -> run [] (Database.resolve demo_db "t" Latest) d = (Ok (resolved d).1, (resolved d).2).
Proof. unfold resolves, resolved. by destruct (run [] _ d) as [[r|e] d']. Qed.
Definition cold_bars : Disk := (run [] (rollup ReadWrite) bars).2.
Definition sidecars_there : bool :=
  match AggregateStateStore.validate_and_hash (resolved bars).1 by_symbol with
  | Ok plan => forallb (fun g => bool_decide (is_Some (files cold_bars !! AggregateStateStore.state_path g plan))) (segments_of bars)
  | Err _ => false
  end.
Definition few_rows : bool :=
  forallb (fun g => match segment_samples (files bars) by_symbol g with Ok rows => zlen rows <? 2 ^ 64 | Err _ => true end) (segments_of bars).

Lemma warm_rollup_equals_cold_witness :
  match run [] (rollup ReadWrite) bars with
  | (Ok res, d2) => exists res', run [] (rollup ReadOnlyMode) d2 = (Ok res', (resolved d2).2) /\ fr_groups res' = fr_groups res /\
      counted (Ok res') = [2; 2; 0; 0; 0]
  | (Err _, _) => False
  end.
Proof.
  assert (Hok : match (run [] (rollup ReadWrite) bars).1 with Ok _ => True | Err _ => False end) by (vm_compute; exact I).
  assert (Hd : (run [] (rollup ReadWrite) bars).2 = cold_bars) by reflexivity.
  assert (Hr : resolves bars = true) by (vm_compute; reflexivity). apply resolved_run in Hr.
  assert (Hr2 : resolves cold_bars = true) by (vm_compute; reflexivity). apply resolved_run in Hr2.
  assert (Hsame : (resolved cold_bars).1 = (resolved bars).1) by (vm_compute; reflexivity). rewrite Hsame in Hr2.
  assert (Hside : sidecars_there = true) by (vm_compute; reflexivity).
  assert (Hsegs : mf_segments (rt_manifest (resolved bars).1) = segments_of bars) by (vm_compute; reflexivity).
  destruct (run [] (rollup ReadWrite) bars) as [[res|err] d2] eqn:E; cbn [fst snd] in Hok, Hd; [|destruct Hok]. subst d2.
  destruct (warm_rollup_equals_cold (of_list (segments_of bars)) (AggregateStateStore.new demo_db ReadWrite) (AggregateStateStore.new demo_db ReadOnlyMode)
    "t" Latest by_symbol (resolved bars).1 bars (resolved bars).2 cold_bars (resolved cold_bars).2 res) as (res' & Hrun & _ & Hg & Hm).
  - apply catalogue_of. vm_compute. reflexivity.
  - apply honest_fresh. vm_compute. reflexivity.
  - rewrite Hsegs. apply List.Forall_forall. intros g Hg. exact Hg.
  - rewrite Hsegs. apply (bool_decide_unpack (NoDup (segments_of bars))). vm_compute. exact I.
  - rewrite Hsegs. assert (Hf : few_rows = true) by (vm_compute; reflexivity). unfold few_rows in Hf. intros g S Hin HS.
    apply forallb_forall with (x := g) in Hf; [|exact Hin]. rewrite HS in Hf. by apply Z.ltb_lt.
  - reflexivity.
  - discriminate.
  - exact Hr.
  - exact E.
  - rewrite Hsegs. unfold sidecars_there in Hside. intros g plan Hin Hp. rewrite Hp in Hside.
    apply forallb_forall with (x := g) in Hside; [|exact Hin]. by apply bool_decide_eq_true in Hside.
  - exact Hr2.
  - exists res'. split; [exact Hrun|]. split; [exact Hg|]. unfold counted. rewrite Hm, Hsegs. vm_compute. reflexivity.
Defined.

(** *** Runs that surprise *)

(** A state that was not sealed keeps its compensation while it is merged, a sealed one has it
    folded in: without sidecars the sum is [2 ^ 53 + 2], with them [2 ^ 53]. *)
Example unsealed_sum_differs :
  shown (result_on (rollup Disabled) big_bars) = [(Some "A", 3, [5; 5; 5; 5; 2 ^ 53 + 2])] /\
  shown (result_on (rollup ReadWrite) big_bars) = [(Some "A", 3, [5; 5; 5; 5; 2 ^ 53])].
Proof. split; vm_compute; reflexivity. Qed.

(** The cast back saturates: the greatest integer passes the check although its float is one more. *)
Example greatest_volume_is_inexact :
  f64_value (mkArray Cell Int64 [Some (CInt i64_max)]) 0 = Ok (f64_of_int (2 ^ 63)).
Proof. vm_compute. reflexivity. Qed.
End RollupDemo.
