(* ===== verification/Decimal.v ===== *)
(** * Fixed-point columns ([decimal.rs])

    The two encodings of a fixed-point column, the builder and the reader, and the theorem
    that says for which values the column reads back what was written: always with decimals,
    below [2^22] units with floats. *)
From S2P Require Export Types Float64 Arrow.
#[local] Open Scope Z_scope.

Definition DECIMAL_SCALE : Z := 9.
Definition DECIMAL_PRECISION : Z := 38.

Inductive FixedEncoding := EncFloat | EncDecimal.
#[export] Instance FixedEncoding_eq_dec : EqDecision FixedEncoding.
Proof. solve_decision. Defined.

Module FixedEncoding.
Definition default : FixedEncoding := EncFloat.
Definition data_type (e : FixedEncoding) : DataType :=
  match e with EncFloat => Float64 | EncDecimal => Decimal128 DECIMAL_PRECISION DECIMAL_SCALE end.
Definition of_type (t : DataType) : option FixedEncoding :=
  match t with
  | Float64 => Some EncFloat
  | Decimal128 _ s => if s =? DECIMAL_SCALE then Some EncDecimal else None
  | _ => None
  end.
End FixedEncoding.

Definition fixed_field (name : string) (e : FixedEncoding) (nullable : bool) : Field :=
  mkField name (FixedEncoding.data_type e) nullable.

(** ** Reading *)
Definition read_scaled (v : f64) : Result (option Raw) :=
  let scaled := fmul v (f64_of_int SCALE) in
  if negb (is_finite scaled) then Err (NotFinite "column")
  else let? r := narrow (round_as_i128 scaled) "read_fixed" in Ok (Some r).
Definition read_fixed (a : Column) (row : nat) (name : string) : Result (option Raw) :=
  match cell a row with
  | None => Ok None
  | Some c =>
      match FixedEncoding.of_type (ar_type a), c with
      | Some EncFloat, CFloat v => read_scaled v
      | Some EncDecimal, CInt z => let? r := narrow z "read_fixed" in Ok (Some r)
      | _, _ => Err (Types.Schema "read" ("column " +:+ name +:+ " is not a fixed-point encoding"))
      end
  end.
Definition read_fixed_value (a : Column) (row : nat) (name : string) : Result Raw :=
  let? v := read_fixed a row name in
  ok_or v (Types.Schema "read" ("column " +:+ name +:+ " is null in a row where it must not be")).

(** ** Building *)
Module FixedBuilder.
Record FixedBuilder := mkFixedBuilder { fb_encoding : FixedEncoding; fb_cells : list (option Cell) }.
Definition new (e : FixedEncoding) : FixedBuilder := mkFixedBuilder e [].
Definition value (e : FixedEncoding) (raw : Raw) : Cell :=
  match e with EncFloat => CFloat (fdiv (f64_of_int raw) (f64_of_int SCALE)) | EncDecimal => CInt raw end.
Definition append (b : FixedBuilder) (raw : Raw) : FixedBuilder :=
  mkFixedBuilder (fb_encoding b) (fb_cells b ++ [Some (value (fb_encoding b) raw)]).
Definition append_null (b : FixedBuilder) : FixedBuilder :=
  mkFixedBuilder (fb_encoding b) (fb_cells b ++ [None]).
Definition finish (b : FixedBuilder) : Column :=
  mkArray Cell (FixedEncoding.data_type (fb_encoding b)) (fb_cells b).
(** A column of optional values. *)
Definition column (e : FixedEncoding) (raws : list (option Raw)) : Column :=
  finish (fold_left (fun b r => match r with Some raw => append b raw | None => append_null b end) raws (new e)).
End FixedBuilder.

(** The values an encoding holds exactly. *)
Definition holds_exactly (e : FixedEncoding) (raw : Raw) : Prop :=
  match e with EncFloat => Z.abs raw < 2 ^ 22 * SCALE | EncDecimal => True end.

(** ** Dividing by the scale and multiplying by it *)
Definition scale_mantissa : positive := 8388608000000000.
Lemma f64_of_scale : f64_of_int SCALE = S754_finite false scale_mantissa (-23).
Proof. vm_compute. reflexivity. Qed.

Lemma located_division m d : 0 <= m -> 0 < d -> Z.even d = true ->
  located m d (shr_record_of_loc (m / d) (new_location d (m mod d))).
Proof.
  intros Hm Hd He. pose proof (Z.div_pos m d Hm Hd). pose proof (Z.mod_pos_bound m d Hd).
  assert (HR : m - m / d * d = m mod d) by (rewrite Z.mod_eq by lia; lia).
  unfold new_location, new_location_even, located. rewrite He. destruct (Z.eqb_spec (m mod d) 0); cbn; [rewrite HR; lia|].
  destruct (Z.compare_spec (2 * (m mod d)) d); cbn; rewrite HR; lia.
Qed.

(** The quotient of a 53-bit number by the scale. *)
Lemma div_scale s m e : 2 ^ 52 <= Z.pos m < 2 ^ 53 -> -60 <= e <= 0 ->
  exists k, (k = 0 \/ (k = 1 /\ 2 ^ 53 * SCALE <= Z.pos m * 2 ^ 30)) /\
    rounded (Z.pos m * 2 ^ 53) (Z.pos scale_mantissa) (e - 30) k s (fdiv (S754_finite s m e) (f64_of_int SCALE)).
Proof.
  intros Hm He. rewrite f64_of_scale. unfold fdiv, SFdiv, SFdiv_core_binary.
  assert (Hd : Zdigits2 (Z.pos m) = 53).
  { rewrite Zdigits_log2 by lia. assert (52 <= Z.log2 (Z.pos m)) by (apply Z.log2_le_pow2; lia).
    assert (Z.log2 (Z.pos m) < 53) by (apply Z.log2_lt_pow2; lia). lia. }
  rewrite Hd. change (Zdigits2 (Z.pos scale_mantissa)) with 53. unfold fexp, emin.
  replace (Z.min _ _) with (e - 30) by lia. replace (e - -23 - (e - 30)) with 53 by lia.
  rewrite Z.shiftl_mul_pow2 by lia. set (q := Z.pos m * 2 ^ 53 / Z.pos scale_mantissa). set (r := (Z.pos m * 2 ^ 53) mod Z.pos scale_mantissa).
  assert (Z.div_eucl (Z.pos m * 2 ^ 53) (Z.pos scale_mantissa) = (q, r)) as ->.
  { unfold q, r, Z.div, Z.modulo. by destruct (Z.div_eucl _ _). }
  assert (Hq : 2 ^ 52 <= q < 2 ^ 54).
  { unfold q, scale_mantissa. split; [apply Z.div_le_lower_bound; lia|apply Z.div_lt_upper_bound; lia]. }
  assert (Hk : Z.log2 q - 52 = 0 \/ (Z.log2 q - 52 = 1 /\ 2 ^ 53 <= q)).
  { destruct (Z.lt_ge_cases q (2 ^ 53)) as [Hlt|Hge].
    - left. assert (52 <= Z.log2 q) by (apply Z.log2_le_pow2; lia). assert (Z.log2 q < 53) by (apply Z.log2_lt_pow2; lia). lia.
    - right. assert (53 <= Z.log2 q) by (apply Z.log2_le_pow2; lia). assert (Z.log2 q < 54) by (apply Z.log2_lt_pow2; lia). lia. }
  exists (Z.log2 q - 52). split.
  - destruct Hk as [->|[-> Hge]]; [by left|]. right. split; [done|]. unfold q, SCALE in *.
    pose proof (Z.mul_div_le (Z.pos m * 2 ^ 53) (Z.pos scale_mantissa) ltac:(lia)). unfold scale_mantissa in *. lia.
  - rewrite xorb_false_r. apply binary_round_aux_spec; [|lia|lia|lia]. by apply located_division.
Qed.

(** The product of a 53-bit number with the scale. *)
Lemma mul_scale s m e : 2 ^ 52 <= Z.pos m < 2 ^ 53 -> -200 <= e <= 0 ->
  exists k, 52 <= k <= 53 /\ (k = 53 -> 2 ^ 105 <= Z.pos m * Z.pos scale_mantissa) /\
    rounded (Z.pos m * Z.pos scale_mantissa) 1 (e - 23) k s (fmul (S754_finite s m e) (f64_of_int SCALE)).
Proof.
  intros Hm He. rewrite f64_of_scale. unfold fmul, SFmul. rewrite xorb_false_r, Pos2Z.inj_mul. set (p := Z.pos m * Z.pos scale_mantissa).
  assert (Hp : 2 ^ 104 <= p < 2 ^ 106) by (unfold p, scale_mantissa; lia).
  assert (104 <= Z.log2 p) by (apply Z.log2_le_pow2; lia). assert (Z.log2 p < 106) by (apply Z.log2_lt_pow2; lia).
  exists (Z.log2 p - 52). split; [lia|]. split; [intros E; apply Z.log2_le_pow2; lia|]. apply binary_round_aux_spec; [apply located_exact; lia|lia|lia|lia].
Qed.

Lemma round_near m j t raw : 1 <= t -> 0 <= j <= 1 -> Z.abs (Z.pos m * 2 ^ j - raw * 2 ^ t) < 2 ^ (t - 1) ->
  round_magnitude m (j - t) = raw.
Proof.
  intros Ht Hj Hn. unfold round_magnitude.
  assert (Hd : forall u, 0 <= u -> Z.abs (Z.pos m - raw * 2 ^ (u + 1)) < 2 ^ u -> (Z.pos m + 2 ^ u) / 2 ^ (u + 1) = raw).
  { intros u Hu Hb. rewrite Z.pow_add_r in * by lia. change (2 ^ 1) with 2 in *. assert (0 < 2 ^ u) by lia.
    symmetry. apply Z.div_unique with (Z.pos m + 2 ^ u - raw * (2 ^ u * 2)); lia. }
  assert (j = 0 \/ j = 1) as [-> | ->] by lia.
  - destruct (Z.leb_spec 0 (0 - t)); [lia|]. replace (- (0 - t) - 1) with (t - 1) by lia. replace (- (0 - t)) with (t - 1 + 1) by lia.
    apply Hd; [lia|]. replace (t - 1 + 1) with t by lia. lia.
  - destruct (Z.leb_spec 0 (1 - t)).
    + assert (t = 1) as -> by lia. change (2 ^ 1) with 2 in Hn. change (2 ^ (1 - 1)) with 1 in *. lia.
    + replace (- (1 - t) - 1) with (t - 2) by lia. replace (- (1 - t)) with (t - 2 + 1) by lia. apply Hd; [lia|].
      replace t with ((t - 2 + 1) + 1) in Hn by lia. rewrite Z.pow_add_r in Hn by lia. replace (t - 2 + 1 + 1 - 1) with (t - 2 + 1) in Hn by lia.
      rewrite Z.pow_add_r in * by lia. change (2 ^ 1) with 2 in *. lia.
Qed.

(** A number [x] that is the rounding of [N / D * 2 ^ - sh], where that quotient times the
    scale is the integer [raw], gives [raw] when it is scaled and rounded: the two rounding
    errors together stay below half a unit. *)
Lemma scaled_back s N D raw sh k M m1 j : 0 < D -> N * SCALE = raw * D * 2 ^ sh -> 31 <= sh - k <= 190 -> 0 <= k ->
  0 <= j <= 1 -> (j = 1 -> M = 2 ^ 53) -> M = Z.pos m1 * 2 ^ j -> 2 ^ 52 <= M <= 2 ^ 53 -> (j = 0 -> M < 2 ^ 53) ->
  2 * Z.abs (N - M * (2 ^ k * D)) <= 2 ^ k * D ->
  exists m e, fmul (S754_finite s m1 (- sh + k + j)) (f64_of_int SCALE) = S754_finite s m e /\ e <= 0 /\ round_magnitude m e = raw.
Proof.
  intros HD HN Hsh Hk Hj Hj1 HM HMb Hj0 Herr.
  assert (Hm1 : 2 ^ 52 <= Z.pos m1 < 2 ^ 53 /\ (j = 1 -> Z.pos m1 = 2 ^ 52)).
  { assert (j = 0 \/ j = 1) as [-> | ->] by lia; [rewrite Z.pow_0_r in HM|rewrite Z.pow_1_r in HM]; lia. }
  destruct (mul_scale s m1 (- sh + k + j) (proj1 Hm1) ltac:(lia)) as (k2 & Hk2 & Hk53 & M2 & m2 & j2 & Ew & Hj2 & HM2 & Hj21 & HMb2 & Herr2).
  rewrite Ew. exists m2, (- sh + k + j - 23 + k2 + j2). split; [done|].
  set (t := sh - k - j + 23 - k2). replace (- sh + k + j - 23 + k2 + j2) with (j2 - t) by lia.
  assert (Hjk : j + k2 <= 53).
  { assert (j = 0 \/ j = 1) as [-> | ->] by lia; [lia|]. assert (k2 = 52 \/ k2 = 53) as [-> | ->] by lia; [lia|].
    specialize (Hk53 eq_refl). rewrite (proj2 Hm1 eq_refl) in Hk53. unfold scale_mantissa in Hk53. clear -Hk53. lia. }
  split; [lia|]. apply round_near; [lia|done|]. rewrite <- HM2.
  (* everything over [D * 2 ^ (k + j + k2)] *)
  assert (Hpow : forall a b, 0 <= a -> 0 <= b -> 2 ^ (a + b) = 2 ^ a * 2 ^ b) by (intros; by apply Z.pow_add_r).
  assert (Hu : 0 < D * 2 ^ (k + j + k2)) by (apply Z.mul_pos_pos; [done|apply Z.pow_pos_nonneg; lia]).
  apply (Z.mul_lt_mono_pos_r (D * 2 ^ (k + j + k2))); [done|].
  rewrite <- (Z.abs_eq (D * 2 ^ (k + j + k2))) by lia. rewrite <- Z.abs_mul, (Z.abs_eq (D * 2 ^ (k + j + k2))), Z.mul_sub_distr_r by lia.
  assert (Hraw : raw * 2 ^ t * (D * 2 ^ (k + j + k2)) = N * Z.pos scale_mantissa).
  { replace (raw * 2 ^ t * (D * 2 ^ (k + j + k2))) with (raw * D * (2 ^ t * 2 ^ (k + j + k2))) by lia. rewrite <- Hpow by lia.
    replace (t + (k + j + k2)) with (sh + 23) by lia. rewrite Hpow by lia. unfold scale_mantissa, SCALE in *. lia. }
  rewrite Hraw.
  assert (Hb : 2 ^ (t - 1) * (D * 2 ^ (k + j + k2)) = D * 2 ^ k * 2 ^ (sh - k + 22)).
  { replace (2 ^ (t - 1) * (D * 2 ^ (k + j + k2))) with (D * (2 ^ (t - 1) * 2 ^ (k + j + k2))) by lia. rewrite <- Hpow by lia.
    rewrite <- Z.mul_assoc, <- Hpow by lia. do 2 f_equal. lia. }
  rewrite Hb. set (U := 2 ^ k * D) in *. assert (HU : 0 < U) by (unfold U; apply Z.mul_pos_pos; [apply Z.pow_pos_nonneg; lia|done]).
  replace (D * 2 ^ k) with U by (unfold U; lia).
  assert (H53 : U * 2 ^ 53 <= U * 2 ^ (sh - k + 22)) by (apply Z.mul_le_mono_nonneg_l; [lia|apply Z.pow_le_mono_r; lia]).
  assert (HC : M2 * (D * 2 ^ (k + j + k2)) = M2 * (2 ^ k2 * 1) * (U * 2 ^ j)) by (unfold U; rewrite !Hpow by lia; lia).
  assert (HB : M * U * Z.pos scale_mantissa = Z.pos m1 * Z.pos scale_mantissa * (U * 2 ^ j)) by (rewrite HM; lia).
  rewrite HC. set (P := Z.pos m1 * Z.pos scale_mantissa) in *. set (Q := M2 * (2 ^ k2 * 1)) in *.
  assert (HUj : 0 < U * 2 ^ j) by (apply Z.mul_pos_pos; [done|apply Z.pow_pos_nonneg; lia]).
  assert (Hbc : 2 * Z.abs (Q * (U * 2 ^ j) - P * (U * 2 ^ j)) <= U * 2 ^ 53).
  { rewrite <- Z.mul_sub_distr_r, Z.abs_mul, (Z.abs_eq (U * 2 ^ j)) by lia.
    transitivity (2 ^ k2 * (U * 2 ^ j)); [rewrite Z.mul_assoc; apply Z.mul_le_mono_nonneg_r; lia|].
    replace (2 ^ k2 * (U * 2 ^ j)) with (U * 2 ^ (j + k2)) by (rewrite Hpow by lia; lia).
    apply Z.mul_le_mono_nonneg_l; [lia|apply Z.pow_le_mono_r; lia]. }
  rewrite <- HB in Hbc. unfold scale_mantissa in *. clear -Herr Hbc H53 HU. lia.
Qed.

(** Down and up again, for positive values. *)
Lemma scale_back s p m : Z.pos p < 2 ^ 22 * SCALE ->
  Z.pos m = Z.pos p * 2 ^ (52 - Z.log2 (Z.pos p)) ->
  exists m' e', fmul (fdiv (S754_finite s m (Z.log2 (Z.pos p) - 52)) (f64_of_int SCALE)) (f64_of_int SCALE) = S754_finite s m' e' /\
    e' <= 0 /\ round_magnitude m' e' = Z.pos p.
Proof.
  intros Hp Hm. set (L := Z.log2 (Z.pos p)) in *. assert (HL : 0 <= L < 52).
  { split; [apply Z.log2_nonneg|]. apply Z.log2_lt_pow2; [lia|]. unfold SCALE in Hp. lia. }
  set (a := 52 - L) in *. destruct (Z.log2_spec (Z.pos p) ltac:(lia)) as [Hlo Hhi]. fold L in Hlo, Hhi.
  assert (HP : 2 ^ L * 2 ^ a = 2 ^ 52) by (rewrite <- Z.pow_add_r by lia; f_equal; lia). rewrite Z.pow_succ_r in Hhi by lia.
  assert (Ha : 0 < 2 ^ a) by lia.
  assert (Hm53 : 2 ^ 52 <= Z.pos m < 2 ^ 53) by (rewrite Hm; nia).
  replace (L - 52) with (- a) by lia.
  destruct (div_scale s m (- a) Hm53 ltac:(lia)) as (k & Hk & M & m1 & j & Ex & Hj & HM & Hj1 & HMb & Herr). rewrite Ex.
  assert (Hak : 1 + k <= a).
  { destruct Hk as [->|[-> Hge]]; [lia|]. assert (a = 1 \/ 2 <= a) as [Ea|] by lia; [|lia]. exfalso. rewrite Hm, Ea in Hge. unfold SCALE in *. clear -Hge Hp. lia. }
  replace (- a - 30 + k + j) with (- (a + 30) + k + j) by lia.
  apply (scaled_back s (Z.pos m * 2 ^ 53) (Z.pos scale_mantissa) (Z.pos p) (a + 30) k M m1 j); try (done || lia).
  - rewrite Hm, (Z.pow_add_r 2 a 30) by lia. unfold scale_mantissa, SCALE. lia.
Qed.

Lemma read_scaled_back raw : Z.abs raw < 2 ^ 22 * SCALE ->
  read_scaled (fdiv (f64_of_int raw) (f64_of_int SCALE)) = Ok (Some raw).
Proof.
  intros Hr. unfold read_scaled. unfold SCALE in Hr. assert (Hn : forall z, Z.abs z < 2 ^ 22 * 1000000000 -> narrow z "read_fixed" = Ok z /\ saturate128 z = z).
  { intros z Hz. split; [apply narrow_Ok; split; [unfold in_i64, i64_min, i64_max; lia|done]|unfold saturate128; lia]. }
  destruct raw as [|p|p].
  - vm_compute. reflexivity.
  - assert (Hp : Z.pos p < 2 ^ 22 * SCALE) by (unfold SCALE; lia).
    destruct (f64_of_pos p) as (m & -> & _ & Em); [apply Z.lt_succ_r, Z.log2_lt_pow2; lia|].
    destruct (scale_back false p m Hp Em) as (m' & e' & -> & _ & Hround). cbn [is_finite negb round_as_i128]. rewrite Hround.
    destruct (Hn (Z.pos p) ltac:(lia)) as [E1 ->]. by rewrite E1.
  - assert (Hp : Z.pos p < 2 ^ 22 * SCALE) by (unfold SCALE; lia).
    destruct (f64_of_pos p) as (m & _ & -> & Em); [apply Z.lt_succ_r, Z.log2_lt_pow2; lia|].
    destruct (scale_back true p m Hp Em) as (m' & e' & -> & _ & Hround). cbn [is_finite negb round_as_i128]. rewrite Hround.
    change (- Z.pos p) with (Z.neg p). destruct (Hn (Z.neg p) ltac:(lia)) as [E1 ->]. by rewrite E1.
Qed.

(** ** Columns *)
Lemma column_cells e raws :
  FixedBuilder.column e raws = mkArray Cell (FixedEncoding.data_type e) (map (fmap (FixedBuilder.value e)) raws).
Proof.
  unfold FixedBuilder.column. enough (forall b, FixedBuilder.fb_encoding b = e ->
    fold_left (fun b r => match r with Some raw => FixedBuilder.append b raw | None => FixedBuilder.append_null b end) raws b =
    FixedBuilder.mkFixedBuilder e (FixedBuilder.fb_cells b ++ map (fmap (FixedBuilder.value e)) raws)) as E.
  { by rewrite E. }
  induction raws as [|r raws IH]; intros [e' cells] He; cbn in He |- *; subst e'; [by rewrite app_nil_r|].
  destruct r as [raw|]; cbn; rewrite IH by done; cbn; by rewrite <- app_assoc.
Qed.

(** A slot that holds what the builder wrote. *)
Definition storable (e : FixedEncoding) (r : option Raw) : Prop :=
  match r with Some raw => in_i64 raw /\ holds_exactly e raw | None => True end.
Lemma read_fixed_stored e a row name r : ar_type a = FixedEncoding.data_type e ->
  cell a row = FixedBuilder.value e <$> r -> storable e r -> read_fixed a row name = Ok r.
Proof.
  intros Ht Hc Hr. unfold read_fixed. rewrite Hc, Ht. destruct r as [raw|]; [|done]. destruct Hr as [Hi He]. destruct e; cbn in *.
  - by apply read_scaled_back.
  - by rewrite (proj2 (narrow_Ok raw "read_fixed" raw)).
Qed.
Lemma read_fixed_value_stored e a row name raw : ar_type a = FixedEncoding.data_type e ->
  cell a row = Some (FixedBuilder.value e raw) -> storable e (Some raw) -> read_fixed_value a row name = Ok raw.
Proof. intros Ht Hc Hr. unfold read_fixed_value. by rewrite (read_fixed_stored e a row name (Some raw) Ht Hc Hr). Qed.

(** C25 A fixed-point column reads back what was written to it: every value that is null comes
    back as null, every decimal exactly, and every float whose magnitude is below [2^22]
    units exactly. *)
Theorem fixed_column_reads_back e raws row name : Forall (storable e) raws ->
  read_fixed (FixedBuilder.column e raws) row name = Ok (mjoin (raws !! row)).
Proof.
  intros Hr. rewrite column_cells. apply (read_fixed_stored e); [done|..].
  - unfold cell. cbn [ar_cells]. rewrite list_lookup_fmap. by destruct (raws !! row).
  - destruct (raws !! row) as [r|] eqn:Er; [|done]. by apply (proj1 (Forall_lookup _ _) Hr _ _ Er).
Qed.
(** Just past [2^22] units the float column is already one unit off. *)
Example float_column_loses_a_unit :
  read_fixed (FixedBuilder.column EncFloat [Some (4194304 * SCALE + 7)]) 0 "price" = Ok (Some (4194304 * SCALE + 8)).
Proof. vm_compute. reflexivity. Qed.

Lemma fixed_column_reads_back_witness :
  let raws := [Some (SCALE / 10000); None; Some (-123456789)] in
  read_fixed (FixedBuilder.column EncFloat raws) 2 "price" = Ok (Some (-123456789)).
Proof.
  intros raws. apply (fixed_column_reads_back EncFloat raws 2 "price").
  repeat constructor; vm_compute; done.
Defined.
