(* ===== verification/EventIO.v ===== *)
(** * The canonical tables ([schema.rs])

    The schemas of the market-data and run-output tables, in either encoding of their
    fixed-point columns, and their options: every market-data table is indexed by [ts_init],
    every run-output table by [ts]. *)
From S2P Require Export Decimal Replay Scan.

Module schema.
Definition BOOK_DELTAS : string := "book_deltas".
Definition TRADES : string := "trades".
Definition BARS : string := "bars".
Definition INSTRUMENTS : string := "instruments".
Definition RESOLUTIONS : string := "resolutions".
Definition SIGNALS : string := "signals".
Definition COMMANDS : string := "commands".
Definition FUNDING : string := "funding".
Definition REFERENCES : string := "references".
Definition CORPORATE_ACTIONS : string := "corporate_actions".
Definition INGEST_LOG : string := "ingest_log".
Definition RUN : string := "bt_run".
Definition ORDERS : string := "bt_orders".
Definition FILLS : string := "bt_fills".
Definition POSITIONS : string := "bt_positions".
Definition EQUITY : string := "bt_equity".

(** ** Fields *)

(** [Timestamp(Nanosecond, None)]. *)
Definition timestamp_ns : DataType := Timestamp "ns".
Definition ts (name : string) : Field := mkField name timestamp_ns false.
Definition text (name : string) : Field := mkField name Utf8 false.
Definition opt_text (name : string) : Field := mkField name Utf8 true.
Definition float (name : string) (e : FixedEncoding) : Field := fixed_field name e false.
Definition opt_float (name : string) (e : FixedEncoding) : Field := fixed_field name e true.
Definition int (name : string) : Field := mkField name Int64 false.
Definition opt_int (name : string) : Field := mkField name Int64 true.
Definition outcome : Field := mkField "outcome" UInt16 false.

(** ** Market data *)
Definition book_deltas (e : FixedEncoding) : Schema :=
  [ts "ts_init"; ts "ts_event"; text "instrument_id"; outcome; text "action"; opt_text "side";
   opt_float "price" e; opt_float "size" e; int "event_index"; mkField "is_last" Boolean false;
   opt_text "source_vendor"].
Definition trades (e : FixedEncoding) : Schema :=
  [ts "ts_init"; ts "ts_event"; text "instrument_id"; outcome; float "price" e; float "size" e;
   opt_text "aggressor"; opt_text "trade_id"; opt_text "source_vendor"].
Definition bars (e : FixedEncoding) : Schema :=
  [ts "ts_init"; ts "ts_event"; text "instrument_id"; outcome; float "open" e; float "high" e;
   float "low" e; float "close" e; float "volume" e; opt_text "source_vendor"].
Definition instruments (e : FixedEncoding) : Schema :=
  [ts "ts_init"; text "instrument_id"; text "venue"; text "kind"; outcome; text "outcome_label";
   float "tick_size" e; float "lot_size" e; opt_int "expiration_ns"; opt_int "settlement_observable_ns";
   mkField "neg_risk" Boolean true; mkField "price_significant_figures" UInt8 true;
   mkField "price_max_decimals" UInt8 true].
Definition resolutions (e : FixedEncoding) : Schema :=
  [ts "ts_init"; text "instrument_id"; text "kind"; mkField "outcome" UInt16 true;
   opt_float "payout" e; mkField "outcome_count" UInt16 true].
Definition references (e : FixedEncoding) : Schema :=
  [ts "ts_init"; ts "ts_event"; text "instrument_id"; outcome; opt_float "mark" e;
   opt_float "oracle" e; opt_text "source_vendor"].
Definition corporate_actions (e : FixedEncoding) : Schema :=
  [ts "ts_init"; ts "ts_event"; text "instrument_id"; text "kind"; opt_float "ratio" e;
   opt_float "per_share" e; opt_float "final_price" e; opt_int "announced_ns"; opt_text "source_vendor"].
Definition funding (e : FixedEncoding) : Schema :=
  [ts "ts_init"; ts "ts_event"; text "instrument_id"; float "rate" e; opt_text "source_vendor"].
Definition ingest_log : Schema :=
  [ts "ts"; text "vendor"; text "digest"; int "records"; opt_int "window_start_ns";
   opt_int "window_end_ns"; int "instruments"].

(** ** Strategies as tables *)
Definition signals (e : FixedEncoding) : Schema :=
  [ts "ts"; text "instrument_id"; outcome; text "side"; float "quantity" e; text "kind";
   opt_float "limit_price" e; opt_text "time_in_force"; opt_text "tag";
   mkField "reduce_only" Boolean true; mkField "post_only" Boolean true].
Definition commands (e : FixedEncoding) : Schema :=
  [ts "ts"; text "action"; text "client_order_id"; opt_text "instrument_id"; mkField "outcome" UInt16 true;
   opt_text "side"; opt_float "quantity" e; opt_text "kind"; opt_float "limit_price" e;
   opt_text "time_in_force"; opt_text "tag"; mkField "reduce_only" Boolean true;
   mkField "post_only" Boolean true].

(** ** Run output *)
Definition run (e : FixedEncoding) : Schema :=
  [ts "ts"; text "run_id"; text "config_digest"; float "starting_cash" e; float "final_cash" e;
   float "realized_pnl" e; float "commissions" e; opt_int "simulated_through_ns"; int "records_processed";
   mkField "settlement_applied" Boolean false; opt_text "warnings"].
Definition orders (e : FixedEncoding) : Schema :=
  [ts "ts"; int "order_id"; text "instrument_id"; outcome; text "side"; text "kind";
   opt_float "limit_price" e; float "quantity" e; float "filled" e; text "time_in_force"; text "status";
   opt_text "reject_reason"; opt_text "tag"; mkField "reduce_only" Boolean false].
Definition fills (e : FixedEncoding) : Schema :=
  [ts "ts"; int "order_id"; text "instrument_id"; outcome; text "side"; float "price" e;
   float "quantity" e; float "commission" e; mkField "is_taker" Boolean false; opt_text "tag"].
Definition positions (e : FixedEncoding) : Schema :=
  [ts "ts"; text "instrument_id"; outcome; float "quantity" e; float "average_price" e;
   float "realized_pnl" e; float "commissions" e; opt_float "settlement_pnl" e; opt_float "market_exit_pnl" e].
Definition equity (e : FixedEncoding) : Schema :=
  [ts "ts"; float "cash" e; float "position_value" e; float "equity" e; float "realized_pnl" e;
   float "unrealized_pnl" e].

(** ** Options and table lists *)
Definition indexed_by (column : string) : TableOptions :=
  mkTableOptions (Some column) [column] (to_storage TableOptions_default) (to_max_segments_per_manifest TableOptions_default).
Definition signals_options : TableOptions := indexed_by "ts".
Definition commands_options : TableOptions := indexed_by "ts".
Definition market_data_options : TableOptions := indexed_by "ts_init".
Definition run_output_options : TableOptions := indexed_by "ts".

Definition market_data_tables (e : FixedEncoding) : list (string * Schema * TableOptions) :=
  [(BOOK_DELTAS, book_deltas e, market_data_options); (TRADES, trades e, market_data_options);
   (BARS, bars e, market_data_options); (INSTRUMENTS, instruments e, market_data_options);
   (RESOLUTIONS, resolutions e, market_data_options); (FUNDING, funding e, market_data_options);
   (REFERENCES, references e, market_data_options); (CORPORATE_ACTIONS, corporate_actions e, market_data_options)].
Definition ingest_log_table : string * Schema * TableOptions := (INGEST_LOG, ingest_log, run_output_options).
Definition signals_table (e : FixedEncoding) : string * Schema * TableOptions := (SIGNALS, signals e, signals_options).
Definition commands_table (e : FixedEncoding) : string * Schema * TableOptions := (COMMANDS, commands e, commands_options).
Definition run_output_tables (e : FixedEncoding) : list (string * Schema * TableOptions) :=
  [(RUN, run e, run_output_options); (ORDERS, orders e, run_output_options); (FILLS, fills e, run_output_options);
   (POSITIONS, positions e, run_output_options); (EQUITY, equity e, run_output_options)].
End schema.

(** ** The seam to the database ([store.rs], the shared half)

    Creating the canonical tables, scanning them, decoding columns, and appending with the
    merge of a backfill.  A program of the event store is a program over the database whose
    result may be an error of the backtester: [core_err] turns the one into the other. *)
#[local] Open Scope Z_scope.

(** ** Errors and sequencing *)
Abbreviation bprog A := (prog (Result A)).
Definition bret {A} (r : Result A) : bprog A := ret r.
Definition bbind {A B} (p : bprog A) (f : A -> bprog B) : bprog B :=
  bind p (fun r => match r with Ok a => f a | Err e => bret (Err e) end).
Notation "'let*' x := p 'in' k" := (bbind p (fun x => k))
  (at level 10, x name, p at level 200, k at level 200) : prog_scope.
Notation "'do*' p 'in' k" := (bbind p (fun _ => k)) (at level 10, p at level 200, k at level 200) : prog_scope.
Fixpoint each_b {A} (body : A -> bprog unit) (l : list A) : bprog unit :=
  match l with [] => bret (Ok tt) | a :: l' => do* body a in each_b body l' end.

(** The leading words of a database error, as [Display] prints it. *)
Definition error_text (e : StoreError) : string :=
  match e with
  | DatabaseNotFound _ => "database not found" | DatabaseExists _ => "database already exists"
  | TableNotFound name => "table " +:+ name +:+ " not found" | TableExists name => "table " +:+ name +:+ " already exists"
  | VersionNotFound table _ _ => "version not found of table " +:+ table
  | SnapshotNotFound name => "snapshot " +:+ name +:+ " not found"
  | VersionConflict table _ _ => "version conflict on table " +:+ table
  | ForkNotFound name => "fork " +:+ name +:+ " not found" | ForkExists name => "fork " +:+ name +:+ " already exists"
  | PromoteConflict _ table _ _ _ => "cannot promote table " +:+ table
  | SchemaMismatch detail => "schema mismatch: " +:+ detail
  | SortOrderViolation table _ => "sort-order violation on table " +:+ table
  | InvalidInput detail => "invalid input: " +:+ detail | Unsupported detail => "unsupported operation: " +:+ detail
  | ReadOnly _ => "database is open read-only" | PolicyViolation _ => "mutation policy forbids direct operation"
  | DataPolicyViolation constraint _ _ _ => "data policy violation " +:+ constraint
  | Corruption _ detail => "corruption detected: " +:+ detail
  | FormatTooNew _ _ => "format version is newer than this reader supports"
  | LimitExceeded detail => "resource limit exceeded: " +:+ detail
  | LockTimeout table => "could not acquire writer lock on table " +:+ table
  | ObjectStore => "storage error" | Arrow => "arrow error" | Parquet => "parquet error"
  | SerdeJson => "metadata (de)serialization error"
  | Internal detail => "internal error: " +:+ detail
  end.
Definition core_err (e : StoreError) : BacktestError := invalid (error_text e).
Definition core {A} (p : prog A) : bprog A :=
  then_ p (fun r => bret (match r with Ok a => Ok a | Err e => Err (core_err e) end)).

(** ** Columns *)
Module Col.
Section Col.
Context `{ArrowRows}.

Definition index_of (b : RecordBatch) (name : string) : Result nat :=
  ok_or (TableSpec.index_of (rb_schema b) name) (Types.Schema "read" ("missing column " +:+ name)).
(** [column::<T>]: [casts] says which types downcast to the array type asked for. *)
Definition column (casts : DataType -> bool) (b : RecordBatch) (name : string) : Result Column :=
  let? i := index_of b name in
  match rb_columns b !! i with
  | Some c => if casts (ar_type c) then Ok c
              else Err (Types.Schema "read" ("column " +:+ name +:+ " has an unexpected type"))
  | None => Err (Types.Schema "read" "index out of bounds")
  end.
Definition fixed (b : RecordBatch) (name : string) : Result Column := column (fun _ => true) b name.

Definition timestamps (t : DataType) : bool := match t with Timestamp u => String.prefix "ns" u | _ => false end.
Definition strings (t : DataType) : bool := bool_decide (t = Utf8).
Definition int64s (t : DataType) : bool := bool_decide (t = Int64).
Definition uint16s (t : DataType) : bool := bool_decide (t = UInt16).
Definition uint8s (t : DataType) : bool := bool_decide (t = UInt8).
Definition booleans (t : DataType) : bool := bool_decide (t = Boolean).

(** [value(row)], and [is_valid(row)]; the value of a null slot is the default. *)
Definition int (c : Column) (row : nat) : Z := int_of (cell c row).
Definition str (c : Column) (row : nat) : string := match cell c row with Some (CStr s) => s | _ => "" end.
Definition bool (c : Column) (row : nat) : Datatypes.bool := match cell c row with Some (CBool b) => b | _ => false end.
Definition is_valid (c : Column) (row : nat) : Datatypes.bool := negb (is_null (cell c row)).
Definition opt_str (c : Column) (row : nat) : option string := if is_valid c row then Some (str c row) else None.
Definition opt_i64 (c : Column) (row : nat) : option Z := if is_valid c row then Some (int c row) else None.

(** Columns from values, as the builders make them. *)
Definition of_ts (l : list Z) : Column := mkArray Cell schema.timestamp_ns (map (fun z => Some (CInt z)) l).
Definition of_ints (t : DataType) (l : list (option Z)) : Column := mkArray Cell t (map (fmap CInt) l).
Definition of_strs (l : list (option string)) : Column := mkArray Cell Utf8 (map (fmap CStr) l).
Definition of_bools (l : list (option Datatypes.bool)) : Column := mkArray Cell Boolean (map (fmap CBool) l).
End Col.
End Col.

(** ** Instrument ids of a batch, resolved once each *)
Record Instruments := mkInstruments {
  is_values : Column;
  is_last : option (string * InstrumentId);
  is_seen : gmap string InstrumentId;
}.
Module Instruments.
Section Instruments.
Context `{ArrowRows}.
Definition new (b : RecordBatch) : Result Instruments :=
  let? values := Col.column Col.strings b "instrument_id" in Ok (mkInstruments values None ∅).
Definition get (s : Instruments) (row : nat) : Result (Instruments * InstrumentId) :=
  let name := Col.str (is_values s) row in
  let resolve :=
    let? '(seen, id) := match is_seen s !! name with
                        | Some id => Ok (is_seen s, id)
                        | None => let? id := InstrumentId.new name in Ok (<[name := id]> (is_seen s), id)
                        end in
    Ok (mkInstruments (is_values s) (Some (name, id)) seen, id) in
  match is_last s with
  | Some (cached, id) => if String.eqb cached name then Ok (s, id) else resolve
  | None => resolve
  end.
End Instruments.
End Instruments.

Module EventIO.
Section EventIO.
Context `{Env} `{ArrowRows}.
Implicit Types db : Database.

(** ** Creating tables *)
Definition create_tables db (tables : list (string * Schema * TableOptions)) : bprog unit :=
  let* entries := core (Database.list_tables db) in
  let existing := map ce_name entries in
  match List.filter (fun t => negb (existsb (String.eqb t.1.1) existing)) tables with
  | [] => bret (Ok tt)
  | missing => do* core (Commit.create_tables db missing) in bret (Ok tt)
  end.
Definition create_market_data_tables_with db (e : FixedEncoding) : bprog unit :=
  create_tables db (schema.market_data_tables e ++ [schema.ingest_log_table]).
Definition create_run_tables_with db (e : FixedEncoding) : bprog unit :=
  create_tables db (schema.run_output_tables e).
Definition create_market_data_tables db : bprog unit := create_market_data_tables_with db EncFloat.
Definition create_run_tables db : bprog unit := create_run_tables_with db EncFloat.

(** ** Scanning *)
Definition BOOK_COLUMNS : list string :=
  ["ts_init"; "ts_event"; "instrument_id"; "outcome"; "action"; "side"; "price"; "size"; "event_index"; "is_last"].
Definition TRADE_COLUMNS : list string :=
  ["ts_init"; "ts_event"; "instrument_id"; "outcome"; "price"; "size"; "aggressor"].
Definition FUNDING_COLUMNS : list string := ["ts_init"; "ts_event"; "instrument_id"; "rate"].
Definition CORPORATE_COLUMNS : list string :=
  ["ts_init"; "ts_event"; "instrument_id"; "kind"; "ratio"; "per_share"; "final_price"].
Definition REFERENCE_COLUMNS : list string :=
  ["ts_init"; "ts_event"; "instrument_id"; "outcome"; "mark"; "oracle"].

Definition scan_options (window : option TimeWindow) (columns : option (list string)) : ScanOptions :=
  mkScanOptions columns (start <$> window) (end_ <$> window) None false.
Definition scan db (table : string) (at_ : ReadAt) (window : option TimeWindow) (columns : option (list string)) :
    bprog (list RecordBatch) :=
  let* out := core (Scan.scan db table at_ (scan_options window columns)) in bret (Ok out.1).
(** A table or version that does not exist reads as empty. *)
Definition scan_optional db (table : string) (at_ : ReadAt) (window : option TimeWindow)
    (columns : option (list string)) : bprog (list RecordBatch) :=
  then_ (Scan.scan db table at_ (scan_options window columns)) (fun r =>
    bret (match r with
          | Ok out => Ok out.1
          | Err (TableNotFound _) | Err (VersionNotFound _ _ _) => Ok []
          | Err e => Err (core_err e)
          end)).

(** ** Writing *)
Definition column_len (columns : list Column) : nat :=
  match columns with c :: _ => length (ar_cells c) | [] => 0 end.
Definition build (table : string) (s : Schema) (columns : list Column) : Result (option RecordBatch) :=
  if (column_len columns =? 0)%nat then Ok None
  else let? b := ok_or (TableSpec.try_new s columns) (Types.Schema table "try_new") in Ok (Some b).

(** The encoding the fixed-point columns of a table use. *)
Definition encoding_in (s : Schema) : FixedEncoding :=
  if existsb (fun f => match FixedEncoding.of_type (fd_type f) with Some EncDecimal => true | _ => false end) s
  then EncDecimal else FixedEncoding.default.
Definition encoding_of db (table : string) : bprog FixedEncoding :=
  then_ (Database.resolve db table Latest) (fun r =>
    bret (Ok (match r with Ok resolved => encoding_in (rt_schema resolved) | Err _ => FixedEncoding.default end))).

Definition time_column_of (table : string) : string :=
  if String.prefix "bt_" table || String.eqb table schema.INGEST_LOG || String.eqb table schema.SIGNALS
     || String.eqb table schema.COMMANDS then "ts" else "ts_init".

(** The half-open span of a batch on its time column. *)
Definition time_bounds (b : RecordBatch) (time_column : string) : Result (Z * Z) :=
  let? times := Col.column Col.timestamps b time_column in
  let '(mn, mx) := fold_left (fun s row => let v := Col.int times row in (Z.min s.1 v, Z.max s.2 v))
                     (seq 0 (rb_rows b)) (i64_max, i64_min) in
  if mx <? mn then Err (invalid "cannot bound an empty batch") else Ok (mn, add64 mx 1).

(** Stable; the row indices are cast to [u32]. *)
Definition as_u32 (row : nat) : nat := Z.to_nat (Z.of_nat row mod 2 ^ 32).
Definition sort_by_time (b : RecordBatch) (time_column : string) : Result RecordBatch :=
  let? times := Col.column Col.timestamps b time_column in
  let order := sort_by_key (fun row => Col.int times row) (seq 0 (rb_rows b)) in
  let? columns := map_res (fun c => ok_or (Arrow.take c (map as_u32 order)) (Types.Schema "backfill" "take")) (rb_columns b) in
  ok_or (TableSpec.try_new (rb_schema b) columns) (Types.Schema "backfill" "try_new").

Definition default_write : WriteOptions := mkWriteOptions None None [] None.
(** Merge new rows into an already-written range. *)
Definition backfill db (table : string) (s : Schema) (incoming : RecordBatch) (time_column : string) : bprog unit :=
  let* bounds := bret (time_bounds incoming time_column) in
  let* window := bret (TimeWindow.new bounds.1 bounds.2) in
  let* existing := scan_optional db table Latest (Some window) None in
  let* merged := bret (ok_or (Arrow.concat_batches s (existing ++ [incoming])) (Types.Schema "backfill" "concat")) in
  let* sorted := bret (sort_by_time merged time_column) in
  do* core (Writes.replace_range db table bounds.1 bounds.2 [sorted] default_write) in bret (Ok tt).

Definition append_with db (table : string) (s : Schema) (columns : list Column) (time_column : string) : bprog unit :=
  if (column_len columns =? 0)%nat then bret (Ok tt)
  else
    let* batch := bret (ok_or (TableSpec.try_new s columns) (Types.Schema "write" "try_new")) in
    then_ (Writes.append db table [batch] default_write) (fun r =>
      match r with
      | Ok _ => bret (Ok tt)
      | Err (SortOrderViolation _ _) => backfill db table s batch time_column
      | Err e => bret (Err (core_err e))
      end).
Definition append db (table : string) (s : Schema) (columns : list Column) : bprog unit :=
  append_with db table s columns (time_column_of table).
End EventIO.
End EventIO.
