(* ===== verification/MarketStore.v ===== *)
(** * Market data in tables ([store.rs], the market-data half)

    One writer and one reader per table: instruments, book events, trades, funding,
    corporate actions, references and resolutions.  A reader decodes batches row by row; a
    lazy source ([BatchDecoder]) is the list of results it yields. *)
From S2P Require Export EventIO Settlement Replay.
Import EventIO.
#[local] Open Scope Z_scope.

(** ** Instruments *)
Definition kind_name (k : InstrumentKind) : string :=
  match k with PredictionMarket => "prediction_market" | Perpetual => "perpetual" | Spot => "spot" end.
Definition parse_kind (text : string) : Result InstrumentKind :=
  if String.eqb text "prediction_market" then Ok PredictionMarket
  else if String.eqb text "perpetual" then Ok Perpetual
  else if String.eqb text "spot" then Ok Spot
  else Err (Parse "instrument kind" text).

Record InstrumentDraft := mkInstrumentDraft {
  dr_venue : string;
  dr_kind : string;
  dr_outcomes : BTree Z string;
  dr_tick : Raw;
  dr_lot : Raw;
  dr_expiration : option Z;
  dr_observable : option Z;
  dr_neg_risk : bool;
  dr_price_rule : option (Z * Z);
}.
#[export] Instance eta_InstrumentDraft : Eta InstrumentDraft := fun d =>
  mkInstrumentDraft (dr_venue d) (dr_kind d) (dr_outcomes d) (dr_tick d) (dr_lot d) (dr_expiration d)
    (dr_observable d) (dr_neg_risk d) (dr_price_rule d).

(** A level, an update, a gap: one row of [book_deltas]. *)
Record BookRow := mkBookRow {
  br_record : EventRecord;
  br_action : string;
  br_side : option Side;
  br_price : option Price;
  br_size : option Qty;
  br_index : Z;
  br_last : bool;
}.

(** A snapshot whose last row has not arrived. *)
Record PendingSnapshot := mkPendingSnapshot {
  ps_index : Z;
  ps_stamps : Stamps;
  ps_instrument : InstrumentId;
  ps_outcome : OutcomeId;
  ps_bids : list (Price * Qty);
  ps_asks : list (Price * Qty);
}.
#[export] Instance eta_PendingSnapshot : Eta PendingSnapshot := fun p =>
  mkPendingSnapshot (ps_index p) (ps_stamps p) (ps_instrument p) (ps_outcome p) (ps_bids p) (ps_asks p).

Module MarketStore.
Section MarketStore.
Context `{Env} `{ArrowRows}.
Implicit Types db : Database.

(** *** Writing instruments: one row per outcome *)
Definition instrument_rows (l : list Instrument) : list (Instrument * (Z * string)) :=
  concat (map (fun i => map (fun e => (i, (Z.of_nat e.1 mod 65536, e.2))) (combine (seq 0 (length (outcomes i))) (outcomes i))) l).
Definition rule_figures (r : PriceRule) : option Z :=
  match r with Tick => None | SignificantFigures figures _ => Some figures end.
Definition rule_decimals (r : PriceRule) : option Z :=
  match r with Tick => None | SignificantFigures _ decimals => Some decimals end.
Definition instrument_columns (e : FixedEncoding) (known_at : UnixNanos) (rows : list (Instrument * (Z * string))) :
    list Column :=
  let each {A} (f : Instrument -> A) : list A := map (fun r => f r.1) rows in
  [Col.of_ts (each (fun _ => known_at)); Col.of_strs (each (fun i => Some (inst_id i)));
   Col.of_strs (each (fun i => Some (venue i))); Col.of_strs (each (fun i => Some (kind_name (kind i))));
   Col.of_ints UInt16 (map (fun r => Some r.2.1) rows); Col.of_strs (map (fun r => Some r.2.2) rows);
   FixedBuilder.column e (each (fun i => Some (tick_size i))); FixedBuilder.column e (each (fun i => Some (lot_size i)));
   Col.of_ints Int64 (each expiration); Col.of_ints Int64 (each settlement_observable);
   Col.of_bools (each (fun i => Some (neg_risk i)));
   Col.of_ints UInt8 (each (fun i => rule_figures (price_rule i)));
   Col.of_ints UInt8 (each (fun i => rule_decimals (price_rule i)))].
Definition write_instruments db (l : list Instrument) (known_at : UnixNanos) : bprog unit :=
  let* e := encoding_of db schema.INSTRUMENTS in
  append db schema.INSTRUMENTS (schema.instruments e) (instrument_columns e known_at (instrument_rows l)).

(** *** Reading them back, whole *)
Definition optional_column (casts : DataType -> bool) (b : RecordBatch) (name : string) : option Column :=
  ok (Col.column casts b name).
Definition price_rule_at (figures decimals : option Column) (row : nat) : option (Z * Z) :=
  match figures, decimals with
  | Some f, Some d => if Col.is_valid f row && Col.is_valid d row then Some (Col.int f row, Col.int d row) else None
  | _, _ => None
  end.
Definition collect_instruments (collected : BTree string InstrumentDraft) (b : RecordBatch) :
    Result (BTree string InstrumentDraft) :=
  let? id := Col.column Col.strings b "instrument_id" in
  let? venue := Col.column Col.strings b "venue" in
  let? kind := Col.column Col.strings b "kind" in
  let? outcome := Col.column Col.uint16s b "outcome" in
  let? label := Col.column Col.strings b "outcome_label" in
  let? tick := Col.fixed b "tick_size" in
  let? lot := Col.fixed b "lot_size" in
  let? expiration := Col.column Col.int64s b "expiration_ns" in
  let? observable := Col.column Col.int64s b "settlement_observable_ns" in
  let neg_risk := optional_column Col.booleans b "neg_risk" in
  let figures := optional_column Col.uint8s b "price_significant_figures" in
  let decimals := optional_column Col.uint8s b "price_max_decimals" in
  foldr_res (fun collected row =>
    let? tick_size := read_fixed_value tick row "tick_size" in
    let? lot_size := read_fixed_value lot row "lot_size" in
    let draft := match bget (Col.str id row) collected with
      | Some d => d
      | None => mkInstrumentDraft (Col.str venue row) (Col.str kind row) [] tick_size lot_size
                  (Col.opt_i64 expiration row) (Col.opt_i64 observable row)
                  (match neg_risk with Some c => Col.is_valid c row && Col.bool c row | None => false end)
                  (price_rule_at figures decimals row)
      end in
    Ok (binsert (Col.str id row)
          (draft <| dr_outcomes := binsert (Col.int outcome row) (Col.str label row) (dr_outcomes draft) |>) collected))
    collected (seq 0 (rb_rows b)).
(** The keys are [0 .. n-1]: the largest is one less than their number. *)
Definition no_gaps {V} (m : BTree Z V) : bool :=
  match blast m with Some (k, _) => k + 1 =? Z.of_nat (length m) | None => false end.
Definition assemble (id : string) (d : InstrumentDraft) : Result Instrument :=
  let? k := parse_kind (dr_kind d) in
  if negb (no_gaps (dr_outcomes d)) then Err (invalid "instrument has gaps in its outcome indices")
  else
    let? i := match k with
      | PredictionMarket => Instrument.prediction_market id (dr_venue d) (bvalues (dr_outcomes d))
      | Perpetual => Instrument.perpetual id (dr_venue d)
      | Spot => Instrument.spot id (dr_venue d)
      end in
    let? i := match dr_price_rule d with
      | Some (figures, decimals) => Instrument.with_price_rule i (SignificantFigures figures decimals)
      | None => Ok i
      end in
    Ok (i <| tick_size := dr_tick d |> <| lot_size := dr_lot d |> <| expiration := dr_expiration d |>
          <| settlement_observable := dr_observable d |> <| neg_risk := dr_neg_risk d |>).
Definition instruments_of (batches : list RecordBatch) : Result InstrumentSet :=
  let? collected := foldr_res collect_instruments [] batches in
  foldr_res (fun set e => let? i := assemble e.1 e.2 in InstrumentSet.insert set i) InstrumentSet.new collected.
Definition read_instruments db (at_ : ReadAt) : bprog InstrumentSet :=
  let* batches := scan db schema.INSTRUMENTS at_ None None in bret (instruments_of batches).

(** ** Book events *)
Definition level_rows (r : EventRecord) (index : Z) (side : Side) (levels : list (Price * Qty)) : list BookRow :=
  map (fun l => mkBookRow r "snapshot" (Some side) (Some l.1) (Some l.2) index false) levels.
(** The last row of an event is marked. *)
Definition mark_last (rows : list BookRow) : list BookRow :=
  match rev rows with
  | [] => []
  | l :: before => rev before ++ [mkBookRow (br_record l) (br_action l) (br_side l) (br_price l) (br_size l) (br_index l) true]
  end.
Definition book_rows_of (index : Z) (r : EventRecord) : Result (list BookRow) :=
  match rec_event r with
  | EvBookSnapshot bids asks =>
      match level_rows r index Buy bids ++ level_rows r index Sell asks with
      | [] => Ok [mkBookRow r "snapshot" None None None index true]
      | rows => Ok (mark_last rows)
      end
  | EvBookDelta delta =>
      let '(name, p, q) := match d_action delta with
        | Set_ => ("set", Some (d_price delta), Some (d_size delta))
        | Book.Delete => ("delete", Some (d_price delta), None)
        | Clear => ("clear", None, None)
        end in
      Ok [mkBookRow r name (Some (d_side delta)) p q index true]
  | EvGap => Ok [mkBookRow r "gap" None None None index true]
  | _ => Err (invalid "trades, bars, funding, reference prices and corporate actions belong in their own tables")
  end.
Definition book_rows (records : list EventRecord) : Result (list BookRow) :=
  let? rows := map_res (fun e => book_rows_of (Z.of_nat e.1) e.2) (combine (seq 0 (length records)) records) in
  Ok (concat rows).
Definition book_columns (e : FixedEncoding) (rows : list BookRow) : list Column :=
  let each {A} (f : BookRow -> A) : list A := map f rows in
  [Col.of_ts (each (fun r => ts_init (rec_stamps (br_record r)))); Col.of_ts (each (fun r => ts_event (rec_stamps (br_record r))));
   Col.of_strs (each (fun r => Some (rec_instrument (br_record r)))); Col.of_ints UInt16 (each (fun r => Some (rec_outcome (br_record r))));
   Col.of_strs (each (fun r => Some (br_action r))); Col.of_strs (each (fun r => Side.as_str <$> br_side r));
   FixedBuilder.column e (each br_price); FixedBuilder.column e (each br_size);
   Col.of_ints Int64 (each (fun r => Some (br_index r))); Col.of_bools (each (fun r => Some (br_last r)));
   Col.of_strs (each (fun _ => None))].
Definition write_book_events db (records : list EventRecord) : bprog unit :=
  let* e := encoding_of db schema.BOOK_DELTAS in
  let* rows := bret (book_rows records) in
  append db schema.BOOK_DELTAS (schema.book_deltas e) (book_columns e rows).

(** *** Reading them back: snapshot levels gathered until their last row *)
Record BookState := mkBookState {
  bs_out : list EventRecord;
  bs_pending : option PendingSnapshot;
  bs_ids : Instruments;
}.
Definition add_level (p : PendingSnapshot) (side : Side) (level : Price * Qty) : PendingSnapshot :=
  match side with
  | Buy => p <| ps_bids := ps_bids p ++ [level] |>
  | Sell => p <| ps_asks := ps_asks p ++ [level] |>
  end.
Definition finished (p : PendingSnapshot) : EventRecord :=
  EventRecord.new (ps_stamps p) (ps_instrument p) (ps_outcome p) (EvBookSnapshot (ps_bids p) (ps_asks p)).
Definition snapshot_row (pending : option PendingSnapshot) (index : Z) (stamps : Stamps) (id : InstrumentId)
    (outcome : OutcomeId) (side price size : Column) (row : nat) : Result PendingSnapshot :=
  let entry := default (mkPendingSnapshot index stamps id outcome [] []) pending in
  if negb (ps_index entry =? index) then Err (invalid "snapshot event was not terminated by an is_last row")
  else if negb (String.eqb (ps_instrument entry) id && (ps_outcome entry =? outcome)) then
    Err (invalid "snapshot event mixes books")
  else
    let? p := read_fixed price row "price" in
    let? q := read_fixed size row "size" in
    match Col.opt_str side row, p, q with
    | Some text, Some p, Some q => let? s := Side.parse text in Ok (add_level entry s (p, q))
    | _, _, _ => Ok entry
    end.
Definition delta_row (action : string) (side price size : Column) (row : nat) : Result BookDelta :=
  let? text := ok_or (Col.opt_str side row) (invalid "row has no side") in
  let? s := Side.parse text in
  if String.eqb action "set" then
    let? p := read_fixed price row "price" in
    let? p := ok_or p (invalid "set row has no price") in
    let? q := read_fixed size row "size" in
    Ok (BookDelta.set s p (default 0 q))
  else if String.eqb action "delete" then
    let? p := read_fixed price row "price" in
    let? p := ok_or p (invalid "delete row has no price") in
    Ok (BookDelta.delete s p)
  else if String.eqb action "clear" then Ok (BookDelta.clear s)
  else Err (Parse "book action" action).
(** One row: the body of the loop of [read_book_events]. *)
Definition book_row_step (init event outcome action side price size index last : Column) (st : BookState) (row : nat) :
    Result BookState :=
  let? stamps := Stamps.new (Col.int event row) (Col.int init row) in
  let? '(ids, id) := Instruments.get (bs_ids st) row in
  let out_id := Col.int outcome row in
  let name := Col.str action row in
  if String.eqb name "snapshot" then
    let? p := snapshot_row (bs_pending st) (Col.int index row) stamps id out_id side price size row in
    Ok (if Col.bool last row then mkBookState (bs_out st ++ [finished p]) None ids
        else mkBookState (bs_out st) (Some p) ids)
  else if String.eqb name "gap" then
    Ok (mkBookState (bs_out st ++ [EventRecord.new stamps id out_id EvGap]) (bs_pending st) ids)
  else
    let? delta := delta_row name side price size row in
    Ok (mkBookState (bs_out st ++ [EventRecord.new stamps id out_id (EvBookDelta delta)]) (bs_pending st) ids).
Definition read_book_batch (st : list EventRecord * option PendingSnapshot) (b : RecordBatch) :
    Result (list EventRecord * option PendingSnapshot) :=
  let? init := Col.column Col.timestamps b "ts_init" in
  let? event := Col.column Col.timestamps b "ts_event" in
  let? ids := Instruments.new b in
  let? outcome := Col.column Col.uint16s b "outcome" in
  let? action := Col.column Col.strings b "action" in
  let? side := Col.column Col.strings b "side" in
  let? price := Col.fixed b "price" in
  let? size := Col.fixed b "size" in
  let? index := Col.column Col.int64s b "event_index" in
  let? last := Col.column Col.booleans b "is_last" in
  let? st := foldr_res (book_row_step init event outcome action side price size index last)
               (mkBookState st.1 st.2 ids) (seq 0 (rb_rows b)) in
  Ok (bs_out st, bs_pending st).
Definition by_ts (records : list EventRecord) : list EventRecord := sort_by_key EventRecord.ts records.
Definition book_events_of (batches : list RecordBatch) : Result (list EventRecord) :=
  let? '(out, pending) := foldr_res read_book_batch ([], None) batches in
  match pending with
  | Some _ => Err (invalid "snapshot event is truncated")
  | None => Ok (by_ts out)
  end.
Definition read_book_events db (at_ : ReadAt) (window : option TimeWindow) : bprog (list EventRecord) :=
  let* batches := scan_optional db schema.BOOK_DELTAS at_ window (Some BOOK_COLUMNS) in
  bret (book_events_of batches).

(** ** Decoding a batch row by row *)

(** The records pushed, and the error that stopped the decoding. *)
Abbreviation Decoded := (list EventRecord * option BacktestError)%type.
Abbreviation RowDecoder := (Instruments -> nat -> Result (Instruments * EventRecord)) (only parsing).
Fixpoint push_rows (f : RowDecoder) (s : Instruments) (rows : list nat) : Decoded :=
  match rows with
  | [] => ([], None)
  | row :: rows' =>
      match f s row with
      | Err e => ([], Some e)
      | Ok (s, r) => let '(out, e) := push_rows f s rows' in (r :: out, e)
      end
  end.
Definition decode_with (open : RecordBatch -> Result (Instruments * RowDecoder)) (b : RecordBatch) : Decoded :=
  match open b with Err e => ([], Some e) | Ok (s, f) => push_rows f s (seq 0 (rb_rows b)) end.
(** [BatchDecoder]: the error of a batch comes before the records pushed ahead of it. *)
Definition batch_decoder (decode : RecordBatch -> Decoded) (batches : list RecordBatch) : RecordSource :=
  concat (map (fun b => let '(out, e) := decode b in
                        match e with Some e => Err e :: map Ok out | None => map Ok out end) batches).
Definition read_all (decode : RecordBatch -> Decoded) (batches : list RecordBatch) : Result (list EventRecord) :=
  let? l := map_res (fun b => match decode b with (out, None) => Ok out | (_, Some e) => Err e end) batches in
  Ok (by_ts (concat l)).
Definition opt_price (c : Column) (row : nat) (name : string) : Result (option Price) := read_fixed c row name.

(** ** Trades *)
Definition trade_of (r : EventRecord) : Result (EventRecord * (Price * Qty * option Side)) :=
  match rec_event r with
  | EvTrade p q s => Ok (r, (p, q, s))
  | _ => Err (invalid "write_trades takes trade records only")
  end.
Definition stamped_columns (l : list EventRecord) : list Column :=
  [Col.of_ts (map (fun r => ts_init (rec_stamps r)) l); Col.of_ts (map (fun r => ts_event (rec_stamps r)) l);
   Col.of_strs (map (fun r => Some (rec_instrument r)) l)].
Definition outcome_column (l : list EventRecord) : Column := Col.of_ints UInt16 (map (fun r => Some (rec_outcome r)) l).
Definition null_strs {A} (l : list A) : Column := Col.of_strs (map (fun _ => None) l).
Definition trade_columns (e : FixedEncoding) (l : list (EventRecord * (Price * Qty * option Side))) : list Column :=
  stamped_columns (map fst l) ++
  [outcome_column (map fst l); FixedBuilder.column e (map (fun t => Some t.2.1.1) l);
   FixedBuilder.column e (map (fun t => Some t.2.1.2) l); Col.of_strs (map (fun t => Side.as_str <$> t.2.2) l);
   null_strs l; null_strs l].
Definition write_trades db (records : list EventRecord) : bprog unit :=
  let* e := encoding_of db schema.TRADES in
  let* l := bret (map_res trade_of records) in
  append db schema.TRADES (schema.trades e) (trade_columns e l).

Definition open_trades (b : RecordBatch) : Result (Instruments * RowDecoder) :=
  let? init := Col.column Col.timestamps b "ts_init" in
  let? event := Col.column Col.timestamps b "ts_event" in
  let? ids := Instruments.new b in
  let? outcome := Col.column Col.uint16s b "outcome" in
  let? price := Col.fixed b "price" in
  let? size := Col.fixed b "size" in
  let? aggressor := Col.column Col.strings b "aggressor" in
  Ok (ids, fun ids row =>
    let? stamps := Stamps.new (Col.int event row) (Col.int init row) in
    let? '(ids, id) := Instruments.get ids row in
    let? p := read_fixed_value price row "price" in
    let? q := read_fixed_value size row "size" in
    let? s := match Col.opt_str aggressor row with
              | Some text => let? s := Side.parse text in Ok (Some s) | None => Ok None end in
    Ok (ids, EventRecord.new stamps id (Col.int outcome row) (EvTrade p q s))).
Definition decode_trades : RecordBatch -> Decoded := decode_with open_trades.
Definition read_trades db (at_ : ReadAt) (window : option TimeWindow) : bprog (list EventRecord) :=
  let* batches := scan_optional db schema.TRADES at_ window (Some TRADE_COLUMNS) in
  bret (read_all decode_trades batches).
Definition trade_source db (at_ : ReadAt) (window : option TimeWindow) : bprog RecordSource :=
  let* batches := scan_optional db schema.TRADES at_ window (Some TRADE_COLUMNS) in
  bret (Ok (batch_decoder decode_trades batches)).
Definition count_trades db (at_ : ReadAt) (window : option TimeWindow) : bprog nat :=
  let* batches := scan_optional db schema.TRADES at_ window (Some TRADE_COLUMNS) in
  bret (Ok (sum_list_with rb_rows batches)).

(** ** Funding *)
Definition funding_of (r : EventRecord) : Result (EventRecord * Price) :=
  match rec_event r with
  | EvFunding rate => Ok (r, rate)
  | _ => Err (invalid "write_funding takes funding records only")
  end.
Definition funding_columns (e : FixedEncoding) (l : list (EventRecord * Price)) : list Column :=
  stamped_columns (map fst l) ++ [FixedBuilder.column e (map (fun t => Some t.2) l); null_strs l].
Definition write_funding db (records : list EventRecord) : bprog unit :=
  let* e := encoding_of db schema.FUNDING in
  let* l := bret (map_res funding_of records) in
  append db schema.FUNDING (schema.funding e) (funding_columns e l).
Definition open_funding (b : RecordBatch) : Result (Instruments * RowDecoder) :=
  let? init := Col.column Col.timestamps b "ts_init" in
  let? event := Col.column Col.timestamps b "ts_event" in
  let? ids := Instruments.new b in
  let? rate := Col.fixed b "rate" in
  Ok (ids, fun ids row =>
    let? stamps := Stamps.new (Col.int event row) (Col.int init row) in
    let? '(ids, id) := Instruments.get ids row in
    let? r := read_fixed_value rate row "rate" in
    Ok (ids, EventRecord.new stamps id 0 (EvFunding r))).
Definition decode_funding : RecordBatch -> Decoded := decode_with open_funding.
Definition read_funding db (at_ : ReadAt) (window : option TimeWindow) : bprog (list EventRecord) :=
  let* batches := scan_optional db schema.FUNDING at_ window (Some FUNDING_COLUMNS) in
  bret (read_all decode_funding batches).
Definition funding_source db (at_ : ReadAt) (window : option TimeWindow) : bprog RecordSource :=
  let* batches := scan_optional db schema.FUNDING at_ window (Some FUNDING_COLUMNS) in
  bret (Ok (batch_decoder decode_funding batches)).

(** ** Corporate actions *)
Definition corporate_of (r : EventRecord) : Result (EventRecord * CorporateAction) :=
  match rec_event r with
  | EvCorporate action => let? _ := CorporateAction.validate action in Ok (r, action)
  | _ => Err (invalid "write_corporate_actions takes corporate records only")
  end.
Definition corporate_columns (e : FixedEncoding) (l : list (EventRecord * CorporateAction)) : list Column :=
  stamped_columns (map fst l) ++
  [Col.of_strs (map (fun t => Some (CorporateAction.kind t.2)) l);
   FixedBuilder.column e (map (fun t => match t.2 with Split ratio => Some ratio | _ => None end) l);
   FixedBuilder.column e (map (fun t => match t.2 with Dividend per_share => Some per_share | _ => None end) l);
   FixedBuilder.column e (map (fun t => match t.2 with Delist final_price => Some final_price | _ => None end) l);
   Col.of_ints Int64 (map (fun _ => None) l); null_strs l].
Definition write_corporate_actions db (records : list EventRecord) : bprog unit :=
  let* e := encoding_of db schema.CORPORATE_ACTIONS in
  let* l := bret (map_res corporate_of records) in
  append db schema.CORPORATE_ACTIONS (schema.corporate_actions e) (corporate_columns e l).
Definition corporate_action (name : string) (ratio per_share final_price : Column) (row : nat) : Result CorporateAction :=
  if String.eqb name "split" then
    if is_null (cell ratio row) then Err (invalid "a split corporate action is missing its ratio")
    else let? v := read_fixed_value ratio row "ratio" in Ok (Split v)
  else if String.eqb name "dividend" then
    if is_null (cell per_share row) then Err (invalid "a dividend corporate action is missing its per_share amount")
    else let? v := read_fixed_value per_share row "per_share" in Ok (Dividend v)
  else if String.eqb name "delist" then
    if is_null (cell final_price row) then Err (invalid "a delist corporate action is missing its final_price")
    else let? v := read_fixed_value final_price row "final_price" in Ok (Delist v)
  else Err (Parse "corporate action kind" name).
Definition open_corporate (b : RecordBatch) : Result (Instruments * RowDecoder) :=
  let? init := Col.column Col.timestamps b "ts_init" in
  let? event := Col.column Col.timestamps b "ts_event" in
  let? ids := Instruments.new b in
  let? kind := Col.column Col.strings b "kind" in
  let? ratio := Col.fixed b "ratio" in
  let? per_share := Col.fixed b "per_share" in
  let? final_price := Col.fixed b "final_price" in
  Ok (ids, fun ids row =>
    let? action := corporate_action (Col.str kind row) ratio per_share final_price row in
    let? _ := CorporateAction.validate action in
    let? stamps := Stamps.new (Col.int event row) (Col.int init row) in
    let? '(ids, id) := Instruments.get ids row in
    Ok (ids, EventRecord.new stamps id 0 (EvCorporate action))).
Definition decode_corporate : RecordBatch -> Decoded := decode_with open_corporate.
Definition read_corporate_actions db (at_ : ReadAt) (window : option TimeWindow) : bprog (list EventRecord) :=
  let* batches := scan_optional db schema.CORPORATE_ACTIONS at_ window (Some CORPORATE_COLUMNS) in
  bret (read_all decode_corporate batches).
Definition corporate_source db (at_ : ReadAt) (window : option TimeWindow) : bprog RecordSource :=
  let* batches := scan_optional db schema.CORPORATE_ACTIONS at_ window (Some CORPORATE_COLUMNS) in
  bret (Ok (batch_decoder decode_corporate batches)).

(** ** Reference prices *)
Definition reference_of (r : EventRecord) : Result (EventRecord * (option Price * option Price)) :=
  match rec_event r with
  | EvReference mark oracle => Ok (r, (mark, oracle))
  | _ => Err (invalid "write_references takes reference records only")
  end.
Definition reference_columns (e : FixedEncoding) (l : list (EventRecord * (option Price * option Price))) : list Column :=
  stamped_columns (map fst l) ++
  [outcome_column (map fst l); FixedBuilder.column e (map (fun t => t.2.1) l);
   FixedBuilder.column e (map (fun t => t.2.2) l); null_strs l].
Definition write_references db (records : list EventRecord) : bprog unit :=
  let* e := encoding_of db schema.REFERENCES in
  let* l := bret (map_res reference_of records) in
  append db schema.REFERENCES (schema.references e) (reference_columns e l).
Definition open_references (b : RecordBatch) : Result (Instruments * RowDecoder) :=
  let? init := Col.column Col.timestamps b "ts_init" in
  let? event := Col.column Col.timestamps b "ts_event" in
  let? ids := Instruments.new b in
  let? outcome := Col.column Col.uint16s b "outcome" in
  let? mark := Col.fixed b "mark" in
  let? oracle := Col.fixed b "oracle" in
  Ok (ids, fun ids row =>
    let? stamps := Stamps.new (Col.int event row) (Col.int init row) in
    let? '(ids, id) := Instruments.get ids row in
    let? m := opt_price mark row "mark" in
    let? o := opt_price oracle row "oracle" in
    Ok (ids, EventRecord.new stamps id (Col.int outcome row) (EvReference m o))).
Definition decode_reference : RecordBatch -> Decoded := decode_with open_references.
Definition reference_source db (at_ : ReadAt) (window : option TimeWindow) : bprog RecordSource :=
  let* batches := scan_optional db schema.REFERENCES at_ window (Some REFERENCE_COLUMNS) in
  bret (Ok (batch_decoder decode_reference batches)).

(** ** Resolutions *)
Record ResolutionRow := mkResolutionRow {
  rw_resolution : Resolution;
  rw_kind : string;
  rw_outcome : option OutcomeId;
  rw_payout : option Price;
  rw_count : option Z;
}.
Definition resolution_rows (r : Resolution) : list ResolutionRow :=
  match payout r with
  | Winner winner => [mkResolutionRow r "winner" (Some winner) None None]
  | Void outcomes => [mkResolutionRow r "void" None None (Some outcomes)]
  | SplitPayout payouts =>
      map (fun e => mkResolutionRow r "split" (Some (Z.of_nat e.1 mod 65536)) (Some e.2) None)
        (combine (seq 0 (length payouts)) payouts)
  end.
Definition resolution_columns (e : FixedEncoding) (rows : list ResolutionRow) : list Column :=
  [Col.of_ts (map (fun r => observable_at (rw_resolution r)) rows);
   Col.of_strs (map (fun r => Some (res_instrument (rw_resolution r))) rows);
   Col.of_strs (map (fun r => Some (rw_kind r)) rows); Col.of_ints UInt16 (map rw_outcome rows);
   FixedBuilder.column e (map rw_payout rows); Col.of_ints UInt16 (map rw_count rows)].
Definition write_resolutions db (l : list Resolution) : bprog unit :=
  let* e := encoding_of db schema.RESOLUTIONS in
  append db schema.RESOLUTIONS (schema.resolutions e) (resolution_columns e (concat (map resolution_rows l))).

Abbreviation Splits := (BTree string (Z * BTree Z Price)) (only parsing).
Definition resolution_row (st : list Resolution * Splits) (id kind : string) (at_ : Z) (outcome payout count : Column)
    (row : nat) : Result (list Resolution * Splits) :=
  if String.eqb kind "winner" then
    if negb (Col.is_valid outcome row) then Err (invalid "resolution names a winner but no outcome")
    else let? i := InstrumentId.new id in Ok (st.1 ++ [Resolution.new i (Col.int outcome row) at_], st.2)
  else if String.eqb kind "void" then
    if negb (Col.is_valid count row) then Err (invalid "voided resolution does not say how many outcomes it refunds across")
    else
      let? i := InstrumentId.new id in
      let? r := Resolution.void i (Col.int count row) at_ in Ok (st.1 ++ [r], st.2)
  else if String.eqb kind "split" then
    if negb (Col.is_valid outcome row) || is_null (cell payout row) then
      Err (invalid "split resolution row is missing its outcome or payout")
    else
      let? p := read_fixed_value payout row "payout" in
      let entry := default (at_, []) (bget id st.2) in
      Ok (st.1, binsert id (entry.1, binsert (Col.int outcome row) p entry.2) st.2)
  else Err (Parse "resolution kind" kind).
Definition resolution_batch (st : list Resolution * Splits) (b : RecordBatch) : Result (list Resolution * Splits) :=
  let? ts := Col.column Col.timestamps b "ts_init" in
  let? instrument := Col.column Col.strings b "instrument_id" in
  let? kind := Col.column Col.strings b "kind" in
  let? outcome := Col.column Col.uint16s b "outcome" in
  let? payout := Col.fixed b "payout" in
  let? count := Col.column Col.uint16s b "outcome_count" in
  foldr_res (fun st row => resolution_row st (Col.str instrument row) (Col.str kind row) (Col.int ts row) outcome payout count row)
    st (seq 0 (rb_rows b)).
Definition finish_split (out : list Resolution) (e : string * (Z * BTree Z Price)) : Result (list Resolution) :=
  if negb (no_gaps e.2.2) then Err (invalid "split resolution has gaps in its outcome indices")
  else
    let? i := InstrumentId.new e.1 in
    let? r := Resolution.split i (bvalues e.2.2) e.2.1 in Ok (out ++ [r]).
Definition resolutions_of (batches : list RecordBatch) : Result (list Resolution) :=
  let? st := foldr_res resolution_batch ([], []) batches in
  foldr_res finish_split st.1 st.2.
Definition read_resolutions db (at_ : ReadAt) : bprog (list Resolution) :=
  let* batches := scan_optional db schema.RESOLUTIONS at_ None None in bret (resolutions_of batches).

(** ** Checking a stored feed *)
Definition replay_book (records : list EventRecord) (instrument : string) : Result OrderBook :=
  foldr_res (fun book r =>
    match rec_event r with
    | EvBookSnapshot bids asks => OrderBook.apply_snapshot book bids asks (EventRecord.ts r)
    | EvBookDelta delta => OrderBook.apply_delta book instrument delta (EventRecord.ts r)
    | EvGap => Ok (OrderBook.mark_gap book (EventRecord.ts r))
    | _ => Ok book
    end) OrderBook.new records.
End MarketStore.
End MarketStore.
