(* ===== verification/RunStore.v ===== *)
(** * Strategies and runs in tables ([store.rs], the rest)

    Signals and commands read as order intents, the ingest log, and the five tables a
    finished run writes in one transaction. *)
From S2P Require Export Engine MarketStore.
Import EventIO.
#[local] Open Scope Z_scope.

(** One completed load. *)
Record IngestEntry := mkIngestEntry {
  ie_ts : UnixNanos;
  ie_vendor : string;
  ie_digest : string;
  ie_records : Z;
  ie_window : option TimeWindow;
  ie_instruments : Z;
}.

Module RunStore.
Section Strategies.
Context `{Env} `{ArrowRows}.
Implicit Types db : Database.

(** ** Signals *)
Definition parse_tif (text : string) : Result TimeInForce :=
  if String.eqb text "gtc" then Ok GoodTilCancel
  else if String.eqb text "ioc" then Ok ImmediateOrCancel
  else if String.eqb text "fok" then Ok FillOrKill
  else Err (Parse "time in force" text).
Definition tif_name (t : TimeInForce) : string :=
  match t with GoodTilCancel => "gtc" | ImmediateOrCancel => "ioc" | FillOrKill => "fok" end.

(** The columns an order intent is read from. *)
Record IntentColumns := mkIntentColumns {
  ic_instrument : Column; ic_outcome : Column; ic_side : Column; ic_quantity : Column; ic_kind : Column;
  ic_limit : Column; ic_tif : Column; ic_tag : Column; ic_reduce_only : Column; ic_post_only : option Column;
}.
Definition set_if (c : option Column) (row : nat) : bool :=
  match c with Some c => Col.is_valid c row && Col.bool c row | None => false end.
(** The order a row asks for; [what] names the kind column in its error. *)
Definition intent (what : string) (c : IntentColumns) (row : nat) : Result OrderRequest :=
  let? id := InstrumentId.new (Col.str (ic_instrument c) row) in
  let out_id := Col.int (ic_outcome c) row in
  let? side := Side.parse (Col.str (ic_side c) row) in
  let? size := read_fixed_value (ic_quantity c) row "quantity" in
  let name := Col.str (ic_kind c) row in
  let? request :=
    if String.eqb name "market" then Ok (OrderRequest.market id out_id side size)
    else if String.eqb name "limit" then
      let? price := read_fixed (ic_limit c) row "limit_price" in
      let? price := ok_or price (invalid "limit order has no limit_price") in
      Ok (OrderRequest.limit id out_id side price size)
    else Err (Parse what name) in
  let? request := match Col.opt_str (ic_tif c) row with
    | Some text => let? tif := parse_tif text in Ok (OrderRequest.with_time_in_force request tif)
    | None => Ok request
    end in
  let request := match Col.opt_str (ic_tag c) row with
    | Some text => OrderRequest.with_tag request text | None => request end in
  let request := if set_if (Some (ic_reduce_only c)) row then OrderRequest.reduce_only request else request in
  Ok (if set_if (ic_post_only c) row then OrderRequest.post_only request else request).

Definition signal_batch (b : RecordBatch) : Result (list (UnixNanos * OrderRequest)) :=
  let? ts := Col.column Col.timestamps b "ts" in
  let? instrument := Col.column Col.strings b "instrument_id" in
  let? outcome := Col.column Col.uint16s b "outcome" in
  let? side := Col.column Col.strings b "side" in
  let? quantity := Col.fixed b "quantity" in
  let? kind := Col.column Col.strings b "kind" in
  let? limit := Col.fixed b "limit_price" in
  let? tif := Col.column Col.strings b "time_in_force" in
  let? tag := Col.column Col.strings b "tag" in
  let? reduce_only := Col.column Col.booleans b "reduce_only" in
  let post_only := ok (Col.column Col.booleans b "post_only") in
  let c := mkIntentColumns instrument outcome side quantity kind limit tif tag reduce_only post_only in
  map_res (fun row => let? r := intent "signal kind" c row in Ok (Col.int ts row, r)) (seq 0 (rb_rows b)).
Definition signals_of (batches : list RecordBatch) : Result (list (UnixNanos * OrderRequest)) :=
  let? l := map_res signal_batch batches in Ok (sort_by_key fst (concat l)).
Definition read_signals db (table : string) (at_ : ReadAt) (window : option TimeWindow) :
    bprog (list (UnixNanos * OrderRequest)) :=
  let* batches := scan db table at_ window None in bret (signals_of batches).

(** ** Commands *)
Definition missing (present : bool) (field : string) : Result unit :=
  if present then Ok tt else Err (invalid ("submit command is missing " +:+ field)).
Definition command_at (action client_id : Column) (c : IntentColumns) (row : nat) : Result ReplayCommand :=
  let id := Col.str client_id row in
  let name := Col.str action row in
  if String.eqb name "cancel" then Ok (RcCancel id)
  else if String.eqb name "amend" then
    let? quantity := read_fixed (ic_quantity c) row "quantity" in
    let? limit := read_fixed (ic_limit c) row "limit_price" in
    match quantity, limit with
    | None, None => Err (invalid "amend command changes neither quantity nor limit_price")
    | _, _ => Ok (RcAmend id quantity limit)
    end
  else if String.eqb name "submit" then
    let? _ := missing (Col.is_valid (ic_instrument c) row) "instrument_id" in
    let? _ := missing (Col.is_valid (ic_outcome c) row) "outcome" in
    let? _ := missing (Col.is_valid (ic_side c) row) "side" in
    let? _ := missing (negb (is_null (cell (ic_quantity c) row))) "quantity" in
    let? _ := missing (Col.is_valid (ic_kind c) row) "kind" in
    let? request := intent "command kind" c row in
    Ok (RcSubmit id request)
  else Err (Parse "command action" name).
Definition command_batch (b : RecordBatch) : Result (list (UnixNanos * ReplayCommand)) :=
  let? ts := Col.column Col.timestamps b "ts" in
  let? action := Col.column Col.strings b "action" in
  let? client_id := Col.column Col.strings b "client_order_id" in
  let? instrument := Col.column Col.strings b "instrument_id" in
  let? outcome := Col.column Col.uint16s b "outcome" in
  let? side := Col.column Col.strings b "side" in
  let? quantity := Col.fixed b "quantity" in
  let? kind := Col.column Col.strings b "kind" in
  let? limit := Col.fixed b "limit_price" in
  let? tif := Col.column Col.strings b "time_in_force" in
  let? tag := Col.column Col.strings b "tag" in
  let? reduce_only := Col.column Col.booleans b "reduce_only" in
  let post_only := ok (Col.column Col.booleans b "post_only") in
  let c := mkIntentColumns instrument outcome side quantity kind limit tif tag reduce_only post_only in
  map_res (fun row => let? r := command_at action client_id c row in Ok (Col.int ts row, r)) (seq 0 (rb_rows b)).
Definition commands_of (batches : list RecordBatch) : Result (list (UnixNanos * ReplayCommand)) :=
  let? l := map_res command_batch batches in Ok (sort_by_key fst (concat l)).
Definition read_commands db (table : string) (at_ : ReadAt) (window : option TimeWindow) :
    bprog (list (UnixNanos * ReplayCommand)) :=
  let* batches := scan db table at_ window None in bret (commands_of batches).

(** ** The ingest log *)
Definition ingest_columns (e : IngestEntry) : list Column :=
  [Col.of_ts [ie_ts e]; Col.of_strs [Some (ie_vendor e)]; Col.of_strs [Some (ie_digest e)];
   Col.of_ints Int64 [Some (ie_records e)]; Col.of_ints Int64 [start <$> ie_window e];
   Col.of_ints Int64 [end_ <$> ie_window e]; Col.of_ints Int64 [Some (ie_instruments e)]].
Definition write_ingest_log db (e : IngestEntry) : bprog unit :=
  append db schema.INGEST_LOG schema.ingest_log (ingest_columns e).
Definition ingest_batch (b : RecordBatch) : Result (list IngestEntry) :=
  let? ts := Col.column Col.timestamps b "ts" in
  let? vendor := Col.column Col.strings b "vendor" in
  let? digest := Col.column Col.strings b "digest" in
  let? records := Col.column Col.int64s b "records" in
  let? start := Col.column Col.int64s b "window_start_ns" in
  let? stop := Col.column Col.int64s b "window_end_ns" in
  let? instruments := Col.column Col.int64s b "instruments" in
  Ok (map (fun row =>
    let window := match Col.opt_i64 start row, Col.opt_i64 stop row with
                  | Some from, Some to => ok (TimeWindow.new from to) | _, _ => None end in
    mkIngestEntry (Col.int ts row) (Col.str vendor row) (Col.str digest row) (Col.int records row) window
      (Col.int instruments row)) (seq 0 (rb_rows b))).
Definition read_ingest_log db : bprog (list IngestEntry) :=
  let* batches := scan_optional db schema.INGEST_LOG Latest None None in
  bret (let? l := map_res ingest_batch batches in Ok (concat l)).

(** ** Fills *)
Definition u64_of_i64 (z : Z) : Z := z mod 2 ^ 64.
Definition fill_columns (e : FixedEncoding) (fills : list Fill) : list Column :=
  [Col.of_ts (map f_ts fills); Col.of_ints Int64 (map (fun f => Some (wrap64 (f_order_id f))) fills);
   Col.of_strs (map (fun f => Some (f_instrument f)) fills); Col.of_ints UInt16 (map (fun f => Some (f_outcome f)) fills);
   Col.of_strs (map (fun f => Some (Side.as_str (f_side f))) fills);
   FixedBuilder.column e (map (fun f => Some (f_price f)) fills); FixedBuilder.column e (map (fun f => Some (f_quantity f)) fills);
   FixedBuilder.column e (map (fun f => Some (f_commission f)) fills);
   Col.of_bools (map (fun f => Some (f_is_taker f)) fills); Col.of_strs (map f_tag fills)].
Definition fills_batch (fills : list Fill) (e : FixedEncoding) : Result (option RecordBatch) :=
  build schema.FILLS (schema.fills e) (fill_columns e fills).
Definition fill_batch (b : RecordBatch) : Result (list Fill) :=
  let? ts := Col.column Col.timestamps b "ts" in
  let? order_id := Col.column Col.int64s b "order_id" in
  let? instrument := Col.column Col.strings b "instrument_id" in
  let? outcome := Col.column Col.uint16s b "outcome" in
  let? side := Col.column Col.strings b "side" in
  let? price := Col.fixed b "price" in
  let? quantity := Col.fixed b "quantity" in
  let? commission := Col.fixed b "commission" in
  let? is_taker := Col.column Col.booleans b "is_taker" in
  let? tag := Col.column Col.strings b "tag" in
  map_res (fun row =>
    let? id := InstrumentId.new (Col.str instrument row) in
    let? s := Side.parse (Col.str side row) in
    let? p := read_fixed_value price row "price" in
    let? q := read_fixed_value quantity row "quantity" in
    let? c := read_fixed_value commission row "commission" in
    Ok (mkFill (u64_of_i64 (Col.int order_id row)) id (Col.int outcome row) s p q c
          (Col.bool is_taker row) (Col.int ts row) (Col.opt_str tag row))) (seq 0 (rb_rows b)).
Definition fills_of (batches : list RecordBatch) : Result (list Fill) :=
  let? l := map_res fill_batch batches in Ok (sort_by_key f_ts (concat l)).
Definition read_fills db (at_ : ReadAt) : bprog (list Fill) :=
  let* batches := scan db schema.FILLS at_ None None in bret (fills_of batches).
End Strategies.

(** ** The tables of a run *)
Section Runs.
Context `{Env} `{ArrowRows} {F X : Type}.
Implicit Types db : Database.
Abbreviation Finished := (Engine.RunResult (F:=F) (X:=X)) (only parsing).

Fixpoint join (sep : string) (l : list string) : string :=
  match l with [] => "" | [s] => s | s :: l' => s +:+ sep +:+ join sep l' end.
Definition run_manifest_batch (run_id config_digest : string) (starting : Money) (result : Finished)
    (settlement : SettlementReport) (started_at : UnixNanos) (e : FixedEncoding) : Result (option RecordBatch) :=
  let engine := Engine.rr_engine result in
  let warnings := SettlementReport.warnings settlement in
  build schema.RUN (schema.run e)
    [Col.of_ts [started_at]; Col.of_strs [Some run_id]; Col.of_strs [Some config_digest];
     FixedBuilder.column e [Some starting]; FixedBuilder.column e [Some (e_cash engine)];
     FixedBuilder.column e [Some (Engine.rr_realized_pnl result)]; FixedBuilder.column e [Some (Engine.rr_commissions result)];
     Col.of_ints Int64 [e_simulated_through engine]; Col.of_ints Int64 [Some (wrap64 (e_records engine))];
     Col.of_bools [Some (SettlementReport.was_applied settlement)];
     Col.of_strs [match warnings with [] => None | _ => Some (join "; " warnings) end]].

Definition order_columns (e : FixedEncoding) (orders : list Order) : list Column :=
  [Col.of_ts (map o_submitted_at orders); Col.of_ints Int64 (map (fun o => Some (wrap64 (o_id o))) orders);
   Col.of_strs (map (fun o => Some (o_instrument o)) orders); Col.of_ints UInt16 (map (fun o => Some (o_outcome o)) orders);
   Col.of_strs (map (fun o => Some (Side.as_str (o_side o))) orders);
   Col.of_strs (map (fun o => Some (match Order.limit_price o with Some _ => "limit" | None => "market" end)) orders);
   FixedBuilder.column e (map Order.limit_price orders); FixedBuilder.column e (map (fun o => Some (o_quantity o)) orders);
   FixedBuilder.column e (map (fun o => Some (o_filled o)) orders);
   Col.of_strs (map (fun o => Some (tif_name (o_tif o))) orders);
   Col.of_strs (map (fun o => Some (OrderStatus.as_str (o_status o))) orders);
   Col.of_strs (map o_reject_reason orders); Col.of_strs (map o_tag orders);
   Col.of_bools (map (fun o => Some (o_reduce_only o)) orders)].
Definition orders_batch (result : Finished) (e : FixedEncoding) : Result (option RecordBatch) :=
  build schema.ORDERS (schema.orders e) (order_columns e (Engine.rr_orders result)).

(** Positions are folded from the fills, not read from the engine. *)
Definition settled_by (settlement : SettlementReport) : BTree PositionKey PositionSettlement :=
  fold_left (fun m s => binsert (st_instrument s, st_outcome s) s m) (settled settlement) [].
Definition position_columns (e : FixedEncoding) (ts_value : Z) (settled : BTree PositionKey PositionSettlement)
    (ps : list Position) : list Column :=
  let entry p := bget (p_instrument p, p_outcome p) settled in
  [Col.of_ts (map (fun _ => ts_value) ps); Col.of_strs (map (fun p => Some (p_instrument p)) ps);
   Col.of_ints UInt16 (map (fun p => Some (p_outcome p)) ps);
   FixedBuilder.column e (map (fun p => Some (p_quantity p)) ps); FixedBuilder.column e (map (fun p => Some (average_price p)) ps);
   FixedBuilder.column e (map (fun p => Some (p_realized_pnl p)) ps); FixedBuilder.column e (map (fun p => Some (p_commissions p)) ps);
   FixedBuilder.column e (map (fun p => settled_pnl <$> entry p) ps);
   FixedBuilder.column e (map (fun p => entry p ≫= market_exit_pnl) ps)].
Definition positions_batch (result : Finished) (settlement : SettlementReport) (e : FixedEncoding) :
    Result (option RecordBatch) :=
  let? portfolio := Portfolio.replay (e_fills (Engine.rr_engine result)) in
  build schema.POSITIONS (schema.positions e)
    (position_columns e (default 0 (e_simulated_through (Engine.rr_engine result))) (settled_by settlement)
       (Portfolio.positions portfolio)).

Definition equity_columns (e : FixedEncoding) (points : list EquityPoint) : list Column :=
  let each f := FixedBuilder.column e (map (fun p => Some (f p)) points) in
  [Col.of_ts (map ep_ts points); each ep_cash; each ep_position_value; each ep_equity; each ep_realized_pnl;
   each ep_unrealized_pnl].
Definition equity_batch (result : Finished) (e : FixedEncoding) : Result (option RecordBatch) :=
  build schema.EQUITY (schema.equity e) (equity_columns e (e_equity (Engine.rr_engine result))).

(** One transaction; tables whose rows land in the past are appended one by one. *)
Definition add_table (t : Result TransactionBuilder) (entry : string * RecordBatch) : Result TransactionBuilder :=
  let? t := t in
  match TransactionBuilder.append t entry.1 [entry.2] with Ok t => Ok t | Err e => Err (core_err e) end.
Definition commit_run_batches db (batches : list (string * option RecordBatch)) : bprog unit :=
  let present := omap (fun e => pair e.1 <$> e.2) batches in
  match present with
  | [] => bret (Ok tt)
  | _ =>
      let* transaction := bret (fold_left add_table present (Ok TransactionBuilder.transaction)) in
      then_ (TransactionBuilder.commit db transaction) (fun r =>
        match r with
        | Ok _ => bret (Ok tt)
        | Err (SortOrderViolation _ _) =>
            each_b (fun e => append_with db e.1 (rb_schema e.2) (rb_columns e.2) (time_column_of e.1)) present
        | Err e => bret (Err (core_err e))
        end)
  end.
Definition write_run db (run_id config_digest : string) (starting : Money) (result : Finished)
    (settlement : SettlementReport) (started_at : UnixNanos) : bprog unit :=
  do* create_run_tables db in
  let* e := encoding_of db schema.FILLS in
  let* run := bret (run_manifest_batch run_id config_digest starting result settlement started_at e) in
  let* orders := bret (orders_batch result e) in
  let* fills := bret (fills_batch (e_fills (Engine.rr_engine result)) e) in
  let* positions := bret (positions_batch result settlement e) in
  let* equity := bret (equity_batch result e) in
  commit_run_batches db [(schema.RUN, run); (schema.ORDERS, orders); (schema.FILLS, fills);
                         (schema.POSITIONS, positions); (schema.EQUITY, equity)].
End Runs.
End RunStore.
