(* ===== verification/EventProps.v ===== *)
(** * What a stored table reads back

    A batch presents a list of values: the columns a reader looks up hold, slot by slot, the
    cells the values are stored as.  The batch a writer builds does, and so does any batch of
    the same rows in which the columns were reordered or some left out.  The four feeds that
    are decoded row by row (trades, funding, reference prices, corporate actions) implement
    one interface, against which their round trip is proved. *)
From S2P Require Export RunStore RowWrites.
#[local] Open Scope Z_scope.

(** ** Columns that hold values *)
Section Presents.
Context `{ArrowRows}.

(** The columns [names] of [s] hold the values [xs], stored as rows. *)
Definition presents {A} (names : list string) (s : Schema) (row : A -> list (option Cell)) (b : RecordBatch) (xs : list A) : Prop :=
  rb_rows b = length xs /\
  forall i f, s !! i = Some f -> In (fd_name f) names ->
    exists k c, TableSpec.index_of (rb_schema b) (fd_name f) = Some k /\ rb_columns b !! k = Some c /\ ar_type c = fd_type f /\
      forall j x, xs !! j = Some x -> cell c j = default None (row x !! i).

(** The columns a list of values is written as. *)
Definition columns_of {A} (s : Schema) (row : A -> list (option Cell)) (xs : list A) : list Column :=
  imap (fun i f => mkArray Cell (fd_type f) (map (fun x => default None (row x !! i)) xs)) s.

Lemma presents_column {A} names s (row : A -> _) b xs i f casts : presents names s row b xs -> s !! i = Some f ->
  In (fd_name f) names -> casts (fd_type f) = true ->
  exists c, Col.column casts b (fd_name f) = Ok c /\ ar_type c = fd_type f /\
    forall j x, xs !! j = Some x -> cell c j = default None (row x !! i).
Proof.
  intros [_ Hp] Hf Hn Hc. destruct (Hp i f Hf Hn) as (k & c & Hi & Hk & Ht & Hcells). exists c.
  unfold Col.column, Col.index_of. rewrite Hi. cbn. rewrite Hk, Ht, Hc. done.
Qed.

Lemma presents_weaken {A} names names' s (row : A -> _) b xs : (forall n, In n names' -> In n names) ->
  presents names s row b xs -> presents names' s row b xs.
Proof. intros Hn [Hl Hp]. split; [done|]. intros i f Hf Hin. by apply (Hp i f Hf), Hn. Qed.

(** The rows of a batch of the schema, told apart by position. *)
Lemma rows_present {A} s (row : A -> _) b xs : NoDup (map fd_name s) -> fits s b -> table_rows b = map row xs ->
  presents (map fd_name s) s row b xs.
Proof.
  intros Hnd [Hnames Hc] Hr. assert (Hl : rb_rows b = length xs).
  { apply (f_equal length) in Hr. unfold table_rows in Hr. by rewrite !length_map, length_seq in Hr. }
  split; [done|]. intros i f Hf _. destruct (Forall2_lookup_l _ _ _ _ _ Hc Hf) as (c & Hci & Ht & _).
  exists i, c. rewrite (index_of_names _ _ (fd_name f) Hnames). split; [by apply index_of_lookup|]. do 2 (split; [done|]).
  intros j x Hx. assert (Hj : (j < rb_rows b)%nat) by (rewrite Hl; by apply lookup_lt_Some in Hx).
  assert (Hrow : table_rows b !! j = Some (row x)) by (rewrite Hr; by rewrite list_lookup_fmap, Hx).
  unfold table_rows in Hrow. rewrite list_lookup_fmap, lookup_seq_lt in Hrow by done. injection Hrow as <-.
  unfold row_at. rewrite list_lookup_fmap, Hci. done.
Qed.
End Presents.

Section Built.
Context `{ArrowRowsSpec}.

Lemma columns_fit {A} s (row : A -> _) xs :
  (forall i f x, s !! i = Some f -> In x xs -> fd_nullable f = true \/ is_Some (default None (row x !! i))) ->
  Forall2 (column_fits (length xs)) s (columns_of s row xs).
Proof.
  intros Hn. apply Forall2_same_length_lookup. split; [unfold columns_of; by rewrite length_imap|].
  intros i f c Hf Hc. unfold columns_of in Hc. rewrite list_lookup_imap, Hf in Hc. cbn in Hc. injection Hc as <-.
  split; [done|]. cbn. split; [by rewrite length_map|]. destruct (fd_nullable f) eqn:En; [by left|right].
  apply Forall_fmap, List.Forall_forall. intros x Hx. destruct (Hn i f x Hf Hx); [congruence|done].
Qed.

(** What a writer builds. *)
Lemma built {A} s (row : A -> _) xs : s <> [] -> NoDup (map fd_name s) ->
  (forall i f x, s !! i = Some f -> In x xs -> fd_nullable f = true \/ is_Some (default None (row x !! i))) ->
  exists b, TableSpec.try_new s (columns_of s row xs) = Some b /\ rb_schema b = s /\ fits s b /\
    presents (map fd_name s) s row b xs.
Proof.
  intros Hs Hnd Hn. pose proof (columns_fit s row xs Hn) as Hc. exists (mkBatch Cell s (columns_of s row xs) (length xs)).
  split; [by apply try_new_valid|]. do 2 (split; [done|]). split; [done|]. intros i f Hf _. cbn.
  exists i. unfold columns_of. rewrite list_lookup_imap, Hf. cbn. eexists. split; [by apply index_of_lookup|]. split; [done|].
  split; [done|]. intros j x Hx. unfold cell. cbn. by rewrite list_lookup_fmap, Hx.
Qed.
End Built.

(** ** Instrument ids: the cache changes no answer *)
Section InstrumentCache.
Context `{ArrowRows}.

Definition coherent (s : Instruments) : Prop :=
  match is_last s with Some (name, id) => InstrumentId.new name = Ok id | None => True end /\
  map_Forall (fun name id => InstrumentId.new name = Ok id) (is_seen s).

Lemma instruments_get s row : coherent s ->
  match InstrumentId.new (Col.str (is_values s) row) with
  | Ok id => exists s', Instruments.get s row = Ok (s', id) /\ coherent s' /\ is_values s' = is_values s
  | Err e => Instruments.get s row = Err e
  end.
Proof.
  intros Hc. pose proof Hc as [Hl Hs]. unfold Instruments.get. set (name := Col.str (is_values s) row).
  assert (Hres : match InstrumentId.new name with
    | Ok id => exists s', (let? '(seen, id) := match is_seen s !! name with
                             | Some id => Ok (is_seen s, id)
                             | None => let? id := InstrumentId.new name in Ok (<[name := id]> (is_seen s), id) end in
                           Ok (mkInstruments (is_values s) (Some (name, id)) seen, id)) = Ok (s', id) /\ coherent s' /\ is_values s' = is_values s
    | Err e => (let? '(seen, id) := match is_seen s !! name with
                  | Some id => Ok (is_seen s, id)
                  | None => let? id := InstrumentId.new name in Ok (<[name := id]> (is_seen s), id) end in
                Ok (mkInstruments (is_values s) (Some (name, id)) seen, id)) = Err e
    end).
  { destruct (is_seen s !! name) as [id|] eqn:E; cbn.
    - rewrite (Hs name id E). eexists. split; [done|]. split; [|done]. split; [exact (Hs name id E)|done].
    - destruct (InstrumentId.new name) as [id|e] eqn:En; cbn; [|done]. eexists. split; [done|]. split; [|done].
      split; [done|]. by apply map_Forall_insert_2. }
  destruct (is_last s) as [[cached id]|]; [|exact Hres]. destruct (String.eqb_spec cached name) as [Ec|]; [|exact Hres].
  rewrite Ec in Hl. rewrite Hl. by exists s.
Qed.
End InstrumentCache.

(** ** Feeds *)

Abbreviation RowDecoder := (Instruments -> nat -> Result (Instruments * EventRecord)) (only parsing).
(** A table of event records of one kind: its schema, the columns it is read by, the payload a
    record must have to be written, the columns written, and how a batch is opened. *)
Class Feed `{ArrowRows} (A : Type) := {
  feed_schema : FixedEncoding -> Schema;
  feed_reads : list string;
  feed_payload : EventRecord -> Result (EventRecord * A);
  feed_columns : FixedEncoding -> list (EventRecord * A) -> list Column;
  feed_open : RecordBatch -> Result (Instruments * RowDecoder);
}.

(** A record a table can hold: a valid id and causal stamps. *)
Definition sound_record (r : EventRecord) : Prop :=
  InstrumentId.new (rec_instrument r) = Ok (rec_instrument r) /\ ts_event (rec_stamps r) <= ts_init (rec_stamps r).

(** What makes a feed read back what was written. *)
Class FeedSpec `{ArrowRows} (A : Type) `{!Feed A} := {
  feed_row : FixedEncoding -> EventRecord * A -> list (option Cell);
  feed_storable : FixedEncoding -> A -> EventRecord -> Prop;
  feed_names : forall e, NoDup (map fd_name (feed_schema e)) /\ feed_schema e <> [];
  feed_reads_names : forall e n, In n feed_reads -> In n (map fd_name (feed_schema e));
  feed_null : forall e x i f, feed_schema e !! i = Some f -> fd_nullable f = true \/ is_Some (default None (feed_row e x !! i));
  feed_columns_of : forall e l, feed_columns e l = columns_of (feed_schema e) (feed_row e) l;
  feed_same : forall r x, feed_payload r = Ok x -> x.1 = r;
  feed_decodes : forall e b xs, presents feed_reads (feed_schema e) (feed_row e) b xs ->
    exists ids f values, feed_open b = Ok (ids, f) /\ coherent ids /\ is_values ids = values /\
      forall s j r a, coherent s -> is_values s = values -> xs !! j = Some (r, a) -> sound_record r -> feed_storable e a r ->
        exists s', f s j = Ok (s', r) /\ coherent s' /\ is_values s' = values;
}.

Section Feeds.
Context `{ArrowRowsSpec} {A : Type} `{!Feed A} `{!FeedSpec A}.
Implicit Types (xs : list (EventRecord * A)).

(** What a list of records needs to come back. *)
Definition feed_good (e : FixedEncoding) xs : Prop := Forall (fun x => sound_record x.1 /\ feed_storable e x.2 x.1) xs.
Definition feed_presents (e : FixedEncoding) b xs : Prop := presents feed_reads (feed_schema e) (feed_row e) b xs.

Lemma push_rows_ok (f : RowDecoder) (P : Instruments -> Prop) rows (out : list EventRecord) s : P s ->
  Forall2 (fun row r => forall s, P s -> exists s', f s row = Ok (s', r) /\ P s') rows out ->
  MarketStore.push_rows f s rows = (out, None).
Proof.
  intros Hs Hf. revert s Hs. induction Hf as [|row r rows out Hr _ IH]; intros s Hs; [done|]. cbn [MarketStore.push_rows].
  destruct (Hr s Hs) as (s' & -> & Hs'). by rewrite (IH s' Hs').
Qed.

Lemma feed_batch e b xs : feed_good e xs -> feed_presents e b xs -> MarketStore.decode_with feed_open b = (map fst xs, None).
Proof.
  intros Hg Hp. destruct (feed_decodes e b xs Hp) as (ids & f & values & Ho & Hc & Hv & Hd). unfold MarketStore.decode_with.
  rewrite Ho. apply (push_rows_ok f (fun s => coherent s /\ is_values s = values)); [done|]. rewrite (proj1 Hp).
  apply Forall2_same_length_lookup. rewrite length_seq, length_map. split; [done|]. intros i row r Hi Hr s [Hs Hsv].
  apply lookup_seq in Hi as [-> Hi]. rewrite list_lookup_fmap in Hr. destruct (xs !! i) as [[r' a]|] eqn:Ex; [|done]. injection Hr as <-.
  destruct (proj1 (Forall_lookup _ _) Hg _ _ Ex) as [Hsr Hst]. destruct (Hd s i r' a Hs Hsv Ex Hsr Hst) as (s' & E & Hs' & Hv').
  by exists s'.
Qed.

Lemma map_res_fst (records : list EventRecord) xs : map_res feed_payload records = Ok xs -> map fst xs = records.
Proof.
  intros Hx. apply map_res_Forall2 in Hx. induction Hx as [|r x l xs Hr _ IH]; [done|]. cbn. by rewrite IH, (feed_same r x Hr).
Qed.

Lemma feed_source e bs chunks : Forall2 (feed_presents e) bs chunks -> feed_good e (concat chunks) ->
  MarketStore.batch_decoder (MarketStore.decode_with feed_open) bs = map Ok (map fst (concat chunks)) /\
  MarketStore.read_all (MarketStore.decode_with feed_open) bs = Ok (MarketStore.by_ts (map fst (concat chunks))).
Proof.
  intros Hp Hg. unfold MarketStore.batch_decoder, MarketStore.read_all.
  enough (concat (map (fun b => let '(out, er) := MarketStore.decode_with feed_open b in
            match er with Some er => Err er :: map Ok out | None => map Ok out end) bs) = map Ok (map fst (concat chunks)) /\
          exists l, map_res (fun b => match MarketStore.decode_with feed_open b with (out, None) => Ok out | (_, Some er) => Err er end) bs = Ok l /\
            concat l = map fst (concat chunks)) as [-> (l & -> & E)].
  { cbn. by rewrite E. }
  induction Hp as [|b xs bs chunks Hb _ IH]; [split; [done|]; by exists []|].
  cbn in Hg. unfold feed_good in Hg. apply Forall_app in Hg as [Hg1 Hg2]. destruct (IH Hg2) as [E1 (l & El & Ec)]. cbn [map concat map_res].
  rewrite (feed_batch e b xs Hg1 Hb), E1, !map_app. split; [done|]. rewrite El. cbn. eexists. split; [done|]. cbn. by rewrite Ec.
Qed.
End Feeds.

(** ** The four feeds *)
Lemma side_reads_back s : Side.parse (Side.as_str s) = Ok s.
Proof. by destruct s. Qed.

Ltac in_names := cbn; repeat (first [left; reflexivity | right]).
(** Opens the column of the [i]-th field: its type, and what its slots hold. *)
Ltac open_column Hp i f casts Ht Hc :=
  let c := fresh "c" in let E := fresh "E" in
  destruct (presents_column _ _ _ _ _ i f casts Hp eq_refl ltac:(in_names) eq_refl) as (c & E & Ht & Hc);
  cbn [fd_name schema.ts schema.text schema.opt_text schema.float schema.opt_float schema.outcome schema.int schema.opt_int fixed_field] in E;
  rewrite E; cbv beta iota; clear E.

Section Instances.
Context `{ArrowRows}.

Definition stamped_row (r : EventRecord) : list (option Cell) :=
  [Some (CInt (ts_init (rec_stamps r))); Some (CInt (ts_event (rec_stamps r))); Some (CStr (rec_instrument r))].
Definition fixed_cell (e : FixedEncoding) (v : Raw) : option Cell := Some (FixedBuilder.value e v).
Definition outcome_cell (r : EventRecord) : option Cell := Some (CInt (rec_outcome r)).

#[export] Instance trade_feed : Feed (Price * Qty * option Side) := {|
  feed_schema := schema.trades;
  feed_reads := EventIO.TRADE_COLUMNS;
  feed_payload := MarketStore.trade_of;
  feed_columns := MarketStore.trade_columns;
  feed_open := MarketStore.open_trades;
|}.
#[export] Instance funding_feed : Feed Price := {|
  feed_schema := schema.funding;
  feed_reads := EventIO.FUNDING_COLUMNS;
  feed_payload := MarketStore.funding_of;
  feed_columns := MarketStore.funding_columns;
  feed_open := MarketStore.open_funding;
|}.
#[export] Instance reference_feed : Feed (option Price * option Price) := {|
  feed_schema := schema.references;
  feed_reads := EventIO.REFERENCE_COLUMNS;
  feed_payload := MarketStore.reference_of;
  feed_columns := MarketStore.reference_columns;
  feed_open := MarketStore.open_references;
|}.
#[export] Instance corporate_feed : Feed CorporateAction := {|
  feed_schema := schema.corporate_actions;
  feed_reads := EventIO.CORPORATE_COLUMNS;
  feed_payload := MarketStore.corporate_of;
  feed_columns := MarketStore.corporate_columns;
  feed_open := MarketStore.open_corporate;
|}.

Definition trade_row (e : FixedEncoding) (x : EventRecord * (Price * Qty * option Side)) : list (option Cell) :=
  stamped_row x.1 ++ [outcome_cell x.1; fixed_cell e x.2.1.1; fixed_cell e x.2.1.2;
                      CStr <$> (Side.as_str <$> x.2.2); None; None].
Definition trade_storable (e : FixedEncoding) (a : Price * Qty * option Side) (r : EventRecord) : Prop :=
  rec_event r = EvTrade a.1.1 a.1.2 a.2 /\ storable e (Some a.1.1) /\ storable e (Some a.1.2).
Definition funding_row (e : FixedEncoding) (x : EventRecord * Price) : list (option Cell) :=
  stamped_row x.1 ++ [fixed_cell e x.2; None].
(** The outcome of a funding record is not stored. *)
Definition funding_storable (e : FixedEncoding) (a : Price) (r : EventRecord) : Prop :=
  rec_event r = EvFunding a /\ rec_outcome r = 0 /\ storable e (Some a).
Definition reference_row (e : FixedEncoding) (x : EventRecord * (option Price * option Price)) : list (option Cell) :=
  stamped_row x.1 ++ [outcome_cell x.1; FixedBuilder.value e <$> x.2.1; FixedBuilder.value e <$> x.2.2; None].
Definition reference_storable (e : FixedEncoding) (a : option Price * option Price) (r : EventRecord) : Prop :=
  rec_event r = EvReference a.1 a.2 /\ storable e a.1 /\ storable e a.2.
Definition corporate_row (e : FixedEncoding) (x : EventRecord * CorporateAction) : list (option Cell) :=
  stamped_row x.1 ++
  [Some (CStr (CorporateAction.kind x.2));
   FixedBuilder.value e <$> (match x.2 with Split ratio => Some ratio | _ => None end);
   FixedBuilder.value e <$> (match x.2 with Dividend v => Some v | _ => None end);
   FixedBuilder.value e <$> (match x.2 with Delist v => Some v | _ => None end); None; None].
Definition corporate_value (a : CorporateAction) : Raw := match a with Split v | Dividend v | Delist v => v end.
(** Nor is that of a corporate action; the action is valid, or it would not have been written. *)
Definition corporate_storable (e : FixedEncoding) (a : CorporateAction) (r : EventRecord) : Prop :=
  rec_event r = EvCorporate a /\ rec_outcome r = 0 /\ CorporateAction.validate a = Ok tt /\ storable e (Some (corporate_value a)).
End Instances.

Lemma nulls_ok (s : Schema) (row : list (option Cell)) :
  Forall2 (fun f c => fd_nullable f = true \/ is_Some c) s row ->
  forall i f, s !! i = Some f -> fd_nullable f = true \/ is_Some (default None (row !! i)).
Proof. intros Hf i f Hi. destruct (Forall2_lookup_l _ _ _ _ _ Hf Hi) as (c & -> & Hc). done. Qed.
Ltac nulls_tac := eapply nulls_ok; [|eassumption]; cbn;
  repeat (apply Forall2_cons; split; [first [left; reflexivity | right; eexists; reflexivity]|]); apply Forall2_nil; exact I.
Ltac names_tac e := split; [|done]; destruct e; apply (bool_decide_eq_true_1 (NoDup _)); vm_compute; reflexivity.
Ltac columns_tac :=
  unfold MarketStore.null_strs, MarketStore.outcome_column, MarketStore.stamped_columns;
  unfold Col.of_strs, Col.of_ints, Col.of_bools, Col.of_ts; cbn; rewrite !map_map; reflexivity.
Ltac open_fixed Hp i f Ht Hc := unfold Col.fixed; open_column Hp i f (fun _ : DataType => true) Ht Hc.
Ltac open_stamped Hp T1 C1 T2 C2 T3 C3 :=
  open_column Hp 0%nat (schema.ts "ts_init") Col.timestamps T1 C1; open_column Hp 1%nat (schema.ts "ts_event") Col.timestamps T2 C2;
  unfold Instruments.new; open_column Hp 2%nat (schema.text "instrument_id") Col.strings T3 C3.
Section Laws.
Context `{ArrowRows}.

Lemma coherent_new c : coherent (mkInstruments c None ∅).
Proof. split; [done|]. apply map_Forall_empty. Qed.
Lemma get_stored s j c id : coherent s -> is_values s = c -> cell c j = Some (CStr id) -> InstrumentId.new id = Ok id ->
  exists s', Instruments.get s j = Ok (s', id) /\ coherent s' /\ is_values s' = c.
Proof.
  intros Hs Hv Hc Hid. pose proof (instruments_get s j Hs) as Hg. rewrite Hv in Hg. unfold Col.str in Hg at 1. rewrite Hc, Hid in Hg. exact Hg.
Qed.
Lemma stamps_stored ci ce j r : cell ci j = Some (CInt (ts_init r)) -> cell ce j = Some (CInt (ts_event r)) -> ts_event r <= ts_init r ->
  Stamps.new (Col.int ce j) (Col.int ci j) = Ok r.
Proof.
  intros Hi He Hle. unfold Col.int. rewrite Hi, He. cbn. unfold Stamps.new. destruct (Z.ltb_spec (ts_init r) (ts_event r)); [lia|]. by destruct r.
Qed.

#[export] Program Instance trade_feed_spec : FeedSpec (Price * Qty * option Side) := {|
  feed_row := trade_row;
  feed_storable := trade_storable;
|}.
Next Obligation. intros e. names_tac e. Qed.
Next Obligation. intros e n. cbn. intuition auto. Qed.
Next Obligation. intros e x i f Hi. nulls_tac. Qed.
Next Obligation. intros e l. cbn. unfold MarketStore.trade_columns. rewrite !column_cells. columns_tac. Qed.
Next Obligation. intros r x. cbn. unfold MarketStore.trade_of. by destruct (rec_event r); intros [= <-]. Qed.
Next Obligation.
  intros e b xs Hp. cbn in Hp |- *. unfold MarketStore.open_trades. open_stamped Hp T1 C1 T2 C2 T3 C3.
  open_column Hp 3%nat schema.outcome Col.uint16s T4 C4.
  open_fixed Hp 4%nat (schema.float "price" e) T5 C5. open_fixed Hp 5%nat (schema.float "size" e) T6 C6.
  open_column Hp 6%nat (schema.opt_text "aggressor") Col.strings T7 C7.
  eexists _, _, _. split; [reflexivity|]. split; [by apply coherent_new|]. split; [reflexivity|].
  intros s j r a Hs Hv Hx [Hid Hle] (Hev & Hp1 & Hq1). specialize (C1 j _ Hx). specialize (C2 j _ Hx). specialize (C3 j _ Hx). 
  specialize (C4 j _ Hx). specialize (C5 j _ Hx). specialize (C6 j _ Hx). specialize (C7 j _ Hx). cbn in C1, C2, C3, C4, C5, C6, C7.
  destruct (get_stored s j _ _ Hs Hv C3 Hid) as (s' & Eg & Hs' & Hv'). exists s'. split; [|done].
  rewrite (stamps_stored _ _ _ _ C1 C2 Hle), Eg. rewrite (read_fixed_value_stored e _ _ _ _ T5 C5 Hp1), (read_fixed_value_stored e _ _ _ _ T6 C6 Hq1).
  unfold Col.int, Col.opt_str, Col.is_valid, Col.str. rewrite C4, C7. destruct r as [st i o ev]. cbn in Hev |- *. rewrite Hev.
  destruct a as [[p q] [sd|]]; cbn; [|done]. by rewrite side_reads_back.
Qed.
#[export] Program Instance funding_feed_spec : FeedSpec Price := {|
  feed_row := funding_row;
  feed_storable := funding_storable;
|}.
Next Obligation. intros e. names_tac e. Qed.
Next Obligation. intros e n. cbn. intuition auto. Qed.
Next Obligation. intros e x i f Hi. nulls_tac. Qed.
Next Obligation. intros e l. cbn. unfold MarketStore.funding_columns. rewrite !column_cells. columns_tac. Qed.
Next Obligation. intros r x. cbn. unfold MarketStore.funding_of. by destruct (rec_event r); intros [= <-]. Qed.
Next Obligation.
  intros e b xs Hp. cbn in Hp |- *. unfold MarketStore.open_funding. open_stamped Hp T1 C1 T2 C2 T3 C3.
  open_fixed Hp 3%nat (schema.float "rate" e) T4 C4.
  eexists _, _, _. split; [reflexivity|]. split; [by apply coherent_new|]. split; [reflexivity|].
  intros s j r a Hs Hv Hx [Hid Hle] (Hev & Ho & Hr).
  specialize (C1 j _ Hx). specialize (C2 j _ Hx). specialize (C3 j _ Hx). specialize (C4 j _ Hx). cbn in C1, C2, C3, C4.
  destruct (get_stored s j _ _ Hs Hv C3 Hid) as (s' & Eg & Hs' & Hv'). exists s'. split; [|done].
  rewrite (stamps_stored _ _ _ _ C1 C2 Hle), Eg, (read_fixed_value_stored e _ _ _ _ T4 C4 Hr).
  destruct r as [st i o ev]. cbn in *. by subst.
Qed.

#[export] Program Instance reference_feed_spec : FeedSpec (option Price * option Price) := {|
  feed_row := reference_row;
  feed_storable := reference_storable;
|}.
Next Obligation. intros e. names_tac e. Qed.
Next Obligation. intros e n. cbn. intuition auto. Qed.
Next Obligation. intros e x i f Hi. nulls_tac. Qed.
Next Obligation. intros e l. cbn. unfold MarketStore.reference_columns. rewrite !column_cells. columns_tac. Qed.
Next Obligation. intros r x. cbn. unfold MarketStore.reference_of. by destruct (rec_event r); intros [= <-]. Qed.
Next Obligation.
  intros e b xs Hp. cbn in Hp |- *. unfold MarketStore.open_references, MarketStore.opt_price. open_stamped Hp T1 C1 T2 C2 T3 C3.
  open_column Hp 3%nat schema.outcome Col.uint16s T4 C4.
  open_fixed Hp 4%nat (schema.opt_float "mark" e) T5 C5. open_fixed Hp 5%nat (schema.opt_float "oracle" e) T6 C6.
  eexists _, _, _. split; [reflexivity|]. split; [by apply coherent_new|]. split; [reflexivity|].
  intros s j r a Hs Hv Hx [Hid Hle] (Hev & Hm & Ho). specialize (C1 j _ Hx). specialize (C2 j _ Hx). specialize (C3 j _ Hx).
  specialize (C4 j _ Hx). specialize (C5 j _ Hx). specialize (C6 j _ Hx). cbn in C1, C2, C3, C4, C5, C6.
  destruct (get_stored s j _ _ Hs Hv C3 Hid) as (s' & Eg & Hs' & Hv'). exists s'. split; [|done].
  rewrite (stamps_stored _ _ _ _ C1 C2 Hle), Eg, (read_fixed_stored e _ _ _ _ T5 C5 Hm), (read_fixed_stored e _ _ _ _ T6 C6 Ho).
  unfold Col.int. rewrite C4. destruct r as [st i o ev]. cbn in *. by subst.
Qed.

#[export] Program Instance corporate_feed_spec : FeedSpec CorporateAction := {|
  feed_row := corporate_row;
  feed_storable := corporate_storable;
|}.
Next Obligation. intros e. names_tac e. Qed.
Next Obligation. intros e n. cbn. intuition auto. Qed.
Next Obligation. intros e x i f Hi. nulls_tac. Qed.
Next Obligation. intros e l. cbn. unfold MarketStore.corporate_columns. rewrite !column_cells. columns_tac. Qed.
Next Obligation.
  intros r x. cbn. unfold MarketStore.corporate_of. destruct (rec_event r); try done. by destruct (CorporateAction.validate _); intros [= <-].
Qed.
Next Obligation.
  intros e b xs Hp. cbn in Hp |- *. unfold MarketStore.open_corporate. open_stamped Hp T1 C1 T2 C2 T3 C3.
  open_column Hp 3%nat (schema.text "kind") Col.strings T4 C4. open_fixed Hp 4%nat (schema.opt_float "ratio" e) T5 C5.
  open_fixed Hp 5%nat (schema.opt_float "per_share" e) T6 C6. open_fixed Hp 6%nat (schema.opt_float "final_price" e) T7 C7.
  eexists _, _, _. split; [reflexivity|]. split; [by apply coherent_new|]. split; [reflexivity|].
  intros s j r a Hs Hv Hx [Hid Hle] (Hev & Ho & Hval & Hst). specialize (C1 j _ Hx). specialize (C2 j _ Hx). specialize (C3 j _ Hx).
  specialize (C4 j _ Hx). specialize (C5 j _ Hx). specialize (C6 j _ Hx). specialize (C7 j _ Hx). cbn in C1, C2, C3, C4, C5, C6, C7.
  destruct (get_stored s j _ _ Hs Hv C3 Hid) as (s' & Eg & Hs' & Hv'). exists s'. split; [|done].
  assert (MarketStore.corporate_action (Col.str c2 j) c3 c4 c5 j = Ok a) as ->.
  { unfold MarketStore.corporate_action, Col.str. rewrite C4, C5, C6, C7. destruct a as [v|v|v]; cbn in *.
    - by rewrite (read_fixed_value_stored e c3 j "ratio" v T5 C5 Hst).
    - by rewrite (read_fixed_value_stored e c4 j "per_share" v T6 C6 Hst).
    - by rewrite (read_fixed_value_stored e c5 j "final_price" v T7 C7 Hst). }
  rewrite Hval, (stamps_stored _ _ _ _ C1 C2 Hle), Eg. destruct r as [st i o ev]. cbn in *. by subst.
Qed.
End Laws.

(** ** The round trip of a feed *)
Section FeedTheorem.
Context `{ArrowRowsSpec} {A : Type} `{!Feed A} `{!FeedSpec A}.

(** C23 A feed reads back what was written.  The columns a writer makes of its records build a
    batch that presents them; and whichever batches present them, in whatever chunks and with
    whatever other columns, the lazy source yields the records one by one in their order, and
    the reader returns them all, stably sorted by time.  (Reference prices are only read through
    their source.) *)
Theorem feed_reads_back e records xs : map_res feed_payload records = Ok xs -> feed_good e xs ->
  (exists b, TableSpec.try_new (feed_schema e) (feed_columns e xs) = Some b /\ feed_presents e b xs) /\
  forall bs chunks, concat chunks = xs -> Forall2 (feed_presents e) bs chunks ->
    MarketStore.batch_decoder (MarketStore.decode_with feed_open) bs = map Ok records /\
    MarketStore.read_all (MarketStore.decode_with feed_open) bs = Ok (MarketStore.by_ts records).
Proof.
  intros Hx Hg. split.
  - destruct (feed_names e) as [Hnd Hne]. rewrite feed_columns_of.
    destruct (built (feed_schema e) (feed_row e) xs Hne Hnd) as (b & Hb & _ & _ & Hp).
    { intros i f x Hi _. exact (feed_null e x i f Hi). }
    exists b. split; [done|]. eapply presents_weaken; [|exact Hp]. by apply feed_reads_names.
  - intros bs chunks <- Hp. rewrite <- (map_res_fst records (concat chunks) Hx). by apply (feed_source e).
Qed.
End FeedTheorem.
