(* ===== verification/RunFork.v ===== *)
(** * Runs in a fork ([run.rs])

    What to run ([RunSpec]) and its digest, the coverage gate, the order of a run
    ([run_in_fork], [run_in_place]: market data, the engine, only then the resolutions,
    settlement and the five output tables), and what a report says about forecasts.  The
    two reads that [try_join] interleaves are made one after the other. *)
From S2P Require Export Forks RunStore.
#[local] Open Scope Z_scope.

(** ** The coverage gate ([Coverage::ratio], [Coverage::require] of [window.rs]) *)
Module CoverageGate.
(** [f64::EPSILON]: [2 ^ -52]. *)
Definition EPSILON : f64 := S754_finite false 4503599627370496 (-104).
Definition ratio (c : Coverage) : f64 :=
  let total := TimeWindow.duration_nanos (requested c) in
  if total <=? 0 then S754_zero false
  else fdiv (f64_of_int (Z.max (sub64 total (missing_nanos c)) 0)) (f64_of_int total).
Definition require (c : Coverage) (minimum : f64) : Result Coverage :=
  if SFltb (fadd (ratio c) EPSILON) minimum then Err (invalid "coverage is below the required fraction") else Ok c.
End CoverageGate.

(** ** What to run *)
Record RunSpec := mkRunSpec {
  run_id : string;
  window : option TimeWindow;
  starting : Money;
  read_at : ReadAt;
  equity_interval_nanos : Z;
  minimum_coverage : option f64;
  execution_fingerprint : option string;
}.
#[export] Instance eta_RunSpec : Eta RunSpec := fun s =>
  mkRunSpec (run_id s) (window s) (starting s) (read_at s) (equity_interval_nanos s) (minimum_coverage s)
    (execution_fingerprint s).

Module RunSpec.
Definition new (id : string) (cash : Money) : RunSpec :=
  mkRunSpec id None cash Latest EngineBuilder.DEFAULT_EQUITY_INTERVAL_NANOS None None.
Definition with_execution_fingerprint (s : RunSpec) (f : string) : RunSpec := s <| execution_fingerprint := Some f |>.
Definition with_window (s : RunSpec) (w : TimeWindow) : RunSpec := s <| window := Some w |>.
Definition with_read_at (s : RunSpec) (at_ : ReadAt) : RunSpec := s <| read_at := at_ |>.
Definition with_equity_interval_nanos (s : RunSpec) (nanos : Z) : RunSpec := s <| equity_interval_nanos := nanos |>.
Definition with_minimum_coverage (s : RunSpec) (fraction : f64) : RunSpec := s <| minimum_coverage := Some fraction |>.
Definition fork_name (s : RunSpec) : string := "bt-" +:+ run_id s.

(** [to_le_bytes] of an [i64]. *)
Fixpoint le_bytes (n : nat) (z : Z) : string :=
  match n with
  | O => ""
  | S n => String (Ascii.ascii_of_nat (Z.to_nat (z mod 256))) (le_bytes n (z / 256))
  end.
Definition to_le_bytes (z : Z) : string := le_bytes 8 z.
(** [{:?}] of a string: quotes, backslashes and the named control characters are escaped, as
    is every other control character; a byte outside ASCII is taken as printable. *)
Definition hex_digit (d : Z) : Ascii.ascii := Ascii.ascii_of_nat (Z.to_nat (if d <? 10 then 48 + d else 87 + d)).
Definition escape_control (n : Z) : string :=
  "\u{" +:+ (if n <? 16 then String (hex_digit n) "" else String (hex_digit (n / 16)) (String (hex_digit (n mod 16)) "")) +:+ "}".
Definition escape_char (c : Ascii.ascii) : string :=
  let n := Z.of_nat (Ascii.nat_of_ascii c) in
  if n =? 0 then "\0" else if n =? 9 then "\t" else if n =? 10 then "\n" else if n =? 13 then "\r"
  else if n =? 34 then String (Ascii.ascii_of_nat 92) (String c "")
  else if n =? 92 then "\\"
  else if (n <? 32) || (n =? 127) then escape_control n
  else String c "".
Fixpoint escape (s : string) : string :=
  match s with EmptyString => "" | String c s => escape_char c +:+ escape s end.
Definition quote : string := String (Ascii.ascii_of_nat 34) "".
Definition debug_read_at (r : ReadAt) : string :=
  match r with
  | Latest => "Latest"
  | Version n => "Version(" +:+ show_int n +:+ ")"
  | AsOf ts => "AsOf(" +:+ show_int ts +:+ ")"
  | AtSnapshot name => "Snapshot(" +:+ quote +:+ escape name +:+ quote +:+ ")"
  end.
Definition window_bytes (w : option TimeWindow) : string :=
  match w with Some w => "w" +:+ to_le_bytes (start w) +:+ to_le_bytes (end_ w) | None => "-" end.
Definition fingerprint_bytes (f : option string) : string :=
  match f with Some f => "x" +:+ f | None => "-" end.
(** What the hasher is fed, in order. *)
Definition digest_input (s : RunSpec) : string :=
  to_le_bytes (starting s) +:+ to_le_bytes (equity_interval_nanos s) +:+ window_bytes (window s) +:+
  debug_read_at (read_at s) +:+ fingerprint_bytes (execution_fingerprint s).
(** The digest, over the hash of bytes in hexadecimal. *)
Definition digest (blake3 : string -> string) (s : RunSpec) : string := blake3 (digest_input s).
End RunSpec.

(** ** What a run produced *)
Record CalibrationSample := mkCalibrationSample {
  cs_ts : UnixNanos;
  cs_instrument : InstrumentId;
  cs_outcome : OutcomeId;
  cs_forecast : Price;
  cs_market : option Price;
  cs_realized : Price;
  cs_tag : option string;
}.
Record UnscoredForecast := mkUnscoredForecast {
  uf_instrument : InstrumentId;
  uf_outcome : OutcomeId;
  uf_reason : string;
  uf_count : Z;
}.
Record RunReport (F X : Type) := mkRunReport {
  rp_run_id : string;
  rp_fork : string;
  rp_digest : string;
  rp_result : Engine.RunResult (F:=F) (X:=X);
  rp_settlement : SettlementReport;
  rp_coverage : option Coverage;
  rp_instruments : InstrumentSet;
  rp_resolutions : list Resolution;
}.
Arguments mkRunReport {F X}.
Arguments rp_run_id {F X}. Arguments rp_fork {F X}. Arguments rp_digest {F X}. Arguments rp_result {F X}.
Arguments rp_settlement {F X}. Arguments rp_coverage {F X}. Arguments rp_instruments {F X}. Arguments rp_resolutions {F X}.

Module RunReport.
Section RunReport.
Context {F X : Type}.
Implicit Types r : RunReport F X.

Definition resolutions_by_instrument r : BTree InstrumentId Resolution :=
  fold_left (fun m x => binsert (res_instrument x) x m) (rp_resolutions r) [].
Definition forecasts r : list Forecast := e_forecasts (Engine.rr_engine (rp_result r)).
Definition calibration_sample (by_instrument : BTree InstrumentId Resolution) (f : Forecast) : option CalibrationSample :=
  match bget (fo_instrument f) by_instrument with
  | Some x =>
      if negb (Payout.is_informative (payout x)) then None
      else Some (mkCalibrationSample (fo_ts f) (fo_instrument f) (fo_outcome f) (fo_probability f) (fo_market f)
                   (Resolution.settlement_price x (fo_outcome f)) (fo_tag f))
  | None => None
  end.
Definition calibration_samples r : list CalibrationSample :=
  omap (calibration_sample (resolutions_by_instrument r)) (forecasts r).

Definition unscored_reason (by_instrument : BTree InstrumentId Resolution) (f : Forecast) : option string :=
  match bget (fo_instrument f) by_instrument with
  | None => Some "this market has no known resolution"
  | Some x =>
      if negb (Payout.is_informative (payout x)) then
        Some "this market paid every outcome the same, so any forecast scores identically against it"
      else None
  end.
Definition count_unscored (by_instrument : BTree InstrumentId Resolution) (m : BTree PositionKey (string * Z)) (f : Forecast) :
    BTree PositionKey (string * Z) :=
  match unscored_reason by_instrument f with
  | None => m
  | Some reason => bentry (reason, 0) (fun e => (e.1, e.2 + 1)) (fo_instrument f, fo_outcome f) m
  end.
Definition unscored_forecasts r : list UnscoredForecast :=
  map (fun e => mkUnscoredForecast e.1.1 e.1.2 e.2.1 e.2.2)
    (fold_left (count_unscored (resolutions_by_instrument r)) (forecasts r) []).

Definition cancelled_unfilled r : Z :=
  zlen (List.filter (fun o => bool_decide (o_status o = Cancelled) && is_zero (o_filled o)) (Engine.rr_orders (rp_result r))).
(** Warnings; those that print a ratio keep their leading words. *)
Definition warnings r : list string :=
  SettlementReport.warnings (rp_settlement r) ++
  (if 0 <? cancelled_unfilled r then
     [show_int (cancelled_unfilled r) +:+ " order(s) were cancelled without filling; the usual cause is acting before the instrument's first book update, or a limit the book never reached"]
   else []) ++
  option_list (RunMetrics.explain_silence (e_metrics (Engine.rr_engine (rp_result r)))) ++
  (match rp_coverage r with
   | Some c => if negb (Coverage.is_complete c) then ["data covered part of the requested window"] else []
   | None => []
   end) ++
  map (fun u => show_int (uf_count u) +:+ " forecast(s) on " +:+ uf_instrument u +:+ " outcome " +:+ show_int (uf_outcome u) +:+
                " were not scored: " +:+ uf_reason u) (unscored_forecasts r) ++
  omap (fun o => (fun reason => "a " +:+ SetOperationKind.as_str (so_kind o) +:+ " of " +:+ so_instrument o +:+
                                " was refused: " +:+ reason) <$> so_rejected o)
    (e_set_operations (Engine.rr_engine (rp_result r))).
End RunReport.
End RunReport.

(** ** Running *)
Module RunFork.
Section RunFork.
Context `{Env} `{ArrowRows}.
Context {F FM L M X S : Type}.
Context `{FeeModel F} `{FillModel FM} `{LatencyModel L} `{MarginModel M} `{ExecutionClient X} `{Strategy S}.
Variable blake3 : string -> string.
(** The caller's changes to a builder with these defaults and start. *)
Variable configure : Config BookFills NoLatency CashMargin -> UnixNanos -> Config FM L M * UnixNanos * F * X.
Implicit Types db : Database.

(** The span of the records that arrived, measured against the window asked for. *)
Definition observed_span (records : list EventRecord) : option (Z * Z) :=
  match map EventRecord.ts records with
  | [] => None
  | t :: l => Some (fold_left Z.min l t, fold_left Z.max l t)
  end.
Definition coverage_of (asked : TimeWindow) (records : list EventRecord) : Result Coverage :=
  match observed_span records with
  | Some (first, last) =>
      match TimeWindow.new first (add64 last 1) with
      | Ok loaded => ok_or (Coverage.partial asked loaded []) (invalid "panic: clamp")
      | Err _ => Ok (Coverage.empty asked)
      end
  | None => Ok (Coverage.empty asked)
  end.
Definition require_minimum (c : option Coverage) (minimum : option f64) : Result unit :=
  match c, minimum with
  | Some c, Some m => let? _ := CoverageGate.require c m in Ok tt
  | _, _ => Ok tt
  end.
Definition replay_of (book : list EventRecord) (trades corporate references funding : RecordSource) : Result Replay :=
  let b := ReplayBuilder.stream [] "book" priority.SNAPSHOT book in
  let b := ReplayBuilder.source b "trades" priority.TRADE trades in
  let b := ReplayBuilder.source b "corporate" priority.CORPORATE corporate in
  let b := ReplayBuilder.source b "references" priority.REFERENCE references in
  let b := ReplayBuilder.source b "funding" priority.FUNDING funding in
  ReplayBuilder.build b.
(** The engine, as the caller configures it. *)
Definition engine_of (spec : RunSpec) (instruments : InstrumentSet) (started_at : UnixNanos) :
    Result (Config FM L M * Engine F X) :=
  let? interval := EngineBuilder.equity_interval_nanos (equity_interval_nanos spec) in
  let defaults := EngineBuilder.config instruments (starting spec) mkBookFills mkNoLatency interval None FxBook.new "USDC"
    RiskLimits.unlimited false SetOperationCosts.free true VenueMark CloseAll [] in
  let '(cfg, start, fees, execution) := configure defaults started_at in
  Ok (cfg, EngineBuilder.build cfg start fees execution).
(** Settling what the fills left open. *)
Definition settle_run (result : Engine.RunResult (F:=F) (X:=X)) (resolutions : list Resolution) (instruments : InstrumentSet) :
    Result SettlementReport :=
  let? _ := validate_resolutions resolutions instruments in
  let? portfolio := Portfolio.replay (e_fills (Engine.rr_engine result)) in
  settle portfolio resolutions (e_simulated_through (Engine.rr_engine result)) (Engine.rr_marks result).

Definition run_in_place db (spec : RunSpec) (strategy : S) : bprog (RunReport F X * S) :=
  let started_at := default 0 (start <$> window spec) in
  let* instruments := MarketStore.read_instruments db (read_at spec) in
  if InstrumentSet.is_empty instruments then
    bret (Err (invalid "no instruments are registered; write the instruments table before running"))
  else
    do* EventIO.create_run_tables db in
    let* book := MarketStore.read_book_events db (read_at spec) (window spec) in
    let* trades := MarketStore.trade_source db (read_at spec) (window spec) in
    let* funding := MarketStore.funding_source db (read_at spec) (window spec) in
    let* references := MarketStore.reference_source db (read_at spec) (window spec) in
    let* corporate := MarketStore.corporate_source db (read_at spec) (window spec) in
    let* coverage := bret (match window spec with
      | Some asked => let? c := coverage_of asked book in Ok (Some c) | None => Ok None end) in
    do* bret (require_minimum coverage (minimum_coverage spec)) in
    let* replay := bret (replay_of book trades corporate references funding) in
    let* engine := bret (engine_of spec instruments started_at) in
    let* finished := bret (Engine.run engine.1 engine.2 strategy replay) in
    let* resolutions := MarketStore.read_resolutions db (read_at spec) in
    let* settlement := bret (settle_run finished.1 resolutions instruments) in
    let digest := RunSpec.digest blake3 spec in
    do* RunStore.write_run db (run_id spec) digest (starting_cash engine.1) finished.1 settlement started_at in
    bret (Ok (mkRunReport (run_id spec) (default "" (fk_name <$> db_fork db)) digest finished.1 settlement coverage instruments
                resolutions, finished.2)).

Definition run_meta (spec : RunSpec) : JsonMap :=
  binsert "config_digest" (JString (RunSpec.digest blake3 spec)) (binsert "backtest_run" (JString (run_id spec)) []).
Definition run_in_fork db (spec : RunSpec) (strategy : S) : bprog (RunReport F X * S) :=
  do* core (Forks.create_fork db (RunSpec.fork_name spec) (Some ("backtest run " +:+ run_id spec)) None (run_meta spec)) in
  let* fork := core (Database.open_fork db (RunSpec.fork_name spec)) in
  run_in_place fork spec strategy.
End RunFork.
End RunFork.
