(* ===== verification/ReferenceTables.v ===== *)
(** * Tables whose rows are read together

    A book event is several rows, a market several, a split resolution several: their readers
    gather rows, across the boundaries of batches.  Reading the rows of a list of batches is
    a fold of one step over the values they present; the round trips follow from what the
    step does to the rows of one event, one market, one resolution. *)
From S2P Require Export EventProps RunFork.
#[local] Open Scope Z_scope.

(** A loop over the slots of a batch is a loop over the values presented. *)
Lemma foldr_res_slots {E S S' A} (f : S -> nat -> result E S) (g : S' -> A -> result E S') (R : S -> S' -> Prop) xs :
  (forall j x s s', xs !! j = Some x -> R s s' ->
     match g s' x with Ok t' => exists t, f s j = Ok t /\ R t t' | Err e => f s j = Err e end) ->
  forall s s', R s s' ->
    match foldr_res g s' xs with
    | Ok t' => exists t, foldr_res f s (seq 0 (length xs)) = Ok t /\ R t t'
    | Err e => foldr_res f s (seq 0 (length xs)) = Err e
    end.
Proof.
  intros Hstep. enough (Hk : forall k ys s s', (forall j x, ys !! j = Some x -> xs !! (k + j)%nat = Some x) -> R s s' ->
    match foldr_res g s' ys with
    | Ok t' => exists t, foldr_res f s (seq k (length ys)) = Ok t /\ R t t'
    | Err e => foldr_res f s (seq k (length ys)) = Err e
    end) by (intros s s' Hs; by apply Hk).
  intros k ys. revert k. induction ys as [|y ys IH]; intros k s s' Hy Hs; cbn; [by exists s|].
  pose proof (Hstep k y s s' ltac:(specialize (Hy O y eq_refl); by rewrite Nat.add_0_r in Hy) Hs) as H1.
  destruct (g s' y) as [t'|e]; [|by rewrite H1]. destruct H1 as (t & -> & Ht).
  apply (IH (Datatypes.S k) t t'); [|done]. intros j x Hj. replace (Datatypes.S k + j)%nat with (k + Datatypes.S j)%nat by lia. by apply Hy.
Qed.

(** A loop over batches, from what it does to one. *)
Lemma foldr_res_batches {E S A B} (f : S -> B -> result E S) (g : S -> A -> result E S) (P : B -> list A -> Prop) (good : A -> Prop) :
  (forall s b xs, P b xs -> Forall good xs -> f s b = foldr_res g s xs) ->
  forall bs chunks s, Forall2 P bs chunks -> Forall good (concat chunks) -> foldr_res f s bs = foldr_res g s (concat chunks).
Proof.
  intros Hf bs chunks s Hp. revert s. induction Hp as [|b xs bs chunks Hb _ IH]; intros s Hg; [done|]. cbn in Hg |- *. apply Forall_app in Hg as [Hg1 Hg2].
  rewrite (Hf s b xs Hb Hg1), foldr_res_app. destruct (foldr_res g s xs); [|done]. cbn. by apply IH.
Qed.

(** A loop that gathers rows under one key. *)
Definition gather_step {K V R} `{OrdKey K} (upd : V -> R -> V) (d0 : V) (k : K) (m : BTree K V) (r : R) : BTree K V :=
  binsert k (upd (default d0 (bget k m)) r) m.
Lemma gathered_entries {K V R} `{OrdKey K} (upd : V -> R -> V) (d0 : V) (k : K) rows m : bwf m -> bget k m = None -> rows <> [] ->
  fold_left (gather_step upd d0 k) rows m = binsert k (fold_left upd rows d0) m.
Proof.
  intros Hw Hn Hne. assert (Hk : forall rows d m, bwf m -> bget k m = Some d ->
    fold_left (gather_step upd d0 k) rows m = binsert k (fold_left upd rows d) m).
  { clear. intros rows. induction rows as [|r rows IH]; intros d m Hw Hd; cbn.
    - apply bwf_ext; [done|by apply bwf_insert|]. intros j. rewrite bget_insert. destruct (keqb j k) eqn:Ej; [|done].
      by apply keqb_eq in Ej as ->.
    - unfold gather_step at 2. rewrite Hd. cbn. rewrite (IH (upd d r)); [|by apply bwf_insert|by rewrite bget_insert_eq].
      apply bwf_ext; [by apply bwf_insert, bwf_insert|by apply bwf_insert|]. intros j. rewrite !bget_insert. by destruct (keqb j k). }
  destruct rows as [|r rows]; [done|]. cbn. unfold gather_step at 2. rewrite Hn. cbn.
  rewrite (Hk rows (upd d0 r)); [|by apply bwf_insert|by rewrite bget_insert_eq].
  apply bwf_ext; [by apply bwf_insert, bwf_insert|by apply bwf_insert|]. intros j. rewrite !bget_insert. by destruct (keqb j k).
Qed.
Lemma foldr_res_total {E S A} (f : S -> A -> result E S) (g : S -> A -> S) l s : (forall s x, In x l -> f s x = Ok (g s x)) ->
  foldr_res f s l = Ok (fold_left g l s).
Proof.
  revert s. induction l as [|x l IH]; intros s Hf; [done|]. cbn. rewrite Hf by by left. apply IH. intros s' y Hy. apply Hf. by right.
Qed.

(** ** Book events *)
Section Book.
Context `{ArrowRows}.
Import MarketStore.
Abbreviation State := (list EventRecord * option PendingSnapshot)%type (only parsing).
Implicit Types (st : State) (r : BookRow).

Definition book_row (e : FixedEncoding) r : list (option Cell) :=
  stamped_row (br_record r) ++
  [outcome_cell (br_record r); Some (CStr (br_action r)); CStr <$> (Side.as_str <$> br_side r);
   FixedBuilder.value e <$> br_price r; FixedBuilder.value e <$> br_size r; Some (CInt (br_index r));
   Some (CBool (br_last r)); None].
Definition row_good (e : FixedEncoding) r : Prop :=
  sound_record (br_record r) /\ storable e (br_price r) /\ storable e (br_size r).
Definition book_presents (e : FixedEncoding) : RecordBatch -> list BookRow -> Prop :=
  presents EventIO.BOOK_COLUMNS (schema.book_deltas e) (book_row e).

(** What reading one row does. *)
Definition row_delta r : Result BookDelta :=
  let? s := ok_or (br_side r) (Types.invalid "row has no side") in
  if String.eqb (br_action r) "set" then
    let? p := ok_or (br_price r) (Types.invalid "set row has no price") in Ok (BookDelta.set s p (default 0 (br_size r)))
  else if String.eqb (br_action r) "delete" then
    let? p := ok_or (br_price r) (Types.invalid "delete row has no price") in Ok (BookDelta.delete s p)
  else if String.eqb (br_action r) "clear" then Ok (BookDelta.clear s)
  else Err (Parse "book action" (br_action r)).
Definition row_level (p : PendingSnapshot) r : PendingSnapshot :=
  match br_side r, br_price r, br_size r with Some s, Some price, Some size => add_level p s (price, size) | _, _, _ => p end.
Definition row_snapshot (pending : option PendingSnapshot) r : Result PendingSnapshot :=
  let rec := br_record r in
  let entry := default (mkPendingSnapshot (br_index r) (rec_stamps rec) (rec_instrument rec) (rec_outcome rec) [] []) pending in
  if negb (ps_index entry =? br_index r) then Err (Types.invalid "snapshot event was not terminated by an is_last row")
  else if negb (String.eqb (ps_instrument entry) (rec_instrument rec) && (ps_outcome entry =? rec_outcome rec)) then
    Err (Types.invalid "snapshot event mixes books")
  else Ok (row_level entry r).
Definition row_step st r : Result State :=
  let rec := br_record r in
  let record := EventRecord.new (rec_stamps rec) (rec_instrument rec) (rec_outcome rec) in
  if String.eqb (br_action r) "snapshot" then
    let? p := row_snapshot st.2 r in
    Ok (if br_last r then (st.1 ++ [finished p], None) else (st.1, Some p))
  else if String.eqb (br_action r) "gap" then Ok (st.1 ++ [record EvGap], st.2)
  else let? d := row_delta r in Ok (st.1 ++ [record (EvBookDelta d)], st.2).

Lemma book_columns_of e rows : book_columns e rows = columns_of (schema.book_deltas e) (book_row e) rows.
Proof. unfold book_columns. rewrite !column_cells. columns_tac. Qed.

Section Slots.
Context (e : FixedEncoding) (init event id outcome action side price size index last : Column) (rows : list BookRow).
Hypothesis Hg : Forall (row_good e) rows.
Hypothesis (Tp : ar_type price = FixedEncoding.data_type e) (Ts : ar_type size = FixedEncoding.data_type e).
Definition holds_cell (c : Column) (i : nat) : Prop := forall j x, rows !! j = Some x -> cell c j = default None (book_row e x !! i).
Hypothesis (C1 : holds_cell init 0) (C2 : holds_cell event 1) (C3 : holds_cell id 2) (C4 : holds_cell outcome 3) (C5 : holds_cell action 4)
  (C6 : holds_cell side 5) (C7 : holds_cell price 6) (C8 : holds_cell size 7) (C9 : holds_cell index 8) (C10 : holds_cell last 9).

Lemma snapshot_slot j r pending : rows !! j = Some r ->
  snapshot_row pending (br_index r) (rec_stamps (br_record r)) (rec_instrument (br_record r)) (rec_outcome (br_record r)) side price size j =
  row_snapshot pending r.
Proof.
  intros Hx. destruct (proj1 (Forall_lookup _ _) Hg _ _ Hx) as (_ & Hp & Hq). pose proof (C6 j r Hx) as E6. pose proof (C7 j r Hx) as E7. pose proof (C8 j r Hx) as E8. cbn in E6, E7, E8.
  unfold snapshot_row, row_snapshot. set (entry := default _ _). destruct (negb _); [done|]. destruct (negb _); [done|].
  rewrite (read_fixed_stored e _ _ _ _ Tp E7 Hp), (read_fixed_stored e _ _ _ _ Ts E8 Hq). unfold Col.opt_str, Col.is_valid, Col.str, row_level. rewrite E6.
  destruct (br_side r) as [sd|]; [|done]. cbn. destruct (br_price r); [|done]. destruct (br_size r); [|done]. by rewrite side_reads_back.
Qed.

Lemma delta_slot j r : rows !! j = Some r -> delta_row (br_action r) side price size j = row_delta r.
Proof.
  intros Hx. destruct (proj1 (Forall_lookup _ _) Hg _ _ Hx) as (_ & Hp & Hq). pose proof (C6 j r Hx) as E6. pose proof (C7 j r Hx) as E7. pose proof (C8 j r Hx) as E8. cbn in E6, E7, E8.
  unfold delta_row, row_delta. rewrite (read_fixed_stored e _ _ _ _ Tp E7 Hp), (read_fixed_stored e _ _ _ _ Ts E8 Hq). unfold Col.opt_str, Col.is_valid, Col.str. rewrite E6.
  destruct (br_side r) as [sd|]; [|done]. cbn. rewrite side_reads_back. destruct (_ =? "set")%string; [by destruct (br_price r)|].
  destruct (_ =? "delete")%string; [by destruct (br_price r)|done].
Qed.

Lemma book_slot j r (s : BookState) st : rows !! j = Some r ->
  bs_out s = st.1 /\ bs_pending s = st.2 /\ coherent (bs_ids s) /\ is_values (bs_ids s) = id ->
  match row_step st r with
  | Ok st' => exists s', book_row_step init event outcome action side price size index last s j = Ok s' /\
      bs_out s' = st'.1 /\ bs_pending s' = st'.2 /\ coherent (bs_ids s') /\ is_values (bs_ids s') = id
  | Err er => book_row_step init event outcome action side price size index last s j = Err er
  end.
Proof.
  intros Hx (Ho & Hpend & Hc & Hv). destruct (proj1 (Forall_lookup _ _) Hg _ _ Hx) as ([Hid Hle] & _).
  pose proof (C1 j r Hx) as E1. pose proof (C2 j r Hx) as E2. pose proof (C3 j r Hx) as E3. pose proof (C4 j r Hx) as E4.
  pose proof (C5 j r Hx) as E5. pose proof (C9 j r Hx) as E9. pose proof (C10 j r Hx) as E10. cbn in E1, E2, E3, E4, E5, E9, E10.
  destruct (get_stored _ j _ _ Hc Hv E3 Hid) as (ids & Eg & Hc' & Hv'). unfold book_row_step.
  rewrite (stamps_stored _ _ _ _ E1 E2 Hle), Eg. unfold Col.int, Col.str, Col.bool. rewrite E4, E5, E9, E10. cbn [int_of]. unfold row_step.
  rewrite Hpend, (snapshot_slot j r _ Hx), (delta_slot j r Hx), Ho. destruct (_ =? "snapshot")%string.
  - destruct (row_snapshot _ _); [|done]. eexists. split; [done|]. by destruct (br_last r).
  - destruct (_ =? "gap")%string; [by eexists|]. destruct (row_delta r); [by eexists|done].
Qed.
End Slots.

Lemma book_batch e b rows st : book_presents e b rows -> Forall (row_good e) rows ->
  read_book_batch st b = foldr_res row_step st rows.
Proof.
  intros Hp Hg. unfold read_book_batch. cbn in Hp. unfold book_presents in Hp. open_stamped Hp T1 C1 T2 C2 T3 C3.
  open_column Hp 3%nat schema.outcome Col.uint16s T4 C4. open_column Hp 4%nat (schema.text "action") Col.strings T5 C5.
  open_column Hp 5%nat (schema.opt_text "side") Col.strings T6 C6. open_fixed Hp 6%nat (schema.opt_float "price" e) T7 C7.
  open_fixed Hp 7%nat (schema.opt_float "size" e) T8 C8. open_column Hp 8%nat (schema.int "event_index") Col.int64s T9 C9.
  open_column Hp 9%nat (mkField "is_last" Boolean false) Col.booleans T10 C10.
  pose proof (foldr_res_slots _ row_step (fun s s' => bs_out s = s'.1 /\ bs_pending s = s'.2 /\ coherent (bs_ids s) /\ is_values (bs_ids s) = c1)
    rows (book_slot e c c0 c1 c2 c3 c4 c5 c6 c7 c8 rows Hg T7 T8 C1 C2 C3 C4 C5 C6 C7 C8 C9 C10)
    (mkBookState st.1 st.2 (mkInstruments c1 None ∅)) st) as Hs.
  rewrite (proj1 Hp). destruct (foldr_res row_step st rows) as [t'|er] eqn:E.
  - destruct Hs as (t & -> & Ho & Hpend & _); [by repeat split; try apply map_Forall_empty|]. by rewrite Ho, Hpend; destruct t'.
  - by rewrite Hs by (by repeat split; try apply map_Forall_empty).
Qed.

(** *** The rows of one event *)

(** A delta that names no more than its action needs. *)
Definition canonical (d : BookDelta) : Prop :=
  match d_action d with Book.Set_ => True | Book.Delete => d_size d = 0 | Book.Clear => d_price d = 0 /\ d_size d = 0 end.
Definition level_good (e : FixedEncoding) (l : Price * Qty) : Prop := storable e (Some l.1) /\ storable e (Some l.2).
Definition event_good (e : FixedEncoding) (r : EventRecord) : Prop :=
  sound_record r /\
  match rec_event r with
  | EvBookSnapshot bids asks => Forall (level_good e) (bids ++ asks)
  | EvBookDelta d => canonical d /\ level_good e (d_price d, d_size d)
  | EvGap => True
  | _ => False
  end.

(** The rows [rows] of the event [r]: they read back as [r] alone, and a proper prefix of
    them leaves a snapshot open. *)
Definition reads_as (rows : list BookRow) (r : EventRecord) : Prop :=
  rows <> [] /\ forall out,
    foldr_res row_step (out, None) rows = Ok (out ++ [r], None) /\
    forall n, (0 < n < length rows)%nat -> exists p, foldr_res row_step (out, None) (firstn n rows) = Ok (out, Some p).

Lemma mark_last_app l x :
  mark_last (l ++ [x]) = l ++ [mkBookRow (br_record x) (br_action x) (br_side x) (br_price x) (br_size x) (br_index x) true].
Proof. unfold mark_last. rewrite rev_app_distr. cbn. by rewrite rev_involutive. Qed.

Section Snapshot.
Context (r : EventRecord) (i : Z).
Definition opened : PendingSnapshot := mkPendingSnapshot i (rec_stamps r) (rec_instrument r) (rec_outcome r) [] [].
Definition side_row (l : Side * (Price * Qty)) : BookRow := mkBookRow r "snapshot" (Some l.1) (Some l.2.1) (Some l.2.2) i false.
Definition of_this (p : PendingSnapshot) : Prop := ps_index p = i /\ ps_instrument p = rec_instrument r /\ ps_outcome p = rec_outcome r.

Lemma side_row_step out pending l last : of_this (default opened pending) ->
  row_step (out, pending) (mkBookRow r "snapshot" (Some l.1) (Some l.2.1) (Some l.2.2) i last) =
    Ok (if last then (out ++ [finished (add_level (default opened pending) l.1 l.2)], None)
        else (out, Some (add_level (default opened pending) l.1 l.2))).
Proof.
  intros (Hi & Hid & Ho). unfold row_step. cbn [br_action String.eqb Ascii.eqb Bool.eqb]. unfold row_snapshot. cbn [br_record br_index fst snd]. fold opened. rewrite Hi, Z.eqb_refl. cbn [negb].
  rewrite Hid, String.eqb_refl, Ho, Z.eqb_refl. cbn. by destruct l as [sd [p q]].
Qed.

Lemma of_this_add p sd l : of_this p -> of_this (add_level p sd l).
Proof. intros (H1' & H2' & H3'). destruct sd; by repeat split. Qed.

Lemma side_rows_step out pending ls : of_this (default opened pending) -> ls <> [] ->
  let p := fold_left (fun p l => add_level p l.1 l.2) ls (default opened pending) in
  foldr_res row_step (out, pending) (map side_row ls) = Ok (out, Some p) /\ of_this p.
Proof.
  revert pending. induction ls as [|l ls IH]; intros pending Ht Hne; [done|]. cbn [map foldr_res fold_left].
  unfold side_row at 1. rewrite (side_row_step out pending l false Ht). destruct ls as [|l' ls]; [split; [done|by apply of_this_add]|].
  apply (IH (Some (add_level (default opened pending) l.1 l.2))); [by apply of_this_add|done].
Qed.

Lemma add_levels p bids asks :
  fold_left (fun p l => add_level p l.1 l.2) (map (pair Buy) bids ++ map (pair Sell) asks) p =
  mkPendingSnapshot (ps_index p) (ps_stamps p) (ps_instrument p) (ps_outcome p) (ps_bids p ++ bids) (ps_asks p ++ asks).
Proof.
  revert p. induction bids as [|b bids IH]; intros p; cbn.
  - revert p. induction asks as [|a asks IH]; intros p; cbn; [by destruct p; cbn; rewrite !app_nil_r|].
    rewrite IH. cbn. by rewrite <- app_assoc.
  - rewrite IH. cbn. by rewrite <- app_assoc.
Qed.

Lemma snapshot_reads_as bids asks rows : rec_event r = EvBookSnapshot bids asks -> book_rows_of i r = Ok rows -> reads_as rows r.
Proof.
  intros Hev Hr. unfold book_rows_of in Hr. rewrite Hev in Hr. set (ls := map (pair Buy) bids ++ map (pair Sell) asks).
  assert (El : level_rows r i Buy bids ++ level_rows r i Sell asks = map side_row ls).
  { unfold level_rows, ls. rewrite map_app, !map_map. done. }
  rewrite El in Hr. assert (Hfin : r = finished (fold_left (fun p l => add_level p l.1 l.2) ls opened)).
  { unfold ls. rewrite add_levels. unfold finished, opened. cbn. rewrite <- Hev. by destruct r. }
  assert (Ht : of_this opened) by done.
  destruct (decide (ls = [])) as [En|Hne].
  { rewrite En in Hr, Hfin. cbn in Hr. injection Hr as <-. split; [done|]. intros out. split.
    - unfold foldr_res, row_step. cbn [br_action String.eqb Ascii.eqb Bool.eqb]. unfold row_snapshot. cbn. rewrite Z.eqb_refl. cbn. rewrite String.eqb_refl, Z.eqb_refl. cbn. cbn in Hfin. unfold opened in Hfin. by rewrite <- Hfin.
    - cbn. lia. }
  destruct (exists_last Hne) as (ls' & l & E). rewrite E, map_app in Hr. cbn [map] in Hr.
  assert (rows = map side_row ls' ++ [mkBookRow r "snapshot" (Some l.1) (Some l.2.1) (Some l.2.2) i true]) as ->.
  { transitivity (mark_last (map side_row ls' ++ [side_row l])); [|by rewrite mark_last_app]. destruct (map side_row ls' ++ [side_row l]) eqn:Em; [by apply app_nil in Em as [_ ?]|]. by injection Hr as <-. }
  split; [by destruct (map side_row ls')|]. intros out. split.
  - rewrite foldr_res_app. assert (Hp : exists pending, foldr_res row_step (out, None) (map side_row ls') = Ok (out, pending) /\
      of_this (default opened pending) /\ default opened pending = fold_left (fun p l => add_level p l.1 l.2) ls' opened).
    { destruct (decide (ls' = [])) as [->|Hne']; [by exists None|]. destruct (side_rows_step out None ls' Ht Hne') as [E1 E2]. by eexists. }
    destruct Hp as (pending & -> & Ht' & Ep). cbn [foldr_res]. rewrite (side_row_step out pending l true Ht'), Ep. rewrite E, fold_left_app in Hfin. cbn in Hfin. by rewrite <- Hfin.
  - intros n [Hn0 Hn]. rewrite length_app, length_map in Hn. cbn in Hn. rewrite firstn_app, length_map. replace (n - length ls')%nat with O by lia. cbn. rewrite app_nil_r, firstn_map.
    destruct (side_rows_step out None (firstn n ls') Ht) as [E1 _]; [|by eexists]. destruct ls', n; cbn in *; try lia; done.
Qed.
End Snapshot.

Lemma delta_reads_as (r : EventRecord) d i rows : rec_event r = EvBookDelta d -> canonical d -> book_rows_of i r = Ok rows -> reads_as rows r.
Proof.
  intros E Hc Hr. unfold book_rows_of in Hr. rewrite E in Hr. assert (exists row, rows = [row] /\
    forall out, row_step (out, None) row = Ok (out ++ [r], None)) as (row & -> & Hrow).
  { destruct r as [st id o ev]. cbn in E. subst ev. destruct d as [[| |] sd p q]; cbn in Hr, Hc; injection Hr as <-; eexists; (split; [done|]); intros out; cbn.
    - done.
    - by rewrite Hc.
    - by destruct Hc as [-> ->]. }
  split; [done|]. intros out. cbn [foldr_res]. rewrite Hrow. split; [done|]. cbn. lia.
Qed.

Lemma rows_good e i (r : EventRecord) rows : event_good e r -> book_rows_of i r = Ok rows -> Forall (row_good e) rows.
Proof.
  intros [Hs Hev] Hr. unfold book_rows_of in Hr. destruct (rec_event r) as [bids asks|d| | | | | |]; try done.
  - assert (Hl : Forall (row_good e) (level_rows r i Buy bids ++ level_rows r i Sell asks)).
    { unfold level_rows. apply Forall_app in Hev as [Hb Ha]. apply Forall_app. split; apply Forall_fmap; (eapply Forall_impl; [eassumption|]); by intros l [H1' H2']. }
    set (L := level_rows r i Buy bids ++ level_rows r i Sell asks) in *. clearbody L. destruct L as [|x l]; injection Hr as <-; [apply Forall_singleton; split; [exact Hs|by split]|].
    destruct (exists_last (l := x :: l) ltac:(done)) as (l' & y & El). rewrite El in Hl |- *. rewrite mark_last_app.
    apply Forall_app in Hl as [Hl Hy]. apply Forall_app. split; [done|]. apply Forall_singleton. exact (proj1 (Forall_singleton _ _) Hy).
  - destruct Hev as [_ [Hp Hq]]. destruct d as [[| |] sd p q]; cbn in Hr; injection Hr as <-; apply Forall_singleton; (split; [exact Hs|by split]).
  - injection Hr as <-. apply Forall_singleton. split; [exact Hs|by split].
Qed.

Lemma event_reads_as e i (r : EventRecord) rows : event_good e r -> book_rows_of i r = Ok rows -> reads_as rows r.
Proof.
  intros [Hs Hev] Hr. destruct (rec_event r) as [bids asks|d| | | | | |] eqn:E; try done.
  - by apply (snapshot_reads_as r i bids asks).
  - apply (delta_reads_as r d i); [done|apply Hev|done].
  - unfold book_rows_of in Hr. rewrite E in Hr. injection Hr as <-. split; [done|]. intros out. split; [|cbn; lia]. cbn. destruct r; cbn in *; by subst.
Qed.

(** *** The rows of a list of events *)
Definition rows_from (k : nat) (records : list EventRecord) : Result (list BookRow) :=
  let? rows := map_res (fun e => book_rows_of (Z.of_nat e.1) e.2) (combine (seq k (length records)) records) in Ok (concat rows).

Lemma rows_from_cons k (r : EventRecord) records rows : rows_from k (r :: records) = Ok rows ->
  exists rows1 rows2, rows = rows1 ++ rows2 /\ book_rows_of (Z.of_nat k) r = Ok rows1 /\ rows_from (Datatypes.S k) records = Ok rows2.
Proof.
  unfold rows_from. cbn. destruct (book_rows_of (Z.of_nat k) r) as [rows1|]; [|done]. cbn. destruct (map_res _ _) as [l|] eqn:E; [|done]. cbn. intros [= <-].
  by exists rows1, (concat l).
Qed.

(** A prefix of the rows either ends with an event or leaves a snapshot open. *)
Lemma prefix_reads e k records rows cut rest out : Forall (event_good e) records -> rows_from k records = Ok rows -> rows = cut ++ rest ->
  (exists m, foldr_res row_step (out, None) cut = Ok (out ++ firstn m records, None) /\ rows_from k (firstn m records) = Ok cut) \/
  (exists out' p, foldr_res row_step (out, None) cut = Ok (out', Some p) /\ rest <> []).
Proof.
  intros Hg. revert k rows cut out. induction records as [|r records IH]; intros k rows cut out Hr Hc.
  { unfold rows_from in Hr. cbn in Hr. injection Hr as <-. symmetry in Hc. apply app_nil in Hc as [-> ->]. left. exists O. by rewrite app_nil_r. }
  apply List.Forall_cons_iff in Hg as [Hg1 Hg]. destruct (rows_from_cons _ _ _ _ Hr) as (rows1 & rows2 & -> & H1' & H2').
  destruct (event_reads_as _ _ _ _ Hg1 H1') as [Hne Hrd]. destruct (Hrd out) as [Hfull Hpart].
  destruct (decide (length rows1 <= length cut)%nat) as [Hle|Hlt].
  - destruct (app_eq_app _ _ _ _ Hc) as (l & [[E1 E2]|[E1 E2]]).
    + assert (l = []) as -> by (apply (f_equal length) in E1; rewrite length_app in E1; destruct l; cbn in *; [done|lia]).
      rewrite app_nil_r in E1. subst rows1. cbn in E2. subst rest. left. exists 1%nat. rewrite Hfull. cbn [firstn].
      rewrite firstn_O. split; [done|]. unfold rows_from. cbn. rewrite H1'. cbn. by rewrite app_nil_r.
    + subst cut. rewrite foldr_res_app, Hfull. cbn. destruct (IH Hg (Datatypes.S k) rows2 l (out ++ [r]) H2' E2) as [(m & Em & Hm)|Hopen]; [left|by right].
      exists (Datatypes.S m). rewrite Em, <- app_assoc. cbn. split; [done|]. unfold rows_from in Hm |- *. cbn. rewrite H1'. cbn.
      destruct (map_res _ _); [|done]. cbn in Hm |- *. injection Hm as <-. done.
  - destruct (decide (cut = [])) as [->|Hcne]; [left; exists O; by rewrite app_nil_r|]. right.
    assert (Hcut : cut = firstn (length cut) rows1).
    { apply (f_equal (firstn (length cut))) in Hc. rewrite !firstn_app, firstn_all, Nat.sub_diag in Hc.
      replace (length cut - length rows1)%nat with O in Hc by lia. cbn in Hc. by rewrite !app_nil_r in Hc. }
    destruct (Hpart (length cut)) as (p & Hp); [destruct cut; cbn in *; [done|lia]|]. exists out, p. rewrite Hcut. split; [done|].
    intros ->. rewrite app_nil_r in Hc. subst cut. rewrite length_app in Hlt. lia.
Qed.

Lemma all_read e k records rows out : Forall (event_good e) records -> rows_from k records = Ok rows ->
  foldr_res row_step (out, None) rows = Ok (out ++ records, None).
Proof.
  intros Hg. revert k rows out. induction Hg as [|r records Hr _ IH]; intros k rows out Hk.
  { unfold rows_from in Hk. cbn in Hk. injection Hk as <-. by rewrite app_nil_r. }
  destruct (rows_from_cons _ _ _ _ Hk) as (rows1 & rows2 & -> & H1' & H2'). destruct (event_reads_as _ _ _ _ Hr H1') as [_ Hrd].
  rewrite foldr_res_app, (proj1 (Hrd out)). cbn. rewrite (IH (Datatypes.S k) rows2 _ H2'). by rewrite <- app_assoc.
Qed.

Lemma all_rows_good e k records rows : Forall (event_good e) records -> rows_from k records = Ok rows -> Forall (row_good e) rows.
Proof.
  intros Hg. revert k rows. induction Hg as [|r records Hr _ IH]; intros k rows Hk; [unfold rows_from in Hk; cbn in Hk; by injection Hk as <-|].
  destruct (rows_from_cons _ _ _ _ Hk) as (rows1 & rows2 & -> & H1' & H2'). apply Forall_app. split; [by apply (rows_good e (Z.of_nat k) r)|by apply (IH (Datatypes.S k))].
Qed.
End Book.

Section BookTheorem.
Context `{ArrowRowsSpec}.
Import MarketStore.

(** C21 A stored book feed reads back event by event, however its rows are cut into batches: the
    columns a writer makes of the rows of the events build a batch that presents them; all
    the rows, in whatever chunks, give the events back, stably sorted by time; and a feed
    whose rows end early is read only if they end with a whole event, else it is refused. *)
Theorem book_reads_back e records rows : book_rows records = Ok rows -> Forall (event_good e) records ->
  (exists b, TableSpec.try_new (schema.book_deltas e) (book_columns e rows) = Some b /\ book_presents e b rows) /\
  forall bs chunks rest, Forall2 (book_presents e) bs chunks -> rows = concat chunks ++ rest ->
    (rest = [] -> book_events_of bs = Ok (by_ts records)) /\
    (forall out, book_events_of bs = Ok out -> exists m, out = by_ts (firstn m records) /\ book_rows (firstn m records) = Ok (concat chunks)).
Proof.
  intros Hr Hg. change (rows_from 0 records = Ok rows) in Hr. split.
  - rewrite book_columns_of. destruct (built (schema.book_deltas e) (book_row e) rows) as (b & Hb & _ & _ & Hp); [done|..].
    + destruct e; apply (bool_decide_eq_true_1 (NoDup _)); vm_compute; reflexivity.
    + intros i f x Hi _. nulls_tac.
    + exists b. split; [done|]. eapply presents_weaken; [|exact Hp]. intros n. cbn. intuition auto.
  - intros bs chunks rest Hp Hc. pose proof (all_rows_good _ _ _ _ Hg Hr) as Hgood. rewrite Hc in Hgood. apply Forall_app in Hgood as [Hgood _].
    unfold book_events_of. rewrite (foldr_res_batches _ row_step (book_presents e) (row_good e)) with (chunks := chunks); [|by intros st b xs; apply book_batch|done..].
    split.
    + intros ->. rewrite app_nil_r in Hc. subst rows. by rewrite (all_read e 0 records _ [] Hg Hr).
    + destruct (prefix_reads e 0 records rows (concat chunks) rest [] Hg Hr Hc) as [(m & -> & Hm)|(out' & p & -> & _)]; [|done].
      intros out [= <-]. by exists m.
Qed.
End BookTheorem.

(** ** Fills, instruments and resolutions read back

    The tables that are read whole.  Fills come back in time order, so that the portfolio a
    report folds from them is the portfolio of the run; instruments come back but for their
    settlement currency, which has no column; resolutions come back up to their order. *)
#[local] Open Scope Z_scope.

(** A loop over slots that reads each value. *)
Lemma map_res_slots {E A B} (f : nat -> result E B) (h : A -> B) xs :
  (forall j x, xs !! j = Some x -> f j = Ok (h x)) -> map_res f (seq 0 (length xs)) = Ok (map h xs).
Proof.
  intros Hf. apply map_res_Forall2, Forall2_same_length_lookup. rewrite length_seq, length_map. split; [done|].
  intros i a b Ha Hb. apply lookup_seq in Ha as [-> _]. rewrite list_lookup_fmap in Hb. destruct (xs !! i) as [x|] eqn:E1; [|done].
  injection Hb as <-. by apply Hf.
Qed.

Lemma hpush_last {A} (key : A -> Z) x h : Forall (fun y => key y <= key x) h -> hpush key x h = h ++ [x].
Proof.
  induction 1 as [|y h Hy _ IH]; [done|]. cbn. destruct (kltb (key x) (key y)) eqn:E; [|by rewrite IH].
  apply kltb_spec in E. apply (proj1 (klt_Z _ _)) in E. cbn in Hy. exfalso. clear -E Hy. lia.
Qed.
Lemma sort_sorted {A} (key : A -> Z) l : StronglySorted (fun a b => key a <= key b) l -> sort_by_key key l = l.
Proof.
  intros Hs. unfold sort_by_key, hof_list. enough (Hk : forall h, Forall (fun y => Forall (fun x => key y <= key x) l) h ->
    fold_left (fun h x => hpush key x h) l h = h ++ l) by by apply Hk.
  induction Hs as [|x l _ IH Hx]; intros h Hh; cbn; [by rewrite app_nil_r|]. rewrite hpush_last.
  - rewrite IH; [by rewrite <- app_assoc|]. apply Forall_app. split; [|by constructor].
    eapply Forall_impl; [exact Hh|]. intros y Hy. by inversion Hy.
  - eapply Forall_impl; [exact Hh|]. intros y Hy. by inversion Hy.
Qed.

(** ** Fills *)
Section Fills.
Context `{ArrowRows}.
Import RunStore.

Definition fill_row (e : FixedEncoding) (f : Fill) : list (option Cell) :=
  [Some (CInt (f_ts f)); Some (CInt (wrap64 (f_order_id f))); Some (CStr (f_instrument f)); Some (CInt (f_outcome f));
   Some (CStr (Side.as_str (f_side f))); fixed_cell e (f_price f); fixed_cell e (f_quantity f); fixed_cell e (f_commission f);
   Some (CBool (f_is_taker f)); CStr <$> f_tag f].
Definition fill_good (e : FixedEncoding) (f : Fill) : Prop :=
  InstrumentId.new (f_instrument f) = Ok (f_instrument f) /\ 0 <= f_order_id f < 2 ^ 64 /\
  storable e (Some (f_price f)) /\ storable e (Some (f_quantity f)) /\ storable e (Some (f_commission f)).
Definition fills_present (e : FixedEncoding) : RecordBatch -> list Fill -> Prop :=
  presents (map fd_name (schema.fills e)) (schema.fills e) (fill_row e).

Lemma fill_columns_of e fills : fill_columns e fills = columns_of (schema.fills e) (fill_row e) fills.
Proof. unfold fill_columns. rewrite !column_cells. columns_tac. Qed.

Lemma order_id_back z : 0 <= z < 2 ^ 64 -> u64_of_i64 (wrap64 z) = z.
Proof.
  intros Hz. unfold u64_of_i64, wrap64, swrap. change (2 ^ (64 - 1)) with (2 ^ 63).
  rewrite Zminus_mod_idemp_l. replace (z + 2 ^ 63 - 2 ^ 63) with z by lia. by apply Z.mod_small.
Qed.

Lemma fills_batch_read e b fills : fills_present e b fills -> Forall (fill_good e) fills -> fill_batch b = Ok fills.
Proof.
  intros Hp Hg. unfold fill_batch, fills_present in *.
  open_column Hp 0%nat (schema.ts "ts") Col.timestamps T1 C1. open_column Hp 1%nat (schema.int "order_id") Col.int64s T2 C2.
  open_column Hp 2%nat (schema.text "instrument_id") Col.strings T3 C3. open_column Hp 3%nat schema.outcome Col.uint16s T4 C4.
  open_column Hp 4%nat (schema.text "side") Col.strings T5 C5. open_fixed Hp 5%nat (schema.float "price" e) T6 C6.
  open_fixed Hp 6%nat (schema.float "quantity" e) T7 C7. open_fixed Hp 7%nat (schema.float "commission" e) T8 C8.
  open_column Hp 8%nat (mkField "is_taker" Boolean false) Col.booleans T9 C9. open_column Hp 9%nat (schema.opt_text "tag") Col.strings T10 C10.
  rewrite (proj1 Hp). rewrite <- (map_id fills) at 2. apply map_res_slots. intros j f Hx.
  destruct (proj1 (Forall_lookup _ _) Hg _ _ Hx) as (Hid & Ho & H1' & H2' & H3').
  specialize (C1 j f Hx). specialize (C2 j f Hx). specialize (C3 j f Hx). specialize (C4 j f Hx). specialize (C5 j f Hx).
  specialize (C6 j f Hx). specialize (C7 j f Hx). specialize (C8 j f Hx). specialize (C9 j f Hx). specialize (C10 j f Hx).
  cbn in C1, C2, C3, C4, C5, C6, C7, C8, C9, C10. unfold Col.str, Col.int, Col.bool, Col.opt_str, Col.is_valid, Col.str.
  rewrite C1, C2, C3, C4, C5, C9, C10, Hid, side_reads_back. cbn [int_of].
  rewrite (read_fixed_value_stored e _ _ _ _ T6 C6 H1'), (read_fixed_value_stored e _ _ _ _ T7 C7 H2'), (read_fixed_value_stored e _ _ _ _ T8 C8 H3').
  rewrite order_id_back by done. destruct f as [oid i o sd p q cm tk t tag]. by destruct tag.
Qed.

Lemma fills_read e bs chunks : Forall2 (fills_present e) bs chunks -> Forall (fill_good e) (concat chunks) ->
  fills_of bs = Ok (sort_by_key f_ts (concat chunks)).
Proof.
  intros Hp Hg. unfold fills_of. assert (map_res fill_batch bs = Ok chunks) as ->; [|done]. apply map_res_Forall2.
  induction Hp as [|b fs bs chunks Hb _ IH]; [constructor|]. cbn in Hg. apply Forall_app in Hg as [Hg1 Hg2].
  constructor; [by apply (fills_batch_read e)|by apply IH].
Qed.
End Fills.

(** ** Instruments *)
Section Instruments.
Context `{ArrowRows}.
Import MarketStore.

Abbreviation Row := (Instrument * (Z * string))%type (only parsing).
Abbreviation Drafts := (BTree string InstrumentDraft) (only parsing).
Definition rule_pair (r : PriceRule) : option (Z * Z) :=
  match r with Tick => None | SignificantFigures figures decimals => Some (figures, decimals) end.
Definition instrument_row (e : FixedEncoding) (known_at : UnixNanos) (r : Row) : list (option Cell) :=
  let i := r.1 in
  [Some (CInt known_at); Some (CStr (inst_id i)); Some (CStr (venue i)); Some (CStr (kind_name (kind i)));
   Some (CInt r.2.1); Some (CStr r.2.2); fixed_cell e (tick_size i); fixed_cell e (lot_size i);
   CInt <$> expiration i; CInt <$> settlement_observable i; Some (CBool (neg_risk i));
   CInt <$> rule_figures (price_rule i); CInt <$> rule_decimals (price_rule i)].
Definition instruments_present (e : FixedEncoding) (known_at : UnixNanos) : RecordBatch -> list Row -> Prop :=
  presents (map fd_name (schema.instruments e)) (schema.instruments e) (instrument_row e known_at).

(** An instrument as its constructors make it, with figures a fixed-point column holds. *)
Definition instrument_good (e : FixedEncoding) (i : Instrument) : Prop :=
  InstrumentId.new (inst_id i) = Ok (inst_id i) /\ storable e (Some (tick_size i)) /\ storable e (Some (lot_size i)) /\
  match kind i with PredictionMarket => 2 <= zlen (outcomes i) <= 65536 | _ => outcomes i = ["-"] end /\
  match price_rule i with Tick => True | SignificantFigures figures decimals => 1 <= figures <= 18 /\ 0 <= decimals <= 9 end.
(** What comes back: there is no column for the settlement currency. *)
Definition read_back (i : Instrument) : Instrument := i <| settlement_currency := "USDC" |>.

Definition draft_of (i : Instrument) (labels : BTree Z string) : InstrumentDraft :=
  mkInstrumentDraft (venue i) (kind_name (kind i)) labels (tick_size i) (lot_size i) (expiration i) (settlement_observable i)
    (neg_risk i) (rule_pair (price_rule i)).
Definition draft_step (collected : Drafts) (r : Row) : Result Drafts :=
  let draft := default (draft_of r.1 []) (bget (inst_id r.1) collected) in
  Ok (binsert (inst_id r.1) (draft <| dr_outcomes := binsert r.2.1 r.2.2 (dr_outcomes draft) |>) collected).

Lemma instrument_columns_of e known_at rows :
  instrument_columns e known_at rows = columns_of (schema.instruments e) (instrument_row e known_at) rows.
Proof. unfold instrument_columns. rewrite !column_cells. columns_tac. Qed.

Definition instrument_slot (id venue kind outcome label tick lot expiration observable neg_risk figures decimals : Column)
    (collected : Drafts) (row : nat) : Result Drafts :=
  let? tick_size := read_fixed_value tick row "tick_size" in
  let? lot_size := read_fixed_value lot row "lot_size" in
  let draft := match bget (Col.str id row) collected with
    | Some d => d
    | None => mkInstrumentDraft (Col.str venue row) (Col.str kind row) [] tick_size lot_size
                (Col.opt_i64 expiration row) (Col.opt_i64 observable row)
                (Col.is_valid neg_risk row && Col.bool neg_risk row) (price_rule_at (Some figures) (Some decimals) row)
    end in
  Ok (binsert (Col.str id row)
        (draft <| dr_outcomes := binsert (Col.int outcome row) (Col.str label row) (dr_outcomes draft) |>) collected).

Lemma collect_batch e known_at b rows collected : instruments_present e known_at b rows ->
  Forall (fun r => instrument_good e r.1) rows -> collect_instruments collected b = foldr_res draft_step collected rows.
Proof.
  intros Hp Hg. unfold collect_instruments, instruments_present, optional_column in *.
  open_column Hp 1%nat (schema.text "instrument_id") Col.strings T1 C1. open_column Hp 2%nat (schema.text "venue") Col.strings T2 C2.
  open_column Hp 3%nat (schema.text "kind") Col.strings T3 C3. open_column Hp 4%nat schema.outcome Col.uint16s T4 C4.
  open_column Hp 5%nat (schema.text "outcome_label") Col.strings T5 C5. open_fixed Hp 6%nat (schema.float "tick_size" e) T6 C6.
  open_fixed Hp 7%nat (schema.float "lot_size" e) T7 C7. open_column Hp 8%nat (schema.opt_int "expiration_ns") Col.int64s T8 C8.
  open_column Hp 9%nat (schema.opt_int "settlement_observable_ns") Col.int64s T9 C9.
  open_column Hp 10%nat (mkField "neg_risk" Boolean true) Col.booleans T10 C10.
  open_column Hp 11%nat (mkField "price_significant_figures" UInt8 true) Col.uint8s T11 C11.
  open_column Hp 12%nat (mkField "price_max_decimals" UInt8 true) Col.uint8s T12 C12.
  pose proof (foldr_res_slots (fun collected row => instrument_slot c c0 c1 c2 c3 c4 c5 c6 c7 c8 c9 c10 collected row) draft_step eq rows) as Hs.
  rewrite (proj1 Hp). assert (Hslot : forall j x s s', rows !! j = Some x -> s = s' ->
    match draft_step s' x with Ok t' => exists t, instrument_slot c c0 c1 c2 c3 c4 c5 c6 c7 c8 c9 c10 s j = Ok t /\ t = t'
    | Err er => instrument_slot c c0 c1 c2 c3 c4 c5 c6 c7 c8 c9 c10 s j = Err er end).
  { intros j x s ? Hx <-. destruct (proj1 (Forall_lookup _ _) Hg _ _ Hx) as (Hid & Ht & Hl & _).
    specialize (C1 j x Hx). specialize (C2 j x Hx). specialize (C3 j x Hx). specialize (C4 j x Hx). specialize (C5 j x Hx).
    specialize (C6 j x Hx). specialize (C7 j x Hx). specialize (C8 j x Hx). specialize (C9 j x Hx). specialize (C10 j x Hx).
    specialize (C11 j x Hx). specialize (C12 j x Hx). cbn in C1, C2, C3, C4, C5, C6, C7, C8, C9, C10, C11, C12.
    unfold instrument_slot, draft_step. rewrite (read_fixed_value_stored e _ _ _ _ T6 C6 Ht), (read_fixed_value_stored e _ _ _ _ T7 C7 Hl).
    unfold price_rule_at, Col.opt_i64, Col.str, Col.int, Col.bool, Col.is_valid. rewrite C1, C2, C3, C4, C5, C8, C9, C10, C11, C12. cbn [int_of is_null negb].
    eexists. split; [|done]. destruct x as [i [o label]]. cbn. unfold draft_of.
    destruct (bget (inst_id i) s); [done|]. cbn. by destruct (expiration i), (settlement_observable i), (price_rule i). }
  specialize (Hs Hslot collected collected eq_refl). destruct (foldr_res draft_step collected rows) as [t|er].
  - destruct Hs as (t' & E & ->). exact E.
  - exact Hs.
Qed.

(** *** The rows of one market *)
Lemma map_snd_combine {A B} (l : list A) (l' : list B) : length l = length l' -> map snd (combine l l') = l'.
Proof. revert l'. induction l as [|x l IH]; intros [|y l'] E; cbn in *; try done. f_equal. apply IH. lia. Qed.
Lemma combine_snoc {A B} (l : list A) (l' : list B) x y : length l = length l' -> combine (l ++ [x]) (l' ++ [y]) = combine l l' ++ [(x, y)].
Proof. revert l'. induction l as [|z l IH]; intros [|z' l'] E; cbn in *; try done. by rewrite IH by lia. Qed.

Definition indexed {V} (l : list V) : BTree Z V := map (fun e => (Z.of_nat e.1 mod 65536, e.2)) (combine (seq 0 (length l)) l).
Definition add_all {V} (ls m : BTree Z V) : BTree Z V := fold_left (fun m e => binsert e.1 e.2 m) ls m.

Lemma indexed_eq {V} (l : list V) : zlen l <= 65536 -> indexed l = combine (map Z.of_nat (seq 0 (length l))) l.
Proof.
  unfold indexed, zlen. intros Hl. enough (Hk : forall k (l : list V), Z.of_nat (k + length l) <= 65536 ->
    map (fun e => (Z.of_nat e.1 mod 65536, e.2)) (combine (seq k (length l)) l) = combine (map Z.of_nat (seq k (length l))) l) by (apply Hk; lia).
  clear. intros k l. revert k. induction l as [|x l IH]; intros k Hk; [done|]. cbn in *. rewrite (IH (Datatypes.S k)) by lia.
  by rewrite Z.mod_small by lia.
Qed.

Lemma binsert_end {V} (k : Z) (v : V) m : Forall (fun e => e.1 < k) m -> binsert k v m = m ++ [(k, v)].
Proof.
  induction 1 as [|[k' v'] m Hk _ IH]; [done|]. cbn in *. destruct (Z.compare_spec k k') as [| |]; [lia|lia|]. by rewrite IH.
Qed.

Lemma indexed_added {V} (l : list V) : zlen l <= 65536 -> add_all (indexed l) [] = indexed l.
Proof.
  intros Hl. rewrite (indexed_eq l Hl). clear Hl. unfold add_all.
  enough (Hk : forall k l m, Forall (fun e : Z * V => e.1 < Z.of_nat k) m ->
    fold_left (fun m e => binsert e.1 e.2 m) (combine (map Z.of_nat (seq k (length l))) l) m = m ++ combine (map Z.of_nat (seq k (length l))) l) by by apply (Hk O l []).
  clear. intros k l. revert k. induction l as [|x l IH]; intros k m Hm; cbn; [by rewrite app_nil_r|].
  rewrite binsert_end by done. rewrite (IH (Datatypes.S k)); [by rewrite <- app_assoc|]. apply Forall_app. split; [|apply Forall_singleton; cbn; lia].
  eapply Forall_impl; [exact Hm|]. cbn. intros; lia.
Qed.

Lemma indexed_gapless {V} (l : list V) : 1 <= zlen l <= 65536 -> no_gaps (indexed l) = true /\ bvalues (indexed l) = l.
Proof.
  intros Hl. rewrite (indexed_eq l) by lia. unfold zlen in Hl.
  assert (Hlen : length (map Z.of_nat (seq 0 (length l))) = length l) by (by rewrite length_map, length_seq).
  split.
  - destruct (exists_last (l := l)) as (l' & x & ->); [by destruct l; cbn in *; [lia|]|]. rewrite length_app in *. cbn [length] in *.
    unfold no_gaps, blast. rewrite length_combine, Hlen, length_app. cbn [length]. rewrite Nat.min_id. rewrite seq_app, map_app. cbn [map seq].
    rewrite combine_snoc by (by rewrite length_map, length_seq). rewrite last_snoc. apply Z.eqb_eq. lia.
  - unfold bvalues. by apply map_snd_combine.
Qed.
Lemma indexed_nonempty {V} (l : list V) : 1 <= zlen l -> indexed l <> [].
Proof. destruct l; [unfold zlen; cbn; lia|done]. Qed.

Definition labels (i : Instrument) : BTree Z string := indexed (outcomes i).
Definition draft (i : Instrument) : InstrumentDraft := draft_of i (labels i).

Lemma market_outcomes i : match kind i with PredictionMarket => 2 <= zlen (outcomes i) <= 65536 | _ => outcomes i = ["-"] end ->
  1 <= zlen (outcomes i) <= 65536.
Proof. destruct (kind i); [lia|intros ->; unfold zlen; cbn; lia..]. Qed.

Definition add_label (d : InstrumentDraft) (x : Z * string) : InstrumentDraft := d <| dr_outcomes := binsert x.1 x.2 (dr_outcomes d) |>.
Lemma labels_drafted ls d : fold_left add_label ls d = d <| dr_outcomes := add_all ls (dr_outcomes d) |>.
Proof. revert d. induction ls as [|x ls IH]; intros d; cbn; [by destruct d|]. by rewrite IH. Qed.

Lemma one_market e i collected : instrument_good e i -> bwf collected -> bget (inst_id i) collected = None ->
  foldr_res draft_step collected (map (pair i) (labels i)) = Ok (binsert (inst_id i) (draft i) collected).
Proof.
  intros (_ & _ & _ & Hk & _) Hw Hn. pose proof (market_outcomes i Hk) as Hl.
  pose proof (indexed_nonempty (outcomes i) ltac:(lia)) as Hne. fold (labels i) in Hne.
  transitivity (Ok (E := BacktestError) (fold_left (gather_step add_label (draft_of i []) (inst_id i)) (labels i) collected)).
  - clear. revert collected. induction (labels i) as [|x ls IH]; intros collected; [done|]. cbn [map foldr_res fold_left]. unfold draft_step at 1. cbn [fst snd]. apply IH.
  - rewrite (gathered_entries _ _ _ _ _ Hw Hn Hne), labels_drafted. cbn [dr_outcomes draft_of]. unfold draft, labels. by rewrite (indexed_added (outcomes i)) by lia.
Qed.

(** *** All of them *)
Lemma collected_all e l : forall collected, Forall (instrument_good e) l -> NoDup (map inst_id l) -> bwf collected ->
  (forall i, In i l -> bget (inst_id i) collected = None) ->
  exists collected', foldr_res draft_step collected (instrument_rows l) = Ok collected' /\ bwf collected' /\
    (forall k d, bget k collected' = Some d <-> bget k collected = Some d \/ exists i, In i l /\ inst_id i = k /\ d = draft i).
Proof.
  induction l as [|i l IH]; intros collected Hg Hnd Hw Hn.
  { exists collected. split; [done|]. split; [done|]. intros k d. split; [by left|]. intros [?|(? & [] & _)]; done. }
  apply List.Forall_cons_iff in Hg as [Hi Hg]. apply NoDup_cons in Hnd as [Hni Hnd].
  assert (Hrows : instrument_rows (i :: l) = map (pair i) (labels i) ++ instrument_rows l).
  { unfold instrument_rows, labels, indexed. cbn. by rewrite map_map. }
  rewrite Hrows, foldr_res_app, (one_market e i collected Hi Hw (Hn i (or_introl eq_refl))). cbv beta iota.
  destruct (IH (binsert (inst_id i) (draft i) collected) Hg Hnd (bwf_insert _ _ _ Hw)) as (collected' & E & Hw' & Hget).
  { intros i' Hi'. rewrite bget_insert. destruct (keqb (inst_id i') (inst_id i)) eqn:Ek; [|apply Hn; by right].
    apply keqb_eq in Ek. destruct Hni. rewrite <- Ek. by apply list_elem_of_In, in_map. }
  exists collected'. split; [done|]. split; [done|]. intros k d. rewrite Hget, bget_insert. destruct (keqb k (inst_id i)) eqn:Ek.
  - apply keqb_eq in Ek as ->. rewrite (Hn i (or_introl eq_refl)). split.
    + intros [[= <-]|(i' & Hi' & Hk & ->)]; right; [by exists i; split; [left|]|by exists i'; split; [right|]].
    + intros [|(i' & [<-|Hi'] & Hk & ->)]; [done|by left|by right; exists i'].
  - split; (intros [?|(i' & Hi' & Hk & ->)]; [by left|right]); [by exists i'; split; [right|]|].
    destruct Hi' as [<-|Hi']; [by rewrite Hk, keqb_refl in Ek|by exists i'].
Qed.

Lemma assembled e i : instrument_good e i -> assemble (inst_id i) (draft i) = Ok (read_back i).
Proof.
  intros (Hid & _ & _ & Hk & Hr). pose proof (market_outcomes i Hk) as Hl.
  destruct (indexed_gapless (outcomes i) Hl) as [Hgap Hval]. unfold assemble, draft, draft_of. cbn [dr_kind dr_outcomes dr_venue dr_price_rule dr_tick dr_lot dr_expiration dr_observable dr_neg_risk].
  assert (parse_kind (kind_name (kind i)) = Ok (kind i)) as -> by (by destruct (kind i)). cbv beta iota. cbn [dr_outcomes dr_venue]. fold (labels i) in Hgap, Hval. rewrite Hgap, Hval. cbn [negb].
  assert (Hmade : match kind i with
    | PredictionMarket => Instrument.prediction_market (inst_id i) (venue i) (outcomes i)
    | Perpetual => Instrument.perpetual (inst_id i) (venue i) | Spot => Instrument.spot (inst_id i) (venue i) end =
    Ok (mkInstrument (inst_id i) (venue i) (kind i) (outcomes i) (match kind i with PredictionMarket => SCALE / 10000 | _ => SCALE / 100 end)
          (match kind i with PredictionMarket => SCALE | _ => SCALE / 1000 end) "USDC" None None false Tick)).
  { destruct (kind i); unfold Instrument.prediction_market, Instrument.perpetual, Instrument.spot; rewrite Hid; try rewrite Hk; try done.
    unfold zlen in Hk. destruct (Nat.ltb_spec (length (outcomes i)) 2); [lia|done]. }
  rewrite Hmade. cbv beta iota. unfold rule_pair. destruct i as [id v k os t lt cur ex ob nr rule]. cbn in *. destruct rule as [|f d]; [done|].
  unfold Instrument.with_price_rule. destruct (Z.eqb_spec f 0); [lia|]. destruct (Z.ltb_spec 18 f); [lia|]. destruct (Z.ltb_spec 9 d); [lia|]. done.
Qed.

Lemma rows_good_markets e l : Forall (instrument_good e) l -> Forall (fun r => instrument_good e r.1) (instrument_rows l).
Proof.
  intros Hg. unfold instrument_rows. rewrite Forall_concat. apply Forall_fmap. eapply Forall_impl; [exact Hg|]. intros i Hi. cbn.
  apply Forall_fmap, Forall_true. by intros.
Qed.

Lemma set_of_drafts e (entries : BTree string InstrumentDraft) : forall set, NoDup (map fst entries) ->
  Forall (fun x => exists i, x = (inst_id i, draft i) /\ instrument_good e i) entries ->
  Forall (fun x => by_id set !! x.1 = None) entries ->
  exists set', foldr_res (fun set x => let? i := assemble x.1 x.2 in InstrumentSet.insert set i) set entries = Ok set' /\
    forall k, by_id set' !! k = match by_id set !! k with Some i => Some i | None => bget k entries ≫= fun d => ok (assemble k d) end.
Proof.
  induction entries as [|x entries IH]; intros set Hnd Hg Hf.
  { exists set. split; [done|]. intros k. by destruct (by_id set !! k). }
  apply List.Forall_cons_iff in Hg as [(i & -> & Hi) Hg]. apply List.Forall_cons_iff in Hf as [Hfi Hf]. apply NoDup_cons in Hnd as [Hni Hnd].
  cbn [foldr_res fst snd]. rewrite (assembled e i Hi). cbv beta iota. unfold InstrumentSet.insert. cbn in Hfi |- *. rewrite Hfi.
  destruct (IH (mkInstrumentSet (<[inst_id i := read_back i]> (by_id set))) Hnd Hg) as (set' & E & Hget).
  { rewrite List.Forall_forall in Hf |- *. intros y Hy. cbn. rewrite lookup_insert_ne; [by apply Hf|]. intros Ek. apply Hni. cbn. rewrite Ek. apply list_elem_of_In. by apply in_map. }
  exists set'. split; [exact E|]. intros k. rewrite Hget. cbn. destruct (decide (inst_id i = k)) as [<-|Hne].
  - rewrite lookup_insert_eq, Hfi, keqb_refl. cbn. by rewrite (assembled e i Hi).
  - rewrite lookup_insert_ne by done. destruct (keqb k (inst_id i)) eqn:Ek; [apply keqb_eq in Ek; congruence|done].
Qed.
End Instruments.

Section InstrumentTheorem.
Context `{ArrowRowsSpec}.
Import MarketStore.

(** Registered instruments read back, whole and each once, but for the settlement currency,
    which is always USDC: the columns of their rows build a batch that presents them, and
    however the rows are cut into batches the set read holds exactly the markets written. *)
Theorem instruments_read_back e known_at l : Forall (instrument_good e) l -> NoDup (map inst_id l) ->
  (exists b, TableSpec.try_new (schema.instruments e) (instrument_columns e known_at (instrument_rows l)) = Some b /\
             instruments_present e known_at b (instrument_rows l)) /\
  forall bs chunks, concat chunks = instrument_rows l -> Forall2 (instruments_present e known_at) bs chunks ->
    exists set, instruments_of bs = Ok set /\ (forall i, In i l -> InstrumentSet.get set (inst_id i) = Ok (read_back i)) /\
      (forall id, ~ In id (map inst_id l) -> InstrumentSet.contains set id = false).
Proof.
  intros Hg Hnd. split.
  - rewrite instrument_columns_of. destruct (built (schema.instruments e) (instrument_row e known_at) (instrument_rows l)) as (b & Hb & _ & _ & Hp); [done|..].
    + destruct e; apply (bool_decide_eq_true_1 (NoDup _)); vm_compute; reflexivity.
    + intros i f x Hi _. nulls_tac.
    + by exists b.
  - intros bs chunks Hc Hp. unfold instruments_of.
    rewrite (foldr_res_batches _ draft_step (instruments_present e known_at) (fun r => instrument_good e r.1)) with (chunks := chunks);
      [|by intros st b xs; apply collect_batch|done|rewrite Hc; by apply rows_good_markets].
    rewrite Hc. destruct (collected_all e l [] Hg Hnd bwf_nil) as (collected & -> & Hw & Hget); [done|]. cbv beta iota.
    assert (Hentry : forall k d, In (k, d) collected -> exists i, In i l /\ inst_id i = k /\ d = draft i).
    { intros k d Hin. apply bwf_In_iff in Hin; [|done]. apply Hget in Hin as [|Hin]; [done|exact Hin]. }
    destruct (set_of_drafts e collected InstrumentSet.new) as (set & -> & Hset).
    + by apply bwf_NoDup.
    + apply List.Forall_forall. intros [k d] Hin. destruct (Hentry k d Hin) as (i & Hi & <- & ->). exists i. split; [done|]. by apply (proj1 (List.Forall_forall _ _) Hg).
    + apply List.Forall_forall. intros x _. apply lookup_empty.
    + exists set. split; [done|]. split.
      * intros i Hi. unfold InstrumentSet.get. rewrite Hset. cbn. rewrite lookup_empty.
        rewrite (proj2 (Hget (inst_id i) (draft i))) by (right; by exists i). cbn. by rewrite (assembled e i) by by apply (proj1 (List.Forall_forall _ _) Hg).
      * intros id Hid. unfold InstrumentSet.contains. rewrite Hset. cbn. rewrite lookup_empty. destruct (bget id collected) as [d|] eqn:E; [|done].
        apply Hget in E as [|(i & Hi & <- & _)]; [done|]. destruct Hid. by apply in_map.
Qed.
End InstrumentTheorem.

Section FillTheorem.
Context `{ArrowRowsSpec}.
Import RunStore.

(** C24 The fills of a run read back: the batch a run writes presents them, and however its rows
    are cut the reader returns them stably sorted by time; fills that were recorded in time
    order come back as the very list that was recorded, so that folding the table gives the
    portfolio that folding the recorded fills gives.  (Of a run that is its own portfolio when no
    market was split: no fill records a split.) *)
Theorem fills_read_back e fills : Forall (fill_good e) fills -> fills <> [] ->
  (exists b, fills_batch fills e = Ok (Some b) /\ fills_present e b fills) /\
  forall bs chunks, concat chunks = fills -> Forall2 (fills_present e) bs chunks ->
    fills_of bs = Ok (sort_by_key f_ts fills) /\
    (StronglySorted (fun a b => f_ts a <= f_ts b) fills ->
       fills_of bs = Ok fills /\ (let? read := fills_of bs in Portfolio.replay read) = Portfolio.replay fills).
Proof.
  intros Hg Hne. split.
  - destruct (built (schema.fills e) (fill_row e) fills) as (b & Hb & _ & _ & Hp); [done|..].
    + destruct e; apply (bool_decide_eq_true_1 (NoDup _)); vm_compute; reflexivity.
    + intros i f x Hi _. nulls_tac.
    + exists b. split; [|done]. unfold fills_batch, EventIO.build. rewrite fill_columns_of, Hb. by destruct fills.
  - intros bs chunks Hc Hp. rewrite (fills_read e bs chunks Hp) by by rewrite Hc. rewrite Hc. split; [done|]. intros Hs. by rewrite sort_sorted.
Qed.
End FillTheorem.

(** ** Resolutions *)
Section Resolutions.
Context `{ArrowRows}.
Import MarketStore.
Abbreviation Splits := (BTree string (Z * BTree Z Price)) (only parsing).
Abbreviation State := (list Resolution * Splits)%type (only parsing).

Definition resolution_cells (e : FixedEncoding) (r : ResolutionRow) : list (option Cell) :=
  [Some (CInt (observable_at (rw_resolution r))); Some (CStr (res_instrument (rw_resolution r))); Some (CStr (rw_kind r));
   CInt <$> rw_outcome r; FixedBuilder.value e <$> rw_payout r; CInt <$> rw_count r].
Definition resolutions_present (e : FixedEncoding) : RecordBatch -> list ResolutionRow -> Prop :=
  presents (map fd_name (schema.resolutions e)) (schema.resolutions e) (resolution_cells e).
Definition resolution_row_good (e : FixedEncoding) (r : ResolutionRow) : Prop :=
  InstrumentId.new (res_instrument (rw_resolution r)) = Ok (res_instrument (rw_resolution r)) /\ storable e (rw_payout r).

Definition add_payout (m : Splits) (id : string) (at_ outcome : Z) (p : Price) : Splits :=
  let entry := default (at_, []) (bget id m) in binsert id (entry.1, binsert outcome p entry.2) m.
Definition resolution_step (st : State) (r : ResolutionRow) : Result State :=
  let id := res_instrument (rw_resolution r) in
  let at_ := observable_at (rw_resolution r) in
  if String.eqb (rw_kind r) "winner" then
    let? o := ok_or (rw_outcome r) (Types.invalid "resolution names a winner but no outcome") in Ok (st.1 ++ [Resolution.new id o at_], st.2)
  else if String.eqb (rw_kind r) "void" then
    let? n := ok_or (rw_count r) (Types.invalid "voided resolution does not say how many outcomes it refunds across") in
    let? v := Resolution.void id n at_ in Ok (st.1 ++ [v], st.2)
  else if String.eqb (rw_kind r) "split" then
    match rw_outcome r, rw_payout r with
    | Some o, Some p => Ok (st.1, add_payout st.2 id at_ o p)
    | _, _ => Err (Types.invalid "split resolution row is missing its outcome or payout")
    end
  else Err (Parse "resolution kind" (rw_kind r)).

Lemma resolution_columns_of e rows : resolution_columns e rows = columns_of (schema.resolutions e) (resolution_cells e) rows.
Proof. unfold resolution_columns. rewrite !column_cells. columns_tac. Qed.

Lemma resolution_batch_step e b rows st : resolutions_present e b rows -> Forall (resolution_row_good e) rows ->
  resolution_batch st b = foldr_res resolution_step st rows.
Proof.
  intros Hp Hg. unfold resolution_batch, resolutions_present in *.
  open_column Hp 0%nat (schema.ts "ts_init") Col.timestamps T1 C1. open_column Hp 1%nat (schema.text "instrument_id") Col.strings T2 C2.
  open_column Hp 2%nat (schema.text "kind") Col.strings T3 C3. open_column Hp 3%nat (mkField "outcome" UInt16 true) Col.uint16s T4 C4.
  open_fixed Hp 4%nat (schema.opt_float "payout" e) T5 C5. open_column Hp 5%nat (mkField "outcome_count" UInt16 true) Col.uint16s T6 C6.
  rewrite (proj1 Hp).
  pose proof (foldr_res_slots (fun st row => resolution_row st (Col.str c0 row) (Col.str c1 row) (Col.int c row) c2 c3 c4 row) resolution_step eq rows) as Hs.
  assert (Hslot : forall j x s s', rows !! j = Some x -> s = s' ->
    match resolution_step s' x with
    | Ok t' => exists t, resolution_row s (Col.str c0 j) (Col.str c1 j) (Col.int c j) c2 c3 c4 j = Ok t /\ t = t'
    | Err er => resolution_row s (Col.str c0 j) (Col.str c1 j) (Col.int c j) c2 c3 c4 j = Err er end).
  { intros j x s ? Hx <-. destruct (proj1 (Forall_lookup _ _) Hg _ _ Hx) as (Hid & Hpay).
    specialize (C1 j x Hx). specialize (C2 j x Hx). specialize (C3 j x Hx). specialize (C4 j x Hx). specialize (C5 j x Hx). specialize (C6 j x Hx).
    cbn in C1, C2, C3, C4, C5, C6. unfold resolution_row, resolution_step, Col.is_valid, Col.str, Col.int. rewrite C1, C2, C3, C4, C5, C6, Hid. cbn [int_of].
    destruct (_ =? "winner")%string; [destruct (rw_outcome x); cbn; eauto|]. destruct (_ =? "void")%string.
    - destruct (rw_count x); cbn; [|done]. destruct (Resolution.void _ _ _); eauto.
    - destruct (_ =? "split")%string; [|done]. destruct (rw_outcome x); cbn; [|done]. destruct (rw_payout x) as [p|]; cbn in C5 |- *; [|done].
      rewrite (read_fixed_value_stored e c3 j "payout" p T5 C5 Hpay). eauto. }
  specialize (Hs Hslot st st eq_refl). destruct (foldr_res resolution_step st rows) as [t|er].
  - destruct Hs as (t' & E & ->). exact E.
  - exact Hs.
Qed.

(** *** One resolution, and all of them *)
Definition resolution_good (e : FixedEncoding) (r : Resolution) : Prop :=
  InstrumentId.new (res_instrument r) = Ok (res_instrument r) /\
  match payout r with
  | Winner _ => True
  | Void outcomes => 2 <= outcomes
  | SplitPayout prices =>
      Resolution.split (res_instrument r) prices (observable_at r) = Ok r /\ zlen prices <= 65536 /\ Forall (fun p => storable e (Some p)) prices
  end.
Definition is_split (r : Resolution) : bool := match payout r with SplitPayout _ => true | _ => false end.
Definition split_prices (r : Resolution) : list Price := match payout r with SplitPayout prices => prices | _ => [] end.
Definition split_entry (r : Resolution) : string * (Z * BTree Z Price) := (res_instrument r, (observable_at r, indexed (split_prices r))).

Lemma split_length id prices at_ r : Resolution.split id prices at_ = Ok r -> 1 <= zlen prices.
Proof. unfold Resolution.split, zlen. destruct (Nat.ltb_spec (length prices) 2); [done|lia]. Qed.

Lemma split_rows r prices : payout r = SplitPayout prices ->
  resolution_rows r = map (fun x => mkResolutionRow r "split" (Some x.1) (Some x.2) None) (indexed prices).
Proof. intros E. unfold resolution_rows, indexed. by rewrite E, map_map. Qed.

Lemma one_resolution e r (out : list Resolution) (m : Splits) : resolution_good e r -> bwf m ->
  (is_split r = true -> bget (res_instrument r) m = None) ->
  foldr_res resolution_step (out, m) (resolution_rows r) =
    Ok (if is_split r then (out, binsert (split_entry r).1 (split_entry r).2 m) else (out ++ [r], m)).
Proof.
  intros [Hid Hr] Hw Hn. unfold is_split, split_entry, split_prices in *. destruct (payout r) as [w|prices|n] eqn:E.
  - unfold resolution_rows. rewrite E. cbn. unfold Resolution.new. rewrite <- E. by destruct r.
  - destruct Hr as (Hsp & Hl & _). pose proof (split_length _ _ _ _ Hsp) as Hl1. rewrite (split_rows r prices E). cbn [fst snd].
    set (upd := fun (d : Z * BTree Z Price) (x : Z * Price) => (d.1, binsert x.1 x.2 d.2)).
    transitivity (Ok (E := BacktestError) (out, fold_left (gather_step upd (observable_at r, []) (res_instrument r)) (indexed prices) m)).
    + clear. revert m. induction (indexed prices) as [|x xs IH]; intros m; [done|]. cbn [map foldr_res fold_left]. unfold resolution_step at 1. cbn [rw_kind rw_outcome rw_payout rw_resolution String.eqb Ascii.eqb Bool.eqb]. apply IH.
    + rewrite (gathered_entries upd _ _ _ _ Hw (Hn eq_refl) (indexed_nonempty prices Hl1)). do 3 f_equal.
      rewrite <- (indexed_added prices Hl) at 2. unfold add_all. generalize (indexed prices). intros l. set (m0 := @nil (Z * Price)). clearbody m0. revert m0.
      induction l as [|x l IH]; intros m0; [done|]. cbn [fold_left].
      change (upd (observable_at r, m0) x) with (observable_at r, binsert x.1 x.2 m0). by rewrite IH.
  - unfold resolution_rows. rewrite E. cbn. unfold Resolution.void. destruct (Z.ltb_spec n 2); [lia|]. cbn. rewrite <- E. by destruct r.
Qed.

Lemma binsert_new {V} (k : string) (v : V) m : bget k m = None -> binsert k v m ≡ₚ (k, v) :: m.
Proof.
  induction m as [|[j w] m IH]; [done|]. cbn [binsert bget]. unfold keqb. destruct (kcmp k j) eqn:E; [done|intros; reflexivity|]. intros Hn. rewrite IH by done. constructor.
Qed.

Lemma all_resolutions e l : forall out m rs, Forall (resolution_good e) l -> NoDup (map res_instrument (l ++ rs)) -> bwf m ->
  m ≡ₚ map split_entry rs ->
  exists m', foldr_res resolution_step (out, m) (concat (map resolution_rows l)) = Ok (out ++ List.filter (fun r => negb (is_split r)) l, m') /\
    m' ≡ₚ map split_entry (List.filter is_split l ++ rs).
Proof.
  induction l as [|r l IH]; intros out m rs Hg Hnd Hw Hm; [exists m; by rewrite app_nil_r|].
  apply List.Forall_cons_iff in Hg as [Hr Hg]. cbn [map app] in Hnd. apply NoDup_cons in Hnd as [Hni Hnd].
  cbn [map concat]. rewrite foldr_res_app. assert (Hn : bget (res_instrument r) m = None).
  { apply bget_None_keys. intros Hin. apply Hni. unfold bkeys in Hin. rewrite (Permutation_map fst Hm), map_map in Hin. cbn in Hin.
    rewrite map_app. apply elem_of_app. right. by apply list_elem_of_In. }
  rewrite (one_resolution e r out m Hr Hw) by done. cbv beta iota. cbn [List.filter]. destruct (is_split r) eqn:Es; cbn [negb].
  - destruct (IH out (binsert (split_entry r).1 (split_entry r).2 m) (r :: rs) Hg) as (m' & E & Hm').
    + rewrite map_app. cbn [map]. rewrite map_app in Hnd, Hni. rewrite <- Permutation_middle. by constructor.
    + by apply bwf_insert.
    + rewrite (binsert_new _ _ _ Hn), Hm. reflexivity.
    + exists m'. split; [exact E|]. rewrite Hm'. by rewrite <- Permutation_middle.
  - destruct (IH (out ++ [r]) m rs Hg Hnd Hw Hm) as (m' & E & Hm'). exists m'. rewrite E, <- app_assoc. done.
Qed.

Lemma finished_splits e rs : forall out, Forall (resolution_good e) rs -> Forall (fun r => is_split r = true) rs ->
  foldr_res finish_split out (map split_entry rs) = Ok (out ++ rs).
Proof.
  induction rs as [|r rs IH]; intros out Hg Hs; [by rewrite app_nil_r|]. apply List.Forall_cons_iff in Hg as [[Hid Hr] Hg]. apply List.Forall_cons_iff in Hs as [Hsr Hs].
  cbn [map foldr_res]. unfold is_split in Hsr. unfold finish_split at 1, split_entry at 1 2 3 4, split_prices. cbn [fst snd]. destruct (payout r) as [|prices|] eqn:E; [done| |done].
  destruct Hr as (Hsp & Hl & _). destruct (indexed_gapless prices) as [Hgap Hval]; [by split; [apply (split_length _ _ _ _ Hsp)|]|].
  rewrite Hgap, Hval, Hid. cbn [negb]. rewrite Hsp. rewrite (IH _ Hg Hs). by rewrite <- app_assoc.
Qed.

Lemma resolution_rows_good e l : Forall (resolution_good e) l -> Forall (resolution_row_good e) (concat (map resolution_rows l)).
Proof.
  intros Hg. rewrite Forall_concat. apply Forall_fmap. eapply Forall_impl; [exact Hg|]. intros r [Hid Hr]. cbn. unfold resolution_rows.
  destruct (payout r) as [w|prices|n]; [by apply Forall_singleton| |by apply Forall_singleton].
  destruct Hr as (_ & _ & Hp). apply Forall_fmap, List.Forall_forall. intros [k p] Hin%in_combine_r. split; [done|]. by apply (proj1 (List.Forall_forall _ _) Hp).
Qed.
End Resolutions.

Section ResolutionTheorem.
Context `{ArrowRowsSpec}.
Import MarketStore.

(** Resolutions read back: of markets that resolve once each, however the rows are cut, the
    reader returns the resolutions written, up to their order, so the set that settlement
    looks markets up in is the same. *)
Theorem resolutions_read_back e l : Forall (resolution_good e) l -> NoDup (map res_instrument l) ->
  (exists b, TableSpec.try_new (schema.resolutions e) (resolution_columns e (concat (map resolution_rows l))) = Some b /\
             resolutions_present e b (concat (map resolution_rows l))) /\
  forall bs chunks, concat chunks = concat (map resolution_rows l) -> Forall2 (resolutions_present e) bs chunks ->
    exists out, resolutions_of bs = Ok out /\ out ≡ₚ l.
Proof.
  intros Hg Hnd. split.
  - rewrite resolution_columns_of. destruct (built (schema.resolutions e) (resolution_cells e) (concat (map resolution_rows l))) as (b & Hb & _ & _ & Hp); [done|..].
    + destruct e; apply (bool_decide_eq_true_1 (NoDup _)); vm_compute; reflexivity.
    + intros i f x Hi _. nulls_tac.
    + by exists b.
  - intros bs chunks Hc Hp. unfold resolutions_of.
    rewrite (foldr_res_batches _ resolution_step (resolutions_present e) (resolution_row_good e)) with (chunks := chunks);
      [|by intros st b xs; apply resolution_batch_step|done|rewrite Hc; by apply resolution_rows_good].
    rewrite Hc. destruct (all_resolutions e l [] [] [] Hg) as (m & -> & Hm); [by rewrite app_nil_r|apply bwf_nil|done|]. cbv beta iota. cbn [fst snd app].
    rewrite app_nil_r in Hm. apply Permutation_map_inv in Hm as (rs & -> & Hrs).
    rewrite (finished_splits e rs); [|rewrite <- Hrs..].
    + exists (List.filter (fun r => negb (is_split r)) l ++ rs). split; [done|]. rewrite <- Hrs.
      clear. induction l as [|r l IH]; [done|]. cbn. destruct (is_split r); cbn; [by rewrite <- Permutation_middle, IH|by rewrite IH].
    + apply List.Forall_forall. intros r [Hin _]%filter_In. by apply (proj1 (List.Forall_forall _ _) Hg).
    + apply List.Forall_forall. by intros r [_ Hin]%filter_In.
Qed.
End ResolutionTheorem.
