(* ===== verification/EventWitness.v ===== *)
(** * The event store at concrete inputs

    The round trips applied to small feeds over the demonstration kernels, and what modelling
    the store showed: the examples the findings name. *)
From S2P Require Export ReferenceTables RowWitness EngineDemo.
#[local] Open Scope Z_scope.

(** ** Feeds *)
Definition stamped (ts : Z) : Stamps := mkStamps (ts - 1) ts.
Definition trade_records : list EventRecord :=
  [mkEventRecord (stamped 20) "BTC" 0 (EvTrade (5 * SCALE) (SCALE / 2) (Some Buy));
   mkEventRecord (stamped 10) "ETH" 1 (EvTrade (123456789) SCALE None)].
Definition trade_payloads : list (EventRecord * (Price * Qty * option Side)) :=
  match map_res MarketStore.trade_of trade_records with Ok l => l | Err _ => [] end.

(** Discharges what a value must satisfy to be stored, by evaluation. *)
Ltac storable_tac :=
  lazymatch goal with
  | |- True => exact I
  | |- _ /\ _ => split; storable_tac
  | |- Forall _ [] => apply List.Forall_nil
  | |- Forall _ (_ :: _) => apply List.Forall_cons; storable_tac
  | |- Forall ?P ?l => let l' := eval hnf in l in change (Forall P l'); storable_tac
  | |- _ = _ => vm_compute; reflexivity
  | |- (_ <= _)%Z => vm_compute; discriminate
  | |- (_ < _)%Z => vm_compute; reflexivity
  | |- _ = _ -> False => vm_compute; discriminate
  | |- _ => hnf; storable_tac
  end.

Ltac one_batch Hp := apply Forall2_cons; split; [exact Hp|apply Forall2_nil; exact I].

Lemma feed_reads_back_witness :
  exists b, TableSpec.try_new (schema.trades EncFloat) (MarketStore.trade_columns EncFloat trade_payloads) = Some b /\
    MarketStore.read_all MarketStore.decode_trades [b] = Ok (rev trade_records).
Proof.
  destruct (feed_reads_back (A := Price * Qty * option Side) EncFloat trade_records trade_payloads) as [(b & Hb & Hp) Hread].
  - vm_compute. reflexivity.
  - storable_tac.
  - exists b. split; [exact Hb|]. destruct (Hread [b] [trade_payloads]) as [_ E]; [reflexivity|one_batch Hp|].
    refine (eq_trans E _). vm_compute. reflexivity.
Defined.

(** A snapshot of three levels, a delta, a gap, an empty snapshot. *)
Definition book_records : list EventRecord :=
  [mkEventRecord (stamped 10) "BTC" 0 (EvBookSnapshot [(2 * SCALE, SCALE); (SCALE, 3 * SCALE)] [(3 * SCALE, SCALE)]);
   mkEventRecord (stamped 11) "BTC" 0 (EvBookDelta (BookDelta.delete Buy SCALE));
   mkEventRecord (stamped 12) "BTC" 0 EvGap;
   mkEventRecord (stamped 13) "BTC" 0 (EvBookSnapshot [] [])].
Definition stored_rows : list BookRow := match MarketStore.book_rows book_records with Ok rows => rows | Err _ => [] end.

Lemma book_reads_back_witness :
  exists b, TableSpec.try_new (schema.book_deltas EncDecimal) (MarketStore.book_columns EncDecimal stored_rows) = Some b /\
    MarketStore.book_events_of [b] = Ok book_records.
Proof.
  destruct (book_reads_back EncDecimal book_records stored_rows) as [(b & Hb & Hp) Hread].
  - vm_compute. reflexivity.
  - storable_tac.
  - exists b. split; [exact Hb|]. destruct (Hread [b] [stored_rows] []) as [E _]; [one_batch Hp|vm_compute; reflexivity|].
    refine (eq_trans (E eq_refl) _). vm_compute. reflexivity.
Defined.

Definition listed : list Instrument :=
  [mkInstrument "UP" "venue" PredictionMarket ["YES"; "NO"; "MAYBE"] (SCALE / 1000) SCALE "USDC" (Some 99) None true Tick;
   mkInstrument "BTC" "venue" Perpetual ["-"] (SCALE / 10) (SCALE / 1000) "EUR" None None false (SignificantFigures 5 1)].
Lemma instruments_read_back_witness :
  exists b set, TableSpec.try_new (schema.instruments EncFloat) (MarketStore.instrument_columns EncFloat 7 (MarketStore.instrument_rows listed)) = Some b /\
    MarketStore.instruments_of [b] = Ok set /\
    InstrumentSet.get set "BTC" = Ok (mkInstrument "BTC" "venue" Perpetual ["-"] (SCALE / 10) (SCALE / 1000) "USDC" None None false (SignificantFigures 5 1)).
Proof.
  destruct (instruments_read_back EncFloat 7 listed) as [(b & Hb & Hp) Hread].
  - storable_tac.
  - apply (bool_decide_eq_true_1 (NoDup _)). vm_compute. reflexivity.
  - exists b. destruct (Hread [b] [MarketStore.instrument_rows listed]) as (set & Hset & Hget & _); [apply app_nil_r|one_batch Hp|].
    exists set. split; [exact Hb|]. split; [exact Hset|]. apply (Hget (mkInstrument "BTC" "venue" Perpetual ["-"] (SCALE / 10) (SCALE / 1000) "EUR" None None false (SignificantFigures 5 1))).
    right. by left.
Defined.

Definition run_fills : list Fill :=
  [mkFill (2 ^ 64 - 1) "BTC" 0 Buy (5 * SCALE) SCALE 1000 true 10 (Some "entry"); mkFill 1 "BTC" 0 Sell (6 * SCALE) SCALE 0 false 11 None].
Lemma fills_read_back_witness :
  exists b, RunStore.fills_batch run_fills EncFloat = Ok (Some b) /\
    RunStore.fills_of [b] = Ok run_fills /\
    (let? read := RunStore.fills_of [b] in Portfolio.replay read) = Portfolio.replay run_fills.
Proof.
  destruct (fills_read_back EncFloat run_fills) as [(b & Hb & Hp) Hread]; [storable_tac|done|].
  exists b. split; [exact Hb|]. destruct (Hread [b] [run_fills]) as [_ E]; [done|one_batch Hp|].
  apply E. apply SSorted_cons; [apply SSorted_cons; [apply SSorted_nil|apply List.Forall_nil]|storable_tac].
Defined.

Definition settled_markets : list Resolution :=
  [mkResolution "UP" (SplitPayout [SCALE / 4; 3 * (SCALE / 4)]) 50; mkResolution "DOWN" (Winner 1) 40; mkResolution "FLAT" (Void 3) 30].
Lemma resolutions_read_back_witness :
  exists b out, TableSpec.try_new (schema.resolutions EncFloat) (MarketStore.resolution_columns EncFloat (concat (map MarketStore.resolution_rows settled_markets))) = Some b /\
    MarketStore.resolutions_of [b] = Ok out /\ out ≡ₚ settled_markets.
Proof.
  destruct (resolutions_read_back EncFloat settled_markets) as [(b & Hb & Hp) Hread].
  - storable_tac.
  - apply (bool_decide_eq_true_1 (NoDup _)). vm_compute. reflexivity.
  - destruct (Hread [b] [concat (map MarketStore.resolution_rows settled_markets)]) as (out & Ho & Hperm); [apply app_nil_r|one_batch Hp|].
    by exists b, out.
Defined.

(** ** What modelling showed *)

(** A split doubles the position the engine holds.  The positions table is folded from the
    fills, and no fill records a split: the table, and settlement, see half of it. *)
Definition split_run : Result (Engine.RunResult * SignalReplay) :=
  Engine.run demo_config (demo_engine demo_config) (signals [(2, OrderRequest.market "PERP" 0 Buy (units 3))])
    (replay_of [quote 2 "PERP" 0 (units 99) (units 100) (units 100); at_time 5 "PERP" 0 (EvCorporate (Split (units 2)));
                quote 6 "PERP" 0 (units 49) (units 50) (units 100)]).
Definition quantities (pf : Portfolio) : list Qty := map p_quantity (Portfolio.positions pf).
Example positions_ignore_splits :
  match split_run with
  | Ok (result, _) =>
      quantities (e_portfolio (Engine.rr_engine result)) = [units 6] /\
      (let? pf := Portfolio.replay (e_fills (Engine.rr_engine result)) in Ok (quantities pf)) = Ok [units 3]
  | Err _ => False
  end.
Proof. vm_compute. split; reflexivity. Qed.

(** Rewriting a range sorts a batch that is sorted already.  The rows of a snapshot share their
    time, so only a stable sort leaves them alone, and the kernel's is documented as unstable:
    with the demonstration kernels, whose sort is a merge sort that reverses such rows, the
    snapshot is no longer one; with a stable kernel it is. *)
Fixpoint insert_behind (le : nat -> nat -> bool) (i : nat) (l : list nat) : list nat :=
  match l with [] => [i] | j :: l' => if le j i then j :: insert_behind le i l' else i :: l end.
Definition stable_lexsort (cols : list Column) : option (list nat) :=
  match cols with
  | [] => None
  | c :: _ => Some (fold_left (fun l i => insert_behind (demo_le cols) i l) (seq 0 (length (ar_cells c))) [])
  end.
Definition stable_rows : ArrowRows := {|
  cell_compare := cell_compare; comparable := comparable; row_converter := row_converter; convert_columns := convert_columns;
  compute_min := compute_min; compute_max := compute_max; concat_batches := concat_batches;
  lexsort_to_indices := stable_lexsort; Arrow.take := Arrow.take; Arrow.interleave := Arrow.interleave;
  filter_record_batch := filter_record_batch; get_array_memory_size := get_array_memory_size; json_f64 := json_f64;
  ipc_write := ipc_write; ipc_read := ipc_read; b64_encode := b64_encode; b64_decode := b64_decode;
  parquet_write := parquet_write; parquet_metadata := parquet_metadata; parquet_read := parquet_read;
|}.
Definition one_snapshot : list BookRow := firstn 3 stored_rows.
Definition after_rewrite (rows : ArrowRows) : Result (list EventRecord) :=
  match TableSpec.try_new (schema.book_deltas EncDecimal) (MarketStore.book_columns EncDecimal one_snapshot) with
  | Some b =>
      match @SegmentSort.sort_batches rows (schema.book_deltas EncDecimal) [b] ["ts_init"] with
      | Ok sorted => MarketStore.book_events_of [sorted]
      | Err _ => Err (Types.invalid "sort")
      end
  | None => Err (Types.invalid "try_new")
  end.
Example rewrite_may_break_a_snapshot :
  after_rewrite stable_rows = Ok (firstn 1 book_records) /\ after_rewrite demo_rows = Err (Types.invalid "snapshot event is truncated").
Proof. vm_compute. split; reflexivity. Qed.
