(* ===== verification/Wire.v ===== *)
(** * Wire formats: JSON values, numbers and instants in text

    What the venue parsers share.  JSON values are those of [serde_json], the parser itself is
    a parameter ([Serde]); [str::parse] of floats and integers is the Standard Library's, with
    a float the binary64 nearest to the decimal; [Price::from_f64] and [Qty::from_f64] of
    [types.rs].  The theorem: a decimal of at most nine places below [2^22] units becomes
    exactly the fixed-point number it spells. *)
From S2P Require Export MarketStore.
#[local] Open Scope Z_scope.

(** ** JSON *)
Inductive Number := PosInt (n : Z) | NegInt (n : Z) | NFloat (x : f64).
Inductive Value :=
| VNull
| VBool (b : bool)
| VNumber (n : Number)
| VString (s : string)
| VArray (l : list Value)
| VObject (fields : list (string * Value)).

Module Number.
Definition as_i64 (n : Number) : option Z :=
  match n with PosInt z => if z <=? i64_max then Some z else None | NegInt z => Some z | NFloat _ => None end.
Definition as_u64 (n : Number) : option Z := match n with PosInt z => Some z | _ => None end.
Definition as_f64 (n : Number) : option f64 :=
  match n with PosInt z | NegInt z => Some (f64_of_int z) | NFloat x => Some x end.
End Number.

Module Value.
Fixpoint field (name : string) (l : list (string * Value)) : option Value :=
  match l with [] => None | (k, v) :: l => if String.eqb k name then Some v else field name l end.
Definition get (v : Value) (name : string) : option Value :=
  match v with VObject fields => field name fields | _ => None end.
Definition as_str (v : Value) : option string := match v with VString s => Some s | _ => None end.
Definition as_bool (v : Value) : option bool := match v with VBool b => Some b | _ => None end.
Definition as_i64 (v : Value) : option Z := match v with VNumber n => Number.as_i64 n | _ => None end.
Definition as_u64 (v : Value) : option Z := match v with VNumber n => Number.as_u64 n | _ => None end.
Definition as_array (v : Value) : option (list Value) := match v with VArray l => Some l | _ => None end.
(** [value.get(field).and_then(...)]. *)
Definition str_field (v : Value) (name : string) : option string := get v name ≫= as_str.
Definition bool_field (v : Value) (name : string) : option bool := get v name ≫= as_bool.
Definition i64_field (v : Value) (name : string) : option Z := get v name ≫= as_i64.
Definition u64_field (v : Value) (name : string) : option Z := get v name ≫= as_u64.
Definition array_field (v : Value) (name : string) : option (list Value) := get v name ≫= as_array.
End Value.

(** [serde_json::from_str] (or the text of its error) and printing. *)
Class Serde := {
  from_str : string -> string + Value;
  to_string : Value -> string;
}.
(** The calendar of [chrono]. *)
Class Chrono := {
  (** [DateTime::parse_from_rfc3339], then [timestamp_nanos_opt]. *)
  parse_from_rfc3339 : string -> option (option Z);
  (** [NaiveDate::from_ymd_opt], [NaiveTime::from_hms_opt] and [timestamp_nanos_opt]. *)
  civil_nanos : Z -> Z -> Z -> Z -> Z -> Z -> option Z;
  (** [DateTime::from_timestamp] of seconds, or the epoch, with the format of the archive up
      to its point. *)
  format_seconds : Z -> string;
}.

(** ** Numbers in text *)
Module text.
Definition digit (c : Ascii.ascii) : option Z :=
  let n := Z.of_nat (Ascii.nat_of_ascii c) in if (48 <=? n) && (n <=? 57) then Some (n - 48) else None.
(** The digits at the front: their value added to [acc], how many, and the rest. *)
Fixpoint digits (acc count : Z) (s : string) : Z * Z * string :=
  match s with
  | EmptyString => (acc, count, s)
  | String c r => match digit c with Some d => digits (acc * 10 + d) (count + 1) r | None => (acc, count, s) end
  end.
Definition sign (s : string) : bool * string :=
  match s with
  | String "+" r => (false, r)
  | String "-" r => (true, r)
  | _ => (false, s)
  end.
Definition exponent (s : string) : option Z :=
  match s with
  | EmptyString => Some 0
  | String c r =>
      if Ascii.eqb c "e" || Ascii.eqb c "E" then
        let '(neg, r) := sign r in
        match digits 0 0 r with
        | (e, count, EmptyString) => if count =? 0 then None else Some (if neg then - e else e)
        | _ => None
        end
      else None
  end.
(** An unsigned decimal as [m * 10 ^ e]. *)
Definition decimal (s : string) : option (Z * Z) :=
  let '(whole, n, r) := digits 0 0 s in
  let '(m, f, r) := match r with String "." r => digits whole 0 r | _ => (whole, 0, r) end in
  if n + f =? 0 then None else e ← exponent r; Some (m, e - f).

Definition lower (c : Ascii.ascii) : Ascii.ascii :=
  let n := Ascii.nat_of_ascii c in if (Nat.leb 65 n && Nat.leb n 90)%bool then Ascii.ascii_of_nat (n + 32) else c.
Fixpoint to_lower (s : string) : string :=
  match s with EmptyString => "" | String c r => String (lower c) (to_lower r) end.

(** The binary64 nearest to [m * 10 ^ e], ties to even; beyond the exponents decided first the
    answer is infinity or zero. *)
Definition f64_of_decimal (neg : bool) (m e : Z) : f64 :=
  match m with
  | Zpos p =>
      if 0 <=? e then if 310 <=? e then S754_infinity neg else binary_round 53 1024 neg (Z.to_pos (m * 10 ^ e)) 0
      else if Z.log2 m + 1 + 3 * e <? -1100 then S754_zero neg
      else
        let d := 10 ^ (- e) in
        let sh := Z.max 0 (64 + Z.log2 d - Z.log2 m) in
        let n := m * 2 ^ sh in
        binary_round_aux 53 1024 neg (n / d) (- sh) (new_location d (n mod d))
  | _ => S754_zero neg
  end.
(** [str::parse::<f64>]. *)
Definition parse_f64 (s : string) : option f64 :=
  let '(neg, r) := sign s in
  let word := to_lower r in
  if String.eqb word "inf" || String.eqb word "infinity" then Some (S754_infinity neg)
  else if String.eqb word "nan" then Some S754_nan
  else '(m, e) ← decimal r; Some (f64_of_decimal neg m e).

(** [str::parse] of integers: at least one digit, in range; a minus only if the type has one. *)
Definition integer (s : string) : option Z :=
  match digits 0 0 s with (z, count, EmptyString) => if count =? 0 then None else Some z | _ => None end.
Definition parse_unsigned (hi : Z) (s : string) : option Z :=
  z ← integer (match s with String "+" r => r | _ => s end);
  if z <=? hi then Some z else None.
Definition parse_signed (lo hi : Z) (s : string) : option Z :=
  let '(neg, r) := sign s in
  z ← integer r;
  let z := if neg then - z else z in
  if (lo <=? z) && (z <=? hi) then Some z else None.
Definition parse_i64 : string -> option Z := parse_signed i64_min i64_max.
Definition parse_i32 : string -> option Z := parse_signed (- 2 ^ 31) (2 ^ 31 - 1).
Definition parse_u32 : string -> option Z := parse_unsigned (2 ^ 32 - 1).

(** [split_once], [split] and [lines]. *)
Fixpoint split_once (c : Ascii.ascii) (s : string) : option (string * string) :=
  match s with
  | EmptyString => None
  | String x r => if Ascii.eqb x c then Some ("", r) else '(a, b) ← split_once c r; Some (String x a, b)
  end.
Fixpoint split (c : Ascii.ascii) (s : string) : list string :=
  match s with
  | EmptyString => [""]
  | String x r =>
      if Ascii.eqb x c then "" :: split c r
      else match split c r with w :: ws => String x w :: ws | [] => [String x ""] end
  end.
Fixpoint contains (c : Ascii.ascii) (s : string) : bool :=
  match s with EmptyString => false | String x r => Ascii.eqb x c || contains c r end.
Definition newline : Ascii.ascii := Ascii.ascii_of_nat 10.
(** A line loses one carriage return at its end. *)
Fixpoint strip_return (s : string) : string :=
  match s with
  | EmptyString => ""
  | String x EmptyString => if (Ascii.nat_of_ascii x =? 13)%nat then "" else s
  | String x r => String x (strip_return r)
  end.
Definition lines (s : string) : list string :=
  let pieces := split newline s in
  map strip_return (match last pieces with Some "" => removelast pieces | _ => pieces end).
End text.

(** ** Fixed-point numbers from floats *)

(** [Raw::MAX as f64]: [2 ^ 63]. *)
Definition RAW_MAX_F64 : f64 := f64_of_int i64_max.
Definition saturate64 (z : Z) : Z := Z.max i64_min (Z.min i64_max z).
Definition from_f64 (name : string) (value : f64) : Result Raw :=
  if negb (is_finite value) then Err (NotFinite name)
  else
    let scaled := fmul value (f64_of_int SCALE) in
    if SFleb RAW_MAX_F64 (SFabs scaled) then Err (Overflow (name +:+ "::from_f64"))
    else Ok (saturate64 (round_as_i128 scaled)).
Definition to_f64 (raw : Raw) : f64 := fdiv (f64_of_int raw) (f64_of_int SCALE).
Abbreviation price_from_f64 := (from_f64 "Price").
Abbreviation qty_from_f64 := (from_f64 "Qty").

(** [OutcomeId::FIRST]. *)
Definition FIRST : OutcomeId := 0.

(** ** Decimals below [2^22] units are exact *)
Lemma digits_nonneg s acc count : 0 <= acc -> 0 <= (text.digits acc count s).1.1.
Proof.
  revert acc count. induction s as [|c s IH]; intros acc count Ha; [done|]. cbn.
  destruct (text.digit c) as [d|] eqn:E; [|done]. apply IH. unfold text.digit in E.
  destruct ((48 <=? _) && _) eqn:Eb; [|done]. injection E as <-. apply andb_true_iff in Eb as [?%Z.leb_le _]. lia.
Qed.
Lemma decimal_nonneg s m e : text.decimal s = Some (m, e) -> 0 <= m.
Proof.
  unfold text.decimal. pose proof (digits_nonneg s 0 0 ltac:(lia)) as Hw. destruct (text.digits 0 0 s) as [[whole n] r]. cbn in Hw.
  assert (Hf : 0 <= (match r with String "." r => text.digits whole 0 r | _ => (whole, 0, r) end).1.1).
  { destruct r as [|[[] [] [] [] [] [] [] []] r]; try done. by apply digits_nonneg. }
  destruct (match r with String "." r => _ | _ => _ end) as [[m' f] r']. cbn in Hf.
  destruct (n + f =? 0); [done|]. destruct (text.exponent r'); [|done]. cbn. by intros [= <- _].
Qed.

Lemma below_max s m e : e <= 0 -> SFleb RAW_MAX_F64 (SFabs (S754_finite s m e)) = false.
Proof.
  intros He. replace RAW_MAX_F64 with (S754_finite false 4503599627370496 11) by reflexivity. unfold SFleb, SFcompare, SFabs.
  destruct (Z.compare_spec 11 e); [lia|lia|done].
Qed.

(** From a float whose scaled value rounds to [raw]. *)
Lemma from_f64_scaled name neg x m e raw : is_finite x = true -> 0 < raw < 2 ^ 22 * SCALE ->
  fmul x (f64_of_int SCALE) = S754_finite neg m e -> e <= 0 -> round_magnitude m e = raw ->
  from_f64 name x = Ok (if neg then - raw else raw).
Proof.
  intros Hx Hr Hm He Hround. unfold from_f64. rewrite Hx, Hm, below_max by done. cbn [negb round_as_i128]. rewrite Hround.
  unfold SCALE in Hr. f_equal. unfold saturate64, saturate128, i64_min, i64_max. destruct neg; lia.
Qed.

(** The quotient of a number by a power of ten, rounded. *)
Lemma ratio_rounded neg p d sh : 0 < d -> Z.even d = true -> 0 <= sh <= 1000 ->
  2 ^ 62 <= Z.pos p * 2 ^ sh / d < 2 ^ 70 ->
  let q := Z.pos p * 2 ^ sh / d in
  rounded (Z.pos p * 2 ^ sh) d (- sh) (Z.log2 q - 52) neg
    (binary_round_aux 53 1024 neg q (- sh) (new_location d ((Z.pos p * 2 ^ sh) mod d))).
Proof.
  intros Hd He Hsh Hq q. fold q in Hq. assert (Z.log2 q < 70) by (apply Z.log2_lt_pow2; lia).
  apply binary_round_aux_spec; [|lia|lia|lia]. apply located_division; [|done|done]. apply Z.mul_nonneg_nonneg; lia.
Qed.

Lemma ten_even k : 1 <= k -> Z.even (10 ^ k) = true.
Proof. intros Hk. replace k with (Z.succ (k - 1)) by lia. by rewrite Z.pow_succ_r, Z.even_mul by lia. Qed.

Lemma decimal_back neg p k : 1 <= k <= 9 -> Z.pos p * 10 ^ (9 - k) < 2 ^ 22 * SCALE ->
  exists x m e, text.f64_of_decimal neg (Z.pos p) (- k) = x /\ is_finite x = true /\
    fmul x (f64_of_int SCALE) = S754_finite neg m e /\ e <= 0 /\ round_magnitude m e = Z.pos p * 10 ^ (9 - k).
Proof.
  intros Hk Hp. set (d := 10 ^ k). set (raw := Z.pos p * 10 ^ (9 - k)) in *.
  assert (Hd : 10 <= d <= 10 ^ 9) by (unfold d; split; [change 10 with (10 ^ 1) at 1|]; apply Z.pow_le_mono_r; lia).
  assert (HS : 10 ^ (9 - k) * d = SCALE) by (unfold d; rewrite <- Z.pow_add_r by lia; by replace (9 - k + k) with 9 by lia).
  assert (Hpd : Z.pos p < 2 ^ 22 * d).
  { apply (Z.mul_lt_mono_pos_r (10 ^ (9 - k))); [apply Z.pow_pos_nonneg; lia|]. fold raw. rewrite <- Z.mul_assoc, (Z.mul_comm d), HS. done. }
  assert (Hld : 3 <= Z.log2 d <= 29) by (split; [apply (Z.log2_le_mono 10)|apply (Z.log2_le_mono d (10 ^ 9))]; lia).
  destruct (Z.log2_spec d ltac:(lia)) as [Hd1 Hd2]. destruct (Z.log2_spec (Z.pos p) ltac:(lia)) as [Hp1 Hp2].
  assert (Hlp : 0 <= Z.log2 (Z.pos p) <= 22 + Z.log2 d).
  { split; [apply Z.log2_nonneg|]. apply Z.lt_succ_r, Z.log2_lt_pow2; [lia|]. replace (Z.succ (22 + Z.log2 d)) with (22 + Z.succ (Z.log2 d)) by lia.
    rewrite Z.pow_add_r by lia. nia. }
  unfold text.f64_of_decimal. destruct (Z.leb_spec 0 (- k)); [lia|]. destruct (Z.ltb_spec (Z.log2 (Z.pos p) + 1 + 3 * - k) (-1100)); [lia|].
  rewrite Z.opp_involutive. fold d. set (sh := Z.max 0 _). assert (Esh : sh = 64 + Z.log2 d - Z.log2 (Z.pos p)) by lia.
  set (q := Z.pos p * 2 ^ sh / d).
  assert (Hq : 2 ^ 62 <= q < 2 ^ 66).
  { assert (E : 2 ^ Z.log2 (Z.pos p) * 2 ^ sh = 2 ^ 64 * 2 ^ Z.log2 d) by (rewrite <- !Z.pow_add_r by lia; f_equal; lia).
    assert (0 < 2 ^ sh) by (apply Z.pow_pos_nonneg; lia). rewrite Z.pow_succ_r in Hd2, Hp2 by lia.
    unfold q. split; [apply Z.div_le_lower_bound; [lia|]|apply Z.div_lt_upper_bound; [lia|]].
    - transitivity (2 ^ Z.log2 (Z.pos p) * 2 ^ sh); [rewrite E|apply Z.mul_le_mono_nonneg_r; lia]. change (2 ^ 64) with (4 * 2 ^ 62). lia.
    - apply Z.lt_le_trans with (2 * 2 ^ Z.log2 (Z.pos p) * 2 ^ sh); [apply Z.mul_lt_mono_pos_r; lia|]. rewrite <- Z.mul_assoc, E. lia. }
  pose proof (ratio_rounded neg p d sh ltac:(lia) (ten_even k ltac:(lia)) ltac:(lia) ltac:(fold q; lia)) as Hr. cbv zeta in Hr. fold q in Hr.
  destruct Hr as (M & m1 & j & Ex & Hj & HM & Hj1 & HMb & Herr).
  destruct (scaled_back neg (Z.pos p * 2 ^ sh) d raw sh (Z.log2 q - 52) M m1 j) as (m & e & Em & He & Hround); try (done || lia).
  - assert (62 <= Z.log2 q) by (apply Z.log2_le_pow2; lia).
    assert (Hql : Z.log2 q < sh + 22); [|assert (Z.log2 q < 66) by (apply Z.log2_lt_pow2; lia); lia].
    apply Z.log2_lt_pow2; [lia|]. unfold q. apply Z.div_lt_upper_bound; [lia|]. rewrite Z.pow_add_r by lia.
    rewrite Z.mul_assoc, (Z.mul_comm d), <- Z.mul_assoc, (Z.mul_comm d), (Z.mul_comm (2 ^ sh)). apply Z.mul_lt_mono_pos_r; [apply Z.pow_pos_nonneg; lia|lia].
  - assert (62 <= Z.log2 q) by (apply Z.log2_le_pow2; lia). lia.
  - exists (S754_finite neg m1 (- sh + (Z.log2 q - 52) + j)), m, e. split; [exact Ex|]. done.
Qed.

Lemma integer_back neg p : Z.pos p * 10 ^ (9 - 0) < 2 ^ 22 * SCALE ->
  exists x m e, text.f64_of_decimal neg (Z.pos p) (- 0) = x /\ is_finite x = true /\
    fmul x (f64_of_int SCALE) = S754_finite neg m e /\ e <= 0 /\ round_magnitude m e = Z.pos p * 10 ^ (9 - 0).
Proof.
  intros Hp. assert (Hp22 : Z.pos p < 2 ^ 22) by (unfold SCALE in Hp; lia). set (L := Z.log2 (Z.pos p)).
  assert (HL : 0 <= L < 22) by (split; [apply Z.log2_nonneg|apply Z.log2_lt_pow2; lia]).
  destruct (f64_of_pos p) as (m1 & E1 & E2 & Em1); [fold L; lia|]. fold L in E1, E2, Em1.
  assert (Ex : text.f64_of_decimal neg (Z.pos p) (- 0) = S754_finite neg m1 (L - 52)).
  { cbn [text.f64_of_decimal]. change (0 <=? - 0) with true. change (310 <=? - 0) with false. cbn iota.
    change (10 ^ - 0) with 1. rewrite Z.mul_1_r. unfold f64_of_int, binary_normalize in E1, E2. by destruct neg. }
  destruct (Z.log2_spec (Z.pos p) ltac:(lia)) as [Hp1 Hp2]. fold L in Hp1, Hp2. rewrite Z.pow_succ_r in Hp2 by lia.
  assert (HP : 2 ^ L * 2 ^ (52 - L) = 2 ^ 52) by (rewrite <- Z.pow_add_r by lia; f_equal; lia).
  assert (H52 : 0 < 2 ^ (52 - L)) by (apply Z.pow_pos_nonneg; lia).
  destruct (scaled_back neg (Z.pos m1) 1 (Z.pos p * SCALE) (52 - L) 0 (Z.pos m1) m1 0) as (m & e & Em & He & Ho); try (done || lia).
  - nia.
  - rewrite Em1. nia.
  - exists (S754_finite neg m1 (L - 52)), m, e. split; [exact Ex|]. split; [done|]. split; [|done]. rewrite <- Em. do 2 f_equal. lia.
Qed.

(** A decimal is none of the words. *)
Lemma decimal_not_word r m e : text.decimal r = Some (m, e) ->
  String.eqb (text.to_lower r) "inf" = false /\ String.eqb (text.to_lower r) "infinity" = false /\ String.eqb (text.to_lower r) "nan" = false.
Proof.
  intros Hr. assert (Hc : forall c s, r = String c s -> text.lower c <> "i"%char /\ text.lower c <> "n"%char).
  { intros c s ->. split; intros E; (assert (Hd : text.digit c = None /\ Ascii.eqb c "." = false);
      [|destruct Hd as [Hd Hp]; unfold text.decimal in Hr; cbn in Hr; rewrite Hd in Hr; by destruct c as [[] [] [] [] [] [] [] []]]);
      destruct c as [[] [] [] [] [] [] [] []]; (done || (vm_compute in E; discriminate)). }
  destruct r as [|c s]; [done|]. destruct (Hc c s eq_refl) as [Hi Hn]. cbn [text.to_lower].
  repeat split; apply String.eqb_neq; intros [= E _]; tauto.
Qed.

(** A price or size in text of at most nine decimal places, below [2^22] units, becomes
    exactly the fixed-point number it spells, although the code takes it through a float. *)
Theorem decimals_are_exact name t neg r m k : text.sign t = (neg, r) -> text.decimal r = Some (m, - k) -> 0 <= k <= 9 ->
  m * 10 ^ (9 - k) < 2 ^ 22 * SCALE ->
  exists x, text.parse_f64 t = Some x /\ from_f64 name x = Ok (if neg then - (m * 10 ^ (9 - k)) else m * 10 ^ (9 - k)).
Proof.
  intros Ht Hr Hk Hm. pose proof (decimal_nonneg _ _ _ Hr) as Hm0. exists (text.f64_of_decimal neg m (- k)). split.
  { unfold text.parse_f64. rewrite Ht, Hr. pose proof (decimal_not_word r m (- k) Hr) as (-> & -> & ->). done. }
  destruct m as [|p|p]; [by destruct neg, k|..|lia].
  assert (Hpos : 0 < 10 ^ (9 - k)) by (apply Z.pow_pos_nonneg; lia).
  assert (exists x m e, text.f64_of_decimal neg (Z.pos p) (- k) = x /\ is_finite x = true /\
    fmul x (f64_of_int SCALE) = S754_finite neg m e /\ e <= 0 /\ round_magnitude m e = Z.pos p * 10 ^ (9 - k)) as (x & m & e & -> & Hx & Em & He & Ho).
  { assert (k = 0 \/ 1 <= k <= 9) as [->|] by lia; [by apply integer_back|by apply decimal_back]. }
  apply (from_f64_scaled name neg x m e); (done || lia).
Qed.
(** Just past [2^22] units a decimal is already one unit off. *)
Example large_decimal_loses_a_unit :
  text.parse_f64 "4194304.000000007" ≫= (fun x => ok (price_from_f64 x)) = Some (4194304 * SCALE + 8).
Proof. vm_compute. reflexivity. Qed.

Lemma decimals_are_exact_witness :
  exists x, text.parse_f64 "-0.070000001" = Some x /\ price_from_f64 x = Ok (-70000001).
Proof. apply (decimals_are_exact "Price" "-0.070000001" true "0.070000001" 70000001 9); vm_compute; try done; split; done. Defined.
