(* ===== verification/Kalshi.v ===== *)
(** * Kalshi payloads ([kalshi.rs])

    Market definitions, order books, trades and candlesticks, each a pure function of a JSON
    payload, and the stateful decoder of the order-book stream: sequence numbers tell resends,
    losses and restarts apart, and a discarded delta is announced by one [Gap] per episode.
    [decode] returns the decoder also when it fails, as the code mutates it in place. *)
From S2P Require Export Wire.
#[local] Open Scope Z_scope.

Record MarketDefinition := mkMarketDefinition { md_instrument : Instrument; md_resolution : option Resolution }.

(** How a message's sequence number relates to the last one accepted. *)
Inductive Step := InOrder | Skipped | StepStale | Restarted.
#[export] Instance Step_eq_dec : EqDecision Step.
Proof. solve_decision. Defined.
Definition RESEND_WINDOW : Z := 64.
Definition RESEND_RUN : Z := 8.
Module Step.
Definition of_seq (last_seq : option Z) (seq stale_run : Z) : Step :=
  match last_seq with
  | None => InOrder
  | Some previous =>
      if seq =? sat64 (previous + 1) then InOrder
      else if seq <=? previous then
        if (RESEND_WINDOW <? sat64 (previous - seq)) || (RESEND_RUN <=? stale_run) then Restarted else StepStale
      else Skipped
  end.
End Step.

Record OrderbookDecoder := mkOrderbookDecoder {
  od_ticker : InstrumentId;
  last_seq : option Z;
  desynced : bool;
  stale_run : Z;
  gap_reported : bool;
  yes : BTree Z Z;
  no : BTree Z Z;
}.
#[export] Instance eta_OrderbookDecoder : Eta OrderbookDecoder := fun d =>
  mkOrderbookDecoder (od_ticker d) (last_seq d) (desynced d) (stale_run d) (gap_reported d) (yes d) (no d).

Module Kalshi.
Section Kalshi.
Context `{Serde} `{Chrono}.

(** ** Fields *)
Definition parse_json (body what : string) : Result Value :=
  match from_str body with inr v => Ok v | inl error => Err (Parse what error) end.
Definition required_str (v : Value) (field : string) : Result string :=
  ok_or (Value.str_field v field) (Parse field "missing or not a string").
Definition parse_text (t field : string) : Result f64 := ok_or (text.parse_f64 t) (Parse field t).
Definition optional_decimal (v : Value) (field : string) : Result (option f64) :=
  match Value.get v field with
  | None | Some VNull => Ok None
  | Some (VString t) => let? x := parse_text t field in Ok (Some x)
  | Some (VNumber n) => let? x := ok_or (Number.as_f64 n) (NotFinite field) in Ok (Some x)
  | Some other => Err (Parse field (to_string other))
  end.
Definition decimal (v : Value) (field : string) : Result f64 :=
  let? x := optional_decimal v field in ok_or x (Parse field "missing").
Definition parse_time (value field : string) : Result UnixNanos :=
  let? parsed := ok_or (parse_from_rfc3339 value) (Parse field value) in
  ok_or parsed (Parse field "timestamp is outside nanosecond range").
Definition optional_time (v : Value) (field : string) : Result (option UnixNanos) :=
  match Value.str_field v field with
  | Some t => let? at_ := parse_time t field in Ok (Some at_)
  | None => Ok None
  end.

(** ** Market definitions *)
Definition one_step (tick : option Price) (range : Value) : Result (option Price) :=
  let? x := decimal range "step" in
  let? step := price_from_f64 x in
  match tick with
  | Some previous => if negb (previous =? step) then Err (invalid "Kalshi market has a variable tick schedule") else Ok (Some step)
  | None => Ok (Some step)
  end.
Definition uniform_tick (market : Value) : Result Price :=
  let? tick := foldr_res one_step None (default [] (Value.array_field market "price_ranges")) in
  match tick with
  | Some tick => Ok tick
  | None =>
      let structure := default "linear_cent" (Value.str_field market "price_level_structure") in
      if String.eqb structure "linear_cent" then price_from_f64 (text.f64_of_decimal false 1 (-2))
      else if String.eqb structure "deci_cent" then price_from_f64 (text.f64_of_decimal false 1 (-3))
      else if String.eqb structure "tapered_deci_cent" then Err (invalid "Kalshi tapered_deci_cent requires a variable tick schedule")
      else Err (invalid "unknown Kalshi price_level_structure")
  end.
Definition market_result (market : Value) : Result (option OutcomeId) :=
  match Value.str_field market "result" with
  | None => Ok None
  | Some r =>
      if String.eqb r "yes" then Ok (Some 0)
      else if String.eqb r "no" then Ok (Some 1)
      else if String.eqb r "scalar" then Err (invalid "scalar Kalshi settlement is not a binary resolution")
      else if String.eqb r "" then Ok None
      else Err (invalid "unknown Kalshi market result")
  end.
Definition parse_market (body : string) : Result MarketDefinition :=
  let? root := parse_json body "Kalshi market" in
  let market := default root (Value.get root "market") in
  if negb (String.eqb (default "binary" (Value.str_field market "market_type")) "binary") then
    Err (invalid "only binary Kalshi markets are currently replayable")
  else
    let? ticker := required_str market "ticker" in
    let? tick := uniform_tick market in
    let? lot := if default false (Value.bool_field market "fractional_trading_enabled")
                then qty_from_f64 (text.f64_of_decimal false 1 (-2)) else qty_from_f64 (f64_of_int 1) in
    let? i := Instrument.binary ticker "kalshi" in
    let? usd := Currency.new "USD" in
    let i := Instrument.with_settlement_currency (Instrument.with_lot_size (Instrument.with_tick_size i tick) lot) usd in
    let? expiration := optional_time market "expiration_time" in
    let i := match expiration with Some at_ => Instrument.with_expiration i at_ | None => i end in
    let? settlement_at := optional_time market "settlement_ts" in
    let i := match settlement_at with Some at_ => Instrument.with_settlement_observable i at_ | None => i end in
    let? winner := market_result market in
    Ok (mkMarketDefinition i (match winner, settlement_at with
                              | Some w, Some at_ => Some (Resolution.new (inst_id i) w at_)
                              | _, _ => None end)).

(** ** Books *)
Definition decimal_pair (v : Value) (what : string) : Result f64 :=
  match v with
  | VString t => parse_text t what
  | VNumber n => ok_or (Number.as_f64 n) (NotFinite what)
  | other => Err (Parse what (to_string other))
  end.
Definition parse_level (what : string) (row : Value) : Result (Price * Qty) :=
  match row with
  | VArray [p; q] =>
      let? x := decimal_pair p what in let? price := price_from_f64 x in
      let? y := decimal_pair q what in let? size := qty_from_f64 y in Ok (price, size)
  | _ => Err (Parse what (to_string row))
  end.
Definition parse_levels (v : option Value) (what : string) : Result (list (Price * Qty)) :=
  match v ≫= Value.as_array with
  | None => Ok []
  | Some rows => map_res (parse_level what) rows
  end.
(** Bids best first are the [yes] levels, asks the complements of the [no] levels. *)
Definition normalized_book (yes no : list (Price * Qty)) : Result (list (Price * Qty) * list (Price * Qty)) :=
  let? asks := map_res (fun l => let? p := complement l.1 in Ok (p, l.2)) no in
  Ok (sort_by_key (fun l => - l.1) yes, sort_by_key fst asks).
Definition parse_orderbook (body ticker : string) (received_at : UnixNanos) : Result EventRecord :=
  let? root := parse_json body "Kalshi orderbook" in
  let? book := ok_or (Value.get root "orderbook_fp") (Parse "orderbook_fp" "missing") in
  let? yes := parse_levels (Value.get book "yes_dollars") "yes_dollars" in
  let? no := parse_levels (Value.get book "no_dollars") "no_dollars" in
  let? '(bids, asks) := normalized_book yes no in
  let? id := InstrumentId.new ticker in
  Ok (EventRecord.new (Stamps.immediate received_at) id FIRST (EvBookSnapshot bids asks)).

Definition raw_levels (levels : list (Price * Qty)) : BTree Z Z := fold_left (fun m l => binsert l.1 l.2 m) levels [].
Definition message_time (msg : Value) : Result UnixNanos :=
  match Value.i64_field msg "ts_ms", Value.i64_field msg "ts" with
  | Some ms, _ => Ok (sat64 (ms * 1000000))
  | None, Some seconds => Ok (sat64 (seconds * 1000000000))
  | None, None => Err (Parse "ts_ms" "missing Kalshi event timestamp")
  end.

(** ** Trades and candlesticks *)
Definition trade_record (trade : Value) : Result EventRecord :=
  let? ticker := required_str trade "ticker" in
  let? created := required_str trade "created_time" in
  let? at_ := parse_time created "created_time" in
  let? p := decimal trade "yes_price_dollars" in
  let? price := price_from_f64 p in
  let? q := decimal trade "count_fp" in
  let? size := qty_from_f64 q in
  let taker := match Value.get trade "taker_outcome_side" with Some v => Some v | None => Value.get trade "taker_side" end in
  let? aggressor := match taker ≫= Value.as_str with
    | None => Ok None
    | Some t => if String.eqb t "yes" then Ok (Some Buy) else if String.eqb t "no" then Ok (Some Sell)
                else Err (invalid "unknown Kalshi taker side")
    end in
  let? id := InstrumentId.new ticker in
  Ok (EventRecord.new (Stamps.immediate at_) id FIRST (EvTrade price size aggressor)).
Definition by_ts (records : list EventRecord) : list EventRecord := sort_by_key EventRecord.ts records.
Definition parse_trades (body : string) : Result (list EventRecord) :=
  let? root := parse_json body "Kalshi trades" in
  let? rows := ok_or (Value.array_field root "trades") (Parse "trades" "missing or not an array") in
  let? records := map_res trade_record rows in
  Ok (by_ts records).

(** The prices of a candle, if none is null. *)
Definition candle_prices (price : Value) : Result (option (f64 * f64 * f64 * f64)) :=
  let? open := optional_decimal price "open_dollars" in
  match open with
  | None => Ok None
  | Some open =>
      let? high := optional_decimal price "high_dollars" in
      match high with
      | None => Ok None
      | Some high =>
          let? low := optional_decimal price "low_dollars" in
          match low with
          | None => Ok None
          | Some low =>
              let? close := optional_decimal price "close_dollars" in
              Ok (match close with Some close => Some (open, high, low, close) | None => None end)
          end
      end
  end.
Definition candle_record (instrument : InstrumentId) (width : Z) (candle : Value) : Result (option EventRecord) :=
  let? price := ok_or (Value.get candle "price") (Parse "price" "missing") in
  let? prices := candle_prices price in
  match prices with
  | None => Ok None
  | Some (o, h, l, c) =>
      let? end_seconds := ok_or (Value.i64_field candle "end_period_ts") (Parse "end_period_ts" "missing or not an integer") in
      let end_ := sat64 (end_seconds * 1000000000) in
      let? volume := optional_decimal candle "volume_fp" in
      let? stamps := Stamps.new (sat64 (end_ - width)) end_ in
      let? open := price_from_f64 o in
      let? high := price_from_f64 h in
      let? low := price_from_f64 l in
      let? close := price_from_f64 c in
      let? v := qty_from_f64 (default (S754_zero false) volume) in
      Ok (Some (EventRecord.new stamps instrument FIRST (EvBar open high low close v)))
  end.
Definition parse_candlesticks (body ticker : string) (period_minutes : Z) : Result (list EventRecord) :=
  if negb ((period_minutes =? 1) || (period_minutes =? 60) || (period_minutes =? 1440)) then
    Err (invalid "Kalshi candlestick period must be 1, 60, or 1440 minutes")
  else
    let? root := parse_json body "Kalshi candlesticks" in
    let? rows := ok_or (Value.array_field root "candlesticks") (Parse "candlesticks" "missing or not an array") in
    let? instrument := InstrumentId.new ticker in
    let width := sat64 (sat64 (period_minutes * 60) * 1000000000) in
    let? records := map_res (candle_record instrument width) rows in
    Ok (by_ts (omap id records)).
End Kalshi.
End Kalshi.

(** ** The decoder of the order-book stream *)
Module OrderbookDecoder.
Section OrderbookDecoder.
Context `{Serde} `{Chrono}.
Import Kalshi.
Implicit Types d : OrderbookDecoder.

Definition new (ticker : string) : Result OrderbookDecoder :=
  let? id := InstrumentId.new ticker in Ok (mkOrderbookDecoder id None true 0 false [] []).
Definition is_synced d : bool := negb (desynced d).

Definition gap d (at_ : UnixNanos) : EventRecord := EventRecord.new (Stamps.immediate at_) (od_ticker d) FIRST EvGap.
(** Mark the book unreconstructable and report it, once per episode. *)
Definition desync d (at_ : UnixNanos) : OrderbookDecoder * list EventRecord :=
  let d := d <| desynced := true |> in
  if gap_reported d then (d, []) else (d <| gap_reported := true |>, [gap d at_]).

(** The envelope of a message: its kind, sequence number and body. *)
Definition envelope d (body : string) : Result (string * Z * Value) :=
  let? root := parse_json body "Kalshi WebSocket orderbook" in
  let? kind := required_str root "type" in
  let? seq := ok_or (Value.i64_field root "seq") (Parse "seq" "missing or not an integer") in
  let? msg := ok_or (Value.get root "msg") (Parse "msg" "missing") in
  let? ticker := required_str msg "market_ticker" in
  if negb (String.eqb ticker (od_ticker d)) then Err (invalid "Kalshi decoder received another ticker")
  else Ok (kind, seq, msg).

(** The levels of a snapshot and the book they make. *)
Definition snapshot_of (msg : Value) : Result (BTree Z Z * BTree Z Z * (list (Price * Qty) * list (Price * Qty))) :=
  let? y := parse_levels (Value.get msg "yes_dollars_fp") "yes_dollars_fp" in
  let? n := parse_levels (Value.get msg "no_dollars_fp") "no_dollars_fp" in
  let? book := normalized_book y n in Ok (raw_levels y, raw_levels n, book).
Definition on_snapshot d (step : Step) (seq : Z) (msg : Value) (received_at : UnixNanos) :
    OrderbookDecoder * Result (list EventRecord) :=
  match snapshot_of msg with
  | Err e => (d, Err e)
  | Ok (raw_yes, raw_no, (bids, asks)) =>
      let d := mkOrderbookDecoder (od_ticker d) (Some seq) false 0 false raw_yes raw_no in
      let snapshot := EventRecord.new (Stamps.immediate received_at) (od_ticker d) FIRST (EvBookSnapshot bids asks) in
      (d, Ok (if bool_decide (step = InOrder) then [snapshot] else [gap d received_at; snapshot]))
  end.

(** A delta's fields: when, on which side in both readings, the price in both, the change. *)
Definition change_of (msg : Value) : Result (UnixNanos * (bool * Side) * (Price * Price) * Z) :=
  let? event_at := message_time msg in
  let? side := required_str msg "side" in
  let? p := decimal msg "price_dollars" in
  let? price := price_from_f64 p in
  let? q := decimal msg "delta_fp" in
  let? change := qty_from_f64 q in
  if String.eqb side "yes" then Ok (event_at, (true, Buy), (price, price), change)
  else if String.eqb side "no" then let? c := complement price in Ok (event_at, (false, Sell), (price, c), change)
  else Err (invalid "unknown Kalshi orderbook side").
Definition levels d (yes_side : bool) : BTree Z Z := if yes_side then yes d else no d.
Definition set_levels d (yes_side : bool) (l : BTree Z Z) : OrderbookDecoder :=
  if yes_side then d <| yes := l |> else d <| no := l |>.
(** An in-order delta on a synced book. *)
Definition apply_change d (msg : Value) (received_at : UnixNanos) : OrderbookDecoder * Result (list EventRecord) :=
  match change_of msg with
  | Err e => (d, Err e)
  | Ok (event_at, (yes_side, canonical_side), (price, canonical_price), change) =>
      let updated := add64 (default 0 (bget price (levels d yes_side))) change in
      if updated <? 0 then let '(d, out) := desync d received_at in (d, Ok out)
      else
        let '(d, delta) :=
          if updated =? 0 then (set_levels d yes_side (bremove price (levels d yes_side)), BookDelta.delete canonical_side canonical_price)
          else (set_levels d yes_side (binsert price updated (levels d yes_side)), BookDelta.set canonical_side canonical_price updated) in
        (d, let? stamps := Stamps.new (Z.min event_at received_at) received_at in
            Ok [EventRecord.new stamps (od_ticker d) FIRST (EvBookDelta delta)])
  end.
Definition on_delta d (step : Step) (seq : Z) (msg : Value) (received_at : UnixNanos) :
    OrderbookDecoder * Result (list EventRecord) :=
  match step with
  | StepStale => (d <| stale_run := Z.min (2 ^ 32 - 1) (stale_run d + 1) |>, Ok [])
  | Skipped | Restarted =>
      let '(d, out) := desync (d <| stale_run := 0 |> <| last_seq := Some seq |>) received_at in (d, Ok out)
  | InOrder =>
      let d := d <| stale_run := 0 |> <| last_seq := Some seq |> in
      if desynced d then let '(d, out) := desync d received_at in (d, Ok out)
      else apply_change d msg received_at
  end.
Definition decode d (body : string) (received_at : UnixNanos) : OrderbookDecoder * Result (list EventRecord) :=
  match envelope d body with
  | Err e => (d, Err e)
  | Ok (kind, seq, msg) =>
      let step := Step.of_seq (last_seq d) seq (stale_run d) in
      if String.eqb kind "orderbook_snapshot" then on_snapshot d step seq msg received_at
      else if String.eqb kind "orderbook_delta" then on_delta d step seq msg received_at
      else (d, Err (invalid "expected Kalshi orderbook message"))
  end.
End OrderbookDecoder.
End OrderbookDecoder.
