(* ===== verification/Polymarket.v ===== *)
(** * Polymarket payloads ([polymarket.rs])

    Books, level changes, trades, market definitions and resolutions, and the narrow reader of
    instants.  A market is one instrument whose outcomes are its tokens in order; what gives
    the answer away is read by [resolution_from_market] alone. *)
From S2P Require Export Wire.
#[local] Open Scope Z_scope.

Definition MS : Z := 1000000.

Record TokenMap := mkTokenMap { tm_instrument : InstrumentId; tm_tokens : list string }.
Module TokenMap.
(** [Vec::dedup]. *)
Fixpoint dedup (l : list string) : list string :=
  match l with
  | a :: (b :: _) as l' => if String.eqb a b then dedup l' else a :: dedup l'
  | _ => l
  end.
Definition new (instrument : string) (tokens : list string) : Result TokenMap :=
  if (length tokens <? 2)%nat then Err (invalid "a Polymarket market has at least two outcome tokens")
  else if negb (length (dedup (sort_by_key id tokens)) =? length tokens)%nat then Err (invalid "duplicate outcome token")
  else let? i := InstrumentId.new instrument in Ok (mkTokenMap i tokens).
Fixpoint position (asset_id : string) (l : list string) : option nat :=
  match l with [] => None | t :: l => if String.eqb t asset_id then Some O else S <$> position asset_id l end.
Definition outcome (m : TokenMap) (asset_id : string) : Result OutcomeId :=
  let? index := ok_or (position asset_id (tm_tokens m)) (Parse "polymarket asset_id" asset_id) in
  Ok (Z.of_nat index mod 2 ^ 16).
End TokenMap.

(** ** Instants *)
Module instant.
Fixpoint digits_from (s : string) (index count : nat) (value : Z) : option Z :=
  match count with
  | O => Some value
  | S count => c ← String.get index s; d ← text.digit c; digits_from s (S index) count (value * 10 + d)
  end.
(** [count] digits starting at [start]. *)
Definition digits (s : string) (start count : nat) : option Z := digits_from s start count 0.
Definition days_from_civil (year month day : Z) : Z :=
  let year := if month <=? 2 then year - 1 else year in
  let era := Z.quot (if 0 <=? year then year else year - 399) 400 in
  let yoe := year - era * 400 in
  let mp := Z.rem (month + 9) 12 in
  let doy := Z.quot (153 * mp + 2) 5 + day - 1 in
  let doe := yoe * 365 + Z.quot yoe 4 - Z.quot yoe 100 + doy in
  era * 146097 + doe - 719468.
Definition byte_is (s : string) (i : nat) (c : Ascii.ascii) : bool :=
  match String.get i s with Some x => Ascii.eqb x c | None => false end.
Definition parse_iso8601_ns (s : string) : option Z :=
  let n := String.length s in
  if (n <? 20)%nat || negb (byte_is s 10 "T") || negb (byte_is s (n - 1) "Z") then None
  else if negb (byte_is s 4 "-") || negb (byte_is s 7 "-") || negb (byte_is s 13 ":") || negb (byte_is s 16 ":") then None
  else
    year ← digits s 0 4; month ← digits s 5 2; day ← digits s 8 2;
    hour ← digits s 11 2; minute ← digits s 14 2; second ← digits s 17 2;
    if negb ((1 <=? month) && (month <=? 12)) || negb ((1 <=? day) && (day <=? 31)) then None
    else if (23 <? hour) || (59 <? minute) || (60 <? second) then None
    else
      seconds ← checked64 (days_from_civil year month day * 86400);
      total ← checked64 (seconds + (hour * 3600 + minute * 60 + second));
      checked64 (total * 1000000000).
End instant.

Module Polymarket.
Section Polymarket.
Context `{Serde}.

(** ** Fields *)
Definition parse_json (body : string) : Result Value :=
  match from_str body with inr v => Ok v | inl error => Err (Parse "polymarket payload" error) end.
Definition parse_text (t what : string) : Result f64 := ok_or (text.parse_f64 t) (Parse what t).
Definition number (v : Value) (field : string) : Result f64 :=
  match Value.get v field with
  | Some (VString t) => parse_text t field
  | Some (VNumber n) => ok_or (Number.as_f64 n) (NotFinite field)
  | _ => Err (Parse field "missing")
  end.
Definition millis_to_nanos (ms : Z) : UnixNanos := sat64 (ms * MS).
Definition timestamp_ms (v : Value) (field : string) : Result Z :=
  match Value.get v field with
  | Some (VString t) => ok_or (text.parse_i64 t) (Parse field t)
  | Some (VNumber n) => ok_or (Number.as_i64 n) (Parse field (to_string (VNumber n)))
  | _ => Err (Parse field "missing")
  end.
Definition text (v : Value) (field : string) : Result string := ok_or (Value.str_field v field) (Parse field "missing").
Definition level (row : Value) : Result (Price * Qty) :=
  let? p := number row "price" in let? price := price_from_f64 p in
  let? q := number row "size" in let? size := qty_from_f64 q in Ok (price, size).
Definition levels (v : Value) (field : string) : Result (list (Price * Qty)) :=
  map_res level (default [] (Value.array_field v field)).

(** ** Messages *)

(** The instant and outcome every message names. *)
Definition stamped (tokens : TokenMap) (json : Value) : Result (UnixNanos * OutcomeId) :=
  let? ms := timestamp_ms json "timestamp" in
  let? asset := text json "asset_id" in
  let? outcome := TokenMap.outcome tokens asset in Ok (millis_to_nanos ms, outcome).
Definition record (tokens : TokenMap) (at_ : UnixNanos) (outcome : OutcomeId) (e : MarketEvent) : EventRecord :=
  EventRecord.new (Stamps.immediate at_) (tm_instrument tokens) outcome e.
Definition parse_book (body : string) (tokens : TokenMap) : Result EventRecord :=
  let? json := parse_json body in
  let? '(at_, outcome) := stamped tokens json in
  let? bids := levels json "bids" in
  let? asks := levels json "asks" in
  Ok (record tokens at_ outcome (EvBookSnapshot bids asks)).
(** A change to size zero deletes the level. *)
Definition change_delta (change : Value) : Result BookDelta :=
  let? t := text change "side" in
  let? side := Side.parse t in
  let? p := number change "price" in let? price := price_from_f64 p in
  let? q := number change "size" in let? size := qty_from_f64 q in
  Ok (if is_zero size then BookDelta.delete side price else BookDelta.set side price size).
Definition parse_price_change (body : string) (tokens : TokenMap) : Result (list EventRecord) :=
  let? json := parse_json body in
  let? '(at_, outcome) := stamped tokens json in
  let? changes := ok_or (Value.array_field json "changes") (Parse "price_change.changes" "missing") in
  map_res (fun change => let? delta := change_delta change in Ok (record tokens at_ outcome (EvBookDelta delta))) changes.
Definition parse_trade (body : string) (tokens : TokenMap) : Result EventRecord :=
  let? json := parse_json body in
  let? '(at_, outcome) := stamped tokens json in
  let? aggressor := match Value.get json "side" with
    | Some (VString t) => let? s := Side.parse t in Ok (Some s) | _ => Ok None end in
  let? p := number json "price" in let? price := price_from_f64 p in
  let? q := number json "size" in let? size := qty_from_f64 q in
  Ok (record tokens at_ outcome (EvTrade price size aggressor)).

(** ** Markets *)
Definition token_of (token : Value) : Result (string * string) :=
  let? label := text token "outcome" in let? id := text token "token_id" in Ok (label, id).
Definition instrument_from_market (body : string) : Result (Instrument * TokenMap) :=
  let? json := parse_json body in
  let? condition := text json "condition_id" in
  let? tokens := ok_or (Value.array_field json "tokens") (Parse "market.tokens" "missing") in
  if (length tokens <? 2)%nat then Err (invalid "market has too few outcome tokens; a market needs at least two")
  else
    let? pairs := map_res token_of tokens in
    let? i := Instrument.prediction_market condition "polymarket" (map fst pairs) in
    let? i := match Value.get json "minimum_tick_size" with
      | None | Some VNull => Ok i
      | Some _ => let? x := number json "minimum_tick_size" in let? tick := price_from_f64 x in Ok (Instrument.with_tick_size i tick)
      end in
    let i := Instrument.with_neg_risk i (existsb (fun key => default false (Value.bool_field json key)) ["neg_risk"; "negRisk"]) in
    let i := match Value.str_field json "end_date_iso" ≫= instant.parse_iso8601_ns with
             | Some ns => Instrument.with_expiration i ns | None => i end in
    let? m := TokenMap.new condition (map snd pairs) in Ok (i, m).

(** A payout as the payload spells it: a share of the pot. *)
Definition payout_of (row : Value) : Result Price :=
  let? x := match row with
    | VString t => parse_text t "market.payouts"
    | VNumber n => ok_or (Number.as_f64 n) (NotFinite "market.payouts")
    | other => Err (Parse "market.payouts" (to_string other))
    end in price_from_f64 x.
Definition payouts_resolution (instrument : InstrumentId) (count : nat) (rows : list Value) (observable_at : UnixNanos) :
    Result (option Resolution) :=
  if negb (length rows =? count)%nat then Err (invalid "market has tokens but another number of payouts")
  else
    let? payouts := map_res payout_of rows in
    if forallb (fun price => negb (is_positive price)) payouts then Ok None
    else
      let? normalised := normalise_to_one payouts in
      let? r := Resolution.split instrument normalised observable_at in Ok (Some r).
(** The indices of the tokens that won. *)
Definition winners (tokens : list Value) : list nat :=
  map fst (List.filter (fun e => default false (Value.bool_field e.2 "winner")) (combine (seq 0 (length tokens)) tokens)).
Definition resolution_from_market (body : string) (observable_at : UnixNanos) : Result (option Resolution) :=
  let? json := parse_json body in
  let? condition := text json "condition_id" in
  if negb (default false (Value.bool_field json "closed")) then Ok None
  else
    let? tokens := ok_or (Value.array_field json "tokens") (Parse "market.tokens" "missing") in
    let? instrument := InstrumentId.new condition in
    let count := Z.of_nat (length tokens) in
    if 2 ^ 16 - 1 <? count then Err (Parse "market.tokens" (show_int count))
    else
      match Value.array_field json "payouts" with
      | Some rows => payouts_resolution instrument (length tokens) rows observable_at
      | None =>
          let won := winners tokens in
          let all := (negb (length won =? 0) && (length won =? length tokens))%nat in
          if default false (Value.bool_field json "is_50_50_outcome") || all then
            let? r := Resolution.void instrument count observable_at in Ok (Some r)
          else
            match won with
            | [] => Ok None
            | [w] => Ok (Some (Resolution.new instrument (Z.of_nat w mod 2 ^ 16) observable_at))
            | _ => Err (invalid "market reports several winning outcomes")
            end
      end.
End Polymarket.
End Polymarket.
