(* ===== verification/Ingest.v ===== *)
(** * Ingest plans ([lib.rs] of the venue crate)

    What a load produced, ready to commit: merging, the digest a reload is recognised by,
    validation, and [write_plan], which writes the streams table by table and records the
    load last.  blake3 is a parameter. *)
From S2P Require Export RunFork.
#[local] Open Scope Z_scope.

Record IngestPlan := mkIngestPlan {
  vendor : string;
  pl_instruments : list Instrument;
  book_events : list EventRecord;
  trades : list EventRecord;
  funding : list EventRecord;
  references : list EventRecord;
  resolutions : list Resolution;
}.
#[export] Instance eta_IngestPlan : Eta IngestPlan := fun p =>
  mkIngestPlan (vendor p) (pl_instruments p) (book_events p) (trades p) (funding p) (references p) (resolutions p).

(** ** What a digest hashes *)
Module digest.
Definition le64 (z : Z) : string := RunSpec.to_le_bytes z.
Definition le16 (z : Z) : string := RunSpec.le_bytes 2 z.
Fixpoint concat_map {A} (f : A -> string) (l : list A) : string :=
  match l with [] => "" | a :: l => f a +:+ concat_map f l end.
Definition level (l : Price * Qty) : string := le64 l.1 +:+ le64 l.2.
Definition price_or_none (p : option Price) : string := match p with Some v => "p" +:+ le64 v | None => "-" end.
(** [hash_event]. *)
Definition event (e : MarketEvent) : string :=
  match e with
  | EvBookSnapshot bids asks => "B" +:+ concat_map level bids +:+ "A" +:+ concat_map level asks
  | EvBookDelta delta => Side.as_str (d_side delta) +:+ le64 (d_price delta) +:+ le64 (d_size delta)
  | EvTrade price size aggressor => le64 price +:+ le64 size +:+ default "?" (Side.as_str <$> aggressor)
  | EvFunding rate => le64 rate
  | EvReference mark oracle => price_or_none mark +:+ price_or_none oracle
  | EvBar open high low close volume => le64 open +:+ le64 high +:+ le64 low +:+ le64 close +:+ le64 volume
  | EvCorporate action =>
      CorporateAction.kind action +:+
      match action with
      | Split ratio => le64 ratio
      | Dividend per_share => le64 per_share
      | Delist final_price => le64 final_price
      end
  | EvGap => ""
  end.
Definition record (r : EventRecord) : string :=
  le64 (ts_event (rec_stamps r)) +:+ le64 (ts_init (rec_stamps r)) +:+ rec_instrument r +:+ le16 (rec_outcome r) +:+
  MarketEvent.kind (rec_event r) +:+ event (rec_event r).
Definition instrument (i : Instrument) : string :=
  inst_id i +:+ le16 (Instrument.outcome_count i) +:+ le64 (tick_size i) +:+ RunSpec.le_bytes 1 (if neg_risk i then 1 else 0).
Definition resolution (r : Resolution) : string :=
  res_instrument r +:+
  match payout r with
  | Winner outcome => "w" +:+ le16 outcome
  | Void outcomes => "v" +:+ le16 outcomes
  | SplitPayout payouts => "s" +:+ concat_map le64 payouts
  end +:+ le64 (observable_at r).
End digest.

Inductive IngestOutcome := Written (digest : string) (records : Z) | AlreadyPresent (digest : string).
Module IngestOutcome.
Definition digest (o : IngestOutcome) : string := match o with Written d _ | AlreadyPresent d => d end.
Definition was_written (o : IngestOutcome) : bool := match o with Written _ _ => true | AlreadyPresent _ => false end.
End IngestOutcome.

Module IngestPlan.
Implicit Types p q : IngestPlan.
Definition new (name : string) : IngestPlan := mkIngestPlan name [] [] [] [] [] [].
Definition with_instruments p (l : list Instrument) : IngestPlan := p <| pl_instruments := l |>.
Definition with_book_events p (l : list EventRecord) : IngestPlan := p <| book_events := l |>.
Definition with_trades p (l : list EventRecord) : IngestPlan := p <| trades := l |>.
Definition with_funding p (l : list EventRecord) : IngestPlan := p <| funding := l |>.
Definition with_references p (l : list EventRecord) : IngestPlan := p <| references := l |>.
Definition with_resolutions p (l : list Resolution) : IngestPlan := p <| resolutions := l |>.

(** Every stream in time order; stable. *)
Definition sort p : IngestPlan :=
  p <| book_events := sort_by_key EventRecord.ts (book_events p) |> <| trades := sort_by_key EventRecord.ts (trades p) |>
    <| funding := sort_by_key EventRecord.ts (funding p) |> <| references := sort_by_key EventRecord.ts (references p) |>.
Definition merge p q : IngestPlan :=
  sort (mkIngestPlan (vendor p) (pl_instruments p ++ pl_instruments q) (book_events p ++ book_events q) (trades p ++ trades q)
          (funding p ++ funding q) (references p ++ references q) (resolutions p ++ resolutions q)).

Definition digest_input p : string :=
  vendor p +:+ digest.concat_map digest.instrument (pl_instruments p) +:+
  ("b" +:+ digest.concat_map digest.record (book_events p)) +:+ ("t" +:+ digest.concat_map digest.record (trades p)) +:+
  ("f" +:+ digest.concat_map digest.record (funding p)) +:+ ("r" +:+ digest.concat_map digest.record (references p)) +:+
  digest.concat_map digest.resolution (resolutions p).
Definition digest (blake3 : string -> string) p : string := blake3 (digest_input p).

Definition record_count p : Z := zlen (book_events p) + zlen (trades p) + zlen (funding p) + zlen (references p).
Definition is_empty p : bool := (record_count p =? 0) && match pl_instruments p with [] => true | _ => false end.
Definition all_records p : list EventRecord := book_events p ++ trades p ++ funding p ++ references p.
Definition loaded_window p : option TimeWindow :=
  let '(lo, hi) := fold_left (fun s t => (Z.min s.1 t, Z.max s.2 t)) (map EventRecord.ts (all_records p)) (i64_max, i64_min) in
  if hi <? lo then None else ok (TimeWindow.new lo (add64 hi 1)).

(** One record of a stream: not before the last, and of a known instrument. *)
Definition validate_record (known : list string) (name : string) (previous : option Z) (r : EventRecord) : Result (option Z) :=
  let ts := EventRecord.ts r in
  let? _ := match previous with
    | Some prev => if ts <? prev then Err (OutOfOrder name ts prev) else Ok tt
    | None => Ok tt
    end in
  if negb (match known with [] => true | _ => false end) && negb (existsb (String.eqb (rec_instrument r)) known)
  then Err (UnknownInstrument (rec_instrument r)) else Ok (Some ts).
Definition streams p : list (string * list EventRecord) :=
  [("book_events", book_events p); ("trades", trades p); ("funding", funding p); ("references", references p)].
Definition validate p : Result unit :=
  let known := map inst_id (pl_instruments p) in
  foldr_res (fun _ s => let? _ := foldr_res (validate_record known s.1) None s.2 in Ok tt) tt (streams p).
End IngestPlan.

(** ** Committing a plan *)
Module Ingest.
Section Ingest.
Context `{Env} `{ArrowRows}.
Variable blake3 : string -> string.
Implicit Types (db : Database) (p : IngestPlan).

Definition already_ingested db (digest : string) : bprog bool :=
  let* entries := RunStore.read_ingest_log db in
  bret (Ok (existsb (fun e => String.eqb (ie_digest e) digest) entries)).
Definition record_ingest db p (digest : string) (known_at : UnixNanos) : bprog unit :=
  RunStore.write_ingest_log db (mkIngestEntry known_at (vendor p) digest (IngestPlan.record_count p) (IngestPlan.loaded_window p)
    (zlen (pl_instruments p))).
Definition unless_empty {A} (l : list A) (write : bprog unit) : bprog unit :=
  match l with [] => bret (Ok tt) | _ => write end.
(** The streams, table by table. *)
Definition write_streams db p (known_at : UnixNanos) : bprog unit :=
  do* unless_empty (pl_instruments p) (MarketStore.write_instruments db (pl_instruments p) known_at) in
  do* unless_empty (book_events p) (MarketStore.write_book_events db (book_events p)) in
  do* unless_empty (trades p) (MarketStore.write_trades db (trades p)) in
  do* unless_empty (funding p) (MarketStore.write_funding db (funding p)) in
  do* unless_empty (references p) (MarketStore.write_references db (references p)) in
  unless_empty (resolutions p) (MarketStore.write_resolutions db (resolutions p)).
Definition write_plan db p (known_at : UnixNanos) : bprog IngestOutcome :=
  do* bret (IngestPlan.validate p) in
  let digest := IngestPlan.digest blake3 p in
  do* EventIO.create_market_data_tables db in
  let* present := already_ingested db digest in
  if present then bret (Ok (AlreadyPresent digest))
  else
    do* write_streams db p known_at in
    do* record_ingest db p digest known_at in
    bret (Ok (Written digest (IngestPlan.record_count p))).
End Ingest.
End Ingest.
