(* ===== verification/Hyperliquid.v ===== *)
(** * Hyperliquid payloads ([hyperliquid.rs], [hyperliquid_archive.rs])

    The perpetual and spot universes with the price grid each coin gets, candles, funding,
    books, trades and reference prices, the messages of the websocket and the archive with
    their fast reader, and the load of a downloaded archive into an ingest plan.  The fast
    reader's deserializers are generated by [serde] from the shapes it declares: they are a
    parameter ([RawSerde]), as the frame decoder of LZ4 is. *)
From S2P Require Export Wire Ingest.
#[local] Open Scope Z_scope.

Definition MAX_SIGNIFICANT_FIGURES : Z := 5.
Definition PERP_MAX_DECIMALS : Z := 6.
Definition SPOT_MAX_DECIMALS : Z := 8.
Definition FEE_VOLUME_WINDOW_NANOS : Z := 14 * 24 * 60 * 60 * 1000000000.

Record AssetMeta := mkAssetMeta {
  am_name : string;
  am_sz_decimals : Z;
  am_max_leverage : Z;
  am_only_isolated : bool;
  am_is_delisted : bool;
}.
Record SpotToken := mkSpotToken { tk_name : string; tk_sz_decimals : Z; tk_index : Z }.
Record SpotPair := mkSpotPair { sp_name : string; sp_index : Z; sp_base : Z; sp_quote : Z; sp_is_canonical : bool }.
Record SpotMeta := mkSpotMeta { sm_tokens : list SpotToken; sm_universe : list SpotPair }.

(** ** Coins *)
Definition perp_instrument_id (coin : string) : Result InstrumentId := InstrumentId.new (coin +:+ "-PERP").
Definition spot_instrument_id (coin : string) : Result InstrumentId := InstrumentId.new (coin +:+ "-SPOT").
Definition is_spot_coin (coin : string) : bool := String.prefix "@" coin || text.contains "/" coin.
Definition instrument_id_for (coin : string) : Result InstrumentId :=
  if is_spot_coin coin then spot_instrument_id coin else perp_instrument_id coin.
Record InstrumentCache := mkInstrumentCache { by_coin : gmap string InstrumentId }.
Module InstrumentCache.
Definition new : InstrumentCache := mkInstrumentCache ∅.
Definition get (c : InstrumentCache) (coin : string) : InstrumentCache * Result InstrumentId :=
  match by_coin c !! coin with
  | Some id => (c, Ok id)
  | None =>
      match instrument_id_for coin with
      | Ok id => (mkInstrumentCache (<[coin := id]> (by_coin c)), Ok id)
      | Err e => (c, Err e)
      end
  end.
End InstrumentCache.

(** ** The price grid of a coin *)

(** [10_f64.powi(-n)]: the reciprocal of the power. *)
Definition powi_neg (n : Z) : f64 := fdiv (f64_of_int 1) (f64_of_int (10 ^ n)).
Module AssetMeta.
Definition price_decimals (a : AssetMeta) : Z := Z.max 0 (PERP_MAX_DECIMALS - am_sz_decimals a).
Definition instrument (a : AssetMeta) : Result Instrument :=
  let? i := Instrument.perpetual (am_name a +:+ "-PERP") "hyperliquid" in
  let? lot := qty_from_f64 (powi_neg (am_sz_decimals a)) in
  Instrument.with_price_rule (Instrument.with_lot_size i lot) (SignificantFigures MAX_SIGNIFICANT_FIGURES (price_decimals a)).
End AssetMeta.
Module SpotPair.
Definition wire_name (p : SpotPair) : string := if sp_is_canonical p then sp_name p else "@" +:+ show_int (sp_index p).
End SpotPair.
Module SpotMeta.
Definition token (m : SpotMeta) (index : Z) : option SpotToken := List.find (fun t => tk_index t =? index) (sm_tokens m).
Definition pair (m : SpotMeta) (wire_name : string) : option SpotPair :=
  List.find (fun p => String.eqb (SpotPair.wire_name p) wire_name) (sm_universe m).
Definition instrument (m : SpotMeta) (p : SpotPair) : Result Instrument :=
  let? base := ok_or (token m (sp_base p)) (invalid "spot pair names a base token which the universe does not describe") in
  if SPOT_MAX_DECIMALS <? tk_sz_decimals base then Err (invalid "szDecimals would leave a spot price no decimal places at all")
  else
    let? id := spot_instrument_id (SpotPair.wire_name p) in
    let? i := Instrument.perpetual id "hyperliquid" in
    let? lot := qty_from_f64 (powi_neg (tk_sz_decimals base)) in
    Instrument.with_price_rule (Instrument.with_lot_size (i <| kind := Spot |>) lot)
      (SignificantFigures MAX_SIGNIFICANT_FIGURES (Z.max 0 (SPOT_MAX_DECIMALS - tk_sz_decimals base))).
End SpotMeta.

(** [LinearMargin::from_leverage], from the float it takes. *)
Definition linear_from_leverage (leverage : f64) : Result LinearMargin :=
  if negb (is_finite leverage && SFleb (f64_of_int 1) leverage) then Err (invalid "leverage must be finite and at least 1")
  else let? initial := price_from_f64 (fdiv (f64_of_int 1) leverage) in Ok (LinearMargin.from_initial initial).
Definition margin_from_meta (universe : list AssetMeta) : Result PerInstrumentMargin :=
  let floor := Z.max 1 (match map am_max_leverage universe with [] => 1 | l :: ls => fold_left Z.min ls l end) in
  let? fallback := linear_from_leverage (f64_of_int floor) in
  foldr_res (fun m a =>
    let? id := perp_instrument_id (am_name a) in
    let? l := linear_from_leverage (f64_of_int (Z.max 1 (am_max_leverage a))) in
    Ok (PerInstrumentMargin.with_model m id l)) (mkPerInstrumentMargin [] fallback) universe.

(** [instrument], with a grid supplied by hand. *)
Definition hand_instrument (coin : string) (tick lot : f64) : Result Instrument :=
  let? i := Instrument.perpetual (coin +:+ "-PERP") "hyperliquid" in
  let? t := price_from_f64 tick in
  let? l := qty_from_f64 lot in
  Ok (Instrument.with_lot_size (Instrument.with_tick_size i t) l).

(** ** Payloads *)
Definition MS : Z := 1000000.
Definition nanos_from_millis (ms : Z) : UnixNanos := sat64 (ms * MS).

Module Hyperliquid.
Section Hyperliquid.
Context `{Serde}.

Definition parse_json (body : string) : Result Value :=
  match from_str body with inr v => Ok v | inl error => Err (Parse "hyperliquid response" error) end.
Definition number (v : Value) (field : string) : Result f64 :=
  match Value.get v field with
  | Some (VString t) => ok_or (text.parse_f64 t) (Parse field t)
  | Some (VNumber n) => ok_or (Number.as_f64 n) (NotFinite field)
  | _ => Err (Parse field "missing")
  end.
Definition price (v : Value) (field : string) : Result Price := let? x := number v field in price_from_f64 x.
Definition qty (v : Value) (field : string) : Result Qty := let? x := number v field in qty_from_f64 x.
(** Absent stays absent. *)
Definition optional_number (v : Value) (field : string) : Result (option Price) :=
  match Value.get v field with
  | None | Some VNull => Ok None
  | Some _ => let? p := price v field in Ok (Some p)
  end.
Definition millis (v : Value) (field : string) : Result Z := ok_or (Value.i64_field v field) (Parse field "missing or not an integer").
Definition array (v : Value) (what : string) : Result (list Value) := ok_or (Value.as_array v) (Parse what "expected an array").
Definition by_ts (records : list EventRecord) : list EventRecord := sort_by_key EventRecord.ts records.

(** *** The universes *)
Definition asset_meta (entry : Value) : Result AssetMeta :=
  let? name := ok_or (Value.str_field entry "name") (Parse "meta.universe[].name" "missing") in
  let? sz := ok_or (Value.u64_field entry "szDecimals") (Parse "meta.universe[].szDecimals" "missing") in
  if PERP_MAX_DECIMALS <? sz then Err (invalid "szDecimals would leave a perpetual price no decimal places at all")
  else Ok (mkAssetMeta name sz (Z.max 1 (default 1 (Value.u64_field entry "maxLeverage")) mod 2 ^ 32)
             (default false (Value.bool_field entry "onlyIsolated")) (default false (Value.bool_field entry "isDelisted"))).
Definition parse_meta_value (json : Value) : Result (list AssetMeta) :=
  let? universe := ok_or (Value.array_field json "universe") (Parse "meta.universe" "missing") in
  map_res asset_meta universe.
Definition parse_meta (body : string) : Result (list AssetMeta) := let? json := parse_json body in parse_meta_value json.

Definition spot_token (t : Value) : Result SpotToken :=
  let? name := ok_or (Value.str_field t "name") (Parse "spotMeta.tokens[].name" "missing") in
  let? sz := ok_or (Value.u64_field t "szDecimals") (Parse "spotMeta.tokens[].szDecimals" "missing") in
  let? index := ok_or (Value.u64_field t "index") (Parse "spotMeta.tokens[].index" "missing") in
  Ok (mkSpotToken name (sz mod 2 ^ 8) (index mod 2 ^ 32)).
Definition spot_pair (p : Value) : Result SpotPair :=
  let? indices := ok_or (Value.array_field p "tokens") (Parse "spotMeta.universe[].tokens" "missing") in
  match indices with
  | [b; q] =>
      let? name := ok_or (Value.str_field p "name") (Parse "spotMeta.universe[].name" "missing") in
      let? index := ok_or (Value.u64_field p "index") (Parse "spotMeta.universe[].index" "missing") in
      let? base := ok_or (Value.as_u64 b) (Parse "spotMeta.universe[].tokens[0]" "not an index") in
      let? quote := ok_or (Value.as_u64 q) (Parse "spotMeta.universe[].tokens[1]" "not an index") in
      Ok (mkSpotPair name (index mod 2 ^ 32) (base mod 2 ^ 32) (quote mod 2 ^ 32) (default false (Value.bool_field p "isCanonical")))
  | _ => Err (invalid "a spot pair has a base and a quote")
  end.
Definition parse_spot_meta (body : string) : Result SpotMeta :=
  let? json := parse_json body in
  let? tokens := ok_or (Value.array_field json "tokens") (Parse "spotMeta.tokens" "missing") in
  let? parsed_tokens := map_res spot_token tokens in
  let? universe := ok_or (Value.array_field json "universe") (Parse "spotMeta.universe" "missing") in
  let? parsed_pairs := map_res spot_pair universe in
  Ok (mkSpotMeta parsed_tokens parsed_pairs).

(** *** Reference prices *)
Definition reference_record (coin : string) (context : Value) (at_ : UnixNanos) : Result (option EventRecord) :=
  let? mark := optional_number context "markPx" in
  let? oracle := optional_number context "oraclePx" in
  match mark, oracle with
  | None, None => Ok None
  | _, _ => let? id := perp_instrument_id coin in Ok (Some (EventRecord.new (Stamps.immediate at_) id FIRST (EvReference mark oracle)))
  end.
(** The contexts pair with the universe by position. *)
Definition parse_meta_and_asset_ctxs (body : string) (at_ : UnixNanos) : Result (list AssetMeta * list EventRecord) :=
  let? json := parse_json body in
  let? pair := ok_or (Value.as_array json) (Parse "metaAndAssetCtxs" "expected a two-element array") in
  match pair with
  | [meta; ctxs] =>
      let? universe := parse_meta_value meta in
      let? contexts := ok_or (Value.as_array ctxs) (Parse "metaAndAssetCtxs[1]" "expected an array of contexts") in
      if negb (length contexts =? length universe)%nat then Err (invalid "the universe has coins but another number of contexts")
      else
        let? records := map_res (fun e => reference_record (am_name e.1) e.2 at_) (combine universe contexts) in
        Ok (universe, omap id records)
  | _ => Err (Parse "metaAndAssetCtxs" ("expected two elements, got " +:+ show_int (zlen pair)))
  end.
Definition parse_asset_ctx (body : string) (at_ : UnixNanos) : Result (option EventRecord) :=
  let? json := parse_json body in
  let envelope := default json (Value.get json "data") in
  match Value.str_field envelope "coin" with
  | None => Ok None
  | Some coin => reference_record coin (default envelope (Value.get envelope "ctx")) at_
  end.

(** *** Candles, funding, books, trades *)
Definition candle (id : InstrumentId) (row : Value) : Result EventRecord :=
  let? open_ms := millis row "t" in
  let? close_ms := millis row "T" in
  let? stamps := Stamps.new (nanos_from_millis open_ms) (nanos_from_millis close_ms) in
  let? o := price row "o" in let? h := price row "h" in let? l := price row "l" in let? c := price row "c" in
  let? v := qty row "v" in
  Ok (EventRecord.new stamps id FIRST (EvBar o h l c v)).
Definition parse_candles (body instrument_id : string) : Result (list EventRecord) :=
  let? json := parse_json body in
  let? rows := array json "candleSnapshot" in
  let? id := InstrumentId.new instrument_id in
  let? out := map_res (candle id) rows in Ok (by_ts out).
Definition funding_row (id : InstrumentId) (row : Value) : Result EventRecord :=
  let? ms := millis row "time" in
  let? rate := price row "fundingRate" in
  Ok (EventRecord.new (Stamps.immediate (nanos_from_millis ms)) id FIRST (EvFunding rate)).
Definition parse_funding (body instrument_id : string) : Result (list EventRecord) :=
  let? json := parse_json body in
  let? rows := array json "fundingHistory" in
  let? id := InstrumentId.new instrument_id in
  let? out := map_res (funding_row id) rows in Ok (by_ts out).
Definition book_level (row : Value) : Result (Price * Qty) := let? p := price row "px" in let? q := qty row "sz" in Ok (p, q).
Definition book_side (side : Value) : Result (list (Price * Qty)) :=
  let? rows := array side "l2Book side" in map_res book_level rows.
Definition book_from_value (json : Value) (id : InstrumentId) : Result EventRecord :=
  let? ms := millis json "time" in
  let? levels := ok_or (Value.array_field json "levels") (Parse "l2Book.levels" "missing") in
  match levels with
  | [b; a] =>
      let? bids := book_side b in
      let? asks := book_side a in
      Ok (EventRecord.new (Stamps.immediate (nanos_from_millis ms)) id FIRST (EvBookSnapshot bids asks))
  | _ => Err (Parse "l2Book.levels" ("expected two sides, got " +:+ show_int (zlen levels)))
  end.
Definition parse_l2_book (body instrument_id : string) : Result EventRecord :=
  let? json := parse_json body in
  let? id := InstrumentId.new instrument_id in book_from_value json id.
Definition aggressor_of (side : option string) : option Side :=
  match side with
  | Some s => if String.eqb s "B" || String.eqb s "b" then Some Buy else if String.eqb s "A" || String.eqb s "a" then Some Sell else None
  | None => None
  end.
Definition aggressor (v : Value) : option Side := aggressor_of (Value.str_field v "side").
Definition trade_row (id : InstrumentId) (row : Value) : Result EventRecord :=
  let? ms := millis row "time" in
  let? p := price row "px" in
  let? q := qty row "sz" in
  Ok (EventRecord.new (Stamps.immediate (nanos_from_millis ms)) id FIRST (EvTrade p q (aggressor row))).
Definition trades_from_value (json : Value) (id : InstrumentId) : Result (list EventRecord) :=
  let? rows := match json with VArray rows => Ok rows | VObject _ => Ok [json] | other => Err (Parse "trades" (to_string other)) end in
  let? out := map_res (trade_row id) rows in Ok (by_ts out).
Definition parse_trades (body instrument_id : string) : Result (list EventRecord) :=
  let? json := parse_json body in
  let? id := InstrumentId.new instrument_id in trades_from_value json id.
End Hyperliquid.
End Hyperliquid.

(** ** The archive's lines *)
Module archive_time.
Section archive_time.
Context `{Chrono}.
(** The digits of the fraction, padded on the right to nanoseconds. *)
Definition nanos_of (fraction : string) : option Z :=
  match text.digits 0 0 fraction with
  | (value, count, EmptyString) => if 9 <? count then None else Some (value * 10 ^ (9 - count))
  | _ => None
  end.
Definition three (l : list string) (f : string -> option Z) : option (Z * Z * Z) :=
  match l with [a; b; c] => x ← f a; y ← text.parse_u32 b; z ← text.parse_u32 c; Some (x, y, z) | _ => None end.
Definition strip_z (s : string) : string :=
  let n := String.length s in
  match String.get (n - 1) s with Some c => if Ascii.eqb c "Z" then String.substring 0 (n - 1) s else s | None => s end.
Definition parse (t : string) : option Z :=
  '(date, time) ← text.split_once "T" t;
  '(year, month, day) ← three (text.split "-" date) text.parse_i32;
  let time := strip_z time in
  let '(clock, fraction) := default (time, "") (text.split_once "." time) in
  '(hour, minute, second) ← three (text.split ":" clock) text.parse_u32;
  nanos ← nanos_of fraction;
  seconds ← civil_nanos year month day hour minute second;
  checked64 (seconds + nanos).
(** [format_archive_time]: nine digits of nanoseconds behind the seconds. *)
Fixpoint pad (width : nat) (n : Z) : string :=
  match width with O => "" | S w => pad w (n / 10) +:+ String (Ascii.ascii_of_nat (Z.to_nat (48 + n mod 10))) "" end.
Definition format (at_ : UnixNanos) : string := format_seconds (at_ / 1000000000) +:+ pad 9 (at_ mod 1000000000).
End archive_time.
End archive_time.

(** The shapes the fast reader deserializes. *)
Record RawLine := mkRawLine { rl_time : option string; rl_raw : option string; rl_channel : option string; rl_data : option string }.
Record RawBook := mkRawBook { rb_coin : string; rb_time : Z; rb_levels : list (list (string * string)) }.
Record RawTrade := mkRawTrade { rt_coin : string; rt_side : option string; rt_px : string; rt_sz : string; rt_time : Z }.
(** [serde_json::from_str] at each of them; a raw value is its text. *)
Class RawSerde := {
  raw_line : string -> option RawLine;
  raw_envelope : string -> option (string * string);
  raw_book : string -> option RawBook;
  raw_trades : string -> option (list RawTrade);
}.

Module envelope.
Section envelope.
Context `{Serde} `{Chrono}.
Import Hyperliquid.

(** When the archiver had the message, but never before it happened. *)
Definition known_from (known_at : option Z) (r : EventRecord) : Result EventRecord :=
  match known_at with
  | None => Ok r
  | Some k =>
      let? stamps := Stamps.new (ts_event (rec_stamps r)) (Z.max k (ts_event (rec_stamps r))) in
      Ok (EventRecord.new stamps (rec_instrument r) (rec_outcome r) (rec_event r))
  end.
Definition payload_coin (data : Value) : option string :=
  match Value.str_field data "coin" with
  | Some c => Some c
  | None => l ← Value.as_array data; first ← head l; Value.str_field first "coin"
  end.
Definition records_cached (json : Value) (cache : InstrumentCache) : InstrumentCache * Result (list EventRecord) :=
  let known_at := Value.str_field json "time" ≫= archive_time.parse in
  let envelope := default json (Value.get json "raw") in
  match Value.str_field envelope "channel", Value.get envelope "data" with
  | Some channel, Some data =>
      match payload_coin data with
      | Some coin =>
          let '(cache, id) := InstrumentCache.get cache coin in
          (cache,
           let? id := id in
           if String.eqb channel "l2Book" then let? r := book_from_value data id in map_res (known_from known_at) [r]
           else if String.eqb channel "trades" then let? rs := trades_from_value data id in map_res (known_from known_at) rs
           else Ok [])
      | None => (cache, Ok [])
      end
  | _, _ => (cache, Ok [])
  end.
Definition records (json : Value) : Result (list EventRecord) := (records_cached json InstrumentCache.new).2.
Definition parse_ws_message (body : string) : Result (list EventRecord) := let? json := parse_json body in records json.
(** [archive_line]. *)
Definition archive_line (received_at : UnixNanos) (message : string) : Result string :=
  match from_str message with
  | inl error => Err (Parse "websocket message" error)
  | inr raw => Ok (to_string (VObject [("time", VString (archive_time.format received_at)); ("ver_num", VNumber (PosInt 1)); ("raw", raw)]))
  end.

(** *** The fast reader *)
Context `{RawSerde}.
Definition fast_price (t : string) : option Price := x ← text.parse_f64 t; ok (price_from_f64 x).
Definition fast_size (t : string) : option Qty := x ← text.parse_f64 t; ok (qty_from_f64 x).
Definition fast_level (l : string * string) : option (Price * Qty) := p ← fast_price l.1; q ← fast_size l.2; Some (p, q).
Definition fast_book (data : string) (cache : InstrumentCache) : InstrumentCache * option (list EventRecord) :=
  match raw_book data with
  | Some (mkRawBook coin time [b; a]) =>
      match mapM fast_level b, mapM fast_level a with
      | Some bids, Some asks =>
          let '(cache, id) := InstrumentCache.get cache coin in
          (cache, id ← ok id; Some [EventRecord.new (Stamps.immediate (nanos_from_millis time)) id FIRST (EvBookSnapshot bids asks)])
      | _, _ => (cache, None)
      end
  | _ => (cache, None)
  end.
Definition fast_trade (id : InstrumentId) (t : RawTrade) : option EventRecord :=
  p ← fast_price (rt_px t); q ← fast_size (rt_sz t);
  Some (EventRecord.new (Stamps.immediate (nanos_from_millis (rt_time t))) id FIRST (EvTrade p q (aggressor_of (rt_side t)))).
Fixpoint fast_trades (l : list RawTrade) (cache : InstrumentCache) : InstrumentCache * option (list EventRecord) :=
  match l with
  | [] => (cache, Some [])
  | t :: l =>
      let '(cache, id) := InstrumentCache.get cache (rt_coin t) in
      match id ← ok id; fast_trade id t with
      | Some r => let '(cache, rs) := fast_trades l cache in (cache, rs ← rs; Some (r :: rs))
      | None => (cache, None)
      end
  end.
(** The channel and payload of a line, if it has both. *)
Definition fast_channel (l : RawLine) : option (string * string) :=
  match rl_raw l with
  | Some raw => raw_envelope raw
  | None => channel ← rl_channel l; data ← rl_data l; Some (channel, data)
  end.
Definition records_fast (line : string) (cache : InstrumentCache) : InstrumentCache * option (list EventRecord) :=
  match raw_line line with
  | None => (cache, None)
  | Some l =>
      let known_at := rl_time l ≫= archive_time.parse in
      match fast_channel l with
      | None => (cache, Some [])
      | Some (channel, data) =>
          if String.eqb channel "l2Book" then
            let '(cache, rs) := fast_book data cache in (cache, rs ← rs; ok (map_res (known_from known_at) rs))
          else if String.eqb channel "trades" then
            match raw_trades data with
            | None => (cache, None)
            | Some trades =>
                let '(cache, rs) := fast_trades trades cache in
                (cache, rs ← rs; ok (map_res (known_from known_at) (by_ts rs)))
            end
          else (cache, Some [])
      end
  end.
End envelope.
End envelope.

(** ** Reading a whole file *)
Record ArchiveRead := mkArchiveRead { ar_records : list EventRecord; ar_lines : Z; ar_skipped : Z; ar_malformed : Z }.
Module ArchiveRead.
Section ArchiveRead.
Context `{Serde} `{Chrono} `{RawSerde}.
Definition new : ArchiveRead := mkArchiveRead [] 0 0 0.
Definition add_records (r : ArchiveRead) (l : list EventRecord) : ArchiveRead :=
  mkArchiveRead (ar_records r ++ l) (ar_lines r) (ar_skipped r) (ar_malformed r).
Definition skip (r : ArchiveRead) : ArchiveRead := mkArchiveRead (ar_records r) (ar_lines r) (ar_skipped r + 1) (ar_malformed r).
Definition bad (r : ArchiveRead) : ArchiveRead := mkArchiveRead (ar_records r) (ar_lines r) (ar_skipped r) (ar_malformed r + 1).
Definition yield (r : ArchiveRead) (l : list EventRecord) : ArchiveRead := match l with [] => skip r | _ => add_records r l end.
Definition read_line (st : ArchiveRead * InstrumentCache) (line : string) : ArchiveRead * InstrumentCache :=
  if String.eqb (trim line) "" then st
  else
    let '(r, cache) := st in
    let r := mkArchiveRead (ar_records r) (ar_lines r + 1) (ar_skipped r) (ar_malformed r) in
    match envelope.records_fast line cache with
    | (cache, Some records) => (yield r records, cache)
    | (cache, None) =>
        match from_str line with
        | inl _ => (bad r, cache)
        | inr json =>
            match envelope.records_cached json cache with
            | (cache, Ok records) => (yield r records, cache)
            | (cache, Err _) => (bad r, cache)
            end
        end
    end.
(** The reader yields lines or the text of an error. *)
Definition read_archive (lines : list (string + string)) : Result ArchiveRead :=
  let? st := foldr_res (fun st line =>
    match line with
    | inl error => Err (Parse "hyperliquid archive" error)
    | inr line => Ok (read_line st line)
    end) (new, InstrumentCache.new) lines in
  Ok (mkArchiveRead (Hyperliquid.by_ts (ar_records st.1)) (ar_lines st.1) (ar_skipped st.1) (ar_malformed st.1)).
Definition barren_ratio (r : ArchiveRead) : f64 :=
  if ar_lines r =? 0 then S754_zero false else fdiv (f64_of_int (ar_skipped r + ar_malformed r)) (f64_of_int (ar_lines r)).
Definition require_yield (r : ArchiveRead) (minimum : f64) : Result unit :=
  if SFltb (SFsub 53 1024 (f64_of_int 1) (barren_ratio r)) minimum then Err (invalid "too few archive lines produced records") else Ok tt.
End ArchiveRead.
End ArchiveRead.

(** ** Requests *)
Module request.
Section request.
Context `{Serde}.
(** [Value::from] an [i64]. *)
Definition int (n : Z) : Value := VNumber (if 0 <=? n then PosInt n else NegInt n).
Definition candles_request (coin interval : string) (start_ms end_ms : Z) : string :=
  to_string (VObject [("type", VString "candleSnapshot");
    ("req", VObject [("coin", VString coin); ("interval", VString interval); ("startTime", int start_ms); ("endTime", int end_ms)])]).
Definition funding_request (coin : string) (start_ms : Z) (end_ms : option Z) : string :=
  to_string (VObject ([("type", VString "fundingHistory"); ("coin", VString coin); ("startTime", int start_ms)] ++
    match end_ms with Some e => [("endTime", int e)] | None => [] end)).
Definition l2_book_request (coin : string) : string := to_string (VObject [("type", VString "l2Book"); ("coin", VString coin)]).
Definition meta_request : string := to_string (VObject [("type", VString "meta")]).
Definition meta_and_asset_ctxs_request : string := to_string (VObject [("type", VString "metaAndAssetCtxs")]).
Definition spot_meta_request : string := to_string (VObject [("type", VString "spotMeta")]).
End request.
End request.

(** ** The daily file of contexts *)
Record AssetContext := mkAssetContext {
  ac_at : UnixNanos;
  ac_coin : string;
  ac_funding_rate : Price;
  ac_open_interest : Qty;
  ac_premium : Price;
  ac_oracle : Price;
  ac_mark : Price;
  ac_mid : Price;
  ac_impact_bid : Price;
  ac_impact_ask : Price;
}.
Definition ASSET_CTX_COLUMNS : list string :=
  ["time"; "coin"; "funding"; "open_interest"; "prev_day_px"; "day_ntl_vlm"; "premium"; "oracle_px"; "mark_px"; "mid_px";
   "impact_bid_px"; "impact_ask_px"].
Module asset_ctxs.
Section asset_ctxs.
Context `{Chrono}.
Definition number (fields : list string) (i : nat) (what : string) : Result f64 :=
  let t := default "" (fields !! i) in ok_or (text.parse_f64 t) (Parse what t).
Definition price (fields : list string) (i : nat) (what : string) : Result Price :=
  let? x := number fields i what in price_from_f64 x.
Definition row (fields : list string) : Result AssetContext :=
  let time := default "" (fields !! 0%nat) in
  let? at_ := ok_or (archive_time.parse time) (Parse "asset_ctxs.time" time) in
  let? funding := price fields 2 "asset_ctxs.funding" in
  let? interest := number fields 3 "asset_ctxs.open_interest" in
  let? open_interest := qty_from_f64 interest in
  let? premium := price fields 6 "asset_ctxs.premium" in
  let? oracle := price fields 7 "asset_ctxs.oracle_px" in
  let? mark := price fields 8 "asset_ctxs.mark_px" in
  let? mid := price fields 9 "asset_ctxs.mid_px" in
  let? impact_bid := price fields 10 "asset_ctxs.impact_bid_px" in
  let? impact_ask := price fields 11 "asset_ctxs.impact_ask_px" in
  Ok (mkAssetContext at_ (default "" (fields !! 1%nat)) funding open_interest premium oracle mark mid impact_bid impact_ask).
Definition line (l : string) : Result (option AssetContext) :=
  if String.eqb (trim l) "" then Ok None
  else
    let fields := text.split "," l in
    if negb (length fields =? length ASSET_CTX_COLUMNS)%nat then Err (invalid "asset_ctxs row has another number of fields")
    else let? c := row fields in Ok (Some c).
(** The header is checked, not trusted by position. *)
Definition parse_asset_ctxs_csv (body : string) : Result (list AssetContext) :=
  match text.lines body with
  | [] => Err (Parse "asset_ctxs" "empty file")
  | header :: lines =>
      if negb (bool_decide (text.split "," (trim header) = ASSET_CTX_COLUMNS)) then Err (invalid "asset_ctxs header is not the expected one")
      else let? out := map_res line lines in Ok (sort_by_key ac_at (omap id out))
  end.
Definition asset_context_records (contexts : list AssetContext) (coins : option (list string)) : Result (list EventRecord) :=
  let kept := match coins with
              | Some coins => List.filter (fun c => existsb (fun coin => String.eqb coin (ac_coin c)) coins) contexts
              | None => contexts
              end in
  let? out := map_res (fun c => let? id := perp_instrument_id (ac_coin c) in
                                Ok (EventRecord.new (Stamps.immediate (ac_at c)) id FIRST (EvReference (Some (ac_mark c)) (Some (ac_oracle c))))) kept in
  Ok (Hyperliquid.by_ts out).
End asset_ctxs.
End asset_ctxs.

(** ** A downloaded archive *)

(** The file system: a path is the list of its parts, a file its bytes. *)
Record FileTree := mkFileTree { ft_files : gmap (list string) string; ft_dirs : gset (list string) }.
Record ArchiveSpec := mkArchiveSpec {
  as_root : list string;
  as_dates : list string;
  as_hours : list Z;
  as_coins : list string;
  as_asset_ctxs : bool;
}.
Record ArchiveLoad := mkArchiveLoad {
  al_outcome : option IngestOutcome;
  al_files : list (list string);
  al_book_records : Z;
  al_trade_records : Z;
  al_reference_records : Z;
  al_malformed : Z;
  al_skipped : Z;
  al_window : option TimeWindow;
  al_missing : list string;
  al_plan : option IngestPlan;
}.
#[export] Instance eta_ArchiveLoad : Eta ArchiveLoad := fun l =>
  mkArchiveLoad (al_outcome l) (al_files l) (al_book_records l) (al_trade_records l) (al_reference_records l) (al_malformed l)
    (al_skipped l) (al_window l) (al_missing l) (al_plan l).
Module ArchiveSpec.
Implicit Types s : ArchiveSpec.
Definition new (root : list string) : ArchiveSpec := mkArchiveSpec root [] [] [] true.
Definition date s (d : string) : ArchiveSpec := mkArchiveSpec (as_root s) (as_dates s ++ [d]) (as_hours s) (as_coins s) (as_asset_ctxs s).
Definition hour s (h : Z) : ArchiveSpec := mkArchiveSpec (as_root s) (as_dates s) (as_hours s ++ [h]) (as_coins s) (as_asset_ctxs s).
Definition coin s (c : string) : ArchiveSpec := mkArchiveSpec (as_root s) (as_dates s) (as_hours s) (as_coins s ++ [c]) (as_asset_ctxs s).
Definition asset_ctxs s (read : bool) : ArchiveSpec := mkArchiveSpec (as_root s) (as_dates s) (as_hours s) (as_coins s) read.
Definition wants_coin s (c : string) : bool := match as_coins s with [] => true | l => existsb (String.eqb c) l end.
Definition wants_hour s (h : Z) : bool := match as_hours s with [] => true | l => existsb (Z.eqb h) l end.
End ArchiveSpec.
Module ArchiveLoad.
Definition records (l : ArchiveLoad) : Z := al_book_records l + al_trade_records l + al_reference_records l.
Definition require_files (l : ArchiveLoad) (minimum : Z) : Result unit :=
  if zlen (al_files l) <? minimum then Err (invalid "loaded too few archive files") else Ok tt.
End ArchiveLoad.

(** What the LZ4 frame decoder makes of a file: its lines as [BufRead::lines] yields them,
    and its text if it is whole and UTF-8. *)
Class Lz4 := {
  frame_lines : string -> list (string + string);
  frame_text : string -> Result string;
}.

Module FileTree.
Definition is_dir (t : FileTree) (p : list string) : bool := bool_decide (p ∈ ft_dirs t).
Definition is_file (t : FileTree) (p : list string) : bool := bool_decide (is_Some (ft_files t !! p)).
(** The name before and after its last point, if it has one that is not its first letter. *)
Fixpoint split_last (s : string) : option (string * string) :=
  match s with
  | EmptyString => None
  | String c r =>
      match split_last r with
      | Some (a, b) => Some (String c a, b)
      | None => if Ascii.eqb c "." then Some ("", r) else None
      end
  end.
Definition stem (name : string) : string := match split_last name with Some (String c a, _) => String c a | _ => name end.
Definition extension (name : string) : option string := match split_last name with Some (String _ _, e) => Some e | _ => None end.
(** The name of a path in a directory. *)
Definition child (dir : list string) (p : list string) : option string :=
  if bool_decide (firstn (length dir) p = dir) then match skipn (length dir) p with [name] => Some name | _ => None end else None.
Definition read_dir (t : FileTree) (dir : list string) : list string :=
  omap (child dir) (map fst (map_to_list (ft_files t)) ++ elements (ft_dirs t)).
(** The [lz4] entries of a directory in order. *)
Definition sorted_files (t : FileTree) (dir : list string) : list string :=
  sort_by_key id (List.filter (fun name => bool_decide (extension name = Some "lz4")) (read_dir t dir)).
Definition display (p : list string) : string := RunStore.RunStore.join "/" p.
End FileTree.

Module Archive.
Section Archive.
Context `{Serde} `{Chrono} `{RawSerde} `{Lz4}.
Implicit Types (t : FileTree) (s : ArchiveSpec) (l : ArchiveLoad).

Definition read_archive_lz4 (bytes : string) : Result ArchiveRead := ArchiveRead.read_archive (frame_lines bytes).
Definition read_asset_ctxs_lz4 (bytes : string) : Result (list AssetContext) :=
  let? body := frame_text bytes in asset_ctxs.parse_asset_ctxs_csv body.

(** What the walk has gathered. *)
Record Walk := mkWalk {
  wk_load : ArchiveLoad;
  wk_books : list EventRecord;
  wk_trades : list EventRecord;
  wk_references : list EventRecord;
  wk_coins : gset string;
}.
Definition miss (w : Walk) (what : string) : Walk :=
  mkWalk (wk_load w <| al_missing := al_missing (wk_load w) ++ [what] |>) (wk_books w) (wk_trades w) (wk_references w) (wk_coins w).
Definition is_trade (r : EventRecord) : bool := match rec_event r with EvTrade _ _ _ => true | _ => false end.
Definition walk_file t s (dir : list string) (w : Walk) (name : string) : Result Walk :=
  let coin := FileTree.stem name in
  if negb (ArchiveSpec.wants_coin s coin) then Ok w
  else
    let path := dir ++ [name] in
    let? bytes := ok_or (ft_files t !! path) (Parse "archive file" (FileTree.display path)) in
    let? read := read_archive_lz4 bytes in
    let load := wk_load w <| al_malformed := al_malformed (wk_load w) + ar_malformed read |>
                          <| al_skipped := al_skipped (wk_load w) + ar_skipped read |> in
    match ar_records read with
    | [] => Ok (mkWalk load (wk_books w) (wk_trades w) (wk_references w) (wk_coins w))
    | records =>
        Ok (mkWalk (load <| al_files := al_files load ++ [path] |>)
              (wk_books w ++ List.filter (fun r => negb (is_trade r)) records) (wk_trades w ++ List.filter is_trade records)
              (wk_references w) ({[coin]} ∪ wk_coins w))
    end.
Definition walk_hour t s (market_data : list string) (w : Walk) (hour : Z) : Result Walk :=
  if negb (ArchiveSpec.wants_hour s hour) then Ok w
  else
    let dir := market_data ++ [show_int hour; "l2Book"] in
    if negb (FileTree.is_dir t dir) then Ok (match as_hours s with [] => w | _ => miss w (FileTree.display dir) end)
    else foldr_res (walk_file t s dir) w (FileTree.sorted_files t dir).
Definition walk_contexts t s (date : string) (w : Walk) : Result Walk :=
  if negb (as_asset_ctxs s) then Ok w
  else
    let path := as_root s ++ ["asset_ctxs"; date +:+ ".csv.lz4"] in
    match ft_files t !! path with
    | None => Ok (miss w (FileTree.display path))
    | Some bytes =>
        let? contexts := read_asset_ctxs_lz4 bytes in
        let? records := asset_ctxs.asset_context_records contexts (match as_coins s with [] => None | l => Some l end) in
        match records with
        | [] => Ok w
        | _ =>
            let load := wk_load w in
            Ok (mkWalk (load <| al_files := al_files load ++ [path] |>) (wk_books w) (wk_trades w) (wk_references w ++ records)
                  (list_to_set (List.filter (ArchiveSpec.wants_coin s) (map ac_coin contexts)) ∪ wk_coins w))
        end
    end.
Definition hours : list Z := map Z.of_nat (seq 0 24).
Definition walk_date t s (w : Walk) (date : string) : Result Walk :=
  let market_data := as_root s ++ ["market_data"; date] in
  let? w := if negb (FileTree.is_dir t market_data) then Ok (miss w (FileTree.display market_data))
            else foldr_res (walk_hour t s market_data) w hours in
  walk_contexts t s date w.
Definition described (universe : list AssetMeta) (coin : string) : bool := existsb (fun a => String.eqb (am_name a) coin) universe.
Definition empty_load : ArchiveLoad := mkArchiveLoad None [] 0 0 0 0 0 None [] None.
Definition plan_from_archive t s (universe : list AssetMeta) : Result ArchiveLoad :=
  match as_dates s with
  | [] => Err (invalid "an archive load needs at least one date")
  | dates =>
      let? w := foldr_res (walk_date t s) (mkWalk empty_load [] [] [] ∅) dates in
      let w := fold_left (fun w coin => if bool_decide (coin ∈ wk_coins w) then w else miss w ("no files for coin " +:+ coin)) (as_coins s) w in
      let books := Hyperliquid.by_ts (wk_books w) in
      let trades := Hyperliquid.by_ts (wk_trades w) in
      let references := Hyperliquid.by_ts (wk_references w) in
      let? instruments := map_res AssetMeta.instrument (List.filter (fun a => bool_decide (am_name a ∈ wk_coins w)) universe) in
      if negb (forallb (described universe) (elements (wk_coins w))) then
        Err (invalid "the archive holds data for coins but the supplied universe does not describe them")
      else
        let plan := mkIngestPlan "hyperliquid" instruments books trades [] references [] in
        Ok (wk_load w <| al_book_records := zlen books |> <| al_trade_records := zlen trades |>
              <| al_reference_records := zlen references |> <| al_window := IngestPlan.loaded_window plan |> <| al_plan := Some plan |>)
  end.

Context `{Env} `{ArrowRows}.
Variable blake3 : string -> string.
Definition load_archive db t s (universe : list AssetMeta) (known_at : UnixNanos) : bprog ArchiveLoad :=
  let* load := bret (plan_from_archive t s universe) in
  match al_plan load with
  | None => bret (Ok load)
  | Some plan =>
      let load := load <| al_plan := None |> in
      if IngestPlan.is_empty plan then bret (Ok load)
      else
        let* outcome := Ingest.write_plan blake3 db plan known_at in
        bret (Ok (load <| al_outcome := Some outcome |>))
  end.
End Archive.
End Archive.
