(* ===== verification/VenueProps.v ===== *)
(** * Theorems about the venue parsers

    The Kalshi decoder against the book its records rebuild, and against the numbering of the
    venue; the Polymarket calendar; merging and validating ingest plans; the two readers of a
    Hyperliquid archive. *)
From S2P Require Export Kalshi Polymarket Ingest Hyperliquid.
#[local] Open Scope Z_scope.

(** ** The decoder of the order-book stream *)
Section Decoder.
Context `{Serde} `{Chrono}.
Import Kalshi OrderbookDecoder.
Implicit Types (d : OrderbookDecoder) (b : OrderBook).

(** The caller's loop: one message after another, until one cannot be read. *)
Fixpoint decode_all d (msgs : list (string * UnixNanos)) : OrderbookDecoder * Result (list EventRecord) :=
  match msgs with
  | [] => (d, Ok [])
  | (body, at_) :: msgs =>
      match decode d body at_ with
      | (d, Ok out) => let '(d, rest) := decode_all d msgs in (d, let? rest := rest in Ok (out ++ rest))
      | (d, Err e) => (d, Err e)
      end
  end.

(** A snapshot with one level per price and none of a negative size, as a venue sends them. *)
Definition sound_levels (l : list (Price * Qty)) : Prop := Forall (fun e => 0 <= e.2) l /\ NoDup (map fst l).
Definition sound_snapshot (msg : Value) : Prop := forall l,
  (parse_levels (Value.get msg "yes_dollars_fp") "yes_dollars_fp" = Ok l -> sound_levels l) /\
  (parse_levels (Value.get msg "no_dollars_fp") "no_dollars_fp" = Ok l -> sound_levels l).
Definition sound_body (body : string) : Prop := forall root msg,
  from_str body = inr root -> Value.get root "msg" = Some msg -> sound_snapshot msg.

(** The size resting at a price, nothing where there is no level. *)
Definition size_at (m : BTree Z Z) (p : Z) : Z := default 0 (bget p m).
(** The book a decoder's records have rebuilt: empty and stale, or fresh and, when the snapshots
    were [sound], with the decoder's sizes at every price. *)
Record tracks (sound : Prop) d b : Prop := {
  tracks_synced : is_synced d = true -> gap_reported d = false /\ b_status b = Some Fresh /\
    (sound -> (forall p, size_at (bids b) p = size_at (yes d) p) /\ (forall p, size_at (asks b) p = size_at (no d) (SCALE - p)));
  tracks_lost : is_synced d = false -> gap_reported d = true -> exists t, b_status b = Some (Stale t) /\ bids b = [] /\ asks b = [];
  tracks_new : is_synced d = false -> gap_reported d = false -> b = OrderBook.new;
}.

Definition replay_from b (records : list EventRecord) (instrument : string) : Result OrderBook :=
  foldr_res (fun book r =>
    match rec_event r with
    | EvBookSnapshot bids asks => OrderBook.apply_snapshot book bids asks (EventRecord.ts r)
    | EvBookDelta delta => OrderBook.apply_delta book instrument delta (EventRecord.ts r)
    | EvGap => Ok (OrderBook.mark_gap book (EventRecord.ts r))
    | _ => Ok book
    end) b records.

(** *** Levels *)
Definition total (l : list (Price * Qty)) (k : Z) : Z := foldr (fun e acc => (if keqb k e.1 then e.2 else 0) + acc) 0 l.
Lemma total_perm l l' k : l ≡ₚ l' -> total l k = total l' k.
Proof. unfold total. induction 1; cbn; lia. Qed.
Lemma total_complement l k : total (map (fun e => (SCALE - e.1, e.2)) l) k = total l (SCALE - k).
Proof.
  unfold total. induction l as [|e l IH]; [done|]. cbn. rewrite IH. f_equal. destruct (keqb k _) eqn:E1, (keqb (SCALE - k) _) eqn:E2; try done;
    (apply keqb_eq in E1 || apply keqb_neq in E1); (apply keqb_eq in E2 || apply keqb_neq in E2); lia.
Qed.
Lemma size_at_insert m k v p : size_at (binsert k v m) p = if keqb p k then v else size_at m p.
Proof. unfold size_at. rewrite bget_insert. by destruct (keqb p k). Qed.

(** Levels of distinct prices are loaded as they are, by a loop that keeps every level and by one
    that leaves those of no size out. *)
Lemma size_at_loaded (keep : Z * Z -> bool) l : sound_levels l -> (forall e, keep e = false -> e.2 <= 0) -> forall m,
  (forall k, k ∈ map fst l -> size_at m k = 0) ->
  forall k, size_at (fold_left (fun m e => if keep e then binsert e.1 e.2 m else m) l m) k = size_at m k + total l k.
Proof.
  intros [Hp Hd] Hkeep. induction l as [|e l IH]; intros m Hm k; cbn [fold_left]; [cbn; lia|].
  change (total (e :: l) k) with ((if keqb k e.1 then e.2 else 0) + total l k).
  apply NoDup_cons in Hd as [Hn Hd]. apply Forall_cons in Hp as [He Hp]. pose proof (Hm e.1 ltac:(left)) as Hz.
  assert (Hstep : forall k, size_at (if keep e then binsert e.1 e.2 m else m) k = size_at m k + (if keqb k e.1 then e.2 else 0)).
  { intros j. destruct (keep e) eqn:Ek; [rewrite size_at_insert|specialize (Hkeep _ Ek)]; destruct (keqb j e.1) eqn:E; try lia.
    apply keqb_eq in E as ->. lia. }
  rewrite (IH Hp Hd); [rewrite Hstep; lia|]. intros j Hj. rewrite Hstep, (Hm j) by by right.
  destruct (keqb j e.1) eqn:E; [|done]. apply keqb_eq in E as ->. done.
Qed.
Lemma load_side_size l k : sound_levels l -> size_at (OrderBook.load_side l) k = total l k.
Proof.
  intros Hl. unfold OrderBook.load_side. rewrite (size_at_loaded (fun e => is_positive e.2)); [done|done| |done].
  intros e. unfold is_positive. by intros ?%Z.ltb_ge.
Qed.
Lemma raw_levels_size l k : sound_levels l -> size_at (raw_levels l) k = total l k.
Proof. intros Hl. exact (size_at_loaded (fun _ => true) l Hl ltac:(done) [] ltac:(done) k). Qed.
Lemma sound_perm l l' : l ≡ₚ l' -> sound_levels l -> sound_levels l'.
Proof. intros Hl [Hp Hd]. split; by rewrite <- Hl. Qed.
Lemma complement_some p c : complement p = Ok c -> c = SCALE - p.
Proof. unfold complement, PROBABILITY_MAX. by intros [_ ->]%checked_sub_Ok. Qed.

(** Complementing the prices of a side complements its keys. *)
Lemma complemented l l' : map_res (fun e : Price * Qty => let? p := complement e.1 in Ok (p, e.2)) l = Ok l' ->
  l' = map (fun e => (SCALE - e.1, e.2)) l.
Proof.
  revert l'. induction l as [|e l IH]; intros l'; cbn; [by intros [= <-]|].
  destruct (complement e.1) as [c|] eqn:Ec; [|done]. apply complement_some in Ec as ->. cbn.
  destruct (map_res _ l) as [r|]; [|done]. intros [= <-]. by rewrite (IH r eq_refl).
Qed.
Lemma sound_complemented l : sound_levels l -> sound_levels (map (fun e : Price * Qty => (SCALE - e.1, e.2)) l).
Proof.
  intros [Hp Hd]. split; [by apply Forall_fmap|]. rewrite map_map. cbn. change (map (fun x : Z * Z => SCALE - x.1) l) with ((fun p => SCALE - p) ∘ fst <$> l).
  rewrite list_fmap_compose. apply NoDup_fmap_2; [intros x y; lia|exact Hd].
Qed.

(** A snapshot loads the book the decoder keeps. *)
Lemma snapshot_levels y n bs as_ : sound_levels y -> sound_levels n -> normalized_book y n = Ok (bs, as_) ->
  (forall p, size_at (OrderBook.load_side bs) p = size_at (raw_levels y) p) /\
  (forall p, size_at (OrderBook.load_side as_) p = size_at (raw_levels n) (SCALE - p)).
Proof.
  intros Hy Hn. unfold normalized_book. destruct (map_res _ n) as [asks|] eqn:Ea; [|done]. intros [= <- <-].
  apply complemented in Ea as ->. assert (Hs : forall (key : Price * Qty -> Z) (l : list (Price * Qty)), l ≡ₚ sort_by_key key l) by (intros; symmetry; apply hof_list_spec).
  pose proof (sound_complemented n Hn) as Hc. split; intros p.
  - rewrite load_side_size by by apply (sound_perm _ _ (Hs _ y)). by rewrite raw_levels_size, <- (total_perm _ _ p (Hs _ y)).
  - rewrite load_side_size by by apply (sound_perm _ _ (Hs _ _)). by rewrite raw_levels_size, <- (total_perm _ _ p (Hs _ _)), total_complement.
Qed.

(** *** One message *)
Lemma envelope_root d body kind seq msg : envelope d body = Ok (kind, seq, msg) ->
  exists root, from_str body = inr root /\ Value.get root "msg" = Some msg.
Proof.
  unfold envelope, parse_json. destruct (from_str body) as [e|root]; [done|]. cbn. intros H'. exists root. split; [done|].
  destruct (required_str root "type"); [|done]. cbn in H'. destruct (ok_or (Value.i64_field root "seq") _); [|done]. cbn in H'.
  destruct (Value.get root "msg") as [m|]; [|done]. cbn in H'. destruct (required_str m "market_ticker"); [|done]. cbn in H'.
  destruct (negb _); [done|]. by injection H' as _ _ <-.
Qed.

Lemma snapshot_inv msg y n bs as_ : sound_snapshot msg -> snapshot_of msg = Ok (y, n, (bs, as_)) ->
  (forall p, size_at (OrderBook.load_side bs) p = size_at y p) /\ (forall p, size_at (OrderBook.load_side as_) p = size_at n (SCALE - p)).
Proof.
  intros Hs. unfold snapshot_of. destruct (parse_levels (Value.get msg "yes_dollars_fp") _) as [ly|] eqn:Ey; [|done]. cbn.
  destruct (parse_levels (Value.get msg "no_dollars_fp") _) as [ln|] eqn:En; [|done]. cbn.
  destruct (normalized_book ly ln) as [[bs' as']|] eqn:Eb; [|done]. cbn. intros [= <- <- <- <-].
  apply snapshot_levels; [by apply (proj1 (Hs ly))|by apply (proj2 (Hs ln))|done].
Qed.

Lemma desync_tracks {P : Prop} d b at_ i : tracks P d b ->
  exists b', replay_from b (desync d at_).2 i = Ok b' /\ tracks P (desync d at_).1 b'.
Proof.
  intros [Hs Hl Hn]. unfold desync. cbn. destruct (gap_reported d) eqn:Eg.
  - exists b. split; [done|]. split; cbn; [done| |congruence]. intros _ _. destruct (desynced d) eqn:Ed.
    + apply Hl; [|done]. unfold is_synced. by rewrite Ed.
    + destruct Hs as [Hf _]; [unfold is_synced; by rewrite Ed|congruence].
  - eexists. split; [done|]. split; cbn; [done| |done]. intros _ _. by exists at_.
Qed.
Lemma tracks_renumber {P : Prop} d b seq run : tracks P d b -> tracks P (d <| stale_run := run |> <| last_seq := seq |>) b.
Proof. intros [Hs Hl Hn]. by split. Qed.

(** A delta moves the level it names and no other. *)
Lemma set_levels_get d side l d' : d' = set_levels d side l ->
  is_synced d' = is_synced d /\ gap_reported d' = gap_reported d /\ yes d' = (if side then l else yes d) /\ no d' = (if side then no d else l).
Proof. intros ->. by destruct side. Qed.

Lemma complement_keyed p c x : complement p = Ok c -> keqb (SCALE - x) p = keqb x c.
Proof.
  intros Hc. apply complement_some in Hc as ->. destruct (keqb x (SCALE - p)) eqn:E.
  - apply keqb_eq in E as ->. apply keqb_eq. lia.
  - apply keqb_neq in E. apply keqb_neq. lia.
Qed.
Lemma bget_remove (m : BTree Z Z) k j : bget j (bremove k m) = if keqb j k then None else bget j m.
Proof.
  destruct (keqb j k) eqn:E; [apply keqb_eq in E as ->; apply bget_remove_eq|apply keqb_neq in E; by apply bget_remove_ne].
Qed.

Lemma change_inv msg ev side cside p c change : change_of msg = Ok (ev, (side, cside), (p, c), change) ->
  (side = true /\ cside = Buy /\ c = p) \/ (side = false /\ cside = Sell /\ complement p = Ok c).
Proof.
  unfold change_of. destruct (message_time msg); [|done]. cbn. destruct (required_str msg "side") as [sd|]; [|done]. cbn.
  destruct (decimal msg "price_dollars"); [|done]. cbn. destruct (price_from_f64 _) as [p'|]; [|done]. cbn.
  destruct (decimal msg "delta_fp"); [|done]. cbn. destruct (qty_from_f64 _); [|done]. cbn.
  destruct (String.eqb sd "yes"); [intros [= _ <- <- <- <- _]; by left|]. destruct (String.eqb sd "no"); [|done].
  destruct (complement p') as [c'|] eqn:Ec; [|done]. cbn. intros [= _ <- <- <- <- _]. by right.
Qed.

Lemma apply_change_tracks {P : Prop} d b msg at_ i d' out : tracks P d b -> is_synced d = true -> apply_change d msg at_ = (d', Ok out) ->
  exists b', replay_from b out i = Ok b' /\ tracks P d' b'.
Proof.
  intros Ht Hsync. unfold apply_change. destruct (change_of msg) as [[[[ev [side cside]] [p c]] change]|] eqn:Ec; [|done].
  set (updated := add64 _ change). destruct (Z.ltb_spec updated 0) as [|Hu].
  { destruct (desync d at_) as [d2 o2] eqn:Ed. intros [= <- <-]. pose proof (desync_tracks d b at_ i Ht) as Hd. by rewrite Ed in Hd. }
  destruct (tracks_synced _ _ _ Ht Hsync) as (Hg & Hf & Hlev).
  assert (Stamps.new (Z.min ev at_) at_ = Ok (mkStamps (Z.min ev at_) at_)) as ->.
  { unfold Stamps.new. by destruct (Z.ltb_spec at_ (Z.min ev at_)); [lia|]. }
  assert (Hgo : forall l delta, (forall q x, keqb q p = keqb x c -> bget x (OrderBook.delta_side delta (if side then bids b else asks b)) =
      if keqb q p then bget q l else bget x (if side then bids b else asks b)) -> (forall q, keqb q p = false -> bget q l = bget q (levels d side)) ->
    d_side delta = cside -> exists b', OrderBook.apply_delta b i delta at_ = Ok b' /\ tracks P (set_levels d side l) b').
  { intros l delta Hget Hrest Hside. unfold OrderBook.apply_delta. rewrite Hf. eexists. split; [done|].
    destruct (change_inv _ _ _ _ _ _ _ Ec) as [(-> & -> & ->)|(-> & -> & Hc)]; rewrite Hside; cbn in Hget, Hrest;
      (split; [|unfold is_synced in *; cbn; congruence|unfold is_synced in *; cbn; congruence]); intros _; cbn; (split; [done|]); (split; [done|]).
    - intros [Hb Ha]%Hlev. split; [|done]. intros x. unfold size_at. rewrite (Hget x x eq_refl). destruct (keqb x p) eqn:E; [done|]. rewrite Hrest by done. apply Hb.
    - intros [Hb Ha]%Hlev. split; [done|]. intros x. unfold size_at. rewrite (Hget (SCALE - x) x) by by apply complement_keyed.
      destruct (keqb (SCALE - x) p) eqn:E; [done|]. rewrite Hrest by done. apply Ha. }
  destruct (Z.eqb_spec updated 0) as [Hz|Hz]; intros [= <- <-]; cbn [replay_from foldr_res rec_event EventRecord.new].
  - destruct (Hgo (bremove p (levels d side)) (BookDelta.delete cside c)) as (b' & E & Ht'); [..|exists b'; change (EventRecord.ts _) with at_; by rewrite E]; try done.
    + intros q x Hq. cbn. rewrite !bget_remove, <- Hq. by destruct (keqb q p).
    + intros q Hq. by rewrite bget_remove, Hq.
  - destruct (Hgo (binsert p updated (levels d side)) (BookDelta.set cside c updated)) as (b' & E & Ht'); [..|exists b'; change (EventRecord.ts _) with at_; by rewrite E]; try done.
    + intros q x Hq. unfold OrderBook.delta_side. cbn. unfold is_positive. rewrite (proj2 (Z.ltb_lt 0 updated)) by lia. rewrite !bget_insert, <- Hq. by destruct (keqb q p).
    + intros q Hq. by rewrite bget_insert, Hq.
Qed.

Lemma decode_tracks {P : Prop} d b body at_ i d' out : tracks P d b -> (P -> sound_body body) -> decode d body at_ = (d', Ok out) ->
  exists b', replay_from b out i = Ok b' /\ tracks P d' b'.
Proof.
  intros Ht Hs. unfold decode. destruct (envelope d body) as [[[kind seq] msg]|] eqn:Ee; [|done].
  destruct (envelope_root _ _ _ _ _ Ee) as (root & Hr & Hm). assert (Hsn : P -> sound_snapshot msg) by (intros HP; by apply (Hs HP root msg)). clear Hs.
  set (step := Step.of_seq _ _ _). destruct (String.eqb kind "orderbook_snapshot"); [|destruct (String.eqb kind "orderbook_delta"); [|done]].
  - unfold on_snapshot. destruct (snapshot_of msg) as [[[y n] [bs as_]]|] eqn:Esn; [|done]. intros [= <- <-].
    assert (Hload : forall b0, exists b', OrderBook.apply_snapshot b0 bs as_ at_ = Ok b' /\
      tracks P (mkOrderbookDecoder (od_ticker d) (Some seq) false 0 false y n) b').
    { intros b0. eexists. split; [done|]. split; [|done|done]. intros _. cbn. split; [done|]. split; [done|].
      intros HP. exact (snapshot_inv _ _ _ _ _ (Hsn HP) Esn). }
    case_bool_decide; [destruct (Hload b) as (b' & E & Ht')|destruct (Hload (OrderBook.mark_gap b at_)) as (b' & E & Ht')];
      exists b'; (split; [|done]); exact (f_equal (fun r => let? x := r in Ok x) E).
  - unfold on_delta. assert (Hlost : forall d1, tracks P d1 b -> (let '(d2, o) := desync d1 at_ in (d2, Ok (E:=BacktestError) o)) = (d', Ok out) ->
      exists b', replay_from b out i = Ok b' /\ tracks P d' b').
    { intros d1 H1. pose proof (desync_tracks d1 b at_ i H1) as Hd. destruct (desync d1 at_) as [d2 o]. by intros [= <- <-]. }
    assert (Hren : forall run, tracks P (d <| stale_run := run |> <| last_seq := Some seq |>) b) by (intros run; by apply tracks_renumber).
    destruct step; [|by apply Hlost, Hren| |by apply Hlost, Hren].
    + set (d1 := d <| stale_run := 0 |> <| last_seq := Some seq |>). destruct (desynced d1) eqn:Ed; [by apply Hlost, Hren|].
      apply apply_change_tracks; [by apply Hren|]. unfold is_synced. by rewrite Ed.
    + intros [= <- <-]. exists b. split; [done|]. destruct Ht. by split.
Qed.

Lemma decode_all_tracks {P : Prop} msgs d b i d' out : tracks P d b -> (P -> Forall (fun m => sound_body m.1) msgs) -> decode_all d msgs = (d', Ok out) ->
  exists b', replay_from b out i = Ok b' /\ tracks P d' b'.
Proof.
  revert d b out. induction msgs as [|[body at_] msgs IH]; intros d b out Ht Hs; cbn.
  - intros [= <- <-]. by exists b.
  - assert (Hb : P -> sound_body body) by (intros HP; specialize (Hs HP); by inversion Hs).
    assert (Hs' : P -> Forall (fun m => sound_body m.1) msgs) by (intros HP; specialize (Hs HP); by inversion Hs). destruct (decode d body at_) as [d1 [o|]] eqn:E1; [|done].
    destruct (decode_tracks _ _ _ _ i _ _ Ht Hb E1) as (b1 & R1 & T1). destruct (decode_all d1 msgs) as [d2 [r|]] eqn:E2; [|done].
    intros [= <- <-]. destruct (IH d1 b1 r T1 Hs' E2) as (b2 & R2 & T2). exists b2. split; [|done].
    unfold replay_from in *. by rewrite foldr_res_app, R1.
Qed.

(** C26 The records of the decoder drive an order book.  Whatever messages it read, replaying
    what it emitted succeeds: no delta reaches a stale book.  While the decoder says it is in
    step the book is fresh; once it has reported a gap the book is empty and stale.  When every
    snapshot it read had one level per price and no negative size, the book of a decoder in step
    has exactly its size at every price, the [no] side at complemented prices.  (A level of size
    zero, which the decoder keeps and the book leaves out, counts as no size.) *)
Theorem decoder_drives_book ticker d0 msgs d records : new ticker = Ok d0 -> decode_all d0 msgs = (d, Ok records) ->
  exists b, MarketStore.MarketStore.replay_book records ticker = Ok b /\ tracks (Forall (fun m => sound_body m.1) msgs) d b.
Proof.
  intros Hn Hd. apply (decode_all_tracks msgs d0 OrderBook.new ticker); [|done|done].
  unfold new in Hn. destruct (InstrumentId.new ticker) as [id|]; [|done]. injection Hn as <-. by split.
Qed.

(** *** Against the venue's numbering *)

(** Following the numbering from sequence [n] and the levels [y], [l] on: every delta is the
    next one and is applied, or is at or below the last one and is left out. *)
Definition put (l : BTree Z Z) (price updated : Z) : BTree Z Z := if updated =? 0 then bremove price l else binsert price updated l.
Inductive followed (d0 : OrderbookDecoder) (s : Z * BTree Z Z * BTree Z Z) : list (string * UnixNanos) -> Z * BTree Z Z * BTree Z Z -> Prop :=
| followed_nil : followed d0 s [] s
| followed_resend msgs body at_ seq msg n y l : followed d0 s msgs (n, y, l) ->
    envelope d0 body = Ok ("orderbook_delta", seq, msg) -> seq <= n -> followed d0 s (msgs ++ [(body, at_)]) (n, y, l)
| followed_next msgs body at_ seq msg n y l ev side cside price c change updated : followed d0 s msgs (n, y, l) ->
    envelope d0 body = Ok ("orderbook_delta", seq, msg) -> seq = sat64 (n + 1) ->
    change_of msg = Ok (ev, (side, cside), (price, c), change) ->
    updated = add64 (default 0 (bget price (if side then y else l))) change -> 0 <= updated ->
    followed d0 s (msgs ++ [(body, at_)]) (seq, if side then put y price updated else y, if side then l else put l price updated).

Lemma decode_all_snoc d msgs body at_ : decode_all d (msgs ++ [(body, at_)]) =
  match decode_all d msgs with
  | (d1, Ok out) => match decode d1 body at_ with (d2, Ok o) => (d2, Ok (out ++ o)) | (d2, Err e) => (d2, Err e) end
  | (d1, Err e) => (d1, Err e)
  end.
Proof.
  revert d. induction msgs as [|[body' at'] msgs IH]; intros d; cbn.
  - destruct (decode d body at_) as [d1 [o|e]]; [by rewrite app_nil_r|done].
  - destruct (decode d body' at') as [d1 [o|e]]; [|done]. rewrite IH. destruct (decode_all d1 msgs) as [d2 [r|e]]; [|done].
    destruct (decode d2 body at_) as [d3 [o'|e]]; [by rewrite app_assoc|done].
Qed.

(** What a message that leaves the decoder in step did. *)
Lemma desync_out d at_ : is_synced (desync d at_).1 = false.
Proof. unfold desync. cbn. by destruct (gap_reported d). Qed.
Lemma desync_ticker d at_ : od_ticker (desync d at_).1 = od_ticker d.
Proof. unfold desync. cbn. by destruct (gap_reported d). Qed.
Lemma envelope_ticker d d' body : od_ticker d = od_ticker d' -> envelope d body = envelope d' body.
Proof. intros E. unfold envelope. by rewrite E. Qed.
Lemma decode_ticker d body at_ : od_ticker (decode d body at_).1 = od_ticker d.
Proof.
  unfold decode. destruct (envelope d body) as [[[kind seq] msg]|]; [|done]. set (step := Step.of_seq _ _ _).
  destruct (String.eqb kind _); [unfold on_snapshot; by destruct (snapshot_of msg) as [[[y n] [bs as_]]|]|].
  destruct (String.eqb kind _); [|done]. unfold on_delta.
  assert (Hlost : forall d1, od_ticker (let '(d2, o) := desync d1 at_ in (d2, Ok (E:=BacktestError) o)).1 = od_ticker d1).
  { intros d1. pose proof (desync_ticker d1 at_). by destruct (desync d1 at_). }
  destruct step; [|by rewrite Hlost|done|by rewrite Hlost]. destruct (desynced _); [by rewrite Hlost|]. unfold apply_change.
  destruct (change_of msg) as [[[[ev [side cside]] [p c]] change]|]; [|done]. destruct (_ <? 0); [by rewrite Hlost|].
  destruct (_ =? 0); by destruct side.
Qed.
Lemma apply_change_synced d msg at_ d' out : apply_change d msg at_ = (d', Ok out) -> is_synced d' = true ->
  exists ev side cside price c change updated, change_of msg = Ok (ev, (side, cside), (price, c), change) /\
    updated = add64 (default 0 (bget price (if side then yes d else no d))) change /\ 0 <= updated /\ last_seq d' = last_seq d /\
    yes d' = (if side then put (yes d) price updated else yes d) /\ no d' = (if side then no d else put (no d) price updated).
Proof.
  unfold apply_change. destruct (change_of msg) as [[[[ev [side cside]] [p c]] change]|] eqn:Ec; [|done].
  set (updated := add64 _ change). destruct (Z.ltb_spec updated 0) as [|Hu].
  { pose proof (desync_out d at_) as Hd. destruct (desync d at_) as [d2 o2]. intros [= <- _] Hs. cbn in Hd. congruence. }
  intros Hr Hs. exists ev, side, cside, p, c, change, updated. split; [done|]. split; [by destruct side|]. split; [done|]. revert Hr. unfold put.
  destruct (updated =? 0); destruct (Stamps.new _ _) as [st|]; intros [= <- _]; by destruct side.
Qed.

Lemma decode_synced d body at_ d' out : decode d body at_ = (d', Ok out) -> is_synced d' = true ->
  exists seq msg,
    (exists y n book, envelope d body = Ok ("orderbook_snapshot", seq, msg) /\ snapshot_of msg = Ok (y, n, book) /\
       last_seq d' = Some seq /\ yes d' = y /\ no d' = n) \/
    (is_synced d = true /\ envelope d body = Ok ("orderbook_delta", seq, msg) /\
       ((Step.of_seq (last_seq d) seq (stale_run d) = StepStale /\ last_seq d' = last_seq d /\ yes d' = yes d /\ no d' = no d) \/
        (Step.of_seq (last_seq d) seq (stale_run d) = InOrder /\ last_seq d' = Some seq /\
          exists ev side cside price c change updated, change_of msg = Ok (ev, (side, cside), (price, c), change) /\
            updated = add64 (default 0 (bget price (if side then yes d else no d))) change /\ 0 <= updated /\
            yes d' = (if side then put (yes d) price updated else yes d) /\ no d' = (if side then no d else put (no d) price updated)))).
Proof.
  unfold decode. destruct (envelope d body) as [[[kind seq] msg]|] eqn:Ee; [|done]. set (step := Step.of_seq _ _ _).
  destruct (String.eqb_spec kind "orderbook_snapshot") as [->|_].
  { unfold on_snapshot. destruct (snapshot_of msg) as [[[y n] [bs as_]]|] eqn:Es; [|done]. intros [= <- _] _.
    exists seq, msg. left. by exists y, n, (bs, as_). }
  destruct (String.eqb_spec kind "orderbook_delta") as [->|_]; [|done]. unfold on_delta.
  assert (Hlost : forall d1, (let '(d2, o) := desync d1 at_ in (d2, Ok (E:=BacktestError) o)) = (d', Ok out) -> is_synced d' = true -> False).
  { intros d1. pose proof (desync_out d1 at_) as Hd. destruct (desync d1 at_) as [d2 o]. intros [= <- _] Hs. cbn in Hd. congruence. }
  destruct step eqn:Est; [|by intros E Hs; destruct (Hlost _ E Hs)| |by intros E Hs; destruct (Hlost _ E Hs)].
  - destruct (desynced _) eqn:Ed; [by intros E Hs; destruct (Hlost _ E Hs)|]. intros Hr Hs. exists seq, msg. right. split; [unfold is_synced; cbn in Ed; by rewrite Ed|]. split; [done|].
    right. split; [done|]. destruct (apply_change_synced _ _ _ _ _ Hr Hs) as (ev & side & cside & p & c & change & u & Hc & Hu & H0u & Hl & Hy & Hno).
    split; [by rewrite Hl|]. by exists ev, side, cside, p, c, change, u.
  - intros [= <- _] Hs. exists seq, msg. right. split; [done|]. split; [done|]. by left.
Qed.

(** What a decoder that says it is in step has read: a snapshot, and after it only messages of
    the numbering. *)
Definition anchored d0 (msgs : list (string * UnixNanos)) d : Prop := exists pre body at_ post seq msg y n book last,
  msgs = pre ++ (body, at_) :: post /\ envelope d0 body = Ok ("orderbook_snapshot", seq, msg) /\
  snapshot_of msg = Ok (y, n, book) /\ last_seq d = Some last /\ followed d0 (seq, y, n) post (last, yes d, no d).

Lemma anchored_snoc d0 msgs d1 body at_ d2 out : od_ticker d1 = od_ticker d0 -> (is_synced d1 = true -> anchored d0 msgs d1) ->
  decode d1 body at_ = (d2, Ok out) -> is_synced d2 = true -> anchored d0 (msgs ++ [(body, at_)]) d2.
Proof.
  intros Ht Ha Hd Hs. destruct (decode_synced _ _ _ _ _ Hd Hs) as (seq & msg & [(y & n & bk & He & Hsn & Hl & Hy & Hn)|(Hs1 & He & Hcase)]).
  { exists msgs, body, at_, [], seq, msg, y, n, bk, seq. rewrite Hy, Hn, <- (envelope_ticker d1 d0) by done. repeat (split; [done|]). constructor. }
  destruct (Ha Hs1) as (pre & sb & sat & post & sq & sm & y & n & bk & last & -> & Hse & Hsn & Hl & Hf).
  rewrite (envelope_ticker d1 d0) in He by done.
  destruct Hcase as [(Hst & Hl' & Hy & Hn)|(Hst & Hl' & ev & side & cside & p & c & change & u & Hc & Hu & H0u & Hy & Hn)].
  - exists pre, sb, sat, (post ++ [(body, at_)]), sq, sm, y, n, bk, last. rewrite <- app_assoc, Hl', Hy, Hn. repeat (split; [done|]).
    eapply followed_resend; [done..|]. revert Hst. rewrite Hl. unfold Step.of_seq.
    destruct (seq =? _); [done|]. by destruct (Z.leb_spec seq last).
  - exists pre, sb, sat, (post ++ [(body, at_)]), sq, sm, y, n, bk, seq. rewrite <- app_assoc, Hl', Hy, Hn. repeat (split; [done|]).
    eapply followed_next; [done|done| |done|done|done]. revert Hst. rewrite Hl. unfold Step.of_seq.
    destruct (Z.eqb_spec seq (sat64 (last + 1))); [done|]. destruct (seq <=? last); [by destruct (_ || _)|done].
Qed.

Lemma decode_all_anchored msgs d0 d out : is_synced d0 = false -> decode_all d0 msgs = (d, Ok out) ->
  od_ticker d = od_ticker d0 /\ (is_synced d = true -> anchored d0 msgs d).
Proof.
  intros Hn. revert d out. induction msgs as [|[body at_] msgs IH] using rev_ind; intros d out.
  { intros [= <- _]. split; [done|]. congruence. }
  rewrite decode_all_snoc. destruct (decode_all d0 msgs) as [d1 [o|]] eqn:E1; [|done]. destruct (IH d1 o eq_refl) as [Ht Ha].
  pose proof (decode_ticker d1 body at_) as Ht2. destruct (decode d1 body at_) as [d2 [o2|]] eqn:E2; [|done]. intros [= <- _].
  split; [cbn in Ht2; by rewrite Ht2|]. intros Hs. by apply (anchored_snoc d0 msgs d1 body at_ d2 o2).
Qed.

(** A venue that numbers its deltas: one delta for a number, which changes the size at one price
    of one side of its book.  A venue that restarts its numbering is none. *)
Record Venue := {
  delta_numbered : Z -> bool * Price * Z;
  book_at : Z -> bool -> Price -> Qty;
  book_step seq side p : book_at (seq + 1) side p = book_at seq side p +
    (let '(side', p', change) := delta_numbered (seq + 1) in if Bool.eqb side side' && (p =? p') then change else 0);
  book_range seq side p : 0 <= book_at seq side p <= i64_max;
}.
(** The levels are the venue's book at a number. *)
Definition holds_book (v : Venue) (seq : Z) (y n : BTree Z Z) : Prop :=
  forall p, size_at y p = book_at v seq true p /\ size_at n p = book_at v seq false p.
(** A message the venue sends: a snapshot is its book at the number it carries, a delta the one
    of its number. *)
Definition sent_by (v : Venue) d0 (body : string) : Prop := forall kind seq msg, envelope d0 body = Ok (kind, seq, msg) ->
  i64_min <= seq < i64_max /\
  (kind = "orderbook_snapshot" -> forall y n book, snapshot_of msg = Ok (y, n, book) -> holds_book v seq y n) /\
  (kind = "orderbook_delta" -> forall ev side cside price c change,
     change_of msg = Ok (ev, (side, cside), (price, c), change) -> delta_numbered v seq = (side, price, change)).
(** A delta numbered at most [last]. *)
Definition delta_up_to d0 (last : Z) (m : string * UnixNanos) : Prop := exists seq msg,
  envelope d0 m.1 = Ok ("orderbook_delta", seq, msg) /\ seq <= last.

Lemma keqb_Z (p k : Z) : keqb p k = (p =? k).
Proof. destruct (keqb p k) eqn:E; [apply keqb_eq in E as ->; by rewrite Z.eqb_refl|apply keqb_neq in E; symmetry; by apply Z.eqb_neq]. Qed.
Lemma size_at_put l price updated p : size_at (put l price updated) p = if p =? price then updated else size_at l p.
Proof.
  unfold put, size_at. pose proof (keqb_Z p price) as He.
  destruct (Z.eqb_spec updated 0) as [->|_].
  - rewrite bget_remove, He. by destruct (p =? price).
  - rewrite bget_insert, He. by destruct (p =? price).
Qed.
Lemma holds_next v seq y n side price change : holds_book v seq y n -> delta_numbered v (seq + 1) = (side, price, change) ->
  let updated := add64 (default 0 (bget price (if side then y else n))) change in
  holds_book v (seq + 1) (if side then put y price updated else y) (if side then n else put n price updated).
Proof.
  intros Hh Hd updated. assert (updated = book_at v (seq + 1) side price) as Hu.
  { pose proof (book_range v (seq + 1) side price) as Hr. pose proof (book_step v seq side price) as Hs. rewrite Hd, Bool.eqb_reflx, Z.eqb_refl in Hs. cbn in Hs.
    assert (default 0 (bget price (if side then y else n)) = book_at v seq side price) as Hb by (destruct (Hh price), side; done).
    unfold updated. rewrite Hb. unfold add64. rewrite wrap64_id; [lia|]. unfold in_i64, i64_min, i64_max in *. lia. }
  intros p. pose proof (book_step v seq true p) as Ht. pose proof (book_step v seq false p) as Hf. rewrite Hd in Ht, Hf. cbn in Ht, Hf.
  destruct (Hh p) as [Hy Hn]. destruct side; cbn in Ht, Hf; rewrite size_at_put; revert Ht Hf;
    destruct (Z.eqb_spec p price) as [Hp|_]; try rewrite Hp in *; intros Ht Hf; split; lia.
Qed.
Lemma followed_holds v d0 s post s' : followed d0 s post s' -> Forall (fun m => sent_by v d0 m.1) post ->
  i64_min <= s.1.1 < i64_max -> holds_book v s.1.1 s.1.2 s.2 ->
  s.1.1 <= s'.1.1 < i64_max /\ holds_book v s'.1.1 s'.1.2 s'.2 /\ Forall (delta_up_to d0 s'.1.1) post.
Proof.
  induction 1 as [|msgs body at_ seq msg n y l _ IH He Hle|msgs body at_ seq msg n y l ev side cside price c change u _ IH He Hq Hc Hu _];
    intros Hs Hr Hb; [split; [lia|done]|..]; apply Forall_app in Hs as [Hs [Hm _]%Forall_cons]; destruct (IH Hs Hr Hb) as (Hr' & Hb' & Hf); cbn [fst snd] in *.
  - split; [done|]. split; [done|]. apply Forall_app. split; [done|]. constructor; [|done]. by exists seq, msg.
  - destruct (Hm _ _ _ He) as (Hr2 & _ & Hd). assert (seq = n + 1) as ->.
    { revert Hq. unfold sat64, i64_min, i64_max in *. lia. }
    subst u. split; [lia|]. split; [by eapply holds_next; [|eapply Hd]|]. apply Forall_app. split.
    + eapply Forall_impl; [exact Hf|]. intros m (q & msg' & He' & Hq'). exists q, msg'. split; [done|lia].
    + constructor; [|done]. by exists (n + 1), msg.
Qed.

(** C27 A decoder in step holds the venue's book.  Let the messages be those of a venue that
    numbers its deltas, one delta for a number, and sends snapshots of its book.  When every
    message was read and the decoder says it is in step, its levels are the venue's book at the
    last number it took; it read a snapshot, and every message after that snapshot is a delta
    numbered up to the last one: nothing was missed, doubled, or left out.  (What the statement
    leaves out: a message that cannot be read, and a venue that restarts its numbering.) *)
Theorem synced_follows_the_venue v ticker d0 msgs d records : new ticker = Ok d0 -> Forall (fun m => sent_by v d0 m.1) msgs ->
  decode_all d0 msgs = (d, Ok records) -> is_synced d = true ->
  exists last, last_seq d = Some last /\ holds_book v last (yes d) (no d) /\
    exists pre body at_ post seq msg, msgs = pre ++ (body, at_) :: post /\ envelope d0 body = Ok ("orderbook_snapshot", seq, msg) /\
      seq <= last /\ Forall (delta_up_to d0 last) post.
Proof.
  intros Hn Hsent Hd Hs. assert (is_synced d0 = false) as Hnew.
  { unfold new in Hn. destruct (InstrumentId.new ticker); [|done]. by injection Hn as <-. }
  destruct (decode_all_anchored msgs d0 d records Hnew Hd) as [_ Ha].
  destruct (Ha Hs) as (pre & body & at_ & post & seq & msg & y & n & book & last & -> & He & Hsn & Hl & Hf).
  apply Forall_app in Hsent as [_ [Hb Hpost]%Forall_cons]. destruct (Hb _ _ _ He) as (Hr & Hbook & _).
  destruct (followed_holds v _ _ _ _ Hf Hpost Hr (Hbook eq_refl _ _ _ Hsn)) as (Hle & Hh & Hall).
  exists last. split; [done|]. split; [done|]. exists pre, body, at_, post, seq, msg. repeat (split; [done|]). split; [|done]. cbn in Hle. lia.
Qed.
End Decoder.

(** ** The calendar of the Polymarket parser *)
Section Calendar.
Import instant.

(** The Gregorian calendar, a day at a time. *)
Definition leap (y : Z) : bool := (y mod 4 =? 0) && negb (y mod 100 =? 0) || (y mod 400 =? 0).
Definition month_length (y m : Z) : Z :=
  if m =? 2 then if leap y then 29 else 28 else if (m =? 4) || (m =? 6) || (m =? 9) || (m =? 11) then 30 else 31.
Definition next_day (date : Z * Z * Z) : Z * Z * Z :=
  let '(y, m, d) := date in
  if d <? month_length y m then (y, m, d + 1) else if m <? 12 then (y, m + 1, 1) else (y + 1, 1, 1).
Definition civil_date (date : Z * Z * Z) : Prop :=
  let '(y, m, d) := date in 0 <= y /\ 1 <= m <= 12 /\ 1 <= d <= month_length y m.

Definition day_number (date : Z * Z * Z) : Z := let '(y, m, d) := date in days_from_civil y m d.

Lemma month_length_range y m : 28 <= month_length y m <= 31.
Proof. unfold month_length. destruct (m =? 2); [destruct (leap y)|destruct (_ || _)]; lia. Qed.
Lemma next_day_civil date : civil_date date -> civil_date (next_day date).
Proof.
  destruct date as [[y m] d]. intros (Hy & Hm & Hd). cbn -[month_length]. pose proof (month_length_range y m). pose proof (month_length_range y (m + 1)).
  pose proof (month_length_range (y + 1) 1). destruct (Z.ltb_spec d (month_length y m)); [cbn -[month_length]; lia|].
  destruct (Z.ltb_spec m 12); cbn -[month_length]; lia.
Qed.

(** The days before the first of March of a year. *)
Definition march (y : Z) : Z := 365 * y + y / 4 - y / 100 + y / 400 - 719468.
Lemma days_from_march y m d : 0 <= y -> 1 <= m <= 12 ->
  days_from_civil y m d = march (if m <=? 2 then y - 1 else y) + (153 * ((m + 9) mod 12) + 2) / 5 + d - 1.
Proof.
  intros Hy Hm. unfold days_from_civil, march. set (y' := if m <=? 2 then y - 1 else y). assert (-1 <= y') by (subst y'; destruct (m <=? 2); lia).
  clearbody y'. assert (Z.quot (if 0 <=? y' then y' else y' - 399) 400 = y' / 400) as ->.
  { destruct (Z.leb_spec 0 y'); [by rewrite Z.quot_div_nonneg by lia|]. assert (y' = -1) as -> by lia. done. }
  assert (0 <= y' - y' / 400 * 400 < 400) by (pose proof (Z.mod_pos_bound y' 400); rewrite (Z.mod_eq y' 400) in *; lia).
  rewrite !Z.quot_div_nonneg by (try (apply Z.add_nonneg_nonneg; [apply Z.mul_nonneg_nonneg; [lia|apply Z.rem_nonneg; lia]|lia]); lia).
  rewrite Z.rem_mod_nonneg by lia.
  assert ((y' - y' / 400 * 400) / 4 = y' / 4 - 100 * (y' / 400)) as -> by (Z.to_euclidean_division_equations; lia).
  assert ((y' - y' / 400 * 400) / 100 = y' / 100 - 4 * (y' / 400)) as -> by (Z.to_euclidean_division_equations; lia). lia.
Qed.
Lemma march_next y : march y = march (y - 1) + 365 + (if leap y then 1 else 0).
Proof.
  unfold march, leap. destruct (Z.eqb_spec (y mod 4) 0), (Z.eqb_spec (y mod 100) 0), (Z.eqb_spec (y mod 400) 0); cbn;
    Z.to_euclidean_division_equations; lia.
Qed.

Lemma day_number_next date : civil_date date -> day_number (next_day date) = day_number date + 1.
Proof.
  destruct date as [[y m] d]. intros (Hy & Hm & Hd). cbn -[month_length days_from_civil].
  destruct (Z.ltb_spec d (month_length y m)) as [|Hl]; cbn -[month_length days_from_civil].
  { rewrite !days_from_march by lia. lia. }
  assert (d = month_length y m) as -> by lia. clear Hd Hl. pose proof (march_next y) as Hn.
  destruct (Z.ltb_spec m 12); cbn -[month_length days_from_civil]; rewrite !days_from_march by lia.
  - assert (m = 1 \/ m = 2 \/ m = 3 \/ m = 4 \/ m = 5 \/ m = 6 \/ m = 7 \/ m = 8 \/ m = 9 \/ m = 10 \/ m = 11) as Hc by lia.
    clear Hm H. revert Hn. unfold month_length. destruct (leap y); destruct_or? Hc; subst m; cbn -[march];
      repeat match goal with |- context [Z.leb ?a ?b] => destruct (Z.leb_spec a b); try lia end; intros; Z.to_euclidean_division_equations; lia.
  - assert (m = 12) as -> by lia. replace (y + 1 - 1) with y by lia. unfold month_length. cbn -[march]. Z.to_euclidean_division_equations; lia.
Qed.

(** Every date from the year zero on is that many days after its first. *)
Definition date_of_day (n : nat) : Z * Z * Z := Nat.iter n next_day (0, 1, 1).
Lemma date_of_day_civil n : civil_date (date_of_day n).
Proof. induction n as [|n IH]; [by cbn; lia|]. by apply next_day_civil. Qed.
Lemma date_of_day_number n : day_number (date_of_day n) = Z.of_nat n - 719528.
Proof.
  induction n as [|n IH]; [done|]. rewrite Nat2Z.inj_succ. change (date_of_day (S n)) with (next_day (date_of_day n)).
  rewrite day_number_next by apply date_of_day_civil. rewrite IH. lia.
Qed.
Lemma next_days date k : 0 <= k -> date.2 + k <= month_length date.1.1 date.1.2 ->
  Nat.iter (Z.to_nat k) next_day date = (date.1, date.2 + k).
Proof.
  destruct date as [[y m] d]. cbn [fst snd]. intros Hk. rewrite <- (Z2Nat.id k) at 1 3 by done. generalize (Z.to_nat k) as n. clear k Hk.
  induction n as [|n IH]; intros Hle; [by rewrite Z.add_0_r|]. rewrite Nat2Z.inj_succ in Hle |- *. rewrite Nat.iter_succ, IH by lia.
  cbn -[month_length]. destruct (Z.ltb_spec (d + Z.of_nat n) (month_length y m)); [f_equal; lia|lia].
Qed.
Lemma reached date : civil_date date -> exists n, date = date_of_day n.
Proof.
  destruct date as [[y m] d]. intros (Hy & Hm & Hd).
  assert (Hin : forall y m, (exists n, (y, m, 1) = date_of_day n) -> forall d, 1 <= d <= month_length y m -> exists n, (y, m, d) = date_of_day n).
  { intros y' m' [n Hn] d' Hd'. exists (Z.to_nat (d' - 1) + n)%nat. unfold date_of_day in *. rewrite Nat.iter_add, <- Hn, next_days by (cbn; lia). cbn. f_equal. lia. }
  assert (Hyear : forall y, (exists n, (y, 1, 1) = date_of_day n) -> forall m, 1 <= m <= 12 -> exists n, (y, m, 1) = date_of_day n).
  { intros y' Hj m' Hm'. replace m' with (Z.of_nat (Z.to_nat (m' - 1)) + 1) in * by lia. generalize dependent (Z.to_nat (m' - 1)).
    intros k. induction k as [|k IH]; intros Hle; [exact Hj|]. rewrite Nat2Z.inj_succ in *. set (x := Z.of_nat k) in *.
    pose proof (month_length_range y' (x + 1)). destruct (Hin y' (x + 1) (IH ltac:(lia)) (month_length y' (x + 1)) ltac:(lia)) as [n Hn].
    exists (S n). unfold date_of_day in *. rewrite Nat.iter_succ, <- Hn. cbn -[month_length]. rewrite Z.ltb_irrefl.
    destruct (Z.ltb_spec (x + 1) 12); [|lia]. repeat f_equal; lia. }
  apply Hin; [|done]. apply Hyear; [|done]. clear Hd m Hm d. revert y Hy. apply natlike_ind; [by exists 0%nat|]. intros y Hy IH.
  destruct (Hin y 12 (Hyear y IH 12 ltac:(lia)) 31 ltac:(by cbn; lia)) as [n Hn]. exists (S n). unfold date_of_day in *. rewrite Nat.iter_succ, <- Hn. done.
Qed.

(** *** The fields of an instant *)

(** Exactly [YYYY-MM-DDThh:mm:ssZ]. *)
Definition instant_shape (s : string) : bool :=
  (String.length s =? 20)%nat && byte_is s 10 "T" && byte_is s 19 "Z" && byte_is s 4 "-" && byte_is s 7 "-" && byte_is s 13 ":" && byte_is s 16 ":".

Lemma digit_range c d : text.digit c = Some d -> 0 <= d <= 9.
Proof. unfold text.digit. destruct ((48 <=? _) && _) eqn:E; [|done]. apply andb_prop in E as [?%Z.leb_le ?%Z.leb_le]. intros [= <-]. lia. Qed.
Lemma digits_from_range s i count v r : 0 <= v -> digits_from s i count v = Some r -> 0 <= r < (v + 1) * 10 ^ Z.of_nat count.
Proof.
  revert i v. induction count as [|count IH]; intros i v Hv; [intros [= ->]; cbn; lia|]. cbn [digits_from].
  destruct (String.get i s) as [c|]; [|done]. cbn. destruct (text.digit c) as [d|] eqn:Ed; [|done]. cbn. apply digit_range in Ed.
  intros Hr%IH; [|lia]. rewrite Nat2Z.inj_succ, Z.pow_succ_r by lia. nia.
Qed.
Lemma day_number_range y m d : 0 <= y < 10000 -> 1 <= m <= 12 -> 1 <= d <= 31 -> -720000 <= days_from_civil y m d <= 3000000.
Proof.
  intros Hy Hm Hd. rewrite days_from_march by lia. assert (0 <= (m + 9) mod 12 <= 11) as Hq by (pose proof (Z.mod_pos_bound (m + 9) 12); lia).
  set (q := (m + 9) mod 12) in *. clearbody q. set (y' := if m <=? 2 then y - 1 else y). assert (-1 <= y' < 10000) by (subst y'; destruct (m <=? 2); lia).
  clearbody y'. unfold march. Z.to_euclidean_division_equations; lia.
Qed.

Lemma checked64_fits z : i64_min <= z <= i64_max -> checked64 z = Some z.
Proof. intros Hz. unfold checked64. by rewrite (proj2 (in_i64b_spec z)). Qed.

(** C29 An instant counts days of the calendar.  A string of exactly the shape
    [YYYY-MM-DDThh:mm:ssZ], naming a date of the Gregorian calendar and a time of day, reads as that many days, reached one at a time
    from the first of January of the year zero, plus the time of day, in nanoseconds; it is
    refused exactly when that does not fit an [i64]. *)
Theorem instants_count_the_calendar s y m d hour minute second : instant_shape s = true ->
  digits s 0 4 = Some y -> digits s 5 2 = Some m -> digits s 8 2 = Some d -> civil_date (y, m, d) ->
  digits s 11 2 = Some hour -> digits s 14 2 = Some minute -> digits s 17 2 = Some second -> hour <= 23 -> minute <= 59 -> second <= 60 ->
  exists n, (y, m, d) = date_of_day n /\
    parse_iso8601_ns s = checked64 (((Z.of_nat n - 719528) * 86400 + (hour * 3600 + minute * 60 + second)) * 1000000000).
Proof.
  intros Hs Hy Hm Hd Hc Hh Hmi Hse Hh1 Hm1 Hs1. destruct (reached _ Hc) as [n Hn]. exists n. split; [done|].
  pose proof (date_of_day_number n) as Hnum. rewrite <- Hn in Hnum. cbn -[days_from_civil] in Hnum. destruct Hc as (_ & Hm0 & Hd0).
  pose proof (month_length_range y m). unfold instant_shape in Hs. rewrite !andb_true_iff in Hs.
  destruct Hs as ((((((H1%Nat.eqb_eq & H2) & H3) & H4) & H5) & H6) & H7).
  unfold parse_iso8601_ns. rewrite H1. cbn [Nat.ltb Nat.leb Nat.sub]. rewrite H2, H3, H4, H5, H6, H7, Hy, Hm, Hd, Hh, Hmi, Hse. cbn -[checked64 days_from_civil].
  apply digits_from_range in Hy as Hyr, Hh as Hhr, Hmi as Hmir, Hse as Hser; [|done..]. cbn in Hyr, Hhr, Hmir, Hser.
  pose proof (day_number_range y m d). 
  replace ((1 <=? m) && (m <=? 12)) with true by (symmetry; apply andb_true_intro; split; apply Z.leb_le; lia).
  replace ((1 <=? d) && (d <=? 31)) with true by (symmetry; apply andb_true_intro; split; apply Z.leb_le; lia). cbn -[checked64 days_from_civil].
  replace ((23 <? hour) || (59 <? minute) || (60 <? second)) with false by (symmetry; apply orb_false_intro; [apply orb_false_intro|]; apply Z.ltb_ge; lia).
  rewrite !checked64_fits by (rewrite ?Hnum; unfold i64_min, i64_max; lia). cbn -[checked64]. rewrite checked64_fits by (rewrite ?Hnum; unfold i64_min, i64_max; lia). cbn -[checked64]. by rewrite Hnum.
Qed.
End Calendar.

(** ** Ingest plans *)
Section Plans.
Import IngestPlan.
Implicit Types p q : IngestPlan.

(** A stream in time order, of instruments the plan names, when it names any. *)
Definition sound_stream (known : list string) (l : list EventRecord) : Prop :=
  StronglySorted (fun a b => EventRecord.ts a <= EventRecord.ts b) l /\ (known <> [] -> Forall (fun r => rec_instrument r ∈ known) l).
Definition sound_plan p : Prop := Forall (fun s => sound_stream (map inst_id (pl_instruments p)) s.2) (streams p).

Lemma validate_record_Ok known name previous r : validate_record known name previous r = Ok (Some (EventRecord.ts r)) \/
  exists e, validate_record known name previous r = Err e.
Proof.
  unfold validate_record. destruct previous as [t|]; [destruct (_ <? t); [right; by eexists|]|]; cbn; destruct (_ && _); eauto.
Qed.
Lemma validate_record_iff known name previous r : validate_record known name previous r = Ok (Some (EventRecord.ts r)) <->
  (forall t, previous = Some t -> t <= EventRecord.ts r) /\ (known <> [] -> rec_instrument r ∈ known).
Proof.
  unfold validate_record. assert (Hk : negb (match known with [] => true | _ => false end) && negb (existsb (String.eqb (rec_instrument r)) known) = false <->
    (known <> [] -> rec_instrument r ∈ known)).
  { destruct known as [|k known]; [by cbn|]. cbn [negb andb]. rewrite negb_false_iff, existsb_exists. split.
    - intros (x & Hx & ->%String.eqb_eq) _. by apply list_elem_of_In.
    - intros Hx. exists (rec_instrument r). split; [by apply list_elem_of_In, Hx|by apply String.eqb_eq]. }
  destruct previous as [t|].
  - destruct (Z.ltb_spec (EventRecord.ts r) t) as [Hlt|Hle]; cbn; [split; [done|]; intros [Hp _]; specialize (Hp t eq_refl); lia|].
    destruct (_ && _); split; try done; [intros [_ Hi]; by apply Hk in Hi|]. intros _. split; [by intros ? [= <-]|by apply Hk].
  - cbn. destruct (_ && _); split; try done; [intros [_ Hi]; by apply Hk in Hi|]. intros _. split; [done|by apply Hk].
Qed.
Lemma stream_iff known name l : forall previous,
  (exists o, foldr_res (validate_record known name) previous l = Ok o) <->
  sound_stream known l /\ (forall t, previous = Some t -> Forall (fun r => t <= EventRecord.ts r) l).
Proof.
  induction l as [|r l IH]; intros previous; cbn [foldr_res].
  { split; [|by eexists]. intros _. split; [|done]. by split; [constructor|]. }
  assert (Hr := validate_record_iff known name previous r). destruct (validate_record_Ok known name previous r) as [E|[e E]]; rewrite E in *.
  - rewrite IH. destruct (proj1 Hr eq_refl) as [Hp Hi]. split.
    + intros [[Hs Hk] Ht]. specialize (Ht _ eq_refl). split; [split|].
      * by constructor.
      * intros Hn. constructor; [by apply Hi|by apply Hk].
      * intros t Ept. constructor; [by apply Hp|]. eapply Forall_impl; [done|]. cbn. intros x Hx. specialize (Hp _ Ept). lia.
    + intros [[Hs Hk] Ht]. inversion Hs as [|? ? Hs' Hle]; subst. split; [split; [done|]|intros t [= <-]; done].
      intros Hn. specialize (Hk Hn). by inversion Hk.
  - split; [by intros [? ?]|]. intros [[Hs Hk] Ht]. enough (Hc : Err e = Ok (Some (EventRecord.ts r))) by done. apply Hr. split.
    + intros t Ept. specialize (Ht t Ept). by inversion Ht.
    + intros Hn. specialize (Hk Hn). by inversion Hk.
Qed.
Lemma validate_iff p : validate p = Ok tt <-> sound_plan p.
Proof.
  unfold validate, sound_plan. set (known := map inst_id _). induction (streams p) as [|[name l] ss IH]; [done|]. cbn [foldr_res].
  rewrite Forall_cons, <- IH. cbn [fst snd]. pose proof (stream_iff known name l None) as Hs.
  destruct (foldr_res (validate_record known name) None l) as [o|e]; cbn.
  - split; [intros Hv; split; [|done]|by intros [_ ?]]. by apply Hs; exists o.
  - split; [done|]. intros [Hl _]. destruct (proj2 Hs) as [o Ho]; [|done]. by split.
Qed.

Lemma filter_no_member {T} (P : T -> Prop) `{!forall x, Decision (P x)} l : Forall (fun x => ~ P x) l -> filter P l = [].
Proof. induction 1 as [|x l Hx _ IH]; [done|]. by rewrite filter_cons, decide_False. Qed.
(** Sorting keeps the records of one time in their order. *)
Lemma filter_push {T} (key : T -> Z) t x h : hwf key h ->
  filter (fun y => key y = t) (hpush key x h) = filter (fun y => key y = t) h ++ filter (fun y => key y = t) [x].
Proof.
  unfold hwf. induction h as [|y h IH]; intros Hh; [done|]. apply StronglySorted_inv in Hh as [Hh Hy]. cbn [hpush].
  destruct (kltb (key x) (key y)) eqn:E.
  - apply kltb_spec in E. change (key x < key y) in E. rewrite (filter_cons _ x). case_decide as Ex.
    + assert (filter (fun z => key z = t) (y :: h) = []) as ->.
      { apply filter_no_member. constructor; [lia|]. eapply Forall_impl; [exact Hy|]. cbn. intros z Hz. change (key y <= key z) in Hz. lia. }
      by rewrite filter_cons, decide_True.
    + by rewrite (filter_cons _ x), decide_False, app_nil_r.
  - rewrite !(filter_cons _ y), IH by done. by case_decide.
Qed.
Lemma filter_sorted {T} (key : T -> Z) t (l : list T) : filter (fun y => key y = t) (sort_by_key key l) = filter (fun y => key y = t) l.
Proof.
  unfold sort_by_key, hof_list. induction l as [|x l IH] using rev_ind; [done|]. rewrite fold_left_app. cbn.
  rewrite filter_push by apply hof_list_spec. change (fold_left _ l []) with (hof_list key l). by rewrite filter_app, <- IH.
Qed.

(** Merging gives a plan that can be committed.  When the plans together name the instrument
    of every record of either, or name none, the merged plan passes validation; each of its
    streams holds the records of both, in time order, those of the first plan before those of
    the second where the times tie. *)
Theorem merged_plan_is_committable p q :
  let m := merge p q in
  (map inst_id (pl_instruments m) <> [] -> Forall (fun r => rec_instrument r ∈ map inst_id (pl_instruments p ++ pl_instruments q)) (all_records p ++ all_records q)) ->
  validate m = Ok tt /\ Forall2 (fun s pq => s.2 ≡ₚ pq /\ forall t, filter (fun r => EventRecord.ts r = t) s.2 = filter (fun r => EventRecord.ts r = t) pq)
    (streams m) [book_events p ++ book_events q; trades p ++ trades q; funding p ++ funding q; references p ++ references q].
Proof.
  intros m Hk. assert (Hsort : forall l : list EventRecord, sort_by_key EventRecord.ts l ≡ₚ l) by (intros l; apply hof_list_spec).
  split.
  - apply validate_iff. unfold sound_plan.
    assert (Hgood : forall l, (forall r, r ∈ l -> r ∈ all_records p ++ all_records q) ->
      sound_stream (map inst_id (pl_instruments m)) (sort_by_key EventRecord.ts l)).
    { intros l Hl. split; [exact (proj2 (hof_list_spec EventRecord.ts l))|]. intros Hn. specialize (Hk Hn). rewrite Forall_forall in Hk |- *.
      intros r Hr. apply Hk, Hl. by rewrite <- (Hsort l). }
    unfold streams, m. cbn. unfold all_records in Hgood. repeat constructor; apply Hgood; intros r; rewrite !elem_of_app; tauto.
  - unfold streams, m. cbn. repeat (constructor; [split; [apply Hsort|intros t; apply filter_sorted]|]). constructor.
Qed.
End Plans.

(** ** The two readers of a Hyperliquid archive *)

Definition is_object (v : Value) : bool := match v with VObject _ => true | _ => false end.
Definition level_reads (v : Value) (l : string * string) : Prop :=
  Value.get v "px" = Some (VString l.1) /\ Value.get v "sz" = Some (VString l.2).
Definition side_reads (v : Value) (side : list (string * string)) : Prop := exists rows, v = VArray rows /\ Forall2 level_reads rows side.
Definition book_reads (json : Value) (b : RawBook) : Prop :=
  Value.str_field json "coin" = Some (rb_coin b) /\ Value.i64_field json "time" = Some (rb_time b) /\
  exists levels, Value.array_field json "levels" = Some levels /\ Forall2 side_reads levels (rb_levels b).
Definition trade_reads (v : Value) (t : RawTrade) : Prop :=
  Value.str_field v "coin" = Some (rt_coin t) /\ Value.str_field v "side" = rt_side t /\
  Value.get v "px" = Some (VString (rt_px t)) /\ Value.get v "sz" = Some (VString (rt_sz t)) /\ Value.i64_field v "time" = Some (rt_time t).
(** The elements a derived struct is read from are objects; serde would take an array of the
    fields as well. *)
Definition payload_objects (data : Value) : Prop :=
  match data with
  | VArray rows => Forall is_object rows
  | _ => forall levels, Value.array_field data "levels" = Some levels -> Forall (fun side => forall rows, side = VArray rows -> Forall is_object rows) levels
  end.
Definition written_as_objects (json : Value) : Prop :=
  is_object json /\ is_object (default json (Value.get json "raw")) /\
  forall data, Value.get (default json (Value.get json "raw")) "data" = Some data -> payload_objects data.
Definition one_coin (data : Value) : Prop := forall rows v, data = VArray rows -> v ∈ rows ->
  Value.str_field v "coin" = head rows ≫= (fun first => Value.str_field first "coin").

(** serde reads the same text into a derived struct and into a [Value] the same way: a string
    field is the string of that key, a raw value the text of its value. *)
Class RawAgrees `{Serde} `{RawSerde} : Prop := {
  line_agrees s l json : raw_line s = Some l -> from_str s = inr json -> is_object json ->
    Value.str_field json "time" = rl_time l /\
    match rl_raw l with
    | Some t => exists v, Value.get json "raw" = Some v /\ from_str t = inr v
    | None => Value.get json "raw" = None \/ Value.get json "raw" = Some VNull
    end /\
    (forall c, rl_channel l = Some c -> Value.str_field json "channel" = Some c) /\
    (forall t, rl_data l = Some t -> exists v, Value.get json "data" = Some v /\ from_str t = inr v);
  envelope_agrees s c t json : raw_envelope s = Some (c, t) -> from_str s = inr json -> is_object json ->
    Value.str_field json "channel" = Some c /\ exists v, Value.get json "data" = Some v /\ from_str t = inr v;
  book_agrees s b json : raw_book s = Some b -> from_str s = inr json -> payload_objects json -> book_reads json b;
  trades_agree s l json : raw_trades s = Some l -> from_str s = inr json -> payload_objects json ->
    exists rows, json = VArray rows /\ Forall2 trade_reads rows l;
}.

Section Readers.
Context `{RawAgrees} `{Chrono}.
Import Hyperliquid envelope.

Lemma ok_Some {A} (r : Result A) a : ok r = Some a -> r = Ok a.
Proof. destruct r; [by intros [= ->]|done]. Qed.
Lemma price_reads v field t p : Value.get v field = Some (VString t) -> fast_price t = Some p -> price v field = Ok p.
Proof.
  intros Hg. unfold fast_price, price, number. rewrite Hg. destruct (text.parse_f64 t) as [x|]; [|done]. cbn. apply ok_Some.
Qed.
Lemma size_reads v field t q : Value.get v field = Some (VString t) -> fast_size t = Some q -> qty v field = Ok q.
Proof.
  intros Hg. unfold fast_size, qty, number. rewrite Hg. destruct (text.parse_f64 t) as [x|]; [|done]. cbn. apply ok_Some.
Qed.
Lemma levels_read rows side ls : Forall2 level_reads rows side -> mapM fast_level side = Some ls -> map_res book_level rows = Ok ls.
Proof.
  intros Hr Hm. apply mapM_Some in Hm. revert ls Hm. induction Hr as [|v r rows side [Hp Hs] _ IH]; intros ls Hm; inversion Hm as [|? l ? ls' Hl Hls]; subst; [done|].
  cbn [map_res]. unfold fast_level in Hl. destruct (fast_price r.1) as [p|] eqn:Ep; [|done]. cbn in Hl. destruct (fast_size r.2) as [q|] eqn:Eq; [|done].
  injection Hl as <-. rewrite (IH _ Hls). unfold book_level. rewrite (price_reads _ _ _ _ Hp Ep), (size_reads _ _ _ _ Hs Eq). done.
Qed.
Lemma side_read v side ls : side_reads v side -> mapM fast_level side = Some ls -> book_side v = Ok ls.
Proof. intros (rows & -> & Hr) Hm. unfold book_side. cbn. by apply (levels_read rows side). Qed.

Lemma book_read data json cache c' rs : from_str data = inr json -> payload_objects json -> fast_book data cache = (c', Some rs) ->
  exists b id r, raw_book data = Some b /\ rs = [r] /\ Value.str_field json "coin" = Some (rb_coin b) /\
    InstrumentCache.get cache (rb_coin b) = (c', Ok id) /\ book_from_value json id = Ok r.
Proof.
  intros Hj Ho. unfold fast_book. destruct (raw_book data) as [b|] eqn:Eb; [|done]. destruct (book_agrees _ _ _ Eb Hj Ho) as (Hc & Ht & levels & Hl & Hs).
  destruct b as [coin time rl]. cbn in *. destruct rl as [|sb [|sa [|? ?]]]; [done|done| |done].
  inversion Hs as [|v1 ? l1 ? Hb1 Hs1]; subst. inversion Hs1 as [|v2 ? l2 ? Ha2 Hs2]; subst. inversion Hs2; subst.
  destruct (mapM fast_level sb) as [bids|] eqn:E1; [|done]. destruct (mapM fast_level sa) as [asks|] eqn:E2; [|done].
  destruct (InstrumentCache.get cache coin) as [c [id|]] eqn:Eg; [|done]. intros [= -> <-].
  eexists _, id, _. split; [done|]. split; [done|]. split; [done|]. split; [done|].
  unfold book_from_value, millis. rewrite Ht, Hl. cbn. by rewrite (side_read _ _ _ Hb1 E1), (side_read _ _ _ Ha2 E2).
Qed.

Lemma cache_get_again cache coin c' id : InstrumentCache.get cache coin = (c', Ok id) -> InstrumentCache.get c' coin = (c', Ok id).
Proof.
  unfold InstrumentCache.get. destruct (by_coin cache !! coin) as [i|] eqn:E; [by intros [= <- <-]; rewrite E|].
  destruct (instrument_id_for coin); [|done]. intros [= <- <-]. cbn. by rewrite lookup_insert_eq.
Qed.
Lemma trade_read v t id r : trade_reads v t -> fast_trade id t = Some r -> trade_row id v = Ok r.
Proof.
  intros (Hc & Hs & Hp & Hq & Ht). unfold fast_trade, trade_row, millis, aggressor. rewrite Ht, Hs. cbn.
  destruct (fast_price (rt_px t)) as [p|] eqn:Ep; [|done]. destruct (fast_size (rt_sz t)) as [q|] eqn:Eq; [|done]. intros [= <-].
  by rewrite (price_reads _ _ _ _ Hp Ep), (size_reads _ _ _ _ Hq Eq).
Qed.
Lemma trades_read rows l coin : Forall2 trade_reads rows l -> Forall (fun t => rt_coin t = coin) l -> l <> [] ->
  forall cache c' rs, fast_trades l cache = (c', Some rs) ->
    exists id, InstrumentCache.get cache coin = (c', Ok id) /\ map_res (trade_row id) rows = Ok rs.
Proof.
  intros Hr. induction Hr as [|v t rows l Ht Hr IH]; [done|]. intros [<- Hc]%Forall_cons _ cache c' rs. cbn [fast_trades map_res].
  destruct (InstrumentCache.get cache (rt_coin t)) as [c1 [id|]] eqn:Eg; [|done]. cbn [ok mbind option_bind]. destruct (fast_trade id t) as [r|] eqn:Er; [|done].
  destruct l as [|t2 l].
  { inversion Hr; subst. cbn [fast_trades]. intros [= <- <-]. exists id. by rewrite (trade_read _ _ _ _ Ht Er). }
  destruct (fast_trades (t2 :: l) c1) as [c2 [rs2|]] eqn:Ef; [|done]. destruct (IH Hc ltac:(done) c1 c2 rs2 Ef) as (id2 & Hg & Hm).
  rewrite (cache_get_again _ _ _ _ Eg) in Hg. injection Hg as <- <-. intros [= <- <-]. exists id. by rewrite (trade_read _ _ _ _ Ht Er), Hm.
Qed.
Lemma trades_payload data json cache c' rs : from_str data = inr json -> payload_objects json -> one_coin json ->
  forall l, raw_trades data = Some l -> l <> [] -> fast_trades l cache = (c', Some rs) ->
  exists coin id, payload_coin json = Some coin /\ InstrumentCache.get cache coin = (c', Ok id) /\ trades_from_value json id = Ok (by_ts rs).
Proof.
  intros Hj Ho Hcoin l El Hl Hf. destruct (trades_agree _ _ _ El Hj Ho) as (rows & -> & Hr).
  destruct l as [|t l]; [done|]. inversion Hr as [|v ? rows' ? Ht Hr']; subst. pose proof Ht as (Hc & _).
  assert (Hall : Forall (fun x => rt_coin x = rt_coin t) (t :: l)).
  { apply Forall_forall. intros x Hx. apply list_elem_of_lookup_1 in Hx as [i Hx]. destruct (Forall2_lookup_r _ _ _ _ _ Hr Hx) as (w & Hw%list_elem_of_lookup_2 & Hwt). pose proof (Hcoin _ _ eq_refl Hw) as Hco. cbn in Hco.
    destruct Hwt as (Hcw & _). congruence. }
  destruct (trades_read _ _ _ Hr Hall ltac:(done) _ _ _ Hf) as (id & Hg & Hm). exists (rt_coin t), id.
  split; [|split; [done|]]; [unfold payload_coin; by cbn|]. unfold trades_from_value. by rewrite Hm.
Qed.

Lemma channel_read line json l channel t : from_str line = inr json -> written_as_objects json -> raw_line line = Some l ->
  fast_channel l = Some (channel, t) -> Value.str_field json "time" = rl_time l /\
  Value.str_field (default json (Value.get json "raw")) "channel" = Some channel /\
  exists data, Value.get (default json (Value.get json "raw")) "data" = Some data /\ from_str t = inr data.
Proof.
  intros Hj (Ho & He & _) Hl Hc. destruct (line_agrees _ _ _ Hl Hj Ho) as (Ht & Hraw & Hch & Hd). split; [done|]. unfold fast_channel in Hc.
  destruct (rl_raw l) as [raw|].
  - destruct Hraw as (v & Hg & Hv). rewrite Hg in *. cbn in *. by apply (envelope_agrees raw).
  - destruct Hraw as [Hg|Hg]; rewrite Hg in *; [|done]. cbn in *. destruct (rl_channel l) as [c|]; [|done]. cbn in Hc.
    destruct (rl_data l) as [d|]; [|done]. injection Hc as -> ->. split; [by apply Hch|by apply Hd].
Qed.

(** C28 The fast reader of an archive reads what the tolerant one reads.  Whatever records it
    makes of a line, for a line whose structures are objects and whose trades are of one coin,
    the reader over the parsed document makes the same records in the same order, and leaves
    the same instrument cache. *)
Theorem fast_reader_agrees line json cache c' rs : from_str line = inr json -> written_as_objects json ->
  (forall data, Value.get (default json (Value.get json "raw")) "data" = Some data -> one_coin data) ->
  records_fast line cache = (c', Some rs) -> rs <> [] -> records_cached json cache = (c', Ok rs).
Proof.
  intros Hj Hw Hone. unfold records_fast. destruct (raw_line line) as [l|] eqn:El; [|done].
  destruct (fast_channel l) as [[channel t]|] eqn:Ec; [|by intros [= _ <-]].
  destruct (channel_read _ _ _ _ _ Hj Hw El Ec) as (Ht & Hc & data & Hd & Hdata). destruct Hw as (_ & _ & Ho). specialize (Ho _ Hd). specialize (Hone _ Hd).
  unfold records_cached. rewrite Ht, Hc, Hd. set (known := rl_time l ≫= archive_time.parse).
  destruct (String.eqb_spec channel "l2Book") as [->|_].
  - destruct (fast_book t cache) as [c1 [rs1|]] eqn:Ef; [|done]. destruct (book_read _ _ _ _ _ Hdata Ho Ef) as (b & id & r & Hb & -> & Hcoin & Hg & Hr).
    unfold payload_coin. rewrite Hcoin, Hg. intros [= <- Hk%ok_Some] _. cbn -[map_res]. rewrite Hr. by rewrite <- Hk.
  - destruct (String.eqb_spec channel "trades") as [->|_]; [|by intros [= _ <-]]. destruct (raw_trades t) as [trades|] eqn:Etr; [|done].
    destruct (fast_trades trades cache) as [c1 [rs1|]] eqn:Ef; [|done]. intros [= <- Hk%ok_Some] Hne.
    destruct trades as [|t0 trades]; [injection Ef as <- <-; cbn in Hk; by injection Hk as <-|].
    destruct (trades_payload _ _ _ _ _ Hdata Ho Hone _ Etr ltac:(done) Ef) as (coin & id & Hp & Hg & Hr). rewrite Hp, Hg. cbn -[map_res]. rewrite Hr. by rewrite <- Hk.
Qed.
End Readers.
