(* ===== verification/VenueWitness.v ===== *)
(** * The venue parsers at concrete inputs

    The theorems about the venue crate applied to small recorded feeds, with serde and chrono
    standing in as tables of the texts they are asked about, and what modelling the crate
    showed: the examples the findings name. *)
From S2P Require Export VenueProps EventWitness.
#[local] Open Scope Z_scope.
Import OrderbookDecoder.

(** serde over a table of texts; anything else is no JSON. *)
Definition serde_of (texts : list (string * Value)) : Serde := {|
  from_str s := match find (fun e => String.eqb e.1 s) texts with Some e => inr e.2 | None => inl "expected value" end;
  to_string _ := "";
|}.
#[export] Instance demo_chrono : Chrono := {| parse_from_rfc3339 _ := None; civil_nanos _ _ _ _ _ _ := None; format_seconds _ := "" |}.

(** ** A Kalshi feed *)
Definition num (z : Z) : Value := VNumber (PosInt z).
Definition envelope_of (kind : string) (seq : Z) (msg : list (string * Value)) : Value :=
  VObject [("type", VString kind); ("seq", num seq); ("msg", VObject (("market_ticker", VString "FED") :: msg))].
Definition level_of (p q : string) : Value := VArray [VString p; VString q].
Definition snapshot_at (seq : Z) : Value :=
  envelope_of "orderbook_snapshot" seq [("yes_dollars_fp", VArray [level_of "0.45" "100"; level_of "0.40" "10"]);
                                        ("no_dollars_fp", VArray [level_of "0.50" "20"])].
Definition delta_at (seq : Z) (side price delta : string) : Value :=
  envelope_of "orderbook_delta" seq [("ts_ms", num 1000); ("side", VString side); ("price_dollars", VString price); ("delta_fp", VString delta)].
Definition kalshi_texts : list (string * Value) :=
  [("snapshot 7", snapshot_at 7); ("delta 8", delta_at 8 "yes" "0.45" "-100"); ("delta 9", delta_at 9 "no" "0.50" "5");
   ("delta 11", delta_at 11 "yes" "0.40" "1"); ("unreadable 8", delta_at 8 "yes" "n/a" "-100"); ("snapshot 1", snapshot_at 1)].
#[local] Instance kalshi_serde : Serde := serde_of kalshi_texts.
Definition fed : OrderbookDecoder := mkOrderbookDecoder "FED" None true 0 false [] [].
Definition played (texts : list string) : OrderbookDecoder * Result (list EventRecord) := decode_all fed (map (fun t => (t, 2000000000)) texts).
(** Read from the snapshot on, a resent delta left out, then a gap and a restart. *)
Definition feed : list string := ["delta 11"; "snapshot 7"; "delta 8"; "delta 8"; "delta 9"; "delta 11"; "snapshot 1"].
Definition steady : list string := ["delta 11"; "snapshot 7"; "delta 8"; "delta 8"; "delta 9"].

(** Every snapshot of the table is sound. *)
Lemma sound_text body : sound_body body.
Proof.
  intros root msg Hr Hm. unfold from_str, kalshi_serde, serde_of in Hr.
  destruct (find _ kalshi_texts) as [e|] eqn:Ef; [|done]. injection Hr as <-. apply find_some in Ef as [Hin _].
  assert (Hall : Forall (fun e => forall msg, Value.get e.2 "msg" = Some msg -> sound_snapshot msg) kalshi_texts).
  { assert (Hsnap : forall seq msg, Value.get (snapshot_at seq) "msg" = Some msg -> sound_snapshot msg).
    { intros seq m [= <-] l. split; intros E; vm_compute in E; injection E as <-; (split; [repeat (apply List.Forall_cons; [vm_compute; discriminate|]); apply List.Forall_nil|]);
        apply (bool_decide_eq_true_1 (NoDup _)); vm_compute; reflexivity. }
    assert (Hdelta : forall seq side p q msg, Value.get (delta_at seq side p q) "msg" = Some msg -> sound_snapshot msg).
    { intros seq side p q m [= <-] l. split; intros [= <-]; (split; [apply List.Forall_nil|apply NoDup_nil_2]). }
    repeat (apply List.Forall_cons; [solve [apply Hsnap|apply Hdelta]|]). apply List.Forall_nil. }
  rewrite List.Forall_forall in Hall. by apply (Hall e Hin).
Qed.

Lemma decoder_drives_book_witness :
  exists b records, (played feed).2 = Ok records /\ MarketStore.MarketStore.replay_book records "FED" = Ok b /\ tracks True (played feed).1 b /\
    is_synced (played feed).1 = true /\ bids b = [(4 * SCALE / 10, 10 * SCALE); (45 * SCALE / 100, 100 * SCALE)] /\ asks b = [(SCALE / 2, 20 * SCALE)].
Proof.
  destruct (decoder_drives_book "FED" fed (map (fun t => (t, 2000000000)) feed) (played feed).1
    (match (played feed).2 with Ok l => l | Err _ => [] end)) as (b & Hb & Ht).
  - vm_compute. reflexivity.
  - vm_compute. reflexivity.
  - eexists b, _. split; [vm_compute; reflexivity|]. split; [exact Hb|]. split.
    + destruct Ht as [Hs Hl Hn]. split; [|exact Hl|exact Hn]. intros E. destruct (Hs E) as (Hg & Hf & Hsize). split; [exact Hg|]. split; [exact Hf|].
      intros _. apply Hsize, List.Forall_forall. intros m _. apply sound_text.
    + split; [vm_compute; reflexivity|]. vm_compute in Hb. injection Hb as <-. split; vm_compute; reflexivity.
Defined.

(** The venue behind the steady feed: its deltas and its book at every number. *)
Definition venue_delta (seq : Z) : bool * Price * Z :=
  if seq =? 8 then (true, 45 * SCALE / 100, -100 * SCALE) else if seq =? 9 then (false, SCALE / 2, 5 * SCALE)
  else if seq =? 11 then (true, 4 * SCALE / 10, SCALE) else (true, 0, 0).
Definition venue_book (seq : Z) (side : bool) (p : Price) : Qty :=
  if side then
    if p =? 45 * SCALE / 100 then (if seq <? 8 then 100 * SCALE else 0)
    else if p =? 4 * SCALE / 10 then (if seq <? 11 then 10 * SCALE else 11 * SCALE) else 0
  else if p =? SCALE / 2 then (if seq <? 9 then 20 * SCALE else 25 * SCALE) else 0.
Ltac venue_cases := unfold venue_book, venue_delta; change (45 * SCALE / 100) with 450000000; change (4 * SCALE / 10) with 400000000;
  change (SCALE / 2) with 500000000; unfold SCALE, i64_max.
Definition venue : Venue.
Proof.
  refine (Build_Venue venue_delta venue_book _ _); intros seq side p; venue_cases.
  - destruct (Z.eqb_spec (seq + 1) 8), (Z.eqb_spec (seq + 1) 9), (Z.eqb_spec (seq + 1) 11), side; cbn; repeat case_match; lia.
  - destruct side; repeat case_match; lia.
Defined.
Lemma sent_by_venue : Forall (fun m => sent_by venue fed m.1) (map (fun t => (t, 2000000000)) steady).
Proof.
  assert (Hdelta : forall body seq msg change, envelope fed body = Ok ("orderbook_delta", seq, msg) -> i64_min <= seq < i64_max ->
    (let? '(_, (side, _), (price, _), change) := change_of msg in Ok (side, price, change)) = Ok change -> venue_delta seq = change -> sent_by venue fed body).
  { intros body seq msg change He Hr Hc Hd k q m He'. rewrite He in He'. injection He' as <- <- <-. split; [exact Hr|]. split; [done|].
    intros _ ev side cside p c ch E. rewrite E in Hc. cbn in Hc. by injection Hc as <-. }
  repeat apply List.Forall_cons; try apply List.Forall_nil;
    try (eapply Hdelta; [vm_compute; reflexivity|unfold i64_min, i64_max; lia|vm_compute; reflexivity|vm_compute; reflexivity]).
  intros k q m He. vm_compute in He. injection He as <- <- <-. split; [unfold i64_min, i64_max; lia|]. split; [|done].
  intros _ y n book E p. assert (y = binsert (4 * SCALE / 10) (10 * SCALE) (binsert (45 * SCALE / 100) (100 * SCALE) []) /\ n = binsert (SCALE / 2) (20 * SCALE) []) as [-> ->].
  { vm_compute in E. injection E as <- <- _. split; vm_compute; reflexivity. }
  rewrite !size_at_insert, !keqb_Z. cbn [book_at venue]. venue_cases. change (size_at [] p) with 0. cbn. repeat case_match; lia.
Qed.
Lemma synced_follows_the_venue_witness :
  (exists last, last_seq (played steady).1 = Some last /\ holds_book venue last (yes (played steady).1) (no (played steady).1)) /\
  (last_seq (played steady).1, yes (played steady).1, no (played steady).1) = (Some 9, [(4 * SCALE / 10, 10 * SCALE)], [(SCALE / 2, 25 * SCALE)]).
Proof.
  split; [|vm_compute; reflexivity].
  destruct (synced_follows_the_venue venue "FED" fed (map (fun t => (t, 2000000000)) steady) (played steady).1
    (match (played steady).2 with Ok l => l | Err _ => [] end)) as (last & Hl & Hh & _).
  - vm_compute. reflexivity.
  - exact sent_by_venue.
  - vm_compute. reflexivity.
  - vm_compute. reflexivity.
  - exists last. split; [exact Hl|exact Hh].
Defined.

(** ** What modelling the Kalshi decoder showed *)

(** A delta in order that cannot be read is refused after its number was taken: no gap is
    reported, the decoder says it is in step, and the next delta is applied to a book that
    misses it. *)
Definition after_texts (texts : list string) : OrderbookDecoder := (played texts).1.
Definition one_more (d : OrderbookDecoder) (text : string) : OrderbookDecoder * Result (list EventRecord) := decode d text 2000000000.
Example unreadable_delta_is_lost_silently :
  let '(d, refused) := one_more (after_texts ["snapshot 7"]) "unreadable 8" in
  let '(d', applied) := one_more d "delta 9" in
  is_ok refused = false /\ is_synced d = true /\ last_seq d = Some 8 /\ gap_reported d = false /\
  match applied with Ok [r] => match rec_event r with EvBookDelta _ => True | _ => False end | _ => False end /\
  is_synced d' = true /\ yes d' = [(4 * SCALE / 10, 10 * SCALE); (45 * SCALE / 100, 100 * SCALE)].
Proof. vm_compute. repeat split. Qed.

(** A venue that restarts its numbering near where it stands is taken for one that resends: its
    deltas are left out without a gap, and the one that reaches the next number is applied. *)
Definition restarted : list (string * Value) :=
  ("delta 6", delta_at 6 "yes" "0.40" "-10") :: ("delta 7", delta_at 7 "yes" "0.40" "7") :: kalshi_texts.
Example a_near_restart_is_left_out :
  let '(d, out) := @decode_all (serde_of restarted) fed
    [("snapshot 7", 5); ("delta 6", 6); ("delta 7", 7); ("delta 8", 8)] in
  is_synced d = true /\ (let? l := out in Ok (existsb (fun r => match rec_event r with EvGap => true | _ => false end) l)) = Ok false.
Proof. vm_compute. split; reflexivity. Qed.

(** ** Polymarket's instants *)
Lemma instants_count_the_calendar_witness :
  exists n, (2024, 2, 29) = date_of_day n /\
    instant.parse_iso8601_ns "2024-02-29T23:59:60Z" = checked64 (((Z.of_nat n - 719528) * 86400 + 86400) * 1000000000) /\
    instant.parse_iso8601_ns "2024-02-29T23:59:60Z" = Some 1709251200000000000.
Proof.
  destruct (instants_count_the_calendar "2024-02-29T23:59:60Z" 2024 2 29 23 59 60) as (n & Hn & Hp);
    [vm_compute; reflexivity..| |vm_compute; reflexivity|vm_compute; reflexivity|vm_compute; reflexivity|lia|lia|lia|].
  - unfold civil_date. vm_compute. repeat split; discriminate.
  - exists n. split; [exact Hn|]. split; [exact Hp|vm_compute; reflexivity].
Defined.

(** A day the month does not have is a day of the next, and what stands between the seconds and
    the last letter is not looked at. *)
Example days_past_the_month_are_accepted :
  instant.parse_iso8601_ns "2025-02-31T00:00:00Z" = instant.parse_iso8601_ns "2025-03-03T00:00:00Z" /\
  instant.parse_iso8601_ns "2025-02-31T00:00:00Z" <> None /\
  instant.parse_iso8601_ns "2025-03-03T00:00:00+05:00Z" = instant.parse_iso8601_ns "2025-03-03T00:00:00Z".
Proof. vm_compute. split; [reflexivity|split; [discriminate|reflexivity]]. Qed.

(** ** Ingest plans *)
Definition listed_as (name venue : string) (labels : list string) : Instrument :=
  mkInstrument name venue PredictionMarket labels (SCALE / 1000) SCALE "USDC" None None false Tick.
Definition trade_at (ts : Z) (name : string) (price : Z) : EventRecord := mkEventRecord (mkStamps ts ts) name 0 (EvTrade price SCALE None).
Definition morning : IngestPlan :=
  IngestPlan.with_trades (IngestPlan.with_instruments (IngestPlan.new "venue") [listed_as "UP" "a" ["YES"; "NO"]]) [trade_at 5 "UP" 1; trade_at 9 "UP" 2].
Definition evening : IngestPlan :=
  IngestPlan.with_trades (IngestPlan.with_instruments (IngestPlan.new "venue") [listed_as "DOWN" "b" ["YES"; "NO"]]) [trade_at 9 "DOWN" 3; trade_at 7 "UP" 4].
Lemma merged_plan_is_committable_witness : IngestPlan.validate (IngestPlan.merge morning evening) = Ok tt /\
  IngestPlan.validate evening = Err (OutOfOrder "trades" 7 9) /\
  trades (IngestPlan.merge morning evening) = [trade_at 5 "UP" 1; trade_at 7 "UP" 4; trade_at 9 "UP" 2; trade_at 9 "DOWN" 3].
Proof.
  split; [|split; vm_compute; reflexivity].
  apply (merged_plan_is_committable morning evening). intros _. apply (bool_decide_eq_true_1 (Forall _ _)). vm_compute. reflexivity.
Defined.

(** Plans that write different instruments, and plans whose book deltas differ in the action,
    share what their digest hashes; the parts of one load merged in another order do not. *)
Definition delta_plan (delta : BookDelta) : IngestPlan :=
  IngestPlan.with_book_events (IngestPlan.new "venue") [mkEventRecord (mkStamps 1 1) "UP" 0 (EvBookDelta delta)].
Example digest_leaves_columns_out :
  let named venue labels := IngestPlan.with_instruments (IngestPlan.new "venue") [listed_as "UP" venue labels] in
  IngestPlan.digest_input (named "a" ["YES"; "NO"]) = IngestPlan.digest_input (named "b" ["UP"; "DOWN"]) /\
  IngestPlan.digest_input (delta_plan (BookDelta.delete Buy SCALE)) = IngestPlan.digest_input (delta_plan (BookDelta.set Buy SCALE 0)) /\
  IngestPlan.digest_input (IngestPlan.merge morning evening) <> IngestPlan.digest_input (IngestPlan.merge evening morning).
Proof. vm_compute. split; [reflexivity|]. split; [reflexivity|discriminate]. Qed.

(** ** The two readers of a Hyperliquid archive *)
Definition wire_trade (coin side px sz : string) (time : Z) : Value :=
  VObject [("coin", VString coin); ("side", VString side); ("px", VString px); ("sz", VString sz); ("time", num time)].
Definition wire_book : Value :=
  VObject [("coin", VString "BTC"); ("time", num 40);
           ("levels", VArray [VArray [VObject [("px", VString "99.5"); ("sz", VString "2")]]; VArray [VObject [("px", VString "100.5"); ("sz", VString "1")]]])].
Definition wire_message (channel : string) (data : Value) : Value := VObject [("channel", VString channel); ("data", data)].
Definition archived (message : Value) : Value := VObject [("ver_num", num 1); ("raw", message)].
Definition two_trades : Value := VArray [wire_trade "BTC" "B" "100" "0.5" 70; wire_trade "BTC" "A" "99.5" "1" 60].
Definition mixed_trades : Value := VArray [wire_trade "BTC" "B" "100" "0.5" 70; wire_trade "ETH" "A" "99.5" "1" 60].
Definition archive_texts : list (string * Value) :=
  [("two", two_trades); ("mixed", mixed_trades); ("book", wire_book);
   ("raw book", wire_message "l2Book" wire_book); ("raw two", wire_message "trades" two_trades);
   ("archived book", archived (wire_message "l2Book" wire_book)); ("archived two", archived (wire_message "trades" two_trades));
   ("live mixed", wire_message "trades" mixed_trades)].
#[local] Instance archive_serde : Serde := serde_of archive_texts.
Definition lookup_text {A} (l : list (string * A)) (s : string) : option A := snd <$> find (fun e => String.eqb e.1 s) l.
#[local] Instance archive_raw : RawSerde := {|
  raw_line := lookup_text [("archived book", mkRawLine None (Some "raw book") None None); ("archived two", mkRawLine None (Some "raw two") None None);
                           ("live mixed", mkRawLine None None (Some "trades") (Some "mixed"))];
  raw_envelope := lookup_text [("raw book", ("l2Book", "book")); ("raw two", ("trades", "two"))];
  raw_book := lookup_text [("book", mkRawBook "BTC" 40 [[("99.5", "2")]; [("100.5", "1")]])];
  raw_trades := lookup_text [("two", [mkRawTrade "BTC" (Some "B") "100" "0.5" 70; mkRawTrade "BTC" (Some "A") "99.5" "1" 60]);
                             ("mixed", [mkRawTrade "BTC" (Some "B") "100" "0.5" 70; mkRawTrade "ETH" (Some "A") "99.5" "1" 60])];
|}.
Lemma lookup_text_some {A} (l : list (string * A)) s a : lookup_text l s = Some a -> (s, a) ∈ l.
Proof.
  unfold lookup_text. destruct (find _ l) as [[k v]|] eqn:E; [|done]. apply find_some in E as [Hin Es]. cbn in Es. apply String.eqb_eq in Es as ->.
  cbn. intros [= <-]. by apply list_elem_of_In.
Qed.
Ltac each_text H := apply lookup_text_some in H; repeat (apply elem_of_cons in H as [H|H]; [|]); [..|by apply not_elem_of_nil in H];
  injection H; clear H; intros; subst.
#[local] Instance archive_agrees : RawAgrees.
Proof.
  split.
  - intros s l json Hl Hj _. each_text Hl; vm_compute in Hj; injection Hj as <-; (split; [reflexivity|]).
    1,2: split; [eexists; split; reflexivity|split; done].
    split; [by left|]. split; [by intros ? [= <-]|]. intros ? [= <-]. eexists. split; reflexivity.
  - intros s c t json Hl Hj _. each_text Hl; vm_compute in Hj; injection Hj as <-; (split; [reflexivity|eexists; split; reflexivity]).
  - intros s b json Hb Hj _. each_text Hb; vm_compute in Hj; injection Hj as <-. split; [reflexivity|]. split; [reflexivity|]. eexists. split; [reflexivity|].
    repeat (apply Forall2_cons; split; [eexists; split; [reflexivity|apply Forall2_cons; split; [split; reflexivity|by apply Forall2_nil]]|]). by apply Forall2_nil.
  - intros s l json Hl Hj _. each_text Hl; vm_compute in Hj; injection Hj as <-; (eexists; split; [reflexivity|]);
      repeat (apply Forall2_cons; split; [by repeat split|]); by apply Forall2_nil.
Qed.

Definition read_both (line : string) : option (list EventRecord) * Result (list EventRecord) :=
  ((envelope.records_fast line InstrumentCache.new).2,
   match from_str line with inr json => (envelope.records_cached json InstrumentCache.new).2 | inl e => Err (invalid e) end).
Lemma fast_reader_agrees_witness :
  exists cache records, length records = 2%nat /\ envelope.records_fast "archived two" InstrumentCache.new = (cache, Some records) /\
    envelope.records_cached (archived (wire_message "trades" two_trades)) InstrumentCache.new = (cache, Ok records).
Proof.
  destruct (envelope.records_fast "archived two" InstrumentCache.new) as [cache r] eqn:E.
  assert (Hr : exists l, r = Some l /\ length l = 2%nat) by (apply (f_equal snd) in E; vm_compute in E; subst r; eexists; split; reflexivity).
  destruct Hr as (l & -> & Hl). exists cache, l. split; [exact Hl|]. split; [reflexivity|].
  apply (fast_reader_agrees "archived two"); [vm_compute; reflexivity| | |exact E|by intros ->].
  - split; [reflexivity|]. split; [reflexivity|]. intros data [= <-]. repeat (apply List.Forall_cons; [reflexivity|]). apply List.Forall_nil.
  - intros data [= <-] rows v [= <-] Hv. repeat (apply elem_of_cons in Hv as [->|Hv]; [reflexivity|]). by apply not_elem_of_nil in Hv.
Defined.

(** Trades of two coins in one message: the fast reader gives each its own coin, the tolerant
    one gives all of them the first. *)
Example mixed_coins_read_differently :
  let '(fast, tolerant) := read_both "live mixed" in
  (map rec_instrument <$> fast) = Some ["ETH-PERP"; "BTC-PERP"] /\ (let? l := tolerant in Ok (map rec_instrument l)) = Ok ["BTC-PERP"; "BTC-PERP"].
Proof. vm_compute. split; reflexivity. Qed.
